(* ===== verification/_CoqProject ===== *)
-Q . S2P
Prelude.v
Buffers.v
Memory.v
ConstTime.v
Base64.v
Cbs.v
Cbb.v
Ber.v
Modes.v
Cbc.v
RsaPkcs1.v
RsaHash.v
BnWords.v
Bignum.v
BnBytes.v
BnCtx.v
BnShift.v
BnProducts.v
BnMul.v
BnDiv.v
BnMod.v
BnMont.v
PbWire.v
DigestSpec.v
Md32.v
Sha.v
Sha512.v
Md5.v
Evp.v
Hmac.v
Lhash.v
Stack.v
Buf.v
ChaCha.v
Poly1305.v
Aead.v
ChaChaPoly.v
AesSpec.v
Aes.v
AesModes.v
