(* ===== verification/Prelude.v ===== *)
(** * Verified components of the C libraries bundled with CardsGame

    CardsGame is an iOS application written in Swift; the C code of its
    repository comes with the CocoaPods it is built on, and nearly all of it is
    BoringSSL (src/CardsGame/Pods/BoringSSL/crypto) or nanopb (src/CardsGame/Pods/nanopb).
    This library models parts of that code as executable definitions and proves
    what makes them correct. File names below are relative to BoringSSL's crypto
    directory unless they say otherwise.

    ** Conventions

    - The pods are built for 64-bit targets with OPENSSL_NO_ASM, so the portable
      C branches are the ones modelled: [size_t] and [BN_ULONG] have 64 bits and
      wrap around ([wrap], [u8], [u32], [u64] below), [int] has 32.
    - A byte string is a [list Z] whose elements are in [0, 256) ([bytes_ok]).
      A pointer and a length are a list; an output buffer that is filled in place
      is a list updated with [splice], [set] or, in Cbc, one memory that input
      and output share. Where a routine takes distinct objects by pointer (Cbb,
      Bignum) the file says what aliasing is covered.
    - A routine that returns 0 or NULL on failure returns [option] or a [bool]
      with the state it leaves; one that queues an error returns [result].
    - Allocation is an argument [alloc_ok] (does a request of so many bytes
      succeed) and fresh memory an argument [uninit]; the random generator is a
      stream of bytes ([rng]); block ciphers and digests are arguments with the
      laws of [Block128] and [DigestOk]. Every theorem that uses such a law has
      a witness with a concrete function.
    - Recursion that is not structural takes fuel. The fuel is a length of the
      data (each turn consumes at least one byte) or the number of objects, and
      theorems state that the result is produced, not only what it would be.

    ** The files

    - Prelude: machine integers, byte strings, slices, big- and
      little-endian numbers, the tactics [slia] (lengths) and [word_lia] (wrap-around), hint databases.
    - Buffers: XOR, loads and stores on ranges of a buffer. Memory: one memory
      whose ranges may coincide or overlap (Cbc, Aead, ChaChaPoly).
    - ConstTime (internal.h): branch-free masks, comparison and selection. Each
      computes the comparison it is named after.
    - Base64 (base64/base64.c): the block encoder and decoder and the two
      streaming state machines on [EVP_ENCODE_CTX]. Decoding what was encoded
      returns the data for every way of cutting both into calls.
    - Cbs (bytestring/cbs.c, part of mem.c): the byte-string reader, in a reader
      monad that keeps the position a failing read leaves. The DER readers
      accept exactly the canonical encodings.
    - Cbb (bytestring/cbb.c): the builder, a heap of [CBB]s over one growing
      buffer with pending length prefixes. Refinement: building a tree of items
      by the calls and finishing gives exactly the tree's serialisation; errors
      are sticky; what is built is read back by Cbs.
    - Ber (bytestring/ber.c, asn1_compat.c): detection of BER and conversion to
      DER over Cbs and Cbb. Detection terminates and is sound, and misses some
      inputs, which a theorem exhibits.
    - Modes (fipsmodule/modes/ctr.c, ofb.c, cfb.c): the stream modes, each as an
      instance of [StreamMode] (a byte step and a word step that agree), so that
      chunking is proved once. Counter mode is the XOR with the encrypted
      counters, its 32-bit variant equals it across overflow, and every mode
      undoes itself.
    - Cbc (fipsmodule/modes/cbc.c): both directions in one memory; decryption is
      right when the output starts at or before the input, or after the whole
      blocks that are read.
    - RsaPkcs1, RsaHash (fipsmodule/rsa/padding.c): PKCS #1 v1.5, OAEP, PSS and
      MGF1. Each check accepts exactly the encodings, with one error where
      secrets are involved for all others long enough to be one, and reads back what was padded.
    - BnWords (fipsmodule/bn/generic.c, cmp.c): loops over word arrays; the
      unrolled loops equal the plain ones and are exact with carry and borrow.
    - Bignum (fipsmodule/bn/bn.c, cmp.c, add.c): [BIGNUM] with its invariant
      [bn_ok] ([top] minimal, no negative zero) and value [bn_val]; signed
      addition and subtraction, comparison, predicates, storage.
    - BnBytes (fipsmodule/bn/bytes.c, part of bn.c): sizes, parsing, writing.
    - BnCtx (fipsmodule/bn/ctx.c): temporaries in nested frames. The classes
      [Temporaries] and [TemporariesOk] are what a routine calls and relies on;
      ctx.c is the instance, and it implements a lender of distinct numbers.
      [delivers] says of a routine that its result is exact and that it fails
      only for want of memory.
    - BnShift (fipsmodule/bn/shift.c): shifts and bits, in place or apart.
    - BnProducts (fipsmodule/bn/mul.c, the Comba part of generic.c): schoolbook
      rows, unrolled columns and Karatsuba's recursions on word arrays, with the
      room in the scratch array; all compute the schoolbook product.
    - BnMul (fipsmodule/bn/mul.c): [BN_mul], [BN_sqr], [BN_mul_word], exact for
      any context behind [Temporaries].
    - BnDiv (fipsmodule/bn/div.c): [BN_div] over named objects, so that results
      and operands may coincide; the long division word by word.
    - BnMod (fipsmodule/bn/div.c): residues of sums, products and shifts, one-word
      divisors and powers of two.
    - BnMont (fipsmodule/bn/montgomery.c, montgomery_inv.c): Montgomery contexts
      ([mont_ok]), the reduction word by word and the arithmetic of residues in
      Montgomery form.
    - PbWire (src/CardsGame/Pods/nanopb: pb_decode.c, pb_encode.c): streams with a
      limit, varints, tags, strings, substreams and scalar fields. Encoders and
      decoders are related by two classes, [Emits] (writes these bytes exactly
      when they fit, to a buffer or a sizing stream) and [Reads] (reads this
      value from these bytes whatever follows); decoders stay inside their field
      on any input.
    - DigestSpec: the numerical recipes of the digest standards (roots, primes,
      sines, rotations) and machine-word facts. The standards are written from
      these, so that the tables in the C code are proved, not copied.
    - Md32 (fipsmodule/digest/md32_common.h): the collector the 32-bit digests
      are instances of, over any block function ([BlockFunction]). It keeps the
      Merkle-Damgard state of what it has taken and pads as the standards say.
    - Sha, Sha512, Md5 (fipsmodule/sha, md5, md4): the unrolled block functions
      with their rotating registers and circular schedules equal the loops of
      FIPS 180-4, RFC 1321 and RFC 1320, and so do the streams, for any chunks.
    - Evp (fipsmodule/digest): the dispatch tables and [EVP_MD_CTX]. The class
      [MessageDigest] is what a table promises; its instances are the eight
      digests. Contexts stream and copy for any table that keeps it, and Hmac is
      proved against the class alone.
    - Hmac (fipsmodule/hmac/hmac.c, hkdf/hkdf.c): HMAC and HKDF are RFC 2104 and
      RFC 5869, the contexts rewound with a null key included.
    - Lhash (lhash/lhash.c): the hash table as linked cells of a heap (a [gmap]
      from addresses), entered through pointers to pointers. Refinement: any
      run from an empty table answers as a map up to the comparison, across
      resizing and failed allocations; iteration hands each element once to a
      callback that may delete it.
    - Stack (stack/stack.c): the array of pointers with its sorted flag; any run
      acts on the list of elements, searching finds the first match, copying
      deeply leaks nothing. qsort and bsearch are arguments ([CLibrary]).
    - Buf (buf/buf.c): growing buffers and bounded string copies, exact on every
      size, 0 and strings without a NUL included.
    - ChaCha (chacha/chacha.c), Poly1305 (poly1305/poly1305.c): the cipher of RFC
      7539 with its 32-bit counter, and the authenticator in 26-bit limbs, which
      is that of the RFC up to one dropped carry.
    - Aead (fipsmodule/cipher/aead.c): the contexts over a table of functions.
      Whatever the table, a failure leaves a zeroed buffer. The class
      [AeadScheme] is what a table of a stateless algorithm without an [open] of
      its own promises; sealing and opening are exact for its instances.
      ChaChaPoly (cipher_extra/e_chacha20poly1305.c) is the one for RFC 8439.
    - AesSpec: FIPS 197 without tables (the field, the S-box, rounds and both
      directions of the cipher). Aes (fipsmodule/aes/aes.c): the code, whose
      words and tables compute that state of bytes. AesModes
      (fipsmodule/aes/mode_wrappers.c, key_wrap.c): the modes over AES, by the
      [BlockCipher] instance, and key wrapping, which is RFC 3394.

    ConstTime is used by Base64, Bignum and the two paddings; Cbs by Cbb, Ber,
    RsaHash and Bignum ([CRYPTO_memcmp]); Cbb by Ber; Modes by Cbc ([Block128]);
    RsaPkcs1 by RsaHash (errors and random bytes); BnWords by Bignum and Bignum
    by BnBytes, BnCtx and BnShift; BnWords by
    BnProducts, which BnMul puts to work in numbers lent by BnCtx; BnShift, BnMul
    and BnCtx by BnDiv, and all of these by BnMod and BnMont; Md32 by Sha and
    Md5, and all digests by Evp, which Hmac uses;
    ChaCha, Poly1305 and Aead by ChaChaPoly; AesSpec by Aes, and Aes, Modes and
    Cbc by AesModes.

    ** Defects that modelling showed

    [Ber.cbs_find_ber_exact]: a sibling makes the detection forget a BER
    element. [BnBytes.BN_parse_sign]: BN_le2bn keeps the old sign of the object
    it overwrites, and BN_bin2bn of an empty string makes a negative zero.
    [BnDiv.BN_div_exact]: the remainder has the wrong sign when the quotient
    replaces the numerator and the divisor is negative.
    [PbWire.pb_decode_tag_truncated]: a message cut inside a tag is taken for a
    complete one. [Stack.sk_search_and_copy]: replacing an element leaves the
    stack marked as sorted, and later searches miss elements.
    [Poly1305.poly1305_exact]: the last reduction loses a carry on rare
    residues. [ChaChaPoly.chacha20_poly1305_exact]: the length
    check leaves out the extra input, which can reach the one-time key's block.
    [Cbc.cbc128_in_memory]: the assertion on overlap counts the bytes asked for
    and not the last block that is read, and lets the output overwrite it.

    Comments that the code does not keep: [pb_decode_varint32] is said to work
    for int32 and enum, and refuses their negative values
    ([PbWire.pb_primitives_exact]); [BN_clear_bit] and [BN_mask_bits] fail by the
    words in use and not for memory or the length in bits, and the shifts also
    for negative counts ([BnShift.BN_shift_exact]); [BUF_memdup] of no bytes is
    NULL ([Buf.buf_exact]).

    ** Not modelled

    Release of memory, locks and errors beyond the reason code; CBS_stow,
    CBS_strdup and CBB_finish_i2d (heap copies and callbacks); CBB_finish given a
    NULL place for its result (its model has both places); the Swift
    application, whose logic calls closed-source or Objective-C frameworks; the
    C++ and Objective-C pods; in BoringSSL, the TLS stack (C++), X.509, EVP, PEM
    and ASN.1 templates (table-driven glue), elliptic curves, and generated
    tables. Planned next, in order: modular exponentiation and inverses
    (exponentiation.c, gcd.c) and nanopb messages (field descriptors, pb_encode and pb_decode). *)

From Stdlib Require Export ZArith Lia List Bool.
Export ListNotations.

#[global] Open Scope Z_scope.
#[global] Open Scope list_scope.

(** ** Machine integers

    A C value of an unsigned type of width [w] is a [Z] in [0, 2^w); every
    operation that can leave the range is followed by [wrap w]. *)

Definition wrap (w x : Z) : Z := x mod 2 ^ w.

Abbreviation u8 := (wrap 8).
Abbreviation u16 := (wrap 16).
Abbreviation u32 := (wrap 32).
Abbreviation u64 := (wrap 64).

(** Limits of the platform the pods are built for (64-bit Apple targets). *)
Definition SIZE_MAX : Z := 18446744073709551615.
Definition INT_MAX : Z := 2147483647.

(** Conversion of an unsigned value to the signed type of the same width. *)
Definition to_signed (w x : Z) : Z :=
  let y := wrap w x in if y <? 2 ^ (w - 1) then y else y - 2 ^ w.

(** [zconst] evaluates the powers of two with literal exponents, so that
    [lia] sees numerals; [word_lia] does so after unfolding [wrap]. *)
Ltac is_literal k :=
  lazymatch k with
  | Z0 => idtac | Zpos ?p => is_ground p | Zneg ?p => is_ground p
  end.
Ltac zconst :=
  repeat match goal with
  | |- context [2 ^ ?k] => is_literal k; let c := eval vm_compute in (2 ^ k) in change (2 ^ k) with c in *
  | _ : context [2 ^ ?k] |- _ => is_literal k; let c := eval vm_compute in (2 ^ k) in change (2 ^ k) with c in *
  end.
Ltac word_lia := unfold wrap in *; zconst; Z.to_euclidean_division_equations; lia.

(** [splits]: the conjuncts of the goal as it is written. *)
Ltac splits := repeat match goal with |- _ /\ _ => split end.

Lemma wrap_range w x : 0 <= w -> 0 <= wrap w x < 2 ^ w.
Proof. intros. apply Z.mod_pos_bound. apply Z.pow_pos_nonneg; lia. Qed.

Lemma wrap_small w x : 0 <= x < 2 ^ w -> wrap w x = x.
Proof. apply Z.mod_small. Qed.

Lemma wrap_wrap w x : wrap w (wrap w x) = wrap w x.
Proof. apply Zmod_mod. Qed.

Lemma wrap_wrap_le v w x : 0 <= v <= w -> wrap v (wrap w x) = wrap v x.
Proof.
  intros. unfold wrap. replace w with (v + (w - v)) by lia.
  rewrite Z.pow_add_r by lia.
  apply Z.mod_mod_divide. exists (2 ^ (w - v)). lia.
Qed.

(** ** Byte strings *)

Definition byte_ok (b : Z) : Prop := 0 <= b < 256.
Definition bytes_ok (l : list Z) : Prop := Forall byte_ok l.

(** [size_t] length of a buffer. *)
Definition len {A} (l : list A) : Z := Z.of_nat (length l).

(** [take n l] and [drop n l] for a C length [n]. *)
Definition take {A} (n : Z) (l : list A) : list A := firstn (Z.to_nat n) l.
Definition drop {A} (n : Z) (l : list A) : list A := skipn (Z.to_nat n) l.

(** Reading element [i] of an array that is known to be long enough. *)
Definition get (l : list Z) (i : Z) : Z := nth (Z.to_nat i) l 0.

(** [memcpy(&buf[off], src, len(src))]: the bytes of [src] replace those of
    [buf] from [off]. Callers stay in range; the lemmas below ask for it. *)
Definition splice {A} (buf : list A) (off : Z) (src : list A) : list A :=
  take off buf ++ src ++ drop (off + len src) buf.

(** ** Error plumbing: C functions that return 0 or NULL on failure *)

Declare Scope c_scope.
Delimit Scope c_scope with C.
#[global] Open Scope c_scope.

Notation "'let*' x ':=' e 'in' k" :=
  (match e with Some x => k | None => None end)
  (at level 10, x binder, e at level 100, k at level 200) : c_scope.

Notation "'guard' b 'in' k" := (if b then k else None)
  (at level 10, b at level 100, k at level 200) : c_scope.

(** ** Hint databases of the library *)

Create HintDb bytes discriminated.
Create HintDb lens discriminated.
Create Rewrite HintDb len.

(** ** Lemmas on lengths and slices *)

Section Slices.
Context {A : Type}.
Implicit Types l k : list A.

Lemma len_nonneg l : 0 <= len l.
Proof. unfold len; lia. Qed.

Lemma len_nil : len (@nil A) = 0.
Proof. reflexivity. Qed.

Lemma len_cons x l : len (x :: l) = 1 + len l.
Proof. unfold len; cbn [length]; lia. Qed.

Lemma len_app l k : len (l ++ k) = len l + len k.
Proof. unfold len; rewrite length_app; lia. Qed.

Lemma len_0_nil l : len l = 0 -> l = [].
Proof. destruct l; [reflexivity | rewrite len_cons; pose proof (len_nonneg l); lia]. Qed.

Lemma len_take n l : 0 <= n <= len l -> len (take n l) = n.
Proof. unfold len, take; intros; rewrite length_firstn; lia. Qed.

Lemma len_take_min n l : 0 <= n -> len (take n l) = Z.min n (len l).
Proof. unfold len, take; intros; rewrite length_firstn; lia. Qed.

Lemma len_drop n l : 0 <= n <= len l -> len (drop n l) = len l - n.
Proof. unfold len, drop; intros; rewrite length_skipn; lia. Qed.

Lemma len_rev l : len (rev l) = len l.
Proof. unfold len; rewrite length_rev; lia. Qed.

Lemma len_repeat (x : A) n : len (repeat x n) = Z.of_nat n.
Proof. unfold len; rewrite repeat_length; lia. Qed.

Lemma len_map {B} (f : A -> B) l : len (map f l) = len l.
Proof. unfold len; rewrite length_map; lia. Qed.

Lemma take_drop n l : take n l ++ drop n l = l.
Proof. apply firstn_skipn. Qed.

Lemma take_0 l : take 0 l = [].
Proof. reflexivity. Qed.

Lemma drop_0 l : drop 0 l = l.
Proof. reflexivity. Qed.

Lemma take_all n l : len l <= n -> take n l = l.
Proof. unfold len, take; intros; apply firstn_all2; lia. Qed.

Lemma drop_all n l : len l <= n -> drop n l = [].
Proof. unfold len, drop; intros; apply skipn_all2; lia. Qed.

Lemma take_app_l n l k : n <= len l -> take n (l ++ k) = take n l.
Proof.
  unfold len, take; intros. rewrite firstn_app.
  replace (Z.to_nat n - length l)%nat with 0%nat by lia.
  cbn. apply app_nil_r.
Qed.

Lemma take_app_r n l k : len l <= n -> take n (l ++ k) = l ++ take (n - len l) k.
Proof.
  unfold len, take; intros. rewrite firstn_app, firstn_all2 by lia.
  do 2 f_equal. lia.
Qed.

Lemma drop_app_l n l k : n <= len l -> drop n (l ++ k) = drop n l ++ k.
Proof.
  unfold len, drop; intros. rewrite skipn_app.
  replace (Z.to_nat n - length l)%nat with 0%nat by lia. reflexivity.
Qed.

Lemma drop_app_r n l k : len l <= n -> drop n (l ++ k) = drop (n - len l) k.
Proof.
  unfold len, drop; intros. rewrite skipn_app, skipn_all2 by lia.
  cbn. f_equal. lia.
Qed.

Lemma take_app_exact n l k : n = len l -> take n (l ++ k) = l.
Proof. intros ->. rewrite take_app_l by lia. apply take_all; lia. Qed.

Lemma drop_app_exact n l k : n = len l -> drop n (l ++ k) = k.
Proof. intros ->. rewrite drop_app_r by lia. now rewrite Z.sub_diag. Qed.

Lemma drop_drop m n l : 0 <= m -> 0 <= n -> drop m (drop n l) = drop (n + m) l.
Proof.
  unfold drop; intros. rewrite skipn_skipn. f_equal. lia.
Qed.

Lemma take_take m n l : 0 <= m <= n -> take m (take n l) = take m l.
Proof. unfold take; intros. rewrite firstn_firstn. f_equal. lia. Qed.

Lemma take_plus m n l : 0 <= m -> 0 <= n -> take (m + n) l = take m l ++ take n (drop m l).
Proof.
  intros. rewrite <- (take_drop m l) at 1.
  destruct (Z.le_gt_cases m (len l)).
  - rewrite take_app_r; rewrite len_take; try lia.
    now replace (m + n - m) with n by lia.
  - rewrite !(take_all m) by lia. rewrite !(drop_all m) by lia.
    rewrite app_nil_r, take_all by lia.
    unfold take. now rewrite firstn_nil, app_nil_r.
Qed.

Lemma drop_cons n x l : 0 < n -> drop n (x :: l) = drop (n - 1) l.
Proof. unfold drop. intros. replace (Z.to_nat n) with (S (Z.to_nat (n - 1))) by lia. reflexivity. Qed.

Lemma len_splice buf off (src : list A) :
  0 <= off -> off + len src <= len buf -> len (splice buf off src) = len buf.
Proof.
  intros. pose proof (len_nonneg src). unfold splice.
  rewrite !len_app, len_take, len_drop by lia. lia.
Qed.

Lemma take_splice buf off (src : list A) :
  0 <= off -> off + len src <= len buf ->
  take (off + len src) (splice buf off src) = take off buf ++ src.
Proof.
  intros. pose proof (len_nonneg src). unfold splice.
  rewrite app_assoc. apply take_app_exact.
  rewrite len_app, len_take; lia.
Qed.
End Slices.

#[export] Hint Rewrite @len_nil @len_cons @len_app @len_rev @len_repeat @len_map
  @take_0 @drop_0 : len.
#[export] Hint Rewrite @len_take @len_drop @len_splice using lia : len.
#[export] Hint Resolve len_nonneg : lens.

Lemma skipn_repeat {A} (x : A) n : forall k, skipn k (repeat x n) = repeat x (n - k).
Proof. induction n as [| n IH]; intros [| k]; cbn; auto. Qed.

Lemma firstn_repeat {A} (x : A) n : forall k, (k <= n)%nat -> firstn k (repeat x n) = repeat x k.
Proof. induction n as [| n IH]; intros [| k] H; cbn; [reflexivity | lia | reflexivity |]. now rewrite IH by lia. Qed.

Lemma drop_cons_get n : forall l, 0 <= n < len l -> drop n l = get l n :: drop (n + 1) l.
Proof.
  intros l Hn. unfold drop, get. replace (Z.to_nat (n + 1)) with (S (Z.to_nat n)) by lia.
  assert (Hl : (Z.to_nat n < length l)%nat) by (unfold len in Hn; lia). clear Hn.
  revert l Hl. induction (Z.to_nat n) as [| k IH]; intros [| x l] Hl; cbn in Hl; try lia; [reflexivity |].
  cbn [skipn nth]. now rewrite IH by lia.
Qed.

Lemma take_succ n l : 0 <= n < len l -> take (n + 1) l = take n l ++ [get l n].
Proof.
  intros Hn. rewrite take_plus by lia. f_equal. now rewrite drop_cons_get by lia.
Qed.

(** [slia]: linear arithmetic over buffer lengths. *)
Ltac pose_lens :=
  repeat match goal with
  | |- context [len ?l] => lazymatch goal with _ : 0 <= len l |- _ => fail | _ => pose proof (len_nonneg l) end
  | _ : context [len ?l] |- _ => lazymatch goal with _ : 0 <= len l |- _ => fail | _ => pose proof (len_nonneg l) end
  end.
Ltac slia := autorewrite with len in *; pose_lens; try lia.

(** ** Lemmas on bytes *)

Lemma byte_ok_wrap x : byte_ok (u8 x).
Proof. apply wrap_range; lia. Qed.

Lemma bytes_ok_nil : bytes_ok [].
Proof. constructor. Qed.

Lemma bytes_ok_cons b l : byte_ok b -> bytes_ok l -> bytes_ok (b :: l).
Proof. now constructor. Qed.

Lemma bytes_ok_app l k : bytes_ok (l ++ k) <-> bytes_ok l /\ bytes_ok k.
Proof. apply Forall_app. Qed.

Lemma Forall_take {A} (P : A -> Prop) n l : Forall P l -> Forall P (take n l).
Proof. rewrite <- (take_drop n l) at 1. rewrite Forall_app. tauto. Qed.

Lemma Forall_drop {A} (P : A -> Prop) n l : Forall P l -> Forall P (drop n l).
Proof. rewrite <- (take_drop n l) at 1. rewrite Forall_app. tauto. Qed.

Lemma Forall_splice {A} (P : A -> Prop) l a k : Forall P l -> Forall P k -> Forall P (splice l a k).
Proof. intros Hl Hk. unfold splice. rewrite !Forall_app. repeat split; [now apply Forall_take | exact Hk | now apply Forall_drop]. Qed.

Lemma Forall_repeat {A} (P : A -> Prop) x n : P x -> Forall P (repeat x n).
Proof. intros H. induction n; constructor; assumption. Qed.

Lemma bytes_ok_take n l : bytes_ok l -> bytes_ok (take n l).
Proof. apply Forall_take. Qed.

Lemma bytes_ok_drop n l : bytes_ok l -> bytes_ok (drop n l).
Proof. apply Forall_drop. Qed.

#[export] Hint Resolve byte_ok_wrap bytes_ok_nil bytes_ok_cons bytes_ok_take bytes_ok_drop : bytes.

(** A decidable property of a byte holds of every byte when it evaluates to
    [true] on 0..255. *)
Definition all_bytes : list Z := map Z.of_nat (seq 0 256).

Lemma forall_byte (f : Z -> bool) :
  forallb f all_bytes = true -> forall b, byte_ok b -> f b = true.
Proof.
  intros H b [Hb1 Hb2]. rewrite forallb_forall in H. apply H.
  unfold all_bytes. rewrite in_map_iff. exists (Z.to_nat b).
  split; [lia | apply in_seq; lia].
Qed.

(** ** Bit-level lemmas *)

Lemma lor_disjoint_add n a b :
  0 <= n -> 0 <= b < 2 ^ n -> Z.lor (Z.shiftl a n) b = a * 2 ^ n + b.
Proof.
  intros Hn Hb. rewrite <- Z.shiftl_mul_pow2 by lia. symmetry.
  rewrite <- Z.lxor_lor; [apply Z.add_nocarry_lxor |]; apply Z.bits_inj'; intros i Hi;
    rewrite Z.land_spec, Z.bits_0;
    (destruct (Z.lt_ge_cases i n);
     [rewrite Z.shiftl_spec_low by lia; reflexivity |]);
    replace b with (b mod 2 ^ n) by (apply Z.mod_small; lia);
    rewrite Z.mod_pow2_bits_high by lia; apply andb_false_r.
Qed.

Lemma land_ones_wrap n a : 0 <= n -> Z.land a (Z.ones n) = wrap n a.
Proof. intros. now apply Z.land_ones. Qed.

Lemma testbit_high n x i : 0 <= x < 2 ^ n -> n <= i -> Z.testbit x i = false.
Proof.
  intros. destruct (Z.lt_ge_cases n 0).
  - rewrite Z.pow_neg_r in * by lia. lia.
  - rewrite <- (Z.mod_small x (2 ^ n)) by lia. apply Z.mod_pow2_bits_high. lia.
Qed.

Lemma bits_range n x :
  0 <= n -> (forall i, n <= i -> Z.testbit x i = false) -> 0 <= x < 2 ^ n.
Proof.
  intros Hn H.
  assert (x = x mod 2 ^ n) as ->.
  { apply Z.bits_inj'; intros i Hi. destruct (Z.lt_ge_cases i n).
    - now rewrite Z.mod_pow2_bits_low.
    - rewrite Z.mod_pow2_bits_high by lia. apply H; lia. }
  apply Z.mod_pos_bound. apply Z.pow_pos_nonneg; lia.
Qed.

Lemma lor_range n a b : 0 <= n -> 0 <= a < 2 ^ n -> 0 <= b < 2 ^ n -> 0 <= Z.lor a b < 2 ^ n.
Proof.
  intros. apply bits_range; [lia |]. intros.
  now rewrite Z.lor_spec, !(testbit_high n) by lia.
Qed.

Lemma lxor_range n a b : 0 <= n -> 0 <= a < 2 ^ n -> 0 <= b < 2 ^ n -> 0 <= Z.lxor a b < 2 ^ n.
Proof.
  intros. apply bits_range; [lia |]. intros.
  now rewrite Z.lxor_spec, !(testbit_high n) by lia.
Qed.

Lemma land_range n a b : 0 <= n -> 0 <= a < 2 ^ n -> 0 <= b -> 0 <= Z.land a b < 2 ^ n.
Proof.
  intros. apply bits_range; [lia |]. intros.
  now rewrite Z.land_spec, (testbit_high n) by lia.
Qed.

(** ** Induction by groups *)

Lemma list_ind3 {A} (P : list A -> Prop) :
  P [] -> (forall a, P [a]) -> (forall a b, P [a; b]) ->
  (forall a b c l, P l -> P (a :: b :: c :: l)) -> forall l, P l.
Proof.
  intros H0 H1 H2 H3.
  fix IH 1. intros [| a [| b [| c l]]]; [exact H0 | apply H1 | apply H2 | apply H3, IH].
Qed.

(** Induction on the length of a buffer. *)
Lemma len_ind {A} (P : list A -> Prop) :
  (forall l, (forall k, len k < len l -> P k) -> P l) -> forall l, P l.
Proof.
  intros H l. assert (forall n k, (length k <= n)%nat -> P k) as Hn.
  { induction n as [| n IH]; intros k Hk; apply H; intros k' Hk'; unfold len in Hk'; [lia |].
    apply IH. lia. }
  now apply (Hn (length l)).
Qed.

(** ** Big-endian integers *)

(** The number a byte string denotes, most significant byte first. *)
Definition be_val (l : list Z) : Z := fold_left (fun acc b => acc * 256 + b) l 0.

(** The [n]-byte big-endian representation of [v]. *)
Fixpoint be_enc (n : nat) (v : Z) : list Z :=
  match n with
  | O => []
  | S n => be_enc n (v / 256) ++ [v mod 256]
  end.

Lemma be_val_snoc l b : be_val (l ++ [b]) = be_val l * 256 + b.
Proof. unfold be_val. now rewrite fold_left_app. Qed.

Lemma be_enc_len n : forall v, len (be_enc n v) = Z.of_nat n.
Proof. induction n as [| n IH]; intros v; cbn [be_enc]; autorewrite with len; [reflexivity | rewrite IH; lia]. Qed.

Lemma be_enc_bytes n : forall v, bytes_ok (be_enc n v).
Proof.
  induction n as [| n IH]; intros v; cbn [be_enc]; [constructor |].
  apply bytes_ok_app. split; [apply IH |]. repeat constructor; apply Z.mod_pos_bound; lia.
Qed.

Lemma be_val_enc n : forall v, 0 <= v < 256 ^ Z.of_nat n -> be_val (be_enc n v) = v.
Proof.
  induction n as [| n IH]; intros v Hv; cbn [be_enc].
  - change (256 ^ Z.of_nat 0) with 1 in Hv. cbn. lia.
  - rewrite be_val_snoc.
    rewrite Nat2Z.inj_succ, Z.pow_succ_r in Hv by lia.
    rewrite IH; [| split; [apply Z.div_pos; lia | apply Z.div_lt_upper_bound; lia]].
    pose proof (Z.div_mod v 256). lia.
Qed.

Lemma be_val_range l : bytes_ok l -> 0 <= be_val l < 256 ^ len l.
Proof.
  induction l as [| b l IH] using rev_ind; intros Hok; [cbn; lia |].
  apply bytes_ok_app in Hok as [Hl Hb]. inversion_clear Hb as [| ? ? Hb' _].
  specialize (IH Hl). rewrite be_val_snoc, len_app. change (len [b]) with 1.
  pose proof (len_nonneg l). rewrite Z.pow_add_r by lia. unfold byte_ok in Hb'. lia.
Qed.

Lemma be_enc_val l : bytes_ok l -> be_enc (length l) (be_val l) = l.
Proof.
  induction l as [| b l IH] using rev_ind; intros Hok; [reflexivity |].
  apply bytes_ok_app in Hok as [Hl Hb]. inversion_clear Hb as [| ? ? Hb' _].
  rewrite length_app, Nat.add_1_r, be_val_snoc. cbn [be_enc]. unfold byte_ok in Hb'.
  rewrite Z.div_add_l, Z.div_small, Z.add_0_r, IH by (assumption || lia).
  rewrite Z.add_comm, Z.mod_add, Z.mod_small by lia. reflexivity.
Qed.

Lemma be_enc_cons n : forall v, be_enc (S n) v = (v / 256 ^ Z.of_nat n) mod 256 :: be_enc n v.
Proof.
  induction n as [| n IH]; intros v; [cbn [be_enc app]; now rewrite Z.div_1_r |].
  change (be_enc (S (S n)) v) with (be_enc (S n) (v / 256) ++ [v mod 256]).
  rewrite IH. cbn [app]. rewrite Z.div_div, <- Z.pow_succ_r, <- Nat2Z.inj_succ by lia. reflexivity.
Qed.

Lemma be_enc_mod n : forall v, be_enc n (v mod 256 ^ Z.of_nat n) = be_enc n v.
Proof.
  induction n as [| n IH]; intros v; [reflexivity |]. cbn [be_enc].
  rewrite Nat2Z.inj_succ, Z.pow_succ_r by lia. f_equal.
  - rewrite <- (IH (v / 256)). f_equal.
    rewrite (Z.rem_mul_r v 256), (Z.mul_comm 256), Z.div_add by lia.
    rewrite (Z.div_small (v mod 256)) by (apply Z.mod_pos_bound; lia). lia.
  - f_equal. apply Z.mod_mod_divide. exists (256 ^ Z.of_nat n). lia.
Qed.

Lemma be_val_enc_mod n v : be_val (be_enc n v) = v mod 256 ^ Z.of_nat n.
Proof.
  rewrite <- be_enc_mod. apply be_val_enc. apply Z.mod_pos_bound. apply Z.pow_pos_nonneg; lia.
Qed.

Lemma be_enc_app m n : forall v, be_enc (m + n) v = be_enc m (v / 256 ^ Z.of_nat n) ++ be_enc n v.
Proof.
  induction n as [| n IH]; intros v; [rewrite Nat.add_0_r, Z.div_1_r; now rewrite app_nil_r |].
  rewrite Nat.add_succ_r. cbn [be_enc]. rewrite IH, <- app_assoc.
  rewrite Z.div_div, <- Z.pow_succ_r, <- Nat2Z.inj_succ by lia. reflexivity.
Qed.

Lemma be_enc_add_mod n v x : be_enc n (v mod 256 ^ Z.of_nat n + x) = be_enc n (v + x).
Proof.
  assert (0 < 256 ^ Z.of_nat n) by (apply Z.pow_pos_nonneg; lia).
  rewrite <- be_enc_mod, Zplus_mod_idemp_l. apply be_enc_mod.
Qed.

Lemma be_val_cons b l : be_val (b :: l) = b * 256 ^ len l + be_val l.
Proof.
  induction l as [| c l IH] using rev_ind; [cbn; lia |].
  rewrite app_comm_cons, !be_val_snoc, IH, len_app. change (len [c]) with 1.
  pose proof (len_nonneg l). rewrite Z.pow_add_r by lia. lia.
Qed.

(** ** Little-endian integers *)

Definition le_bytes_val (l : list Z) : Z := be_val (rev l).
Definition le_enc (n : nat) (v : Z) : list Z := rev (be_enc n v).

Lemma le_bytes_val_cons b l : le_bytes_val (b :: l) = b + 256 * le_bytes_val l.
Proof. unfold le_bytes_val. cbn [rev]. rewrite be_val_snoc. lia. Qed.

Lemma le_bytes_val_app l k : le_bytes_val (l ++ k) = le_bytes_val l + 256 ^ len l * le_bytes_val k.
Proof.
  induction l as [| b l IH]; [change (256 ^ len []) with 1; change (le_bytes_val []) with 0; cbn [app]; lia |].
  cbn [app]. rewrite !le_bytes_val_cons, IH, len_cons. pose proof (len_nonneg l).
  rewrite Z.pow_add_r by lia. lia.
Qed.

Lemma le_bytes_val_range l : bytes_ok l -> 0 <= le_bytes_val l < 256 ^ len l.
Proof. intros H. rewrite <- (len_rev l). apply be_val_range. now apply Forall_rev. Qed.

Lemma le_enc_len n v : len (le_enc n v) = Z.of_nat n.
Proof. unfold le_enc. now rewrite len_rev, be_enc_len. Qed.

Lemma le_enc_bytes n v : bytes_ok (le_enc n v).
Proof. apply Forall_rev, be_enc_bytes. Qed.

Lemma le_val_enc n v : 0 <= v < 256 ^ Z.of_nat n -> le_bytes_val (le_enc n v) = v.
Proof. intros H. unfold le_bytes_val, le_enc. now rewrite rev_involutive, be_val_enc. Qed.

Lemma le_enc_val l : bytes_ok l -> le_enc (length l) (le_bytes_val l) = l.
Proof.
  intros H. unfold le_enc, le_bytes_val. rewrite <- length_rev, be_enc_val by now apply Forall_rev.
  apply rev_involutive.
Qed.

Lemma le_enc_S n v : le_enc (S n) v = v mod 256 :: le_enc n (v / 256).
Proof. unfold le_enc. cbn [be_enc]. now rewrite rev_app_distr. Qed.

#[export] Hint Rewrite @le_enc_len : len.
#[export] Hint Resolve le_enc_bytes : bytes.

Lemma splice_full {A} (l : list A) off (s : list A) : 0 <= off -> off + len s = len l ->
  splice l off s = take off l ++ s.
Proof.
  intros. unfold splice. rewrite (drop_all (off + len s)) by lia. now rewrite app_nil_r.
Qed.

(** Two adjacent writes are one. *)
Lemma splice_splice {A} (l a c : list A) pos : 0 <= pos -> pos + len a + len c <= len l ->
  splice (splice l (pos + len a) c) pos a = splice l pos (a ++ c).
Proof.
  intros Hp Hl. pose proof (len_nonneg a). pose proof (len_nonneg c).
  unfold splice at 1 3. f_equal.
  - unfold splice. rewrite take_app_l by (rewrite len_take; lia). now rewrite take_take by lia.
  - rewrite <- app_assoc. f_equal. unfold splice.
    rewrite drop_app_exact by (rewrite len_take; lia). rewrite len_app. do 2 f_equal. lia.
Qed.

Lemma splice_splice_after {A} (l a c : list A) pos : 0 <= pos -> pos + len a + len c <= len l ->
  splice (splice l pos a) (pos + len a) c = splice l pos (a ++ c).
Proof.
  intros Hp Hl. pose proof (len_nonneg a). pose proof (len_nonneg c).
  unfold splice at 1. rewrite take_splice by lia. rewrite <- app_assoc. unfold splice at 2.
  f_equal. rewrite <- app_assoc. do 2 f_equal. unfold splice. rewrite !app_assoc.
  rewrite drop_app_r by (rewrite len_app, len_take; lia). rewrite len_app, len_take by lia.
  rewrite drop_drop by lia. rewrite len_app. f_equal. lia.
Qed.

Lemma splice_nil {A} (l : list A) pos : splice l pos [] = l.
Proof. unfold splice. change (len []) with 0. rewrite Z.add_0_r. apply take_drop. Qed.

Lemma splice_app_mid {A} (a b c d : list A) : len b = len d ->
  splice (a ++ b ++ c) (len a) d = a ++ d ++ c.
Proof.
  intros H. unfold splice. rewrite take_app_exact by reflexivity. do 2 f_equal.
  rewrite app_assoc. apply drop_app_exact. rewrite len_app. lia.
Qed.

Lemma take_splice_ge {A} (l s : list A) pos n : 0 <= pos -> pos + len s <= n -> n <= len l ->
  take n (splice l pos s) = splice (take n l) pos s.
Proof.
  intros Hp Hn Hl. pose proof (len_nonneg s). unfold splice.
  rewrite take_app_r; rewrite len_take by lia; [| lia].
  rewrite take_app_r by lia. rewrite take_take by lia. do 2 f_equal.
  unfold take, drop. rewrite firstn_skipn_comm. do 2 f_equal. lia.
Qed.

(** Appending a byte with shifts and ors, as C code does. *)
Lemma lor_shl8 acc b : byte_ok b -> Z.lor (Z.shiftl acc 8) b = acc * 256 + b.
Proof. unfold byte_ok. intros. now rewrite lor_disjoint_add by lia. Qed.

#[export] Hint Rewrite @be_enc_len : len.
#[export] Hint Resolve be_enc_bytes : bytes.

(** Booleans as C [int] results. *)
Definition b2z (b : bool) : Z := if b then 1 else 0.
