(* ===== verification/Buffers.v ===== *)
(** * Byte buffers

    Reading, writing and XOR of ranges of a buffer, as the C code does with
    pointers and loops, and the lemmas that move between ranges and bytes. *)

From S2P Require Import Prelude.

Definition xor_bytes (a b : list Z) : list Z := map (fun p => Z.lxor (fst p) (snd p)) (combine a b).

(** [load l a n]: the [n] bytes of [l] at [a]. *)
Definition load (l : list Z) (a n : Z) : list Z := take n (drop a l).
Definition set (l : list Z) (a x : Z) : list Z := splice l a [x].


(** ** Lemmas *)

Lemma len_xor_bytes a b : len (xor_bytes a b) = Z.min (len a) (len b).
Proof. unfold xor_bytes, len. rewrite length_map, length_combine. lia. Qed.

Lemma xor_bytes_cons a x b y : xor_bytes (a :: x) (b :: y) = Z.lxor a b :: xor_bytes x y.
Proof. reflexivity. Qed.

Lemma xor_bytes_app a b c d : len a = len c -> xor_bytes (a ++ b) (c ++ d) = xor_bytes a c ++ xor_bytes b d.
Proof.
  revert c. induction a as [| x a IH]; intros [| y c] H; rewrite ?len_cons, ?len_nil in H; pose_lens; try lia; [reflexivity |].
  cbn [app]. rewrite !xor_bytes_cons, IH by lia. reflexivity.
Qed.

Lemma xor_bytes_zero k x : xor_bytes (repeat 0 k) x = take (Z.of_nat k) x.
Proof.
  unfold take. rewrite Nat2Z.id. revert x. induction k as [| k IH]; intros [| y x]; try reflexivity.
  cbn [repeat firstn]. rewrite xor_bytes_cons, IH. now rewrite Z.lxor_0_l.
Qed.

Lemma xor_bytes_take l x : xor_bytes l (take (len l) x) = xor_bytes l x.
Proof.
  unfold take, len. rewrite Nat2Z.id. revert x. induction l as [| b l IH]; intros [| y x]; try reflexivity.
  cbn [length firstn]. now rewrite !xor_bytes_cons, IH.
Qed.

Lemma len_set l a x : 0 <= a < len l -> len (set l a x) = len l.
Proof. intros. unfold set. apply len_splice; rewrite ?len_cons, ?len_nil; lia. Qed.

Lemma take_set l a x : 0 <= a < len l -> take a (set l a x) = take a l.
Proof. intros. unfold set, splice. apply take_app_exact. rewrite len_take; lia. Qed.

Lemma drop_set l a x : 0 <= a < len l -> drop a (set l a x) = x :: drop (a + 1) l.
Proof. intros. unfold set, splice. apply drop_app_exact. rewrite len_take; lia. Qed.

Lemma get_set_same l a x : 0 <= a < len l -> get (set l a x) a = x.
Proof.
  intros. unfold set, splice, get.
  assert (L : length (take a l) = Z.to_nat a) by (unfold take, len in *; rewrite length_firstn; lia).
  rewrite app_nth2 by lia. now rewrite L, Nat.sub_diag.
Qed.

Lemma get_set_other l a b x : 0 <= a < len l -> 0 <= b -> b <> a -> get (set l a x) b = get l b.
Proof.
  intros. rewrite <- (take_drop a l) at 2. unfold set, splice, get.
  assert (L : length (take a l) = Z.to_nat a) by (unfold take, len in *; rewrite length_firstn; lia).
  destruct (Z.lt_ge_cases b a); [now rewrite !app_nth1 by lia |].
  rewrite (app_nth2 (take a l) (drop a l)), (app_nth2 (take a l) ([x] ++ _)) by lia. rewrite (drop_cons_get a) by lia. rewrite L.
  replace (Z.to_nat b - Z.to_nat a)%nat with (S (Z.to_nat (b - a - 1))) by lia. reflexivity.
Qed.

Lemma get_app_l (l k : list Z) i : 0 <= i < len l -> get (l ++ k) i = get l i.
Proof. unfold get, len. intros. apply app_nth1. lia. Qed.

Lemma get_app_end l (x : Z) : get (l ++ [x]) (len l) = x.
Proof. unfold get, len. rewrite Nat2Z.id, app_nth2 by lia. now rewrite Nat.sub_diag. Qed.

Lemma load_set_after l a x n : 0 <= a < len l -> load (set l a x) (a + 1) n = load l (a + 1) n.
Proof.
  intros. unfold load. f_equal. rewrite <- !(drop_drop 1 a) by lia.
  rewrite drop_set by lia. rewrite drop_cons by lia. now rewrite Z.sub_diag, drop_0, drop_drop by lia.
Qed.

Lemma load_cons l a n : 0 <= a < len l -> 0 < n -> load l a n = get l a :: load l (a + 1) (n - 1).
Proof.
  intros. unfold load. rewrite drop_cons_get by lia. unfold take.
  replace (Z.to_nat n) with (S (Z.to_nat (n - 1))) by lia. reflexivity.
Qed.

Lemma xor_bytes_app_l l x y : len l <= len x -> xor_bytes l (x ++ y) = xor_bytes l x.
Proof. intros. rewrite <- xor_bytes_take, take_app_l by lia. apply xor_bytes_take. Qed.

Lemma xor_bytes_cancel x y : len x <= len y -> xor_bytes (xor_bytes x y) y = x.
Proof.
  revert y. induction x as [| a x IH]; intros [| b y] H; rewrite ?len_cons, ?len_nil in H; pose_lens; try reflexivity; [lia |].
  rewrite !xor_bytes_cons, IH by lia. now rewrite Z.lxor_assoc, Z.lxor_nilpotent, Z.lxor_0_r.
Qed.

Lemma list_eq_get (a b : list Z) : len a = len b -> (forall i, 0 <= i < len a -> get a i = get b i) -> a = b.
Proof.
  intros Hl H. apply (nth_ext a b 0 0); [unfold len in Hl; lia |]. intros n Hn.
  specialize (H (Z.of_nat n) ltac:(unfold len; lia)). unfold get in H. now rewrite Nat2Z.id in H.
Qed.

Lemma get_take l n i : 0 <= i < n -> get (take n l) i = get l i.
Proof.
  intros. unfold get, take. rewrite nth_firstn. destruct (Nat.ltb_spec (Z.to_nat i) (Z.to_nat n)); [reflexivity | lia].
Qed.

Lemma get_drop l n i : 0 <= n -> 0 <= i -> get (drop n l) i = get l (n + i).
Proof. intros. unfold get, drop. rewrite nth_skipn. f_equal. lia. Qed.

Lemma get_load l a n i : 0 <= a -> 0 <= i < n -> get (load l a n) i = get l (a + i).
Proof. intros. unfold load. rewrite get_take, get_drop by lia. reflexivity. Qed.

Lemma get_app_r (l k : list Z) i : len l <= i -> get (l ++ k) i = get k (i - len l).
Proof. unfold get, len. intros. rewrite app_nth2 by lia. f_equal. lia. Qed.

Lemma get_xor_bytes a b i : 0 <= i < len a -> i < len b -> get (xor_bytes a b) i = Z.lxor (get a i) (get b i).
Proof.
  revert b i. induction a as [| x a IH]; intros b i Ha Hb; [change (len []) with 0 in Ha; lia |].
  destruct b as [| y b]; [change (len []) with 0 in Hb; lia |]. rewrite len_cons in Ha, Hb.
  rewrite xor_bytes_cons. destruct (Z.eq_dec i 0) as [-> | Hi]; [reflexivity |].
  assert (E : forall (z : Z) (l : list Z), get (z :: l) i = get l (i - 1)).
  { intros z l. unfold get. replace (Z.to_nat i) with (S (Z.to_nat (i - 1))) by lia. reflexivity. }
  rewrite !E. apply IH; lia.
Qed.

Lemma get_splice l a k i : 0 <= a -> a + len k <= len l -> 0 <= i ->
  get (splice l a k) i = if (a <=? i) && (i <? a + len k) then get k (i - a) else get l i.
Proof.
  intros Ha Hl Hi. pose proof (len_nonneg k). unfold splice.
  assert (Lt : len (take a l) = a) by (rewrite len_take; lia).
  destruct (Z.leb_spec a i); cbn [andb].
  - rewrite get_app_r by lia. rewrite Lt. destruct (Z.ltb_spec i (a + len k)).
    + now rewrite get_app_l by lia.
    + rewrite get_app_r, get_drop by lia. f_equal. lia.
  - now rewrite get_app_l, get_take by lia.
Qed.

Lemma bytes_ok_xor a b : bytes_ok a -> bytes_ok b -> bytes_ok (xor_bytes a b).
Proof.
  revert b. induction a as [| x a IH]; intros [| y b] Ha Hb; try constructor.
  - inversion_clear Ha as [| ? ? Hx _]. inversion_clear Hb as [| ? ? Hy _]. exact (lxor_range 8 x y ltac:(lia) Hx Hy).
  - inversion_clear Ha. inversion_clear Hb. now apply IH.
Qed.
