(* ===== verification/Memory.v ===== *)
(** * One memory

    A memory is a function from addresses to bytes; routines whose buffers may
    coincide or overlap read and write ranges of it. *)

From S2P Require Import Prelude Buffers.

Definition mem : Type := Z -> Z.

(** The [n] bytes at [a], and the memory with [l] written at [a]. *)
Definition mload (m : mem) (a n : Z) : list Z := map (fun i => m (a + Z.of_nat i)) (seq 0 (Z.to_nat n)).
Definition mstore (m : mem) (a : Z) (l : list Z) : mem :=
  fun i => if (a <=? i) && (i <? a + len l) then get l (i - a) else m i.

Lemma len_mload m a n : 0 <= n -> len (mload m a n) = n.
Proof. intros. unfold mload. rewrite len_map. unfold len. rewrite length_seq. lia. Qed.

Lemma get_mload m a n i : 0 <= i < n -> get (mload m a n) i = m (a + i).
Proof.
  intros. unfold mload, get. rewrite nth_indep with (d' := m (a + Z.of_nat 0)) by (rewrite length_map, length_seq; lia).
  rewrite (map_nth (fun i => m (a + Z.of_nat i))), seq_nth by lia. f_equal. lia.
Qed.

Lemma mload_ext m m' a n : (forall i, a <= i < a + n -> m i = m' i) -> mload m a n = mload m' a n.
Proof. intros H. apply map_ext_in. intros i Hi. apply in_seq in Hi. apply H. lia. Qed.

Lemma mload_app m a p n : 0 <= p <= n -> mload m a n = mload m a p ++ mload m (a + p) (n - p).
Proof.
  intros H. apply list_eq_get; rewrite ?len_app, !len_mload by lia; [lia |]. intros i Hi.
  rewrite get_mload by lia. destruct (Z.lt_ge_cases i p).
  - rewrite get_app_l, get_mload by (rewrite ?len_mload; lia). reflexivity.
  - rewrite get_app_r, len_mload, get_mload by (rewrite ?len_mload; lia). f_equal. lia.
Qed.

(** Case analysis on whether an address lies in a written range. *)
Ltac mcase :=
  unfold mstore;
  repeat (match goal with
  | |- context [?a <=? ?b] => destruct (Z.leb_spec a b)
  | |- context [?a <? ?b] => destruct (Z.ltb_spec a b)
  end; cbn [andb]); try lia; try reflexivity.

Lemma mstore_app m a l k i : mstore (mstore m a l) (a + len l) k i = mstore m a (l ++ k) i.
Proof.
  unfold mstore. rewrite len_app. pose proof (len_nonneg l). pose proof (len_nonneg k).
  destruct (Z.leb_spec (a + len l) i), (Z.ltb_spec i (a + len l + len k)); cbn [andb]; try (mcase).
  - destruct (Z.leb_spec a i), (Z.ltb_spec i (a + (len l + len k))); try lia. cbn [andb]. rewrite get_app_r by lia. f_equal. lia.
  - destruct (Z.leb_spec a i), (Z.ltb_spec i (a + len l)), (Z.ltb_spec i (a + (len l + len k))); try lia; cbn [andb]; try reflexivity.
    rewrite get_app_l by lia. reflexivity.
Qed.

Lemma mstore_ext m m' a l i : (forall i, m i = m' i) -> mstore m a l i = mstore m' a l i.
Proof. intros H. unfold mstore. now rewrite H. Qed.

Lemma mload_mstore m a l : mload (mstore m a l) a (len l) = l.
Proof.
  pose proof (len_nonneg l). apply list_eq_get; rewrite len_mload by lia; [reflexivity |].
  intros i Hi. rewrite get_mload by lia. mcase. f_equal. lia.
Qed.

Lemma mload_nil m a : mload m a 0 = [].
Proof. reflexivity. Qed.

Lemma mload_ne m a n : 0 < n -> exists x l, mload m a n = x :: l.
Proof.
  intros Hn. destruct (mload m a n) as [| x l] eqn:E; [| eauto].
  pose proof (len_mload m a n ltac:(lia)) as L. rewrite E in L. change (len []) with 0 in L. lia.
Qed.

Lemma take_mload m a p n : 0 <= p <= n -> take p (mload m a n) = mload m a p.
Proof. intros. rewrite (mload_app m a p n) by lia. apply take_app_exact. rewrite len_mload; lia. Qed.

Lemma drop_mload m a p n : 0 <= p <= n -> drop p (mload m a n) = mload m (a + p) (n - p).
Proof. intros. rewrite (mload_app m a p n) by lia. apply drop_app_exact. rewrite len_mload; lia. Qed.
