(* ===== verification/ConstTime.v ===== *)
(** * Constant-time selection (crypto/internal.h)

    [crypto_word_t] is the 64-bit word of the target. Every function returns a
    mask: all ones for true, zero for false; the [_8] variants truncate it. *)

From S2P Require Import Prelude.

Definition crypto_word (x : Z) : Prop := 0 <= x < 2 ^ 64.

Definition CONSTTIME_TRUE_W : Z := 2 ^ 64 - 1.
Definition CONSTTIME_TRUE_8 : Z := 255.

Definition constant_time_msb_w (a : Z) : Z := u64 (0 - Z.shiftr a 63).

Definition constant_time_lt_w (a b : Z) : Z :=
  constant_time_msb_w
    (Z.lxor a (Z.lor (Z.lxor a b) (Z.lxor (u64 (a - b)) a))).

Definition constant_time_lt_8 (a b : Z) : Z := u8 (constant_time_lt_w a b).

Definition constant_time_ge_w (a b : Z) : Z := u64 (Z.lnot (constant_time_lt_w a b)).

Definition constant_time_ge_8 (a b : Z) : Z := u8 (constant_time_ge_w a b).

Definition constant_time_is_zero_w (a : Z) : Z :=
  constant_time_msb_w (Z.land (u64 (Z.lnot a)) (u64 (a - 1))).

Definition constant_time_is_zero_8 (a : Z) : Z := u8 (constant_time_is_zero_w a).

Definition constant_time_eq_w (a b : Z) : Z := constant_time_is_zero_w (Z.lxor a b).

Definition constant_time_eq_8 (a b : Z) : Z := u8 (constant_time_eq_w a b).

(** [int] arguments are converted to [crypto_word_t] (sign extension). *)
Definition constant_time_eq_int (a b : Z) : Z := constant_time_eq_w (u64 a) (u64 b).

Definition constant_time_eq_int_8 (a b : Z) : Z := constant_time_eq_8 (u64 a) (u64 b).

Definition constant_time_select_w (mask a b : Z) : Z :=
  Z.lor (Z.land mask a) (Z.land (u64 (Z.lnot mask)) b).

Definition constant_time_select_8 (mask a b : Z) : Z := u8 (constant_time_select_w mask a b).

Definition constant_time_select_int (mask a b : Z) : Z :=
  to_signed 32 (constant_time_select_w mask (u64 a) (u64 b)).

(** The mask that encodes a boolean. *)
Definition mask_w (c : bool) : Z := if c then CONSTTIME_TRUE_W else 0.
Definition mask_8 (c : bool) : Z := if c then CONSTTIME_TRUE_8 else 0.

Lemma mask_8_of_w c : u8 (mask_w c) = mask_8 c.
Proof. now destruct c. Qed.

Lemma testbit_63 x : crypto_word x -> Z.testbit x 63 = (2 ^ 63 <=? x).
Proof.
  unfold crypto_word. intros Hx. rewrite Z.testbit_eqb by lia.
  destruct (Z.leb_spec (2 ^ 63) x).
  - now replace (x / 2 ^ 63) with 1 by word_lia.
  - now rewrite Z.div_small by lia.
Qed.

Lemma msb_w_spec x : crypto_word x -> constant_time_msb_w x = mask_w (Z.testbit x 63).
Proof.
  intros Hx. rewrite testbit_63 by assumption. unfold crypto_word in Hx.
  unfold constant_time_msb_w. rewrite Z.shiftr_div_pow2 by lia.
  destruct (Z.leb_spec (2 ^ 63) x).
  - replace (x / 2 ^ 63) with 1 by word_lia. reflexivity.
  - rewrite Z.div_small by lia. reflexivity.
Qed.

Lemma crypto_word_wrap x : crypto_word (u64 x).
Proof. apply wrap_range; lia. Qed.

Lemma crypto_word_lxor a b : crypto_word a -> crypto_word b -> crypto_word (Z.lxor a b).
Proof. apply lxor_range; lia. Qed.

Lemma crypto_word_lor a b : crypto_word a -> crypto_word b -> crypto_word (Z.lor a b).
Proof. apply lor_range; lia. Qed.

#[export] Hint Resolve crypto_word_wrap crypto_word_lxor crypto_word_lor : bytes.

Lemma lt_w_mask a b : crypto_word a -> crypto_word b ->
  constant_time_lt_w a b = mask_w (a <? b).
Proof.
  intros Ha Hb. unfold constant_time_lt_w.
  rewrite msb_w_spec by auto with bytes. f_equal.
  rewrite !Z.lxor_spec, Z.lor_spec, !Z.lxor_spec, !testbit_63 by auto with bytes.
  unfold crypto_word, wrap in *.
  destruct (Z.leb_spec (2 ^ 63) a); destruct (Z.leb_spec (2 ^ 63) b);
    destruct (Z.leb_spec (2 ^ 63) ((a - b) mod 2 ^ 64));
    destruct (Z.ltb_spec a b); cbn; word_lia.
Qed.

Lemma is_zero_w_mask a : crypto_word a -> constant_time_is_zero_w a = mask_w (a =? 0).
Proof.
  intros Ha. unfold constant_time_is_zero_w.
  rewrite msb_w_spec by (apply land_range; [lia | apply crypto_word_wrap | apply wrap_range; lia]).
  rewrite Z.land_spec, !testbit_63 by auto with bytes. f_equal.
  unfold crypto_word, wrap, Z.lnot in *.
  destruct (Z.leb_spec (2 ^ 63) (Z.pred (- a) mod 2 ^ 64));
    destruct (Z.leb_spec (2 ^ 63) ((a - 1) mod 2 ^ 64));
    destruct (Z.eqb_spec a 0); cbn; word_lia.
Qed.

Lemma eq_w_mask a b : crypto_word a -> crypto_word b ->
  constant_time_eq_w a b = mask_w (a =? b).
Proof.
  intros Ha Hb. unfold constant_time_eq_w. rewrite is_zero_w_mask by auto with bytes.
  f_equal. destruct (Z.eqb_spec a b) as [-> | Hne].
  - rewrite Z.lxor_nilpotent. reflexivity.
  - apply Z.eqb_neq. intros H. apply Hne. now apply Z.lxor_eq.
Qed.

Lemma select_w_mask c a b : crypto_word a -> crypto_word b ->
  constant_time_select_w (mask_w c) a b = if c then a else b.
Proof.
  intros Ha Hb. unfold constant_time_select_w.
  assert (forall x, crypto_word x -> Z.land CONSTTIME_TRUE_W x = x) as Hid.
  { intros x Hx. rewrite Z.land_comm. change CONSTTIME_TRUE_W with (Z.ones 64).
    rewrite Z.land_ones by lia. apply wrap_small, Hx. }
  destruct c; cbn [mask_w].
  - change (u64 (Z.lnot CONSTTIME_TRUE_W)) with 0.
    rewrite Z.land_0_l, Z.lor_0_r. now apply Hid.
  - change (u64 (Z.lnot 0)) with CONSTTIME_TRUE_W. now apply Hid.
Qed.

Lemma select_8_mask c a b : byte_ok a -> byte_ok b ->
  constant_time_select_8 (mask_8 c) a b = if c then a else b.
Proof.
  intros Ha Hb. unfold constant_time_select_8, constant_time_select_w.
  unfold byte_ok in *. destruct c; cbn [mask_8].
  - change (u64 (Z.lnot CONSTTIME_TRUE_8)) with (2 ^ 64 - 256).
    change CONSTTIME_TRUE_8 with (Z.ones 8). rewrite Z.land_comm, Z.land_ones by lia.
    assert (Z.land (2 ^ 64 - 256) b = 0) as ->.
    { apply Z.bits_inj'; intros i Hi. rewrite Z.land_spec, Z.bits_0.
      destruct (Z.lt_ge_cases i 8); [| rewrite (testbit_high 8 b) by lia; apply andb_false_r].
      change (2 ^ 64 - 256) with (Z.shiftl (2 ^ 56 - 1) 8).
      now rewrite Z.shiftl_spec_low by lia. }
    rewrite Z.lor_0_r. rewrite (Z.mod_small a) by lia. apply wrap_small; lia.
  - change (u64 (Z.lnot 0)) with (Z.ones 64). rewrite Z.land_0_l, Z.lor_0_l.
    rewrite Z.land_comm, Z.land_ones, (Z.mod_small b) by lia. apply wrap_small; lia.
Qed.

(** The branch-free comparison, equality and selection primitives compute
    what their names say: for all 64-bit words [lt], [ge], [eq] and [is_zero]
    return the all-ones or all-zeros mask of the comparison, and [select]
    driven by such a mask returns the chosen operand. *)
Lemma constant_time_primitives_correct a b c :
  crypto_word a -> crypto_word b ->
  constant_time_lt_w a b = mask_w (a <? b) /\
  constant_time_ge_w a b = mask_w (b <=? a) /\
  constant_time_eq_w a b = mask_w (a =? b) /\
  constant_time_is_zero_w a = mask_w (a =? 0) /\
  constant_time_select_w (mask_w c) a b = (if c then a else b).
Proof.
  intros Ha Hb. split; [now apply lt_w_mask |]. split; [| split; [| split]].
  - unfold constant_time_ge_w. rewrite lt_w_mask by assumption.
    destruct (Z.ltb_spec a b); destruct (Z.leb_spec b a); try lia; reflexivity.
  - now apply eq_w_mask.
  - now apply is_zero_w_mask.
  - now apply select_w_mask.
Qed.

Lemma lt_8_mask a b : crypto_word a -> crypto_word b ->
  constant_time_lt_8 a b = mask_8 (a <? b).
Proof. intros. unfold constant_time_lt_8. now rewrite lt_w_mask, mask_8_of_w. Qed.

Lemma ge_8_mask a b : crypto_word a -> crypto_word b ->
  constant_time_ge_8 a b = mask_8 (b <=? a).
Proof.
  intros. unfold constant_time_ge_8, constant_time_ge_w. rewrite lt_w_mask by assumption.
  destruct (Z.ltb_spec a b); destruct (Z.leb_spec b a); try lia; reflexivity.
Qed.

Lemma eq_8_mask a b : crypto_word a -> crypto_word b ->
  constant_time_eq_8 a b = mask_8 (a =? b).
Proof. intros. unfold constant_time_eq_8. now rewrite eq_w_mask, mask_8_of_w. Qed.
