(* ===== verification/Base64.v ===== *)
(** * Base64 (crypto/base64/base64.c)

    The block encoder and decoder, and the two streaming state machines over
    [EVP_ENCODE_CTX]. Output pointers are modelled by the bytes the code stores
    from them on; a terminating NUL the code stores past the reported length is
    part of that list. *)

From S2P Require Import Prelude ConstTime.

(** ** Character conversion *)

Definition constant_time_lt_args_8 (a b : Z) : Z :=
  u8 (constant_time_msb_w (u64 (a - b))).

Definition constant_time_in_range_8 (a min max : Z) : Z :=
  let a := u8 (a - min) in
  constant_time_lt_args_8 a (u8 (max - min + 1)).

Definition conv_bin2ascii (a : Z) : Z :=
  let a := Z.land a 63 in
  let ret := constant_time_select_8 (constant_time_eq_8 a 62) 43 47 in
  let ret := constant_time_select_8 (constant_time_lt_args_8 a 62) (u8 (a - 52 + 48)) ret in
  let ret := constant_time_select_8 (constant_time_lt_args_8 a 52) (u8 (a - 26 + 97)) ret in
  constant_time_select_8 (constant_time_lt_args_8 a 26) (u8 (a + 65)) ret.

Definition base64_ascii_to_bin (a : Z) : Z :=
  let is_upper := constant_time_in_range_8 a 65 90 in
  let is_lower := constant_time_in_range_8 a 97 122 in
  let is_digit := constant_time_in_range_8 a 48 57 in
  let is_plus := constant_time_eq_8 a 43 in
  let is_slash := constant_time_eq_8 a 47 in
  let is_equals := constant_time_eq_8 a 61 in
  let ret := 255 in
  let ret := constant_time_select_8 is_upper (u8 (a - 65)) ret in
  let ret := constant_time_select_8 is_lower (u8 (a - 97 + 26)) ret in
  let ret := constant_time_select_8 is_digit (u8 (a - 48 + 52)) ret in
  let ret := constant_time_select_8 is_plus 62 ret in
  let ret := constant_time_select_8 is_slash 63 ret in
  constant_time_select_8 is_equals 0 ret.

(** ** Length computations: [Some] is the value stored through [out_len] *)

Definition EVP_EncodedLength (n : Z) : option Z :=
  if u64 (n + 2) <? n then None else
  let n := u64 (n + 2) in
  let n := n / 3 in
  if negb (Z.shiftr (u64 (Z.shiftl n 2)) 2 =? n) then None else
  let n := u64 (Z.shiftl n 2) in
  if u64 (n + 1) <? n then None else
  Some (u64 (n + 1)).

Definition EVP_DecodedLength (n : Z) : option Z :=
  if negb (n mod 4 =? 0) then None else Some (u64 (n / 4 * 3)).

(** ** Context *)

Record EVP_ENCODE_CTX := mk_ctx {
  data_used : Z;
  data : list Z;
  eof_seen : Z;
  error_encountered : Z
}.

(** sizeof(ctx->data) *)
Definition DATA_SIZE : Z := 48.

Definition EVP_EncodeInit : EVP_ENCODE_CTX := mk_ctx 0 (repeat 0 48) 0 0.
Definition EVP_DecodeInit : EVP_ENCODE_CTX := mk_ctx 0 (repeat 0 48) 0 0.

Definition with_data (ctx : EVP_ENCODE_CTX) (used : Z) (d : list Z) : EVP_ENCODE_CTX :=
  mk_ctx used d (eof_seen ctx) (error_encountered ctx).
Definition with_eof (ctx : EVP_ENCODE_CTX) (e : Z) : EVP_ENCODE_CTX :=
  mk_ctx (data_used ctx) (data ctx) e (error_encountered ctx).
Definition with_error (ctx : EVP_ENCODE_CTX) (e : Z) : EVP_ENCODE_CTX :=
  mk_ctx (data_used ctx) (data ctx) (eof_seen ctx) e.

(** ** Block encoder

    [EVP_EncodeBlock src] is the bytes stored from [dst], the final NUL
    included, and the value returned. *)

Fixpoint EVP_EncodeBlock_loop (src : list Z) (ret : Z) : list Z * Z :=
  match src with
  | [] => ([0], ret)
  | [s0] =>
      let l := Z.shiftl s0 16 in
      ([conv_bin2ascii (u8 (Z.shiftr l 18)); conv_bin2ascii (u8 (Z.shiftr l 12)); 61; 61; 0],
       u64 (ret + 4))
  | [s0; s1] =>
      let l := Z.lor (Z.shiftl s0 16) (Z.shiftl s1 8) in
      ([conv_bin2ascii (u8 (Z.shiftr l 18)); conv_bin2ascii (u8 (Z.shiftr l 12));
        conv_bin2ascii (u8 (Z.shiftr l 6)); 61; 0],
       u64 (ret + 4))
  | s0 :: s1 :: s2 :: src' =>
      let l := Z.lor (Z.lor (Z.shiftl s0 16) (Z.shiftl s1 8)) s2 in
      let (dst, r) := EVP_EncodeBlock_loop src' (u64 (ret + 4)) in
      (conv_bin2ascii (u8 (Z.shiftr l 18)) :: conv_bin2ascii (u8 (Z.shiftr l 12)) ::
       conv_bin2ascii (u8 (Z.shiftr l 6)) :: conv_bin2ascii (u8 l) :: dst, r)
  end.

Definition EVP_EncodeBlock (src : list Z) : list Z * Z := EVP_EncodeBlock_loop src 0.

(** What the caller keeps of the block's output: the first [ret] bytes. *)
Definition encoded (src : list Z) : list Z :=
  let (dst, ret) := EVP_EncodeBlock src in take ret dst.

(** ** Streaming encoder *)

(** The [while (in_len >= sizeof(ctx->data))] loop. [out] is what has been
    stored up to the moving [out] pointer. The result is [inl] when the
    size overflow return is taken; [None] means the fuel ran out. *)
Fixpoint EVP_EncodeUpdate_loop (fuel : nat) (out : list Z) (total : Z) (inp : list Z)
  : option (list Z + list Z * Z * list Z) :=
  if len inp <? DATA_SIZE then Some (inr (out, total, inp)) else
  match fuel with
  | O => None
  | S fuel =>
      let enc := encoded (take DATA_SIZE inp) in
      let inp := drop DATA_SIZE inp in
      let out := out ++ enc ++ [10] in
      if u64 (total + len enc + 1) <? total then Some (inl out)
      else EVP_EncodeUpdate_loop fuel out (u64 (total + len enc + 1)) inp
  end.

(** The NUL stored at the [out] pointer after each line. *)
Definition nul_terminated (out : list Z) : list Z :=
  match out with [] => [] | _ => out ++ [0] end.

(** Result: the context, the bytes stored from [out], and [*out_len]. *)
Definition EVP_EncodeUpdate (ctx : EVP_ENCODE_CTX) (inp : list Z)
  : option (EVP_ENCODE_CTX * list Z * Z) :=
  if len inp =? 0 then Some (ctx, [], 0) else
  if len inp <? DATA_SIZE - data_used ctx then
    Some (with_data ctx (data_used ctx + len inp) (splice (data ctx) (data_used ctx) inp), [], 0)
  else
  let '(ctx, inp, out, total) :=
    if negb (data_used ctx =? 0) then
      let todo := DATA_SIZE - data_used ctx in
      let d := splice (data ctx) (data_used ctx) (take todo inp) in
      let enc := encoded d in
      (with_data ctx 0 d, drop todo inp, enc ++ [10], u64 (len enc + 1))
    else (ctx, inp, [], 0) in
  match EVP_EncodeUpdate_loop (length inp) out total inp with
  | None => None
  | Some (inl out) => Some (ctx, nul_terminated out, 0)
  | Some (inr (out, total, inp)) =>
      let d := if negb (len inp =? 0) then splice (data ctx) 0 inp else data ctx in
      let ctx := with_data ctx (u32 (len inp)) d in
      let total := if INT_MAX <? total then 0 else total in
      Some (ctx, nul_terminated out, total)
  end.

Definition EVP_EncodeFinal (ctx : EVP_ENCODE_CTX) : EVP_ENCODE_CTX * list Z * Z :=
  if data_used ctx =? 0 then (ctx, [], 0) else
  let enc := encoded (take (data_used ctx) (data ctx)) in
  (with_data ctx 0 (data ctx), enc ++ [10; 0], len enc + 1).

(** ** Decoder *)

(** [base64_decode_quad in]: the bytes stored to [out] ([out_num_bytes] of
    them), or [None] for the zero return. *)
Definition base64_decode_quad (in0 in1 in2 in3 : Z) : option (list Z) :=
  let a := base64_ascii_to_bin in0 in
  let b := base64_ascii_to_bin in1 in
  let c := base64_ascii_to_bin in2 in
  let d := base64_ascii_to_bin in3 in
  if (a =? 255) || (b =? 255) || (c =? 255) || (d =? 255) then None else
  let v := Z.lor (Z.lor (Z.lor (Z.shiftl a 18) (Z.shiftl b 12)) (Z.shiftl c 6)) d in
  let padding_pattern :=
    Z.lor (Z.lor (Z.lor (Z.shiftl (b2z (in0 =? 61)) 3) (Z.shiftl (b2z (in1 =? 61)) 2))
                 (Z.shiftl (b2z (in2 =? 61)) 1)) (b2z (in3 =? 61)) in
  match padding_pattern with
  | 0 => Some [u8 (Z.shiftr v 16); u8 (Z.shiftr v 8); u8 v]
  | 1 => Some [u8 (Z.shiftr v 16); u8 (Z.shiftr v 8)]
  | 3 => Some [u8 (Z.shiftr v 16)]
  | _ => None
  end.

Definition is_space (c : Z) : bool := (c =? 32) || (c =? 9) || (c =? 13) || (c =? 10).

(** The [for] loop of [EVP_DecodeUpdate]; the boolean is false when the loop
    returned -1. *)
Fixpoint EVP_DecodeUpdate_loop (ctx : EVP_ENCODE_CTX) (out : list Z) (bytes_out : Z)
    (inp : list Z) : EVP_ENCODE_CTX * list Z * Z * bool :=
  match inp with
  | [] => (ctx, out, bytes_out, true)
  | c :: inp =>
      if is_space c then EVP_DecodeUpdate_loop ctx out bytes_out inp else
      if negb (eof_seen ctx =? 0) then (with_error ctx 1, out, bytes_out, false) else
      let ctx := with_data ctx (data_used ctx + 1) (splice (data ctx) (data_used ctx) [c]) in
      if data_used ctx =? 4 then
        match base64_decode_quad (get (data ctx) 0) (get (data ctx) 1)
                                 (get (data ctx) 2) (get (data ctx) 3) with
        | None => (with_error ctx 1, out, bytes_out, false)
        | Some bs =>
            let ctx := with_data ctx 0 (data ctx) in
            let ctx := if len bs <? 3 then with_eof ctx 1 else ctx in
            EVP_DecodeUpdate_loop ctx (out ++ bs) (u64 (bytes_out + len bs)) inp
        end
      else EVP_DecodeUpdate_loop ctx out bytes_out inp
  end.

(** Result: context, bytes stored from [out], [*out_len], return value. *)
Definition EVP_DecodeUpdate (ctx : EVP_ENCODE_CTX) (inp : list Z)
  : EVP_ENCODE_CTX * list Z * Z * Z :=
  if negb (error_encountered ctx =? 0) then (ctx, [], 0, -1) else
  let '(ctx, out, bytes_out, ok) := EVP_DecodeUpdate_loop ctx [] 0 inp in
  if negb ok then (ctx, out, 0, -1) else
  if INT_MAX <? bytes_out then (with_error ctx 1, out, 0, -1) else
  if negb (eof_seen ctx =? 0) then (ctx, out, bytes_out, 0)
  else (ctx, out, bytes_out, 1).

Definition EVP_DecodeFinal (ctx : EVP_ENCODE_CTX) : Z :=
  if negb (error_encountered ctx =? 0) || negb (data_used ctx =? 0) then -1 else 1.

Fixpoint EVP_DecodeBase64_loop (i in_len : Z) (out : list Z) (inp : list Z) : option (list Z) :=
  match inp with
  | a :: b :: c :: d :: inp =>
      let* bs := base64_decode_quad a b c d in
      let out := out ++ bs in
      if negb (len bs =? 3) && negb (i =? u64 (in_len - 4)) then None
      else EVP_DecodeBase64_loop (u64 (i + 4)) in_len out inp
  | _ => Some out
  end.

(** [EVP_DecodeBase64]: the bytes stored ([*out_len] is their number) or
    [None] for a zero return. *)
Definition EVP_DecodeBase64 (max_out : Z) (inp : list Z) : option (list Z) :=
  if negb (len inp mod 4 =? 0) then None else
  let* max_len := EVP_DecodedLength (len inp) in
  if max_out <? max_len then None else
  EVP_DecodeBase64_loop 0 (len inp) [] inp.

Fixpoint trim_front (src : list Z) : list Z :=
  match src with
  | c :: src' => if negb (c =? 32) && negb (c =? 9) then src else trim_front src'
  | [] => []
  end.

(** Trimming at the end drops the last character while it is a space. *)
Fixpoint trim_back_rev (rsrc : list Z) : list Z :=
  match rsrc with
  | c :: rsrc' => if is_space c then trim_back_rev rsrc' else rsrc
  | [] => []
  end.
Definition trim_back (src : list Z) : list Z := rev (trim_back_rev (rev src)).

(** [while (dst_len % 3 != 0) dst[dst_len++] = 0]: at most two rounds. *)
Fixpoint pad_nuls (fuel : nat) (dst : list Z) : option (list Z) :=
  if len dst mod 3 =? 0 then Some dst else
  match fuel with O => None | S fuel => pad_nuls fuel (dst ++ [0]) end.

(** [EVP_DecodeBlock]: the bytes stored to [dst] and the return value. *)
Definition EVP_DecodeBlock (src : list Z) : list Z * Z :=
  let src := trim_back (trim_front src) in
  match EVP_DecodedLength (len src) with
  | None => ([], -1)
  | Some dst_len =>
      if INT_MAX <? dst_len then ([], -1) else
      match EVP_DecodeBase64 dst_len src with
      | None => ([], -1)
      | Some dst =>
          match pad_nuls 2 dst with
          | Some dst => (dst, len dst)
          | None => ([], -1)
          end
      end
  end.

(** ** Sextets and characters *)

Definition sextet_ok (v : Z) : Prop := 0 <= v < 64.

Lemma conv_mod64 x : conv_bin2ascii (u8 x) = conv_bin2ascii (x mod 64).
Proof.
  unfold conv_bin2ascii. change 63 with (Z.ones 6). rewrite !Z.land_ones by lia.
  change (2 ^ 6) with 64. rewrite Z.mod_mod by lia.
  unfold wrap. change (2 ^ 8) with 256.
  now rewrite Z.mod_mod_divide by (exists 4; reflexivity).
Qed.

(** The standard alphabet's decoder inverts its encoder, and no encoded
    character is the pad, a space or an invalid symbol. *)
Lemma conv_facts v : sextet_ok v ->
  base64_ascii_to_bin (conv_bin2ascii v) = v /\ (conv_bin2ascii v =? 61) = false /\
  is_space (conv_bin2ascii v) = false /\ byte_ok (conv_bin2ascii v).
Proof.
  intros Hv.
  assert (H := forall_byte (fun v => (64 <=? v) ||
    ((base64_ascii_to_bin (conv_bin2ascii v) =? v) && negb (conv_bin2ascii v =? 61) &&
     negb (is_space (conv_bin2ascii v)) && (0 <=? conv_bin2ascii v) && (conv_bin2ascii v <? 256)))).
  specialize (H ltac:(vm_compute; reflexivity) v).
  unfold sextet_ok, byte_ok in *.
  specialize (H ltac:(lia)). cbv beta in H.
  destruct (Z.leb_spec 64 v); [lia |]. rewrite orb_false_l, !andb_true_iff, !negb_true_iff in H.
  intuition lia.
Qed.

Lemma conv_decode v : sextet_ok v -> base64_ascii_to_bin (conv_bin2ascii v) = v.
Proof. apply conv_facts. Qed.
Lemma conv_not_pad v : sextet_ok v -> (conv_bin2ascii v =? 61) = false.
Proof. apply conv_facts. Qed.
Lemma conv_not_space v : sextet_ok v -> is_space (conv_bin2ascii v) = false.
Proof. apply conv_facts. Qed.

Lemma sextet_mod x : sextet_ok (x mod 64).
Proof. apply Z.mod_pos_bound; lia. Qed.

#[export] Hint Resolve sextet_mod : bytes.

(** The 24-bit value of four sextets, as sums. *)
Lemma quad_value a b c d : sextet_ok a -> sextet_ok b -> sextet_ok c -> sextet_ok d ->
  Z.lor (Z.lor (Z.lor (Z.shiftl a 18) (Z.shiftl b 12)) (Z.shiftl c 6)) d =
  a * 262144 + b * 4096 + c * 64 + d.
Proof.
  unfold sextet_ok. intros.
  change 18 with (6 + 12). rewrite <- (Z.shiftl_shiftl a 6 12), <- Z.shiftl_lor by lia.
  rewrite (lor_disjoint_add 6 a b) by lia.
  change 12 with (6 + 6). rewrite <- (Z.shiftl_shiftl _ 6 6), <- Z.shiftl_lor by lia.
  rewrite (lor_disjoint_add 6 _ c) by lia.
  rewrite (lor_disjoint_add 6 _ d) by lia. lia.
Qed.

Lemma triple_value s0 s1 s2 : byte_ok s0 -> byte_ok s1 -> byte_ok s2 ->
  Z.lor (Z.lor (Z.shiftl s0 16) (Z.shiftl s1 8)) s2 = s0 * 65536 + s1 * 256 + s2.
Proof.
  unfold byte_ok. intros.
  change 16 with (8 + 8). rewrite <- (Z.shiftl_shiftl s0 8 8), <- Z.shiftl_lor by lia.
  rewrite (lor_disjoint_add 8 s0 s1) by lia.
  rewrite (lor_disjoint_add 8 _ s2) by lia. lia.
Qed.

Lemma pair_value s0 s1 : byte_ok s0 -> byte_ok s1 ->
  Z.lor (Z.shiftl s0 16) (Z.shiftl s1 8) = s0 * 65536 + s1 * 256.
Proof.
  intros. rewrite <- (Z.lor_0_r (Z.lor _ _)).
  rewrite triple_value by (unfold byte_ok in *; lia). lia.
Qed.

Ltac quad_start :=
  intros; unfold base64_decode_quad;
  rewrite ?conv_decode, ?conv_not_pad by assumption;
  change (base64_ascii_to_bin 61) with 0; change (61 =? 61) with true;
  unfold sextet_ok in *;
  repeat match goal with |- context [?x =? 255] => destruct (Z.eqb_spec x 255); [lia |] end;
  cbn [orb];
  rewrite quad_value by (unfold sextet_ok; lia); rewrite !Z.shiftr_div_pow2 by lia;
  cbn -[wrap Z.add Z.mul Z.div Z.pow].

Lemma quad_full a b c d :
  sextet_ok a -> sextet_ok b -> sextet_ok c -> sextet_ok d ->
  let v := a * 262144 + b * 4096 + c * 64 + d in
  base64_decode_quad (conv_bin2ascii a) (conv_bin2ascii b) (conv_bin2ascii c) (conv_bin2ascii d)
  = Some [u8 (v / 2 ^ 16); u8 (v / 2 ^ 8); u8 v].
Proof. quad_start. reflexivity. Qed.

Lemma quad_pad1 a b c :
  sextet_ok a -> sextet_ok b -> sextet_ok c ->
  let v := a * 262144 + b * 4096 + c * 64 in
  base64_decode_quad (conv_bin2ascii a) (conv_bin2ascii b) (conv_bin2ascii c) 61
  = Some [u8 (v / 2 ^ 16); u8 (v / 2 ^ 8)].
Proof. quad_start. now rewrite Z.add_0_r. Qed.

Lemma quad_pad2 a b :
  sextet_ok a -> sextet_ok b ->
  let v := a * 262144 + b * 4096 in
  base64_decode_quad (conv_bin2ascii a) (conv_bin2ascii b) 61 61 = Some [u8 (v / 2 ^ 16)].
Proof. quad_start. now rewrite !Z.add_0_r. Qed.

(** ** The text of a byte string, group by group *)

Definition chars3 (s0 s1 s2 : Z) : list Z :=
  let l := s0 * 65536 + s1 * 256 + s2 in
  [conv_bin2ascii ((l / 2 ^ 18) mod 64); conv_bin2ascii ((l / 2 ^ 12) mod 64);
   conv_bin2ascii ((l / 2 ^ 6) mod 64); conv_bin2ascii (l mod 64)].

Fixpoint text (src : list Z) : list Z :=
  match src with
  | [] => []
  | [s0] => firstn 2 (chars3 s0 0 0) ++ [61; 61]
  | [s0; s1] => firstn 3 (chars3 s0 s1 0) ++ [61]
  | s0 :: s1 :: s2 :: src' => chars3 s0 s1 s2 ++ text src'
  end.

Lemma text_app3 a b c l : text (a :: b :: c :: l) = chars3 a b c ++ text l.
Proof. destruct l as [| x [| y l]]; reflexivity. Qed.

Lemma text_length src : len (text src) = 4 * ((len src + 2) / 3).
Proof.
  induction src as [| a | a b | a b c l IH] using list_ind3; try reflexivity.
  rewrite text_app3, len_app, IH. autorewrite with len.
  replace (len (chars3 a b c)) with 4 by reflexivity.
  pose proof (len_nonneg l).
  replace (1 + (1 + (1 + len l)) + 2) with (len l + 2 + 1 * 3) by lia.
  rewrite Z.div_add by lia. lia.
Qed.

Lemma encode_loop_text src : bytes_ok src -> forall ret,
  EVP_EncodeBlock_loop src ret = (text src ++ [0], u64 (ret + len (text src))) \/
  (src = [] /\ EVP_EncodeBlock_loop src ret = ([0], ret)).
Proof.
  induction src as [| a | a b | a b c l IH] using list_ind3; intros Hok ret.
  - now right.
  - left. inversion_clear Hok. cbn [EVP_EncodeBlock_loop text chars3 firstn].
    rewrite !conv_mod64, !Z.shiftr_div_pow2, Z.shiftl_mul_pow2 by lia.
    change (2 ^ 16) with 65536. rewrite !Z.mul_0_l, !Z.add_0_r. reflexivity.
  - left. inversion_clear Hok as [| ? ? ? Hok']. inversion_clear Hok'.
    cbn [EVP_EncodeBlock_loop text chars3 firstn].
    rewrite pair_value by assumption.
    rewrite !conv_mod64, !Z.shiftr_div_pow2 by lia. rewrite !Z.add_0_r. reflexivity.
  - left. inversion_clear Hok as [| ? ? ? Hok']. inversion_clear Hok' as [| ? ? ? Hok''].
    inversion_clear Hok'' as [| ? ? ? Hl].
    rewrite text_app3. cbn [EVP_EncodeBlock_loop].
    assert (EVP_EncodeBlock_loop l (u64 (ret + 4)) =
            (text l ++ [0], u64 (ret + 4 + len (text l)))) as Hrec.
    { destruct (IH Hl (u64 (ret + 4))) as [-> | [-> ->]].
      - f_equal. unfold wrap. now rewrite Z.add_mod_idemp_l by lia.
      - cbn [text app]. f_equal. rewrite Z.add_0_r. reflexivity. }
    rewrite Hrec, triple_value by assumption.
    rewrite !conv_mod64, !Z.shiftr_div_pow2 by lia. cbn [chars3 app].
    autorewrite with len. do 2 f_equal. lia.
Qed.

Lemma encoded_text src : bytes_ok src -> len (text src) <= SIZE_MAX -> encoded src = text src.
Proof.
  intros Hok Hlen. unfold encoded, EVP_EncodeBlock.
  destruct (encode_loop_text src Hok 0) as [-> | [-> ->]]; [| reflexivity].
  rewrite Z.add_0_l, wrap_small.
  - now apply take_app_exact.
  - unfold SIZE_MAX in Hlen. pose proof (len_nonneg (text src)). lia.
Qed.

Lemma chars3_quad s0 s1 s2 : byte_ok s0 -> byte_ok s1 -> byte_ok s2 ->
  exists a b c d, chars3 s0 s1 s2 = [conv_bin2ascii a; conv_bin2ascii b; conv_bin2ascii c; conv_bin2ascii d] /\
  sextet_ok a /\ sextet_ok b /\ sextet_ok c /\ sextet_ok d /\
  a * 262144 + b * 4096 + c * 64 + d = s0 * 65536 + s1 * 256 + s2.
Proof.
  unfold byte_ok. intros. do 4 eexists. split; [reflexivity |].
  split; [| split; [| split; [| split]]]; auto with bytes. word_lia.
Qed.

(** Decoding the text of one group gives the group back. *)
Lemma decode_chars3 s0 s1 s2 : byte_ok s0 -> byte_ok s1 -> byte_ok s2 ->
  exists c0 c1 c2 c3, chars3 s0 s1 s2 = [c0; c1; c2; c3] /\
  is_space c0 = false /\ is_space c1 = false /\ is_space c2 = false /\ is_space c3 = false /\
  base64_decode_quad c0 c1 c2 c3 = Some [s0; s1; s2] /\
  (s2 = 0 -> base64_decode_quad c0 c1 c2 61 = Some [s0; s1]) /\
  (s1 = 0 -> s2 = 0 -> base64_decode_quad c0 c1 61 61 = Some [s0]).
Proof.
  intros H0 H1 H2. destruct (chars3_quad s0 s1 s2 H0 H1 H2) as (a & b & c & d & -> & Ha & Hb & Hc & Hd & Hv).
  do 4 eexists. split; [reflexivity |]. rewrite !conv_not_space by assumption.
  do 4 (split; [reflexivity |]). unfold byte_ok, sextet_ok in *.
  rewrite quad_full, quad_pad1, quad_pad2 by assumption.
  split; [| split]; intros; repeat f_equal; word_lia.
Qed.

Ltac inv_bytes :=
  repeat match goal with H : bytes_ok (_ :: _) |- _ => inversion_clear H end;
  repeat match goal with H : Forall byte_ok (_ :: _) |- _ => inversion_clear H end.

(** One step of [EVP_DecodeBase64_loop], as a quad. *)
Lemma decode_base64_loop_text src : bytes_ok src -> forall i n out,
  0 <= i -> i + len (text src) = n -> n <= SIZE_MAX ->
  EVP_DecodeBase64_loop i n out (text src) = Some (out ++ src).
Proof.
  unfold SIZE_MAX.
  induction src as [| a | a b | a b c l IH] using list_ind3; intros Hok i n out Hi Hn Hmax.
  - cbn. now rewrite app_nil_r.
  - inv_bytes. destruct (decode_chars3 a 0 0) as (c0 & c1 & c2 & c3 & E & _ & _ & _ & _ & _ & _ & Q2);
      try (unfold byte_ok in *; lia).
    cbn [text]; rewrite E; cbn [firstn app EVP_DecodeBase64_loop]. rewrite Q2 by reflexivity. cbv beta iota.
    cbn [text] in Hn; rewrite E in Hn; cbn [firstn app] in Hn; autorewrite with len in Hn.
    rewrite wrap_small by lia. replace (i =? n - 4) with true by lia. reflexivity.
  - inv_bytes. destruct (decode_chars3 a b 0) as (c0 & c1 & c2 & c3 & E & _ & _ & _ & _ & _ & Q1 & _);
      try (unfold byte_ok in *; lia).
    cbn [text]; rewrite E; cbn [firstn app EVP_DecodeBase64_loop]. rewrite Q1 by reflexivity. cbv beta iota.
    cbn [text] in Hn; rewrite E in Hn; cbn [firstn app] in Hn; autorewrite with len in Hn.
    rewrite wrap_small by lia. replace (i =? n - 4) with true by lia. reflexivity.
  - inv_bytes. destruct (decode_chars3 a b c) as (c0 & c1 & c2 & c3 & E & _ & _ & _ & _ & Q0 & _);
      try assumption.
    rewrite text_app3, E in *. cbn [app EVP_DecodeBase64_loop]. rewrite Q0. cbv beta iota.
    cbn [app] in Hn; autorewrite with len in Hn. pose proof (len_nonneg (text l)).
    replace (len [a; b; c] =? 3) with true by reflexivity. cbn [negb andb].
    rewrite IH by (try assumption; rewrite wrap_small; lia). now rewrite <- app_assoc.
Qed.

Lemma text_len_mod4 src : len (text src) mod 4 = 0.
Proof. rewrite text_length, Z.mul_comm. apply Z.mod_mul. lia. Qed.

(** Round trip of the block interface: for every byte string whose encoding
    has a [size_t] length, [EVP_EncodeBlock] stores exactly
    [EVP_EncodedLength] bytes (the NUL included), and [EVP_DecodeBase64] of the
    text, into a buffer of [EVP_DecodedLength] bytes, returns the original. *)
Lemma base64_block_roundtrip src :
  bytes_ok src -> 4 * ((len src + 2) / 3) < SIZE_MAX ->
  EVP_EncodedLength (len src) = Some (len (fst (EVP_EncodeBlock src))) /\
  snd (EVP_EncodeBlock src) = len (encoded src) /\
  (let* max_out := EVP_DecodedLength (len (encoded src)) in
   EVP_DecodeBase64 max_out (encoded src)) = Some src.
Proof.
  intros Hok Hlen. pose proof (len_nonneg src) as Hnn. unfold SIZE_MAX in *.
  assert (Hf : fst (EVP_EncodeBlock src) = text src ++ [0] /\
               snd (EVP_EncodeBlock src) = len (text src)).
  { unfold EVP_EncodeBlock. pose proof (len_nonneg (text src)).
    destruct (encode_loop_text src Hok 0) as [-> | [-> ->]]; [| now split].
    cbn [fst snd]. rewrite Z.add_0_l, wrap_small by (rewrite text_length; word_lia). now split. }
  destruct Hf as [-> ->].
  rewrite encoded_text by (try assumption; rewrite text_length; unfold SIZE_MAX; lia).
  split; [| split; [reflexivity |]].
  - unfold EVP_EncodedLength. rewrite len_app, text_length. change (len [0]) with 1.
    set (q := (len src + 2) / 3) in *.
    assert (3 * q <= len src + 2 < 3 * q + 3) by (subst q; word_lia).
    rewrite (wrap_small 64 (len src + 2)) by word_lia. fold q.
    clearbody q.
    rewrite Z.shiftl_mul_pow2, Z.shiftr_div_pow2, !(wrap_small 64) by word_lia.
    destruct (Z.ltb_spec (len src + 2) (len src)); [lia |].
    replace (q * 2 ^ 2 / 2 ^ 2 =? q) with true by word_lia. cbn [negb].
    destruct (Z.ltb_spec (q * 2 ^ 2 + 1) (q * 2 ^ 2)); [lia |]. f_equal. lia.
  - unfold EVP_DecodedLength, EVP_DecodeBase64, EVP_DecodedLength.
    rewrite text_len_mod4. cbn [Z.eqb negb]. rewrite Z.ltb_irrefl.
    apply decode_base64_loop_text; try assumption; try lia.
    rewrite text_length; unfold SIZE_MAX; lia.
Qed.


(** ** Streaming encoder against its specification

    [lines_of l o r]: encoding [l] line by line emits [o] (each line is the
    text of 48 bytes and a newline) and leaves the [r] (fewer than 48) bytes. *)

Inductive lines_of : list Z -> list Z -> list Z -> Prop :=
| lines_short l : len l < DATA_SIZE -> lines_of l [] l
| lines_line b l o r :
    len b = DATA_SIZE -> lines_of l o r -> lines_of (b ++ l) (text b ++ [10] ++ o) r.

(** The whole text of [l]: its full lines and the last partial one. *)
Definition pem_body (l t : list Z) : Prop :=
  exists o r, lines_of l o r /\ t = o ++ match r with [] => [] | _ => text r ++ [10] end.

Lemma lines_of_app l o1 r1 : lines_of l o1 r1 -> forall k o2 r2,
  lines_of (r1 ++ k) o2 r2 -> lines_of (l ++ k) (o1 ++ o2) r2.
Proof.
  induction 1 as [l Hl | b l o r Hb Hlo IH]; intros k o2 r2 Hk; [exact Hk |].
  rewrite <- app_assoc. rewrite <- !app_assoc. constructor; auto.
Qed.

Lemma lines_of_rest l o r : lines_of l o r -> len r < DATA_SIZE.
Proof. induction 1; auto. Qed.

Lemma lines_of_split l o r : lines_of l o r ->
  exists q, 0 <= q /\ len l = 48 * q + len r /\ len o = 65 * q.
Proof.
  induction 1 as [l Hl | b l o r Hb Hlo (q & Hq & El & Eo)].
  - exists 0. autorewrite with len. lia.
  - exists (q + 1). rewrite !len_app, text_length, Hb, El, Eo.
    change (4 * ((DATA_SIZE + 2) / 3)) with 64. change (len [10]) with 1.
    unfold DATA_SIZE. lia.
Qed.

Lemma lines_of_bytes l o r : lines_of l o r -> bytes_ok l -> bytes_ok r.
Proof. induction 1; rewrite ?bytes_ok_app; tauto. Qed.

(** The context as the state machine sees it. *)
Definition enc_wf (ctx : EVP_ENCODE_CTX) : Prop :=
  0 <= data_used ctx < DATA_SIZE /\ len (data ctx) = DATA_SIZE.
Definition pending (ctx : EVP_ENCODE_CTX) : list Z := take (data_used ctx) (data ctx).

(** Inputs for which no length computation overflows an [int]. *)
Definition fits (n : Z) : Prop := 65 * (n + 48) <= 48 * INT_MAX.

Lemma text_line_len b : len b = DATA_SIZE -> len (text b) = 64.
Proof. intros H. now rewrite text_length, H. Qed.

Lemma encoded_line b : len b = DATA_SIZE -> bytes_ok b -> encoded b = text b.
Proof. intros. apply encoded_text; [assumption |]. rewrite text_line_len by assumption. unfold SIZE_MAX; lia. Qed.

Lemma update_loop_spec fuel : forall out inp,
  (length inp <= fuel)%nat -> bytes_ok inp -> 48 * len out + 65 * len inp <= 48 * INT_MAX ->
  exists o r, lines_of inp o r /\
    EVP_EncodeUpdate_loop fuel out (len out) inp = Some (inr (out ++ o, len out + len o, r)).
Proof.
  unfold INT_MAX, DATA_SIZE.
  induction fuel as [| fuel IH]; intros out inp Hfuel Hok Hb; cbn [EVP_EncodeUpdate_loop].
  - destruct inp; [| cbn in Hfuel; lia]. cbn. exists [], [].
    rewrite app_nil_r, Z.add_0_r. split; [now constructor | reflexivity].
  - destruct (Z.ltb_spec (len inp) DATA_SIZE) as [Hs | Hs].
    + exists [], inp. rewrite app_nil_r, len_nil, Z.add_0_r. split; [now constructor | reflexivity].
    + assert (Hline : len (take DATA_SIZE inp) = DATA_SIZE) by (apply len_take; unfold DATA_SIZE in *; lia).
      rewrite encoded_line by auto with bytes. unfold DATA_SIZE in *.
      rewrite text_line_len by assumption.
      rewrite wrap_small by (pose proof (len_nonneg out); lia).
      destruct (Z.ltb_spec (len out + 64 + 1) (len out)); [lia |].
      assert (Hout : len (out ++ text (take 48 inp) ++ [10]) = len out + 64 + 1).
      { rewrite !len_app, text_line_len by assumption. change (len [10]) with 1. lia. }
      assert (Hdrop : len (drop 48 inp) = len inp - 48) by (apply len_drop; lia).
      destruct (IH (out ++ text (take 48 inp) ++ [10]) (drop 48 inp)) as (o & r & Hl & E);
        [unfold len in *; lia | auto with bytes | lia |].
      exists (text (take 48 inp) ++ [10] ++ o), r. split.
      * rewrite <- (take_drop 48 inp) at 1. now constructor.
      * rewrite Hout in E. rewrite E. rewrite <- !app_assoc.
        rewrite !len_app, text_line_len by assumption. change (len [10]) with 1.
        do 4 f_equal. lia.
Qed.

Lemma nul_terminated_take out : take (len out) (nul_terminated out) = out.
Proof. destruct out; [reflexivity |]. now apply take_app_exact. Qed.

(** The tail of [EVP_EncodeUpdate]: what is left of the input becomes the
    pending bytes. *)
Lemma store_rest ctx d r :
  len d = DATA_SIZE -> len r < DATA_SIZE ->
  let ctx' := with_data ctx (u32 (len r)) (if negb (len r =? 0) then splice d 0 r else d) in
  enc_wf ctx' /\ pending ctx' = r.
Proof.
  unfold DATA_SIZE. intros Hd Hr. pose proof (len_nonneg r).
  unfold enc_wf, pending, with_data, DATA_SIZE. cbn [data_used data].
  rewrite wrap_small by lia.
  destruct (Z.eqb_spec (len r) 0) as [H0 | H0]; cbn [negb].
  - apply len_0_nil in H0 as ->. cbn. repeat split; lia.
  - rewrite len_splice by lia. repeat split; try lia.
    apply (take_splice d 0 r); lia.
Qed.

(** One call of [EVP_EncodeUpdate] runs the line machine on the pending bytes
    followed by the input. *)
Lemma EVP_EncodeUpdate_spec ctx inp :
  enc_wf ctx -> bytes_ok (pending ctx) -> bytes_ok inp -> fits (len inp) ->
  exists ctx' out o,
    EVP_EncodeUpdate ctx inp = Some (ctx', out, len o) /\ take (len o) out = o /\
    enc_wf ctx' /\ lines_of (pending ctx ++ inp) o (pending ctx').
Proof.
  intros [Hused Hdata] Hp Hok Hfits. unfold fits, INT_MAX, DATA_SIZE in *.
  pose proof (len_nonneg inp) as Hn. unfold EVP_EncodeUpdate, DATA_SIZE.
  assert (Hpend : len (pending ctx) = data_used ctx) by (apply len_take; lia).
  destruct (Z.eqb_spec (len inp) 0) as [H0 | H0].
  { apply len_0_nil in H0 as ->. exists ctx, [], []. rewrite app_nil_r.
    do 2 (split; [reflexivity |]). split; [now split |]. constructor. unfold DATA_SIZE; lia. }
  destruct (Z.ltb_spec (len inp) (48 - data_used ctx)) as [Hs | Hs].
  { eexists _, [], []. split; [reflexivity |]. split; [reflexivity |].
    unfold enc_wf, pending, with_data, DATA_SIZE. cbn [data_used data].
    rewrite len_splice, take_splice by lia. repeat split; try lia.
    constructor. fold (pending ctx). rewrite len_app. unfold DATA_SIZE. lia. }
  destruct (Z.eqb_spec (data_used ctx) 0) as [Hz | Hz]; cbn [negb].
  - destruct (update_loop_spec (length inp) [] inp) as (o & r & Hl & E);
      try assumption; try (change (len (@nil Z)) with 0; unfold INT_MAX; lia); try lia.
    change (len (@nil Z)) with 0 in E. rewrite E. cbn [app].
    destruct (lines_of_split _ _ _ Hl) as (q & Hq & El & Eo). pose proof (len_nonneg r).
    unfold INT_MAX. destruct (Z.ltb_spec 2147483647 (0 + len o)); [lia |].
    destruct (store_rest ctx (data ctx) r Hdata (lines_of_rest _ _ _ Hl)) as [Hwf Hpend'].
    eexists _, _, o. split; [reflexivity |]. rewrite nul_terminated_take, Hpend'.
    unfold pending. rewrite Hz. repeat split; try apply Hwf. exact Hl.
  - set (todo := 48 - data_used ctx) in *.
    assert (Htodo : len (take todo inp) = todo) by (apply len_take; subst todo; lia).
    rewrite splice_full by (subst todo; lia). fold (pending ctx).
    set (d := pending ctx ++ take todo inp).
    assert (Hline : len d = DATA_SIZE)
      by (unfold d; rewrite len_app; subst todo; unfold DATA_SIZE; lia).
    assert (Hbl : bytes_ok d) by (apply bytes_ok_app; auto with bytes).
    rewrite encoded_line, text_line_len by assumption. change (u64 (64 + 1)) with 65.
    assert (Hll : len (text d ++ [10]) = 65) by (rewrite len_app, text_line_len by assumption; reflexivity).
    assert (Hrest : len (drop todo inp) = len inp - todo) by (apply len_drop; subst todo; lia).
    destruct (update_loop_spec (length (drop todo inp)) (text d ++ [10]) (drop todo inp)) as (o & r & Hl & E);
      [lia | auto with bytes | unfold INT_MAX; lia |].
    rewrite Hll in E. rewrite E.
    destruct (lines_of_split _ _ _ Hl) as (q & Hq & El & Eo). pose proof (len_nonneg r).
    unfold INT_MAX. destruct (Z.ltb_spec 2147483647 (65 + len o)); [lia |].
    destruct (store_rest (with_data ctx 0 d) (data (with_data ctx 0 d)) r Hline (lines_of_rest _ _ _ Hl)) as [Hwf Hpend'].
    eexists _, _, ((text d ++ [10]) ++ o). rewrite len_app, Hll. split; [reflexivity |].
    rewrite <- Hll, <- len_app, nul_terminated_take, Hpend'.
    repeat split; try apply Hwf.
    rewrite <- (take_drop todo inp), app_assoc, <- (app_assoc (text d)). now constructor.
Qed.

(** ** Streaming decoder *)

Fixpoint encode_updates (ctx : EVP_ENCODE_CTX) (chunks : list (list Z))
  : option (EVP_ENCODE_CTX * list Z) :=
  match chunks with
  | [] => Some (ctx, [])
  | c :: chunks =>
      let* '(ctx, out, n) := EVP_EncodeUpdate ctx c in
      let* '(ctx, rest) := encode_updates ctx chunks in
      Some (ctx, take n out ++ rest)
  end.

(** A caller's use of the streaming encoder: the reported bytes of every call. *)
Definition encode_stream (chunks : list (list Z)) : option (list Z) :=
  let* '(ctx, body) := encode_updates EVP_EncodeInit chunks in
  let '(_, out, n) := EVP_EncodeFinal ctx in
  Some (body ++ take n out).

Fixpoint decode_updates (ctx : EVP_ENCODE_CTX) (chunks : list (list Z))
  : option (EVP_ENCODE_CTX * list Z) :=
  match chunks with
  | [] => Some (ctx, [])
  | c :: chunks =>
      let '(ctx, out, n, ret) := EVP_DecodeUpdate ctx c in
      if ret =? -1 then None else
      let* '(ctx, rest) := decode_updates ctx chunks in
      Some (ctx, take n out ++ rest)
  end.

Definition decode_stream (chunks : list (list Z)) : option (list Z) :=
  let* '(ctx, body) := decode_updates EVP_DecodeInit chunks in
  if EVP_DecodeFinal ctx =? 1 then Some body else None.

Lemma EVP_EncodeInit_wf : enc_wf EVP_EncodeInit /\ pending EVP_EncodeInit = [].
Proof. repeat split; reflexivity || (cbn; unfold DATA_SIZE; lia). Qed.

Lemma encode_updates_spec chunks : forall ctx,
  enc_wf ctx -> bytes_ok (pending ctx) -> Forall bytes_ok chunks ->
  Forall (fun c => fits (len c)) chunks ->
  exists ctx' o, encode_updates ctx chunks = Some (ctx', o) /\ enc_wf ctx' /\
    lines_of (pending ctx ++ concat chunks) o (pending ctx').
Proof.
  induction chunks as [| c chunks IH]; intros ctx Hwf Hp Hok Hfit.
  - exists ctx, []. repeat split; try apply Hwf. cbn. rewrite app_nil_r.
    constructor. unfold pending. rewrite len_take; destruct Hwf; lia.
  - inversion_clear Hok as [| ? ? Hc Hcs]. inversion_clear Hfit as [| ? ? Fc Fcs].
    destruct (EVP_EncodeUpdate_spec ctx c Hwf Hp Hc Fc) as (ctx1 & out & o & E & Eo & Hwf1 & Hl).
    assert (Hp1 : bytes_ok (pending ctx1)).
    { eapply lines_of_bytes; [exact Hl |]. apply bytes_ok_app; auto. }
    destruct (IH ctx1 Hwf1 Hp1 Hcs Fcs) as (ctx2 & o2 & E2 & Hwf2 & Hl2).
    exists ctx2, (o ++ o2). cbn [encode_updates concat]. rewrite E. cbv beta iota.
    rewrite E2, Eo. repeat split; try apply Hwf2.
    rewrite app_assoc. eapply lines_of_app; eauto.
Qed.

Lemma encode_final_spec ctx : enc_wf ctx -> bytes_ok (pending ctx) ->
  let '(_, out, n) := EVP_EncodeFinal ctx in
  take n out = match pending ctx with [] => [] | _ => text (pending ctx) ++ [10] end.
Proof.
  intros [Hu Hd] Hp. unfold EVP_EncodeFinal, pending in *. unfold DATA_SIZE in *.
  destruct (Z.eqb_spec (data_used ctx) 0) as [Hz | Hz]; [now rewrite Hz, take_0 |].
  assert (Hlen : len (take (data_used ctx) (data ctx)) = data_used ctx) by (apply len_take; lia).
  destruct (take (data_used ctx) (data ctx)) as [| x p] eqn:Ep; [cbn in Hlen; lia |].
  rewrite encoded_text by (try assumption; rewrite text_length, Hlen; unfold SIZE_MAX; word_lia).
  change [10; 0] with ([10] ++ [0]). rewrite app_assoc. apply take_app_exact.
  rewrite len_app. reflexivity.
Qed.

(** The decoder between two groups, before the end of the data is seen. *)
Definition dec_idle (ctx : EVP_ENCODE_CTX) : Prop :=
  data_used ctx = 0 /\ len (data ctx) = DATA_SIZE /\ eof_seen ctx = 0 /\ error_encountered ctx = 0.

(** One symbol that does not complete a group. *)
Lemma decode_loop_char used d err out n c inp :
  is_space c = false -> used + 1 <> 4 ->
  EVP_DecodeUpdate_loop (mk_ctx used d 0 err) out n (c :: inp) =
  EVP_DecodeUpdate_loop (mk_ctx (used + 1) (splice d used [c]) 0 err) out n inp.
Proof.
  intros Hs Hu. cbn [EVP_DecodeUpdate_loop]. rewrite Hs.
  unfold with_data. cbn [data_used data eof_seen error_encountered Z.eqb negb].
  destruct (Z.eqb_spec (used + 1) 4); [contradiction | reflexivity].
Qed.

(** Consuming one group of four symbols. *)
Lemma decode_loop_quad ctx out n c0 c1 c2 c3 inp bs :
  dec_idle ctx ->
  is_space c0 = false -> is_space c1 = false -> is_space c2 = false -> is_space c3 = false ->
  base64_decode_quad c0 c1 c2 c3 = Some bs ->
  exists ctx', EVP_DecodeUpdate_loop ctx out n (c0 :: c1 :: c2 :: c3 :: inp) =
               EVP_DecodeUpdate_loop ctx' (out ++ bs) (u64 (n + len bs)) inp /\
    data_used ctx' = 0 /\ len (data ctx') = DATA_SIZE /\ error_encountered ctx' = 0 /\
    eof_seen ctx' = (if len bs <? 3 then 1 else 0).
Proof.
  destruct ctx as [used d eof err]. unfold dec_idle. cbn [data_used data eof_seen error_encountered].
  intros (-> & Hd & -> & ->) S0 S1 S2 S3 Hq.
  destruct d as [| d0 [| d1 [| d2 [| d3 d]]]]; try discriminate Hd.
  exists (mk_ctx 0 (c0 :: c1 :: c2 :: c3 :: d) (if len bs <? 3 then 1 else 0) 0).
  split; [| repeat split; exact Hd].
  do 3 (rewrite decode_loop_char by (assumption || discriminate)).
  change (splice (splice (splice (d0 :: d1 :: d2 :: d3 :: d) 0 [c0]) (0 + 1) [c1]) (0 + 1 + 1) [c2])
    with (c0 :: c1 :: c2 :: d3 :: d).
  cbn [EVP_DecodeUpdate_loop]. rewrite S3.
  unfold with_data, with_eof. cbn [data_used data eof_seen error_encountered Z.eqb negb].
  change (splice (c0 :: c1 :: c2 :: d3 :: d) (0 + 1 + 1 + 1) [c3]) with (c0 :: c1 :: c2 :: c3 :: d).
  change (0 + 1 + 1 + 1 =? 4) with true. cbv iota.
  change (base64_decode_quad (get (c0 :: c1 :: c2 :: c3 :: d) 0) (get (c0 :: c1 :: c2 :: c3 :: d) 1)
            (get (c0 :: c1 :: c2 :: c3 :: d) 2) (get (c0 :: c1 :: c2 :: c3 :: d) 3))
    with (base64_decode_quad c0 c1 c2 c3).
  rewrite Hq. now destruct (len bs <? 3).
Qed.

(** Consuming the text of a byte string. *)
Lemma decode_loop_text src : bytes_ok src -> forall ctx out n inp, dec_idle ctx ->
  0 <= n -> n + len src <= SIZE_MAX ->
  exists ctx', EVP_DecodeUpdate_loop ctx out n (text src ++ inp) =
               EVP_DecodeUpdate_loop ctx' (out ++ src) (n + len src) inp /\
    data_used ctx' = 0 /\ len (data ctx') = DATA_SIZE /\ error_encountered ctx' = 0 /\
    (len src mod 3 = 0 -> eof_seen ctx' = 0).
Proof.
  unfold SIZE_MAX.
  induction src as [| a | a b | a b c l IH] using list_ind3; intros Hok ctx out n inp Hidle Hn Hmax.
  - exists ctx. cbn [text app]. rewrite app_nil_r, Z.add_0_r. destruct Hidle as (? & ? & ? & ?). now repeat split.
  - inv_bytes. destruct (decode_chars3 a 0 0) as (c0 & c1 & c2 & c3 & E & S0 & S1 & _ & _ & _ & _ & Q2);
      try (unfold byte_ok in *; lia).
    cbn [text]; rewrite E; cbn [firstn app].
    destruct (decode_loop_quad ctx out n c0 c1 61 61 inp [a] Hidle S0 S1 eq_refl eq_refl (Q2 eq_refl eq_refl))
      as (ctx' & -> & ? & ? & ? & He).
    change (len [a]) with 1 in *. rewrite wrap_small by lia.
    exists ctx'. repeat split; try assumption. discriminate.
  - inv_bytes. destruct (decode_chars3 a b 0) as (c0 & c1 & c2 & c3 & E & S0 & S1 & S2 & _ & _ & Q1 & _);
      try (unfold byte_ok in *; lia).
    cbn [text]; rewrite E; cbn [firstn app].
    destruct (decode_loop_quad ctx out n c0 c1 c2 61 inp [a; b] Hidle S0 S1 S2 eq_refl (Q1 eq_refl))
      as (ctx' & -> & ? & ? & ? & He).
    change (len [a; b]) with 2 in *. rewrite wrap_small by lia.
    exists ctx'. repeat split; try assumption. discriminate.
  - inv_bytes. destruct (decode_chars3 a b c) as (c0 & c1 & c2 & c3 & E & S0 & S1 & S2 & S3 & Q0 & _);
      try assumption.
    rewrite text_app3, E. cbn [app].
    destruct (decode_loop_quad ctx out n c0 c1 c2 c3 (text l ++ inp) [a; b; c] Hidle S0 S1 S2 S3 Q0)
      as (ctx1 & -> & ? & ? & ? & He). autorewrite with len in Hmax. pose proof (len_nonneg l).
    change (len [a; b; c]) with 3 in *. rewrite wrap_small by lia.
    destruct (IH ltac:(assumption) ctx1 (out ++ [a; b; c]) (n + 3) inp) as (ctx' & -> & ? & ? & ? & Hmod);
      try lia; [now repeat split |].
    exists ctx'. rewrite <- app_assoc. autorewrite with len. split; [cbn [app]; f_equal; lia |].
    repeat split; try assumption. intros Hm. apply Hmod.
    replace (1 + (1 + (1 + len l))) with (len l + 1 * 3) in Hm by lia.
    now rewrite Z.mod_add in Hm by lia.
Qed.

Lemma decode_loop_newline ctx out n inp :
  EVP_DecodeUpdate_loop ctx out n (10 :: inp) = EVP_DecodeUpdate_loop ctx out n inp.
Proof. reflexivity. Qed.

(** Consuming the full lines of an encoding. *)
Lemma decode_loop_lines l o r : lines_of l o r -> bytes_ok l -> forall ctx out n inp, dec_idle ctx ->
  0 <= n -> n + len l <= SIZE_MAX ->
  exists ctx' l', l = l' ++ r /\
    EVP_DecodeUpdate_loop ctx out n (o ++ inp) =
    EVP_DecodeUpdate_loop ctx' (out ++ l') (n + len l') inp /\ dec_idle ctx'.
Proof.
  unfold SIZE_MAX.
  induction 1 as [l Hl | b l o r Hb Hlo IH]; intros Hok ctx out n inp Hidle Hn Hmax.
  - exists ctx, []. cbn [app]. rewrite app_nil_r, Z.add_0_r. split; [reflexivity | split; [reflexivity | exact Hidle]].
  - apply bytes_ok_app in Hok as [Hokb Hokl]. rewrite len_app in Hmax. pose proof (len_nonneg l).
    destruct (decode_loop_text b Hokb ctx out n ([10] ++ o ++ inp) Hidle) as (ctx1 & E1 & ? & ? & ? & He);
      unfold SIZE_MAX, DATA_SIZE in *; try lia.
    cbn [app] in E1. rewrite decode_loop_newline in E1.
    assert (dec_idle ctx1) as Hi1 by (repeat split; try assumption; apply He; rewrite Hb; reflexivity).
    destruct (IH Hokl ctx1 (out ++ b) (n + len b) inp Hi1) as (ctx2 & l' & -> & E2 & Hi2); try lia.
    exists ctx2, (b ++ l'). split; [apply app_assoc |]. split; [| exact Hi2].
    rewrite <- !app_assoc. cbn [app]. rewrite E1, E2. rewrite <- app_assoc, len_app, Z.add_assoc. reflexivity.
Qed.

(** The loop over a concatenation is the composition of the loops. *)
Lemma decode_loop_app a : forall ctx out n b,
  EVP_DecodeUpdate_loop ctx out n (a ++ b) =
  let '(ctx1, out1, n1, ok) := EVP_DecodeUpdate_loop ctx out n a in
  if ok then EVP_DecodeUpdate_loop ctx1 out1 n1 b else (ctx1, out1, n1, false).
Proof.
  induction a as [| c a IH]; intros ctx out n b; [reflexivity |].
  cbn [app EVP_DecodeUpdate_loop]. destruct (is_space c); [apply IH |].
  destruct (negb (eof_seen ctx =? 0)); [reflexivity |]. cbv zeta.
  destruct (data_used _ =? 4); [| apply IH].
  destruct (base64_decode_quad _ _ _ _); [apply IH | reflexivity].
Qed.

(** Earlier output does not influence the loop. *)
Lemma decode_loop_frame inp : forall ctx out n p m,
  exists m', let '(ctx1, out1, n1, ok) := EVP_DecodeUpdate_loop ctx out n inp in
  EVP_DecodeUpdate_loop ctx (p ++ out) m inp = (ctx1, p ++ out1, m', ok).
Proof.
  induction inp as [| c inp IH]; intros ctx out n p m; [now exists m |].
  cbn [EVP_DecodeUpdate_loop]. destruct (is_space c); [apply IH |].
  destruct (negb (eof_seen ctx =? 0)); [now exists m |]. cbv zeta.
  destruct (data_used _ =? 4); [| apply IH].
  destruct (base64_decode_quad _ _ _ _) as [bs |]; [| now exists m].
  rewrite <- app_assoc. apply IH.
Qed.

(** [bytes_out] counts the bytes stored, and a loop that does not fail keeps
    the error flag. *)
Lemma decode_loop_count inp : forall ctx out n,
  n = u64 (len out) ->
  let '(ctx1, out1, n1, ok) := EVP_DecodeUpdate_loop ctx out n inp in
  n1 = u64 (len out1) /\ (ok = true -> error_encountered ctx1 = error_encountered ctx).
Proof.
  induction inp as [| c inp IH]; intros ctx out n Hn; [now split |].
  cbn [EVP_DecodeUpdate_loop]. destruct (is_space c); [now apply IH |].
  destruct (negb (eof_seen ctx =? 0)); [now split |]. cbv zeta.
  destruct (data_used _ =? 4).
  - destruct (base64_decode_quad _ _ _ _) as [bs |]; [| now split].
    specialize (IH (if len bs <? 3
         then with_eof (with_data (with_data ctx (data_used ctx + 1) (splice (data ctx) (data_used ctx) [c])) 0
               (data (with_data ctx (data_used ctx + 1) (splice (data ctx) (data_used ctx) [c])))) 1
         else with_data (with_data ctx (data_used ctx + 1) (splice (data ctx) (data_used ctx) [c])) 0
               (data (with_data ctx (data_used ctx + 1) (splice (data ctx) (data_used ctx) [c]))))
      (out ++ bs) (u64 (n + len bs))).
    destruct (EVP_DecodeUpdate_loop _ _ _ _) as [[[ctx1 out1] n1] ok]. subst n.
    destruct IH as [-> He]; [unfold wrap; rewrite len_app, Z.add_mod_idemp_l by lia; reflexivity |].
    split; [reflexivity |]. intros Hok. rewrite (He Hok). now destruct (len bs <? 3).
  - specialize (IH (with_data ctx (data_used ctx + 1) (splice (data ctx) (data_used ctx) [c])) out n Hn).
    destruct (EVP_DecodeUpdate_loop _ _ _ _) as [[[ctx1 out1] n1] ok]. exact IH.
Qed.

(** Feeding chunks is feeding their concatenation. *)
Lemma decode_updates_concat chunks : forall ctx cf o n,
  error_encountered ctx = 0 -> len o <= INT_MAX ->
  EVP_DecodeUpdate_loop ctx [] 0 (concat chunks) = (cf, o, n, true) ->
  decode_updates ctx chunks = Some (cf, o) /\ error_encountered cf = 0.
Proof.
  unfold INT_MAX.
  induction chunks as [| c chunks IH]; intros ctx cf o n He Hlen; cbn [concat].
  - cbn. now intros [= <- <- <-].
  - rewrite decode_loop_app. intros E. cbn [decode_updates]. unfold EVP_DecodeUpdate.
    rewrite He. cbn [Z.eqb negb].
    pose proof (decode_loop_count c ctx [] 0 eq_refl) as Hc.
    destruct (EVP_DecodeUpdate_loop ctx [] 0 c) as [[[ctx1 o1] n1] ok] eqn:E1.
    destruct ok; [| discriminate E]. destruct Hc as [-> Hc]. specialize (Hc eq_refl).
    destruct (decode_loop_frame (concat chunks) ctx1 [] 0 o1 (u64 (len o1))) as [m Hf].
    rewrite app_nil_r in Hf.
    destruct (EVP_DecodeUpdate_loop ctx1 [] 0 (concat chunks)) as [[[cf' o2] n2] ok2] eqn:E2.
    rewrite Hf in E. injection E as -> <- _ ->.
    rewrite len_app in Hlen. pose proof (len_nonneg o1). pose proof (len_nonneg o2).
    destruct (IH ctx1 cf o2 n2) as [Hu Hcf]; [congruence | lia | assumption |].
    rewrite wrap_small by lia. cbn [negb]. unfold INT_MAX.
    destruct (Z.ltb_spec 2147483647 (len o1)); [lia |].
    destruct (negb (eof_seen ctx1 =? 0)); cbn [Z.eqb]; rewrite Hu, take_all by lia; now split.
Qed.

(** The streaming interface round trips, however the data is cut up: the
    encoder turns any sequence of input chunks into the 48-byte line format of
    their concatenation, and the decoder, fed that text in any other sequence of
    chunks, reports the original data and finishes without error. *)
Lemma base64_stream_roundtrip chunks :
  Forall bytes_ok chunks -> Forall (fun c => fits (len c)) chunks ->
  len (concat chunks) <= INT_MAX ->
  exists t, encode_stream chunks = Some t /\ pem_body (concat chunks) t /\
    forall tchunks, concat tchunks = t -> decode_stream tchunks = Some (concat chunks).
Proof.
  intros Hok Hfit Hlen. destruct EVP_EncodeInit_wf as [Hwf0 Hp0].
  destruct (encode_updates_spec chunks EVP_EncodeInit Hwf0) as (ctx & o & E & Hwf & Hl);
    [rewrite Hp0; constructor | assumption | assumption |].
  rewrite Hp0 in Hl. cbn [app] in Hl.
  assert (Hokc : bytes_ok (concat chunks)) by (apply Forall_concat; assumption).
  pose proof (lines_of_bytes _ _ _ Hl Hokc) as Hokr.
  pose proof (encode_final_spec ctx Hwf Hokr) as Hfin.
  unfold encode_stream. rewrite E. cbv beta iota.
  destruct (EVP_EncodeFinal ctx) as [[ctx' out] n] eqn:Ef. rewrite Hfin.
  eexists. split; [reflexivity |]. split; [eexists _, _; split; [exact Hl | reflexivity] |].
  intros tchunks Ht. set (r := pending ctx) in *. clearbody r.
  assert (Hi : dec_idle EVP_DecodeInit) by (repeat split; reflexivity).
  unfold INT_MAX in Hlen.
  destruct (decode_loop_lines _ _ _ Hl Hokc EVP_DecodeInit [] 0
     (match r with [] => [] | _ :: _ => text r ++ [10] end) Hi)
    as (ctx1 & l' & El & E1 & Hi1); unfold SIZE_MAX; try lia.
  assert (exists cf n, EVP_DecodeUpdate_loop EVP_DecodeInit [] 0 (concat tchunks) = (cf, l' ++ r, n, true)
          /\ data_used cf = 0) as (cf & nf & Ed & Hused).
  { rewrite Ht, E1. cbn [app]. pose proof (len_nonneg l'). rewrite El, len_app in Hlen.
    destruct r as [| x r'].
    - exists ctx1. eexists. rewrite app_nil_r. split; [reflexivity | apply Hi1].
    - destruct (decode_loop_text (x :: r') Hokr ctx1 l' (0 + len l') [10] Hi1) as (cf & E2 & ? & ? & ? & ?);
        unfold SIZE_MAX; try lia.
      rewrite E2. exists cf. eexists. split; [reflexivity | assumption]. }
  unfold decode_stream.
  destruct (decode_updates_concat tchunks EVP_DecodeInit cf (l' ++ r) nf eq_refl) as [-> He];
    [rewrite <- El; unfold INT_MAX; lia | exact Ed |].
  cbv beta iota. unfold EVP_DecodeFinal. now rewrite He, Hused, El.
Qed.

(** C17: both interfaces round trip. [EVP_EncodeBlock] stores exactly
    [EVP_EncodedLength] bytes (the NUL included), and [EVP_DecodeBase64] of the
    text, into a buffer of [EVP_DecodedLength] bytes, returns the original. The
    streaming encoder turns any sequence of chunks into the 48-byte line format
    of their concatenation, and the decoder, fed that text in any other sequence
    of chunks, reports the original data and finishes without error. *)
Theorem base64_roundtrip :
  (forall src,
    bytes_ok src -> 4 * ((len src + 2) / 3) < SIZE_MAX ->
      EVP_EncodedLength (len src) = Some (len (fst (EVP_EncodeBlock src))) /\
      snd (EVP_EncodeBlock src) = len (encoded src) /\
      (let* max_out := EVP_DecodedLength (len (encoded src)) in
       EVP_DecodeBase64 max_out (encoded src)) = Some src) /\
  (forall chunks,
    Forall bytes_ok chunks -> Forall (fun c => fits (len c)) chunks ->
      len (concat chunks) <= INT_MAX ->
      exists t, encode_stream chunks = Some t /\ pem_body (concat chunks) t /\
        forall tchunks, concat tchunks = t -> decode_stream tchunks = Some (concat chunks)).
Proof. split; [exact (@base64_block_roundtrip) | exact (@base64_stream_roundtrip)]. Qed.

Lemma base64_roundtrip_witness :
  (EVP_DecodeBase64 6 (encoded [77; 97; 110; 33]) = Some [77; 97; 110; 33]) /\
  (exists t, encode_stream [[1; 2]; []; [3; 250]] = Some t /\ pem_body [1; 2; 3; 250] t /\
      forall tchunks, concat tchunks = t -> decode_stream tchunks = Some [1; 2; 3; 250]).
Proof.
  split.
  { refine (proj2 (proj2 (proj1 base64_roundtrip [77; 97; 110; 33] _ _))).
    - repeat constructor; unfold byte_ok; lia.
    - reflexivity. }
  { apply (proj2 base64_roundtrip [[1; 2]; []; [3; 250]]).
    - repeat constructor; unfold byte_ok; lia.
    - repeat constructor; unfold fits, INT_MAX, len; cbn; lia.
    - unfold INT_MAX, len; cbn; lia. }
Defined.
