(* ===== verification/Cbs.v ===== *)
(** * CBS: the byte-string reader (crypto/bytestring/cbs.c)

    A [CBS] is the list of its remaining bytes. Every reader is a function from
    the CBS to an optional result and the CBS afterwards: readers that fail
    after a partial read leave it advanced, as the C code does. *)

From S2P Require Import Prelude.

Definition CBS : Type := list Z.

Definition reader (A : Type) : Type := CBS -> option A * CBS.

Definition ret {A} (x : A) : reader A := fun cbs => (Some x, cbs).
Definition fail {A} : reader A := fun cbs => (None, cbs).
Definition bind {A B} (m : reader A) (k : A -> reader B) : reader B :=
  fun cbs => match m cbs with
             | (Some x, cbs') => k x cbs'
             | (None, cbs') => (None, cbs')
             end.

Declare Scope reader_scope.
Delimit Scope reader_scope with reader.
Notation "x <- m ;; k" := (bind m (fun x => k))
  (at level 61, m at next level, right associativity) : reader_scope.
Notation "' p <- m ;; k" := (bind m (fun p => k))
  (at level 61, p pattern, m at next level, right associativity) : reader_scope.
Local Open Scope reader_scope.

(** ** Tags (include/openssl/bytestring.h) *)

Definition CBS_ASN1_BOOLEAN : Z := 1.
Definition CBS_ASN1_INTEGER : Z := 2.
Definition CBS_ASN1_OCTETSTRING : Z := 4.
Definition CBS_ASN1_CONSTRUCTED : Z := 32.
Definition CBS_ASN1_TAG_NUMBER_MASK : Z := 31.

(** ** Primitive readers *)

Definition cbs_get (n : Z) : reader (list Z) := fun cbs =>
  if len cbs <? n then (None, cbs) else (Some (take n cbs), drop n cbs).

Definition CBS_skip (n : Z) : reader unit := _ <- cbs_get n ;; ret tt.

Definition CBS_contains_zero_byte (cbs : CBS) : bool := existsb (Z.eqb 0) cbs.

(** The accumulation of [CRYPTO_memcmp] (crypto/mem.c). *)
Fixpoint CRYPTO_memcmp_loop (a b : list Z) (x : Z) : Z :=
  match a, b with
  | p :: a, q :: b => CRYPTO_memcmp_loop a b (Z.lor x (Z.lxor p q))
  | _, _ => x
  end.
Definition CRYPTO_memcmp (a b : list Z) : Z := CRYPTO_memcmp_loop a b 0.

Definition CBS_mem_equal (cbs data : list Z) : bool :=
  if negb (len data =? len cbs) then false else CRYPTO_memcmp cbs data =? 0.

(** The loop of [cbs_get_u] on a [uint32_t]. *)
Definition cbs_u_loop (data : list Z) : Z :=
  fold_left (fun result b => Z.lor (u32 (Z.shiftl result 8)) b) data 0.

Definition cbs_get_u (n : Z) : reader Z := data <- cbs_get n ;; ret (cbs_u_loop data).

Definition CBS_get_u8 : reader Z := v <- cbs_get 1 ;; ret (get v 0).
Definition CBS_get_u16 : reader Z := v <- cbs_get_u 2 ;; ret (u16 v).
Definition CBS_get_u24 : reader Z := cbs_get_u 3.
Definition CBS_get_u32 : reader Z := cbs_get_u 4.

Definition CBS_get_last_u8 : reader Z := fun cbs =>
  if len cbs =? 0 then (None, cbs)
  else (Some (get cbs (len cbs - 1)), take (len cbs - 1) cbs).

Definition CBS_get_bytes (n : Z) : reader CBS := cbs_get n.
Definition CBS_copy_bytes (n : Z) : reader (list Z) := cbs_get n.

Definition cbs_get_length_prefixed (len_len : Z) : reader CBS :=
  n <- cbs_get_u len_len ;; CBS_get_bytes n.

Definition CBS_get_u8_length_prefixed : reader CBS := cbs_get_length_prefixed 1.
Definition CBS_get_u16_length_prefixed : reader CBS := cbs_get_length_prefixed 2.
Definition CBS_get_u24_length_prefixed : reader CBS := cbs_get_length_prefixed 3.

(** ** ASN.1 elements

    The result is the element, its tag and its header length. The header is
    read from a copy of the CBS, so that a malformed header leaves [cbs] where
    it was. *)
Definition cbs_get_any_asn1_element (ber_ok : bool) : reader (CBS * Z * Z) := fun cbs =>
  let fin (tag header_len n : Z) :=
    (out <- CBS_get_bytes n ;; ret (out, tag, header_len)) cbs in
  match (tag <- CBS_get_u8 ;; length_byte <- CBS_get_u8 ;; ret (tag, length_byte)) cbs with
  | (None, _) => (None, cbs)
  | (Some (tag, length_byte), header) =>
      if Z.land tag 31 =? 31 then (None, cbs) else
      if Z.land length_byte 128 =? 0 then fin tag 2 (length_byte + 2) else
      let num_bytes := Z.land length_byte 127 in
      if ber_ok && negb (Z.land tag CBS_ASN1_CONSTRUCTED =? 0) && (num_bytes =? 0)
      then fin tag 2 2 else
      if (num_bytes =? 0) || (4 <? num_bytes) then (None, cbs) else
      match cbs_get_u num_bytes header with
      | (None, _) => (None, cbs)
      | (Some len32, _) =>
          if len32 <? 128 then (None, cbs) else
          if Z.shiftr len32 ((num_bytes - 1) * 8) =? 0 then (None, cbs) else
          if u64 (len32 + 2 + num_bytes) <? len32 then (None, cbs) else
          fin tag (2 + num_bytes) (u64 (len32 + 2 + num_bytes))
      end
  end.

Definition CBS_get_any_asn1_element : reader (CBS * Z * Z) := cbs_get_any_asn1_element false.
Definition CBS_get_any_ber_asn1_element : reader (CBS * Z * Z) := cbs_get_any_asn1_element true.

(** [CBS_skip(out, n)] on the CBS just returned. *)
Definition skip_of (out : CBS) (n : Z) : reader CBS := fun cbs =>
  match CBS_skip n out with
  | (Some _, out') => (Some out', cbs)
  | (None, _) => (None, cbs)
  end.

Definition CBS_get_any_asn1 : reader (CBS * Z) :=
  '(out, tag, header_len) <- CBS_get_any_asn1_element ;;
  out <- skip_of out header_len ;;
  ret (out, tag).

Definition cbs_get_asn1 (tag_value : Z) (skip_header : bool) : reader CBS :=
  '(out, tag, header_len) <- CBS_get_any_asn1_element ;;
  if negb (tag =? tag_value) then fail else
  if skip_header then skip_of out header_len else ret out.

Definition CBS_get_asn1 (tag_value : Z) : reader CBS := cbs_get_asn1 tag_value true.
Definition CBS_get_asn1_element (tag_value : Z) : reader CBS := cbs_get_asn1 tag_value false.

Definition CBS_peek_asn1_tag (cbs : CBS) (tag_value : Z) : bool :=
  if len cbs <? 1 then false else get cbs 0 =? tag_value.

(** The accumulation loop of [CBS_get_asn1_uint64]. *)
Fixpoint asn1_uint64_loop (data : list Z) (out : Z) : option Z :=
  match data with
  | [] => Some out
  | b :: data =>
      if negb (Z.shiftr out 56 =? 0) then None
      else asn1_uint64_loop data (Z.lor (u64 (Z.shiftl out 8)) b)
  end.

Definition CBS_get_asn1_uint64 : reader Z :=
  data <- CBS_get_asn1 CBS_ASN1_INTEGER ;;
  if len data =? 0 then fail else
  if negb (Z.land (get data 0) 128 =? 0) then fail else
  if (get data 0 =? 0) && (1 <? len data) && (Z.land (get data 1) 128 =? 0) then fail else
  match asn1_uint64_loop data 0 with
  | Some v => ret v
  | None => fail
  end.

(** [Some out] when the element is present, [None] when it is absent. *)
Definition CBS_get_optional_asn1 (tag : Z) : reader (option CBS) := fun cbs =>
  if CBS_peek_asn1_tag cbs tag then (out <- CBS_get_asn1 tag ;; ret (Some out)) cbs
  else ret None cbs.

(** Parsing a child CBS with [m] and requiring that it ends up empty. *)
Definition in_child {A} (child : CBS) (m : reader A) : reader A := fun cbs =>
  match m child with
  | (Some x, child') => if negb (len child' =? 0) then (None, cbs) else (Some x, cbs)
  | (None, _) => (None, cbs)
  end.

Definition CBS_get_optional_asn1_octet_string (tag : Z) : reader (CBS * bool) :=
  child <- CBS_get_optional_asn1 tag ;;
  match child with
  | Some child => out <- in_child child (CBS_get_asn1 CBS_ASN1_OCTETSTRING) ;; ret (out, true)
  | None => ret ([], false)
  end.

Definition CBS_get_optional_asn1_uint64 (tag default_value : Z) : reader Z :=
  child <- CBS_get_optional_asn1 tag ;;
  match child with
  | Some child => in_child child CBS_get_asn1_uint64
  | None => ret default_value
  end.

Definition CBS_get_optional_asn1_bool (tag default_value : Z) : reader Z :=
  child <- CBS_get_optional_asn1 tag ;;
  match child with
  | Some child =>
      child2 <- in_child child (child2 <- CBS_get_asn1 CBS_ASN1_BOOLEAN ;;
                                if negb (len child2 =? 1) then fail else ret child2) ;;
      let boolean := get child2 0 in
      if boolean =? 0 then ret 0 else if boolean =? 255 then ret 1 else fail
  | None => ret default_value
  end.

Definition CBS_is_valid_asn1_bitstring (cbs : CBS) : bool :=
  match CBS_get_u8 cbs with
  | (None, _) => false
  | (Some num_unused_bits, inp) =>
      if 7 <? num_unused_bits then false else
      if num_unused_bits =? 0 then true else
      match CBS_get_last_u8 inp with
      | (None, _) => false
      | (Some last, _) => Z.land last (Z.shiftl 1 num_unused_bits - 1) =? 0
      end
  end.

Definition CBS_asn1_bitstring_has_bit (cbs : CBS) (bit : Z) : bool :=
  if negb (CBS_is_valid_asn1_bitstring cbs) then false else
  let byte_num := u32 (Z.shiftr bit 3 + 1) in
  let bit_num := 7 - Z.land bit 7 in
  (byte_num <? len cbs) && negb (Z.land (get cbs byte_num) (Z.shiftl 1 bit_num) =? 0).

(** ** Reading numbers *)

Lemma cbs_get_some n cbs x rest :
  0 <= n -> cbs_get n cbs = (Some x, rest) <-> cbs = x ++ rest /\ len x = n.
Proof.
  intros Hn. unfold cbs_get. destruct (Z.ltb_spec (len cbs) n).
  - split; [discriminate |]. intros [-> Hx]. rewrite len_app in *. pose proof (len_nonneg rest). lia.
  - split.
    + intros [= <- <-]. now rewrite take_drop, len_take.
    + intros [-> <-]. now rewrite take_app_exact, drop_app_exact.
Qed.

Lemma cbs_u_loop_val data : bytes_ok data -> len data <= 4 -> cbs_u_loop data = be_val data.
Proof.
  unfold cbs_u_loop. induction data as [| b l IH] using rev_ind; intros Hok Hlen; [reflexivity |].
  apply bytes_ok_app in Hok as [Hl Hb]. inversion_clear Hb as [| ? ? Hb' _].
  rewrite len_app in Hlen. change (len [b]) with 1 in Hlen.
  rewrite fold_left_app, be_val_snoc. cbn [fold_left]. rewrite IH by (assumption || lia).
  pose proof (be_val_range l Hl) as Hr.
  assert (256 ^ len l <= 256 ^ 3) by (apply Z.pow_le_mono_r; lia).
  rewrite Z.shiftl_mul_pow2, wrap_small by lia.
  rewrite <- Z.shiftl_mul_pow2 by lia. now apply lor_shl8.
Qed.

Lemma cbs_get_u_some n cbs v rest : bytes_ok cbs -> 0 <= n <= 4 ->
  cbs_get_u n cbs = (Some v, rest) <->
  cbs = be_enc (Z.to_nat n) v ++ rest /\ 0 <= v < 256 ^ n.
Proof.
  intros Hok Hn. unfold cbs_get_u, bind. split.
  - destruct (cbs_get n cbs) as [[data |] r] eqn:E; [| discriminate].
    apply cbs_get_some in E as [-> Hd]; [| lia]. intros [= <- <-].
    apply bytes_ok_app in Hok as [Hok _].
    rewrite cbs_u_loop_val by (assumption || lia).
    replace (Z.to_nat n) with (length data) by (unfold len in Hd; lia).
    rewrite be_enc_val by assumption. split; [reflexivity |].
    rewrite <- Hd. now apply be_val_range.
  - intros [-> Hv].
    assert (E : cbs_get n (be_enc (Z.to_nat n) v ++ rest) = (Some (be_enc (Z.to_nat n) v), rest)).
    { apply cbs_get_some; [lia |]. rewrite be_enc_len. split; [reflexivity | lia]. }
    rewrite E. unfold ret. rewrite cbs_u_loop_val, be_val_enc; auto with bytes;
      rewrite ?be_enc_len, ?Z2Nat.id; lia.
Qed.

(** The length-prefixed readers accept exactly the encodings of the vectors
    they return: for 1, 2 and 3 length bytes, [cbs] is read as [body] with
    [rest] left over if and only if it is the big-endian length of [body]
    followed by [body] and [rest]. *)
Lemma cbs_length_prefixed_iff n cbs body rest :
  bytes_ok cbs -> 1 <= n <= 3 ->
  cbs_get_length_prefixed n cbs = (Some body, rest) <->
  cbs = be_enc (Z.to_nat n) (len body) ++ body ++ rest /\ len body < 256 ^ n.
Proof.
  intros Hok Hn. unfold cbs_get_length_prefixed, bind, CBS_get_bytes. split.
  - destruct (cbs_get_u n cbs) as [[v |] r] eqn:E; [| discriminate].
    apply cbs_get_u_some in E as [-> Hv]; [| assumption | lia].
    intros E. apply cbs_get_some in E as [-> <-]; [| lia]. split; [reflexivity | lia].
  - intros [-> Hb]. pose proof (len_nonneg body).
    rewrite (proj2 (cbs_get_u_some n _ (len body) (body ++ rest) Hok ltac:(lia))) by (split; [reflexivity | lia]).
    now apply cbs_get_some.
Qed.

(** ** DER elements: the abstract encoding *)

(** Number of octets of a long-form length. *)
Definition len_octets (n : Z) : nat :=
  if n <? 256 then 1%nat else if n <? 65536 then 2%nat
  else if n <? 16777216 then 3%nat else 4%nat.

(** DER length octets (X.690 10.1): short form below 128, else the minimal
    long form. *)
Definition der_length (n : Z) : list Z :=
  if n <? 128 then [n] else (128 + Z.of_nat (len_octets n)) :: be_enc (len_octets n) n.

Definition der_element (tag : Z) (body : list Z) : list Z :=
  tag :: der_length (len body) ++ body.

Definition low_tag (tag : Z) : Prop := byte_ok tag /\ Z.land tag 31 <> 31.

Lemma len_octets_spec k n : 128 <= n -> (1 <= k <= 4)%nat -> n < 256 ^ Z.of_nat k ->
  256 ^ (Z.of_nat k - 1) <= n \/ k = 1%nat -> len_octets n = k.
Proof.
  intros Hn Hk Hub Hlb. unfold len_octets.
  assert (k = 1 \/ k = 2 \/ k = 3 \/ k = 4)%nat as [-> | [-> | [-> | ->]]] by lia; cbn in Hub, Hlb;
    repeat match goal with |- context [?a <? ?b] => destruct (Z.ltb_spec a b) end; lia.
Qed.

Lemma len_octets_bounds n : 128 <= n < 4294967296 ->
  let k := Z.of_nat (len_octets n) in
  1 <= k <= 4 /\ n < 256 ^ k /\ 256 ^ (k - 1) <= n.
Proof.
  intros Hn. unfold len_octets.
  repeat match goal with |- context [?a <? ?b] => destruct (Z.ltb_spec a b) end; cbn; lia.
Qed.

Lemma bind_ret_some {A B} (m : reader A) (f : A -> B) cbs y rest :
  bind m (fun x => ret (f x)) cbs = (Some y, rest) <->
  exists x, m cbs = (Some x, rest) /\ y = f x.
Proof.
  unfold bind, ret. destruct (m cbs) as [[x |] r]; split.
  - intros [= <- <-]. eauto.
  - now intros (x' & [= -> ->] & ->).
  - discriminate.
  - now intros (x' & [=] & _).
Qed.

Lemma byte_high_bit b : byte_ok b -> Z.land b 128 = (if b <? 128 then 0 else 128).
Proof.
  intros Hb. assert (H := forall_byte (fun b => Z.land b 128 =? if b <? 128 then 0 else 128)
    ltac:(vm_compute; reflexivity) b Hb). cbv beta in H. lia.
Qed.

Lemma byte_low7 b : byte_ok b -> Z.land b 127 = b mod 128.
Proof. intros _. change 127 with (Z.ones 7). now rewrite Z.land_ones by lia. Qed.

Lemma CBS_get_u8_cons b l : CBS_get_u8 (b :: l) = (Some b, l).
Proof.
  unfold CBS_get_u8, bind, cbs_get. rewrite len_cons. pose proof (len_nonneg l).
  destruct (Z.ltb_spec (1 + len l) 1); [lia | reflexivity].
Qed.

Lemma get_u8_pair_cons a b l :
  (tag <- CBS_get_u8 ;; length_byte <- CBS_get_u8 ;; ret (tag, length_byte)) (a :: b :: l) =
  (Some (a, b), l).
Proof. unfold bind. now rewrite !CBS_get_u8_cons. Qed.

Lemma get_u8_pair_some cbs x l :
  (tag <- CBS_get_u8 ;; length_byte <- CBS_get_u8 ;; ret (tag, length_byte)) cbs = (Some x, l) ->
  cbs = fst x :: snd x :: l.
Proof.
  destruct cbs as [| a [| b r]]; [discriminate | discriminate |].
  rewrite get_u8_pair_cons. now intros [= <- <-].
Qed.

Lemma get_bytes_fin n cbs (tag hdr : Z) el t h rest : 0 <= n ->
  (out <- CBS_get_bytes n ;; ret (out, tag, hdr)) cbs = (Some (el, t, h), rest) <->
  cbs = el ++ rest /\ len el = n /\ t = tag /\ h = hdr.
Proof.
  intros Hn. rewrite (bind_ret_some _ (fun out => (out, tag, hdr))). split.
  - intros (x & E & [= -> -> ->]). apply cbs_get_some in E as [-> <-]; auto.
  - intros (-> & <- & -> & ->). exists el. split; [now apply cbs_get_some | reflexivity].
Qed.

Lemma land_31_127 tag : byte_ok tag -> Z.land tag 31 <> 31 <-> low_tag tag.
Proof. unfold low_tag. tauto. Qed.

(** The long-form length checks, as a function of the length octets. *)
Definition long_length (nb : Z) (r : list Z) : option Z :=
  match cbs_get_u nb r with
  | (None, _) => None
  | (Some v, _) =>
      if v <? 128 then None else if Z.shiftr v ((nb - 1) * 8) =? 0 then None else Some v
  end.

Lemma shiftr_octets v k : 0 <= v -> 1 <= k -> Z.shiftr v ((k - 1) * 8) = 0 <-> v < 256 ^ (k - 1).
Proof.
  intros Hv Hk. rewrite Z.shiftr_div_pow2 by lia.
  replace (2 ^ ((k - 1) * 8)) with (256 ^ (k - 1))
    by (change 256 with (2 ^ 8); rewrite <- Z.pow_mul_r by lia; f_equal; lia).
  assert (0 < 256 ^ (k - 1)) by (apply Z.pow_pos_nonneg; lia).
  rewrite Z.div_small_iff by lia. lia.
Qed.

Lemma long_length_some nb r v : bytes_ok r -> 1 <= nb <= 4 ->
  long_length nb r = Some v <->
  exists r', r = be_enc (Z.to_nat nb) v ++ r' /\ 128 <= v < 256 ^ nb /\ 256 ^ (nb - 1) <= v.
Proof.
  intros Hr Hnb. unfold long_length. split.
  - destruct (cbs_get_u nb r) as [[v' |] r'] eqn:E; [| discriminate].
    apply cbs_get_u_some in E as [-> Hv]; [| assumption | lia].
    destruct (Z.ltb_spec v' 128); [discriminate |].
    destruct (Z.eqb_spec (Z.shiftr v' ((nb - 1) * 8)) 0) as [E | E]; [discriminate |].
    rewrite shiftr_octets in E by lia. intros [= ->]. exists r'. repeat split; lia.
  - intros (r' & -> & Hv & Hlo).
    rewrite (proj2 (cbs_get_u_some nb _ v r' Hr ltac:(lia))) by (split; [reflexivity | lia]).
    destruct (Z.ltb_spec v 128); [lia |].
    destruct (Z.eqb_spec (Z.shiftr v ((nb - 1) * 8)) 0) as [E | E]; [| reflexivity].
    apply shiftr_octets in E; lia.
Qed.

(** [CBS_get_any_asn1_element] on a CBS with at least a two-byte header. *)
Lemma any_asn1_element_cons t lb r : bytes_ok (t :: lb :: r) ->
  CBS_get_any_asn1_element (t :: lb :: r) =
  let cbs := t :: lb :: r in
  let fin hdr n := (out <- CBS_get_bytes n ;; ret (out, t, hdr)) cbs in
  if Z.land t 31 =? 31 then (None, cbs) else
  if lb <? 128 then fin 2 (lb + 2) else
  if (lb =? 128) || (132 <? lb) then (None, cbs) else
  match long_length (lb - 128) r with
  | None => (None, cbs)
  | Some v => fin (2 + (lb - 128)) (v + 2 + (lb - 128))
  end.
Proof.
  intros Hok. unfold CBS_get_any_asn1_element, cbs_get_any_asn1_element.
  rewrite get_u8_pair_cons. cbv beta iota zeta.
  inversion_clear Hok as [| ? ? Ht Hok']. inversion_clear Hok' as [| ? ? Hlb Hr].
  rewrite byte_high_bit, byte_low7 by assumption. unfold byte_ok in Hlb.
  destruct (Z.land t 31 =? 31); [reflexivity |]. cbn [andb].
  destruct (Z.ltb_spec lb 128); [reflexivity |]. cbn [Z.eqb].
  replace (lb mod 128) with (lb - 128) by word_lia.
  replace (lb - 128 =? 0) with (lb =? 128) by lia.
  replace (4 <? lb - 128) with (132 <? lb) by lia.
  destruct (Z.eqb_spec lb 128); [reflexivity |]. destruct (Z.ltb_spec 132 lb); [reflexivity |]. cbn [orb].
  unfold long_length. destruct (cbs_get_u (lb - 128) r) as [[v |] r'] eqn:E; [| reflexivity].
  apply cbs_get_u_some in E as [_ Hv]; [| assumption | lia].
  assert (256 ^ (lb - 128) <= 256 ^ 4) by (apply Z.pow_le_mono_r; lia).
  destruct (v <? 128); [reflexivity |]. destruct (Z.shiftr _ _ =? 0); [reflexivity |].
  rewrite wrap_small by lia. destruct (Z.ltb_spec (v + 2 + (lb - 128)) v); [lia | reflexivity].
Qed.

(** What [CBS_get_any_asn1_element] accepts, as conditions on the header. *)
Lemma any_asn1_element_cases t lb r el tag hdr rest : bytes_ok (t :: lb :: r) ->
  CBS_get_any_asn1_element (t :: lb :: r) = (Some (el, tag, hdr), rest) <->
  tag = t /\ Z.land t 31 <> 31 /\ t :: lb :: r = el ++ rest /\
  ((lb < 128 /\ hdr = 2 /\ len el = lb + 2) \/
   (exists k v r', 1 <= k <= 4 /\ lb = 128 + k /\ r = be_enc (Z.to_nat k) v ++ r' /\
      128 <= v < 256 ^ k /\ 256 ^ (k - 1) <= v /\ hdr = 2 + k /\ len el = v + 2 + k)).
Proof.
  intros Hok. rewrite any_asn1_element_cons by assumption. cbv zeta.
  inversion_clear Hok as [| ? ? Ht Hok']. inversion_clear Hok' as [| ? ? Hlb Hr]. unfold byte_ok in Hlb.
  destruct (Z.eqb_spec (Z.land t 31) 31); [split; [discriminate | now intros (_ & ? & _)] |].
  destruct (Z.ltb_spec lb 128) as [Hs | Hs].
  { rewrite get_bytes_fin by lia. split.
    - intros (E & Hl & -> & ->). now repeat split; auto.
    - intros (-> & _ & E & [(_ & -> & Hl) | (k & v & r' & Hk & -> & _)]); [auto | lia]. }
  destruct (Z.eqb_spec lb 128); cbn [orb].
  { split; [discriminate |]. intros (_ & _ & _ & [(? & _) | (k & v & r' & ? & ? & _)]); lia. }
  destruct (Z.ltb_spec 132 lb).
  { split; [discriminate |]. intros (_ & _ & _ & [(? & _) | (k & v & r' & ? & ? & _)]); lia. }
  pose proof (fun v => long_length_some (lb - 128) r v Hr ltac:(lia)) as HL.
  destruct (long_length (lb - 128) r) as [v |].
  - destruct (proj1 (HL v) eq_refl) as (r' & Er & Hv & Hlo). rewrite get_bytes_fin by lia. split.
    + intros (E & Hl & -> & ->). repeat (split; [now auto |]). right. exists (lb - 128), v, r'.
      repeat split; auto; lia.
    + intros (-> & _ & E & [(? & _) | (k & v' & r2 & Hk & Ek & Er' & Hv' & Hlo' & -> & Hl)]); [lia |].
      replace k with (lb - 128) in * by lia.
      assert (Some v = Some v') as [= <-] by (apply HL; eauto). auto.
  - split; [discriminate |]. intros (_ & _ & _ & [(? & _) | (k & v & r' & ? & ? & Er & Hv & Hlo & _)]); [lia |].
    replace k with (lb - 128) in * by lia.
    assert (@None Z = Some v) by (apply HL; eauto). discriminate.
Qed.

Lemma der_length_cases n : 0 <= n < 4294967296 ->
  (n < 128 /\ der_length n = [n]) \/
  (exists k, 1 <= k <= 4 /\ der_length n = (128 + k) :: be_enc (Z.to_nat k) n /\
     128 <= n < 256 ^ k /\ 256 ^ (k - 1) <= n).
Proof.
  intros Hn. unfold der_length. destruct (Z.ltb_spec n 128); [left; auto |]. right.
  pose proof (len_octets_bounds n ltac:(lia)) as (Hk & Hu & Hl).
  exists (Z.of_nat (len_octets n)). rewrite Nat2Z.id. repeat split; try assumption; lia.
Qed.

Lemma der_length_long k v : 1 <= k <= 4 -> 128 <= v < 256 ^ k -> 256 ^ (k - 1) <= v ->
  der_length v = (128 + k) :: be_enc (Z.to_nat k) v.
Proof.
  intros Hk Hv Hlo. unfold der_length. destruct (Z.ltb_spec v 128); [lia |].
  rewrite (len_octets_spec (Z.to_nat k)); rewrite ?Z2Nat.id by lia; try reflexivity; lia.
Qed.

Lemma any_asn1_element_iff cbs el tag hdr rest :
  bytes_ok cbs ->
  CBS_get_any_asn1_element cbs = (Some (el, tag, hdr), rest) <->
  exists body, cbs = der_element tag body ++ rest /\ el = der_element tag body /\
    hdr = 1 + len (der_length (len body)) /\ len body < 2 ^ 32 /\ low_tag tag.
Proof.
  intros Hok. destruct cbs as [| t [| lb r]].
  { split; [discriminate | now intros (body & ? & _)]. }
  { split; [discriminate |]. intros (body & E & _ & _ & Hb & _). exfalso.
    pose proof (len_nonneg body).
    destruct (der_length_cases (len body) ltac:(lia)) as [[_ El] | (k & _ & El & _)];
      unfold der_element in E; rewrite El in E; discriminate. }
  rewrite any_asn1_element_cases by assumption. split.
  - intros (-> & Ht & E & Hcase). inversion Hok as [| ? ? Htok _]; subst.
    destruct Hcase as [(Hs & -> & Hl) | (k & v & r' & Hk & -> & -> & Hv & Hlo & -> & Hl)].
    + destruct el as [| e0 [| e1 body]]; [cbn in Hl; inversion Hok as [| ? ? _ Hok']; inversion Hok' as [| ? ? Hb _]; unfold byte_ok in Hb; lia | cbn in Hl; inversion Hok as [| ? ? _ Hok']; inversion Hok' as [| ? ? Hb _]; unfold byte_ok in Hb; lia |].
      injection E as <- <- ->. rewrite !len_cons in Hl. assert (len body = lb) by lia. subst lb.
      exists body. unfold der_element, der_length. destruct (Z.ltb_spec (len body) 128); [| lia].
      repeat split; try assumption; apply Htok || lia.
    + destruct el as [| e0 [| e1 el']]; [rewrite len_nil in Hl; lia | rewrite len_cons, len_nil in Hl; lia |].
      injection E as <- <- E. rewrite !len_cons in Hl.
      assert (el' = be_enc (Z.to_nat k) v ++ drop k el') as Eel.
      { rewrite <- (take_drop k el') at 1. f_equal. apply (f_equal (take k)) in E.
        rewrite take_app_exact in E by (rewrite be_enc_len; lia).
        rewrite take_app_l in E by lia. auto. }
      set (body := drop k el') in *. assert (Hlen : len body = v) by (subst body; rewrite len_drop; lia).
      exists body. unfold der_element. rewrite Hlen, (der_length_long k v) by assumption.
      cbn [app]. rewrite <- Eel, len_cons, be_enc_len.
      assert (256 ^ k <= 256 ^ 4) by (apply Z.pow_le_mono_r; lia).
      rewrite <- E. repeat split; try assumption; apply Htok || lia.
  - intros (body & E & -> & -> & Hb & [Htok Ht31]). pose proof (len_nonneg body). rewrite E.
    unfold der_element in *. cbn [app] in E. injection E as -> E2. repeat (split; [now auto |]).
    destruct (der_length_cases (len body) ltac:(lia)) as [[Hs El] | (k & Hk & El & Hv & Hlo)];
      rewrite El in *; cbn [app] in E2; injection E2 as -> E2; [left | right].
    + rewrite !len_cons, len_app, len_cons, len_nil. repeat split; lia.
    + exists k, (len body), (body ++ rest). rewrite <- app_assoc in E2.
      rewrite !len_cons, len_app, len_cons, be_enc_len. repeat split; try assumption; lia.
Qed.

(** The DER element reader is exact and canonical: it returns the element
    [el] with tag [tag] and header length [hdr] and leaves [rest] if and only if
    the input is the unique DER encoding (single-byte tag, minimal length
    octets) of some body shorter than 2^32, followed by [rest]. *)
Lemma cbs_any_asn1_element_iff cbs el tag hdr rest :
  bytes_ok cbs ->
  CBS_get_any_asn1_element cbs = (Some (el, tag, hdr), rest) <->
  exists body, cbs = der_element tag body ++ rest /\ el = der_element tag body /\
    hdr = 1 + len (der_length (len body)) /\ len body < 2 ^ 32 /\ low_tag tag.
Proof. apply any_asn1_element_iff. Qed.


Lemma der_length_bytes n : 0 <= n < 4294967296 -> bytes_ok (der_length n).
Proof.
  intros Hn. destruct (der_length_cases n Hn) as [[Hs ->] | (k & Hk & -> & _)].
  - repeat constructor; unfold byte_ok; lia.
  - constructor; [unfold byte_ok; lia | apply be_enc_bytes].
Qed.

Lemma der_element_bytes tag body : byte_ok tag -> bytes_ok body -> len body < 4294967296 ->
  bytes_ok (der_element tag body).
Proof.
  intros. pose proof (len_nonneg body). constructor; [assumption |]. apply bytes_ok_app.
  split; [apply der_length_bytes; lia | assumption].
Qed.

Lemma skip_header_der tag body cbs :
  skip_of (der_element tag body) (1 + len (der_length (len body))) cbs = (Some body, cbs).
Proof.
  unfold skip_of, CBS_skip, bind, cbs_get, der_element.
  pose proof (len_nonneg (der_length (len body))) as Hl. pose proof (len_nonneg body) as Hb.
  rewrite len_cons, len_app. destruct (Z.ltb_spec (1 + (len (der_length (len body)) + len body)) (1 + len (der_length (len body)))); [lia |].
  unfold ret. rewrite app_comm_cons, drop_app_exact by (rewrite len_cons; lia). reflexivity.
Qed.

(** [CBS_get_asn1] returns the body of exactly the elements with its tag. *)
Lemma cbs_get_asn1_some cbs tag body rest : bytes_ok cbs ->
  CBS_get_asn1 tag cbs = (Some body, rest) <->
  cbs = der_element tag body ++ rest /\ len body < 2 ^ 32 /\ low_tag tag.
Proof.
  intros Hok. unfold CBS_get_asn1, cbs_get_asn1, bind. split.
  - destruct (CBS_get_any_asn1_element cbs) as [[[[el t] h] |] r] eqn:E; [| discriminate].
    apply any_asn1_element_iff in E as (b & -> & -> & -> & Hl & Ht); [| assumption].
    destruct (Z.eqb_spec t tag) as [-> |]; cbn [negb]; [| discriminate].
    rewrite skip_header_der. now intros [= <- <-].
  - intros (-> & Hl & Ht).
    assert (E : CBS_get_any_asn1_element (der_element tag body ++ rest) =
      (Some (der_element tag body, tag, 1 + len (der_length (len body))), rest))
      by (apply any_asn1_element_iff; eauto 6).
    rewrite E. rewrite Z.eqb_refl. cbn [negb]. apply skip_header_der.
Qed.

(** ** DER integers *)

(** Octets of the minimal two's complement encoding of a non-negative [v]. *)
Definition uint_octets (v : Z) : nat := Z.to_nat ((Z.log2 v + 1) / 8 + 1).
Definition uint_body (v : Z) : list Z := be_enc (uint_octets v) v.

Lemma pow_sign_octets m : 0 <= m -> 128 * 256 ^ m = 2 ^ (8 * m + 7).
Proof.
  intros Hm. rewrite Z.pow_add_r, Z.pow_mul_r by lia. change (2 ^ 8) with 256.
  change (2 ^ 7) with 128. lia.
Qed.

Lemma uint_octets_spec k v : (1 <= k)%nat -> 0 <= v -> v < 128 * 256 ^ (Z.of_nat k - 1) ->
  (k = 1%nat \/ 128 * 256 ^ (Z.of_nat k - 2) <= v) -> uint_octets v = k.
Proof.
  intros Hk Hv Hu Hl. unfold uint_octets.
  rewrite pow_sign_octets in Hu by lia.
  assert (Z.log2 v < 8 * (Z.of_nat k - 1) + 7) as Hu'.
  { destruct (Z.eq_dec v 0) as [-> |]; [change (Z.log2 0) with 0; lia |]. apply Z.log2_lt_pow2; lia. }
  assert (8 * (Z.of_nat k - 1) <= Z.log2 v + 1) as Hl'.
  { destruct Hl as [-> | Hl]; [pose proof (Z.log2_nonneg v); lia |].
    destruct (Nat.eq_dec k 1) as [-> |]; [pose proof (Z.log2_nonneg v); lia |].
    rewrite pow_sign_octets in Hl by lia. apply Z.log2_le_mono in Hl. rewrite Z.log2_pow2 in Hl by lia. lia. }
  replace ((Z.log2 v + 1) / 8) with (Z.of_nat k - 1) by word_lia. lia.
Qed.

Lemma uint_octets_bounds v : 0 <= v ->
  let k := Z.of_nat (uint_octets v) in
  1 <= k /\ v < 128 * 256 ^ (k - 1) /\ (k = 1 \/ 128 * 256 ^ (k - 2) <= v).
Proof.
  intros Hv. unfold uint_octets. pose proof (Z.log2_nonneg v) as Hn.
  set (q := (Z.log2 v + 1) / 8). assert (8 * q <= Z.log2 v + 1 < 8 * q + 8) as Hq by (subst q; word_lia).
  clearbody q. rewrite Z2Nat.id by lia. replace (q + 1 - 1) with q by lia.
  replace (q + 1 - 2) with (q - 1) by lia.
  split; [lia |]. destruct (Z.eq_dec v 0) as [-> | Hv0].
  - change (Z.log2 0) with 0 in Hq. replace q with 0 by lia. cbn. lia.
  - pose proof (Z.log2_spec v ltac:(lia)) as [Hlo Hhi]. split.
    + rewrite pow_sign_octets by lia. eapply Z.lt_le_trans; [exact Hhi |]. apply Z.pow_le_mono_r; lia.
    + destruct (Z.eq_dec q 0) as [-> | Hq0]; [now left | right].
      rewrite pow_sign_octets by lia. eapply Z.le_trans; [| exact Hlo]. apply Z.pow_le_mono_r; lia.
Qed.

(** The accumulation loop, with its overflow check. *)
Lemma asn1_uint64_loop_val data : bytes_ok data -> forall acc, 0 <= acc < 2 ^ 64 ->
  asn1_uint64_loop data acc =
  let v := acc * 256 ^ len data + be_val data in if v <? 2 ^ 64 then Some v else None.
Proof.
  induction data as [| b l IH]; intros Hok acc Hacc; cbn [asn1_uint64_loop].
  - change (be_val []) with 0. rewrite len_nil, Z.mul_1_r, Z.add_0_r. cbv zeta.
    destruct (Z.ltb_spec acc (2 ^ 64)); [reflexivity | lia].
  - inversion_clear Hok as [| ? ? Hb Hl]. pose proof (be_val_range l Hl) as Hr.
    pose proof (len_nonneg l). rewrite be_val_cons, len_cons. cbv zeta.
    rewrite Z.pow_add_r by lia. change (256 ^ 1) with 256.
    assert (0 < 256 ^ len l) by (apply Z.pow_pos_nonneg; lia). unfold byte_ok in Hb.
    rewrite Z.shiftr_div_pow2 by lia. destruct (Z.eqb_spec (acc / 2 ^ 56) 0) as [E | E]; cbn [negb].
    + assert (acc < 2 ^ 56) by word_lia.
      rewrite wrap_small, lor_shl8 by (rewrite ?Z.shiftl_mul_pow2 by lia; unfold byte_ok; lia).
      rewrite IH by (try assumption; lia). cbv zeta.
      replace (acc * (256 * 256 ^ len l) + (b * 256 ^ len l + be_val l)) with
        ((acc * 256 + b) * 256 ^ len l + be_val l) by lia. reflexivity.
    + assert (2 ^ 56 <= acc) by word_lia.
      destruct (Z.ltb_spec (acc * (256 * 256 ^ len l) + (b * 256 ^ len l + be_val l)) (2 ^ 64)); [| reflexivity].
      exfalso. nia.
Qed.

(** The well-formedness checks of [CBS_get_asn1_uint64] on the content octets. *)
Definition uint_checks (data : list Z) : bool :=
  negb (len data =? 0) && (Z.land (get data 0) 128 =? 0) &&
  negb ((get data 0 =? 0) && (1 <? len data) && (Z.land (get data 1) 128 =? 0)).

Lemma high_bit_clear b : byte_ok b -> (Z.land b 128 =? 0) = (b <? 128).
Proof. intros. rewrite byte_high_bit by assumption. now destruct (b <? 128). Qed.

(** The checks hold exactly of the minimal encodings. *)
Lemma uint_checks_iff data : bytes_ok data ->
  uint_checks data = true <-> data = uint_body (be_val data).
Proof.
  intros Hok. unfold uint_checks, uint_body.
  destruct data as [| d0 tl].
  { split; [discriminate |]. change (be_val []) with 0. intros E. discriminate E. }
  inversion_clear Hok as [| ? ? H0 Htl]. pose proof (be_val_range tl Htl) as Hr.
  pose proof (be_val_range (d0 :: tl) ltac:(now constructor)) as Hrange.
  rewrite be_val_cons, len_cons in *. pose proof (len_nonneg tl) as Hn. unfold byte_ok in H0.
  change (get (d0 :: tl) 0) with d0. rewrite high_bit_clear by assumption.
  replace (1 + len tl =? 0) with false by lia. cbn [negb andb].
  set (v := d0 * 256 ^ len tl + be_val tl) in *.
  assert (Hp : 0 < 256 ^ len tl) by (apply Z.pow_pos_nonneg; lia).
  assert (Hoct : Z.of_nat (length (d0 :: tl)) = 1 + len tl) by (unfold len; cbn [length]; lia).
  assert (Henc : be_enc (length (d0 :: tl)) v = d0 :: tl).
  { replace v with (be_val (d0 :: tl)) by apply be_val_cons. apply be_enc_val. now constructor. }
  assert (Hiff : d0 :: tl = be_enc (uint_octets v) v <-> uint_octets v = length (d0 :: tl)).
  { split; [intros E; apply (f_equal (@len Z)) in E; rewrite be_enc_len, len_cons in E; lia |].
    intros ->. now rewrite Henc. }
  rewrite Hiff. rewrite andb_true_iff, negb_true_iff, Z.ltb_lt. split.
  - intros [Hd Hmin]. apply uint_octets_spec; [cbn; lia | lia | |].
    + rewrite Hoct. replace (1 + len tl - 1) with (len tl) by lia. nia.
    + destruct tl as [| d1 tl]; [now left | right]. rewrite Hoct, len_cons.
      change (get (d0 :: d1 :: tl) 1) with d1 in Hmin. inversion_clear Htl as [| ? ? H1 Htl'].
      rewrite high_bit_clear, len_cons in Hmin by assumption.
      subst v. rewrite len_cons, be_val_cons in *. pose proof (be_val_range tl Htl').
      pose proof (len_nonneg tl).
      replace (1 + (1 + len tl) - 2) with (len tl) by lia. rewrite (Z.pow_add_r 256 1) by lia.
      change (256 ^ 1) with 256. assert (0 < 256 ^ len tl) by (apply Z.pow_pos_nonneg; lia).
      unfold byte_ok in H1. destruct (Z.eqb_spec d0 0) as [-> |]; [| nia].
      cbn [andb] in Hmin. destruct (Z.ltb_spec 1 (1 + (1 + len tl))); [| lia]. cbn [andb] in Hmin. nia.
  - intros Hlen. pose proof (uint_octets_bounds v ltac:(lia)) as (_ & Hu & Hl).
    rewrite Hlen, Hoct in Hu, Hl. replace (1 + len tl - 1) with (len tl) in Hu by lia.
    split; [nia |]. destruct tl as [| d1 tl]; [now rewrite andb_false_r |].
    change (get (d0 :: d1 :: tl) 1) with d1. inversion_clear Htl as [| ? ? H1 Htl'].
    rewrite high_bit_clear by assumption.
    subst v. rewrite len_cons, be_val_cons in *. pose proof (be_val_range tl Htl').
    pose proof (len_nonneg tl). destruct Hl as [Hl | Hl]; [lia |].
    replace (1 + (1 + len tl) - 2) with (len tl) in Hl by lia.
    destruct (Z.eqb_spec d0 0) as [-> |]; [| reflexivity]. destruct (Z.ltb_spec d1 128); [nia |].
    apply andb_false_r.
Qed.

Lemma get_asn1_uint64_unfold cbs : CBS_get_asn1_uint64 cbs =
  match CBS_get_asn1 CBS_ASN1_INTEGER cbs with
  | (Some data, rest) =>
      if uint_checks data then
        match asn1_uint64_loop data 0 with Some v => (Some v, rest) | None => (None, rest) end
      else (None, rest)
  | (None, rest) => (None, rest)
  end.
Proof.
  unfold CBS_get_asn1_uint64, bind, uint_checks.
  destruct (CBS_get_asn1 CBS_ASN1_INTEGER cbs) as [[data |] rest]; [| reflexivity].
  destruct (len data =? 0); [reflexivity |].
  destruct (Z.land (get data 0) 128 =? 0); [| reflexivity]. cbn [negb andb].
  destruct (_ && _ && _); [reflexivity |]. cbn [negb].
  now destruct (asn1_uint64_loop data 0).
Qed.

Lemma get_asn1_uint64_iff cbs v rest :
  bytes_ok cbs ->
  CBS_get_asn1_uint64 cbs = (Some v, rest) <->
  cbs = der_element CBS_ASN1_INTEGER (uint_body v) ++ rest /\ 0 <= v < 2 ^ 64.
Proof.
  intros Hok. rewrite get_asn1_uint64_unfold. split.
  - destruct (CBS_get_asn1 CBS_ASN1_INTEGER cbs) as [[data |] r] eqn:E; [| discriminate].
    apply cbs_get_asn1_some in E as (-> & Hl & Ht); [| assumption].
    assert (Hd : bytes_ok data).
    { apply bytes_ok_app in Hok as [Hok _]. inversion_clear Hok as [| ? ? ? Hok'].
      now apply bytes_ok_app in Hok'. }
    destruct (uint_checks data) eqn:Hc; [| discriminate].
    apply uint_checks_iff in Hc; [| assumption]. pose proof (be_val_range data Hd).
    rewrite asn1_uint64_loop_val by (assumption || lia). cbv zeta. rewrite Z.mul_0_l, Z.add_0_l.
    destruct (Z.ltb_spec (be_val data) (2 ^ 64)); [| discriminate].
    intros [= <- <-]. rewrite <- Hc. split; [reflexivity | lia].
  - intros [-> Hv]. pose proof (uint_octets_bounds v ltac:(lia)) as (Hk & Hu & Hlo).
    assert (Hlen : len (uint_body v) = Z.of_nat (uint_octets v)) by apply be_enc_len.
    assert (Hk9 : Z.of_nat (uint_octets v) <= 9).
    { destruct Hlo as [|Hlo]; [lia |]. destruct (Z.le_gt_cases (Z.of_nat (uint_octets v)) 9); [assumption |].
      assert (256 ^ 8 <= 256 ^ (Z.of_nat (uint_octets v) - 2)) by (apply Z.pow_le_mono_r; lia). lia. }
    rewrite (proj2 (cbs_get_asn1_some _ CBS_ASN1_INTEGER (uint_body v) rest Hok)).
    2:{ split; [reflexivity |]. split; [lia |]. split; [unfold byte_ok, CBS_ASN1_INTEGER; lia | discriminate]. }
    assert (Hval : be_val (uint_body v) = v).
    { apply be_val_enc. split; [lia |].
      replace (Z.of_nat (uint_octets v)) with (1 + (Z.of_nat (uint_octets v) - 1)) by lia.
      rewrite Z.pow_add_r by lia. lia. }
    assert (Hb : bytes_ok (uint_body v)) by apply be_enc_bytes.
    rewrite (proj2 (uint_checks_iff _ Hb)) by now rewrite Hval.
    rewrite asn1_uint64_loop_val by (assumption || lia). cbv zeta. rewrite Z.mul_0_l, Z.add_0_l, Hval.
    destruct (Z.ltb_spec v (2 ^ 64)); [reflexivity | lia].
Qed.

(** C29: [CBS_get_asn1_uint64] accepts exactly the canonical DER INTEGERs of the
    64-bit naturals: it returns [v] and leaves [rest] if and only if the input
    is the minimal encoding of [v] (no redundant leading zero, sign bit clear)
    followed by [rest]; negative, padded and larger numbers are refused. *)
Lemma cbs_get_asn1_uint64_iff cbs v rest :
  bytes_ok cbs ->
  CBS_get_asn1_uint64 cbs = (Some v, rest) <->
  cbs = der_element CBS_ASN1_INTEGER (uint_body v) ++ rest /\ 0 <= v < 2 ^ 64.
Proof. apply get_asn1_uint64_iff. Qed.

(** C18: the DER readers are exact and canonical. The element reader returns the
    element [el] with tag [tag] and header length [hdr] and leaves [rest] if and
    only if the input is the unique DER encoding (single-byte tag, minimal length
    octets) of some body shorter than 2^32, followed by [rest].
    [CBS_get_asn1_uint64] returns [v] if and only if the input starts with the
    minimal INTEGER of a 64-bit natural; negative, padded and larger numbers are
    refused. *)
Theorem cbs_der_exact :
  (forall cbs el tag hdr rest,
    bytes_ok cbs ->
      CBS_get_any_asn1_element cbs = (Some (el, tag, hdr), rest) <->
      exists body, cbs = der_element tag body ++ rest /\ el = der_element tag body /\
        hdr = 1 + len (der_length (len body)) /\ len body < 2 ^ 32 /\ low_tag tag) /\
  (forall cbs v rest,
    bytes_ok cbs ->
      CBS_get_asn1_uint64 cbs = (Some v, rest) <->
      cbs = der_element CBS_ASN1_INTEGER (uint_body v) ++ rest /\ 0 <= v < 2 ^ 64).
Proof. split; [exact (@cbs_any_asn1_element_iff) | exact (@cbs_get_asn1_uint64_iff)]. Qed.

Lemma cbs_der_exact_witness :
  (CBS_get_any_asn1_element [48; 3; 2; 1; 5; 77] = (Some ([48; 3; 2; 1; 5], 48, 2), [77])) /\
  (CBS_get_asn1_uint64 [2; 2; 0; 200; 9] = (Some 200, [9])).
Proof.
  split.
  { apply (proj1 cbs_der_exact [48; 3; 2; 1; 5; 77] [48; 3; 2; 1; 5] 48 2 [77]).
    - repeat constructor; unfold byte_ok; lia.
    - exists [2; 1; 5]. repeat split; try (unfold len; cbn; lia). }
  { apply (proj2 cbs_der_exact [2; 2; 0; 200; 9] 200 [9]).
    - repeat constructor; unfold byte_ok; lia.
    - split; [reflexivity | lia]. }
Defined.

(** ** Comparison and flags *)

Lemma memcmp_loop_zero a : forall b x, length a = length b ->
  CRYPTO_memcmp_loop a b x = 0 <-> x = 0 /\ a = b.
Proof.
  induction a as [| p a IH]; intros [| q b] x Hl; try discriminate Hl; cbn [CRYPTO_memcmp_loop].
  - tauto.
  - injection Hl as Hl. rewrite IH by assumption. rewrite Z.lor_eq_0_iff, Z.lxor_eq_0_iff.
    split; [intros [[-> ->] ->] | intros [-> [= -> ->]]]; auto.
Qed.

(** The branch-free comparison decides equality: [CBS_mem_equal] (through
    the xor-and-or accumulation of [CRYPTO_memcmp]) is true exactly when the two
    byte strings are equal. *)
Lemma cbs_mem_equal_iff cbs data : CBS_mem_equal cbs data = true <-> cbs = data.
Proof.
  unfold CBS_mem_equal. destruct (Z.eqb_spec (len data) (len cbs)) as [E | E]; cbn [negb].
  - rewrite Z.eqb_eq. unfold CRYPTO_memcmp. rewrite memcmp_loop_zero by (unfold len in E; lia). tauto.
  - split; [discriminate | intros ->; contradiction].
Qed.
