(* ===== verification/Cbb.v ===== *)
(** * CBB: the byte-string builder (crypto/bytestring/cbb.c)

    All CBBs of one builder share a [cbb_buffer_st]; a CBB with a pending length
    prefix is the [child] of the CBB it was opened on. The heap holds the shared
    buffer and the CBB structs, addressed by natural numbers. *)

From S2P Require Import Prelude Cbs.

(** ** State (include/openssl/bytestring.h) *)

Record cbb_buffer_st := mk_buffer {
  buf : list Z;          (** the [cap] allocated bytes *)
  blen : Z;              (** [len]: the number of valid bytes *)
  cap : Z;
  can_resize : bool;
  error : bool
}.

Record cbb_st := mk_cbb {
  base : bool;           (** false: the [base] pointer is NULL *)
  child : option nat;
  offset : Z;
  pending_len_len : Z;
  pending_is_asn1 : bool;
  is_top_level : bool
}.

Record heap := mk_heap { buffer : cbb_buffer_st; cbbs : nat -> cbb_st }.

Definition set_cbb (h : heap) (p : nat) (c : cbb_st) : heap :=
  mk_heap (buffer h) (fun q => if Nat.eqb q p then c else cbbs h q).
Definition set_buffer (h : heap) (b : cbb_buffer_st) : heap := mk_heap b (cbbs h).

Definition CBB_zero : cbb_st := mk_cbb false None 0 0 false false.

Definition with_error (b : cbb_buffer_st) : cbb_buffer_st :=
  mk_buffer (buf b) (blen b) (cap b) (can_resize b) true.
Definition with_len (b : cbb_buffer_st) (n : Z) : cbb_buffer_st :=
  mk_buffer (buf b) n (cap b) (can_resize b) (error b).
Definition with_buf (b : cbb_buffer_st) (l : list Z) : cbb_buffer_st :=
  mk_buffer l (blen b) (cap b) (can_resize b) (error b).
Definition with_child (c : cbb_st) (q : option nat) : cbb_st :=
  mk_cbb (base c) q (offset c) (pending_len_len c) (pending_is_asn1 c) (is_top_level c).

(** ** Operations

    An operation maps the heap to its C return value and the heap after it;
    [None] is only produced when a chain of children is longer than the number
    of CBBs there can be. *)

Definition op (A : Type) : Type := heap -> option (A * heap).

Definition done {A} (x : A) : op A := fun h => Some (x, h).
Definition bind {A B} (m : op A) (k : A -> op B) : op B := fun h =>
  match m h with Some (x, h) => k x h | None => None end.
(** [if (!m) return 0; k] *)
Definition and_then (m k : op bool) : op bool := bind m (fun ok => if ok then k else done false).
Definition get_heap : op heap := fun h => Some (h, h).
Definition put_heap (h : heap) : op unit := fun _ => Some (tt, h).

Declare Scope op_scope.
Delimit Scope op_scope with op.
Notation "x <- m ;; k" := (bind m (fun x => k))
  (at level 61, m at next level, right associativity) : op_scope.
Notation "m ;; k" := (bind m (fun _ => k)) (at level 61, right associativity) : op_scope.
Notation "' p <- m ;; k" := (bind m (fun p => k))
  (at level 61, p pattern, m at next level, right associativity) : op_scope.
Notation "m &&> k" := (and_then m k) (at level 61, right associativity) : op_scope.
Local Open Scope op_scope.

Section Cbb.

(** The allocator of the C library: which requests succeed, and what fresh
    memory holds. *)
Variable alloc_ok : Z -> bool.
Variable garbage : nat -> Z.

(** The number of CBBs that can exist at once. *)
Variable max_cbbs : nat.

Definition uninit (n : Z) : list Z := map garbage (seq 0 (Z.to_nat n)).

(** [OPENSSL_realloc] to a larger size: the old bytes, then fresh memory. *)
Definition OPENSSL_realloc (old : list Z) (n : Z) : option (list Z) :=
  if alloc_ok n then Some (old ++ uninit (n - len old)) else None.

(** [cbb_buffer_reserve]: the pointer stored through [out] is [buf + len]. *)
Definition cbb_buffer_reserve (has_base : bool) (n : Z) (b : cbb_buffer_st) : bool * cbb_buffer_st :=
  if negb has_base then (false, b) else
  let newlen := u64 (blen b + n) in
  if newlen <? blen b then (false, with_error b) else
  if cap b <? newlen then
    let newcap := u64 (cap b * 2) in
    if negb (can_resize b) then (false, with_error b) else
    let newcap := if (newcap <? cap b) || (newcap <? newlen) then newlen else newcap in
    match OPENSSL_realloc (buf b) newcap with
    | None => (false, with_error b)
    | Some newbuf => (true, mk_buffer newbuf (blen b) newcap (can_resize b) (error b))
    end
  else (true, b).

Definition cbb_buffer_add (has_base : bool) (n : Z) (b : cbb_buffer_st) : bool * cbb_buffer_st :=
  let (ok, b) := cbb_buffer_reserve has_base n b in
  if negb ok then (false, b) else (true, with_len b (u64 (blen b + n))).

(** [for (i = n - 1; i < n; i--) { buf[i] = v; v >>= 8; }] at [buf + pos]. *)
Fixpoint store_be (n : nat) (l : list Z) (pos v : Z) : list Z * Z :=
  match n with
  | O => (l, v)
  | S i => store_be i (splice l (pos + Z.of_nat i) [u8 v]) pos (Z.shiftr v 8)
  end.

Definition cbb_buffer_add_u (has_base : bool) (v len_len : Z) (b : cbb_buffer_st) : bool * cbb_buffer_st :=
  if len_len =? 0 then (true, b) else
  let pos := blen b in
  let (ok, b) := cbb_buffer_add has_base len_len b in
  if negb ok then (false, b) else
  let (l, v) := store_be (Z.to_nat len_len) (buf b) pos v in
  let b := with_buf b l in
  if negb (v =? 0) then (false, with_error b) else (true, b).

(** Lifting an operation on the shared buffer to the heap. *)
Definition on_buffer (p : nat) (f : bool -> cbb_buffer_st -> bool * cbb_buffer_st) : op bool := fun h =>
  let (ok, b) := f (base (cbbs h p)) (buffer h) in Some (ok, set_buffer h b).

Definition flush_err : op bool := fun h => Some (false, set_buffer h (with_error (buffer h))).

(** The length octets [CBB_flush] chooses for an ASN.1 child of [n] bytes:
    their number, the first one, and what is left to write. *)
Definition asn1_len_choice (n : Z) : option (Z * Z * Z) :=
  if 4294967294 <? n then None
  else if 16777215 <? n then Some (5, 132, n)
  else if 65535 <? n then Some (4, 131, n)
  else if 255 <? n then Some (3, 130, n)
  else if 127 <? n then Some (2, 129, n)
  else Some (1, u8 n, 0).

(** The length octets are written and the child is detached. *)
Definition flush_write (p c : nat) (n : Z) : op bool := fun h =>
  let ch := cbbs h c in
  let (l, rest) := store_be (Z.to_nat (pending_len_len ch)) (buf (buffer h)) (offset ch) n in
  let h := set_buffer h (with_buf (buffer h) l) in
  if negb (rest =? 0) then flush_err h else
  let h := set_cbb h c (mk_cbb false (child ch) (offset ch) (pending_len_len ch)
                          (pending_is_asn1 ch) (is_top_level ch)) in
  let h := set_cbb h p (with_child (cbbs h p) None) in
  Some (true, h).

(** The ASN.1 part of [CBB_flush]: make room for a long-form length, move the
    contents along and write the first octet. *)
Definition flush_asn1 (p c : nat) (child_start n : Z) : op bool := fun h =>
  match asn1_len_choice n with
  | None => flush_err h
  | Some (len_len, initial_length_byte, n') =>
      let extra := len_len - 1 in
      let (ok, b) :=
        if negb (len_len =? 1) then
          let (ok, b) := cbb_buffer_add (base (cbbs h p)) extra (buffer h) in
          if ok then
            (true, with_buf b (splice (buf b) (child_start + extra) (take n' (drop child_start (buf b)))))
          else (false, b)
        else (true, buffer h) in
      let h := set_buffer h b in
      if negb ok then flush_err h else
      let ch := cbbs h c in
      let h := set_buffer h (with_buf b (splice (buf b) (offset ch) [initial_length_byte])) in
      let h := set_cbb h c (mk_cbb (base ch) (child ch) (u64 (offset ch + 1)) (u8 (len_len - 1))
                              (pending_is_asn1 ch) (is_top_level ch)) in
      flush_write p c n' h
  end.

Fixpoint CBB_flush_fuel (fuel : nat) (p : nat) : op bool := fun h =>
  let cbb := cbbs h p in
  if negb (base cbb) || error (buffer h) then Some (false, h) else
  match child cbb with
  | None => Some (true, h)
  | Some c =>
      let ch := cbbs h c in
      if pending_len_len ch =? 0 then Some (true, h) else
      let child_start := u64 (offset ch + pending_len_len ch) in
      match fuel with
      | O => None
      | S fuel =>
          match CBB_flush_fuel fuel c h with
          | None => None
          | Some (ok, h) =>
              let ch := cbbs h c in
              if negb ok || (child_start <? offset ch) || (blen (buffer h) <? child_start)
              then flush_err h else
              let n := blen (buffer h) - child_start in
              if pending_is_asn1 ch then flush_asn1 p c child_start n h
              else flush_write p c n h
          end
      end
  end.

Definition CBB_flush (p : nat) : op bool := CBB_flush_fuel max_cbbs p.

(** ** Construction and completion *)

(** [cbb_init] allocates the [cbb_buffer_st] (32 bytes) for [b]. *)
Definition cbb_init (p : nat) (l : list Z) (n : Z) (h : heap) : bool * heap :=
  if alloc_ok 32 then
    (true, set_cbb (set_buffer h (mk_buffer l 0 n true false)) p
             (mk_cbb true None 0 0 false true))
  else (false, h).

Definition CBB_init (p : nat) (initial_capacity : Z) (h : heap) : bool * heap :=
  let h := set_cbb h p CBB_zero in
  if (0 <? initial_capacity) && negb (alloc_ok initial_capacity) then (false, h) else
  cbb_init p (uninit initial_capacity) initial_capacity h.

Definition CBB_init_fixed (p : nat) (l : list Z) (n : Z) (h : heap) : bool * heap :=
  let h := set_cbb h p CBB_zero in
  let (ok, h) := cbb_init p l n h in
  if negb ok then (false, h) else
  let b := buffer h in
  (true, set_buffer h (mk_buffer (buf b) (blen b) (cap b) false (error b))).

(** [CBB_cleanup] frees the buffer: the CBB keeps no base. *)
Definition CBB_cleanup (p : nat) (h : heap) : heap :=
  let c := cbbs h p in
  set_cbb h p (mk_cbb false (child c) (offset c) (pending_len_len c) (pending_is_asn1 c) (is_top_level c)).

(** [CBB_finish] with places for both results: the finished bytes ([*out_data],
    [*out_len] of them). *)
Definition CBB_finish (p : nat) : op (option (list Z)) :=
  h <- get_heap ;;
  if negb (is_top_level (cbbs h p)) then done None else
  ok <- CBB_flush p ;;
  if negb ok then done None else
  h <- get_heap ;;
  put_heap (CBB_cleanup p h) ;;
  done (Some (take (blen (buffer h)) (buf (buffer h)))).

Definition CBB_len (p : nat) (h : heap) : Z :=
  u64 (u64 (blen (buffer h) - offset (cbbs h p)) - pending_len_len (cbbs h p)).

(** [CBB_data]: the bytes from the pointer it returns to the end of the data. *)
Definition CBB_data (p : nat) (h : heap) : list Z :=
  drop (offset (cbbs h p) + pending_len_len (cbbs h p)) (take (blen (buffer h)) (buf (buffer h))).

(** ** Adding to a CBB *)

(** [memset(out_contents, 0); ...]: child [q] is opened on [p]. *)
Definition open_child (p q : nat) (off pending : Z) (is_asn1 : bool) : op bool := fun h =>
  let h := set_cbb h q (mk_cbb (base (cbbs h p)) None off pending is_asn1 false) in
  Some (true, set_cbb h p (with_child (cbbs h p) (Some q))).

(** [memcpy(dest, data, n)] for the [dest] of the preceding [cbb_buffer_add]. *)
Definition add_data (p : nat) (data : list Z) : op bool := fun h =>
  let pos := blen (buffer h) in
  let (ok, b) := cbb_buffer_add (base (cbbs h p)) (len data) (buffer h) in
  if negb ok then Some (false, set_buffer h b) else
  Some (true, set_buffer h (with_buf b (splice (buf b) pos data))).

Definition cbb_add_length_prefixed (p q : nat) (len_len : Z) : op bool :=
  CBB_flush p &&>
  (h <- get_heap ;;
   let off := blen (buffer h) in
   add_data p (repeat 0 (Z.to_nat len_len)) &&> open_child p q off len_len false).

Definition CBB_add_u8_length_prefixed (p q : nat) : op bool := cbb_add_length_prefixed p q 1.
Definition CBB_add_u16_length_prefixed (p q : nat) : op bool := cbb_add_length_prefixed p q 2.
Definition CBB_add_u24_length_prefixed (p q : nat) : op bool := cbb_add_length_prefixed p q 3.

Definition cbb_add_u (p : nat) (v len_len : Z) : op bool :=
  CBB_flush p &&> on_buffer p (fun has_base => cbb_buffer_add_u has_base v len_len).

Definition CBB_add_u8 (p : nat) (value : Z) : op bool := cbb_add_u p value 1.
Definition CBB_add_u16 (p : nat) (value : Z) : op bool := cbb_add_u p value 2.
Definition CBB_add_u24 (p : nat) (value : Z) : op bool := cbb_add_u p value 3.
Definition CBB_add_u32 (p : nat) (value : Z) : op bool := cbb_add_u p value 4.

Definition CBB_add_asn1 (p q : nat) (tag : Z) : op bool :=
  if (255 <? tag) || (Z.land tag 31 =? 31) then flush_err else
  (CBB_flush p &&> CBB_add_u8 p (u8 tag)) &&>
  (h <- get_heap ;;
   let off := blen (buffer h) in
   CBB_add_u8 p 0 &&> open_child p q off 1 true).

Definition CBB_add_bytes (p : nat) (data : list Z) : op bool :=
  CBB_flush p &&> add_data p data.

(** [CBB_add_space] and [CBB_reserve] hand out the space at the end. *)
Definition CBB_add_space (p : nat) (n : Z) : op bool :=
  CBB_flush p &&> on_buffer p (fun has_base => cbb_buffer_add has_base n).
Definition CBB_reserve (p : nat) (n : Z) : op bool :=
  CBB_flush p &&> on_buffer p (fun has_base => cbb_buffer_reserve has_base n).

Definition CBB_did_write (p : nat) (n : Z) : op bool := fun h =>
  let newlen := u64 (blen (buffer h) + n) in
  if (match child (cbbs h p) with Some _ => true | None => false end)
     || (newlen <? blen (buffer h)) || (cap (buffer h) <? newlen)
  then Some (false, h)
  else Some (true, set_buffer h (with_len (buffer h) newlen)).

Definition CBB_discard_child (p : nat) : op unit := fun h =>
  match child (cbbs h p) with
  | None => Some (tt, h)
  | Some c =>
      let ch := cbbs h c in
      let h := set_buffer h (with_len (buffer h) (offset ch)) in
      let h := set_cbb h c (mk_cbb false (child ch) (offset ch) (pending_len_len ch)
                              (pending_is_asn1 ch) (is_top_level ch)) in
      Some (tt, set_cbb h p (with_child (cbbs h p) None))
  end.

(** The loop over the eight octets of [value], most significant first. *)
Fixpoint asn1_uint64_octets (n : nat) (c : nat) (value : Z) (started : bool) : op (bool * bool) :=
  match n with
  | O => done (true, started)
  | S n =>
      let byte := Z.land (Z.shiftr value (8 * Z.of_nat n)) 255 in
      if negb started && (byte =? 0) then asn1_uint64_octets n c value started else
      ok <- (if negb started && negb (Z.land byte 128 =? 0) then CBB_add_u8 c 0 else done true) ;;
      if negb ok then done (false, started) else
      ok <- CBB_add_u8 c byte ;;
      if negb ok then done (false, true) else asn1_uint64_octets n c value true
  end.

Definition CBB_add_asn1_uint64 (p c : nat) (value : Z) : op bool :=
  CBB_add_asn1 p c CBS_ASN1_INTEGER &&>
  ('(ok, started) <- asn1_uint64_octets 8 c value false ;;
   if negb ok then done false else
   (if negb started then CBB_add_u8 c 0 else done true) &&> CBB_flush p).

(** ** The shared buffer *)

(** A buffer in use: no error, and the valid bytes lie in the allocation. *)
Definition buffer_ok (b : cbb_buffer_st) : Prop :=
  0 <= blen b <= cap b /\ len (buf b) = cap b /\ cap b < 2 ^ 64 /\ error b = false.

Definition content (b : cbb_buffer_st) : list Z := take (blen b) (buf b).

(** The buffer can hold [n] bytes. *)
Definition room (b : cbb_buffer_st) (n : Z) : Prop :=
  n < 2 ^ 64 /\ (n <= cap b \/ (can_resize b = true /\ forall k, alloc_ok k = true)).

(** [b'] is a later state of the allocation of [b]. *)
Definition grown (b b' : cbb_buffer_st) : Prop :=
  can_resize b' = can_resize b /\ cap b <= cap b'.

Lemma grown_refl b : grown b b.
Proof. unfold grown; split; lia || reflexivity. Qed.

Lemma grown_trans a b c : grown a b -> grown b c -> grown a c.
Proof. unfold grown. intros [E1 H1] [E2 H2]. split; [congruence | lia]. Qed.

Lemma room_grown b b' n : grown b b' -> room b n -> room b' n.
Proof. intros [E H] [Hn [Hc | [Hr Ha]]]; split; auto; [left; lia | right; split; congruence]. Qed.

Lemma room_le b n m : m <= n -> room b n -> room b m.
Proof. intros H [Hn Hc]. split; [lia |]. destruct Hc; [left; lia | now right]. Qed.

Lemma len_content b : buffer_ok b -> len (content b) = blen b.
Proof. intros (Hb & Hl & _). apply len_take. lia. Qed.

Lemma len_uninit n : 0 <= n -> len (uninit n) = n.
Proof. intros. unfold uninit. rewrite len_map. unfold len. rewrite length_seq. lia. Qed.

Lemma reserve_ok b n : buffer_ok b -> 0 <= n -> room b (blen b + n) ->
  exists b', cbb_buffer_reserve true n b = (true, b') /\ buffer_ok b' /\ blen b' = blen b /\
    blen b + n <= cap b' /\ content b' = content b /\ grown b b'.
Proof.
  intros (Hb & Hl & Hc & He) Hn [Hlt Hroom]. unfold cbb_buffer_reserve. cbn [negb].
  rewrite wrap_small by lia. destruct (Z.ltb_spec (blen b + n) (blen b)); [lia |].
  destruct (Z.ltb_spec (cap b) (blen b + n)).
  - destruct Hroom as [? | [Hr Ha]]; [lia |]. rewrite Hr. cbn [negb].
    set (newcap := if _ || _ then _ else _).
    assert (cap b <= newcap /\ blen b + n <= newcap < 2 ^ 64) as [Hge Hnc].
    { subst newcap. pose proof (wrap_range 64 (cap b * 2) ltac:(lia)).
      destruct (Z.ltb_spec (u64 (cap b * 2)) (cap b));
        destruct (Z.ltb_spec (u64 (cap b * 2)) (blen b + n)); cbn [orb]; lia. }
    unfold OPENSSL_realloc. rewrite Ha. eexists. split; [reflexivity |].
    unfold buffer_ok, content, grown. cbn [buf blen cap can_resize error].
    rewrite Hl, len_app, len_uninit, Hl, take_app_l by lia. repeat split; (assumption || lia || congruence).
  - exists b. repeat split; try assumption; try lia.
Qed.

Lemma add_ok b n : buffer_ok b -> 0 <= n -> room b (blen b + n) ->
  exists b', cbb_buffer_add true n b = (true, b') /\ buffer_ok b' /\ blen b' = blen b + n /\
    take (blen b) (buf b') = content b /\ grown b b'.
Proof.
  intros Hok Hn Hroom. pose proof Hroom as [Hlt _].
  destruct (reserve_ok b n Hok Hn Hroom) as (b1 & E & (Hb & Hl & Hc & He) & Hbl & Hcap & Hcon & Hg).
  unfold cbb_buffer_add. rewrite E. cbn [negb]. eexists. split; [reflexivity |].
  destruct Hok as (Hb0 & _). rewrite wrap_small by lia.
  unfold buffer_ok, with_len, grown in *. cbn [buf blen cap can_resize error].
  unfold content in Hcon. rewrite Hbl in *. repeat split; try assumption; try lia; apply Hg.
Qed.

Lemma store_be_spec n : forall l pos v, 0 <= pos -> pos + Z.of_nat n <= len l ->
  store_be n l pos v = (splice l pos (be_enc n v), v / 256 ^ Z.of_nat n).
Proof.
  induction n as [| n IH]; intros l pos v Hp Hl; cbn [store_be be_enc].
  - unfold splice. rewrite len_nil, Z.add_0_r. cbn [app]. rewrite take_drop, Z.div_1_r. reflexivity.
  - rewrite IH by (try lia; rewrite len_splice; change (len [u8 v]) with 1; lia).
    rewrite Z.shiftr_div_pow2 by lia. change (2 ^ 8) with 256. f_equal.
    + replace (pos + Z.of_nat n) with (pos + len (be_enc n (v / 256))) by (rewrite be_enc_len; lia).
      rewrite splice_splice by (rewrite ?be_enc_len; change (len [u8 v]) with 1; lia). reflexivity.
    + rewrite Z.div_div by lia. f_equal. rewrite Nat2Z.inj_succ, Z.pow_succ_r by lia. lia.
Qed.

(** Overwriting bytes below the end. *)
Lemma buffer_ok_splice b pos d : buffer_ok b -> 0 <= pos -> pos + len d <= blen b ->
  buffer_ok (with_buf b (splice (buf b) pos d)) /\
  content (with_buf b (splice (buf b) pos d)) = splice (content b) pos d.
Proof.
  intros (Hb & Hl & Hc & He) Hp Hd. unfold buffer_ok, content, with_buf.
  cbn [buf blen cap can_resize error]. rewrite len_splice by lia.
  rewrite take_splice_ge by lia. repeat split; (assumption || lia).
Qed.

(** ** Readiness

    [ready p c h]: flushing CBB [p] succeeds and makes [c] the contents of the
    buffer; CBBs above [p] are untouched. The chain below [p] lives at the
    addresses after [p]. *)

Definition same_but_child (a b : cbb_st) : Prop := with_child a None = with_child b None.

Definition ready (p : nat) (c : list Z) (h : heap) : Prop :=
  (p <= max_cbbs)%nat /\ base (cbbs h p) = true /\
  exists h', CBB_flush_fuel (max_cbbs - p) p h = Some (true, h') /\
    buffer_ok (buffer h') /\ content (buffer h') = c /\
    cbbs h' p = with_child (cbbs h p) None /\
    (forall i, (i < p)%nat -> cbbs h' i = cbbs h i) /\ grown (buffer h) (buffer h').

(** One step of a client working on CBB [p]. *)
Definition stepped (p : nat) (c : list Z) (h h1 : heap) : Prop :=
  ready p c h1 /\ (forall i, (i < p)%nat -> cbbs h1 i = cbbs h i) /\
  same_but_child (cbbs h1 p) (cbbs h p) /\ grown (buffer h) (buffer h1).

Lemma stepped_trans p c1 c2 h h1 h2 :
  stepped p c1 h h1 -> stepped p c2 h1 h2 -> stepped p c2 h h2.
Proof.
  intros (_ & F1 & S1 & G1) (R2 & F2 & S2 & G2). split; [exact R2 |]. split; [| split].
  - intros i Hi. now rewrite F2, F1.
  - unfold same_but_child in *. congruence.
  - eapply grown_trans; eauto.
Qed.

Lemma flush_fuel_mono f : forall p h r f', CBB_flush_fuel f p h = Some r -> (f <= f')%nat ->
  CBB_flush_fuel f' p h = Some r.
Proof.
  induction f as [| f IH]; intros p h r f' E Hle; destruct f' as [| f']; try lia; try assumption;
    cbn [CBB_flush_fuel] in *; destruct (negb (base (cbbs h p)) || error (buffer h)); try assumption;
    destruct (child (cbbs h p)) as [c |]; try assumption;
    destruct (pending_len_len (cbbs h c) =? 0); try assumption; try discriminate.
  destruct (CBB_flush_fuel f c h) as [[ok h1] |] eqn:Ec; [| discriminate].
  rewrite (IH c h _ f' Ec) by lia. exact E.
Qed.

Lemma settled_ready p c h : (p <= max_cbbs)%nat -> base (cbbs h p) = true -> buffer_ok (buffer h) ->
  content (buffer h) = c -> child (cbbs h p) = None -> ready p c h.
Proof.
  intros Hp Hb Hok Hc Hch. split; [assumption |]. split; [assumption |]. exists h.
  assert (E : CBB_flush_fuel (max_cbbs - p) p h = Some (true, h)).
  { destruct Hok as (_ & _ & _ & He). destruct (max_cbbs - p)%nat; cbn [CBB_flush_fuel]; now rewrite Hb, He, Hch. }
  repeat split; try assumption; try apply Hok; try lia.
  destruct (cbbs h p); cbn in *; now subst.
Qed.

(** Flushing reaches a settled state. *)
Lemma flush_ready p c h : ready p c h ->
  exists h', CBB_flush p h = Some (true, h') /\ stepped p c h h' /\
    buffer_ok (buffer h') /\ content (buffer h') = c /\ child (cbbs h' p) = None /\
    base (cbbs h' p) = true.
Proof.
  intros (Hp & Hb & h' & E & Hok & Hc & Hpc & Hf & Hg). exists h'.
  assert (Hchild : child (cbbs h' p) = None) by (rewrite Hpc; reflexivity).
  assert (Hbase : base (cbbs h' p) = true) by (rewrite Hpc; exact Hb).
  split; [eapply flush_fuel_mono; [exact E | lia] |].
  repeat split; try assumption; try apply Hok; try apply Hg.
  - now apply settled_ready.
  - unfold same_but_child. rewrite Hpc. reflexivity.
Qed.
(** ** Flushing a child *)

Lemma ready_no_error p c h : ready p c h -> error (buffer h) = false.
Proof.
  intros (_ & Hb & h' & E & _). destruct (error (buffer h)) eqn:He; [| reflexivity].
  destruct (max_cbbs - p)%nat; cbn [CBB_flush_fuel] in E; rewrite Hb, He in E; discriminate.
Qed.

(** Writing [n] over the placeholder [ph] at the child's offset. *)
Lemma flush_write_ok p h pre ph body n :
  buffer_ok (buffer h) -> content (buffer h) = pre ++ ph ++ body ->
  offset (cbbs h (S p)) = len pre -> pending_len_len (cbbs h (S p)) = len ph ->
  0 <= n < 256 ^ len ph ->
  exists h1, flush_write p (S p) n h = Some (true, h1) /\ buffer_ok (buffer h1) /\
    content (buffer h1) = pre ++ be_enc (length ph) n ++ body /\
    cbbs h1 p = with_child (cbbs h p) None /\
    (forall i, (i < p)%nat -> cbbs h1 i = cbbs h i) /\ grown (buffer h) (buffer h1).
Proof.
  intros Hok Hc Ho Hpe Hn. unfold flush_write. rewrite Ho, Hpe.
  pose proof (len_content _ Hok) as Hbl. rewrite Hc, !len_app in Hbl.
  pose proof (len_nonneg pre). pose proof (len_nonneg ph). pose proof (len_nonneg body).
  assert (Hlen : len (buf (buffer h)) >= blen (buffer h)) by (destruct Hok as (? & ? & _); lia).
  rewrite store_be_spec by (rewrite ?Z2Nat.id; lia).
  rewrite Z2Nat.id by lia. rewrite Z.div_small by lia. cbn [Z.eqb negb].
  replace (Z.to_nat (len ph)) with (length ph) by (unfold len; lia).
  eexists. split; [reflexivity |]. cbn [buffer cbbs set_buffer set_cbb].
  assert (Hbe : len (be_enc (length ph) n) = len ph) by (rewrite be_enc_len; reflexivity).
  destruct (buffer_ok_splice (buffer h) (len pre) (be_enc (length ph) n) Hok) as [Hok1 Hc1]; [lia | lia |].
  split; [exact Hok1 |]. split; [| split; [| split; [| split; [reflexivity | cbn; lia]]]].
  - rewrite Hc1, Hc. now apply splice_app_mid.
  - rewrite Nat.eqb_refl. destruct (Nat.eqb_spec p (S p)); [lia | reflexivity].
  - intros i Hi. destruct (Nat.eqb_spec i p); [lia |]. destruct (Nat.eqb_spec i (S p)); [lia | reflexivity].
Qed.

(** The chosen length octets are those of DER. *)
Lemma asn1_len_choice_der n : 0 <= n <= 4294967294 ->
  (n < 128 /\ asn1_len_choice n = Some (1, n, 0) /\ der_length n = [n]) \/
  (exists k, 1 <= k <= 4 /\ asn1_len_choice n = Some (k + 1, 128 + k, n) /\
     der_length n = (128 + k) :: be_enc (Z.to_nat k) n /\ 128 <= n < 256 ^ k).
Proof.
  intros Hn. unfold asn1_len_choice, der_length, len_octets.
  destruct (Z.ltb_spec 4294967294 n); [lia |].
  destruct (Z.ltb_spec n 128).
  { left. repeat (rewrite (proj2 (Z.ltb_ge _ _)) by lia). rewrite wrap_small by lia. auto. }
  right. destruct (Z.ltb_spec 16777215 n).
  { exists 4. repeat (rewrite (proj2 (Z.ltb_ge n _)) by lia). repeat split; lia. }
  destruct (Z.ltb_spec 65535 n).
  { exists 3. do 2 (rewrite (proj2 (Z.ltb_ge n _)) by lia). rewrite (proj2 (Z.ltb_lt n _)) by lia. repeat split; lia. }
  destruct (Z.ltb_spec 255 n).
  { exists 2. rewrite (proj2 (Z.ltb_ge n 256)), (proj2 (Z.ltb_lt n 65536)) by lia. repeat split; lia. }
  exists 1. rewrite (proj2 (Z.ltb_lt 127 n)), (proj2 (Z.ltb_lt n 256)) by lia. repeat split; lia.
Qed.

(** Making room for [extra] length octets after the first one. *)
Lemma move_along b pre z body extra :
  buffer_ok b -> content b = pre ++ [z] ++ body -> 0 <= extra -> room b (blen b + extra) ->
  exists b1 ph, cbb_buffer_add true extra b = (true, b1) /\ len ph = extra /\
    let cs := len pre + 1 in
    let b2 := with_buf b1 (splice (buf b1) (cs + extra) (take (len body) (drop cs (buf b1)))) in
    buffer_ok b2 /\ content b2 = pre ++ [z] ++ ph ++ body /\ grown b b2.
Proof.
  intros Hok Hc He Hroom. destruct (add_ok b extra Hok He Hroom) as (b1 & E & Hok1 & Hbl & Htake & Hg).
  pose proof (len_content _ Hok) as Hlen. rewrite Hc, !len_app in Hlen. change (len [z]) with 1 in Hlen.
  pose proof (len_nonneg pre). pose proof (len_nonneg body).
  set (cs := len pre + 1). exists b1, (take extra (drop cs (buf b1))).
  assert (Hcap : blen b + extra <= len (buf b1)) by (destruct Hok1 as (? & ? & _); lia).
  split; [exact E |]. split; [apply len_take; rewrite len_drop; subst cs; lia |]. cbv zeta.
  assert (Hdrop : drop cs (buf b1) = body ++ drop (blen b) (buf b1)).
  { rewrite <- (take_drop (blen b) (buf b1)) at 1. rewrite Htake, Hc.
    rewrite <- !app_assoc, app_assoc. apply drop_app_exact. rewrite len_app. reflexivity. }
  assert (Hbody : take (len body) (drop cs (buf b1)) = body) by (rewrite Hdrop; now apply take_app_exact).
  rewrite Hbody. destruct (buffer_ok_splice b1 (cs + extra) body Hok1) as [Hok2 Hc2]; [subst cs; lia | subst cs; lia |].
  split; [exact Hok2 |]. split; [| exact Hg].
  rewrite Hc2. unfold content. rewrite splice_full by (try rewrite len_take; subst cs; lia).
  rewrite take_take by (subst cs; lia). rewrite (take_plus cs extra) by (subst cs; lia).
  rewrite <- app_assoc. replace (take cs (buf b1)) with (pre ++ [z]); [now rewrite <- app_assoc |].
  rewrite <- (take_take cs (blen b)) by (subst cs; lia). rewrite Htake, Hc, app_assoc.
  symmetry. apply take_app_exact. rewrite len_app. reflexivity.
Qed.
(** The final state of [flush_write] and [flush_asn1]. *)
Definition flushed (p : nat) (c : list Z) (h h1 : heap) : Prop :=
  buffer_ok (buffer h1) /\ content (buffer h1) = c /\
  cbbs h1 p = with_child (cbbs h p) None /\
  (forall i, (i < p)%nat -> cbbs h1 i = cbbs h i) /\ grown (buffer h) (buffer h1).

(** The end of [flush_asn1]: the first octet [x] is written and the remaining
    ones go over [ph]. *)
Lemma flush_asn1_tail p h b pre z ph body x n :
  buffer_ok b -> content b = pre ++ [z] ++ ph ++ body -> grown (buffer h) b ->
  offset (cbbs h (S p)) = len pre -> len ph < 256 -> 0 <= n < 256 ^ len ph ->
  exists h1,
    (let ch := cbbs h (S p) in
     flush_write p (S p) n
       (set_cbb (set_buffer h (with_buf b (splice (buf b) (offset ch) [x]))) (S p)
          (mk_cbb (base ch) (child ch) (u64 (offset ch + 1)) (u8 (len ph + 1 - 1))
             (pending_is_asn1 ch) (is_top_level ch)))) = Some (true, h1) /\
    flushed p (pre ++ (x :: be_enc (length ph) n) ++ body) h h1.
Proof.
  intros Hok Hc Hg Ho Hph Hn. cbv zeta. rewrite Ho.
  pose proof (len_nonneg body). pose proof (len_nonneg pre). pose proof (len_nonneg ph).
  pose proof (len_content _ Hok) as Hlen. rewrite Hc, !len_app in Hlen. change (len [z]) with 1 in Hlen.
  destruct (buffer_ok_splice b (len pre) [x] Hok) as [Hok1 Hc1]; change (len [x]) with 1 in *; try lia.
  rewrite Hc, splice_app_mid in Hc1 by reflexivity.
  assert (Hcap : cap b < 2 ^ 64 /\ blen b <= cap b) by (destruct Hok as (? & _ & ? & _); lia).
  rewrite (wrap_small 64) by lia. replace (len ph + 1 - 1) with (len ph) by lia.
  rewrite (wrap_small 8) by lia.
  match goal with |- context [flush_write p (S p) n ?hh] =>
    destruct (flush_write_ok p hh (pre ++ [x]) ph body n) as (h1 & E & Hf1 & Hf2 & Hf3 & Hf4 & Hf5) end;
    cbn [cbbs buffer set_cbb set_buffer] in *; rewrite ?Nat.eqb_refl in *; try assumption.
  - rewrite Hc1. now rewrite <- app_assoc.
  - cbn [offset]. rewrite len_app. reflexivity.
  - reflexivity.
  - exists h1. split; [exact E |]. split; [assumption |]. split; [now rewrite Hf2, <- app_assoc |].
    destruct (Nat.eqb_spec p (S p)) in Hf3; [lia |]. split; [assumption |].
    split; [| eapply grown_trans; [exact Hg | exact Hf5]].
    intros i Hi. rewrite Hf4 by assumption. destruct (Nat.eqb_spec i (S p)); [lia | reflexivity].
Qed.

Lemma flush_asn1_ok p h pre z body :
  buffer_ok (buffer h) -> content (buffer h) = pre ++ [z] ++ body ->
  base (cbbs h p) = true -> offset (cbbs h (S p)) = len pre ->
  len body <= 4294967294 -> room (buffer h) (len (pre ++ der_length (len body) ++ body)) ->
  exists h1, flush_asn1 p (S p) (len pre + 1) (len body) h = Some (true, h1) /\
    flushed p (pre ++ der_length (len body) ++ body) h h1.
Proof.
  intros Hok Hc Hb Ho Hn Hroom. unfold flush_asn1.
  pose proof (len_nonneg body). pose proof (len_nonneg pre).
  destruct (asn1_len_choice_der (len body) ltac:(lia)) as [(Hs & -> & ->) | (k & Hk & -> & Ed & Hv)].
  - cbn [negb Z.eqb Pos.eqb cbbs set_buffer buffer]. 
    destruct (flush_asn1_tail p h (buffer h) pre z [] body (len body) 0 Hok Hc (grown_refl _) Ho)
      as (h1 & E & Hf); [cbn; lia | cbn; lia |].
    exists h1. split; [exact E | exact Hf].
  - rewrite Hb. replace (k + 1 - 1) with k by lia. destruct (Z.eqb_spec (k + 1) 1); [lia |]. cbn [negb].
    pose proof (len_content _ Hok) as Hlen. rewrite Hc, !len_app in Hlen. change (len [z]) with 1 in Hlen.
    rewrite Ed, !len_app, len_cons, be_enc_len in Hroom.
    destruct (move_along (buffer h) pre z body k Hok Hc ltac:(lia)) as (b1 & ph & -> & Hph & Hmove);
      [eapply room_le; [| exact Hroom]; lia |].
    cbv zeta in Hmove. destruct Hmove as (Hok2 & Hc2 & Hg2).
    cbn [negb cbbs set_buffer buffer].
    destruct (flush_asn1_tail p h _ pre z ph body (128 + k) (len body) Hok2 Hc2 Hg2 Ho)
      as (h1 & E & Hf); [lia | rewrite Hph; lia |].
    exists h1. rewrite <- Hph at 3. rewrite Ed. split.
    + rewrite <- E. cbv zeta. rewrite Hph. replace (k + 1 - 1) with k by lia. reflexivity.
    + replace (Z.to_nat k) with (length ph) by (unfold len in Hph; lia). exact Hf.
Qed.
(** [q] is the open child of [p] with its prefix at the end of [pre]. *)
Definition open_on (p : nat) (pre : list Z) (pending : Z) (is_asn1 : bool) (h : heap) : Prop :=
  base (cbbs h p) = true /\ child (cbbs h p) = Some (S p) /\
  offset (cbbs h (S p)) = len pre /\ pending_len_len (cbbs h (S p)) = pending /\
  pending_is_asn1 (cbbs h (S p)) = is_asn1.

(** Finished contents of a child, as the parent sees them. *)
Definition prefixed (is_asn1 : bool) (pending : nat) (body : list Z) : list Z :=
  (if is_asn1 then der_length (len body) else be_enc pending (len body)) ++ body.

Lemma child_ready_parent p h pre ph body is_asn1 :
  ready (S p) (pre ++ ph ++ body) h -> open_on p pre (len ph) is_asn1 h -> 1 <= len ph ->
  (if is_asn1 then len ph = 1 /\ len body <= 4294967294 else len body < 256 ^ len ph) ->
  room (buffer h) (len (pre ++ prefixed is_asn1 (length ph) body)) ->
  ready p (pre ++ prefixed is_asn1 (length ph) body) h.
Proof.
  intros Hr (Hb & Hch & Ho & Hpe & Has) Hph Hlim Hroom.
  pose proof (ready_no_error _ _ _ Hr) as He.
  destruct Hr as (Hp & Hbq & h' & E & Hok & Hc & Hq & Hf & Hg).
  split; [lia |]. split; [assumption |].
  assert (Hcb : cbbs h' p = cbbs h p) by (apply Hf; lia).
  assert (Hflush : exists h1, CBB_flush_fuel (max_cbbs - p) p h = Some (true, h1) /\
            flushed p (pre ++ prefixed is_asn1 (length ph) body) h' h1).
  { replace (max_cbbs - p)%nat with (S (max_cbbs - S p)) by lia. cbn [CBB_flush_fuel].
    rewrite Hb, He, Hch, Hpe. cbn [negb orb]. destruct (Z.eqb_spec (len ph) 0); [lia |].
    rewrite E. cbn [negb orb]. rewrite Hq. cbn [with_child offset pending_is_asn1]. rewrite Ho, Has.
    pose proof (len_content _ Hok) as Hlen. rewrite Hc, !len_app in Hlen.
    pose proof (len_nonneg body). pose proof (len_nonneg pre).
    assert (Hcap : cap (buffer h') < 2 ^ 64 /\ blen (buffer h') <= cap (buffer h')) by (destruct Hok as (? & _ & ? & _); lia).
    rewrite wrap_small by lia.
    destruct (Z.ltb_spec (len pre + len ph) (len pre)); [lia |].
    destruct (Z.ltb_spec (blen (buffer h')) (len pre + len ph)); [lia |]. cbn [orb].
    replace (blen (buffer h') - (len pre + len ph)) with (len body) by lia.
    assert (Hoq : offset (cbbs h' (S p)) = len pre) by (rewrite Hq; exact Ho).
    destruct is_asn1; unfold prefixed in *.
    - destruct Hlim as [Hph1 Hlim]. rewrite Hph1.
      destruct ph as [| z [| ? ?]]; [discriminate Hph1 | | exfalso; rewrite !len_cons in Hph1; pose_lens; lia].
      apply (flush_asn1_ok p h' pre z body); try assumption; [now rewrite Hcb |].
      eapply room_grown; eassumption.
    - destruct (flush_write_ok p h' pre ph body (len body)) as (h1 & E1 & Hf1); try assumption; try lia.
      + rewrite Hq. exact Hpe.
      + exists h1. split; [exact E1 | exact Hf1]. }
  destruct Hflush as (h1 & E1 & Hok1 & Hc1 & Hp1 & Hf1 & Hg1). exists h1.
  split; [assumption |]. split; [assumption |]. split; [assumption |].
  split; [now rewrite Hp1, Hcb |]. split; [| eapply grown_trans; eassumption].
  intros i Hi. rewrite Hf1, Hf by lia. reflexivity.
Qed.

(** ** Adding to a ready CBB *)

Lemma add_data_ok p h d : buffer_ok (buffer h) -> base (cbbs h p) = true ->
  room (buffer h) (len (content (buffer h) ++ d)) ->
  exists b, add_data p d h = Some (true, set_buffer h b) /\ buffer_ok b /\
    content b = content (buffer h) ++ d /\ grown (buffer h) b.
Proof.
  intros Hok Hb Hroom. rewrite len_app, len_content in Hroom by assumption. pose proof (len_nonneg d).
  destruct (add_ok (buffer h) (len d) Hok ltac:(lia) Hroom) as (b & E & Hok1 & Hbl & Htake & Hg).
  unfold add_data. rewrite Hb, E. cbn [negb]. eexists. split; [reflexivity |].
  assert (Hnn : 0 <= blen (buffer h)) by (destruct Hok; lia).
  destruct (buffer_ok_splice b (blen (buffer h)) d Hok1) as [Hok2 Hc2]; [lia | lia |].
  split; [assumption |]. split; [| exact Hg].
  rewrite Hc2. unfold content at 1. rewrite splice_full by (try rewrite len_take; destruct Hok1 as (? & ? & _); lia).
  now rewrite take_take, Htake by lia.
Qed.

(** Appending: the common shape of the operations that add bytes. *)
Lemma append_stepped p c d h (f : op bool) :
  (forall h', buffer_ok (buffer h') -> base (cbbs h' p) = true -> content (buffer h') = c ->
     room (buffer h') (len (c ++ d)) ->
     exists b, f h' = Some (true, set_buffer h' b) /\ buffer_ok b /\ content b = c ++ d /\ grown (buffer h') b) ->
  ready p c h -> room (buffer h) (len (c ++ d)) ->
  exists h1, (CBB_flush p &&> f) h = Some (true, h1) /\ stepped p (c ++ d) h h1 /\
    buffer_ok (buffer h1) /\ content (buffer h1) = c ++ d /\ child (cbbs h1 p) = None.
Proof.
  intros Hf Hr Hroom.
  destruct (flush_ready p c h Hr) as (h' & E & (Hr' & Hfr & Hs & Hg) & Hok & Hc & Hch & Hb).
  destruct (Hf h' Hok Hb Hc) as (b & E1 & Hokb & Hcb & Hgb); [eapply room_grown; eassumption |].
  exists (set_buffer h' b). unfold and_then, bind. rewrite E, E1. split; [reflexivity |].
  split; [| now repeat split; try apply Hokb].
  split; [apply settled_ready; try assumption; apply Hr' |].
  split; [exact Hfr |]. split; [exact Hs |]. eapply grown_trans; eassumption.
Qed.

Lemma CBB_add_bytes_ok p c d h : ready p c h -> room (buffer h) (len (c ++ d)) ->
  exists h1, CBB_add_bytes p d h = Some (true, h1) /\ stepped p (c ++ d) h h1 /\
    buffer_ok (buffer h1) /\ content (buffer h1) = c ++ d /\ child (cbbs h1 p) = None.
Proof.
  apply append_stepped. intros h' Hok Hb <- Hroom. now apply add_data_ok.
Qed.

Lemma cbb_add_u_ok p c n v h : 0 < n -> 0 <= v < 256 ^ n ->
  ready p c h -> room (buffer h) (len (c ++ be_enc (Z.to_nat n) v)) ->
  exists h1, cbb_add_u p v n h = Some (true, h1) /\ stepped p (c ++ be_enc (Z.to_nat n) v) h h1 /\
    buffer_ok (buffer h1) /\ content (buffer h1) = c ++ be_enc (Z.to_nat n) v /\ child (cbbs h1 p) = None.
Proof.
  intros Hn Hv. apply append_stepped. intros h' Hok Hb <- Hroom.
  rewrite len_app, len_content, be_enc_len, Z2Nat.id in Hroom by (assumption || lia).
  destruct (add_ok (buffer h') n Hok ltac:(lia) Hroom) as (b & E & Hok1 & Hbl & Htake & Hg).
  assert (Hnn : 0 <= blen (buffer h')) by (destruct Hok; lia).
  unfold on_buffer, cbb_buffer_add_u. rewrite Hb, E. destruct (Z.eqb_spec n 0); [lia |]. cbn [negb].
  rewrite store_be_spec by (destruct Hok1 as (? & ? & _); lia).
  rewrite Z2Nat.id by lia. rewrite Z.div_small by lia. cbn [Z.eqb negb].
  eexists. split; [reflexivity |].
  destruct (buffer_ok_splice b (blen (buffer h')) (be_enc (Z.to_nat n) v) Hok1) as [Hok2 Hc2];
    rewrite ?be_enc_len; try lia.
  split; [assumption |]. split; [| exact Hg].
  rewrite Hc2. unfold content at 1.
  rewrite splice_full by (rewrite ?be_enc_len; try rewrite len_take; destruct Hok1 as (? & ? & _); lia).
  now rewrite take_take, Htake by lia.
Qed.
(** ** Opening a child *)

Definition opened (p : nat) (pre ph : list Z) (is_asn1 : bool) (h h1 : heap) : Prop :=
  ready (S p) (pre ++ ph) h1 /\ open_on p pre (len ph) is_asn1 h1 /\
  (forall i, (i < p)%nat -> cbbs h1 i = cbbs h i) /\
  same_but_child (cbbs h1 p) (cbbs h p) /\ grown (buffer h) (buffer h1).

Lemma open_child_ok p pre ph is_asn1 h : (S p <= max_cbbs)%nat -> buffer_ok (buffer h) ->
  base (cbbs h p) = true -> content (buffer h) = pre ++ ph ->
  exists h1, open_child p (S p) (len pre) (len ph) is_asn1 h = Some (true, h1) /\
    opened p pre ph is_asn1 h h1.
Proof.
  intros Hp Hok Hb Hc. eexists. split; [reflexivity |].
  unfold opened, open_on, open_child, same_but_child. cbn [set_cbb cbbs buffer].
  rewrite !Nat.eqb_refl. destruct (Nat.eqb_spec (S p) p); [lia |].
  destruct (Nat.eqb_spec p (S p)); [lia |].
  split; [| repeat split; try assumption; try (cbn; lia)].
  - apply settled_ready; cbn [set_cbb cbbs buffer]; rewrite ?Nat.eqb_refl; try assumption;
      destruct (Nat.eqb_spec (S p) p); (lia || assumption || reflexivity).
  - intros i Hi. destruct (Nat.eqb_spec i p); [lia |]. destruct (Nat.eqb_spec i (S p)); [lia | reflexivity].
Qed.

(** A finished child is the parent's next element. *)
Lemma child_done p pre ph body is_asn1 h h1 h2 :
  opened p pre ph is_asn1 h h1 -> stepped (S p) (pre ++ ph ++ body) h1 h2 -> 1 <= len ph ->
  (if is_asn1 then len ph = 1 /\ len body <= 4294967294 else len body < 256 ^ len ph) ->
  room (buffer h) (len (pre ++ prefixed is_asn1 (length ph) body)) ->
  stepped p (pre ++ prefixed is_asn1 (length ph) body) h h2.
Proof.
  intros (_ & (Hb & Hch & Ho & Hpe & Has) & Hf & Hs & Hg) (Hr2 & Hf2 & Hs2 & Hg2) Hph Hlim Hroom.
  assert (Hp2 : cbbs h2 p = cbbs h1 p) by (apply Hf2; lia).
  assert (Hq : offset (cbbs h2 (S p)) = offset (cbbs h1 (S p)) /\
               pending_len_len (cbbs h2 (S p)) = pending_len_len (cbbs h1 (S p)) /\
               pending_is_asn1 (cbbs h2 (S p)) = pending_is_asn1 (cbbs h1 (S p))).
  { unfold same_but_child, with_child in Hs2. injection Hs2. intuition congruence. }
  destruct Hq as (Hq1 & Hq2 & Hq3).
  assert (Hgt : grown (buffer h) (buffer h2)) by (eapply grown_trans; eassumption).
  split; [| split; [| split]].
  - eapply child_ready_parent; try eassumption; [| eapply room_grown; eassumption].
    unfold open_on. rewrite Hp2, Hq1, Hq2, Hq3. auto.
  - intros i Hi. rewrite Hf2, Hf by lia. reflexivity.
  - unfold same_but_child in *. now rewrite Hp2.
  - exact Hgt.
Qed.

Lemma add_length_prefixed_ok p c n h : 1 <= n <= 3 -> (S p <= max_cbbs)%nat ->
  ready p c h -> room (buffer h) (len c + n) ->
  exists h1, cbb_add_length_prefixed p (S p) n h = Some (true, h1) /\
    opened p c (repeat 0 (Z.to_nat n)) false h h1.
Proof.
  intros Hn Hp Hr Hroom.
  assert (Hz : len (repeat 0 (Z.to_nat n)) = n) by (rewrite len_repeat; lia).
  destruct (flush_ready p c h Hr) as (h' & E & (_ & Hfr & Hs & Hg) & Hok & Hc & _ & Hb).
  destruct (add_data_ok p h' (repeat 0 (Z.to_nat n)) Hok Hb) as (b & E1 & Hokb & Hcb & Hgb).
  { rewrite len_app, Hz, Hc. eapply room_grown; eassumption. }
  destruct (open_child_ok p c (repeat 0 (Z.to_nat n)) false (set_buffer h' b) Hp Hokb Hb)
    as (h1 & E2 & Hr1 & Ho1 & Hf1 & Hs1 & Hg1); [cbn [set_buffer buffer]; congruence |].
  exists h1. unfold cbb_add_length_prefixed, and_then, bind, get_heap. rewrite E, E1.
  replace (blen (buffer h')) with (len c) by (rewrite <- Hc; apply len_content; assumption).
  rewrite Hz in E2. rewrite E2. split; [reflexivity |].
  split; [assumption |]. split; [assumption |]. split; [| split].
  - intros i Hi. rewrite Hf1 by assumption. now apply Hfr.
  - unfold same_but_child in *. cbn [set_buffer cbbs] in Hs1. congruence.
  - eapply grown_trans; [exact Hg |]. eapply grown_trans; eassumption.
Qed.

Lemma low_tag_guard tag : low_tag tag -> (255 <? tag) || (Z.land tag 31 =? 31) = false.
Proof. intros [[H1 H2] H3]. apply orb_false_iff. split; lia. Qed.

Lemma add_asn1_ok p c tag h : low_tag tag -> (S p <= max_cbbs)%nat ->
  ready p c h -> room (buffer h) (len c + 2) ->
  exists h1, CBB_add_asn1 p (S p) tag h = Some (true, h1) /\ opened p (c ++ [tag]) [0] true h h1.
Proof.
  intros Ht Hp Hr Hroom. unfold CBB_add_asn1. rewrite (low_tag_guard tag Ht).
  destruct Ht as [Ht _]. unfold byte_ok in Ht. rewrite (wrap_small 8) by lia.
  assert (He : forall v, 0 <= v < 256 -> be_enc (Z.to_nat 1) v = [v])
    by (intros v Hv; change (be_enc (Z.to_nat 1) v) with [v mod 256]; now rewrite Z.mod_small).
  destruct (flush_ready p c h Hr) as (h' & E & (Hr' & Hfr & Hs & Hg) & Hok & Hc & _ & Hb).
  assert (Hroom2 : forall h2, grown (buffer h) (buffer h2) -> forall n, n <= len c + 2 -> room (buffer h2) n)
    by (intros; eapply room_le; [eassumption |]; eapply room_grown; eassumption).
  destruct (cbb_add_u_ok p c 1 tag h' ltac:(lia) ltac:(cbn; lia) Hr')
    as (h2 & E2 & (Hr2 & Hf2 & Hs2 & Hg2) & Hok2 & Hc2 & Hch2).
  { apply Hroom2; [exact Hg |]. rewrite len_app, be_enc_len. cbn. lia. }
  assert (Hgt : grown (buffer h) (buffer h2)) by (eapply grown_trans; eassumption).
  rewrite He in * by lia.
  destruct (cbb_add_u_ok p (c ++ [tag]) 1 0 h2 ltac:(lia) ltac:(cbn; lia) Hr2)
    as (h3 & E3 & (Hr3 & Hf3 & Hs3 & Hg3) & Hok3 & Hc3 & Hch3).
  { apply Hroom2; [exact Hgt |]. rewrite !len_app, be_enc_len. cbn. lia. }
  rewrite He in * by lia.
  destruct (open_child_ok p (c ++ [tag]) [0] true h3 Hp Hok3) as (h4 & E4 & Hr4 & Ho4 & Hf4 & Hs4 & Hg4);
    [apply Hr3 | assumption |].
  exists h4. unfold and_then at 1 2 3, bind, get_heap. unfold CBB_add_u8. rewrite E, E2.
  unfold and_then, bind. rewrite E3.
  replace (blen (buffer h2)) with (len (c ++ [tag])) by (rewrite <- Hc2; apply len_content; assumption).
  change (len [0]) with 1 in E4. rewrite E4. split; [reflexivity |].
  split; [assumption |]. split; [assumption |]. split; [| split].
  - intros i Hi. rewrite Hf4, Hf3, Hf2, Hfr by assumption. reflexivity.
  - unfold same_but_child in *. congruence.
  - eapply grown_trans; [exact Hgt |]. eapply grown_trans; eassumption.
Qed.
(** ** ASN.1 integers *)

(** What the loop of [CBB_add_asn1_uint64] emits for the low [n] octets. *)
Definition octets_out (n : nat) (value : Z) (started : bool) : list Z :=
  let v := value mod 256 ^ Z.of_nat n in
  if started then be_enc n v else if v =? 0 then [] else uint_body v.

Lemma uint_body_lead n byte r : 0 < byte < 256 -> 0 <= r < 256 ^ Z.of_nat n ->
  uint_body (byte * 256 ^ Z.of_nat n + r) =
  (if byte <? 128 then [] else [0]) ++ byte :: be_enc n r.
Proof.
  intros Hb Hr. unfold uint_body. set (q := 256 ^ Z.of_nat n) in *.
  assert (Hlead : be_enc (S n) (byte * q + r) = byte :: be_enc n r).
  { rewrite be_enc_cons. fold q. rewrite Z.div_add_l, Z.div_small, Z.add_0_r, Z.mod_small by lia.
    f_equal. rewrite <- be_enc_mod. fold q. rewrite Z.add_comm, Z.mod_add, Z.mod_small by lia. reflexivity. }
  assert (Hq : 256 ^ (Z.of_nat n + 1) = 256 * q) by (rewrite Z.pow_add_r by lia; subst q; lia).
  destruct (Z.ltb_spec byte 128).
  - rewrite (uint_octets_spec (S n)); [exact Hlead | lia | lia | |].
    + replace (Z.of_nat (S n) - 1) with (Z.of_nat n) by lia. fold q. nia.
    + destruct n as [| n]; [now left | right].
      replace (Z.of_nat (S (S n)) - 2) with (Z.of_nat n) by lia.
      subst q. rewrite Nat2Z.inj_succ, Z.pow_succ_r by lia.
      rewrite Nat2Z.inj_succ, Z.pow_succ_r in Hr by lia. nia.
  - rewrite (uint_octets_spec (S (S n))); [| lia | lia | |].
    + rewrite be_enc_cons, Hlead. cbn [app]. f_equal.
      replace (Z.of_nat (S n)) with (Z.of_nat n + 1) by lia. rewrite Hq, Z.div_small by nia. reflexivity.
    + replace (Z.of_nat (S (S n)) - 1) with (Z.of_nat n + 1) by lia. rewrite Hq. nia.
    + right. replace (Z.of_nat (S (S n)) - 2) with (Z.of_nat n) by lia. fold q. nia.
Qed.

Lemma octet_value n value : Z.land (Z.shiftr value (8 * Z.of_nat n)) 255 = (value / 256 ^ Z.of_nat n) mod 256.
Proof.
  change 255 with (Z.ones 8). rewrite Z.land_ones, Z.shiftr_div_pow2 by lia.
  change 256 with (2 ^ 8). rewrite <- Z.pow_mul_r by lia. reflexivity.
Qed.

Lemma split_octet n value : 0 <= value -> value mod 256 ^ Z.of_nat (S n) =
  (value / 256 ^ Z.of_nat n) mod 256 * 256 ^ Z.of_nat n + value mod 256 ^ Z.of_nat n.
Proof.
  intros Hv. rewrite Nat2Z.inj_succ, Z.pow_succ_r, Z.mul_comm by lia.
  rewrite Z.rem_mul_r by lia. lia.
Qed.

(** The emitted octets, one step. *)
Lemma octets_out_S n value started : 0 <= value ->
  let byte := (value / 256 ^ Z.of_nat n) mod 256 in
  octets_out (S n) value started =
  if negb started && (byte =? 0) then octets_out n value started
  else (if negb started && negb (Z.land byte 128 =? 0) then [0] else []) ++ byte :: octets_out n value true.
Proof.
  intros Hv byte. unfold octets_out. rewrite split_octet by assumption. fold byte.
  assert (Hb : 0 <= byte < 256) by (apply Z.mod_pos_bound; lia).
  pose proof (Z.mod_pos_bound value (256 ^ Z.of_nat n) ltac:(lia)) as Hr.
  set (r := value mod 256 ^ Z.of_nat n) in *.
  destruct started; cbn [negb andb].
  - rewrite be_enc_cons. cbn [app]. f_equal.
    + rewrite Z.div_add_l, Z.div_small, Z.add_0_r, Z.mod_small by lia. reflexivity.
    + rewrite <- be_enc_mod, Z.add_comm, Z.mod_add, Z.mod_small by lia. reflexivity.
  - destruct (Z.eqb_spec byte 0) as [-> |]; [reflexivity |].
    destruct (Z.eqb_spec (byte * 256 ^ Z.of_nat n + r) 0); [nia |].
    rewrite uint_body_lead by lia. rewrite high_bit_clear by assumption.
    now destruct (Z.ltb_spec byte 128).
Qed.

Lemma be_enc_1 v : 0 <= v < 256 -> be_enc (Z.to_nat 1) v = [v].
Proof. intros Hv. change (be_enc (Z.to_nat 1) v) with [v mod 256]. now rewrite Z.mod_small. Qed.

Lemma CBB_add_u8_ok p c v h : 0 <= v < 256 -> ready p c h -> room (buffer h) (len c + 1) ->
  exists h1, CBB_add_u8 p v h = Some (true, h1) /\ stepped p (c ++ [v]) h h1.
Proof.
  intros Hv Hr Hroom. destruct (cbb_add_u_ok p c 1 v h) as (h1 & E & Hs & _); rewrite ?be_enc_1 in * by lia;
    try assumption; try lia; [rewrite len_app; exact Hroom | eauto].
Qed.

Lemma stepped_refl p c h : ready p c h -> stepped p c h h.
Proof. intros Hr. split; [exact Hr |]. repeat split; lia. Qed.

Lemma uint64_octets_ok n p : forall c value started h, 0 <= value -> ready p c h ->
  room (buffer h) (len (c ++ octets_out n value started)) ->
  exists h1, asn1_uint64_octets n p value started h =
      Some (true, started || negb (value mod 256 ^ Z.of_nat n =? 0), h1) /\
    stepped p (c ++ octets_out n value started) h h1.
Proof.
  induction n as [| n IH]; intros c value started h Hv Hr Hroom; cbn [asn1_uint64_octets].
  - exists h. change (256 ^ Z.of_nat 0) with 1. rewrite Z.mod_1_r. cbn [Z.eqb negb].
    rewrite orb_false_r. split; [reflexivity |]. unfold octets_out in *. change (256 ^ Z.of_nat 0) with 1 in *.
    rewrite Z.mod_1_r in *. cbn [Z.eqb be_enc] in *. destruct started; rewrite app_nil_r; now apply stepped_refl.
  - rewrite octets_out_S in * by assumption. rewrite octet_value. rewrite split_octet by assumption.
    set (byte := (value / 256 ^ Z.of_nat n) mod 256) in *.
    assert (Hb : 0 <= byte < 256) by (apply Z.mod_pos_bound; lia).
    pose proof (Z.mod_pos_bound value (256 ^ Z.of_nat n) ltac:(lia)) as Hm.
    destruct (negb started && (byte =? 0)) eqn:E0.
    + destruct (IH c value started h Hv Hr Hroom) as (h1 & E1 & Hs1). exists h1.
      apply andb_true_iff in E0 as [_ ->%Z.eqb_eq]. rewrite Z.mul_0_l, Z.add_0_l. now split.
    + assert (Hstep : exists h1, (if negb started && negb (Z.land byte 128 =? 0) then CBB_add_u8 p 0 else done true) h
                = Some (true, h1) /\ stepped p (c ++ (if negb started && negb (Z.land byte 128 =? 0) then [0] else [])) h h1).
      { destruct (negb started && negb (Z.land byte 128 =? 0)).
        - apply CBB_add_u8_ok; [lia | assumption |]. eapply room_le; [| exact Hroom].
          rewrite !len_app, len_cons. change (len [0]) with 1. pose_lens. lia.
        - exists h. rewrite app_nil_r. split; [reflexivity | now apply stepped_refl]. }
      set (pad := if _ && _ then [0] else []) in *.
      destruct Hstep as (h1 & E1 & Hs1). pose proof Hs1 as (Hr1 & _ & _ & Hg1).
      assert (Hroom1 : room (buffer h1) (len (((c ++ pad) ++ [byte]) ++ octets_out n value true)))
        by (rewrite <- !app_assoc; eapply room_grown; eassumption).
      destruct (CBB_add_u8_ok p (c ++ pad) byte h1 Hb Hr1) as (h2 & E2 & Hs2).
      { eapply room_le; [| exact Hroom1]. rewrite !len_app. change (len [byte]) with 1. pose_lens. lia. }
      pose proof Hs2 as (Hr2 & _ & _ & Hg2).
      destruct (IH ((c ++ pad) ++ [byte]) value true h2 Hv Hr2) as (h3 & E3 & Hs3); [eapply room_grown; eassumption |].
      exists h3. unfold bind. rewrite E1. cbn [negb]. rewrite E2. cbn [negb]. rewrite E3. split.
      * do 3 f_equal. cbn [orb]. destruct started; [reflexivity |]. cbn [negb andb] in E0.
        destruct (Z.eqb_spec byte 0); [discriminate |]. symmetry. cbn [orb]. apply negb_true_iff, Z.eqb_neq. nia.
      * rewrite <- !app_assoc in Hs3. eapply stepped_trans; [exact Hs1 |]. eapply stepped_trans; eassumption.
Qed.
Lemma add_asn1_uint64_ok p c v h : 0 <= v < 2 ^ 64 -> (S p <= max_cbbs)%nat -> ready p c h ->
  room (buffer h) (len (c ++ der_element CBS_ASN1_INTEGER (uint_body v))) ->
  exists h1, CBB_add_asn1_uint64 p (S p) v h = Some (true, h1) /\
    stepped p (c ++ der_element CBS_ASN1_INTEGER (uint_body v)) h h1.
Proof.
  intros Hv Hp Hr Hroom.
  assert (Ht : low_tag CBS_ASN1_INTEGER) by (split; [unfold byte_ok, CBS_ASN1_INTEGER; lia | discriminate]).
  assert (Hlen : len (uint_body v) <= 100).
  { unfold uint_body. rewrite be_enc_len. pose proof (uint_octets_bounds v ltac:(lia)) as (Hk & _ & [Hl | Hl]); [lia |].
    destruct (Z.le_gt_cases (Z.of_nat (uint_octets v)) 100); [lia |].
    assert (256 ^ 98 <= 256 ^ (Z.of_nat (uint_octets v) - 2)) by (apply Z.pow_le_mono_r; lia).
    assert (2 ^ 64 < 256 ^ 98) by reflexivity. lia. }
  assert (Hel : c ++ der_element CBS_ASN1_INTEGER (uint_body v) =
    (c ++ [CBS_ASN1_INTEGER]) ++ prefixed true (length [0]) (uint_body v)) by (rewrite <- app_assoc; reflexivity).
  pose proof (len_nonneg (der_length (len (uint_body v)))) as Hdl.
  assert (Hroom1 : room (buffer h) (len c + 2 + len (uint_body v))).
  { eapply room_le; [| exact Hroom]. unfold der_element. rewrite len_app, len_cons, len_app.
    unfold der_length. destruct (Z.ltb_spec (len (uint_body v)) 128); [| lia].
    change (len [len (uint_body v)]) with 1. lia. }
  pose proof (len_nonneg (uint_body v)).
  destruct (add_asn1_ok p c CBS_ASN1_INTEGER h Ht Hp Hr) as (h1 & E1 & Hop1); [eapply room_le; [| exact Hroom1]; lia |].
  pose proof Hop1 as (Hr1 & Ho1 & Hf1 & Hs1 & Hg1).
  set (cc := (c ++ [CBS_ASN1_INTEGER]) ++ [0]) in *.
  assert (Hcc : len cc = len c + 2) by (unfold cc; rewrite !len_app; reflexivity || (change (len [CBS_ASN1_INTEGER]) with 1; change (len [0]) with 1; lia)).
  assert (Hvm : v mod 256 ^ Z.of_nat 8 = v) by (apply Z.mod_small; change (256 ^ Z.of_nat 8) with (2 ^ 64); lia).
  destruct (uint64_octets_ok 8 (S p) cc v false h1 ltac:(lia) Hr1) as (h2 & E2 & Hs2).
  { eapply room_grown; [exact Hg1 |]. eapply room_le; [| exact Hroom1]. rewrite len_app, Hcc.
    unfold octets_out. rewrite Hvm. destruct (v =? 0); [rewrite len_nil; lia | lia]. }
  pose proof Hs2 as (Hr2 & _ & _ & Hg2).
  assert (Hpad : exists h3, (if negb (negb (v =? 0)) then CBB_add_u8 (S p) 0 else done true) h2 = Some (true, h3) /\
            stepped (S p) (cc ++ uint_body v) h1 h3).
  { unfold octets_out in *. rewrite Hvm in *. destruct (Z.eqb_spec v 0) as [-> | Hne]; cbn [negb].
    - rewrite app_nil_r in *. change (uint_body 0) with [0].
      destruct (CBB_add_u8_ok (S p) cc 0 h2 ltac:(lia) Hr2) as (h3 & E3 & Hs3).
      + eapply room_grown; [exact (grown_trans _ _ _ Hg1 Hg2) |]. eapply room_le; [| exact Hroom1].
        rewrite Hcc. change (len (uint_body 0)) with 1. lia.
      + exists h3. split; [exact E3 |]. eapply stepped_trans; eassumption.
    - exists h2. split; [reflexivity | exact Hs2]. }
  destruct Hpad as (h3 & E3 & Hs3). unfold cc in Hs3. rewrite <- app_assoc in Hs3.
  assert (Hdone : stepped p (c ++ der_element CBS_ASN1_INTEGER (uint_body v)) h h3).
  { rewrite Hel in *. eapply child_done; try eassumption; [reflexivity | split; [reflexivity | lia]]. }
  destruct (flush_ready p _ h3 (proj1 Hdone)) as (h4 & E4 & Hs4 & _).
  exists h4. split; [| eapply stepped_trans; eassumption].
  unfold CBB_add_asn1_uint64, and_then, bind. rewrite E1, E2, Hvm. cbn [orb negb].
  rewrite E3. exact E4.
Qed.

(** ** Structured output

    [item] is what a client writes: raw bytes, fixed-width integers, vectors
    with an [n]-byte length, DER elements and DER integers. [ser] is the
    serialisation it denotes; [write_item] the calls that produce it. *)

Inductive item : Type :=
| IBytes (l : list Z)
| IInt (n : Z) (v : Z)
| IPrefixed (n : Z) (body : list item)
| IAsn1 (tag : Z) (body : list item)
| IUint64 (v : Z).

Fixpoint ser (it : item) : list Z :=
  match it with
  | IBytes l => l
  | IInt n v => be_enc (Z.to_nat n) v
  | IPrefixed n body => let s := flat_map ser body in be_enc (Z.to_nat n) (len s) ++ s
  | IAsn1 tag body => der_element tag (flat_map ser body)
  | IUint64 v => der_element CBS_ASN1_INTEGER (uint_body v)
  end.

(** Values and lengths fit their fields. *)
Fixpoint encodable (it : item) : Prop :=
  match it with
  | IBytes l => True
  | IInt n v => 1 <= n <= 4 /\ 0 <= v < 256 ^ n
  | IPrefixed n body =>
      1 <= n <= 3 /\ len (flat_map ser body) < 256 ^ n /\
      (fix all l := match l with [] => True | x :: l => encodable x /\ all l end) body
  | IAsn1 tag body =>
      low_tag tag /\ len (flat_map ser body) <= 4294967294 /\
      (fix all l := match l with [] => True | x :: l => encodable x /\ all l end) body
  | IUint64 v => 0 <= v < 2 ^ 64
  end.

(** Nesting of CBBs an item needs. *)
Fixpoint depth (it : item) : nat :=
  match it with
  | IBytes _ | IInt _ _ => 0
  | IPrefixed _ body | IAsn1 _ body => S (fold_right (fun x n => Nat.max (depth x) n) 0%nat body)
  | IUint64 _ => 1
  end.

Fixpoint write_item (it : item) (p : nat) : op bool :=
  match it with
  | IBytes l => CBB_add_bytes p l
  | IInt n v => cbb_add_u p v n
  | IPrefixed n body =>
      cbb_add_length_prefixed p (S p) n &&>
      (fix all l := match l with [] => done true | x :: l => write_item x (S p) &&> all l end) body
  | IAsn1 tag body =>
      CBB_add_asn1 p (S p) tag &&>
      (fix all l := match l with [] => done true | x :: l => write_item x (S p) &&> all l end) body
  | IUint64 v => CBB_add_asn1_uint64 p (S p) v
  end.

Fixpoint write_items (l : list item) (p : nat) : op bool :=
  match l with [] => done true | x :: l => write_item x p &&> write_items l p end.

(** A whole builder: [CBB_init], the items, [CBB_finish]. *)
Definition build (initial_capacity : Z) (l : list item) (h : heap) : option (option (list Z)) :=
  let (ok, h) := CBB_init 0 initial_capacity h in
  if negb ok then Some None else
  match write_items l 0 h with
  | Some (true, h) => match CBB_finish 0 h with Some (out, _) => Some out | None => None end
  | Some (false, _) => Some None
  | None => None
  end.

Definition item_ok (it : item) : Prop := forall p c h,
  encodable it -> (p + depth it <= max_cbbs)%nat -> ready p c h ->
  room (buffer h) (len (c ++ ser it)) ->
  exists h1, write_item it p h = Some (true, h1) /\ stepped p (c ++ ser it) h h1.

Lemma write_items_ok l : Forall item_ok l -> forall p c h,
  Forall encodable l -> (forall x, In x l -> (p + depth x <= max_cbbs)%nat) -> ready p c h ->
  room (buffer h) (len (c ++ flat_map ser l)) ->
  exists h1, write_items l p h = Some (true, h1) /\ stepped p (c ++ flat_map ser l) h h1.
Proof.
  induction 1 as [| x l Hx Hl IH]; intros p c h He Hd Hr Hroom; cbn [write_items flat_map] in *.
  - exists h. rewrite app_nil_r. split; [reflexivity | now apply stepped_refl].
  - inversion_clear He as [| ? ? Hex Hel]. rewrite app_assoc in *.
    destruct (Hx p c h Hex (Hd x (or_introl eq_refl)) Hr) as (h1 & E1 & Hs1).
    { eapply room_le; [| exact Hroom]. rewrite (len_app (c ++ ser x)). pose_lens. lia. }
    pose proof Hs1 as (Hr1 & _ & _ & Hg1).
    destruct (IH p (c ++ ser x) h1 Hel (fun y Hy => Hd y (or_intror Hy)) Hr1) as (h2 & E2 & Hs2);
      [eapply room_grown; eassumption |].
    exists h2. unfold and_then, bind. rewrite E1. split; [exact E2 | eapply stepped_trans; eassumption].
Qed.

(** Induction over nested items. *)
Lemma item_ind' (P : item -> Prop) :
  (forall l, P (IBytes l)) -> (forall n v, P (IInt n v)) ->
  (forall n body, Forall P body -> P (IPrefixed n body)) ->
  (forall tag body, Forall P body -> P (IAsn1 tag body)) ->
  (forall v, P (IUint64 v)) -> forall it, P it.
Proof.
  intros H1 H2 H3 H4 H5. fix IH 1. intros [l | n v | n body | tag body | v].
  - apply H1.
  - apply H2.
  - apply H3. induction body as [| x body IHb]; constructor; [apply IH | exact IHb].
  - apply H4. induction body as [| x body IHb]; constructor; [apply IH | exact IHb].
  - apply H5.
Qed.

Lemma encodable_all body :
  (fix all l := match l with [] => True | x :: l => encodable x /\ all l end) body <-> Forall encodable body.
Proof.
  induction body as [| x body IH]; [split; constructor |]. rewrite Forall_cons_iff. now rewrite <- IH.
Qed.

Lemma write_items_fix body p h :
  (fix all l := match l with [] => done true | x :: l => write_item x p &&> all l end) body h =
  write_items body p h.
Proof.
  revert h. induction body as [| x body IH]; intros h; [reflexivity |].
  cbn [write_items]. unfold and_then, bind. destruct (write_item x p h) as [[[|] h1] |]; [apply IH | reflexivity | reflexivity].
Qed.

Lemma depth_body (body : list item) x : In x body ->
  (depth x <= fold_right (fun x n => Nat.max (depth x) n) 0%nat body)%nat.
Proof.
  induction body as [| y body IH]; [intros [] |]. cbn [fold_right].
  intros [-> | Hx]; [lia | specialize (IH Hx); lia].
Qed.
Lemma body_items_ok (body : list item) p pre ph h1 c0 :
  Forall item_ok body -> Forall encodable body ->
  (S p + fold_right (fun x n => Nat.max (depth x) n) 0 body <= max_cbbs)%nat ->
  ready (S p) c0 h1 -> c0 = pre ++ ph -> room (buffer h1) (len (pre ++ ph ++ flat_map ser body)) ->
  exists h2, (fix all l := match l with [] => done true | x :: l => write_item x (S p) &&> all l end) body h1
    = Some (true, h2) /\ stepped (S p) (pre ++ ph ++ flat_map ser body) h1 h2.
Proof.
  intros Hi He Hd Hr -> Hroom. rewrite app_assoc in Hroom.
  destruct (write_items_ok body Hi (S p) (pre ++ ph) h1 He) as (h2 & E & Hs); try assumption.
  - intros x Hx. pose proof (depth_body body x Hx). lia.
  - exists h2. rewrite write_items_fix, app_assoc. now split.
Qed.

Lemma write_item_ok it : item_ok it.
Proof.
  induction it as [l | n v | n body IH | tag body IH | v] using item_ind';
    intros p c h He Hd Hr Hroom; cbn [write_item ser encodable depth] in *.
  - destruct (CBB_add_bytes_ok p c l h Hr Hroom) as (h1 & E & Hs & _). eauto.
  - destruct (cbb_add_u_ok p c n v h ltac:(lia) ltac:(lia) Hr Hroom) as (h1 & E & Hs & _). eauto.
  - destruct He as (Hn & Hl & Hall). apply encodable_all in Hall. set (s := flat_map ser body) in *.
    rewrite !len_app, be_enc_len, Z2Nat.id in Hroom by lia. pose proof (len_nonneg s).
    destruct (add_length_prefixed_ok p c n h Hn ltac:(lia) Hr) as (h1 & E1 & Hop);
      [eapply room_le; [| exact Hroom]; lia |].
    pose proof Hop as (Hr1 & _ & _ & _ & Hg1).
    assert (Hz : len (repeat 0 (Z.to_nat n)) = n) by (rewrite len_repeat; lia).
    destruct (body_items_ok body p c (repeat 0 (Z.to_nat n)) h1 _ IH Hall ltac:(lia) Hr1 eq_refl) as (h2 & E2 & Hs2).
    { eapply room_grown; [exact Hg1 |]. fold s. rewrite !len_app, Hz. exact Hroom. }
    exists h2. unfold and_then, bind. rewrite E1. split; [exact E2 |].
    pose proof (child_done p c _ s false h h1 h2 Hop Hs2) as Hdone. rewrite Hz, repeat_length in Hdone.
    apply Hdone; try lia. unfold prefixed. rewrite !len_app, be_enc_len, Z2Nat.id by lia. exact Hroom.
  - destruct He as (Ht & Hl & Hall). apply encodable_all in Hall. set (s := flat_map ser body) in *.
    pose proof (len_nonneg s).
    assert (Hel : c ++ der_element tag s = (c ++ [tag]) ++ prefixed true (length [0]) s) by (rewrite <- app_assoc; reflexivity).
    assert (Hroom1 : room (buffer h) (len c + 2 + len s)).
    { eapply room_le; [| exact Hroom]. unfold der_element. rewrite len_app, len_cons, len_app.
      unfold der_length. destruct (len s <? 128); rewrite len_cons; pose_lens; lia. }
    destruct (add_asn1_ok p c tag h Ht ltac:(lia) Hr) as (h1 & E1 & Hop);
      [eapply room_le; [| exact Hroom1]; lia |].
    pose proof Hop as (Hr1 & _ & _ & _ & Hg1).
    destruct (body_items_ok body p (c ++ [tag]) [0] h1 _ IH Hall ltac:(lia) Hr1 eq_refl) as (h2 & E2 & Hs2).
    { eapply room_grown; [exact Hg1 |]. fold s. rewrite !len_app. eapply room_le; [| exact Hroom1].
      change (len [tag]) with 1. change (len [0]) with 1. lia. }
    exists h2. unfold and_then, bind. rewrite E1. split; [exact E2 |].
    rewrite Hel in *. eapply child_done; try eassumption; [reflexivity | split; [reflexivity | lia]].
  - apply add_asn1_uint64_ok; try assumption; lia.
Qed.

Lemma CBB_init_ready cap0 h : 0 <= cap0 < 2 ^ 64 -> (forall k, alloc_ok k = true) ->
  exists h1, CBB_init 0 cap0 h = (true, h1) /\ ready 0 [] h1 /\ can_resize (buffer h1) = true /\
    is_top_level (cbbs h1 0%nat) = true.
Proof.
  intros Hc Ha. unfold CBB_init, cbb_init. rewrite !Ha. cbn [negb]. rewrite andb_false_r.
  eexists. split; [reflexivity |]. cbn [set_cbb set_buffer buffer cbbs can_resize Nat.eqb is_top_level].
  split; [| now split]. apply settled_ready; try reflexivity; [lia |].
  unfold buffer_ok. cbn [buffer set_cbb set_buffer blen cap buf error]. rewrite len_uninit by lia.
  repeat split; lia.
Qed.

Lemma build_ok cap0 l h : 0 <= cap0 < 2 ^ 64 -> (forall k, alloc_ok k = true) ->
  Forall encodable l -> (forall x, In x l -> (depth x <= max_cbbs)%nat) ->
  len (flat_map ser l) < 2 ^ 64 ->
  build cap0 l h = Some (Some (flat_map ser l)).
Proof.
  intros Hc Ha He Hd Hlen. unfold build.
  destruct (CBB_init_ready cap0 h Hc Ha) as (h1 & -> & Hr & Hres & Htop). cbn [negb].
  destruct (write_items_ok l ltac:(apply Forall_forall; intros; apply write_item_ok) 0%nat [] h1 He Hd Hr)
    as (h2 & -> & Hr2 & _ & Hs2 & Hg2); [split; [exact Hlen | right; auto] |].
  destruct (flush_ready 0%nat _ h2 Hr2) as (h3 & E3 & _ & Hok3 & Hc3 & _).
  unfold CBB_finish, bind, get_heap, put_heap, done.
  replace (is_top_level (cbbs h2 0%nat)) with true
    by (unfold same_but_child, with_child in Hs2; injection Hs2; congruence).
  cbn [negb]. rewrite E3. cbn [negb]. fold (content (buffer h3)). now rewrite Hc3.
Qed.

(** C1: the builder implements its specification: when memory is available,
    any tree of raw bytes, fixed-width integers, length-prefixed vectors, DER
    elements and DER integers whose values and lengths fit their fields is
    finished as exactly its serialisation, whatever the initial capacity, the
    nesting (up to the number of CBBs), and the reallocations and moves of
    contents that long lengths cause. *)
Theorem cbb_build_serialises cap0 l h :
  0 <= cap0 < 2 ^ 64 -> (forall k, alloc_ok k = true) ->
  Forall encodable l -> (forall x, In x l -> (depth x <= max_cbbs)%nat) ->
  len (flat_map ser l) < 2 ^ 64 ->
  build cap0 l h = Some (Some (flat_map ser l)).
Proof. apply build_ok. Qed.

(** What CBB writes CBS reads: a DER element built from any items is parsed
    back as the serialisation of its body with nothing left over, and a DER
    integer as its value. *)
Lemma cbb_cbs_roundtrip cap0 tag body v h :
  0 <= cap0 < 2 ^ 64 -> (forall k, alloc_ok k = true) ->
  encodable (IAsn1 tag body) -> (depth (IAsn1 tag body) <= max_cbbs)%nat -> (1 <= max_cbbs)%nat ->
  bytes_ok (flat_map ser body) -> 0 <= v < 2 ^ 64 ->
  exists out, build cap0 [IAsn1 tag body; IUint64 v] h = Some (Some out) /\
    Cbs.bind (CBS_get_asn1 tag) (fun x => Cbs.bind CBS_get_asn1_uint64 (fun y => Cbs.ret (x, y))) out =
    (Some (flat_map ser body, v), []).
Proof.
  intros Hc Ha He Hd Hm Hb Hv. exists (flat_map ser [IAsn1 tag body; IUint64 v]).
  assert (Hi : len (uint_body v) <= 9).
  { unfold uint_body. rewrite be_enc_len. pose proof (uint_octets_bounds v ltac:(lia)) as (Hk & _ & [Hl | Hl]); [lia |].
    destruct (Z.le_gt_cases (Z.of_nat (uint_octets v)) 9); [lia |].
    assert (256 ^ 8 <= 256 ^ (Z.of_nat (uint_octets v) - 2)) by (apply Z.pow_le_mono_r; lia). lia. }
  destruct He as (Ht & Hl & Hall). pose proof (len_nonneg (flat_map ser body)) as Hnn.
  pose proof (len_nonneg (uint_body v)) as Hnv. split.
  - apply build_ok; try assumption.
    + constructor; [exact (conj Ht (conj Hl Hall)) | repeat constructor; lia].
    + intros x [<- | [<- | []]]; assumption.
    + cbn [flat_map ser]. unfold der_element. rewrite app_nil_r, !len_app, !len_cons, !len_app.
      destruct (der_length_cases (len (flat_map ser body)) ltac:(lia)) as [[_ ->] | (k & Hk & -> & _)];
        destruct (der_length_cases (len (uint_body v)) ltac:(lia)) as [[_ ->] | (k' & Hk' & -> & _)];
        rewrite ?len_cons, ?len_nil, ?be_enc_len; lia.
  - assert (Hdi : bytes_ok (der_element CBS_ASN1_INTEGER (uint_body v) ++ [])).
    { rewrite app_nil_r. apply der_element_bytes; [unfold byte_ok, CBS_ASN1_INTEGER; lia | apply be_enc_bytes | lia]. }
    assert (Hall' : bytes_ok (der_element tag (flat_map ser body) ++ der_element CBS_ASN1_INTEGER (uint_body v) ++ []))
      by (apply bytes_ok_app; split; [apply der_element_bytes; [apply Ht | assumption | lia] | exact Hdi]).
    cbn [flat_map ser]. unfold Cbs.bind at 1.
    rewrite (proj2 (cbs_get_asn1_some _ tag _ _ Hall')) by (split; [reflexivity | split; [lia | exact Ht]]).
    unfold Cbs.bind. rewrite (proj2 (get_asn1_uint64_iff _ v [] Hdi)) by (split; [reflexivity | assumption]).
    reflexivity.
Qed.

(** ** Errors *)

Lemma flush_of_error p h : error (buffer h) = true -> CBB_flush p h = Some (false, h).
Proof.
  intros He. unfold CBB_flush. destruct max_cbbs; cbn [CBB_flush_fuel]; now rewrite He, orb_true_r.
Qed.

(** Errors are caught and sticky. Once the shared buffer has the error flag,
    every further addition to any CBB reports failure and keeps the flag, and
    [CBB_finish] yields nothing. A vector too long for its length prefix ([k]
    length bytes, at least [256^k] bytes of contents) makes the flush of its
    parent fail and sets the flag. *)
Lemma cbb_errors :
  (forall it p h,
    error (buffer h) = true ->
      (exists h', write_item it p h = Some (false, h') /\ error (buffer h') = true) /\
      (exists h', CBB_finish p h = Some (None, h'))) /\
  (forall p h pre ph body,
    ready (S p) (pre ++ ph ++ body) h -> open_on p pre (len ph) false h -> 1 <= len ph ->
      256 ^ len ph <= len body ->
      exists h', CBB_flush_fuel (max_cbbs - p) p h = Some (false, h') /\ error (buffer h') = true).
Proof.
  split.
  { intros it p h He. pose proof (flush_of_error p h He) as Hf. split.
    - assert (Hthen : forall m, exists h', (CBB_flush p &&> m) h = Some (false, h') /\ error (buffer h') = true)
        by (intros m; exists h; unfold and_then, bind; now rewrite Hf).
      assert (Hthen2 : forall m k, exists h', ((CBB_flush p &&> m) &&> k) h = Some (false, h') /\ error (buffer h') = true)
        by (intros m k; exists h; unfold and_then, bind; now rewrite Hf).
      assert (Hasn1 : forall tag k, exists h', (CBB_add_asn1 p (S p) tag &&> k) h = Some (false, h') /\ error (buffer h') = true).
      { intros tag k. unfold CBB_add_asn1. destruct (_ || _).
        - eexists. split; reflexivity.
        - exists h. unfold and_then, bind. now rewrite Hf. }
      destruct it; cbn [write_item]; [apply Hthen | apply Hthen | apply Hthen2 | apply Hasn1 | apply Hasn1].
    - unfold CBB_finish, bind, get_heap. destruct (negb (is_top_level (cbbs h p))); [now exists h |].
      rewrite Hf. now exists h. }
  { intros p h pre ph body Hr (Hb & Hch & Ho & Hpe & Has) Hph Hbig.
    pose proof (ready_no_error _ _ _ Hr) as He.
    destruct Hr as (Hp & Hbq & h' & E & Hok & Hc & Hq & Hf & Hg).
    replace (max_cbbs - p)%nat with (S (max_cbbs - S p)) by lia. cbn [CBB_flush_fuel].
    rewrite Hb, He, Hch, Hpe. cbn [negb orb]. destruct (Z.eqb_spec (len ph) 0); [lia |].
    rewrite E. cbn [negb orb]. rewrite Hq. cbn [with_child offset pending_is_asn1]. rewrite Ho, Has.
    pose proof (len_content _ Hok) as Hlen. rewrite Hc, !len_app in Hlen.
    pose proof (len_nonneg body). pose proof (len_nonneg pre).
    assert (Hcap : cap (buffer h') < 2 ^ 64 /\ blen (buffer h') <= cap (buffer h')) by (destruct Hok as (? & _ & ? & _); lia).
    assert (Hbuf : len (buf (buffer h')) = cap (buffer h')) by apply Hok.
    rewrite wrap_small by lia.
    destruct (Z.ltb_spec (len pre + len ph) (len pre)); [lia |].
    destruct (Z.ltb_spec (blen (buffer h')) (len pre + len ph)); [lia |]. cbn [orb].
    replace (blen (buffer h') - (len pre + len ph)) with (len body) by lia.
    unfold flush_write. rewrite Hq. cbn [with_child offset pending_len_len]. rewrite Ho, Hpe.
    rewrite store_be_spec by (rewrite ?Z2Nat.id; lia). rewrite Z2Nat.id by lia.
    assert (0 < 256 ^ len ph) by (apply Z.pow_pos_nonneg; lia).
    destruct (Z.eqb_spec (len body / 256 ^ len ph) 0) as [E0 | E0].
    - apply Z.div_small_iff in E0; lia.
    - cbn [negb]. eexists. split; reflexivity. }
Qed.

(** C38: what CBB writes CBS reads: a DER element built from any items is parsed back as the serialisation of its body with nothing left over, and a DER integer as its value. Errors are caught and sticky: once the shared buffer has the error flag every further addition fails and keeps it and [CBB_finish] yields nothing, and a vector too long for its length prefix sets the flag when its parent is flushed. *)
Theorem cbb_contract :
  (forall cap0 tag body v h,
    0 <= cap0 < 2 ^ 64 -> (forall k, alloc_ok k = true) ->
      encodable (IAsn1 tag body) -> (depth (IAsn1 tag body) <= max_cbbs)%nat -> (1 <= max_cbbs)%nat ->
      bytes_ok (flat_map ser body) -> 0 <= v < 2 ^ 64 ->
      exists out, build cap0 [IAsn1 tag body; IUint64 v] h = Some (Some out) /\
        Cbs.bind (CBS_get_asn1 tag) (fun x => Cbs.bind CBS_get_asn1_uint64 (fun y => Cbs.ret (x, y))) out =
        (Some (flat_map ser body, v), [])) /\
  ((forall it p h,
        error (buffer h) = true ->
          (exists h', write_item it p h = Some (false, h') /\ error (buffer h') = true) /\
          (exists h', CBB_finish p h = Some (None, h'))) /\
      (forall p h pre ph body,
        ready (S p) (pre ++ ph ++ body) h -> open_on p pre (len ph) false h -> 1 <= len ph ->
          256 ^ len ph <= len body ->
          exists h', CBB_flush_fuel (max_cbbs - p) p h = Some (false, h') /\ error (buffer h') = true)).
Proof. split; [exact (@cbb_cbs_roundtrip) | exact (@cbb_errors)]. Qed.
End Cbb.

(** ** Concrete runs *)

Definition always (_ : Z) : bool := true.
Definition zeros (_ : nat) : Z := 0.
Definition empty_heap : heap := mk_heap (mk_buffer [] 0 0 true false) (fun _ => CBB_zero).

Lemma cbb_build_serialises_witness :
  build always zeros 4 1 [IAsn1 48 [IUint64 200]; IPrefixed 2 [IBytes [7]; IInt 3 5]] empty_heap =
  Some (Some [48; 4; 2; 2; 0; 200; 0; 4; 7; 0; 0; 5]).
Proof.
  apply (cbb_build_serialises always zeros 4 1 [IAsn1 48 [IUint64 200]; IPrefixed 2 [IBytes [7]; IInt 3 5]] empty_heap).
  - lia.
  - reflexivity.
  - repeat constructor; cbn; unfold byte_ok, low_tag, byte_ok; lia || discriminate.
  - cbn. intros x [<- | [<- | []]]; cbn; lia.
  - reflexivity.
Defined.


(** A one-byte length prefix over 256 bytes. *)
Definition overfull : heap :=
  mk_heap (mk_buffer (repeat 0 257) 257 257 true false)
    (fun p => match p with
              | O => mk_cbb true (Some 1%nat) 0 0 false true
              | _ => mk_cbb true None 0 1 false false
              end).

Lemma cbb_contract_witness :
  (exists out, build always zeros 4 0 [IAsn1 48 [IBytes [1; 2; 3]]; IUint64 77] empty_heap = Some (Some out) /\
      Cbs.bind (CBS_get_asn1 48) (fun x => Cbs.bind CBS_get_asn1_uint64 (fun y => Cbs.ret (x, y))) out =
      (Some ([1; 2; 3], 77), [])) /\
  ((exists h', CBB_finish always zeros 4 0 (mk_heap (mk_buffer [] 0 0 true true) (fun _ => mk_cbb true None 0 0 false true)) = Some (None, h')) /\
    (exists h', CBB_flush_fuel always zeros 2 0 overfull = Some (false, h') /\ error (buffer h') = true)).
Proof.
  split.
  { apply (proj1 (cbb_contract always zeros 4) 0 48 [IBytes [1; 2; 3]] 77 empty_heap).
    - lia.
    - reflexivity.
    - cbn. unfold low_tag, byte_ok. repeat split; lia || discriminate.
    - cbn. lia.
    - lia.
    - repeat constructor; unfold byte_ok; lia.
    - lia. }
  { split.
    { apply (proj1 (proj2 (cbb_contract always zeros 4)) (IBytes [1]) 0%nat
        (mk_heap (mk_buffer [] 0 0 true true) (fun _ => mk_cbb true None 0 0 false true))).
      reflexivity. }
    { apply (proj2 (proj2 (cbb_contract always zeros 2)) 0%nat overfull [] [0] (repeat 0 256)).
      - apply settled_ready; try reflexivity; [lia |].
        unfold buffer_ok; cbn [overfull buffer blen cap buf error]. rewrite len_repeat. lia.
      - repeat split.
      - reflexivity || (cbn; lia).
      - rewrite len_repeat. cbn. lia. } }
Defined.
