(* ===== verification/Ber.v ===== *)
(** * BER to DER conversion (crypto/bytestring/ber.c, asn1_compat.c)

    [cbs_find_ber] decides whether a structure needs conversion;
    [cbs_convert_ber] rewrites it through a CBB. Both loops take fuel: every
    iteration and every recursive call works on strictly fewer bytes. *)

From S2P Require Import Prelude Cbs Cbb.
Local Open Scope reader_scope.

Definition kMaxDepth : Z := 2048.

Definition is_string_type (tag : Z) : bool :=
  if negb (Z.land tag 192 =? 0) then false else
  existsb (Z.eqb (Z.land tag 31)) [3; 4; 12; 18; 19; 20; 22; 25; 26; 27; 28; 30].

(** An element that is only a header ending in 0x80. *)
Definition is_indefinite (contents : CBS) (header_len : Z) : bool :=
  (len contents =? header_len) && (0 <? header_len) && (get contents (header_len - 1) =? 128).

(** The [while] loop of [cbs_find_ber] at [depth]. The outer option is the fuel;
    the inner one is [Some ber_found] for the return value 1. *)
Fixpoint cbs_find_ber_loop (fuel : nat) (depth : Z) (inp : CBS) (ber_found : bool)
  : option (option bool) :=
  match fuel with
  | O => None
  | S fuel =>
      if len inp =? 0 then Some (Some ber_found) else
      match CBS_get_any_ber_asn1_element inp with
      | (None, _) => Some None
      | (Some (contents, tag, header_len), inp) =>
          if is_indefinite contents header_len then Some (Some true) else
          if negb (Z.land tag CBS_ASN1_CONSTRUCTED =? 0) then
            if is_string_type tag then Some (Some true) else
            match CBS_skip header_len contents with
            | (None, _) => Some None
            | (Some _, contents) =>
                if kMaxDepth <? depth + 1 then Some None else
                match cbs_find_ber_loop fuel (depth + 1) contents false with
                | None => None
                | Some None => Some None
                | Some (Some ber_found) => cbs_find_ber_loop fuel depth inp ber_found
                end
            end
          else cbs_find_ber_loop fuel depth inp ber_found
      end
  end.

Definition cbs_find_ber (orig_in : CBS) (depth : Z) : option (option bool) :=
  if kMaxDepth <? depth then Some None
  else cbs_find_ber_loop (S (length orig_in)) depth orig_in false.

Definition is_eoc (header_len : Z) (contents : CBS) : bool :=
  (header_len =? 2) && (len contents =? 2) && (get contents 0 =? 0) && (get contents 1 =? 0).

Section Convert.

Variable alloc_ok : Z -> bool.
Variable garbage : nat -> Z.
Variable max_cbbs : nat.

(** [cbs_convert_ber in out string_tag looking_for_eoc depth]: the child CBB an
    element is written to lives at the address after [out]. The result is the
    return value, what is left of [in], and the heap. *)
Fixpoint cbs_convert_ber (fuel : nat) (inp : CBS) (out : nat) (string_tag : Z)
    (looking_for_eoc : bool) (depth : Z) (h : heap) : option (bool * CBS * heap) :=
  if kMaxDepth <? depth then Some (false, inp, h) else
  match fuel with
  | O => None
  | S fuel =>
      if len inp =? 0 then Some (negb looking_for_eoc, inp, h) else
      match CBS_get_any_ber_asn1_element inp with
      | (None, inp) => Some (false, inp, h)
      | (Some (contents, tag, header_len), inp) =>
          if is_eoc header_len contents then Some (looking_for_eoc, inp, h) else
          (** where the contents go, and the string tag of the children *)
          let opened : option (bool * nat * Z * heap) :=
            if negb (string_tag =? 0) then
              if negb (Z.land tag (Z.lnot CBS_ASN1_CONSTRUCTED) =? string_tag)
              then Some (false, out, string_tag, h)
              else Some (true, out, string_tag, h)
            else
              let is_cons_string := negb (Z.land tag CBS_ASN1_CONSTRUCTED =? 0) && is_string_type tag in
              let out_tag := if is_cons_string then Z.land tag (Z.lnot CBS_ASN1_CONSTRUCTED) else tag in
              let child_string_tag := if is_cons_string then out_tag else string_tag in
              match CBB_add_asn1 alloc_ok garbage max_cbbs out (S out) out_tag h with
              | None => None
              | Some (ok, h) => Some (ok, S out, child_string_tag, h)
              end in
          match opened with
          | None => None
          | Some (false, _, _, h) => Some (false, inp, h)
          | Some (true, out_contents, child_string_tag, h) =>
              let written : option (bool * CBS * heap) :=
                if is_indefinite contents header_len then
                  cbs_convert_ber fuel inp out_contents child_string_tag true (depth + 1) h
                else
                match CBS_skip header_len contents with
                | (None, _) => Some (false, inp, h)
                | (Some _, contents) =>
                    if negb (Z.land tag CBS_ASN1_CONSTRUCTED =? 0) then
                      match cbs_convert_ber fuel contents out_contents child_string_tag false (depth + 1) h with
                      | None => None
                      | Some (ok, _, h) => Some (ok, inp, h)
                      end
                    else
                      match CBB_add_bytes alloc_ok garbage max_cbbs out_contents contents h with
                      | None => None
                      | Some (ok, h) => Some (ok, inp, h)
                      end
                end in
              match written with
              | None => None
              | Some (false, inp, h) => Some (false, inp, h)
              | Some (true, inp, h) =>
                  match CBB_flush alloc_ok garbage max_cbbs out h with
                  | None => None
                  | Some (false, h) => Some (false, inp, h)
                  | Some (true, h) => cbs_convert_ber fuel inp out string_tag looking_for_eoc depth h
                  end
              end
          end
      end
  end.

(** [CBS_asn1_ber_to_der]: [Some None] is success with no conversion needed,
    [Some (Some der)] the converted bytes; the outermost option is the fuel. *)
Definition CBS_asn1_ber_to_der (inp : CBS) (h : heap) : option (option (option (list Z))) :=
  match cbs_find_ber inp 0 with
  | None => None
  | Some None => Some None
  | Some (Some false) => Some (Some None)
  | Some (Some true) =>
      let (ok, h) := CBB_init alloc_ok garbage 0 (len inp) h in
      if negb ok then Some None else
      match cbs_convert_ber (S (length inp)) inp 0 0 false 0 h with
      | None => None
      | Some (false, _, _) => Some None
      | Some (true, _, h) =>
          match CBB_finish alloc_ok garbage max_cbbs 0 h with
          | None => None
          | Some (None, _) => Some None
          | Some (Some der, _) => Some (Some (Some der))
          end
      end
  end.

(** The loop of [CBS_get_asn1_implicit_string] over the chunks. *)
Fixpoint implicit_string_loop (fuel : nat) (child : CBS) (inner_tag : Z) (h : heap) : option (bool * heap) :=
  match fuel with
  | O => None
  | S fuel =>
      if len child =? 0 then Some (true, h) else
      match CBS_get_asn1 inner_tag child with
      | (None, _) => Some (false, h)
      | (Some chunk, child) =>
          match CBB_add_bytes alloc_ok garbage max_cbbs 0 chunk h with
          | None => None
          | Some (false, h) => Some (false, h)
          | Some (true, h) => implicit_string_loop fuel child inner_tag h
          end
      end
  end.

(** The result is the string and whether it was copied to [*out_storage]. *)
Definition CBS_get_asn1_implicit_string (inp : CBS) (outer_tag inner_tag : Z) (h : heap)
  : option (option (CBS * bool) * CBS) :=
  if CBS_peek_asn1_tag inp outer_tag then
    match CBS_get_asn1 outer_tag inp with
    | (Some out, inp) => Some (Some (out, false), inp)
    | (None, inp) => Some (None, inp)
    end
  else
  let (ok, h) := CBB_init alloc_ok garbage 0 (len inp) h in
  if negb ok then Some (None, inp) else
  match CBS_get_asn1 (Z.lor outer_tag CBS_ASN1_CONSTRUCTED) inp with
  | (None, inp) => Some (None, inp)
  | (Some child, inp) =>
      match implicit_string_loop (S (length child)) child inner_tag h with
      | None => None
      | Some (false, _) => Some (None, inp)
      | Some (true, h) =>
          match CBB_finish alloc_ok garbage max_cbbs 0 h with
          | None => None
          | Some (None, _) => Some (None, inp)
          | Some (Some data, _) => Some (Some (data, true), inp)
          end
      end
  end.

End Convert.

(** ** Progress of the readers *)

Lemma any_ber_element_split inp el tag hdr rest :
  bytes_ok inp ->
  CBS_get_any_ber_asn1_element inp = (Some (el, tag, hdr), rest) ->
  inp = el ++ rest /\ 2 <= len el /\ 2 <= hdr.
Proof.
  intros Hok. unfold CBS_get_any_ber_asn1_element, cbs_get_any_asn1_element.
  destruct inp as [| t [| lb r]]; [discriminate | discriminate |].
  rewrite get_u8_pair_cons. cbv beta iota zeta.
  inversion_clear Hok as [| ? ? Ht Hok']. inversion_clear Hok' as [| ? ? Hlb Hr]. unfold byte_ok in Hlb.
  destruct (Z.land t 31 =? 31); [discriminate |].
  destruct (Z.land lb 128 =? 0).
  { intros E. apply get_bytes_fin in E; [| lia]. destruct E as (-> & Hl & -> & ->). repeat split; lia. }
  destruct (_ && _ && _).
  { intros E. apply get_bytes_fin in E; [| lia]. destruct E as (-> & Hl & -> & ->). repeat split; lia. }
  rewrite byte_low7 by assumption. pose proof (Z.mod_pos_bound lb 128 ltac:(lia)).
  destruct (Z.eqb_spec (lb mod 128) 0); [discriminate |]. destruct (Z.ltb_spec 4 (lb mod 128)); [discriminate |].
  cbn [orb]. destruct (cbs_get_u (lb mod 128) r) as [[v |] r'] eqn:Eu; [| discriminate].
  apply cbs_get_u_some in Eu as [_ Hv]; [| assumption | lia].
  assert (256 ^ (lb mod 128) <= 256 ^ 4) by (apply Z.pow_le_mono_r; lia).
  destruct (v <? 128); [discriminate |]. destruct (_ =? 0); [discriminate |].
  rewrite wrap_small by lia. destruct (_ <? v); [discriminate |].
  intros E. apply get_bytes_fin in E; [| lia]. destruct E as (-> & Hl & -> & ->). repeat split; lia.
Qed.

Lemma skip_some n cbs rest : 0 <= n -> CBS_skip n cbs = (Some tt, rest) -> rest = drop n cbs /\ n <= len cbs.
Proof.
  intros Hn. unfold CBS_skip, Cbs.bind, cbs_get. destruct (Z.ltb_spec (len cbs) n); [discriminate |].
  intros [= <-]. auto.
Qed.

(** Some element is BER only: of indefinite length, or a constructed string. *)
Inductive has_ber : CBS -> Prop :=
| hb_indefinite inp contents tag hdr rest :
    CBS_get_any_ber_asn1_element inp = (Some (contents, tag, hdr), rest) ->
    is_indefinite contents hdr = true -> has_ber inp
| hb_string inp contents tag hdr rest :
    CBS_get_any_ber_asn1_element inp = (Some (contents, tag, hdr), rest) ->
    Z.land tag CBS_ASN1_CONSTRUCTED <> 0 -> is_string_type tag = true -> has_ber inp
| hb_child inp contents tag hdr rest body :
    CBS_get_any_ber_asn1_element inp = (Some (contents, tag, hdr), rest) ->
    Z.land tag CBS_ASN1_CONSTRUCTED <> 0 -> CBS_skip hdr contents = (Some tt, body) ->
    has_ber body -> has_ber inp
| hb_next inp contents tag hdr rest :
    CBS_get_any_ber_asn1_element inp = (Some (contents, tag, hdr), rest) ->
    has_ber rest -> has_ber inp.

Lemma find_ber_loop_total fuel : forall depth inp found,
  bytes_ok inp -> (length inp < fuel)%nat ->
  exists r, cbs_find_ber_loop fuel depth inp found = Some r /\
    (r = Some true -> found = true \/ has_ber inp).
Proof.
  induction fuel as [| fuel IH]; intros depth inp found Hok Hfuel; [lia |]. cbn [cbs_find_ber_loop].
  destruct (Z.eqb_spec (len inp) 0); [exists (Some found); split; [reflexivity | intros [= ->]; now left] |].
  destruct (CBS_get_any_ber_asn1_element inp) as [[[[contents tag] hdr] |] rest] eqn:E;
    [| exists None; split; [reflexivity | discriminate]].
  destruct (any_ber_element_split inp contents tag hdr rest Hok E) as (Einp & Hel & Hhdr).
  pose proof Hok as Hok'. rewrite Einp in Hok'. apply bytes_ok_app in Hok' as [Hokc Hokr].
  assert (Hrest : (length rest < fuel)%nat) by (rewrite Einp in Hfuel; rewrite length_app in Hfuel; unfold len in Hel; lia).
  destruct (is_indefinite contents hdr) eqn:Ei; [exists (Some true); split; [reflexivity | intros _; right; eapply hb_indefinite; eassumption] |].
  assert (Hnext : forall f, exists r, cbs_find_ber_loop fuel depth rest f = Some r /\ (r = Some true -> f = true \/ has_ber inp)).
  { intros f. destruct (IH depth rest f Hokr Hrest) as (r & Er & Hr). exists r. split; [exact Er |].
    intros Ht. destruct (Hr Ht); [now left | right; eapply hb_next; eassumption]. }
  destruct (Z.eqb_spec (Z.land tag CBS_ASN1_CONSTRUCTED) 0) as [Hcons | Hcons]; cbn [negb]; [apply Hnext |].
  destruct (is_string_type tag) eqn:Es; [exists (Some true); split; [reflexivity | intros _; right; eapply hb_string; eassumption] |].
  destruct (CBS_skip hdr contents) as [[[] |] body] eqn:Ek; [| exists None; split; [reflexivity | discriminate]].
  destruct (skip_some hdr contents body ltac:(lia) Ek) as [Ebody Hle].
  destruct (kMaxDepth <? depth + 1); [exists None; split; [reflexivity | discriminate] |].
  destruct (IH (depth + 1) body false) as (r & Er & Hr).
  { subst body. auto with bytes. }
  { assert (len body = len contents - hdr) by (subst body; apply len_drop; lia).
    rewrite Einp in Hfuel. rewrite length_app in Hfuel. unfold len in *. lia. }
  rewrite Er. destruct r as [f |]; [| exists None; split; [reflexivity | discriminate]].
  destruct (Hnext f) as (r' & Er' & Hr'). exists r'. split; [exact Er' |].
  intros Ht. destruct (Hr' Ht) as [-> | ?]; [| now right].
  right. destruct (Hr eq_refl) as [? | ?]; [discriminate | eapply hb_child; eassumption].
Qed.

(** C34: [cbs_find_ber] terminates on every input (its length is enough fuel) and
    is sound: when it reports that a conversion is needed, some element,
    possibly nested, is of indefinite length or a constructed string. *)
Lemma cbs_find_ber_sound inp : bytes_ok inp ->
  exists r, cbs_find_ber inp 0 = Some r /\ (r = Some true -> has_ber inp).
Proof.
  intros Hok. unfold cbs_find_ber. change (kMaxDepth <? 0) with false. cbv iota.
  destruct (find_ber_loop_total (S (length inp)) 0 inp false Hok ltac:(lia)) as (r & E & Hr).
  exists r. split; [exact E |]. intros Ht. destruct (Hr Ht); [discriminate | assumption].
Qed.

(** It is not complete: a BER element inside one constructed element is
    forgotten when a later constructed sibling has none, because the recursive
    call for the sibling resets [*ber_found] and its parent keeps looping. The
    example is SEQUENCE { SEQUENCE { OCTET STRING of indefinite length },
    SEQUENCE {} }, which [CBS_asn1_ber_to_der] then reports as needing no
    conversion. *)
Lemma cbs_find_ber_incomplete :
  exists inp, bytes_ok inp /\ has_ber inp /\ cbs_find_ber inp 0 = Some (Some false) /\
    (forall h, CBS_asn1_ber_to_der always zeros 8 inp h = Some (Some None)).
Proof.
  exists [48; 8; 48; 4; 36; 128; 0; 0; 48; 0]. split; [repeat constructor; unfold byte_ok; lia |].
  split; [| split; reflexivity].
  eapply (hb_child _ _ 48 2); [reflexivity | discriminate | reflexivity |].
  eapply (hb_child _ _ 48 2); [reflexivity | discriminate | reflexivity |].
  eapply hb_indefinite; reflexivity.
Qed.


