(* ===== verification/Modes.v ===== *)
(** * Stream modes of a 128-bit block cipher (crypto/fipsmodule/modes: ctr.c,
    ofb.c, cfb.c)

    The block function is a parameter ([block128_f] with its key). A [size_t]
    access is modelled by the 8 bytes it moves, the platform being 64-bit. *)

From S2P Require Import Prelude Buffers.
From Stdlib Require Import RelationClasses Morphisms.

(** ** The block cipher the modes are used with *)

(** What a [block128_f] promises: it maps blocks to blocks. *)
Class Block128 (block : list Z -> list Z) : Prop := {
  block_len : forall x, len x = 16 -> len (block x) = 16;
  block_bytes : forall x, len x = 16 -> bytes_ok x -> bytes_ok (block x) }.

(** A pair of block functions, the second of which decrypts the first. *)
Class BlockCipher (block unblock : list Z -> list Z) : Prop := {
  cipher_block :: Block128 block;
  cipher_unblock :: Block128 unblock;
  unblock_block : forall x, len x = 16 -> bytes_ok x -> unblock (block x) = x }.

(** ** The loops the modes share

    [ctr.c], [ofb.c] and [cfb.c] have the same loops around three actions:
    refilling the register, emitting a byte, and emitting a [size_t]. *)
Class StreamMode (R : Type) := {
  refill : R -> R;
  emit : R -> Z -> Z -> Z * R;
  emit_word : R -> Z -> list Z -> list Z * R }.

Section Loops.
Context {R : Type} `{StreamMode R}.

(** [while (n && len) { *(out++) = ...; --len; n = (n + 1) % 16; }]: the output,
    what is left of the input, and the state. *)
Fixpoint prefix_loop (r : R) (n : Z) (inp : list Z) : list Z * list Z * (R * Z) :=
  match inp with
  | [] => ([], [], (r, n))
  | b :: rest =>
      if n =? 0 then ([], inp, (r, n)) else
      let (c, r) := emit r n b in
      let '(out, rest, st) := prefix_loop r ((n + 1) mod 16) rest in
      (c :: out, rest, st)
  end.

(** The loop for misaligned buffers under [STRICT_ALIGNMENT]. *)
Fixpoint bytes_loop (r : R) (n : Z) (inp : list Z) : list Z * (R * Z) :=
  match inp with
  | [] => ([], (r, n))
  | b :: rest =>
      let r := if n =? 0 then refill r else r in
      let (c, r) := emit r n b in
      let (out, st) := bytes_loop r ((n + 1) mod 16) rest in
      (c :: out, st)
  end.

(** [for (; n < 16; n += sizeof(size_t))] over the block at [inp]. *)
Fixpoint words_loop (fuel : nat) (r : R) (n : Z) (inp : list Z) : list Z * (R * Z) :=
  match fuel with
  | O => ([], (r, n))
  | S fuel =>
      if n <? 16 then
        let (c, r) := emit_word r n (load inp n 8) in
        let (out, st) := words_loop fuel r (n + 8) inp in
        (c ++ out, st)
      else ([], (r, n))
  end.

(** [while (len >= 16)]. *)
Fixpoint blocks_loop (fuel : nat) (r : R) (n : Z) (inp : list Z) : list Z * list Z * (R * Z) :=
  match fuel with
  | O => ([], inp, (r, n))
  | S fuel =>
      if len inp <? 16 then ([], inp, (r, n)) else
      let '(c, (r, _)) := words_loop 3 (refill r) n inp in
      let '(out, rest, st) := blocks_loop fuel r 0 (drop 16 inp) in
      (c ++ out, rest, st)
  end.

(** [while (len--) { out[n] = ... in[n] ...; ++n; }]. *)
Fixpoint tail_loop (count : nat) (r : R) (n : Z) (inp : list Z) : list Z * (R * Z) :=
  match count with
  | O => ([], (r, n))
  | S count =>
      let (c, r) := emit r n (get inp n) in
      let (out, st) := tail_loop count r (n + 1) inp in
      (c :: out, st)
  end.

(** The body of the routines. [misaligned] says that STRICT_ALIGNMENT is set
    and one of the pointers is not a multiple of 8. *)
Definition stream128 (misaligned : bool) (st : R * Z) (inp : list Z) : list Z * (R * Z) :=
  let '(out1, inp, (r, n)) := prefix_loop (fst st) (snd st) inp in
  if misaligned then
    let (out2, st) := bytes_loop r n inp in (out1 ++ out2, st)
  else
    let '(out2, inp, (r, n)) := blocks_loop (length inp) r n inp in
    if len inp =? 0 then (out1 ++ out2, (r, n)) else
    let (out3, st) := tail_loop (length inp) (refill r) n inp in
    (out1 ++ out2 ++ out3, st).

(** Successive calls on the same state. *)
Fixpoint calls (f : R * Z -> list Z -> list Z * (R * Z)) (st : R * Z) (chunks : list (list Z))
  : list Z * (R * Z) :=
  match chunks with
  | [] => ([], st)
  | c :: chunks =>
      let (o1, st) := f st c in
      let (o2, st) := calls f st chunks in (o1 ++ o2, st)
  end.
End Loops.

(** ** ctr.c *)

(** The [do ... while (n)] loop of the counter increments, from byte [n - 1]
    down to byte 0 with carry [c]. *)
Fixpoint inc_loop (n : nat) (counter : list Z) (c : Z) : list Z :=
  match n with
  | O => counter
  | S n =>
      let c := u32 (c + get counter (Z.of_nat n)) in
      inc_loop n (set counter (Z.of_nat n) (u8 c)) (Z.shiftr c 8)
  end.

Definition ctr128_inc (counter : list Z) : list Z := inc_loop 16 counter 1.
Definition ctr96_inc (counter : list Z) : list Z := inc_loop 12 counter 1.

Section Ctr.
Variable block : list Z -> list Z.

(** The register is [ivec] and [ecount_buf]. *)
Definition ctr_refill (r : list Z * list Z) : list Z * list Z := (ctr128_inc (fst r), block (fst r)).
Definition ctr_emit (r : list Z * list Z) (n b : Z) : Z * (list Z * list Z) :=
  (Z.lxor b (get (snd r) n), r).
Definition ctr_emit_word (r : list Z * list Z) (n : Z) (w : list Z) : list Z * (list Z * list Z) :=
  (xor_bytes w (load (snd r) n 8), r).

#[local] Instance ctr_mode : StreamMode (list Z * list Z) :=
  {| refill := ctr_refill; emit := ctr_emit; emit_word := ctr_emit_word |}.

Definition CRYPTO_ctr128_encrypt (misaligned : bool) (st : list Z * list Z * Z) (inp : list Z)
  : list Z * (list Z * list Z * Z) := stream128 misaligned st inp.

(** [ctr128_f]: [func in blocks ivec], which does not update [ivec]. *)
Variable func : list Z -> Z -> list Z -> list Z.

(** [memcpy] of 4 bytes and [CRYPTO_bswap4], on a little-endian machine. *)
Definition GETU32 (l : list Z) : Z := be_val (take 4 l).
Definition PUTU32 (l : list Z) (a v : Z) : list Z := splice l a (be_enc 4 v).

(** How many blocks one call of [func] takes, and the counter after it. *)
Definition ctr32_advance (ctr32 n : Z) : Z * Z :=
  let blocks := n / 16 in
  let blocks := if Z.shiftl 1 28 <? blocks then Z.shiftl 1 28 else blocks in
  let ctr32 := u32 (ctr32 + blocks) in
  if ctr32 <? blocks then (blocks - ctr32, 0) else (blocks, ctr32).

(** [PUTU32(ivec + 12, ctr32); if (ctr32 == 0) ctr96_inc(ivec);] *)
Definition ctr32_put (ivec : list Z) (ctr32 : Z) : list Z :=
  let ivec := PUTU32 ivec 12 ctr32 in
  if ctr32 =? 0 then ctr96_inc ivec else ivec.

Fixpoint ctr32_loop (fuel : nat) (ivec : list Z) (ctr32 : Z) (inp : list Z)
  : list Z * list Z * (list Z * Z) :=
  match fuel with
  | O => ([], inp, (ivec, ctr32))
  | S fuel =>
      if len inp <? 16 then ([], inp, (ivec, ctr32)) else
      let (blocks, ctr32) := ctr32_advance ctr32 (len inp) in
      let c := func (take (16 * blocks) inp) blocks ivec in
      let ivec := ctr32_put ivec ctr32 in
      let '(out, rest, st) := ctr32_loop fuel ivec ctr32 (drop (16 * blocks) inp) in
      (c ++ out, rest, st)
  end.

Definition CRYPTO_ctr128_encrypt_ctr32 (st : list Z * list Z * Z) (inp : list Z)
  : list Z * (list Z * list Z * Z) :=
  let '(out1, inp, (ivec, ecount_buf, n)) := prefix_loop (fst st) (snd st) inp in
  let '(out2, inp, (ivec, ctr32)) := ctr32_loop (length inp) ivec (GETU32 (drop 12 ivec)) inp in
  if len inp =? 0 then (out1 ++ out2, (ivec, ecount_buf, n)) else
  let ecount_buf := func (repeat 0 16) 1 ivec in
  let ctr32 := u32 (ctr32 + 1) in
  let ivec := ctr32_put ivec ctr32 in
  let (out3, st) := tail_loop (length inp) (ivec, ecount_buf) n inp in
  (out1 ++ out2 ++ out3, st).
End Ctr.

(** ** ofb.c *)

Section Ofb.
Variable block : list Z -> list Z.

Definition ofb_emit (ivec : list Z) (n b : Z) : Z * list Z := (Z.lxor b (get ivec n), ivec).
Definition ofb_emit_word (ivec : list Z) (n : Z) (w : list Z) : list Z * list Z :=
  (xor_bytes w (load ivec n 8), ivec).

#[local] Instance ofb_mode : StreamMode (list Z) :=
  {| refill := block; emit := ofb_emit; emit_word := ofb_emit_word |}.

Definition CRYPTO_ofb128_encrypt (st : list Z * Z) (inp : list Z) : list Z * (list Z * Z) :=
  stream128 false st inp.
End Ofb.

(** ** cfb.c *)

Section Cfb.
Variable block : list Z -> list Z.

(** [out = ivec[n] ^= in]. *)
Definition cfb_enc_emit (ivec : list Z) (n b : Z) : Z * list Z :=
  let c := Z.lxor (get ivec n) b in (c, set ivec n c).
Definition cfb_enc_emit_word (ivec : list Z) (n : Z) (w : list Z) : list Z * list Z :=
  let c := xor_bytes (load ivec n 8) w in (c, splice ivec n c).

(** [out = ivec[n] ^ (c = in); ivec[n] = c]. *)
Definition cfb_dec_emit (ivec : list Z) (n c : Z) : Z * list Z :=
  (Z.lxor (get ivec n) c, set ivec n c).
Definition cfb_dec_emit_word (ivec : list Z) (n : Z) (t : list Z) : list Z * list Z :=
  (xor_bytes (load ivec n 8) t, splice ivec n t).

Definition cfb_mode (enc : bool) : StreamMode (list Z) :=
  if enc then {| refill := block; emit := cfb_enc_emit; emit_word := cfb_enc_emit_word |}
  else {| refill := block; emit := cfb_dec_emit; emit_word := cfb_dec_emit_word |}.

Definition CRYPTO_cfb128_encrypt (misaligned enc : bool) (st : list Z * Z) (inp : list Z)
  : list Z * (list Z * Z) := @stream128 _ (cfb_mode enc) misaligned st inp.

(** [cfbr_encrypt_block]: [ovec] is the old IV followed by the feedback bytes;
    the result is the output bytes and the new IV. *)
Definition cfbr_shift (ovec : list Z) (nbits : Z) : list Z :=
  let rem := nbits mod 8 in
  let num := nbits / 8 in
  if rem =? 0 then load ovec num 16 else
  map (fun n => u8 (Z.lor (Z.shiftl (get ovec (Z.of_nat n + num)) rem)
                          (Z.shiftr (get ovec (Z.of_nat n + num + 1)) (8 - rem)))) (seq 0 16).

Definition cfbr_encrypt_block (enc : bool) (nbits : Z) (ivec inp : list Z) : option (list Z * list Z) :=
  if (nbits <=? 0) || (128 <? nbits) then None else
  let new := block ivec in
  let inp := take ((nbits + 7) / 8) inp in
  let out := xor_bytes inp new in
  let ovec := ivec ++ (if enc then out else inp) in
  Some (out, cfbr_shift ovec nbits).

(** One bit: [out[n/8]] is read and rewritten with bit [n] replaced. *)
Definition cfb1_step (enc : bool) (inp : list Z) (n : Z) (st : list Z * list Z) : list Z * list Z :=
  let (out, ivec) := st in
  let c := if negb (Z.land (get inp (n / 8)) (Z.shiftl 1 (7 - n mod 8)) =? 0) then 128 else 0 in
  match cfbr_encrypt_block enc 1 ivec [c] with
  | None => st
  | Some (d, ivec) =>
      (set out (n / 8) (u8 (Z.lor (Z.land (get out (n / 8)) (Z.lnot (Z.shiftl 1 (7 - n mod 8))))
                                  (Z.shiftr (Z.land (get d 0) 128) (n mod 8)))), ivec)
  end.

Definition CRYPTO_cfb128_1_encrypt (enc : bool) (inp out : list Z) (bits : nat) (ivec : list Z)
  : list Z * list Z :=
  fold_left (fun st n => cfb1_step enc inp (Z.of_nat n) st) (seq 0 bits) (out, ivec).

Fixpoint CRYPTO_cfb128_8_encrypt (enc : bool) (inp ivec : list Z) : list Z * list Z :=
  match inp with
  | [] => ([], ivec)
  | b :: inp =>
      match cfbr_encrypt_block enc 8 ivec [b] with
      | None => ([], ivec)
      | Some (o, ivec) => let (out, ivec) := CRYPTO_cfb128_8_encrypt enc inp ivec in (o ++ out, ivec)
      end
  end.
End Cfb.

(** ** The word loops are the byte loop *)

Section EmitsDef.
Context {R : Type} `{StreamMode R}.

(** Emitting consecutive bytes of one block. *)
Fixpoint emits (r : R) (n : Z) (l : list Z) : list Z * R :=
  match l with
  | [] => ([], r)
  | b :: l => let (c, r) := emit r n b in let (o, r) := emits r (n + 1) l in (c :: o, r)
  end.
End EmitsDef.

(** The registers are well formed and a word is its bytes. *)
Class StreamLaws {R : Type} (mode : StreamMode R) (wf : R -> Prop) : Prop := {
  wf_refill : forall r, wf r -> wf (refill r);
  wf_emit : forall r n b, wf r -> 0 <= n < 16 -> wf (snd (emit r n b));
  emit_word_spec : forall r n w, wf r -> 0 <= n -> n + 8 <= 16 -> len w = 8 ->
    emit_word r n w = emits r n w }.

Section LoopLaws.
Context {R : Type} (mode : StreamMode R) (wf : R -> Prop) `{!StreamLaws mode wf}.
Implicit Types (r : R) (n : Z) (inp l k : list Z).

Lemma bytes_loop_app l k : forall r n,
  bytes_loop r n (l ++ k) =
  let (o1, st) := bytes_loop r n l in
  let (o2, st) := bytes_loop (fst st) (snd st) k in (o1 ++ o2, st).
Proof.
  induction l as [| b l IH]; intros r n; cbn [app bytes_loop fst snd].
  - now destruct (bytes_loop r n k).
  - destruct (emit _ n b) as [c r']. rewrite IH.
    destruct (bytes_loop r' _ l) as [o1 st]. now destruct (bytes_loop (fst st) (snd st) k).
Qed.

Lemma emits_app l k : forall r n,
  emits r n (l ++ k) =
  let (o1, r) := emits r n l in
  let (o2, r) := emits r (n + len l) k in (o1 ++ o2, r).
Proof.
  induction l as [| b l IH]; intros r n; cbn [app emits].
  - rewrite len_nil, Z.add_0_r. now destruct (emits r n k).
  - destruct (emit r n b) as [c r']. rewrite IH.
    rewrite len_cons. replace (n + 1 + len l) with (n + (1 + len l)) by lia.
    destruct (emits r' (n + 1) l) as [o1 r1]. now destruct (emits r1 _ k).
Qed.

Lemma emits_wf l : forall r n, wf r -> 0 <= n -> n + len l <= 16 -> wf (snd (emits r n l)).
Proof.
  induction l as [| b l IH]; intros r n Hr Hn Hl; cbn [emits]; [assumption |].
  rewrite len_cons in Hl. pose proof (len_nonneg l).
  pose proof (wf_emit r n b Hr ltac:(lia)). destruct (emit r n b) as [c r'].
  specialize (IH r' (n + 1) ltac:(assumption) ltac:(lia) ltac:(lia)). now destruct (emits r' (n + 1) l).
Qed.

Lemma bytes_loop_within l : forall r n, 0 < n < 16 -> n + len l <= 16 ->
  bytes_loop r n l = let (o, r) := emits r n l in (o, (r, (n + len l) mod 16)).
Proof.
  induction l as [| b l IH]; intros r n Hn Hl; cbn [bytes_loop emits].
  { rewrite len_nil, Z.add_0_r, Z.mod_small by lia. reflexivity. }
  rewrite len_cons in *. pose proof (len_nonneg l).
  destruct (Z.eqb_spec n 0); [lia |]. destruct (emit r n b) as [c r'].
  destruct (Z.eq_dec n 15) as [-> | Hn15].
  - assert (len l = 0) as E by lia. apply len_0_nil in E as ->. reflexivity.
  - rewrite (Z.mod_small (n + 1)) by lia. rewrite IH by lia.
    replace (n + (1 + len l)) with (n + 1 + len l) by lia. now destruct (emits r' (n + 1) l).
Qed.

Lemma bytes_loop_block r l : l <> [] -> len l <= 16 ->
  bytes_loop r 0 l = let (o, r) := emits (refill r) 0 l in (o, (r, len l mod 16)).
Proof.
  destruct l as [| b l]; [easy |]. intros _ Hl. rewrite len_cons in *. pose proof (len_nonneg l).
  cbn [bytes_loop emits Z.eqb]. destruct (emit (refill r) 0 b) as [c r'].
  change ((0 + 1) mod 16) with 1. change (0 + 1) with 1.
  rewrite bytes_loop_within by lia. now destruct (emits r' 1 l).
Qed.

Lemma prefix_loop_spec inp : forall r n, 0 <= n < 16 ->
  exists used rest r' n' o, prefix_loop r n inp = (o, rest, (r', n')) /\ inp = used ++ rest /\
    bytes_loop r n used = (o, (r', n')) /\ (rest = [] \/ n' = 0) /\ 0 <= n' < 16 /\ (wf r -> wf r').
Proof.
  induction inp as [| b inp IH]; intros r n Hn; cbn [prefix_loop].
  { exists [], [], r, n, []. auto 10. }
  destruct (Z.eqb_spec n 0) as [-> | Hn0].
  { exists [], (b :: inp), r, 0, []. auto 10. }
  pose proof (fun H => wf_emit r n b H Hn) as Hwf. destruct (emit r n b) as [c r1] eqn:E.
  destruct (IH r1 ((n + 1) mod 16) ltac:(apply Z.mod_pos_bound; lia))
    as (used & rest & r' & n' & o & E1 & -> & E2 & E3 & E4 & E5).
  exists (b :: used), rest, r', n', (c :: o). rewrite E1. cbn [bytes_loop].
  destruct (Z.eqb_spec n 0); [lia |]. rewrite E, E2. cbn [snd] in Hwf. auto 10.
Qed.

Lemma words_loop_block r inp : wf r -> 16 <= len inp ->
  words_loop 3 r 0 inp = let (o, r) := emits r 0 (take 16 inp) in (o, (r, 16)).
Proof.
  intros Hr Hl. cbn [words_loop]. change (0 <? 16) with true. cbv iota.
  assert (L0 : len (load inp 0 8) = 8) by (unfold load; rewrite len_take; rewrite ?len_drop; lia).
  assert (L8 : len (load inp 8 8) = 8) by (unfold load; rewrite len_take; rewrite ?len_drop; lia).
  rewrite (emit_word_spec r 0) by (assumption || lia).
  pose proof (emits_wf (load inp 0 8) r 0 Hr ltac:(lia) ltac:(lia)) as Hr1.
  replace (take 16 inp) with (load inp 0 8 ++ load inp 8 8)
    by (unfold load; rewrite drop_0; change 16 with (8 + 8); now rewrite take_plus by lia).
  rewrite emits_app, L0. change (0 + 8) with 8. destruct (emits r 0 (load inp 0 8)) as [o1 r1].
  change (8 <? 16) with true. cbv iota. rewrite emit_word_spec by (assumption || lia).
  destruct (emits r1 8 (load inp 8 8)) as [o2 r2]. cbn. now rewrite app_nil_r.
Qed.

Lemma blocks_loop_spec fuel : forall r inp, wf r -> (length inp <= fuel)%nat ->
  exists used rest r' o, blocks_loop fuel r 0 inp = (o, rest, (r', 0)) /\ inp = used ++ rest /\
    bytes_loop r 0 used = (o, (r', 0)) /\ len rest < 16 /\ wf r'.
Proof.
  induction fuel as [| fuel IH]; intros r inp Hr Hf; cbn [blocks_loop].
  { destruct inp; [| cbn in Hf; lia]. exists [], [], r, []. repeat (split; [reflexivity |]). assumption. }
  destruct (Z.ltb_spec (len inp) 16) as [Hlt | Hge]; [exists [], inp, r, []; auto 10 |].
  pose proof (wf_refill r Hr) as Hrr. rewrite words_loop_block by assumption.
  assert (L16 : len (take 16 inp) = 16) by (rewrite len_take; lia).
  pose proof (emits_wf (take 16 inp) (refill r) 0 Hrr ltac:(lia) ltac:(lia)) as Hr1.
  assert (Hne : take 16 inp <> []) by (intros E; rewrite E in L16; discriminate).
  pose proof (bytes_loop_block r (take 16 inp) Hne ltac:(lia)) as Hb. rewrite L16 in Hb. change (16 mod 16) with 0 in Hb.
  destruct (emits (refill r) 0 (take 16 inp)) as [o1 r1]. cbn [snd] in Hr1.
  destruct (IH r1 (drop 16 inp) Hr1) as (used & rest & r' & o & E1 & E2 & E3 & E4 & E5).
  { unfold drop. rewrite length_skipn. unfold len in Hge. lia. }
  exists (take 16 inp ++ used), rest, r', (o1 ++ o). rewrite E1. split; [reflexivity |].
  split; [rewrite <- app_assoc, <- E2; symmetry; apply take_drop |].
  rewrite bytes_loop_app, Hb. cbn [fst snd]. now rewrite E3.
Qed.

Lemma tail_loop_spec count : forall r n inp, 0 <= n -> Z.of_nat count + n = len inp ->
  tail_loop count r n inp = let (o, r) := emits r n (drop n inp) in (o, (r, len inp)).
Proof.
  induction count as [| count IH]; intros r n inp Hn Hl; cbn [tail_loop].
  - rewrite drop_all by lia. cbn. repeat f_equal. lia.
  - rewrite (drop_cons_get n) by lia. cbn [emits]. destruct (emit r n (get inp n)) as [c r'].
    rewrite IH by lia. now destruct (emits r' (n + 1) (drop (n + 1) inp)).
Qed.

(** The routine computes what the byte loop does, for any state. *)
Lemma stream128_bytes misaligned r n inp : wf r -> 0 <= n < 16 ->
  stream128 misaligned (r, n) inp = bytes_loop r n inp.
Proof.
  intros Hr Hn. unfold stream128. cbn [fst snd].
  destruct (prefix_loop_spec inp r n Hn) as (used & rest & r1 & n1 & o1 & E1 & -> & E2 & E3 & E4 & E5).
  rewrite E1, bytes_loop_app, E2. cbn [fst snd].
  destruct misaligned; [reflexivity |].
  destruct rest as [| b rest]; [cbn; now rewrite !app_nil_r |].
  destruct E3 as [E3 | ->]; [discriminate |]. remember (b :: rest) as rest' eqn:Er. clear E1 E2 E4 Er b rest.
  destruct (blocks_loop_spec (length rest') r1 rest' (E5 Hr) (le_n _)) as (used2 & rest2 & r2 & o2 & F1 & -> & F3 & F4 & F5).
  rewrite F1, bytes_loop_app, F3. cbn [fst snd].
  destruct (Z.eqb_spec (len rest2) 0) as [F | F].
  { apply len_0_nil in F as ->. cbn. now rewrite app_nil_r. }
  rewrite tail_loop_spec by (unfold len; lia). rewrite drop_0.
  rewrite bytes_loop_block; [| intros ->; now apply F | lia].
  rewrite Z.mod_small by (pose proof (len_nonneg rest2); lia).
  now destruct (emits (refill r2) 0 rest2).
Qed.

Lemma bytes_loop_wf inp : forall r n, wf r -> 0 <= n < 16 ->
  wf (fst (snd (bytes_loop r n inp))) /\ 0 <= snd (snd (bytes_loop r n inp)) < 16.
Proof.
  induction inp as [| b inp IH]; intros r n Hr Hn; cbn [bytes_loop]; [auto |].
  assert (Hr0 : wf (if n =? 0 then refill r else r)) by (destruct (n =? 0); [now apply wf_refill | assumption]).
  pose proof (wf_emit _ n b Hr0 Hn) as Hr1. destruct (emit _ n b) as [c r1]. cbn [snd] in Hr1.
  specialize (IH r1 ((n + 1) mod 16) Hr1 ltac:(apply Z.mod_pos_bound; lia)).
  now destruct (bytes_loop r1 ((n + 1) mod 16) inp).
Qed.

(** Successive calls, whatever the alignment of each, are one call. *)
Lemma calls_bytes misaligned chunks : forall r n, wf r -> 0 <= n < 16 ->
  calls (stream128 misaligned) (r, n) chunks = bytes_loop r n (concat chunks).
Proof.
  induction chunks as [| c chunks IH]; intros r n Hr Hn; cbn [calls concat]; [reflexivity |].
  rewrite stream128_bytes, bytes_loop_app by assumption.
  pose proof (bytes_loop_wf c r n Hr Hn) as [Hr1 Hn1].
  destruct (bytes_loop r n c) as [o1 [r1 n1]]. cbn [fst snd] in *. now rewrite IH by assumption.
Qed.
End LoopLaws.

(** ** Inverse modes *)

(** [m2] undoes [m1]: their registers evolve alike and the bytes are restored. *)
Class StreamInverse {R : Type} (m1 m2 : StreamMode R) : Prop := {
  inverse_refill : forall r, @refill _ m2 r = @refill _ m1 r;
  inverse_emit : forall r n b,
    @emit _ m2 r n (fst (@emit _ m1 r n b)) = (b, snd (@emit _ m1 r n b)) }.

Lemma bytes_loop_inverse {R} (m1 m2 : StreamMode R) `{!StreamInverse m1 m2} inp : forall r n,
  @bytes_loop _ m2 r n (fst (@bytes_loop _ m1 r n inp)) = (inp, snd (@bytes_loop _ m1 r n inp)).
Proof.
  induction inp as [| b inp IH]; intros r n; cbn [bytes_loop]; [reflexivity |].
  pose proof (inverse_emit (if n =? 0 then @refill _ m1 r else r) n b) as E.
  destruct (@emit _ m1 _ n b) as [c r1]. cbn [fst snd] in E.
  specialize (IH r1 ((n + 1) mod 16)). destruct (@bytes_loop _ m1 r1 _ inp) as [o st].
  cbn [fst snd] in *. cbn [bytes_loop]. rewrite inverse_refill, E, IH. reflexivity.
Qed.

(** Any chunking of the output of [m1] through [m2] gives the input back. *)
Lemma calls_inverse {R} (m1 m2 : StreamMode R) wf `{!StreamLaws m1 wf, !StreamLaws m2 wf, !StreamInverse m1 m2}
    mis1 mis2 r n chunks chunks' out st :
  wf r -> 0 <= n < 16 ->
  calls (@stream128 _ m1 mis1) (r, n) chunks = (out, st) -> concat chunks' = out ->
  calls (@stream128 _ m2 mis2) (r, n) chunks' = (concat chunks, st).
Proof.
  intros Hr Hn E1 E2. rewrite (calls_bytes m1 wf) in E1 by assumption.
  rewrite (calls_bytes m2 wf), E2 by assumption.
  replace out with (fst (@bytes_loop _ m1 r n (concat chunks))) by now rewrite E1.
  now rewrite bytes_loop_inverse, E1.
Qed.

(** ** The counter *)

Lemma inc_loop_spec n : forall counter c, bytes_ok counter -> Z.of_nat n <= len counter -> 0 <= c <= 1 ->
  inc_loop n counter c = be_enc n (be_val (take (Z.of_nat n) counter) + c) ++ drop (Z.of_nat n) counter.
Proof.
  induction n as [| n IH]; intros l c Hok Hl Hc; cbn [inc_loop]; [reflexivity |].
  assert (Hn : 0 <= Z.of_nat n < len l) by lia. set (k := Z.of_nat n) in *.
  assert (Hb : byte_ok (get l k)) by (unfold get; apply (proj1 (Forall_nth _ _) Hok); unfold len in Hn; lia).
  unfold byte_ok in Hb. rewrite (wrap_small 32) by lia. set (x := c + get l k) in *.
  assert (Hset : bytes_ok (set l k (u8 x))).
  { unfold set, splice. apply bytes_ok_app. split; [auto with bytes |]. apply bytes_ok_app. split; auto with bytes. }
  rewrite IH; [| assumption | rewrite len_set; lia | rewrite Z.shiftr_div_pow2 by lia; change (2 ^ 8) with 256; word_lia].
  fold k. rewrite take_set, drop_set by assumption. cbn [be_enc].
  rewrite <- app_assoc. rewrite Nat2Z.inj_succ. fold k. replace (Z.succ k) with (k + 1) by lia.
  rewrite take_succ by lia. rewrite be_val_snoc.
  replace (be_val (take k l) * 256 + get l k + c) with (x + be_val (take k l) * 256) by (unfold x; lia).
  rewrite Z.div_add, Z.mod_add by lia. rewrite Z.shiftr_div_pow2 by lia. rewrite Z.add_comm. reflexivity.
Qed.

(** A 16-byte counter as a number. *)
Lemma block_as_enc iv : len iv = 16 -> bytes_ok iv -> iv = be_enc 16 (be_val iv).
Proof. intros Hl Hok. symmetry. rewrite <- (be_enc_val iv Hok) at 2. f_equal. unfold len in Hl. lia. Qed.

Lemma ctr128_inc_spec v : ctr128_inc (be_enc 16 v) = be_enc 16 (v + 1).
Proof.
  unfold ctr128_inc. rewrite inc_loop_spec; [| apply be_enc_bytes | rewrite be_enc_len; lia | lia].
  rewrite take_all, drop_all, app_nil_r by (rewrite be_enc_len; lia). rewrite be_val_enc_mod. apply be_enc_add_mod.
Qed.

(** ** CTR *)

Section CtrLaws.
Context (block : list Z -> list Z) `{!Block128 block}.

Definition ctr_wf (r : list Z * list Z) : Prop :=
  len (fst r) = 16 /\ bytes_ok (fst r) /\ len (snd r) = 16.

Lemma ctr_refill_enc v ec : ctr_refill block (be_enc 16 v, ec) = (be_enc 16 (v + 1), block (be_enc 16 v)).
Proof. unfold ctr_refill. cbn [fst]. now rewrite ctr128_inc_spec. Qed.

Lemma ctr_emits l : forall r n, 0 <= n -> n + len l <= len (snd r) ->
  @emits _ (ctr_mode block) r n l = (xor_bytes l (load (snd r) n (len l)), r).
Proof.
  induction l as [| b l IH]; intros r n Hn Hl; [reflexivity |].
  rewrite len_cons in *. pose proof (len_nonneg l). cbn [emits emit ctr_mode]. unfold ctr_emit.
  rewrite IH, (load_cons (snd r) n) by lia. rewrite xor_bytes_cons. do 4 f_equal. lia.
Qed.

#[export] Instance ctr_laws : StreamLaws (ctr_mode block) ctr_wf.
Proof.
  split.
  - intros [iv ec] (Hl & Hok & _). cbn [fst snd] in *. change (@refill _ (ctr_mode block) (iv, ec)) with (ctr_refill block (iv, ec)).
    rewrite (block_as_enc iv), ctr_refill_enc by assumption. unfold ctr_wf. cbn [fst snd].
    rewrite be_enc_len. repeat split; [apply be_enc_bytes |]. apply block_len. apply be_enc_len.
  - intros r n b Hr _. exact Hr.
  - intros r n w (_ & _ & Hl) Hn Hn8 Hw. rewrite ctr_emits by lia. rewrite Hw. reflexivity.
Qed.

#[export] Instance ctr_inverse : StreamInverse (ctr_mode block) (ctr_mode block).
Proof.
  split; [reflexivity |]. intros r n b. cbn [emit ctr_mode]. unfold ctr_emit. cbn [fst snd].
  now rewrite Z.lxor_assoc, Z.lxor_nilpotent, Z.lxor_0_r.
Qed.

(** The key stream of the counter value [v]. *)
Definition keystream (v : Z) (k : nat) : list Z :=
  flat_map (fun i => block (be_enc 16 (v + Z.of_nat i))) (seq 0 k).

Lemma keystream_S v k : keystream v (S k) = block (be_enc 16 v) ++ keystream (v + 1) k.
Proof.
  unfold keystream. cbn [seq flat_map]. rewrite Z.add_0_r. f_equal.
  rewrite <- seq_shift, flat_map_concat_map, map_map, <- flat_map_concat_map.
  apply flat_map_ext. intros i. do 2 f_equal. lia.
Qed.

Lemma len_keystream v k : len (keystream v k) = 16 * Z.of_nat k.
Proof.
  revert v. induction k as [| k IH]; intros v; [reflexivity |].
  rewrite keystream_S, len_app, block_len, IH by apply be_enc_len. lia.
Qed.

(** One block, whole or partial, from a block boundary. *)
Lemma ctr_one_block v ec l : l <> [] -> len l <= 16 ->
  @bytes_loop _ (ctr_mode block) (be_enc 16 v, ec) 0 l =
  (xor_bytes l (block (be_enc 16 v)), ((be_enc 16 (v + 1), block (be_enc 16 v)), len l mod 16)).
Proof.
  intros Hl Hle. rewrite bytes_loop_block by assumption.
  change (@refill _ (ctr_mode block) (be_enc 16 v, ec)) with (ctr_refill block (be_enc 16 v, ec)).
  rewrite ctr_refill_enc. assert (L : len (block (be_enc 16 v)) = 16) by apply block_len, be_enc_len.
  rewrite ctr_emits by (cbn [snd]; lia). cbn [snd]. unfold load. rewrite drop_0.
  now rewrite xor_bytes_take.
Qed.

(** Whole blocks from a block boundary. *)
Lemma ctr_blocks k : forall v ec l, len l = 16 * Z.of_nat k ->
  exists ec', @bytes_loop _ (ctr_mode block) (be_enc 16 v, ec) 0 l =
    (xor_bytes l (keystream v k), ((be_enc 16 (v + Z.of_nat k), ec'), 0)).
Proof.
  induction k as [| k IH]; intros v ec l Hl.
  { apply len_0_nil in Hl as ->. exists ec. cbn [bytes_loop]. now rewrite Z.add_0_r. }
  assert (L : len (take 16 l) = 16) by (rewrite len_take; lia).
  destruct (IH (v + 1) (block (be_enc 16 v)) (drop 16 l)) as (ec' & E); [rewrite len_drop; lia |].
  exists ec'. rewrite <- (take_drop 16 l) at 1 2. rewrite bytes_loop_app.
  rewrite ctr_one_block by (lia || (intros E0; rewrite E0 in L; discriminate)).
  rewrite L. change (16 mod 16) with 0. cbn [fst snd]. rewrite E, keystream_S.
  rewrite xor_bytes_app by (rewrite L, block_len; [reflexivity | apply be_enc_len]).
  do 4 f_equal. lia.
Qed.

Lemma keystream_app v a b : keystream v (a + b) = keystream v a ++ keystream (v + Z.of_nat a) b.
Proof.
  revert v. induction a as [| a IH]; intros v; [cbn [Nat.add]; now rewrite Z.add_0_r |].
  cbn [Nat.add]. rewrite !keystream_S, IH, <- app_assoc. do 3 f_equal. lia.
Qed.

Lemma ctr_bytes_keystream k v ec l : len l <= 16 * Z.of_nat k ->
  fst (@bytes_loop _ (ctr_mode block) (be_enc 16 v, ec) 0 l) = xor_bytes l (keystream v k).
Proof.
  intros Hl. pose proof (len_nonneg l). pose proof (Z.div_mod (len l) 16). pose proof (Z.mod_pos_bound (len l) 16).
  set (q := Z.to_nat (len l / 16)). assert (Hq : Z.of_nat q = len l / 16) by (unfold q; lia). clearbody q.
  assert (L1 : len (take (16 * Z.of_nat q) l) = 16 * Z.of_nat q) by (rewrite len_take; lia).
  assert (L2 : len (drop (16 * Z.of_nat q) l) = len l mod 16) by (rewrite len_drop; lia).
  destruct (ctr_blocks q v ec _ L1) as (ec' & E).
  rewrite <- (take_drop (16 * Z.of_nat q) l), bytes_loop_app, E. cbn [fst snd].
  replace k with (q + (k - q))%nat by lia. rewrite keystream_app, xor_bytes_app by (rewrite len_keystream; lia).
  destruct (list_eq_dec Z.eq_dec (drop (16 * Z.of_nat q) l) []) as [-> | Hne]; [reflexivity |].
  rewrite ctr_one_block by (assumption || lia). cbn [fst]. f_equal.
  assert (0 < len (drop (16 * Z.of_nat q) l)) by (destruct (drop (16 * Z.of_nat q) l); [easy | rewrite len_cons; pose_lens; lia]).
  destruct (k - q)%nat as [| m] eqn:Em; [lia |].
  pose proof (block_len _ (be_enc_len 16 (v + Z.of_nat q))) as Lb. rewrite keystream_S, xor_bytes_app_l by lia. reflexivity.
Qed.

(** Counter mode is the XOR with the encryptions of consecutive 128-bit
    counter values: whatever the alignment and the way the data is cut into
    calls, from a block boundary the output is the data masked by the key
    stream of the big-endian counter [ivec]. *)
Lemma ctr128_keystream misaligned iv ecount_buf chunks k :
  len iv = 16 -> bytes_ok iv -> len ecount_buf = 16 -> len (concat chunks) <= 16 * Z.of_nat k ->
  fst (calls (CRYPTO_ctr128_encrypt block misaligned) (iv, ecount_buf, 0) chunks) =
  xor_bytes (concat chunks) (keystream (be_val iv) k).
Proof.
  intros Hl Hok He Hk. unfold CRYPTO_ctr128_encrypt. rewrite (calls_bytes _ ctr_wf) by (lia || now split).
  rewrite (block_as_enc iv) at 1 by assumption. now apply ctr_bytes_keystream.
Qed.

(** Counter mode undoes itself for any state and any chunkings: feeding the
    output back from the same state gives the input and the same final state. *)
Lemma ctr128_involutive mis1 mis2 st chunks chunks' out st' :
  ctr_wf (fst st) -> 0 <= snd st < 16 ->
  calls (CRYPTO_ctr128_encrypt block mis1) st chunks = (out, st') -> concat chunks' = out ->
  calls (CRYPTO_ctr128_encrypt block mis2) st chunks' = (concat chunks, st').
Proof. destruct st as [r n]. apply (calls_inverse (ctr_mode block) (ctr_mode block) ctr_wf). Qed.
End CtrLaws.

(** ** The 32-bit counter variant *)

(** What a [ctr128_f] promises: the key stream of the 32-bit counter in the last
    four bytes of [ivec], which wraps without a carry. *)
Class Ctr32 (block : list Z -> list Z) (func : list Z -> Z -> list Z -> list Z) : Prop := {
  func_spec : forall inp blocks iv, len inp = 16 * blocks -> len iv = 16 -> bytes_ok iv ->
    func inp blocks iv =
    xor_bytes inp (flat_map (fun i => block (take 12 iv ++ be_enc 4 (be_val (drop 12 iv) + Z.of_nat i)))
                     (seq 0 (Z.to_nat blocks))) }.

(** States that behave alike: [ecount_buf] matters only inside a block. *)
Definition ctr_equiv (st st' : list Z * list Z * Z) : Prop :=
  fst (fst st) = fst (fst st') /\ snd st = snd st' /\ (snd st <> 0 -> snd (fst st) = snd (fst st')).

#[export] Instance ctr_equiv_equivalence : Equivalence ctr_equiv.
Proof.
  split.
  - intros st. now repeat split.
  - intros st st' (? & E & H). repeat split; [easy | easy |]. rewrite <- E. intros. symmetry. auto.
  - intros st1 st2 st3 (? & E & H) (? & E' & H'). repeat split; [congruence | congruence |].
    intros Hn. rewrite H by assumption. apply H'. congruence.
Qed.

Definition out_equiv (x y : list Z * (list Z * list Z * Z)) : Prop := fst x = fst y /\ ctr_equiv (snd x) (snd y).

#[export] Instance out_equiv_equivalence : Equivalence out_equiv.
Proof.
  split.
  - intros x. split; reflexivity.
  - intros x y [? ?]. split; now symmetry.
  - intros x y z [? ?] [? ?]. split; etransitivity; eassumption.
Qed.

Section Ctr32Laws.
Context (block : list Z -> list Z) `{!Block128 block}.
Context (func : list Z -> Z -> list Z -> list Z) `{!Ctr32 block func}.

Definition ctr_run (st : list Z * list Z * Z) (inp : list Z) : list Z * (list Z * list Z * Z) :=
  @bytes_loop _ (ctr_mode block) (fst st) (snd st) inp.

#[export] Instance ctr_run_proper : Proper (ctr_equiv ==> eq ==> out_equiv) ctr_run.
Proof.
  intros [[iv ec] n] [[iv' ec'] n'] (E1 & E2 & E3) inp ? <-. cbn [fst snd] in *. subst iv' n'.
  unfold ctr_run. cbn [fst snd]. destruct (Z.eq_dec n 0) as [-> | Hn].
  - destruct inp as [| b inp]; [split; [reflexivity | now repeat split] | reflexivity].
  - now rewrite E3 by assumption.
Qed.

Lemma ctr_run_app st l k :
  ctr_run st (l ++ k) =
  let (o1, st) := ctr_run st l in let (o2, st) := ctr_run st k in (o1 ++ o2, st).
Proof. apply bytes_loop_app. Qed.

Lemma be_enc_16_split v : be_enc 16 v = be_enc 12 (v / 2 ^ 32) ++ be_enc 4 v.
Proof. exact (be_enc_app 12 4 v). Qed.

Lemma GETU32_counter v : GETU32 (drop 12 (be_enc 16 v)) = v mod 2 ^ 32.
Proof.
  unfold GETU32. rewrite be_enc_16_split, drop_app_exact by now rewrite be_enc_len.
  rewrite take_all by (rewrite be_enc_len; lia). exact (be_val_enc_mod 4 v).
Qed.

Lemma ctr32_advance_spec c n : 0 <= c < 2 ^ 32 -> 16 <= n ->
  exists blocks, ctr32_advance c n = (blocks, (c + blocks) mod 2 ^ 32) /\
    1 <= blocks /\ 16 * blocks <= n /\ c + blocks <= 2 ^ 32.
Proof.
  intros Hc Hn. unfold ctr32_advance. change (Z.shiftl 1 28) with (2 ^ 28).
  set (b := if 2 ^ 28 <? n / 16 then 2 ^ 28 else n / 16).
  assert (Hb : 1 <= b <= 2 ^ 28 /\ 16 * b <= n) by (subst b; destruct (Z.ltb_spec (2 ^ 28) (n / 16)); word_lia).
  clearbody b. destruct (Z.ltb_spec (u32 (c + b)) b) as [Hlt | Hge].
  - assert (Hov : 2 ^ 32 <= c + b) by word_lia.
    assert (Eu : u32 (c + b) = c + b - 2 ^ 32) by word_lia. rewrite Eu.
    exists (2 ^ 32 - c). split; [| lia]. replace (c + (2 ^ 32 - c)) with (2 ^ 32) by lia.
    rewrite Z.mod_same by lia. f_equal. lia.
  - exists b. split; [reflexivity |]. unfold wrap in Hge. split; [lia |]. split; [lia |]. word_lia.
Qed.

Lemma ctr32_put_spec v blocks : v mod 2 ^ 32 + blocks <= 2 ^ 32 -> 1 <= blocks ->
  ctr32_put (be_enc 16 v) ((v mod 2 ^ 32 + blocks) mod 2 ^ 32) = be_enc 16 (v + blocks).
Proof.
  intros Hle Hb. unfold ctr32_put, PUTU32. pose proof (Z.mod_pos_bound v (2 ^ 32) ltac:(lia)) as Hm.
  pose proof (Z.div_mod v (2 ^ 32) ltac:(lia)) as Hdm.
  set (c := (v mod 2 ^ 32 + blocks) mod 2 ^ 32).
  replace (splice (be_enc 16 v) 12 (be_enc 4 c)) with (be_enc 12 (v / 2 ^ 32) ++ be_enc 4 c).
  2:{ rewrite splice_full by (rewrite ?be_enc_len; lia). rewrite be_enc_16_split, take_app_exact by now rewrite be_enc_len. reflexivity. }
  rewrite (be_enc_16_split (v + blocks)).
  assert (Ec : be_enc 4 (v + blocks) = be_enc 4 c).
  { unfold c. rewrite Zplus_mod_idemp_l. symmetry. exact (be_enc_mod 4 (v + blocks)). }
  rewrite Ec. destruct (Z.eqb_spec c 0) as [E0 | E0].
  - assert (Hover : v mod 2 ^ 32 + blocks = 2 ^ 32).
    { destruct (Z.eq_dec (v mod 2 ^ 32 + blocks) (2 ^ 32)); [assumption |]. unfold c in E0. rewrite Z.mod_small in E0 by lia. lia. }
    unfold ctr96_inc. rewrite inc_loop_spec; [| apply bytes_ok_app; split; apply be_enc_bytes | rewrite len_app, !be_enc_len; lia | lia].
    change (Z.of_nat 12) with 12. rewrite take_app_exact, drop_app_exact by now rewrite be_enc_len.
    f_equal. rewrite be_val_enc_mod, be_enc_add_mod. f_equal.
    replace (v + blocks) with ((v / 2 ^ 32 + 1) * 2 ^ 32) by lia. rewrite Z.div_mul; lia.
  - f_equal. f_equal. assert (v mod 2 ^ 32 + blocks < 2 ^ 32).
    { destruct (Z.eq_dec (v mod 2 ^ 32 + blocks) (2 ^ 32)) as [E |]; [| lia]. unfold c in E0. rewrite E in E0. now rewrite Z.mod_same in E0 by lia. }
    apply (Z.div_unique_pos _ _ _ (v mod 2 ^ 32 + blocks)); lia.
Qed.

Lemma func_keystream v blocks inp : len inp = 16 * blocks -> v mod 2 ^ 32 + blocks <= 2 ^ 32 -> 0 <= blocks ->
  func inp blocks (be_enc 16 v) = xor_bytes inp (keystream block v (Z.to_nat blocks)).
Proof.
  intros Hl Hv Hb. rewrite (func_spec (block := block)); [| assumption | apply be_enc_len | apply be_enc_bytes].
  f_equal. unfold keystream. rewrite !flat_map_concat_map. f_equal. apply map_ext_in. intros i Hi. apply in_seq in Hi.
  f_equal. rewrite (be_enc_16_split v), take_app_exact, drop_app_exact by now rewrite be_enc_len.
  rewrite (be_enc_16_split (v + Z.of_nat i)), be_val_enc_mod. change (256 ^ Z.of_nat 4) with (2 ^ 32).
  rewrite (be_enc_add_mod 4). f_equal. f_equal.
  pose proof (Z.mod_pos_bound v (2 ^ 32) ltac:(lia)). pose proof (Z.div_mod v (2 ^ 32) ltac:(lia)).
  apply (Z.div_unique_pos _ _ _ (v mod 2 ^ 32 + Z.of_nat i)); lia.
Qed.

Lemma ctr32_loop_spec fuel : forall v inp ec, (length inp <= fuel)%nat ->
  exists used rest o v' ec', ctr32_loop func fuel (be_enc 16 v) (v mod 2 ^ 32) inp = (o, rest, (be_enc 16 v', v' mod 2 ^ 32)) /\
    inp = used ++ rest /\ len rest < 16 /\
    ctr_run (be_enc 16 v, ec, 0) used = (o, (be_enc 16 v', ec', 0)).
Proof.
  induction fuel as [| fuel IH]; intros v inp ec Hf; cbn [ctr32_loop].
  { destruct inp; [| cbn in Hf; lia]. exists [], [], [], v, ec. now repeat split. }
  destruct (Z.ltb_spec (len inp) 16) as [Hlt | Hge]; [exists [], inp, [], v, ec; now repeat split |].
  destruct (ctr32_advance_spec (v mod 2 ^ 32) (len inp)) as (blocks & E & Hb & Hn & Hov); [apply Z.mod_pos_bound; lia | assumption |].
  rewrite E, ctr32_put_spec by assumption. rewrite Zplus_mod_idemp_l.
  assert (L : len (take (16 * blocks) inp) = 16 * Z.of_nat (Z.to_nat blocks)) by (rewrite len_take; lia).
  destruct (ctr_blocks block (Z.to_nat blocks) v ec _ L) as (ec1 & Er). rewrite Z2Nat.id in Er by lia.
  rewrite func_keystream by (rewrite ?L; lia).
  destruct (IH (v + blocks) (drop (16 * blocks) inp) ec1) as (used & rest & o & v' & ec' & E1 & E2 & E3 & E4).
  { unfold drop. rewrite length_skipn. unfold len in *. lia. }
  rewrite E1. eexists (take (16 * blocks) inp ++ used), rest, _, v', ec'. split; [reflexivity |].
  split; [rewrite <- app_assoc, <- E2; symmetry; apply take_drop |]. split; [assumption |].
  rewrite ctr_run_app. unfold ctr_run at 1. cbn [fst snd]. rewrite Er. now rewrite E4.
Qed.


Lemma prefix_loop_ctr_register inp : forall r n o rest r' n',
  @prefix_loop _ (ctr_mode block) r n inp = (o, rest, (r', n')) -> r' = r.
Proof.
  induction inp as [| b inp IH]; intros r n o rest r' n'; cbn [prefix_loop]; [now intros [= _ _ <- _] |].
  destruct (n =? 0); [now intros [= _ _ <- _] |]. cbn [emit ctr_mode]. unfold ctr_emit.
  destruct (prefix_loop r ((n + 1) mod 16) inp) as [[o1 rest1] [r1 n1]] eqn:E.
  intros [= _ _ <- _]. eapply IH, E.
Qed.

Lemma ctr_wf_enc v ec : len ec = 16 -> ctr_wf (be_enc 16 v, ec).
Proof. intros H. split; [apply be_enc_len | split; [apply be_enc_bytes | exact H]]. Qed.

(** The last, partial block. *)
Lemma ctr32_tail v ec l : l <> [] -> len l < 16 ->
  tail_loop (H := ctr_mode block) (length l) (ctr32_put (be_enc 16 v) (u32 (v mod 2 ^ 32 + 1)), func (repeat 0 16) 1 (be_enc 16 v)) 0 l =
  ctr_run (be_enc 16 v, ec, 0) l.
Proof.
  intros Hne Hl. unfold ctr_run. cbn [fst snd]. rewrite ctr_one_block by (assumption || lia).
  pose proof (Z.mod_pos_bound v (2 ^ 32) ltac:(lia)). unfold wrap. rewrite ctr32_put_spec by lia.
  rewrite func_keystream by (lia || reflexivity). change (Z.to_nat 1) with 1%nat.
  pose proof (block_len _ (be_enc_len 16 v)) as Lb. rewrite keystream_S. cbn [keystream seq flat_map]. rewrite app_nil_r.
  rewrite xor_bytes_zero, take_all by (rewrite Lb; lia).
  rewrite tail_loop_spec by (unfold len; lia). rewrite drop_0, ctr_emits by (cbn [snd]; lia).
  cbn [snd]. unfold load. rewrite drop_0, xor_bytes_take. pose proof (len_nonneg l). now rewrite Z.mod_small by lia.
Qed.


Lemma ctr32_encrypt_run st inp : ctr_wf (fst st) -> 0 <= snd st < 16 ->
  out_equiv (CRYPTO_ctr128_encrypt_ctr32 block func st inp) (ctr_run st inp) /\
  ctr_wf (fst (snd (CRYPTO_ctr128_encrypt_ctr32 block func st inp))).
Proof.
  destruct st as [[iv ec] n]. cbn [fst snd]. intros Hwf Hn. pose proof Hwf as (Hl & Hok & He). cbn [fst snd] in Hl, Hok, He.
  unfold CRYPTO_ctr128_encrypt_ctr32. cbn [fst snd].
  destruct (prefix_loop_spec (ctr_mode block) ctr_wf inp (iv, ec) n Hn) as (used & rest & r1 & n1 & o1 & E1 & -> & E2 & E3 & E4 & _).
  pose proof (prefix_loop_ctr_register _ _ _ _ _ _ _ E1) as ->. rewrite E1, ctr_run_app.
  unfold ctr_run at 1. cbn [fst snd]. rewrite E2. destruct E3 as [-> | ->].
  { cbn. rewrite !app_nil_r. split; [reflexivity | exact Hwf]. }
  rewrite (block_as_enc iv) by assumption. rewrite GETU32_counter.
  destruct (ctr32_loop_spec (length rest) (be_val iv) rest ec (le_n _)) as (used2 & rest2 & o2 & v & ec2 & F1 & F2 & F3 & F4).
  rewrite F1, F2, ctr_run_app, F4. destruct (Z.eqb_spec (len rest2) 0) as [Hz | Hz].
  { apply len_0_nil in Hz as ->. unfold ctr_run. cbn [bytes_loop fst snd]. rewrite app_nil_r.
    split; [now repeat split | now apply ctr_wf_enc]. }
  rewrite (ctr32_tail v ec) by (assumption || (intros ->; now apply Hz)).
  assert (Hne : rest2 <> []) by (intros ->; now apply Hz).
  unfold ctr_run. cbn [fst snd]. rewrite !ctr_one_block by (assumption || lia). cbn [fst snd].
  split; [reflexivity | apply ctr_wf_enc, block_len, be_enc_len].
Qed.

Lemma ctr32_calls chunks : forall st, ctr_wf (fst st) -> 0 <= snd st < 16 ->
  out_equiv (calls (CRYPTO_ctr128_encrypt_ctr32 block func) st chunks) (ctr_run st (concat chunks)).
Proof.
  induction chunks as [| c chunks IH]; intros st Hw Hn; cbn [calls concat].
  { unfold ctr_run. cbn. destruct st. reflexivity. }
  destruct (ctr32_encrypt_run st c Hw Hn) as ((Eo & Est) & Hw1). rewrite ctr_run_app.
  destruct (bytes_loop_wf (ctr_mode block) ctr_wf c (fst st) (snd st) Hw Hn) as [_ Hn1].
  fold (ctr_run st c) in Hn1.
  destruct (CRYPTO_ctr128_encrypt_ctr32 block func st c) as [o1 st1], (ctr_run st c) as [o1' st1'].
  cbn [fst snd] in *. subst o1'.
  assert (Hn1' : 0 <= snd st1 < 16) by (destruct Est as (_ & -> & _); assumption).
  specialize (IH st1 Hw1 Hn1'). rewrite (ctr_run_proper _ _ Est (concat chunks) _ eq_refl) in IH.
  destruct (calls _ st1 chunks) as [o2 st2], (ctr_run st1' (concat chunks)) as [o2' st2'].
  destruct IH as [IHo IHs]. cbn [fst snd] in *. split; cbn [fst snd]; [now f_equal | assumption].
Qed.

(** Counter mode is exact. [CRYPTO_ctr128_encrypt] is the XOR of the data with
    the encryptions of the consecutive 128-bit values of the big-endian counter
    [ivec], whatever the alignment and the way the data is cut into calls; and
    the variant driven by a 32-bit counter function computes the same, for any
    sequence of calls from any state, including those where the 32-bit counter
    overflows in the middle of the data. *)
Lemma ctr_modes_exact misaligned :
  (forall iv ecount_buf chunks k,
    len iv = 16 -> bytes_ok iv -> len ecount_buf = 16 -> len (concat chunks) <= 16 * Z.of_nat k ->
    fst (calls (CRYPTO_ctr128_encrypt block misaligned) (iv, ecount_buf, 0) chunks) =
    xor_bytes (concat chunks) (keystream block (be_val iv) k)) /\
  (forall st chunks, ctr_wf (fst st) -> 0 <= snd st < 16 ->
    out_equiv (calls (CRYPTO_ctr128_encrypt_ctr32 block func) st chunks)
              (CRYPTO_ctr128_encrypt block misaligned st (concat chunks))).
Proof.
  split; [intros; now apply ctr128_keystream | intros st chunks Hw Hn].
  rewrite ctr32_calls by assumption. destruct st as [r n].
  unfold CRYPTO_ctr128_encrypt. rewrite (stream128_bytes _ ctr_wf) by assumption. reflexivity.
Qed.
End Ctr32Laws.

(** ** OFB and CFB *)

Section FeedbackLaws.
Context (block : list Z -> list Z) `{!Block128 block}.

Definition iv_wf (iv : list Z) : Prop := len iv = 16.

Lemma ofb_emits l : forall iv n, 0 <= n -> n + len l <= len iv ->
  @emits _ (ofb_mode block) iv n l = (xor_bytes l (load iv n (len l)), iv).
Proof.
  induction l as [| b l IH]; intros iv n Hn Hl; [reflexivity |].
  rewrite len_cons in *. pose proof (len_nonneg l). cbn [emits emit ofb_mode]. unfold ofb_emit.
  rewrite IH, (load_cons iv n) by lia. rewrite xor_bytes_cons. do 4 f_equal. lia.
Qed.

#[export] Instance ofb_laws : StreamLaws (ofb_mode block) iv_wf.
Proof.
  split.
  - intros iv H. now apply block_len.
  - intros iv n b H _. exact H.
  - intros iv n w Hl Hn Hn8 Hw. unfold iv_wf in Hl. rewrite ofb_emits by lia. rewrite Hw. reflexivity.
Qed.

#[export] Instance ofb_inverse : StreamInverse (ofb_mode block) (ofb_mode block).
Proof.
  split; [reflexivity |]. intros iv n b. cbn [emit ofb_mode]. unfold ofb_emit. cbn [fst snd].
  now rewrite Z.lxor_assoc, Z.lxor_nilpotent, Z.lxor_0_r.
Qed.

(** Output feedback undoes itself, from any position in a block and for any
    chunkings of the two directions, and leaves both sides in the same state. *)
Lemma ofb128_involutive st chunks chunks' out st' :
  len (fst st) = 16 -> 0 <= snd st < 16 ->
  calls (CRYPTO_ofb128_encrypt block) st chunks = (out, st') -> concat chunks' = out ->
  calls (CRYPTO_ofb128_encrypt block) st chunks' = (concat chunks, st').
Proof. destruct st as [r n]. apply (calls_inverse (ofb_mode block) (ofb_mode block) iv_wf). Qed.

Lemma cfb_enc_emits l : forall iv n, 0 <= n -> n + len l <= len iv ->
  @emits _ (cfb_mode block true) iv n l =
  (xor_bytes (load iv n (len l)) l, splice iv n (xor_bytes (load iv n (len l)) l)).
Proof.
  induction l as [| b l IH]; intros iv n Hn Hl.
  { change (len []) with 0. unfold load. rewrite take_0. cbn [emits xor_bytes combine map]. now rewrite splice_nil. }
  rewrite len_cons in *. pose proof (len_nonneg l). cbn [emits emit cfb_mode]. unfold cfb_enc_emit.
  set (c := Z.lxor (get iv n) b). rewrite IH by (rewrite ?len_set; lia).
  rewrite (load_cons iv n) by lia. rewrite xor_bytes_cons. fold c. replace (1 + len l - 1) with (len l) by lia.
  rewrite load_set_after by lia. f_equal. unfold set.
  assert (Lx : len (xor_bytes (load iv (n + 1) (len l)) l) = len l).
  { rewrite len_xor_bytes. unfold load. rewrite len_take; rewrite ?len_drop; lia. }
  change (c :: xor_bytes (load iv (n + 1) (len l)) l) with ([c] ++ xor_bytes (load iv (n + 1) (len l)) l).
  change (n + 1) with (n + len [c]) at 1. now rewrite splice_splice_after by (change (len [c]) with 1; lia).
Qed.

(** The register takes the input bytes when decrypting. *)
Lemma cfb_dec_emits l : forall iv n, 0 <= n -> n + len l <= len iv ->
  @emits _ (cfb_mode block false) iv n l = (xor_bytes (load iv n (len l)) l, splice iv n l).
Proof.
  induction l as [| b l IH]; intros iv n Hn Hl.
  { change (len []) with 0. unfold load. rewrite take_0. cbn [emits xor_bytes combine map]. now rewrite splice_nil. }
  rewrite len_cons in *. pose proof (len_nonneg l). cbn [emits emit cfb_mode]. unfold cfb_dec_emit.
  rewrite IH by (rewrite ?len_set; lia).
  rewrite (load_cons iv n) by lia. rewrite xor_bytes_cons. replace (1 + len l - 1) with (len l) by lia.
  rewrite load_set_after by lia. f_equal. unfold set. change (b :: l) with ([b] ++ l).
  change (n + 1) with (n + len [b]) at 1. now rewrite splice_splice_after by (change (len [b]) with 1; lia).
Qed.

#[export] Instance cfb_laws enc : StreamLaws (cfb_mode block enc) iv_wf.
Proof.
  split.
  - intros iv H. destruct enc; now apply block_len.
  - intros iv n b H Hn. unfold iv_wf in *. destruct enc; cbn [emit cfb_mode snd]; unfold cfb_enc_emit, cfb_dec_emit; cbn [snd];
      rewrite len_set by lia; assumption.
  - intros iv n w Hl Hn Hn8 Hw. unfold iv_wf in Hl. destruct enc.
    + rewrite cfb_enc_emits by lia. now rewrite Hw.
    + rewrite cfb_dec_emits by lia. now rewrite Hw.
Qed.

#[export] Instance cfb_inverse : StreamInverse (cfb_mode block true) (cfb_mode block false).
Proof.
  split; [reflexivity |]. intros iv n b. cbn [emit cfb_mode]. unfold cfb_enc_emit, cfb_dec_emit. cbn [fst snd].
  now rewrite <- Z.lxor_assoc, Z.lxor_nilpotent, Z.lxor_0_l.
Qed.

(** Cipher feedback decryption undoes encryption, from any position in a
    block and for any chunkings and alignments of the two directions, and the
    two sides end in the same state. *)
Lemma cfb128_roundtrip mis1 mis2 st chunks chunks' out st' :
  len (fst st) = 16 -> 0 <= snd st < 16 ->
  calls (CRYPTO_cfb128_encrypt block mis1 true) st chunks = (out, st') -> concat chunks' = out ->
  calls (CRYPTO_cfb128_encrypt block mis2 false) st chunks' = (concat chunks, st').
Proof. destruct st as [r n]. apply (calls_inverse (cfb_mode block true) (cfb_mode block false) iv_wf). Qed.

(** ** One-byte and one-bit feedback *)

(** Decrypting the output from the same IV restores the input and the next IV. *)
Lemma cfbr_inverse nbits iv inp out iv' : len iv = 16 -> len inp = (nbits + 7) / 8 ->
  cfbr_encrypt_block block true nbits iv inp = Some (out, iv') ->
  cfbr_encrypt_block block false nbits iv out = Some (inp, iv').
Proof.
  intros Hl Hn. unfold cfbr_encrypt_block. destruct ((nbits <=? 0) || (128 <? nbits)) eqn:Eb; [discriminate |].
  apply orb_false_elim in Eb as [E1 E2]. apply Z.leb_gt in E1. apply Z.ltb_ge in E2.
  intros [= <- <-]. pose proof (block_len iv Hl) as Lb.
  assert (Hle : (nbits + 7) / 8 <= 16) by (Z.to_euclidean_division_equations; lia).
  rewrite (take_all _ inp) by lia. rewrite (take_all _ (xor_bytes inp _)) by (rewrite len_xor_bytes; lia).
  now rewrite xor_bytes_cancel by lia.
Qed.

Lemma len_cfbr_shift ovec nbits : 0 < nbits <= 128 -> len ovec = 16 + (nbits + 7) / 8 -> len (cfbr_shift ovec nbits) = 16.
Proof.
  intros Hn Hl. unfold cfbr_shift. destruct (Z.eqb_spec (nbits mod 8) 0) as [E | E].
  - unfold load. rewrite len_take; [reflexivity |]. rewrite len_drop; Z.to_euclidean_division_equations; lia.
  - now rewrite len_map.
Qed.

Lemma cfbr_len enc nbits iv inp out iv' : len iv = 16 -> len inp = (nbits + 7) / 8 ->
  cfbr_encrypt_block block enc nbits iv inp = Some (out, iv') -> len iv' = 16 /\ len out = len inp.
Proof.
  intros Hl Hn. unfold cfbr_encrypt_block. destruct ((nbits <=? 0) || (128 <? nbits)) eqn:Eb; [discriminate |].
  apply orb_false_elim in Eb as [E1 E2]. apply Z.leb_gt in E1. apply Z.ltb_ge in E2.
  intros [= <- <-]. pose proof (block_len iv Hl) as Lb.
  assert (Hle : (nbits + 7) / 8 <= 16) by (Z.to_euclidean_division_equations; lia).
  rewrite (take_all _ inp) by lia. rewrite len_xor_bytes, Lb. split; [| lia].
  apply len_cfbr_shift; [lia |]. destruct enc; rewrite len_app, ?len_xor_bytes; lia.
Qed.

Lemma cfb8_inverse inp : forall iv out iv', len iv = 16 ->
  CRYPTO_cfb128_8_encrypt block true inp iv = (out, iv') ->
  CRYPTO_cfb128_8_encrypt block false out iv = (inp, iv').
Proof.
  induction inp as [| b inp IH]; intros iv out iv' Hl; cbn [CRYPTO_cfb128_8_encrypt]; [now intros [= <- <-] |].
  destruct (cfbr_encrypt_block block true 8 iv [b]) as [[o iv1] |] eqn:E; [| now unfold cfbr_encrypt_block in E].
  destruct (cfbr_len true 8 iv [b] o iv1 Hl eq_refl E) as [Hl1 Ho].
  destruct (CRYPTO_cfb128_8_encrypt block true inp iv1) as [out2 iv2] eqn:E2. intros [= <- <-].
  apply (cfbr_inverse 8 iv [b] o iv1 Hl eq_refl) in E.
  destruct o as [| c [| c' o]]; rewrite ?len_cons, ?len_nil in Ho; pose_lens; try lia.
  cbn [app CRYPTO_cfb128_8_encrypt]. rewrite E. now rewrite (IH iv1 out2 iv2 Hl1 E2).
Qed.

(** Bit [n] of a buffer, most significant bit of each byte first. *)
Definition bit_at (l : list Z) (n : Z) : bool := Z.testbit (get l (n / 8)) (7 - n mod 8).

(** One-bit feedback as a function on bits. *)
Definition shift1 (iv : list Z) (b : bool) : list Z := cfbr_shift (iv ++ [if b then 128 else 0]) 1.

Fixpoint cfb1_bits (enc : bool) (iv : list Z) (l : list bool) : list bool * list Z :=
  match l with
  | [] => ([], iv)
  | b :: l =>
      let o := xorb b (Z.testbit (get (block iv) 0) 7) in
      let (out, iv) := cfb1_bits enc (shift1 iv (if enc then o else b)) l in (o :: out, iv)
  end.

Lemma cfb1_bits_inverse l : forall iv,
  cfb1_bits false iv (fst (cfb1_bits true iv l)) = (l, snd (cfb1_bits true iv l)).
Proof.
  induction l as [| b l IH]; intros iv; cbn [cfb1_bits]; [reflexivity |].
  set (k := Z.testbit _ _). specialize (IH (shift1 iv (xorb b k))).
  destruct (cfb1_bits true _ l) as [out iv']. cbn [fst snd] in *. cbn [cfb1_bits]. fold k. rewrite IH.
  now rewrite xorb_assoc, xorb_nilpotent, xorb_false_r.
Qed.

Lemma cfb1_bits_snoc enc l b : forall iv, cfb1_bits enc iv (l ++ [b]) =
  let (out, iv) := cfb1_bits enc iv l in
  let o := xorb b (Z.testbit (get (block iv) 0) 7) in
  (out ++ [o], shift1 iv (if enc then o else b)).
Proof.
  induction l as [| c l IH]; intros iv; cbn [app cfb1_bits]; [reflexivity |].
  rewrite IH. now destruct (cfb1_bits enc _ l).
Qed.

Lemma cfbr_shift_bit iv x : len iv = 16 -> byte_ok x -> cfbr_shift (iv ++ [x]) 1 = shift1 iv (Z.testbit x 7).
Proof.
  intros Hl Hx. unfold shift1, cfbr_shift. change (1 mod 8 =? 0) with false. change (1 / 8) with 0. cbv iota.
  apply map_ext_in. intros n Hn. apply in_seq in Hn. f_equal. f_equal.
  - now rewrite !get_app_l by lia.
  - change (8 - 1 mod 8) with 7. destruct (Z.eq_dec (Z.of_nat n + 0 + 1) 16) as [E | E].
    + rewrite E, <- Hl, !get_app_end.
      apply Z.eqb_eq. exact (forall_byte (fun x => Z.shiftr x 7 =? Z.shiftr (if Z.testbit x 7 then 128 else 0) 7) eq_refl x Hx).
    + now rewrite !get_app_l by lia.
Qed.

Lemma land_shl1_eqb x k : 0 <= k -> negb (Z.land x (Z.shiftl 1 k) =? 0) = Z.testbit x k.
Proof.
  intros Hk. rewrite Z.shiftl_1_l. destruct (Z.eqb_spec (Z.land x (2 ^ k)) 0) as [E | E].
  - assert (H : Z.testbit (Z.land x (2 ^ k)) k = false) by now rewrite E, Z.bits_0.
    rewrite Z.land_spec, Z.pow2_bits_true, andb_true_r in H by lia. now rewrite H.
  - destruct (Z.testbit x k) eqn:Et; [reflexivity |]. exfalso. apply E. apply Z.bits_inj'. intros i Hi.
    rewrite Z.land_spec, Z.pow2_bits_eqb, Z.bits_0 by lia. destruct (Z.eqb_spec k i) as [<- |]; [now rewrite Et | apply andb_false_r].
Qed.

(** The byte with bit [7 - k] replaced by the top bit of [d]. *)
Lemma put_bit_spec o d k j : 0 <= k < 8 -> 0 <= j < 8 ->
  Z.testbit (u8 (Z.lor (Z.land o (Z.lnot (Z.shiftl 1 (7 - k)))) (Z.shiftr (Z.land d 128) k))) j =
  if j =? 7 - k then Z.testbit d 7 else Z.testbit o j.
Proof.
  intros Hk Hj. unfold wrap. rewrite Z.mod_pow2_bits_low by lia.
  rewrite Z.lor_spec, Z.land_spec, Z.lnot_spec, Z.shiftl_1_l, Z.pow2_bits_eqb, Z.shiftr_spec, Z.land_spec by lia.
  change 128 with (2 ^ 7). rewrite Z.pow2_bits_eqb by lia.
  rewrite (Z.eqb_sym j). destruct (Z.eqb_spec (7 - k) j) as [<- | E].
  - replace (7 - k + k) with 7 by lia. rewrite Z.eqb_refl. cbn. now rewrite andb_false_r, andb_true_r.
  - destruct (Z.eqb_spec 7 (j + k)); [lia |]. cbn. now rewrite andb_true_r, andb_false_r, orb_false_r.
Qed.

Lemma cfb1_step_spec enc inp n out iv : len iv = 16 -> bytes_ok iv -> 0 <= n -> n / 8 < len out ->
  let o := xorb (bit_at inp n) (Z.testbit (get (block iv) 0) 7) in
  exists out', cfb1_step block enc inp n (out, iv) = (out', shift1 iv (if enc then o else bit_at inp n)) /\
    len out' = len out /\ bit_at out' n = o /\ (forall m, 0 <= m -> m <> n -> bit_at out' m = bit_at out m).
Proof.
  intros Hl Hok Hn Hlen o. pose proof (Z.mod_pos_bound n 8 ltac:(lia)) as Hk. pose proof (Z.div_pos n 8 Hn ltac:(lia)) as Hq.
  unfold cfb1_step. rewrite land_shl1_eqb by lia. fold (bit_at inp n). set (c := if bit_at inp n then 128 else 0).
  assert (Hc : byte_ok c /\ Z.testbit c 7 = bit_at inp n) by (unfold c, byte_ok; now destruct (bit_at inp n)).
  destruct Hc as [Hc Hc7]. unfold cfbr_encrypt_block. change ((1 <=? 0) || (128 <? 1)) with false. cbv iota.
  change (take ((1 + 7) / 8) [c]) with [c].
  pose proof (block_len iv Hl) as Lb. pose proof (block_bytes iv Hl Hok) as Bb.
  destruct (block iv) as [| k0 ks] eqn:Eb; [discriminate |]. change (xor_bytes [c] (k0 :: ks)) with [Z.lxor c k0].
  change (get (k0 :: ks) 0) with k0 in *. change (get [Z.lxor c k0] 0) with (Z.lxor c k0). inversion_clear Bb as [| ? ? Hk0 _].
  assert (Hd : byte_ok (Z.lxor c k0)) by (unfold byte_ok in *; apply (lxor_range 8); lia).
  assert (Hd7 : Z.testbit (Z.lxor c k0) 7 = o) by (now rewrite Z.lxor_spec, Hc7).
  eexists. split.
  { f_equal. destruct enc; rewrite cfbr_shift_bit by assumption; now rewrite ?Hd7, ?Hc7. }
  split; [apply len_set; lia |]. split.
  - unfold bit_at at 1. rewrite get_set_same by lia. rewrite put_bit_spec by lia. now rewrite Z.eqb_refl.
  - intros m Hm Hne. pose proof (Z.mod_pos_bound m 8 ltac:(lia)). unfold bit_at.
    destruct (Z.eq_dec (m / 8) (n / 8)) as [E | E].
    + rewrite E, get_set_same by lia. rewrite put_bit_spec by lia.
      destruct (Z.eqb_spec (7 - m mod 8) (7 - n mod 8)) as [E' |]; [| now rewrite <- E].
      pose proof (Z.div_mod m 8). pose proof (Z.div_mod n 8). lia.
    + rewrite get_set_other by (try apply Z.div_pos; lia). reflexivity.
Qed.

Lemma shift1_ok iv b : len (shift1 iv b) = 16 /\ bytes_ok (shift1 iv b).
Proof.
  unfold shift1, cfbr_shift. change (1 mod 8 =? 0) with false. cbv iota. rewrite len_map. split; [reflexivity |].
  apply Forall_map, Forall_forall. intros. apply byte_ok_wrap.
Qed.

(** The routine on packed bits is the function on bits. *)
Lemma cfb1_encrypt_bits enc inp out iv bits : len iv = 16 -> bytes_ok iv -> Z.of_nat bits <= 8 * len out ->
  exists out' iv', CRYPTO_cfb128_1_encrypt block enc inp out bits iv = (out', iv') /\ len out' = len out /\
    len iv' = 16 /\ bytes_ok iv' /\
    cfb1_bits enc iv (map (fun n => bit_at inp (Z.of_nat n)) (seq 0 bits)) =
    (map (fun n => bit_at out' (Z.of_nat n)) (seq 0 bits), iv') /\
    (forall m, Z.of_nat bits <= m -> bit_at out' m = bit_at out m).
Proof.
  intros Hl Hok. unfold CRYPTO_cfb128_1_encrypt. induction bits as [| k IH]; intros Hb.
  { exists out, iv. now repeat split. }
  destruct IH as (out1 & iv1 & E1 & L1 & Li1 & Bi1 & E2 & Hrest); [lia |].
  rewrite seq_S, fold_left_app, E1. cbn [fold_left Nat.add].
  destruct (cfb1_step_spec enc inp (Z.of_nat k) out1 iv1 Li1 Bi1) as (out2 & Es & L2 & Hn & Hm);
    [lia | Z.to_euclidean_division_equations; lia |].
  destruct (shift1_ok iv1 (if enc then xorb (bit_at inp (Z.of_nat k)) (Z.testbit (get (block iv1) 0) 7) else bit_at inp (Z.of_nat k))) as [Ls Bs].
  rewrite Es. eexists out2, _. split; [reflexivity |]. split; [lia |]. split; [exact Ls |]. split; [exact Bs |]. split.
  - rewrite !map_app. cbn [map Nat.add]. rewrite cfb1_bits_snoc, E2. cbv zeta. rewrite Hn. do 2 f_equal.
    apply map_ext_in. intros n Hin. apply in_seq in Hin. rewrite Hm by lia. reflexivity.
  - intros m Hge. rewrite Hm by lia. apply Hrest. lia.
Qed.

(** One-bit cipher feedback decrypts what it encrypted, through any buffers
    that agree on the bits concerned. *)
Lemma cfb1_roundtrip iv inp out ct1 ct2 iv1 out2 bits :
  len iv = 16 -> bytes_ok iv -> Z.of_nat bits <= 8 * len out -> Z.of_nat bits <= 8 * len out2 ->
  CRYPTO_cfb128_1_encrypt block true inp out bits iv = (ct1, iv1) ->
  (forall n, 0 <= n < Z.of_nat bits -> bit_at ct2 n = bit_at ct1 n) ->
  exists res, CRYPTO_cfb128_1_encrypt block false ct2 out2 bits iv = (res, iv1) /\
    (forall n, 0 <= n < Z.of_nat bits -> bit_at res n = bit_at inp n) /\
    (forall n, Z.of_nat bits <= n -> bit_at res n = bit_at out2 n).
Proof.
  intros Hl Hok Hb1 Hb2 E1 Hct.
  destruct (cfb1_encrypt_bits true inp out iv bits Hl Hok Hb1) as (ct1' & iv1' & E & _ & _ & _ & Es & _).
  rewrite E1 in E. injection E as <- <-.
  destruct (cfb1_encrypt_bits false ct2 out2 iv bits Hl Hok Hb2) as (res & iv2 & E & _ & _ & _ & Es2 & Hrest).
  exists res. rewrite E. pose proof (cfb1_bits_inverse (map (fun n => bit_at inp (Z.of_nat n)) (seq 0 bits)) iv) as Hinv.
  rewrite Es in Hinv. cbn [fst snd] in Hinv.
  rewrite (map_ext_in (fun n => bit_at ct2 (Z.of_nat n)) (fun n => bit_at ct1 (Z.of_nat n))) in Es2
    by (intros n Hin; apply in_seq in Hin; apply Hct; lia).
  rewrite Hinv in Es2. injection Es2 as Em <-. split; [reflexivity |]. split; [| exact Hrest].
  intros n Hn. assert (Hin : In (Z.to_nat n) (seq 0 bits)) by (apply in_seq; lia).
  rewrite <- (Z2Nat.id n) by lia. symmetry. exact (ext_in_map Em (Z.to_nat n) Hin).
Qed.
End FeedbackLaws.

(** The modes undo themselves. Counter mode and output feedback fed
    with their own output, and cipher feedback decrypting what it encrypted,
    give the input back and end in the same state, from any position in a
    block, for any alignment and for any way of cutting the data into calls in
    either direction. One-byte and one-bit cipher feedback decrypt what they
    encrypt; the one-bit routine works on packed bits inside existing buffers,
    for any number of bits that fit, and touches no later bit. *)
Lemma stream_modes_roundtrip (block : list Z -> list Z) : Block128 block ->
  forall mis1 mis2 chunks chunks',
  (forall st out st', ctr_wf (fst st) -> 0 <= snd st < 16 ->
    calls (CRYPTO_ctr128_encrypt block mis1) st chunks = (out, st') -> concat chunks' = out ->
    calls (CRYPTO_ctr128_encrypt block mis2) st chunks' = (concat chunks, st')) /\
  (forall st out st', len (fst st) = 16 -> 0 <= snd st < 16 ->
    calls (CRYPTO_ofb128_encrypt block) st chunks = (out, st') -> concat chunks' = out ->
    calls (CRYPTO_ofb128_encrypt block) st chunks' = (concat chunks, st')) /\
  (forall st out st', len (fst st) = 16 -> 0 <= snd st < 16 ->
    calls (CRYPTO_cfb128_encrypt block mis1 true) st chunks = (out, st') -> concat chunks' = out ->
    calls (CRYPTO_cfb128_encrypt block mis2 false) st chunks' = (concat chunks, st')) /\
  (forall iv data ct iv8, len iv = 16 ->
    CRYPTO_cfb128_8_encrypt block true data iv = (ct, iv8) ->
    CRYPTO_cfb128_8_encrypt block false ct iv = (data, iv8)) /\
  (forall iv inp out ct1 ct2 iv1 out2 bits,
    len iv = 16 -> bytes_ok iv -> Z.of_nat bits <= 8 * len out -> Z.of_nat bits <= 8 * len out2 ->
    CRYPTO_cfb128_1_encrypt block true inp out bits iv = (ct1, iv1) ->
    (forall n, 0 <= n < Z.of_nat bits -> bit_at ct2 n = bit_at ct1 n) ->
    exists res, CRYPTO_cfb128_1_encrypt block false ct2 out2 bits iv = (res, iv1) /\
      (forall n, 0 <= n < Z.of_nat bits -> bit_at res n = bit_at inp n) /\
      (forall n, Z.of_nat bits <= n -> bit_at res n = bit_at out2 n)).
Proof.
  intros Hb mis1 mis2 chunks chunks'. split; [| split; [| split; [| split]]].
  - intros st out st'. now apply ctr128_involutive.
  - intros st out st'. now apply ofb128_involutive.
  - intros st out st'. now apply cfb128_roundtrip.
  - intros iv data ct iv8. now apply cfb8_inverse.
  - intros iv inp out ct1 ct2 iv1 out2 bits. now apply cfb1_roundtrip.
Qed.

(** C35: the stream modes. [CRYPTO_ctr128_encrypt] is the XOR of the data with the
    encryptions of the consecutive 128-bit values of the big-endian counter
    [ivec], whatever the alignment and the way the data is cut into calls; the
    variant driven by a 32-bit counter function computes the same, for any
    sequence of calls from any state, also when the 32-bit counter overflows in
    the middle of the data. Counter mode and output feedback fed with their own
    output, and cipher feedback decrypting what it encrypted, give the input back
    and end in the same state, from any position in a block, for any alignment and
    any way of cutting the data in either direction. One-byte and one-bit cipher
    feedback decrypt what they encrypt; the one-bit routine works on packed bits
    inside existing buffers, for any number of bits that fit, and touches no later
    bit. *)
Theorem stream_modes_exact (block : list Z -> list Z) func : Block128 block -> Ctr32 block func ->
  (forall misaligned,
    (forall iv ecount_buf chunks k,
      len iv = 16 -> bytes_ok iv -> len ecount_buf = 16 -> len (concat chunks) <= 16 * Z.of_nat k ->
      fst (calls (CRYPTO_ctr128_encrypt block misaligned) (iv, ecount_buf, 0) chunks) =
      xor_bytes (concat chunks) (keystream block (be_val iv) k)) /\
    (forall st chunks, ctr_wf (fst st) -> 0 <= snd st < 16 ->
      out_equiv (calls (CRYPTO_ctr128_encrypt_ctr32 block func) st chunks)
                (CRYPTO_ctr128_encrypt block misaligned st (concat chunks)))) /\
  (forall mis1 mis2 chunks chunks',
    (forall st out st', ctr_wf (fst st) -> 0 <= snd st < 16 ->
      calls (CRYPTO_ctr128_encrypt block mis1) st chunks = (out, st') -> concat chunks' = out ->
      calls (CRYPTO_ctr128_encrypt block mis2) st chunks' = (concat chunks, st')) /\
    (forall st out st', len (fst st) = 16 -> 0 <= snd st < 16 ->
      calls (CRYPTO_ofb128_encrypt block) st chunks = (out, st') -> concat chunks' = out ->
      calls (CRYPTO_ofb128_encrypt block) st chunks' = (concat chunks, st')) /\
    (forall st out st', len (fst st) = 16 -> 0 <= snd st < 16 ->
      calls (CRYPTO_cfb128_encrypt block mis1 true) st chunks = (out, st') -> concat chunks' = out ->
      calls (CRYPTO_cfb128_encrypt block mis2 false) st chunks' = (concat chunks, st')) /\
    (forall iv data ct iv8, len iv = 16 ->
      CRYPTO_cfb128_8_encrypt block true data iv = (ct, iv8) ->
      CRYPTO_cfb128_8_encrypt block false ct iv = (data, iv8)) /\
    (forall iv inp out ct1 ct2 iv1 out2 bits,
      len iv = 16 -> bytes_ok iv -> Z.of_nat bits <= 8 * len out -> Z.of_nat bits <= 8 * len out2 ->
      CRYPTO_cfb128_1_encrypt block true inp out bits iv = (ct1, iv1) ->
      (forall n, 0 <= n < Z.of_nat bits -> bit_at ct2 n = bit_at ct1 n) ->
      exists res, CRYPTO_cfb128_1_encrypt block false ct2 out2 bits iv = (res, iv1) /\
        (forall n, 0 <= n < Z.of_nat bits -> bit_at res n = bit_at inp n) /\
        (forall n, Z.of_nat bits <= n -> bit_at res n = bit_at out2 n))).
Proof.
  intros Hb Hf. split; [intros misaligned; now apply ctr_modes_exact | intros mis1 mis2 chunks chunks'; now apply stream_modes_roundtrip].
Qed.

(** ** Concrete runs *)

(** A permutation of blocks standing for the cipher. *)
Definition toy_block (x : list Z) : list Z := rev (map (fun b => (b + 7) mod 256) x).
Definition toy_unblock (x : list Z) : list Z := map (fun b => (b - 7) mod 256) (rev x).

Lemma mod256_bytes (f : Z -> Z) x : bytes_ok (map (fun b => f b mod 256) x).
Proof. apply Forall_map, Forall_forall. intros b _. unfold byte_ok. apply Z.mod_pos_bound. lia. Qed.

#[export] Instance toy_cipher : BlockCipher toy_block toy_unblock.
Proof.
  split; [split | split |].
  - intros x H. unfold toy_block. now rewrite len_rev, len_map.
  - intros x _ _. unfold toy_block. apply Forall_rev. exact (mod256_bytes (fun b => b + 7) x).
  - intros x H. unfold toy_unblock. now rewrite len_map, len_rev.
  - intros x _ _. exact (mod256_bytes (fun b => b - 7) (rev x)).
  - intros x _ Hok. unfold toy_unblock, toy_block. rewrite rev_involutive, map_map.
    rewrite <- (map_id x) at 2. apply map_ext_in. intros b Hin.
    apply (proj1 (Forall_forall _ _) Hok) in Hin. unfold byte_ok in Hin. Z.to_euclidean_division_equations; lia.
Qed.

Definition toy_ctr32 (inp : list Z) (blocks : Z) (iv : list Z) : list Z :=
  xor_bytes inp (flat_map (fun i => toy_block (take 12 iv ++ be_enc 4 (be_val (drop 12 iv) + Z.of_nat i)))
                   (seq 0 (Z.to_nat blocks))).

#[export] Instance toy_func : Ctr32 toy_block toy_ctr32.
Proof. split. reflexivity. Qed.

(** A counter block about to overflow its low 32 bits. *)
Definition toy_iv : list Z := repeat 1 11 ++ [9; 255; 255; 255; 255].
Definition toy_data : list Z := map Z.of_nat (seq 40 41).

Lemma toy_iv_ok : len toy_iv = 16 /\ bytes_ok toy_iv.
Proof. split; [reflexivity |]. repeat constructor; unfold byte_ok; lia. Qed.

Lemma stream_modes_exact_witness :
  (fst (calls (CRYPTO_ctr128_encrypt toy_block false) (toy_iv, repeat 0 16, 0) [take 5 toy_data; drop 5 toy_data]) =
     xor_bytes toy_data (keystream toy_block (be_val toy_iv) 3) /\
   out_equiv (calls (CRYPTO_ctr128_encrypt_ctr32 toy_block toy_ctr32) (toy_iv, repeat 0 16, 0) [take 35 toy_data; drop 35 toy_data])
             (CRYPTO_ctr128_encrypt toy_block false (toy_iv, repeat 0 16, 0) toy_data)) /\
  ((let st := (toy_iv, repeat 0 16, 0) in
    let out := fst (calls (CRYPTO_ctr128_encrypt toy_block false) st [take 5 toy_data; drop 5 toy_data]) in
    fst (calls (CRYPTO_ctr128_encrypt toy_block true) st [take 20 out; drop 20 out]) = toy_data) /\
   (let out := fst (calls (CRYPTO_ofb128_encrypt toy_block) (toy_iv, 3) [take 5 toy_data; drop 5 toy_data]) in
    fst (calls (CRYPTO_ofb128_encrypt toy_block) (toy_iv, 3) [take 20 out; drop 20 out]) = toy_data) /\
   (let out := fst (calls (CRYPTO_cfb128_encrypt toy_block false true) (toy_iv, 3) [take 5 toy_data; drop 5 toy_data]) in
    fst (calls (CRYPTO_cfb128_encrypt toy_block true false) (toy_iv, 3) [take 20 out; drop 20 out]) = toy_data) /\
   (let '(ct, iv8) := CRYPTO_cfb128_8_encrypt toy_block true [1; 2; 3] toy_iv in
    CRYPTO_cfb128_8_encrypt toy_block false ct toy_iv = ([1; 2; 3], iv8)) /\
   (let '(ct1, iv1) := CRYPTO_cfb128_1_encrypt toy_block true [177; 5] [0; 0] 11 toy_iv in
    exists res, CRYPTO_cfb128_1_encrypt toy_block false ct1 [9; 255] 11 toy_iv = (res, iv1) /\
     (forall n, 0 <= n < 11 -> bit_at res n = bit_at [177; 5] n) /\
     (forall n, 11 <= n -> bit_at res n = bit_at [9; 255] n))).
Proof.
  cbv zeta. split; [split | split; [| split; [| split; [| split]]]].
  - apply (proj1 (proj1 (stream_modes_exact toy_block toy_ctr32 _ _) false) toy_iv (repeat 0 16) [take 5 toy_data; drop 5 toy_data] 3%nat).
    + apply toy_iv_ok.
    + apply toy_iv_ok.
    + reflexivity.
    + vm_compute. discriminate.
  - apply (proj2 (proj1 (stream_modes_exact toy_block toy_ctr32 _ _) false) (toy_iv, repeat 0 16, 0) [take 35 toy_data; drop 35 toy_data]).
    + split; [apply toy_iv_ok | split; [apply toy_iv_ok | reflexivity]].
    + cbn. lia.
  - erewrite (proj1 (proj2 (stream_modes_exact toy_block toy_ctr32 _ _) false true [take 5 toy_data; drop 5 toy_data] _)).
    + reflexivity.
    + split; [apply toy_iv_ok | split; [apply toy_iv_ok | reflexivity]].
    + cbn. lia.
    + apply surjective_pairing.
    + cbn [concat]. rewrite app_nil_r. apply take_drop.
  - erewrite (proj1 (proj2 (proj2 (stream_modes_exact toy_block toy_ctr32 _ _) false true [take 5 toy_data; drop 5 toy_data] _))).
    + reflexivity.
    + reflexivity.
    + cbn. lia.
    + apply surjective_pairing.
    + cbn [concat]. rewrite app_nil_r. apply take_drop.
  - erewrite (proj1 (proj2 (proj2 (proj2 (stream_modes_exact toy_block toy_ctr32 _ _) false true [take 5 toy_data; drop 5 toy_data] _)))).
    + reflexivity.
    + reflexivity.
    + cbn. lia.
    + apply surjective_pairing.
    + cbn [concat]. rewrite app_nil_r. apply take_drop.
  - destruct (CRYPTO_cfb128_8_encrypt toy_block true [1; 2; 3] toy_iv) as [ct iv8] eqn:E8.
    apply (proj1 (proj2 (proj2 (proj2 (proj2 (stream_modes_exact toy_block toy_ctr32 _ _) false true [] [])))) toy_iv [1; 2; 3] ct iv8); [reflexivity | exact E8].
  - destruct (CRYPTO_cfb128_1_encrypt toy_block true [177; 5] [0; 0] 11 toy_iv) as [ct1 iv1] eqn:E1.
    apply (proj2 (proj2 (proj2 (proj2 (proj2 (stream_modes_exact toy_block toy_ctr32 _ _) false true [] [])))) toy_iv [177; 5] [0; 0] ct1 ct1 iv1 [9; 255] 11%nat).
    + apply toy_iv_ok.
    + apply toy_iv_ok.
    + vm_compute. discriminate.
    + vm_compute. discriminate.
    + exact E1.
    + reflexivity.
Defined.
