(* ===== verification/Cbc.v ===== *)
(** * Cipher block chaining in shared memory (crypto/fipsmodule/modes/cbc.c)

    [in] and [out] are addresses in one memory and may overlap, which is what
    the three branches of the decryption are about. [ivec] is apart from them. *)

From S2P Require Import Prelude Buffers Memory Modes.

(** [const uint8_t *iv]: either [ivec] or an address in memory. *)
Inductive iv_ptr : Type := Ivec | At (a : Z).

Definition ivload (ivec : list Z) (m : mem) (iv : iv_ptr) (n w : Z) : list Z :=
  match iv with Ivec => load ivec n w | At a => mload m (a + n) w end.

Section Cbc.
Variable block unblock : list Z -> list Z.
Variable STRICT_ALIGNMENT : bool.
(** The address of [ivec], which only the alignment test reads. *)
Variable ivec_addr : Z.

(** The step of the inner loops: 1 byte, or [sizeof(size_t)]. *)
Definition word_size (inp out : Z) : Z :=
  if STRICT_ALIGNMENT && negb (Z.lor (Z.lor inp out) ivec_addr mod 8 =? 0) then 1 else 8.

(** [for (; n < bound; n += w) out[n] = in[n] ^ iv[n]]. *)
Fixpoint xor_loop (fuel : nat) (w bound : Z) (ivec : list Z) (m : mem) (inp out : Z) (iv : iv_ptr) (n : Z) : mem :=
  match fuel with
  | O => m
  | S fuel =>
      if n <? bound then
        let m := mstore m (out + n) (xor_bytes (mload m (inp + n) w) (ivload ivec m iv n w)) in
        xor_loop fuel w bound ivec m inp out iv (n + w)
      else m
  end.

(** [for (; n < 16; ++n) out[n] = iv[n]]. *)
Fixpoint copy_loop (fuel : nat) (ivec : list Z) (m : mem) (out : Z) (iv : iv_ptr) (n : Z) : mem :=
  match fuel with
  | O => m
  | S fuel =>
      if n <? 16 then copy_loop fuel ivec (mstore m (out + n) (ivload ivec m iv n 1)) out iv (n + 1) else m
  end.

(** The [while (len >= 16)] loop of [CRYPTO_cbc128_encrypt]. *)
Fixpoint enc_loop (fuel : nat) (w : Z) (ivec : list Z) (m : mem) (iv : iv_ptr) (n inp out : Z)
  : mem * iv_ptr * Z * Z * Z :=
  match fuel with
  | O => (m, iv, n, inp, out)
  | S fuel =>
      if 16 <=? n then
        let m := xor_loop 16 w 16 ivec m inp out iv 0 in
        let m := mstore m out (block (mload m out 16)) in
        enc_loop fuel w ivec m (At out) (n - 16) (inp + 16) (out + 16)
      else (m, iv, n, inp, out)
  end.

(** Its [while (len)] loop. *)
Fixpoint enc_tail (fuel : nat) (ivec : list Z) (m : mem) (iv : iv_ptr) (n inp out : Z) : mem * iv_ptr :=
  match fuel with
  | O => (m, iv)
  | S fuel =>
      if n =? 0 then (m, iv) else
      let m := xor_loop 16 1 (Z.min 16 n) ivec m inp out iv 0 in
      let m := copy_loop 16 ivec m out iv (Z.min 16 n) in
      let m := mstore m out (block (mload m out 16)) in
      if n <=? 16 then (m, At out) else enc_tail fuel ivec m (At out) (n - 16) (inp + 16) (out + 16)
  end.

(** The result is the memory and [ivec]. *)
Definition CRYPTO_cbc128_encrypt (m : mem) (inp out n : Z) (ivec : list Z) : mem * list Z :=
  let '(m, iv, n', inp', out') := enc_loop (S (Z.to_nat n)) (word_size inp out) ivec m Ivec n inp out in
  let (m, iv) := enc_tail (S (Z.to_nat n')) ivec m iv n' inp' out' in
  (m, ivload ivec m iv 0 16).

(** [for (n = 0; n < 16; n += w) out[n] ^= iv[n]] is [xor_loop] with [in = out].
    The loop for buffers at least two blocks apart or disjoint. *)
Fixpoint dec_direct_loop (fuel : nat) (w : Z) (ivec : list Z) (m : mem) (iv : iv_ptr) (n inp out : Z)
  : mem * iv_ptr * Z * Z * Z :=
  match fuel with
  | O => (m, iv, n, inp, out)
  | S fuel =>
      if 16 <=? n then
        let m := mstore m out (unblock (mload m inp 16)) in
        let m := xor_loop 16 w 16 ivec m out out iv 0 in
        dec_direct_loop fuel w ivec m (At inp) (n - 16) (inp + 16) (out + 16)
      else (m, iv, n, inp, out)
  end.

(** [c = in[n]; out[n] = tmp[n] ^ ivec[n]; ivec[n] = c] for [n < bound]. *)
Fixpoint tmp_loop (fuel : nat) (w bound : Z) (tmp ivec : list Z) (m : mem) (inp out n : Z) : mem * list Z :=
  match fuel with
  | O => (m, ivec)
  | S fuel =>
      if n <? bound then
        let c := mload m (inp + n) w in
        let m := mstore m (out + n) (xor_bytes (load tmp n w) (load ivec n w)) in
        tmp_loop fuel w bound tmp (splice ivec n c) m inp out (n + w)
      else (m, ivec)
  end.

(** The loop through a temporary block. *)
Fixpoint dec_tmp_loop (fuel : nat) (w : Z) (ivec : list Z) (m : mem) (n inp out : Z)
  : mem * list Z * Z * Z * Z :=
  match fuel with
  | O => (m, ivec, n, inp, out)
  | S fuel =>
      if 16 <=? n then
        let (m, ivec) := tmp_loop 16 w 16 (unblock (mload m inp 16)) ivec m inp out 0 in
        dec_tmp_loop fuel w ivec m (n - 16) (inp + 16) (out + 16)
      else (m, ivec, n, inp, out)
  end.

(** [for (; n < 16; ++n) ivec[n] = in[n]]. *)
Fixpoint iv_loop (fuel : nat) (ivec : list Z) (m : mem) (inp n : Z) : list Z :=
  match fuel with
  | O => ivec
  | S fuel => if n <? 16 then iv_loop fuel (set ivec n (m (inp + n))) m inp (n + 1) else ivec
  end.

Fixpoint dec_tail (fuel : nat) (ivec : list Z) (m : mem) (n inp out : Z) : mem * list Z :=
  match fuel with
  | O => (m, ivec)
  | S fuel =>
      if n =? 0 then (m, ivec) else
      let (m, ivec) := tmp_loop 16 1 (Z.min 16 n) (unblock (mload m inp 16)) ivec m inp out 0 in
      if n <=? 16 then (m, iv_loop 16 ivec m inp (Z.min 16 n))
      else dec_tail fuel ivec m (n - 16) (inp + 16) (out + 16)
  end.

Definition CRYPTO_cbc128_decrypt (m : mem) (inp out n : Z) (ivec : list Z) : mem * list Z :=
  let w := word_size inp out in
  let '(m, ivec, n, inp, out) :=
    if ((32 <=? inp) && (out <=? inp - 32)) || (inp <? out) then
      let '(m, iv, n, inp, out) := dec_direct_loop (S (Z.to_nat n)) w ivec m Ivec n inp out in
      (m, ivload ivec m iv 0 16, n, inp, out)
    else dec_tmp_loop (S (Z.to_nat n)) w ivec m n inp out in
  dec_tail (S (Z.to_nat n)) ivec m n inp out.

(** ** The mode on byte strings *)

(** Blocks are chained; a last partial block is padded with zeros. *)
Fixpoint cbc_enc (fuel : nat) (iv data : list Z) : list Z * list Z :=
  match fuel, data with
  | O, _ | _, [] => ([], iv)
  | S fuel, _ =>
      let b := take 16 data in
      let c := block (xor_bytes (b ++ repeat 0 (16 - length b)) iv) in
      let (out, iv) := cbc_enc fuel c (drop 16 data) in (c ++ out, iv)
  end.

Fixpoint cbc_dec (fuel : nat) (iv ct : list Z) : list Z * list Z :=
  match fuel, ct with
  | O, _ | _, [] => ([], iv)
  | S fuel, _ =>
      let c := take 16 ct in
      let (out, iv') := cbc_dec fuel c (drop 16 ct) in (xor_bytes (unblock c) iv ++ out, iv')
  end.
End Cbc.

(** The length rounded up to whole blocks. *)
Definition round16 (n : Z) : Z := 16 * ((n + 15) / 16).

(** Byte [i] of the block [iv] points to. *)
Definition iv_byte (ivec : list Z) (m : mem) (iv : iv_ptr) (i : Z) : Z :=
  match iv with Ivec => get ivec i | At a => m (a + i) end.

(** [iv] is a whole block, not in the [n] bytes at [out]. *)
Definition iv_apart (ivec : list Z) (iv : iv_ptr) (out n : Z) : Prop :=
  match iv with Ivec => len ivec = 16 | At a => a + 16 <= out \/ out + n <= a end.

(** [in] is not overwritten by writing [out] from the start: it is the same
    place or further on, or its [n] bytes are before [out]. *)
Definition ahead (inp out n : Z) : Prop := out <= inp \/ inp + n <= out.

Section Lemmas.
Variables (ivec : list Z) (iv : iv_ptr).

Lemma len_ivload m n w out k : iv_apart ivec iv out k -> 0 <= n -> 0 <= w -> n + w <= 16 -> len (ivload ivec m iv n w) = w.
Proof.
  intros Hiv Hn Hw Hle. destruct iv; cbn [ivload iv_apart] in *; [| now apply len_mload].
  unfold load. rewrite len_take; rewrite ?len_drop; lia.
Qed.

Lemma get_ivload m n w i : 0 <= n -> 0 <= i < w -> get (ivload ivec m iv n w) i = iv_byte ivec m iv (n + i).
Proof.
  intros Hn Hi. destruct iv; cbn [ivload iv_byte]; [now apply get_load |]. rewrite get_mload by lia. f_equal. lia.
Qed.

Lemma xor_loop_spec w bound fuel : forall m inp out n,
  w = 1 \/ w = 8 -> 0 <= n <= bound -> bound <= 16 -> (bound - n) mod w = 0 -> bound - n <= Z.of_nat fuel ->
  ahead inp out bound -> iv_apart ivec iv out bound ->
  forall i, xor_loop fuel w bound ivec m inp out iv n i =
    if (out + n <=? i) && (i <? out + bound) then Z.lxor (m (inp + (i - out))) (iv_byte ivec m iv (i - out)) else m i.
Proof.
  induction fuel as [| fuel IH]; intros m inp out n Hw Hn Hb Hmod Hf Ha Hiv i; cbn [xor_loop].
  { mcase. }
  destruct (Z.ltb_spec n bound) as [Hlt | Hge]; [| mcase].
  assert (Hw' : n + w <= bound) by (destruct Hw as [-> | ->]; Z.to_euclidean_division_equations; lia).
  assert (L1 : len (mload m (inp + n) w) = w) by (apply len_mload; lia).
  assert (L2 : len (ivload ivec m iv n w) = w) by (apply (len_ivload m n w out bound Hiv); lia).
  assert (L : len (xor_bytes (mload m (inp + n) w) (ivload ivec m iv n w)) = w) by (rewrite len_xor_bytes; lia).
  rewrite IH; try assumption; try lia.
  2:{ destruct Hw as [-> | ->]; Z.to_euclidean_division_equations; lia. }
  unfold mstore. rewrite L. unfold ahead, iv_apart in *.
  destruct (Z.leb_spec (out + n) i), (Z.ltb_spec i (out + bound)); cbn [andb]; [| mcase | mcase | mcase].
  destruct (Z.leb_spec (out + (n + w)) i); cbn [andb].
  - destruct (Z.leb_spec (out + n) (inp + (i - out))), (Z.ltb_spec (inp + (i - out)) (out + n + w)); cbn [andb]; try lia;
      (f_equal; destruct iv; cbn [iv_byte]; [reflexivity |]; mcase).
  - destruct (Z.ltb_spec i (out + n + w)); [| lia]. cbn [andb].
    rewrite get_xor_bytes, get_mload, get_ivload by lia. f_equal; f_equal; lia.
Qed.
End Lemmas.

Section Encrypt.
Context (block unblock : list Z -> list Z) `{!BlockCipher block unblock}.
Variable ivec : list Z.

Lemma copy_loop_spec iv fuel : forall m out n,
  0 <= n <= 16 -> 16 - n <= Z.of_nat fuel -> iv_apart ivec iv out 16 ->
  forall i, copy_loop fuel ivec m out iv n i =
    if (out + n <=? i) && (i <? out + 16) then iv_byte ivec m iv (i - out) else m i.
Proof.
  induction fuel as [| fuel IH]; intros m out n Hn Hf Hiv i; cbn [copy_loop]; [mcase |].
  destruct (Z.ltb_spec n 16) as [Hlt | Hge]; [| mcase].
  assert (L : len (ivload ivec m iv n 1) = 1) by (apply (len_ivload ivec iv m n 1 out 16 Hiv); lia).
  rewrite IH by (assumption || lia). unfold mstore. rewrite L. unfold iv_apart in *.
  destruct (Z.leb_spec (out + n) i), (Z.ltb_spec i (out + 16)); cbn [andb]; [| mcase | mcase | mcase].
  destruct (Z.leb_spec (out + (n + 1)) i); cbn [andb].
  - destruct iv; cbn [iv_byte]; [reflexivity |]. mcase.
  - destruct (Z.ltb_spec i (out + n + 1)); [| lia]. cbn [andb]. rewrite get_ivload by lia. f_equal. lia.
Qed.

(** A memory that agrees with [m] outside a block: writing the block forgets it. *)
Lemma mstore_over m m1 out c : len c = 16 ->
  (forall i, i < out \/ out + 16 <= i -> m1 i = m i) -> forall i, mstore m1 out c i = mstore m out c i.
Proof. intros Hc H i. unfold mstore. rewrite Hc. destruct (Z.leb_spec out i), (Z.ltb_spec i (out + 16)); cbn [andb]; try reflexivity; apply H; lia. Qed.

Lemma iv_bytes_list iv m out k : iv_apart ivec iv out k -> forall i, 0 <= i < 16 ->
  get (ivload ivec m iv 0 16) i = iv_byte ivec m iv i.
Proof. intros _ i Hi. now rewrite get_ivload by lia. Qed.

(** One whole block of the main loop. *)
Lemma enc_block w m inp out iv : w = 1 \/ w = 8 -> ahead inp out 16 -> iv_apart ivec iv out 16 ->
  let m1 := xor_loop 16 w 16 ivec m inp out iv 0 in
  let c := block (xor_bytes (mload m inp 16) (ivload ivec m iv 0 16)) in
  len c = 16 /\ forall i, mstore m1 out (block (mload m1 out 16)) i = mstore m out c i.
Proof.
  intros Hw Ha Hiv. set (m1 := xor_loop 16 w 16 ivec m inp out iv 0). cbv zeta.
  assert (H1 : forall i, m1 i = if (out + 0 <=? i) && (i <? out + 16) then Z.lxor (m (inp + (i - out))) (iv_byte ivec m iv (i - out)) else m i).
  { apply xor_loop_spec; try assumption; try lia. destruct Hw as [-> | ->]; reflexivity. }
  assert (L : len (ivload ivec m iv 0 16) = 16) by (apply (len_ivload ivec iv m 0 16 out 16 Hiv); lia).
  assert (E : mload m1 out 16 = xor_bytes (mload m inp 16) (ivload ivec m iv 0 16)).
  { apply list_eq_get; rewrite ?len_xor_bytes, ?L, !len_mload by lia; [reflexivity |]. intros i Hi.
    rewrite get_xor_bytes, !get_mload, get_ivload by (rewrite ?len_mload; lia). rewrite H1.
    destruct (Z.leb_spec (out + 0) (out + i)), (Z.ltb_spec (out + i) (out + 16)); try lia. cbn [andb].
    f_equal; f_equal; lia. }
  rewrite E. set (c := block _).
  assert (Lc : len c = 16) by (apply block_len; rewrite len_xor_bytes, len_mload; lia).
  split; [exact Lc |]. apply mstore_over; [exact Lc |]. intros i Hi. rewrite H1. mcase.
Qed.

(** The last, partial block. *)
Lemma enc_last m inp out iv n : 0 < n < 16 -> ahead inp out n -> iv_apart ivec iv out 16 ->
  let m1 := copy_loop 16 ivec (xor_loop 16 1 n ivec m inp out iv 0) out iv n in
  let c := block (xor_bytes (mload m inp n ++ repeat 0 (16 - Z.to_nat n)) (ivload ivec m iv 0 16)) in
  len c = 16 /\ forall i, mstore m1 out (block (mload m1 out 16)) i = mstore m out c i.
Proof.
  intros Hn Ha Hiv. set (m0 := xor_loop 16 1 n ivec m inp out iv 0). set (m1 := copy_loop 16 ivec m0 out iv n). cbv zeta.
  assert (Hiv' : iv_apart ivec iv out n) by (unfold iv_apart in *; destruct iv; lia).
  assert (H0 : forall i, m0 i = if (out + 0 <=? i) && (i <? out + n) then Z.lxor (m (inp + (i - out))) (iv_byte ivec m iv (i - out)) else m i).
  { apply xor_loop_spec; try assumption; try lia. apply Z.mod_1_r. }
  assert (H1 : forall i, m1 i = if (out + n <=? i) && (i <? out + 16) then iv_byte ivec m0 iv (i - out) else m0 i)
    by (apply copy_loop_spec; assumption || lia).
  assert (Hb : forall i, 0 <= i < 16 -> iv_byte ivec m0 iv i = iv_byte ivec m iv i).
  { intros i Hi. destruct iv; cbn [iv_byte iv_apart] in *; [reflexivity |]. rewrite H0. mcase. }
  assert (L : len (ivload ivec m iv 0 16) = 16) by (apply (len_ivload ivec iv m 0 16 out 16 Hiv); lia).
  assert (Lp : len (mload m inp n ++ repeat 0 (16 - Z.to_nat n)) = 16) by (rewrite len_app, len_mload, len_repeat; lia).
  assert (E : mload m1 out 16 = xor_bytes (mload m inp n ++ repeat 0 (16 - Z.to_nat n)) (ivload ivec m iv 0 16)).
  { apply list_eq_get; rewrite ?len_xor_bytes, ?L, ?Lp, ?len_mload by lia; [reflexivity |]. intros i Hi.
    rewrite get_xor_bytes, !get_mload, get_ivload by lia. rewrite H1. cbn [Z.add].
    destruct (Z.lt_ge_cases i n).
    - rewrite get_app_l, get_mload by (rewrite ?len_mload; lia).
      destruct (Z.leb_spec (out + n) (out + i)); [lia |]. cbn [andb]. rewrite H0.
      destruct (Z.leb_spec (out + 0) (out + i)), (Z.ltb_spec (out + i) (out + n)); try lia. cbn [andb]. f_equal; f_equal; lia.
    - rewrite get_app_r, len_mload by (rewrite ?len_mload; lia).
      replace (get (repeat 0 (16 - Z.to_nat n)) (i - n)) with 0 by (unfold get; now rewrite nth_repeat).
      destruct (Z.leb_spec (out + n) (out + i)), (Z.ltb_spec (out + i) (out + 16)); try lia. cbn [andb].
      rewrite Z.lxor_0_l, Hb by lia. f_equal. lia. }
  rewrite E. set (c := block _). assert (Lc : len c = 16) by (apply block_len; rewrite len_xor_bytes; lia).
  split; [exact Lc |]. apply mstore_over; [exact Lc |]. intros i Hi. rewrite H1.
  destruct (Z.leb_spec (out + n) i), (Z.ltb_spec i (out + 16)); try lia; cbn [andb]; rewrite H0; mcase.
Qed.
End Encrypt.

Lemma round16_step n : round16 n = 16 + round16 (n - 16).
Proof. unfold round16. replace (n + 15) with (n - 16 + 15 + 1 * 16) by lia. rewrite Z.div_add by lia. lia. Qed.

Lemma round16_bounds n : 0 <= n -> n <= round16 n < n + 16.
Proof. unfold round16. intros. Z.to_euclidean_division_equations; lia. Qed.

Lemma round16_small n : 0 < n <= 16 -> round16 n = 16.
Proof. unfold round16. intros. Z.to_euclidean_division_equations; lia. Qed.

Section Whole.
Context (block unblock : list Z -> list Z) `{!BlockCipher block unblock}.
Variable ivec : list Z.

Lemma cbc_enc_step fuel iv data : data <> [] ->
  cbc_enc block (S fuel) iv data =
  let c := block (xor_bytes (take 16 data ++ repeat 0 (16 - length (take 16 data))) iv) in
  let (out, iv) := cbc_enc block fuel c (drop 16 data) in (c ++ out, iv).
Proof. destruct data; [easy | reflexivity]. Qed.

(** What [enc_loop] and then [enc_tail] leave behind. *)
Lemma enc_whole w fuel : w = 1 \/ w = 8 -> forall m iv n inp out,
  0 <= n < 16 * Z.of_nat fuel -> ahead inp out n ->
  match iv with Ivec => len ivec = 16 | At a => a + 16 <= out end ->
  let '(m1, iv1, n1, inp1, out1) := enc_loop block fuel w ivec m iv n inp out in
  let (m', iv') := enc_tail block (S (Z.to_nat n1)) ivec m1 iv1 n1 inp1 out1 in
  let (ct, last) := cbc_enc block fuel (ivload ivec m iv 0 16) (mload m inp n) in
  (forall i, m' i = mstore m out ct i) /\ ivload ivec m' iv' 0 16 = last /\ len ct = round16 n.
Proof.
  intros Hw. induction fuel as [| fuel IH]; intros m iv n inp out Hn Ha Hiv; [lia |]. cbn [enc_loop].
  assert (Hap : iv_apart ivec iv out 16) by (unfold iv_apart; destruct iv; lia).
  destruct (Z.leb_spec 16 n) as [Hge | Hlt].
  - destruct (enc_block block unblock ivec w m inp out iv Hw) as (Lc & Hm); [unfold ahead in *; lia | assumption |].
    set (c := block (xor_bytes (mload m inp 16) (ivload ivec m iv 0 16))) in *.
    set (m1 := xor_loop 16 w 16 ivec m inp out iv 0) in *.
    set (m2 := mstore m1 out (block (mload m1 out 16))) in *.
    specialize (IH m2 (At out) (n - 16) (inp + 16) (out + 16) ltac:(lia) ltac:(unfold ahead in *; lia) ltac:(cbn; lia)).
    destruct (enc_loop block fuel w ivec m2 (At out) (n - 16) (inp + 16) (out + 16)) as [[[[m3 iv3] n3] inp3] out3].
    destruct (enc_tail block (S (Z.to_nat n3)) ivec m3 iv3 n3 inp3 out3) as [m' iv'].
    destruct (mload_ne m inp n ltac:(lia)) as (x & l & El).
    rewrite cbc_enc_step by (rewrite El; discriminate).
    rewrite take_mload, drop_mload by lia.
    replace (16 - length (mload m inp 16))%nat with 0%nat by reflexivity. cbn [repeat]. rewrite app_nil_r. fold c.
    replace (ivload ivec m2 (At out) 0 16) with c in IH.
    2:{ cbn [ivload]. rewrite Z.add_0_r, (mload_ext m2 (mstore m out c)) by (intros; apply Hm). rewrite <- Lc. symmetry. apply mload_mstore. }
    replace (mload m2 (inp + 16) (n - 16)) with (mload m (inp + 16) (n - 16)) in IH.
    2:{ apply mload_ext. intros i Hi. rewrite Hm. unfold mstore, ahead in *. rewrite Lc. mcase. }
    cbv zeta. destruct (cbc_enc block fuel c (mload m (inp + 16) (n - 16))) as [ct last].
    destruct IH as (IH1 & IH2 & IH3). split; [| split; [assumption |]].
    + intros i. rewrite IH1, (mstore_ext m2 (mstore m out c)) by assumption. rewrite <- Lc. apply mstore_app.
    + rewrite len_app, Lc, IH3, (round16_step n). lia.
  - destruct (Z.eq_dec n 0) as [-> | Hn0].
    { rewrite mload_nil. cbn [Z.to_nat enc_tail cbc_enc Z.eqb]. split; [| split; [reflexivity | reflexivity]].
      intros i. unfold mstore. change (len []) with 0. mcase. }
    destruct (enc_last block unblock ivec m inp out iv n) as (Lc & Hm); [lia | assumption | assumption |].
    cbn [enc_tail]. destruct (Z.eqb_spec n 0); [lia |]. rewrite Z.min_r by lia.
    destruct (Z.leb_spec n 16); [| lia].
    destruct (mload_ne m inp n ltac:(lia)) as (x & l & El).
    rewrite cbc_enc_step by (rewrite El; discriminate).
    rewrite take_all by (rewrite len_mload; lia). rewrite drop_all by (rewrite len_mload; lia).
    replace (length (mload m inp n)) with (Z.to_nat n) by (unfold mload; now rewrite length_map, length_seq).
    set (c := block _) in *. cbv zeta. replace (cbc_enc block fuel c []) with (@nil Z, c) by now destruct fuel.
    rewrite app_nil_r. split; [exact Hm |]. split; [| rewrite Lc, round16_small; lia].
    cbn [ivload]. rewrite Z.add_0_r, (mload_ext _ (mstore m out c)) by (intros; apply Hm). rewrite <- Lc. apply mload_mstore.
Qed.
End Whole.

(** ** Decryption *)

Section Decrypt.
Context (block unblock : list Z -> list Z) `{!BlockCipher block unblock}.

Lemma tmp_loop_spec w bound tmp fuel : forall ivec m inp out n,
  w = 1 \/ w = 8 -> 0 <= n <= bound -> bound <= 16 -> (bound - n) mod w = 0 -> bound - n <= Z.of_nat fuel ->
  ahead inp out bound -> len ivec = 16 -> len tmp = 16 ->
  let (m', ivec') := tmp_loop fuel w bound tmp ivec m inp out n in
  (forall i, m' i = if (out + n <=? i) && (i <? out + bound) then Z.lxor (get tmp (i - out)) (get ivec (i - out)) else m i) /\
  len ivec' = 16 /\
  (forall j, 0 <= j < 16 -> get ivec' j = if (n <=? j) && (j <? bound) then m (inp + j) else get ivec j).
Proof.
  induction fuel as [| fuel IH]; intros ivec m inp out n Hw Hn Hb Hmod Hf Ha Hl Ht; cbn [tmp_loop].
  { split; [intros i; mcase | split; [assumption | intros j Hj; mcase]]. }
  destruct (Z.ltb_spec n bound) as [Hlt | Hge].
  2:{ split; [intros i; mcase | split; [assumption | intros j Hj; mcase]]. }
  assert (Hw' : n + w <= bound) by (destruct Hw as [-> | ->]; Z.to_euclidean_division_equations; lia).
  assert (Lc : len (mload m (inp + n) w) = w) by (apply len_mload; lia).
  assert (Lx : len (xor_bytes (load tmp n w) (load ivec n w)) = w).
  { rewrite len_xor_bytes. unfold load. rewrite !len_take; rewrite ?len_drop; lia. }
  assert (Ls : len (splice ivec n (mload m (inp + n) w)) = 16) by (rewrite len_splice; lia).
  specialize (IH (splice ivec n (mload m (inp + n) w)) (mstore m (out + n) (xor_bytes (load tmp n w) (load ivec n w))) inp out (n + w)).
  destruct (tmp_loop fuel w bound tmp _ _ inp out (n + w)) as [m' ivec'].
  destruct IH as (H1 & H2 & H3); try assumption; try lia.
  { destruct Hw as [-> | ->]; Z.to_euclidean_division_equations; lia. }
  split; [| split; [assumption |]].
  - intros i. rewrite H1. unfold mstore. rewrite Lx.
    destruct (Z.leb_spec (out + n) i), (Z.ltb_spec i (out + bound)); cbn [andb]; [| mcase | mcase | mcase].
    destruct (Z.leb_spec (out + (n + w)) i); cbn [andb].
    + f_equal. rewrite get_splice by lia. rewrite Lc. mcase.
    + destruct (Z.ltb_spec i (out + n + w)); [| lia]. cbn [andb]. unfold load in Lx.
      rewrite get_xor_bytes, !get_load; rewrite ?len_take; rewrite ?len_drop; try lia;
        [f_equal; f_equal; lia | unfold load; rewrite len_take; rewrite ?len_drop; lia | unfold load; rewrite len_take; rewrite ?len_drop; lia].
  - intros j Hj. rewrite H3 by assumption. unfold mstore. rewrite Lx, get_splice, Lc by lia. unfold ahead in Ha.
    destruct (Z.leb_spec n j), (Z.ltb_spec j bound); cbn [andb]; [| mcase | mcase | mcase].
    destruct (Z.leb_spec (n + w) j); cbn [andb].
    + mcase.
    + destruct (Z.ltb_spec j (n + w)); [| lia]. rewrite get_mload by lia. f_equal. lia.
Qed.

Lemma iv_loop_spec m inp fuel : forall ivec n, len ivec = 16 -> 0 <= n <= 16 -> 16 - n <= Z.of_nat fuel ->
  len (iv_loop fuel ivec m inp n) = 16 /\
  forall j, 0 <= j < 16 -> get (iv_loop fuel ivec m inp n) j = if n <=? j then m (inp + j) else get ivec j.
Proof.
  induction fuel as [| fuel IH]; intros ivec n Hl Hn Hf; cbn [iv_loop].
  { split; [assumption |]. intros j Hj. mcase. }
  destruct (Z.ltb_spec n 16); [| split; [assumption | intros j Hj; mcase]].
  destruct (IH (set ivec n (m (inp + n))) (n + 1)) as [L E]; [rewrite len_set; lia | lia | lia |].
  split; [assumption |]. intros j Hj. rewrite E by assumption.
  destruct (Z.leb_spec (n + 1) j), (Z.leb_spec n j); try lia.
  - replace j with n by lia. now rewrite get_set_same by lia.
  - now rewrite get_set_other by lia.
Qed.

(** The tail: the plaintext bytes are written and [ivec] is the last block. *)
Lemma dec_tail_bytes fuel ivec m inp out n : 0 < n < 16 -> len ivec = 16 -> ahead inp out n ->
  let p := xor_bytes (unblock (mload m inp 16)) ivec in
  let (m', ivec') := dec_tail unblock (S fuel) ivec m n inp out in
  (forall i, m' i = mstore m out (take n p) i) /\ len ivec' = 16 /\
  forall j, 0 <= j < 16 -> get ivec' j = (if j <? n then m else m') (inp + j).
Proof.
  intros Hn Hl Ha. cbv zeta. cbn [dec_tail]. destruct (Z.eqb_spec n 0); [lia |]. rewrite Z.min_r by lia.
  assert (Lu : len (unblock (mload m inp 16)) = 16) by now apply block_len, len_mload.
  pose proof (tmp_loop_spec 1 n (unblock (mload m inp 16)) 16 ivec m inp out 0) as H.
  destruct (tmp_loop 16 1 n (unblock (mload m inp 16)) ivec m inp out 0) as [m1 ivec1].
  destruct H as (H1 & H2 & H3); try assumption; try lia; [apply Z.mod_1_r |].
  destruct (Z.leb_spec n 16); [| lia].
  destruct (iv_loop_spec m1 inp 16 ivec1 n H2) as [L E]; [lia | lia |].
  assert (Lt : len (take n (xor_bytes (unblock (mload m inp 16)) ivec)) = n) by (rewrite len_take; rewrite ?len_xor_bytes; lia).
  split.
  - intros i. rewrite H1. unfold mstore. rewrite Lt. rewrite Z.add_0_r.
    destruct (Z.leb_spec out i), (Z.ltb_spec i (out + n)); cbn [andb]; try reflexivity.
    now rewrite get_take, get_xor_bytes by lia.
  - split; [exact L |]. intros j Hj. rewrite E by lia.
    destruct (Z.leb_spec n j), (Z.ltb_spec j n); try lia; rewrite H3 by lia; mcase.
Qed.

Lemma dec_tail_spec fuel ivec m inp out n : 0 < n < 16 -> len ivec = 16 -> ahead inp out 16 ->
  let p := xor_bytes (unblock (mload m inp 16)) ivec in
  let (m', ivec') := dec_tail unblock (S fuel) ivec m n inp out in
  (forall i, m' i = mstore m out (take n p) i) /\ ivec' = mload m inp 16.
Proof.
  intros Hn Hl Ha. pose proof (dec_tail_bytes fuel ivec m inp out n Hn Hl ltac:(unfold ahead in *; lia)) as H. cbv zeta in *.
  destruct (dec_tail unblock (S fuel) ivec m n inp out) as [m' ivec']. destruct H as (H1 & L & E). split; [exact H1 |].
  apply list_eq_get; rewrite L; [now rewrite len_mload |]. intros j Hj. rewrite E, get_mload by lia.
  destruct (Z.ltb_spec j n); [reflexivity |]. rewrite H1. unfold mstore, ahead in *.
  rewrite len_take by (rewrite len_xor_bytes, (block_len (mload m inp 16)) by (now apply len_mload); lia). mcase.
Qed.

Lemma cbc_dec_step fuel iv ct : ct <> [] ->
  cbc_dec unblock (S fuel) iv ct =
  let (out, iv') := cbc_dec unblock fuel (take 16 ct) (drop 16 ct) in (xor_bytes (unblock (take 16 ct)) iv ++ out, iv').
Proof. destruct ct; [easy | reflexivity]. Qed.

(** What a way of decrypting should leave behind. *)
Definition decrypted (fuel : nat) (m : mem) (inp out n : Z) (iv : list Z) (m' : mem) (ivec' : list Z) : Prop :=
  let (pt, last) := cbc_dec unblock fuel iv (mload m inp (round16 n)) in
  (forall i, m' i = mstore m out (take n pt) i) /\ ivec' = last /\ len pt = round16 n.

(** Decrypting one block to [out] and then the rest decrypts the whole. *)
Lemma decrypted_step fuel m m1 inp out n iv m' ivec' : 16 <= n -> len iv = 16 ->
  (forall i, inp + 16 <= i < inp + round16 n -> m1 i = m i) ->
  (forall i, m1 i = mstore m out (xor_bytes (unblock (mload m inp 16)) iv) i) ->
  decrypted fuel m1 (inp + 16) (out + 16) (n - 16) (mload m inp 16) m' ivec' ->
  decrypted (S fuel) m inp out n iv m' ivec'.
Proof.
  intros Hn Hiv Hrest H1. unfold decrypted. rewrite (round16_step n).
  pose proof (round16_bounds (n - 16) ltac:(lia)) as Hr. rewrite (round16_step n) in Hrest. set (r := round16 (n - 16)) in *.
  assert (Lp : len (xor_bytes (unblock (mload m inp 16)) iv) = 16).
  { rewrite len_xor_bytes, Hiv, block_len by now apply len_mload. reflexivity. }
  destruct (mload_ne m inp (16 + r) ltac:(lia)) as (x & l & El). rewrite cbc_dec_step by (rewrite El; discriminate).
  rewrite take_mload, drop_mload by lia. replace (16 + r - 16) with r by lia.
  replace (mload m1 (inp + 16) r) with (mload m (inp + 16) r).
  2:{ apply mload_ext. intros i Hi. symmetry. apply Hrest. lia. }
  destruct (cbc_dec unblock fuel (mload m inp 16) (mload m (inp + 16) r)) as [pt last]. intros (Hm & Hl & Hlen).
  split; [| split; [assumption | rewrite len_app; lia]].
  intros i. rewrite Hm, (mstore_ext m1 _ _ _ _ H1). rewrite take_app_r, Lp by lia.
  replace (out + 16) with (out + len (xor_bytes (unblock (mload m inp 16)) iv)) by lia. apply mstore_app.
Qed.

(** The last partial block, or nothing. *)
Lemma decrypted_tail fuel m inp out n iv : 0 <= n < 16 -> ahead inp out (round16 n) -> len iv = 16 ->
  let (m', ivec') := dec_tail unblock (S (Z.to_nat n)) iv m n inp out in
  decrypted (S fuel) m inp out n iv m' ivec'.
Proof.
  intros Hn Ha Hiv. destruct (Z.eq_dec n 0) as [-> | Hn0].
  { cbn [Z.to_nat dec_tail Z.eqb]. unfold decrypted. change (round16 0) with 0. rewrite mload_nil. cbn [cbc_dec].
    split; [intros i; unfold mstore; change (len (take 0 [])) with 0; mcase | now split]. }
  rewrite round16_small in Ha by lia.
  pose proof (dec_tail_spec (Z.to_nat n) iv m inp out n ltac:(lia) Hiv Ha) as H.
  destruct (dec_tail unblock (S (Z.to_nat n)) iv m n inp out) as [m' ivec'].
  destruct H as [H1 H2]. unfold decrypted. rewrite round16_small by lia.
  destruct (mload_ne m inp 16 ltac:(lia)) as (x & l & El). rewrite cbc_dec_step by (rewrite El; discriminate).
  rewrite take_mload, drop_mload by lia. change (16 - 16) with 0. rewrite mload_nil.
  replace (cbc_dec unblock fuel (mload m inp 16) []) with (@nil Z, mload m inp 16) by now destruct fuel.
  rewrite app_nil_r. split; [exact H1 |]. split; [exact H2 |].
  rewrite len_xor_bytes, Hiv, block_len by now apply len_mload. reflexivity.
Qed.

(** Writing the plaintext of the block at [inp] leaves the ciphertext ahead. *)
Lemma rest_kept m m1 inp out k p : len p = 16 -> ahead inp out k -> (forall i, m1 i = mstore m out p i) ->
  forall i, inp + 16 <= i < inp + k -> m1 i = m i.
Proof. intros L Ha H1 i Hi. rewrite H1. unfold mstore, ahead in *. rewrite L. mcase. Qed.

(** One block of the direct loop. *)
Lemma dec_direct_block w ivec m iv inp out : w = 1 \/ w = 8 -> iv_apart ivec iv out 16 ->
  len (xor_bytes (unblock (mload m inp 16)) (ivload ivec m iv 0 16)) = 16 /\
  forall i, xor_loop 16 w 16 ivec (mstore m out (unblock (mload m inp 16))) out out iv 0 i =
    mstore m out (xor_bytes (unblock (mload m inp 16)) (ivload ivec m iv 0 16)) i.
Proof.
  intros Hw Hiv.
  assert (L : len (ivload ivec m iv 0 16) = 16) by (apply (len_ivload ivec iv m 0 16 out 16 Hiv); lia).
  assert (Lu : len (unblock (mload m inp 16)) = 16) by now apply block_len, len_mload.
  split; [rewrite len_xor_bytes, Lu, L; reflexivity |].
  set (m1 := mstore m out (unblock (mload m inp 16))). intros i. rewrite xor_loop_spec; try assumption; try lia;
    [| destruct Hw as [-> | ->]; reflexivity | unfold ahead; lia].
  unfold mstore at 1. rewrite len_xor_bytes, Lu, L. change (Z.min 16 16) with 16. rewrite Z.add_0_r.
  destruct (Z.leb_spec out i), (Z.ltb_spec i (out + 16)); cbn [andb];
    [| unfold m1, mstore; rewrite Lu; mcase | unfold m1, mstore; rewrite Lu; mcase | unfold m1, mstore; rewrite Lu; mcase].
  rewrite get_xor_bytes, get_ivload by lia. f_equal.
  - unfold m1, mstore. rewrite Lu. mcase. f_equal. lia.
  - destruct iv; cbn [iv_byte iv_apart] in *; [reflexivity |]. unfold m1, mstore. rewrite Lu. mcase; f_equal; lia.
Qed.

Lemma dec_direct_whole w fuel : w = 1 \/ w = 8 -> forall ivec m iv n inp out,
  0 <= n < 16 * Z.of_nat fuel -> out + 32 <= inp \/ inp + round16 n <= out -> iv_apart ivec iv out 16 ->
  let '(m1, iv1, n1, inp1, out1) := dec_direct_loop unblock fuel w ivec m iv n inp out in
  let (m', ivec') := dec_tail unblock (S (Z.to_nat n1)) (ivload ivec m1 iv1 0 16) m1 n1 inp1 out1 in
  decrypted fuel m inp out n (ivload ivec m iv 0 16) m' ivec'.
Proof.
  intros Hw ivec. induction fuel as [| fuel IH]; intros m iv n inp out Hn Ha Hiv; [lia |]. cbn [dec_direct_loop].
  assert (L : len (ivload ivec m iv 0 16) = 16) by (apply (len_ivload ivec iv m 0 16 out 16 Hiv); lia).
  pose proof (round16_bounds n ltac:(lia)) as Hr.
  destruct (Z.leb_spec 16 n) as [Hge | Hlt]; [| apply decrypted_tail; [lia | unfold ahead; lia | assumption]].
  destruct (dec_direct_block w ivec m iv inp out Hw Hiv) as [Lx H2].
  set (m2 := xor_loop 16 w 16 ivec _ out out iv 0) in *. cbv zeta.
  pose proof (round16_step n) as Hs.
  specialize (IH m2 (At inp) (n - 16) (inp + 16) (out + 16) ltac:(lia) ltac:(lia) ltac:(cbn; pose proof (round16_bounds (n - 16)); lia)).
  destruct (dec_direct_loop unblock fuel w ivec m2 (At inp) (n - 16) (inp + 16) (out + 16)) as [[[[m3 iv3] n3] inp3] out3].
  destruct (dec_tail unblock (S (Z.to_nat n3)) (ivload ivec m3 iv3 0 16) m3 n3 inp3 out3) as [m' ivec'].
  apply (decrypted_step fuel m m2); try assumption; [apply (rest_kept m m2 inp out _ _ Lx); [unfold ahead; lia | exact H2] |].
  replace (mload m inp 16) with (ivload ivec m2 (At inp) 0 16); [exact IH |].
  cbn [ivload]. rewrite Z.add_0_r. apply mload_ext. intros i Hi. rewrite H2. unfold mstore. rewrite Lx.
  pose proof (round16_bounds (n - 16)). mcase.
Qed.

Lemma dec_tmp_whole w fuel : w = 1 \/ w = 8 -> forall ivec m n inp out,
  0 <= n < 16 * Z.of_nat fuel -> ahead inp out (round16 n) -> len ivec = 16 ->
  let '(m1, ivec1, n1, inp1, out1) := dec_tmp_loop unblock fuel w ivec m n inp out in
  let (m', ivec') := dec_tail unblock (S (Z.to_nat n1)) ivec1 m1 n1 inp1 out1 in
  decrypted fuel m inp out n ivec m' ivec'.
Proof.
  intros Hw. induction fuel as [| fuel IH]; intros ivec m n inp out Hn Ha Hiv; [lia |]. cbn [dec_tmp_loop].
  pose proof (round16_bounds n ltac:(lia)) as Hr.
  destruct (Z.leb_spec 16 n) as [Hge | Hlt]; [| apply decrypted_tail; [lia | assumption | assumption]].
  assert (Lu : len (unblock (mload m inp 16)) = 16) by now apply block_len, len_mload.
  pose proof (tmp_loop_spec w 16 (unblock (mload m inp 16)) 16 ivec m inp out 0) as H.
  destruct (tmp_loop 16 w 16 (unblock (mload m inp 16)) ivec m inp out 0) as [m1 ivec1].
  destruct H as (H1 & H2 & H3); try assumption; try lia; [destruct Hw as [-> | ->]; reflexivity | unfold ahead in *; lia |].
  assert (Eiv : ivec1 = mload m inp 16).
  { apply list_eq_get; rewrite H2; [now rewrite len_mload |]. intros j Hj. rewrite H3, get_mload by lia. mcase. }
  subst ivec1. pose proof (round16_step n) as Hs.
  specialize (IH (mload m inp 16) m1 (n - 16) (inp + 16) (out + 16) ltac:(lia) ltac:(unfold ahead in *; lia) ltac:(now apply len_mload)).
  destruct (dec_tmp_loop unblock fuel w (mload m inp 16) m1 (n - 16) (inp + 16) (out + 16)) as [[[[m3 ivec3] n3] inp3] out3].
  destruct (dec_tail unblock (S (Z.to_nat n3)) ivec3 m3 n3 inp3 out3) as [m' ivec'].
  assert (Lx : len (xor_bytes (unblock (mload m inp 16)) ivec) = 16) by (rewrite len_xor_bytes, Lu, Hiv; reflexivity).
  assert (E1 : forall i, m1 i = mstore m out (xor_bytes (unblock (mload m inp 16)) ivec) i).
  2: { apply (decrypted_step fuel m m1); try assumption. exact (rest_kept m m1 inp out _ _ Lx Ha E1). }
  intros i. rewrite H1. unfold mstore. rewrite Lx. rewrite Z.add_0_r. change (Z.min 16 16) with 16.
  destruct (Z.leb_spec out i), (Z.ltb_spec i (out + 16)); cbn [andb]; try reflexivity. now rewrite get_xor_bytes by lia.
Qed.
End Decrypt.

(** ** The routines *)

Section Routines.
Context (block unblock : list Z -> list Z) `{!BlockCipher block unblock}.

Lemma word_size_ok strict addr inp out : word_size strict addr inp out = 1 \/ word_size strict addr inp out = 8.
Proof. unfold word_size. destruct (_ && _); auto. Qed.

Lemma encrypt_result strict addr m inp out n ivec : 0 <= n -> ahead inp out n -> len ivec = 16 ->
  let (m', ivec') := CRYPTO_cbc128_encrypt block strict addr m inp out n ivec in
  let (ct, last) := cbc_enc block (S (Z.to_nat n)) ivec (mload m inp n) in
  (forall i, m' i = mstore m out ct i) /\ ivec' = last /\ len ct = round16 n.
Proof.
  intros Hn Ha Hiv. unfold CRYPTO_cbc128_encrypt.
  pose proof (enc_whole block unblock ivec (word_size strict addr inp out) (S (Z.to_nat n)) (word_size_ok _ _ _ _)
                m Ivec n inp out ltac:(lia) Ha Hiv) as H.
  destruct (enc_loop block _ _ ivec m Ivec n inp out) as [[[[m1 iv1] n1] inp1] out1].
  destruct (enc_tail block _ ivec m1 iv1 n1 inp1 out1) as [m' iv'].
  replace (ivload ivec m Ivec 0 16) with ivec in H; [exact H |].
  cbn [ivload]. unfold load. rewrite drop_0, take_all by lia. reflexivity.
Qed.

Lemma decrypt_result strict addr m inp out n ivec : 0 <= n -> ahead inp out (round16 n) -> len ivec = 16 ->
  let (m', ivec') := CRYPTO_cbc128_decrypt unblock strict addr m inp out n ivec in
  decrypted unblock (S (Z.to_nat n)) m inp out n ivec m' ivec'.
Proof.
  intros Hn Ha Hiv. unfold CRYPTO_cbc128_decrypt. pose proof (word_size_ok strict addr inp out) as Hw.
  destruct (((32 <=? inp) && (out <=? inp - 32)) || (inp <? out)) eqn:Eb.
  - assert (Hfar : out + 32 <= inp \/ inp + round16 n <= out).
    { apply orb_true_iff in Eb as [Eb | Eb]; [apply andb_true_iff in Eb as [_ Eb]; apply Z.leb_le in Eb; lia |].
      apply Z.ltb_lt in Eb. unfold ahead in Ha. lia. }
    pose proof (dec_direct_whole block unblock (word_size strict addr inp out) (S (Z.to_nat n)) Hw ivec m Ivec n inp out
                  ltac:(lia) Hfar Hiv) as H.
    destruct (dec_direct_loop unblock _ _ ivec m Ivec n inp out) as [[[[m1 iv1] n1] inp1] out1].
    replace (ivload ivec m Ivec 0 16) with ivec in H; [exact H |].
    cbn [ivload]. unfold load. rewrite drop_0, take_all by lia. reflexivity.
  - pose proof (dec_tmp_whole block unblock (word_size strict addr inp out) (S (Z.to_nat n)) Hw ivec m n inp out ltac:(lia) Ha Hiv) as H.
    now destruct (dec_tmp_loop unblock _ _ ivec m n inp out) as [[[[m1 ivec1] n1] inp1] out1].
Qed.

Lemma cbc_dec_enc fuel : forall iv data, len iv = 16 -> bytes_ok iv -> bytes_ok data -> len data <= 16 * Z.of_nat fuel ->
  let (ct, last) := cbc_enc block fuel iv data in
  exists pad, cbc_dec unblock fuel iv ct = (data ++ pad, last).
Proof.
  induction fuel as [| fuel IH]; intros iv data Hl Hiv Hd Hf; [destruct data; [now exists [] | rewrite len_cons in Hf; pose proof (len_nonneg data); lia] |].
  destruct data as [| d ds] eqn:Ed; [exists []; reflexivity |]. rewrite <- Ed in *.
  assert (Hne : data <> []) by (subst data; discriminate). clear Ed.
  rewrite cbc_enc_step by assumption. set (p := take 16 data ++ repeat 0 (16 - length (take 16 data))).
  assert (Hlt : 0 < len data) by (destruct data; [easy | rewrite len_cons; pose proof (len_nonneg data); lia]).
  assert (Lt : len (take 16 data) = Z.min 16 (len data)) by (apply len_take_min; lia).
  assert (Lp : len p = 16) by (unfold p; rewrite len_app, len_repeat; unfold len in Lt |- *; lia).
  assert (Hp : bytes_ok p).
  { apply bytes_ok_app. split; [now apply bytes_ok_take |]. apply Forall_forall. intros x Hx. apply repeat_spec in Hx. unfold byte_ok. lia. }
  assert (Lx : len (xor_bytes p iv) = 16) by (rewrite len_xor_bytes; lia).
  pose proof (bytes_ok_xor p iv Hp Hiv) as Hx. set (c := block (xor_bytes p iv)).
  assert (Lc : len c = 16) by now apply block_len. assert (Hc : bytes_ok c) by now apply block_bytes.
  assert (Ld : len (drop 16 data) <= 16 * Z.of_nat fuel).
  { destruct (Z.lt_ge_cases (len data) 16); [rewrite drop_all by lia; change (len []) with 0; lia | rewrite len_drop; lia]. }
  cbv zeta. specialize (IH c (drop 16 data) Lc Hc ltac:(now apply bytes_ok_drop) Ld).
  destruct (cbc_enc block fuel c (drop 16 data)) as [out last] eqn:Ec. destruct IH as [pad IH].
  rewrite cbc_dec_step by (destruct c; [discriminate | discriminate]).
  rewrite take_app_exact, drop_app_exact by lia. rewrite IH. unfold c at 1.
  rewrite (unblock_block (block := block) (unblock := unblock) (xor_bytes p iv)) by assumption. rewrite xor_bytes_cancel by lia.
  destruct (Z.lt_ge_cases (len data) 16) as [Hs | Hs].
  - exists (repeat 0 (16 - length (take 16 data)) ++ drop 16 data ++ pad). unfold p.
    rewrite (take_all 16 data) by lia. rewrite !(drop_all 16 data) by lia. now rewrite <- app_assoc.
  - exists pad. unfold p. replace (16 - length (take 16 data))%nat with 0%nat by (unfold len in Lt, Hs; lia).
    cbn [repeat]. rewrite app_nil_r, app_assoc, take_drop. reflexivity.
Qed.

(** Decrypting in the memory that encryption left gives the data back. *)
Lemma cbc128_mem_roundtrip s1 a1 s2 a2 m inp out dst n ivec :
  0 <= n -> (forall i, byte_ok (m i)) -> len ivec = 16 -> bytes_ok ivec -> ahead inp out n -> ahead out dst (round16 n) ->
  let (m1, ivec1) := CRYPTO_cbc128_encrypt block s1 a1 m inp out n ivec in
  let (m2, ivec2) := CRYPTO_cbc128_decrypt unblock s2 a2 m1 out dst n ivec in
  mload m2 dst n = mload m inp n /\ ivec2 = ivec1.
Proof.
  intros Hn Hm Hiv Hok Ha1 Ha2.
  pose proof (encrypt_result s1 a1 m inp out n ivec Hn Ha1 Hiv) as He.
  destruct (CRYPTO_cbc128_encrypt _ _ _ _ _ _ _ _) as [m1 ivec1].
  pose proof (decrypt_result s2 a2 m1 out dst n ivec Hn Ha2 Hiv) as Hd.
  destruct (CRYPTO_cbc128_decrypt _ _ _ _ _ _ _ _) as [m2 ivec2]. unfold decrypted in Hd.
  assert (Hb : bytes_ok (mload m inp n)) by (apply Forall_map, Forall_forall; intros; apply Hm).
  assert (Lm : len (mload m inp n) = n) by now apply len_mload.
  pose proof (cbc_dec_enc (S (Z.to_nat n)) ivec (mload m inp n) Hiv Hok Hb ltac:(lia)) as Hr.
  destruct (cbc_enc block _ ivec _) as [ct last]. destruct He as (He & -> & Lct). destruct Hr as [pad Hr].
  replace (mload m1 out (round16 n)) with ct in Hd.
  2:{ rewrite (mload_ext m1 (mstore m out ct)) by (intros; apply He). rewrite <- Lct. symmetry. apply mload_mstore. }
  rewrite Hr in Hd. destruct Hd as (Hd & -> & _). split; [| reflexivity].
  rewrite take_app_exact in Hd by lia.
  rewrite (mload_ext m2 (mstore m1 dst (mload m inp n))) by (intros; apply Hd).
  pose proof (mload_mstore m1 dst (mload m inp n)) as E. now rewrite Lm in E.
Qed.

(** What a decryption leaves, as the bytes that can be read back. *)
Lemma decrypted_reads fuel m inp out n iv m' ivec' : 0 <= n -> decrypted unblock fuel m inp out n iv m' ivec' ->
  let (pt, last) := cbc_dec unblock fuel iv (mload m inp (round16 n)) in
  mload m' out n = take n pt /\ (forall i, i < out \/ out + n <= i -> m' i = m i) /\ ivec' = last.
Proof.
  intros Hn. unfold decrypted. destruct (cbc_dec unblock fuel iv _) as [pt last]. intros (Hm & Hl & Hlen).
  pose proof (round16_bounds n Hn).
  assert (Lt : len (take n pt) = n) by (rewrite len_take; lia). split; [| split; [| exact Hl]].
  - rewrite (mload_ext m' (mstore m out (take n pt))) by (intros; apply Hm). rewrite <- Lt at 2. apply mload_mstore.
  - intros i Hi. rewrite Hm. unfold mstore. rewrite Lt. mcase.
Qed.

(** The output starts after the [n] bytes of input but inside its last, partial
    block, all of which is read: the first block of plaintext lands on
    ciphertext that is still to be deciphered. *)
Lemma decrypt_overrun strict addr m inp out n ivec : 16 <= n -> inp + n <= out < inp + round16 n -> len ivec = 16 ->
  let m1 := mstore m out (xor_bytes (unblock (mload m inp 16)) ivec) in
  let (m', ivec') := CRYPTO_cbc128_decrypt unblock strict addr m inp out n ivec in
  decrypted unblock (S (Z.to_nat n)) m1 inp out n ivec m' ivec'.
Proof.
  intros Hn Ho Hiv m1. unfold CRYPTO_cbc128_decrypt. pose proof (word_size_ok strict addr inp out) as Hw.
  replace (((32 <=? inp) && (out <=? inp - 32)) || (inp <? out)) with true
    by (symmetry; apply orb_true_iff; right; apply Z.ltb_lt; lia).
  cbn [dec_direct_loop]. destruct (Z.leb_spec 16 n) as [_ | ?]; [cbv zeta | lia].
  destruct (dec_direct_block block unblock (word_size strict addr inp out) ivec m Ivec inp out Hw Hiv) as [Lx H2].
  set (m2 := xor_loop 16 _ 16 ivec _ out out Ivec 0) in *.
  assert (Eiv : ivload ivec m Ivec 0 16 = ivec) by (cbn [ivload]; unfold load; rewrite drop_0, take_all by lia; reflexivity).
  rewrite Eiv in *. pose proof (round16_step n) as Hs. pose proof (round16_bounds (n - 16) ltac:(lia)) as Hr.
  pose proof (dec_direct_whole block unblock (word_size strict addr inp out) (Z.to_nat n) Hw ivec m2 (At inp) (n - 16) (inp + 16) (out + 16)
    ltac:(lia) ltac:(lia) ltac:(cbn; lia)) as H.
  destruct (dec_direct_loop unblock (Z.to_nat n) _ ivec m2 (At inp) _ _ _) as [[[[m3 iv3] n3] inp3] out3].
  destruct (dec_tail unblock _ _ m3 n3 inp3 out3) as [m' ivec'].
  assert (Ein : forall x, (forall i, x i = m1 i) -> mload x inp 16 = mload m inp 16).
  { intros x Hx. apply mload_ext. intros i Hi. rewrite Hx. unfold m1, mstore. rewrite Lx. mcase. }
  apply (decrypted_step block unblock (Z.to_nat n) m1 m2); try assumption.
  - intros i _. apply H2.
  - intros i. rewrite Ein by reflexivity. rewrite H2. unfold m1, mstore. now destruct (_ && _).
  - cbn [ivload] in H. rewrite Z.add_0_r, (Ein m2 H2) in H. now rewrite Ein by reflexivity.
Qed.

(** The same for less than a block: only [ivec] reads what was written. *)
Lemma decrypt_overrun_short strict addr m inp out n ivec : 0 < n < 16 -> inp + n <= out < inp + 16 -> len ivec = 16 ->
  let (m', ivec') := CRYPTO_cbc128_decrypt unblock strict addr m inp out n ivec in
  mload m' out n = take n (xor_bytes (unblock (mload m inp 16)) ivec) /\
  (forall i, i < out \/ out + n <= i -> m' i = m i) /\ ivec' = mload m' inp 16.
Proof.
  intros Hn Ho Hiv. unfold CRYPTO_cbc128_decrypt.
  replace (((32 <=? inp) && (out <=? inp - 32)) || (inp <? out)) with true
    by (symmetry; apply orb_true_iff; right; apply Z.ltb_lt; lia).
  cbn [dec_direct_loop]. destruct (Z.leb_spec 16 n) as [? | _]; [lia |]. cbv zeta.
  assert (Eiv : ivload ivec m Ivec 0 16 = ivec) by (cbn [ivload]; unfold load; rewrite drop_0, take_all by lia; reflexivity).
  rewrite Eiv. pose proof (dec_tail_bytes block unblock (Z.to_nat n) ivec m inp out n Hn Hiv ltac:(unfold ahead; lia)) as H. cbv zeta in H.
  destruct (dec_tail unblock _ ivec m n inp out) as [m' ivec']. destruct H as (H1 & L & E).
  set (p := xor_bytes (unblock (mload m inp 16)) ivec) in *.
  assert (Lt : len (take n p) = n).
  { rewrite len_take; [reflexivity |]. unfold p. rewrite len_xor_bytes, (block_len (mload m inp 16)) by (now apply len_mload). lia. }
  split; [| split].
  - rewrite (mload_ext m' (mstore m out (take n p))) by (intros; apply H1). rewrite <- Lt at 2. apply mload_mstore.
  - intros i Hi. rewrite H1. unfold mstore. rewrite Lt. mcase.
  - apply list_eq_get; rewrite L; [now rewrite len_mload |]. intros j Hj. rewrite E, get_mload by lia.
    destruct (Z.ltb_spec j n); [| reflexivity]. rewrite H1. unfold mstore. rewrite Lt. mcase.
Qed.

(** C12: CBC in one memory. Decryption reads whole blocks of ciphertext. When
    [out] is at or before [in], however close, or after the last of these
    blocks, each of the three ways of decrypting leaves exactly the chained
    decryption of the original ciphertext at [out], changes nothing else in
    memory, and leaves the last ciphertext block in [ivec]. The assertion of the
    routine allows one placement more: [out] after the [n] bytes but inside the
    last partial block. There it does not decrypt what it was given: its result
    is the decryption of the memory in which the first block of plaintext has
    already replaced the end of the ciphertext (below one block only [ivec] is
    wrong), as for 20 bytes at 100 decrypted to 120. Encryption leaves the
    chained encryption of the data, its last block padded with zeros, at [out]
    and nothing else, and the last block in [ivec]. Encrypting from [in] to
    [out] and decrypting from [out] to [dst], in the placements that work, which
    may coincide or overlap, restores the data for any length and leaves the
    same [ivec] as the encryption. *)
Theorem cbc128_in_memory :
  (forall strict addr m inp out n ivec,
    0 <= n -> ahead inp out (round16 n) -> len ivec = 16 ->
      let (m', ivec') := CRYPTO_cbc128_decrypt unblock strict addr m inp out n ivec in
      let (pt, last) := cbc_dec unblock (S (Z.to_nat n)) ivec (mload m inp (round16 n)) in
      mload m' out n = take n pt /\ (forall i, i < out \/ out + n <= i -> m' i = m i) /\ ivec' = last) /\
  (forall strict addr m inp out n ivec,
    0 <= n -> ahead inp out n -> len ivec = 16 ->
      let (m', ivec') := CRYPTO_cbc128_encrypt block strict addr m inp out n ivec in
      let (ct, last) := cbc_enc block (S (Z.to_nat n)) ivec (mload m inp n) in
      len ct = round16 n /\ (forall i, m' i = mstore m out ct i) /\ ivec' = last) /\
  (forall s1 a1 s2 a2 m inp out dst n ivec,
    0 <= n -> (forall i, byte_ok (m i)) -> len ivec = 16 -> bytes_ok ivec ->
      ahead inp out n -> ahead out dst (round16 n) ->
      let (m1, ivec1) := CRYPTO_cbc128_encrypt block s1 a1 m inp out n ivec in
      let (m2, ivec2) := CRYPTO_cbc128_decrypt unblock s2 a2 m1 out dst n ivec in
      mload m2 dst n = mload m inp n /\ ivec2 = ivec1) /\
  (forall strict addr m inp out n ivec,
    16 <= n -> inp + n <= out < inp + round16 n -> len ivec = 16 ->
      let m1 := mstore m out (xor_bytes (unblock (mload m inp 16)) ivec) in
      let (m', ivec') := CRYPTO_cbc128_decrypt unblock strict addr m inp out n ivec in
      let (pt, last) := cbc_dec unblock (S (Z.to_nat n)) ivec (mload m1 inp (round16 n)) in
      mload m' out n = take n pt /\ (forall i, i < out \/ out + n <= i -> m' i = m1 i) /\ ivec' = last) /\
  (forall strict addr m inp out n ivec,
    0 < n < 16 -> inp + n <= out < inp + 16 -> len ivec = 16 ->
      let (m', ivec') := CRYPTO_cbc128_decrypt unblock strict addr m inp out n ivec in
      mload m' out n = take n (xor_bytes (unblock (mload m inp 16)) ivec) /\
      (forall i, i < out \/ out + n <= i -> m' i = m i) /\ ivec' = mload m' inp 16) /\
  (let m := fun i => i * 7 mod 256 in
    let (m', ivec') := CRYPTO_cbc128_decrypt toy_unblock false 0 m 100 120 20 toy_iv in
    let (pt, last) := cbc_dec toy_unblock 21 toy_iv (mload m 100 32) in
    mload m' 120 20 <> take 20 pt /\ ivec' <> last).
Proof.
  split; [| split; [| split; [exact cbc128_mem_roundtrip | split; [| split; [exact decrypt_overrun_short |]]]]].
  { intros strict addr m inp out n ivec Hn Ha Hiv. pose proof (decrypt_result strict addr m inp out n ivec Hn Ha Hiv) as H.
    destruct (CRYPTO_cbc128_decrypt _ _ _ _ _ _ _ _) as [m' ivec']. now apply decrypted_reads. }
  { intros strict addr m inp out n ivec Hn Ha Hiv. pose proof (encrypt_result strict addr m inp out n ivec Hn Ha Hiv) as H.
    destruct (CRYPTO_cbc128_encrypt _ _ _ _ _ _ _ _) as [m' ivec'], (cbc_enc block _ ivec _) as [ct last]. tauto. }
  { intros strict addr m inp out n ivec Hn Ho Hiv. pose proof (decrypt_overrun strict addr m inp out n ivec Hn Ho Hiv) as H.
    cbv zeta in *. destruct (CRYPTO_cbc128_decrypt _ _ _ _ _ _ _ _) as [m' ivec']. apply decrypted_reads; [lia | exact H]. }
  { vm_compute. split; discriminate. }
Qed.
End Routines.

(** ** Concrete runs *)

(** Ciphertext 5 bytes after the place it is decrypted to. *)

Lemma cbc128_in_memory_witness :
  (let m := fun i => i * 7 mod 256 in
    let (m', ivec') := CRYPTO_cbc128_decrypt toy_unblock true 3 m 105 100 40 toy_iv in
    let (pt, last) := cbc_dec toy_unblock 41 toy_iv (mload m 105 48) in
    mload m' 100 40 = take 40 pt /\ (forall i, i < 100 \/ 100 + 40 <= i -> m' i = m i) /\ ivec' = last) /\
  (let m := fun i => i * 7 mod 256 in
    let (m1, ivec1) := CRYPTO_cbc128_encrypt toy_block false 0 m 105 105 40 toy_iv in
    let (m2, ivec2) := CRYPTO_cbc128_decrypt toy_unblock true 3 m1 105 105 40 toy_iv in
    mload m2 105 40 = mload m 105 40 /\ ivec2 = ivec1) /\
  (let m := fun i => i * 7 mod 256 in
    let m1 := mstore m 122 (xor_bytes (toy_unblock (mload m 100 16)) toy_iv) in
    let (m', ivec') := CRYPTO_cbc128_decrypt toy_unblock true 3 m 100 122 20 toy_iv in
    let (pt, last) := cbc_dec toy_unblock 21 toy_iv (mload m1 100 32) in
    mload m' 122 20 = take 20 pt /\ (forall i, i < 122 \/ 122 + 20 <= i -> m' i = m1 i) /\ ivec' = last) /\
  (let m := fun i => i * 7 mod 256 in
    let (m', ivec') := CRYPTO_cbc128_decrypt toy_unblock true 3 m 100 110 5 toy_iv in
    mload m' 110 5 = take 5 (xor_bytes (toy_unblock (mload m 100 16)) toy_iv) /\
    (forall i, i < 110 \/ 110 + 5 <= i -> m' i = m i) /\ ivec' = mload m' 100 16).
Proof.
  pose proof (cbc128_in_memory toy_block toy_unblock) as (H1 & _ & H2 & H3 & H4 & _).
  split; [| split; [| split]].
  { apply (H1 true 3 (fun i => i * 7 mod 256) 105 100 40 toy_iv).
    - lia.
    - left. lia.
    - reflexivity. }
  { apply (H2 false 0 true 3 (fun i => i * 7 mod 256) 105 105 105 40 toy_iv).
    - lia.
    - intros i. unfold byte_ok. apply Z.mod_pos_bound. lia.
    - apply toy_iv_ok.
    - apply toy_iv_ok.
    - left. lia.
    - left. lia. }
  { apply (H3 true 3 (fun i => i * 7 mod 256) 100 122 20 toy_iv).
    - lia.
    - unfold round16. cbn. lia.
    - reflexivity. }
  { apply (H4 true 3 (fun i => i * 7 mod 256) 100 110 5 toy_iv).
    - lia.
    - lia.
    - reflexivity. }
Defined.
