(* ===== verification/RsaPkcs1.v ===== *)
(** * RSA PKCS #1 v1.5 padding (crypto/fipsmodule/rsa/padding.c)

    Signature padding (type 1), encryption padding (type 2, with random bytes
    and a constant-time check) and no padding. A routine returns its output, or
    the error it queues, or fails without one. *)

From S2P Require Import Prelude Buffers ConstTime.

(** The reasons [OPENSSL_PUT_ERROR] queues in this file. *)
Inductive rsa_error : Type :=
| RSA_R_KEY_SIZE_TOO_SMALL
| RSA_R_DIGEST_TOO_BIG_FOR_RSA_KEY
| RSA_R_DATA_TOO_SMALL
| RSA_R_DATA_TOO_LARGE
| RSA_R_BLOCK_TYPE_IS_NOT_01
| RSA_R_BAD_FIXED_HEADER_DECRYPT
| RSA_R_NULL_BEFORE_BLOCK_MISSING
| RSA_R_BAD_PAD_BYTE_COUNT
| RSA_R_EMPTY_PUBLIC_KEY
| RSA_R_PKCS_DECODING_ERROR
| RSA_R_OAEP_DECODING_ERROR
| RSA_R_SLEN_CHECK_FAILED
| RSA_R_FIRST_OCTET_INVALID
| RSA_R_LAST_OCTET_INVALID
| RSA_R_SLEN_RECOVERY_FAILED
| RSA_R_BAD_SIGNATURE
| ERR_R_MALLOC_FAILURE.

Inductive result (A : Type) : Type := Ok (x : A) | Error (e : rsa_error) | Failed.
Arguments Ok {A} x.
Arguments Error {A} e.
Arguments Failed {A}.

Definition RSA_PKCS1_PADDING_SIZE : Z := 11.

(** ** Type 1 *)

Definition RSA_padding_add_PKCS1_type_1 (to from : list Z) : result (list Z) :=
  let to_len := len to in
  let from_len := len from in
  if to_len <? RSA_PKCS1_PADDING_SIZE then Error RSA_R_KEY_SIZE_TOO_SMALL else
  if to_len - RSA_PKCS1_PADDING_SIZE <? from_len then Error RSA_R_DIGEST_TOO_BIG_FOR_RSA_KEY else
  let to := set to 0 0 in
  let to := set to 1 1 in
  let to := splice to 2 (repeat 255 (Z.to_nat (to_len - 3 - from_len))) in
  let to := set to (to_len - from_len - 1) 0 in
  Ok (splice to (to_len - from_len) from).

(** The scan for the 00 that ends the padding, over the bytes from [pad] on. *)
Fixpoint type_1_scan (l : list Z) (pad : Z) : result Z :=
  match l with
  | [] => Ok pad
  | b :: l =>
      if b =? 0 then Ok pad else
      if negb (b =? 255) then Error RSA_R_BAD_FIXED_HEADER_DECRYPT else
      type_1_scan l (pad + 1)
  end.

Definition RSA_padding_check_PKCS1_type_1 (max_out : Z) (from : list Z) : result (list Z) :=
  let from_len := len from in
  if from_len <? 2 then Error RSA_R_DATA_TOO_SMALL else
  if negb (get from 0 =? 0) || negb (get from 1 =? 1) then Error RSA_R_BLOCK_TYPE_IS_NOT_01 else
  match type_1_scan (drop 2 from) 2 with
  | Error e => Error e
  | Failed => Failed
  | Ok pad =>
      if pad =? from_len then Error RSA_R_NULL_BEFORE_BLOCK_MISSING else
      if pad <? 2 + 8 then Error RSA_R_BAD_PAD_BYTE_COUNT else
      let pad := pad + 1 in
      if max_out <? from_len - pad then Error RSA_R_DATA_TOO_LARGE else
      Ok (take (from_len - pad) (drop pad from))
  end.

(** ** Random bytes *)

(** The generator: a stream of bytes and how far it has been read. *)
Record rng := mk_rng { stream : nat -> Z; drawn : nat }.

(** [RAND_bytes] always succeeds: it aborts the process when it cannot. *)
Definition RAND_bytes (n : Z) (g : rng) : list Z * rng :=
  (map (fun i => stream g (drawn g + i)) (seq 0 (Z.to_nat n)), mk_rng (stream g) (drawn g + Z.to_nat n)).

(** [while (out[i] == 0)]; [None] is out of fuel. *)
Fixpoint redraw (fuel : nat) (b : Z) (g : rng) : option (Z * rng) :=
  if negb (b =? 0) then Some (b, g) else
  match fuel with
  | O => None
  | S fuel => let (l, g) := RAND_bytes 1 g in redraw fuel (get l 0) g
  end.

Fixpoint rand_nonzero_loop (fuel : nat) (out : list Z) (g : rng) : option (list Z * rng) :=
  match out with
  | [] => Some ([], g)
  | b :: out =>
      let* br := redraw fuel b g in
      let (b, g) := br in
      let* rest := rand_nonzero_loop fuel out g in
      Some (b :: fst rest, snd rest)
  end.

Definition rand_nonzero (fuel : nat) (n : Z) (g : rng) : option (list Z * rng) :=
  let (out, g) := RAND_bytes n g in rand_nonzero_loop fuel out g.

(** ** Type 2 *)

Definition RSA_padding_add_PKCS1_type_2 (fuel : nat) (to from : list Z) (g : rng)
  : option (result (list Z) * rng) :=
  let to_len := len to in
  let from_len := len from in
  if to_len <? RSA_PKCS1_PADDING_SIZE then Some (Error RSA_R_KEY_SIZE_TOO_SMALL, g) else
  if to_len - RSA_PKCS1_PADDING_SIZE <? from_len then Some (Error RSA_R_DATA_TOO_LARGE, g) else
  let to := set to 0 0 in
  let to := set to 1 2 in
  let padding_len := to_len - 3 - from_len in
  let* r := rand_nonzero fuel padding_len g in
  let to := splice to 2 (fst r) in
  let to := set to (2 + padding_len) 0 in
  Some (Ok (splice to (to_len - from_len) from), snd r).

(** The constant-time search for the first zero byte from index [i] on. *)
Fixpoint type_2_loop (l : list Z) (i zero_index looking_for_index : Z) : Z * Z :=
  match l with
  | [] => (zero_index, looking_for_index)
  | b :: l =>
      let equals0 := constant_time_is_zero_w b in
      let zero_index := constant_time_select_w (Z.land looking_for_index equals0) i zero_index in
      let looking_for_index := constant_time_select_w equals0 0 looking_for_index in
      type_2_loop l (i + 1) zero_index looking_for_index
  end.

Definition RSA_padding_check_PKCS1_type_2 (max_out : Z) (from : list Z) : result (list Z) :=
  let from_len := len from in
  if from_len =? 0 then Error RSA_R_EMPTY_PUBLIC_KEY else
  if from_len <? RSA_PKCS1_PADDING_SIZE then Error RSA_R_KEY_SIZE_TOO_SMALL else
  let first_byte_is_zero := constant_time_eq_w (get from 0) 0 in
  let second_byte_is_two := constant_time_eq_w (get from 1) 2 in
  let (zero_index, looking_for_index) := type_2_loop (drop 2 from) 2 0 CONSTTIME_TRUE_W in
  let valid_index := first_byte_is_zero in
  let valid_index := Z.land valid_index second_byte_is_two in
  let valid_index := Z.land valid_index (u64 (Z.lnot looking_for_index)) in
  let valid_index := Z.land valid_index (constant_time_ge_w zero_index (2 + 8)) in
  let zero_index := u64 (zero_index + 1) in
  if valid_index =? 0 then Error RSA_R_PKCS_DECODING_ERROR else
  let msg_len := from_len - zero_index in
  if max_out <? msg_len then Error RSA_R_PKCS_DECODING_ERROR else
  Ok (take msg_len (drop zero_index from)).

(** ** No padding *)

Definition RSA_padding_add_none (to from : list Z) : result (list Z) :=
  if len to <? len from then Error RSA_R_DATA_TOO_LARGE else
  if len from <? len to then Error RSA_R_DATA_TOO_SMALL else
  Ok (splice to 0 from).

(** ** Writing a buffer from left to right *)

Lemma splice_next (p l s : list Z) off : off = len p -> len s <= len l -> splice (p ++ l) off s = (p ++ s) ++ drop (len s) l.
Proof.
  intros -> Hs. unfold splice. rewrite take_app_exact by reflexivity. rewrite <- app_assoc. do 2 f_equal.
  pose proof (len_nonneg s). rewrite drop_app_r by lia. f_equal. lia.
Qed.

Lemma set_next (p l : list Z) off x : off = len p -> 1 <= len l -> set (p ++ l) off x = (p ++ [x]) ++ drop 1 l.
Proof. intros. unfold set. now rewrite splice_next. Qed.

(** Header byte pair, padding, separator and payload fill the buffer. *)
Lemma pkcs1_layout (to ps from : list Z) t n :
  n = len to -> len ps = n - 3 - len from -> 0 <= n - 3 - len from ->
  splice (set (splice (set (set to 0 0) 1 t) 2 ps) (n - len from - 1) 0) (n - len from) from =
  0 :: t :: ps ++ 0 :: from.
Proof.
  intros Hn Hp Hr. pose proof (len_nonneg from).
  assert (L1 : len (drop 1 to) = n - 1) by (rewrite len_drop; lia).
  assert (L2 : len (drop 1 (drop 1 to)) = n - 2) by (rewrite len_drop; lia).
  rewrite (set_next [] to) by (reflexivity || lia).
  rewrite (set_next [0] (drop 1 to)) by (reflexivity || lia).
  rewrite splice_next by (reflexivity || lia).
  set (r := drop (len ps) (drop 1 (drop 1 to))).
  assert (Lr : len r = 1 + len from) by (unfold r; rewrite len_drop; lia).
  assert (L : len (([0] ++ [t]) ++ ps) = 2 + len ps) by (rewrite len_app; reflexivity).
  rewrite set_next by lia.
  rewrite splice_next by (rewrite ?(len_app _ [0]), ?L, ?len_drop by lia; change (len [0]) with 1; lia).
  rewrite drop_all by (rewrite len_drop; lia). cbn [app]. now rewrite app_nil_r, <- app_assoc.
Qed.

Lemma bytes_get l i : bytes_ok l -> byte_ok (get l i).
Proof.
  intros H. unfold get. destruct (Nat.lt_ge_cases (Z.to_nat i) (length l)).
  - apply (proj1 (Forall_nth _ _) H). assumption.
  - rewrite nth_overflow by assumption. unfold byte_ok. lia.
Qed.

(** ** Type 1 *)

Lemma type_1_scan_ok l : forall pad p, type_1_scan l pad = Ok p <->
  (p = pad + len l /\ l = repeat 255 (length l)) \/
  (exists k rest, l = repeat 255 k ++ 0 :: rest /\ p = pad + Z.of_nat k).
Proof.
  induction l as [| b l IH]; intros pad p; cbn [type_1_scan].
  { split; [intros [= <-]; left; split; [unfold len; cbn; lia | reflexivity] |].
    intros [[-> _] | (k & rest & E & _)]; [unfold len; cbn; f_equal; lia | destruct k; discriminate]. }
  destruct (Z.eqb_spec b 0) as [-> | H0].
  { split; [intros [= <-]; right; exists 0%nat, l; split; [reflexivity | lia] |].
    intros [[_ E] | (k & rest & E & ->)]; [discriminate |]. destruct k; [f_equal; lia | discriminate]. }
  destruct (Z.eqb_spec b 255) as [-> | Hb]; cbn [negb].
  - rewrite IH, len_cons. cbn [length repeat]. split.
    + intros [[-> E] | (k & rest & -> & ->)]; [left; split; [lia | now f_equal] |].
      right. exists (S k), rest. split; [reflexivity | lia].
    + intros [[-> E] | (k & rest & E & ->)]; [left; injection E as E; split; [lia | assumption] |].
      destruct k as [| k]; [discriminate |]. injection E as ->. right. exists k, rest. split; [reflexivity | lia].
  - split; [discriminate |]. intros [[_ E] | (k & rest & E & _)]; [now injection E |].
    destruct k; [now injection E | now injection E].
Qed.

Lemma type_1_padded_check max_out k msg : 8 <= Z.of_nat k -> len msg <= max_out ->
  RSA_padding_check_PKCS1_type_1 max_out (0 :: 1 :: repeat 255 k ++ 0 :: msg) = Ok msg.
Proof.
  intros Hk Hm. unfold RSA_padding_check_PKCS1_type_1.
  set (from := 0 :: 1 :: repeat 255 k ++ 0 :: msg).
  assert (L : len from = 3 + Z.of_nat k + len msg) by (unfold from; rewrite !len_cons, len_app, len_repeat, len_cons; lia).
  rewrite L. pose proof (len_nonneg msg). destruct (Z.ltb_spec (3 + Z.of_nat k + len msg) 2); [lia |].
  change (get from 0) with 0. change (get from 1) with 1. cbn [Z.eqb negb orb Pos.eqb].
  change (drop 2 from) with (repeat 255 k ++ 0 :: msg).
  rewrite (proj2 (type_1_scan_ok _ 2 (2 + Z.of_nat k))) by (right; eauto).
  destruct (Z.eqb_spec (2 + Z.of_nat k) (3 + Z.of_nat k + len msg)); [lia |].
  destruct (Z.ltb_spec (2 + Z.of_nat k) (2 + 8)); [lia |].
  replace (3 + Z.of_nat k + len msg - (2 + Z.of_nat k + 1)) with (len msg) by lia.
  destruct (Z.ltb_spec max_out (len msg)); [lia |]. f_equal. rewrite take_all.
  - change from with ((0 :: 1 :: repeat 255 k) ++ [0] ++ msg). rewrite app_assoc. apply drop_app_exact.
    rewrite len_app, !len_cons, len_repeat, len_nil. lia.
  - rewrite len_drop; lia.
Qed.

(** The type 1 check accepts exactly the PKCS #1 signature blocks: it
    returns [out] if and only if the input is 00 01, at least eight FF bytes,
    00 and [out], and [out] fits. *)
Lemma pkcs1_type_1_check_iff max_out from out :
  RSA_padding_check_PKCS1_type_1 max_out from = Ok out <->
  exists k, 8 <= Z.of_nat k /\ from = 0 :: 1 :: repeat 255 k ++ 0 :: out /\ len out <= max_out.
Proof.
  split; [| intros (k & Hk & -> & Hm); now apply type_1_padded_check].
  unfold RSA_padding_check_PKCS1_type_1. destruct (Z.ltb_spec (len from) 2) as [| Hl]; [discriminate |].
  destruct (Z.eqb_spec (get from 0) 0) as [E0 |], (Z.eqb_spec (get from 1) 1) as [E1 |]; try discriminate. cbn [negb orb].
  destruct (type_1_scan (drop 2 from) 2) as [p | |] eqn:Es; try discriminate.
  destruct (Z.eqb_spec p (len from)); [discriminate |]. destruct (Z.ltb_spec p (2 + 8)); [discriminate |].
  destruct (Z.ltb_spec max_out (len from - (p + 1))) as [| Hmax]; [discriminate |]. intros [= <-].
  apply type_1_scan_ok in Es as [[-> _] | (k & rest & Ed & ->)]; [rewrite len_drop in *; lia |].
  assert (Efrom : from = 0 :: 1 :: repeat 255 k ++ 0 :: rest).
  { rewrite <- Ed, <- E0, <- E1 at 1. rewrite <- (drop_cons_get 1) by lia. rewrite <- (drop_cons_get 0) by lia. now rewrite drop_0. }
  assert (L : len from = 3 + Z.of_nat k + len rest) by (rewrite Efrom, !len_cons, len_app, len_repeat, len_cons; lia).
  exists k. split; [lia |].
  replace (drop (2 + Z.of_nat k + 1) from) with rest.
  - rewrite L. rewrite take_all by lia. split; [assumption | lia].
  - rewrite Efrom. change (0 :: 1 :: repeat 255 k ++ 0 :: rest) with ((0 :: 1 :: repeat 255 k) ++ [0] ++ rest).
    rewrite app_assoc. symmetry. apply drop_app_exact. rewrite len_app, !len_cons, len_repeat, len_nil. lia.
Qed.

Lemma add_type_1_ok to from : len from + 11 <= len to ->
  RSA_padding_add_PKCS1_type_1 to from = Ok (0 :: 1 :: repeat 255 (Z.to_nat (len to - 3 - len from)) ++ 0 :: from).
Proof.
  intros Hl. unfold RSA_padding_add_PKCS1_type_1, RSA_PKCS1_PADDING_SIZE. pose proof (len_nonneg from).
  destruct (Z.ltb_spec (len to) 11); [lia |]. destruct (Z.ltb_spec (len to - 11) (len from)); [lia |].
  f_equal. apply pkcs1_layout; rewrite ?len_repeat; lia.
Qed.

(** Type 1 padding fills the whole output with a block that the check
    reads back as the data, whatever the buffer held; when the data does not
    fit with its eleven bytes of overhead the error says which size is at
    fault. *)
Lemma pkcs1_type_1_roundtrip to from max_out : len from <= max_out ->
  match RSA_padding_add_PKCS1_type_1 to from with
  | Ok em => len em = len to /\ RSA_padding_check_PKCS1_type_1 max_out em = Ok from
  | Error RSA_R_KEY_SIZE_TOO_SMALL => len to < 11
  | Error RSA_R_DIGEST_TOO_BIG_FOR_RSA_KEY => 11 <= len to < len from + 11
  | _ => False
  end.
Proof.
  intros Hm. destruct (Z.le_gt_cases (len from + 11) (len to)) as [Hl | Hl].
  - rewrite add_type_1_ok by assumption. pose proof (len_nonneg from). split; [| apply type_1_padded_check; lia].
    rewrite !len_cons, len_app, len_repeat, len_cons. lia.
  - unfold RSA_padding_add_PKCS1_type_1, RSA_PKCS1_PADDING_SIZE.
    destruct (Z.ltb_spec (len to) 11); [lia |]. destruct (Z.ltb_spec (len to - 11) (len from)); lia.
Qed.

(** ** Random bytes *)

(** The generator yields bytes, and a nonzero one at least every [k] bytes. *)
Record lively (k : nat) (g : rng) : Prop := {
  lively_bytes : forall i, byte_ok (stream g i);
  lively_nonzero : forall i, exists j, (j < k)%nat /\ stream g (i + j) <> 0 }.

Definition same_stream (g g' : rng) : Prop := stream g' = stream g.

Lemma redraw_ok k : forall fuel b g, (forall i, byte_ok (stream g i)) -> byte_ok b ->
  (exists j, (j < k)%nat /\ stream g (drawn g + j) <> 0) -> (k <= fuel)%nat ->
  exists b' g', redraw fuel b g = Some (b', g') /\ b' <> 0 /\ byte_ok b' /\ same_stream g g'.
Proof.
  induction k as [| k IH]; intros fuel b g Hs Hb (j & Hj & Hne) Hf; [lia |].
  destruct fuel as [| fuel]; [lia |]. cbn [redraw].
  destruct (Z.eqb_spec b 0) as [-> | Hb0]; cbn [negb]; [| exists b, g; split; [reflexivity | split; [assumption | split; [assumption | reflexivity]]]].
  unfold RAND_bytes. cbn [Z.to_nat Pos.to_nat Pos.iter_op seq map stream drawn].
  change (Pos.to_nat 1) with 1%nat. cbn [seq map]. rewrite Nat.add_0_r. change (get [stream g (drawn g)] 0) with (stream g (drawn g)).
  destruct j as [| j].
  - rewrite Nat.add_0_r in Hne. exists (stream g (drawn g)), (mk_rng (stream g) (drawn g + 1)).
    split; [| split; [assumption | split; [apply Hs | reflexivity]]].
    destruct fuel; cbn [redraw]; destruct (Z.eqb_spec (stream g (drawn g)) 0); [contradiction | reflexivity | contradiction | reflexivity].
  - destruct (IH fuel (stream g (drawn g)) (mk_rng (stream g) (drawn g + 1))) as (b' & g' & E & ? & ? & ?).
    + exact Hs.
    + apply Hs.
    + exists j. split; [lia |]. cbn [stream drawn]. now replace (drawn g + 1 + j)%nat with (drawn g + S j)%nat by lia.
    + lia.
    + exists b', g'. now rewrite E.
Qed.

Lemma rand_nonzero_loop_ok k fuel out : forall g, lively k g -> (k <= fuel)%nat -> bytes_ok out ->
  exists ps g', rand_nonzero_loop fuel out g = Some (ps, g') /\ same_stream g g' /\
    len ps = len out /\ Forall (fun b => b <> 0) ps /\ bytes_ok ps.
Proof.
  induction out as [| b out IH]; intros g Hg Hf Hok; cbn [rand_nonzero_loop].
  { exists [], g. repeat split; constructor. }
  inversion_clear Hok as [| ? ? Hb Hok'].
  destruct (redraw_ok k fuel b g (lively_bytes k g Hg) Hb (lively_nonzero k g Hg _) Hf) as (b' & g1 & E & Hne & Hb' & Hs).
  rewrite E. cbn [fst snd].
  assert (Hg1 : lively k g1) by (split; rewrite Hs; apply Hg).
  destruct (IH g1 Hg1 Hf Hok') as (ps & g2 & E2 & Hs2 & Hl & Hnz & Hbs). rewrite E2.
  exists (b' :: ps), g2. cbn [fst snd]. split; [reflexivity |]. split; [unfold same_stream in *; congruence |].
  split; [rewrite !len_cons; lia |]. split; now constructor.
Qed.

Lemma rand_nonzero_ok k fuel n g : lively k g -> (k <= fuel)%nat -> 0 <= n ->
  exists ps g', rand_nonzero fuel n g = Some (ps, g') /\ len ps = n /\ Forall (fun b => b <> 0) ps /\ bytes_ok ps.
Proof.
  intros Hg Hf Hn. unfold rand_nonzero, RAND_bytes.
  destruct (rand_nonzero_loop_ok k fuel (map (fun i => stream g (drawn g + i)) (seq 0 (Z.to_nat n)))
              (mk_rng (stream g) (drawn g + Z.to_nat n))) as (ps & g' & E & _ & Hl & Hnz & Hbs).
  - split; apply Hg.
  - assumption.
  - apply Forall_map, Forall_forall. intros. apply (lively_bytes k g Hg).
  - exists ps, g'. split; [assumption |]. split; [rewrite Hl, len_map; unfold len; rewrite length_seq; lia | now split].
Qed.

(** ** Type 2 *)

Lemma mask_true_ne : CONSTTIME_TRUE_W <> 0.
Proof. discriminate. Qed.

Lemma land_mask a b : Z.land (mask_w a) (mask_w b) = mask_w (a && b).
Proof. destruct a, b; reflexivity. Qed.

Lemma lnot_mask a : u64 (Z.lnot (mask_w a)) = mask_w (negb a).
Proof. destruct a; reflexivity. Qed.

Lemma mask_eqb a : (mask_w a =? 0) = negb a.
Proof. destruct a; reflexivity. Qed.

(** Whether the index is still wanted, and where the first zero is. *)
Fixpoint first_zero (l : list Z) (i : Z) : option Z :=
  match l with
  | [] => None
  | b :: l => if b =? 0 then Some i else first_zero l (i + 1)
  end.

Lemma type_2_loop_spec l : forall i zero_index looking, bytes_ok l -> 0 <= i -> i + len l < 2 ^ 64 -> crypto_word zero_index ->
  type_2_loop l i zero_index (mask_w looking) =
  match first_zero l i with
  | Some j => if looking then (j, mask_w false) else (zero_index, mask_w false)
  | None => (zero_index, mask_w looking)
  end.
Proof.
  induction l as [| b l IH]; intros i zi looking Hok Hi Hl Hz; cbn [type_2_loop first_zero]; [reflexivity |].
  inversion_clear Hok as [| ? ? Hb Hok']. rewrite len_cons in Hl. pose proof (len_nonneg l).
  assert (Hbw : crypto_word b) by (unfold crypto_word, byte_ok in *; lia).
  assert (Hiw : crypto_word i) by (unfold crypto_word; lia).
  assert (H0 : crypto_word 0) by (unfold crypto_word; lia).
  rewrite is_zero_w_mask by assumption. rewrite land_mask, select_w_mask by assumption.
  replace (constant_time_select_w (mask_w (b =? 0)) 0 (mask_w looking)) with (mask_w (negb (b =? 0) && looking)).
  2:{ rewrite select_w_mask by (assumption || (unfold crypto_word; destruct looking; cbn; lia)). now destruct (b =? 0). }
  rewrite IH; try assumption; try lia; [| destruct (looking && _); assumption].
  destruct (Z.eqb_spec b 0); cbn [negb andb].
  - rewrite andb_true_r. destruct (first_zero l (i + 1)), looking; reflexivity.
  - rewrite andb_false_r. reflexivity.
Qed.

Lemma first_zero_some l : forall i j, first_zero l i = Some j <->
  exists ps rest, l = ps ++ 0 :: rest /\ Forall (fun b => b <> 0) ps /\ j = i + len ps.
Proof.
  induction l as [| b l IH]; intros i j; cbn [first_zero].
  { split; [discriminate | intros (ps & rest & E & _); destruct ps; discriminate]. }
  destruct (Z.eqb_spec b 0) as [-> | Hb].
  - split; [intros [= <-]; exists [], l; split; [reflexivity | split; [constructor | rewrite len_nil; lia]] |].
    intros (ps & rest & E & Hp & ->). destruct ps as [| p ps]; [rewrite len_nil; f_equal; lia |].
    injection E as <- E. inversion_clear Hp. contradiction.
  - rewrite IH. split.
    + intros (ps & rest & -> & Hp & ->). exists (b :: ps), rest. split; [reflexivity |]. split; [now constructor | rewrite len_cons; lia].
    + intros (ps & rest & E & Hp & ->). destruct ps as [| p ps]; [now injection E |]. injection E as <- ->.
      exists ps, rest. inversion_clear Hp. split; [reflexivity | split; [assumption | rewrite len_cons; lia]].
Qed.

(** The block 00 02 PS 00 M. *)
Definition type_2_block (ps msg : list Z) : list Z := 0 :: 2 :: ps ++ 0 :: msg.

Lemma len_type_2_block ps msg : len (type_2_block ps msg) = 3 + len ps + len msg.
Proof. unfold type_2_block. rewrite !len_cons, len_app, len_cons. lia. Qed.

Lemma drop_type_2_block ps msg : drop (3 + len ps) (type_2_block ps msg) = msg.
Proof.
  unfold type_2_block. change (0 :: 2 :: ps ++ 0 :: msg) with ((0 :: 2 :: ps) ++ [0] ++ msg).
  rewrite app_assoc. apply drop_app_exact. rewrite len_app, !len_cons, len_nil. lia.
Qed.

Lemma bytes_header from : 2 <= len from -> from = get from 0 :: get from 1 :: drop 2 from.
Proof. intros. rewrite <- (drop_cons_get 1) by lia. rewrite <- (drop_cons_get 0) by lia. now rewrite drop_0. Qed.

(** The checks of [RSA_padding_check_PKCS1_type_2] without its masks. *)
Lemma check_type_2_unmasked max_out from : bytes_ok from -> 11 <= len from < 2 ^ 64 ->
  RSA_padding_check_PKCS1_type_2 max_out from =
  match first_zero (drop 2 from) 2 with
  | Some j =>
      if (get from 0 =? 0) && (get from 1 =? 2) && (10 <=? j) then
        if max_out <? len from - (j + 1) then Error RSA_R_PKCS_DECODING_ERROR else Ok (take (len from - (j + 1)) (drop (j + 1) from))
      else Error RSA_R_PKCS_DECODING_ERROR
  | None => Error RSA_R_PKCS_DECODING_ERROR
  end.
Proof.
  intros Hok Hl. unfold RSA_padding_check_PKCS1_type_2, RSA_PKCS1_PADDING_SIZE.
  destruct (Z.eqb_spec (len from) 0); [lia |]. destruct (Z.ltb_spec (len from) 11); [lia |].
  pose proof (bytes_get from 0 Hok) as H0. pose proof (bytes_get from 1 Hok) as H1. unfold byte_ok in *.
  rewrite !eq_w_mask by (unfold crypto_word; lia).
  change CONSTTIME_TRUE_W with (mask_w true).
  rewrite type_2_loop_spec; [| now apply bytes_ok_drop | lia | rewrite len_drop; lia | unfold crypto_word; lia].
  assert (Hge : forall z, 0 <= z < 2 ^ 64 -> constant_time_ge_w z (2 + 8) = mask_w (10 <=? z)).
  { intros z Hz. unfold constant_time_ge_w. rewrite lt_w_mask by (unfold crypto_word; lia). rewrite lnot_mask. f_equal.
    change (2 + 8) with 10. destruct (Z.ltb_spec z 10), (Z.leb_spec 10 z); lia || reflexivity. }
  destruct (first_zero (drop 2 from) 2) as [j |] eqn:Ej.
  - apply first_zero_some in Ej as (ps & rest & Ed & _ & ->).
    assert (Ld : len (drop 2 from) = len from - 2) by (rewrite len_drop; lia).
    rewrite Ed, len_app, len_cons in Ld. pose proof (len_nonneg ps). pose proof (len_nonneg rest).
    rewrite lnot_mask, Hge by lia. rewrite !land_mask, mask_eqb. cbn [negb]. rewrite andb_true_r.
    rewrite wrap_small by lia. now destruct (_ && _ && _).
  - rewrite lnot_mask. cbn [negb]. rewrite Hge by lia. rewrite !land_mask, mask_eqb, andb_false_r. reflexivity.
Qed.

Lemma check_type_2_ok max_out ps msg : bytes_ok ps -> bytes_ok msg -> 8 <= len ps -> Forall (fun b => b <> 0) ps ->
  len msg <= max_out -> 3 + len ps + len msg < 2 ^ 64 ->
  RSA_padding_check_PKCS1_type_2 max_out (type_2_block ps msg) = Ok msg.
Proof.
  intros Hps Hmsg Hlp Hnz Hm Hl. pose proof (len_nonneg msg). pose proof (len_type_2_block ps msg) as L.
  rewrite check_type_2_unmasked; [| | lia].
  2:{ unfold type_2_block. repeat constructor; unfold byte_ok; try lia. apply bytes_ok_app. split; [assumption |].
      constructor; [unfold byte_ok; lia | assumption]. }
  rewrite (proj2 (first_zero_some (drop 2 (type_2_block ps msg)) 2 (2 + len ps))) by (exists ps, msg; now repeat split).
  change (get (type_2_block ps msg) 0) with 0. change (get (type_2_block ps msg) 1) with 2. cbn [Z.eqb Pos.eqb andb].
  destruct (Z.leb_spec 10 (2 + len ps)); [| lia]. rewrite L.
  replace (3 + len ps + len msg - (2 + len ps + 1)) with (len msg) by lia. destruct (Z.ltb_spec max_out (len msg)); [lia |].
  replace (2 + len ps + 1) with (3 + len ps) by lia. rewrite drop_type_2_block. now rewrite take_all by lia.
Qed.

(** The constant-time type 2 check accepts exactly the PKCS #1 encryption
    blocks: it returns [out] if and only if the input is 00 02, at least eight
    nonzero bytes, 00 and [out], and [out] fits; on every other input of at
    least eleven bytes the error is the same, whatever is wrong with it. *)
Lemma pkcs1_type_2_check_iff max_out from : bytes_ok from -> 11 <= len from < 2 ^ 64 ->
  (forall out, RSA_padding_check_PKCS1_type_2 max_out from = Ok out <->
     exists ps, 8 <= len ps /\ Forall (fun b => b <> 0) ps /\ from = type_2_block ps out /\ len out <= max_out) /\
  ((forall out, RSA_padding_check_PKCS1_type_2 max_out from <> Ok out) ->
     RSA_padding_check_PKCS1_type_2 max_out from = Error RSA_R_PKCS_DECODING_ERROR).
Proof.
  intros Hok Hl. split.
  - intros out. split.
    + rewrite check_type_2_unmasked by assumption.
      destruct (first_zero (drop 2 from) 2) as [j |] eqn:Ej; [| discriminate].
      destruct (_ && _ && _) eqn:Eh; [| discriminate]. apply andb_true_iff in Eh as [Eh Hj].
      apply andb_true_iff in Eh as [E0 E1]. apply Z.eqb_eq in E0, E1. apply Z.leb_le in Hj.
      apply first_zero_some in Ej as (ps & rest & Ed & Hnz & ->).
      assert (Efrom : from = type_2_block ps rest) by (rewrite (bytes_header from) by lia; rewrite E0, E1, Ed; reflexivity).
      pose proof (len_type_2_block ps rest) as L. rewrite <- Efrom in L.
      replace (2 + len ps + 1) with (3 + len ps) by lia.
      replace (drop (3 + len ps) from) with rest by (rewrite Efrom; symmetry; apply drop_type_2_block).
      replace (len from - (3 + len ps)) with (len rest) by lia. rewrite take_all by lia.
      destruct (Z.ltb_spec max_out (len rest)); [discriminate |]. intros [= <-].
      exists ps. split; [lia |]. split; [assumption |]. split; assumption.
    + intros (ps & Hp & Hnz & -> & Hm). rewrite len_type_2_block in Hl.
      unfold type_2_block in Hok. inversion_clear Hok as [| ? ? _ Hok']. inversion_clear Hok' as [| ? ? _ Hok].
      apply bytes_ok_app in Hok as [Hps Hok]. inversion_clear Hok as [| ? ? _ Hmsg].
      apply check_type_2_ok; assumption || lia.
  - intros Hno. rewrite check_type_2_unmasked in * by assumption.
    destruct (first_zero _ _); [| reflexivity]. destruct (_ && _ && _); [| reflexivity].
    destruct (_ <? _); [reflexivity |]. now edestruct Hno.
Qed.

(** What it answers to every input that is no block: shorter ones are told apart
    by their (public) length. *)
Definition type_2_refusal (from : list Z) : rsa_error :=
  if len from =? 0 then RSA_R_EMPTY_PUBLIC_KEY else
  if len from <? RSA_PKCS1_PADDING_SIZE then RSA_R_KEY_SIZE_TOO_SMALL else RSA_R_PKCS_DECODING_ERROR.

Lemma pkcs1_type_2_check_all max_out from : bytes_ok from -> len from < 2 ^ 64 ->
  (forall out, RSA_padding_check_PKCS1_type_2 max_out from = Ok out <->
     exists ps, 8 <= len ps /\ Forall (fun b => b <> 0) ps /\ from = type_2_block ps out /\ len out <= max_out) /\
  ((forall out, RSA_padding_check_PKCS1_type_2 max_out from <> Ok out) ->
     RSA_padding_check_PKCS1_type_2 max_out from = Error (type_2_refusal from)).
Proof.
  intros Hok Hl. pose proof (len_nonneg from). destruct (Z.lt_ge_cases (len from) 11) as [Hs | Hs].
  - assert (E : RSA_padding_check_PKCS1_type_2 max_out from = Error (type_2_refusal from)).
    { unfold RSA_padding_check_PKCS1_type_2, type_2_refusal, RSA_PKCS1_PADDING_SIZE. destruct (Z.eqb_spec (len from) 0); [reflexivity |].
      destruct (Z.ltb_spec (len from) 11); [reflexivity | lia]. }
    rewrite E. split; [| reflexivity]. intros out. split; [discriminate |]. intros (ps & Hp & _ & -> & _).
    rewrite len_type_2_block in Hs. pose proof (len_nonneg out). lia.
  - destruct (pkcs1_type_2_check_iff max_out from Hok (conj Hs Hl)) as [H1 H2]. split; [exact H1 |]. intros Hno. rewrite (H2 Hno).
    unfold type_2_refusal, RSA_PKCS1_PADDING_SIZE. destruct (Z.eqb_spec (len from) 0); [lia |]. destruct (Z.ltb_spec (len from) 11); [lia | reflexivity].
Qed.

(** Type 2 padding terminates with any generator that keeps yielding
    nonzero bytes ([k] draws per byte are enough fuel) and the check recovers
    the data whatever was drawn; data that does not fit is refused. *)
Lemma pkcs1_type_2_roundtrip k fuel to from g max_out :
  lively k g -> (k <= fuel)%nat -> bytes_ok from -> len to < 2 ^ 64 -> len from <= max_out ->
  match RSA_padding_add_PKCS1_type_2 fuel to from g with
  | Some (Ok em, _) => len em = len to /\ RSA_padding_check_PKCS1_type_2 max_out em = Ok from
  | Some (Error RSA_R_KEY_SIZE_TOO_SMALL, _) => len to < 11
  | Some (Error RSA_R_DATA_TOO_LARGE, _) => 11 <= len to < len from + 11
  | _ => False
  end.
Proof.
  intros Hg Hf Hok Hto Hm. unfold RSA_padding_add_PKCS1_type_2, RSA_PKCS1_PADDING_SIZE.
  pose proof (len_nonneg from).
  destruct (Z.ltb_spec (len to) 11); [lia |]. destruct (Z.ltb_spec (len to - 11) (len from)); [lia |].
  destruct (rand_nonzero_ok k fuel (len to - 3 - len from) g Hg Hf ltac:(lia)) as (ps & g' & E & Hp & Hnz & Hps).
  rewrite E. cbn [fst snd]. replace (2 + (len to - 3 - len from)) with (len to - len from - 1) by lia.
  rewrite (pkcs1_layout to ps from 2 (len to)) by lia. fold (type_2_block ps from).
  split; [rewrite len_type_2_block; lia |]. apply check_type_2_ok; assumption || lia.
Qed.

(** C36: PKCS #1 v1.5 padding is exact. The type 1 check accepts precisely the
    signature blocks (00 01, at least eight FF bytes, 00, and the data, which
    must fit), and the constant-time type 2 check precisely the encryption
    blocks (00 02, at least eight nonzero bytes, 00, the data, which must fit),
    for inputs of every length. Everything else of at least eleven bytes gets one
    and the same error from it, whatever is wrong; shorter inputs are refused by
    their length alone, an empty one as an empty key and up to ten bytes as too
    small a key. Padding of either type fills the whole
    output with a block that the check reads back, whatever the buffer held;
    data that does not fit is refused with the size at fault. Type 2 padding
    terminates with any generator that keeps yielding nonzero bytes ([k] draws
    per byte are enough fuel). *)
Theorem pkcs1_exact :
  (forall max_out,
    (forall from out, RSA_padding_check_PKCS1_type_1 max_out from = Ok out <->
        exists k, 8 <= Z.of_nat k /\ from = 0 :: 1 :: repeat 255 k ++ 0 :: out /\ len out <= max_out) /\
      (forall to from, len from <= max_out ->
        match RSA_padding_add_PKCS1_type_1 to from with
        | Ok em => len em = len to /\ RSA_padding_check_PKCS1_type_1 max_out em = Ok from
        | Error RSA_R_KEY_SIZE_TOO_SMALL => len to < 11
        | Error RSA_R_DIGEST_TOO_BIG_FOR_RSA_KEY => 11 <= len to < len from + 11
        | _ => False
        end)) /\
  (forall max_out,
    (forall from, bytes_ok from -> len from < 2 ^ 64 ->
        (forall out, RSA_padding_check_PKCS1_type_2 max_out from = Ok out <->
           exists ps, 8 <= len ps /\ Forall (fun b => b <> 0) ps /\ from = type_2_block ps out /\ len out <= max_out) /\
        ((forall out, RSA_padding_check_PKCS1_type_2 max_out from <> Ok out) ->
           RSA_padding_check_PKCS1_type_2 max_out from = Error (type_2_refusal from))) /\
      (forall k fuel to from g, lively k g -> (k <= fuel)%nat -> bytes_ok from -> len to < 2 ^ 64 -> len from <= max_out ->
        match RSA_padding_add_PKCS1_type_2 fuel to from g with
        | Some (Ok em, _) => len em = len to /\ RSA_padding_check_PKCS1_type_2 max_out em = Ok from
        | Some (Error RSA_R_KEY_SIZE_TOO_SMALL, _) => len to < 11
        | Some (Error RSA_R_DATA_TOO_LARGE, _) => 11 <= len to < len from + 11
        | _ => False
        end)).
Proof.
  split.
  { intros max_out. split; intros; [apply pkcs1_type_1_check_iff | now apply pkcs1_type_1_roundtrip]. }
  { intros max_out. split; [intros from; apply pkcs1_type_2_check_all | intros k fuel to from g; apply pkcs1_type_2_roundtrip]. }
Qed.

Lemma pkcs1_exact_witness :
  (RSA_padding_check_PKCS1_type_1 9 [0; 1; 255; 255; 255; 255; 255; 255; 255; 255; 0; 5; 0; 7] = Ok [5; 0; 7] /\
    match RSA_padding_add_PKCS1_type_1 (repeat 7 20) [1; 0; 3] with
    | Ok em => len em = 20 /\ RSA_padding_check_PKCS1_type_1 9 em = Ok [1; 0; 3]
    | Error RSA_R_KEY_SIZE_TOO_SMALL => 20 < 11
    | Error RSA_R_DIGEST_TOO_BIG_FOR_RSA_KEY => 11 <= 20 < 3 + 11
    | _ => False
    end) /\
  ((exists ps, 8 <= len ps /\ Forall (fun b => b <> 0) ps /\
      [0; 2; 9; 8; 7; 6; 5; 4; 3; 2; 0; 5; 0; 7] = type_2_block ps [5; 0; 7] /\ len [5; 0; 7] <= 20) /\
    RSA_padding_check_PKCS1_type_2 20 [0; 2; 9] = Error RSA_R_KEY_SIZE_TOO_SMALL /\
    match RSA_padding_add_PKCS1_type_2 2 (repeat 0 20) [1; 0; 3] (mk_rng (fun i => if Nat.even i then 0 else 77) 0) with
    | Some (Ok em, _) => len em = len (repeat 0 20) /\ RSA_padding_check_PKCS1_type_2 9 em = Ok [1; 0; 3]
    | Some (Error RSA_R_KEY_SIZE_TOO_SMALL, _) => len (repeat 0 20) < 11
    | Some (Error RSA_R_DATA_TOO_LARGE, _) => 11 <= len (repeat 0 20) < len [1; 0; 3] + 11
    | _ => False
    end).
Proof.
  split.
  { split; [apply (proj1 (proj1 pkcs1_exact 9)); exists 8%nat; repeat split; vm_compute; discriminate |].
    apply (proj2 (proj1 pkcs1_exact 9) (repeat 7 20) [1; 0; 3]). vm_compute. discriminate. }
  { split; [| split].
    - apply (proj1 (proj2 pkcs1_exact 20) [0; 2; 9; 8; 7; 6; 5; 4; 3; 2; 0; 5; 0; 7]).
      + repeat constructor; unfold byte_ok; lia.
      + vm_compute. reflexivity.
      + vm_compute. reflexivity.
    - apply (proj1 (proj2 pkcs1_exact 20) [0; 2; 9]).
      + repeat constructor; unfold byte_ok; lia.
      + vm_compute. reflexivity.
      + intros out E. vm_compute in E. discriminate E.
    - apply (proj2 (proj2 pkcs1_exact 9) 2%nat 2%nat (repeat 0 20) [1; 0; 3] (mk_rng (fun i => if Nat.even i then 0 else 77) 0)).
      + split; cbn [stream]; intros i; [destruct (Nat.even i); unfold byte_ok; lia |].
        destruct (Nat.even i) eqn:E.
        * exists 1%nat. split; [lia |]. rewrite Nat.add_1_r, Nat.even_succ, <- Nat.negb_even, E. discriminate.
        * exists 0%nat. split; [lia |]. rewrite Nat.add_0_r, E. discriminate.
      + lia.
      + repeat constructor; unfold byte_ok; lia.
      + vm_compute. reflexivity.
      + vm_compute. discriminate. }
Defined.
