(* ===== verification/RsaHash.v ===== *)
(** * RSA OAEP and PSS padding (crypto/fipsmodule/rsa/padding.c)

    The paddings built on a message digest. An [EVP_MD] is an argument of the
    code (a table of function pointers), so it is an argument here: its size and
    the result of an init, update, final sequence, [None] if one of them fails. *)

From S2P Require Import Prelude Buffers ConstTime Cbs RsaPkcs1.

Record EVP_MD := mk_md { EVP_MD_size : Z; md_digest : list Z -> option (list Z) }.

(** What a digest promises. *)
Class DigestOk (md : EVP_MD) : Prop := {
  md_size_range : 1 <= EVP_MD_size md <= 64;
  md_output : forall x d, md_digest md x = Some d -> len d = EVP_MD_size md /\ bytes_ok d }.

(** ** MGF1 *)

(** The loop from block [i] on with [n] bytes to go. [None]: a digest failed. *)
Fixpoint mgf1_loop (fuel : nat) (i n : Z) (seed : list Z) (md : EVP_MD) : option (list Z) :=
  match fuel with
  | O => None
  | S fuel =>
      if n <=? 0 then Some [] else
      let counter := [u8 (Z.shiftr i 24); u8 (Z.shiftr i 16); u8 (Z.shiftr i 8); u8 i] in
      let* d := md_digest md (seed ++ counter) in
      if EVP_MD_size md <=? n then
        let* rest := mgf1_loop fuel (u32 (i + 1)) (n - EVP_MD_size md) seed md in Some (d ++ rest)
      else Some (take n d)
  end.

(** The bytes written to [out]. *)
Definition PKCS1_MGF1 (n : Z) (seed : list Z) (md : EVP_MD) : option (list Z) :=
  mgf1_loop (S (Z.to_nat n)) 0 n seed md.

Section Padding.
Variable EVP_sha1 : EVP_MD.
Variable alloc_ok : Z -> bool.

Definition default_md (md : option EVP_MD) : EVP_MD := match md with Some md => md | None => EVP_sha1 end.
Definition default_mgf1 (mgf1md : option EVP_MD) (md : EVP_MD) : EVP_MD :=
  match mgf1md with Some m => m | None => md end.

(** A call that fails without queueing an error in this file. *)
Definition bind_option {A B} (x : option A) (k : A -> result B) : result B :=
  match x with Some a => k a | None => Failed end.

(** ** OAEP *)

Definition RSA_padding_add_PKCS1_OAEP_mgf1 (to from param : list Z) (md mgf1md : option EVP_MD) (g : rng)
  : result (list Z) * rng :=
  let md := default_md md in
  let mgf1md := default_mgf1 mgf1md md in
  let to_len := len to in
  let from_len := len from in
  let mdlen := EVP_MD_size md in
  if to_len <? 2 * mdlen + 2 then (Error RSA_R_KEY_SIZE_TOO_SMALL, g) else
  let emlen := to_len - 1 in
  if emlen - 2 * mdlen - 1 <? from_len then (Error RSA_R_DATA_TOO_LARGE, g) else
  if emlen <? 2 * mdlen + 1 then (Error RSA_R_KEY_SIZE_TOO_SMALL, g) else
  let to := set to 0 0 in
  let seed := 1 in
  let db := mdlen + 1 in
  match md_digest md param with
  | None => (Failed, g)
  | Some lhash =>
      let to := splice to db lhash in
      let to := splice to (db + mdlen) (repeat 0 (Z.to_nat (emlen - from_len - 2 * mdlen - 1))) in
      let to := set to (db + (emlen - from_len - mdlen - 1)) 1 in
      let to := splice to (db + emlen - from_len - mdlen) from in
      let (r, g) := RAND_bytes mdlen g in
      let to := splice to seed r in
      if negb (alloc_ok (emlen - mdlen)) then (Error ERR_R_MALLOC_FAILURE, g) else
      (bind_option (PKCS1_MGF1 (emlen - mdlen) (load to seed mdlen) mgf1md) (fun dbmask =>
       let to := splice to db (xor_bytes (load to db (emlen - mdlen)) dbmask) in
       bind_option (PKCS1_MGF1 mdlen (load to db (emlen - mdlen)) mgf1md) (fun seedmask =>
       Ok (splice to seed (xor_bytes (load to seed mdlen) seedmask)))), g)
  end.

(** The constant-time loop over [db] from index [i] on. *)
Fixpoint oaep_loop (l : list Z) (i one_index looking_for_one_byte bad : Z) : Z * Z * Z :=
  match l with
  | [] => (one_index, looking_for_one_byte, bad)
  | b :: l =>
      let equals1 := constant_time_eq_w b 1 in
      let equals0 := constant_time_eq_w b 0 in
      let one_index := constant_time_select_w (Z.land looking_for_one_byte equals1) i one_index in
      let looking_for_one_byte := constant_time_select_w equals1 0 looking_for_one_byte in
      let bad := Z.lor bad (Z.land looking_for_one_byte (u64 (Z.lnot equals0))) in
      oaep_loop l (i + 1) one_index looking_for_one_byte bad
  end.

Definition RSA_padding_check_PKCS1_OAEP_mgf1 (max_out : Z) (from param : list Z) (md mgf1md : option EVP_MD)
  : result (list Z) :=
  let md := default_md md in
  let mgf1md := default_mgf1 mgf1md md in
  let from_len := len from in
  let mdlen := EVP_MD_size md in
  if from_len <? 1 + 2 * mdlen + 1 then Error RSA_R_OAEP_DECODING_ERROR else
  let dblen := from_len - mdlen - 1 in
  if negb (alloc_ok dblen) then Error ERR_R_MALLOC_FAILURE else
  let maskedseed := load from 1 mdlen in
  let maskeddb := load from (1 + mdlen) dblen in
  bind_option (PKCS1_MGF1 mdlen maskeddb mgf1md) (fun seed =>
  let seed := xor_bytes seed maskedseed in
  bind_option (PKCS1_MGF1 dblen seed mgf1md) (fun db =>
  let db := xor_bytes db maskeddb in
  bind_option (md_digest md param) (fun phash =>
  let bad := u64 (Z.lnot (constant_time_is_zero_w (CRYPTO_memcmp (take mdlen db) phash))) in
  let bad := Z.lor bad (u64 (Z.lnot (constant_time_is_zero_w (get from 0)))) in
  let '(one_index, looking_for_one_byte, bad) := oaep_loop (drop mdlen db) mdlen 0 CONSTTIME_TRUE_W bad in
  let bad := Z.lor bad looking_for_one_byte in
  if negb (bad =? 0) then Error RSA_R_OAEP_DECODING_ERROR else
  let one_index := one_index + 1 in
  let mlen := dblen - one_index in
  if max_out <? mlen then Error RSA_R_DATA_TOO_LARGE else
  Ok (take mlen (drop one_index db))))).

(** ** PSS *)

(** The modulus, a [BIGNUM], is its value. *)
Definition BN_num_bits (n : Z) : Z := if n =? 0 then 0 else Z.log2 n + 1.
Definition RSA_size (n : Z) : Z := (BN_num_bits n + 7) / 8.

Definition kPSSZeroes : list Z := repeat 0 8.

(** [EM[0] &= 0xFF >> (8 - MSBits)]. *)
Definition clear_top (MSBits : Z) (l : list Z) : list Z :=
  if MSBits =? 0 then l else set l 0 (Z.land (get l 0) (Z.shiftr 255 (8 - MSBits))).

(** [for (i = 0; DB[i] == 0 && i < (maskedDBLen - 1); i++)]. *)
Fixpoint zero_scan (fuel : nat) (DB : list Z) (i : Z) : Z :=
  match fuel with
  | O => i
  | S fuel => if (get DB i =? 0) && (i <? len DB - 1) then zero_scan fuel DB (i + 1) else i
  end.

Definition RSA_verify_PKCS1_PSS_mgf1 (n : Z) (mHash : list Z) (Hash : EVP_MD) (mgf1Hash : option EVP_MD)
    (EM : list Z) (sLen : Z) : result unit :=
  let mgf1Hash := default_mgf1 mgf1Hash Hash in
  let hLen := EVP_MD_size Hash in
  if sLen <? -2 then Error RSA_R_SLEN_CHECK_FAILED else
  let sLen := if sLen =? -1 then hLen else sLen in
  let MSBits := Z.land (BN_num_bits n - 1) 7 in
  let emLen := RSA_size n in
  if negb (Z.land (get EM 0) (Z.shiftl 255 MSBits) =? 0) then Error RSA_R_FIRST_OCTET_INVALID else
  let (EM, emLen) := if MSBits =? 0 then (drop 1 EM, emLen - 1) else (EM, emLen) in
  if (emLen <? hLen + 2) || (emLen <? hLen + sLen + 2) then Error RSA_R_DATA_TOO_LARGE else
  if negb (get EM (emLen - 1) =? 188) then Error RSA_R_LAST_OCTET_INVALID else
  let maskedDBLen := emLen - hLen - 1 in
  let H := load EM maskedDBLen hLen in
  if negb (alloc_ok maskedDBLen) then Error ERR_R_MALLOC_FAILURE else
  bind_option (PKCS1_MGF1 maskedDBLen H mgf1Hash) (fun DB =>
  let DB := xor_bytes DB (take maskedDBLen EM) in
  let DB := clear_top MSBits DB in
  let i := zero_scan (length DB) DB 0 in
  if negb (get DB i =? 1) then Error RSA_R_SLEN_RECOVERY_FAILED else
  let i := i + 1 in
  if (0 <=? sLen) && negb (maskedDBLen - i =? sLen) then Error RSA_R_SLEN_CHECK_FAILED else
  bind_option (md_digest Hash (kPSSZeroes ++ take hLen mHash ++ load DB i (maskedDBLen - i))) (fun H_ =>
  if negb (CRYPTO_memcmp H_ H =? 0) then Error RSA_R_BAD_SIGNATURE else Ok tt)).

(** [EM] is the output buffer of [RSA_size] bytes. *)
Definition RSA_padding_add_PKCS1_PSS_mgf1 (n : Z) (EM mHash : list Z) (Hash : EVP_MD) (mgf1Hash : option EVP_MD)
    (sLenRequested : Z) (g : rng) : result (list Z) * rng :=
  let mgf1Hash := default_mgf1 mgf1Hash Hash in
  let hLen := EVP_MD_size Hash in
  if n =? 0 then (Error RSA_R_EMPTY_PUBLIC_KEY, g) else
  let MSBits := Z.land (BN_num_bits n - 1) 7 in
  let emLen := RSA_size n in
  let lead := if MSBits =? 0 then [0] else [] in
  let EM := drop (len lead) EM in
  let emLen := emLen - len lead in
  if emLen <? hLen + 2 then (Error RSA_R_DATA_TOO_LARGE, g) else
  if (sLenRequested <? 0) && negb (sLenRequested =? -1) && negb (sLenRequested =? -2)
  then (Error RSA_R_SLEN_CHECK_FAILED, g) else
  let sLen := if sLenRequested =? -1 then hLen else if sLenRequested =? -2 then emLen - hLen - 2 else sLenRequested in
  if emLen - hLen - 2 <? sLen then (Error RSA_R_DATA_TOO_LARGE, g) else
  if (0 <? sLen) && negb (alloc_ok sLen) then (Error ERR_R_MALLOC_FAILURE, g) else
  let (salt, g) := RAND_bytes sLen g in
  let maskedDBLen := emLen - hLen - 1 in
  (bind_option (md_digest Hash (kPSSZeroes ++ take hLen mHash ++ salt)) (fun H =>
   let EM := splice EM maskedDBLen H in
   bind_option (PKCS1_MGF1 maskedDBLen (load EM maskedDBLen hLen) mgf1Hash) (fun mask =>
   let EM := splice EM 0 mask in
   let p := emLen - sLen - hLen - 2 in
   let EM := set EM p (Z.lxor (get EM p) 1) in
   let EM := splice EM (p + 1) (xor_bytes (load EM (p + 1) sLen) salt) in
   let EM := clear_top MSBits EM in
   let EM := set EM (emLen - 1) 188 in
   Ok (lead ++ EM))), g).
End Padding.

(** ** MGF1 *)

Lemma counter_bytes i : 0 <= i < 2 ^ 32 ->
  [u8 (Z.shiftr i 24); u8 (Z.shiftr i 16); u8 (Z.shiftr i 8); u8 i] = be_enc 4 i.
Proof.
  intros Hi. rewrite !be_enc_cons. cbn [be_enc]. rewrite !Z.shiftr_div_pow2 by lia.
  unfold wrap. now rewrite Z.div_1_r.
Qed.

Lemma mgf1_loop_len md `{!DigestOk md} fuel : forall i n seed l, mgf1_loop fuel i n seed md = Some l -> 0 <= n ->
  len l = n /\ bytes_ok l.
Proof.
  pose proof (md_size_range (md := md)) as Hs.
  induction fuel as [| fuel IH]; intros i n seed l; cbn [mgf1_loop]; [discriminate |].
  destruct (Z.leb_spec n 0); [intros [= <-] Hn; split; [rewrite len_nil; lia | constructor] |].
  destruct (md_digest md _) as [d |] eqn:Ed; [| discriminate]. destruct (md_output _ _ Ed) as [Hd Hb].
  destruct (Z.leb_spec (EVP_MD_size md) n).
  - destruct (mgf1_loop fuel _ _ seed md) as [rest |] eqn:Er; [| discriminate]. intros [= <-] Hn.
    destruct (IH _ _ _ _ Er ltac:(lia)) as [Hl Hbr]. rewrite len_app. split; [lia | apply bytes_ok_app; now split].
  - intros [= <-] Hn. split; [apply len_take; lia | now apply bytes_ok_take].
Qed.

Lemma MGF1_len md `{!DigestOk md} n seed l : PKCS1_MGF1 n seed md = Some l -> 0 <= n -> len l = n /\ bytes_ok l.
Proof. apply mgf1_loop_len. exact _. Qed.

Lemma mgf1_loop_blocks md `{!DigestOk md} (d : list Z -> list Z) seed fuel :
  (forall x, md_digest md x = Some (d x)) -> forall i n k,
  0 <= i -> i + Z.of_nat k <= 2 ^ 32 -> 0 <= n <= Z.of_nat k * EVP_MD_size md -> n < Z.of_nat fuel ->
  mgf1_loop fuel i n seed md = Some (take n (flat_map (fun j => d (seed ++ be_enc 4 (i + Z.of_nat j))) (seq 0 k))).
Proof.
  intros Hd. pose proof (md_size_range (md := md)) as Hs.
  induction fuel as [| fuel IH]; intros i n k Hi Hik Hn Hf; [lia |]. cbn [mgf1_loop].
  destruct (Z.leb_spec n 0); [f_equal; replace n with 0 by lia; reflexivity |].
  destruct k as [| k]; [lia |]. rewrite counter_bytes by lia. rewrite Hd.
  assert (Ld : len (d (seed ++ be_enc 4 i)) = EVP_MD_size md) by (apply (md_output _ _ (Hd _))).
  cbn [seq flat_map]. rewrite Z.add_0_r.
  destruct (Z.leb_spec (EVP_MD_size md) n).
  - destruct k as [| k].
    { replace n with (EVP_MD_size md) by lia. rewrite Z.sub_diag. cbn [seq flat_map]. rewrite app_nil_r, take_all by lia.
      destruct fuel as [| fuel]; [lia |]. cbn [mgf1_loop]. cbn. now rewrite app_nil_r. }
    rewrite (wrap_small 32) by lia. rewrite (IH (i + 1) _ (S k)) by lia. f_equal.
    rewrite take_app_r, Ld by lia. do 2 f_equal.
    rewrite <- seq_shift, (flat_map_concat_map _ (map S _)), map_map, <- flat_map_concat_map.
    apply flat_map_ext. intros j. do 3 f_equal. lia.
  - rewrite take_app_l by lia. reflexivity.
Qed.

(** The mask generation function is the one of RFC 8017, B.2.1: the
    leading [n] bytes of the digests of the seed followed by the 4-byte
    big-endian counters 0, 1, 2, and so on; the loop ends for every [n] and
    its 32-bit counter does not wrap up to the RFC's limit. *)
Lemma mgf1_spec md (d : list Z -> list Z) n seed k : DigestOk md -> (forall x, md_digest md x = Some (d x)) ->
  Z.of_nat k <= 2 ^ 32 -> 0 <= n <= Z.of_nat k * EVP_MD_size md ->
  PKCS1_MGF1 n seed md = Some (take n (flat_map (fun i => d (seed ++ be_enc 4 (Z.of_nat i))) (seq 0 k))).
Proof. intros Hok Hd Hk Hn. apply (mgf1_loop_blocks md d seed _ Hd 0 n k); lia. Qed.

(** A mask is always produced when the digest does not fail. *)
Lemma mgf1_total md `{!DigestOk md} seed n : (forall x, md_digest md x <> None) -> 0 <= n ->
  exists l, PKCS1_MGF1 n seed md = Some l.
Proof.
  intros Ht. unfold PKCS1_MGF1. pose proof (md_size_range (md := md)) as Hs.
  assert (G : forall fuel i m, 0 <= m < Z.of_nat fuel -> exists l, mgf1_loop fuel i m seed md = Some l).
  { induction fuel as [| fuel IH]; intros i m Hm; [lia |]. cbn [mgf1_loop].
    destruct (Z.leb_spec m 0); [eauto |]. destruct (md_digest md _) as [d |] eqn:Ed; [| now apply Ht in Ed].
    destruct (Z.leb_spec (EVP_MD_size md) m); [| eauto].
    destruct (IH (u32 (i + 1)) (m - EVP_MD_size md) ltac:(lia)) as [l ->]. eauto. }
  intros Hn. apply G. lia.
Qed.

(** ** XOR of equal lengths *)

Lemma xor_bytes_comm a b : xor_bytes a b = xor_bytes b a.
Proof.
  revert b. induction a as [| x a IH]; intros [| y b]; try reflexivity.
  now rewrite !xor_bytes_cons, IH, Z.lxor_comm.
Qed.

Lemma xor_bytes_cancel_l a b : len b <= len a -> xor_bytes a (xor_bytes a b) = b.
Proof. intros. rewrite (xor_bytes_comm a b), (xor_bytes_comm a). now apply xor_bytes_cancel. Qed.

(** ** OAEP *)

Section Oaep.
Variable EVP_sha1 : EVP_MD.
Variable alloc_ok : Z -> bool.

(** EME-OAEP encoding: the block for a seed, [k] zero bytes and a message. *)
Definition oaep_block (md mgf1md : EVP_MD) (param seed : list Z) (k : nat) (msg : list Z) : option (list Z) :=
  let* lhash := md_digest md param in
  let db := lhash ++ repeat 0 k ++ 1 :: msg in
  let* dbmask := PKCS1_MGF1 (len db) seed mgf1md in
  let maskeddb := xor_bytes db dbmask in
  let* seedmask := PKCS1_MGF1 (EVP_MD_size md) maskeddb mgf1md in
  Some (0 :: xor_bytes seed seedmask ++ maskeddb).

Lemma crypto_mask c : crypto_word (mask_w c).
Proof. destruct c; unfold crypto_word; cbn; lia. Qed.

(** The search in the mask-free world: zeros, then a one. *)
Lemma oaep_loop_done l : forall i one bad, bytes_ok l -> 0 <= i -> i + len l < 2 ^ 64 -> crypto_word one ->
  oaep_loop l i one 0 (mask_w bad) = (one, 0, mask_w bad).
Proof.
  induction l as [| b l IH]; intros i one bad Hok Hi Hl Ho; cbn [oaep_loop]; [reflexivity |].
  inversion_clear Hok as [| ? ? Hb Hok']. rewrite len_cons in Hl. pose proof (len_nonneg l).
  assert (Hbw : crypto_word b) by (unfold crypto_word, byte_ok in *; lia).
  assert (Hc : forall z, 0 <= z < 2 -> crypto_word z) by (unfold crypto_word; lia).
  rewrite !eq_w_mask by (assumption || (apply Hc; lia)). rewrite Z.land_0_l.
  assert (Hiw : crypto_word i) by (unfold crypto_word; lia).
  replace (constant_time_select_w 0 i one) with one by (symmetry; exact (select_w_mask false i one Hiw Ho)).
  replace (constant_time_select_w (mask_w (b =? 1)) 0 0) with 0
    by (rewrite select_w_mask by (apply Hc; lia); now destruct (b =? 1)).
  rewrite Z.land_0_l, Z.lor_0_r. apply IH; try assumption; lia.
Qed.

Lemma lor_mask a b : Z.lor (mask_w a) (mask_w b) = mask_w (a || b).
Proof. destruct a, b; reflexivity. Qed.

Definition oaep_accepts (r : Z * Z * Z) : option Z :=
  let '(one_index, looking, bad) := r in
  if Z.lor bad looking =? 0 then Some one_index else None.

Lemma oaep_loop_bad l : forall i one looking, bytes_ok l -> 0 <= i -> i + len l < 2 ^ 64 -> crypto_word one ->
  oaep_accepts (oaep_loop l i one (mask_w looking) (mask_w true)) = None.
Proof.
  induction l as [| b l IH]; intros i one looking Hok Hi Hl Ho; cbn [oaep_loop].
  { unfold oaep_accepts. rewrite lor_mask. reflexivity. }
  inversion_clear Hok as [| ? ? Hb Hok']. rewrite len_cons in Hl. pose proof (len_nonneg l).
  assert (Hbw : crypto_word b) by (unfold crypto_word, byte_ok in *; lia).
  assert (Hc : forall z, 0 <= z < 2 -> crypto_word z) by (unfold crypto_word; lia).
  rewrite !eq_w_mask by (assumption || (apply Hc; lia)). rewrite land_mask, (select_w_mask (looking && (b =? 1)) i one) by (assumption || (unfold crypto_word; lia)).
  replace (constant_time_select_w (mask_w (b =? 1)) 0 (mask_w looking)) with (mask_w (negb (b =? 1) && looking)).
  2:{ rewrite select_w_mask by (apply crypto_mask || (apply Hc; lia)). now destruct (b =? 1). }
  rewrite lnot_mask, land_mask, lor_mask. cbn [orb]. apply IH; try assumption; try lia.
  destruct (looking && _); [unfold crypto_word; lia | assumption].
Qed.

Lemma oaep_loop_spec l : forall i j, bytes_ok l -> 0 <= i -> i + len l < 2 ^ 64 ->
  oaep_accepts (oaep_loop l i 0 (mask_w true) (mask_w false)) = Some j <->
  exists k msg, l = repeat 0 k ++ 1 :: msg /\ j = i + Z.of_nat k.
Proof.
  induction l as [| b l IH]; intros i j Hok Hi Hl; cbn [oaep_loop].
  { split; [discriminate | intros ([| k] & msg & E & _); discriminate]. }
  inversion_clear Hok as [| ? ? Hb Hok']. rewrite len_cons in Hl. pose proof (len_nonneg l).
  assert (Hbw : crypto_word b) by (unfold crypto_word, byte_ok in *; lia).
  assert (Hc : forall z, 0 <= z < 2 -> crypto_word z) by (unfold crypto_word; lia).
  rewrite !eq_w_mask by (assumption || (apply Hc; lia)). rewrite land_mask, (select_w_mask (true && (b =? 1)) i 0) by (unfold crypto_word; lia).
  rewrite (select_w_mask (b =? 1) 0 (mask_w true)) by (apply crypto_mask || (apply Hc; lia)). cbn [andb].
  destruct (Z.eqb_spec b 1) as [-> | H1].
  - cbn [Z.eqb]. rewrite Z.land_0_l. rewrite Z.lor_0_r. rewrite oaep_loop_done by (assumption || lia || (unfold crypto_word; lia)).
    split.
    + intros [= <-]. exists 0%nat, l. split; [reflexivity | lia].
    + intros ([| k] & msg & E & ->); [| discriminate]. cbn. f_equal. lia.
  - rewrite lnot_mask, land_mask, lor_mask. cbn [andb orb].
    destruct (Z.eqb_spec b 0) as [-> | H0]; cbn [negb].
    + rewrite IH by (assumption || lia). split.
      * intros (k & msg & -> & ->). exists (S k), msg. split; [reflexivity | lia].
      * intros ([| k] & msg & E & ->); [discriminate |]. injection E as ->. exists k, msg. split; [reflexivity | lia].
    + rewrite oaep_loop_bad by (assumption || lia || (unfold crypto_word; lia)). split; [discriminate |].
      intros ([| k] & msg & E & _); injection E as E _; contradiction.
Qed.

Lemma load_app_mid (a b c : list Z) : load (a ++ b ++ c) (len a) (len b) = b.
Proof. unfold load. rewrite drop_app_exact by reflexivity. now apply take_app_exact. Qed.

Lemma load_app_end (a b : list Z) : load (a ++ b) (len a) (len b) = b.
Proof. rewrite <- (app_nil_r b) at 1. apply load_app_mid. Qed.

Lemma splice_app_end (a b d : list Z) : len b = len d -> splice (a ++ b) (len a) d = a ++ d.
Proof. intros H. rewrite <- (app_nil_r b), splice_app_mid by assumption. now rewrite app_nil_r. Qed.

(** The writes that lay out DB after the place of the seed. *)
Lemma oaep_layout (to lhash zs from : list Z) mdlen emlen n :
  len lhash = mdlen -> len to = emlen + 1 -> len zs = n -> n = emlen - len from - 2 * mdlen - 1 -> 0 <= n ->
  splice (set (splice (splice (set to 0 0) (mdlen + 1) lhash) (mdlen + 1 + mdlen) zs)
            (mdlen + 1 + (emlen - len from - mdlen - 1)) 1) (mdlen + 1 + emlen - len from - mdlen) from =
  [0] ++ load to 1 mdlen ++ lhash ++ zs ++ 1 :: from.
Proof.
  intros Hm He Hz Hn H0. pose proof (len_nonneg from). pose proof (len_nonneg lhash).
  assert (L1 : len (load to 1 mdlen) = mdlen) by (unfold load; rewrite len_take; rewrite ?len_drop; lia).
  assert (L2 : len (drop (1 + mdlen) to) = emlen - mdlen) by (rewrite len_drop; lia).
  assert (E0 : set to 0 0 = ([0] ++ load to 1 mdlen) ++ drop (1 + mdlen) to).
  { rewrite (set_next [] to) by (reflexivity || lia). cbn [app]. f_equal.
    unfold load. rewrite <- (drop_drop mdlen 1) by lia. symmetry. apply take_drop. }
  rewrite E0. set (hd := [0] ++ load to 1 mdlen).
  assert (Lh : len hd = mdlen + 1) by (unfold hd; rewrite len_app, L1; change (len [0]) with 1; lia).
  set (D := drop (1 + mdlen) to) in *.
  rewrite splice_next by lia. assert (La : len (hd ++ lhash) = mdlen + 1 + mdlen) by (rewrite len_app; lia).
  assert (Ld1 : len (drop (len lhash) D) = emlen - 2 * mdlen) by (rewrite len_drop; lia).
  rewrite splice_next by lia. assert (Lb : len ((hd ++ lhash) ++ zs) = mdlen + 1 + mdlen + n) by (rewrite len_app; lia).
  assert (Ld2 : len (drop (len zs) (drop (len lhash) D)) = 1 + len from) by (rewrite len_drop; lia).
  rewrite set_next by lia.
  rewrite splice_next by (rewrite ?(len_app _ [1]), ?Lb, ?len_drop by lia; change (len [1]) with 1; lia).
  rewrite drop_all by (rewrite len_drop; lia). unfold hd. rewrite app_nil_r, <- !app_assoc. reflexivity.
Qed.

Definition of_option {A} (x : option A) : result A := match x with Some a => Ok a | None => Failed end.

Lemma RAND_bytes_len n g : 0 <= n -> len (fst (RAND_bytes n g)) = n.
Proof. intros. unfold RAND_bytes. cbn [fst]. rewrite len_map. unfold len. rewrite length_seq. lia. Qed.

(** Padding computes the block for the seed that is drawn. *)
Lemma oaep_add_block to from param md mgf1md g :
  let md' := default_md EVP_sha1 md in
  let mgf' := default_mgf1 mgf1md md' in
  DigestOk md' -> DigestOk mgf' -> (forall n, alloc_ok n = true) ->
  len from + 2 * EVP_MD_size md' + 2 <= len to ->
  fst (RSA_padding_add_PKCS1_OAEP_mgf1 EVP_sha1 alloc_ok to from param md mgf1md g) =
  of_option (oaep_block md' mgf' param (fst (RAND_bytes (EVP_MD_size md') g))
               (Z.to_nat (len to - len from - 2 * EVP_MD_size md' - 2)) from).
Proof.
  intros md' mgf' Hmd Hmgf Hal Hl. unfold RSA_padding_add_PKCS1_OAEP_mgf1, oaep_block. fold md'. fold mgf'.
  pose proof (md_size_range (md := md')) as Hs. pose proof (len_nonneg from). set (mdlen := EVP_MD_size md') in *.
  destruct (Z.ltb_spec (len to) (2 * mdlen + 2)); [lia |].
  destruct (Z.ltb_spec (len to - 1 - 2 * mdlen - 1) (len from)); [lia |].
  destruct (Z.ltb_spec (len to - 1) (2 * mdlen + 1)); [lia |].
  destruct (md_digest md' param) as [lhash |] eqn:Eh; [| reflexivity]. destruct (md_output _ _ Eh) as [Hh _]. fold mdlen in Hh.
  set (n := len to - 1 - len from - 2 * mdlen - 1). replace (len to - len from - 2 * mdlen - 2) with n by lia.
  rewrite (oaep_layout to lhash (repeat 0 (Z.to_nat n)) from mdlen (len to - 1) n) by (rewrite ?len_repeat; lia).
  set (DB := lhash ++ repeat 0 (Z.to_nat n) ++ 1 :: from).
  assert (LD : len DB = len to - 1 - mdlen) by (unfold DB; rewrite !len_app, len_repeat, len_cons; lia).
  pose proof (RAND_bytes_len mdlen g ltac:(lia)) as Lr. destruct (RAND_bytes mdlen g) as [r g']. cbn [fst] in *.
  rewrite Hal. cbn [negb]. change 1 with (len [0]).
  rewrite splice_app_mid by (rewrite Lr; unfold load; rewrite len_take; rewrite ?len_drop; change (len [0]) with 1; lia).
  rewrite <- Lr at 2. rewrite load_app_mid. change (len [0]) with 1. rewrite <- LD.
  destruct (PKCS1_MGF1 (len DB) r mgf') as [dbmask |] eqn:E1; [| reflexivity]. cbn [bind_option].
  destruct (MGF1_len mgf' _ _ _ E1 ltac:(apply len_nonneg)) as [Lm _].
  assert (L0 : mdlen + 1 = len ([0] ++ r)) by (rewrite len_app, Lr; change (len [0]) with 1; lia).
  rewrite L0, (app_assoc [0] r DB), load_app_end.
  rewrite splice_app_end by (rewrite len_xor_bytes; lia).
  replace (len DB) with (len (xor_bytes DB dbmask)) by (rewrite len_xor_bytes; lia). rewrite load_app_end.
  fold mdlen. destruct (PKCS1_MGF1 mdlen (xor_bytes DB dbmask) mgf') as [seedmask |] eqn:E2; [| reflexivity]. cbn [bind_option].
  destruct (MGF1_len mgf' _ _ _ E2 ltac:(lia)) as [Ls _].
  rewrite <- app_assoc. rewrite <- Lr at 1. change 1 with (len [0]). rewrite load_app_mid.
  rewrite splice_app_mid by (rewrite len_xor_bytes; lia). reflexivity.
Qed.

Lemma memcmp_loop_word a b : forall x, bytes_ok a -> bytes_ok b -> byte_ok x -> byte_ok (CRYPTO_memcmp_loop a b x).
Proof.
  revert b. induction a as [| p a IH]; intros [| q b] x Ha Hb Hx; cbn [CRYPTO_memcmp_loop]; try assumption.
  inversion_clear Ha as [| ? ? Hp Ha']. inversion_clear Hb as [| ? ? Hq Hb']. apply IH; try assumption.
  apply (lor_range 8); [lia | exact Hx |]. apply (lxor_range 8); [lia | exact Hp | exact Hq].
Qed.

(** The digest comparison as a mask. *)
Lemma memcmp_mask a b : bytes_ok a -> bytes_ok b -> len a = len b ->
  exists c, u64 (Z.lnot (constant_time_is_zero_w (CRYPTO_memcmp a b))) = mask_w c /\ (c = false <-> a = b).
Proof.
  intros Ha Hb Hl. unfold CRYPTO_memcmp.
  pose proof (memcmp_loop_word a b 0 Ha Hb ltac:(unfold byte_ok; lia)) as Hw. unfold byte_ok in Hw.
  rewrite is_zero_w_mask by (unfold crypto_word; lia). rewrite lnot_mask.
  exists (negb (CRYPTO_memcmp_loop a b 0 =? 0)). split; [reflexivity |].
  rewrite negb_false_iff, Z.eqb_eq, memcmp_loop_zero by (unfold len in Hl; lia). tauto.
Qed.

(** The unmasked DB is accepted when it is the label digest, zeros, a one and
    the message. *)
Lemma oaep_db_check db phash first mdlen : bytes_ok db -> bytes_ok phash -> byte_ok first ->
  len phash = mdlen -> mdlen <= len db -> len db < 2 ^ 64 -> forall j,
  oaep_accepts (oaep_loop (drop mdlen db) mdlen 0 CONSTTIME_TRUE_W
    (Z.lor (u64 (Z.lnot (constant_time_is_zero_w (CRYPTO_memcmp (take mdlen db) phash))))
           (u64 (Z.lnot (constant_time_is_zero_w first))))) = Some j <->
  first = 0 /\ exists k msg, db = phash ++ repeat 0 k ++ 1 :: msg /\ j = mdlen + Z.of_nat k.
Proof.
  intros Hdb Hph Hf Hl Hle Hlt j. pose proof (len_nonneg phash). unfold byte_ok in Hf.
  destruct (memcmp_mask (take mdlen db) phash) as (c & -> & Hc);
    [now apply bytes_ok_take | assumption | rewrite len_take; lia |].
  rewrite is_zero_w_mask by (unfold crypto_word; lia). rewrite lnot_mask, lor_mask.
  assert (Hd : bytes_ok (drop mdlen db)) by now apply bytes_ok_drop.
  assert (Ld : len (drop mdlen db) = len db - mdlen) by (rewrite len_drop; lia).
  change CONSTTIME_TRUE_W with (mask_w true).
  destruct c; cbn [orb].
  - rewrite oaep_loop_bad by (assumption || lia || (unfold crypto_word; lia)). split; [discriminate |].
    intros (_ & k & msg & E & _). assert (true = false) as Hx; [| discriminate Hx]. apply Hc.
    rewrite E. now apply take_app_exact.
  - assert (Et : take mdlen db = phash) by now apply Hc.
    destruct (Z.eqb_spec first 0) as [E0 | E0]; cbn [negb].
    + rewrite oaep_loop_spec by (assumption || lia). split.
      * intros (k & msg & E & ->). split; [assumption |]. exists k, msg. split; [| reflexivity].
        rewrite <- Et, <- E. symmetry. apply take_drop.
      * intros (_ & k & msg & E & ->). exists k, msg. split; [| reflexivity].
        rewrite E. now apply drop_app_exact.
    + rewrite oaep_loop_bad by (assumption || lia || (unfold crypto_word; lia)). split; [discriminate |].
      intros (E & _). contradiction.
Qed.

Lemma oaep_split from mdlen : 0 <= mdlen -> mdlen + 1 <= len from ->
  from = get from 0 :: load from 1 mdlen ++ load from (1 + mdlen) (len from - mdlen - 1).
Proof.
  intros H0 Hl. rewrite <- (drop_0 from) at 1. rewrite drop_cons_get by (pose proof (len_nonneg from); lia). f_equal.
  unfold load. rewrite (take_all (len from - mdlen - 1)) by (rewrite len_drop; lia).
  rewrite <- (drop_drop mdlen 1) by lia. symmetry. apply take_drop.
Qed.

(** The check in terms of the block. *)
Lemma oaep_check_block max_out from param md mgf1md out :
  let md' := default_md EVP_sha1 md in
  let mgf' := default_mgf1 mgf1md md' in
  DigestOk md' -> DigestOk mgf' -> (forall n, alloc_ok n = true) -> bytes_ok from -> len from < 2 ^ 64 ->
  RSA_padding_check_PKCS1_OAEP_mgf1 EVP_sha1 alloc_ok max_out from param md mgf1md = Ok out <->
  exists seed k, len seed = EVP_MD_size md' /\ oaep_block md' mgf' param seed k out = Some from /\ len out <= max_out.
Proof.
  intros md' mgf' Hmd Hmgf Hal Hok Hlt. unfold RSA_padding_check_PKCS1_OAEP_mgf1, oaep_block. fold md'. fold mgf'.
  pose proof (md_size_range (md := md')) as Hs. set (mdlen := EVP_MD_size md') in *. split.
  - destruct (Z.ltb_spec (len from) (1 + 2 * mdlen + 1)); [discriminate |]. rewrite Hal. cbn [negb].
    set (dblen := len from - mdlen - 1). set (ms := load from 1 mdlen). set (mdb := load from (1 + mdlen) dblen).
    assert (Lms : len ms = mdlen) by (unfold ms, load; rewrite len_take; rewrite ?len_drop; lia).
    assert (Lmdb : len mdb = dblen) by (unfold mdb, load; rewrite len_take; rewrite ?len_drop; lia).
    assert (Bmdb : bytes_ok mdb) by (unfold mdb, load; auto with bytes).
    destruct (PKCS1_MGF1 mdlen mdb mgf') as [sm |] eqn:E1; [| discriminate]. cbn [bind_option].
    destruct (MGF1_len mgf' _ _ _ E1 ltac:(lia)) as [Lsm _].
    destruct (PKCS1_MGF1 dblen (xor_bytes sm ms) mgf') as [dm |] eqn:E2; [| discriminate]. cbn [bind_option].
    destruct (MGF1_len mgf' _ _ _ E2 ltac:(lia)) as [Ldm Bdm].
    destruct (md_digest md' param) as [ph |] eqn:E3; [| discriminate]. cbn [bind_option].
    destruct (md_output _ _ E3) as [Lph Bph]. fold mdlen in Lph.
    set (db := xor_bytes dm mdb). assert (Ldb : len db = dblen) by (unfold db; rewrite len_xor_bytes; lia).
    pose proof (oaep_db_check db ph (get from 0) mdlen (bytes_ok_xor _ _ Bdm Bmdb) Bph (bytes_get _ _ Hok) Lph
                  ltac:(lia) ltac:(lia)) as Hdb.
    destruct (oaep_loop _ _ _ _ _) as [[one looking] bad]. cbn [oaep_accepts] in Hdb.
    destruct (Z.lor bad looking =? 0); [| discriminate]. cbn [negb].
    destruct (proj1 (Hdb one) eq_refl) as (Ef & k & msg & Edb & ->).
    assert (Lmsg : len msg = dblen - (mdlen + Z.of_nat k + 1)).
    { rewrite <- Ldb, Edb, !len_app, len_repeat, len_cons. lia. }
    rewrite <- Lmsg. destruct (Z.ltb_spec max_out (len msg)); [discriminate |]. intros Hout.
    replace (drop (mdlen + Z.of_nat k + 1) db) with msg in Hout.
    2:{ rewrite Edb. change (1 :: msg) with ([1] ++ msg). rewrite !app_assoc. symmetry. apply drop_app_exact.
        rewrite !len_app, len_repeat. change (len [1]) with 1. lia. }
    rewrite take_all in Hout by lia. injection Hout as <-.
    exists (xor_bytes sm ms), k. split; [rewrite len_xor_bytes; lia |]. split; [| assumption].
    rewrite <- Edb, Ldb, E2. unfold db. rewrite (xor_bytes_comm dm mdb), xor_bytes_cancel by lia. rewrite E1.
    rewrite (xor_bytes_comm sm ms), xor_bytes_cancel by lia. f_equal. rewrite <- Ef at 1. symmetry. apply oaep_split; lia.
  - intros (seed & k & Hseed & Hb & Hm). fold mdlen in Hseed.
    destruct (md_digest md' param) as [ph |] eqn:E3; [| discriminate]. destruct (md_output _ _ E3) as [Lph Bph]. fold mdlen in Lph.
    set (db := ph ++ repeat 0 k ++ 1 :: out) in *.
    assert (Ldb : len db = mdlen + Z.of_nat k + 1 + len out) by (unfold db; rewrite !len_app, len_repeat, len_cons; lia).
    pose proof (len_nonneg out).
    destruct (PKCS1_MGF1 (len db) seed mgf') as [dm |] eqn:E2; [| discriminate].
    destruct (MGF1_len mgf' _ _ _ E2 ltac:(lia)) as [Ldm Bdm].
    destruct (PKCS1_MGF1 mdlen (xor_bytes db dm) mgf') as [sm |] eqn:E1; [| discriminate].
    destruct (MGF1_len mgf' _ _ _ E1 ltac:(lia)) as [Lsm _].
    assert (Lmdb : len (xor_bytes db dm) = len db) by (rewrite len_xor_bytes; lia).
    assert (Lms : len (xor_bytes seed sm) = mdlen) by (rewrite len_xor_bytes; lia).
    injection Hb as Hfrom. assert (Lf : len from = 1 + mdlen + len db) by (rewrite <- Hfrom, len_cons, len_app; lia).
    rewrite Lf. destruct (Z.ltb_spec (1 + mdlen + len db) (1 + 2 * mdlen + 1)); [lia |]. rewrite Hal. cbn [negb].
    replace (1 + mdlen + len db - mdlen - 1) with (len db) by lia.
    replace (load from 1 mdlen) with (xor_bytes seed sm).
    2:{ rewrite <- Hfrom. change (0 :: xor_bytes seed sm ++ xor_bytes db dm) with ([0] ++ xor_bytes seed sm ++ xor_bytes db dm).
        rewrite <- Lms. change 1 with (len [0]). symmetry. apply load_app_mid. }
    replace (load from (1 + mdlen) (len db)) with (xor_bytes db dm).
    2:{ rewrite <- Hfrom. change (0 :: xor_bytes seed sm ++ xor_bytes db dm) with (([0] ++ xor_bytes seed sm) ++ xor_bytes db dm).
        rewrite <- Lmdb. replace (1 + mdlen) with (len ([0] ++ xor_bytes seed sm)) by (rewrite len_app; change (len [0]) with 1; lia).
        symmetry. apply load_app_end. }
    rewrite E1. cbn [bind_option]. rewrite (xor_bytes_comm seed sm), xor_bytes_cancel_l by lia. rewrite E2. cbn [bind_option].
    rewrite (xor_bytes_comm db dm), xor_bytes_cancel_l by lia.
    assert (Bdb : bytes_ok db).
    { replace db with (xor_bytes dm (xor_bytes db dm)) by (rewrite (xor_bytes_comm db dm); apply xor_bytes_cancel_l; lia).
      apply bytes_ok_xor; [assumption |]. rewrite <- Hfrom in Hok. inversion_clear Hok as [| ? ? _ Hok'].
      now apply bytes_ok_app in Hok' as [_ Hok']. }
    pose proof (oaep_db_check db ph (get from 0) mdlen Bdb Bph (bytes_get _ _ Hok) Lph ltac:(lia) ltac:(lia)) as Hdb.
    cbn [bind_option].
    destruct (oaep_loop _ _ _ _ _) as [[one looking] bad]. cbn [oaep_accepts] in Hdb.
    pose proof (proj2 (Hdb (mdlen + Z.of_nat k)) (conj (f_equal (fun l => get l 0) (eq_sym Hfrom)) (ex_intro _ k (ex_intro _ out (conj eq_refl eq_refl))))) as Hj.
    destruct (Z.lor bad looking =? 0); [| discriminate]. injection Hj as ->. cbn [negb].
    replace (len db - (mdlen + Z.of_nat k + 1)) with (len out) by lia. destruct (Z.ltb_spec max_out (len out)); [lia |].
    f_equal. replace (drop (mdlen + Z.of_nat k + 1) db) with out; [apply take_all; lia |].
    unfold db. change (1 :: out) with ([1] ++ out). rewrite !app_assoc. symmetry. apply drop_app_exact.
    rewrite !len_app, len_repeat. change (len [1]) with 1. lia.
Qed.

Lemma oaep_block_total md mgf param seed k msg : DigestOk md -> DigestOk mgf ->
  (forall x, md_digest md x <> None) -> (forall x, md_digest mgf x <> None) ->
  len seed = EVP_MD_size md -> bytes_ok seed -> bytes_ok msg ->
  exists em, oaep_block md mgf param seed k msg = Some em /\ bytes_ok em /\
    len em = 2 * EVP_MD_size md + 2 + Z.of_nat k + len msg.
Proof.
  intros Hmd Hmgf Ht1 Ht2 Hs Bs Bm. unfold oaep_block. pose proof (md_size_range (md := md)).
  destruct (md_digest md param) as [lhash |] eqn:Eh; [| now apply Ht1 in Eh].
  destruct (md_output _ _ Eh) as [Lh Bh]. set (db := lhash ++ repeat 0 k ++ 1 :: msg).
  assert (Ldb : len db = EVP_MD_size md + Z.of_nat k + 1 + len msg) by (unfold db; rewrite !len_app, len_repeat, len_cons; lia).
  assert (Bdb : bytes_ok db).
  { unfold db. apply bytes_ok_app. split; [assumption |]. apply bytes_ok_app. split.
    - apply Forall_forall. intros x Hx. apply repeat_spec in Hx. unfold byte_ok. lia.
    - constructor; [unfold byte_ok; lia | assumption]. }
  pose proof (len_nonneg msg).
  destruct (mgf1_total mgf seed (len db) Ht2 ltac:(lia)) as [dm E2]. rewrite E2.
  destruct (MGF1_len mgf _ _ _ E2 ltac:(lia)) as [Ldm Bdm].
  destruct (mgf1_total mgf (xor_bytes db dm) (EVP_MD_size md) Ht2 ltac:(lia)) as [sm E1]. rewrite E1.
  destruct (MGF1_len mgf _ _ _ E1 ltac:(lia)) as [Lsm Bsm].
  eexists. split; [reflexivity |]. split.
  - constructor; [unfold byte_ok; lia |]. apply bytes_ok_app. split; now apply bytes_ok_xor.
  - rewrite len_cons, len_app, !len_xor_bytes. lia.
Qed.

(** OAEP is exact. The check returns [out] if and only if the input is the
    EME-OAEP encoding of [out] under the label for some seed and amount of zero
    padding, and [out] fits. Padding, when memory and the digests do not fail
    and the data fits with its overhead of two digests and two bytes, fills the
    buffer with a block from which the check with the same label and digests
    recovers the data, whatever seed was drawn. *)
Lemma oaep_exact :
  (forall max_out from param md mgf1md out,
    let md' := default_md EVP_sha1 md in
      let mgf' := default_mgf1 mgf1md md' in
      DigestOk md' -> DigestOk mgf' -> (forall n, alloc_ok n = true) -> bytes_ok from -> len from < 2 ^ 64 ->
      RSA_padding_check_PKCS1_OAEP_mgf1 EVP_sha1 alloc_ok max_out from param md mgf1md = Ok out <->
      exists seed k, len seed = EVP_MD_size md' /\ oaep_block md' mgf' param seed k out = Some from /\ len out <= max_out) /\
  (forall to from param md mgf1md g max_out,
    let md' := default_md EVP_sha1 md in
      let mgf' := default_mgf1 mgf1md md' in
      DigestOk md' -> DigestOk mgf' -> (forall n, alloc_ok n = true) ->
      (forall x, md_digest md' x <> None) -> (forall x, md_digest mgf' x <> None) ->
      (forall i, byte_ok (stream g i)) -> bytes_ok from -> len to < 2 ^ 64 -> len from <= max_out ->
      len from + 2 * EVP_MD_size md' + 2 <= len to ->
      exists em, fst (RSA_padding_add_PKCS1_OAEP_mgf1 EVP_sha1 alloc_ok to from param md mgf1md g) = Ok em /\
        len em = len to /\
        RSA_padding_check_PKCS1_OAEP_mgf1 EVP_sha1 alloc_ok max_out em param md mgf1md = Ok from).
Proof.
  split.
  { intros max_out from param md mgf1md out. apply oaep_check_block. }
  { intros to from param md mgf1md g max_out md' mgf' Hmd Hmgf Hal Ht1 Ht2 Hg Bf Hto Hm Hl. pose proof (md_size_range (md := md')) as Hs.
    rewrite oaep_add_block by assumption. fold md'. fold mgf'.
    set (seed := fst (RAND_bytes (EVP_MD_size md') g)).
    assert (Ls : len seed = EVP_MD_size md') by (apply RAND_bytes_len; lia).
    assert (Bs : bytes_ok seed) by (apply Forall_map, Forall_forall; intros; apply Hg).
    set (k := Z.to_nat (len to - len from - 2 * EVP_MD_size md' - 2)).
    destruct (oaep_block_total md' mgf' param seed k from Hmd Hmgf Ht1 Ht2 Ls Bs Bf) as (em & E & Bem & Lem).
    rewrite E. exists em. split; [reflexivity |]. split; [unfold k in Lem; lia |].
    apply oaep_check_block; try assumption; [unfold k in Lem; lia |]. exists seed, k. now repeat split. }
Qed.
End Oaep.

(** ** PSS *)

Section Pss.
Variable alloc_ok : Z -> bool.

(** EMSA-PSS encoding into [emLen] bytes of which the top [8 - MSBits] bits are
    clear ([MSBits] zero: whole bytes). *)
Definition pss_block (Hash mgf : EVP_MD) (MSBits emLen : Z) (mHash salt : list Z) : option (list Z) :=
  let hLen := EVP_MD_size Hash in
  let* H := md_digest Hash (kPSSZeroes ++ take hLen mHash ++ salt) in
  let* mask := PKCS1_MGF1 (emLen - hLen - 1) H mgf in
  let DB := repeat 0 (Z.to_nat (emLen - len salt - hLen - 2)) ++ 1 :: salt in
  Some (clear_top MSBits (xor_bytes mask DB) ++ H ++ [188]).

Definition pss_lead (n : Z) : list Z := if Z.land (BN_num_bits n - 1) 7 =? 0 then [0] else [].

(** The encoded message for a modulus, with a zero byte in front if needed. *)
Definition pss_em (Hash mgf : EVP_MD) (n : Z) (mHash salt : list Z) : option (list Z) :=
  let* b := pss_block Hash mgf (Z.land (BN_num_bits n - 1) 7) (RSA_size n - len (pss_lead n)) mHash salt in
  Some (pss_lead n ++ b).

Lemma MSBits_range x : 0 <= Z.land x 7 < 8.
Proof. change 7 with (Z.ones 3). rewrite Z.land_ones by lia. apply Z.mod_pos_bound. lia. Qed.

Lemma seven_cases (P : Z -> Prop) : P 1 -> P 2 -> P 3 -> P 4 -> P 5 -> P 6 -> P 7 -> forall k, 0 < k < 8 -> P k.
Proof.
  intros. assert (k = 1 \/ k = 2 \/ k = 3 \/ k = 4 \/ k = 5 \/ k = 6 \/ k = 7) as E by lia.
  repeat destruct E as [-> | E]; try assumption. now subst.
Qed.

Lemma top_mask_disjoint k x : 0 < k < 8 -> Z.land (Z.land x (Z.shiftr 255 (8 - k))) (Z.shiftl 255 k) = 0.
Proof.
  intros Hk. rewrite <- Z.land_assoc. revert k Hk. apply seven_cases; apply Z.land_0_r.
Qed.

Lemma top_mask_keep k b : 0 < k < 8 -> byte_ok b -> Z.land b (Z.shiftl 255 k) = 0 -> Z.land b (Z.shiftr 255 (8 - k)) = b.
Proof.
  intros Hk Hb E. revert k Hk E. pose proof (fun f => forall_byte f) as F.
  assert (G : forall k, 0 < k < 8 -> forallb (fun b => negb (Z.land b (Z.shiftl 255 k) =? 0) || (Z.land b (Z.shiftr 255 (8 - k)) =? b)) all_bytes = true).
  { apply seven_cases; vm_compute; reflexivity. }
  intros k Hk E. pose proof (forall_byte _ (G k Hk) b Hb) as H. cbv beta in H. rewrite E in H. now apply Z.eqb_eq in H.
Qed.

Lemma len_clear_top k l : 0 < len l -> len (clear_top k l) = len l.
Proof. intros. unfold clear_top. destruct (k =? 0); [reflexivity | apply len_set; lia]. Qed.

Lemma clear_top_cons k b l : clear_top k (b :: l) = (if k =? 0 then b else Z.land b (Z.shiftr 255 (8 - k))) :: l.
Proof.
  unfold clear_top. destruct (k =? 0); [reflexivity |]. change (b :: l) with ([] ++ [b] ++ l) at 1.
  unfold set. change 0 with (len (@nil Z)) at 1. now rewrite splice_app_mid.
Qed.

Lemma clear_top_app k a b : 0 < len a -> clear_top k (a ++ b) = clear_top k a ++ b.
Proof.
  destruct a as [| x a]; [change (len []) with 0; lia |]. intros _. cbn [app]. now rewrite !clear_top_cons.
Qed.

(** Masking twice with the top bits cleared in between. *)
Lemma clear_top_xor k m l : len m = len l ->
  clear_top k (xor_bytes m (clear_top k (xor_bytes m l))) = clear_top k l.
Proof.
  intros Hl. destruct m as [| x m], l as [| y l]; rewrite ?len_cons, ?len_nil in Hl; pose_lens; try lia; [unfold clear_top; destruct (k =? 0); reflexivity |].
  rewrite xor_bytes_cons, clear_top_cons, xor_bytes_cons, !clear_top_cons.
  rewrite xor_bytes_cancel_l by lia. f_equal. destruct (k =? 0).
  - rewrite <- Z.lxor_assoc, Z.lxor_nilpotent. apply Z.lxor_0_l.
  - apply Z.bits_inj'. intros i Hi. rewrite !Z.land_spec, !Z.lxor_spec, !Z.land_spec, !Z.lxor_spec.
    now destruct (Z.testbit x i), (Z.testbit y i), (Z.testbit (Z.shiftr 255 (8 - k)) i).
Qed.

Lemma clear_top_db k p salt : 0 <= k < 8 -> clear_top k (repeat 0 p ++ 1 :: salt) = repeat 0 p ++ 1 :: salt.
Proof.
  intros Hk. destruct p; cbn [repeat app]; rewrite clear_top_cons; destruct (Z.eqb_spec k 0); try reflexivity; f_equal.
  revert k Hk n. assert (G : forall k, 0 < k < 8 -> Z.land 1 (Z.shiftr 255 (8 - k)) = 1) by (apply seven_cases; reflexivity).
  intros k Hk n. apply G. lia.
Qed.

(** [zero_scan] stops at the first nonzero byte, or at the last byte. *)
Lemma zero_scan_spec DB fuel : forall i, 0 <= i < len DB -> len DB - i <= Z.of_nat fuel ->
  (forall j, 0 <= j < i -> get DB j = 0) ->
  let r := zero_scan fuel DB i in
  i <= r < len DB /\ (forall j, 0 <= j < r -> get DB j = 0) /\ (get DB r <> 0 \/ r = len DB - 1).
Proof.
  induction fuel as [| fuel IH]; intros i Hi Hf Hz; [lia |]. cbn [zero_scan].
  destruct (Z.eqb_spec (get DB i) 0) as [E | E]; cbn [andb].
  - destruct (Z.ltb_spec i (len DB - 1)) as [Hlt | Hge].
    + destruct (IH (i + 1)) as (H1 & H2 & H3); [lia | lia | |].
      * intros j Hj. destruct (Z.eq_dec j i) as [-> | Hne]; [assumption | apply Hz; lia].
      * cbv zeta. split; [lia |]. split; assumption.
    + cbv zeta. split; [lia |]. split; [assumption | right; lia].
  - cbv zeta. split; [lia |]. split; [assumption | now left].
Qed.

Lemma get_repeat0 p (l : list Z) j : 0 <= j < Z.of_nat p -> get (repeat 0 p ++ l) j = 0.
Proof. intros. rewrite get_app_l by (rewrite len_repeat; lia). unfold get. now rewrite nth_repeat. Qed.

Lemma zero_scan_found DB : 0 < len DB -> let r := zero_scan (length DB) DB 0 in
  forall p salt, (r = Z.of_nat p /\ get DB r = 1 /\ salt = drop (r + 1) DB) <-> DB = repeat 0 p ++ 1 :: salt.
Proof.
  intros Hpos r p salt.
  destruct (zero_scan_spec DB (length DB) 0 ltac:(lia) ltac:(unfold len; lia) ltac:(intros; lia)) as (Hr & Hz & Hstop).
  fold r in Hr, Hz, Hstop. split.
  - intros (Er & E1 & ->). rewrite <- (take_drop r DB) at 1. f_equal.
    + apply list_eq_get; rewrite len_take, ?len_repeat by lia; [lia |]. intros i Hi.
      rewrite get_take by lia. rewrite Hz by lia. unfold get. now rewrite nth_repeat.
    + rewrite drop_cons_get by lia. now rewrite E1.
  - intros E. assert (Ld : len DB = Z.of_nat p + 1 + len salt) by (rewrite E, len_app, len_repeat, len_cons; lia).
    pose proof (len_nonneg salt).
    assert (Hp : get DB (Z.of_nat p) = 1).
    { rewrite E, get_app_r by (rewrite len_repeat; lia). rewrite len_repeat, Z.sub_diag. reflexivity. }
    assert (Er : r = Z.of_nat p).
    { destruct (Z.lt_trichotomy r (Z.of_nat p)) as [Hlt | [Heq | Hgt]]; [| assumption |].
      - destruct Hstop as [Hne | Hlast]; [| lia]. exfalso. apply Hne. rewrite E. apply get_repeat0. lia.
      - exfalso. rewrite Hz in Hp by lia. discriminate. }
    split; [assumption |]. rewrite Er. split; [assumption |]. rewrite E.
    change (1 :: salt) with ([1] ++ salt). rewrite app_assoc. symmetry. apply drop_app_exact.
    rewrite len_app, len_repeat. change (len [1]) with 1. lia.
Qed.

(** The salt lengths a verifier's [sLen] allows. *)
Definition salt_len_ok (Hash : EVP_MD) (sLen k : Z) : Prop :=
  sLen = -2 \/ k = (if sLen =? -1 then EVP_MD_size Hash else sLen).

Lemma pss_lead_len n : 0 <= len (pss_lead n) <= 1.
Proof. unfold pss_lead. destruct (_ =? 0); cbn; lia. Qed.

(** What the verifier does once the leading zero byte is dropped. *)
Definition pss_verify_block (Hash mgf : EVP_MD) (MSBits emLen : Z) (mHash EM : list Z) (sLen : Z) : result unit :=
  let hLen := EVP_MD_size Hash in
  if (emLen <? hLen + 2) || (emLen <? hLen + sLen + 2) then Error RSA_R_DATA_TOO_LARGE else
  if negb (get EM (emLen - 1) =? 188) then Error RSA_R_LAST_OCTET_INVALID else
  let maskedDBLen := emLen - hLen - 1 in
  let H := load EM maskedDBLen hLen in
  if negb (alloc_ok maskedDBLen) then Error ERR_R_MALLOC_FAILURE else
  bind_option (PKCS1_MGF1 maskedDBLen H mgf) (fun DB =>
  let DB := xor_bytes DB (take maskedDBLen EM) in
  let DB := clear_top MSBits DB in
  let i := zero_scan (length DB) DB 0 in
  if negb (get DB i =? 1) then Error RSA_R_SLEN_RECOVERY_FAILED else
  let i := i + 1 in
  if (0 <=? sLen) && negb (maskedDBLen - i =? sLen) then Error RSA_R_SLEN_CHECK_FAILED else
  bind_option (md_digest Hash (kPSSZeroes ++ take hLen mHash ++ load DB i (maskedDBLen - i))) (fun H_ =>
  if negb (CRYPTO_memcmp H_ H =? 0) then Error RSA_R_BAD_SIGNATURE else Ok tt)).

(** [EM] is the masked DB, the hash and the trailer. *)
Lemma pss_split EM hLen emLen : len EM = emLen -> 0 <= hLen -> hLen + 2 <= emLen -> get EM (emLen - 1) = 188 ->
  EM = take (emLen - hLen - 1) EM ++ load EM (emLen - hLen - 1) hLen ++ [188].
Proof.
  intros Hl Hh Hle Hb. rewrite <- (take_drop (emLen - hLen - 1) EM) at 1. f_equal.
  rewrite <- (take_drop hLen (drop (emLen - hLen - 1) EM)). unfold load. f_equal.
  rewrite drop_drop by lia. replace (emLen - hLen - 1 + hLen) with (emLen - 1) by lia.
  rewrite drop_cons_get, Hb, drop_all by lia. reflexivity.
Qed.

Lemma pss_verify_sound Hash mgf MSBits emLen mHash EM sLen : DigestOk Hash -> DigestOk mgf ->
  0 <= MSBits < 8 -> len EM = emLen -> bytes_ok EM -> -2 <= sLen ->
  (MSBits = 0 \/ Z.land (get EM 0) (Z.shiftl 255 MSBits) = 0) ->
  pss_verify_block Hash mgf MSBits emLen mHash EM (if sLen =? -1 then EVP_MD_size Hash else sLen) = Ok tt ->
  exists salt, salt_len_ok Hash sLen (len salt) /\ EVP_MD_size Hash + len salt + 2 <= emLen /\
    pss_block Hash mgf MSBits emLen mHash salt = Some EM.
Proof.
  intros HH Hm Hk Hl Hok Hs Htop. unfold pss_verify_block. pose proof (md_size_range (md := Hash)) as Hsz.
  set (hLen := EVP_MD_size Hash) in *. set (s := if sLen =? -1 then hLen else sLen).
  destruct (Z.ltb_spec emLen (hLen + 2)); [discriminate |]. destruct (Z.ltb_spec emLen (hLen + s + 2)); [discriminate |]. cbn [orb].
  destruct (Z.eqb_spec (get EM (emLen - 1)) 188) as [Elast |]; [| discriminate]. cbn [negb].
  destruct (alloc_ok _); [| discriminate]. cbn [negb].
  pose proof (pss_split EM hLen emLen Hl ltac:(lia) ltac:(lia) Elast) as Esplit.
  set (n := emLen - hLen - 1) in *. set (H' := load EM n hLen) in *.
  destruct (PKCS1_MGF1 n H' mgf) as [mask |] eqn:E1; [| discriminate]. cbn [bind_option].
  destruct (MGF1_len mgf _ _ _ E1 ltac:(lia)) as [Lmask Bmask].
  assert (Lt : len (take n EM) = n) by (apply len_take; lia).
  set (DB := clear_top MSBits (xor_bytes mask (take n EM))).
  assert (LDB : len DB = n) by (unfold DB; rewrite len_clear_top; rewrite len_xor_bytes; lia).
  destruct (Z.eqb_spec (get DB (zero_scan (length DB) DB 0)) 1) as [E |]; [| discriminate]. cbn [negb].
  destruct (zero_scan_spec DB (length DB) 0 ltac:(lia) ltac:(unfold len; lia) ltac:(intros; lia)) as (Hr & _).
  set (r := zero_scan (length DB) DB 0) in *.
  pose proof (proj1 (zero_scan_found DB ltac:(lia) (Z.to_nat r) (drop (r + 1) DB)) ltac:(fold r; rewrite Z2Nat.id by lia; now split)) as EDB.
  destruct ((0 <=? s) && negb (n - (r + 1) =? s)) eqn:Esl; [discriminate |].
  set (salt := drop (r + 1) DB) in *. assert (Lsalt : len salt = n - (r + 1)) by (unfold salt; rewrite len_drop; lia).
  replace (load DB (r + 1) (n - (r + 1))) with salt by (unfold load; fold salt; rewrite take_all by lia; reflexivity).
  destruct (md_digest Hash _) as [H_ |] eqn:E2; [| discriminate]. cbn [bind_option].
  destruct (md_output _ _ E2) as [LH _]. fold hLen in LH.
  assert (LH' : len H' = hLen) by (unfold H', load; rewrite len_take; rewrite ?len_drop; lia).
  destruct (Z.eqb_spec (CRYPTO_memcmp H_ H') 0) as [Ec |]; [| discriminate]. intros _.
  apply memcmp_loop_zero in Ec as [_ ->]; [| unfold len in LH, LH'; lia].
  exists salt. split.
  { unfold salt_len_ok. fold hLen. fold s. apply andb_false_iff in Esl as [Es0 | Es1].
    - apply Z.leb_gt in Es0. unfold s in Es0. destruct (Z.eqb_spec sLen (-1)); left; lia.
    - apply negb_false_iff, Z.eqb_eq in Es1. right. lia. }
  split; [lia |]. unfold pss_block. fold hLen. rewrite E2. fold n. rewrite E1. f_equal.
  replace (emLen - len salt - hLen - 2) with r by lia. rewrite <- EDB. unfold DB.
  rewrite clear_top_xor by lia. etransitivity; [| symmetry; exact Esplit]. f_equal.
  destruct (take n EM) as [| b l] eqn:Et; [rewrite len_nil in Lt; lia |]. rewrite clear_top_cons.
  destruct (Z.eqb_spec MSBits 0) as [| Hk0]; [reflexivity |]. destruct Htop as [? | Htop]; [lia |].
  assert (Eb : get EM 0 = b) by (rewrite Esplit; rewrite ?Et; reflexivity).
  rewrite Eb in Htop. f_equal. apply top_mask_keep; [lia | rewrite <- Eb; now apply bytes_get | assumption].
Qed.

Lemma pss_verify_complete Hash mgf MSBits emLen mHash EM sLen salt : DigestOk Hash -> DigestOk mgf ->
  (forall k, alloc_ok k = true) -> 0 <= MSBits < 8 -> -2 <= sLen ->
  salt_len_ok Hash sLen (len salt) -> EVP_MD_size Hash + len salt + 2 <= emLen ->
  pss_block Hash mgf MSBits emLen mHash salt = Some EM ->
  len EM = emLen /\ (MSBits = 0 \/ Z.land (get EM 0) (Z.shiftl 255 MSBits) = 0) /\
  pss_verify_block Hash mgf MSBits emLen mHash EM (if sLen =? -1 then EVP_MD_size Hash else sLen) = Ok tt.
Proof.
  intros HH Hm Hal Hk Hs Hsl Hle. unfold pss_block, pss_verify_block. pose proof (md_size_range (md := Hash)) as Hsz.
  unfold salt_len_ok in Hsl. set (hLen := EVP_MD_size Hash) in *. set (s := if sLen =? -1 then hLen else sLen) in *.
  pose proof (len_nonneg salt).
  destruct (md_digest Hash _) as [H' |] eqn:E2; [| discriminate]. destruct (md_output _ _ E2) as [LH _]. fold hLen in LH.
  set (n := emLen - hLen - 1) in *. destruct (PKCS1_MGF1 n H' mgf) as [mask |] eqn:E1; [| discriminate].
  destruct (MGF1_len mgf _ _ _ E1 ltac:(lia)) as [Lmask _].
  set (p := Z.to_nat (emLen - len salt - hLen - 2)). set (DB := repeat 0 p ++ 1 :: salt).
  assert (LDB : len DB = n) by (unfold DB, p; rewrite len_app, len_repeat, len_cons; lia).
  set (MDB := clear_top MSBits (xor_bytes mask DB)).
  assert (LM : len MDB = n) by (unfold MDB; rewrite len_clear_top; rewrite len_xor_bytes; lia).
  intros [= <-]. assert (Lem : len (MDB ++ H' ++ [188]) = emLen) by (rewrite !len_app; change (len [188]) with 1; lia).
  split; [assumption |]. split.
  { destruct (Z.eq_dec MSBits 0) as [| Hk0]; [now left | right].
    unfold MDB. destruct (xor_bytes mask DB) as [| x l] eqn:Ex; [assert (len (xor_bytes mask DB) = 0) by (rewrite Ex; reflexivity); rewrite len_xor_bytes in *; lia |].
    rewrite clear_top_cons. destruct (Z.eqb_spec MSBits 0); [contradiction |]. apply top_mask_disjoint. lia. }
  destruct (Z.ltb_spec emLen (hLen + 2)); [lia |].
  destruct (Z.ltb_spec emLen (hLen + s + 2)) as [Hlt |]; [unfold s in Hlt; destruct (Z.eqb_spec sLen (-1)); lia |]. cbn [orb].
  replace (get (MDB ++ H' ++ [188]) (emLen - 1)) with 188.
  2:{ rewrite app_assoc. replace (emLen - 1) with (len (MDB ++ H')) by (rewrite len_app; lia). symmetry. apply get_app_end. }
  cbn [Z.eqb Pos.eqb negb]. rewrite Hal. cbn [negb].
  replace (load (MDB ++ H' ++ [188]) n hLen) with H' by (rewrite <- LM, <- LH; symmetry; apply load_app_mid).
  rewrite E1. cbn [bind_option]. rewrite take_app_exact by lia.
  replace (clear_top MSBits (xor_bytes mask MDB)) with DB
    by (unfold MDB; rewrite clear_top_xor by lia; unfold DB; now rewrite clear_top_db by lia).
  destruct (proj2 (zero_scan_found DB ltac:(lia) p salt) eq_refl) as (Er & E & Es). rewrite E. cbn [Z.eqb Pos.eqb negb].
  rewrite Er in *. replace (n - (Z.of_nat p + 1)) with (len salt) by (unfold p; lia).
  replace ((0 <=? s) && negb (len salt =? s)) with false.
  2:{ symmetry. apply andb_false_iff. unfold s in *. destruct Hsl as [-> | ->]; [now left | right]. now rewrite Z.eqb_refl. }
  replace (load DB (Z.of_nat p + 1) (len salt)) with salt by (unfold load; rewrite <- Es; symmetry; apply take_all; lia).
  rewrite E2. cbn [bind_option]. unfold CRYPTO_memcmp. rewrite (proj2 (memcmp_loop_zero H' H' 0 eq_refl)) by now split.
  reflexivity.
Qed.

Lemma land_255 b : byte_ok b -> Z.land b 255 = b.
Proof. intros H. change 255 with (Z.ones 8). rewrite Z.land_ones by lia. apply Z.mod_small. exact H. Qed.

Lemma RSA_size_pos n : 0 < n -> 1 <= RSA_size n.
Proof.
  intros H. unfold RSA_size, BN_num_bits. destruct (Z.eqb_spec n 0); [lia |]. pose proof (Z.log2_nonneg n).
  Z.to_euclidean_division_equations; lia.
Qed.

Lemma pss_verify_unfold n mHash Hash mgf1Hash EM sLen : -2 <= sLen -> bytes_ok EM ->
  let k := Z.land (BN_num_bits n - 1) 7 in
  RSA_verify_PKCS1_PSS_mgf1 alloc_ok n mHash Hash mgf1Hash EM sLen =
  if Z.land (get EM 0) (Z.shiftl 255 k) =? 0 then
    pss_verify_block Hash (default_mgf1 mgf1Hash Hash) k (RSA_size n - len (pss_lead n)) mHash (drop (len (pss_lead n)) EM)
      (if sLen =? -1 then EVP_MD_size Hash else sLen)
  else Error RSA_R_FIRST_OCTET_INVALID.
Proof.
  intros Hs Hok k. unfold RSA_verify_PKCS1_PSS_mgf1, pss_verify_block, pss_lead. fold k.
  destruct (Z.ltb_spec sLen (-2)); [lia |]. destruct (_ =? 0); cbn [negb]; [| reflexivity].
  destruct (k =? 0).
  - change (len [0]) with 1. reflexivity.
  - change (len []) with 0. rewrite drop_0, Z.sub_0_r. reflexivity.
Qed.

(** The verifier in terms of the encoded message. *)
Lemma pss_verify_em n mHash Hash mgf1Hash EM sLen :
  let mgf := default_mgf1 mgf1Hash Hash in
  DigestOk Hash -> DigestOk mgf -> (forall k, alloc_ok k = true) ->
  0 < n -> len EM = RSA_size n -> bytes_ok EM ->
  RSA_verify_PKCS1_PSS_mgf1 alloc_ok n mHash Hash mgf1Hash EM sLen = Ok tt <->
  -2 <= sLen /\ exists salt, salt_len_ok Hash sLen (len salt) /\
    EVP_MD_size Hash + len salt + 2 + len (pss_lead n) <= RSA_size n /\ pss_em Hash mgf n mHash salt = Some EM.
Proof.
  intros mgf HH Hm Hal Hn Hl Hok. pose proof (RSA_size_pos n Hn) as Hsz.
  destruct (Z.lt_ge_cases sLen (-2)) as [Hlt | Hs].
  { unfold RSA_verify_PKCS1_PSS_mgf1. destruct (Z.ltb_spec sLen (-2)); [| lia]. split; [discriminate | lia]. }
  rewrite pss_verify_unfold by assumption. fold mgf. unfold pss_em. pose proof (pss_lead_len n) as Hlead.
  set (k := Z.land (BN_num_bits n - 1) 7). pose proof (MSBits_range (BN_num_bits n - 1) : 0 <= k < 8) as Hk.
  set (emLen := RSA_size n - len (pss_lead n)). set (EM' := drop (len (pss_lead n)) EM).
  assert (LEM' : len EM' = emLen) by (unfold EM'; rewrite len_drop; lia).
  assert (BEM' : bytes_ok EM') by (unfold EM'; auto with bytes).
  assert (Hnz : k <> 0 -> EM' = EM).
  { unfold EM', pss_lead. fold k. destruct (Z.eqb_spec k 0); [contradiction |]. intros _. apply drop_0. }
  split.
  - destruct (Z.eqb_spec (Z.land (get EM 0) (Z.shiftl 255 k)) 0) as [Htop |]; [| discriminate]. intros Hv.
    split; [assumption |].
    destruct (pss_verify_sound Hash mgf k emLen mHash EM' sLen HH Hm Hk LEM' BEM' Hs) as (salt & H1 & H2 & H3); [| assumption |].
    { destruct (Z.eq_dec k 0); [now left | right]. now rewrite Hnz. }
    exists salt. split; [assumption |]. split; [unfold emLen in H2; lia |]. rewrite H3. f_equal.
    rewrite <- (take_drop (len (pss_lead n)) EM). fold EM'. f_equal. unfold pss_lead. fold k.
    destruct (Z.eqb_spec k 0) as [Ek |]; [| reflexivity]. change (len [0]) with (0 + 1). rewrite take_succ by lia.
    rewrite take_0. cbn [app]. f_equal. rewrite Ek in Htop. change (Z.shiftl 255 0) with 255 in Htop.
    now rewrite land_255 in Htop by now apply bytes_get.
  - intros (_ & salt & H1 & H2 & H3).
    destruct (pss_block Hash mgf k emLen mHash salt) as [b |] eqn:Eb; [| discriminate]. injection H3 as H3.
    assert (Eb' : b = EM') by (unfold EM'; rewrite <- H3; symmetry; now apply drop_app_exact). rewrite Eb' in Eb.
    destruct (pss_verify_complete Hash mgf k emLen mHash EM' sLen salt HH Hm Hal Hk Hs H1 ltac:(unfold emLen; lia) Eb) as (_ & Htop & Hv).
    destruct (Z.eqb_spec (Z.land (get EM 0) (Z.shiftl 255 k)) 0) as [| Hne]; [exact Hv |]. exfalso. apply Hne.
    destruct (Z.eq_dec k 0) as [Ek | Ek]; [| destruct Htop as [? | Htop]; [contradiction | now rewrite <- Hnz by assumption]].
    rewrite <- H3. unfold pss_lead. fold k. rewrite Ek. reflexivity.
Qed.

(** The writes of the padding routine after the hash is computed. *)
Lemma pss_layout k (EM H mask salt : list Z) hLen emLen : len EM = emLen -> len H = hLen -> 1 <= hLen ->
  len mask = emLen - hLen - 1 -> hLen + len salt + 2 <= emLen ->
  let p := emLen - len salt - hLen - 2 in
  let EM := splice EM (emLen - hLen - 1) H in
  load EM (emLen - hLen - 1) hLen = H /\
  (let EM := splice EM 0 mask in
   let EM := set EM p (Z.lxor (get EM p) 1) in
   let EM := splice EM (p + 1) (xor_bytes (load EM (p + 1) (len salt)) salt) in
   set (clear_top k EM) (emLen - 1) 188) =
  clear_top k (xor_bytes mask (repeat 0 (Z.to_nat p) ++ 1 :: salt)) ++ H ++ [188].
Proof.
  intros Hl HH Hh Hm Hs p. pose proof (len_nonneg salt). set (n := emLen - hLen - 1) in *.
  set (E1 := take n EM). set (E2 := load EM n hLen). set (E3 := drop (n + hLen) EM).
  assert (L1 : len E1 = n) by (unfold E1; apply len_take; lia).
  assert (L2 : len E2 = hLen) by (unfold E2, load; rewrite len_take; rewrite ?len_drop; lia).
  assert (L3 : len E3 = 1) by (unfold E3; rewrite len_drop; lia).
  assert (EE : EM = E1 ++ E2 ++ E3).
  { unfold E1, E2, E3, load. rewrite <- (take_drop n EM) at 1. f_equal.
    rewrite <- (drop_drop hLen n) by lia. symmetry. apply take_drop. }
  cbv zeta. replace (splice EM n H) with (E1 ++ H ++ E3) by (rewrite EE, <- L1; symmetry; apply splice_app_mid; lia).
  split; [rewrite <- HH, <- L1; apply load_app_mid |].
  change (splice (E1 ++ H ++ E3) 0 mask) with (splice ([] ++ E1 ++ H ++ E3) (len (@nil Z)) mask).
  rewrite splice_app_mid by lia. cbn [app].
  set (m1 := take p mask). set (m2 := drop (p + 1) mask).
  assert (Lm1 : len m1 = p) by (unfold m1; apply len_take; lia).
  assert (Lm2 : len m2 = len salt) by (unfold m2; rewrite len_drop; lia).
  assert (Emask : mask = m1 ++ [get mask p] ++ m2).
  { unfold m1, m2. rewrite <- (take_drop p mask) at 1. f_equal. apply drop_cons_get. lia. }
  assert (Lmh : len (mask ++ H ++ E3) = emLen) by (rewrite !len_app; lia).
  replace (get (mask ++ H ++ E3) p) with (get mask p) by (symmetry; apply get_app_l; lia).
  set (mp := get mask p) in *. set (q := [Z.lxor mp 1]) in *.
  assert (La : len (m1 ++ q) = p + 1) by (rewrite len_app; change (len q) with 1; lia).
  replace (set (mask ++ H ++ E3) p (Z.lxor mp 1)) with ((m1 ++ q) ++ m2 ++ H ++ E3).
  2:{ rewrite Emask, <- !app_assoc, <- Lm1. symmetry. now apply (splice_app_mid m1 [mp] (m2 ++ H ++ E3) q). }
  replace (load ((m1 ++ q) ++ m2 ++ H ++ E3) (p + 1) (len salt)) with m2
    by (rewrite <- La, <- Lm2; symmetry; apply load_app_mid).
  replace (splice ((m1 ++ q) ++ m2 ++ H ++ E3) (p + 1) (xor_bytes m2 salt)) with ((m1 ++ q) ++ xor_bytes m2 salt ++ H ++ E3)
    by (rewrite <- La; symmetry; apply splice_app_mid; rewrite len_xor_bytes; lia).
  rewrite app_assoc. rewrite clear_top_app by (rewrite len_app; pose proof (len_nonneg (xor_bytes m2 salt)); lia).
  replace ((m1 ++ q) ++ xor_bytes m2 salt) with (xor_bytes mask (repeat 0 (Z.to_nat p) ++ 1 :: salt)).
  2:{ rewrite Emask. rewrite xor_bytes_app by (rewrite len_repeat; lia).
      change (1 :: salt) with ([1] ++ salt). rewrite xor_bytes_app by reflexivity. rewrite <- app_assoc. f_equal.
      rewrite xor_bytes_comm, xor_bytes_zero. apply take_all. lia. }
  set (M := clear_top k _).
  assert (LM : len M = n).
  { unfold M. rewrite len_clear_top; rewrite len_xor_bytes, len_app, len_repeat, len_cons; lia. }
  destruct E3 as [| e [| e' E3]]; rewrite ?len_cons, ?len_nil in L3; pose_lens; try lia.
  rewrite app_assoc. replace (emLen - 1) with (len (M ++ H)) by (rewrite len_app; lia).
  unfold set. rewrite splice_app_end by reflexivity. now rewrite <- app_assoc.
Qed.

Lemma splice_full_load (l k : list Z) a : 0 <= a -> a + len k <= len l -> take (len k) (drop a (splice l a k)) = k.
Proof.
  intros Ha Hl. pose proof (len_nonneg k). unfold splice. rewrite drop_app_exact by (rewrite len_take; lia).
  now apply take_app_exact.
Qed.

Lemma bytes_ok_clear_top k l : bytes_ok l -> bytes_ok (clear_top k l).
Proof.
  destruct l as [| b l]; intros Hl; [unfold clear_top; destruct (k =? 0); [constructor | repeat constructor; cbn; lia] |].
  rewrite clear_top_cons. inversion_clear Hl as [| ? ? Hb Hl']. constructor; [| assumption].
  destruct (k =? 0); [assumption |]. apply (land_range 8); [lia | exact Hb |]. apply Z.shiftr_nonneg. lia.
Qed.

Lemma pss_em_total Hash mgf n mHash salt : DigestOk Hash -> DigestOk mgf ->
  (forall x, md_digest Hash x <> None) -> (forall x, md_digest mgf x <> None) ->
  EVP_MD_size Hash + len salt + 2 + len (pss_lead n) <= RSA_size n -> bytes_ok salt ->
  exists em, pss_em Hash mgf n mHash salt = Some em /\ bytes_ok em /\ len em = RSA_size n.
Proof.
  intros HH Hm Ht1 Ht2 Hle Bs. unfold pss_em, pss_block. pose proof (md_size_range (md := Hash)) as Hsz.
  pose proof (len_nonneg salt). set (hLen := EVP_MD_size Hash) in *. set (k := Z.land _ 7).
  set (emLen := RSA_size n - len (pss_lead n)).
  destruct (md_digest Hash _) as [H' |] eqn:E2; [| now apply Ht1 in E2]. destruct (md_output _ _ E2) as [LH BH]. fold hLen in LH.
  destruct (mgf1_total mgf H' (emLen - hLen - 1) Ht2 ltac:(lia)) as [mask E1]. rewrite E1.
  destruct (MGF1_len mgf _ _ _ E1 ltac:(lia)) as [Lm Bm].
  set (DB := repeat 0 (Z.to_nat (emLen - len salt - hLen - 2)) ++ 1 :: salt).
  assert (LDB : len DB = emLen - hLen - 1) by (unfold DB; rewrite len_app, len_repeat, len_cons; lia).
  assert (BDB : bytes_ok DB).
  { apply bytes_ok_app. split; [| constructor; [unfold byte_ok; lia | assumption]].
    apply Forall_forall. intros x Hx. apply repeat_spec in Hx. unfold byte_ok. lia. }
  eexists. split; [reflexivity |]. split.
  - apply bytes_ok_app. split.
    { unfold pss_lead. destruct (_ =? 0); repeat constructor; unfold byte_ok; lia. }
    apply bytes_ok_app. split; [now apply bytes_ok_clear_top, bytes_ok_xor |].
    apply bytes_ok_app. split; [assumption | repeat constructor; unfold byte_ok; lia].
  - rewrite !len_app. rewrite len_clear_top; rewrite len_xor_bytes; change (len [188]) with 1; lia.
Qed.

(** The salt length a request stands for. *)
Definition requested_len (Hash : EVP_MD) (n sLenRequested : Z) : Z :=
  if sLenRequested =? -1 then EVP_MD_size Hash else
  if sLenRequested =? -2 then RSA_size n - len (pss_lead n) - EVP_MD_size Hash - 2 else sLenRequested.

Lemma pss_add_em n EM mHash Hash mgf1Hash sLenRequested g :
  let mgf := default_mgf1 mgf1Hash Hash in
  let s := requested_len Hash n sLenRequested in
  DigestOk Hash -> DigestOk mgf -> (forall k, alloc_ok k = true) ->
  0 < n -> len EM = RSA_size n -> -2 <= sLenRequested -> 0 <= s ->
  EVP_MD_size Hash + s + 2 + len (pss_lead n) <= RSA_size n ->
  fst (RSA_padding_add_PKCS1_PSS_mgf1 alloc_ok n EM mHash Hash mgf1Hash sLenRequested g) =
  of_option (pss_em Hash mgf n mHash (fst (RAND_bytes s g))).
Proof.
  intros mgf s HH Hm Hal Hn HEM Hreq Hs Hle. unfold RSA_padding_add_PKCS1_PSS_mgf1, pss_em, pss_block.
  fold mgf. fold (pss_lead n). pose proof (md_size_range (md := Hash)) as Hsz. pose proof (pss_lead_len n) as Hlead.
  set (hLen := EVP_MD_size Hash) in *. set (k := Z.land (BN_num_bits n - 1) 7). set (emLen := RSA_size n - len (pss_lead n)) in *.
  destruct (Z.eqb_spec n 0); [lia |]. destruct (Z.ltb_spec emLen (hLen + 2)); [lia |].
  replace ((sLenRequested <? 0) && negb (sLenRequested =? -1) && negb (sLenRequested =? -2)) with false.
  2:{ symmetry. destruct (Z.ltb_spec sLenRequested 0), (Z.eqb_spec sLenRequested (-1)), (Z.eqb_spec sLenRequested (-2)); reflexivity || lia. }
  replace (if sLenRequested =? -1 then hLen else if sLenRequested =? -2 then emLen - hLen - 2 else sLenRequested) with s
    by (unfold s, requested_len; reflexivity).
  destruct (Z.ltb_spec (emLen - hLen - 2) s); [lia |]. rewrite Hal, andb_false_r.
  pose proof (RAND_bytes_len s g Hs) as Lsalt. destruct (RAND_bytes s g) as [salt g']. cbn [fst] in *.
  destruct (md_digest Hash (kPSSZeroes ++ take hLen mHash ++ salt)) as [H' |] eqn:E2; [| reflexivity]. cbn [bind_option].
  destruct (md_output _ _ E2) as [LH _]. fold hLen in LH.
  assert (LE : len (drop (len (pss_lead n)) EM) = emLen) by (rewrite len_drop; lia).
  destruct (PKCS1_MGF1 (emLen - hLen - 1) H' mgf) as [mask |] eqn:E1.
  - destruct (MGF1_len mgf _ _ _ E1 ltac:(lia)) as [Lmask _].
    destruct (pss_layout k (drop (len (pss_lead n)) EM) H' mask salt hLen emLen LE LH ltac:(lia) Lmask ltac:(lia)) as [EH EL].
    rewrite EH, E1. cbn [bind_option of_option]. f_equal. f_equal. rewrite Lsalt in EL |- *. exact EL.
  - replace (load _ (emLen - hLen - 1) hLen) with H'; [now rewrite E1 |].
    unfold load. rewrite <- LH. symmetry. apply splice_full_load; lia.
Qed.

(** PSS is exact. Verification succeeds if and only if the encoded message is
    the EMSA-PSS encoding of the message hash for some salt, the salt has the
    length [sLen] asks for (-1: the digest's, -2: any), and everything fits in
    the modulus. Padding, when memory and the digests do not fail and the salt
    fits, fills the modulus-sized buffer with an encoding that verifies, both
    when told the salt length and when recovering it, whatever salt was drawn
    and whatever the top bits of the modulus. *)
Lemma pss_exact :
  (forall n mHash Hash mgf1Hash EM sLen,
    let mgf := default_mgf1 mgf1Hash Hash in
      DigestOk Hash -> DigestOk mgf -> (forall k, alloc_ok k = true) ->
      0 < n -> len EM = RSA_size n -> bytes_ok EM ->
      RSA_verify_PKCS1_PSS_mgf1 alloc_ok n mHash Hash mgf1Hash EM sLen = Ok tt <->
      -2 <= sLen /\ exists salt, salt_len_ok Hash sLen (len salt) /\
        EVP_MD_size Hash + len salt + 2 + len (pss_lead n) <= RSA_size n /\ pss_em Hash mgf n mHash salt = Some EM) /\
  (forall n EM mHash Hash mgf1Hash sLenRequested sLen g,
    let mgf := default_mgf1 mgf1Hash Hash in
      let s := requested_len Hash n sLenRequested in
      DigestOk Hash -> DigestOk mgf -> (forall k, alloc_ok k = true) ->
      (forall x, md_digest Hash x <> None) -> (forall x, md_digest mgf x <> None) ->
      (forall i, byte_ok (stream g i)) ->
      0 < n -> len EM = RSA_size n -> -2 <= sLenRequested -> 0 <= s ->
      EVP_MD_size Hash + s + 2 + len (pss_lead n) <= RSA_size n ->
      -2 <= sLen -> salt_len_ok Hash sLen s ->
      exists em, fst (RSA_padding_add_PKCS1_PSS_mgf1 alloc_ok n EM mHash Hash mgf1Hash sLenRequested g) = Ok em /\
        len em = RSA_size n /\
        RSA_verify_PKCS1_PSS_mgf1 alloc_ok n mHash Hash mgf1Hash em sLen = Ok tt).
Proof.
  split.
  { intros n mHash Hash mgf1Hash EM sLen. apply pss_verify_em. }
  { intros n EM mHash Hash mgf1Hash sLenRequested sLen g mgf s HH Hm Hal Ht1 Ht2 Hg Hn HEM Hreq Hs Hle HsLen Hok.
    rewrite pss_add_em by assumption. fold mgf. fold s. pose proof (RAND_bytes_len s g Hs) as Lsalt.
    assert (Bsalt : bytes_ok (fst (RAND_bytes s g))) by (apply Forall_map, Forall_forall; intros; apply Hg).
    destruct (pss_em_total Hash mgf n mHash (fst (RAND_bytes s g)) HH Hm Ht1 Ht2) as (em & E & Bem & Lem);
      [lia | assumption |].
    rewrite E. exists em. split; [reflexivity |]. split; [assumption |].
    apply pss_verify_em; try assumption. split; [assumption |]. exists (fst (RAND_bytes s g)).
    rewrite Lsalt. split; [assumption |]. split; [assumption | exact E]. }
Qed.
End Pss.

(** C11: OAEP and PSS are exact. The OAEP check returns [out] if and only if the
    input is the EME-OAEP encoding of [out] under the label for some seed and
    amount of zero padding, and [out] fits; padding, when memory and the digests
    do not fail and the data fits with its overhead of two digests and two bytes,
    fills the buffer with a block from which the check with the same label and
    digests recovers the data, whatever seed was drawn. PSS verification succeeds
    if and only if the encoded message is the EMSA-PSS encoding of the hash for
    some salt, the salt has the length [sLen] asks for (-1: the digest's, -2:
    any), and everything fits in the modulus; padding, under the same conditions,
    fills the modulus-sized buffer with an encoding that verifies, both when told
    the salt length and when recovering it, whatever salt was drawn and whatever
    the top bits of the modulus. *)
Theorem oaep_pss_exact EVP_sha1 alloc_ok :
  ((forall max_out from param md mgf1md out,
      let md' := default_md EVP_sha1 md in
        let mgf' := default_mgf1 mgf1md md' in
        DigestOk md' -> DigestOk mgf' -> (forall n, alloc_ok n = true) -> bytes_ok from -> len from < 2 ^ 64 ->
        RSA_padding_check_PKCS1_OAEP_mgf1 EVP_sha1 alloc_ok max_out from param md mgf1md = Ok out <->
        exists seed k, len seed = EVP_MD_size md' /\ oaep_block md' mgf' param seed k out = Some from /\ len out <= max_out) /\
    (forall to from param md mgf1md g max_out,
      let md' := default_md EVP_sha1 md in
        let mgf' := default_mgf1 mgf1md md' in
        DigestOk md' -> DigestOk mgf' -> (forall n, alloc_ok n = true) ->
        (forall x, md_digest md' x <> None) -> (forall x, md_digest mgf' x <> None) ->
        (forall i, byte_ok (stream g i)) -> bytes_ok from -> len to < 2 ^ 64 -> len from <= max_out ->
        len from + 2 * EVP_MD_size md' + 2 <= len to ->
        exists em, fst (RSA_padding_add_PKCS1_OAEP_mgf1 EVP_sha1 alloc_ok to from param md mgf1md g) = Ok em /\
          len em = len to /\
          RSA_padding_check_PKCS1_OAEP_mgf1 EVP_sha1 alloc_ok max_out em param md mgf1md = Ok from)) /\
  ((forall n mHash Hash mgf1Hash EM sLen,
      let mgf := default_mgf1 mgf1Hash Hash in
        DigestOk Hash -> DigestOk mgf -> (forall k, alloc_ok k = true) ->
        0 < n -> len EM = RSA_size n -> bytes_ok EM ->
        RSA_verify_PKCS1_PSS_mgf1 alloc_ok n mHash Hash mgf1Hash EM sLen = Ok tt <->
        -2 <= sLen /\ exists salt, salt_len_ok Hash sLen (len salt) /\
          EVP_MD_size Hash + len salt + 2 + len (pss_lead n) <= RSA_size n /\ pss_em Hash mgf n mHash salt = Some EM) /\
    (forall n EM mHash Hash mgf1Hash sLenRequested sLen g,
      let mgf := default_mgf1 mgf1Hash Hash in
        let s := requested_len Hash n sLenRequested in
        DigestOk Hash -> DigestOk mgf -> (forall k, alloc_ok k = true) ->
        (forall x, md_digest Hash x <> None) -> (forall x, md_digest mgf x <> None) ->
        (forall i, byte_ok (stream g i)) ->
        0 < n -> len EM = RSA_size n -> -2 <= sLenRequested -> 0 <= s ->
        EVP_MD_size Hash + s + 2 + len (pss_lead n) <= RSA_size n ->
        -2 <= sLen -> salt_len_ok Hash sLen s ->
        exists em, fst (RSA_padding_add_PKCS1_PSS_mgf1 alloc_ok n EM mHash Hash mgf1Hash sLenRequested g) = Ok em /\
          len em = RSA_size n /\
          RSA_verify_PKCS1_PSS_mgf1 alloc_ok n mHash Hash mgf1Hash em sLen = Ok tt)).
Proof. split; [exact (oaep_exact EVP_sha1 alloc_ok) | exact (pss_exact alloc_ok)]. Qed.

(** ** Concrete runs *)

(** A two-byte digest. *)
Definition toy_digest (x : list Z) : list Z := [len x mod 256; fold_left (fun a b => (a * 31 + b) mod 256) x 5].
Definition toy_md : EVP_MD := mk_md 2 (fun x => Some (toy_digest x)).

#[export] Instance toy_md_ok : DigestOk toy_md.
Proof.
  split; [cbn; lia |]. intros x d [= <-]. split; [reflexivity |].
  assert (G : forall y a, byte_ok a -> byte_ok (fold_left (fun a b => (a * 31 + b) mod 256) y a)).
  { induction y as [| b y IH]; intros a Ha; cbn [fold_left]; [assumption |]. apply IH. apply Z.mod_pos_bound. lia. }
  constructor; [apply Z.mod_pos_bound; lia |]. constructor; [apply G; unfold byte_ok; lia | constructor].
Qed.

Definition toy_rng : rng := mk_rng (fun i => Z.of_nat i mod 256) 3.

Lemma toy_rng_bytes i : byte_ok (stream toy_rng i).
Proof. apply Z.mod_pos_bound. lia. Qed.

Definition mem_ok (_ : Z) : bool := true.

Definition toy_em : list Z :=
  match fst (RSA_padding_add_PKCS1_OAEP_mgf1 toy_md mem_ok (repeat 9 12) [7; 1; 0] [4; 4] None None toy_rng) with
  | Ok em => em | _ => [] end.

(** A modulus of 57 bits: the top bits do not fill a byte but one. *)
Definition toy_modulus : Z := 2 ^ 56 + 5.

Definition toy_pss : list Z :=
  match fst (RSA_padding_add_PKCS1_PSS_mgf1 mem_ok toy_modulus (repeat 9 8) [1; 2] toy_md None 3 toy_rng) with
  | Ok em => em | _ => [] end.

Lemma oaep_pss_exact_witness :
  ((exists seed k, len seed = EVP_MD_size toy_md /\ oaep_block toy_md toy_md [4; 4] seed k [7; 1; 0] = Some toy_em /\ len [7; 1; 0] <= 3) /\
   (exists em, fst (RSA_padding_add_PKCS1_OAEP_mgf1 toy_md mem_ok (repeat 9 12) [7; 1; 0] [4; 4] None None toy_rng) = Ok em /\
       len em = len (repeat 9 12) /\
       RSA_padding_check_PKCS1_OAEP_mgf1 toy_md mem_ok 3 em [4; 4] None None = Ok [7; 1; 0])) /\
  ((-2 <= -2 /\ exists salt, salt_len_ok toy_md (-2) (len salt) /\
       EVP_MD_size toy_md + len salt + 2 + len (pss_lead toy_modulus) <= RSA_size toy_modulus /\
       pss_em toy_md toy_md toy_modulus [1; 2] salt = Some toy_pss) /\
   (exists em, fst (RSA_padding_add_PKCS1_PSS_mgf1 mem_ok toy_modulus (repeat 9 8) [1; 2] toy_md None 3 toy_rng) = Ok em /\
       len em = RSA_size toy_modulus /\
       RSA_verify_PKCS1_PSS_mgf1 mem_ok toy_modulus [1; 2] toy_md None em 3 = Ok tt)).
Proof.
  split; split.
  { apply (proj1 (proj1 (oaep_pss_exact toy_md mem_ok)) 3 toy_em [4; 4] None None [7; 1; 0]); cbn [default_md default_mgf1].
    - exact _.
    - exact _.
    - reflexivity.
    - vm_compute. repeat constructor; discriminate.
    - vm_compute. reflexivity.
    - vm_compute. reflexivity. }
  { apply (proj2 (proj1 (oaep_pss_exact toy_md mem_ok)) (repeat 9 12) [7; 1; 0] [4; 4] None None toy_rng 3); cbn [default_md default_mgf1].
    - exact _.
    - exact _.
    - reflexivity.
    - discriminate.
    - discriminate.
    - exact toy_rng_bytes.
    - repeat constructor; unfold byte_ok; lia.
    - vm_compute. reflexivity.
    - vm_compute. discriminate.
    - vm_compute. discriminate. }
  { apply (proj1 (proj2 (oaep_pss_exact toy_md mem_ok)) toy_modulus [1; 2] toy_md None toy_pss (-2)); cbn [default_mgf1].
    - exact _.
    - exact _.
    - reflexivity.
    - unfold toy_modulus. lia.
    - vm_compute. reflexivity.
    - vm_compute. repeat constructor; discriminate.
    - vm_compute. reflexivity. }
  { apply (proj2 (proj2 (oaep_pss_exact toy_md mem_ok)) toy_modulus (repeat 9 8) [1; 2] toy_md None 3 3 toy_rng); cbn [default_mgf1].
    - exact _.
    - exact _.
    - reflexivity.
    - discriminate.
    - discriminate.
    - exact toy_rng_bytes.
    - unfold toy_modulus. lia.
    - vm_compute. reflexivity.
    - lia.
    - vm_compute. discriminate.
    - vm_compute. discriminate.
    - lia.
    - right. reflexivity. }
Defined.
