(* ===== verification/BnWords.v ===== *)
(** * Multi-word arithmetic (crypto/fipsmodule/bn/generic.c, cmp.c)

    The pods are built with [OPENSSL_NO_ASM] for 64-bit targets, so a
    [BN_ULONG] is a 64-bit word, [BN_ULLONG] a 128-bit one, and the routines
    are those of generic.c. Word arrays are little-endian lists. *)

From S2P Require Import Prelude Buffers.

Definition word_ok (x : Z) : Prop := 0 <= x < 2 ^ 64.
Definition words_ok (l : list Z) : Prop := Forall word_ok l.

Definition BN_MASK2 : Z := 2 ^ 64 - 1.

(** [Lw] and [Hw] of a [BN_ULLONG]. *)
Definition Lw (t : Z) : Z := u64 t.
Definition Hw (t : Z) : Z := u64 (Z.shiftr t 64).

(** ** Unrolled loops

    The routines process four elements per turn of [while (n & ~3)] and the
    rest one by one. A step takes the carry and an element and gives the word
    written and the new carry. *)
Section Unrolled.
Context {A : Type}.
Variable step : Z -> A -> Z * Z.

Fixpoint single_loop (c : Z) (l : list A) : list Z * Z :=
  match l with
  | [] => ([], c)
  | x :: l =>
      let (r, c) := step c x in
      let (out, c) := single_loop c l in (r :: out, c)
  end.

Fixpoint unrolled_loop (c : Z) (l : list A) : list Z * Z :=
  match l with
  | x0 :: x1 :: x2 :: x3 :: rest =>
      let (r0, c) := step c x0 in
      let (r1, c) := step c x1 in
      let (r2, c) := step c x2 in
      let (r3, c) := step c x3 in
      let (out, c) := unrolled_loop c rest in (r0 :: r1 :: r2 :: r3 :: out, c)
  | _ => single_loop c l
  end.
End Unrolled.

(** ** The routines

    Each returns the words written to [r] (or [rp]) and the carry. *)

Definition mul_add (w c : Z) (ar : Z * Z) : Z * Z :=
  let t := wrap 128 (w * fst ar + snd ar + c) in (Lw t, Hw t).

Definition mul (w c a : Z) : Z * Z :=
  let t := wrap 128 (w * a + c) in (Lw t, Hw t).

Definition sqr (a : Z) : Z * Z := let t := wrap 128 (a * a) in (Lw t, Hw t).

Definition bn_mul_add_words (rp ap : list Z) (num : nat) (w : Z) : list Z * Z :=
  if (num <=? 0)%nat then ([], 0) else unrolled_loop (mul_add w) 0 (combine (firstn num ap) (firstn num rp)).

Definition bn_mul_words (ap : list Z) (num : nat) (w : Z) : list Z * Z :=
  if (num <=? 0)%nat then ([], 0) else unrolled_loop (mul w) 0 (firstn num ap).

Fixpoint sqr_single (l : list Z) : list Z :=
  match l with
  | [] => []
  | a :: l => let (r0, r1) := sqr a in r0 :: r1 :: sqr_single l
  end.

Fixpoint sqr_unrolled (l : list Z) : list Z :=
  match l with
  | a0 :: a1 :: a2 :: a3 :: rest =>
      let (r0, r1) := sqr a0 in
      let (r2, r3) := sqr a1 in
      let (r4, r5) := sqr a2 in
      let (r6, r7) := sqr a3 in
      r0 :: r1 :: r2 :: r3 :: r4 :: r5 :: r6 :: r7 :: sqr_unrolled rest
  | _ => sqr_single l
  end.

Definition bn_sqr_words (a : list Z) (n : nat) : list Z :=
  if (n <=? 0)%nat then [] else sqr_unrolled (firstn n a).

(** With a [BN_ULLONG] accumulator [ll]. *)
Definition add_ullong (ll : Z) (ab : Z * Z) : Z * Z :=
  let ll := wrap 128 (ll + (fst ab + snd ab)) in (Z.land (u64 ll) BN_MASK2, Z.shiftr ll 64).

Definition bn_add_words (a b : list Z) (n : nat) : list Z * Z :=
  if (n <=? 0)%nat then ([], 0) else
  let (r, ll) := unrolled_loop add_ullong 0 (combine (firstn n a) (firstn n b)) in (r, u64 ll).

(** The variant for compilers without [BN_ULLONG]. *)
Definition add_carry (c : Z) (ab : Z * Z) : Z * Z :=
  let t := fst ab in
  let t := Z.land (u64 (t + c)) BN_MASK2 in
  let c := b2z (t <? c) in
  let l := Z.land (u64 (t + snd ab)) BN_MASK2 in
  let c := u64 (c + b2z (l <? t)) in
  (l, c).

Definition bn_add_words_no_ullong (a b : list Z) (n : nat) : list Z * Z :=
  if (n <=? 0)%nat then ([], 0) else unrolled_loop add_carry 0 (combine (firstn n a) (firstn n b)).

Definition sub_borrow (c : Z) (ab : Z * Z) : Z * Z :=
  let (t1, t2) := ab in
  let r := Z.land (u64 (t1 - t2 - c)) BN_MASK2 in
  let c := if negb (t1 =? t2) then b2z (t1 <? t2) else c in
  (r, c).

Definition bn_sub_words (a b : list Z) (n : nat) : list Z * Z :=
  if (n <=? 0)%nat then ([], 0) else unrolled_loop sub_borrow 0 (combine (firstn n a) (firstn n b)).

(** The comparison of cmp.c from word [n - 1] down. *)
Fixpoint cmp_words_loop (a b : list Z) (n : nat) : Z :=
  match n with
  | O => 0
  | S i =>
      let aa := get a (Z.of_nat i) in
      let bb := get b (Z.of_nat i) in
      if negb (aa =? bb) then (if bb <? aa then 1 else -1) else cmp_words_loop a b i
  end.

Definition bn_cmp_words (a b : list Z) (n : nat) : Z :=
  let aa := get a (Z.of_nat n - 1) in
  let bb := get b (Z.of_nat n - 1) in
  if negb (aa =? bb) then (if bb <? aa then 1 else -1) else cmp_words_loop a b (n - 1).

(** [dl] words more in [a], or [- dl] more in [b], looked at from the top. *)
Definition bn_cmp_part_words (a b : list Z) (cl : nat) (dl : Z) : Z :=
  let nonzero l i := negb (get l (Z.of_nat i) =? 0) in
  if (dl <? 0) && existsb (nonzero b) (rev (seq cl (Z.to_nat (- dl)))) then -1 else
  if (0 <? dl) && existsb (nonzero a) (rev (seq cl (Z.to_nat dl))) then 1 else
  bn_cmp_words a b cl.

(** ** The memory of an array *)

(** A word is stored least significant byte first. *)
Definition word_bytes (w : Z) : list Z := rev (be_enc 8 w).
Definition mem_bytes (ws : list Z) : list Z := flat_map word_bytes ws.

(** ** The value of an array *)

Fixpoint le_val (l : list Z) : Z :=
  match l with [] => 0 | x :: l => x + 2 ^ 64 * le_val l end.

(** [2^64] to the number of words. *)
Definition base (n : nat) : Z := 2 ^ (64 * Z.of_nat n).

Lemma base_0 : base 0 = 1.
Proof. reflexivity. Qed.

Lemma base_S n : base (S n) = 2 ^ 64 * base n.
Proof. unfold base. rewrite <- Z.pow_add_r by lia. f_equal. lia. Qed.

Lemma base_pos n : 0 < base n.
Proof. unfold base. apply Z.pow_pos_nonneg; lia. Qed.

Lemma le_val_app l k : le_val (l ++ k) = le_val l + base (length l) * le_val k.
Proof.
  induction l as [| x l IH]; [cbn [app le_val length]; rewrite base_0; lia |].
  cbn [app le_val length]. rewrite IH, base_S. lia.
Qed.

Lemma le_val_range l : words_ok l -> 0 <= le_val l < base (length l).
Proof.
  induction 1 as [| x l Hx _ IH]; [cbn; lia |]. cbn [le_val length]. rewrite base_S. unfold word_ok in Hx. lia.
Qed.

Lemma le_val_inj l : forall k, words_ok l -> words_ok k -> length l = length k -> le_val l = le_val k -> l = k.
Proof.
  induction l as [| x l IH]; intros [| y k] Hl Hk Hlen Hv; try discriminate; [reflexivity |].
  inversion_clear Hl as [| ? ? Hx Hl']. inversion_clear Hk as [| ? ? Hy Hk']. unfold word_ok in *. cbn [le_val length] in *.
  assert (x = y) as -> by lia. f_equal. apply IH; try assumption; lia.
Qed.

Lemma pow_256 m : 0 <= m -> 256 ^ m = 2 ^ (8 * m).
Proof. intros H. change 256 with (2 ^ 8). now rewrite <- Z.pow_mul_r by lia. Qed.

Lemma base_256 n : base n = 256 ^ (8 * Z.of_nat n).
Proof. unfold base. rewrite pow_256 by lia. f_equal. lia. Qed.

Lemma length_be_enc n v : length (be_enc n v) = n.
Proof. pose proof (be_enc_len n v) as H. unfold len in H. lia. Qed.

Lemma length_word_bytes w : length (word_bytes w) = 8%nat.
Proof. unfold word_bytes. now rewrite length_rev, length_be_enc. Qed.

Lemma length_mem_bytes ws : length (mem_bytes ws) = (8 * length ws)%nat.
Proof. induction ws as [| w ws IH]; [reflexivity |]. unfold mem_bytes in *. cbn [flat_map length]. rewrite length_app, IH, length_word_bytes. lia. Qed.

Lemma len_mem_bytes ws : len (mem_bytes ws) = 8 * len ws.
Proof. unfold len. rewrite length_mem_bytes. lia. Qed.

(** Memory holds the words' value, least significant byte first. *)
Lemma mem_bytes_value ws : words_ok ws -> mem_bytes ws = rev (be_enc (8 * length ws) (le_val ws)).
Proof.
  induction 1 as [| w ws Hw Hl IH]; [reflexivity |]. unfold mem_bytes in *. cbn [flat_map length le_val]. rewrite IH.
  replace (8 * S (length ws))%nat with (8 * length ws + 8)%nat by lia. rewrite be_enc_app, rev_app_distr. unfold word_bytes.
  change (256 ^ Z.of_nat 8) with (2 ^ 64). unfold word_ok in Hw. f_equal.
  - f_equal. rewrite <- (be_enc_mod 8 (w + _)). change (256 ^ Z.of_nat 8) with (2 ^ 64).
    rewrite Z.mul_comm, Z_mod_plus_full, Z.mod_small by lia. reflexivity.
  - do 2 f_equal. rewrite Z.mul_comm, Z.div_add by lia. rewrite Z.div_small by lia. lia.
Qed.

Lemma u64_word_ok x : word_ok (u64 x).
Proof. apply wrap_range. lia. Qed.

Lemma word_land x : word_ok x -> Z.land x BN_MASK2 = x.
Proof. intros H. change BN_MASK2 with (Z.ones 64). rewrite Z.land_ones by lia. apply Z.mod_small. exact H. Qed.

(** ** Unrolling changes nothing *)

Section UnrolledLemmas.
Context {A : Type} (step : Z -> A -> Z * Z).

Lemma unrolled_single l : forall c, unrolled_loop step c l = single_loop step c l.
Proof.
  assert (G : forall n l c, (length l <= n)%nat -> unrolled_loop step c l = single_loop step c l).
  { induction n as [| n IH]; intros [| x0 [| x1 [| x2 [| x3 rest]]]] c H; try reflexivity; [cbn in H; lia |].
    cbn [unrolled_loop single_loop]. destruct (step c x0) as [r0 c0]. destruct (step c0 x1) as [r1 c1].
    destruct (step c1 x2) as [r2 c2]. destruct (step c2 x3) as [r3 c3]. rewrite IH by (cbn in H; lia).
    now destruct (single_loop step c3 rest). }
  intros c. now apply (G (length l)).
Qed.

(** A step that conserves value: the word and the signed new carry are what the
    element and the old carry add up to. *)
Variables (f : A -> Z) (s : Z) (elem_ok : A -> Prop) (carry_ok : Z -> Prop).
Hypothesis step_ok : forall c x r c', carry_ok c -> elem_ok x -> step c x = (r, c') ->
  word_ok r /\ carry_ok c' /\ r + s * (2 ^ 64 * c') = f x + s * c.

Lemma single_loop_value l : forall c out c', carry_ok c -> Forall elem_ok l -> single_loop step c l = (out, c') ->
  length out = length l /\ words_ok out /\ carry_ok c' /\
  le_val out + s * (base (length l) * c') = le_val (map f l) + s * c.
Proof.
  induction l as [| x l IH]; intros c out c' Hc Hl; cbn [single_loop].
  { intros [= <- <-]. cbn [length map le_val]. rewrite base_0. repeat split; [constructor | assumption | lia]. }
  inversion_clear Hl as [| ? ? Hx Hl']. destruct (step c x) as [r c1] eqn:E.
  destruct (step_ok c x r c1 Hc Hx E) as (Hr & Hc1 & Ev).
  destruct (single_loop step c1 l) as [out1 c2] eqn:E1. intros [= <- <-].
  destruct (IH c1 out1 c2 Hc1 Hl' E1) as (H1 & H2 & H3 & H4).
  cbn [length map le_val]. rewrite base_S. repeat split; [now f_equal | now constructor | assumption |].
  replace (s * (2 ^ 64 * base (length l) * c2)) with (2 ^ 64 * (s * (base (length l) * c2))) by ring.
  replace (s * (base (length l) * c2)) with (le_val (map f l) + s * c1 - le_val out1) by lia.
  replace (s * (2 ^ 64 * c1)) with (2 ^ 64 * (s * c1)) in Ev by ring. lia.
Qed.
End UnrolledLemmas.

(** ** Values of the steps *)

Lemma wide_split t : 0 <= t < 2 ^ 128 -> word_ok (Lw t) /\ word_ok (Hw t) /\ Lw t + 2 ^ 64 * Hw t = t.
Proof.
  intros Ht. unfold Lw, Hw, word_ok, wrap. rewrite Z.shiftr_div_pow2 by lia.
  assert (0 <= t / 2 ^ 64 < 2 ^ 64) by (split; [apply Z.div_pos; lia | apply Z.div_lt_upper_bound; lia]).
  rewrite (Z.mod_small (t / 2 ^ 64)) by lia. pose proof (Z.mod_pos_bound t (2 ^ 64)). pose proof (Z.div_mod t (2 ^ 64)). lia.
Qed.

Lemma mul_add_step w : word_ok w -> forall c x r c', word_ok c -> word_ok (fst x) /\ word_ok (snd x) ->
  mul_add w c x = (r, c') -> word_ok r /\ word_ok c' /\ r + 1 * (2 ^ 64 * c') = (w * fst x + snd x) + 1 * c.
Proof.
  intros Hw c [a b] r c' Hc [Ha Hb]. cbn [fst snd] in *. unfold mul_add. cbn [fst snd].
  assert (Ht : 0 <= w * a + b + c < 2 ^ 128) by (unfold word_ok in *; nia).
  rewrite wrap_small by assumption. intros [= <- <-].
  destruct (wide_split _ Ht) as (H1 & H2 & H3). split; [exact H1 | split; [exact H2 | lia]].
Qed.

Lemma mul_step w : word_ok w -> forall c x r c', word_ok c -> word_ok x ->
  mul w c x = (r, c') -> word_ok r /\ word_ok c' /\ r + 1 * (2 ^ 64 * c') = w * x + 1 * c.
Proof.
  intros Hw c a r c' Hc Ha. unfold mul. assert (Ht : 0 <= w * a + c < 2 ^ 128) by (unfold word_ok in *; nia).
  rewrite wrap_small by assumption. intros [= <- <-].
  destruct (wide_split _ Ht) as (H1 & H2 & H3). split; [exact H1 | split; [exact H2 | lia]].
Qed.

Definition bit_ok (c : Z) : Prop := c = 0 \/ c = 1.

Lemma add_ullong_step c x r c' : bit_ok c -> word_ok (fst x) /\ word_ok (snd x) ->
  add_ullong c x = (r, c') -> word_ok r /\ bit_ok c' /\ r + 1 * (2 ^ 64 * c') = (fst x + snd x) + 1 * c.
Proof.
  destruct x as [a b]. cbn [fst snd]. intros Hc [Ha Hb]. unfold add_ullong. cbn [fst snd].
  unfold word_ok, bit_ok in *. rewrite (wrap_small 128) by lia. rewrite word_land by (apply wrap_range; lia).
  rewrite Z.shiftr_div_pow2 by lia. intros [= <- <-]. unfold wrap.
  pose proof (Z.mod_pos_bound (c + (a + b)) (2 ^ 64)). pose proof (Z.div_mod (c + (a + b)) (2 ^ 64)).
  assert (c + (a + b) < 2 * 2 ^ 64) by lia. lia.
Qed.

Lemma add_carry_step c x r c' : bit_ok c -> word_ok (fst x) /\ word_ok (snd x) ->
  add_carry c x = (r, c') -> word_ok r /\ bit_ok c' /\ r + 1 * (2 ^ 64 * c') = (fst x + snd x) + 1 * c.
Proof.
  destruct x as [a b]. cbn [fst snd]. intros Hc [Ha Hb]. unfold add_carry. cbn [fst snd].
  rewrite !word_land by (apply wrap_range; lia). unfold word_ok, bit_ok in *.
  set (t := u64 (a + c)). assert (Et : t = a + c /\ a + c < 2 ^ 64 \/ t = 0 /\ c = 1 /\ a = 2 ^ 64 - 1) by (unfold t; word_lia).
  clearbody t. set (l := u64 (t + b)).
  assert (El : l = t + b /\ t + b < 2 ^ 64 \/ l = t + b - 2 ^ 64 /\ 2 ^ 64 <= t + b) by (unfold l; word_lia).
  clearbody l. intros [= <- <-].
  destruct (Z.ltb_spec t c), (Z.ltb_spec l t); cbn [b2z]; try rewrite (wrap_small 64) by lia; lia.
Qed.

Lemma sub_borrow_step c x r c' : bit_ok c -> word_ok (fst x) /\ word_ok (snd x) ->
  sub_borrow c x = (r, c') -> word_ok r /\ bit_ok c' /\ r + (-1) * (2 ^ 64 * c') = (fst x - snd x) + (-1) * c.
Proof.
  destruct x as [a b]. cbn [fst snd]. intros Hc [Ha Hb]. unfold sub_borrow.
  rewrite !word_land by (apply wrap_range; lia). unfold word_ok, bit_ok in *.
  set (t := u64 (a - b - c)).
  assert (Et : t = a - b - c /\ 0 <= a - b - c \/ t = a - b - c + 2 ^ 64 /\ a - b - c < 0) by (unfold t; word_lia).
  assert (Ht : 0 <= t < 2 ^ 64) by lia.
  clearbody t. intros [= <- <-].
  destruct (Z.eqb_spec a b); cbn [negb]; [lia |]. destruct (Z.ltb_spec a b); cbn [b2z]; lia.
Qed.

(** ** Lists of pairs *)

Lemma combine_ok a b n : words_ok a -> words_ok b -> (n <= length a)%nat -> (n <= length b)%nat ->
  Forall (fun x => word_ok (fst x) /\ word_ok (snd x)) (combine (firstn n a) (firstn n b)) /\
  length (combine (firstn n a) (firstn n b)) = n.
Proof.
  intros Ha Hb La Lb. split; [| rewrite length_combine, !length_firstn; lia].
  apply Forall_forall. intros [x y] Hin.
  pose proof (in_combine_l _ _ _ _ Hin) as Hx. pose proof (in_combine_r _ _ _ _ Hin) as Hy.
  assert (F : forall l z, words_ok l -> In z (firstn n l) -> word_ok z).
  { intros l z Hl Hz. apply (proj1 (Forall_forall _ _) Hl). rewrite <- (firstn_skipn n l). apply in_or_app. now left. }
  split; [now apply (F a) | now apply (F b)].
Qed.

Lemma le_val_map_add a : forall b, length a = length b ->
  le_val (map (fun x => fst x + snd x) (combine a b)) = le_val a + le_val b.
Proof. induction a as [| x a IH]; intros [| y b] H; try discriminate; [reflexivity |]. cbn [combine map le_val fst snd]. rewrite IH by now injection H. lia. Qed.

Lemma le_val_map_sub a : forall b, length a = length b ->
  le_val (map (fun x => fst x - snd x) (combine a b)) = le_val a - le_val b.
Proof. induction a as [| x a IH]; intros [| y b] H; try discriminate; [reflexivity |]. cbn [combine map le_val fst snd]. rewrite IH by now injection H. lia. Qed.

Lemma le_val_map_mul_add w a : forall b, length a = length b ->
  le_val (map (fun x => w * fst x + snd x) (combine a b)) = w * le_val a + le_val b.
Proof. induction a as [| x a IH]; intros [| y b] H; try discriminate; [cbn; lia |]. cbn [combine map le_val fst snd]. rewrite IH by now injection H. lia. Qed.

Lemma le_val_map_mul w a : le_val (map (fun x => w * x) a) = w * le_val a.
Proof. induction a as [| x a IH]; [cbn; lia |]. cbn [map le_val]. rewrite IH. lia. Qed.

Lemma words_ok_firstn n l : words_ok l -> words_ok (firstn n l).
Proof. intros H. rewrite <- (firstn_skipn n l) in H. now apply Forall_app in H. Qed.

Lemma words_ok_skipn n l : words_ok l -> words_ok (skipn n l).
Proof. intros H. rewrite <- (firstn_skipn n l) in H. now apply Forall_app in H. Qed.

#[export] Hint Resolve words_ok_firstn words_ok_skipn : bytes.

(** ** Values of the routines *)

Section Routines.
Variables (a b : list Z) (n : nat).
Hypotheses (Ha : words_ok a) (Hb : words_ok b) (La : (n <= length a)%nat) (Lb : (n <= length b)%nat).

Lemma first_lengths : length (firstn n a) = length (firstn n b).
Proof. rewrite !length_firstn. lia. Qed.

Lemma add_words_value r c : bn_add_words a b n = (r, c) ->
  length r = n /\ words_ok r /\ bit_ok c /\ le_val r + base n * c = le_val (firstn n a) + le_val (firstn n b).
Proof.
  unfold bn_add_words. destruct (Nat.leb_spec n 0).
  { intros [= <- <-]. replace n with 0%nat by lia. cbn. repeat split; [constructor | left; lia]. }
  destruct (combine_ok a b n Ha Hb La Lb) as [Hc Lc]. rewrite unrolled_single.
  destruct (single_loop add_ullong 0 _) as [out ll] eqn:E. intros [= <- <-].
  destruct (single_loop_value add_ullong (fun x => fst x + snd x) 1 _ bit_ok add_ullong_step _ 0 out ll (or_introl eq_refl) Hc E)
    as (H1 & H2 & H3 & H4).
  rewrite Lc in *. rewrite le_val_map_add in H4 by apply first_lengths.
  rewrite (wrap_small 64) by (destruct H3 as [-> | ->]; lia). repeat split; try assumption. lia.
Qed.

Lemma add_words_no_ullong_value r c : bn_add_words_no_ullong a b n = (r, c) ->
  length r = n /\ words_ok r /\ bit_ok c /\ le_val r + base n * c = le_val (firstn n a) + le_val (firstn n b).
Proof.
  unfold bn_add_words_no_ullong. destruct (Nat.leb_spec n 0).
  { intros [= <- <-]. replace n with 0%nat by lia. cbn. repeat split; [constructor | left; lia]. }
  destruct (combine_ok a b n Ha Hb La Lb) as [Hc Lc]. rewrite unrolled_single. intros E.
  destruct (single_loop_value add_carry (fun x => fst x + snd x) 1 _ bit_ok add_carry_step _ 0 r c (or_introl eq_refl) Hc E)
    as (H1 & H2 & H3 & H4).
  rewrite Lc in *. rewrite le_val_map_add in H4 by apply first_lengths. repeat split; try assumption. lia.
Qed.

Lemma sub_words_value r c : bn_sub_words a b n = (r, c) ->
  length r = n /\ words_ok r /\ bit_ok c /\ le_val r - base n * c = le_val (firstn n a) - le_val (firstn n b).
Proof.
  unfold bn_sub_words. destruct (Nat.leb_spec n 0).
  { intros [= <- <-]. replace n with 0%nat by lia. cbn. repeat split; [constructor | left; lia]. }
  destruct (combine_ok a b n Ha Hb La Lb) as [Hc Lc]. rewrite unrolled_single. intros E.
  destruct (single_loop_value sub_borrow (fun x => fst x - snd x) (-1) _ bit_ok sub_borrow_step _ 0 r c (or_introl eq_refl) Hc E)
    as (H1 & H2 & H3 & H4).
  rewrite Lc in *. rewrite le_val_map_sub in H4 by apply first_lengths. repeat split; try assumption. lia.
Qed.

Lemma mul_add_words_value w r c : word_ok w -> bn_mul_add_words b a n w = (r, c) ->
  length r = n /\ words_ok r /\ word_ok c /\ le_val r + base n * c = w * le_val (firstn n a) + le_val (firstn n b).
Proof.
  intros Hw. unfold bn_mul_add_words. destruct (Nat.leb_spec n 0).
  { intros [= <- <-]. replace n with 0%nat by lia. cbn. repeat split; try constructor; lia. }
  destruct (combine_ok a b n Ha Hb La Lb) as [Hc Lc]. rewrite unrolled_single. intros E.
  destruct (single_loop_value (mul_add w) (fun x => w * fst x + snd x) 1 _ word_ok (mul_add_step w Hw) _ 0 r c ltac:(unfold word_ok; lia) Hc E)
    as (H1 & H2 & H3 & H4).
  rewrite Lc in *. rewrite le_val_map_mul_add in H4 by apply first_lengths. repeat split; try assumption; try apply H3. lia.
Qed.

Lemma mul_words_value w r c : word_ok w -> bn_mul_words a n w = (r, c) ->
  length r = n /\ words_ok r /\ word_ok c /\ le_val r + base n * c = w * le_val (firstn n a).
Proof.
  intros Hw. unfold bn_mul_words. destruct (Nat.leb_spec n 0).
  { intros [= <- <-]. replace n with 0%nat by lia. cbn. repeat split; try constructor; lia. }
  rewrite unrolled_single. intros E.
  destruct (single_loop_value (mul w) (fun x => w * x) 1 word_ok word_ok (mul_step w Hw) _ 0 r c ltac:(unfold word_ok; lia) (words_ok_firstn n a Ha) E)
    as (H1 & H2 & H3 & H4).
  rewrite le_val_map_mul in H4. rewrite length_firstn in *. replace (Nat.min n (length a)) with n in * by lia.
  repeat split; try assumption; try apply H3. lia.
Qed.
End Routines.

(** The sum of the squares of the words at even positions. *)
Fixpoint sqr_val (l : list Z) : Z :=
  match l with [] => 0 | x :: l => x * x + 2 ^ 128 * sqr_val l end.

Lemma sqr_unrolled_single l : sqr_unrolled l = sqr_single l.
Proof.
  assert (G : forall n l, (length l <= n)%nat -> sqr_unrolled l = sqr_single l).
  { induction n as [| n IH]; intros [| x0 [| x1 [| x2 [| x3 rest]]]] H; try reflexivity; [cbn in H; lia |].
    cbn [sqr_unrolled sqr_single]. destruct (sqr x0), (sqr x1), (sqr x2), (sqr x3). now rewrite IH by (cbn in H; lia). }
  now apply (G (length l)).
Qed.

Lemma sqr_words_value a n : words_ok a -> (n <= length a)%nat ->
  length (bn_sqr_words a n) = (2 * n)%nat /\ words_ok (bn_sqr_words a n) /\
  le_val (bn_sqr_words a n) = sqr_val (firstn n a).
Proof.
  intros Ha La. unfold bn_sqr_words. destruct (Nat.leb_spec n 0).
  { replace n with 0%nat by lia. cbn. repeat split. constructor. }
  rewrite sqr_unrolled_single. pose proof (words_ok_firstn n a Ha) as Hf.
  replace n with (length (firstn n a)) at 2 by (rewrite length_firstn; lia).
  induction Hf as [| x l Hx Hl IH]; [repeat split; constructor |].
  cbn [sqr_single length sqr_val]. unfold sqr at 1 2 3.
  assert (Ht : 0 <= x * x < 2 ^ 128) by (unfold word_ok in *; nia). rewrite wrap_small by assumption.
  destruct (wide_split _ Ht) as (H1 & H2 & H3). destruct IH as (I1 & I2 & I3).
  cbn [length le_val]. rewrite I1, I3. repeat split; [lia | repeat constructor; try apply H1; try apply H2; exact I2 | lia].
Qed.

Lemma word_get l i : words_ok l -> word_ok (get l i).
Proof.
  intros H. unfold get. destruct (Nat.lt_ge_cases (Z.to_nat i) (length l)).
  - apply (proj1 (Forall_nth _ _) H). assumption.
  - rewrite nth_overflow by assumption. unfold word_ok. lia.
Qed.

Lemma firstn_S_get (l : list Z) n : (n < length l)%nat -> firstn (S n) l = firstn n l ++ [get l (Z.of_nat n)].
Proof.
  intros H. pose proof (take_succ (Z.of_nat n) l ltac:(unfold len; lia)) as E. unfold take in E.
  rewrite Nat2Z.id in E. replace (Z.to_nat (Z.of_nat n + 1)) with (S n) in E by lia. exact E.
Qed.

Lemma cmp_words_loop_value a b n : words_ok a -> words_ok b -> (n <= length a)%nat -> (n <= length b)%nat ->
  cmp_words_loop a b n = Z.sgn (le_val (firstn n a) - le_val (firstn n b)).
Proof.
  intros Ha Hb. induction n as [| n IH]; intros La Lb; [reflexivity |]. cbn [cmp_words_loop].
  rewrite !firstn_S_get, !le_val_app, !length_firstn by lia. cbn [le_val].
  replace (Nat.min n (length a)) with n by lia. replace (Nat.min n (length b)) with n by lia.
  pose proof (le_val_range _ (words_ok_firstn n a Ha)) as Ra. pose proof (le_val_range _ (words_ok_firstn n b Hb)) as Rb.
  rewrite length_firstn in Ra, Rb. replace (Nat.min n (length a)) with n in Ra by lia. replace (Nat.min n (length b)) with n in Rb by lia.
  set (x := get a (Z.of_nat n)). set (y := get b (Z.of_nat n)).
  destruct (Z.eqb_spec x y) as [E | E]; cbn [negb].
  - rewrite IH by lia. f_equal. rewrite E. ring.
  - destruct (Z.ltb_spec y x); symmetry; [apply Z.sgn_pos | apply Z.sgn_neg]; nia.
Qed.

Lemma cmp_words_value a b n : words_ok a -> words_ok b -> (1 <= n <= length a)%nat -> (n <= length b)%nat ->
  bn_cmp_words a b n = Z.sgn (le_val (firstn n a) - le_val (firstn n b)).
Proof.
  intros Ha Hb Hn Lb. rewrite <- cmp_words_loop_value by (assumption || lia).
  destruct n as [| n]; [lia |]. unfold bn_cmp_words. cbn [cmp_words_loop].
  replace (S n - 1)%nat with n by lia. replace (Z.of_nat (S n) - 1) with (Z.of_nat n) by lia. reflexivity.
Qed.

(** The words of [l] from [n] on that a partial comparison looks at. *)
Lemma any_high_word l n k : words_ok l -> (n + k <= length l)%nat ->
  le_val (firstn (n + k) l) = le_val (firstn n l) + base n * le_val (firstn k (skipn n l)) /\
  existsb (fun i => negb (get l (Z.of_nat i) =? 0)) (rev (seq n k)) = (0 <? le_val (firstn k (skipn n l))).
Proof.
  intros Hl Hlen. split.
  { pose proof (take_plus (Z.of_nat n) (Z.of_nat k) l ltac:(lia) ltac:(lia)) as E. unfold take, drop in E.
    rewrite !Nat2Z.id in E. replace (Z.to_nat (Z.of_nat n + Z.of_nat k)) with (n + k)%nat in E by lia.
    rewrite E, le_val_app, length_firstn. now replace (Nat.min n (length l)) with n by lia. }
  pose proof (words_ok_skipn n l Hl) as Hs.
  induction k as [| k IH]; [reflexivity |]. rewrite seq_S, rev_app_distr. cbn [rev app existsb]. rewrite IH by lia.
  rewrite firstn_S_get by (rewrite length_skipn; lia). rewrite le_val_app, length_firstn, length_skipn. cbn [le_val].
  replace (Nat.min k (length l - n)) with k by lia.
  assert (E : get (skipn n l) (Z.of_nat k) = get l (Z.of_nat (n + k))).
  { unfold get. rewrite nth_skipn. f_equal. lia. }
  rewrite E. pose proof (le_val_range _ (words_ok_firstn k _ Hs)) as R. pose proof (word_get l (Z.of_nat (n + k)) Hl) as W. unfold word_ok in W.
  pose proof (base_pos k). destruct (Z.eqb_spec (get l (Z.of_nat (n + k))) 0) as [-> | Nz]; cbn [negb orb]; [f_equal; lia |].
  symmetry. apply Z.ltb_lt. nia.
Qed.

Lemma cmp_part_words_value a b n k : words_ok a -> words_ok b -> (1 <= n)%nat ->
  ((n + k <= length a)%nat -> (n <= length b)%nat ->
    bn_cmp_part_words a b n (Z.of_nat k) = Z.sgn (le_val (firstn (n + k) a) - le_val (firstn n b))) /\
  ((n <= length a)%nat -> (n + k <= length b)%nat ->
    bn_cmp_part_words a b n (- Z.of_nat k) = Z.sgn (le_val (firstn n a) - le_val (firstn (n + k) b))).
Proof.
  intros Ha Hb Hn. pose proof (le_val_range _ (words_ok_firstn n a Ha)) as Ra. pose proof (le_val_range _ (words_ok_firstn n b Hb)) as Rb.
  rewrite length_firstn in Ra, Rb. split; intros La Lb.
  - destruct (any_high_word a n k Ha La) as [-> X]. unfold bn_cmp_part_words.
    destruct (Z.ltb_spec (Z.of_nat k) 0); [lia |]. rewrite Nat2Z.id, X. cbn [andb].
    pose proof (le_val_range _ (words_ok_firstn k _ (words_ok_skipn n a Ha))). replace (Nat.min n (length b)) with n in Rb by lia.
    replace (Nat.min n (length a)) with n in Ra by lia.
    destruct (Z.ltb_spec 0 (Z.of_nat k)), (Z.ltb_spec 0 (le_val (firstn k (skipn n a)))) as [V | V]; cbn [andb].
    1: symmetry; apply Z.sgn_pos; nia.
    2: assert (k = 0%nat) as -> by lia; cbn in V; lia.
    all: rewrite cmp_words_value by (assumption || lia); f_equal; nia.
  - destruct (any_high_word b n k Hb Lb) as [-> X]. unfold bn_cmp_part_words.
    rewrite Z.opp_involutive, Nat2Z.id, X.
    pose proof (le_val_range _ (words_ok_firstn k _ (words_ok_skipn n b Hb))). replace (Nat.min n (length a)) with n in Ra by lia.
    replace (Nat.min n (length b)) with n in Rb by lia. destruct (Z.ltb_spec 0 (- Z.of_nat k)); [lia |].
    destruct (Z.ltb_spec (- Z.of_nat k) 0), (Z.ltb_spec 0 (le_val (firstn k (skipn n b)))) as [V | V]; cbn [andb].
    1: symmetry; apply Z.sgn_neg; nia.
    2: assert (k = 0%nat) as -> by lia; cbn in V; lia.
    all: rewrite cmp_words_value by (assumption || lia); f_equal; nia.
Qed.

(** C39: word-array arithmetic is exact. The unrolled sum and difference of [n]
    words come with their carry and borrow, the two implementations of addition
    (128-bit accumulator, or carries recovered by comparisons) agree, and
    comparison, of equal or different lengths, gives the sign of the difference.
    Multiplication by a word, with and without accumulation, has its high word as
    carry, and squaring gives every word's square at its place. *)
Theorem bn_words_exact :
  (forall a b n,
    words_ok a -> words_ok b -> (n <= length a)%nat -> (n <= length b)%nat ->
      (let (r, c) := bn_add_words a b n in
       length r = n /\ words_ok r /\ bit_ok c /\ le_val r + base n * c = le_val (firstn n a) + le_val (firstn n b)) /\
      bn_add_words_no_ullong a b n = bn_add_words a b n /\
      (let (r, c) := bn_sub_words a b n in
       length r = n /\ words_ok r /\ bit_ok c /\ le_val r - base n * c = le_val (firstn n a) - le_val (firstn n b)) /\
      ((1 <= n)%nat -> bn_cmp_words a b n = Z.sgn (le_val (firstn n a) - le_val (firstn n b)) /\
       (forall k, (n + k <= length a)%nat -> bn_cmp_part_words a b n (Z.of_nat k) = Z.sgn (le_val (firstn (n + k) a) - le_val (firstn n b))) /\
       (forall k, (n + k <= length b)%nat -> bn_cmp_part_words a b n (- Z.of_nat k) = Z.sgn (le_val (firstn n a) - le_val (firstn (n + k) b))))) /\
  (forall a b n w,
    words_ok a -> words_ok b -> (n <= length a)%nat -> (n <= length b)%nat -> word_ok w ->
      (let (r, c) := bn_mul_words a n w in
       length r = n /\ words_ok r /\ word_ok c /\ le_val r + base n * c = w * le_val (firstn n a)) /\
      (let (r, c) := bn_mul_add_words b a n w in
       length r = n /\ words_ok r /\ word_ok c /\ le_val r + base n * c = w * le_val (firstn n a) + le_val (firstn n b)) /\
      length (bn_sqr_words a n) = (2 * n)%nat /\ words_ok (bn_sqr_words a n) /\
      le_val (bn_sqr_words a n) = sqr_val (firstn n a)).
Proof.
  split.
  { intros a b n Ha Hb La Lb.
    destruct (bn_add_words a b n) as [r c] eqn:E1. pose proof (add_words_value a b n Ha Hb La Lb r c E1) as H1.
    destruct (bn_add_words_no_ullong a b n) as [r' c'] eqn:E2.
    pose proof (add_words_no_ullong_value a b n Ha Hb La Lb r' c' E2) as H2.
    destruct (bn_sub_words a b n) as [q d] eqn:E3. pose proof (sub_words_value a b n Ha Hb La Lb q d E3) as H3.
    split; [exact H1 |]. split; [| split; [exact H3 |]].
    2: { intros Hn. split; [apply cmp_words_value; (assumption || lia) |].
         split; intros k Hk; now apply cmp_part_words_value. }
    destruct H1 as (L1 & W1 & C1 & V1), H2 as (L2 & W2 & C2 & V2).
    pose proof (le_val_range r W1) as R1. pose proof (le_val_range r' W2) as R2. rewrite L1 in R1. rewrite L2 in R2.
    assert (c' = c) as -> by (unfold bit_ok in *; nia). f_equal. apply le_val_inj; try assumption; lia. }
  { intros a b n w Ha Hb La Lb Hw.
    destruct (bn_mul_words a n w) as [r c] eqn:E1. destruct (bn_mul_add_words b a n w) as [r' c'] eqn:E2.
    split; [eapply mul_words_value; eassumption | split; [now apply (mul_add_words_value a b n) | now apply sqr_words_value]]. }
Qed.

Lemma bn_words_exact_witness :
  (let a := [2 ^ 64 - 1; 2 ^ 64 - 1; 1; 2; 3] in
    let b := [1; 0; 5; 6; 2 ^ 64 - 1] in
    (let (r, c) := bn_add_words a b 5 in
     length r = 5%nat /\ words_ok r /\ bit_ok c /\ le_val r + base 5 * c = le_val (firstn 5 a) + le_val (firstn 5 b)) /\
    bn_add_words_no_ullong a b 5 = bn_add_words a b 5 /\
    (let (r, c) := bn_sub_words a b 5 in
     length r = 5%nat /\ words_ok r /\ bit_ok c /\ le_val r - base 5 * c = le_val (firstn 5 a) - le_val (firstn 5 b)) /\
    ((1 <= 5)%nat -> bn_cmp_words a b 5 = Z.sgn (le_val (firstn 5 a) - le_val (firstn 5 b)) /\
     (forall k, (5 + k <= length a)%nat -> bn_cmp_part_words a b 5 (Z.of_nat k) = Z.sgn (le_val (firstn (5 + k) a) - le_val (firstn 5 b))) /\
     (forall k, (5 + k <= length b)%nat -> bn_cmp_part_words a b 5 (- Z.of_nat k) = Z.sgn (le_val (firstn 5 a) - le_val (firstn (5 + k) b))))) /\
  (let a := [2 ^ 64 - 1; 2 ^ 64 - 1; 1; 2; 3] in
    let b := [1; 0; 5; 6; 2 ^ 64 - 1] in
    let w := 2 ^ 64 - 1 in
    (let (r, c) := bn_mul_words a 5 w in
     length r = 5%nat /\ words_ok r /\ word_ok c /\ le_val r + base 5 * c = w * le_val (firstn 5 a)) /\
    (let (r, c) := bn_mul_add_words b a 5 w in
     length r = 5%nat /\ words_ok r /\ word_ok c /\ le_val r + base 5 * c = w * le_val (firstn 5 a) + le_val (firstn 5 b)) /\
    length (bn_sqr_words a 5) = (2 * 5)%nat /\ words_ok (bn_sqr_words a 5) /\
    le_val (bn_sqr_words a 5) = sqr_val (firstn 5 a)).
Proof.
  split.
  { apply (proj1 bn_words_exact [2 ^ 64 - 1; 2 ^ 64 - 1; 1; 2; 3] [1; 0; 5; 6; 2 ^ 64 - 1] 5%nat).
    - repeat constructor; unfold word_ok; lia.
    - repeat constructor; unfold word_ok; lia.
    - cbn. lia.
    - cbn. lia. }
  { apply (proj2 bn_words_exact [2 ^ 64 - 1; 2 ^ 64 - 1; 1; 2; 3] [1; 0; 5; 6; 2 ^ 64 - 1] 5%nat (2 ^ 64 - 1)).
    - repeat constructor; unfold word_ok; lia.
    - repeat constructor; unfold word_ok; lia.
    - cbn. lia.
    - cbn. lia.
    - unfold word_ok. lia. }
Defined.
