(* ===== verification/Bignum.v ===== *)
(** * Big integers (crypto/fipsmodule/bn: bn.c, cmp.c, add.c)

    A [BIGNUM] is its array of words [d] ([dmax] is its length), the number
    [top] of words in use, and a sign. Operands and result are passed by value:
    a routine that is called with [r] the same object as an operand reads every
    word before it overwrites it. *)

From S2P Require Import Prelude Buffers ConstTime Cbs BnWords.

Record BIGNUM := mk_bn {
  d : list Z;
  top : Z;
  neg : bool;
  is_static : bool  (** [flags & BN_FLG_STATIC_DATA] *)
}.

Definition dmax (bn : BIGNUM) : Z := len (d bn).
Definition words (bn : BIGNUM) : list Z := take (top bn) (d bn).
Definition with_neg (bn : BIGNUM) (n : bool) : BIGNUM := mk_bn (d bn) (top bn) n (is_static bn).

(** The words [l] written from [d[0]] on, with a new [top]. *)
Definition put_words (bn : BIGNUM) (l : list Z) (t : Z) : BIGNUM :=
  mk_bn (splice (d bn) 0 l) t (neg bn) (is_static bn).

(** ** cmp.c *)

(** [for (i = top - 1; i >= 0; i--)] of [BN_ucmp]. *)
Fixpoint ucmp_loop (ap bp : list Z) (n : nat) : Z :=
  match n with
  | O => 0
  | S i =>
      let t1 := get ap (Z.of_nat i) in
      let t2 := get bp (Z.of_nat i) in
      if negb (t1 =? t2) then (if t2 <? t1 then 1 else -1) else ucmp_loop ap bp i
  end.

Definition BN_ucmp (a b : BIGNUM) : Z :=
  let i := top a - top b in
  if negb (i =? 0) then i else ucmp_loop (d a) (d b) (Z.to_nat (top a)).

Fixpoint cmp_loop (ap bp : list Z) (gt lt : Z) (n : nat) : Z :=
  match n with
  | O => 0
  | S i =>
      let t1 := get ap (Z.of_nat i) in
      let t2 := get bp (Z.of_nat i) in
      if t2 <? t1 then gt else if t1 <? t2 then lt else cmp_loop ap bp gt lt i
  end.

(** The arguments may be NULL. *)
Definition BN_cmp (a b : option BIGNUM) : Z :=
  match a, b with
  | None, None => 0
  | Some _, None => -1
  | None, Some _ => 1
  | Some a, Some b =>
      if negb (Bool.eqb (neg a) (neg b)) then (if neg a then -1 else 1) else
      let (gt, lt) := if neg a then (-1, 1) else (1, -1) in
      if top b <? top a then gt else
      if top a <? top b then lt else
      cmp_loop (d a) (d b) gt lt (Z.to_nat (top a))
  end.

Definition BN_is_zero (bn : BIGNUM) : bool := top bn =? 0.

Definition BN_abs_is_word (bn : BIGNUM) (w : Z) : bool :=
  if top bn =? 1 then get (d bn) 0 =? w else if top bn =? 0 then w =? 0 else false.

Definition BN_is_one (bn : BIGNUM) : bool := negb (neg bn) && BN_abs_is_word bn 1.
Definition BN_is_word (bn : BIGNUM) (w : Z) : bool := BN_abs_is_word bn w && ((w =? 0) || negb (neg bn)).
Definition BN_is_odd (bn : BIGNUM) : bool := (0 <? top bn) && (Z.land (get (d bn) 0) 1 =? 1).

(** [b_bn]: one word on the stack. *)
Definition BN_cmp_word (a : BIGNUM) (b : Z) : Z :=
  BN_cmp (Some a) (Some (mk_bn [b] (b2z (0 <? b)) false true)).

Definition BN_is_pow2 (bn : BIGNUM) : bool :=
  if (top bn =? 0) || neg bn then false else
  if negb (forallb (fun x => x =? 0) (take (top bn - 1) (d bn))) then false else
  Z.land (get (d bn) (top bn - 1)) (get (d bn) (top bn - 1) - 1) =? 0.

(** [CRYPTO_memcmp] of [top] words of memory. *)
Definition BN_equal_consttime (a b : BIGNUM) : bool :=
  if negb (top a =? top b) then false else
  let limbs_are_equal :=
    CRYPTO_memcmp (take (8 * top a) (mem_bytes (d a))) (take (8 * top a) (mem_bytes (d b))) =? 0 in
  negb (constant_time_select_int (constant_time_eq_int (b2z (neg a)) (b2z (neg b))) (b2z limbs_are_equal) 0 =? 0).

(** ** bn.c *)

Definition BN_is_negative (bn : BIGNUM) : bool := neg bn.

Definition BN_clear (bn : BIGNUM) : BIGNUM := mk_bn (repeat 0 (length (d bn))) 0 false (is_static bn).

Definition BN_zero (bn : BIGNUM) : BIGNUM := mk_bn (d bn) 0 false (is_static bn).

Definition BN_set_negative (bn : BIGNUM) (sign : bool) : BIGNUM :=
  with_neg bn (sign && negb (BN_is_zero bn)).

Fixpoint correct_top_loop (l : list Z) (tmp_top : nat) : nat :=
  match tmp_top with
  | O => O
  | S t => if negb (get l (Z.of_nat t) =? 0) then tmp_top else correct_top_loop l t
  end.

Definition bn_correct_top (bn : BIGNUM) : BIGNUM :=
  let bn := if 0 <? top bn
            then mk_bn (d bn) (Z.of_nat (correct_top_loop (d bn) (Z.to_nat (top bn)))) (neg bn) (is_static bn)
            else bn in
  if top bn =? 0 then with_neg bn false else bn.

Section Bignum.

(** Whether [OPENSSL_malloc] of so many bytes succeeds, and what fresh memory
    of so many words holds. *)
Variable alloc_ok : Z -> bool.
Variable uninit : Z -> list Z.

Definition bn_wexpand (bn : BIGNUM) (n : Z) : bool * BIGNUM :=
  if n <=? dmax bn then (true, bn) else
  if INT_MAX / (4 * 64) <? n then (false, bn) else
  if is_static bn then (false, bn) else
  if negb (alloc_ok (8 * n)) then (false, bn) else
  (true, mk_bn (splice (uninit n) 0 (words bn)) (top bn) (neg bn) (is_static bn)).

(** [sizeof(BIGNUM)]: a pointer and four [int]s. *)
Definition BN_new : option BIGNUM :=
  guard (alloc_ok 24) in Some (mk_bn [] 0 false false).

Definition bn_expand (bn : BIGNUM) (bits : Z) : bool * BIGNUM :=
  if u64 (u64 (bits + 64) - 1) <? bits then (false, bn) else
  bn_wexpand bn (u64 (u64 (bits + 64) - 1) / 64).

Definition BN_set_word (bn : BIGNUM) (value : Z) : bool * BIGNUM :=
  if value =? 0 then (true, BN_zero bn) else
  let (ok, bn) := bn_wexpand bn 1 in
  if negb ok then (false, bn) else
  (true, mk_bn (set (d bn) 0 value) 1 false (is_static bn)).

Definition BN_one (bn : BIGNUM) : bool * BIGNUM := BN_set_word bn 1.
Definition BN_set_u64 (bn : BIGNUM) (value : Z) : bool * BIGNUM := BN_set_word bn value.

Definition bn_set_words (bn : BIGNUM) (l : list Z) : bool * BIGNUM :=
  let (ok, bn) := bn_wexpand bn (len l) in
  if negb ok then (false, bn) else
  (true, with_neg (bn_correct_top (put_words bn l (len l))) false).

(** [BN_copy] of distinct objects. *)
Definition BN_copy (dest src : BIGNUM) : bool * BIGNUM :=
  let (ok, dest) := bn_wexpand dest (top src) in
  if negb ok then (false, dest) else
  (true, with_neg (put_words dest (words src) (top src)) (neg src)).

Definition BN_dup (src : option BIGNUM) : option BIGNUM :=
  let* src := src in
  let* copy := BN_new in
  let (ok, copy) := BN_copy copy src in
  guard ok in Some copy.

(** ** add.c *)

(** The carry running into the longer operand: the words written, those left
    to copy, and whether the carry comes out at the end. *)
Fixpoint uadd_carry (ap : list Z) : list Z * list Z * bool :=
  match ap with
  | [] => ([], [], true)
  | t1 :: ap =>
      let t2 := Z.land (u64 (t1 + 1)) BN_MASK2 in
      if negb (t2 =? 0) then ([t2], ap, false) else
      let '(moved, rest, carry) := uadd_carry ap in (t2 :: moved, rest, carry)
  end.

Definition BN_uadd (r a b : BIGNUM) : bool * BIGNUM :=
  let (a, b) := if top a <? top b then (b, a) else (a, b) in
  let max := top a in
  let min := top b in
  let (ok, r) := bn_wexpand r (max + 1) in
  if negb ok then (false, r) else
  let (low, carry) := bn_add_words (words a) (words b) (Z.to_nat min) in
  let high := drop min (words a) in
  let '(moved, rest, carry) := if negb (carry =? 0) then uadd_carry high else ([], high, false) in
  let l := low ++ moved ++ (if carry then [1] else []) ++ rest in
  (true, with_neg (put_words r l (max + b2z carry)) false).

(** One word of [BN_usub]. *)
Definition usub_step (carry : Z) (t : Z * Z) : Z * Z :=
  let (t1, t2) := t in
  if negb (carry =? 0) then (Z.land (Z.land (u64 (t1 - t2 - 1)) BN_MASK2) BN_MASK2, b2z (t1 <=? t2))
  else (Z.land (Z.land (u64 (t1 - t2)) BN_MASK2) BN_MASK2, b2z (t1 <? t2)).

Fixpoint usub_borrow (ap : list Z) : list Z * list Z :=
  match ap with
  | [] => ([], [])
  | t1 :: ap =>
      let t2 := Z.land (u64 (t1 - 1)) BN_MASK2 in
      if negb (t1 =? 0) then ([t2], ap) else
      let (moved, rest) := usub_borrow ap in (t2 :: moved, rest)
  end.

Definition BN_usub (r a b : BIGNUM) : bool * BIGNUM :=
  let max := top a in
  let min := top b in
  let dif := max - min in
  if dif <? 0 then (false, r) else
  let (ok, r) := bn_wexpand r max in
  if negb ok then (false, r) else
  let (low, carry) := single_loop usub_step 0 (combine (take min (words a)) (words b)) in
  if negb (carry =? 0) && (dif =? 0) then (false, put_words r low (top r)) else
  let high := drop min (words a) in
  let (moved, rest) := if negb (carry =? 0) then usub_borrow high else ([], high) in
  (true, bn_correct_top (with_neg (put_words r (low ++ moved ++ rest) max) false)).

(** [a - b] of magnitudes, with the sign of the result. *)
Definition usub_signed (r a b : BIGNUM) : bool * BIGNUM :=
  if BN_ucmp a b <? 0 then
    let (ok, r) := BN_usub r b a in
    if negb ok then (false, r) else (true, with_neg r true)
  else
    let (ok, r) := BN_usub r a b in
    if negb ok then (false, r) else (true, with_neg r false).

Definition BN_add (r a b : BIGNUM) : bool * BIGNUM :=
  let a_neg := neg a in
  if xorb a_neg (neg b) then
    let (a, b) := if a_neg then (b, a) else (a, b) in
    usub_signed r a b
  else
    let (ret, r) := BN_uadd r a b in (ret, with_neg r a_neg).

Definition BN_sub (r a b : BIGNUM) : bool * BIGNUM :=
  let '(a, b, add, sign) :=
    if neg a then (if neg b then (b, a, false, false) else (a, b, true, true))
    else (if neg b then (a, b, true, false) else (a, b, false, false)) in
  if (add : bool) then
    let (ok, r) := BN_uadd r a b in
    if negb ok then (false, r) else (true, with_neg r sign)
  else
    let max := if top b <? top a then top a else top b in
    let (ok, r) := bn_wexpand r max in
    if negb ok then (false, r) else usub_signed r a b.

(** [for (i = 0; w != 0 && i < a->top; i++)]: the words and the last [w]. *)
Fixpoint add_word_loop (l : list Z) (w : Z) : list Z * Z :=
  match l with
  | [] => ([], w)
  | x :: l =>
      if w =? 0 then (x :: l, w) else
      let y := Z.land (u64 (x + w)) BN_MASK2 in
      let (l, w) := add_word_loop l (if y <? w then 1 else 0) in (y :: l, w)
  end.

(** [for (;;)]: the words, and the index and word where the borrow stops;
    [None] would be a read past the end. *)
Fixpoint sub_word_loop (l : list Z) (w : Z) : option (list Z * Z * Z) :=
  match l with
  | [] => None
  | x :: l =>
      if w <=? x then Some (x - w :: l, 0, x - w) else
      match sub_word_loop l 1 with
      | None => None
      | Some (l, i, z) => Some (Z.land (u64 (x - w)) BN_MASK2 :: l, i + 1, z)
      end
  end.

(** [BN_add_word] and [BN_sub_word] call each other on the absolute value when
    [a] is negative; these are their bodies for [a] not negative. *)
Definition add_word_nonneg (a : BIGNUM) (w : Z) : bool * BIGNUM :=
  if w =? 0 then (true, a) else
  if BN_is_zero a then BN_set_word a w else
  let (l, w) := add_word_loop (words a) w in
  let a := put_words a l (top a) in
  if negb (w =? 0) then
    let (ok, a) := bn_wexpand a (top a + 1) in
    if negb ok then (false, a) else
    (true, mk_bn (set (d a) (top a) w) (top a + 1) (neg a) (is_static a))
  else (true, a).

Definition sub_word_nonneg (a : BIGNUM) (w : Z) : option (bool * BIGNUM) :=
  if w =? 0 then Some (true, a) else
  if BN_is_zero a then
    let (ok, a) := BN_set_word a w in Some (ok, if ok then BN_set_negative a true else a)
  else if (top a =? 1) && (get (d a) 0 <? w) then
    Some (true, mk_bn (set (d a) 0 (u64 (w - get (d a) 0))) (top a) true (is_static a))
  else
    match sub_word_loop (words a) w with
    | None => None
    | Some (l, i, z) =>
        let t := if (z =? 0) && (i =? top a - 1) then top a - 1 else top a in
        Some (true, put_words a l t)
    end.

Definition BN_add_word (a : BIGNUM) (w : Z) : option (bool * BIGNUM) :=
  let w := Z.land w BN_MASK2 in
  if w =? 0 then Some (true, a) else
  if BN_is_zero a then Some (BN_set_word a w) else
  if neg a then
    match sub_word_nonneg (with_neg a false) w with
    | None => None
    | Some (i, a) => Some (i, if negb (BN_is_zero a) then with_neg a (negb (neg a)) else a)
    end
  else Some (add_word_nonneg a w).

Definition BN_sub_word (a : BIGNUM) (w : Z) : option (bool * BIGNUM) :=
  let w := Z.land w BN_MASK2 in
  if w =? 0 then Some (true, a) else
  if BN_is_zero a then
    let (ok, a) := BN_set_word a w in Some (ok, if ok then BN_set_negative a true else a)
  else if neg a then
    let (i, a) := add_word_nonneg (with_neg a false) w in Some (i, with_neg a true)
  else sub_word_nonneg a w.
End Bignum.

(** ** Values and the invariant *)

Definition bn_abs (bn : BIGNUM) : Z := le_val (words bn).
Definition bn_val (bn : BIGNUM) : Z := if neg bn then - bn_abs bn else bn_abs bn.

(** Storage is valid: what any result object must satisfy beforehand. *)
Definition bn_mem (bn : BIGNUM) : Prop := 0 <= top bn <= dmax bn.

(** [top] is minimal and zero is not negative. *)
Definition bn_ok (bn : BIGNUM) : Prop :=
  bn_mem bn /\ words_ok (words bn) /\ (0 < top bn -> get (d bn) (top bn - 1) <> 0) /\
  (top bn = 0 -> neg bn = false).

Lemma len_words bn : bn_mem bn -> len (words bn) = top bn.
Proof. intros H. unfold words. apply len_take. exact H. Qed.

Lemma length_words bn : bn_mem bn -> length (words bn) = Z.to_nat (top bn).
Proof. intros H. pose proof (len_words bn H) as E. unfold len in E. lia. Qed.

Lemma get_words bn i : 0 <= i < top bn -> get (words bn) i = get (d bn) i.
Proof. intros H. unfold words. now apply get_take. Qed.

Lemma words_with_neg bn n : words (with_neg bn n) = words bn.
Proof. reflexivity. Qed.

Lemma mem_with_neg bn n : bn_mem bn -> bn_mem (with_neg bn n).
Proof. exact id. Qed.

Lemma put_words_take bn l t : 0 <= t <= len l -> len l <= dmax bn ->
  bn_mem (put_words bn l t) /\ words (put_words bn l t) = take t l /\ top (put_words bn l t) = t /\
  neg (put_words bn l t) = neg bn /\ dmax (put_words bn l t) = dmax bn.
Proof.
  intros Ht H. unfold dmax in *.
  assert (E : len (splice (d bn) 0 l) = len (d bn)) by (apply len_splice; lia).
  unfold bn_mem, put_words, words, dmax. cbn [d top neg]. rewrite E. repeat split; try lia.
  rewrite <- (take_take t (0 + len l)) by lia. rewrite take_splice by lia. reflexivity.
Qed.

Lemma put_words_spec bn l t : t = len l -> t <= dmax bn ->
  bn_mem (put_words bn l t) /\ words (put_words bn l t) = l /\ top (put_words bn l t) = t /\
  neg (put_words bn l t) = neg bn /\ dmax (put_words bn l t) = dmax bn.
Proof.
  intros -> H. pose proof (len_nonneg l). destruct (put_words_take bn l (len l)) as (H1 & H2 & H3); [lia | assumption |].
  rewrite take_all in H2 by lia. tauto.
Qed.

(** The last word of an array is nonzero exactly when its value reaches the
    corresponding power of the base. *)
Lemma top_word_value l n : words_ok l -> length l = S n -> (get l (Z.of_nat n) <> 0 <-> base n <= le_val l).
Proof.
  intros Hl Ln. assert (E : le_val l = le_val (firstn n l) + base n * get l (Z.of_nat n)).
  { rewrite <- (firstn_all2 (n := S n) l) at 1 by lia. rewrite firstn_S_get by lia. rewrite le_val_app, length_firstn.
    replace (Nat.min n (length l)) with n by lia. cbn [le_val]. lia. }
  pose proof (le_val_range _ (words_ok_firstn n l Hl)) as R. rewrite length_firstn in R.
  replace (Nat.min n (length l)) with n in R by lia. pose proof (word_get l (Z.of_nat n) Hl) as W. unfold word_ok in W.
  pose proof (base_pos n). rewrite E. split; intros H0; [nia |]. intros H1. rewrite H1 in H0. lia.
Qed.

Lemma ok_value bn : bn_ok bn ->
  bn_mem bn /\ words_ok (words bn) /\ 0 <= bn_abs bn < base (Z.to_nat (top bn)) /\
  (0 < top bn -> base (Z.to_nat (top bn - 1)) <= bn_abs bn).
Proof.
  intros (M & W & T & _). split; [exact M | split; [exact W |]]. unfold bn_abs.
  pose proof (length_words bn M) as L. split; [rewrite <- L; now apply le_val_range |].
  intros Ht. apply (top_word_value (words bn)); [assumption | rewrite L; lia |].
  rewrite Z2Nat.id by lia. rewrite get_words by lia. now apply T.
Qed.

(** Storage, value and sign make the invariant. *)
Lemma ok_intro bn : bn_mem bn -> words_ok (words bn) ->
  (0 < top bn -> base (Z.to_nat (top bn - 1)) <= bn_abs bn) -> (top bn = 0 -> neg bn = false) -> bn_ok bn.
Proof.
  intros M W T N. repeat split; try apply M; try assumption. intros Ht.
  rewrite <- get_words by lia. replace (top bn - 1) with (Z.of_nat (Z.to_nat (top bn - 1))) by lia.
  apply top_word_value; [assumption | rewrite length_words by assumption; lia | now apply T].
Qed.

Lemma ok_pos bn : bn_ok bn -> (0 < top bn <-> 0 < bn_abs bn).
Proof.
  intros H. destruct (ok_value bn H) as (M & _ & R & T). unfold bn_mem in M.
  split; intros H0; [pose proof (base_pos (Z.to_nat (top bn - 1))); lia |].
  destruct (Z.lt_ge_cases 0 (top bn)); [assumption |]. replace (top bn) with 0 in R by lia. cbn in R. lia.
Qed.

Lemma base_le n m : (n <= m)%nat -> base n <= base m.
Proof. intros H. apply Z.pow_le_mono_r; lia. Qed.

(** More words mean a larger magnitude. *)
Lemma top_lt_abs a b : bn_ok a -> bn_ok b -> top a < top b -> bn_abs a < bn_abs b.
Proof.
  intros Ha Hb H. destruct (ok_value a Ha) as (Ma & _ & Ra & _), (ok_value b Hb) as (Mb & _ & _ & Tb). unfold bn_mem in *.
  pose proof (base_le (Z.to_nat (top a)) (Z.to_nat (top b - 1)) ltac:(lia)). lia.
Qed.

(** ** Comparisons *)

Lemma ucmp_loop_words ap bp n : ucmp_loop ap bp n = cmp_words_loop ap bp n.
Proof. induction n as [| n IH]; [reflexivity |]. cbn [ucmp_loop cmp_words_loop]. now rewrite IH. Qed.

Lemma cmp_words_loop_ext a b a' b' n :
  (forall i, 0 <= i < Z.of_nat n -> get a i = get a' i /\ get b i = get b' i) ->
  cmp_words_loop a b n = cmp_words_loop a' b' n.
Proof.
  induction n as [| n IH]; intros H; [reflexivity |]. cbn [cmp_words_loop].
  destruct (H (Z.of_nat n) ltac:(lia)) as [-> ->]. rewrite IH by (intros; apply H; lia). reflexivity.
Qed.

Lemma cmp_same_top a b : bn_ok a -> bn_ok b -> top a = top b ->
  cmp_words_loop (d a) (d b) (Z.to_nat (top a)) = Z.sgn (bn_abs a - bn_abs b).
Proof.
  intros Ha Hb E. destruct (ok_value a Ha) as (Ma & Wa & _), (ok_value b Hb) as (Mb & Wb & _).
  rewrite (cmp_words_loop_ext _ _ (words a) (words b)) by (unfold bn_mem in *; intros; split; symmetry; apply get_words; lia).
  pose proof (length_words a Ma) as La. pose proof (length_words b Mb) as Lb.
  rewrite cmp_words_loop_value by (assumption || lia). unfold bn_abs.
  rewrite !firstn_all2 by lia. reflexivity.
Qed.

Lemma ucmp_sgn a b : bn_ok a -> bn_ok b -> Z.sgn (BN_ucmp a b) = Z.sgn (bn_abs a - bn_abs b).
Proof.
  intros Ha Hb. unfold BN_ucmp. destruct (Z.eqb_spec (top a - top b) 0) as [E | E]; cbn [negb].
  - rewrite ucmp_loop_words, cmp_same_top by (assumption || lia).
    now destruct (Z.sgn_spec (bn_abs a - bn_abs b)) as [[_ ->] | [[_ ->] | [_ ->]]].
  - destruct (Z.lt_ge_cases (top a) (top b)) as [L | L].
    + pose proof (top_lt_abs a b Ha Hb L). rewrite !Z.sgn_neg by lia. reflexivity.
    + pose proof (top_lt_abs b a Hb Ha ltac:(lia)). rewrite !Z.sgn_pos by lia. reflexivity.
Qed.

Lemma cmp_loop_words ap bp s n : s = 1 \/ s = -1 -> cmp_loop ap bp s (- s) n = s * cmp_words_loop ap bp n.
Proof.
  intros Hs. induction n as [| n IH]; [cbn; lia |]. cbn [cmp_loop cmp_words_loop]. rewrite IH.
  destruct (Z.eqb_spec (get ap (Z.of_nat n)) (get bp (Z.of_nat n))); cbn [negb];
    destruct (Z.ltb_spec (get bp (Z.of_nat n)) (get ap (Z.of_nat n)));
    destruct (Z.ltb_spec (get ap (Z.of_nat n)) (get bp (Z.of_nat n))); lia.
Qed.

Lemma cmp_sgn a b : bn_ok a -> bn_ok b -> BN_cmp (Some a) (Some b) = Z.sgn (bn_val a - bn_val b).
Proof.
  intros Ha Hb. pose proof (ok_pos a Ha) as Pa. pose proof (ok_pos b Hb) as Pb.
  destruct (ok_value a Ha) as (Ma & _ & Ra & _), (ok_value b Hb) as (Mb & _ & Rb & _). unfold bn_mem in *.
  assert (Na := proj2 (proj2 (proj2 Ha))). assert (Nb := proj2 (proj2 (proj2 Hb))).
  assert (C : forall s, s = 1 \/ s = -1 ->
    (if top b <? top a then s else if top a <? top b then - s else
     cmp_loop (d a) (d b) s (- s) (Z.to_nat (top a))) = Z.sgn (s * (bn_abs a - bn_abs b))).
  { intros s Hs. rewrite Z.sgn_mul. replace (Z.sgn s) with s by (destruct Hs as [-> | ->]; reflexivity).
    destruct (Z.ltb_spec (top b) (top a)).
    { pose proof (top_lt_abs b a Hb Ha ltac:(lia)). rewrite Z.sgn_pos by lia. lia. }
    destruct (Z.ltb_spec (top a) (top b)).
    { pose proof (top_lt_abs a b Ha Hb ltac:(lia)). rewrite Z.sgn_neg by lia. lia. }
    rewrite cmp_loop_words by assumption. rewrite cmp_same_top by (assumption || lia). reflexivity. }
  unfold BN_cmp, bn_val. destruct (neg a) eqn:Ea, (neg b) eqn:Eb; cbn [Bool.eqb negb].
  - etransitivity; [exact (C (-1) ltac:(lia)) | f_equal; lia].
  - rewrite Z.sgn_neg; [reflexivity |]. destruct (Z.eq_dec (top a) 0) as [E | E]; [specialize (Na E); congruence | lia].
  - rewrite Z.sgn_pos; [reflexivity |]. destruct (Z.eq_dec (top b) 0) as [E | E]; [specialize (Nb E); congruence | lia].
  - etransitivity; [exact (C 1 ltac:(lia)) | f_equal; lia].
Qed.

(** ** Storage and normalisation *)

Lemma correct_top_loop_spec l n : (n <= length l)%nat ->
  let t := correct_top_loop l n in
  (t <= n)%nat /\ le_val (firstn t l) = le_val (firstn n l) /\ ((0 < t)%nat -> get l (Z.of_nat t - 1) <> 0).
Proof.
  induction n as [| n IH]; intros H; cbn [correct_top_loop]; [cbn; repeat split; lia |].
  destruct (Z.eqb_spec (get l (Z.of_nat n)) 0) as [E | E]; cbn [negb].
  - destruct (IH ltac:(lia)) as (H1 & H2 & H3). split; [lia | split; [| exact H3]].
    rewrite H2, (firstn_S_get l n) by lia. rewrite le_val_app. cbn [le_val]. rewrite E. lia.
  - split; [lia | split; [reflexivity |]]. intros _. now replace (Z.of_nat (S n) - 1) with (Z.of_nat n) by lia.
Qed.

Lemma correct_top_ok bn : bn_mem bn -> words_ok (words bn) ->
  bn_ok (bn_correct_top bn) /\ bn_abs (bn_correct_top bn) = bn_abs bn /\
  neg (bn_correct_top bn) = (neg bn && (0 <? bn_abs bn)).
Proof.
  intros M W. unfold bn_mem, dmax in *. pose proof (len_nonneg (d bn)) as Ln. unfold len in M, Ln.
  destruct (correct_top_loop_spec (d bn) (Z.to_nat (top bn)) ltac:(lia)) as (H1 & H2 & H3).
  set (t := correct_top_loop (d bn) (Z.to_nat (top bn))) in *.
  set (bn' := mk_bn (d bn) (Z.of_nat t) (neg bn) (is_static bn)).
  assert (Ew : words bn' = firstn t (d bn)) by (unfold words, take, bn'; cbn; now rewrite Nat2Z.id).
  assert (Ha : bn_abs bn' = bn_abs bn) by (unfold bn_abs; rewrite Ew; exact H2).
  assert (Hw : words_ok (words bn')).
  { rewrite Ew. replace t with (Nat.min t (Z.to_nat (top bn))) by lia. rewrite <- firstn_firstn. now apply words_ok_firstn. }
  assert (E : bn_correct_top bn = if top bn' =? 0 then with_neg bn' false else bn').
  { unfold bn_correct_top. destruct (Z.ltb_spec 0 (top bn)); [reflexivity |].
    assert (Et : top bn = 0) by lia. destruct bn as [dd tt nn ss]. cbn in Et. subst tt. reflexivity. }
  assert (Ok : bn_ok (with_neg bn' (if top bn' =? 0 then false else neg bn'))).
  { split; [unfold bn_mem, dmax, len; cbn; lia |]. split; [exact Hw |].
    split; cbn; [intros; apply H3; lia |]. intros ->. reflexivity. }
  assert (E' : bn_correct_top bn = with_neg bn' (if top bn' =? 0 then false else neg bn')).
  { rewrite E. destruct (top bn' =? 0); reflexivity. }
  rewrite E'. split; [exact Ok | split; [exact Ha |]]. pose proof (ok_pos _ Ok) as P. cbn [top with_neg] in P.
  change (bn_abs (with_neg bn' _)) with (bn_abs bn') in P. rewrite Ha in P. cbn [neg with_neg].
  destruct (Z.eqb_spec (top bn') 0), (Z.ltb_spec 0 (bn_abs bn)); cbn [bn' neg]; rewrite ?andb_true_r, ?andb_false_r; try reflexivity; try lia.
  cbn in *. lia.
Qed.

Section Arithmetic.
Variable alloc_ok : Z -> bool.
Variable uninit : Z -> list Z.
Hypothesis uninit_len : forall n, 0 <= n -> len (uninit n) = n.

(** [bn_wexpand] to any size up to [n] succeeds. *)
Definition expands (bn : BIGNUM) (n : Z) : Prop :=
  forall m, 0 <= m <= n -> fst (bn_wexpand alloc_ok uninit bn m) = true.

Lemma wexpand_spec bn n ok bn' : bn_mem bn -> 0 <= n -> bn_wexpand alloc_ok uninit bn n = (ok, bn') ->
  (ok = false -> bn' = bn) /\
  (ok = true -> bn_mem bn' /\ n <= dmax bn' /\ words bn' = words bn /\ top bn' = top bn /\ neg bn' = neg bn).
Proof.
  intros M Hn. unfold bn_wexpand. destruct (Z.leb_spec n (dmax bn)).
  { intros [= <- <-]. split; [discriminate | intros _]. repeat split; try apply M; assumption. }
  destruct (INT_MAX / (4 * 64) <? n); [intros [= <- <-]; split; [reflexivity | discriminate] |].
  destruct (is_static bn); [intros [= <- <-]; split; [reflexivity | discriminate] |].
  destruct (alloc_ok (8 * n)); cbn [negb]; intros [= <- <-]; (split; [reflexivity || discriminate |]); [| discriminate].
  intros _. pose proof (len_words bn M) as L. unfold bn_mem in M. pose proof (uninit_len n Hn) as U.
  assert (Ls : len (splice (uninit n) 0 (words bn)) = n) by (rewrite len_splice by lia; exact U).
  unfold bn_mem, dmax in *. cbn [d top neg]. rewrite Ls. repeat split; try lia.
  unfold words at 1. cbn [d top]. rewrite <- L at 1. change (len (words bn)) with (0 + len (words bn)).
  rewrite take_splice by lia. reflexivity.
Qed.

Lemma expands_0 bn n : bn_mem bn -> n <= dmax bn -> expands bn n.
Proof.
  intros _ H m Hm. unfold bn_wexpand. destruct (Z.leb_spec m (dmax bn)); [reflexivity | lia].
Qed.

(** ** Magnitudes: BN_uadd and BN_usub *)

Lemma uadd_carry_value ap : words_ok ap -> forall moved rest c, uadd_carry ap = (moved, rest, c) ->
  (length moved + length rest = length ap)%nat /\ words_ok moved /\ words_ok rest /\ (c = true -> rest = []) /\
  le_val (moved ++ rest) + base (length ap) * b2z c = le_val ap + 1.
Proof.
  induction 1 as [| x ap Hx Hap IH]; intros moved rest c; cbn [uadd_carry].
  { intros [= <- <- <-]. cbn. repeat split; try constructor; lia. }
  unfold word_ok in Hx. rewrite word_land by (apply wrap_range; lia).
  destruct (Z.eqb_spec (u64 (x + 1)) 0) as [E | E]; cbn [negb].
  - destruct (uadd_carry ap) as [[m r] k] eqn:Ek. intros [= <- <- <-].
    destruct (IH m r k eq_refl) as (H1 & H2 & H3 & H4 & H5). assert (x = 2 ^ 64 - 1) by word_lia.
    cbn [app length le_val]. rewrite base_S. rewrite E. repeat split; try assumption; [lia | constructor; [unfold word_ok; lia | assumption] |].
    replace (2 ^ 64 * base (length ap) * b2z k) with (2 ^ 64 * (base (length ap) * b2z k)) by ring. lia.
  - intros [= <- <- <-]. assert (u64 (x + 1) = x + 1) as -> by word_lia. assert (x + 1 < 2 ^ 64) by word_lia.
    cbn [app length le_val b2z]. repeat split; [constructor; [unfold word_ok; lia | constructor] | assumption | discriminate | lia].
Qed.

Lemma usub_borrow_value ap : words_ok ap -> forall moved rest, usub_borrow ap = (moved, rest) ->
  length (moved ++ rest) = length ap /\ words_ok (moved ++ rest) /\
  (1 <= le_val ap -> le_val (moved ++ rest) = le_val ap - 1).
Proof.
  induction 1 as [| x ap Hx Hap IH]; intros moved rest; cbn [usub_borrow].
  { intros [= <- <-]. cbn. repeat split; [constructor | lia]. }
  unfold word_ok in Hx. rewrite word_land by (apply wrap_range; lia). pose proof (wrap_range 64 (x - 1) ltac:(lia)) as R.
  destruct (Z.eqb_spec x 0) as [E | E]; cbn [negb].
  - destruct (usub_borrow ap) as [m r] eqn:Ek. intros [= <- <-]. destruct (IH m r eq_refl) as (H1 & H2 & H3).
    cbn [app length le_val]. split; [now f_equal | split; [constructor; [exact R | assumption] |]].
    intros Hv. subst x. rewrite H3 by lia. change (u64 (0 - 1)) with (2 ^ 64 - 1). lia.
  - intros [= <- <-]. cbn [app length le_val]. split; [reflexivity | split; [constructor; [exact R | assumption] |]].
    intros _. rewrite wrap_small by lia. lia.
Qed.

Lemma usub_step_value c x r c' : bit_ok c -> word_ok (fst x) /\ word_ok (snd x) ->
  usub_step c x = (r, c') -> word_ok r /\ bit_ok c' /\ r + (-1) * (2 ^ 64 * c') = (fst x - snd x) + (-1) * c.
Proof.
  destruct x as [a b]. cbn [fst snd]. intros Hc [Ha Hb]. unfold usub_step. unfold word_ok, bit_ok in *.
  destruct Hc as [-> | ->]; cbn [Z.eqb negb];
    rewrite !word_land by (apply wrap_range || (rewrite word_land by (apply wrap_range; lia); apply wrap_range); lia);
    intros [= <- <-]; [destruct (Z.ltb_spec a b) | destruct (Z.leb_spec a b)]; cbn [b2z]; word_lia.
Qed.

(** The words written by [BN_uadd] and [BN_usub] for operands [x] and [y] with
    [length y <= length x]. *)
Lemma uadd_words_value x y low c moved rest c' : words_ok x -> words_ok y -> (length y <= length x)%nat ->
  bn_add_words x y (length y) = (low, c) ->
  (if negb (c =? 0) then uadd_carry (skipn (length y) x) else ([], skipn (length y) x, false)) = (moved, rest, c') ->
  let l := low ++ moved ++ (if c' then [1] else []) ++ rest in
  len l = len x + b2z c' /\ words_ok l /\ le_val l = le_val x + le_val y.
Proof.
  intros Wx Wy L E E1. pose proof (words_ok_skipn (length y) x Wx) as Ws.
  destruct (add_words_value x y (length y) Wx Wy L ltac:(lia) low c E) as (L1 & W1 & C1 & V1).
  rewrite (firstn_all2 y) in V1 by lia.
  assert (H : (length moved + length rest = length x - length y)%nat /\ words_ok moved /\ words_ok rest /\ (c' = true -> rest = []) /\
    le_val (moved ++ rest) + base (length x - length y) * b2z c' = le_val (skipn (length y) x) + c).
  { rewrite <- length_skipn. destruct C1 as [-> | ->]; cbn [Z.eqb negb] in E1.
    - injection E1 as <- <- <-. cbn [length app b2z]. repeat split; [constructor | assumption | discriminate | lia].
    - destruct (uadd_carry_value _ Ws _ _ _ E1) as (H1 & H2 & H3 & H4 & H5). repeat split; assumption. }
  destruct H as (H1 & H2 & H3 & H4 & H5). cbv zeta.
  assert (Ex : le_val x = le_val (firstn (length y) x) + base (length y) * le_val (skipn (length y) x)).
  { rewrite <- (firstn_skipn (length y) x) at 1. rewrite le_val_app, length_firstn. now replace (Nat.min (length y) (length x)) with (length y) by lia. }
  assert (El : le_val (moved ++ (if c' then [1] else []) ++ rest) = le_val (moved ++ rest) + base (length x - length y) * b2z c').
  { destruct c'; cbn [b2z app]; [| lia]. rewrite (H4 eq_refl) in *. cbn [length] in H1. rewrite app_nil_r, le_val_app. cbn [le_val].
    replace (length x - length y)%nat with (length moved) by lia. lia. }
  split; [| split].
  - unfold len. rewrite !length_app. destruct c'; cbn [length b2z]; lia.
  - repeat (apply Forall_app; split); try assumption. destruct c'; repeat constructor; unfold word_ok; lia.
  - rewrite le_val_app, El, H5, L1, Ex. nia.
Qed.

Lemma usub_words_value x y low c moved rest : words_ok x -> words_ok y -> (length y <= length x)%nat -> le_val y <= le_val x ->
  single_loop usub_step 0 (combine (firstn (length y) x) y) = (low, c) ->
  (if negb (c =? 0) then usub_borrow (skipn (length y) x) else ([], skipn (length y) x)) = (moved, rest) ->
  let l := low ++ moved ++ rest in
  len l = len x /\ words_ok l /\ le_val l = le_val x - le_val y /\ (c <> 0 -> length x <> length y).
Proof.
  intros Wx Wy L V E E1. pose proof (words_ok_skipn (length y) x Wx) as Ws.
  destruct (combine_ok x y (length y) Wx Wy L ltac:(lia)) as [Hc Lc]. rewrite firstn_all2 with (l := y) in Hc, Lc by lia.
  destruct (single_loop_value usub_step (fun x => fst x - snd x) (-1) _ bit_ok usub_step_value _ 0 low c (or_introl eq_refl) Hc E)
    as (L1 & W1 & C1 & V1).
  rewrite Lc in *. rewrite le_val_map_sub in V1 by (rewrite length_firstn; lia).
  assert (Ex : le_val x = le_val (firstn (length y) x) + base (length y) * le_val (skipn (length y) x)).
  { rewrite <- (firstn_skipn (length y) x) at 1. rewrite le_val_app, length_firstn. now replace (Nat.min (length y) (length x)) with (length y) by lia. }
  pose proof (le_val_range _ W1) as R1. rewrite L1 in R1.
  assert (Hs : c = 1 -> 1 <= le_val (skipn (length y) x)).
  { intros ->. destruct (Z.le_gt_cases 1 (le_val (skipn (length y) x))); [assumption |].
    pose proof (le_val_range _ Ws). assert (le_val (skipn (length y) x) = 0) as Z0 by lia. rewrite Z0 in Ex. lia. }
  assert (H : length (moved ++ rest) = (length x - length y)%nat /\ words_ok (moved ++ rest) /\
    le_val (moved ++ rest) = le_val (skipn (length y) x) - c).
  { rewrite <- length_skipn. destruct C1 as [-> | ->]; cbn [Z.eqb negb] in E1.
    - injection E1 as <- <-. cbn [app]. repeat split; [assumption | lia].
    - destruct (usub_borrow_value _ Ws _ _ E1) as (H1 & H2 & H3). repeat split; try assumption. apply H3. now apply Hs. }
  destruct H as (H1 & H2 & H3). cbv zeta. split; [| split; [| split]].
  - unfold len. rewrite length_app. lia.
  - apply Forall_app. now split.
  - rewrite le_val_app, H3, L1, Ex. lia.
  - intros Hc0 Le. destruct C1 as [-> | ->]; [lia |]. specialize (Hs eq_refl). rewrite skipn_all2 in Hs by lia. cbn in Hs. lia.
Qed.

(** What a result must satisfy: the invariant and the exact value. *)
Definition is_exact (res : bool * BIGNUM) (v : Z) : Prop :=
  fst res = true /\ bn_ok (snd res) /\ bn_val (snd res) = v.

Lemma take_low_words a b : bn_mem a -> bn_mem b -> top b <= top a ->
  length (words b) = Z.to_nat (top b) /\ (length (words b) <= length (words a))%nat /\
  drop (top b) (words a) = skipn (length (words b)) (words a) /\ take (top b) (words a) = firstn (length (words b)) (words a).
Proof.
  intros Ma Mb H. unfold bn_mem in *. pose proof (length_words a Ma). pose proof (length_words b Mb) as L.
  unfold drop, take. rewrite L. repeat split. lia.
Qed.

Lemma uadd_ordered r a b : bn_mem r -> bn_ok a -> bn_ok b -> top b <= top a ->
  fst (bn_wexpand alloc_ok uninit r (top a + 1)) = true ->
  exists r', BN_uadd alloc_ok uninit r a b = (true, r') /\ bn_ok r' /\ bn_abs r' = bn_abs a + bn_abs b /\ neg r' = false.
Proof.
  intros Mr Ha Hb Hab He. destruct (ok_value a Ha) as (Ma & Wa & Ra & Ta), (ok_value b Hb) as (Mb & Wb & Rb & _).
  destruct (take_low_words a b Ma Mb Hab) as (Lb & Lba & Ed & _). unfold bn_mem in Ma, Mb.
  unfold BN_uadd. destruct (Z.ltb_spec (top a) (top b)); [lia |].
  destruct (bn_wexpand _ _ r (top a + 1)) as [ok r1] eqn:Ew. cbn in He. subst ok. cbn [negb].
  destruct (wexpand_spec r (top a + 1) true r1 Mr ltac:(lia) Ew) as [_ (M1 & D1 & _)]; [reflexivity |].
  rewrite <- Lb. destruct (bn_add_words (words a) (words b) (length (words b))) as [low c] eqn:E.
  rewrite Ed. destruct (if negb (c =? 0) then _ else _) as [[moved rest] c'] eqn:E1.
  destruct (uadd_words_value (words a) (words b) low c moved rest c' Wa Wb Lba E E1) as (Ll & Wl & Vl).
  rewrite len_words in Ll by assumption. set (l := low ++ _) in *.
  destruct (put_words_spec r1 l (top a + b2z c') (eq_sym Ll)) as (P1 & P2 & P3 & _); [destruct c'; cbn [b2z] in *; lia |].
  eexists. split; [reflexivity |]. split; [| split; [| reflexivity]].
  - apply ok_intro; [exact P1 | rewrite words_with_neg, P2; exact Wl | | reflexivity].
    unfold bn_abs. rewrite words_with_neg, P2. change (top (with_neg (put_words r1 l (top a + b2z c')) false)) with (top (put_words r1 l (top a + b2z c'))). rewrite P3. intros Ht.
    rewrite Vl. fold (bn_abs a) (bn_abs b). destruct c'; cbn [b2z] in *.
    + pose proof (le_val_range l Wl) as R. unfold len in Ll.
      (* the carry is the top word *)
      replace (Z.to_nat (top a + 1 - 1)) with (Z.to_nat (top a)) by lia.
      fold (bn_abs a) (bn_abs b) in Vl. rewrite <- Vl. apply top_word_value; [assumption | lia |].
      assert (rest = []) as -> by
        (destruct (negb (c =? 0)); [destruct (uadd_carry_value _ (words_ok_skipn _ _ Wa) _ _ _ E1) as (_ & _ & _ & X & _); now apply X | discriminate]).
      unfold l. rewrite app_assoc, app_nil_r.
      assert (Z.to_nat (top a) = length (low ++ moved)) as ->.
      { assert (length l = S (length (low ++ moved))); [| lia]. unfold l. rewrite app_assoc, app_nil_r, length_app. cbn. lia. }
      unfold get. rewrite Nat2Z.id, app_nth2, Nat.sub_diag by lia. cbn. lia.
    + rewrite Z.add_0_r in *. specialize (Ta ltac:(lia)). lia.
  - unfold bn_abs. rewrite words_with_neg, P2. exact Vl.
Qed.

Lemma uadd_exact r a b : bn_mem r -> bn_ok a -> bn_ok b -> expands r (Z.max (top a) (top b) + 1) ->
  exists r', BN_uadd alloc_ok uninit r a b = (true, r') /\ bn_ok r' /\ bn_abs r' = bn_abs a + bn_abs b /\ neg r' = false.
Proof.
  intros Mr Ha Hb He. pose proof (proj1 Ha) as Ma. pose proof (proj1 Hb) as Mb. unfold bn_mem in Ma, Mb.
  destruct (Z.lt_ge_cases (top a) (top b)) as [L | L].
  - destruct (uadd_ordered r b a Mr Hb Ha ltac:(lia) (He (top b + 1) ltac:(lia))) as (r' & E & H1 & H2 & H3).
    exists r'. split; [| split; [exact H1 | split; [lia | exact H3]]].
    rewrite <- E. unfold BN_uadd. destruct (Z.ltb_spec (top a) (top b)); [| lia]. destruct (Z.ltb_spec (top b) (top a)); [lia | reflexivity].
  - apply uadd_ordered; try assumption. apply He. lia.
Qed.

Lemma usub_exact r a b : bn_mem r -> bn_ok a -> bn_ok b -> bn_abs b <= bn_abs a -> expands r (top a) ->
  exists r', BN_usub alloc_ok uninit r a b = (true, r') /\ bn_ok r' /\ bn_abs r' = bn_abs a - bn_abs b /\ neg r' = false.
Proof.
  intros Mr Ha Hb Hv He. destruct (ok_value a Ha) as (Ma & Wa & Ra & Ta), (ok_value b Hb) as (Mb & Wb & Rb & _).
  assert (Hab : top b <= top a) by (destruct (Z.le_gt_cases (top b) (top a)); [assumption | pose proof (top_lt_abs a b Ha Hb ltac:(lia)); lia]).
  destruct (take_low_words a b Ma Mb Hab) as (Lb & Lba & Ed & Et).
  unfold BN_usub. destruct (Z.ltb_spec (top a - top b) 0); [lia |].
  unfold bn_mem in Ma, Mb. specialize (He (top a) ltac:(lia)).
  destruct (bn_wexpand _ _ r (top a)) as [ok r1] eqn:Ew. cbn in He. subst ok. cbn [negb].
  destruct (wexpand_spec r (top a) true r1 Mr ltac:(lia) Ew) as [_ (M1 & D1 & _)]; [reflexivity |].
  rewrite Et. destruct (single_loop usub_step 0 _) as [low c] eqn:E. rewrite Ed.
  destruct (if negb (c =? 0) then usub_borrow _ else _) as [moved rest] eqn:E1.
  destruct (usub_words_value (words a) (words b) low c moved rest Wa Wb Lba Hv E E1) as (Ll & Wl & Vl & Hc).
  assert ((negb (c =? 0) && (top a - top b =? 0)) = false) as ->.
  { destruct (Z.eqb_spec c 0) as [| N]; [reflexivity |]. destruct (Z.eqb_spec (top a - top b) 0); [| reflexivity].
    exfalso. apply (Hc N). rewrite Lb, length_words by exact Ma. f_equal. lia. }
  rewrite len_words in Ll by assumption.
  destruct (put_words_spec r1 (low ++ moved ++ rest) (top a) (eq_sym Ll) D1) as (P1 & P2 & P3 & _).
  set (r2 := put_words _ _ _) in *.
  destruct (correct_top_ok (with_neg r2 false) P1) as (C1 & C2 & C3); [rewrite words_with_neg, P2; exact Wl |].
  eexists. split; [reflexivity |]. split; [exact C1 | split; [| exact C3]].
  rewrite C2. unfold bn_abs. rewrite words_with_neg, P2. exact Vl.
Qed.

Lemma usub_error r a b : top a < top b -> BN_usub alloc_ok uninit r a b = (false, r).
Proof. intros H. unfold BN_usub. destruct (Z.ltb_spec (top a - top b) 0); [reflexivity | lia]. Qed.

Lemma usub_signed_exact r a b : bn_mem r -> bn_ok a -> bn_ok b -> expands r (Z.max (top a) (top b)) ->
  is_exact (usub_signed alloc_ok uninit r a b) (bn_abs a - bn_abs b).
Proof.
  intros Mr Ha Hb He. pose proof (proj1 Ha) as Ma. pose proof (proj1 Hb) as Mb. unfold bn_mem in Ma, Mb.
  pose proof (ucmp_sgn a b Ha Hb) as U. unfold usub_signed, is_exact. destruct (Z.ltb_spec (BN_ucmp a b) 0) as [L | L].
  - assert (Hv : bn_abs a < bn_abs b).
    { rewrite (Z.sgn_neg (BN_ucmp a b)) in U by assumption. destruct (Z.sgn_spec (bn_abs a - bn_abs b)) as [[? X] | [[? X] | [? X]]]; lia. }
    destruct (usub_exact r b a Mr Hb Ha ltac:(lia)) as (r' & -> & O & V & _); [intros m Hm; apply He; lia |].
    cbn [negb fst snd]. split; [reflexivity |]. split; [| cbn; unfold bn_val; cbn; change (bn_abs (with_neg r' true)) with (bn_abs r'); lia].
    pose proof (ok_pos r' O) as P. destruct O as (O1 & O2 & O3 & O4). repeat split; try apply O1; try assumption. cbn. lia.
  - assert (Hv : bn_abs b <= bn_abs a).
    { pose proof (Z.sgn_nonneg (BN_ucmp a b)) as X. destruct (Z.sgn_spec (bn_abs a - bn_abs b)) as [[? Y] | [[? Y] | [? Y]]]; lia. }
    destruct (usub_exact r a b Mr Ha Hb Hv) as (r' & -> & O & V & _); [intros m Hm; apply He; lia |].
    cbn [negb fst snd]. split; [reflexivity |]. split; [| exact V].
    destruct O as (O1 & O2 & O3 & O4). repeat split; try apply O1; try assumption.
Qed.

(** The signed sum of magnitudes. *)
Lemma uadd_signed r a b s : bn_mem r -> bn_ok a -> bn_ok b -> expands r (Z.max (top a) (top b) + 1) ->
  (s = true -> 0 < bn_abs a + bn_abs b) ->
  is_exact (let (ok, r) := BN_uadd alloc_ok uninit r a b in (ok, with_neg r s)) ((if s then -1 else 1) * (bn_abs a + bn_abs b)).
Proof.
  intros Mr Ha Hb He Hs. destruct (uadd_exact r a b Mr Ha Hb He) as (r' & -> & O & V & _).
  unfold is_exact. cbn [fst snd]. split; [reflexivity |]. pose proof (ok_pos r' O) as P. destruct O as (O1 & O2 & O3 & O4). split.
  - repeat split; try apply O1; try assumption. cbn. intros E. destruct s; [| reflexivity]. specialize (Hs eq_refl). lia.
  - unfold bn_val. cbn [with_neg neg]. change (bn_abs (with_neg r' s)) with (bn_abs r'). destruct s; lia.
Qed.

Lemma neg_pos a : bn_ok a -> neg a = true -> 0 < bn_abs a.
Proof.
  intros H N. apply ok_pos; [assumption |]. destruct H as (M & _ & _ & Z0). unfold bn_mem in M.
  destruct (Z.eq_dec (top a) 0) as [E | E]; [rewrite (Z0 E) in N; discriminate | lia].
Qed.

Lemma abs_nonneg a : bn_ok a -> 0 <= bn_abs a.
Proof. intros H. now destruct (ok_value a H) as (_ & _ & [? _] & _). Qed.

Lemma add_exact r a b : bn_mem r -> bn_ok a -> bn_ok b -> expands r (Z.max (top a) (top b) + 1) ->
  is_exact (BN_add alloc_ok uninit r a b) (bn_val a + bn_val b).
Proof.
  intros Mr Ha Hb He. pose proof (abs_nonneg a Ha). pose proof (abs_nonneg b Hb). unfold BN_add, bn_val.
  assert (Hd : forall x y, bn_ok x -> bn_ok y -> Z.max (top x) (top y) = Z.max (top a) (top b) ->
    is_exact (usub_signed alloc_ok uninit r x y) (bn_abs x - bn_abs y)).
  { intros x y Hx Hy E. apply usub_signed_exact; try assumption. intros m Hm. apply He. lia. }
  destruct (neg a) eqn:Na, (neg b) eqn:Nb; cbn [xorb].
  - replace (- bn_abs a + - bn_abs b) with (-1 * (bn_abs a + bn_abs b)) by lia.
    apply (uadd_signed r a b true); try assumption. intros _. pose proof (neg_pos a Ha Na). lia.
  - replace (- bn_abs a + bn_abs b) with (bn_abs b - bn_abs a) by lia. apply Hd; try assumption. lia.
  - apply Hd; (assumption || lia).
  - replace (bn_abs a + bn_abs b) with (1 * (bn_abs a + bn_abs b)) by lia. now apply (uadd_signed r a b false).
Qed.

Lemma sub_exact r a b : bn_mem r -> bn_ok a -> bn_ok b -> expands r (Z.max (top a) (top b) + 1) ->
  is_exact (BN_sub alloc_ok uninit r a b) (bn_val a - bn_val b).
Proof.
  intros Mr Ha Hb He. pose proof (abs_nonneg a Ha). pose proof (abs_nonneg b Hb). unfold BN_sub, bn_val.
  assert (Hd : forall x y, bn_ok x -> bn_ok y -> Z.max (top x) (top y) = Z.max (top a) (top b) ->
    is_exact (let max := if top y <? top x then top x else top y in
      let (ok, r) := bn_wexpand alloc_ok uninit r max in
      if negb ok then (false, r) else usub_signed alloc_ok uninit r x y) (bn_abs x - bn_abs y)).
  { intros x y Hx Hy E. cbv zeta. pose proof (proj1 Hx) as Mx. pose proof (proj1 Hy) as My. unfold bn_mem in Mx, My.
    set (m := if top y <? top x then top x else top y).
    assert (Hm : m = Z.max (top x) (top y)) by (unfold m; destruct (Z.ltb_spec (top y) (top x)); lia). clearbody m.
    specialize (He m ltac:(lia)). destruct (bn_wexpand _ _ r m) as [ok r1] eqn:Ew. cbn in He. subst ok. cbn [negb].
    destruct (wexpand_spec r m true r1 Mr ltac:(lia) Ew) as [_ (M1 & D1 & _)]; [reflexivity |].
    apply usub_signed_exact; try assumption. apply expands_0; [assumption | lia]. }
  assert (Ha' : forall x y s, bn_ok x -> bn_ok y -> Z.max (top x) (top y) = Z.max (top a) (top b) -> (s = true -> 0 < bn_abs x + bn_abs y) ->
    is_exact (let (ok, r) := BN_uadd alloc_ok uninit r x y in if negb ok then (false, r) else (true, with_neg r s))
      ((if s then -1 else 1) * (bn_abs x + bn_abs y))).
  { intros x y s Hx Hy E Hs. rewrite <- E in He. pose proof (uadd_signed r x y s Mr Hx Hy He Hs) as U.
    destruct (BN_uadd alloc_ok uninit r x y) as [ok r1]. destruct ok; [exact U |]. destruct U as [U _]. discriminate. }
  destruct (neg a) eqn:Na, (neg b) eqn:Nb.
  - replace (- bn_abs a - - bn_abs b) with (bn_abs b - bn_abs a) by lia. apply Hd; try assumption. lia.
  - replace (- bn_abs a - bn_abs b) with (-1 * (bn_abs a + bn_abs b)) by lia.
    apply (Ha' a b true); try assumption; [lia |]. intros _. pose proof (neg_pos a Ha Na). lia.
  - replace (bn_abs a - - bn_abs b) with (1 * (bn_abs a + bn_abs b)) by lia. apply (Ha' a b false); try assumption; [lia | discriminate].
  - apply Hd; (assumption || lia).
Qed.

(** ** Words: BN_set_word, BN_add_word and BN_sub_word *)

Lemma zero_ok bn : bn_mem bn -> bn_ok (BN_zero bn) /\ bn_val (BN_zero bn) = 0.
Proof.
  intros M. unfold bn_mem in M. split; [| reflexivity].
  split; [unfold bn_mem, dmax, BN_zero in *; cbn; lia |]. repeat split; cbn; try lia. constructor.
Qed.

Lemma set_spec (l : list Z) i x : 0 <= i < len l ->
  len (set l i x) = len l /\ take i (set l i x) = take i l /\ get (set l i x) i = x.
Proof.
  intros Hi. unfold set. assert (L : len [x] = 1) by reflexivity. split; [apply len_splice; lia | split].
  - unfold splice. rewrite take_app_l by (rewrite len_take; lia). rewrite take_take by lia. reflexivity.
  - apply get_set_same. lia.
Qed.

(** Storing a word at index [t] and making it the top one. *)
Lemma push_word_spec bn t w n : 0 <= t < dmax bn ->
  let bn' := mk_bn (set (d bn) t w) (t + 1) n (is_static bn) in
  bn_mem bn' /\ words bn' = take t (d bn) ++ [w] /\ get (d bn') t = w.
Proof.
  intros Ht. unfold dmax in Ht. destruct (set_spec (d bn) t w Ht) as (L & T & G). cbv zeta. unfold bn_mem, words, dmax.
  cbn [d top]. rewrite L. split; [lia | split; [| exact G]]. rewrite take_succ by lia. now rewrite T, G.
Qed.

Lemma set_word_exact bn w : bn_mem bn -> word_ok w -> fst (bn_wexpand alloc_ok uninit bn 1) = true ->
  is_exact (BN_set_word alloc_ok uninit bn w) w /\ neg (snd (BN_set_word alloc_ok uninit bn w)) = false.
Proof.
  intros M Hw He. unfold BN_set_word, is_exact. destruct (Z.eqb_spec w 0) as [-> | Nz].
  { destruct (zero_ok bn M). cbn [fst snd]. repeat split; assumption || apply H. }
  destruct (bn_wexpand _ _ bn 1) as [ok bn1] eqn:Ew. cbn in He. subst ok. cbn [negb fst snd].
  destruct (wexpand_spec bn 1 true bn1 M ltac:(lia) Ew) as [_ (M1 & D1 & _)]; [reflexivity |].
  destruct (push_word_spec bn1 0 w false ltac:(lia)) as (P1 & P2 & P3). change (0 + 1) with 1 in *. cbn [app take firstn] in P2.
  change (words (mk_bn (set (d bn1) 0 w) 1 false (is_static bn1)) = [w]) in P2.
  split; [| reflexivity]. split; [reflexivity |]. split.
  - split; [exact P1 |]. rewrite P2. split; [repeat constructor; apply Hw |]. split; [intros _ Z0; apply Nz; rewrite <- P3; exact Z0 | discriminate].
  - unfold bn_val, bn_abs. cbn [neg]. rewrite P2. cbn. lia.
Qed.

Lemma set_word_neg a w : bn_mem a -> word_ok w -> w <> 0 -> fst (bn_wexpand alloc_ok uninit a 1) = true ->
  is_exact (let (ok, a) := BN_set_word alloc_ok uninit a w in (ok, if ok then BN_set_negative a true else a)) (- w).
Proof.
  intros M Hw Nz He. pose proof Hw as Hw'. unfold word_ok in Hw'.
  destruct (set_word_exact a w M Hw He) as [(S1 & S2 & S3) S4].
  destruct (BN_set_word alloc_ok uninit a w) as [ok a1]. cbn in S1, S2, S3, S4. subst ok. unfold is_exact. cbn [fst snd].
  assert (Hp : 0 < bn_abs a1) by (unfold bn_val in S3; rewrite S4 in S3; lia). apply (ok_pos a1 S2) in Hp.
  assert (En : BN_set_negative a1 true = with_neg a1 true) by (unfold BN_set_negative, BN_is_zero; destruct (Z.eqb_spec (top a1) 0); [lia | reflexivity]).
  rewrite En. unfold bn_val in *. rewrite S4 in S3. cbn [neg with_neg]. change (bn_abs (with_neg a1 true)) with (bn_abs a1).
  repeat split; try apply S2; cbn; lia.
Qed.

Lemma add_word_loop_value l : words_ok l -> forall w l' w', word_ok w -> add_word_loop l w = (l', w') ->
  length l' = length l /\ words_ok l' /\ word_ok w' /\ le_val l' + base (length l) * w' = le_val l + w.
Proof.
  induction 1 as [| x l Hx Hl IH]; intros w l' w' Hw; cbn [add_word_loop].
  { intros [= <- <-]. cbn [length le_val]. rewrite base_0. repeat split; [constructor | apply Hw | apply Hw | lia]. }
  destruct (Z.eqb_spec w 0) as [-> | Nz].
  { intros [= <- <-]. split; [reflexivity |]. split; [now constructor |]. split; [exact Hw | lia]. }
  unfold word_ok in *. rewrite word_land by (apply wrap_range; lia). pose proof (wrap_range 64 (x + w) ltac:(lia)) as R.
  set (y := u64 (x + w)) in *. set (k := if y <? w then 1 else 0).
  assert (Ek : word_ok k /\ y + 2 ^ 64 * k = x + w) by (unfold k, y, word_ok; destruct (Z.ltb_spec (u64 (x + w)) w); word_lia).
  clearbody y k. destruct (add_word_loop l k) as [l1 w1] eqn:E. intros [= <- <-].
  destruct (IH k l1 w1 (proj1 Ek) E) as (H1 & H2 & H3 & H4).
  cbn [length le_val]. rewrite base_S. repeat split; [now f_equal | now constructor | apply H3 | apply H3 |].
  replace (2 ^ 64 * base (length l) * w1) with (2 ^ 64 * (base (length l) * w1)) by ring. lia.
Qed.

Lemma sub_word_loop_value l : words_ok l -> forall w, word_ok w -> w <= le_val l ->
  (0 < length l)%nat ->
  exists l' i z, sub_word_loop l w = Some (l', i, z) /\ length l' = length l /\ words_ok l' /\
    le_val l' = le_val l - w /\ 0 <= i < len l /\ get l' i = z /\ (forall j, i < j -> get l' j = get l j).
Proof.
  induction 1 as [| x l Hx Hl IH]; intros w Hw Hv Hlen; [cbn in Hlen; lia |]. cbn [sub_word_loop]. unfold word_ok in *.
  cbn [le_val] in Hv. pose proof (le_val_range l Hl) as R. destruct (Z.leb_spec w x).
  - exists (x - w :: l), 0, (x - w). split; [reflexivity |]. split; [reflexivity |]. cbn [le_val]. rewrite len_cons. pose proof (len_nonneg l).
    split; [constructor; [unfold word_ok; lia | assumption] |]. split; [lia |]. split; [lia |]. split; [reflexivity |].
    intros j Hj. unfold get. replace (Z.to_nat j) with (S (Z.to_nat (j - 1))) by lia. reflexivity.
  - assert (1 <= le_val l) by lia. assert (Hn : (0 < length l)%nat) by (destruct l; [cbn in *; lia | cbn; lia]).
    destruct (IH 1 ltac:(lia) ltac:(lia) Hn) as (l' & i & z & -> & H1 & H2 & H3 & H4 & H5 & H6).
    exists (Z.land (u64 (x - w)) BN_MASK2 :: l'), (i + 1), z. rewrite word_land by (apply wrap_range; lia).
    split; [reflexivity |]. cbn [length le_val]. rewrite len_cons, H1, H3.
    split; [reflexivity |]. split; [constructor; [apply wrap_range; lia | assumption] |]. split; [word_lia |]. split; [lia |].
    split; [unfold get in *; replace (Z.to_nat (i + 1)) with (S (Z.to_nat i)) by lia; exact H5 |].
    intros j Hj. unfold get in *. replace (Z.to_nat j) with (S (Z.to_nat (j - 1))) by lia. cbn [nth]. apply H6. lia.
Qed.

Lemma expands_with bn dd t n : len dd = dmax bn -> forall k, expands bn k -> expands (mk_bn dd t n (is_static bn)) k.
Proof.
  intros L k H m Hm. specialize (H m Hm). unfold bn_wexpand, dmax in *. cbn [d is_static]. rewrite L.
  destruct (m <=? len (d bn)); [reflexivity |]. destruct (INT_MAX / (4 * 64) <? m); [discriminate |].
  destruct (is_static bn); [discriminate |]. destruct (negb (alloc_ok (8 * m))); [discriminate | reflexivity].
Qed.

Lemma add_word_exact a w : bn_ok a -> neg a = false -> word_ok w -> expands a (top a + 1) ->
  is_exact (add_word_nonneg alloc_ok uninit a w) (bn_abs a + w) /\ neg (snd (add_word_nonneg alloc_ok uninit a w)) = false.
Proof.
  intros Ha Na Hw He. destruct (ok_value a Ha) as (Ma & Wa & Ra & Ta). pose proof (ok_pos a Ha) as Pa.
  unfold add_word_nonneg. destruct (Z.eqb_spec w 0) as [-> | Nz].
  { unfold is_exact, bn_val. cbn [fst snd]. rewrite Na. repeat split; try apply Ha. lia. }
  unfold BN_is_zero. pose proof Ma as Ma'. unfold bn_mem in Ma'. destruct (Z.eqb_spec (top a) 0) as [Et | Et].
  { replace (bn_abs a) with 0 by lia. apply set_word_exact; try assumption. apply He. lia. }
  destruct (add_word_loop (words a) w) as [l w'] eqn:E.
  destruct (add_word_loop_value _ Wa _ _ _ Hw E) as (Ll & Wl & Ww & Vl). rewrite length_words in Vl, Ll by assumption.
  fold (bn_abs a) in Vl.
  destruct (put_words_spec a l (top a)) as (P1 & P2 & P3 & P4 & P5); [unfold len; lia | lia |].
  set (a1 := put_words a l (top a)) in *. destruct (Z.eqb_spec w' 0) as [-> | Nz']; cbn [negb].
  - unfold is_exact. cbn [fst snd]. split; [| exact (eq_trans P4 Na)]. split; [reflexivity |].
    assert (V1 : bn_abs a1 = bn_abs a + w) by (unfold bn_abs at 1; rewrite P2; lia).
    split; [| unfold bn_val; rewrite P4, Na; exact V1].
    apply ok_intro; [exact P1 | rewrite P2; exact Wl | | intros _; now rewrite P4].
    rewrite V1, P3. intros Ht. specialize (Ta Ht). unfold word_ok in Hw. lia.
  - rewrite P3. specialize (expands_with a (d a1) (top a) (neg a) P5 _ He (top a + 1) ltac:(lia)).
    change (mk_bn (d a1) (top a) (neg a) (is_static a)) with a1. intros He1.
    destruct (bn_wexpand _ _ a1 (top a + 1)) as [ok a2] eqn:Ew. cbn in He1. subst ok. cbn [negb].
    destruct (wexpand_spec a1 (top a + 1) true a2 P1 ltac:(lia) Ew) as [_ (M2 & D2 & W2 & T2 & N2)]; [reflexivity |].
    rewrite T2, P3. destruct (push_word_spec a2 (top a) w' (neg a2) ltac:(lia)) as (Q1 & Q2 & Q3).
    set (a3 := mk_bn _ _ _ _) in *. unfold is_exact. cbn [fst snd].
    assert (Na3 : neg a3 = false) by (cbn; rewrite N2, P4; exact Na).
    assert (W3 : words a3 = l ++ [w']).
    { rewrite Q2. f_equal. rewrite <- P2, <- W2. unfold words. now rewrite T2, P3. }
    repeat split; try apply Q1; try assumption.
    + rewrite W3. apply Forall_app. split; [assumption | repeat constructor; apply Ww].
    + intros _. cbn [top a3]. replace (top a + 1 - 1) with (top a) by lia. intros Z0. apply Nz'. now rewrite <- Q3.
    + cbn. lia.
    + unfold bn_val. rewrite Na3. unfold bn_abs at 1. rewrite W3, le_val_app, Ll. cbn [le_val]. lia.
Qed.

(** The borrow that stops at word [i]. *)
Lemma sub_word_borrow a w l i z : bn_ok a -> neg a = false -> word_ok w -> w <= bn_abs a -> 0 < top a ->
  sub_word_loop (words a) w = Some (l, i, z) ->
  is_exact (true, put_words a l (if (z =? 0) && (i =? top a - 1) then top a - 1 else top a)) (bn_abs a - w).
Proof.
  intros Ha Na Hw Hv Ht E. destruct (ok_value a Ha) as (Ma & Wa & Ra & Ta). pose proof (length_words a Ma) as Lw.
  destruct (sub_word_loop_value (words a) Wa w Hw Hv ltac:(lia)) as (l' & i' & z' & E' & Ll & Wl & Vl & Hi & Hz & Hj).
  rewrite E in E'. injection E' as <- <- <-. rewrite len_words in Hi by assumption. pose proof Ma as Ma'. unfold bn_mem in Ma'.
  fold (bn_abs a) in Vl. assert (Lt : len l = top a) by (unfold len; lia).
  unfold is_exact. cbn [fst snd]. set (t := if _ && _ then _ else _).
  assert (Hx : 0 <= t <= top a /\ le_val (take t l) = le_val l /\ (0 < t -> base (Z.to_nat (t - 1)) <= le_val l)).
  { unfold t. destruct (Z.eqb_spec z 0) as [Ez | Ez], (Z.eqb_spec i (top a - 1)) as [Ei | Ei]; cbn [andb].
    1: { split; [lia |]. split.
      - rewrite <- (take_all (top a) l) at 2 by lia. replace (top a) with (top a - 1 + 1) at 2 by lia.
        rewrite take_succ, le_val_app by lia. cbn [le_val]. replace (get l (top a - 1)) with 0 by congruence. lia.
      - intros Ht'. specialize (Ta Ht). unfold word_ok in Hw. replace (Z.to_nat (top a - 1)) with (S (Z.to_nat (top a - 1 - 1))) in Ta by lia.
        rewrite base_S in Ta. pose proof (base_pos (Z.to_nat (top a - 1 - 1))). rewrite Vl. nia. }
    all: split; [lia |]; (split; [now rewrite take_all by lia |]); intros _;
      apply top_word_value; [exact Wl | lia |]; replace (Z.of_nat (Z.to_nat (top a - 1))) with (top a - 1) by lia.
    2: congruence.
    all: rewrite Hj by lia; rewrite get_words by lia; now apply Ha. }
  destruct Hx as (H1 & H2 & H3). destruct (put_words_take a l t ltac:(lia) ltac:(lia)) as (P1 & P2 & P3 & P4 & _).
  assert (Va : bn_abs (put_words a l t) = bn_abs a - w) by (unfold bn_abs at 1; rewrite P2, H2; exact Vl).
  split; [reflexivity |]. split; [| unfold bn_val; rewrite P4, Na; exact Va].
  apply ok_intro; [exact P1 | rewrite P2; apply words_ok_firstn; exact Wl | | intros _; now rewrite P4].
  rewrite P3, Va, <- Vl. exact H3.
Qed.

Lemma sub_word_exact a w : bn_ok a -> neg a = false -> word_ok w -> expands a 1 ->
  exists res, sub_word_nonneg alloc_ok uninit a w = Some res /\ is_exact res (bn_abs a - w).
Proof.
  intros Ha Na Hw He. destruct (ok_value a Ha) as (Ma & Wa & Ra & Ta). pose proof (ok_pos a Ha) as Pa.
  unfold sub_word_nonneg, is_exact. pose proof Hw as Hw'. unfold word_ok in Hw'. destruct (Z.eqb_spec w 0) as [-> | Nz].
  { eexists. split; [reflexivity |]. unfold bn_val. cbn [fst snd]. rewrite Na. repeat split; try apply Ha. lia. }
  unfold BN_is_zero. pose proof Ma as Ma'. unfold bn_mem in Ma'. destruct (Z.eqb_spec (top a) 0) as [Et | Et].
  { replace (bn_abs a - w) with (- w) by lia. eexists. split; [| apply (set_word_neg a w Ma Hw Nz (He 1 ltac:(lia)))].
    now destruct (BN_set_word alloc_ok uninit a w). }
  pose proof (length_words a Ma) as Lw. destruct (Z.eqb_spec (top a) 1) as [E1 | E1]; [destruct (Z.ltb_spec (get (d a) 0) w) as [L | L] |]; cbn [andb].
  { eexists. split; [reflexivity |]. cbn [fst snd]. rewrite E1.
    destruct (push_word_spec a 0 (u64 (w - get (d a) 0)) true ltac:(lia)) as (P1 & P2 & P3). change (0 + 1) with 1 in *.
    cbn [app take firstn] in P2. change (words (mk_bn (set (d a) 0 (u64 (w - get (d a) 0))) 1 true (is_static a)) = [u64 (w - get (d a) 0)]) in P2.
    assert (Eg : get (d a) 0 = get (words a) 0) by (symmetry; apply get_words; lia).
    assert (Ea : bn_abs a = get (words a) 0).
    { unfold bn_abs. rewrite E1 in Lw. destruct (words a) as [| x [| y l]]; try discriminate. cbn. lia. }
    pose proof (word_get (words a) 0 Wa) as G. unfold word_ok in G.
    assert (Eu : u64 (w - get (d a) 0) = w - bn_abs a) by (rewrite wrap_small; lia). rewrite Eu in *.
    split; [reflexivity |]. split.
    - split; [exact P1 |]. rewrite P2. split; [repeat constructor; lia |]. split; [intros _ Z0; assert (w - bn_abs a = 0) by (rewrite <- P3; exact Z0); lia | discriminate].
    - unfold bn_val. cbn [neg]. unfold bn_abs at 1. rewrite P2. cbn. lia. }
  all: assert (Hv : w <= bn_abs a).
  1: { rewrite E1 in Lw. pose proof (get_words a 0 ltac:(lia)) as Eg. unfold bn_abs.
       destruct (words a) as [| x [| y l]]; try discriminate. unfold get in *. cbn in Eg, L |- *. lia. }
  2: { specialize (Ta ltac:(lia)). pose proof (base_le 1 (Z.to_nat (top a - 1)) ltac:(lia)). change (base 1) with (2 ^ 64) in *. lia. }
  all: destruct (sub_word_loop_value (words a) Wa w Hw Hv ltac:(lia)) as (l & i & z & E & _); rewrite E;
    eexists; split; [reflexivity |]; apply sub_word_borrow; (assumption || lia).
Qed.

(** The word routines on numbers of either sign. *)
Lemma abs_ok a : bn_ok a -> bn_ok (with_neg a false).
Proof. intros (H1 & H2 & H3 & H4). repeat split; try apply H1; assumption. Qed.

Lemma is_exact_neg a v : is_exact (true, a) v -> v <> 0 -> is_exact (true, with_neg a (negb (neg a))) (- v).
Proof.
  intros (_ & O & V) Nz. unfold is_exact, bn_val in *. cbn [fst snd] in *. pose proof (ok_pos a O) as P.
  pose proof (abs_nonneg a O). destruct O as (O1 & O2 & O3 & O4).
  assert (top a <> 0) by (destruct (neg a); unfold bn_mem in O1; lia).
  change (bn_abs (with_neg a _)) with (bn_abs a). cbn [neg with_neg]. split; [reflexivity |].
  split; [split; [exact O1 | split; [exact O2 | split; [exact O3 |]]]; cbn; congruence |]. destruct (neg a); cbn [negb]; lia.
Qed.

Lemma expands_abs a n m : expands a n -> m <= n -> expands (with_neg a false) m.
Proof. intros H L. apply (expands_with a (d a) (top a) false eq_refl). intros k Hk. apply H. lia. Qed.

Lemma add_word_full a w : bn_ok a -> word_ok w -> expands a (top a + 1) ->
  exists res, BN_add_word alloc_ok uninit a w = Some res /\ is_exact res (bn_val a + w).
Proof.
  intros Ha Hw He. unfold BN_add_word. rewrite word_land by assumption. pose proof (ok_pos a Ha) as Pa. pose proof (abs_nonneg a Ha).
  pose proof (proj1 Ha) as Ma. unfold bn_mem in Ma. destruct (Z.eqb_spec w 0) as [-> | Nz].
  { eexists. split; [reflexivity |]. unfold is_exact. cbn [fst snd]. split; [reflexivity | split; [exact Ha | lia]]. }
  unfold BN_is_zero at 1. destruct (Z.eqb_spec (top a) 0) as [Et | Et].
  { eexists. split; [reflexivity |]. replace (bn_val a + w) with w by (unfold bn_val; destruct (neg a); lia).
    apply set_word_exact; [exact Ma | assumption | apply He; lia]. }
  unfold bn_val. destruct (neg a) eqn:Na; [| eexists; split; [reflexivity |]; now apply add_word_exact].
  destruct (sub_word_exact (with_neg a false) w (abs_ok a Ha) eq_refl Hw (expands_abs a _ 1 He ltac:(lia))) as ([ok a1] & -> & S).
  eexists. split; [reflexivity |]. change (bn_abs (with_neg a false)) with (bn_abs a) in S.
  pose proof S as (Eok & O & V). cbn [fst snd] in *. subst ok. replace (- bn_abs a + w) with (- (bn_abs a - w)) by lia.
  pose proof (ok_pos a1 O) as P1. pose proof (abs_nonneg a1 O). pose proof (proj1 O) as M1. unfold bn_mem in M1.
  unfold BN_is_zero. destruct (Z.eqb_spec (top a1) 0) as [Z0 | Z0]; cbn [negb].
  - assert (bn_abs a - w = 0) as -> by (rewrite <- V; unfold bn_val; destruct (neg a1); lia).
    rewrite <- V in S. unfold is_exact. cbn [fst snd]. repeat split; try apply O. unfold bn_val. destruct (neg a1); lia.
  - apply is_exact_neg; [exact S |]. rewrite <- V. unfold bn_val. destruct (neg a1); lia.
Qed.

Lemma sub_word_full a w : bn_ok a -> word_ok w -> expands a (top a + 1) ->
  exists res, BN_sub_word alloc_ok uninit a w = Some res /\ is_exact res (bn_val a - w).
Proof.
  intros Ha Hw He. unfold BN_sub_word. rewrite word_land by assumption. pose proof (ok_pos a Ha) as Pa. pose proof (abs_nonneg a Ha).
  pose proof (proj1 Ha) as Ma. unfold bn_mem in Ma. destruct (Z.eqb_spec w 0) as [-> | Nz].
  { eexists. split; [reflexivity |]. unfold is_exact. cbn [fst snd]. split; [reflexivity | split; [exact Ha | lia]]. }
  unfold BN_is_zero at 1. destruct (Z.eqb_spec (top a) 0) as [Et | Et].
  { replace (bn_val a - w) with (- w) by (unfold bn_val; destruct (neg a); lia). eexists. split; [| apply (set_word_neg a w Ma Hw Nz (He 1 ltac:(lia)))].
    now destruct (BN_set_word alloc_ok uninit a w). }
  unfold bn_val. destruct (neg a) eqn:Na.
  - destruct (add_word_exact (with_neg a false) w (abs_ok a Ha) eq_refl Hw (expands_abs a _ (top a + 1) He (Z.le_refl _))) as [S N].
    destruct (add_word_nonneg alloc_ok uninit (with_neg a false) w) as [ok a1]. eexists. split; [reflexivity |].
    pose proof S as (Eok & O & V). cbn [fst snd] in *. subst ok. change (bn_abs (with_neg a false)) with (bn_abs a) in *.
    pose proof (is_exact_neg a1 _ S) as S'. rewrite N in S'. replace (- bn_abs a - w) with (- (bn_abs a + w)) by lia.
    apply S'. unfold word_ok in Hw. lia.
  - apply sub_word_exact; try assumption. intros m Hm. apply He. lia.
Qed.

(** [BN_usub] refuses exactly the differences that would be negative. *)
Lemma usub_refuses r a b : bn_mem r -> bn_ok a -> bn_ok b -> bn_abs a < bn_abs b -> fst (BN_usub alloc_ok uninit r a b) = false.
Proof.
  intros Mr Ha Hb Hv. unfold BN_usub. destruct (Z.ltb_spec (top a - top b) 0) as [L | L]; [reflexivity |].
  assert (Et : top a = top b) by (destruct (Z.eq_dec (top a) (top b)); [assumption | pose proof (top_lt_abs b a Hb Ha ltac:(lia)); lia]).
  destruct (bn_wexpand _ _ r (top a)) as [ok r1]. destruct ok; cbn [negb]; [| reflexivity].
  destruct (ok_value a Ha) as (Ma & Wa & _), (ok_value b Hb) as (Mb & Wb & _).
  destruct (take_low_words a b Ma Mb ltac:(lia)) as (Lb & Lba & _ & ->). pose proof (length_words a Ma).
  destruct (single_loop usub_step 0 _) as [low c] eqn:E.
  destruct (combine_ok (words a) (words b) (length (words b)) Wa Wb Lba ltac:(lia)) as [Hc Lc]. rewrite firstn_all2 with (l := words b) in Hc, Lc by lia.
  destruct (single_loop_value usub_step (fun x => fst x - snd x) (-1) _ bit_ok usub_step_value _ 0 low c (or_introl eq_refl) Hc E)
    as (L1 & W1 & C1 & V1).
  rewrite le_val_map_sub in V1 by (rewrite length_firstn; lia). rewrite firstn_all2 in V1 by lia. fold (bn_abs a) (bn_abs b) in V1.
  pose proof (le_val_range _ W1). destruct C1 as [-> | ->]; [lia |].
  replace (top a - top b) with 0 by lia. reflexivity.
Qed.

End Arithmetic.

(** ** Deciding the invariant *)

Definition bn_check (bn : BIGNUM) : bool :=
  (0 <=? top bn) && (top bn <=? dmax bn) && forallb (fun x => (0 <=? x) && (x <? 2 ^ 64)) (words bn) &&
  (if top bn =? 0 then negb (neg bn) else negb (get (d bn) (top bn - 1) =? 0)).

Lemma bn_check_ok bn : bn_check bn = true -> bn_ok bn.
Proof.
  unfold bn_check. rewrite !andb_true_iff, !Z.leb_le, forallb_forall. intros (((H1 & H2) & H3) & H4).
  split; [now split |]. split.
  - apply Forall_forall. intros x Hx. specialize (H3 x Hx). rewrite andb_true_iff, Z.leb_le, Z.ltb_lt in H3. exact H3.
  - destruct (Z.eqb_spec (top bn) 0); rewrite negb_true_iff in H4.
    + split; [lia | intros _; exact H4].
    + apply Z.eqb_neq in H4. split; [intros _; exact H4 | contradiction].
Qed.

(** ** Predicates *)

Lemma all_zero_value l : words_ok l -> (forallb (fun x => x =? 0) l = true <-> le_val l = 0).
Proof.
  induction 1 as [| x l Hx Hl IH]; cbn [forallb le_val]; [tauto |]. unfold word_ok in Hx. pose proof (le_val_range l Hl).
  rewrite andb_true_iff, IH, Z.eqb_eq. lia.
Qed.

Lemma land_pred_pow2 w : 0 < w -> (Z.land w (w - 1) = 0 <-> exists k, 0 <= k /\ w = 2 ^ k).
Proof.
  intros Hw. split.
  - intros E. exists (Z.log2 w). pose proof (Z.log2_nonneg w). split; [assumption |]. destruct (Z.log2_spec w Hw) as [L1 L2].
    destruct (Z.eq_dec w (2 ^ Z.log2 w)) as [| N]; [assumption |]. exfalso.
    assert (B : Z.testbit (Z.land w (w - 1)) (Z.log2 w) = true).
    { rewrite Z.land_spec, Z.bit_log2 by assumption. replace (Z.log2 w) with (Z.log2 (w - 1)) at 1; [apply Z.bit_log2; lia |].
      apply Z.log2_unique; lia. }
    rewrite E, Z.bits_0 in B. discriminate.
  - intros (k & Hk & ->). replace (2 ^ k - 1) with (Z.ones k) by (rewrite Z.ones_equiv; lia).
    rewrite Z.land_ones by assumption. apply Z_mod_same_full.
Qed.

Lemma split_top bn : bn_ok bn -> 0 < top bn ->
  bn_abs bn = le_val (take (top bn - 1) (d bn)) + base (Z.to_nat (top bn - 1)) * get (d bn) (top bn - 1) /\
  0 <= le_val (take (top bn - 1) (d bn)) < base (Z.to_nat (top bn - 1)) /\ words_ok (take (top bn - 1) (d bn)) /\
  0 < get (d bn) (top bn - 1) < 2 ^ 64.
Proof.
  intros (M & W & T & _) Ht. unfold bn_mem, dmax in M. specialize (T Ht).
  assert (E : words bn = take (top bn - 1) (d bn) ++ [get (d bn) (top bn - 1)]).
  { unfold words. replace (top bn) with (top bn - 1 + 1) at 1 by lia. apply take_succ. lia. }
  rewrite E in W. apply Forall_app in W. destruct W as [W1 W2]. inversion_clear W2 as [| ? ? W3 _]. unfold word_ok in W3.
  assert (L : length (take (top bn - 1) (d bn)) = Z.to_nat (top bn - 1)).
  { pose proof (len_take (top bn - 1) (d bn) ltac:(lia)) as L. unfold len in L. lia. }
  unfold bn_abs. rewrite E, le_val_app, L. cbn [le_val]. pose proof (le_val_range _ W1) as R. rewrite L in R.
  repeat split; try assumption; lia.
Qed.

Lemma is_pow2_value bn : bn_ok bn -> (BN_is_pow2 bn = true <-> exists k, 0 <= k /\ bn_val bn = 2 ^ k).
Proof.
  intros Ok. pose proof (ok_pos bn Ok) as P. pose proof (abs_nonneg bn Ok). unfold BN_is_pow2, bn_val.
  pose proof (proj1 Ok) as M. unfold bn_mem in M.
  destruct (Z.eqb_spec (top bn) 0) as [Et | Et]; cbn [orb].
  { split; [discriminate |]. intros (k & Hk & E). pose proof (Z.pow_pos_nonneg 2 k). destruct (neg bn); lia. }
  destruct (neg bn) eqn:N.
  { split; [discriminate |]. intros (k & Hk & E). pose proof (Z.pow_pos_nonneg 2 k). lia. }
  destruct (split_top bn Ok ltac:(lia)) as (E & R & Wl & Rw).
  set (lo := take (top bn - 1) (d bn)) in *. set (w := get (d bn) (top bn - 1)) in *. set (m := Z.to_nat (top bn - 1)) in *.
  pose proof (all_zero_value lo Wl) as Z0. pose proof (land_pred_pow2 w ltac:(lia)) as Pw. rewrite E.
  assert (Pos : 0 <= 64 * Z.of_nat m) by lia.
  destruct (forallb (fun x => x =? 0) lo); cbn [negb].
  - rewrite Z.eqb_eq, Pw. destruct Z0 as [Z0 _]. rewrite (Z0 eq_refl). unfold base. split.
    + intros (k & Hk & ->). exists (64 * Z.of_nat m + k). split; [lia |]. rewrite Z.pow_add_r by lia. lia.
    + intros (k & Hk & Ek). assert (64 * Z.of_nat m <= k).
      { destruct (Z.le_gt_cases (64 * Z.of_nat m) k); [assumption |]. pose proof (Z.pow_lt_mono_r 2 k (64 * Z.of_nat m)). nia. }
      exists (k - 64 * Z.of_nat m). split; [lia |]. rewrite Z.pow_sub_r by lia. rewrite <- Ek.
      rewrite Z.add_0_l, Z.mul_comm. symmetry. apply Z.div_mul. pose proof (Z.pow_pos_nonneg 2 (64 * Z.of_nat m)). lia.
  - split; [discriminate |]. intros (k & Hk & Ek). exfalso. assert (le_val lo <> 0) by (intros X; apply Z0 in X; discriminate).
    unfold base in *. assert (64 * Z.of_nat m <= k).
    { destruct (Z.le_gt_cases (64 * Z.of_nat m) k); [assumption |]. pose proof (Z.pow_lt_mono_r 2 k (64 * Z.of_nat m)). nia. }
    replace k with (64 * Z.of_nat m + (k - 64 * Z.of_nat m)) in Ek by lia. rewrite Z.pow_add_r in Ek by lia.
    set (B := 2 ^ (64 * Z.of_nat m)) in *. set (q := 2 ^ (k - 64 * Z.of_nat m)) in *.
    assert (Hmod : (le_val lo + B * w) mod B = 0) by (rewrite Ek, Z.mul_comm; apply Z_mod_mult).
    rewrite Z.mul_comm, Z_mod_plus_full, Z.mod_small in Hmod by lia. lia.
Qed.

Lemma abs_is_word_value bn w : bn_ok bn -> word_ok w -> (BN_abs_is_word bn w = true <-> bn_abs bn = w).
Proof.
  intros Ok Hw. unfold BN_abs_is_word, word_ok in *. destruct (ok_value bn Ok) as (M & W & R & T). pose proof (length_words bn M) as L. unfold bn_mem in M.
  destruct (Z.eqb_spec (top bn) 1) as [E1 | E1].
  { pose proof (get_words bn 0 ltac:(lia)) as G. rewrite Z.eqb_eq. rewrite <- G. unfold bn_abs. rewrite E1 in L.
    destruct (words bn) as [| x [| y l]]; try discriminate. cbn. split; lia. }
  destruct (Z.eqb_spec (top bn) 0) as [E0 | E0].
  { pose proof (ok_pos bn Ok). rewrite Z.eqb_eq. split; lia. }
  split; [discriminate |]. intros E. specialize (T ltac:(lia)). pose proof (base_le 1 (Z.to_nat (top bn - 1)) ltac:(lia)).
  change (base 1) with (2 ^ 64) in *. lia.
Qed.

Lemma is_odd_value bn : bn_ok bn -> BN_is_odd bn = Z.odd (bn_val bn).
Proof.
  intros Ok. unfold BN_is_odd. destruct (ok_value bn Ok) as (M & W & R & T). pose proof (length_words bn M) as L. unfold bn_mem in M.
  assert (E : Z.odd (bn_val bn) = Z.odd (bn_abs bn)) by (unfold bn_val; destruct (neg bn); [apply Z.odd_opp | reflexivity]).
  rewrite E. destruct (Z.ltb_spec 0 (top bn)) as [Ht | Ht]; cbn [andb].
  - pose proof (get_words bn 0 ltac:(lia)) as G. rewrite <- G. unfold bn_abs. destruct (words bn) as [| x l]; [cbn in L; lia |].
    cbn [le_val]. replace (2 ^ 64 * le_val l) with (2 * (2 ^ 63 * le_val l)) by lia. rewrite Z.odd_add_mul_2.
    change (get (x :: l) 0) with x. change 1 with (Z.ones 1) at 1. rewrite Z.land_ones by lia. change (2 ^ 1) with 2.
    rewrite Zmod_odd. now destruct (Z.odd x).
  - assert (bn_abs bn = 0) as -> by (pose proof (ok_pos bn Ok); lia). reflexivity.
Qed.

Lemma take_mem_words_of bn : bn_mem bn -> take (8 * top bn) (mem_bytes (d bn)) = mem_bytes (words bn).
Proof.
  intros M. pose proof (len_words bn M) as L. rewrite <- (take_drop (top bn) (d bn)) at 1. unfold mem_bytes. rewrite flat_map_app.
  apply take_app_exact. fold (words bn). change (flat_map word_bytes (words bn)) with (mem_bytes (words bn)). rewrite len_mem_bytes. lia.
Qed.

Lemma mem_bytes_inj a b : words_ok a -> words_ok b -> length a = length b -> mem_bytes a = mem_bytes b -> a = b.
Proof.
  intros Ha Hb Hl E. rewrite !mem_bytes_value in E by assumption. apply (f_equal (@rev Z)) in E. rewrite !rev_involutive in E.
  apply (f_equal be_val) in E. pose proof (le_val_range a Ha) as Ra. pose proof (le_val_range b Hb) as Rb. rewrite base_256 in Ra, Rb.
  replace (8 * Z.of_nat (length a)) with (Z.of_nat (8 * length a)) in Ra by lia. replace (8 * Z.of_nat (length b)) with (Z.of_nat (8 * length b)) in Rb by lia.
  rewrite !be_val_enc in E by assumption. now apply le_val_inj.
Qed.

Lemma equal_consttime_value a b : bn_ok a -> bn_ok b -> BN_equal_consttime a b = (bn_val a =? bn_val b).
Proof.
  intros Ha Hb. destruct (ok_value a Ha) as (Ma & Wa & _), (ok_value b Hb) as (Mb & Wb & _).
  pose proof (neg_pos a Ha) as Na. pose proof (neg_pos b Hb) as Nb. pose proof (abs_nonneg a Ha). pose proof (abs_nonneg b Hb).
  unfold BN_equal_consttime, bn_val. destruct (Z.eqb_spec (top a) (top b)) as [Et | Et]; cbn [negb].
  - rewrite take_mem_words_of by assumption. rewrite Et, take_mem_words_of by assumption.
    pose proof (length_words a Ma) as La. pose proof (length_words b Mb) as Lb.
    assert (E : (CRYPTO_memcmp (mem_bytes (words a)) (mem_bytes (words b)) =? 0) = (bn_abs a =? bn_abs b)).
    { unfold CRYPTO_memcmp. pose proof (memcmp_loop_zero (mem_bytes (words a)) (mem_bytes (words b)) 0 ltac:(rewrite !length_mem_bytes; lia)) as Z0.
      destruct (Z.eqb_spec (bn_abs a) (bn_abs b)) as [E | E].
      - apply Z.eqb_eq, Z0. split; [reflexivity |]. f_equal. apply le_val_inj; try assumption. lia.
      - apply Z.eqb_neq. intros X. apply Z0 in X. destruct X as [_ X]. apply E. unfold bn_abs. f_equal. apply mem_bytes_inj; try assumption. lia. }
    rewrite E. destruct (neg a), (neg b), (Z.eqb_spec (bn_abs a) (bn_abs b)) as [Ea | Ea];
      (etransitivity; [vm_compute; reflexivity |]); symmetry; rewrite ?Z.eqb_eq, ?Z.eqb_neq; try specialize (Na eq_refl); try specialize (Nb eq_refl); lia.
  - symmetry. apply Z.eqb_neq. destruct (Z.lt_ge_cases (top a) (top b)) as [L | L];
      [pose proof (top_lt_abs a b Ha Hb L) | pose proof (top_lt_abs b a Hb Ha ltac:(lia))];
      destruct (neg a), (neg b); try specialize (Na eq_refl); try specialize (Nb eq_refl); lia.
Qed.

(** ** The properties *)

(** Signed arithmetic is exact. [BN_add] and [BN_sub] store the exact sum and
    difference in a normalised result, with the right sign in all eight cases and
    no negative zero, whenever the result can hold one word more than the longer
    operand; [BN_uadd] and [BN_usub] do so for magnitudes, and [BN_usub] refuses
    exactly the differences that would be negative. Adding a word to and
    subtracting it from a number of either sign is exact, crosses zero with the
    right sign and never reads past the last word. *)
Lemma BN_add_sub_exact :
  (forall alloc_ok uninit r a b,
    (forall n, 0 <= n -> len (uninit n) = n) -> bn_mem r -> bn_ok a -> bn_ok b ->
      expands alloc_ok uninit r (Z.max (top a) (top b) + 1) ->
      is_exact (BN_add alloc_ok uninit r a b) (bn_val a + bn_val b) /\
      is_exact (BN_sub alloc_ok uninit r a b) (bn_val a - bn_val b) /\
      is_exact (BN_uadd alloc_ok uninit r a b) (bn_abs a + bn_abs b) /\
      (if bn_abs b <=? bn_abs a then is_exact (BN_usub alloc_ok uninit r a b) (bn_abs a - bn_abs b)
       else fst (BN_usub alloc_ok uninit r a b) = false)) /\
  (forall alloc_ok uninit a w,
    (forall n, 0 <= n -> len (uninit n) = n) -> bn_ok a -> word_ok w -> expands alloc_ok uninit a (top a + 1) ->
      (exists res, BN_add_word alloc_ok uninit a w = Some res /\ is_exact res (bn_val a + w)) /\
      (exists res, BN_sub_word alloc_ok uninit a w = Some res /\ is_exact res (bn_val a - w)) /\
      is_exact (BN_set_word alloc_ok uninit a w) w).
Proof.
  split.
  { intros alloc_ok uninit r a b U Mr Ha Hb He. split; [now apply add_exact | split; [now apply sub_exact | split]].
    - destruct (uadd_exact alloc_ok uninit U r a b Mr Ha Hb He) as (r' & -> & O & V & N).
      unfold is_exact, bn_val. cbn [fst snd]. now rewrite N.
    - destruct (Z.leb_spec (bn_abs b) (bn_abs a)) as [L | L]; [| now apply usub_refuses].
      destruct (usub_exact alloc_ok uninit U r a b Mr Ha Hb L) as (r' & -> & O & V & N); [intros m Hm; apply He; lia |].
      unfold is_exact, bn_val. cbn [fst snd]. now rewrite N. }
  { intros alloc_ok uninit a w U Ha Hw He. split; [now apply add_word_full | split; [now apply sub_word_full |]].
    pose proof (proj1 Ha) as M. apply set_word_exact; try assumption. apply He. unfold bn_mem in M. lia. }
Qed.


Section Storage.
Variable alloc_ok : Z -> bool.
Variable uninit : Z -> list Z.
Hypothesis uninit_len : forall n, 0 <= n -> len (uninit n) = n.

Lemma set_words_exact r l : bn_mem r -> words_ok l -> fst (bn_wexpand alloc_ok uninit r (len l)) = true ->
  is_exact (bn_set_words alloc_ok uninit r l) (le_val l).
Proof.
  intros Mr Wl He. pose proof (len_nonneg l). unfold bn_set_words.
  destruct (bn_wexpand _ _ r (len l)) as [ok r1] eqn:Ew. cbn in He. subst ok. cbn [negb].
  destruct (wexpand_spec alloc_ok uninit uninit_len r (len l) true r1 Mr ltac:(lia) Ew) as [_ (M1 & D1 & _)]; [reflexivity |].
  destruct (put_words_spec r1 l (len l) eq_refl D1) as (P1 & P2 & _).
  destruct (correct_top_ok (put_words r1 l (len l)) P1) as (C1 & C2 & _); [now rewrite P2 |].
  unfold is_exact, bn_val. cbn [fst snd neg with_neg]. change (bn_abs (with_neg ?x false)) with (bn_abs x).
  rewrite C2. unfold bn_abs at 1. rewrite P2. split; [reflexivity | split; [now apply abs_ok | reflexivity]].
Qed.

Lemma copy_exact r a : bn_mem r -> bn_ok a -> fst (bn_wexpand alloc_ok uninit r (top a)) = true ->
  is_exact (BN_copy alloc_ok uninit r a) (bn_val a).
Proof.
  intros Mr Ha He. destruct (ok_value a Ha) as (Ma & Wa & _ & T). pose proof Ma as Ma'. unfold bn_mem in Ma'. unfold BN_copy.
  destruct (bn_wexpand _ _ r (top a)) as [ok r1] eqn:Ew. cbn in He. subst ok. cbn [negb].
  destruct (wexpand_spec alloc_ok uninit uninit_len r (top a) true r1 Mr ltac:(lia) Ew) as [_ (M1 & D1 & _)]; [reflexivity |].
  destruct (put_words_spec r1 (words a) (top a) (eq_sym (len_words a Ma)) D1) as (P1 & P2 & P3 & _).
  unfold is_exact. cbn [fst snd]. split; [reflexivity |].
  split; [| unfold bn_val, bn_abs; cbn [neg with_neg]; rewrite words_with_neg, P2; reflexivity].
  apply ok_intro; [exact P1 | now rewrite words_with_neg, P2 | |].
  - change (top (with_neg (put_words r1 (words a) (top a)) (neg a))) with (top (put_words r1 (words a) (top a))).
    unfold bn_abs. rewrite words_with_neg, P2, P3. exact T.
  - cbn. intros E. now apply Ha.
Qed.

Lemma wexpand_exact a n : bn_ok a -> 0 <= n -> fst (bn_wexpand alloc_ok uninit a n) = true ->
  is_exact (bn_wexpand alloc_ok uninit a n) (bn_val a) /\ n <= dmax (snd (bn_wexpand alloc_ok uninit a n)).
Proof.
  intros Ha Hn He. destruct (ok_value a Ha) as (Ma & Wa & _ & T).
  destruct (bn_wexpand _ _ a n) as [ok a1] eqn:Ew. cbn in He. subst ok.
  destruct (wexpand_spec alloc_ok uninit uninit_len a n true a1 Ma Hn Ew) as [_ (M1 & D1 & W1 & T1 & N1)]; [reflexivity |].
  unfold is_exact. cbn [fst snd]. split; [| exact D1]. split; [reflexivity |].
  split; [| unfold bn_val, bn_abs; now rewrite W1, N1].
  apply ok_intro; [exact M1 | now rewrite W1 | unfold bn_abs; now rewrite W1, T1 | rewrite T1, N1; apply Ha].
Qed.

Lemma set_negative_exact a sign : bn_ok a -> is_exact (true, BN_set_negative a sign) (if sign then - bn_abs a else bn_abs a).
Proof.
  intros Ha. pose proof (ok_pos a Ha) as P. pose proof (abs_nonneg a Ha).
  unfold BN_set_negative, BN_is_zero, is_exact, bn_val. cbn [fst snd neg with_neg].
  change (bn_abs (with_neg a (sign && negb (top a =? 0)))) with (bn_abs a). split; [reflexivity |]. split.
  - destruct Ha as (H1 & H2 & H3 & H4). split; [exact H1 | split; [exact H2 | split; [exact H3 |]]]. cbn. intros ->. now rewrite andb_false_r.
  - destruct sign, (Z.eqb_spec (top a) 0); cbn [negb andb]; lia.
Qed.

Lemma expand_exact a bits : bn_ok a -> 0 <= bits < 2 ^ 64 -> fst (bn_expand alloc_ok uninit a bits) = true ->
  is_exact (bn_expand alloc_ok uninit a bits) (bn_val a) /\ bits <= 64 * dmax (snd (bn_expand alloc_ok uninit a bits)).
Proof.
  intros Ha Hb. unfold bn_expand. set (u := u64 (u64 (bits + 64) - 1)). assert (Hu : u = bits + 63 \/ u < bits) by (unfold u; word_lia).
  assert (0 <= u) by apply wrap_range, Z.leb_le, eq_refl.
  destruct (Z.ltb_spec u bits); [discriminate |]. intros He. assert (0 <= u / 64) by (apply Z.div_pos; lia).
  destruct (wexpand_exact a (u / 64) Ha ltac:(lia) He) as [E D]. split; [exact E |].
  pose proof (Z.div_mod u 64). pose proof (Z.mod_pos_bound u 64). lia.
Qed.
End Storage.

(** Storing and comparing follow the values. [bn_set_words] stores the value of
    any word array normalised and nonnegative, [BN_copy] and [BN_dup] make equal
    numbers, growing the storage keeps the value and makes the room asked for,
    and [BN_set_negative] sets the sign of everything but zero. [BN_cmp] is the
    sign of the difference, [BN_ucmp] has that of the magnitudes,
    [BN_equal_consttime] decides equality, and the predicates on zero, one,
    words, parity and powers of two decide what they name. *)
Lemma BN_values_exact :
  (forall alloc_ok uninit r a l sign,
    (forall n, 0 <= n -> len (uninit n) = n) -> bn_mem r -> bn_ok a -> words_ok l ->
      expands alloc_ok uninit r (Z.max (len l) (top a)) -> expands alloc_ok uninit a (len l) ->
      is_exact (bn_set_words alloc_ok uninit r l) (le_val l) /\
      is_exact (BN_copy alloc_ok uninit r a) (bn_val a) /\
      is_exact (bn_wexpand alloc_ok uninit a (len l)) (bn_val a) /\ len l <= dmax (snd (bn_wexpand alloc_ok uninit a (len l))) /\
      is_exact (true, BN_set_negative a sign) (if sign then - bn_abs a else bn_abs a) /\
      (alloc_ok 24 = true -> expands alloc_ok uninit (mk_bn [] 0 false false) (top a) ->
       exists c, BN_dup alloc_ok uninit (Some a) = Some c /\ bn_ok c /\ bn_val c = bn_val a) /\
      (forall bits, 0 <= bits < 2 ^ 64 -> fst (bn_expand alloc_ok uninit a bits) = true ->
       is_exact (bn_expand alloc_ok uninit a bits) (bn_val a) /\ bits <= 64 * dmax (snd (bn_expand alloc_ok uninit a bits)))) /\
  (forall a b w,
    bn_ok a -> bn_ok b -> word_ok w ->
      BN_cmp (Some a) (Some b) = Z.sgn (bn_val a - bn_val b) /\
      Z.sgn (BN_ucmp a b) = Z.sgn (bn_abs a - bn_abs b) /\
      BN_equal_consttime a b = (bn_val a =? bn_val b) /\
      BN_cmp_word a w = Z.sgn (bn_val a - w) /\
      BN_is_zero a = (bn_val a =? 0) /\ BN_is_one a = (bn_val a =? 1) /\
      BN_is_word a w = (bn_val a =? w) /\ BN_abs_is_word a w = (Z.abs (bn_val a) =? w) /\
      BN_is_odd a = Z.odd (bn_val a) /\
      (BN_is_pow2 a = true <-> exists k, 0 <= k /\ bn_val a = 2 ^ k)).
Proof.
  split.
  { intros alloc_ok uninit r a l sign U Mr Ha Wl He Hea. pose proof (len_nonneg l). destruct (ok_value a Ha) as (Ma & Wa & _). pose proof Ma as Ma'. unfold bn_mem in Ma'.
    split; [apply set_words_exact; try assumption; apply He; lia |].
    split; [apply copy_exact; try assumption; apply He; lia |].
    destruct (wexpand_exact alloc_ok uninit U a (len l) Ha ltac:(lia) (Hea (len l) ltac:(lia))) as [E D].
    split; [exact E | split; [exact D |]]. split; [now apply set_negative_exact |].
    split; [| intros bits Hb Hx; now apply expand_exact].
    intros Hn He0. unfold BN_dup, BN_new. rewrite Hn.
    assert (M0 : bn_mem (mk_bn [] 0 false false)) by (split; apply Z.leb_le; reflexivity).
    destruct (copy_exact alloc_ok uninit U _ a M0 Ha (He0 (top a) ltac:(lia))) as (C1 & C2 & C3).
    destruct (BN_copy alloc_ok uninit _ a) as [ok c]. cbn in C1, C2, C3. subst ok. now exists c. }
  { intros a b w Ha Hb Hw. pose proof (abs_nonneg a Ha) as A0. pose proof (ok_pos a Ha) as P. pose proof (proj1 Ha) as M. unfold bn_mem in M.
    pose proof (neg_pos a Ha) as Np. assert (Ev : bn_val a = if neg a then - bn_abs a else bn_abs a) by reflexivity.
    assert (Eb : forall x y : bool, (x = true <-> y = true) -> x = y) by (intros [] [] X; intuition congruence).
    split; [now apply cmp_sgn |]. split; [now apply ucmp_sgn |]. split; [now apply equal_consttime_value |]. split.
    { set (bw := mk_bn [w] (b2z (0 <? w)) false true). unfold word_ok in Hw.
      assert (Ob : bn_ok bw /\ bn_val bw = w).
      { unfold bw, bn_val, bn_abs, words, bn_ok, bn_mem, dmax. cbn [d top neg]. destruct (Z.ltb_spec 0 w); cbn [b2z].
        - change (take 1 [w]) with [w]. cbn. repeat split; try lia. repeat constructor; lia.
        - change (take 0 [w]) with (@nil Z). cbn. repeat split; try lia. constructor. }
      destruct Ob as [Ob Vb]. unfold BN_cmp_word. fold bw. rewrite cmp_sgn by assumption. now rewrite Vb. }
    assert (Aw := abs_is_word_value a w Ha Hw).
    split; [| split; [| split; [| split; [| split]]]]; [| | | | now apply is_odd_value | now apply is_pow2_value]; apply Eb.
    - unfold BN_is_zero. rewrite !Z.eqb_eq. rewrite Ev. destruct (neg a); lia.
    - unfold BN_is_one. rewrite andb_true_iff, abs_is_word_value by (assumption || (unfold word_ok; lia)).
      rewrite Z.eqb_eq, Ev. destruct (neg a); cbn [negb]; [specialize (Np eq_refl) |]; intuition (lia || discriminate).
    - unfold BN_is_word, word_ok in *. rewrite andb_true_iff, orb_true_iff, Aw, !Z.eqb_eq, Ev.
      destruct (neg a); cbn [negb]; [specialize (Np eq_refl) |]; intuition (lia || discriminate).
    - rewrite Aw, Z.eqb_eq, Ev. destruct (neg a); lia. }
Qed.

(** C15: signed arithmetic and storage follow the values. [BN_add] and [BN_sub] store the exact sum and difference in a normalised result, with the right sign in all eight cases and no negative zero, whenever the result can hold one word more than the longer operand; [BN_uadd] and [BN_usub] do so for magnitudes, and [BN_usub] refuses exactly the differences that would be negative; words are added and subtracted exactly, across zero too. Storing, copying, growing and setting the sign keep the value and the normal form, and comparisons and predicates decide what they name. *)
Theorem BN_arith_exact :
  ((forall alloc_ok uninit r a b,
        (forall n, 0 <= n -> len (uninit n) = n) -> bn_mem r -> bn_ok a -> bn_ok b ->
          expands alloc_ok uninit r (Z.max (top a) (top b) + 1) ->
          is_exact (BN_add alloc_ok uninit r a b) (bn_val a + bn_val b) /\
          is_exact (BN_sub alloc_ok uninit r a b) (bn_val a - bn_val b) /\
          is_exact (BN_uadd alloc_ok uninit r a b) (bn_abs a + bn_abs b) /\
          (if bn_abs b <=? bn_abs a then is_exact (BN_usub alloc_ok uninit r a b) (bn_abs a - bn_abs b)
           else fst (BN_usub alloc_ok uninit r a b) = false)) /\
      (forall alloc_ok uninit a w,
        (forall n, 0 <= n -> len (uninit n) = n) -> bn_ok a -> word_ok w -> expands alloc_ok uninit a (top a + 1) ->
          (exists res, BN_add_word alloc_ok uninit a w = Some res /\ is_exact res (bn_val a + w)) /\
          (exists res, BN_sub_word alloc_ok uninit a w = Some res /\ is_exact res (bn_val a - w)) /\
          is_exact (BN_set_word alloc_ok uninit a w) w)) /\
  ((forall alloc_ok uninit r a l sign,
        (forall n, 0 <= n -> len (uninit n) = n) -> bn_mem r -> bn_ok a -> words_ok l ->
          expands alloc_ok uninit r (Z.max (len l) (top a)) -> expands alloc_ok uninit a (len l) ->
          is_exact (bn_set_words alloc_ok uninit r l) (le_val l) /\
          is_exact (BN_copy alloc_ok uninit r a) (bn_val a) /\
          is_exact (bn_wexpand alloc_ok uninit a (len l)) (bn_val a) /\ len l <= dmax (snd (bn_wexpand alloc_ok uninit a (len l))) /\
          is_exact (true, BN_set_negative a sign) (if sign then - bn_abs a else bn_abs a) /\
          (alloc_ok 24 = true -> expands alloc_ok uninit (mk_bn [] 0 false false) (top a) ->
           exists c, BN_dup alloc_ok uninit (Some a) = Some c /\ bn_ok c /\ bn_val c = bn_val a) /\
          (forall bits, 0 <= bits < 2 ^ 64 -> fst (bn_expand alloc_ok uninit a bits) = true ->
           is_exact (bn_expand alloc_ok uninit a bits) (bn_val a) /\ bits <= 64 * dmax (snd (bn_expand alloc_ok uninit a bits)))) /\
      (forall a b w,
        bn_ok a -> bn_ok b -> word_ok w ->
          BN_cmp (Some a) (Some b) = Z.sgn (bn_val a - bn_val b) /\
          Z.sgn (BN_ucmp a b) = Z.sgn (bn_abs a - bn_abs b) /\
          BN_equal_consttime a b = (bn_val a =? bn_val b) /\
          BN_cmp_word a w = Z.sgn (bn_val a - w) /\
          BN_is_zero a = (bn_val a =? 0) /\ BN_is_one a = (bn_val a =? 1) /\
          BN_is_word a w = (bn_val a =? w) /\ BN_abs_is_word a w = (Z.abs (bn_val a) =? w) /\
          BN_is_odd a = Z.odd (bn_val a) /\
          (BN_is_pow2 a = true <-> exists k, 0 <= k /\ bn_val a = 2 ^ k))).
Proof. split; [exact (@BN_add_sub_exact) | exact (@BN_values_exact)]. Qed.

Lemma BN_arith_exact_witness :
  ((let alloc := fun _ : Z => true in
      let uninit := fun n => repeat 42 (Z.to_nat n) in
      let r := mk_bn [] 0 false false in
      let a := mk_bn [2 ^ 64 - 1; 2 ^ 64 - 1; 0] 2 true false in
      let b := mk_bn [1] 1 true false in
      is_exact (BN_add alloc uninit r a b) (bn_val a + bn_val b) /\
      is_exact (BN_sub alloc uninit r a b) (bn_val a - bn_val b) /\
      is_exact (BN_uadd alloc uninit r a b) (bn_abs a + bn_abs b) /\
      (if bn_abs b <=? bn_abs a then is_exact (BN_usub alloc uninit r a b) (bn_abs a - bn_abs b)
       else fst (BN_usub alloc uninit r a b) = false)) /\
    (let alloc := fun _ : Z => true in
      let uninit := fun n => repeat 42 (Z.to_nat n) in
      let a := mk_bn [0; 1] 2 true false in
      (exists res, BN_add_word alloc uninit a 3 = Some res /\ is_exact res (bn_val a + 3)) /\
      (exists res, BN_sub_word alloc uninit a 3 = Some res /\ is_exact res (bn_val a - 3)) /\
      is_exact (BN_set_word alloc uninit a 3) 3)) /\
  ((let alloc := fun _ : Z => true in
      let uninit := fun n => repeat 42 (Z.to_nat n) in
      let r := mk_bn [] 0 false false in
      let a := mk_bn [5] 1 true false in
      let l := [4; 0] in
      is_exact (bn_set_words alloc uninit r l) (le_val l) /\
      is_exact (BN_copy alloc uninit r a) (bn_val a) /\
      is_exact (bn_wexpand alloc uninit a (len l)) (bn_val a) /\ len l <= dmax (snd (bn_wexpand alloc uninit a (len l))) /\
      is_exact (true, BN_set_negative a true) (if true then - bn_abs a else bn_abs a) /\
      (alloc 24 = true -> expands alloc uninit (mk_bn [] 0 false false) (top a) ->
       exists c, BN_dup alloc uninit (Some a) = Some c /\ bn_ok c /\ bn_val c = bn_val a) /\
      (forall bits, 0 <= bits < 2 ^ 64 -> fst (bn_expand alloc uninit a bits) = true ->
       is_exact (bn_expand alloc uninit a bits) (bn_val a) /\ bits <= 64 * dmax (snd (bn_expand alloc uninit a bits)))) /\
    (let a := mk_bn [0; 1; 7] 2 false false in
      let b := mk_bn [5] 1 true false in
      BN_cmp (Some a) (Some b) = Z.sgn (bn_val a - bn_val b) /\
      Z.sgn (BN_ucmp a b) = Z.sgn (bn_abs a - bn_abs b) /\
      BN_equal_consttime a b = (bn_val a =? bn_val b) /\
      BN_cmp_word a 9 = Z.sgn (bn_val a - 9) /\
      BN_is_zero a = (bn_val a =? 0) /\ BN_is_one a = (bn_val a =? 1) /\
      BN_is_word a 9 = (bn_val a =? 9) /\ BN_abs_is_word a 9 = (Z.abs (bn_val a) =? 9) /\
      BN_is_odd a = Z.odd (bn_val a) /\
      (BN_is_pow2 a = true <-> exists k, 0 <= k /\ bn_val a = 2 ^ k))).
Proof.
  split.
  { split.
    { apply (proj1 (proj1 BN_arith_exact) (fun _ => true) (fun n => repeat 42 (Z.to_nat n)) (mk_bn [] 0 false false)
        (mk_bn [2 ^ 64 - 1; 2 ^ 64 - 1; 0] 2 true false) (mk_bn [1] 1 true false)).
      - intros n Hn. rewrite len_repeat. lia.
      - split; apply Z.leb_le; reflexivity.
      - apply bn_check_ok. reflexivity.
      - apply bn_check_ok. reflexivity.
      - intros m Hm. cbn in Hm. unfold bn_wexpand. destruct (m <=? _); [reflexivity |].
        change (INT_MAX / (4 * 64)) with 8388607. destruct (Z.ltb_spec 8388607 m); [lia | reflexivity]. }
    { apply (proj2 (proj1 BN_arith_exact) (fun _ => true) (fun n => repeat 42 (Z.to_nat n)) (mk_bn [0; 1] 2 true false) 3).
      - intros n Hn. rewrite len_repeat. lia.
      - apply bn_check_ok. reflexivity.
      - split; [apply Z.leb_le | apply Z.ltb_lt]; reflexivity.
      - intros m Hm. cbn in Hm. unfold bn_wexpand. destruct (m <=? _); [reflexivity |].
        change (INT_MAX / (4 * 64)) with 8388607. destruct (Z.ltb_spec 8388607 m); [lia | reflexivity]. } }
  { split.
    { apply (proj1 (proj2 BN_arith_exact) (fun _ => true) (fun n => repeat 42 (Z.to_nat n)) (mk_bn [] 0 false false) (mk_bn [5] 1 true false) [4; 0] true).
      - intros n Hn. rewrite len_repeat. lia.
      - split; apply Z.leb_le; reflexivity.
      - apply bn_check_ok. reflexivity.
      - repeat constructor; unfold word_ok; lia.
      - intros m Hm. cbn in Hm. unfold bn_wexpand. destruct (m <=? _); [reflexivity |].
        change (INT_MAX / (4 * 64)) with 8388607. destruct (Z.ltb_spec 8388607 m); [lia | reflexivity].
      - intros m Hm. cbn in Hm. unfold bn_wexpand. destruct (m <=? _); [reflexivity |].
        change (INT_MAX / (4 * 64)) with 8388607. destruct (Z.ltb_spec 8388607 m); [lia | reflexivity]. }
    { apply (proj2 (proj2 BN_arith_exact) (mk_bn [0; 1; 7] 2 false false) (mk_bn [5] 1 true false) 9).
      - apply bn_check_ok. reflexivity.
      - apply bn_check_ok. reflexivity.
      - split; [apply Z.leb_le | apply Z.ltb_lt]; reflexivity. } }
Defined.
