(* ===== verification/BnBytes.v ===== *)
(** * Big integers and bytes (crypto/fipsmodule/bn: bytes.c, bn.c)

    Conversions between a [BIGNUM] and big- or little-endian byte strings. The
    little-endian ones copy memory, so the bytes of a word array are spelled
    out ([BnWords.mem_bytes], [mem_words]). *)

From S2P Require Import Prelude Buffers BnWords Bignum.

Definition BN_BITS2 : Z := 64.
Definition BN_BYTES : Z := 8.

(** ** bn.c: sizes *)

(** The table [bits]. *)
Definition bits_table : list Z :=
  [0; 1; 2; 2] ++ repeat 3 4 ++ repeat 4 8 ++ repeat 5 16 ++ repeat 6 32 ++ repeat 7 64 ++ repeat 8 128.

Definition BN_num_bits_word (l : Z) : Z :=
  let bits i := get bits_table i in
  if negb (Z.land l 0xffffffff00000000 =? 0) then
    if negb (Z.land l 0xffff000000000000 =? 0) then
      if negb (Z.land l 0xff00000000000000 =? 0) then bits (Z.shiftr l 56) + 56 else bits (Z.shiftr l 48) + 48
    else
      if negb (Z.land l 0x0000ff0000000000 =? 0) then bits (Z.shiftr l 40) + 40 else bits (Z.shiftr l 32) + 32
  else
    if negb (Z.land l 0xffff0000 =? 0) then
      if negb (Z.land l 0xff000000 =? 0) then bits (Z.shiftr l 24) + 24 else bits (Z.shiftr l 16) + 16
    else
      if negb (Z.land l 0xff00 =? 0) then bits (Z.shiftr l 8) + 8 else bits l.

Definition BN_num_bits (bn : BIGNUM) : Z :=
  let max := top bn - 1 in
  if BN_is_zero bn then 0 else u32 (max * BN_BITS2 + BN_num_bits_word (get (d bn) max)).

Definition BN_num_bytes (bn : BIGNUM) : Z := u32 (BN_num_bits bn + 7) / 8.

(** ** Reading words from memory *)

(** [n] words read from memory. *)
Fixpoint mem_words (n : nat) (l : list Z) : list Z :=
  match n with
  | O => []
  | S n => be_val (rev (take 8 l)) :: mem_words n (drop 8 l)
  end.

(** ** bytes.c *)

Section Bytes.

Variable alloc_ok : Z -> bool.
Variable uninit : Z -> list Z.

(** [while (len--)]: [num_words] words left, [m] bytes to come in the current
    one after this. *)
Fixpoint bin2bn_loop (inp : list Z) (word m num_words : Z) (dd : list Z) : list Z :=
  match inp with
  | [] => dd
  | b :: inp =>
      let word := Z.lor (u64 (Z.shiftl word 8)) b in
      if m =? 0 then bin2bn_loop inp 0 (BN_BYTES - 1) (num_words - 1) (set dd (num_words - 1) word)
      else bin2bn_loop inp word (m - 1) num_words dd
  end.

(** [None] is NULL, which leaves a caller's object as it was. *)
Definition BN_bin2bn (inp : list Z) (ret : option BIGNUM) : option BIGNUM :=
  let* ret := match ret with None => BN_new alloc_ok | Some ret => Some ret end in
  if len inp =? 0 then Some (mk_bn (d ret) 0 (neg ret) (is_static ret)) else
  let num_words := (len inp - 1) / BN_BYTES + 1 in
  let m := (len inp - 1) mod BN_BYTES in
  let (ok, ret) := bn_wexpand alloc_ok uninit ret num_words in
  guard ok in
  Some (bn_correct_top (mk_bn (bin2bn_loop inp 0 m num_words (d ret)) num_words false (is_static ret))).

Definition BN_le2bn (inp : list Z) (ret : option BIGNUM) : option BIGNUM :=
  let* ret := match ret with None => BN_new alloc_ok | Some ret => Some ret end in
  if len inp =? 0 then Some (mk_bn (d ret) 0 false (is_static ret)) else
  let num_words := (len inp - 1) / BN_BYTES + 1 in
  let (ok, ret) := bn_wexpand alloc_ok uninit ret num_words in
  guard ok in
  let dd := set (d ret) (num_words - 1) 0 in
  let dd := mem_words (length dd) (splice (mem_bytes dd) 0 inp) in
  Some (bn_correct_top (mk_bn dd num_words (neg ret) (is_static ret))).
End Bytes.

(** The byte [(unsigned char)(l >> (8 * (i % BN_BYTES))) & 0xff]. *)
Definition word_byte (l i : Z) : Z := Z.land (u8 (Z.shiftr l (8 * (i mod BN_BYTES)))) 0xff.

(** [while (i--)]. *)
Fixpoint bn2bin_loop (dd : list Z) (i : nat) : list Z :=
  match i with
  | O => []
  | S i => word_byte (get dd (Z.of_nat i / BN_BYTES)) (Z.of_nat i) :: bn2bin_loop dd i
  end.

(** The bytes written; their number is returned. *)
Definition BN_bn2bin (inp : BIGNUM) : list Z := bn2bin_loop (d inp) (Z.to_nat (BN_num_bytes inp)).

Definition BN_bn2le_padded (n : Z) (inp : BIGNUM) : option (list Z) :=
  let num_bytes := BN_num_bytes inp in
  if n <? num_bytes then None else
  Some (take num_bytes (mem_bytes (d inp)) ++ repeat 0 (Z.to_nat (n - num_bytes))).

Definition constant_time_select_ulong (v x y : Z) : Z :=
  let mask := u64 (u64 v - 1) in
  Z.lor (Z.land (u64 (Z.lnot mask)) x) (Z.land mask y).

Definition constant_time_le_size_t (x y : Z) : Z := Z.land (Z.shiftr (u64 (x - y - 1)) 63) 1.

Definition read_word_padded (inp : BIGNUM) (i : Z) : Z :=
  let l := get (d inp) (constant_time_select_ulong (constant_time_le_size_t (dmax inp) i) (dmax inp - 1) i) in
  constant_time_select_ulong (constant_time_le_size_t (top inp) i) 0 l.

Fixpoint bn2bin_padded_loop (inp : BIGNUM) (i : nat) : list Z :=
  match i with
  | O => []
  | S i => word_byte (read_word_padded inp (Z.of_nat i / BN_BYTES)) (Z.of_nat i) :: bn2bin_padded_loop inp i
  end.

Definition BN_bn2bin_padded (n : Z) (inp : BIGNUM) : option (list Z) :=
  if BN_is_zero inp then Some (repeat 0 (Z.to_nat n)) else
  if u64 (n + (BN_BYTES - 1)) / BN_BYTES <? top inp then None else
  if negb (n mod BN_BYTES =? 0) && negb (Z.shiftr (read_word_padded inp (n / BN_BYTES)) (8 * (n mod BN_BYTES)) =? 0)
  then None else
  Some (bn2bin_padded_loop inp (Z.to_nat n)).

Definition BN_get_word (bn : BIGNUM) : Z :=
  if top bn =? 0 then 0 else if top bn =? 1 then get (d bn) 0 else BN_MASK2.

Definition BN_get_u64 (bn : BIGNUM) : option Z :=
  if top bn =? 0 then Some 0 else if top bn =? 1 then Some (get (d bn) 0) else None.

(** ** Number of bits *)

Lemma bits_table_spec b : byte_ok b -> get bits_table b = if b =? 0 then 0 else Z.log2 b + 1.
Proof.
  intros Hb. apply Z.eqb_eq. apply (forall_byte (fun b => get bits_table b =? if b =? 0 then 0 else Z.log2 b + 1)); [| exact Hb].
  vm_compute. reflexivity.
Qed.

(** Testing the [j] bits from bit [k] on, when there are no higher ones. *)
Lemma land_mask_test k j l : 0 <= k -> 0 <= j -> 0 <= l < 2 ^ (k + j) ->
  (Z.land l (Z.shiftl (Z.ones j) k) =? 0) = (l <? 2 ^ k).
Proof.
  intros Hk Hj Hl. assert (E : Z.land l (Z.shiftl (Z.ones j) k) = 2 ^ k * (l / 2 ^ k)).
  { apply Z.bits_inj'. intros n Hn. rewrite Z.land_spec, Z.shiftl_spec, Z.mul_comm, Z.mul_pow2_bits by assumption.
    destruct (Z.lt_ge_cases n k).
    - rewrite !(Z.testbit_neg_r _ (n - k)) by lia. apply andb_false_r.
    - rewrite Z.div_pow2_bits by lia. replace (n - k + k) with n by lia.
      destruct (Z.lt_ge_cases (n - k) j); [rewrite Z.ones_spec_low by lia; apply andb_true_r |].
      rewrite (testbit_high (k + j) l) by lia. reflexivity. }
  rewrite E. pose proof (Z.pow_pos_nonneg 2 k ltac:(lia) Hk). destruct (Z.ltb_spec l (2 ^ k)).
  - rewrite Z.div_small by lia. rewrite Z.mul_0_r. reflexivity.
  - apply Z.eqb_neq. pose proof (Z.div_le_lower_bound l (2 ^ k) 1). nia.
Qed.

Lemma bits_shifted k l : 0 <= k -> 2 ^ k <= l < 2 ^ (k + 8) -> get bits_table (Z.shiftr l k) + k = Z.log2 l + 1.
Proof.
  intros Hk Hl. pose proof (Z.pow_pos_nonneg 2 k ltac:(lia) Hk). rewrite Z.pow_add_r in Hl by lia.
  assert (Hs : 1 <= Z.shiftr l k < 256).
  { rewrite Z.shiftr_div_pow2 by assumption. split; [apply Z.div_le_lower_bound; lia | apply Z.div_lt_upper_bound; lia]. }
  rewrite bits_table_spec by (unfold byte_ok; lia). destruct (Z.eqb_spec (Z.shiftr l k) 0); [lia |].
  rewrite Z.log2_shiftr by lia. assert (k <= Z.log2 l) by (apply Z.log2_le_pow2; lia). lia.
Qed.

Lemma num_bits_word_spec l : word_ok l -> BN_num_bits_word l = if l =? 0 then 0 else Z.log2 l + 1.
Proof.
  intros Hl. unfold word_ok in Hl. unfold BN_num_bits_word.
  change 0xffffffff00000000 with (Z.shiftl (Z.ones 32) 32). rewrite (land_mask_test 32 32) by lia.
  change 0xffff000000000000 with (Z.shiftl (Z.ones 16) 48). rewrite (land_mask_test 48 16) by lia.
  change 0xff00000000000000 with (Z.shiftl (Z.ones 8) 56). rewrite (land_mask_test 56 8) by lia.
  assert (Hz : l <> 0 -> forall v, v = Z.log2 l + 1 -> v = if l =? 0 then 0 else Z.log2 l + 1).
  { intros Hn v ->. destruct (Z.eqb_spec l 0); [contradiction | reflexivity]. }
  destruct (Z.ltb_spec l (2 ^ 32)); cbn [negb].
  - change 0xffff0000 with (Z.shiftl (Z.ones 16) 16). rewrite (land_mask_test 16 16) by lia.
    change 0xff000000 with (Z.shiftl (Z.ones 8) 24). rewrite (land_mask_test 24 8) by lia.
    destruct (Z.ltb_spec l (2 ^ 16)); cbn [negb].
    + change 0xff00 with (Z.shiftl (Z.ones 8) 8). rewrite (land_mask_test 8 8) by lia.
      destruct (Z.ltb_spec l (2 ^ 8)); cbn [negb]; [apply bits_table_spec; unfold byte_ok; lia |].
      apply Hz; [lia |]. apply bits_shifted; lia.
    + destruct (Z.ltb_spec l (2 ^ 24)); cbn [negb]; (apply Hz; [lia |]); apply bits_shifted; lia.
  - destruct (Z.ltb_spec l (2 ^ 48)); cbn [negb].
    + change 0x0000ff0000000000 with (Z.shiftl (Z.ones 8) 40). rewrite (land_mask_test 40 8) by lia.
      destruct (Z.ltb_spec l (2 ^ 40)); cbn [negb]; (apply Hz; [lia |]); apply bits_shifted; lia.
    + destruct (Z.ltb_spec l (2 ^ 56)); cbn [negb]; (apply Hz; [lia |]); apply bits_shifted; lia.
Qed.

(** The sizes [bn_wexpand] allows. *)
Definition bn_fits (bn : BIGNUM) : Prop := bn_ok bn /\ top bn <= INT_MAX / (4 * 64).

Lemma num_bits_spec bn : bn_fits bn -> BN_num_bits bn = if bn_abs bn =? 0 then 0 else Z.log2 (bn_abs bn) + 1.
Proof.
  intros [Ok Hs]. pose proof (ok_pos bn Ok) as P. pose proof (abs_nonneg bn Ok). pose proof (proj1 Ok) as M. unfold bn_mem in M.
  unfold BN_num_bits, BN_is_zero. destruct (Z.eqb_spec (top bn) 0) as [Et | Et].
  { destruct (Z.eqb_spec (bn_abs bn) 0); [reflexivity | lia]. }
  destruct (Z.eqb_spec (bn_abs bn) 0) as [| Nz]; [lia |].
  destruct (split_top bn Ok ltac:(lia)) as (E & R & _ & Rw). rewrite num_bits_word_spec by (unfold word_ok; lia).
  set (w := get (d bn) (top bn - 1)) in *. destruct (Z.eqb_spec w 0); [lia |].
  assert (L : Z.log2 (bn_abs bn) = (top bn - 1) * 64 + Z.log2 w).
  { destruct (Z.log2_spec w ltac:(lia)) as [L1 L2]. pose proof (Z.log2_nonneg w). apply Z.log2_unique; [lia |].
    unfold base in *. replace (64 * Z.of_nat (Z.to_nat (top bn - 1))) with ((top bn - 1) * 64) in * by lia.
    rewrite E. replace (Z.succ ((top bn - 1) * 64 + Z.log2 w)) with ((top bn - 1) * 64 + Z.succ (Z.log2 w)) by lia.
    rewrite !Z.pow_add_r by lia. nia. }
  assert (Z.log2 w < 64) by (apply Z.log2_lt_pow2; lia). pose proof (Z.log2_nonneg w).
  change (INT_MAX / (4 * 64)) with 8388607 in Hs. unfold BN_BITS2. rewrite wrap_small by lia. lia.
Qed.

Lemma num_bytes_spec bn : bn_fits bn ->
  0 <= BN_num_bytes bn <= 8 * top bn /\ 0 <= bn_abs bn < 256 ^ BN_num_bytes bn /\
  (0 < BN_num_bytes bn -> 256 ^ (BN_num_bytes bn - 1) <= bn_abs bn).
Proof.
  intros Hf. pose proof (num_bits_spec bn Hf) as E. destruct Hf as [Ok Hs]. pose proof (abs_nonneg bn Ok).
  destruct (ok_value bn Ok) as (M & _ & R & _). unfold bn_mem in M. unfold BN_num_bytes. rewrite E.
  destruct (Z.eqb_spec (bn_abs bn) 0) as [E0 | Nz]; [rewrite E0; change (u32 (0 + 7) / 8) with 0; change (256 ^ 0) with 1; lia |].
  destruct (Z.log2_spec (bn_abs bn) ltac:(lia)) as [L1 L2]. set (k := Z.log2 (bn_abs bn)) in *. assert (Hk : 0 <= k) by apply Z.log2_nonneg.
  assert (Ht : k < 64 * top bn).
  { apply Z.log2_lt_pow2; [lia |]. unfold base in R. now replace (64 * Z.of_nat (Z.to_nat (top bn))) with (64 * top bn) in R by lia. }
  change (INT_MAX / (4 * 64)) with 8388607 in Hs. rewrite wrap_small by lia. set (n := (k + 1 + 7) / 8).
  assert (Hn : k + 1 <= 8 * n /\ 8 * (n - 1) <= k) by (unfold n; pose proof (Z.div_mod (k + 1 + 7) 8); pose proof (Z.mod_pos_bound (k + 1 + 7) 8); lia).
  assert (P8 : forall m, 0 <= m -> 256 ^ m = 2 ^ (8 * m)) by (intros; change 256 with (2 ^ 8); rewrite <- Z.pow_mul_r by lia; reflexivity).
  split; [lia |]. split; [| intros _].
  - rewrite P8 by lia. pose proof (Z.pow_le_mono_r 2 (Z.succ k) (8 * n)). lia.
  - rewrite P8 by lia. pose proof (Z.pow_le_mono_r 2 (8 * (n - 1)) k). lia.
Qed.

(** ** Words and bytes *)

Lemma take_rev_enc n m v : (n <= m)%nat -> take (Z.of_nat n) (rev (be_enc m v)) = rev (be_enc n v).
Proof.
  intros H. replace m with (m - n + n)%nat by lia. rewrite be_enc_app, rev_app_distr.
  apply take_app_exact. now rewrite len_rev, be_enc_len.
Qed.

Lemma be_enc_0 n : be_enc n 0 = repeat 0 n.
Proof. induction n as [| n IH]; [reflexivity |]. rewrite be_enc_cons, Z.div_0_l by lia. cbn [repeat]. now rewrite IH. Qed.

Lemma be_enc_pad k n v : 0 <= v < 256 ^ Z.of_nat n -> be_enc (k + n) v = repeat 0 k ++ be_enc n v.
Proof. intros H. rewrite be_enc_app, Z.div_small by assumption. now rewrite be_enc_0. Qed.

Lemma mem_words_spec n : forall l, bytes_ok l -> length l = (8 * n)%nat ->
  length (mem_words n l) = n /\ words_ok (mem_words n l) /\ le_val (mem_words n l) = be_val (rev l).
Proof.
  induction n as [| n IH]; intros l Hl Hlen; cbn [mem_words].
  { destruct l; [| discriminate]. repeat split. constructor. }
  assert (Ld : length (drop 8 l) = (8 * n)%nat) by (unfold drop; rewrite length_skipn; lia).
  destruct (IH (drop 8 l) (bytes_ok_drop 8 l Hl) Ld) as (H1 & H2 & H3).
  assert (Lt : len (take 8 l) = 8) by (apply len_take; unfold len; lia).
  assert (Hr : bytes_ok (rev (take 8 l))) by (apply Forall_rev, bytes_ok_take, Hl).
  pose proof (be_val_range _ Hr) as R. rewrite len_rev, Lt in R. change (256 ^ 8) with (2 ^ 64) in R.
  cbn [length le_val]. rewrite H1, H3. repeat split; [constructor; [exact R | exact H2] |].
  rewrite <- (take_drop 8 l) at 3. rewrite rev_app_distr.
  (* most significant words first *)
  assert (A : forall a b, be_val (a ++ b) = be_val a * 256 ^ len b + be_val b).
  { intros a b. induction b as [| x b IHb] using rev_ind; [rewrite app_nil_r; cbn; lia |].
    rewrite app_assoc, !be_val_snoc, IHb, len_app. change (len [x]) with 1. pose proof (len_nonneg b).
    rewrite Z.pow_add_r by lia. change (256 ^ 1) with 256. lia. }
  rewrite A, len_rev, Lt. change (256 ^ 8) with (2 ^ 64). lia.
Qed.

Lemma take_mem_words k : forall n l, (k <= n)%nat -> take (Z.of_nat k) (mem_words n l) = mem_words k (take (8 * Z.of_nat k) l).
Proof.
  induction k as [| k IH]; intros [| n] l H; [reflexivity | reflexivity | lia |]. cbn [mem_words]. unfold take at 1.
  rewrite Nat2Z.id. cbn [firstn]. specialize (IH n (drop 8 l) ltac:(lia)). unfold take at 1 in IH. rewrite Nat2Z.id in IH. rewrite IH. f_equal.
  - rewrite take_take by lia. reflexivity.
  - f_equal. unfold take, drop. rewrite skipn_firstn_comm. f_equal. lia.
Qed.

(** ** Parsing *)

Lemma get_drop_head (l : list Z) n x k : 0 <= n -> drop n l = x :: k -> get l n = x.
Proof.
  intros Hn H. pose proof (get_drop l n 0 Hn ltac:(lia)) as E. rewrite H, Z.add_0_r in E. exact (eq_sym E).
Qed.

Lemma bin2bn_loop_spec inp : bytes_ok inp -> forall word m nw dd,
  0 <= m <= 7 -> 0 <= nw <= len dd -> len inp = 8 * (nw - 1) + m + 1 -> 0 <= word < 256 ^ (7 - m) ->
  let dd' := bin2bn_loop inp word m nw dd in
  len dd' = len dd /\ drop nw dd' = drop nw dd /\ words_ok (take nw dd') /\
  le_val (take nw dd') = word * 256 ^ len inp + be_val inp.
Proof.
  induction 1 as [| b inp Hb Hl IH]; intros word m nw dd Hm Hnw Hlen Hword; cbv zeta; cbn [bin2bn_loop].
  { rewrite len_nil in *. assert (nw = 0) as -> by lia. assert (m = 7) as -> by lia. change (256 ^ (7 - 7)) with 1 in Hword.
    rewrite take_0. cbn. repeat split; [constructor | lia]. }
  pose proof (len_nonneg inp). rewrite len_cons in *.
  assert (P : 256 ^ (7 - m) * 256 = 256 ^ (8 - m)) by (replace (8 - m) with (7 - m + 1) by lia; rewrite Z.pow_add_r by lia; reflexivity).
  assert (P8 : 256 ^ (8 - m) <= 2 ^ 64) by (change (2 ^ 64) with (256 ^ 8); apply Z.pow_le_mono_r; lia).
  assert (E : Z.lor (u64 (Z.shiftl word 8)) b = word * 256 + b).
  { rewrite (wrap_small 64) by (rewrite Z.shiftl_mul_pow2 by lia; change (2 ^ 8) with 256; lia). now apply lor_shl8. }
  rewrite E. unfold byte_ok in Hb. rewrite be_val_cons. destruct (Z.eqb_spec m 0) as [-> | Hm0].
  - assert (Hi : len inp = 8 * (nw - 1)) by lia. assert (0 < nw) by lia.
    change (256 ^ (8 - 0)) with (2 ^ 64) in *. unfold BN_BYTES.
    destruct (IH 0 (8 - 1) (nw - 1) (set dd (nw - 1) (word * 256 + b))) as (H1 & H2 & H3 & H4); try lia.
    { rewrite len_set by lia. lia. }
    set (dd' := bin2bn_loop inp 0 (8 - 1) (nw - 1) _) in *. rewrite drop_set in H2 by lia. rewrite len_set in H1 by lia.
    replace (nw - 1 + 1) with nw in H2 by lia.
    assert (Hd : drop nw dd' = drop nw dd).
    { replace nw with (nw - 1 + 1) at 1 by lia. rewrite <- drop_drop by lia. rewrite H2. reflexivity. }
    assert (Ht : take nw dd' = take (nw - 1) dd' ++ [word * 256 + b]).
    { replace nw with (nw - 1 + 1) at 1 by lia. rewrite take_succ by lia. do 2 f_equal. eapply get_drop_head; [lia | exact H2]. }
    assert (Lt : length (take (nw - 1) dd') = Z.to_nat (nw - 1)) by (pose proof (len_take (nw - 1) dd' ltac:(lia)) as X; unfold len in X; lia).
    split; [exact H1 | split; [exact Hd |]]. rewrite Ht. split; [apply Forall_app; split; [exact H3 | repeat constructor; lia] |].
    rewrite le_val_app, H4, Lt, base_256, Hi, Z.pow_add_r by lia. cbn [le_val].
    replace (8 * Z.of_nat (Z.to_nat (nw - 1))) with (8 * (nw - 1)) by lia. change (256 ^ 1) with 256. ring.
  - replace (7 - (m - 1)) with (8 - m) in IH by lia.
    destruct (IH (word * 256 + b) (m - 1) nw dd) as (H1 & H2 & H3 & H4); try lia; [replace (7 - (m - 1)) with (8 - m) by lia; lia |].
    repeat split; try assumption. rewrite H4, Z.pow_add_r by lia. change (256 ^ 1) with 256. ring.
Qed.

Section BytesLemmas.
Variable alloc_ok : Z -> bool.
Variable uninit : Z -> list Z.
Hypothesis uninit_len : forall n, 0 <= n -> len (uninit n) = n.

(** Words needed for [n] bytes. *)
Definition words_for (n : Z) : Z := (n - 1) / BN_BYTES + 1.

Lemma words_for_spec n : 0 < n -> 8 * (words_for n - 1) < n <= 8 * words_for n.
Proof. intros H. unfold words_for, BN_BYTES. pose proof (Z.div_mod (n - 1) 8). pose proof (Z.mod_pos_bound (n - 1) 8). lia. Qed.

Lemma bin2bn_ok inp ret : bytes_ok inp -> inp <> [] -> bn_mem ret ->
  fst (bn_wexpand alloc_ok uninit ret (words_for (len inp))) = true ->
  exists bn, BN_bin2bn alloc_ok uninit inp (Some ret) = Some bn /\ bn_ok bn /\ bn_val bn = be_val inp.
Proof.
  intros Hin Hne M He. assert (Hp : 0 < len inp) by (destruct inp; [contradiction | rewrite len_cons; pose proof (len_nonneg inp); lia]).
  pose proof (words_for_spec _ Hp) as Hw. unfold BN_bin2bn. destruct (Z.eqb_spec (len inp) 0); [lia |].
  fold (words_for (len inp)). set (nw := words_for (len inp)) in *.
  destruct (bn_wexpand alloc_ok uninit ret nw) as [ok r1] eqn:Ew. cbn in He. subst ok.
  destruct (wexpand_spec alloc_ok uninit uninit_len ret nw true r1 M ltac:(lia) Ew) as [_ (M1 & D1 & _)]; [reflexivity |].
  assert (Hm : 0 <= (len inp - 1) mod BN_BYTES <= 7 /\ len inp = 8 * (nw - 1) + (len inp - 1) mod BN_BYTES + 1).
  { unfold nw, words_for, BN_BYTES. pose proof (Z.div_mod (len inp - 1) 8). pose proof (Z.mod_pos_bound (len inp - 1) 8). lia. }
  unfold dmax in D1. destruct (bin2bn_loop_spec inp Hin 0 ((len inp - 1) mod BN_BYTES) nw (d r1)) as (H1 & _ & H3 & H4); try lia.
  set (dd := bin2bn_loop _ _ _ _ _) in *. eexists. split; [reflexivity |].
  set (b0 := mk_bn dd nw false (is_static r1)).
  destruct (correct_top_ok b0) as (C1 & C2 & C3); [unfold bn_mem, dmax, b0; cbn; lia | exact H3 |].
  split; [exact C1 |]. unfold bn_val. rewrite C2, C3. cbn [neg b0 andb]. change (bn_abs b0) with (le_val (take nw dd)). rewrite H4. lia.
Qed.

Lemma le2bn_ok inp ret : bytes_ok inp -> inp <> [] -> bn_mem ret ->
  fst (bn_wexpand alloc_ok uninit ret (words_for (len inp))) = true -> 
  exists bn, BN_le2bn alloc_ok uninit inp (Some ret) = Some bn /\ bn_ok bn /\ bn_abs bn = be_val (rev inp) /\
    neg bn = neg ret && (0 <? be_val (rev inp)).
Proof.
  intros Hin Hne M He. assert (Hp : 0 < len inp) by (destruct inp; [contradiction | rewrite len_cons; pose proof (len_nonneg inp); lia]).
  pose proof (words_for_spec _ Hp) as Hw. unfold BN_le2bn. destruct (Z.eqb_spec (len inp) 0); [lia |].
  fold (words_for (len inp)). set (nw := words_for (len inp)) in *.
  destruct (bn_wexpand alloc_ok uninit ret nw) as [ok r1] eqn:Ew. cbn in He. subst ok.
  destruct (wexpand_spec alloc_ok uninit uninit_len ret nw true r1 M ltac:(lia) Ew) as [_ (M1 & D1 & _ & _ & N1)]; [reflexivity |].
  unfold dmax in D1. set (d1 := set (d r1) (nw - 1) 0). assert (L1 : len d1 = len (d r1)) by (apply len_set; lia).
  set (mem := splice (mem_bytes d1) 0 inp). assert (Lm : len mem = 8 * len d1) by (unfold mem; rewrite len_splice; rewrite ?len_mem_bytes; lia).
  (* the top word's other bytes are zero *)
  assert (Et : take (8 * nw) mem = inp ++ repeat 0 (Z.to_nat (8 * nw - len inp))).
  { unfold mem, splice. rewrite take_0, Z.add_0_l. cbn [app]. rewrite take_app_r by lia. f_equal.
    assert (Ed : mem_bytes d1 = mem_bytes (take (nw - 1) d1) ++ repeat 0 8 ++ mem_bytes (drop nw d1)).
    { rewrite <- (take_drop (nw - 1) d1) at 1. unfold mem_bytes. rewrite flat_map_app. f_equal. unfold d1 at 1. rewrite drop_set by lia.
      cbn [flat_map]. f_equal. replace (nw - 1 + 1) with nw by lia. f_equal. unfold d1. replace nw with (nw - 1 + 1) at 2 by lia.
      rewrite <- drop_drop, drop_set by lia. replace (nw - 1 + 1) with nw by lia. reflexivity. }
    rewrite Ed. assert (Ll : len (mem_bytes (take (nw - 1) d1)) = 8 * (nw - 1)) by (rewrite len_mem_bytes, len_take; lia).
    rewrite drop_app_r by lia. rewrite Ll. rewrite drop_app_l by (rewrite len_repeat; lia). rewrite take_app_exact.
    - unfold drop. replace 8%nat with (Z.to_nat (len inp - 8 * (nw - 1)) + Z.to_nat (8 * nw - len inp))%nat by lia.
      rewrite repeat_app, skipn_app, repeat_length, Nat.sub_diag, skipn_all2 by (rewrite repeat_length; lia). reflexivity.
    - rewrite len_drop by (rewrite len_repeat; lia). rewrite len_repeat. lia. }
  set (b0 := mk_bn (mem_words (length d1) mem) nw (neg r1) (is_static r1)).
  assert (Ew0 : words b0 = mem_words (Z.to_nat nw) (inp ++ repeat 0 (Z.to_nat (8 * nw - len inp)))).
  { unfold words, b0. cbn [d top]. replace nw with (Z.of_nat (Z.to_nat nw)) at 1 by lia.
    rewrite take_mem_words by (unfold len in *; lia). replace (8 * Z.of_nat (Z.to_nat nw)) with (8 * nw) by lia. now rewrite Et. }
  assert (Lmw : forall n l, length (mem_words n l) = n) by (intros k; induction k as [| k IHk]; intros l; cbn; [reflexivity | now rewrite IHk]).
  destruct (mem_words_spec (Z.to_nat nw) (inp ++ repeat 0 (Z.to_nat (8 * nw - len inp)))) as (S1 & S2 & S3).
  { apply bytes_ok_app. split; [exact Hin |]. apply Forall_forall. intros x Hx. apply repeat_spec in Hx. subst. unfold byte_ok. lia. }
  { rewrite length_app, repeat_length. unfold len in *. lia. }
  destruct (correct_top_ok b0) as (C1 & C2 & C3).
  { unfold bn_mem, dmax, b0. cbn [d top]. unfold len at 1. rewrite Lmw. unfold len in *. lia. }
  { rewrite Ew0. exact S2. }
  assert (Va : bn_abs b0 = be_val (rev inp)).
  { unfold bn_abs. rewrite Ew0, S3, rev_app_distr. set (k := Z.to_nat _).
    assert (E0 : rev (repeat 0 k) = repeat 0 k) by (apply rev_repeat). rewrite E0.
    clear. induction k as [| k IHk]; [reflexivity |]. cbn [repeat app]. rewrite be_val_cons, IHk. lia. }
  eexists. split; [reflexivity |]. split; [exact C1 |]. fold d1 mem b0. rewrite C2, C3, Va. cbn [neg b0]. now rewrite N1.
Qed.
End BytesLemmas.

(** ** Serialising *)

Lemma le_val_word l : words_ok l -> forall j, (le_val l / base j) mod 2 ^ 64 = nth j l 0.
Proof.
  induction 1 as [| x l Hx Hl IH]; intros j; cbn [le_val].
  { rewrite Z.div_0_l by (pose proof (base_pos j); lia). now destruct j. }
  unfold word_ok in Hx. destruct j as [| j]; cbn [nth].
  - rewrite base_0, Z.div_1_r, Z.mul_comm, Z_mod_plus_full. now apply Z.mod_small.
  - rewrite base_S, <- Z.div_div by (pose proof (base_pos j); lia). rewrite Z.mul_comm, Z.div_add by lia.
    rewrite (Z.div_small x) by lia. apply IH.
Qed.

(** Word [j] of the magnitude, zero above [top]. *)
Lemma abs_word bn j : bn_ok bn -> 0 <= j ->
  (bn_abs bn / base (Z.to_nat j)) mod 2 ^ 64 = if j <? top bn then get (d bn) j else 0.
Proof.
  intros Ok Hj. destruct (ok_value bn Ok) as (M & W & _). unfold bn_abs. rewrite le_val_word by assumption.
  pose proof (length_words bn M) as L. destruct (Z.ltb_spec j (top bn)).
  - rewrite <- get_words by lia. reflexivity.
  - apply nth_overflow. lia.
Qed.

Lemma word_byte_value v i : 0 <= v -> 0 <= i ->
  word_byte ((v / base (Z.to_nat (i / BN_BYTES))) mod 2 ^ 64) i = (v / 256 ^ i) mod 256.
Proof.
  intros Hv Hi. unfold word_byte, BN_BYTES. change 0xff with (Z.ones 8). rewrite Z.land_ones by lia. change (2 ^ 8) with 256. unfold wrap.
  change (2 ^ 8) with 256. rewrite Zmod_mod. pose proof (Z.mod_pos_bound i 8 ltac:(lia)) as R. pose proof (Z.div_mod i 8 ltac:(lia)) as Ed.
  assert (0 <= i / 8) by (apply Z.div_pos; lia). rewrite Z.shiftr_div_pow2 by lia. rewrite <- pow_256 by lia.
  set (q := i / 8) in *. set (r := i mod 8) in *. rewrite base_256. replace (8 * Z.of_nat (Z.to_nat q)) with (8 * q) by lia.
  rewrite Ed, Z.pow_add_r by lia. rewrite <- Z.div_div by (apply Z.pow_nonzero || (pose proof (Z.pow_pos_nonneg 256 r); lia); lia).
  set (u := v / 256 ^ (8 * q)). change (2 ^ 64) with (256 ^ 8). replace 8 with (r + (8 - r)) at 1 by lia. rewrite Z.pow_add_r by lia.
  pose proof (Z.pow_pos_nonneg 256 r). pose proof (Z.pow_pos_nonneg 256 (8 - r)).
  rewrite Z.rem_mul_r by lia. rewrite Z.mul_comm, Z.div_add by lia. rewrite (Z.div_small (u mod _)) by (apply Z.mod_pos_bound; lia).
  rewrite Z.add_0_l. apply Z.mod_mod_divide. exists (256 ^ (7 - r)).
  replace (8 - r) with (7 - r + 1) by lia. rewrite Z.pow_add_r by lia. reflexivity.
Qed.

Lemma bn2bin_loop_value bn n : bn_ok bn -> Z.of_nat n <= 8 * top bn -> bn2bin_loop (d bn) n = be_enc n (bn_abs bn).
Proof.
  intros Ok. pose proof (abs_nonneg bn Ok). induction n as [| n IH]; intros Hn; [reflexivity |].
  cbn [bn2bin_loop]. rewrite be_enc_cons, IH by lia. f_equal. rewrite <- word_byte_value by lia.
  assert (0 <= Z.of_nat n / BN_BYTES < top bn) by (unfold BN_BYTES; split; [apply Z.div_pos; lia | apply Z.div_lt_upper_bound; lia]).
  rewrite abs_word by (assumption || lia). destruct (Z.ltb_spec (Z.of_nat n / BN_BYTES) (top bn)); [reflexivity | lia].
Qed.

Lemma le_size_t_spec x y : 0 <= x < 2 ^ 63 -> 0 <= y < 2 ^ 63 -> constant_time_le_size_t x y = b2z (x <=? y).
Proof.
  intros Hx Hy. unfold constant_time_le_size_t. change 1 with (Z.ones 1) at 2. rewrite Z.land_ones by lia.
  rewrite Z.shiftr_div_pow2 by lia. destruct (Z.leb_spec x y); cbn [b2z]; word_lia.
Qed.

Lemma select_ulong_spec c x y : word_ok x -> word_ok y -> constant_time_select_ulong (b2z c) x y = if c then x else y.
Proof.
  intros Hx Hy. unfold constant_time_select_ulong. destruct c; cbn [b2z].
  - change (u64 (u64 1 - 1)) with 0. rewrite Z.land_0_l, Z.lor_0_r. change (u64 (Z.lnot 0)) with BN_MASK2.
    rewrite Z.land_comm. now apply word_land.
  - change (u64 (u64 0 - 1)) with BN_MASK2. change (u64 (Z.lnot BN_MASK2)) with 0. rewrite Z.land_0_l, Z.lor_0_l.
    rewrite Z.land_comm. now apply word_land.
Qed.

(** The words above [top] may hold anything a word holds. *)
Definition mem_ok (bn : BIGNUM) : Prop := words_ok (d bn) /\ dmax bn < 2 ^ 31.

Lemma read_word_padded_value bn i : bn_ok bn -> mem_ok bn -> 0 < top bn -> 0 <= i < 2 ^ 61 ->
  read_word_padded bn i = (bn_abs bn / base (Z.to_nat i)) mod 2 ^ 64.
Proof.
  intros Ok [Wd Hd] Ht Hi. pose proof (proj1 Ok) as M. unfold bn_mem in M. unfold read_word_padded.
  rewrite !le_size_t_spec by lia. rewrite (select_ulong_spec (dmax bn <=? i)) by (unfold word_ok; lia).
  rewrite select_ulong_spec by ((now apply word_get) || (unfold word_ok; lia)).
  rewrite abs_word by (assumption || lia). destruct (Z.leb_spec (top bn) i), (Z.ltb_spec i (top bn)); try lia.
  destruct (Z.leb_spec (dmax bn) i); [lia | reflexivity].
Qed.

Lemma bn2bin_padded_loop_value bn n : bn_ok bn -> mem_ok bn -> 0 < top bn -> Z.of_nat n < 2 ^ 61 ->
  bn2bin_padded_loop bn n = be_enc n (bn_abs bn).
Proof.
  intros Ok Hm Ht. pose proof (abs_nonneg bn Ok). induction n as [| n IH]; intros Hn; [reflexivity |].
  cbn [bn2bin_padded_loop]. rewrite be_enc_cons, IH by lia. f_equal. rewrite <- word_byte_value by lia. f_equal.
  assert (0 <= Z.of_nat n / BN_BYTES <= Z.of_nat n) by (unfold BN_BYTES; split; [apply Z.div_pos; lia | apply Z.div_le_upper_bound; lia]).
  apply read_word_padded_value; try assumption. lia.
Qed.

(** Success of the padded writer is exactly fitting in [n] bytes. *)
Lemma bn2bin_padded_value bn n : bn_ok bn -> mem_ok bn -> 0 <= n < 2 ^ 61 ->
  BN_bn2bin_padded n bn = if bn_abs bn <? 256 ^ n then Some (be_enc (Z.to_nat n) (bn_abs bn)) else None.
Proof.
  intros Ok Hm Hn. pose proof (abs_nonneg bn Ok) as A0. pose proof (ok_pos bn Ok) as P. destruct (ok_value bn Ok) as (M & _ & R & T).
  unfold bn_mem in M. pose proof (Z.pow_pos_nonneg 256 n ltac:(lia) ltac:(lia)) as Pn.
  unfold BN_bn2bin_padded, BN_is_zero. destruct (Z.eqb_spec (top bn) 0) as [E0 | E0].
  { assert (bn_abs bn = 0) as -> by lia. destruct (Z.ltb_spec 0 (256 ^ n)); [now rewrite be_enc_0 | lia]. }
  unfold BN_BYTES. rewrite (wrap_small 64) by lia. set (q := n / 8). set (r := n mod 8).
  assert (Eqr : n = 8 * q + r /\ 0 <= r < 8 /\ 0 <= q) by (unfold q, r; pose proof (Z.div_mod n 8); pose proof (Z.mod_pos_bound n 8); lia).
  assert (Ec : (n + (8 - 1)) / 8 = if r =? 0 then q else q + 1).
  { destruct (Z.eqb_spec r 0); symmetry; [apply (Z.div_unique _ _ _ 7) | apply (Z.div_unique _ _ _ (r - 1))]; lia. }
  rewrite Ec. rewrite bn2bin_padded_loop_value by (assumption || lia). rewrite base_256 in R.
  (* the word that holds the highest bytes *)
  rewrite read_word_padded_value by (assumption || lia). set (w := (bn_abs bn / base (Z.to_nat q)) mod 2 ^ 64).
  replace (8 * Z.of_nat (Z.to_nat (top bn))) with (8 * top bn) in R by lia.
  specialize (T ltac:(lia)). rewrite base_256 in T. replace (8 * Z.of_nat (Z.to_nat (top bn - 1))) with (8 * (top bn - 1)) in T by lia.
  assert (Mono : forall x y, 0 <= x <= y -> 256 ^ x <= 256 ^ y) by (intros; apply Z.pow_le_mono_r; lia).
  destruct (Z.ltb_spec (if r =? 0 then q else q + 1) (top bn)) as [L | L].
  { destruct (Z.ltb_spec (bn_abs bn) (256 ^ n)); [| reflexivity].
    specialize (Mono n (8 * (top bn - 1))). destruct (Z.eqb_spec r 0); lia. }
  destruct (Z.eqb_spec r 0) as [Er | Er]; cbn [negb andb].
  { specialize (Mono (8 * top bn) n). destruct (Z.ltb_spec (bn_abs bn) (256 ^ n)); [reflexivity | lia]. }
  assert (Ew : w = bn_abs bn / 256 ^ (8 * q)).
  { unfold w. rewrite base_256. replace (8 * Z.of_nat (Z.to_nat q)) with (8 * q) by lia. apply Z.mod_small.
    pose proof (Z.pow_pos_nonneg 256 (8 * q)). split; [apply Z.div_pos; lia |]. apply Z.div_lt_upper_bound; [lia |].
    change (2 ^ 64) with (256 ^ 8). rewrite <- Z.pow_add_r by lia. specialize (Mono (8 * top bn) (8 * q + 8)). lia. }
  rewrite Ew, Z.shiftr_div_pow2 by lia. rewrite <- pow_256 by lia. pose proof (Z.pow_pos_nonneg 256 (8 * q)). pose proof (Z.pow_pos_nonneg 256 r).
  rewrite Z.div_div, <- Z.pow_add_r by lia. replace (8 * q + r) with n by lia.
  destruct (Z.ltb_spec (bn_abs bn) (256 ^ n)) as [Lt | Ge]; [now rewrite Z.div_small by lia |].
  assert (1 <= bn_abs bn / 256 ^ n) by (apply Z.div_le_lower_bound; lia).
  destruct (Z.eqb_spec (bn_abs bn / 256 ^ n) 0); [lia | reflexivity].
Qed.

Lemma bn2le_padded_value bn n : bn_fits bn -> words_ok (d bn) -> 0 <= n ->
  BN_bn2le_padded n bn = if bn_abs bn <? 256 ^ n then Some (rev (be_enc (Z.to_nat n) (bn_abs bn))) else None.
Proof.
  intros Hf Wd Hn. destruct (num_bytes_spec bn Hf) as (H1 & H2 & H3). unfold BN_bn2le_padded. set (nb := BN_num_bytes bn) in *.
  assert (Mono : forall x y, 0 <= x <= y -> 256 ^ x <= 256 ^ y) by (intros; apply Z.pow_le_mono_r; lia).
  destruct (Z.ltb_spec n nb) as [L | L].
  { specialize (Mono n (nb - 1)). destruct (Z.ltb_spec (bn_abs bn) (256 ^ n)); [lia | reflexivity]. }
  specialize (Mono nb n). destruct (Z.ltb_spec (bn_abs bn) (256 ^ n)) as [_ |]; [| lia]. f_equal.
  destruct Hf as [Ok _]. destruct (ok_value bn Ok) as (M & W & _). unfold bn_mem, dmax in M. pose proof (length_words bn M) as Lw.
  assert (E : take nb (mem_bytes (d bn)) = rev (be_enc (Z.to_nat nb) (bn_abs bn))).
  { rewrite <- (take_drop (top bn) (d bn)). unfold mem_bytes. rewrite flat_map_app. fold (mem_bytes (take (top bn) (d bn))).
    fold (words bn). rewrite take_app_l by (rewrite len_mem_bytes; rewrite len_words by assumption; lia).
    rewrite mem_bytes_value by assumption. replace nb with (Z.of_nat (Z.to_nat nb)) at 1 by lia. apply take_rev_enc. lia. }
  rewrite E. replace (Z.to_nat n) with (Z.to_nat (n - nb) + Z.to_nat nb)%nat by lia.
  rewrite be_enc_pad by (rewrite Z2Nat.id by lia; exact H2). rewrite rev_app_distr, rev_repeat. reflexivity.
Qed.

(** ** All words of the array *)

Lemma words_ok_splice (l k : list Z) a : words_ok l -> words_ok k -> words_ok (splice l a k).
Proof.
  intros Hl Hk. unfold splice. repeat (apply Forall_app; split); try assumption; [now apply words_ok_firstn | now apply words_ok_skipn].
Qed.

Lemma wexpand_mem_ok alloc_ok uninit bn n bn' :
  (forall n, 0 <= n -> len (uninit n) = n /\ words_ok (uninit n)) -> bn_mem bn -> mem_ok bn -> 0 <= n ->
  bn_wexpand alloc_ok uninit bn n = (true, bn') -> mem_ok bn'.
Proof.
  intros U M [W D] Hn. unfold bn_wexpand. destruct (Z.leb_spec n (dmax bn)); [intros [= <-]; now split |].
  change (INT_MAX / (4 * 64)) with 8388607. destruct (Z.ltb_spec 8388607 n); [discriminate |]. destruct (is_static bn); [discriminate |].
  destruct (alloc_ok (8 * n)); cbn [negb]; [| discriminate]. intros [= <-]. destruct (U n Hn) as [Ul Uw].
  pose proof (len_words bn M) as L. unfold bn_mem in M. unfold mem_ok, dmax in *. cbn [d]. rewrite len_splice by lia. rewrite Ul.
  split; [apply words_ok_splice; [assumption | now apply words_ok_firstn] | lia].
Qed.

Lemma bin2bn_loop_words inp : bytes_ok inp -> forall word m nw dd, words_ok dd -> words_ok (bin2bn_loop inp word m nw dd).
Proof.
  induction 1 as [| b inp Hb Hl IH]; intros word m nw dd Hd; [assumption |]. cbn [bin2bn_loop].
  destruct (m =? 0); apply IH; [| assumption]. apply words_ok_splice; [assumption |].
  constructor; [| constructor]. apply lor_range; [lia | apply wrap_range; lia | unfold byte_ok in Hb; lia].
Qed.

Lemma d_correct_top bn : d (bn_correct_top bn) = d bn.
Proof.
  unfold bn_correct_top. destruct (0 <? top bn); [| destruct (top bn =? 0); reflexivity]. cbn. destruct (_ =? 0); reflexivity.
Qed.

(** What a successful parse stores. *)
Lemma bin2bn_shape alloc_ok uninit inp ret bn :
  (forall n, 0 <= n -> len (uninit n) = n /\ words_ok (uninit n)) -> bytes_ok inp -> 0 < len inp -> bn_mem ret -> mem_ok ret ->
  fst (bn_wexpand alloc_ok uninit ret (words_for (len inp))) = true ->
  BN_bin2bn alloc_ok uninit inp (Some ret) = Some bn ->
  mem_ok bn /\ top bn <= words_for (len inp) /\ neg bn = false.
Proof.
  intros U Hin Hp M Hm He E. assert (U1 : forall n, 0 <= n -> len (uninit n) = n) by (intros; now apply U).
  pose proof (words_for_spec _ Hp) as Hw.
  unfold BN_bin2bn in E. destruct (Z.eqb_spec (len inp) 0); [lia |]. fold (words_for (len inp)) in E.
  destruct (bn_wexpand alloc_ok uninit ret (words_for (len inp))) as [ok r1] eqn:Ew. cbn in He. subst ok.
  pose proof (wexpand_mem_ok _ _ ret (words_for (len inp)) _ U M Hm ltac:(lia) Ew) as [W1 D1].
  destruct (wexpand_spec alloc_ok uninit U1 ret (words_for (len inp)) true r1 M ltac:(lia) Ew) as [_ (M1 & D2 & _)]; [reflexivity |].
  set (dd := bin2bn_loop _ _ _ _ _) in E. assert (Wd : words_ok dd) by now apply bin2bn_loop_words.
  assert (Hmod : 0 <= (len inp - 1) mod BN_BYTES <= 7 /\ len inp = 8 * (words_for (len inp) - 1) + (len inp - 1) mod BN_BYTES + 1).
  { unfold words_for, BN_BYTES. pose proof (Z.div_mod (len inp - 1) 8). pose proof (Z.mod_pos_bound (len inp - 1) 8). lia. }
  assert (Ld : len dd = dmax r1).
  { pose proof (Z.pow_pos_nonneg 256 (7 - (len inp - 1) mod BN_BYTES)). unfold dmax in *.
    now destruct (bin2bn_loop_spec inp Hin 0 ((len inp - 1) mod BN_BYTES) (words_for (len inp)) (d r1)) as (H1 & _); try lia. }
  injection E as E. pose proof (f_equal d E) as Ed. rewrite d_correct_top in Ed. cbn [d] in Ed.
  set (b0 := mk_bn dd _ _ _) in *.
  assert (T : top bn <= words_for (len inp) /\ neg bn = false).
  { destruct (correct_top_ok b0) as (C1 & C2 & C3); [unfold bn_mem, dmax in *; cbn [d top b0]; lia | now apply words_ok_firstn |]. rewrite E in *.
    split; [| exact C3]. rewrite <- E. unfold bn_correct_top, b0. cbn [top d neg]. destruct (Z.ltb_spec 0 (words_for (len inp))); [| lia].
    pose proof (correct_top_loop_spec dd (Z.to_nat (words_for (len inp))) ltac:(unfold len in *; unfold dmax in *; lia)) as (T1 & _).
    cbn [top]. destruct (_ =? 0); cbn [with_neg top]; lia. }
  split; [| exact T]. unfold mem_ok, dmax. rewrite <- Ed, Ld. split; [exact Wd | exact D1].
Qed.

(** ** The properties *)

(** A nonempty big-endian string is parsed to its value, into a normalised,
    nonnegative number, whatever the object held before, whenever there is
    room for it; writing the number padded to the length of the string gives
    the string back, and unpadded the string without its leading zeros. *)
Lemma BN_bin2bn_roundtrip alloc_ok uninit inp ret :
  (forall n, 0 <= n -> len (uninit n) = n /\ words_ok (uninit n)) -> bytes_ok inp -> inp <> [] ->
  bn_mem ret -> mem_ok ret -> fst (bn_wexpand alloc_ok uninit ret (words_for (len inp))) = true ->
  words_for (len inp) <= INT_MAX / (4 * 64) ->
  exists bn, BN_bin2bn alloc_ok uninit inp (Some ret) = Some bn /\ bn_ok bn /\ bn_val bn = be_val inp /\
    BN_bn2bin_padded (len inp) bn = Some inp /\
    (exists k, inp = repeat 0 k ++ BN_bn2bin bn /\ (BN_num_bytes bn = 0 \/ get (BN_bn2bin bn) 0 <> 0)).
Proof.
  intros U Hin Hne M Hm He Hs. assert (U1 : forall n, 0 <= n -> len (uninit n) = n) by (intros; now apply U).
  destruct (bin2bn_ok alloc_ok uninit U1 inp ret Hin Hne M He) as (bn & E & Ok & V).
  exists bn. split; [exact E | split; [exact Ok | split; [exact V |]]].
  assert (Hp : 0 < len inp) by (destruct inp; [contradiction | rewrite len_cons; pose proof (len_nonneg inp); lia]).
  pose proof (words_for_spec _ Hp) as Hw. change (INT_MAX / (4 * 64)) with 8388607 in Hs.
  destruct (bin2bn_shape alloc_ok uninit inp ret bn U Hin Hp M Hm He E) as (Hmb & Ht & Hn). assert (Va : bn_abs bn = be_val inp) by (unfold bn_val in V; now rewrite Hn in V).
  pose proof (be_val_range inp Hin) as R. assert (El : Z.to_nat (len inp) = length inp) by (unfold len; lia).
  split.
  - rewrite bn2bin_padded_value by (assumption || lia). rewrite Va. destruct (Z.ltb_spec (be_val inp) (256 ^ len inp)); [| lia].
    rewrite El. f_equal. now apply be_enc_val.
  - assert (Hf : bn_fits bn) by (split; [exact Ok | change (INT_MAX / (4 * 64)) with 8388607; lia]).
    destruct (num_bytes_spec bn Hf) as (N1 & N2 & N3). unfold BN_bn2bin. rewrite bn2bin_loop_value by (assumption || lia).
    set (nb := BN_num_bytes bn) in *. assert (Hnb : nb <= len inp).
    { destruct (Z.le_gt_cases nb (len inp)); [assumption |]. pose proof (Z.pow_le_mono_r 256 (len inp) (nb - 1)). lia. }
    exists (Z.to_nat (len inp - nb)). split.
    + rewrite <- be_enc_pad by (rewrite Z2Nat.id by lia; exact N2). rewrite Va.
      replace (Z.to_nat (len inp - nb) + Z.to_nat nb)%nat with (length inp) by lia. symmetry. now apply be_enc_val.
    + destruct (Z.eq_dec nb 0); [now left | right]. replace (Z.to_nat nb) with (S (Z.to_nat (nb - 1))) by lia. rewrite be_enc_cons.
      change (get (?x :: _) 0) with x. rewrite Z2Nat.id by lia. specialize (N3 ltac:(lia)).
      assert (Pw : 256 ^ nb = 256 * 256 ^ (nb - 1)) by (rewrite <- Z.pow_succ_r by lia; f_equal; lia).
      pose proof (Z.pow_pos_nonneg 256 (nb - 1)). rewrite Z.mod_small.
      * assert (1 <= bn_abs bn / 256 ^ (nb - 1)) by (apply Z.div_le_lower_bound; lia). lia.
      * split; [apply Z.div_pos; lia | apply Z.div_lt_upper_bound; lia].
Qed.


(** C27: [BN_num_bits] and [BN_num_bytes] are the minimal sizes of the
    magnitude; [BN_bn2bin] writes its minimal big-endian form,
    [BN_bn2bin_padded] and [BN_bn2le_padded] succeed exactly when it fits and
    then write it padded with zeros, big- and little-endian; [BN_get_u64]
    succeeds exactly on a single word, and [BN_get_word] saturates. *)
Lemma BN_serialise_exact bn n : bn_fits bn -> mem_ok bn -> 0 <= n < 2 ^ 61 ->
  BN_num_bits bn = (if bn_abs bn =? 0 then 0 else Z.log2 (bn_abs bn) + 1) /\
  bn_abs bn < 256 ^ BN_num_bytes bn /\ (0 < BN_num_bytes bn -> 256 ^ (BN_num_bytes bn - 1) <= bn_abs bn) /\
  BN_bn2bin bn = be_enc (Z.to_nat (BN_num_bytes bn)) (bn_abs bn) /\
  BN_bn2bin_padded n bn = (if bn_abs bn <? 256 ^ n then Some (be_enc (Z.to_nat n) (bn_abs bn)) else None) /\
  BN_bn2le_padded n bn = (if bn_abs bn <? 256 ^ n then Some (rev (be_enc (Z.to_nat n) (bn_abs bn))) else None) /\
  BN_get_u64 bn = (if bn_abs bn <? 2 ^ 64 then Some (bn_abs bn) else None) /\
  BN_get_word bn = Z.min (bn_abs bn) (2 ^ 64 - 1).
Proof.
  intros Hf Hm Hn. pose proof Hf as [Ok Hs]. destruct (num_bytes_spec bn Hf) as (N1 & N2 & N3).
  split; [now apply num_bits_spec |]. split; [lia |]. split; [exact N3 |].
  split; [unfold BN_bn2bin; apply bn2bin_loop_value; [assumption | lia] |].
  split; [now apply bn2bin_padded_value |]. split; [apply bn2le_padded_value; [assumption | apply Hm | lia] |].
  pose proof (abs_nonneg bn Ok). pose proof (ok_pos bn Ok) as P. destruct (ok_value bn Ok) as (M & _ & R & T). unfold bn_mem in M.
  unfold BN_get_u64, BN_get_word, BN_MASK2. destruct (Z.eqb_spec (top bn) 0).
  { assert (bn_abs bn = 0) as -> by lia. split; reflexivity. }
  destruct (Z.eqb_spec (top bn) 1) as [E1 | E1].
  - destruct (split_top bn Ok ltac:(lia)) as (E & _ & _ & Rw). rewrite E1 in E, Rw. change (1 - 1) with 0 in *.
    rewrite take_0 in E. change (base (Z.to_nat 0)) with 1 in E. cbn [le_val] in E. destruct (Z.ltb_spec (bn_abs bn) (2 ^ 64)); [| lia].
    split; [f_equal |]; lia.
  - specialize (T ltac:(lia)). pose proof (base_le 1 (Z.to_nat (top bn - 1)) ltac:(lia)). change (base 1) with (2 ^ 64) in *.
    destruct (Z.ltb_spec (bn_abs bn) (2 ^ 64)); [lia |]. split; [reflexivity | lia].
Qed.

(** C20: big-endian parsing gives the value of the bytes and padded writing restores the string; the sizes in bits and bytes are minimal, and each writer succeeds exactly when the number fits and then writes its digits. *)
Theorem BN_bytes_exact :
  (forall alloc_ok uninit inp ret,
    (forall n, 0 <= n -> len (uninit n) = n /\ words_ok (uninit n)) -> bytes_ok inp -> inp <> [] ->
      bn_mem ret -> mem_ok ret -> fst (bn_wexpand alloc_ok uninit ret (words_for (len inp))) = true ->
      words_for (len inp) <= INT_MAX / (4 * 64) ->
      exists bn, BN_bin2bn alloc_ok uninit inp (Some ret) = Some bn /\ bn_ok bn /\ bn_val bn = be_val inp /\
        BN_bn2bin_padded (len inp) bn = Some inp /\
        (exists k, inp = repeat 0 k ++ BN_bn2bin bn /\ (BN_num_bytes bn = 0 \/ get (BN_bn2bin bn) 0 <> 0))) /\
  (forall bn n,
    bn_fits bn -> mem_ok bn -> 0 <= n < 2 ^ 61 ->
      BN_num_bits bn = (if bn_abs bn =? 0 then 0 else Z.log2 (bn_abs bn) + 1) /\
      bn_abs bn < 256 ^ BN_num_bytes bn /\ (0 < BN_num_bytes bn -> 256 ^ (BN_num_bytes bn - 1) <= bn_abs bn) /\
      BN_bn2bin bn = be_enc (Z.to_nat (BN_num_bytes bn)) (bn_abs bn) /\
      BN_bn2bin_padded n bn = (if bn_abs bn <? 256 ^ n then Some (be_enc (Z.to_nat n) (bn_abs bn)) else None) /\
      BN_bn2le_padded n bn = (if bn_abs bn <? 256 ^ n then Some (rev (be_enc (Z.to_nat n) (bn_abs bn))) else None) /\
      BN_get_u64 bn = (if bn_abs bn <? 2 ^ 64 then Some (bn_abs bn) else None) /\
      BN_get_word bn = Z.min (bn_abs bn) (2 ^ 64 - 1)).
Proof. split; [exact (@BN_bin2bn_roundtrip) | exact (@BN_serialise_exact)]. Qed.

Lemma BN_bytes_exact_witness :
  (let alloc := fun _ : Z => true in
    let uninit := fun n => repeat 42 (Z.to_nat n) in
    let inp := [0; 0; 7; 6; 5; 4; 3; 2; 1; 255] in
    exists bn, BN_bin2bn alloc uninit inp (Some (mk_bn [9] 1 true false)) = Some bn /\ bn_ok bn /\ bn_val bn = be_val inp /\
      BN_bn2bin_padded (len inp) bn = Some inp /\
      (exists k, inp = repeat 0 k ++ BN_bn2bin bn /\ (BN_num_bytes bn = 0 \/ get (BN_bn2bin bn) 0 <> 0))) /\
  (let bn := mk_bn [5; 3; 77] 2 true false in let n := 9 in
    BN_num_bits bn = (if bn_abs bn =? 0 then 0 else Z.log2 (bn_abs bn) + 1) /\
    bn_abs bn < 256 ^ BN_num_bytes bn /\ (0 < BN_num_bytes bn -> 256 ^ (BN_num_bytes bn - 1) <= bn_abs bn) /\
    BN_bn2bin bn = be_enc (Z.to_nat (BN_num_bytes bn)) (bn_abs bn) /\
    BN_bn2bin_padded n bn = (if bn_abs bn <? 256 ^ n then Some (be_enc (Z.to_nat n) (bn_abs bn)) else None) /\
    BN_bn2le_padded n bn = (if bn_abs bn <? 256 ^ n then Some (rev (be_enc (Z.to_nat n) (bn_abs bn))) else None) /\
    BN_get_u64 bn = (if bn_abs bn <? 2 ^ 64 then Some (bn_abs bn) else None) /\
    BN_get_word bn = Z.min (bn_abs bn) (2 ^ 64 - 1)).
Proof.
  split.
  { apply (proj1 BN_bytes_exact (fun _ => true) (fun n => repeat 42 (Z.to_nat n)) [0; 0; 7; 6; 5; 4; 3; 2; 1; 255] (mk_bn [9] 1 true false)).
    - intros n Hn. rewrite len_repeat. split; [lia |]. apply Forall_forall. intros x Hx. apply repeat_spec in Hx. subst. unfold word_ok. lia.
    - repeat constructor; unfold byte_ok; lia.
    - discriminate.
    - split; apply Z.leb_le; reflexivity.
    - split; [repeat constructor; unfold word_ok; lia | apply Z.ltb_lt; reflexivity].
    - reflexivity.
    - apply Z.leb_le. reflexivity. }
  { apply (proj2 BN_bytes_exact (mk_bn [5; 3; 77] 2 true false) 9).
    - split; [apply bn_check_ok; reflexivity | apply Z.leb_le; reflexivity].
    - split; [repeat constructor; unfold word_ok; lia | apply Z.ltb_lt; reflexivity].
    - lia. }
Defined.

(** What parsing does to the sign. [BN_le2bn] stores the magnitude of a
    nonempty little-endian string but keeps the sign the object had, so a
    reused negative object becomes the negated value; [BN_bin2bn] of an empty
    string keeps the sign as well, which makes a negative zero. *)
Lemma BN_parse_sign alloc_ok uninit inp ret :
  (forall n, 0 <= n -> len (uninit n) = n) -> bytes_ok inp -> inp <> [] -> bn_mem ret ->
  fst (bn_wexpand alloc_ok uninit ret (words_for (len inp))) = true ->
  (exists bn, BN_le2bn alloc_ok uninit inp (Some ret) = Some bn /\ bn_ok bn /\
    bn_val bn = if neg ret then - be_val (rev inp) else be_val (rev inp)) /\
  (exists bn, BN_bin2bn alloc_ok uninit [] (Some ret) = Some bn /\ top bn = 0 /\ neg bn = neg ret).
Proof.
  intros U Hin Hne M He. split; [| now eexists].
  destruct (le2bn_ok alloc_ok uninit U inp ret Hin Hne M He) as (bn & E & Ok & V & N).
  exists bn. split; [exact E | split; [exact Ok |]]. unfold bn_val. rewrite N, V.
  pose proof (abs_nonneg bn Ok). destruct (Z.ltb_spec 0 (be_val (rev inp))), (neg ret); cbn [andb]; lia.
Qed.
