(* ===== verification/BnCtx.v ===== *)
(** * Temporaries of big-integer routines (crypto/fipsmodule/bn/ctx.c)

    A [BN_CTX] lends [BIGNUM]s to routines in nested frames. The class
    [Temporaries] is what a routine calls and [TemporariesOk] what it relies on;
    the instance is ctx.c: a pool of bundles of sixteen numbers, a growing stack
    of frame pointers, and two flags that turn failures into null pointers until
    the frame ends. Counts of numbers and frames are not wrapped: each takes
    memory, so that they stay far below the range of [unsigned]. The first section says what it means for a routine to
    deliver a number, memory permitting. *)

From S2P Require Import Prelude Buffers BnWords Bignum.
From Stdlib Require Import RelationClasses Sorted.

(** ** Results under scarce memory *)

Section Delivers.
Variable alloc_ok : Z -> bool.

(** No number has more words ([bn_wexpand]). *)
Definition word_limit : Z := INT_MAX / (4 * 64).

(** Some request for memory is refused. *)
Definition starved : Prop := exists n, alloc_ok n = false.

Definition refuses (r : BIGNUM) (size : Z) : Prop := starved \/ word_limit < size \/ is_static r = true.

(** The routine leaves storage that can be used, the value [v] if it reports
    success, and it fails only for want of [size] words in [r]. *)
Definition delivers (r : BIGNUM) (size : Z) (res : bool * BIGNUM) (v : Z) : Prop :=
  bn_mem (snd res) /\ is_static (snd res) = is_static r /\
  (fst res = true -> bn_ok (snd res) /\ bn_val (snd res) = v) /\
  (fst res = false -> refuses r size).

Lemma refuses_mono r r' m n : is_static r' = is_static r -> m <= n -> refuses r m -> refuses r' n.
Proof. unfold refuses. intros ->. intuition lia. Qed.

Lemma delivers_mono r r' m n res v : is_static r = is_static r' -> m <= n -> delivers r m res v -> delivers r' n res v.
Proof. intros E H (M & S & V & F). split; [exact M | split; [congruence | split; [exact V |]]]. intros Hf. now apply (refuses_mono r _ m), F. Qed.

Lemma delivers_ok r size r' v : bn_ok r' -> is_static r' = is_static r -> bn_val r' = v -> delivers r size (true, r') v.
Proof. intros O S V. split; [apply O | split; [exact S | split; [now split | discriminate]]]. Qed.

Lemma delivers_exact r size res v : is_exact res v -> is_static (snd res) = is_static r -> delivers r size res v.
Proof. destruct res as [ok r']. intros (E & O & V) S. cbn in *. subst ok. now apply delivers_ok. Qed.

Lemma delivers_false r size r' v : bn_mem r' -> is_static r' = is_static r -> refuses r size -> delivers r size (false, r') v.
Proof. intros M S F. split; [exact M | split; [exact S | split; [discriminate | now intros _]]]. Qed.

(** *** The operations of Bignum *)

Variable uninit : Z -> list Z.
Hypothesis uninit_len : forall n, 0 <= n -> len (uninit n) = n.

Lemma wexpand_case r n : bn_mem r -> 0 <= n ->
  (bn_wexpand alloc_ok uninit r n = (false, r) /\ refuses r n) \/
  exists r', bn_wexpand alloc_ok uninit r n = (true, r') /\ bn_mem r' /\ n <= dmax r' /\
    words r' = words r /\ top r' = top r /\ neg r' = neg r /\ is_static r' = is_static r.
Proof.
  intros M Hn. destruct (bn_wexpand alloc_ok uninit r n) as [ok r'] eqn:E.
  destruct (wexpand_spec alloc_ok uninit uninit_len r n ok r' M Hn E) as [F T]. destruct ok.
  - right. exists r'. destruct (T eq_refl) as (H1 & H2 & H3 & H4 & H5). repeat split; try apply H1; try assumption.
    revert E. unfold bn_wexpand. destruct (n <=? dmax r); [intros [= <-]; reflexivity |]. destruct (_ <? n); [discriminate |].
    destruct (is_static r) eqn:Es; [discriminate |]. destruct (negb _); [discriminate |]. intros [= <-]. reflexivity.
  - left. rewrite (F eq_refl) in *. split; [reflexivity |]. revert E. unfold bn_wexpand, refuses, starved, word_limit.
    destruct (n <=? dmax r); [discriminate |]. destruct (Z.ltb_spec (INT_MAX / (4 * 64)) n); [intuition |].
    destruct (is_static r); [intuition |]. destruct (alloc_ok (8 * n)) eqn:Ea; [discriminate |]. intros _. left. now exists (8 * n).
Qed.

Lemma wexpand_static r n : is_static (snd (bn_wexpand alloc_ok uninit r n)) = is_static r.
Proof.
  unfold bn_wexpand. destruct (n <=? dmax r); [reflexivity |]. destruct (_ <? n); [reflexivity |].
  destruct (is_static r) eqn:E; [exact E |]. destruct (negb _); [exact E | reflexivity].
Qed.

(** Once expanded, there is room. *)
Lemma wexpand_again r n : n <= dmax r -> bn_wexpand alloc_ok uninit r n = (true, r).
Proof. intros H. unfold bn_wexpand. now destruct (Z.leb_spec n (dmax r)); [| lia]. Qed.

Lemma correct_top_static r : is_static (bn_correct_top r) = is_static r.
Proof. unfold bn_correct_top. destruct (0 <? top r); cbn [top with_neg]; destruct (_ =? 0); reflexivity. Qed.

(** Every branch of the sums and differences keeps the flag. *)
Ltac static_cases :=
  repeat match goal with
  | |- context [bn_wexpand ?a ?u ?r ?n] =>
      let E := fresh in pose proof (wexpand_static r n) as E; destruct (bn_wexpand a u r n); cbn [fst snd] in *
  | |- context [if ?b then _ else _] => destruct b
  | |- context [let (_, _) := ?p in _] => destruct p
  | |- _ => progress cbn [fst snd negb is_static with_neg put_words]
  | |- _ => rewrite correct_top_static
  end; try assumption; try reflexivity.

Lemma uadd_static r a b : is_static (snd (BN_uadd alloc_ok uninit r a b)) = is_static r.
Proof. unfold BN_uadd. static_cases. Qed.

Lemma usub_static r a b : is_static (snd (BN_usub alloc_ok uninit r a b)) = is_static r.
Proof. unfold BN_usub. static_cases. Qed.

Lemma usub_signed_static r a b : is_static (snd (usub_signed alloc_ok uninit r a b)) = is_static r.
Proof.
  unfold usub_signed. destruct (BN_ucmp a b <? 0); [pose proof (usub_static r b a) as E | pose proof (usub_static r a b) as E];
    destruct (BN_usub _ _ _ _ _) as [[] ?]; exact E.
Qed.

Lemma uadd_delivers r a b : bn_mem r -> bn_ok a -> bn_ok b ->
  delivers r (Z.max (top a) (top b) + 1) (BN_uadd alloc_ok uninit r a b) (bn_abs a + bn_abs b).
Proof.
  intros Mr Ha Hb. pose proof (proj1 Ha) as Ma. pose proof (proj1 Hb) as Mb. unfold bn_mem in Ma, Mb.
  assert (Hu : BN_uadd alloc_ok uninit r a b = BN_uadd alloc_ok uninit r (if top a <? top b then b else a) (if top a <? top b then a else b)).
  { unfold BN_uadd. destruct (Z.ltb_spec (top a) (top b)); [destruct (Z.ltb_spec (top b) (top a)); [lia | reflexivity] |].
    destruct (Z.ltb_spec (top a) (top b)); [lia | reflexivity]. }
  rewrite Hu.
  assert (Hx : exists x y, (if top a <? top b then b else a) = x /\ (if top a <? top b then a else b) = y /\ bn_ok x /\ bn_ok y /\ top y <= top x /\
    top x = Z.max (top a) (top b) /\ bn_abs x + bn_abs y = bn_abs a + bn_abs b).
  { do 2 eexists. split; [reflexivity | split; [reflexivity |]]. destruct (Z.ltb_spec (top a) (top b)); (split; [assumption | split; [assumption | lia]]). }
  destruct Hx as (x & y & -> & -> & Hx & Hy & L & Em & <-). rewrite <- Em. assert (0 <= top x) by lia. pose proof (uadd_static r x y) as Es.
  destruct (wexpand_case r (top x + 1) Mr ltac:(lia)) as [(Ew & R) | (r1 & Ew & _)].
  - assert (BN_uadd alloc_ok uninit r x y = (false, r)) as -> by (unfold BN_uadd; destruct (Z.ltb_spec (top x) (top y)); [lia |]; now rewrite Ew).
    now apply delivers_false.
  - destruct (uadd_ordered alloc_ok uninit uninit_len r x y Mr Hx Hy L) as (r' & E & O & V & N); [now rewrite Ew |].
    rewrite E in *. apply delivers_ok; [exact O | exact Es | unfold bn_val; now rewrite N].
Qed.

Lemma usub_delivers r a b : bn_mem r -> bn_ok a -> bn_ok b -> bn_abs b <= bn_abs a ->
  delivers r (top a) (BN_usub alloc_ok uninit r a b) (bn_abs a - bn_abs b).
Proof.
  intros Mr Ha Hb Hv. pose proof (proj1 Ha) as Ma. unfold bn_mem in Ma.
  assert (L : top b <= top a) by (destruct (Z.le_gt_cases (top b) (top a)); [assumption | pose proof (top_lt_abs a b Ha Hb ltac:(lia)); lia]).
  pose proof (usub_static r a b) as Es.
  destruct (wexpand_case r (top a) Mr ltac:(lia)) as [(Ew & R) | (r1 & Ew & M1 & D1 & _)].
  - assert (BN_usub alloc_ok uninit r a b = (false, r)) as -> by (unfold BN_usub; destruct (Z.ltb_spec (top a - top b) 0); [lia |]; now rewrite Ew).
    now apply delivers_false.
  - assert (E1 : BN_usub alloc_ok uninit r a b = BN_usub alloc_ok uninit r1 a b).
    { unfold BN_usub. destruct (Z.ltb_spec (top a - top b) 0); [lia |]. now rewrite Ew, (wexpand_again r1). }
    destruct (usub_exact alloc_ok uninit uninit_len r1 a b M1 Ha Hb Hv (expands_0 alloc_ok uninit r1 _ M1 D1)) as (r' & E & O & V & N).
    rewrite E1, E in *. apply delivers_ok; [exact O | exact Es | unfold bn_val; now rewrite N].
Qed.

Lemma usub_signed_delivers r a b : bn_mem r -> bn_ok a -> bn_ok b ->
  delivers r (Z.max (top a) (top b)) (usub_signed alloc_ok uninit r a b) (bn_abs a - bn_abs b).
Proof.
  intros Mr Ha Hb. pose proof (ucmp_sgn a b Ha Hb) as U. unfold usub_signed.
  destruct (Z.ltb_spec (BN_ucmp a b) 0) as [L | L].
  - assert (Hv : bn_abs a < bn_abs b).
    { rewrite (Z.sgn_neg (BN_ucmp a b)) in U by assumption. destruct (Z.sgn_spec (bn_abs a - bn_abs b)) as [[? X] | [[? X] | [? X]]]; lia. }
    destruct (usub_delivers r b a Mr Hb Ha ltac:(lia)) as (M & S & V & F). destruct (BN_usub _ _ r b a) as [[] r']; cbn [fst snd negb] in *.
    + destruct (V eq_refl) as [O Ev]. apply delivers_ok; [| exact S |].
      * pose proof (ok_pos r' O) as P. apply ok_intro; [exact M | apply O | now apply (ok_value r') |].
        cbn [top with_neg]. intros E. exfalso. unfold bn_val in Ev. destruct (neg r') eqn:N; [rewrite (proj2 (proj2 (proj2 O)) E) in N; discriminate | lia].
      * unfold bn_val in *. cbn [neg with_neg]. change (bn_abs (with_neg r' true)) with (bn_abs r').
        pose proof (abs_nonneg r' O). destruct (neg r'); lia.
    + apply delivers_false; try assumption. apply (refuses_mono r r (top b)); [reflexivity | lia | now apply F].
  - assert (Hv : bn_abs b <= bn_abs a).
    { pose proof (Z.sgn_nonneg (BN_ucmp a b)) as X. destruct (Z.sgn_spec (bn_abs a - bn_abs b)) as [[? Y] | [[? Y] | [? Y]]]; lia. }
    destruct (usub_delivers r a b Mr Ha Hb Hv) as (M & S & V & F). destruct (BN_usub _ _ r a b) as [[] r']; cbn [fst snd negb] in *.
    + destruct (V eq_refl) as [O Ev]. pose proof (abs_nonneg r' O). assert (N : neg r' = false).
      { destruct (neg r') eqn:N; [| reflexivity]. pose proof (neg_pos r' O N). unfold bn_val in Ev. rewrite N in Ev. lia. }
      apply delivers_ok; [| exact S |].
      * apply ok_intro; [exact M | apply O | now apply (ok_value r') | reflexivity].
      * unfold bn_val in *. rewrite N in Ev. exact Ev.
    + apply delivers_false; try assumption. apply (refuses_mono r r (top a)); [reflexivity | lia | now apply F].
Qed.

(** The sum of magnitudes with a sign. *)
Lemma uadd_signed_delivers r a b s : bn_mem r -> bn_ok a -> bn_ok b -> (s = true -> 0 < bn_abs a + bn_abs b) ->
  let (ok, r') := BN_uadd alloc_ok uninit r a b in
  delivers r (Z.max (top a) (top b) + 1) (ok, with_neg r' s) ((if s then -1 else 1) * (bn_abs a + bn_abs b)) /\
  (ok = false -> bn_mem r' /\ is_static r' = is_static r /\ refuses r (Z.max (top a) (top b) + 1)).
Proof.
  intros Mr Ha Hb Hs. destruct (uadd_delivers r a b Mr Ha Hb) as (M & S & V & F).
  pose proof (abs_nonneg a Ha). pose proof (abs_nonneg b Hb).
  destruct (BN_uadd _ _ r a b) as [ok r']; cbn [fst snd] in *. split; [| intros ->; auto].
  split; [exact M | split; [exact S | split; [| exact F]]]. cbn [fst snd]. intros ->. destruct (V eq_refl) as [O Ev].
  assert (N : neg r' = false) by (destruct (neg r') eqn:N; [pose proof (neg_pos r' O N); unfold bn_val in Ev; rewrite N in Ev; lia | reflexivity]).
  unfold bn_val in Ev. rewrite N in Ev. split.
  - apply ok_intro; [exact M | apply O | now apply (ok_value r') |]. cbn [top neg with_neg]. intros E. destruct s; [| reflexivity].
    pose proof (ok_pos r' O). specialize (Hs eq_refl). lia.
  - unfold bn_val. cbn [neg with_neg]. change (bn_abs (with_neg r' s)) with (bn_abs r'). destruct s; lia.
Qed.

Lemma add_delivers r a b : bn_mem r -> bn_ok a -> bn_ok b ->
  delivers r (Z.max (top a) (top b) + 1) (BN_add alloc_ok uninit r a b) (bn_val a + bn_val b).
Proof.
  intros Mr Ha Hb. pose proof (abs_nonneg a Ha). pose proof (abs_nonneg b Hb). unfold BN_add.
  destruct (neg a) eqn:Na, (neg b) eqn:Nb; cbn [xorb].
  - pose proof (uadd_signed_delivers r a b true Mr Ha Hb ltac:(intros _; pose proof (neg_pos a Ha Na); lia)) as U.
    destruct (BN_uadd _ _ r a b) as [ok r']. replace (bn_val a + bn_val b) with (-1 * (bn_abs a + bn_abs b)); [apply U |].
    unfold bn_val. rewrite Na, Nb. lia.
  - replace (bn_val a + bn_val b) with (bn_abs b - bn_abs a) by (unfold bn_val; rewrite Na, Nb; lia).
    apply (delivers_mono r r (Z.max (top b) (top a))); [reflexivity | lia | now apply usub_signed_delivers].
  - replace (bn_val a + bn_val b) with (bn_abs a - bn_abs b) by (unfold bn_val; rewrite Na, Nb; lia).
    apply (delivers_mono r r (Z.max (top a) (top b))); [reflexivity | lia | now apply usub_signed_delivers].
  - pose proof (uadd_signed_delivers r a b false Mr Ha Hb ltac:(discriminate)) as U.
    destruct (BN_uadd _ _ r a b) as [ok r']. replace (bn_val a + bn_val b) with (1 * (bn_abs a + bn_abs b)); [apply U |].
    unfold bn_val. rewrite Na, Nb. lia.
Qed.

Lemma sub_delivers r a b : bn_mem r -> bn_ok a -> bn_ok b ->
  delivers r (Z.max (top a) (top b) + 1) (BN_sub alloc_ok uninit r a b) (bn_val a - bn_val b).
Proof.
  intros Mr Ha Hb. pose proof (proj1 Ha) as Ma. pose proof (proj1 Hb) as Mb. unfold bn_mem in Ma, Mb.
  assert (Hd : forall x y v, bn_ok x -> bn_ok y -> Z.max (top x) (top y) = Z.max (top a) (top b) -> v = bn_abs x - bn_abs y ->
    delivers r (Z.max (top a) (top b) + 1)
     (let (ok, r) := bn_wexpand alloc_ok uninit r (if top y <? top x then top x else top y) in
      if negb ok then (false, r) else usub_signed alloc_ok uninit r x y) v).
  { intros x y v Hx Hy E ->. assert (Hm : (if top y <? top x then top x else top y) = Z.max (top x) (top y)) by (destruct (Z.ltb_spec (top y) (top x)); lia).
    rewrite Hm, E. destruct (wexpand_case r (Z.max (top a) (top b)) Mr ltac:(lia)) as [(-> & R) | (r1 & -> & M1 & _ & _ & _ & _ & S1)]; cbn [negb].
    - apply delivers_false; [exact Mr | reflexivity | apply (refuses_mono r r (Z.max (top a) (top b))); [reflexivity | lia | exact R]].
    - apply (delivers_mono r1 r (Z.max (top x) (top y))); [exact S1 | lia | now apply usub_signed_delivers]. }
  assert (Hs : forall s v, (s = true -> 0 < bn_abs a + bn_abs b) -> v = (if s then -1 else 1) * (bn_abs a + bn_abs b) ->
    delivers r (Z.max (top a) (top b) + 1)
     (let (ok, r) := BN_uadd alloc_ok uninit r a b in if negb ok then (false, r) else (true, with_neg r s)) v).
  { intros s v Hs ->. pose proof (uadd_signed_delivers r a b s Mr Ha Hb Hs) as U.
    destruct (BN_uadd _ _ r a b) as [[] r']; cbn [negb]; destruct U as [U X]; [exact U |]. destruct (X eq_refl) as (M & S & R). now apply delivers_false. }
  pose proof (abs_nonneg a Ha). pose proof (abs_nonneg b Hb). unfold BN_sub. destruct (neg a) eqn:Na, (neg b) eqn:Nb.
  - apply Hd; try assumption; [lia | unfold bn_val; rewrite Na, Nb; lia].
  - apply Hs; [intros _; pose proof (neg_pos a Ha Na); lia | unfold bn_val; rewrite Na, Nb; lia].
  - apply Hs; [discriminate | unfold bn_val; rewrite Na, Nb; lia].
  - apply Hd; try assumption; [lia | unfold bn_val; rewrite Na, Nb; lia].
Qed.

Lemma copy_delivers r a : bn_mem r -> bn_ok a -> delivers r (top a) (BN_copy alloc_ok uninit r a) (bn_val a).
Proof.
  intros Mr Ha. pose proof (proj1 Ha) as Ma. unfold bn_mem in Ma.
  destruct (wexpand_case r (top a) Mr ltac:(lia)) as [(Ew & R) | (r1 & Ew & M1 & D1 & W1 & T1 & N1 & S1)].
  - unfold BN_copy. rewrite Ew. now apply delivers_false.
  - apply delivers_exact; [apply copy_exact; try assumption; now rewrite Ew |]. unfold BN_copy. rewrite Ew. exact S1.
Qed.
End Delivers.

(** ** What routines ask of a context *)

(** [ctx_end] is given the numbers of the frame as the routine leaves them: they
    are objects of the context, written through pointers. *)
Class Temporaries (C : Type) := {
  ctx_start : C -> C;
  ctx_get : C -> option BIGNUM * C;
  ctx_end : C -> list BIGNUM -> C
}.

Definition temporary_ok (t : BIGNUM) : Prop := bn_mem t /\ is_static t = false.

(** [ctx_same c c'] says that [c'] can be used where [c] was; [ctx_open c c'] that
    [c'] is [c] with one frame more, which may be out of order. *)
Class TemporariesOk (C : Type) `{Temporaries C} (scarce : Prop) := {
  ctx_ok : C -> Prop;
  ctx_same : C -> C -> Prop;
  ctx_open : C -> C -> Prop;
  ctx_same_preorder :: PreOrder ctx_same;
  ctx_same_ok : forall c c', ctx_ok c -> ctx_same c c' -> ctx_ok c';
  ctx_start_open : forall c, ctx_ok c -> ctx_open c (ctx_start c);
  ctx_open_same : forall c c1 c2, ctx_open c c1 -> ctx_ok c1 -> ctx_same c1 c2 -> ctx_open c c2;
  ctx_get_open : forall c c1, ctx_open c c1 ->
    match ctx_get c1 with
    | (Some t, c2) => ctx_open c c2 /\ ctx_ok c2 /\ temporary_ok t /\ top t = 0 /\ neg t = false
    | (None, c2) => ctx_open c c2 /\ scarce
    end;
  ctx_end_same : forall c c1 ts, ctx_open c c1 -> Forall temporary_ok ts -> ctx_same c (ctx_end c1 ts)
}.

(** ** ctx.c *)

(** [BN_init], and [BN_CTX_POOL_SIZE], [BN_CTX_START_FRAMES] and the sizes of the
    structures in bytes. *)
Definition BN_init : BIGNUM := mk_bn [] 0 false false.
Definition BN_CTX_POOL_SIZE : Z := 16.
Definition BN_CTX_START_FRAMES : Z := 32.
Definition sizeof_pool_item : Z := 400.

(** The bundles in the order of their links, as one list of numbers; [current] is
    the position of a bundle, -1 for the null pointer before the first. *)
Record BN_POOL := mk_pool { vals : list BIGNUM; current : Z; pool_used : Z; pool_size : Z }.

Record BN_STACK := mk_stack { indexes : list Z; depth : Z; stack_size : Z }.

Record BN_CTX := mk_ctx { pool : BN_POOL; stack : BN_STACK; used : Z; err_stack : Z; too_many : bool }.

Section Ctx.
Variable alloc_ok : Z -> bool.
Variable uninit : Z -> list Z.

Definition BN_STACK_init : BN_STACK := mk_stack [] 0 0.
Definition BN_POOL_init : BN_POOL := mk_pool [] (-1) 0 0.

(** [sizeof(BN_CTX)] is 72. *)
Definition BN_CTX_new : option BN_CTX :=
  guard (alloc_ok 72) in Some (mk_ctx BN_POOL_init BN_STACK_init 0 0 false).

Definition BN_STACK_push (st : BN_STACK) (idx : Z) : bool * BN_STACK :=
  let newsize := if stack_size st =? 0 then BN_CTX_START_FRAMES else stack_size st * 3 / 2 in
  if (depth st =? stack_size st) && negb (alloc_ok (newsize * 4)) then (false, st) else
  let st := if depth st =? stack_size st
            then mk_stack (splice (uninit newsize) 0 (take (depth st) (indexes st))) (depth st) newsize else st in
  (true, mk_stack (set (indexes st) (depth st) idx) (depth st + 1) (stack_size st)).

Definition BN_STACK_pop (st : BN_STACK) : Z * BN_STACK :=
  (get (indexes st) (depth st - 1), mk_stack (indexes st) (depth st - 1) (stack_size st)).

(** The position of the number handed out. *)
Definition BN_POOL_get (p : BN_POOL) : option Z * BN_POOL :=
  if pool_used p =? pool_size p then
    if negb (alloc_ok sizeof_pool_item) then (None, p) else
    (Some (len (vals p)), mk_pool (vals p ++ repeat BN_init 16) (len (vals p) / BN_CTX_POOL_SIZE) (pool_used p + 1) (pool_size p + BN_CTX_POOL_SIZE))
  else
    let current := if pool_used p =? 0 then 0 else if pool_used p mod BN_CTX_POOL_SIZE =? 0 then current p + 1 else current p in
    (Some (current * BN_CTX_POOL_SIZE + pool_used p mod BN_CTX_POOL_SIZE), mk_pool (vals p) current (pool_used p + 1) (pool_size p)).

(** [while (num--)]. *)
Fixpoint release_loop (num : nat) (offset current : Z) : Z :=
  match num with
  | O => current
  | S num => if offset =? 0 then release_loop num (BN_CTX_POOL_SIZE - 1) (current - 1) else release_loop num (offset - 1) current
  end.

Definition BN_POOL_release (p : BN_POOL) (num : Z) : BN_POOL :=
  let offset := (pool_used p - 1) mod BN_CTX_POOL_SIZE in
  mk_pool (vals p) (release_loop (Z.to_nat num) offset (current p)) (pool_used p - num) (pool_size p).

Definition BN_CTX_start (ctx : BN_CTX) : BN_CTX :=
  if negb (err_stack ctx =? 0) || too_many ctx then mk_ctx (pool ctx) (stack ctx) (used ctx) (err_stack ctx + 1) (too_many ctx) else
  let (ok, st) := BN_STACK_push (stack ctx) (used ctx) in
  if negb ok then mk_ctx (pool ctx) (stack ctx) (used ctx) (err_stack ctx + 1) (too_many ctx) else
  mk_ctx (pool ctx) st (used ctx) (err_stack ctx) (too_many ctx).

(** The number as [BN_zero] leaves it, written back at its position. *)
Definition BN_CTX_get (ctx : BN_CTX) : option (Z * BIGNUM) * BN_CTX :=
  if negb (err_stack ctx =? 0) || too_many ctx then (None, ctx) else
  match BN_POOL_get (pool ctx) with
  | (None, p) => (None, mk_ctx p (stack ctx) (used ctx) (err_stack ctx) true)
  | (Some i, p) =>
      let ret := BN_zero (nth (Z.to_nat i) (vals p) BN_init) in
      (Some (i, ret), mk_ctx (mk_pool (splice (vals p) i [ret]) (current p) (pool_used p) (pool_size p))
                             (stack ctx) (used ctx + 1) (err_stack ctx) (too_many ctx))
  end.

Definition BN_CTX_end (ctx : BN_CTX) : BN_CTX :=
  if negb (err_stack ctx =? 0) then mk_ctx (pool ctx) (stack ctx) (used ctx) (err_stack ctx - 1) (too_many ctx) else
  let (fp, st) := BN_STACK_pop (stack ctx) in
  let p := if fp <? used ctx then BN_POOL_release (pool ctx) (used ctx - fp) else pool ctx in
  mk_ctx p st fp (err_stack ctx) false.

(** The frame's numbers with the contents [ts]. *)
Definition store_frame (ctx : BN_CTX) (ts : list BIGNUM) : BN_CTX :=
  if negb (err_stack ctx =? 0) then ctx else
  let fp := get (indexes (stack ctx)) (depth (stack ctx) - 1) in
  let p := pool ctx in
  mk_ctx (mk_pool (splice (vals p) fp (take (used ctx - fp) ts)) (current p) (pool_used p) (pool_size p))
         (stack ctx) (used ctx) (err_stack ctx) (too_many ctx).

#[export] Instance ctx_temporaries : Temporaries BN_CTX := {
  ctx_start := BN_CTX_start;
  ctx_get c := let (r, c) := BN_CTX_get c in (option_map snd r, c);
  ctx_end c ts := BN_CTX_end (store_frame c ts)
}.
End Ctx.

(** ** The invariant of a context *)

Section CtxProofs.
Variable alloc_ok : Z -> bool.
Variable uninit : Z -> list Z.
Hypothesis uninit_len : forall n, 0 <= n -> len (uninit n) = n.

(** The numbers in use are those before [pool_used], and [current] is the bundle
    of the last of them. *)
Definition pool_ok (p : BN_POOL) : Prop :=
  Forall temporary_ok (vals p) /\ len (vals p) = pool_size p /\ pool_size p mod BN_CTX_POOL_SIZE = 0 /\
  0 <= pool_used p <= pool_size p /\ (0 < pool_used p -> current p = (pool_used p - 1) / BN_CTX_POOL_SIZE).

Definition stack_ok (st : BN_STACK) : Prop := 0 <= depth st <= stack_size st /\ len (indexes st) = stack_size st /\
  (stack_size st = 0 \/ BN_CTX_START_FRAMES <= stack_size st).

Definition frames (st : BN_STACK) : list Z := take (depth st) (indexes st).

Definition ctx_inv (c : BN_CTX) : Prop := pool_ok (pool c) /\ stack_ok (stack c) /\ pool_used (pool c) = used c.

Lemma temporary_init : temporary_ok BN_init.
Proof. repeat split; apply Z.leb_le; reflexivity. Qed.

Lemma temporary_zero t : temporary_ok t -> temporary_ok (BN_zero t).
Proof. intros [M S]. split; [| exact S]. unfold bn_mem, BN_zero, dmax in *. cbn [top d]. lia. Qed.

Lemma release_loop_div n : forall x, release_loop n (x mod BN_CTX_POOL_SIZE) (x / BN_CTX_POOL_SIZE) = (x - Z.of_nat n) / BN_CTX_POOL_SIZE.
Proof.
  unfold BN_CTX_POOL_SIZE. induction n as [| n IH]; intros x; [cbn; f_equal; lia |]. cbn [release_loop]. unfold BN_CTX_POOL_SIZE.
  replace (x - Z.of_nat (S n)) with (x - 1 - Z.of_nat n) by lia. rewrite <- IH.
  destruct (Z.eqb_spec (x mod 16) 0); f_equal; Z.to_euclidean_division_equations; lia.
Qed.

Lemma pool_get_ok p : pool_ok p ->
  match BN_POOL_get alloc_ok p with
  | (Some i, p') => i = pool_used p /\ pool_ok p' /\ pool_used p' = pool_used p + 1
  | (None, p') => p' = p /\ starved alloc_ok
  end.
Proof.
  intros (F & L & Hm & U & C). unfold BN_POOL_get. unfold BN_CTX_POOL_SIZE in *. destruct (Z.eqb_spec (pool_used p) (pool_size p)) as [E | E].
  - destruct (alloc_ok sizeof_pool_item) eqn:Ea; cbn [negb]; [| split; [reflexivity | now exists sizeof_pool_item]].
    split; [lia | split; [| reflexivity]]. unfold pool_ok, BN_CTX_POOL_SIZE. cbn [vals pool_size pool_used current].
    rewrite len_app, len_repeat. split; [apply Forall_app; split; [exact F | apply Forall_repeat, temporary_init] |].
    rewrite <- L, Z.add_mod, L, Hm by lia. repeat split; try lia. intros _. f_equal. lia.
  - split; [| split; [| reflexivity]].
    + destruct (Z.eqb_spec (pool_used p) 0) as [-> |]; [reflexivity |]. rewrite C by lia.
      destruct (Z.eqb_spec (pool_used p mod 16) 0); Z.to_euclidean_division_equations; lia.
    + unfold pool_ok, BN_CTX_POOL_SIZE. cbn [vals pool_size pool_used current]. repeat split; try assumption; try lia. intros _.
      destruct (Z.eqb_spec (pool_used p) 0) as [-> |]; [reflexivity |]. rewrite C by lia.
      destruct (Z.eqb_spec (pool_used p mod 16) 0); Z.to_euclidean_division_equations; lia.
Qed.

Lemma pool_release_ok p num : pool_ok p -> 0 <= num <= pool_used p ->
  pool_ok (BN_POOL_release p num) /\ pool_used (BN_POOL_release p num) = pool_used p - num.
Proof.
  intros (F & L & Hm & U & C) Hn. split; [| reflexivity]. unfold pool_ok, BN_POOL_release. cbn [vals pool_size pool_used current].
  repeat split; try assumption; try lia. intros H. rewrite C by lia. rewrite release_loop_div. f_equal. lia.
Qed.

Lemma stack_push_ok st idx : stack_ok st ->
  match BN_STACK_push alloc_ok uninit st idx with
  | (true, st') => stack_ok st' /\ depth st' = depth st + 1 /\ take (depth st) (indexes st') = frames st /\ get (indexes st') (depth st) = idx
  | (false, st') => st' = st /\ starved alloc_ok
  end.
Proof.
  unfold stack_ok, BN_CTX_START_FRAMES. intros (D & L & Z0). unfold BN_STACK_push, BN_CTX_START_FRAMES. set (newsize := if stack_size st =? 0 then _ else _).
  assert (Hn : stack_size st < newsize /\ 32 <= newsize).
  { unfold newsize. destruct (Z.eqb_spec (stack_size st) 0); [lia |]. Z.to_euclidean_division_equations; lia. }
  assert (G : forall l n, len l = n -> depth st < n -> take (depth st) l = frames st -> (n = 0 \/ 32 <= n) ->
    let st' := mk_stack (set l (depth st) idx) (depth st + 1) n in
    (0 <= depth st' <= stack_size st' /\ len (indexes st') = stack_size st' /\ (stack_size st' = 0 \/ 32 <= stack_size st')) /\
    depth st' = depth st + 1 /\ take (depth st) (indexes st') = frames st /\ get (indexes st') (depth st) = idx).
  { intros l n Hl Hd Ht Hz. cbn [indexes depth stack_size]. rewrite len_set, take_set, get_set_same by lia. repeat split; try assumption; lia. }
  destruct (Z.eqb_spec (depth st) (stack_size st)) as [E | E]; cbn [andb].
  - destruct (alloc_ok (newsize * 4)) eqn:Ea; cbn [negb]; [| split; [reflexivity | now exists (newsize * 4)]].
    cbn [indexes depth stack_size]. pose proof (uninit_len newsize ltac:(lia)) as U.
    assert (Lt : len (take (depth st) (indexes st)) = depth st) by (rewrite len_take; lia).
    apply G; [rewrite len_splice by lia; exact U | lia | | lia].
    unfold frames. rewrite <- Lt at 1. change (len ?x) with (0 + len x). rewrite take_splice by lia. reflexivity.
  - apply G; [exact L | lia | reflexivity | exact Z0].
Qed.

(** *** The laws of the class *)

Definition bn_ctx_ok (c : BN_CTX) : Prop := ctx_inv c /\ err_stack c = 0 /\ too_many c = false.

Definition bn_ctx_same (c c' : BN_CTX) : Prop :=
  bn_ctx_ok c -> bn_ctx_ok c' /\ used c' = used c /\ frames (stack c') = frames (stack c) /\ depth (stack c') = depth (stack c).

(** Either the frame could not be made, or its first number is the one after those
    in use before. *)
Definition bn_ctx_open (c c1 : BN_CTX) : Prop :=
  bn_ctx_ok c /\ ctx_inv c1 /\
  ((err_stack c1 = 1 /\ too_many c1 = false /\ starved alloc_ok /\ used c1 = used c /\
    frames (stack c1) = frames (stack c) /\ depth (stack c1) = depth (stack c)) \/
   (err_stack c1 = 0 /\ (too_many c1 = true -> starved alloc_ok) /\ used c <= used c1 /\
    take (depth (stack c)) (indexes (stack c1)) = frames (stack c) /\ depth (stack c1) = depth (stack c) + 1 /\
    get (indexes (stack c1)) (depth (stack c)) = used c)).

Lemma start_open c : bn_ctx_ok c -> bn_ctx_open c (BN_CTX_start alloc_ok uninit c).
Proof.
  intros Hc. pose proof Hc as ((P & S & U) & E & T). unfold BN_CTX_start. rewrite E, T. cbn [Z.eqb negb orb].
  pose proof (stack_push_ok (stack c) (used c) S) as X. destruct (BN_STACK_push _ _ _ _) as [[] st]; cbn [negb].
  - destruct X as (S' & D' & F' & G'). split; [exact Hc | split; [exact (conj P (conj S' U)) |]]. right. cbn. repeat split; try assumption; try lia.
  - destruct X as [-> X]. split; [exact Hc | split; [exact (conj P (conj S U)) |]]. left. cbn. now repeat split.
Qed.

Lemma frames_le st n : 0 <= n <= depth st -> take n (frames st) = take n (indexes st).
Proof. intros H. unfold frames. now apply take_take. Qed.

Lemma open_same c c1 c2 : bn_ctx_open c c1 -> bn_ctx_ok c1 -> bn_ctx_same c1 c2 -> bn_ctx_open c c2.
Proof.
  intros (Hc & I1 & O) H1 S. destruct (S H1) as (H2 & U2 & F2 & D2). split; [exact Hc | split; [apply H2 |]]. right.
  destruct O as [(E & _) | (_ & _ & U & F & D & G)]; [destruct H1 as (_ & E1 & _); lia |]. destruct H2 as (I2 & E2 & T2).
  pose proof Hc as ((_ & (Dc & _) & _) & _).
  assert (Hf : frames (stack c2) = frames (stack c1)) by exact F2. unfold frames in Hf at 1. rewrite D2, D in Hf.
  assert (Fx : take (depth (stack c)) (indexes (stack c2)) = take (depth (stack c)) (indexes (stack c1))).
  { rewrite <- (take_take (depth (stack c)) (depth (stack c) + 1) (indexes (stack c2))), Hf, frames_le by lia. reflexivity. }
  assert (Gx : get (indexes (stack c2)) (depth (stack c)) = get (indexes (stack c1)) (depth (stack c))).
  { rewrite <- (get_take (indexes (stack c2)) (depth (stack c) + 1)), Hf by lia. unfold frames. apply get_take. lia. }
  rewrite E2, T2, Fx, Gx. repeat split; try assumption; try lia.
Qed.

Lemma get_step c : ctx_inv c -> err_stack c = 0 -> too_many c = false ->
  match BN_CTX_get alloc_ok c with
  | (Some (i, t), c2) => i = used c /\ temporary_ok t /\ top t = 0 /\ neg t = false /\ ctx_inv c2 /\ used c2 = used c + 1 /\
      stack c2 = stack c /\ err_stack c2 = 0 /\ too_many c2 = false
  | (None, c2) => c2 = mk_ctx (pool c) (stack c) (used c) 0 true /\ starved alloc_ok
  end.
Proof.
  intros (P & S & U) E T. unfold BN_CTX_get. rewrite E, T. cbn [Z.eqb negb orb].
  pose proof (pool_get_ok (pool c) P) as Y. destruct (BN_POOL_get alloc_ok (pool c)) as [[i |] p]; [| now destruct Y as [-> Y]].
  destruct Y as (-> & (Pv & Pl & Pm & Pu & Pc) & Up). set (t := BN_zero _). pose proof P as (_ & _ & _ & Pu0 & _).
  assert (Ht : temporary_ok t) by (unfold t; apply temporary_zero; apply Forall_nth; [exact Pv | unfold len in Pl; lia]).
  cbn [used stack err_stack too_many]. split; [exact U | split; [exact Ht | split; [reflexivity | split; [reflexivity | split; [| now repeat split]]]]].
  unfold ctx_inv, pool_ok. cbn [pool stack used vals current pool_used pool_size].
  rewrite len_splice by (rewrite ?len_cons, ?len_nil; lia). repeat split; try assumption; try apply S; try lia.
  apply Forall_splice; [exact Pv | constructor; [exact Ht | constructor]].
Qed.

Lemma end_step c ts fp : ctx_inv c -> err_stack c = 0 -> 0 < depth (stack c) -> get (indexes (stack c)) (depth (stack c) - 1) = fp ->
  0 <= fp <= used c -> Forall temporary_ok ts ->
  let c2 := BN_CTX_end (store_frame c ts) in
  ctx_inv c2 /\ used c2 = fp /\ err_stack c2 = 0 /\ too_many c2 = false /\
  indexes (stack c2) = indexes (stack c) /\ depth (stack c2) = depth (stack c) - 1.
Proof.
  intros (P & S & U) E Hd G Hf Ht. cbv zeta.
  set (p := mk_pool (splice (vals (pool c)) fp (take (used c - fp) ts)) (current (pool c)) (pool_used (pool c)) (pool_size (pool c))).
  set (p' := if fp <? used c then BN_POOL_release p (used c - fp) else p).
  assert (BN_CTX_end (store_frame c ts) = mk_ctx p' (mk_stack (indexes (stack c)) (depth (stack c) - 1) (stack_size (stack c))) fp 0 false) as ->.
  { unfold BN_CTX_end, store_frame, BN_STACK_pop. rewrite E. cbn [Z.eqb negb err_stack stack used pool]. cbn [Z.eqb negb]. rewrite G. reflexivity. }
  pose proof P as (Pv & Pl & Pm & Pu & Pcur).
  assert (Hp : pool_ok p).
  { unfold pool_ok, p. cbn [vals current pool_used pool_size]. pose proof (len_take_min (used c - fp) ts ltac:(lia)).
    rewrite len_splice by lia. repeat split; try assumption; try lia. apply Forall_splice; [exact Pv | now apply Forall_take]. }
  assert (Hr : pool_ok p' /\ pool_used p' = fp).
  { unfold p'. destruct (Z.ltb_spec fp (used c)).
    - destruct (pool_release_ok p (used c - fp) Hp) as [Q1 Q2]; [cbn [p pool_used]; lia |]. split; [exact Q1 |]. rewrite Q2. cbn [p pool_used]. lia.
    - split; [exact Hp |]. cbn [p pool_used]. lia. }
  destruct Hr as [R1 R2]. clearbody p'. split; [| now repeat split]. split; [exact R1 | split; [| exact R2]].
  destruct S as (S1 & S2 & S3). unfold stack_ok. cbn [stack depth stack_size indexes]. repeat split; try assumption; lia.
Qed.

Lemma get_open c c1 : bn_ctx_open c c1 ->
  match ctx_get (Temporaries := ctx_temporaries alloc_ok uninit) c1 with
  | (Some t, c2) => bn_ctx_open c c2 /\ bn_ctx_ok c2 /\ temporary_ok t /\ top t = 0 /\ neg t = false
  | (None, c2) => bn_ctx_open c c2 /\ starved alloc_ok
  end.
Proof.
  intros O. pose proof O as (Hc & I1 & X). cbn [ctx_get ctx_temporaries].
  destruct X as [(E & T & St & X) | (E & T & U1 & F & D & G)].
  { unfold BN_CTX_get. rewrite E. cbn. split; [exact O | exact St]. }
  destruct (too_many c1) eqn:Tm; [unfold BN_CTX_get; rewrite E, Tm; cbn; split; [exact O | now apply T] |].
  pose proof (get_step c1 I1 E Tm) as Y. destruct (BN_CTX_get alloc_ok c1) as [[[i t] |] c2]; cbn [option_map snd].
  - destruct Y as (_ & Ht & H0 & Hn & I2 & U2 & S2 & E2 & T2). split; [| split; [now split | split; [exact Ht | now split]]].
    split; [exact Hc | split; [exact I2 |]]. right. rewrite S2, T2, E2, U2. repeat split; try assumption; try lia.
  - destruct Y as [-> Y]. split; [| exact Y]. split; [exact Hc | split; [exact I1 |]]. right. cbn [err_stack too_many used stack]. now repeat split.
Qed.

Lemma end_same c c1 ts : bn_ctx_open c c1 -> Forall temporary_ok ts ->
  bn_ctx_same c (ctx_end (Temporaries := ctx_temporaries alloc_ok uninit) c1 ts).
Proof.
  intros (Hc & I1 & X) Ht _. cbn [ctx_end ctx_temporaries]. pose proof Hc as ((Pc & (Dc & _) & Uc) & Ec & Tc).
  destruct X as [(E & T & St & U1 & F & D) | (E & T & U1 & F & D & G)].
  { assert (BN_CTX_end (store_frame c1 ts) = mk_ctx (pool c1) (stack c1) (used c1) 0 (too_many c1)) as -> by (unfold BN_CTX_end, store_frame; rewrite E; cbn; rewrite E; reflexivity).
    split; [| split; [exact U1 | split; [exact F | exact D]]]. split; [exact I1 | split; [reflexivity | exact T]]. }
  pose proof Pc as (_ & _ & _ & Pu & _). replace (depth (stack c)) with (depth (stack c1) - 1) in G by lia.
  destruct (end_step c1 ts (used c) I1 E ltac:(lia) G ltac:(lia) Ht) as (I2 & U2 & E2 & T2 & X2 & D2).
  split; [now split | split; [exact U2 | split; [| lia]]]. unfold frames at 1. rewrite X2, D2, D. replace (depth (stack c) + 1 - 1) with (depth (stack c)) by lia. exact F.
Qed.

#[export] Instance ctx_temporaries_ok : TemporariesOk BN_CTX (H := ctx_temporaries alloc_ok uninit) (starved alloc_ok).
Proof.
  refine {| ctx_ok := bn_ctx_ok; ctx_same := bn_ctx_same; ctx_open := bn_ctx_open |}.
  - split; [intros c Hc; split; [exact Hc | now repeat split] |]. intros c1 c2 c3 H1 H2 Hc. destruct (H1 Hc) as (O & U & F & D). destruct (H2 O) as (O' & U' & F' & D').
    split; [exact O' | repeat split; congruence].
  - intros c c' Hc H. now apply H.
  - exact start_open.
  - exact open_same.
  - exact get_open.
  - exact end_same.
Defined.

(** ** What a context does, without pools and stacks

    The numbers lent are 0, 1, ... in order. Starting a frame remembers how many
    there are, ending it takes them back. A frame that cannot be made and a number
    that cannot be had show as null pointers until the frame ends. *)

Inductive ctx_op := op_start | op_get | op_end (ts : list BIGNUM).

Definition run_op (c : BN_CTX) (o : ctx_op) : option (Z * BIGNUM) * BN_CTX :=
  match o with
  | op_start => (None, BN_CTX_start alloc_ok uninit c)
  | op_get => BN_CTX_get alloc_ok c
  | op_end ts => (None, BN_CTX_end (store_frame c ts))
  end.

Record lender := mk_lender { bounds : list Z; lent : Z; broken : Z; jammed : bool }.

Inductive lends (s : lender) : ctx_op -> option (Z * BIGNUM) -> lender -> Prop :=
  | lends_start : broken s = 0 -> jammed s = false ->
      lends s op_start None (mk_lender (lent s :: bounds s) (lent s) 0 false)
  | lends_no_start : broken s <> 0 \/ jammed s = true \/ starved alloc_ok ->
      lends s op_start None (mk_lender (bounds s) (lent s) (broken s + 1) (jammed s))
  | lends_get t : broken s = 0 -> jammed s = false -> temporary_ok t -> top t = 0 -> neg t = false ->
      lends s op_get (Some (lent s, t)) (mk_lender (bounds s) (lent s + 1) 0 false)
  | lends_jam : starved alloc_ok -> lends s op_get None (mk_lender (bounds s) (lent s) (broken s) true)
  | lends_no_get : broken s <> 0 \/ jammed s = true -> lends s op_get None s
  | lends_end ts b bs : broken s = 0 -> bounds s = b :: bs ->
      lends s (op_end ts) None (mk_lender bs b 0 false)
  | lends_end_broken ts : 0 < broken s ->
      lends s (op_end ts) None (mk_lender (bounds s) (lent s) (broken s - 1) (jammed s)).

(** The state of a lender is that of a context. *)
Definition represents (c : BN_CTX) (s : lender) : Prop :=
  ctx_inv c /\ used c = lent s /\ err_stack c = broken s /\ too_many c = jammed s /\ 0 <= broken s /\
  frames (stack c) = rev (bounds s) /\ StronglySorted Z.ge (lent s :: bounds s ++ [0]).

Lemma represents_new c : BN_CTX_new alloc_ok = Some c -> represents c (mk_lender [] 0 0 false).
Proof.
  unfold BN_CTX_new. destruct (alloc_ok 72); [| discriminate]. intros [= <-]. unfold represents, ctx_inv, pool_ok, stack_ok. cbn.
  repeat split; try lia; repeat constructor; lia.
Qed.

Lemma start_represents c s : represents c s ->
  exists s', lends s op_start None s' /\ represents (BN_CTX_start alloc_ok uninit c) s'.
Proof.
  intros (I & U & E & J & B & F & O). unfold BN_CTX_start.
  assert (Fail : broken s <> 0 \/ jammed s = true \/ starved alloc_ok ->
    exists s', lends s op_start None s' /\ represents (mk_ctx (pool c) (stack c) (used c) (err_stack c + 1) (too_many c)) s').
  { intros H. eexists. split; [now apply lends_no_start |]. unfold represents. cbn [used err_stack too_many lent broken jammed bounds stack].
    split; [exact I |]. repeat split; try assumption; lia. }
  destruct (Z.eqb_spec (err_stack c) 0) as [E0 | E0]; cbn [negb orb]; [| apply Fail; left; congruence].
  destruct (too_many c) eqn:T; [apply Fail; right; left; congruence |].
  destruct I as (P & S & Up). pose proof (stack_push_ok (stack c) (used c) S) as X. destruct (BN_STACK_push _ _ _ _) as [[] st]; cbn [negb].
  2: { destruct X as [_ X]. apply Fail. right. now right. }
  destruct X as (S' & D' & F' & G'). eexists. split; [apply lends_start; congruence |].
  unfold represents, ctx_inv. cbn [pool used err_stack too_many lent broken jammed bounds stack]. rewrite E0.
  split; [exact (conj P (conj S' Up)) | split; [exact U | split; [reflexivity | split; [reflexivity | split; [lia |]]]]].
  destruct S as (D & _), S' as (D2 & L2 & Z2). split.
  - unfold frames. rewrite D', take_succ, F', G', F, U by lia. reflexivity.
  - cbn [app]. constructor; [exact O |]. constructor; [lia |]. now inversion O.
Qed.

Lemma get_represents c s : represents c s ->
  exists s', lends s op_get (fst (BN_CTX_get alloc_ok c)) s' /\ represents (snd (BN_CTX_get alloc_ok c)) s'.
Proof.
  intros R. pose proof R as (I & U & E & J & B & F & O).
  assert (Stuck : broken s <> 0 \/ jammed s = true -> BN_CTX_get alloc_ok c = (None, c) ->
    exists s', lends s op_get (fst (BN_CTX_get alloc_ok c)) s' /\ represents (snd (BN_CTX_get alloc_ok c)) s').
  { intros H ->. exists s. split; [now apply lends_no_get | exact R]. }
  destruct (Z.eq_dec (err_stack c) 0) as [E0 | E0].
  2: { apply Stuck; [left; congruence |]. unfold BN_CTX_get. now destruct (Z.eqb_spec (err_stack c) 0). }
  destruct (too_many c) eqn:T; [apply Stuck; [right; congruence | unfold BN_CTX_get; rewrite T, orb_true_r; reflexivity] |].
  pose proof (get_step c I E0 T) as Y. destruct (BN_CTX_get alloc_ok c) as [[[i t] |] c2]; cbn [fst snd].
  - destruct Y as (-> & Ht & H0 & Hn & I2 & U2 & S2 & E2 & T2). rewrite U. eexists. split; [apply lends_get; congruence || assumption |].
    unfold represents. cbn [lent broken jammed bounds]. rewrite S2, U2, E2, T2.
    split; [exact I2 | split; [lia | split; [reflexivity | split; [reflexivity | split; [lia | split; [exact F |]]]]]].
    inversion O as [| ? ? O1 O2]. constructor; [exact O1 |]. eapply Forall_impl; [| exact O2]. cbn. lia.
  - destruct Y as [-> Y]. eexists. split; [now apply lends_jam |]. unfold represents. cbn [pool used err_stack too_many lent broken jammed bounds stack].
    split; [exact I |]. repeat split; try assumption; lia.
Qed.

Lemma end_represents c s ts : represents c s -> bounds s <> [] \/ 0 < broken s -> Forall temporary_ok ts ->
  exists s', lends s (op_end ts) None s' /\ represents (BN_CTX_end (store_frame c ts)) s'.
Proof.
  intros (I & U & E & J & B & F & O) H Ht. destruct (Z.eq_dec (broken s) 0) as [E0 | E0].
  - destruct (bounds s) as [| b bs] eqn:Eb; [destruct H; [congruence | lia] |].
    assert (Hd : 0 < depth (stack c) /\ take (depth (stack c) - 1) (indexes (stack c)) = rev bs /\ get (indexes (stack c)) (depth (stack c) - 1) = b).
    { destruct I as (_ & (D & L & _) & _). cbn [rev] in F. pose proof (f_equal len F) as Fl. unfold frames in Fl. rewrite len_take, len_app in Fl by lia.
      cbn in Fl. unfold len in Fl at 1. unfold frames in F. split; [lia |].
      replace (depth (stack c)) with (depth (stack c) - 1 + 1) in F by lia. rewrite take_succ in F by lia. now apply app_inj_tail in F. }
    destruct Hd as (Hd & F' & G). inversion O as [| ? ? O1 O2]. cbn [app] in *. inversion O1 as [| ? ? O3 O4]. inversion O2 as [| ? ? O5 O6].
    assert (0 <= b). { rewrite Forall_app in O4. destruct O4 as [_ O4]. inversion O4. lia. }
    destruct (end_step c ts b I ltac:(congruence) Hd G ltac:(lia) Ht) as (I2 & U2 & E2 & T2 & X2 & D2).
    eexists. split; [now apply lends_end with (1 := E0) (2 := Eb) |]. unfold represents. cbn [lent broken jammed bounds].
    split; [exact I2 | split; [exact U2 | split; [exact E2 | split; [exact T2 | split; [lia | split; [| now constructor]]]]]].
    unfold frames. rewrite X2, D2. exact F'.
  - eexists. split; [apply lends_end_broken; lia |].
    assert (BN_CTX_end (store_frame c ts) = mk_ctx (pool c) (stack c) (used c) (err_stack c - 1) (too_many c)) as ->.
    { unfold BN_CTX_end, store_frame. destruct (Z.eqb_spec (err_stack c) 0) as [| N]; [lia |]. cbn [negb].
      now destruct (Z.eqb_spec (err_stack c) 0). }
    unfold represents. cbn [pool used err_stack too_many lent broken jammed bounds stack].
    split; [exact I |]. repeat split; try assumption; lia.
Qed.
End CtxProofs.


