(* ===== verification/BnShift.v ===== *)
(** * Shifts and bits of big integers (crypto/fipsmodule/bn/shift.c)

    The shifts walk through the words in the direction that lets the result be
    the operand itself. An operand is [None] where the caller passes [r] for [a]:
    its words are then read from the array being written. The proofs compare
    numbers bit by bit. *)

From S2P Require Import Prelude Buffers BnWords Bignum BnBytes BnCtx.

(** The object [a], and its array [a->d] while that of [r] holds [t]. *)
Definition operand (r : BIGNUM) (a : option BIGNUM) : BIGNUM := match a with Some a => a | None => r end.
Definition source (a : option BIGNUM) (t : list Z) : list Z := match a with Some a => d a | None => t end.

Definition BN_TBIT : Z := 2 ^ 63.

(** [for (i = a->top - 1; i >= 0; i--)] for whole words, and with bits. *)
Fixpoint lshift_words (n : nat) (a : option BIGNUM) (nw : Z) (t : list Z) : list Z :=
  match n with
  | O => t
  | S n => let i := Z.of_nat n in lshift_words n a nw (set t (nw + i) (get (source a t) i))
  end.

Fixpoint lshift_bits (n : nat) (a : option BIGNUM) (nw lb rb : Z) (t : list Z) : list Z :=
  match n with
  | O => t
  | S n =>
      let i := Z.of_nat n in
      let l := get (source a t) i in
      let t := set t (nw + i + 1) (Z.lor (get t (nw + i + 1)) (Z.land (Z.shiftr l rb) BN_MASK2)) in
      let t := set t (nw + i) (Z.land (u64 (Z.shiftl l lb)) BN_MASK2) in
      lshift_bits n a nw lb rb t
  end.

(** [for (i = 0; i < a->top; i++)]: the array and the carry. *)
Fixpoint lshift1_loop (n : nat) (i : Z) (a : option BIGNUM) (t : list Z) (c : Z) : list Z * Z :=
  match n with
  | O => (t, c)
  | S n =>
      let x := get (source a t) i in
      let t := set t i (Z.land (Z.lor (u64 (Z.shiftl x 1)) c) BN_MASK2) in
      lshift1_loop n (i + 1) a t (if negb (Z.land x BN_TBIT =? 0) then 1 else 0)
  end.

(** [for (i = j; i != 0; i--)]: [k] is the position of [t], [nw + k] of [f]. *)
Fixpoint rshift_words (n : nat) (k : Z) (a : option BIGNUM) (nw : Z) (t : list Z) : list Z :=
  match n with
  | O => t
  | S n => rshift_words n (k + 1) a nw (set t k (get (source a t) (nw + k)))
  end.

(** [for (i = j - 1; i != 0; i--)]: the array and the last [l]. *)
Fixpoint rshift_bits (n : nat) (k : Z) (a : option BIGNUM) (nw lb rb l : Z) (t : list Z) : list Z * Z :=
  match n with
  | O => (t, l)
  | S n =>
      let tmp := Z.land (Z.shiftr l rb) BN_MASK2 in
      let l := get (source a t) (nw + k + 1) in
      let t := set t k (Z.land (Z.lor tmp (u64 (Z.shiftl l lb))) BN_MASK2) in
      rshift_bits n (k + 1) a nw lb rb l t
  end.

(** [while (i > 0)]: [n] words below. *)
Fixpoint rshift1_loop (n : nat) (a : option BIGNUM) (t : list Z) (c : Z) : list Z :=
  match n with
  | O => t
  | S n =>
      let i := Z.of_nat n in
      let x := get (source a t) i in
      rshift1_loop n a (set t i (Z.lor (Z.land (Z.shiftr x 1) BN_MASK2) c)) (if negb (Z.land x 1 =? 0) then BN_TBIT else 0)
  end.

Section Shift.
Variable alloc_ok : Z -> bool.
Variable uninit : Z -> list Z.

Definition BN_lshift (r : BIGNUM) (a : option BIGNUM) (n : Z) : bool * BIGNUM :=
  if n <? 0 then (false, r) else
  let r := with_neg r (neg (operand r a)) in
  let nw := n / BN_BITS2 in
  let a_top := top (operand r a) in
  let (ok, r) := bn_wexpand alloc_ok uninit r (a_top + nw + 1) in
  if negb ok then (false, r) else
  let lb := n mod BN_BITS2 in
  let rb := BN_BITS2 - lb in
  let t := set (d r) (a_top + nw) 0 in
  let t := if lb =? 0 then lshift_words (Z.to_nat a_top) a nw t else lshift_bits (Z.to_nat a_top) a nw lb rb t in
  let t := splice t 0 (repeat 0 (Z.to_nat nw)) in
  (true, bn_correct_top (mk_bn t (a_top + nw + 1) (neg r) (is_static r))).

Definition BN_lshift1 (r : BIGNUM) (a : option BIGNUM) : bool * BIGNUM :=
  let a_top := top (operand r a) in
  let r := match a with Some a => with_neg r (neg a) | None => r end in
  let (ok, r) := bn_wexpand alloc_ok uninit r (a_top + 1) in
  if negb ok then (false, r) else
  let '(t, c) := lshift1_loop (Z.to_nat a_top) 0 a (d r) 0 in
  if negb (c =? 0) then (true, mk_bn (set t a_top 1) (a_top + 1) (neg r) (is_static r))
  else (true, mk_bn t a_top (neg r) (is_static r)).

(** The arithmetic on [unsigned] of [BN_num_bits(a) - n + (BN_BITS2 - 1)]. *)
Definition BN_rshift (r : BIGNUM) (a : option BIGNUM) (n : Z) : bool * BIGNUM :=
  if n <? 0 then (false, r) else
  let nw := n / BN_BITS2 in
  let rb := n mod BN_BITS2 in
  let lb := BN_BITS2 - rb in
  let a_top := top (operand r a) in
  if (a_top <=? nw) || (a_top =? 0) then (true, BN_zero r) else
  let i := u32 (u32 (BN_num_bits (operand r a) - n) + (BN_BITS2 - 1)) / BN_BITS2 in
  let '(ok, r, done) :=
    match a with
    | Some a => let (ok, r) := bn_wexpand alloc_ok uninit (with_neg r (neg a)) i in (ok, r, false)
    | None => (true, r, n =? 0)
    end in
  if negb ok then (false, r) else
  if done : bool then (true, r) else
  let j := a_top - nw in
  let t :=
    if rb =? 0 then rshift_words (Z.to_nat j) 0 a nw (d r)
    else
      let '(t, l) := rshift_bits (Z.to_nat (j - 1)) 0 a nw lb rb (get (source a (d r)) nw) (d r) in
      let l := Z.land (Z.shiftr l rb) BN_MASK2 in
      if negb (l =? 0) then set t (j - 1) l else t in
  (true, mk_bn t i (if i =? 0 then false else neg r) (is_static r)).

Definition BN_rshift1 (r : BIGNUM) (a : option BIGNUM) : bool * BIGNUM :=
  let i := top (operand r a) in
  if BN_is_zero (operand r a) then (true, BN_zero r) else
  let j := i - b2z (get (d (operand r a)) (i - 1) =? 1) in
  let (ok, r) :=
    match a with
    | Some a => let (ok, r) := bn_wexpand alloc_ok uninit r j in (ok, if ok then with_neg r (neg a) else r)
    | None => (true, r)
    end in
  if negb ok then (false, r) else
  let t := get (source a (d r)) (i - 1) in
  let c := if negb (Z.land t 1 =? 0) then BN_TBIT else 0 in
  let t := Z.shiftr t 1 in
  let rp := if negb (t =? 0) then set (d r) (i - 1) t else d r in
  let rp := rshift1_loop (Z.to_nat (i - 1)) a rp c in
  (true, mk_bn rp j (if j =? 0 then false else neg r) (is_static r)).

Definition BN_set_bit (a : BIGNUM) (n : Z) : bool * BIGNUM :=
  if n <? 0 then (false, a) else
  let i := n / BN_BITS2 in
  let j := n mod BN_BITS2 in
  let (ok, a) :=
    if top a <=? i then
      let (ok, a) := bn_wexpand alloc_ok uninit a (i + 1) in
      if negb ok then (false, a) else
      (true, mk_bn (splice (d a) (top a) (repeat 0 (Z.to_nat (i + 1 - top a)))) (i + 1) (neg a) (is_static a))
    else (true, a) in
  if negb ok then (false, a) else
  (true, mk_bn (set (d a) i (Z.lor (get (d a) i) (Z.shiftl 1 j))) (top a) (neg a) (is_static a)).
End Shift.

Definition BN_clear_bit (a : BIGNUM) (n : Z) : bool * BIGNUM :=
  if n <? 0 then (false, a) else
  let i := n / BN_BITS2 in
  let j := n mod BN_BITS2 in
  if top a <=? i then (false, a) else
  (true, bn_correct_top (mk_bn (set (d a) i (Z.land (get (d a) i) (u64 (Z.lnot (Z.shiftl 1 j))))) (top a) (neg a) (is_static a))).

Definition BN_is_bit_set (a : BIGNUM) (n : Z) : bool :=
  if n <? 0 then false else
  let i := n / BN_BITS2 in
  let j := n mod BN_BITS2 in
  if top a <=? i then false else Z.land (Z.shiftr (get (d a) i) j) 1 =? 1.

Definition BN_mask_bits (a : BIGNUM) (n : Z) : bool * BIGNUM :=
  if n <? 0 then (false, a) else
  let w := n / BN_BITS2 in
  let b := n mod BN_BITS2 in
  if top a <=? w then (false, a) else
  let a := if b =? 0 then mk_bn (d a) w (neg a) (is_static a)
           else mk_bn (set (d a) w (Z.land (get (d a) w) (u64 (Z.lnot (u64 (Z.shiftl BN_MASK2 b)))))) (w + 1) (neg a) (is_static a) in
  (true, bn_correct_top a).

(** ** Numbers by their bits *)

Lemma testbit_word x i : word_ok x -> 64 <= i -> Z.testbit x i = false.
Proof. intros Hx Hi. apply (testbit_high 64); assumption. Qed.

Lemma le_val_testbit l : words_ok l -> forall q s, 0 <= q -> 0 <= s < 64 -> Z.testbit (le_val l) (64 * q + s) = Z.testbit (get l q) s.
Proof.
  induction 1 as [| x l Hx Hl IH]; intros q s Hq Hs.
  { unfold get. cbn [le_val]. rewrite nth_overflow by (cbn; lia). now rewrite !Z.bits_0. }
  cbn [le_val]. rewrite Z.add_comm, (Z.mul_comm (2 ^ 64)), <- lor_disjoint_add, Z.lor_spec by (lia || exact Hx).
  destruct (Z.eq_dec q 0) as [-> | N].
  - replace (64 * 0 + s) with s by lia. rewrite Z.shiftl_spec_low by lia. reflexivity.
  - rewrite (testbit_word x) by (assumption || lia). rewrite orb_false_r, Z.shiftl_spec by lia.
    replace (64 * q + s - 64) with (64 * (q - 1) + s) by lia. rewrite IH by lia. f_equal.
    unfold get. replace (Z.to_nat q) with (S (Z.to_nat (q - 1))) by lia. reflexivity.
Qed.

(** A number is that of the words that have its bits. *)
Lemma le_val_bits l v : words_ok l ->
  (forall q s, 0 <= q -> 0 <= s < 64 -> Z.testbit (get l q) s = Z.testbit v (64 * q + s)) -> le_val l = v.
Proof.
  intros Hl H. apply Z.bits_inj'. intros i Hi. rewrite (Z.div_mod i 64) by lia.
  pose proof (Z.mod_pos_bound i 64). pose proof (Z.div_pos i 64). rewrite le_val_testbit by (assumption || lia). apply H; lia.
Qed.

Lemma testbit_neg_word x s : s < 0 -> Z.testbit x s = false.
Proof. apply Z.testbit_neg_r. Qed.

(** The word at any position, zero outside the array. *)
Definition word_at (l : list Z) (i : Z) : Z := if 0 <=? i then get l i else 0.

Lemma word_at_ok l i : words_ok l -> word_ok (word_at l i).
Proof. intros H. unfold word_at. destruct (0 <=? i); [now apply word_get | unfold word_ok; lia]. Qed.

Lemma le_val_testbit_at l q s : words_ok l -> 0 <= s < 64 -> Z.testbit (le_val l) (64 * q + s) = Z.testbit (word_at l q) s.
Proof.
  intros Hl Hs. unfold word_at. destruct (Z.leb_spec 0 q); [now apply le_val_testbit |].
  rewrite Z.bits_0. apply Z.testbit_neg_r. lia.
Qed.

Lemma get_overflow (l : list Z) i : len l <= i -> get l i = 0.
Proof. intros H. unfold get, len in *. apply nth_overflow. lia. Qed.

Lemma get_take_at n l i : 0 <= i -> get (take n l) i = if i <? n then get l i else 0.
Proof.
  intros Hi. destruct (Z.ltb_spec i n); [apply get_take; lia |]. apply get_overflow.
  destruct (Z.lt_ge_cases n 0) as [L | L]; [unfold take; replace (Z.to_nat n) with 0%nat by lia; cbn; lia |]. rewrite len_take_min; lia.
Qed.

(** The word [q] of a number shifted left by [64 * nw + lb] bits. *)
Definition shl_word (l : list Z) (nw lb q : Z) : Z :=
  Z.lor (u64 (Z.shiftl (word_at l (q - nw)) lb)) (Z.shiftr (word_at l (q - nw - 1)) (64 - lb)).

Lemma testbit_u64 x s : 0 <= s < 64 -> Z.testbit (u64 x) s = Z.testbit x s.
Proof. intros H. unfold wrap. now apply Z.mod_pow2_bits_low. Qed.

Lemma shl_word_ok l nw lb q : words_ok l -> 0 <= lb < 64 -> word_ok (shl_word l nw lb q).
Proof.
  intros Hl Hb. unfold shl_word, word_ok. apply lor_range; [lia | apply wrap_range; lia |].
  pose proof (word_at_ok l (q - nw - 1) Hl) as W. unfold word_ok in W. rewrite Z.shiftr_div_pow2 by lia. pose proof (Z.pow_pos_nonneg 2 (64 - lb)).
  split; [apply Z.div_pos; lia | apply Z.div_lt_upper_bound; nia].
Qed.

Lemma shl_word_testbit l nw lb q s : words_ok l -> 0 <= nw -> 0 <= lb < 64 -> 0 <= s < 64 ->
  Z.testbit (shl_word l nw lb q) s = Z.testbit (le_val l * 2 ^ (64 * nw + lb)) (64 * q + s).
Proof.
  intros Hl Hn Hb Hs. rewrite Z.mul_pow2_bits by lia. unfold shl_word. rewrite Z.lor_spec, testbit_u64 by lia.
  rewrite Z.shiftl_spec, Z.shiftr_spec by lia. destruct (Z.lt_ge_cases s lb) as [L | L].
  - rewrite (Z.testbit_neg_r _ (s - lb)) by lia. cbn [orb].
    replace (64 * q + s - (64 * nw + lb)) with (64 * (q - nw - 1) + (s + (64 - lb))) by lia. symmetry. apply le_val_testbit_at; [assumption | lia].
  - rewrite (testbit_word _ (s + (64 - lb))) by (try (now apply word_at_ok); lia). rewrite orb_false_r.
    replace (64 * q + s - (64 * nw + lb)) with (64 * (q - nw) + (s - lb)) by lia. symmetry. apply le_val_testbit_at; [assumption | lia].
Qed.

(** And of one shifted right. *)
Definition shr_word (l : list Z) (nw rb q : Z) : Z :=
  Z.lor (Z.shiftr (word_at l (q + nw)) rb) (u64 (Z.shiftl (word_at l (q + nw + 1)) (64 - rb))).

Lemma shr_word_testbit l nw rb q s : words_ok l -> 0 <= nw -> 0 <= rb < 64 -> 0 <= q -> 0 <= s < 64 ->
  Z.testbit (shr_word l nw rb q) s = Z.testbit (le_val l / 2 ^ (64 * nw + rb)) (64 * q + s).
Proof.
  intros Hl Hn Hb Hq Hs. rewrite Z.div_pow2_bits by lia. unfold shr_word. rewrite Z.lor_spec, testbit_u64 by lia.
  rewrite Z.shiftl_spec, Z.shiftr_spec by lia. destruct (Z.lt_ge_cases (s + rb) 64) as [L | L].
  - rewrite (Z.testbit_neg_r _ (s - (64 - rb))) by lia. rewrite orb_false_r.
    replace (64 * q + s + (64 * nw + rb)) with (64 * (q + nw) + (s + rb)) by lia. symmetry. apply le_val_testbit_at; [assumption | lia].
  - rewrite (testbit_word _ (s + rb)) by (try (now apply word_at_ok); lia). cbn [orb].
    replace (64 * q + s + (64 * nw + rb)) with (64 * (q + nw + 1) + (s - (64 - rb))) by lia. symmetry. apply le_val_testbit_at; [assumption | lia].
Qed.

(** ** The loops *)

(** The words from [lo] to [hi] of the operand are still those of [A]. *)
Definition reads (a : option BIGNUM) (t A : list Z) (lo hi : Z) : Prop :=
  forall i, lo <= i < hi -> get (source a t) i = get A i.

Lemma reads_set a t A lo hi p x lo' hi' : reads a t A lo hi -> 0 <= p < len t -> lo <= lo' -> hi' <= hi -> 0 <= lo' -> p < lo' \/ hi' <= p ->
  reads a (set t p x) A lo' hi'.
Proof.
  intros H Hp Hl Hh H0 Hx i Hi. rewrite <- H by lia. destruct a as [a |]; [reflexivity |]. cbn [source].
  apply get_set_other; lia.
Qed.

Lemma lshift_words_get n : forall a nw t A, 0 <= nw -> nw + Z.of_nat n <= len t -> reads a t A 0 (Z.of_nat n) ->
  let t' := lshift_words n a nw t in
  len t' = len t /\ forall q, 0 <= q -> get t' q = if (nw <=? q) && (q <? nw + Z.of_nat n) then get A (q - nw) else get t q.
Proof.
  induction n as [| n IH]; intros a nw t A Hn Hl Hr; cbv zeta; cbn [lshift_words].
  { split; [reflexivity |]. intros q Hq. destruct (Z.leb_spec nw q), (Z.ltb_spec q (nw + Z.of_nat 0)); try reflexivity; lia. }
  set (t1 := set t (nw + Z.of_nat n) (get (source a t) (Z.of_nat n))).
  assert (L1 : len t1 = len t) by (apply len_set; lia).
  destruct (IH a nw t1 A Hn ltac:(lia)) as [L G]; [apply (reads_set a t A 0 (Z.of_nat (S n))); (assumption || lia) |].
  split; [lia |]. intros q Hq. rewrite G by assumption. unfold t1.
  destruct (Z.leb_spec nw q); cbn [andb]; [| apply get_set_other; lia].
  destruct (Z.ltb_spec q (nw + Z.of_nat n)), (Z.ltb_spec q (nw + Z.of_nat (S n))); try lia; [| apply get_set_other; lia].
  assert (q = nw + Z.of_nat n) as -> by lia. rewrite get_set_same by lia. rewrite Hr by lia. f_equal. lia.
Qed.

Lemma word_at_get l i : 0 <= i -> word_at l i = get l i.
Proof. intros H. unfold word_at. now destruct (Z.leb_spec 0 i); [| lia]. Qed.

Lemma shiftr_word_ok x k : word_ok x -> 0 <= k -> word_ok (Z.shiftr x k).
Proof.
  intros Hx Hk. unfold word_ok in *. rewrite Z.shiftr_div_pow2 by lia. pose proof (Z.pow_pos_nonneg 2 k).
  split; [apply Z.div_pos; lia |]. apply Z.div_lt_upper_bound; nia.
Qed.

Lemma lshift_bits_get n : forall a nw lb t A, 0 <= nw -> 0 < lb < 64 -> nw + Z.of_nat n < len t -> words_ok A ->
  reads a t A 0 (Z.of_nat n) -> get t (nw + Z.of_nat n) = u64 (Z.shiftl (get A (Z.of_nat n)) lb) ->
  let t' := lshift_bits n a nw lb (64 - lb) t in
  len t' = len t /\ forall q, 0 <= q -> get t' q = if (nw <=? q) && (q <=? nw + Z.of_nat n) then shl_word A nw lb q else get t q.
Proof.
  induction n as [| n IH]; intros a nw lb t A Hn Hb Hl WA Hr Hi; cbv zeta; cbn [lshift_bits].
  { split; [reflexivity |]. intros q Hq. destruct (Z.leb_spec nw q), (Z.leb_spec q (nw + Z.of_nat 0)); try reflexivity. cbn [andb].
    assert (q = nw + Z.of_nat 0) as -> by lia. rewrite Hi. unfold shl_word, word_at.
    destruct (Z.leb_spec 0 (nw + Z.of_nat 0 - nw)), (Z.leb_spec 0 (nw + Z.of_nat 0 - nw - 1)); try lia.
    rewrite Z.shiftr_0_l, Z.lor_0_r. do 3 f_equal. lia. }
  set (l := get (source a t) (Z.of_nat n)). assert (El : l = get A (Z.of_nat n)) by (apply Hr; lia).
  assert (Wl : word_ok l) by (rewrite El; now apply word_get).
  rewrite !word_land by (apply u64_word_ok || (apply shiftr_word_ok; [exact Wl | lia])).
  replace (nw + Z.of_nat (S n)) with (nw + Z.of_nat n + 1) in * by lia. rewrite Hi.
  set (t1 := set t (nw + Z.of_nat n + 1) _). assert (L1 : len t1 = len t) by (apply len_set; lia).
  set (t2 := set t1 (nw + Z.of_nat n) _). assert (L2 : len t2 = len t) by (unfold t2; rewrite len_set; lia).
  destruct (IH a nw lb t2 A Hn Hb ltac:(lia) WA) as [L G].
  { apply (reads_set a t1 A 0 (Z.of_nat n)); try lia. apply (reads_set a t A 0 (Z.of_nat (S n))); (assumption || lia). }
  { unfold t2. rewrite get_set_same by lia. now rewrite El. }
  split; [lia |]. intros q Hq. rewrite G by assumption.
  destruct (Z.leb_spec nw q); cbn [andb]; [| unfold t2, t1; rewrite !get_set_other by (rewrite ?len_set; lia); reflexivity].
  destruct (Z.leb_spec q (nw + Z.of_nat n)), (Z.leb_spec q (nw + Z.of_nat n + 1)); try lia; [| unfold t2, t1; rewrite !get_set_other by (rewrite ?len_set; lia); reflexivity].
  assert (q = nw + Z.of_nat n + 1) as -> by lia. unfold t2. rewrite get_set_other by lia. unfold t1. rewrite get_set_same by lia.
  unfold shl_word. rewrite !word_at_get by lia. rewrite El. replace (nw + Z.of_nat n + 1 - nw) with (Z.of_nat (S n)) by lia.
  replace (Z.of_nat (S n) - 1) with (Z.of_nat n) by lia. reflexivity.
Qed.

(** The bit that moves into the next word. *)
Lemma top_bit x : word_ok x -> (if negb (Z.land x BN_TBIT =? 0) then 1 else 0) = Z.shiftr x 63.
Proof.
  intros Hx. unfold word_ok, BN_TBIT in *. assert (E : Z.land x (2 ^ 63) = Z.shiftl (Z.shiftr x 63) 63).
  { apply Z.bits_inj'. intros i Hi. rewrite Z.land_spec, Z.pow2_bits_eqb by lia. destruct (Z.eqb_spec 63 i) as [<- | N].
    - rewrite andb_true_r, Z.shiftl_spec, Z.shiftr_spec by lia. reflexivity.
    - rewrite andb_false_r. symmetry. destruct (Z.lt_ge_cases i 63); [apply Z.shiftl_spec_low; lia |].
      rewrite Z.shiftl_spec, Z.shiftr_spec by lia. apply (testbit_high 64); lia. }
  rewrite E, Z.shiftl_mul_pow2, Z.shiftr_div_pow2 by lia.
  assert (0 <= x / 2 ^ 63 < 2) by (split; [apply Z.div_pos; lia | apply Z.div_lt_upper_bound; lia]).
  destruct (Z.eqb_spec (x / 2 ^ 63 * 2 ^ 63) 0); cbn [negb]; lia.
Qed.

Lemma low_bit x : (if negb (Z.land x 1 =? 0) then BN_TBIT else 0) = u64 (Z.shiftl x 63).
Proof.
  change 1 with (Z.ones 1) at 1. rewrite Z.land_ones, Z.shiftl_mul_pow2 by lia. change (2 ^ 1) with 2.
  unfold wrap, BN_TBIT. change (2 ^ 64) with (2 * 2 ^ 63). rewrite Z.mul_mod_distr_r by lia.
  pose proof (Z.mod_pos_bound x 2). destruct (Z.eqb_spec (x mod 2) 0); cbn [negb]; lia.
Qed.

Lemma lshift1_loop_get n : forall i a t A c, 0 <= i -> i + Z.of_nat n <= len t -> words_ok A ->
  reads a t A i (i + Z.of_nat n) -> c = Z.shiftr (word_at A (i - 1)) 63 ->
  let '(t', c') := lshift1_loop n i a t c in
  len t' = len t /\ c' = Z.shiftr (word_at A (i + Z.of_nat n - 1)) 63 /\
  forall q, 0 <= q -> get t' q = if (i <=? q) && (q <? i + Z.of_nat n) then shl_word A 0 1 q else get t q.
Proof.
  induction n as [| n IH]; intros i a t A c Hi Hl WA Hr Hc; cbn [lshift1_loop].
  { split; [reflexivity | split; [rewrite Hc; do 2 f_equal; lia |]]. intros q Hq. destruct (Z.leb_spec i q), (Z.ltb_spec q (i + Z.of_nat 0)); try reflexivity; lia. }
  set (x := get (source a t) i). assert (Ex : x = word_at A i) by (rewrite word_at_get by lia; apply Hr; lia).
  assert (Wx : word_ok x) by (rewrite Ex; now apply word_at_ok). rewrite top_bit by exact Wx.
  assert (Ew : Z.land (Z.lor (u64 (Z.shiftl x 1)) c) BN_MASK2 = shl_word A 0 1 i).
  { rewrite Ex, Hc. unfold shl_word. replace (i - 0) with i by lia. replace (64 - 1) with 63 by lia. apply word_land.
    apply lor_range; [lia | apply u64_word_ok | apply shiftr_word_ok; [now apply word_at_ok | lia]]. }
  rewrite Ew. set (t1 := set t i _). assert (L1 : len t1 = len t) by (apply len_set; lia).
  specialize (IH (i + 1) a t1 A (Z.shiftr x 63) ltac:(lia) ltac:(lia) WA).
  destruct (lshift1_loop n (i + 1) a t1 (Z.shiftr x 63)) as [t' c'].
  destruct IH as (L & C & G); [apply (reads_set a t A i (i + Z.of_nat (S n))); (assumption || lia) | rewrite Ex; do 2 f_equal; lia |].
  split; [lia | split; [rewrite C; do 2 f_equal; lia |]]. intros q Hq. rewrite G by assumption. unfold t1.
  destruct (Z.eq_dec q i) as [-> | N].
  - rewrite get_set_same by lia. destruct (Z.leb_spec (i + 1) i), (Z.leb_spec i i), (Z.ltb_spec i (i + Z.of_nat (S n))); try lia. reflexivity.
  - rewrite get_set_other by lia. destruct (Z.leb_spec (i + 1) q), (Z.leb_spec i q), (Z.ltb_spec q (i + 1 + Z.of_nat n)), (Z.ltb_spec q (i + Z.of_nat (S n))); cbn [andb]; try lia; reflexivity.
Qed.

Lemma rshift_words_get n : forall k a nw t A, 0 <= k -> 0 <= nw -> k + Z.of_nat n <= len t -> reads a t A (nw + k) (nw + k + Z.of_nat n) ->
  let t' := rshift_words n k a nw t in
  len t' = len t /\ forall q, 0 <= q -> get t' q = if (k <=? q) && (q <? k + Z.of_nat n) then get A (nw + q) else get t q.
Proof.
  induction n as [| n IH]; intros k a nw t A Hk Hn Hl Hr; cbv zeta; cbn [rshift_words].
  { split; [reflexivity |]. intros q Hq. destruct (Z.leb_spec k q), (Z.ltb_spec q (k + Z.of_nat 0)); try reflexivity; lia. }
  set (t1 := set t k _). assert (L1 : len t1 = len t) by (apply len_set; lia).
  destruct (IH (k + 1) a nw t1 A ltac:(lia) Hn ltac:(lia)) as [L G]; [apply (reads_set a t A (nw + k) (nw + k + Z.of_nat (S n))); (assumption || lia) |].
  split; [lia |]. intros q Hq. rewrite G by assumption. unfold t1. destruct (Z.eq_dec q k) as [-> | N].
  - rewrite get_set_same by lia. destruct (Z.leb_spec (k + 1) k), (Z.leb_spec k k), (Z.ltb_spec k (k + Z.of_nat (S n))); try lia. apply Hr. lia.
  - rewrite get_set_other by lia. destruct (Z.leb_spec (k + 1) q), (Z.leb_spec k q), (Z.ltb_spec q (k + 1 + Z.of_nat n)), (Z.ltb_spec q (k + Z.of_nat (S n))); cbn [andb]; try lia; reflexivity.
Qed.

Lemma shr_word_ok A nw rb q : words_ok A -> 0 <= rb < 64 -> word_ok (shr_word A nw rb q).
Proof. intros WA Hb. apply lor_range; [lia | apply shiftr_word_ok; [now apply word_at_ok | lia] | apply u64_word_ok]. Qed.

Lemma rshift_bits_get n : forall k a nw rb l t A, 0 <= k -> 0 <= nw -> 0 < rb < 64 -> k + Z.of_nat n <= len t -> words_ok A ->
  reads a t A (nw + k + 1) (nw + k + 1 + Z.of_nat n) -> l = get A (nw + k) ->
  let '(t', l') := rshift_bits n k a nw (64 - rb) rb l t in
  len t' = len t /\ l' = get A (nw + k + Z.of_nat n) /\
  forall q, 0 <= q -> get t' q = if (k <=? q) && (q <? k + Z.of_nat n) then shr_word A nw rb q else get t q.
Proof.
  induction n as [| n IH]; intros k a nw rb l t A Hk Hn Hb Hl WA Hr El; cbn [rshift_bits].
  { split; [reflexivity | split; [rewrite El; f_equal; lia |]]. intros q Hq. destruct (Z.leb_spec k q), (Z.ltb_spec q (k + Z.of_nat 0)); try reflexivity; lia. }
  set (l1 := get (source a t) (nw + k + 1)). assert (El1 : l1 = get A (nw + k + 1)) by (apply Hr; lia).
  assert (Ew : Z.land (Z.lor (Z.land (Z.shiftr l rb) BN_MASK2) (u64 (Z.shiftl l1 (64 - rb)))) BN_MASK2 = shr_word A nw rb k).
  { rewrite El, El1. rewrite (word_land (Z.shiftr _ _)) by (apply shiftr_word_ok; [now apply word_get | lia]).
    assert (E : Z.lor (Z.shiftr (get A (nw + k)) rb) (u64 (Z.shiftl (get A (nw + k + 1)) (64 - rb))) = shr_word A nw rb k).
    { unfold shr_word. rewrite !word_at_get by lia. now rewrite (Z.add_comm k nw). }
    rewrite E. apply word_land. apply shr_word_ok; [exact WA | lia]. }
  rewrite Ew. set (t1 := set t k _). assert (L1 : len t1 = len t) by (apply len_set; lia).
  specialize (IH (k + 1) a nw rb l1 t1 A ltac:(lia) Hn Hb ltac:(lia) WA).
  destruct (rshift_bits n (k + 1) a nw (64 - rb) rb l1 t1) as [t' l'].
  destruct IH as (L & C & G); [apply (reads_set a t A (nw + k + 1) (nw + k + 1 + Z.of_nat (S n))); (assumption || lia) | rewrite El1; f_equal; lia |].
  split; [lia | split; [rewrite C; f_equal; lia |]]. intros q Hq. rewrite G by assumption. unfold t1. destruct (Z.eq_dec q k) as [-> | N].
  - rewrite get_set_same by lia. destruct (Z.leb_spec (k + 1) k), (Z.leb_spec k k), (Z.ltb_spec k (k + Z.of_nat (S n))); try lia. reflexivity.
  - rewrite get_set_other by lia. destruct (Z.leb_spec (k + 1) q), (Z.leb_spec k q), (Z.ltb_spec q (k + 1 + Z.of_nat n)), (Z.ltb_spec q (k + Z.of_nat (S n))); cbn [andb]; try lia; reflexivity.
Qed.

Lemma rshift1_loop_get n : forall a t A c, Z.of_nat n <= len t -> words_ok A -> reads a t A 0 (Z.of_nat n) ->
  c = u64 (Z.shiftl (get A (Z.of_nat n)) 63) ->
  let t' := rshift1_loop n a t c in
  len t' = len t /\ forall q, 0 <= q -> get t' q = if q <? Z.of_nat n then shr_word A 0 1 q else get t q.
Proof.
  induction n as [| n IH]; intros a t A c Hl WA Hr Hc; cbv zeta; cbn [rshift1_loop].
  { split; [reflexivity |]. intros q Hq. destruct (Z.ltb_spec q (Z.of_nat 0)); [lia | reflexivity]. }
  set (x := get (source a t) (Z.of_nat n)). assert (Ex : x = get A (Z.of_nat n)) by (apply Hr; lia).
  assert (Wx : word_ok x) by (rewrite Ex; now apply word_get).
  rewrite low_bit, word_land by (apply shiftr_word_ok; [exact Wx | lia]).
  assert (Ew : Z.lor (Z.shiftr x 1) c = shr_word A 0 1 (Z.of_nat n)).
  { rewrite Ex, Hc. unfold shr_word. rewrite !word_at_get by lia. replace (64 - 1) with 63 by lia. repeat f_equal; lia. }
  rewrite Ew. set (t1 := set t (Z.of_nat n) _). assert (L1 : len t1 = len t) by (apply len_set; lia).
  destruct (IH a t1 A (u64 (Z.shiftl x 63)) ltac:(lia) WA) as [L G]; [apply (reads_set a t A 0 (Z.of_nat (S n))); (assumption || lia) | now rewrite Ex |].
  split; [lia |]. intros q Hq. rewrite G by assumption. unfold t1. destruct (Z.eq_dec q (Z.of_nat n)) as [-> | N].
  - rewrite get_set_same by lia. destruct (Z.ltb_spec (Z.of_nat n) (Z.of_nat n)), (Z.ltb_spec (Z.of_nat n) (Z.of_nat (S n))); lia.
  - rewrite get_set_other by lia. destruct (Z.ltb_spec q (Z.of_nat n)), (Z.ltb_spec q (Z.of_nat (S n))); try lia; reflexivity.
Qed.

(** ** The operations *)

Lemma words_ok_get l : (forall q, 0 <= q < len l -> word_ok (get l q)) -> words_ok l.
Proof.
  intros H. apply Forall_forall. intros x Hx. apply (In_nth _ _ 0) in Hx. destruct Hx as (i & Hi & <-).
  specialize (H (Z.of_nat i)). unfold get, len in H. rewrite Nat2Z.id in H. apply H. lia.
Qed.

Lemma base_bits n : 0 <= n -> base (Z.to_nat n) = 2 ^ (64 * n).
Proof. intros H. unfold base. now rewrite Z2Nat.id. Qed.

(** An object whose words have the bits of [v]. *)
Lemma bn_of_bits t T ng st v : 0 <= T <= len t -> 0 <= v < 2 ^ (64 * T) ->
  (forall q, 0 <= q < T -> word_ok (get t q) /\ forall s, 0 <= s < 64 -> Z.testbit (get t q) s = Z.testbit v (64 * q + s)) ->
  let r := mk_bn t T ng st in bn_mem r /\ words_ok (words r) /\ bn_abs r = v.
Proof.
  intros HT Hv H r. assert (M : bn_mem r) by exact HT. assert (L : len (take T t) = T) by now apply len_take.
  assert (W : words_ok (words r)).
  { apply words_ok_get. unfold words, r. cbn [top d]. rewrite L. intros q Hq. rewrite get_take by lia. now apply H. }
  split; [exact M | split; [exact W |]]. unfold bn_abs. apply le_val_bits; [exact W |]. intros q s Hq Hs.
  unfold words, r. cbn [top d]. rewrite get_take_at by assumption. destruct (Z.ltb_spec q T); [now apply H |].
  rewrite Z.bits_0. symmetry. apply (testbit_high (64 * T)); lia.
Qed.

Lemma abs_range x : bn_ok x -> 0 <= bn_abs x < 2 ^ (64 * top x).
Proof. intros H. destruct (ok_value x H) as (M & _ & R & _). unfold bn_mem in M. now rewrite base_bits in R by lia. Qed.

Lemma abs_low x : bn_ok x -> 0 < top x -> 2 ^ (64 * (top x - 1)) <= bn_abs x.
Proof. intros H Ht. destruct (ok_value x H) as (M & _ & _ & T). rewrite <- base_bits by lia. now apply T. Qed.

Lemma top_minimal x n : bn_ok x -> 0 <= n -> bn_abs x < 2 ^ (64 * n) -> top x <= n.
Proof.
  intros H Hn Hv. destruct (Z.le_gt_cases (top x) n) as [| G]; [assumption |]. pose proof (abs_low x H ltac:(lia)).
  pose proof (Z.pow_le_mono_r 2 (64 * n) (64 * (top x - 1)) ltac:(lia) ltac:(lia)). lia.
Qed.

(** The normal object with given bits, sign and minimal size. *)
Lemma bn_ok_of_bits t T ng st v : 0 <= T <= len t -> 0 <= v < 2 ^ (64 * T) -> (0 < T -> 2 ^ (64 * (T - 1)) <= v) -> (T = 0 -> ng = false) ->
  (forall q, 0 <= q < T -> word_ok (get t q) /\ forall s, 0 <= s < 64 -> Z.testbit (get t q) s = Z.testbit v (64 * q + s)) ->
  let r := mk_bn t T ng st in bn_ok r /\ bn_val r = if ng then - v else v.
Proof.
  intros HT Hv Hm Hz H r. destruct (bn_of_bits t T ng st v HT Hv H) as (M & W & V). fold r in M, W, V. split.
  - apply ok_intro; [exact M | exact W | | exact Hz]. cbn [top r]. intros Ht. rewrite base_bits by lia. rewrite V. now apply Hm.
  - unfold bn_val. rewrite V. reflexivity.
Qed.

Lemma correct_top_val r : bn_mem r -> words_ok (words r) -> (neg r = true -> 0 < bn_abs r) ->
  bn_ok (bn_correct_top r) /\ bn_val (bn_correct_top r) = if neg r then - bn_abs r else bn_abs r.
Proof.
  intros M W N. destruct (correct_top_ok r M W) as (O & V & E). split; [exact O |]. unfold bn_val. rewrite E, V.
  destruct (neg r); [| reflexivity]. specialize (N eq_refl). now destruct (Z.ltb_spec 0 (bn_abs r)); [| lia].
Qed.

Lemma reads_start r r1 a : bn_mem (operand r a) -> words r1 = words r -> top r1 = top r ->
  reads a (d r1) (words (operand r a)) 0 (top (operand r a)).
Proof.
  intros M W T i Hi. rewrite get_words by assumption. destruct a as [a |]; [reflexivity |]. cbn [source operand] in *.
  rewrite <- !get_words, W by lia. reflexivity.
Qed.

Lemma word_at_words x i : bn_mem x -> word_at (words x) i = if (0 <=? i) && (i <? top x) then get (d x) i else 0.
Proof.
  intros M. unfold word_at. destruct (Z.leb_spec 0 i); [| reflexivity]. cbn [andb]. destruct (Z.ltb_spec i (top x)).
  - apply get_words. lia.
  - apply get_overflow. now rewrite len_words.
Qed.

Lemma split_bits n : 0 <= n -> 0 <= n / 64 /\ 0 <= n mod 64 < 64 /\ n = 64 * (n / 64) + n mod 64.
Proof. intros H. Z.to_euclidean_division_equations; lia. Qed.

Lemma shifted_range a n : bn_ok a -> 0 <= n -> 0 <= bn_abs a * 2 ^ n < 2 ^ (64 * (top a + n / 64 + 1)).
Proof.
  intros Ha Hn. pose proof (abs_range a Ha) as R. pose proof (Z.pow_pos_nonneg 2 n ltac:(lia) Hn). destruct (split_bits n Hn) as (Q & B & E).
  split; [nia |]. apply Z.lt_le_trans with (2 ^ (64 * top a) * 2 ^ n); [nia |]. pose proof (proj1 Ha) as M. unfold bn_mem in M.
  rewrite <- Z.pow_add_r by lia. apply Z.pow_le_mono_r; lia.
Qed.

(** The top bit of a number with [n] words. *)
Lemma top_word_bit x : bn_ok x ->
  let c := Z.shiftr (word_at (words x) (top x - 1)) 63 in
  (c = 0 -> 2 * bn_abs x < 2 ^ (64 * top x)) /\ (c <> 0 -> c = 1 /\ 2 ^ (64 * top x) <= 2 * bn_abs x).
Proof.
  intros Hx. pose proof (proj1 Hx) as M. unfold bn_mem in M. cbv zeta. destruct (Z.eq_dec (top x) 0) as [E | E].
  { rewrite E. unfold word_at. destruct (Z.leb_spec 0 (0 - 1)); [lia |]. rewrite Z.shiftr_0_l. split; [| lia]. intros _.
    pose proof (abs_range x Hx) as R. rewrite E in R. change (2 ^ (64 * 0)) with 1 in *. lia. }
  rewrite word_at_get, get_words by lia. destruct (split_top x Hx ltac:(lia)) as (Ev & R & _ & Rw).
  rewrite base_bits in * by lia. set (w := get (d x) (top x - 1)) in *. rewrite Z.shiftr_div_pow2 by lia.
  replace (2 ^ (64 * top x)) with (2 ^ (64 * (top x - 1)) * 2 ^ 64) by (rewrite <- Z.pow_add_r by lia; f_equal; lia).
  set (b := 2 ^ (64 * (top x - 1))) in *. pose proof (Z.div_mod w (2 ^ 63)). pose proof (Z.mod_pos_bound w (2 ^ 63)).
  change (2 ^ 64) with (2 * 2 ^ 63) in *. split; [intros Hc; nia | intros Hc]. assert (Hw : w / 2 ^ 63 = 1) by nia. split; [exact Hw | nia].
Qed.

Lemma quot_val x n : 0 <= n -> bn_ok x -> Z.quot (bn_val x) (2 ^ n) = if neg x then - (bn_abs x / 2 ^ n) else bn_abs x / 2 ^ n.
Proof.
  intros Hn Hx. pose proof (abs_nonneg x Hx). pose proof (Z.pow_pos_nonneg 2 n ltac:(lia) Hn).
  unfold bn_val. destruct (neg x); [rewrite Z.quot_opp_l by lia; f_equal |]; apply Z.quot_div_nonneg; lia.
Qed.

(** The number of words of a number shifted right. *)
Lemma rshift_size x n : bn_fits x -> 0 <= n -> n / 64 < top x ->
  let i := u32 (u32 (BN_num_bits x - n) + (BN_BITS2 - 1)) / BN_BITS2 in
  let v := bn_abs x / 2 ^ n in
  0 <= i <= top x - n / 64 /\ 0 <= v < 2 ^ (64 * i) /\ (0 < i -> 2 ^ (64 * (i - 1)) <= v) /\
  (i < top x - n / 64 -> i = top x - n / 64 - 1 /\ 0 < n mod 64).
Proof.
  intros Hf Hn Hlt. cbv zeta. pose proof (num_bits_spec x Hf) as Eb. destruct Hf as [Ok Hs]. change (INT_MAX / (4 * 64)) with 8388607 in Hs.
  pose proof (abs_range x Ok) as R. destruct (split_bits n Hn) as (Q & B & E). pose proof (abs_low x Ok ltac:(lia)) as Low. pose proof (proj1 Ok) as M. unfold bn_mem in M.
  pose proof (Z.pow_pos_nonneg 2 (64 * (top x - 1)) ltac:(lia) ltac:(lia)).
  destruct (Z.eqb_spec (bn_abs x) 0) as [| Nz]; [lia |]. set (k := Z.log2 (bn_abs x)) in *.
  destruct (Z.log2_spec (bn_abs x) ltac:(lia)) as [K1 K2]. fold k in K1, K2.
  assert (Hk : 64 * (top x - 1) <= k < 64 * top x).
  { split; [apply Z.log2_le_pow2; lia | apply Z.log2_lt_pow2; lia]. }
  rewrite Eb. unfold BN_BITS2. set (i := u32 (u32 (k + 1 - n) + (64 - 1)) / 64).
  assert (Ei : i = (k + 1 - n + 63) / 64) by (unfold i; f_equal; unfold wrap; Z.to_euclidean_division_equations; lia). clearbody i.
  assert (Hi : 0 <= i <= top x - n / 64 /\ 64 * (i - 1) <= k - n < 64 * i) by (Z.to_euclidean_division_equations; lia).
  split; [lia |]. split; [split; [apply Z.div_pos; [lia | now apply Z.pow_pos_nonneg] |] |].
  - apply Z.div_lt_upper_bound; [now apply Z.pow_pos_nonneg |]. rewrite <- Z.pow_add_r by lia.
    apply Z.lt_le_trans with (2 ^ Z.succ k); [lia | apply Z.pow_le_mono_r; lia].
  - split; [| Z.to_euclidean_division_equations; lia]. intros Hp. apply Z.div_le_lower_bound; [now apply Z.pow_pos_nonneg |].
    rewrite <- Z.pow_add_r by lia. apply Z.le_trans with (2 ^ k); [apply Z.pow_le_mono_r; lia | lia].
Qed.

(** The highest word of the shifted number. *)
Lemma high_word x n : bn_ok x -> 0 <= n -> n / 64 < top x ->
  bn_abs x / 2 ^ n / 2 ^ (64 * (top x - n / 64 - 1)) = Z.shiftr (get (words x) (top x - 1)) (n mod 64).
Proof.
  intros Hx Hn Hlt. destruct (split_bits n Hn) as (Q & B & E). destruct (split_top x Hx ltac:(lia)) as (Ev & R & _ & _).
  rewrite base_bits in * by lia. rewrite get_words by lia. rewrite Z.shiftr_div_pow2 by lia.
  rewrite Z.div_div by (apply Z.pow_nonzero || apply Z.pow_pos_nonneg; lia). rewrite <- Z.pow_add_r by lia.
  replace (n + 64 * (top x - n / 64 - 1)) with (64 * (top x - 1) + n mod 64) by lia.
  assert (P1 : 0 < 2 ^ (64 * (top x - 1))) by (apply Z.pow_pos_nonneg; lia). assert (P2 : 0 < 2 ^ (n mod 64)) by (apply Z.pow_pos_nonneg; lia).
  rewrite Z.pow_add_r by lia. rewrite <- Z.div_div by lia. f_equal.
  rewrite Ev, (Z.mul_comm (2 ^ (64 * _))), Z.div_add by lia. rewrite Z.div_small by assumption. reflexivity.
Qed.

Lemma testbit_mask j s : 0 <= j -> Z.testbit (Z.shiftl 1 j) s = (s =? j).
Proof. intros H. rewrite Z.shiftl_1_l, Z.pow2_bits_eqb by assumption. apply Z.eqb_sym. Qed.

Lemma same_bit n q s : 0 <= n -> 0 <= s < 64 -> (64 * q + s =? n) = (q =? n / 64) && (s =? n mod 64).
Proof.
  intros Hn Hs. destruct (split_bits n Hn) as (Q & B & E).
  destruct (Z.eqb_spec (64 * q + s) n), (Z.eqb_spec q (n / 64)), (Z.eqb_spec s (n mod 64)); cbn [andb]; try reflexivity; lia.
Qed.

Lemma abs_testbit a q s : bn_ok a -> 0 <= q < top a -> 0 <= s < 64 -> Z.testbit (bn_abs a) (64 * q + s) = Z.testbit (get (d a) q) s.
Proof. intros Ha Hq Hs. destruct (ok_value a Ha) as (_ & W & _). unfold bn_abs. rewrite le_val_testbit, get_words by (assumption || lia). reflexivity. Qed.

Lemma word_d a q : bn_ok a -> 0 <= q < top a -> word_ok (get (d a) q).
Proof. intros Ha Hq. rewrite <- get_words by assumption. apply word_get, Ha. Qed.

Lemma setbit_range v n T : 0 <= v < 2 ^ (64 * T) -> 0 <= n < 64 * T -> 0 <= Z.setbit v n < 2 ^ (64 * T).
Proof.
  intros Hv Hn. rewrite Z.setbit_spec', Z.lor_comm. apply lor_range; [lia | | exact Hv].
  split; [apply Z.pow_nonneg; lia | apply Z.pow_lt_mono_r; lia].
Qed.

Lemma setbit_ge v n : 0 <= v -> 0 <= n -> v <= Z.setbit v n /\ 2 ^ n <= Z.setbit v n.
Proof.
  intros Hv Hn. pose proof (Z.pow_pos_nonneg 2 n ltac:(lia) Hn).
  assert (E : Z.setbit v n = v + (if Z.testbit v n then 0 else 2 ^ n)).
  { destruct (Z.testbit v n) eqn:Et.
    - rewrite Z.add_0_r. apply Z.bits_inj'. intros i Hi. destruct (Z.eq_dec i n) as [-> | N]; [now rewrite Z.setbit_eq, Et | now rewrite Z.setbit_neq].
    - rewrite Z.setbit_spec'. rewrite <- Z.lxor_lor, <- Z.add_nocarry_lxor; try reflexivity;
        apply Z.bits_inj'; intros i Hi; rewrite Z.land_spec, Z.bits_0, Z.pow2_bits_eqb by lia; (destruct (Z.eqb_spec n i) as [<- |]; [rewrite Et; reflexivity | apply andb_false_r]). }
  destruct (Z.testbit v n) eqn:Et; [| lia]. split; [lia |]. rewrite E, Z.add_0_r.
  destruct (Z.le_gt_cases (2 ^ n) v); [assumption |]. rewrite (testbit_high n) in Et by lia. discriminate.
Qed.

Section ShiftProofs.
Variable alloc_ok : Z -> bool.
Variable uninit : Z -> list Z.
Hypothesis uninit_len : forall n, 0 <= n -> len (uninit n) = n.

(** The array that [BN_lshift] writes. *)
Lemma lshift_array a r n : bn_ok (operand r a) -> 0 <= n -> forall r1, words r1 = words r -> top r1 = top r ->
  let A := words (operand r a) in
  let N := top (operand r a) in
  let nw := n / 64 in let lb := n mod 64 in
  N + nw + 1 <= dmax r1 ->
  let t := set (d r1) (N + nw) 0 in
  let t := if lb =? 0 then lshift_words (Z.to_nat N) a nw t else lshift_bits (Z.to_nat N) a nw lb (64 - lb) t in
  let t := splice t 0 (repeat 0 (Z.to_nat nw)) in
  len t = dmax r1 /\ forall q, 0 <= q < N + nw + 1 -> get t q = shl_word A nw lb q.
Proof.
  intros Ho Hn r1 W1 T1 A N nw lb Hd t t1 t2. destruct (split_bits n Hn) as (Q & B & E). pose proof (proj1 Ho) as Mo. pose proof Mo as Mo'. unfold bn_mem in Mo'.
  pose proof (ok_value _ Ho) as (_ & WA & _). fold A in WA. fold nw in Q, E. fold lb in B, E.
  assert (HN : Z.of_nat (Z.to_nat N) = N) by (apply Z2Nat.id, Mo').
  assert (Lt : len t = dmax r1) by (unfold t, dmax in *; apply len_set; lia).
  assert (Rd : reads a t A 0 N) by (apply (reads_set a (d r1) A 0 N); [now apply reads_start | unfold dmax in Hd; lia | lia | lia | lia | lia]).
  assert (Hn0 : get t (N + nw) = 0) by (apply get_set_same; unfold dmax in Hd; lia).
  assert (H1 : len t1 = len t /\ forall q, nw <= q < N + nw + 1 -> get t1 q = shl_word A nw lb q).
  { unfold t1. destruct (Z.eqb_spec lb 0) as [E0 | E0].
    - destruct (lshift_words_get (Z.to_nat N) a nw t A Q ltac:(lia)) as [L G]; [now rewrite HN |]. split; [exact L |]. intros q Hq. rewrite G by lia. rewrite E0, HN.
      unfold shl_word. rewrite Z.shiftl_0_r, word_at_get by lia. assert (Wq := word_get A (q - nw) WA). rewrite (wrap_small 64) by exact Wq.
      replace (Z.shiftr _ (64 - 0)) with 0.
      2: { symmetry. rewrite Z.shiftr_div_pow2 by lia. apply Z.div_small. now apply (word_at_ok A). }
      rewrite Z.lor_0_r. destruct (Z.leb_spec nw q); [| lia]. destruct (Z.ltb_spec q (nw + N)); cbn [andb]; [reflexivity |].
      replace q with (N + nw) by lia. rewrite Hn0. symmetry. apply get_overflow. unfold A. rewrite len_words by exact Mo. fold N. lia.
    - destruct (lshift_bits_get (Z.to_nat N) a nw lb t A Q ltac:(lia) ltac:(lia) WA) as [L G]; [now rewrite HN | |].
      { rewrite HN, (Z.add_comm nw), Hn0, get_overflow; [rewrite Z.shiftl_0_l; reflexivity |]. unfold A. rewrite len_words by exact Mo. fold N. lia. }
      split; [exact L |]. intros q Hq. rewrite G, HN by lia. destruct (Z.leb_spec nw q), (Z.leb_spec q (nw + N)); try lia. reflexivity. }
  destruct H1 as [L1 G1]. split.
  - unfold t2. rewrite len_splice by (rewrite ?len_repeat; lia). lia.
  - intros q Hq. unfold t2. rewrite get_splice by (rewrite ?len_repeat; lia). rewrite len_repeat, Z2Nat.id by lia.
    destruct (Z.leb_spec 0 q), (Z.ltb_spec q (0 + nw)); try lia; cbn [andb]; [| apply G1; lia].
    unfold shl_word, word_at. destruct (Z.leb_spec 0 (q - nw)), (Z.leb_spec 0 (q - nw - 1)); try lia. rewrite Z.shiftl_0_l, Z.shiftr_0_l.
    unfold get. rewrite nth_repeat. reflexivity.
Qed.

Lemma lshift_delivers r a n : bn_mem r -> bn_ok (operand r a) -> 0 <= n ->
  delivers alloc_ok r (top (operand r a) + n / 64 + 1) (BN_lshift alloc_ok uninit r a n) (bn_val (operand r a) * 2 ^ n).
Proof.
  intros Mr Ho Hn. destruct (split_bits n Hn) as (Q & B & E). pose proof (proj1 Ho) as Mo. unfold bn_mem in Mo.
  unfold BN_lshift, BN_BITS2. destruct (Z.ltb_spec n 0); [lia |].
  set (r0 := with_neg r (neg (operand r a))). assert (M0 : bn_mem r0) by exact Mr.
  assert (Et : top (operand r0 a) = top (operand r a)) by (destruct a; reflexivity). rewrite Et.
  destruct (wexpand_case alloc_ok uninit uninit_len r0 (top (operand r a) + n / 64 + 1) M0 ltac:(lia)) as [(-> & R) | (r1 & -> & M1 & D1 & W1 & T1 & N1 & S1)]; cbn [negb].
  { apply delivers_false; [exact M0 | reflexivity | exact R]. }
  destruct (lshift_array a r n Ho Hn r1 W1 T1 D1) as [Lt Gt]. cbv zeta in Lt, Gt.
  set (t := splice _ 0 _) in *.
  pose proof (ok_value _ Ho) as (_ & WA & _).
  destruct (bn_of_bits t (top (operand r a) + n / 64 + 1) (neg r1) (is_static r1) (bn_abs (operand r a) * 2 ^ n)) as (M & W & V).
  { unfold dmax in D1. unfold dmax in Lt. lia. }
  { now apply shifted_range. }
  { intros q Hq. rewrite Gt by exact Hq. split; [now apply shl_word_ok |]. intros s Hs. rewrite shl_word_testbit, <- E by (assumption || lia). reflexivity. }
  set (x := mk_bn _ _ _ _) in *. destruct (correct_top_val x M W) as (O & Vx).
  { cbn [neg x]. rewrite N1, V. cbn. intros Ng. pose proof (neg_pos _ Ho Ng). pose proof (Z.pow_pos_nonneg 2 n ltac:(lia) Hn). nia. }
  apply delivers_ok; [exact O | rewrite correct_top_static; exact S1 |]. rewrite Vx, V. cbn [neg x]. rewrite N1. cbn [neg r0 with_neg].
  unfold bn_val. destruct (neg (operand r a)); lia.
Qed.

Lemma lshift1_delivers r a : bn_mem r -> bn_ok (operand r a) ->
  delivers alloc_ok r (top (operand r a) + 1) (BN_lshift1 alloc_ok uninit r a) (2 * bn_val (operand r a)).
Proof.
  intros Mr Ho. pose proof (proj1 Ho) as Mo. pose proof Mo as Mo'. unfold bn_mem in Mo'. pose proof (ok_value _ Ho) as (_ & WA & _).
  unfold BN_lshift1. set (r0 := match a with Some a => with_neg r (neg a) | None => r end).
  assert (H0 : bn_mem r0 /\ is_static r0 = is_static r /\ neg r0 = neg (operand r a) /\ words r0 = words r /\ top r0 = top r) by (unfold r0; destruct a; repeat split; exact Mr || apply Mr).
  destruct H0 as (M0 & S0 & N0 & W0 & T0).
  destruct (wexpand_case alloc_ok uninit uninit_len r0 (top (operand r a) + 1) M0 ltac:(lia)) as [(-> & R) | (r1 & -> & M1 & D1 & W1 & T1 & N1 & S1)]; cbn [negb].
  { apply delivers_false; [exact M0 | exact S0 | apply (refuses_mono alloc_ok r0 r (top (operand r a) + 1)); [now symmetry | lia | exact R]]. }
  set (N := top (operand r a)) in *. set (A := words (operand r a)) in *. unfold dmax in D1.
  pose proof (lshift1_loop_get (Z.to_nat N) 0 a (d r1) A 0 ltac:(lia) ltac:(lia) WA) as X. rewrite Z2Nat.id in X by lia.
  destruct (lshift1_loop _ 0 a (d r1) 0) as [t c].
  destruct X as (Lt & Ec & G); [apply reads_start; congruence || assumption | reflexivity |]. replace (0 + N - 1) with (N - 1) in Ec by lia.
  destruct (top_word_bit _ Ho) as [C0 C1]. cbv zeta in C0, C1. fold N A in C0, C1. rewrite <- Ec in C0, C1.
  pose proof (abs_range _ Ho) as R. pose proof (abs_nonneg _ Ho). fold N in R.
  assert (Gb : forall q, 0 <= q < N -> get t q = shl_word A 0 1 q).
  { intros q Hq. rewrite G by lia. destruct (Z.leb_spec 0 q), (Z.ltb_spec q (0 + N)); try lia. reflexivity. }
  assert (Bits : forall q s, 0 <= s < 64 -> Z.testbit (shl_word A 0 1 q) s = Z.testbit (2 * bn_abs (operand r a)) (64 * q + s)).
  { intros q s Hs. rewrite shl_word_testbit by (assumption || lia). change (2 ^ (64 * 0 + 1)) with 2. now rewrite Z.mul_comm. }
  assert (Val : forall x, bn_val x = (if neg (operand r a) then - (2 * bn_abs (operand r a)) else 2 * bn_abs (operand r a)) -> bn_val x = 2 * bn_val (operand r a)).
  { intros x ->. unfold bn_val. destruct (neg (operand r a)); lia. }
  destruct (Z.eqb_spec c 0) as [Hc | Hc]; cbn [negb].
  - destruct (bn_ok_of_bits t N (neg r1) (is_static r1) (2 * bn_abs (operand r a))) as [O V]; [lia | specialize (C0 Hc); lia | | | |].
    + intros Ht. pose proof (abs_low _ Ho Ht). fold N in H0. lia.
    + intros E. rewrite N1, N0. now apply Ho.
    + intros q Hq. rewrite Gb by exact Hq. split; [apply shl_word_ok; [exact WA | lia] | intros s Hs; now apply Bits].
    + apply delivers_ok; [exact O | cbn; congruence | apply Val; rewrite V, N1, N0; reflexivity].
  - destruct (C1 Hc) as [-> L]. assert (Gn : get (set t N 1) N = shl_word A 0 1 N).
    { rewrite get_set_same by lia. unfold shl_word. replace (N - 0 - 1) with (N - 1) by lia. replace (64 - 1) with 63 by lia. rewrite <- Ec.
      rewrite (word_at_words _ _ Mo). fold N. destruct (Z.ltb_spec (N - 0) N); [lia |]. rewrite andb_false_r, Z.shiftl_0_l. reflexivity. }
    destruct (bn_ok_of_bits (set t N 1) (N + 1) (neg r1) (is_static r1) (2 * bn_abs (operand r a))) as [O V]; [rewrite len_set by lia; lia | | | lia | |].
    + replace (64 * (N + 1)) with (64 * N + 64) by lia. rewrite Z.pow_add_r by lia. lia.
    + intros _. replace (N + 1 - 1) with N by lia. exact L.
    + intros q Hq. assert (Eq : get (set t N 1) q = shl_word A 0 1 q).
      { destruct (Z.eq_dec q N) as [-> | Ne]; [exact Gn |]. rewrite get_set_other by lia. apply Gb. lia. }
      rewrite Eq. split; [apply shl_word_ok; [exact WA | lia] | intros s Hs; now apply Bits].
    + apply delivers_ok; [exact O | cbn; congruence | apply Val; rewrite V, N1, N0; reflexivity].
Qed.

Lemma zero_delivers r size v : bn_mem r -> v = 0 -> delivers alloc_ok r size (true, BN_zero r) v.
Proof. intros M ->. destruct (zero_ok r M) as [O V]. now apply delivers_ok. Qed.

(** The array [BN_rshift] writes, up to its size [i]. *)
Lemma rshift_array a r r1 n i : bn_ok (operand r a) -> 0 <= n -> n / 64 < top (operand r a) -> words r1 = words r -> top r1 = top r ->
  let A := words (operand r a) in
  let j := top (operand r a) - n / 64 in
  let nw := n / 64 in
  let rb := n mod 64 in
  0 <= i <= j -> (i < j -> i = j - 1 /\ 0 < rb) -> i <= dmax r1 ->
  (0 < i -> 2 ^ (64 * (i - 1)) <= bn_abs (operand r a) / 2 ^ n) -> bn_abs (operand r a) / 2 ^ n < 2 ^ (64 * i) ->
  let t := if rb =? 0 then rshift_words (Z.to_nat j) 0 a nw (d r1)
    else
      let '(t, l) := rshift_bits (Z.to_nat (j - 1)) 0 a nw (64 - rb) rb (get (source a (d r1)) nw) (d r1) in
      let l := Z.land (Z.shiftr l rb) BN_MASK2 in
      if negb (l =? 0) then set t (j - 1) l else t in
  len t = dmax r1 /\ forall q, 0 <= q < i -> get t q = shr_word A nw rb q.
Proof.
  intros Ho Hn Hlt W1 T1 A j nw rb Hi Hij Hd Hlow Hup t. destruct (split_bits n Hn) as (Q & B & E). fold nw in Q. fold rb in B.
  pose proof (proj1 Ho) as Mo. pose proof Mo as Mo'. unfold bn_mem in Mo'. pose proof (ok_value _ Ho) as (_ & WA & _). fold A in WA.
  set (N := top (operand r a)) in *. pose proof (reads_start r r1 a Mo W1 T1) as Rd. fold A N in Rd. unfold dmax in *.
  assert (Hj : 0 < j) by (unfold j; lia). assert (Past : forall q, N <= q -> word_at A q = 0).
  { intros q Hq. unfold A. rewrite word_at_words by exact Mo. fold N. destruct (Z.ltb_spec q N); [lia |]. now rewrite andb_false_r. }
  unfold t. destruct (Z.eqb_spec rb 0) as [E0 | E0].
  - destruct (rshift_words_get (Z.to_nat j) 0 a nw (d r1) A) as [L G]; [lia | lia | lia | intros q Hq; apply Rd; unfold j in *; lia |].
    split; [exact L |]. intros q Hq. rewrite G by lia. rewrite Z2Nat.id by lia. destruct (Z.leb_spec 0 q), (Z.ltb_spec q (0 + j)); try lia. cbn [andb].
    rewrite E0. unfold shr_word. rewrite !word_at_get, Z.shiftr_0_r by lia. replace (u64 _) with 0; [now rewrite Z.lor_0_r, (Z.add_comm q) |].
    unfold wrap. rewrite Z.shiftl_mul_pow2 by lia. replace (64 - 0) with 64 by lia. now rewrite Z.mod_mul by lia.
  - pose proof (rshift_bits_get (Z.to_nat (j - 1)) 0 a nw rb (get (source a (d r1)) nw) (d r1) A ltac:(lia) ltac:(lia) ltac:(lia) ltac:(lia) WA) as X.
    destruct (rshift_bits _ 0 a nw _ rb _ _) as [t0 l]. rewrite Z2Nat.id in X by lia.
    destruct X as (L & El & G); [intros q Hq; apply Rd; unfold j in *; lia | rewrite Z.add_0_r; apply Rd; unfold j in *; lia |].
    replace (nw + 0 + (j - 1)) with (N - 1) in El by (unfold j, nw; lia).
    pose proof (high_word _ n Ho Hn Hlt) as Hh. fold N nw rb A in Hh. replace (N - nw - 1) with (j - 1) in Hh by (unfold j, nw; lia). rewrite <- El in Hh.
    rewrite word_land by (apply shiftr_word_ok; [rewrite El; now apply word_get | lia]).
    assert (Gl : forall q, 0 <= q < j - 1 -> get t0 q = shr_word A nw rb q).
    { intros q Hq. rewrite G by lia. destruct (Z.leb_spec 0 q), (Z.ltb_spec q (0 + (j - 1))); try lia. reflexivity. }
    assert (Ew : shr_word A nw rb (j - 1) = Z.shiftr l rb).
    { unfold shr_word. replace (j - 1 + nw) with (N - 1) by (unfold j, nw; lia). rewrite word_at_get, (Past (N - 1 + 1)), Z.shiftl_0_l by lia. rewrite El. apply Z.lor_0_r. }
    destruct (Z.eqb_spec (Z.shiftr l rb) 0) as [Ez | Ez]; cbn [negb].
    + split; [exact L |]. intros q Hq. apply Gl. destruct (Z.lt_ge_cases i j) as [Lj | Gj]; [lia |].
      assert (i = j) as -> by lia. rewrite Ez in Hh. specialize (Hlow Hj). pose proof (Z.pow_pos_nonneg 2 (64 * (j - 1)) ltac:(lia) ltac:(lia)).
      apply Z.div_small_iff in Hh; lia.
    + assert (i = j).
      { destruct (Z.lt_ge_cases i j) as [Lj | Gj]; [| lia]. destruct (Hij Lj) as [Ei _]. exfalso. apply Ez. rewrite <- Hh. apply Z.div_small.
        rewrite <- Ei. split; [| exact Hup]. apply Z.div_pos; [now apply abs_nonneg | now apply Z.pow_pos_nonneg]. }
      split; [rewrite len_set; lia |]. intros q Hq. destruct (Z.eq_dec q (j - 1)) as [-> | Ne].
      * rewrite get_set_same by lia. now rewrite Ew.
      * rewrite get_set_other by lia. apply Gl. lia.
Qed.

Lemma rshift_delivers r a n : bn_mem r -> bn_fits (operand r a) -> 0 <= n ->
  delivers alloc_ok r (top (operand r a)) (BN_rshift alloc_ok uninit r a n) (Z.quot (bn_val (operand r a)) (2 ^ n)).
Proof.
  intros Mr Hf Hn. pose proof (proj1 Hf) as Ho. pose proof (proj1 Ho) as Mo. unfold bn_mem in Mo. destruct (split_bits n Hn) as (Q & B & E).
  rewrite quot_val by assumption. unfold BN_rshift. destruct (Z.ltb_spec n 0); [lia |]. unfold BN_BITS2 at 1 2.
  pose proof (abs_range _ Ho) as R. pose proof (Z.pow_pos_nonneg 2 n ltac:(lia) Hn).
  destruct (Z.leb_spec (top (operand r a)) (n / 64)) as [L | L]; cbn [orb].
  { apply zero_delivers; [exact Mr |]. rewrite Z.div_small; [now destruct (neg (operand r a)) |]. split; [lia |].
    apply Z.lt_le_trans with (2 ^ (64 * top (operand r a))); [lia | apply Z.pow_le_mono_r; lia]. }
  destruct (Z.eqb_spec (top (operand r a)) 0); [lia |].
  destruct (rshift_size _ n Hf Hn L) as (I1 & I2 & I3 & I4). set (i := u32 _ / BN_BITS2) in *. set (v := bn_abs (operand r a) / 2 ^ n) in *.
  assert (Fin : forall r1, words r1 = words r -> top r1 = top r -> i <= dmax r1 -> is_static r1 = is_static r -> neg r1 = neg (operand r a) ->
    let t := if n mod 64 =? 0 then rshift_words (Z.to_nat (top (operand r a) - n / 64)) 0 a (n / 64) (d r1)
      else
        let '(t, l) := rshift_bits (Z.to_nat (top (operand r a) - n / 64 - 1)) 0 a (n / 64) (64 - n mod 64) (n mod 64) (get (source a (d r1)) (n / 64)) (d r1) in
        let l := Z.land (Z.shiftr l (n mod 64)) BN_MASK2 in
        if negb (l =? 0) then set t (top (operand r a) - n / 64 - 1) l else t in
    delivers alloc_ok r (top (operand r a)) (true, mk_bn t i (if i =? 0 then false else neg r1) (is_static r1)) (if neg (operand r a) then - v else v)).
  { intros r1 W1 T1 D1 S1 N1 t. destruct (rshift_array a r r1 n i Ho Hn L W1 T1 I1 I4 D1 I3 (proj2 I2)) as [Lt Gt]. fold t in Lt, Gt.
    pose proof (ok_value _ Ho) as (_ & WA & _). unfold dmax in Lt, D1.
    destruct (bn_ok_of_bits t i (if i =? 0 then false else neg r1) (is_static r1) v) as [O V]; [lia | exact I2 | exact I3 | now intros -> | |].
    { intros q Hq. rewrite Gt by exact Hq. split; [now apply shr_word_ok |]. intros s Hs. rewrite shr_word_testbit, <- E by (assumption || lia). reflexivity. }
    apply delivers_ok; [exact O | exact S1 |]. rewrite V, N1. destruct (Z.eqb_spec i 0) as [E0 |]; [| reflexivity].
    replace v with 0; [now destruct (neg (operand r a)) |]. rewrite E0 in I2. change (2 ^ (64 * 0)) with 1 in I2. lia. }
  unfold BN_BITS2. destruct a as [a |]; cbn [operand source] in *.
  - destruct (wexpand_case alloc_ok uninit uninit_len (with_neg r (neg a)) i Mr ltac:(lia)) as [(-> & F) | (r1 & -> & M1 & D1 & W1 & T1 & N1 & S1)]; cbn [negb].
    + apply delivers_false; [exact Mr | reflexivity |]. apply (refuses_mono alloc_ok (with_neg r (neg a)) r i); [reflexivity | lia | exact F].
    + now apply Fin.
  - cbn [negb]. destruct (Z.eqb_spec n 0) as [-> |]; [| apply Fin; try reflexivity; lia].
    apply delivers_ok; [exact Ho | reflexivity |]. unfold v. change (2 ^ 0) with 1. now rewrite Z.div_1_r.
Qed.

Lemma rshift1_delivers r a : bn_mem r -> bn_ok (operand r a) ->
  delivers alloc_ok r (top (operand r a)) (BN_rshift1 alloc_ok uninit r a) (Z.quot (bn_val (operand r a)) 2).
Proof.
  intros Mr Ho. pose proof (proj1 Ho) as Mo. pose proof Mo as Mo'. unfold bn_mem in Mo'. pose proof (ok_value _ Ho) as (_ & WA & _).
  pose proof (quot_val _ 1 ltac:(lia) Ho) as Eq. change (2 ^ 1) with 2 in Eq. rewrite Eq.
  unfold BN_rshift1, BN_is_zero. set (N := top (operand r a)) in *. destruct (Z.eqb_spec N 0) as [E0 | E0].
  { apply zero_delivers; [exact Mr |]. pose proof (abs_range _ Ho) as R. fold N in R. rewrite E0 in R. change (2 ^ (64 * 0)) with 1 in R.
    replace (bn_abs (operand r a)) with 0 by lia. now destruct (neg (operand r a)). }
  destruct (split_top _ Ho ltac:(fold N; lia)) as (Ev & R & _ & Rw). fold N in Ev, R, Rw. rewrite base_bits in Ev, R by lia.
  set (x := get (d (operand r a)) (N - 1)) in *. set (lo := le_val _) in *. set (b := 2 ^ (64 * (N - 1))) in *. set (A := words (operand r a)) in *.
  set (j := N - b2z (x =? 1)). set (v := bn_abs (operand r a) / 2).
  assert (Hj : x = 1 /\ j = N - 1 \/ 1 < x /\ j = N) by (unfold j; destruct (Z.eqb_spec x 1); cbn [b2z]; lia). clearbody j.
  assert (Hv : 0 <= v < 2 ^ (64 * j) /\ (0 < j -> 2 ^ (64 * (j - 1)) <= v)).
  { pose proof (Z.div_mod (bn_abs (operand r a)) 2 ltac:(lia)) as D. pose proof (Z.mod_pos_bound (bn_abs (operand r a)) 2 ltac:(lia)). fold v in D.
    destruct Hj as [[Ex ->] | [Ex ->]]; fold b; [| assert (2 ^ (64 * N) = 2 ^ 64 * b) by (unfold b; rewrite <- Z.pow_add_r by lia; f_equal; lia); nia].
    split; [nia |]. intros Hp. assert (b = 2 ^ 64 * 2 ^ (64 * (N - 1 - 1))) by (unfold b; rewrite <- Z.pow_add_r by lia; f_equal; lia). nia. }
  assert (Fin : forall r1, words r1 = words r -> top r1 = top r -> j <= dmax r1 -> is_static r1 = is_static r -> neg r1 = neg (operand r a) ->
    let t := get (source a (d r1)) (N - 1) in
    let c := if negb (Z.land t 1 =? 0) then BN_TBIT else 0 in
    let t := Z.shiftr t 1 in
    let rp := if negb (t =? 0) then set (d r1) (N - 1) t else d r1 in
    let rp := rshift1_loop (Z.to_nat (N - 1)) a rp c in
    delivers alloc_ok r N (true, mk_bn rp j (if j =? 0 then false else neg r1) (is_static r1)) (if neg (operand r a) then - v else v)).
  { intros r1 W1 T1 D1 S1 N1 t c t1 rp rp1. pose proof (reads_start r r1 a Mo W1 T1) as Rd. fold A N in Rd. unfold dmax in D1.
    assert (Et : t = get A (N - 1)) by (apply Rd; lia). assert (Etx : get A (N - 1) = x) by (unfold A; rewrite get_words by lia; reflexivity).
    assert (Et1 : t1 = x / 2) by (unfold t1; rewrite Et, Etx, Z.shiftr_div_pow2 by lia; reflexivity).
    assert (Hrp : len rp = len (d r1) /\ reads a rp A 0 (N - 1) /\ (j = N -> get rp (N - 1) = x / 2)).
    { unfold rp. destruct Hj as [[Ex Ej] | [Ex Ej]].
      - rewrite Et1, Ex. change (negb (1 / 2 =? 0)) with false. cbv iota. split; [reflexivity | split; [intros q Hq; apply Rd; lia | lia]].
      - assert (x / 2 <> 0) by (Z.to_euclidean_division_equations; lia). rewrite Et1. destruct (Z.eqb_spec (x / 2) 0); [contradiction |]. cbn [negb].
        rewrite len_set, get_set_same by lia. split; [reflexivity | split; [apply (reads_set a (d r1) A 0 N); (assumption || lia) | reflexivity]]. }
    destruct Hrp as (Lr & Rr & Gr).
    destruct (rshift1_loop_get (Z.to_nat (N - 1)) a rp A c) as [L G]; [lia | exact WA | now rewrite Z2Nat.id by lia | rewrite Z2Nat.id by lia; unfold c; rewrite low_bit, Et; reflexivity |].
    fold rp1 in L, G. rewrite Z2Nat.id in G by lia.
    destruct (bn_ok_of_bits rp1 j (if j =? 0 then false else neg r1) (is_static r1) v) as [O V]; [lia | apply Hv | apply Hv | now intros -> | |].
    { intros q Hq. assert (Eg : get rp1 q = shr_word A 0 1 q).
      { rewrite G by lia. destruct (Z.ltb_spec q (N - 1)); [reflexivity |]. assert (q = N - 1) as -> by lia. rewrite Gr by lia.
        unfold shr_word. rewrite !word_at_get by lia. replace (N - 1 + 0) with (N - 1) by lia. rewrite Etx, (get_overflow A) by (unfold A; rewrite len_words by exact Mo; fold N; lia).
        rewrite Z.shiftl_0_l, Z.shiftr_div_pow2 by lia. symmetry. apply Z.lor_0_r. }
      rewrite Eg. split; [apply shr_word_ok; [exact WA | lia] |]. intros s Hs. rewrite shr_word_testbit by (assumption || lia). reflexivity. }
    apply delivers_ok; [exact O | exact S1 |]. rewrite V, N1. destruct (Z.eqb_spec j 0) as [E1 |]; [| reflexivity].
    replace v with 0; [now destruct (neg (operand r a)) |]. destruct Hv as [Hv _]. rewrite E1 in Hv. change (2 ^ (64 * 0)) with 1 in Hv. lia. }
  fold x. clearbody v. destruct a as [a |]; cbn [operand source] in *.
  - destruct (wexpand_case alloc_ok uninit uninit_len r j Mr ltac:(lia)) as [(Ew & F) | (r1 & Ew & M1 & D1 & W1 & T1 & N1 & S1)].
    + replace (N - b2z (x =? 1)) with j by (destruct (Z.eqb_spec x 1); cbn [b2z]; lia). rewrite Ew. cbn [negb].
      apply delivers_false; [exact Mr | reflexivity |]. apply (refuses_mono alloc_ok r r j); [reflexivity | lia | exact F].
    + replace (N - b2z (x =? 1)) with j by (destruct (Z.eqb_spec x 1); cbn [b2z]; lia). rewrite Ew. cbn [negb].
      now apply (Fin (with_neg r1 (neg a))).
  - cbn [negb]. replace (N - b2z (x =? 1)) with j by (destruct (Z.eqb_spec x 1); cbn [b2z]; lia). apply Fin; try reflexivity. lia.
Qed.

Lemma set_bit_delivers a n : bn_ok a -> 0 <= n ->
  delivers alloc_ok a (n / 64 + 1) (BN_set_bit alloc_ok uninit a n) (if neg a then - Z.setbit (bn_abs a) n else Z.setbit (bn_abs a) n).
Proof.
  intros Ha Hn. pose proof (proj1 Ha) as M. pose proof M as M'. unfold bn_mem in M'. destruct (split_bits n Hn) as (Q & B & E).
  unfold BN_set_bit, BN_BITS2. destruct (Z.ltb_spec n 0); [lia |]. set (i := n / 64) in *. set (jj := n mod 64) in *.
  pose proof (abs_range a Ha) as R. pose proof (setbit_ge (bn_abs a) n ltac:(lia) Hn) as [G1 G2].
  assert (Fin : forall t T st, i < T <= len t -> (forall q, 0 <= q < T -> get t q = word_at (words a) q) -> top a <= T -> (T = top a \/ T = i + 1) -> st = is_static a ->
    delivers alloc_ok a (i + 1) (true, mk_bn (set t i (Z.lor (get t i) (Z.shiftl 1 jj))) T (neg a) st) (if neg a then - Z.setbit (bn_abs a) n else Z.setbit (bn_abs a) n)).
  { intros t T st HT Gt Ht Hc ->. assert (RT : 0 <= bn_abs a < 2 ^ (64 * T)) by (pose proof (Z.pow_le_mono_r 2 (64 * top a) (64 * T) ltac:(lia) ltac:(lia)); lia).
    pose proof (ok_value a Ha) as (_ & WA & _).
    destruct (bn_ok_of_bits (set t i (Z.lor (get t i) (Z.shiftl 1 jj))) T (neg a) (is_static a) (Z.setbit (bn_abs a) n)) as [O V].
    - rewrite len_set; lia.
    - apply setbit_range; [exact RT | lia].
    - intros Hp. destruct Hc as [-> | ->].
      + pose proof (abs_low a Ha Hp). lia.
      + replace (i + 1 - 1) with i by lia. apply Z.le_trans with (2 ^ n); [apply Z.pow_le_mono_r; lia | exact G2].
    - lia.
    - intros q Hq. pose proof (word_at_ok (words a) q WA) as Wq.
      assert (Gq : get (set t i (Z.lor (get t i) (Z.shiftl 1 jj))) q = if q =? i then Z.lor (word_at (words a) q) (Z.shiftl 1 jj) else word_at (words a) q).
      { destruct (Z.eqb_spec q i) as [-> |]; [rewrite get_set_same, Gt by lia; reflexivity | rewrite get_set_other by lia; now apply Gt]. }
      rewrite Gq. split.
      + destruct (q =? i); [| exact Wq]. apply lor_range; [lia | exact Wq |]. rewrite Z.shiftl_1_l. split; [apply Z.pow_nonneg; lia | apply Z.pow_lt_mono_r; lia].
      + intros s Hs. rewrite Z.setbit_eqb by lia. rewrite (Z.eqb_sym n), same_bit by lia. fold i jj. unfold bn_abs. rewrite le_val_testbit_at by assumption.
        destruct (q =? i); [rewrite Z.lor_spec, testbit_mask by lia; cbn [andb]; apply orb_comm | reflexivity].
    - apply delivers_ok; [exact O | reflexivity | rewrite V; reflexivity]. }
  destruct (Z.leb_spec (top a) i) as [L | L].
  - destruct (wexpand_case alloc_ok uninit uninit_len a (i + 1) M ltac:(lia)) as [(-> & F) | (r1 & -> & M1 & D1 & W1 & T1 & N1 & S1)]; cbn [negb].
    { now apply delivers_false. }
    cbn [d top neg is_static]. rewrite T1, N1. unfold dmax in D1.
    apply Fin; try lia; [| | exact S1].
    + rewrite len_splice by (rewrite ?len_repeat; lia). lia.
    + intros q Hq. rewrite get_splice by (rewrite ?len_repeat; lia). rewrite len_repeat, Z2Nat.id by lia.
      rewrite word_at_words by exact M. destruct (Z.leb_spec 0 q), (Z.leb_spec (top a) q), (Z.ltb_spec q (top a + (i + 1 - top a))), (Z.ltb_spec q (top a)); cbn [andb]; try lia.
      * unfold get. now rewrite nth_repeat.
      * rewrite <- !get_words, W1 by lia. reflexivity.
  - cbn [negb]. unfold dmax in M'. apply Fin; try lia; [| reflexivity].
    intros q Hq. rewrite word_at_words by exact M. now destruct (Z.leb_spec 0 q), (Z.ltb_spec q (top a)); try lia.
Qed.
End ShiftProofs.

Lemma is_bit_set_value a n : bn_ok a -> BN_is_bit_set a n = Z.testbit (bn_abs a) n.
Proof.
  intros Ha. pose proof (proj1 Ha) as M. unfold bn_mem in M. unfold BN_is_bit_set, BN_BITS2. destruct (Z.ltb_spec n 0); [now rewrite Z.testbit_neg_r by lia |].
  destruct (split_bits n ltac:(lia)) as (Q & B & E). destruct (Z.leb_spec (top a) (n / 64)) as [L | L].
  - symmetry. apply (testbit_high (64 * top a)); [now apply abs_range | lia].
  - rewrite E at 3. rewrite abs_testbit by (assumption || lia). rewrite Z.testbit_odd. change 1 with (Z.ones 1) at 1.
    rewrite Z.land_ones by lia. change (2 ^ 1) with 2. rewrite Zmod_odd. now destruct (Z.odd _).
Qed.

Lemma normalised t T ng st v : 0 <= T <= len t -> 0 <= v < 2 ^ (64 * T) ->
  (forall q, 0 <= q < T -> word_ok (get t q) /\ forall s, 0 <= s < 64 -> Z.testbit (get t q) s = Z.testbit v (64 * q + s)) ->
  let r := bn_correct_top (mk_bn t T ng st) in bn_ok r /\ bn_val r = if ng then - v else v.
Proof.
  intros HT Hv H. destruct (bn_of_bits t T ng st v HT Hv H) as (M & W & V). cbv zeta. set (x := mk_bn t T ng st) in *.
  destruct (correct_top_ok x M W) as (O & Va & En). split; [exact O |]. unfold bn_val. rewrite En, Va, V. cbn [neg x].
  destruct ng; [| reflexivity]. cbn [andb]. destruct (Z.ltb_spec 0 v); lia.
Qed.

Lemma clear_bit_exact a n : bn_ok a -> 0 <= n ->
  let '(ok, r) := BN_clear_bit a n in
  ok = (n / 64 <? top a) /\ bn_ok r /\ bn_val r = if neg a then - Z.clearbit (bn_abs a) n else Z.clearbit (bn_abs a) n.
Proof.
  intros Ha Hn. pose proof (proj1 Ha) as M. unfold bn_mem, dmax in M. destruct (split_bits n Hn) as (Q & B & E). pose proof (abs_range a Ha) as R.
  unfold BN_clear_bit, BN_BITS2. destruct (Z.ltb_spec n 0); [lia |]. destruct (Z.leb_spec (top a) (n / 64)) as [L | L].
  { destruct (Z.ltb_spec (n / 64) (top a)); [lia |]. split; [reflexivity | split; [exact Ha |]].
    replace (Z.clearbit (bn_abs a) n) with (bn_abs a); [reflexivity |]. apply Z.bits_inj'. intros i Hi. rewrite Z.clearbit_eqb.
    destruct (Z.eqb_spec n i) as [<- |]; [| now rewrite andb_true_r]. rewrite andb_false_r. apply (testbit_high (64 * top a)); lia. }
  destruct (Z.ltb_spec (n / 64) (top a)); [| lia]. split; [reflexivity |]. set (i := n / 64) in *. set (jj := n mod 64) in *.
  set (w := Z.land (get (d a) i) (u64 (Z.lnot (Z.shiftl 1 jj)))). assert (Wi := word_d a i Ha ltac:(lia)).
  apply normalised; [rewrite len_set; lia | | ].
  - rewrite Z.clearbit_spec', Z.ldiff_land. split; [apply Z.land_nonneg; lia |]. apply bits_range; [lia |]. intros k Hk.
    rewrite Z.land_spec, (testbit_high (64 * top a)) by lia. reflexivity.
  - intros q Hq. destruct (Z.eq_dec q i) as [-> | N].
    + rewrite get_set_same by lia. split; [unfold w; apply land_range; [lia | exact Wi | apply u64_word_ok] |].
      intros s Hs. unfold w. rewrite Z.land_spec, testbit_u64, Z.lnot_spec, testbit_mask, Z.clearbit_eqb, abs_testbit by (assumption || lia).
      rewrite (Z.eqb_sym n), same_bit by lia. fold i jj. now rewrite Z.eqb_refl.
    + rewrite get_set_other by lia. split; [apply word_d; (assumption || lia) |]. intros s Hs.
      rewrite Z.clearbit_eqb, abs_testbit by (assumption || lia). rewrite (Z.eqb_sym n), same_bit by lia. fold i jj.
      destruct (Z.eqb_spec q i); [contradiction |]. now rewrite andb_true_r.
Qed.

Lemma mask_bits_exact a n : bn_ok a -> 0 <= n ->
  let '(ok, r) := BN_mask_bits a n in
  ok = (n / 64 <? top a) /\ bn_ok r /\ bn_val r = Z.rem (bn_val a) (2 ^ n).
Proof.
  intros Ha Hn. pose proof (proj1 Ha) as M. unfold bn_mem, dmax in M. destruct (split_bits n Hn) as (Q & B & E). pose proof (abs_range a Ha) as R.
  pose proof (Z.pow_pos_nonneg 2 n ltac:(lia) Hn) as P.
  assert (Er : Z.rem (bn_val a) (2 ^ n) = if neg a then - (bn_abs a mod 2 ^ n) else bn_abs a mod 2 ^ n).
  { unfold bn_val. destruct (neg a); [rewrite Z.rem_opp_l' |]; rewrite Z.rem_mod_nonneg by lia; reflexivity. }
  rewrite Er. unfold BN_mask_bits, BN_BITS2. destruct (Z.ltb_spec n 0); [lia |]. destruct (Z.leb_spec (top a) (n / 64)) as [L | L].
  { destruct (Z.ltb_spec (n / 64) (top a)); [lia |]. split; [reflexivity | split; [exact Ha |]].
    rewrite Z.mod_small; [reflexivity |]. split; [lia |]. apply Z.lt_le_trans with (2 ^ (64 * top a)); [lia | apply Z.pow_le_mono_r; lia]. }
  destruct (Z.ltb_spec (n / 64) (top a)); [| lia]. split; [reflexivity |]. set (w := n / 64) in *. set (b := n mod 64) in *.
  pose proof (Z.mod_pos_bound (bn_abs a) (2 ^ n) P) as Rm.
  assert (Low : forall q s, 0 <= q < w -> 0 <= s < 64 -> Z.testbit (get (d a) q) s = Z.testbit (bn_abs a mod 2 ^ n) (64 * q + s)).
  { intros q s Hq Hs. rewrite Z.mod_pow2_bits_low by lia. symmetry. apply abs_testbit; (assumption || lia). }
  destruct (Z.eqb_spec b 0) as [Eb | Eb].
  - apply (normalised (d a) w (neg a) (is_static a) (bn_abs a mod 2 ^ n)); [lia | rewrite E at 2; rewrite Eb, Z.add_0_r in *; rewrite <- E; lia |].
    intros q Hq. split; [apply word_d; (assumption || lia) | intros s Hs; now apply Low].
  - assert (Wi := word_d a w Ha ltac:(lia)).
    apply (normalised _ (w + 1) (neg a) (is_static a) (bn_abs a mod 2 ^ n)); [rewrite len_set; lia | split; [lia |]; apply Z.lt_le_trans with (2 ^ n); [lia | apply Z.pow_le_mono_r; lia] |].
    intros q Hq. destruct (Z.eq_dec q w) as [-> | N].
    + rewrite get_set_same by lia. split; [apply land_range; [lia | exact Wi | apply u64_word_ok] |].
      intros s Hs. rewrite Z.land_spec, testbit_u64, Z.lnot_spec, testbit_u64, Z.shiftl_spec by lia.
      change BN_MASK2 with (Z.ones 64). destruct (Z.lt_ge_cases s b) as [Ls | Gs].
      * rewrite (Z.testbit_neg_r _ (s - b)) by lia. cbn [negb]. rewrite andb_true_r, Z.mod_pow2_bits_low by lia. symmetry. apply abs_testbit; (assumption || lia).
      * rewrite Z.ones_spec_low by lia. cbn [negb]. rewrite andb_false_r. symmetry. apply Z.mod_pow2_bits_high. lia.
    + rewrite get_set_other by lia. split; [apply word_d; (assumption || lia) | intros s Hs; apply Low; lia].
Qed.

Lemma clear_bit_fails a n : let '(ok, y) := BN_clear_bit a n in ok = false -> y = a.
Proof. unfold BN_clear_bit. destruct (n <? 0); [reflexivity |]. now destruct (top a <=? n / BN_BITS2). Qed.

Lemma mask_bits_fails a n : let '(ok, y) := BN_mask_bits a n in ok = false -> y = a.
Proof. unfold BN_mask_bits. destruct (n <? 0); [reflexivity |]. now destruct (top a <=? n / BN_BITS2). Qed.

(** C25: shifts and bit operations act on the value, and leave a normal number,
    whether the result is the operand itself ([a = None]) or another object.
    Shifting left multiplies, shifting right divides rounding towards zero, by one
    bit or any number, across word boundaries; a bit is set, cleared or read in
    the magnitude, and masking keeps the remainder. The shifts and [BN_set_bit]
    fail for a negative count and otherwise only for want of room.
    [BN_clear_bit] and [BN_mask_bits] need no room: they fail, changing nothing,
    for a negative count and exactly when the bit lies past the last word in use.
    That is not what bn.h says: it knows a failed allocation as the only failure
    of [BN_clear_bit], and has [BN_mask_bits] fail when the count is greater than
    the length. Masking a number of 64 bits to 64 fails, and one of 1 bit to 63
    succeeds. *)
Theorem BN_shift_exact alloc_ok uninit r a n :
  (forall n, 0 <= n -> len (uninit n) = n) -> bn_mem r -> bn_fits (operand r a) ->
  let x := operand r a in
  let sign v := if neg x then - v else v in
  (if n <? 0 then
    BN_lshift alloc_ok uninit r a n = (false, r) /\ BN_rshift alloc_ok uninit r a n = (false, r) /\
    BN_set_bit alloc_ok uninit x n = (false, x) /\ BN_clear_bit x n = (false, x) /\ BN_mask_bits x n = (false, x) /\
    BN_is_bit_set x n = false
  else
    delivers alloc_ok r (top x + n / 64 + 1) (BN_lshift alloc_ok uninit r a n) (bn_val x * 2 ^ n) /\
    delivers alloc_ok r (top x + 1) (BN_lshift1 alloc_ok uninit r a) (2 * bn_val x) /\
    delivers alloc_ok r (top x) (BN_rshift alloc_ok uninit r a n) (Z.quot (bn_val x) (2 ^ n)) /\
    delivers alloc_ok r (top x) (BN_rshift1 alloc_ok uninit r a) (Z.quot (bn_val x) 2) /\
    delivers alloc_ok x (n / 64 + 1) (BN_set_bit alloc_ok uninit x n) (sign (Z.setbit (bn_abs x) n)) /\
    (let '(ok, y) := BN_clear_bit x n in
      ok = (n / 64 <? top x) /\ (ok = false -> y = x) /\ bn_ok y /\ bn_val y = sign (Z.clearbit (bn_abs x) n)) /\
    (let '(ok, y) := BN_mask_bits x n in
      ok = (n / 64 <? top x) /\ (ok = false -> y = x) /\ bn_ok y /\ bn_val y = Z.rem (bn_val x) (2 ^ n)) /\
    BN_is_bit_set x n = Z.testbit (bn_abs x) n) /\
  (let full := mk_bn [2 ^ 64 - 1] 1 false false in
   let one := mk_bn [1] 1 false false in
   BN_clear_bit full 64 = (false, full) /\ BN_num_bits full = 64 /\ BN_mask_bits full 64 = (false, full) /\
   BN_num_bits one = 1 /\ BN_mask_bits one 63 = (true, one)).
Proof.
  intros U Mr Hf x sign. split; [| repeat split]. pose proof (proj1 Hf) as Ho. fold x in Hf, Ho. destruct (Z.ltb_spec n 0) as [L | L].
  - unfold BN_lshift, BN_rshift, BN_set_bit, BN_clear_bit, BN_mask_bits, BN_is_bit_set.
    destruct (Z.ltb_spec n 0); [repeat split | lia].
  - split; [now apply lshift_delivers |]. split; [now apply lshift1_delivers |]. split; [now apply rshift_delivers |].
    split; [now apply rshift1_delivers |]. split; [now apply set_bit_delivers |].
    split; [| split; [| now apply is_bit_set_value]].
    + pose proof (clear_bit_exact x n Ho L) as E. pose proof (clear_bit_fails x n) as F. destruct (BN_clear_bit x n). tauto.
    + pose proof (mask_bits_exact x n Ho L) as E. pose proof (mask_bits_fails x n) as F. destruct (BN_mask_bits x n). tauto.
Qed.

(** A negative number of two words shifted in place by 65 bits. *)
Lemma BN_shift_exact_witness :
  let alloc := fun _ : Z => true in
  let uninit := fun n => repeat 42 (Z.to_nat n) in
  let r := mk_bn [2 ^ 64 - 1; 5; 9] 2 true false in
  delivers alloc r 4 (BN_lshift alloc uninit r None 65) (bn_val r * 2 ^ 65) /\
  delivers alloc r 2 (BN_rshift alloc uninit r None 65) (Z.quot (bn_val r) (2 ^ 65)).
Proof.
  intros alloc uninit r.
  assert (H := BN_shift_exact alloc uninit r None 65 ltac:(intros n Hn; unfold uninit; rewrite len_repeat; lia)).
  destruct H as ((H1 & _ & H2 & _) & _).
  - split; apply Z.leb_le; reflexivity.
  - split; [apply bn_check_ok; reflexivity | apply Z.leb_le; reflexivity].
  - split; [exact H1 | exact H2].
Defined.
