(* ===== verification/BnProducts.v ===== *)
(** * Products of word arrays (crypto/fipsmodule/bn/mul.c, the Comba part of generic.c)

    Schoolbook rows, the unrolled Comba columns for four and eight words, and
    Karatsuba's recursion on halves of unequal lengths. A routine is given the
    words it reads and returns the words it writes to [r]; [tsize] is the room in
    the scratch array [t], whose contents are dead before and after, and [None]
    is an access past the end of [r] or [t], or fuel used up. *)

From S2P Require Import Prelude Buffers BnWords.

Definition BN_MUL_RECURSIVE_SIZE_NORMAL : Z := 16.
Definition BN_SQR_RECURSIVE_SIZE_NORMAL : Z := BN_MUL_RECURSIVE_SIZE_NORMAL.

Definition zero_words (n : Z) : list Z := repeat 0 (Z.to_nat n).

(** ** Rows *)

(** [rr[k] = bn_mul_add_words(&(r[k]), a, na, b[k])] for the words of [b] from
    [k] on; the C loop makes four turns per round. *)
Fixpoint mul_rows (r a : list Z) (na : nat) (k : Z) (bs : list Z) : list Z :=
  match bs with
  | [] => r
  | w :: bs =>
      let (ws, c) := bn_mul_add_words (drop k r) a na w in
      mul_rows (take k r ++ ws ++ [c]) a na (k + 1) bs
  end.

Definition bn_mul_normal (a : list Z) (na : Z) (b : list Z) (nb : Z) : list Z :=
  let '(a, na, b, nb) := if na <? nb then (b, nb, a, na) else (a, na, b, nb) in
  if nb <=? 0 then fst (bn_mul_words a (Z.to_nat na) 0) else
  let (ws, c) := bn_mul_words a (Z.to_nat na) (get b 0) in
  mul_rows (ws ++ [c]) a (Z.to_nat na) 1 (take (nb - 1) (drop 1 b)).

(** ** Columns *)

(** The three words of the accumulator. *)
Definition acc3 : Type := Z * Z * Z.

Definition mul_add_c (a b : Z) (c : acc3) : acc3 :=
  let '(c0, c1, c2) := c in
  let t := wrap 128 (a * b) in
  let t := wrap 128 (t + c0) in
  let c0 := Lw t in
  let hi := Hw t in
  let c1 := Z.land (u64 (c1 + hi)) BN_MASK2 in
  (c0, c1, if c1 <? hi then u64 (c2 + 1) else c2).

Definition mul_add_c2 (a b : Z) (c : acc3) : acc3 :=
  let '(c0, c1, c2) := c in
  let t := wrap 128 (a * b) in
  let tt := wrap 128 (t + c0) in
  let c0 := Lw tt in
  let hi := Hw tt in
  let c1 := Z.land (u64 (c1 + hi)) BN_MASK2 in
  let c2 := if c1 <? hi then u64 (c2 + 1) else c2 in
  let t := wrap 128 (t + c0) in
  let c0 := Lw t in
  let hi := Hw t in
  let c1 := Z.land (u64 (c1 + hi)) BN_MASK2 in
  (c0, c1, if c1 <? hi then u64 (c2 + 1) else c2).

Definition sqr_add_c (a : list Z) (i : Z) (c : acc3) : acc3 :=
  let '(c0, c1, c2) := c in
  let t := wrap 128 (get a i * get a i) in
  let t := wrap 128 (t + c0) in
  let c0 := Lw t in
  let hi := Hw t in
  let c1 := Z.land (u64 (c1 + hi)) BN_MASK2 in
  (c0, c1, if c1 <? hi then u64 (c2 + 1) else c2).

Definition sqr_add_c2 (a : list Z) (i j : Z) (c : acc3) : acc3 := mul_add_c2 (get a i) (get a j) c.

(** A column adds its products, then its lowest word is written and cleared. *)
Fixpoint columns {A} (add : A -> acc3 -> acc3) (c : acc3) (cols : list (list A)) : list Z :=
  match cols with
  | [] => let '(c0, _, _) := c in [c0]
  | col :: cols => let '(c0, c1, c2) := fold_left (fun c x => add x c) col c in c0 :: columns add (c1, c2, 0) cols
  end.

Definition mul_columns (a b : list Z) : list (list (Z * Z)) -> list Z :=
  columns (fun ij => mul_add_c (get a (fst ij)) (get b (snd ij))) (0, 0, 0).

Definition bn_mul_comba8 (a b : list Z) : list Z :=
  mul_columns a b
   [ [(0, 0)]; [(0, 1); (1, 0)]; [(2, 0); (1, 1); (0, 2)]; [(0, 3); (1, 2); (2, 1); (3, 0)];
     [(4, 0); (3, 1); (2, 2); (1, 3); (0, 4)]; [(0, 5); (1, 4); (2, 3); (3, 2); (4, 1); (5, 0)];
     [(6, 0); (5, 1); (4, 2); (3, 3); (2, 4); (1, 5); (0, 6)];
     [(0, 7); (1, 6); (2, 5); (3, 4); (4, 3); (5, 2); (6, 1); (7, 0)];
     [(7, 1); (6, 2); (5, 3); (4, 4); (3, 5); (2, 6); (1, 7)];
     [(2, 7); (3, 6); (4, 5); (5, 4); (6, 3); (7, 2)]; [(7, 3); (6, 4); (5, 5); (4, 6); (3, 7)];
     [(4, 7); (5, 6); (6, 5); (7, 4)]; [(7, 5); (6, 6); (5, 7)]; [(6, 7); (7, 6)]; [(7, 7)] ].

Definition bn_mul_comba4 (a b : list Z) : list Z :=
  mul_columns a b
   [ [(0, 0)]; [(0, 1); (1, 0)]; [(2, 0); (1, 1); (0, 2)]; [(0, 3); (1, 2); (2, 1); (3, 0)];
     [(3, 1); (2, 2); (1, 3)]; [(2, 3); (3, 2)]; [(3, 3)] ].

(** A square, or a product counted twice. *)
Inductive sqr_term := once (i : Z) | twice (i j : Z).

Definition sqr_columns (a : list Z) : list (list sqr_term) -> list Z :=
  columns (fun x => match x with once i => sqr_add_c a i | twice i j => sqr_add_c2 a i j end) (0, 0, 0).

Definition bn_sqr_comba8 (a : list Z) : list Z :=
  sqr_columns a
   [ [once 0]; [twice 1 0]; [once 1; twice 2 0]; [twice 3 0; twice 2 1]; [once 2; twice 3 1; twice 4 0];
     [twice 5 0; twice 4 1; twice 3 2]; [once 3; twice 4 2; twice 5 1; twice 6 0];
     [twice 7 0; twice 6 1; twice 5 2; twice 4 3]; [once 4; twice 5 3; twice 6 2; twice 7 1];
     [twice 7 2; twice 6 3; twice 5 4]; [once 5; twice 6 4; twice 7 3]; [twice 7 4; twice 6 5];
     [once 6; twice 7 5]; [twice 7 6]; [once 7] ].

Definition bn_sqr_comba4 (a : list Z) : list Z :=
  sqr_columns a
   [ [once 0]; [twice 1 0]; [once 1; twice 2 0]; [twice 3 0; twice 2 1]; [once 2; twice 3 1]; [twice 3 2]; [once 3] ].

(** ** Karatsuba *)

(** The two tails of [bn_sub_part_words]. *)
Fixpoint sub_part_b (c : Z) (b : list Z) : list Z * Z :=
  match b with
  | [] => ([], c)
  | t :: b => let r := Z.land (u64 (0 - t - c)) BN_MASK2 in
              let (l, c) := sub_part_b (if negb (t =? 0) then 1 else c) b in (r :: l, c)
  end.

Fixpoint sub_part_a (c : Z) (a : list Z) : list Z * Z :=
  match a with
  | [] => ([], c)
  | t :: a' =>
      if c =? 0 then (a, c) else
      let r := Z.land (u64 (t - c)) BN_MASK2 in
      let (l, c) := sub_part_a (if negb (t =? 0) then 0 else c) a' in (r :: l, c)
  end.

Definition bn_sub_part_words (a b : list Z) (cl dl : Z) : list Z * Z :=
  let (r, c) := bn_sub_words a b (Z.to_nat cl) in
  if dl =? 0 then (r, c) else
  let (l, c) := if dl <? 0 then sub_part_b c (take (- dl) (drop cl b)) else sub_part_a c (take dl (drop cl a)) in
  (r ++ l, c).

(** [do { p++; ... } while (ln == 0)]. *)
Fixpoint carry_on (l : list Z) : option (list Z) :=
  match l with
  | [] => None
  | lo :: l =>
      let ln := Z.land (u64 (lo + 1)) BN_MASK2 in
      if ln =? 0 then option_map (cons ln) (carry_on l) else Some (ln :: l)
  end.

Definition carry_words (c1 : Z) (l : list Z) : option (list Z) :=
  match l with
  | [] => None
  | lo :: l =>
      let ln := Z.land (u64 (lo + c1)) BN_MASK2 in
      if ln <? u64 c1 then option_map (cons ln) (carry_on l) else Some (ln :: l)
  end.

(** The end of the recursive routines: [r] holds the products of the low and of
    the high halves, [mid] is [t[32]]. *)
Definition recombine (n : Z) (r mid : list Z) (neg : bool) : option (list Z) :=
  let n2 := 2 * n in
  let k := Z.to_nat n2 in
  let (t, c1) := bn_add_words r (drop n2 r) k in
  let '(t, c1) := if neg then let (t, b) := bn_sub_words t mid k in (t, c1 - b)
                  else let (t, c) := bn_add_words mid t k in (t, c1 + c) in
  let (m, c) := bn_add_words (drop n r) t k in
  let c1 := c1 + c in
  let r := splice r n m in
  if c1 =? 0 then Some r else
  match carry_words c1 (drop (n + n2) r) with
  | None => None
  | Some l => Some (take (n + n2) r ++ l)
  end.

(** [switch (c1 * 3 + c2)] of [bn_mul_recursive]: the two differences, the sign of
    their product, or nothing when it is zero. *)
Definition differences (a b : list Z) (n tna tnb : Z) : option (list Z * list Z * bool) :=
  let c1 := bn_cmp_part_words a (drop n a) (Z.to_nat tna) (n - tna) in
  let c2 := bn_cmp_part_words (drop n b) b (Z.to_nat tnb) (tnb - n) in
  let a_minus := fst (bn_sub_part_words (drop n a) a tna (tna - n)) in
  let a_plus := fst (bn_sub_part_words a (drop n a) tna (n - tna)) in
  let b_minus := fst (bn_sub_part_words b (drop n b) tnb (n - tnb)) in
  let b_plus := fst (bn_sub_part_words (drop n b) b tnb (tnb - n)) in
  let s := c1 * 3 + c2 in
  if s =? -4 then Some (a_minus, b_minus, false) else
  if s =? -2 then Some (a_minus, b_plus, true) else
  if s =? 2 then Some (a_plus, b_minus, true) else
  if s =? 4 then Some (a_plus, b_plus, false) else None.

(** The same of [bn_mul_part_recursive], which multiplies also by zero. *)
Definition part_differences (a b : list Z) (n tna tnb : Z) : list Z * list Z * bool :=
  let c1 := bn_cmp_part_words a (drop n a) (Z.to_nat tna) (n - tna) in
  let c2 := bn_cmp_part_words (drop n b) b (Z.to_nat tnb) (tnb - n) in
  let a_minus := fst (bn_sub_part_words (drop n a) a tna (tna - n)) in
  let a_plus := fst (bn_sub_part_words a (drop n a) tna (n - tna)) in
  let b_minus := fst (bn_sub_part_words b (drop n b) tnb (n - tnb)) in
  let b_plus := fst (bn_sub_part_words (drop n b) b tnb (tnb - n)) in
  let s := c1 * 3 + c2 in
  if s =? -4 then (a_minus, b_minus, false) else
  if (s =? -3) || (s =? -2) then (a_minus, b_plus, true) else
  if (s =? -1) || (s =? 0) || (s =? 1) || (s =? 2) then (a_plus, b_minus, true) else
  (a_plus, b_plus, false).

Fixpoint bn_mul_recursive (fuel : nat) (a b : list Z) (n2 dna dnb tsize : Z) : option (list Z) :=
  match fuel with
  | O => None
  | S fuel =>
      let n := n2 / 2 in
      let tna := n + dna in
      let tnb := n + dnb in
      if (n2 =? 8) && (dna =? 0) && (dnb =? 0) then Some (bn_mul_comba8 a b) else
      if n2 <? BN_MUL_RECURSIVE_SIZE_NORMAL then
        let r := bn_mul_normal a (n2 + dna) b (n2 + dnb) in
        Some (if dna + dnb <? 0 then r ++ zero_words (- (dna + dnb)) else r)
      else
      guard (2 * n2 <=? tsize) in
      let d := differences a b n tna tnb in
      let neg := match d with Some (_, _, neg) => neg | None => false end in
      let product f := match d with Some (x, y, _) => f x y | None => Some (zero_words n2) end in
      let* products :=
        if (n =? 4) && (dna =? 0) && (dnb =? 0) then
          let* mid := product (fun x y => Some (bn_mul_comba4 x y)) in
          Some (bn_mul_comba4 a b, bn_mul_comba4 (drop n a) (drop n b), mid)
        else if (n =? 8) && (dna =? 0) && (dnb =? 0) then
          let* mid := product (fun x y => Some (bn_mul_comba8 x y)) in
          Some (bn_mul_comba8 a b, bn_mul_comba8 (drop n a) (drop n b), mid)
        else
          let p := tsize - 2 * n2 in
          let* mid := product (fun x y => bn_mul_recursive fuel x y n 0 0 p) in
          let* lo := bn_mul_recursive fuel a b n 0 0 p in
          let* hi := bn_mul_recursive fuel (drop n a) (drop n b) n dna dnb p in
          Some (lo, hi, mid) in
      let '(lo, hi, mid) := products in
      recombine n (lo ++ hi) mid neg
  end.

(** [for (;;) { i /= 2; ... }]: the half, and whether a part of one more level
    remains. *)
Fixpoint halve (fuel : nat) (i tna tnb : Z) : option (bool * Z) :=
  match fuel with
  | O => None
  | S fuel =>
      let i := i / 2 in
      if (i <? tna) || (i <? tnb) then Some (true, i) else
      if (i =? tna) || (i =? tnb) then Some (false, i) else halve fuel i tna tnb
  end.

(** The product of the high parts, in [2 * n] words, [part] being the routine
    itself on smaller parts. *)
Definition part_high (part : list Z -> list Z -> Z -> Z -> Z -> Z -> option (list Z)) (fuel : nat) (a1 b1 : list Z) (n tna tnb p : Z) : option (list Z) :=
  let i := n / 2 in
  let n2 := n * 2 in
  let j := if tnb <? tna then tna - i else tnb - i in
  if j =? 0 then
    let* h := bn_mul_recursive fuel a1 b1 i (tna - i) (tnb - i) p in
    Some (take (2 * i) h ++ zero_words (n2 - i * 2))
  else if 0 <? j then
    let* h := part a1 b1 i (tna - i) (tnb - i) p in
    Some (take (tna + tnb) h ++ zero_words (n2 - tna - tnb))
  else if (tna <? BN_MUL_RECURSIVE_SIZE_NORMAL) && (tnb <? BN_MUL_RECURSIVE_SIZE_NORMAL) then
    Some (splice (zero_words n2) 0 (bn_mul_normal a1 tna b1 tnb))
  else
    let* half := halve fuel i tna tnb in
    let (more, i) := half : bool * Z in
    let* h := if more then part a1 b1 i (tna - i) (tnb - i) p else bn_mul_recursive fuel a1 b1 i (tna - i) (tnb - i) p in
    Some (splice (zero_words n2) 0 h).

Fixpoint bn_mul_part_recursive (fuel : nat) (a b : list Z) (n tna tnb tsize : Z) : option (list Z) :=
  match fuel with
  | O => None
  | S fuel =>
      let n2 := n * 2 in
      if n <? 8 then Some (bn_mul_normal a (n + tna) b (n + tnb)) else
      guard (2 * n2 <=? tsize) in
      let '(x, y, neg) := part_differences a b n tna tnb in
      let a1 := drop n a in
      let b1 := drop n b in
      let* products :=
        if n =? 8 then
          Some (bn_mul_comba8 a b, bn_mul_normal a1 tna b1 tnb ++ zero_words (n2 - tna - tnb), bn_mul_comba8 x y)
        else
          let p := tsize - 2 * n2 in
          let* mid := bn_mul_recursive fuel x y n 0 0 p in
          let* lo := bn_mul_recursive fuel a b n 0 0 p in
          let* hi := part_high (bn_mul_part_recursive fuel) fuel a1 b1 n tna tnb p in
          Some (lo, hi, mid) in
      let '(lo, hi, mid) := products in
      recombine n (lo ++ hi) mid neg
  end.

(** ** Squares *)

(** Row [k] of the products of different words, [ap] being the words from [k] on. *)
Fixpoint sqr_rows (r : list Z) (k : Z) (ap : list Z) : list Z :=
  match ap with
  | [] => r
  | w :: ap =>
      if len ap =? 0 then r else
      let (ws, c) := if k =? 0 then bn_mul_words ap (length ap) w
                     else bn_mul_add_words (drop (1 + 2 * k) r) ap (length ap) w in
      sqr_rows (take (1 + 2 * k) r ++ ws ++ [c]) (k + 1) ap
  end.

Definition bn_sqr_normal (a : list Z) (n : Z) : list Z :=
  let max := Z.to_nat (n * 2) in
  let r := sqr_rows [0] 0 (take n a) ++ [0] in
  let r := fst (bn_add_words r r max) in
  let tmp := bn_sqr_words a (Z.to_nat n) in
  fst (bn_add_words r tmp max).

Fixpoint bn_sqr_recursive (fuel : nat) (a : list Z) (n2 tsize : Z) : option (list Z) :=
  match fuel with
  | O => None
  | S fuel =>
      let n := n2 / 2 in
      if n2 =? 4 then Some (bn_sqr_comba4 a) else
      if n2 =? 8 then Some (bn_sqr_comba8 a) else
      if n2 <? BN_SQR_RECURSIVE_SIZE_NORMAL then guard (2 * n2 <=? tsize) in Some (bn_sqr_normal a n2) else
      guard (2 * n2 <=? tsize) in
      let a1 := drop n a in
      let c1 := bn_cmp_words a a1 (Z.to_nat n) in
      let p := tsize - 2 * n2 in
      let* mid :=
        if 0 <? c1 then bn_sqr_recursive fuel (fst (bn_sub_words a a1 (Z.to_nat n))) n p else
        if c1 <? 0 then bn_sqr_recursive fuel (fst (bn_sub_words a1 a (Z.to_nat n))) n p else
        Some (zero_words n2) in
      let* lo := bn_sqr_recursive fuel a n p in
      let* hi := bn_sqr_recursive fuel a1 n p in
      recombine n (lo ++ hi) mid true
  end.

(** ** Values *)

(** The weight of word [k]. *)
Definition weight (k : Z) : Z := 2 ^ (64 * k).

Lemma weight_0 : weight 0 = 1.
Proof. reflexivity. Qed.

Lemma weight_pos k : 0 <= k -> 0 < weight k.
Proof. intros H. apply Z.pow_pos_nonneg; lia. Qed.

Lemma weight_add i k : 0 <= i -> 0 <= k -> weight (i + k) = weight i * weight k.
Proof. intros. unfold weight. rewrite <- Z.pow_add_r by lia. f_equal. lia. Qed.

Lemma weight_base n : base n = weight (Z.of_nat n).
Proof. reflexivity. Qed.

Lemma val_app l k : le_val (l ++ k) = le_val l + weight (len l) * le_val k.
Proof. rewrite le_val_app. reflexivity. Qed.

Lemma val_range l : words_ok l -> 0 <= le_val l < weight (len l).
Proof. intros H. now apply le_val_range. Qed.

Lemma val_split n l : 0 <= n <= len l -> le_val l = le_val (take n l) + weight n * le_val (drop n l).
Proof. intros H. rewrite <- (take_drop n l) at 1. rewrite val_app, len_take by exact H. reflexivity. Qed.

Lemma words_ok_take n l : words_ok l -> words_ok (take n l).
Proof. apply Forall_take. Qed.

Lemma words_ok_drop n l : words_ok l -> words_ok (drop n l).
Proof. apply Forall_drop. Qed.

Lemma words_ok_app l k : words_ok l -> words_ok k -> words_ok (l ++ k).
Proof. intros H1 H2. apply Forall_app. now split. Qed.

Lemma words_ok_1 w : word_ok w -> words_ok [w].
Proof. intros H. constructor; [exact H | constructor]. Qed.

Lemma words_ok_zero n : words_ok (zero_words n).
Proof. apply Forall_repeat. unfold word_ok. lia. Qed.

Lemma len_zero n : 0 <= n -> len (zero_words n) = n.
Proof. intros H. unfold zero_words. rewrite len_repeat. lia. Qed.

Lemma val_zero n : le_val (zero_words n) = 0.
Proof. unfold zero_words. induction (Z.to_nat n) as [| k IH]; [reflexivity |]. cbn [repeat le_val]. rewrite IH. lia. Qed.

#[export] Hint Resolve words_ok_take words_ok_drop words_ok_app words_ok_zero words_ok_1 : bytes.

(** The routines of generic.c with counts in Z. *)
Section Counted.
Variables (a b : list Z) (n : Z).
Hypotheses (Wa : words_ok a) (Wb : words_ok b) (La : 0 <= n <= len a) (Lb : n <= len b).

Lemma add_words_Z : exists r c, bn_add_words a b (Z.to_nat n) = (r, c) /\ len r = n /\ words_ok r /\ bit_ok c /\
  le_val r + weight n * c = le_val (take n a) + le_val (take n b).
Proof.
  destruct (bn_add_words a b (Z.to_nat n)) as [r c] eqn:E. unfold len in La, Lb.
  destruct (add_words_value a b (Z.to_nat n) Wa Wb ltac:(lia) ltac:(lia) r c E) as (L & W & C & V).
  exists r, c. split; [reflexivity |]. unfold len. rewrite weight_base, Z2Nat.id in V by lia. repeat split; try assumption. lia.
Qed.

Lemma sub_words_Z : exists r c, bn_sub_words a b (Z.to_nat n) = (r, c) /\ len r = n /\ words_ok r /\ bit_ok c /\
  le_val r - weight n * c = le_val (take n a) - le_val (take n b).
Proof.
  destruct (bn_sub_words a b (Z.to_nat n)) as [r c] eqn:E. unfold len in La, Lb.
  destruct (sub_words_value a b (Z.to_nat n) Wa Wb ltac:(lia) ltac:(lia) r c E) as (L & W & C & V).
  exists r, c. split; [reflexivity |]. unfold len. rewrite weight_base, Z2Nat.id in V by lia. repeat split; try assumption. lia.
Qed.

Lemma mul_add_words_Z w : word_ok w -> exists r c, bn_mul_add_words b a (Z.to_nat n) w = (r, c) /\ len r = n /\ words_ok r /\ word_ok c /\
  le_val r + weight n * c = w * le_val (take n a) + le_val (take n b).
Proof.
  intros Hw. destruct (bn_mul_add_words b a (Z.to_nat n) w) as [r c] eqn:E. unfold len in La, Lb.
  destruct (mul_add_words_value a b (Z.to_nat n) Wa Wb ltac:(lia) ltac:(lia) w r c Hw E) as (L & W & C & V).
  exists r, c. split; [reflexivity |]. unfold len. rewrite weight_base, Z2Nat.id in V by lia. repeat split; try assumption; try apply C. lia.
Qed.
End Counted.

Lemma mul_words_Z a n w : words_ok a -> 0 <= n <= len a -> word_ok w ->
  exists r c, bn_mul_words a (Z.to_nat n) w = (r, c) /\ len r = n /\ words_ok r /\ word_ok c /\
  le_val r + weight n * c = w * le_val (take n a).
Proof.
  intros Wa La Hw. destruct (bn_mul_words a (Z.to_nat n) w) as [r c] eqn:E. unfold len in La.
  destruct (mul_words_value a a (Z.to_nat n) Wa ltac:(lia) ltac:(lia) w r c Hw E) as (L & W & C & V).
  exists r, c. split; [reflexivity |]. unfold len. rewrite weight_base, Z2Nat.id in V by lia. repeat split; try assumption; try apply C. lia.
Qed.

(** *** Rows *)

Lemma mul_rows_value a na : words_ok a -> 0 <= na <= len a -> forall bs r k, words_ok bs -> words_ok r -> 0 <= k -> len r = na + k ->
  let r' := mul_rows r a (Z.to_nat na) k bs in
  len r' = na + k + len bs /\ words_ok r' /\ le_val r' = le_val r + weight k * (le_val (take na a) * le_val bs).
Proof.
  intros Wa La. induction bs as [| w bs IH]; intros r k Wb Wr Hk Lr; cbv zeta; cbn [mul_rows].
  { rewrite len_nil. cbn [le_val]. repeat split; [lia | exact Wr | lia]. }
  inversion_clear Wb as [| ? ? Hw Wb'].
  destruct (mul_add_words_Z a (drop k r) na Wa ltac:(auto with bytes) La ltac:(rewrite len_drop; lia) w Hw) as (ws & c & -> & Lw & Ww & Wc & V).
  rewrite (take_all na (drop k r)) in V by (rewrite len_drop; lia).
  destruct (IH (take k r ++ ws ++ [c]) (k + 1) Wb') as (L & W & E).
  - auto with bytes.
  - lia.
  - rewrite !len_app, len_take, len_cons, len_nil by lia. lia.
  - split; [rewrite L, len_cons; lia | split; [exact W |]]. rewrite E, !val_app, len_take by lia. rewrite (val_split k r) by lia. rewrite Lw. cbn [le_val].
    rewrite weight_add by lia. change (weight 1) with (2 ^ 64). nia.
Qed.

Lemma normal_value a na b nb : words_ok a -> words_ok b -> 0 <= na <= len a -> 0 <= nb <= len b ->
  let r := bn_mul_normal a na b nb in
  len r = na + nb /\ words_ok r /\ le_val r = le_val (take na a) * le_val (take nb b).
Proof.
  intros Wa Wb La Lb. unfold bn_mul_normal.
  assert (G : forall a na b nb, words_ok a -> words_ok b -> 0 <= na <= len a -> 0 <= nb <= len b ->
    let r := if nb <=? 0 then fst (bn_mul_words a (Z.to_nat na) 0) else
      let (ws, c) := bn_mul_words a (Z.to_nat na) (get b 0) in mul_rows (ws ++ [c]) a (Z.to_nat na) 1 (take (nb - 1) (drop 1 b)) in
    len r = na + nb /\ words_ok r /\ le_val r = le_val (take na a) * le_val (take nb b)).
  { clear a na b nb Wa Wb La Lb. intros a na b nb Wa Wb La Lb. cbv zeta. destruct (Z.leb_spec nb 0) as [H0 | H0].
    - destruct (mul_words_Z a na 0 Wa La ltac:(unfold word_ok; lia)) as (r & c & -> & L & W & Hc & V). cbn [fst].
      pose proof (val_range r W) as R. rewrite L in R. pose proof (weight_pos na ltac:(lia)). unfold word_ok in Hc.
      split; [lia | split; [exact W |]]. replace nb with 0 by lia. rewrite take_0. cbn [le_val]. nia.
    - destruct (mul_words_Z a na (get b 0) Wa La (word_get b 0 Wb)) as (ws & c & -> & L & W & Hc & V).
      destruct (mul_rows_value a na Wa La (take (nb - 1) (drop 1 b)) (ws ++ [c]) 1) as (L' & W' & V'); [auto with bytes | | lia | |].
      + auto with bytes.
      + rewrite len_app, len_cons, len_nil. lia.
      + rewrite len_take in L' by (rewrite len_drop; lia). split; [lia | split; [exact W' |]]. rewrite V', val_app, L. cbn [le_val].
        assert (Eb : take nb b = get b 0 :: take (nb - 1) (drop 1 b)).
        { rewrite <- (drop_0 b) at 1. rewrite (drop_cons_get 0 b) by lia. unfold take at 1. replace (Z.to_nat nb) with (S (Z.to_nat (nb - 1))) by lia. reflexivity. }
        rewrite Eb. cbn [le_val]. change (weight 1) with (2 ^ 64). nia. }
  destruct (Z.ltb_spec na nb).
  - destruct (G b nb a na Wb Wa Lb La) as (L & W & V). split; [lia | split; [exact W |]]. rewrite V. apply Z.mul_comm.
  - now apply G.
Qed.

(** *** Columns *)

Definition acc_val (c : acc3) : Z := let '(c0, c1, c2) := c in c0 + 2 ^ 64 * (c1 + 2 ^ 64 * c2).
Definition acc_ok (c : acc3) : Prop := let '(c0, c1, c2) := c in word_ok c0 /\ word_ok c1 /\ word_ok c2.

Lemma mul_add_c_value a b c : word_ok a -> word_ok b -> acc_ok c -> acc_val c + a * b < 2 ^ 192 ->
  acc_ok (mul_add_c a b c) /\ acc_val (mul_add_c a b c) = acc_val c + a * b.
Proof.
  destruct c as [[c0 c1] c2]. unfold acc_ok, acc_val, mul_add_c. intros Ha Hb (H0 & H1 & H2) Hs.
  assert (Hp : 0 <= a * b <= 2 ^ 128 - 2 * 2 ^ 64 + 1) by (unfold word_ok in *; nia).
  unfold word_ok in H0, H1, H2. rewrite (wrap_small 128 (a * b)) by lia. rewrite (wrap_small 128) by lia.
  destruct (wide_split (a * b + c0) ltac:(lia)) as (W0 & Wh & E). set (lo := Lw _) in *. set (hi := Hw _) in *. clearbody lo hi.
  rewrite word_land by apply u64_word_ok. unfold word_ok in *.
  assert (Ec : u64 (c1 + hi) = c1 + hi /\ c1 + hi < 2 ^ 64 \/ u64 (c1 + hi) = c1 + hi - 2 ^ 64 /\ 2 ^ 64 <= c1 + hi) by word_lia.
  set (c1' := u64 (c1 + hi)) in *. clearbody c1'.
  destruct (Z.ltb_spec c1' hi) as [L | L].
  - assert (c2 + 1 < 2 ^ 64) by nia. rewrite (wrap_small 64) by lia. lia.
  - lia.
Qed.

Lemma mul_add_c2_twice a b c : mul_add_c2 a b c = mul_add_c a b (mul_add_c a b c).
Proof. now destruct c as [[c0 c1] c2]. Qed.

Section Columns.
Context {A : Type}.
Variables (add : A -> acc3 -> acc3) (term : A -> Z).
Hypothesis term_range : forall x, 0 <= term x <= 2 * 2 ^ 128.
Hypothesis add_value : forall x c, acc_ok c -> acc_val c + term x < 2 ^ 192 ->
  acc_ok (add x c) /\ acc_val (add x c) = acc_val c + term x.

Definition column_sum (col : list A) : Z := fold_right (fun x s => term x + s) 0 col.
Fixpoint columns_sum (cols : list (list A)) : Z :=
  match cols with [] => 0 | col :: cols => column_sum col + 2 ^ 64 * columns_sum cols end.

Lemma column_value col : forall c, acc_ok c -> acc_val c + 2 * 2 ^ 128 * len col < 2 ^ 192 ->
  let c' := fold_left (fun c x => add x c) col c in acc_ok c' /\ acc_val c' = acc_val c + column_sum col.
Proof.
  induction col as [| x col IH]; intros c Hc Hs; cbn [fold_left column_sum fold_right]; [split; [exact Hc | lia] |].
  rewrite len_cons in Hs. pose proof (len_nonneg col). pose proof (term_range x).
  destruct (add_value x c Hc ltac:(lia)) as [O V]. destruct (IH (add x c) O ltac:(lia)) as [O' V'].
  split; [exact O' |]. rewrite V', V. unfold column_sum. lia.
Qed.

Lemma columns_value cols : Forall (fun col => len col <= 8) cols -> forall c, acc_ok c -> acc_val c < 2 ^ 128 ->
  let r := columns add c cols in
  len r = len cols + 1 /\ words_ok r /\
  exists k, 0 <= k /\ le_val r + weight (len cols + 1) * k = acc_val c + columns_sum cols.
Proof.
  induction 1 as [| col cols Hl _ IH]; intros c Hc Hs; cbv zeta; cbn [columns columns_sum].
  { destruct c as [[c0 c1] c2]. cbn [acc_ok acc_val] in *. destruct Hc as (H0 & H1 & H2). cbn [le_val]. change (weight (len (@nil (list A)) + 1)) with (2 ^ 64).
    split; [reflexivity | split; [auto with bytes |]]. exists (c1 + 2 ^ 64 * c2). unfold word_ok in *. lia. }
  pose proof (len_nonneg col). destruct (column_value col c Hc ltac:(lia)) as [O V].
  destruct (fold_left _ col c) as [[c0 c1] c2]. cbn [acc_ok acc_val] in O, V. destruct O as (H0 & H1 & H2).
  destruct (IH (c1, c2, 0)) as (L & W & k & Hk & E).
  - cbn [acc_ok]. unfold word_ok in *. lia.
  - cbn [acc_val]. unfold word_ok in *. lia.
  - cbn [le_val]. rewrite !len_cons, L. split; [lia | split; [constructor; assumption |]]. exists k. split; [exact Hk |].
    pose proof (len_nonneg cols). replace (1 + len cols + 1) with (1 + (len cols + 1)) by lia. rewrite weight_add by lia. change (weight 1) with (2 ^ 64).
    cbn [acc_val] in E. nia.
Qed.
End Columns.

Lemma mul_columns_value a b cols v : words_ok a -> words_ok b -> Forall (fun col => len col <= 8) cols ->
  columns_sum (fun ij => get a (fst ij) * get b (snd ij)) cols = v -> v < weight (len cols + 1) ->
  let r := mul_columns a b cols in len r = len cols + 1 /\ words_ok r /\ le_val r = v.
Proof.
  intros Wa Wb Hl Es Hv.
  destruct (columns_value (fun ij => mul_add_c (get a (fst ij)) (get b (snd ij))) (fun ij => get a (fst ij) * get b (snd ij))) with (cols := cols) (c := (0, 0, 0)) as (L & W & k & Hk & E).
  - intros [i j]. cbn [fst snd]. pose proof (word_get a i Wa). pose proof (word_get b j Wb). unfold word_ok in *. nia.
  - intros [i j] c Hc Hs. cbn [fst snd] in *. apply mul_add_c_value; try assumption; now apply word_get.
  - exact Hl.
  - cbn [acc_ok]. unfold word_ok. lia.
  - cbn [acc_val]. lia.
  - split; [exact L | split; [exact W |]]. fold (mul_columns a b cols) in W, E. cbn [acc_val] in E. rewrite Es in E. pose proof (val_range _ W) as R.
    pose proof (len_nonneg cols) as Lc. assert (k < 1) by (apply (Z.mul_lt_mono_pos_l (weight (len cols + 1))); [apply weight_pos; lia | lia]). replace k with 0 in E by lia. lia.
Qed.

(** Twice a product is below the bound only for the products of the source, so
    squares take their own bound on the sum. *)
Lemma sqr_columns_value a cols v : words_ok a -> Forall (fun col => len col <= 8) cols ->
  columns_sum (fun x => match x with once i => get a i * get a i | twice i j => 2 * (get a i * get a j) end) cols = v -> v < weight (len cols + 1) ->
  let r := sqr_columns a cols in len r = len cols + 1 /\ words_ok r /\ le_val r = v.
Proof.
  intros Wa Hl Es Hv.
  destruct (columns_value (fun x => match x with once i => sqr_add_c a i | twice i j => sqr_add_c2 a i j end)
    (fun x => match x with once i => get a i * get a i | twice i j => 2 * (get a i * get a j) end)) with (cols := cols) (c := (0, 0, 0)) as (L & W & k & Hk & E).
  - intros [i | i j]; pose proof (word_get a i Wa); [| pose proof (word_get a j Wa)]; unfold word_ok in *; nia.
  - intros [i | i j] c Hc Hs; pose proof (word_get a i Wa) as Wi.
    + apply (mul_add_c_value (get a i) (get a i) c); assumption.
    + pose proof (word_get a j Wa) as Wj. unfold sqr_add_c2. rewrite mul_add_c2_twice. assert (0 <= get a i * get a j) by (unfold word_ok in *; nia).
      destruct (mul_add_c_value (get a i) (get a j) c Wi Wj Hc ltac:(lia)) as [O V].
      destruct (mul_add_c_value (get a i) (get a j) _ Wi Wj O ltac:(lia)) as [O' V']. split; [exact O' | lia].
  - exact Hl.
  - cbn [acc_ok]. unfold word_ok. lia.
  - cbn [acc_val]. lia.
  - split; [exact L | split; [exact W |]]. fold (sqr_columns a cols) in W, E. cbn [acc_val] in E. rewrite Es in E. pose proof (val_range _ W) as R.
    pose proof (len_nonneg cols) as Lc. assert (k < 1) by (apply (Z.mul_lt_mono_pos_l (weight (len cols + 1))); [apply weight_pos; lia | lia]). replace k with 0 in E by lia. lia.
Qed.

Lemma take_gets (n : nat) a : Z.of_nat n <= len a -> take (Z.of_nat n) a = map (fun i => get a (Z.of_nat i)) (seq 0 n).
Proof.
  induction n as [| n IH]; intros H; [apply take_0 |]. rewrite seq_S, map_app. cbn [map]. rewrite <- IH by lia.
  replace (Z.of_nat (S n)) with (Z.of_nat n + 1) by lia. apply take_succ. lia.
Qed.

(** The columns hold each product once. *)
Ltac all_products n H H' :=
  rewrite (take_gets n _ H); try rewrite (take_gets n _ H');
  cbn [columns_sum column_sum fold_right fst snd le_val map seq Z.of_nat Pos.of_succ_nat Pos.succ];
  generalize (2 ^ 64); intros; ring.

Lemma product_bound a b n : words_ok a -> words_ok b -> 0 <= n <= len a -> n <= len b ->
  0 <= le_val (take n a) * le_val (take n b) < weight (n + n).
Proof.
  intros Wa Wb La Lb. rewrite weight_add by lia. pose proof (val_range _ (words_ok_take n a Wa)) as Ra. pose proof (val_range _ (words_ok_take n b Wb)) as Rb.
  rewrite len_take in Ra, Rb by lia. nia.
Qed.

Ltac short_columns := repeat constructor; apply Z.leb_le; reflexivity.

Lemma comba8_value a b : words_ok a -> words_ok b -> 8 <= len a -> 8 <= len b ->
  let r := bn_mul_comba8 a b in len r = 16 /\ words_ok r /\ le_val r = le_val (take 8 a) * le_val (take 8 b).
Proof.
  intros Wa Wb La Lb. unfold bn_mul_comba8. apply mul_columns_value; try assumption.
  - short_columns.
  - change 8 with (Z.of_nat 8). all_products 8%nat La Lb.
  - apply (product_bound a b 8); (assumption || lia).
Qed.

Lemma comba4_value a b : words_ok a -> words_ok b -> 4 <= len a -> 4 <= len b ->
  let r := bn_mul_comba4 a b in len r = 8 /\ words_ok r /\ le_val r = le_val (take 4 a) * le_val (take 4 b).
Proof.
  intros Wa Wb La Lb. unfold bn_mul_comba4. apply mul_columns_value; try assumption.
  - short_columns.
  - change 4 with (Z.of_nat 4). all_products 4%nat La Lb.
  - apply (product_bound a b 4); (assumption || lia).
Qed.

Lemma sqr_comba8_value a : words_ok a -> 8 <= len a ->
  let r := bn_sqr_comba8 a in len r = 16 /\ words_ok r /\ le_val r = le_val (take 8 a) * le_val (take 8 a).
Proof.
  intros Wa La. unfold bn_sqr_comba8. apply sqr_columns_value; try assumption.
  - short_columns.
  - change 8 with (Z.of_nat 8). all_products 8%nat La La.
  - apply (product_bound a a 8); (assumption || lia).
Qed.

Lemma sqr_comba4_value a : words_ok a -> 4 <= len a ->
  let r := bn_sqr_comba4 a in len r = 8 /\ words_ok r /\ le_val r = le_val (take 4 a) * le_val (take 4 a).
Proof.
  intros Wa La. unfold bn_sqr_comba4. apply sqr_columns_value; try assumption.
  - short_columns.
  - change 4 with (Z.of_nat 4). all_products 4%nat La La.
  - apply (product_bound a a 4); (assumption || lia).
Qed.

(** *** Differences of unequal lengths *)

Lemma sub_part_b_value b : words_ok b -> forall c, bit_ok c ->
  let (l, c') := sub_part_b c b in len l = len b /\ words_ok l /\ bit_ok c' /\ le_val l - weight (len b) * c' = - le_val b - c.
Proof.
  induction 1 as [| t b Ht Hb IH]; intros c Hc; cbn [sub_part_b].
  { rewrite len_nil, weight_0. cbn [le_val]. repeat split; [constructor | exact Hc | lia]. }
  rewrite word_land by apply u64_word_ok. set (c1 := if negb (t =? 0) then 1 else c).
  assert (Hc1 : bit_ok c1) by (unfold c1, bit_ok in *; destruct (negb (t =? 0)); lia).
  specialize (IH c1 Hc1). destruct (sub_part_b c1 b) as [l c']. destruct IH as (L & W & C & V).
  rewrite !len_cons, L. cbn [le_val]. pose proof (len_nonneg b). rewrite weight_add by lia. change (weight 1) with (2 ^ 64).
  assert (E : u64 (0 - t - c) = 2 ^ 64 * c1 - t - c).
  { unfold word_ok, bit_ok, c1 in *. destruct (Z.eqb_spec t 0) as [-> | N]; cbn [negb].
    - destruct Hc as [-> | ->]; reflexivity.
    - symmetry. apply (Z.mod_unique_pos _ _ (-1)); lia. }
  split; [reflexivity | split; [constructor; [apply u64_word_ok | exact W] | split; [exact C | rewrite E; nia]]].
Qed.

Lemma sub_part_a_value a : words_ok a -> forall c, bit_ok c ->
  let (l, c') := sub_part_a c a in len l = len a /\ words_ok l /\ bit_ok c' /\ le_val l - weight (len a) * c' = le_val a - c.
Proof.
  induction 1 as [| t a Ht Ha IH]; intros c Hc; cbn [sub_part_a].
  { rewrite len_nil, weight_0. cbn [le_val]. repeat split; [constructor | exact Hc | lia]. }
  destruct (Z.eqb_spec c 0) as [-> | N]; [repeat split; [now constructor | exact Hc | lia] |].
  assert (c = 1) as -> by (unfold bit_ok in Hc; lia).
  rewrite word_land by apply u64_word_ok. set (c1 := if negb (t =? 0) then 0 else 1).
  assert (Hc1 : bit_ok c1) by (unfold c1, bit_ok; destruct (negb (t =? 0)); lia).
  specialize (IH c1 Hc1). destruct (sub_part_a c1 a) as [l c']. destruct IH as (L & W & C & V).
  rewrite !len_cons, L. cbn [le_val]. pose proof (len_nonneg a). rewrite weight_add by lia. change (weight 1) with (2 ^ 64).
  assert (E : u64 (t - 1) = 2 ^ 64 * c1 + t - 1).
  { unfold word_ok, c1 in *. destruct (Z.eqb_spec t 0) as [-> | N']; cbn [negb]; [reflexivity |]. apply wrap_small. lia. }
  split; [reflexivity | split; [constructor; [apply u64_word_ok | exact W] | split; [exact C | rewrite E; nia]]].
Qed.

Lemma sub_part_value a b cl dl : words_ok a -> words_ok b -> 0 <= cl -> cl + Z.max 0 dl <= len a -> cl + Z.max 0 (- dl) <= len b ->
  exists r c, bn_sub_part_words a b cl dl = (r, c) /\ len r = cl + Z.abs dl /\ words_ok r /\ bit_ok c /\
  le_val r - weight (cl + Z.abs dl) * c = le_val (take (cl + Z.max 0 dl) a) - le_val (take (cl + Z.max 0 (- dl)) b).
Proof.
  intros Wa Wb Hc La Lb. unfold bn_sub_part_words. destruct (sub_words_Z a b cl Wa Wb ltac:(lia) ltac:(lia)) as (r & c & -> & L & W & C & V).
  destruct (Z.eqb_spec dl 0) as [-> | N].
  { exists r, c. replace (cl + Z.abs 0) with cl by lia. replace (cl + Z.max 0 0) with cl by lia. replace (cl + Z.max 0 (-0)) with cl by lia. now repeat split. }
  destruct (Z.ltb_spec dl 0) as [S | S].
  - pose proof (sub_part_b_value (take (- dl) (drop cl b)) ltac:(auto with bytes) c C) as X. destruct (sub_part_b c _) as [l c'].
    rewrite len_take in X by (rewrite len_drop; lia). destruct X as (L' & W' & C' & V').
    exists (r ++ l), c'. rewrite len_app, val_app, L, L'. split; [reflexivity | split; [lia | split; [auto with bytes | split; [exact C' |]]]].
    replace (cl + Z.max 0 dl) with cl by lia. replace (cl + Z.max 0 (- dl)) with (cl + - dl) by lia. rewrite (take_plus cl (- dl) b) by lia. rewrite val_app, len_take by lia.
    replace (Z.abs dl) with (- dl) by lia. rewrite weight_add by lia. nia.
  - pose proof (sub_part_a_value (take dl (drop cl a)) ltac:(auto with bytes) c C) as X. destruct (sub_part_a c _) as [l c'].
    rewrite len_take in X by (rewrite len_drop; lia). destruct X as (L' & W' & C' & V').
    exists (r ++ l), c'. rewrite len_app, val_app, L, L'. split; [reflexivity | split; [lia | split; [auto with bytes | split; [exact C' |]]]].
    replace (cl + Z.max 0 dl) with (cl + dl) by lia. replace (cl + Z.max 0 (- dl)) with cl by lia. rewrite (take_plus cl dl a) by lia. rewrite val_app, len_take by lia.
    replace (Z.abs dl) with dl by lia. rewrite weight_add by lia. nia.
Qed.

(** *** The carry of Karatsuba *)

Lemma carry_on_value l : words_ok l -> le_val l + 1 < weight (len l) ->
  exists l', carry_on l = Some l' /\ len l' = len l /\ words_ok l' /\ le_val l' = le_val l + 1.
Proof.
  induction 1 as [| x l Hx Hl IH]; intros Hs; cbn [carry_on].
  { change (weight (len (@nil Z))) with 1 in Hs. cbn [le_val] in Hs. lia. }
  rewrite len_cons, weight_add in Hs by (pose proof (len_nonneg l); lia). change (weight 1) with (2 ^ 64) in Hs. cbn [le_val] in *.
  rewrite word_land by apply u64_word_ok. unfold word_ok in Hx. destruct (Z.eq_dec x (2 ^ 64 - 1)) as [E | E].
  - assert (u64 (x + 1) = 0) as -> by (rewrite E; reflexivity). cbn [Z.eqb]. destruct IH as (l' & -> & L & W & V); [lia |].
    exists (0 :: l'). rewrite !len_cons. cbn [le_val]. repeat split; [lia | constructor; [unfold word_ok; lia | exact W] | lia].
  - rewrite wrap_small by lia. destruct (Z.eqb_spec (x + 1) 0); [lia |]. exists (x + 1 :: l). rewrite !len_cons. cbn [le_val].
    repeat split; [constructor; [unfold word_ok; lia | exact Hl] | lia].
Qed.

Lemma carry_words_value c l : words_ok l -> 0 < c < 2 ^ 64 -> le_val l + c < weight (len l) ->
  exists l', carry_words c l = Some l' /\ len l' = len l /\ words_ok l' /\ le_val l' = le_val l + c.
Proof.
  intros Hl Hc Hs. destruct Hl as [| x l Hx Hl]; cbn [carry_words].
  { change (weight (len (@nil Z))) with 1 in Hs. cbn [le_val] in Hs. lia. }
  rewrite len_cons, weight_add in Hs by (pose proof (len_nonneg l); lia). change (weight 1) with (2 ^ 64) in Hs. cbn [le_val] in *.
  rewrite word_land by apply u64_word_ok. rewrite (wrap_small 64 c) by lia. unfold word_ok in Hx.
  assert (Eu : u64 (x + c) = x + c /\ x + c < 2 ^ 64 \/ u64 (x + c) = x + c - 2 ^ 64 /\ 2 ^ 64 <= x + c) by word_lia.
  set (u := u64 (x + c)) in *. clearbody u. destruct (Z.ltb_spec u c).
  - destruct (carry_on_value l Hl) as (l' & -> & L & W & V); [lia |].
    exists (u :: l'). rewrite !len_cons. cbn [le_val]. repeat split; [lia | constructor; [unfold word_ok; lia | exact W] | lia].
  - exists (u :: l). rewrite !len_cons. cbn [le_val]. repeat split; [constructor; [unfold word_ok; lia | exact Hl] | lia].
Qed.

(** The three products make the whole when the middle is not negative and the
    whole fits. *)
Lemma recombine_value n lo hi mid (neg : bool) : 0 < n -> words_ok lo -> words_ok hi -> words_ok mid ->
  len lo = 2 * n -> len hi = 2 * n -> len mid = 2 * n ->
  let m := le_val lo + le_val hi + (if neg then - le_val mid else le_val mid) in
  let v := le_val lo + weight n * m + weight (2 * n) * le_val hi in
  0 <= m -> v < weight (4 * n) ->
  exists r, recombine n (lo ++ hi) mid neg = Some r /\ len r = 4 * n /\ words_ok r /\ le_val r = v.
Proof.
  intros Hn Wl Wh Wm Ll Lh Lm m v Hm Hv. unfold recombine. pose proof (weight_pos n ltac:(lia)) as Pn. pose proof (weight_add n n ltac:(lia) ltac:(lia)) as En.
  replace (n + n) with (2 * n) in En by lia. pose proof (weight_pos (2 * n) ltac:(lia)) as P2.
  pose proof (weight_add (2 * n) (2 * n) ltac:(lia) ltac:(lia)) as E4. replace (2 * n + 2 * n) with (4 * n) in E4 by lia.
  assert (Llh : len (lo ++ hi) = 4 * n) by (rewrite len_app; lia).
  rewrite (drop_app_exact (2 * n)) by lia.
  destruct (add_words_Z (lo ++ hi) hi (2 * n) ltac:(auto with bytes) Wh ltac:(rewrite len_app; lia) ltac:(lia)) as (t & c1 & -> & Lt & Wt & C1 & V1).
  rewrite take_app_exact, (take_all _ hi) in V1 by lia.
  assert (H2 : exists t2 c2, (if neg then let (t, b) := bn_sub_words t mid (Z.to_nat (2 * n)) in (t, c1 - b) else let (t, c) := bn_add_words mid t (Z.to_nat (2 * n)) in (t, c1 + c)) = (t2, c2) /\
    len t2 = 2 * n /\ words_ok t2 /\ le_val t2 + weight (2 * n) * c2 = m /\ -1 <= c2 <= 2).
  { destruct neg.
    - destruct (sub_words_Z t mid (2 * n) Wt Wm ltac:(lia) ltac:(lia)) as (t2 & b & -> & L2 & W2 & B2 & V2). rewrite !take_all in V2 by lia.
      exists t2, (c1 - b). unfold bit_ok in *. repeat split; try assumption; try lia; unfold m; nia.
    - destruct (add_words_Z mid t (2 * n) Wm Wt ltac:(lia) ltac:(lia)) as (t2 & b & -> & L2 & W2 & B2 & V2). rewrite !take_all in V2 by lia.
      exists t2, (c1 + b). unfold bit_ok in *. repeat split; try assumption; try lia; unfold m; nia. }
  destruct H2 as (t2 & c2 & -> & L2 & W2 & V2 & R2). pose proof (val_range t2 W2) as Rt2. rewrite L2 in Rt2.
  assert (0 <= c2) by nia.
  destruct (add_words_Z (drop n (lo ++ hi)) t2 (2 * n) ltac:(auto with bytes) W2 ltac:(rewrite len_drop; lia) ltac:(lia)) as (x & c3 & -> & Lx & Wx & C3 & V3).
  rewrite (take_all _ t2) in V3 by lia. set (r := splice (lo ++ hi) n x).
  assert (Lr : len r = 4 * n) by (unfold r; rewrite len_splice; lia).
  assert (Er : r = take n (lo ++ hi) ++ x ++ drop (3 * n) (lo ++ hi)) by (unfold r, splice; rewrite Lx; do 3 f_equal; lia).
  assert (Wr : words_ok r) by (rewrite Er; auto 6 with bytes).
  assert (Ev : le_val r + weight (3 * n) * (c2 + c3) = v).
  { rewrite Er, !val_app, Lx, len_take by lia.
    pose proof (val_split n (lo ++ hi) ltac:(lia)) as S1. rewrite (val_app lo), Ll in S1.
    pose proof (val_split (2 * n) (drop n (lo ++ hi)) ltac:(rewrite len_drop; lia)) as S2. rewrite drop_drop in S2 by lia. replace (n + 2 * n) with (3 * n) in S2 by lia.
    replace (3 * n) with (n + 2 * n) at 2 by lia. rewrite weight_add by lia. unfold v. rewrite En in *. nia. }
  assert (Hh : le_val (drop (3 * n) r) + (c2 + c3) < weight (len (drop (3 * n) r))).
  { rewrite len_drop, Lr by lia. replace (4 * n - 3 * n) with n by lia. pose proof (val_split (3 * n) r ltac:(lia)) as S3.
    pose proof (val_range _ (words_ok_take (3 * n) r Wr)) as R3. rewrite len_take in R3 by lia.
    replace (4 * n) with (3 * n + n) in Hv by lia. rewrite weight_add in Hv by lia. pose proof (weight_pos (3 * n) ltac:(lia)). nia. }
  unfold bit_ok in C3. destruct (Z.eqb_spec (c2 + c3) 0) as [E0 | E0].
  - exists r. repeat split; try assumption. rewrite E0 in Ev. lia.
  - replace (n + 2 * n) with (3 * n) by lia. destruct (carry_words_value (c2 + c3) (drop (3 * n) r) ltac:(auto with bytes) ltac:(lia) Hh) as (l & -> & Ll' & Wl' & Vl).
    exists (take (3 * n) r ++ l). rewrite len_app, val_app, len_take, Ll', len_drop, Vl by lia.
    split; [reflexivity | split; [lia | split; [auto with bytes |]]]. rewrite <- Ev, (val_split (3 * n) r) by lia. lia.
Qed.

(** *** The two differences *)

Lemma cmp_part_Z a b cl dl : words_ok a -> words_ok b -> 0 <= cl -> cl + Z.max 0 dl <= len a -> cl + Z.max 0 (- dl) <= len b ->
  (cl = 0 -> 0 < le_val (take (Z.max 0 dl) a) + le_val (take (Z.max 0 (- dl)) b)) ->
  bn_cmp_part_words a b (Z.to_nat cl) dl = Z.sgn (le_val (take (cl + Z.max 0 dl) a) - le_val (take (cl + Z.max 0 (- dl)) b)).
Proof.
  intros Wa Wb Hc La Lb H0. unfold take, len in *. destruct (Z.eq_dec cl 0) as [-> | N].
  - specialize (H0 eq_refl). change (Z.to_nat 0) with 0%nat. rewrite !Z.add_0_l. unfold bn_cmp_part_words.
    destruct (Z.ltb_spec dl 0) as [S | S].
    + destruct (any_high_word b 0 (Z.to_nat (- dl)) Wb ltac:(lia)) as [_ E]. cbn [skipn] in E. rewrite E.
      replace (Z.max 0 dl) with 0 in * by lia. replace (Z.max 0 (- dl)) with (- dl) in * by lia. cbn [Z.to_nat firstn le_val] in *.
      destruct (Z.ltb_spec 0 (le_val (firstn (Z.to_nat (- dl)) b))); [| lia]. cbn [andb]. symmetry. apply Z.sgn_neg. lia.
    + destruct (any_high_word a 0 (Z.to_nat dl) Wa ltac:(lia)) as [_ E]. cbn [skipn] in E. rewrite E. cbn [andb].
      replace (Z.max 0 (- dl)) with 0 in * by lia. replace (Z.max 0 dl) with dl in * by lia. cbn [Z.to_nat firstn le_val] in *.
      destruct (Z.ltb_spec 0 (le_val (firstn (Z.to_nat dl) a))); [| lia]. destruct (Z.ltb_spec 0 dl).
      * cbn [andb]. symmetry. apply Z.sgn_pos. lia.
      * exfalso. replace dl with 0 in * by lia. cbn in *. lia.
  - destruct (Z.ltb_spec dl 0) as [S | S].
    + destruct (cmp_part_words_value a b (Z.to_nat cl) (Z.to_nat (- dl)) Wa Wb ltac:(lia)) as [_ E].
      rewrite Z2Nat.id, Z.opp_involutive in E by lia. rewrite E by lia. do 3 f_equal; f_equal; lia.
    + destruct (cmp_part_words_value a b (Z.to_nat cl) (Z.to_nat dl) Wa Wb ltac:(lia)) as [E _].
      rewrite Z2Nat.id in E by lia. rewrite E by lia. do 3 f_equal; f_equal; lia.
Qed.

(** A difference, which is exact when it is not negative. *)
Lemma difference_value a b cl dl va vb n : words_ok a -> words_ok b -> 0 <= cl -> cl + Z.max 0 dl <= len a -> cl + Z.max 0 (- dl) <= len b ->
  va = le_val (take (cl + Z.max 0 dl) a) -> vb = le_val (take (cl + Z.max 0 (- dl)) b) -> n = cl + Z.abs dl ->
  let r := fst (bn_sub_part_words a b cl dl) in len r = n /\ words_ok r /\ (vb <= va -> le_val r = va - vb).
Proof.
  intros Wa Wb Hc La Lb -> -> ->. destruct (sub_part_value a b cl dl Wa Wb Hc La Lb) as (r & c & -> & L & W & C & V). cbn [fst].
  split; [exact L | split; [exact W |]]. intros Hle. pose proof (val_range r W) as R. rewrite L in R. unfold bit_ok in C. nia.
Qed.

Section Karatsuba.
Variables (a b : list Z) (n tna tnb : Z).
Hypotheses (Wa : words_ok a) (Wb : words_ok b) (Hn : 0 < n) (Ha : 0 <= tna <= n) (Hb : 0 <= tnb <= n)
  (La : n + tna <= len a) (Lb : n + tnb <= len b)
  (Za : tna = 0 -> 0 < le_val (take n a)) (Zb : tnb = 0 -> 0 < le_val (take n b)).

Let A0 := le_val (take n a).
Let A1 := le_val (take tna (drop n a)).
Let B0 := le_val (take n b).
Let B1 := le_val (take tnb (drop n b)).

Lemma cmp_halves : bn_cmp_part_words a (drop n a) (Z.to_nat tna) (n - tna) = Z.sgn (A0 - A1) /\
  bn_cmp_part_words (drop n b) b (Z.to_nat tnb) (tnb - n) = Z.sgn (B1 - B0).
Proof.
  split.
  - rewrite cmp_part_Z; try (auto with bytes); try (rewrite ?len_drop; lia).
    + replace (tna + Z.max 0 (n - tna)) with n by lia. replace (tna + Z.max 0 (- (n - tna))) with tna by lia. reflexivity.
    + intros E. replace (Z.max 0 (n - tna)) with n by lia. replace (Z.max 0 (- (n - tna))) with 0 by lia.
      rewrite take_0. cbn [le_val]. specialize (Za E). lia.
  - rewrite cmp_part_Z; try (auto with bytes); try (rewrite ?len_drop; lia).
    + replace (tnb + Z.max 0 (tnb - n)) with tnb by lia. replace (tnb + Z.max 0 (- (tnb - n))) with n by lia. reflexivity.
    + intros E. replace (Z.max 0 (- (tnb - n))) with n by lia. replace (Z.max 0 (tnb - n)) with 0 by lia.
      rewrite take_0. cbn [le_val]. specialize (Zb E). lia.
Qed.

Definition is_difference (x : list Z) (u v : Z) : Prop := len x = n /\ words_ok x /\ (v <= u -> le_val x = u - v).

Lemma half_differences :
  is_difference (fst (bn_sub_part_words (drop n a) a tna (tna - n))) A1 A0 /\
  is_difference (fst (bn_sub_part_words a (drop n a) tna (n - tna))) A0 A1 /\
  is_difference (fst (bn_sub_part_words b (drop n b) tnb (n - tnb))) B0 B1 /\
  is_difference (fst (bn_sub_part_words (drop n b) b tnb (tnb - n))) B1 B0.
Proof.
  assert (0 <= n <= len a) by lia. assert (0 <= n <= len b) by lia.
  split; [| split; [| split]]; apply difference_value; try (auto with bytes); try (rewrite ?len_drop; lia);
    unfold A0, A1, B0, B1; do 2 f_equal; lia.
Qed.

Lemma differences_value :
  match differences a b n tna tnb with
  | Some (x, y, neg) => len x = n /\ len y = n /\ words_ok x /\ words_ok y /\
      (if neg then - (le_val x * le_val y) else le_val x * le_val y) = (A0 - A1) * (B1 - B0)
  | None => (A0 - A1) * (B1 - B0) = 0
  end.
Proof.
  destruct half_differences as ((L1 & W1 & V1) & (L2 & W2 & V2) & (L3 & W3 & V3) & (L4 & W4 & V4)).
  destruct cmp_halves as [E1 E2]. unfold differences. rewrite E1, E2. clear E1 E2.
  destruct (Z.sgn_spec (A0 - A1)) as [(Ha' & ->) | [(Ha' & ->) | (Ha' & ->)]];
  destruct (Z.sgn_spec (B1 - B0)) as [(Hb' & ->) | [(Hb' & ->) | (Hb' & ->)]]; cbn [Z.mul Z.add Z.eqb Z.opp Pos.mul Pos.add Z.pos_sub Pos.eqb Pos.pred_double Z.pred_double];
    try nia; (split; [assumption | split; [assumption | split; [assumption | split; [assumption | nia]]]]).
Qed.

Lemma part_differences_value :
  let '(x, y, neg) := part_differences a b n tna tnb in
  len x = n /\ len y = n /\ words_ok x /\ words_ok y /\
  (if neg then - (le_val x * le_val y) else le_val x * le_val y) = (A0 - A1) * (B1 - B0).
Proof.
  destruct half_differences as ((L1 & W1 & V1) & (L2 & W2 & V2) & (L3 & W3 & V3) & (L4 & W4 & V4)).
  destruct cmp_halves as [E1 E2]. unfold part_differences. rewrite E1, E2. clear E1 E2.
  destruct (Z.sgn_spec (A0 - A1)) as [(Ha' & ->) | [(Ha' & ->) | (Ha' & ->)]];
  destruct (Z.sgn_spec (B1 - B0)) as [(Hb' & ->) | [(Hb' & ->) | (Hb' & ->)]]; cbn [Z.mul Z.add Z.eqb Z.opp Pos.mul Pos.add Z.pos_sub Pos.eqb Pos.pred_double Z.pred_double orb];
    (split; [assumption | split; [assumption | split; [assumption | split; [assumption | nia]]]]).
Qed.

Lemma whole_value : le_val (take (n + tna) a) = A0 + weight n * A1 /\ le_val (take (n + tnb) b) = B0 + weight n * B1.
Proof. clear Za Zb. rewrite !take_plus by lia. rewrite !val_app, !len_take by lia. split; reflexivity. Qed.

Lemma karatsuba_value lo hi mid (neg : bool) : words_ok lo -> words_ok hi -> words_ok mid ->
  len lo = 2 * n -> len hi = 2 * n -> len mid = 2 * n -> le_val lo = A0 * B0 -> le_val hi = A1 * B1 ->
  (if neg then - le_val mid else le_val mid) = (A0 - A1) * (B1 - B0) ->
  exists r, recombine n (lo ++ hi) mid neg = Some r /\ len r = 4 * n /\ words_ok r /\
    le_val r = le_val (take (n + tna) a) * le_val (take (n + tnb) b).
Proof.
  clear Za Zb. intros Wl Wh Wm Ll Lh Lm Vl Vh Vm. destruct whole_value as [-> ->].
  pose proof (val_range _ (words_ok_take n a Wa)) as R1. rewrite len_take in R1 by lia.
  pose proof (val_range _ (words_ok_take n b Wb)) as R2. rewrite len_take in R2 by lia.
  pose proof (val_range _ (words_ok_take tna _ (words_ok_drop n a Wa))) as R3. rewrite len_take in R3 by (rewrite len_drop; lia).
  pose proof (val_range _ (words_ok_take tnb _ (words_ok_drop n b Wb))) as R4. rewrite len_take in R4 by (rewrite len_drop; lia).
  fold A0 in R1. fold B0 in R2. fold A1 in R3. fold B1 in R4.
  assert (weight tna <= weight n) by (apply Z.pow_le_mono_r; lia). assert (weight tnb <= weight n) by (apply Z.pow_le_mono_r; lia).
  assert (E2 : weight (2 * n) = weight n * weight n) by (rewrite <- weight_add by lia; f_equal; lia).
  assert (E4 : weight (4 * n) = weight (2 * n) * weight (2 * n)) by (rewrite <- weight_add by lia; f_equal; lia).
  assert (Em : le_val lo + le_val hi + (if neg then - le_val mid else le_val mid) = A0 * B1 + A1 * B0) by (rewrite Vm, Vl, Vh; ring).
  assert (Ev : le_val lo + weight n * (A0 * B1 + A1 * B0) + weight (2 * n) * le_val hi = (A0 + weight n * A1) * (B0 + weight n * B1)) by (rewrite Vl, Vh, E2; ring).
  destruct (recombine_value n lo hi mid neg Hn Wl Wh Wm Ll Lh Lm) as (r & Er & Lr & Wr & Vr).
  - rewrite Em. nia.
  - rewrite Em, Ev, E4, E2. assert (0 <= A0 + weight n * A1 < weight n * weight n) by nia. assert (0 <= B0 + weight n * B1 < weight n * weight n) by nia. nia.
  - exists r. split; [exact Er | split; [exact Lr | split; [exact Wr |]]]. rewrite Vr, Em. exact Ev.
Qed.
End Karatsuba.

(** *** Karatsuba *)

Lemma pow2_half k : Z.pow 2 (Z.of_nat (S k)) / 2 = 2 ^ Z.of_nat k /\ 2 ^ Z.of_nat (S k) = 2 * 2 ^ Z.of_nat k /\ 0 < 2 ^ Z.of_nat k.
Proof.
  rewrite Nat2Z.inj_succ, Z.pow_succ_r by lia. rewrite Z.mul_comm, Z.div_mul by lia. split; [reflexivity | split; [lia |]].
  apply Z.pow_pos_nonneg; lia.
Qed.

(** A product of the words of [a] and [b] in [size] words. *)
Definition is_product (res : option (list Z)) (size va vb : Z) : Prop :=
  exists r, res = Some r /\ len r = size /\ words_ok r /\ le_val r = va * vb.

Lemma normal_product a na b nb : words_ok a -> words_ok b -> 0 <= na <= len a -> 0 <= nb <= len b ->
  is_product (Some (bn_mul_normal a na b nb)) (na + nb) (le_val (take na a)) (le_val (take nb b)).
Proof.
  intros Wa Wb La Lb. destruct (normal_value a na b nb Wa Wb La Lb) as (L & W & V). eexists. split; [reflexivity |]. now repeat split.
Qed.

Lemma product_zeros r size va vb k : 0 <= k -> is_product (Some r) size va vb -> is_product (Some (r ++ zero_words k)) (size + k) va vb.
Proof.
  intros Hk (r' & [= <-] & L & W & V). exists (r ++ zero_words k). split; [reflexivity |]. rewrite len_app, len_zero, val_app, val_zero by lia.
  split; [lia | split; [auto with bytes | lia]].
Qed.

(** The words of a product beyond those of its factors are zero. *)
Lemma product_take r size va vb k : 0 <= k <= size -> 0 <= va * vb < weight k -> is_product (Some r) size va vb -> is_product (Some (take k r)) k va vb.
Proof.
  intros Hk Hv (r' & [= <-] & L & W & V). exists (take k r). rewrite len_take by lia. split; [reflexivity | split; [reflexivity | split; [auto with bytes |]]].
  rewrite (val_split k r) in V by lia. pose proof (val_range _ (words_ok_take k r W)) as R. rewrite len_take in R by lia.
  pose proof (val_range _ (words_ok_drop k r W)) as R'. pose proof (weight_pos k ltac:(lia)).
  assert (le_val (drop k r) < 1) by (apply (Z.mul_lt_mono_pos_l (weight k)); lia). replace (le_val (drop k r)) with 0 in V by lia. lia.
Qed.

Lemma comba8_product a b : words_ok a -> words_ok b -> 8 <= len a -> 8 <= len b ->
  is_product (Some (bn_mul_comba8 a b)) 16 (le_val (take 8 a)) (le_val (take 8 b)).
Proof.
  intros Wa Wb La Lb. destruct (comba8_value a b Wa Wb La Lb) as (L & W & V). eexists. split; [reflexivity |]. now repeat split.
Qed.

(** A power of two, down to the size where the recursion ends. *)
Definition pow2_size (k : nat) (n : Z) : Prop := n = 2 ^ Z.of_nat k /\ 8 <= n.

Lemma pow2_size_half k n : pow2_size k n -> n <> 8 -> exists k' n', k = S k' /\ pow2_size k' n' /\ n = 2 * n' /\ n / 2 = n'.
Proof.
  intros [E H] N. destruct k as [| k]; [cbn in E; lia |]. destruct (pow2_half k) as (Eh & E2 & Pn). exists k, (2 ^ Z.of_nat k).
  split; [reflexivity |]. rewrite E, Eh. split; [| split; [exact E2 | reflexivity]]. split; [reflexivity |].
  destruct (Nat.le_gt_cases 3 k) as [L | L]; [change 8 with (2 ^ 3); apply Z.pow_le_mono_r; lia |].
  exfalso. apply N. destruct k as [| [| [| k]]]; cbn in *; lia.
Qed.

(** The small cases of the recursion. *)
Lemma mul_8_product a b dna dnb : words_ok a -> words_ok b -> -8 < dna <= 0 -> -8 < dnb <= 0 -> 8 + dna <= len a -> 8 + dnb <= len b ->
  is_product
    (if (dna =? 0) && (dnb =? 0) then Some (bn_mul_comba8 a b) else
     let r := bn_mul_normal a (8 + dna) b (8 + dnb) in Some (if dna + dnb <? 0 then r ++ zero_words (- (dna + dnb)) else r))
    16 (le_val (take (8 + dna) a)) (le_val (take (8 + dnb) b)).
Proof.
  intros Wa Wb Hda Hdb La Lb. pose proof (normal_product a (8 + dna) b (8 + dnb) Wa Wb ltac:(lia) ltac:(lia)) as P.
  destruct (Z.eqb_spec dna 0) as [-> | Na]; [destruct (Z.eqb_spec dnb 0) as [-> | Nb] |]; cbn [andb]; [apply comba8_product; (assumption || lia) | |];
    cbv zeta; (destruct (Z.ltb_spec (dna + dnb) 0) || destruct (Z.ltb_spec (0 + dnb) 0)); try lia.
  - replace 16 with (8 + 0 + (8 + dnb) + - (0 + dnb)) by lia. apply product_zeros; [lia | exact P].
  - replace 16 with (8 + dna + (8 + dnb) + - (dna + dnb)) by lia. apply product_zeros; [lia | exact P].
Qed.

(** The three products of a level, and what becomes of them. *)
Lemma level_exact a b n tna tnb d lo hi mid neg : words_ok a -> words_ok b -> 0 < n -> 0 <= tna <= n -> 0 <= tnb <= n ->
  n + tna <= len a -> n + tnb <= len b ->
  is_product lo (2 * n) (le_val (take n a)) (le_val (take n b)) ->
  is_product hi (2 * n) (le_val (take tna (drop n a))) (le_val (take tnb (drop n b))) ->
  (exists m, mid = Some m /\ len m = 2 * n /\ words_ok m /\ le_val m = d) ->
  (if neg : bool then - d else d) = (le_val (take n a) - le_val (take tna (drop n a))) * (le_val (take tnb (drop n b)) - le_val (take n b)) ->
  is_product (let* m := mid in let* l := lo in let* h := hi in recombine n (l ++ h) m neg)
    (4 * n) (le_val (take (n + tna) a)) (le_val (take (n + tnb) b)).
Proof.
  intros Wa Wb Hn Ha Hb La Lb (l & -> & Ll & Wl & Vl) (h & -> & Lh & Wh & Vh) (m & -> & Lm & Wm & Vm) Hd. rewrite <- Vm in Hd.
  exact (karatsuba_value a b n tna tnb Wa Wb Hn Ha Hb La Lb l h m neg Wl Wh Wm Ll Lh Lm Vl Vh Hd).
Qed.

Lemma level_product a b n tna tnb d lo hi mid neg : words_ok a -> words_ok b -> 0 < n -> 0 <= tna <= n -> 0 <= tnb <= n ->
  n + tna <= len a -> n + tnb <= len b ->
  is_product lo (2 * n) (le_val (take n a)) (le_val (take n b)) ->
  is_product hi (2 * n) (le_val (take tna (drop n a))) (le_val (take tnb (drop n b))) ->
  (exists m, mid = Some m /\ len m = 2 * n /\ words_ok m /\ le_val m = d) ->
  (if neg : bool then - d else d) = (le_val (take n a) - le_val (take tna (drop n a))) * (le_val (take tnb (drop n b)) - le_val (take n b)) ->
  is_product (let* p := (let* m := mid in let* l := lo in let* h := hi in Some (l, h, m)) in let '(l, h, m) := p in recombine n (l ++ h) m neg)
    (4 * n) (le_val (take (n + tna) a)) (le_val (take (n + tnb) b)).
Proof.
  intros Wa Wb Hn Ha Hb La Lb Hl Hh Hm Hd. generalize (level_exact a b n tna tnb d lo hi mid neg Wa Wb Hn Ha Hb La Lb Hl Hh Hm Hd).
  destruct mid, lo, hi; exact (fun H => H).
Qed.

Lemma mul_recursive_product fuel : forall k n2 a b dna dnb tsize, (k < fuel)%nat -> pow2_size k n2 ->
  words_ok a -> words_ok b -> -8 < dna <= 0 -> -8 < dnb <= 0 -> n2 + dna <= len a -> n2 + dnb <= len b -> 4 * n2 <= tsize ->
  is_product (bn_mul_recursive fuel a b n2 dna dnb tsize) (2 * n2) (le_val (take (n2 + dna) a)) (le_val (take (n2 + dnb) b)).
Proof.
  induction fuel as [| fuel IH]; intros k n2 a b dna dnb tsize Hk Hp Wa Wb Hda Hdb La Lb Ht; [lia |]. cbn [bn_mul_recursive].
  destruct (Z.eqb_spec n2 8) as [-> | N8]; cbn [andb]; [exact (mul_8_product a b dna dnb Wa Wb Hda Hdb La Lb) |].
  destruct (pow2_size_half k n2 Hp N8) as (k' & n & -> & Hp' & -> & ->). pose proof (proj2 Hp') as H8.
  unfold BN_MUL_RECURSIVE_SIZE_NORMAL. destruct (Z.ltb_spec (2 * n) 16); [lia |]. destruct (Z.leb_spec (2 * (2 * n)) tsize); [| lia].
  replace (2 * (2 * n)) with (4 * n) by lia. destruct (Z.eqb_spec n 4); [lia |]. cbn [andb].
  replace (2 * n + dna) with (n + (n + dna)) in * by lia. replace (2 * n + dnb) with (n + (n + dnb)) in * by lia.
  pose proof (differences_value a b n (n + dna) (n + dnb) Wa Wb ltac:(lia) ltac:(lia) ltac:(lia) ltac:(lia) ltac:(lia) ltac:(lia) ltac:(lia)) as D.
  assert (R : forall x y, words_ok x -> words_ok y -> n <= len x -> n <= len y ->
    is_product (bn_mul_recursive fuel x y n 0 0 (tsize - 4 * n)) (2 * n) (le_val (take n x)) (le_val (take n y))).
  { intros x y Wx Wy Lx Ly. pose proof (IH k' n x y 0 0 (tsize - 4 * n) ltac:(lia) Hp' Wx Wy ltac:(lia) ltac:(lia) ltac:(lia) ltac:(lia) ltac:(lia)) as P.
    now rewrite !Z.add_0_r in P. }
  assert (S : forall (F : list Z -> list Z -> option (list Z)) lo hi,
    (forall x y, words_ok x -> words_ok y -> len x = n -> len y = n -> is_product (F x y) (2 * n) (le_val x) (le_val y)) ->
    is_product lo (2 * n) (le_val (take n a)) (le_val (take n b)) ->
    is_product hi (2 * n) (le_val (take (n + dna) (drop n a))) (le_val (take (n + dnb) (drop n b))) ->
    is_product
      (let* p := (let* m := match differences a b n (n + dna) (n + dnb) with Some (x, y, _) => F x y | None => Some (zero_words (2 * n)) end in
                  let* l := lo in let* h := hi in Some (l, h, m)) in
       let '(l, h, m) := p in recombine n (l ++ h) m match differences a b n (n + dna) (n + dnb) with Some (_, _, neg) => neg | None => false end)
      (4 * n) (le_val (take (n + (n + dna)) a)) (le_val (take (n + (n + dnb)) b))).
  { intros F lo hi HF Hlo Hhi. destruct (differences a b n (n + dna) (n + dnb)) as [[[x y] neg] |].
    - destruct D as (Lx & Ly & Wx & Wy & Vd). apply (level_product a b n (n + dna) (n + dnb) (le_val x * le_val y) lo hi (F x y) neg); try assumption; try lia. now apply HF.
    - apply (level_product a b n (n + dna) (n + dnb) 0 lo hi (Some (zero_words (2 * n))) false); try assumption; try lia.
      exists (zero_words (2 * n)). rewrite len_zero, val_zero by lia. repeat split. apply words_ok_zero. }
  destruct ((n =? 8) && (dna =? 0) && (dnb =? 0)) eqn:E8.
  - apply andb_prop in E8. destruct E8 as [E8 Eb]. apply andb_prop in E8. destruct E8 as [E8 Ea].
    apply Z.eqb_eq in E8, Ea, Eb. subst n dna dnb. rewrite !Z.add_0_r in *.
    apply (S (fun x y => Some (bn_mul_comba8 x y)) (Some _) (Some _)).
    + intros x y Wx Wy Lx Ly. pose proof (comba8_product x y Wx Wy ltac:(lia) ltac:(lia)) as P. now rewrite !take_all in P by lia.
    + apply comba8_product; (assumption || lia).
    + apply comba8_product; (auto with bytes || (rewrite len_drop; lia)).
  - apply S.
    + intros x y Wx Wy Lx Ly. pose proof (R x y Wx Wy ltac:(lia) ltac:(lia)) as P. now rewrite !take_all in P by lia.
    + apply R; (assumption || lia).
    + apply (IH k'); (auto with bytes || (rewrite ?len_drop; lia)).
Qed.

Lemma nonzero_top n a : words_ok a -> 0 < n <= len a -> get a (n - 1) <> 0 -> 0 < le_val (take n a).
Proof.
  intros Wa Hn H. replace n with (n - 1 + 1) by lia. rewrite take_succ, val_app, len_take by lia. cbn [le_val].
  pose proof (val_range _ (words_ok_take (n - 1) a Wa)). pose proof (word_get a (n - 1) Wa) as W. pose proof (weight_pos (n - 1) ltac:(lia)). unfold word_ok in W. nia.
Qed.

Lemma splice_zeros m r : len r <= m -> splice (zero_words m) 0 r = r ++ zero_words (m - len r).
Proof.
  intros H. pose proof (len_nonneg r). unfold splice. rewrite take_0, Z.add_0_l. cbn [app]. f_equal. unfold zero_words.
  unfold drop. rewrite skipn_repeat. f_equal. lia.
Qed.

Lemma product_spliced res size va vb m : size <= m -> is_product res size va vb ->
  is_product (let* h := res in Some (splice (zero_words m) 0 h)) m va vb.
Proof.
  intros Hm P. pose proof P as (h & -> & L & _). rewrite splice_zeros by lia. replace m with (size + (m - size)) at 2 by lia.
  rewrite L. apply product_zeros; [lia | exact P].
Qed.

(** The half at which a level can take over. *)
Lemma halve_value fuel : forall k i tna tnb, (k < fuel)%nat -> pow2_size k i -> 16 <= Z.max tna tnb < i ->
  exists part k' i', halve fuel i tna tnb = Some (part, i') /\ pow2_size k' i' /\ (k' < k)%nat /\ 2 * i' <= i /\
    (if part : bool then i' < Z.max tna tnb < 2 * i' else i' = Z.max tna tnb).
Proof.
  induction fuel as [| fuel IH]; intros k i tna tnb Hk Hp Hm; [lia |]. cbn [halve].
  destruct (pow2_size_half k i Hp ltac:(lia)) as (k' & n & -> & Hp' & -> & ->).
  destruct ((n <? tna) || (n <? tnb)) eqn:E1.
  { exists true, k', n. apply orb_prop in E1. rewrite !Z.ltb_lt in E1. repeat split; try apply Hp'; try lia. }
  apply orb_false_elim in E1. rewrite !Z.ltb_ge in E1. destruct ((n =? tna) || (n =? tnb)) eqn:E2.
  { exists false, k', n. apply orb_prop in E2. rewrite !Z.eqb_eq in E2. repeat split; try apply Hp'; lia. }
  apply orb_false_elim in E2. rewrite !Z.eqb_neq in E2.
  destruct (IH k' n tna tnb ltac:(lia) Hp' ltac:(lia)) as (part & k2 & i' & E & Hp2 & Hk2 & Hi & X).
  exists part, k2, i'. repeat split; try assumption; try apply Hp2; lia.
Qed.

(** What a part of size [n] is given: nearly equal lengths, the last words not
    zero. *)
Record part_args (a b : list Z) (n tna tnb : Z) : Prop := {
  part_a : words_ok a;
  part_b : words_ok b;
  part_near : Z.abs (tna - tnb) <= 1;
  part_na : 0 <= tna <= n;
  part_nb : 0 <= tnb <= n;
  part_la : n + tna <= len a;
  part_lb : n + tnb <= len b;
  part_za : get a (n + tna - 1) <> 0;
  part_zb : get b (n + tnb - 1) <> 0
}.

Lemma part_halves a b n tna tnb i : part_args a b n tna tnb -> 0 < i -> i <= Z.max tna tnb <= 2 * i -> 0 <= tna - i -> 0 <= tnb - i ->
  part_args (drop n a) (drop n b) i (tna - i) (tnb - i).
Proof.
  intros [Wa Wb Hn Ha Hb La Lb Za Zb] Hi Hm H1 H2. constructor; try (auto with bytes); try lia; try (rewrite len_drop; lia); rewrite get_drop by lia.
  - replace (n + (i + (tna - i) - 1)) with (n + tna - 1) by lia. exact Za.
  - replace (n + (i + (tnb - i) - 1)) with (n + tnb - 1) by lia. exact Zb.
Qed.

Definition part_product (fuel : nat) : Prop := forall k n a b tna tnb tsize, (S k < fuel)%nat -> pow2_size k n -> part_args a b n tna tnb ->
  tna < n -> tnb < n -> 8 * n <= tsize ->
  is_product (bn_mul_part_recursive fuel a b n tna tnb tsize) (4 * n) (le_val (take (n + tna) a)) (le_val (take (n + tnb) b)).

Lemma part_high_product fuel k n a b tna tnb p : part_product fuel -> (S k < fuel)%nat -> pow2_size (S k) n -> n <> 8 -> part_args a b n tna tnb ->
  tna < n -> tnb < n -> 4 * n <= p ->
  is_product (part_high (bn_mul_part_recursive fuel) fuel (drop n a) (drop n b) n tna tnb p) (2 * n) (le_val (take tna (drop n a))) (le_val (take tnb (drop n b))).
Proof.
  intros IH Hk Hp N8 A Hna Hnb Ht. pose proof A as [Wa Wb Hn Ha Hb La Lb Za Zb].
  destruct (pow2_size_half (S k) n Hp N8) as (k' & i & [= <-] & Hp' & En & Eh). pose proof (proj2 Hp') as H8.
  set (a1 := drop n a). set (b1 := drop n b). assert (Wa1 : words_ok a1) by (apply words_ok_drop; exact Wa). assert (Wb1 : words_ok b1) by (apply words_ok_drop; exact Wb).
  assert (La1 : tna <= len a1) by (unfold a1; rewrite len_drop; lia). assert (Lb1 : tnb <= len b1) by (unfold b1; rewrite len_drop; lia).
  assert (Rec : forall k' i', (k' < fuel)%nat -> pow2_size k' i' -> 4 * i' <= p -> i' = Z.max tna tnb ->
    is_product (bn_mul_recursive fuel a1 b1 i' (tna - i') (tnb - i') p) (2 * i') (le_val (take tna a1)) (le_val (take tnb b1))).
  { intros k2 i' Hk2 Hp2 Hi2 Hm. pose proof (mul_recursive_product fuel k2 i' a1 b1 (tna - i') (tnb - i') p Hk2 Hp2 Wa1 Wb1 ltac:(lia) ltac:(lia) ltac:(lia) ltac:(lia) Hi2) as P.
    replace (i' + (tna - i')) with tna in P by lia. replace (i' + (tnb - i')) with tnb in P by lia. exact P. }
  assert (Part : forall k' i', (S k' < fuel)%nat -> pow2_size k' i' -> 8 * i' <= p -> i' < Z.max tna tnb < 2 * i' ->
    is_product (bn_mul_part_recursive fuel a1 b1 i' (tna - i') (tnb - i') p) (4 * i') (le_val (take tna a1)) (le_val (take tnb b1))).
  { intros k2 i' Hk2 Hp2 Hi2 Hm. pose proof (IH k2 i' a1 b1 (tna - i') (tnb - i') p Hk2 Hp2 (part_halves a b n tna tnb i' A ltac:(lia) ltac:(lia) ltac:(lia) ltac:(lia)) ltac:(lia) ltac:(lia) Hi2) as P.
    replace (i' + (tna - i')) with tna in P by lia. replace (i' + (tnb - i')) with tnb in P by lia. exact P. }
  assert (Hv : 0 <= le_val (take tna a1) * le_val (take tnb b1) < weight (tna + tnb)).
  { rewrite weight_add by lia. pose proof (val_range _ (words_ok_take tna a1 Wa1)) as R1. pose proof (val_range _ (words_ok_take tnb b1 Wb1)) as R2.
    rewrite len_take in R1, R2 by lia. nia. }
  unfold part_high. rewrite Eh. set (j := if tnb <? tna then tna - i else tnb - i). assert (Ej : j = Z.max tna tnb - i) by (unfold j; destruct (Z.ltb_spec tnb tna); lia).
  clearbody j. destruct (Z.eqb_spec j 0) as [J | J]; [| destruct (Z.ltb_spec 0 j) as [J' | J']].
  - pose proof (Rec k i ltac:(lia) Hp' ltac:(lia) ltac:(lia)) as P. pose proof P as (h & E & L & _). rewrite E in *. rewrite take_all by lia.
    replace (2 * n) with (2 * i + (n * 2 - i * 2)) by lia. apply product_zeros; [lia | exact P].
  - pose proof (Part k i Hk Hp' ltac:(lia) ltac:(lia)) as P. pose proof P as (h & E & L & _). rewrite E in *.
    replace (2 * n) with (tna + tnb + (n * 2 - tna - tnb)) by lia. apply product_zeros; [lia |]. apply product_take with (size := 4 * i); [lia | exact Hv | exact P].
  - unfold BN_MUL_RECURSIVE_SIZE_NORMAL. replace (n * 2) with (2 * n) by lia. destruct ((tna <? 16) && (tnb <? 16)) eqn:E16.
    + apply (product_spliced (Some (bn_mul_normal a1 tna b1 tnb)) (tna + tnb)); [lia |]. apply normal_product; (assumption || lia).
    + apply andb_false_iff in E16. rewrite !Z.ltb_ge in E16.
      destruct (halve_value fuel k i tna tnb ltac:(lia) Hp' ltac:(lia)) as (part & k2 & i' & -> & Hp2 & Hk2 & Hi & X). destruct part.
      * apply (product_spliced _ (4 * i')); [lia |]. apply (Part k2); (assumption || lia).
      * apply (product_spliced _ (2 * i')); [lia |]. apply (Rec k2); (assumption || lia).
Qed.

Lemma mul_part_product fuel : part_product fuel.
Proof.
  induction fuel as [| fuel IH]; intros k n a b tna tnb tsize Hk Hp A Hna Hnb Ht; [lia |]. pose proof A as [Wa Wb Hn Ha Hb La Lb Za Zb].
  pose proof (proj2 Hp) as H8. cbn [bn_mul_part_recursive]. destruct (Z.ltb_spec n 8); [lia |]. replace (2 * (n * 2)) with (4 * n) by lia. destruct (Z.leb_spec (4 * n) tsize); [| lia].
  assert (Z0 : (tna = 0 -> 0 < le_val (take n a)) /\ (tnb = 0 -> 0 < le_val (take n b))).
  { split; intros E; rewrite E, Z.add_0_r in *; apply nonzero_top; (assumption || lia). }
  pose proof (part_differences_value a b n tna tnb Wa Wb ltac:(lia) ltac:(lia) ltac:(lia) La Lb (proj1 Z0) (proj2 Z0)) as D.
  destruct (part_differences a b n tna tnb) as [[x y] neg]. destruct D as (Lx & Ly & Wx & Wy & Vd). destruct (Z.eqb_spec n 8) as [-> | N8].
  - apply (level_product a b 8 tna tnb (le_val x * le_val y) (Some (bn_mul_comba8 a b)) (Some (bn_mul_normal (drop 8 a) tna (drop 8 b) tnb ++ zero_words (8 * 2 - tna - tnb))) (Some (bn_mul_comba8 x y)) neg);
      try assumption; try lia.
    + apply comba8_product; (assumption || lia).
    + replace (2 * 8) with (tna + tnb + (8 * 2 - tna - tnb)) by lia. apply product_zeros; [lia |]. apply normal_product; (auto with bytes || (rewrite len_drop; lia)).
    + pose proof (comba8_product x y Wx Wy ltac:(lia) ltac:(lia)) as P. rewrite !take_all in P by lia. exact P.
  - destruct (pow2_size_half k n Hp N8) as (k' & i & -> & _).
    assert (R : forall x y, words_ok x -> words_ok y -> n <= len x -> n <= len y ->
      is_product (bn_mul_recursive fuel x y n 0 0 (tsize - 4 * n)) (2 * n) (le_val (take n x)) (le_val (take n y))).
    { intros u v Wu Wv Lu Lv. pose proof (mul_recursive_product fuel (S k') n u v 0 0 (tsize - 4 * n)) as P. rewrite !Z.add_0_r in P. apply P; (assumption || lia). }
    apply (level_product a b n tna tnb (le_val x * le_val y) (bn_mul_recursive fuel a b n 0 0 (tsize - 4 * n))
      (part_high (bn_mul_part_recursive fuel) fuel (drop n a) (drop n b) n tna tnb (tsize - 4 * n)) (bn_mul_recursive fuel x y n 0 0 (tsize - 4 * n)) neg); try assumption; try lia.
    + apply R; (assumption || lia).
    + apply (part_high_product fuel k'); (assumption || lia).
    + pose proof (R x y Wx Wy ltac:(lia) ltac:(lia)) as P. rewrite !take_all in P by lia. exact P.
Qed.

(** *** Squares *)

(** The products of different words, each once. *)
Fixpoint cross (l : list Z) : Z := match l with [] => 0 | w :: l => w * le_val l + 2 ^ 128 * cross l end.

Lemma square_split l : le_val l * le_val l = sqr_val l + 2 * (2 ^ 64 * cross l).
Proof. induction l as [| w l IH]; [reflexivity |]. cbn [le_val sqr_val cross]. change (2 ^ 128) with (2 ^ 64 * 2 ^ 64). nia. Qed.

Lemma cross_nonneg l : words_ok l -> 0 <= cross l.
Proof.
  induction 1 as [| w l Hw Hl IH]; cbn [cross]; [lia |]. pose proof (val_range l Hl). unfold word_ok in Hw.
  pose proof (Z.mul_nonneg_nonneg w (le_val l)). lia.
Qed.

Lemma sqr_val_nonneg l : 0 <= sqr_val l.
Proof. induction l as [| w l IH]; cbn [sqr_val]; [lia |]. pose proof (Z.square_nonneg w). lia. Qed.

Lemma sqr_rows_value ap : forall r k, words_ok ap -> words_ok r -> 0 < len ap -> 0 <= k -> (k = 0 -> len r = 1) -> (0 < k -> len r = 2 * k + len ap) ->
  let r' := sqr_rows r k ap in
  len r' = 2 * k + 2 * len ap - 1 /\ words_ok r' /\ le_val r' = le_val r + weight (2 * k + 1) * cross ap.
Proof.
  induction ap as [| w ap IH]; intros r k Wa Wr Hl Hk H0 H1; [cbn in Hl; lia |]. inversion_clear Wa as [| ? ? Hw Wa'].
  cbv zeta. cbn [sqr_rows cross]. rewrite len_cons in *. pose proof (len_nonneg ap). destruct (Z.eqb_spec (len ap) 0) as [E | N].
  { destruct ap as [| x ap]; [| rewrite len_cons in E; pose proof (len_nonneg ap); lia]. cbn [le_val cross]. rewrite len_nil in *. repeat split; [| exact Wr |]; [destruct (Z.eq_dec k 0) |]; lia. }
  assert (R : exists ws c, (if k =? 0 then bn_mul_words ap (length ap) w else bn_mul_add_words (drop (1 + 2 * k) r) ap (length ap) w) = (ws, c) /\
    len ws = len ap /\ words_ok ws /\ word_ok c /\
    le_val (take (1 + 2 * k) r) + weight (1 + 2 * k) * (le_val ws + weight (len ap) * c) = le_val r + weight (1 + 2 * k) * (w * le_val ap) /\ 1 + 2 * k <= len r).
  { replace (length ap) with (Z.to_nat (len ap)) by (unfold len; lia). destruct (Z.eqb_spec k 0) as [-> | Nk].
    - destruct (mul_words_Z ap (len ap) w Wa' ltac:(lia) Hw) as (ws & c & -> & L & W & C & V). exists ws, c.
      rewrite take_all in * by (rewrite ?H0; lia). repeat split; try assumption; try apply C; [rewrite V | rewrite H0 by lia; lia]. reflexivity.
    - specialize (H1 ltac:(lia)).
      destruct (mul_add_words_Z ap (drop (1 + 2 * k) r) (len ap) Wa' ltac:(auto with bytes) ltac:(lia) ltac:(rewrite len_drop; lia) w Hw) as (ws & c & -> & L & W & C & V). exists ws, c.
      rewrite (take_all _ ap), (take_all _ (drop _ r)) in V by (rewrite ?len_drop; lia).
      rewrite (val_split (1 + 2 * k) r) by lia. repeat split; try assumption; try apply C; [rewrite V; ring | lia]. }
  destruct R as (ws & c & -> & L & W & C & V & Lr).
  destruct (IH (take (1 + 2 * k) r ++ ws ++ [c]) (k + 1) Wa') as (L' & W' & V'); try lia.
  - auto with bytes.
  - intros _. rewrite !len_app, len_take, len_cons, len_nil by lia. lia.
  - split; [lia | split; [exact W' |]]. rewrite V', !val_app, len_take, L by lia. cbn [le_val].
    replace (2 * (k + 1) + 1) with (1 + 2 * k + 2) by lia. replace (2 * k + 1) with (1 + 2 * k) by lia.
    rewrite (weight_add (1 + 2 * k) 2) by lia. change (weight 2) with (2 ^ 128). revert V. generalize (weight (1 + 2 * k)) (2 ^ 128). intros. rewrite Z.mul_add_distr_l, <- Z.add_assoc. lia.
Qed.

Lemma sqr_normal_product a n : words_ok a -> 0 < n <= len a -> is_product (Some (bn_sqr_normal a n)) (2 * n) (le_val (take n a)) (le_val (take n a)).
Proof.
  intros Wa Hn. unfold bn_sqr_normal. pose proof (words_ok_take n a Wa) as Wt. assert (Lt : len (take n a) = n) by (apply len_take; lia).
  destruct (sqr_rows_value (take n a) [0] 0 Wt ltac:(apply words_ok_1; unfold word_ok; lia) ltac:(lia) ltac:(lia) ltac:(intros; reflexivity) ltac:(lia)) as (L & W & V).
  set (r := sqr_rows [0] 0 (take n a)) in *. clearbody r. change (le_val [0]) with 0 in V. change (weight (2 * 0 + 1)) with (2 ^ 64) in V.
  pose proof (square_split (take n a)) as Sq. pose proof (cross_nonneg _ Wt) as Cn. pose proof (sqr_val_nonneg (take n a)) as Sn.
  pose proof (val_range _ Wt) as Rt. rewrite Lt in *. assert (Ew : weight (2 * n) = weight n * weight n) by (rewrite <- weight_add by lia; f_equal; lia).
  assert (W0 : words_ok (r ++ [0])) by (apply words_ok_app; [exact W | apply words_ok_1; unfold word_ok; lia]).
  assert (L0 : len (r ++ [0]) = 2 * n) by (rewrite len_app, len_cons, len_nil; lia).
  assert (V0 : le_val (r ++ [0]) = 2 ^ 64 * cross (take n a)) by (rewrite val_app; cbn [le_val]; lia).
  replace (n * 2) with (2 * n) by lia.
  destruct (add_words_Z (r ++ [0]) (r ++ [0]) (2 * n) W0 W0 ltac:(lia) ltac:(lia)) as (r2 & c2 & -> & L2 & W2 & C2 & V2). cbn [fst].
  rewrite !take_all in V2 by lia. pose proof (val_range r2 W2) as R2. rewrite L2 in R2.
  destruct (sqr_words_value a (Z.to_nat n) Wa ltac:(unfold len in *; lia)) as (L3 & W3 & V3). set (q := bn_sqr_words a (Z.to_nat n)) in *. clearbody q.
  assert (Lq : len q = 2 * n) by (unfold len; rewrite L3; lia). change (firstn (Z.to_nat n) a) with (take n a) in V3.
  destruct (add_words_Z r2 q (2 * n) W2 W3 ltac:(lia) ltac:(lia)) as (r4 & c4 & -> & L4 & W4 & C4 & V4). cbn [fst].
  rewrite !take_all in V4 by lia. pose proof (val_range r4 W4) as R4. rewrite L4 in R4.
  assert (Hs : 0 <= le_val (take n a) * le_val (take n a) < weight (2 * n)) by (rewrite Ew; nia).
  unfold bit_ok in *. assert (c2 = 0) by (destruct C2; [assumption | exfalso; subst c2; lia]). subst c2.
  assert (c4 = 0) by (destruct C4; [assumption | exfalso; subst c4; lia]). subst c4.
  exists r4. split; [reflexivity | split; [exact L4 | split; [exact W4 | lia]]].
Qed.

Lemma sqr_recursive_product fuel : forall k n2 a tsize, (k < fuel)%nat -> n2 = 2 ^ Z.of_nat k -> 4 <= n2 -> words_ok a -> n2 <= len a -> 4 * n2 <= tsize ->
  is_product (bn_sqr_recursive fuel a n2 tsize) (2 * n2) (le_val (take n2 a)) (le_val (take n2 a)).
Proof.
  induction fuel as [| fuel IH]; intros k n2 a tsize Hk Hp H4 Wa La Ht; [lia |]. cbn [bn_sqr_recursive].
  destruct (Z.eqb_spec n2 4) as [-> | N4].
  { destruct (sqr_comba4_value a Wa ltac:(lia)) as (L & W & V). eexists. split; [reflexivity |]. now repeat split. }
  destruct (Z.eqb_spec n2 8) as [-> | N8].
  { destruct (sqr_comba8_value a Wa ltac:(lia)) as (L & W & V). eexists. split; [reflexivity |]. now repeat split. }
  destruct (Z.leb_spec (2 * n2) tsize); [| lia]. unfold BN_SQR_RECURSIVE_SIZE_NORMAL, BN_MUL_RECURSIVE_SIZE_NORMAL.
  destruct (Z.ltb_spec n2 16); [apply sqr_normal_product; (assumption || lia) |].
  assert (Hp2 : pow2_size k n2) by (split; [exact Hp | lia]).
  destruct (pow2_size_half k n2 Hp2 N8) as (k' & n & -> & [Hp' H8] & -> & ->). replace (2 * (2 * n)) with (4 * n) by lia.
  assert (R : forall x, words_ok x -> n <= len x -> is_product (bn_sqr_recursive fuel x n (tsize - 4 * n)) (2 * n) (le_val (take n x)) (le_val (take n x))).
  { intros x Wx Lx. apply (IH k'); (assumption || lia). }
  assert (R2 : forall x, words_ok x -> len x = n -> is_product (bn_sqr_recursive fuel x n (tsize - 4 * n)) (2 * n) (le_val x) (le_val x)).
  { intros x Wx Lx. pose proof (R x Wx ltac:(lia)) as P. rewrite !take_all in P by lia. exact P. }
  assert (Wd : words_ok (drop n a)) by (apply words_ok_drop; exact Wa). assert (Ld : n <= len (drop n a)) by (rewrite len_drop; lia).
  rewrite (cmp_words_value a (drop n a) (Z.to_nat n)) by (assumption || (unfold len in *; lia)). change (firstn (Z.to_nat n) ?l) with (take n l).
  set (A0 := le_val (take n a)). set (A1 := le_val (take n (drop n a))).
  assert (M : is_product (if 0 <? Z.sgn (A0 - A1) then bn_sqr_recursive fuel (fst (bn_sub_words a (drop n a) (Z.to_nat n))) n (tsize - 4 * n) else
      if Z.sgn (A0 - A1) <? 0 then bn_sqr_recursive fuel (fst (bn_sub_words (drop n a) a (Z.to_nat n))) n (tsize - 4 * n) else Some (zero_words (2 * n)))
      (2 * n) (A0 - A1) (A0 - A1)).
  { destruct (sub_words_Z a (drop n a) n Wa Wd ltac:(lia) ltac:(lia)) as (x & c & -> & Lx & Wx & Cx & Vx). cbn [fst].
    destruct (sub_words_Z (drop n a) a n Wd Wa ltac:(lia) ltac:(lia)) as (y & c' & -> & Ly & Wy & Cy & Vy). cbn [fst]. fold A0 A1 in Vx, Vy.
    pose proof (val_range x Wx) as Rx. pose proof (val_range y Wy) as Ry. rewrite Lx in Rx. rewrite Ly in Ry. unfold bit_ok in Cx, Cy.
    destruct (Z.sgn_spec (A0 - A1)) as [(Hs & ->) | [(Hs & ->) | (Hs & ->)]]; cbn [Z.ltb Z.compare].
    - replace (A0 - A1) with (le_val x) by (destruct Cx; subst c; lia). now apply R2.
    - exists (zero_words (2 * n)). rewrite len_zero, val_zero by lia. repeat split; [apply words_ok_zero |]. replace (A0 - A1) with 0 by lia. reflexivity.
    - destruct (R2 y Wy Ly) as (r & -> & L & W & V). exists r. repeat split; try assumption. rewrite V.
      replace (le_val y) with (A1 - A0) by (destruct Cy; subst c'; lia). ring. }
  replace (2 * n) with (n + n) at 2 3 by lia.
  apply (level_exact a a n n n ((A0 - A1) * (A0 - A1)) (bn_sqr_recursive fuel a n (tsize - 4 * n)) (bn_sqr_recursive fuel (drop n a) n (tsize - 4 * n)) _ true); try assumption; try lia.
  - apply R; (assumption || lia).
  - apply R; (assumption || lia).
Qed.

(** ** Property *)

Lemma product_unique l res size va vb k : 0 <= k -> is_product (Some l) size va vb -> is_product res (size + k) va vb -> res = Some (l ++ zero_words k).
Proof.
  intros Hk P (r & -> & L & W & V). destruct (product_zeros l size va vb k Hk P) as (r' & E & L' & W' & V'). injection E as ->. f_equal.
  apply le_val_inj; try assumption; [unfold len in *; lia | lia].
Qed.

Lemma product_same l res size va vb : is_product (Some l) size va vb -> is_product res size va vb -> res = Some l.
Proof.
  intros P Q. rewrite (product_unique l res size va vb 0); [| lia | exact P | now rewrite Z.add_0_r]. now rewrite app_nil_r.
Qed.

(** C33: the fast products are the schoolbook product, word for word, and
    terminate inside their scratch space. The rows of [bn_mul_normal] give the
    product of the values; Karatsuba's recursion on a power of two (with up to
    seven words missing at the top of either operand), its extension to operands
    of nearly equal length that are longer than a power of two, the unrolled
    columns for 4 and 8 words, and the three squarings return the words of
    [bn_mul_normal], padded with zeros to their documented size. *)
Theorem products_are_schoolbook a b : words_ok a -> words_ok b ->
  (forall na nb, 0 <= na <= len a -> 0 <= nb <= len b ->
     let r := bn_mul_normal a na b nb in len r = na + nb /\ words_ok r /\ le_val r = le_val (take na a) * le_val (take nb b)) /\
  (forall k n2 dna dnb tsize, pow2_size k n2 -> -8 < dna <= 0 -> -8 < dnb <= 0 -> n2 + dna <= len a -> n2 + dnb <= len b -> 4 * n2 <= tsize ->
     bn_mul_recursive (S k) a b n2 dna dnb tsize = Some (bn_mul_normal a (n2 + dna) b (n2 + dnb) ++ zero_words (- (dna + dnb)))) /\
  (forall k n tna tnb tsize, pow2_size k n -> part_args a b n tna tnb -> tna < n -> tnb < n -> 8 * n <= tsize ->
     bn_mul_part_recursive (S (S k)) a b n tna tnb tsize = Some (bn_mul_normal a (n + tna) b (n + tnb) ++ zero_words (2 * n - tna - tnb))) /\
  (8 <= len a -> 8 <= len b -> bn_mul_comba8 a b = bn_mul_normal a 8 b 8) /\
  (4 <= len a -> 4 <= len b -> bn_mul_comba4 a b = bn_mul_normal a 4 b 4) /\
  (8 <= len a -> bn_sqr_comba8 a = bn_mul_normal a 8 a 8) /\ (4 <= len a -> bn_sqr_comba4 a = bn_mul_normal a 4 a 4) /\
  (forall n, 0 < n <= len a -> bn_sqr_normal a n = bn_mul_normal a n a n) /\
  (forall k n2 tsize, n2 = 2 ^ Z.of_nat k -> 4 <= n2 <= len a -> 4 * n2 <= tsize -> bn_sqr_recursive (S k) a n2 tsize = Some (bn_mul_normal a n2 a n2)).
Proof.
  intros Wa Wb.
  assert (S8 : forall x y n r, words_ok x -> words_ok y -> 0 <= n <= len x -> n <= len y -> len r = 2 * n /\ words_ok r /\ le_val r = le_val (take n x) * le_val (take n y) -> r = bn_mul_normal x n y n).
  { intros x y n r Wx Wy Lx Ly (L & W & V). pose proof (normal_product x n y n Wx Wy Lx ltac:(lia)) as P.
    assert (E : Some r = Some (bn_mul_normal x n y n)); [| congruence]. apply (product_same _ _ _ _ _ P). exists r. repeat split; try assumption. lia. }
  split; [intros na nb La Lb; now apply normal_value |]. split.
  { intros k n2 dna dnb tsize Hp Ha Hb La Lb Ht. pose proof (proj2 Hp). apply (product_unique _ _ (n2 + dna + (n2 + dnb)) (le_val (take (n2 + dna) a)) (le_val (take (n2 + dnb) b))); [lia | apply normal_product; (assumption || lia) |].
    replace (n2 + dna + (n2 + dnb) + - (dna + dnb)) with (2 * n2) by lia. apply (mul_recursive_product (S k) k); (assumption || lia). }
  split.
  { intros k n tna tnb tsize Hp A Ha Hb Ht. destruct (A) as [_ _ Hn Na Nb La Lb _ _]. pose proof (proj2 Hp). apply (product_unique _ _ (n + tna + (n + tnb)) (le_val (take (n + tna) a)) (le_val (take (n + tnb) b))); [lia | apply normal_product; (assumption || lia) |].
    replace (n + tna + (n + tnb) + (2 * n - tna - tnb)) with (4 * n) by lia. apply (mul_part_product (S (S k)) k); (assumption || lia). }
  split; [intros La Lb; apply S8; try assumption; try lia; now apply comba8_value |]. split; [intros La Lb; apply S8; try assumption; try lia; now apply comba4_value |].
  split; [intros La; apply S8; try assumption; try lia; now apply sqr_comba8_value |]. split; [intros La; apply S8; try assumption; try lia; now apply sqr_comba4_value |].
  split.
  - intros n Hn. apply S8; try assumption; try lia. destruct (sqr_normal_product a n Wa Hn) as (r & [= <-] & X). exact X.
  - intros k n2 tsize Hp Hn Ht. apply (product_same _ _ (n2 + n2) (le_val (take n2 a)) (le_val (take n2 a))); [apply normal_product; (assumption || lia) |].
    replace (n2 + n2) with (2 * n2) by lia. apply (sqr_recursive_product (S k) k); (assumption || lia).
Qed.

(** Twelve words by thirteen with eight in the lower part, and sixteen squared. *)
Lemma products_are_schoolbook_witness :
  let a := map (fun i => 2 ^ 64 - Z.of_nat i) (seq 1 16) in
  let b := map (fun i => 2 ^ 63 + Z.of_nat i) (seq 1 16) in
  bn_mul_part_recursive 5 a b 8 4 5 64 = Some (bn_mul_normal a 12 b 13 ++ zero_words 7) /\
  bn_sqr_recursive 5 a 16 64 = Some (bn_mul_normal a 16 a 16).
Proof.
  intros a b.
  assert (Wa : words_ok a) by (apply Forall_forall; intros x Hx; apply in_map_iff in Hx; destruct Hx as (i & <- & Hi); apply in_seq in Hi; unfold word_ok; lia).
  assert (Wb : words_ok b) by (apply Forall_forall; intros x Hx; apply in_map_iff in Hx; destruct Hx as (i & <- & Hi); apply in_seq in Hi; unfold word_ok; lia).
  pose proof (products_are_schoolbook a b Wa Wb) as (_ & _ & H1 & _ & _ & _ & _ & _ & H2). split.
  - apply (H1 3%nat 8 4 5 64); try lia; [split; [reflexivity | lia] |].
    constructor; try assumption; try lia; try (apply Z.leb_le; reflexivity); discriminate.
  - apply (H2 4%nat 16 64); [reflexivity | split; apply Z.leb_le; reflexivity | lia].
Defined.

