(* ===== verification/BnMul.v ===== *)
(** * Products of big integers (crypto/fipsmodule/bn/mul.c)

    [BN_mul], [BN_sqr] and [BN_mul_word] over the routines of BnProducts. The
    result may be an operand, and is then computed in a number of the context.
    The words that a routine leaves in its scratch number are dead, and not
    modelled: only the room in it is. Theorems are stated for any context behind
    the interface of BnCtx. *)

From S2P Require Import Prelude Buffers BnWords Bignum BnBytes BnCtx BnShift BnProducts.

(** ** Numbers *)

(** The words a routine writes from [r->d] on; past the end of the array is [None]. *)
Definition write_words (r : BIGNUM) (l : list Z) (t : Z) : option BIGNUM := guard (len l <=? dmax r) in Some (put_words r l t).

Section Numbers.
Variable alloc_ok : Z -> bool.
Variable uninit : Z -> list Z.
Context {C : Type} `{Temporaries C}.

(** The operands of nearly equal length: the success, [rr], the other numbers
    taken from the context, and the context. *)
Definition mul_karatsuba (rr a b : BIGNUM) (ctx : C) : option (bool * BIGNUM * list BIGNUM * C) :=
  let al := top a in
  let bl := top b in
  let bits := BN_num_bits_word (u64 (if al - bl =? -1 then bl else al)) in
  let j := Z.shiftl 1 (bits - 1) in
  let k := j + j in
  let (t, ctx) := ctx_get ctx in
  match t with
  | None => Some (false, rr, [], ctx)
  | Some t =>
      let part := (j <? al) || (j <? bl) in
      let size := if part then k * 4 else k * 2 in
      let (ok, t) := bn_wexpand alloc_ok uninit t size in
      if negb ok then Some (false, rr, [t], ctx) else
      let (ok, rr) := bn_wexpand alloc_ok uninit rr size in
      if negb ok then Some (false, rr, [t], ctx) else
      let fuel := S (Z.to_nat bits) in
      let* l := if part then bn_mul_part_recursive fuel (words a) (words b) j (al - j) (bl - j) (dmax t)
                else bn_mul_recursive fuel (words a) (words b) j (al - j) (bl - j) (dmax t) in
      let* rr := write_words rr l (al + bl) in
      Some (true, bn_correct_top rr, [t], ctx)
  end.

(** [BN_mul] from [rr->neg = ...] to [bn_correct_top]. *)
Definition mul_into (rr a b : BIGNUM) (ctx : C) : option (bool * BIGNUM * list BIGNUM * C) :=
  let al := top a in
  let bl := top b in
  let i := al - bl in
  let rr := with_neg rr (xorb (neg a) (neg b)) in
  if (i =? 0) && (al =? 8) then
    let (ok, rr) := bn_wexpand alloc_ok uninit rr 16 in
    if negb ok then Some (false, rr, [], ctx) else
    let* rr := write_words rr (bn_mul_comba8 (words a) (words b)) 16 in
    Some (true, bn_correct_top rr, [], ctx)
  else if (16 <=? al) && (16 <=? bl) && (-1 <=? i) && (i <=? 1) then mul_karatsuba rr a b ctx
  else
    let (ok, rr) := bn_wexpand alloc_ok uninit rr (al + bl) in
    if negb ok then Some (false, rr, [], ctx) else
    let* rr := write_words rr (bn_mul_normal (words a) al (words b) bl) (al + bl) in
    Some (true, bn_correct_top rr, [], ctx).

(** An operand is [None] where the caller passes [r]. *)
Definition BN_mul (r : BIGNUM) (a b : option BIGNUM) (ctx : C) : option (bool * BIGNUM * C) :=
  let x := operand r a in
  let y := operand r b in
  if (top x =? 0) || (top y =? 0) then Some (true, BN_zero r, ctx) else
  let ctx := ctx_start ctx in
  match a, b with
  | Some _, Some _ =>
      let* out := mul_into r x y ctx in
      let '(ok, r, ts, ctx) := out in
      Some (ok, r, ctx_end ctx ts)
  | _, _ =>
      let (rr, ctx) := ctx_get ctx in
      match rr with
      | None => Some (false, r, ctx_end ctx [])
      | Some rr =>
          let* out := mul_into rr x y ctx in
          let '(ok, rr, ts, ctx) := out in
          let (ok, r) := if ok : bool then BN_copy alloc_ok uninit r rr else (false, r) in
          Some (ok, r, ctx_end ctx (rr :: ts))
      end
  end.

Definition BN_MASK2l : Z := 0xffffffff.

(** [BN_sqr] from [bn_wexpand(rr, max)] on. *)
Definition sqr_into (rr tmp a : BIGNUM) : option (bool * BIGNUM * BIGNUM) :=
  let al := top a in
  let max := 2 * al in
  let (ok, rr) := bn_wexpand alloc_ok uninit rr max in
  if negb ok then Some (false, rr, tmp) else
  let bits := BN_num_bits_word (u64 al) in
  let j := Z.shiftl 1 (bits - 1) in
  let k := j + j in
  let '(ok, tmp) :=
    if (al =? 4) || (al =? 8) || (al <? BN_SQR_RECURSIVE_SIZE_NORMAL) then (true, tmp)
    else bn_wexpand alloc_ok uninit tmp (if al =? j then k * 2 else max) in
  if negb ok then Some (false, rr, tmp) else
  let* l :=
    if al =? 4 then Some (bn_sqr_comba4 (words a)) else
    if al =? 8 then Some (bn_sqr_comba8 (words a)) else
    if al <? BN_SQR_RECURSIVE_SIZE_NORMAL then Some (bn_sqr_normal (words a) al) else
    if al =? j then bn_sqr_recursive (S (Z.to_nat bits)) (words a) al (dmax tmp) else
    guard (max <=? dmax tmp) in Some (bn_sqr_normal (words a) al) in
  let w := get (d a) (al - 1) in
  let* rr := write_words rr l (if w =? Z.land w BN_MASK2l then max - 1 else max) in
  Some (true, with_neg rr false, tmp).

Definition BN_sqr (r : BIGNUM) (a : option BIGNUM) (ctx : C) : option (bool * BIGNUM * C) :=
  let x := operand r a in
  if top x <=? 0 then Some (true, mk_bn (d r) 0 false (is_static r), ctx) else
  let ctx := ctx_start ctx in
  let (rr, ctx) := match a with Some _ => (Some r, ctx) | None => ctx_get ctx end in
  let (tmp, ctx) := ctx_get ctx in
  match rr, tmp with
  | Some rr, Some tmp =>
      let* out := sqr_into rr tmp x in
      let '(ok, rr, tmp) := out in
      match a with
      | Some _ => Some (ok, rr, ctx_end ctx [tmp])
      | None =>
          let (ok, r) := if ok : bool then BN_copy alloc_ok uninit r rr else (false, r) in
          Some (ok, r, ctx_end ctx [rr; tmp])
      end
  | Some rr, None => Some (false, r, ctx_end ctx (match a with Some _ => [] | None => [rr] end))
  | None, Some tmp => Some (false, r, ctx_end ctx [tmp])
  | None, None => Some (false, r, ctx_end ctx [])
  end.

Definition BN_mul_word (bn : BIGNUM) (w : Z) : bool * BIGNUM :=
  let w := Z.land w BN_MASK2 in
  if top bn =? 0 then (true, bn) else
  if w =? 0 then (true, BN_zero bn) else
  let (l, ll) := bn_mul_words (words bn) (Z.to_nat (top bn)) w in
  let bn := put_words bn l (top bn) in
  if negb (ll =? 0) then
    let (ok, bn) := bn_wexpand alloc_ok uninit bn (top bn + 1) in
    if negb ok then (false, bn) else
    (true, mk_bn (set (d bn) (top bn) ll) (top bn + 1) (neg bn) (is_static bn))
  else (true, bn).
End Numbers.

(** ** What they deliver *)

Lemma wexpand_temporary alloc_ok uninit t n : (forall n, 0 <= n -> len (uninit n) = n) -> temporary_ok t -> 0 <= n ->
  exists ok t', bn_wexpand alloc_ok uninit t n = (ok, t') /\ temporary_ok t' /\
    (if ok : bool then n <= dmax t' else starved alloc_ok \/ word_limit < n).
Proof.
  intros U [M S] Hn. destruct (wexpand_case alloc_ok uninit U t n M Hn) as [(E & R) | (t' & E & M' & D & _ & _ & _ & S')].
  - exists false, t. split; [exact E | split; [now split |]]. destruct R as [R | [R | R]]; [now left | now right | congruence].
  - exists true, t'. split; [exact E | split; [| exact D]]. split; [exact M' | congruence].
Qed.

(** The greatest power of two in a size. *)
Lemma size_bits m : 0 < m < 2 ^ 64 -> exists k, BN_num_bits_word (u64 m) = Z.of_nat k + 1 /\
  Z.shiftl 1 (Z.of_nat k + 1 - 1) = 2 ^ Z.of_nat k /\ 2 ^ Z.of_nat k <= m < 2 * 2 ^ Z.of_nat k.
Proof.
  intros Hm. rewrite wrap_small by lia. rewrite num_bits_word_spec by (unfold word_ok; lia). destruct (Z.eqb_spec m 0); [lia |].
  pose proof (Z.log2_nonneg m). pose proof (Z.log2_spec m ltac:(lia)) as L. rewrite Z.pow_succ_r in L by lia.
  exists (Z.to_nat (Z.log2 m)). rewrite Z2Nat.id by lia. split; [reflexivity | split; [| exact L]].
  rewrite Z.shiftl_1_l. f_equal. lia.
Qed.

Lemma nonzero_words x : bn_ok x -> 0 < top x -> words_ok (words x) /\ len (words x) = top x /\ take (top x) (words x) = words x /\
  get (words x) (top x - 1) <> 0 /\ 0 < bn_abs x < weight (top x) /\ weight (top x - 1) <= bn_abs x.
Proof.
  intros O Ht. pose proof (len_words x (proj1 O)) as L. destruct (proj2 O) as (W & T & _).
  split; [exact W | split; [exact L | split; [apply take_all; lia | split; [rewrite get_words by (apply O || lia); now apply T |]]]].
  pose proof (abs_range x O) as R. pose proof (abs_low x O Ht) as R0. split; [| exact R0]. split; [| apply R]. now apply (ok_pos x O).
Qed.

(** A product written to a number. *)
Lemma write_product r l size va vb t : bn_mem r -> is_product (Some l) size va vb -> size <= dmax r -> 0 <= t <= size -> 0 <= va * vb < weight t ->
  exists r', write_words r l t = Some r' /\ bn_mem r' /\ words_ok (words r') /\ bn_abs r' = va * vb /\ top r' = t /\ neg r' = neg r /\ is_static r' = is_static r.
Proof.
  intros M P Hs Ht Hv. pose proof (product_take l size va vb t Ht Hv P) as (l' & [= <-] & _ & W & V). destruct P as (l0 & [= <-] & L & _).
  unfold write_words. destruct (Z.leb_spec (len l) (dmax r)); [| lia]. destruct (put_words_take r l t) as (H1 & H2 & H3 & H4 & _); [lia | lia |].
  eexists. split; [reflexivity |]. unfold bn_abs. rewrite H2. repeat split; try assumption; try apply H1.
Qed.

Lemma weight_mono i k : i <= k -> weight i <= weight k.
Proof. intros Hik. apply Z.pow_le_mono_r; lia. Qed.

Section NumberFacts.
Variable alloc_ok : Z -> bool.
Variable uninit : Z -> list Z.
Hypothesis uninit_len : forall n, 0 <= n -> len (uninit n) = n.
Context {C : Type} `{TC : TemporariesOk C (starved alloc_ok)}.

Section Product.
Variables a b : BIGNUM.
Hypotheses (Oa : bn_ok a) (Ob : bn_ok b) (Ha : 0 < top a <= word_limit) (Hb : 0 < top b <= word_limit).

Lemma factor_bounds : 0 < bn_abs a * bn_abs b < weight (top a + top b).
Proof.
  destruct (nonzero_words a Oa (proj1 Ha)) as (_ & _ & _ & _ & R1 & _). destruct (nonzero_words b Ob (proj1 Hb)) as (_ & _ & _ & _ & R2 & _).
  rewrite weight_add by lia. nia.
Qed.

(** What is written, normalised, is the product. *)
Lemma product_number rr r1 l size : bn_mem r1 -> is_static r1 = is_static rr -> neg r1 = xorb (neg a) (neg b) ->
  is_product (Some l) size (bn_abs a) (bn_abs b) -> top a + top b <= size <= dmax r1 ->
  exists r2, write_words r1 l (top a + top b) = Some r2 /\
    delivers alloc_ok rr (8 * Z.max (top a) (top b)) (true, bn_correct_top r2) (bn_val a * bn_val b).
Proof.
  intros M S N P Hs. pose proof factor_bounds as F.
  destruct (write_product r1 l size (bn_abs a) (bn_abs b) (top a + top b) M P ltac:(lia) ltac:(lia) ltac:(lia)) as (r2 & E & M2 & W2 & V2 & T2 & N2 & S2).
  exists r2. split; [exact E |]. destruct (correct_top_val r2 M2 W2 ltac:(lia)) as [O V].
  apply delivers_ok; [exact O | rewrite correct_top_static; congruence |]. rewrite V, V2, N2, N. unfold bn_val.
  destruct (neg a), (neg b); cbn [xorb]; lia.
Qed.

(** The choice between the routines. *)
Definition big_product (part : bool) (fuel : nat) (j tsize : Z) : option (list Z) :=
  if part then bn_mul_part_recursive fuel (words a) (words b) j (top a - j) (top b - j) tsize
  else bn_mul_recursive fuel (words a) (words b) j (top a - j) (top b - j) tsize.

Lemma big_product_ok k tsize : let m := Z.max (top a) (top b) in let j := 2 ^ Z.of_nat k in
  16 <= top a -> 16 <= top b -> Z.abs (top a - top b) <= 1 -> j <= m < 2 * j ->
  let part := (j <? top a) || (j <? top b) in
  let size := if part then (j + j) * 4 else (j + j) * 2 in
  size <= tsize -> exists l n, big_product part (S (S k)) j tsize = Some l /\ is_product (Some l) n (bn_abs a) (bn_abs b) /\ top a + top b <= n <= size.
Proof.
  intros m j Ga Gb Hn Hj part size Ht.
  destruct (nonzero_words a Oa (proj1 Ha)) as (Wa & La & Ta & Za & _). destruct (nonzero_words b Ob (proj1 Hb)) as (Wb & Lb & Tb & Zb & _).
  assert (Hp : pow2_size k j) by (split; [reflexivity | lia]). clearbody j. revert Ht. unfold part, size, big_product.
  destruct ((j <? top a) || (j <? top b)) eqn:E; unfold part; cbv iota; intros Ht.
  - apply orb_prop in E. rewrite !Z.ltb_lt in E.
    assert (A : part_args (words a) (words b) j (top a - j) (top b - j)).
    { constructor; try assumption; try lia; replace (j + (top a - j) - 1) with (top a - 1) by lia; replace (j + (top b - j) - 1) with (top b - 1) by lia; assumption. }
    assert (Hk : (S k < S (S k))%nat) by lia.
    pose proof (mul_part_product (S (S k)) k j (words a) (words b) (top a - j) (top b - j) tsize Hk Hp A ltac:(lia) ltac:(lia) ltac:(lia)) as P.
    replace (j + (top a - j)) with (top a) in P by lia. replace (j + (top b - j)) with (top b) in P by lia. rewrite Ta, Tb in P.
    pose proof P as (l & El & _). rewrite El in P. exists l, (4 * j). split; [exact El | split; [exact P | lia]].
  - apply orb_false_elim in E. rewrite !Z.ltb_ge in E.
    pose proof (mul_recursive_product (S (S k)) k j (words a) (words b) (top a - j) (top b - j) tsize ltac:(lia) Hp Wa Wb ltac:(lia) ltac:(lia) ltac:(lia) ltac:(lia) ltac:(lia)) as P.
    replace (j + (top a - j)) with (top a) in P by lia. replace (j + (top b - j)) with (top b) in P by lia. rewrite Ta, Tb in P.
    pose proof P as (l & El & _). rewrite El in P. exists l, (2 * j). split; [exact El | split; [exact P | lia]].
Qed.
End Product.

(** What a routine leaves that borrows from a context. *)
Definition lends_back (c : C) (ts : list BIGNUM) (c2 : C) : Prop := ctx_open c c2 /\ Forall temporary_ok ts.

Definition multiplied (rr a b : BIGNUM) (c : C) (res : option (bool * BIGNUM * list BIGNUM * C)) : Prop :=
  exists ok r' ts c2, res = Some (ok, r', ts, c2) /\
    delivers alloc_ok rr (8 * Z.max (top a) (top b)) (ok, r') (bn_val a * bn_val b) /\ lends_back c ts c2.

Section Into.
Variables (rr r0 a b : BIGNUM) (c c1 : C).
Hypotheses (M0 : bn_mem r0) (S0 : is_static r0 = is_static rr) (N0 : neg r0 = xorb (neg a) (neg b)) (Oa : bn_ok a) (Ob : bn_ok b)
  (Ha : 0 < top a <= word_limit) (Hb : 0 < top b <= word_limit) (Op : ctx_open c c1).

Lemma mul_fails r' n ts c2 : bn_mem r' -> is_static r' = is_static rr -> n <= 8 * Z.max (top a) (top b) -> refuses alloc_ok r' n ->
  lends_back c ts c2 -> multiplied rr a b c (Some (false, r', ts, c2)).
Proof.
  intros M S Hn R L. exists false, r', ts, c2. split; [reflexivity | split; [| exact L]].
  apply delivers_false; [exact M | exact S |]. apply (refuses_mono alloc_ok r' rr n); [now symmetry | exact Hn | exact R].
Qed.

Lemma mul_exact_size l : is_product (Some l) (top a + top b) (bn_abs a) (bn_abs b) ->
  multiplied rr a b c (let (ok, r) := bn_wexpand alloc_ok uninit r0 (top a + top b) in
    if negb ok then Some (false, r, [], c1) else let* r := write_words r l (top a + top b) in Some (true, bn_correct_top r, [], c1)).
Proof.
  intros P. assert (L : lends_back c [] c1) by (split; [exact Op | constructor]).
  destruct (wexpand_case alloc_ok uninit uninit_len r0 (top a + top b) M0 ltac:(lia)) as [(-> & R) | (r1 & -> & M1 & D1 & _ & _ & N1 & S1)]; cbn [negb].
  - apply (mul_fails r0 (top a + top b)); try assumption. lia.
  - destruct (product_number a b Oa Ob Ha Hb rr r1 l (top a + top b) M1 ltac:(congruence) ltac:(congruence) P ltac:(lia)) as (r2 & -> & D).
    exists true, (bn_correct_top r2), [], c1. now split.
Qed.

Lemma mul_karatsuba_ok : 16 <= top a -> 16 <= top b -> Z.abs (top a - top b) <= 1 ->
  multiplied rr a b c (mul_karatsuba alloc_ok uninit r0 a b c1).
Proof.
  intros Ga Gb Hn. unfold mul_karatsuba. set (m := if top a - top b =? -1 then top b else top a).
  assert (Hm : m = Z.max (top a) (top b)) by (unfold m; destruct (Z.eqb_spec (top a - top b) (-1)); lia).
  clearbody m. assert (word_limit < 2 ^ 64) by reflexivity.
  destruct (size_bits m ltac:(lia)) as (k & -> & -> & Hj). set (j := 2 ^ Z.of_nat k) in *.
  pose proof (ctx_get_open c c1 Op) as G. destruct (ctx_get c1) as [[t |] c2].
  2: { destruct G as [G R]. apply (mul_fails r0 0); try assumption; [lia | now left | split; [exact G | constructor]]. }
  destruct G as (G & _ & Tt & _). pose proof (big_product_ok a b Oa Ob Ha Hb k) as B. rewrite Hm in Hj.
  set (part := (j <? top a) || (j <? top b)) in *. set (size := if part then _ else _) in *.
  assert (Hs : 0 <= size <= 8 * Z.max (top a) (top b)) by (unfold size; destruct part; lia).
  destruct (wexpand_temporary alloc_ok uninit t size uninit_len Tt ltac:(lia)) as (ok & t1 & -> & Tt1 & Dt).
  assert (L : lends_back c [t1] c2) by (split; [exact G | constructor; [exact Tt1 | constructor]]).
  destruct ok; cbn [negb]; [| apply (mul_fails r0 size); try assumption; [lia | unfold refuses; tauto]].
  destruct (wexpand_case alloc_ok uninit uninit_len r0 size M0 ltac:(lia)) as [(-> & R) | (r1 & -> & M1 & D1 & _ & _ & N1 & S1)]; cbn [negb];
    [apply (mul_fails r0 size); try assumption; lia |].
  destruct (B (dmax t1) Ga Gb Hn Hj Dt) as (l & n & E & P & Hl). unfold big_product in E. replace (Z.to_nat (Z.of_nat k + 1)) with (S k) by lia. fold j part in E. rewrite E.
  destruct (product_number a b Oa Ob Ha Hb rr r1 l n M1 ltac:(congruence) ltac:(congruence) P ltac:(fold j part size in Hl; lia)) as (r2 & -> & D).
  exists true, (bn_correct_top r2), [t1], c2. now split.
Qed.
End Into.

Lemma mul_into_ok rr a b c c1 : bn_mem rr -> bn_ok a -> bn_ok b -> 0 < top a <= word_limit -> 0 < top b <= word_limit -> ctx_open c c1 ->
  multiplied rr a b c (mul_into alloc_ok uninit rr a b c1).
Proof.
  intros M Oa Ob Ha Hb Op. unfold mul_into. set (r0 := with_neg rr _). assert (M0 : bn_mem r0) by exact M.
  destruct (nonzero_words a Oa (proj1 Ha)) as (Wa & La & Ta & _). destruct (nonzero_words b Ob (proj1 Hb)) as (Wb & Lb & Tb & _).
  destruct ((top a - top b =? 0) && (top a =? 8)) eqn:E8.
  { apply andb_prop in E8. rewrite !Z.eqb_eq in E8. pose proof (comba8_product (words a) (words b) Wa Wb ltac:(lia) ltac:(lia)) as P.
    rewrite !take_all in P by lia. replace 16 with (top a + top b) in * by lia. now apply mul_exact_size. }
  destruct ((16 <=? top a) && (16 <=? top b) && (-1 <=? top a - top b) && (top a - top b <=? 1)) eqn:Eb.
  - rewrite !andb_true_iff, !Z.leb_le in Eb. apply mul_karatsuba_ok; try assumption; try reflexivity; lia.
  - pose proof (normal_product (words a) (top a) (words b) (top b) Wa Wb ltac:(lia) ltac:(lia)) as P. rewrite Ta, Tb in P. now apply mul_exact_size.
Qed.

(** The end of a routine that used a frame. *)
Definition returns (r : BIGNUM) (size : Z) (v : Z) (c : C) (res : option (bool * BIGNUM * C)) : Prop :=
  exists ok r' c', res = Some (ok, r', c') /\ delivers alloc_ok r size (ok, r') v /\ ctx_same c c'.

Lemma returns_end r size v c ok r' ts c2 : delivers alloc_ok r size (ok, r') v -> lends_back c ts c2 ->
  returns r size v c (Some (ok, r', ctx_end c2 ts)).
Proof. intros D [O F]. exists ok, r', (ctx_end c2 ts). split; [reflexivity | split; [exact D | now apply ctx_end_same]]. Qed.

(** A result computed in a temporary and copied. *)
Lemma returns_copied r size v c ok rr r0 ts c2 size0 : bn_mem r -> temporary_ok rr -> delivers alloc_ok rr size0 (ok, r0) v -> size0 <= size ->
  (forall x, bn_ok x -> bn_val x = v -> top x <= size) -> lends_back c ts c2 ->
  returns r size v c (let (ok, r) := if ok then BN_copy alloc_ok uninit r r0 else (false, r) in Some (ok, r, ctx_end c2 (r0 :: ts))).
Proof.
  intros Mr [Mt St] (M0 & S0 & V0 & F0) Hs Hm [O F]. cbn [fst snd] in *.
  assert (L : lends_back c (r0 :: ts) c2) by (split; [exact O | constructor; [split; [exact M0 | congruence] | exact F]]).
  destruct ok.
  - destruct (V0 eq_refl) as [Or Vr]. pose proof (copy_delivers alloc_ok uninit uninit_len r r0 Mr Or) as D. rewrite Vr in D.
    destruct (BN_copy alloc_ok uninit r r0) as [ok r1]. apply returns_end; [| exact L].
    apply (delivers_mono alloc_ok r r (top r0)); [reflexivity | now apply Hm | exact D].
  - apply returns_end; [| exact L]. apply delivers_false; [exact Mr | reflexivity |].
    destruct (F0 eq_refl) as [R | [R | R]]; [now left | right; left; lia | congruence].
Qed.

Lemma abs_val x : bn_abs x = Z.abs (bn_val x) \/ bn_abs x < 0.
Proof. unfold bn_val. destruct (neg x); lia. Qed.

Lemma product_top x a b : bn_ok a -> bn_ok b -> 0 < top a -> 0 < top b -> bn_ok x -> bn_val x = bn_val a * bn_val b -> top x <= top a + top b.
Proof.
  intros Oa Ob Ha Hb Ox V. apply (top_minimal x); [exact Ox | lia |].
  destruct (nonzero_words a Oa Ha) as (_ & _ & _ & _ & R1 & _). destruct (nonzero_words b Ob Hb) as (_ & _ & _ & _ & R2 & _).
  replace (bn_abs x) with (bn_abs a * bn_abs b).
  - fold (weight (top a + top b)). rewrite weight_add by lia. nia.
  - pose proof (abs_nonneg x Ox). unfold bn_val in V. destruct (neg x), (neg a), (neg b); nia.
Qed.

Lemma mul_returns r a b c : bn_mem r -> bn_fits (operand r a) -> bn_fits (operand r b) -> ctx_ok c ->
  returns r (8 * Z.max (top (operand r a)) (top (operand r b))) (bn_val (operand r a) * bn_val (operand r b)) c
    (BN_mul alloc_ok uninit r a b c).
Proof.
  intros Mr [Oa Fa] [Ob Fb] Hc. unfold BN_mul. set (x := operand r a) in *. set (y := operand r b) in *. fold word_limit in Fa, Fb.
  pose proof (proj1 Oa) as Mx. pose proof (proj1 Ob) as My. unfold bn_mem in Mx, My. pose proof (ok_pos x Oa) as Px. pose proof (ok_pos y Ob) as Py.
  destruct ((top x =? 0) || (top y =? 0)) eqn:E0.
  { exists true, (BN_zero r), c. split; [reflexivity | split; [| reflexivity]]. apply zero_delivers; [exact Mr |].
    apply orb_prop in E0. rewrite !Z.eqb_eq in E0. pose proof (abs_nonneg x Oa). pose proof (abs_nonneg y Ob).
    unfold bn_val. destruct E0 as [E | E]; [replace (bn_abs x) with 0 by lia | replace (bn_abs y) with 0 by lia]; destruct (neg x), (neg y); lia. }
  apply orb_false_elim in E0. rewrite !Z.eqb_neq in E0.
  assert (Direct : forall rr c1, bn_mem rr -> ctx_open c c1 -> multiplied rr x y c (mul_into alloc_ok uninit rr x y c1)) by (intros; apply mul_into_ok; (assumption || lia)).
  assert (Copied : returns r (8 * Z.max (top x) (top y)) (bn_val x * bn_val y) c
    (let (rr, ctx) := ctx_get (ctx_start c) in
     match rr with
     | None => Some (false, r, ctx_end ctx [])
     | Some rr => let* out := mul_into alloc_ok uninit rr x y ctx in let '(ok, rr, ts, ctx) := out in
                  let (ok, r) := if ok : bool then BN_copy alloc_ok uninit r rr else (false, r) in Some (ok, r, ctx_end ctx (rr :: ts))
     end)).
  { pose proof (ctx_get_open c _ (ctx_start_open c Hc)) as G. destruct (ctx_get (ctx_start c)) as [[rr |] c1].
    - destruct G as (G & _ & Tr & _). destruct (Direct rr c1 (proj1 Tr) G) as (ok & r0 & ts & c2 & -> & D & L).
      apply (returns_copied r _ _ c ok rr r0 ts c2 (8 * Z.max (top x) (top y))); try assumption; [lia |].
      intros z Oz Vz. pose proof (product_top z x y Oa Ob ltac:(lia) ltac:(lia) Oz Vz). lia.
    - destruct G as [G R]. apply returns_end; [apply delivers_false; [exact Mr | reflexivity | now left] | split; [exact G | constructor]]. }
  destruct a as [a |]; [destruct b as [b |] |]; try exact Copied.
  destruct (Direct r (ctx_start c) Mr (ctx_start_open c Hc)) as (ok & r' & ts & c2 & -> & D & L). now apply returns_end.
Qed.

(** **** Squares *)

Lemma land_low_half w : word_ok w -> (w =? Z.land w BN_MASK2l) = (w <? 2 ^ 32).
Proof.
  intros Hw. unfold BN_MASK2l. change 0xffffffff with (Z.ones 32). rewrite Z.land_ones by lia. unfold word_ok in Hw.
  destruct (Z.ltb_spec w (2 ^ 32)); [rewrite Z.mod_small by lia; apply Z.eqb_refl |].
  apply Z.eqb_neq. pose proof (Z.mod_pos_bound w (2 ^ 32)). lia.
Qed.

(** The size of a square, from the top half of the top word. *)
Lemma square_top a : bn_ok a -> 0 < top a ->
  let t := if get (d a) (top a - 1) =? Z.land (get (d a) (top a - 1)) BN_MASK2l then 2 * top a - 1 else 2 * top a in
  weight (t - 1) <= bn_abs a * bn_abs a < weight t.
Proof.
  intros Oa Ht. cbv zeta. destruct (nonzero_words a Oa Ht) as (Wa & La & Ta & Za & _). pose proof (proj1 Oa) as M.
  rewrite <- (get_words a) in * by (assumption || lia). set (w := get (words a) (top a - 1)) in *. pose proof (word_get (words a) (top a - 1) Wa) as Ww. fold w in Ww.
  rewrite land_low_half by exact Ww. unfold word_ok in Ww.
  assert (E : bn_abs a = le_val (take (top a - 1) (words a)) + weight (top a - 1) * w).
  { unfold bn_abs. rewrite <- Ta at 1. replace (top a) with (top a - 1 + 1) at 1 by lia. rewrite take_succ, val_app, len_take by lia. cbn [le_val]. fold w. lia. }
  pose proof (val_range _ (words_ok_take (top a - 1) _ Wa)) as R. rewrite len_take in R by lia. set (low := le_val _) in *. clearbody low w.
  set (p := weight (top a - 1)) in *. assert (E2 : forall k, 0 <= k -> weight (2 * (top a - 1) + k) = p * p * weight k).
  { intros k Hk. rewrite weight_add by lia. f_equal. unfold p. rewrite <- weight_add by lia. f_equal. lia. }
  rewrite E. destruct (Z.ltb_spec w (2 ^ 32)).
  - replace (2 * top a - 1 - 1) with (2 * (top a - 1) + 0) by lia. replace (2 * top a - 1) with (2 * (top a - 1) + 1) by lia. rewrite !E2 by lia.
    change (weight 0) with 1. change (weight 1) with (2 ^ 32 * 2 ^ 32). assert (p <= low + p * w < p * 2 ^ 32) by nia. nia.
  - replace (2 * top a - 1) with (2 * (top a - 1) + 1) by lia. replace (2 * top a) with (2 * (top a - 1) + 2) by lia. rewrite !E2 by lia.
    change (weight 1) with (2 ^ 32 * 2 ^ 32). change (weight 2) with (2 ^ 64 * 2 ^ 64). assert (p * 2 ^ 32 <= low + p * w < p * 2 ^ 64) by nia. nia.
Qed.

Lemma sqr_words_product a tsize : bn_ok a -> 0 < top a <= word_limit ->
  let bits := BN_num_bits_word (u64 (top a)) in
  let j := Z.shiftl 1 (bits - 1) in
  16 <= top a -> (if top a =? j then (j + j) * 2 else 2 * top a) <= tsize ->
  is_product (if top a =? j then bn_sqr_recursive (S (Z.to_nat bits)) (words a) (top a) tsize else
              guard (2 * top a <=? tsize) in Some (bn_sqr_normal (words a) (top a))) (2 * top a) (bn_abs a) (bn_abs a).
Proof.
  intros Oa Ha bits j G Ht. destruct (nonzero_words a Oa (proj1 Ha)) as (Wa & La & Ta & _). assert (word_limit < 2 ^ 64) by reflexivity.
  unfold j, bits in *. clear j bits. destruct (size_bits (top a) ltac:(lia)) as (k & E & Ej & Hj). rewrite E, Ej in *.
  destruct (Z.eqb_spec (top a) (2 ^ Z.of_nat k)) as [Eq | N].
  - pose proof (sqr_recursive_product (S (Z.to_nat (Z.of_nat k + 1))) k (top a) (words a) tsize ltac:(lia) Eq ltac:(lia) Wa ltac:(lia) ltac:(lia)) as P.
    rewrite Ta in P. exact P.
  - destruct (Z.leb_spec (2 * top a) tsize); [| lia]. pose proof (sqr_normal_product (words a) (top a) Wa ltac:(lia)) as P. rewrite Ta in P. exact P.
Qed.

Lemma sqr_into_ok rr tmp a : bn_mem rr -> temporary_ok tmp -> bn_ok a -> 0 < top a <= word_limit ->
  exists ok r' tmp', sqr_into alloc_ok uninit rr tmp a = Some (ok, r', tmp') /\
    delivers alloc_ok rr (4 * top a) (ok, r') (bn_val a * bn_val a) /\ temporary_ok tmp'.
Proof.
  intros M Tt Oa Ha. destruct (nonzero_words a Oa (proj1 Ha)) as (Wa & La & Ta & _). assert (word_limit < 2 ^ 64) by reflexivity.
  unfold sqr_into, BN_SQR_RECURSIVE_SIZE_NORMAL, BN_MUL_RECURSIVE_SIZE_NORMAL.
  destruct (wexpand_case alloc_ok uninit uninit_len rr (2 * top a) M ltac:(lia)) as [(-> & R) | (r1 & -> & M1 & D1 & _ & _ & _ & S1)]; cbn [negb].
  { exists false, rr, tmp. split; [reflexivity | split; [| exact Tt]]. apply delivers_false; [exact M | reflexivity |]. apply (refuses_mono alloc_ok rr rr (2 * top a)); [reflexivity | lia | exact R]. }
  destruct (size_bits (top a) ltac:(lia)) as (k & Ek & Ej & Hj).
  rewrite <- Ek in Ej. set (j := Z.shiftl 1 (BN_num_bits_word (u64 (top a)) - 1)) in *. rewrite <- Ej in Hj.
  set (size := if top a =? j then (j + j) * 2 else 2 * top a). assert (Hs : 0 <= size <= 4 * top a) by (unfold size; destruct (top a =? j); lia).
  assert (X : exists ok t1, (if (top a =? 4) || (top a =? 8) || (top a <? 16) then (true, tmp) else bn_wexpand alloc_ok uninit tmp size) = (ok, t1) /\ temporary_ok t1 /\
    (if ok : bool then 16 <= top a -> size <= dmax t1 else starved alloc_ok \/ word_limit < size)).
  { destruct ((top a =? 4) || (top a =? 8) || (top a <? 16)) eqn:Es.
    - exists true, tmp. split; [reflexivity | split; [exact Tt |]]. rewrite !orb_true_iff, !Z.eqb_eq, Z.ltb_lt in Es. lia.
    - destruct (wexpand_temporary alloc_ok uninit tmp size uninit_len Tt ltac:(lia)) as (ok & t1 & E & T1 & F). exists ok, t1. split; [exact E | split; [exact T1 |]]. destruct ok; [intros _; exact F | exact F]. }
  destruct X as (ok & t1 & -> & T1 & F). destruct ok; cbn [negb].
  2: { exists false, r1, t1. split; [reflexivity | split; [| exact T1]]. apply delivers_false; [exact M1 | exact S1 |]. destruct F; [now left | right; left; lia]. }
  set (l := if top a =? 4 then _ else _).
  assert (P : is_product l (2 * top a) (bn_abs a) (bn_abs a)).
  { unfold l. destruct (Z.eqb_spec (top a) 4) as [E4 | N4]; [| destruct (Z.eqb_spec (top a) 8) as [E8 | N8]; [| destruct (Z.ltb_spec (top a) 16)]].
    - destruct (sqr_comba4_value (words a) Wa ltac:(lia)) as (L & W & V). rewrite <- E4, Ta in V. eexists. split; [reflexivity |]. repeat split; [lia | exact W | exact V].
    - destruct (sqr_comba8_value (words a) Wa ltac:(lia)) as (L & W & V). rewrite <- E8, Ta in V. eexists. split; [reflexivity |]. repeat split; [lia | exact W | exact V].
    - pose proof (sqr_normal_product (words a) (top a) Wa ltac:(lia)) as P. rewrite Ta in P. exact P.
    - apply sqr_words_product; try assumption. now apply F. }
  clearbody l. pose proof (square_top a Oa (proj1 Ha)) as Sq. cbv zeta in Sq. set (t := if _ =? _ then 2 * top a - 1 else 2 * top a) in *.
  assert (Hv : 0 < t <= 2 * top a) by (clearbody size; unfold t; destruct (_ =? _); lia). clearbody t. pose proof (weight_pos (t - 1) ltac:(lia)) as Pw. destruct P as (l' & -> & P).
  destruct (write_product r1 l' (2 * top a) (bn_abs a) (bn_abs a) t M1 ltac:(now exists l') ltac:(lia) ltac:(lia) ltac:(lia)) as (r2 & -> & M2 & W2 & V2 & T2 & N2 & S2).
  exists true, (with_neg r2 false), t1. split; [reflexivity | split; [| exact T1]]. apply delivers_ok.
  - apply ok_intro; [exact M2 | exact W2 | | reflexivity]. change (top (with_neg r2 false)) with (top r2). change (bn_abs (with_neg r2 false)) with (bn_abs r2).
    rewrite T2, V2, weight_base, Z2Nat.id by lia. intros _. apply Sq.
  - cbn [is_static with_neg]. congruence.
  - unfold bn_val. cbn [neg with_neg]. change (bn_abs (with_neg r2 false)) with (bn_abs r2). rewrite V2. destruct (neg a); ring.
Qed.

Lemma sqr_returns r a c : bn_mem r -> bn_fits (operand r a) -> ctx_ok c ->
  returns r (4 * top (operand r a)) (bn_val (operand r a) * bn_val (operand r a)) c (BN_sqr alloc_ok uninit r a c).
Proof.
  intros Mr [Oa Fa] Hc. unfold BN_sqr. set (x := operand r a) in *. fold word_limit in Fa. pose proof (proj1 Oa) as Mx. unfold bn_mem in Mx. pose proof (ok_pos x Oa) as Px.
  destruct (Z.leb_spec (top x) 0) as [E0 | E0].
  { exists true, (BN_zero r), c. split; [reflexivity | split; [| reflexivity]]. apply zero_delivers; [exact Mr |].
    pose proof (abs_nonneg x Oa). unfold bn_val. replace (bn_abs x) with 0 by lia. destruct (neg x); reflexivity. }
  pose proof (ctx_start_open c Hc) as O0.
  assert (Scarce : forall ts c2, lends_back c ts c2 -> starved alloc_ok -> returns r (4 * top x) (bn_val x * bn_val x) c (Some (false, r, ctx_end c2 ts))).
  { intros ts c2 L S. apply returns_end; [apply delivers_false; [exact Mr | reflexivity | now left] | exact L]. }
  destruct a as [a |].
  - pose proof (ctx_get_open c _ O0) as G. destruct (ctx_get (ctx_start c)) as [[tmp |] c2].
    + destruct G as (G & _ & Tt & _). destruct (sqr_into_ok r tmp x Mr Tt Oa ltac:(lia)) as (ok & r' & tmp' & -> & D & T').
      apply returns_end; [exact D | split; [exact G | constructor; [exact T' | constructor]]].
    + destruct G as [G S]. apply Scarce; [split; [exact G | constructor] | exact S].
  - pose proof (ctx_get_open c _ O0) as G. destruct (ctx_get (ctx_start c)) as [[rr |] c1].
    + destruct G as (G & _ & Tr & _). pose proof (ctx_get_open c _ G) as G2. destruct (ctx_get c1) as [[tmp |] c2].
      * destruct G2 as (G2 & _ & Tt & _). destruct (sqr_into_ok rr tmp x (proj1 Tr) Tt Oa ltac:(lia)) as (ok & r' & tmp' & -> & D & T').
        apply (returns_copied r (4 * top x) _ c ok rr r' [tmp'] c2 (4 * top x)); try assumption; [lia | | split; [exact G2 | constructor; [exact T' | constructor]]].
        intros z Oz Vz. pose proof (product_top z x x Oa Oa ltac:(lia) ltac:(lia) Oz Vz). lia.
      * destruct G2 as [G2 S]. apply Scarce; [split; [exact G2 | constructor; [exact Tr | constructor]] | exact S].
    + destruct G as [G S]. pose proof (ctx_get_open c _ G) as G2. destruct (ctx_get c1) as [[tmp |] c2].
      * destruct G2 as (G2 & _ & Tt & _). apply Scarce; [split; [exact G2 | constructor; [exact Tt | constructor]] | exact S].
      * destruct G2 as [G2 _]. apply Scarce; [split; [exact G2 | constructor] | exact S].
Qed.

Lemma mul_word_delivers bn w : bn_ok bn -> word_ok w ->
  delivers alloc_ok bn (top bn + 1) (BN_mul_word alloc_ok uninit bn w) (bn_val bn * w).
Proof.
  intros O Hw. pose proof (proj1 O) as M. unfold bn_mem in M. pose proof (ok_pos bn O) as Pb. unfold BN_mul_word. rewrite word_land by exact Hw.
  destruct (Z.eqb_spec (top bn) 0) as [E0 | E0].
  { apply delivers_ok; [exact O | reflexivity |]. pose proof (abs_nonneg bn O). unfold bn_val. replace (bn_abs bn) with 0 by lia. destruct (neg bn); lia. }
  destruct (Z.eqb_spec w 0) as [-> | W0]; [apply zero_delivers; [apply O | lia] |]. unfold word_ok in Hw.
  destruct (nonzero_words bn O ltac:(lia)) as (Wa & La & Ta & Za & R1 & R2).
  destruct (mul_words_Z (words bn) (top bn) w Wa ltac:(lia) Hw) as (l & ll & -> & L & W & Hll & V). rewrite Ta in V. fold (bn_abs bn) in V.
  destruct (put_words_spec bn l (top bn) (eq_sym L) ltac:(lia)) as (P1 & P2 & P3 & P4 & P5). set (b1 := put_words bn l (top bn)) in *.
  assert (V1 : bn_abs b1 = le_val l) by (unfold bn_abs; now rewrite P2). pose proof (val_range l W) as Rl. rewrite L in Rl.
  pose proof (weight_pos (top bn) ltac:(lia)) as Pw. unfold word_ok in Hll.
  assert (Es : bn_val bn * w = if neg bn then - (w * bn_abs bn) else w * bn_abs bn) by (unfold bn_val; destruct (neg bn); ring).
  rewrite Es. destruct (Z.eqb_spec ll 0) as [El | Nl]; cbn [negb].
  - apply delivers_ok; [| reflexivity | unfold bn_val; rewrite P4, V1, <- V, El; now rewrite Z.mul_0_r, Z.add_0_r].
    apply ok_intro; [exact P1 | rewrite P2; exact W | rewrite P3, V1, weight_base, Z2Nat.id by lia; intros _; nia | rewrite P3; lia].
  - rewrite P3. destruct (wexpand_case alloc_ok uninit uninit_len b1 (top bn + 1) P1 ltac:(lia)) as [(-> & R) | (r1 & -> & M1 & D1 & W1 & T1 & N1 & S1)]; cbn [negb].
    { apply delivers_false; [exact P1 | reflexivity | exact R]. }
    rewrite T1, P3. destruct (push_word_spec r1 (top bn) ll (neg r1) ltac:(lia)) as (Q1 & Q2 & Q3). set (b2 := mk_bn _ _ _ _) in *.
    assert (Ew : words b2 = l ++ [ll]) by (change (words r1) with (take (top r1) (d r1)) in W1; rewrite T1, P3 in W1; now rewrite Q2, W1, P2).
    assert (V2 : bn_abs b2 = w * bn_abs bn) by (unfold bn_abs at 1; rewrite Ew, val_app, L; cbn [le_val]; lia).
    apply delivers_ok; [| exact S1 | unfold bn_val at 1; rewrite V2; change (neg b2) with (neg r1); now rewrite N1, P4].
    apply ok_intro; [exact Q1 | rewrite Ew; apply words_ok_app; [exact W | apply words_ok_1; unfold word_ok; lia] | | cbn [top b2]; lia].
    intros _. rewrite V2, <- V, weight_base, Z2Nat.id by (cbn [top b2]; lia). cbn [top b2]. replace (top bn + 1 - 1) with (top bn) by lia. nia.
Qed.
End NumberFacts.

(** ** Property *)

(** C27: multiplication of numbers is exact. Whatever [BN_CTX] is behind the
    interface, and whether the result is one of the operands or not, [BN_mul] and
    [BN_sqr] (which run the Comba, Karatsuba or schoolbook routine that the sizes
    select) never access past an array, give the product in normal form, leave the
    context as it was, and fail only for want of memory or room; so does
    [BN_mul_word], in place. *)
Theorem BN_mul_exact {C : Type} {T : Temporaries C} alloc_ok {TC : TemporariesOk C (starved alloc_ok)} uninit r a b c w :
  (forall n, 0 <= n -> len (uninit n) = n) -> bn_mem r -> bn_fits (operand r a) -> bn_fits (operand r b) -> ctx_ok c -> word_ok w ->
  let x := operand r a in
  let y := operand r b in
  returns alloc_ok r (8 * Z.max (top x) (top y)) (bn_val x * bn_val y) c (BN_mul alloc_ok uninit r a b c) /\
  returns alloc_ok r (4 * top x) (bn_val x * bn_val x) c (BN_sqr alloc_ok uninit r a c) /\
  delivers alloc_ok x (top x + 1) (BN_mul_word alloc_ok uninit x w) (bn_val x * w).
Proof.
  intros U Mr Fa Fb Hc Hw. split; [now apply mul_returns | split; [now apply sqr_returns |]]. apply mul_word_delivers; [exact U | apply Fa | exact Hw].
Qed.

(** Storage for examples. *)
Definition stale (n : Z) : list Z := repeat 42 (Z.to_nat n).

Lemma stale_len n : 0 <= n -> len (stale n) = n.
Proof. intros Hn. unfold stale. rewrite len_repeat. lia. Qed.

(** The product of a negative number of 16 words by one of 17 in place, and its
    square, with a new context. *)
Lemma BN_mul_exact_witness :
  let alloc := fun _ : Z => true in
  let r := mk_bn (map (fun i => 2 ^ 64 - Z.of_nat i) (seq 1 16)) 16 true false in
  let b := mk_bn (repeat 5 20) 17 false false in
  let c := mk_ctx BN_POOL_init BN_STACK_init 0 0 false in
  let T := ctx_temporaries alloc stale in
  let TC := ctx_temporaries_ok alloc stale stale_len in
  returns (H := T) (TC := TC) alloc r 136 (bn_val r * bn_val b) c (BN_mul (H := T) alloc stale r None (Some b) c) /\
  returns (H := T) (TC := TC) alloc r 64 (bn_val r * bn_val r) c (BN_sqr (H := T) alloc stale r None c).
Proof.
  intros alloc r b c T TC. destruct (BN_mul_exact (TC := TC) alloc stale r None (Some b) c 3 stale_len) as (H1 & H2 & _).
  - split; apply Z.leb_le; reflexivity.
  - split; [apply bn_check_ok; reflexivity | apply Z.leb_le; reflexivity].
  - split; [apply bn_check_ok; reflexivity | apply Z.leb_le; reflexivity].
  - vm_compute. repeat split; try discriminate; try (left; reflexivity).
  - unfold word_ok. lia.
  - split; [exact H1 | exact H2].
Defined.
