(* ===== verification/BnDiv.v ===== *)
(** * Division of big integers (crypto/fipsmodule/bn/div.c)

    Long division word by word, and the routines on residues built on it. The
    arguments of a routine are names of objects, which may coincide; [objects] is
    what they hold. A routine returns its success, the objects and the context it
    leaves; [None] is an access past the end of an array, or fuel used up. The
    words left in the product [tmp] of one step are dead, and not modelled. *)

From S2P Require Import Prelude Buffers BnWords Bignum BnBytes BnCtx BnShift BnProducts BnMul.

(** ** Words *)

(** The [BN_ULLONG] branch: quotient and remainder of two words by one. *)
Definition bn_div_rem_words (n0 n1 d0 : Z) : Z * Z :=
  let n := Z.lor (wrap 128 (Z.shiftl n0 64)) n1 in
  let q := u64 (n / d0) in
  (q, u64 (n1 - u64 (q * d0))).

(** [for (;;)] around [t2]: the quotient is decreased while the second word of
    the divisor shows it to be too large; [w2] is [wnump[-2]]. *)
Fixpoint refine (fuel : nat) (q rem t2 d0 d1 w2 : Z) : option Z :=
  match fuel with
  | O => None
  | S fuel =>
      if t2 <=? Z.lor (wrap 128 (Z.shiftl rem 64)) w2 then Some q else
      let q := u64 (q - 1) in
      let rem := u64 (rem + d0) in
      if rem <? d0 then Some q else refine fuel q rem (wrap 128 (t2 - d1)) d0 d1 w2
  end.

Definition quotient_word (n0 n1 w2 d0 d1 : Z) : option Z :=
  if n0 =? d0 then Some BN_MASK2 else
  let (q, rem) := bn_div_rem_words n0 n1 d0 in
  refine 3 q rem (wrap 128 (d1 * q)) d0 d1 w2.

(** One turn of the loop: the quotient word, and the [div_n + 1] words of the
    window. *)
Definition div_step (w sdiv : list Z) (div_n w2 d0 d1 : Z) : option (Z * list Z) :=
  let* q := quotient_word (get w div_n) (get w (div_n - 1)) w2 d0 d1 in
  let (tmp, l0) := bn_mul_words sdiv (Z.to_nat div_n) q in
  let (w, borrow) := bn_sub_words w (tmp ++ [l0]) (Z.to_nat (div_n + 1)) in
  if negb (borrow =? 0) then
    let (low, c) := bn_add_words w sdiv (Z.to_nat div_n) in
    let top := get w div_n in
    Some (u64 (q - 1), low ++ [if negb (c =? 0) then u64 (top + 1) else top])
  else Some (q, w).

(** The loop, with [n] turns left: [snum] and the words of [res]. *)
Fixpoint div_loop (n : nat) (snum sdiv : list Z) (div_n d0 d1 : Z) (resp : list Z) : option (list Z * list Z) :=
  match n with
  | O => Some (snum, resp)
  | S m =>
      let start := Z.of_nat n in
      let* step := div_step (take (div_n + 1) (drop start snum)) sdiv div_n (get snum (start + div_n - 2)) d0 d1 in
      let (q, w) := step : Z * list Z in
      div_loop m (splice snum start w) sdiv div_n d0 d1 (set resp (Z.of_nat m) q)
  end.

(** ** Objects *)

Definition objects : Type := Z -> BIGNUM.
Definition put (o : objects) (i : Z) (b : BIGNUM) : objects := fun k => if k =? i then b else o k.
Definition put_opt (o : objects) (i : option Z) (b : BIGNUM) : objects := match i with Some i => put o i b | None => o end.

(** ** Division *)

(** The numbers [BN_div] works with. *)
Record workspace := mk_work { w_tmp : BIGNUM; w_snum : BIGNUM; w_sdiv : BIGNUM; w_res : BIGNUM }.

Section Div.
Variable alloc_ok : Z -> bool.
Variable uninit : Z -> list Z.
Context {C : Type} `{Temporaries C}.

(** From the padding of [snum] to [bn_correct_top(snum)]. *)
Definition divide_words (ws : workspace) (neg_res : bool) : option (bool * workspace) :=
  let snum := w_snum ws in
  let sdiv := w_sdiv ws in
  let size := if top snum <=? top sdiv + 1 then top sdiv + 2 else top snum + 1 in
  let (ok, snum) := bn_wexpand alloc_ok uninit snum size in
  if negb ok then Some (false, mk_work (w_tmp ws) snum sdiv (w_res ws)) else
  let snum := mk_bn (splice (d snum) (top snum) (repeat 0 (Z.to_nat (size - top snum)))) size (neg snum) (is_static snum) in
  let div_n := top sdiv in
  let num_n := top snum in
  let loop := num_n - div_n in
  let d0 := get (d sdiv) (div_n - 1) in
  let d1 := if div_n =? 1 then 0 else get (d sdiv) (div_n - 2) in
  let (ok, res) := bn_wexpand alloc_ok uninit (with_neg (w_res ws) neg_res) (loop + 1) in
  if negb ok then Some (false, mk_work (w_tmp ws) snum sdiv res) else
  let res := mk_bn (d res) (loop - 1) (neg res) (is_static res) in
  let (ok, tmp) := bn_wexpand alloc_ok uninit (w_tmp ws) (div_n + 1) in
  if negb ok then Some (false, mk_work tmp snum sdiv res) else
  let res := if top res =? 0 then with_neg res false else res in
  let* out := div_loop (Z.to_nat (loop - 1)) (words snum) (words sdiv) div_n d0 d1 (take (loop - 1) (d res)) in
  let (s, q) := out : list Z * list Z in
  let* snum := write_words snum s num_n in
  let* res := write_words res q (loop - 1) in
  Some (true, mk_work tmp (bn_correct_top snum) sdiv res).

(** [BN_div] from the normalisation to [bn_correct_top(snum)], with the shift. *)
Definition divide (ws : workspace) (num divisor : BIGNUM) : option (bool * workspace * Z) :=
  let norm_shift := BN_BITS2 - BN_num_bits divisor mod BN_BITS2 in
  let (ok, sdiv) := BN_lshift alloc_ok uninit (w_sdiv ws) (Some divisor) norm_shift in
  if negb ok then Some (false, mk_work (w_tmp ws) (w_snum ws) sdiv (w_res ws), norm_shift) else
  let sdiv := with_neg sdiv false in
  let norm_shift := norm_shift + BN_BITS2 in
  let (ok, snum) := BN_lshift alloc_ok uninit (w_snum ws) (Some num) norm_shift in
  if negb ok then Some (false, mk_work (w_tmp ws) snum sdiv (w_res ws), norm_shift) else
  let snum := with_neg snum false in
  let* out := divide_words (mk_work (w_tmp ws) snum sdiv (w_res ws)) (xorb (neg num) (neg divisor)) in
  let (ok, ws) := out : bool * workspace in
  Some (ok, ws, norm_shift).

Fixpoint ctx_gets (n : nat) (ctx : C) : list (option BIGNUM) * C :=
  match n with
  | O => ([], ctx)
  | S n => let (t, ctx) := ctx_get ctx in let (ts, ctx) := ctx_gets n ctx in (t :: ts, ctx)
  end.

Definition somes (l : list (option BIGNUM)) : list BIGNUM := flat_map (fun x => match x with Some b => [b] | None => [] end) l.

(** [bn->top > 0 && bn->d[bn->top - 1] == 0]. *)
Definition padded (bn : BIGNUM) : bool := (0 <? top bn) && (get (d bn) (top bn - 1) =? 0).

(** [tmp], [snum], [sdiv] and [res]; none if one of them is null. *)
Definition temps (dv : option Z) (o : objects) (ts : list (option BIGNUM)) : option workspace :=
  match dv, ts with
  | Some dv, [Some tmp; Some snum; Some sdiv] => Some (mk_work tmp snum sdiv (o dv))
  | None, [Some tmp; Some snum; Some sdiv; Some res] => Some (mk_work tmp snum sdiv res)
  | _, _ => None
  end.

Definition borrowed (dv : option Z) (ws : workspace) : list BIGNUM :=
  match dv with
  | Some _ => [w_tmp ws; w_snum ws; w_sdiv ws]
  | None => [w_tmp ws; w_snum ws; w_sdiv ws; w_res ws]
  end.

(** [if (rm != NULL)]. *)
Definition take_remainder (rm : option Z) (snum : BIGNUM) (norm_shift : Z) (neg_num : bool) (o : objects) : bool * objects :=
  match rm with
  | None => (true, o)
  | Some rm =>
      let (ok, r) := BN_rshift alloc_ok uninit (o rm) (Some snum) norm_shift in
      (ok, put o rm (if ok && negb (BN_is_zero r) then with_neg r neg_num else r))
  end.

Definition BN_div (dv rm : option Z) (num divisor : Z) (o : objects) (ctx : C) : option (bool * objects * C) :=
  if padded (o num) || padded (o divisor) then Some (false, o, ctx) else
  if BN_is_zero (o divisor) then Some (false, o, ctx) else
  let ctx := ctx_start ctx in
  let (ts, ctx) := ctx_gets (match dv with Some _ => 3 | None => 4 end) ctx in
  match temps dv o ts with
  | None => Some (false, o, ctx_end ctx (somes ts))
  | Some ws =>
      let* out := divide ws (o num) (o divisor) in
      let '(ok, ws, norm_shift) := out in
      let o := put_opt o dv (w_res ws) in
      if negb ok then Some (false, o, ctx_end ctx (borrowed dv ws)) else
      let (ok, o) := take_remainder rm (w_snum ws) norm_shift (neg (o num)) o in
      if negb ok then Some (false, o, ctx_end ctx (borrowed dv ws)) else
      let o := match dv with Some dv => put o dv (bn_correct_top (o dv)) | None => o end in
      let ws := mk_work (w_tmp ws) (w_snum ws) (w_sdiv ws) (bn_correct_top (w_res ws)) in
      Some (true, o, ctx_end ctx (borrowed dv ws))
  end.
End Div.

(** ** One word of quotient *)

Lemma two_words h l : word_ok h -> word_ok l -> Z.lor (wrap 128 (Z.shiftl h 64)) l = h * 2 ^ 64 + l.
Proof.
  unfold word_ok. intros Hh Hl. rewrite wrap_small; [apply lor_disjoint_add; lia |]. rewrite Z.shiftl_mul_pow2 by lia. lia.
Qed.

(** Decreasing stops at the greatest word not too large for two words of the
    divisor. *)
Lemma refine_value d0 d1 w2 n2 : 2 ^ 63 <= d0 < 2 ^ 64 -> word_ok d1 -> word_ok w2 -> forall fuel q rem,
  word_ok q -> word_ok rem -> q * d0 + rem = n2 -> 2 ^ 64 <= rem + Z.of_nat fuel * 2 ^ 63 ->
  exists q', refine fuel q rem (d1 * q) d0 d1 w2 = Some q' /\ 0 <= q' <= q /\ q' * (d0 * 2 ^ 64 + d1) <= n2 * 2 ^ 64 + w2 /\
    forall x, x <= q -> x * (d0 * 2 ^ 64 + d1) <= n2 * 2 ^ 64 + w2 -> x <= q'.
Proof.
  intros Hd H1 H2. induction fuel as [| fuel IH]; intros q rem Hq Hr E F; [unfold word_ok in *; lia |]. cbn [refine].
  rewrite two_words by assumption. destruct (Z.leb_spec (d1 * q) (rem * 2 ^ 64 + w2)) as [L | L].
  - exists q. unfold word_ok in *. repeat split; [lia | lia | nia | intros x Hx _; exact Hx].
  - unfold word_ok in *. assert (Hq1 : 1 <= q) by nia. rewrite (wrap_small 64 (q - 1)) by lia.
    assert (Low : forall x, x <= q -> x * (d0 * 2 ^ 64 + d1) <= n2 * 2 ^ 64 + w2 -> x <= q - 1).
    { intros x Hx Hv. destruct (Z.eq_dec x q) as [-> |]; [exfalso; nia | lia]. }
    destruct (Z.ltb_spec (u64 (rem + d0)) d0) as [O | O].
    + exists (q - 1). assert (G : 2 ^ 64 <= rem + d0) by (destruct (Z.lt_ge_cases (rem + d0) (2 ^ 64)); [rewrite wrap_small in O; lia | assumption]).
      repeat split; [lia | lia | nia | exact Low].
    + assert (G : rem + d0 < 2 ^ 64). { destruct (Z.lt_ge_cases (rem + d0) (2 ^ 64)); [assumption |]. exfalso. revert O. unfold wrap. rewrite <- (Z.mod_unique_pos (rem + d0) (2 ^ 64) 1 (rem + d0 - 2 ^ 64)); lia. }
      rewrite wrap_small by lia. rewrite wrap_small by nia. replace (d1 * q - d1) with (d1 * (q - 1)) by ring.
      destruct (IH (q - 1) (rem + d0)) as (q' & E' & R' & V' & M'); [lia | lia | nia | lia |].
      exists q'. split; [exact E' | split; [lia | split; [exact V' |]]]. intros x Hx Hv. apply M'; [now apply Low | exact Hv].
Qed.

Lemma quotient_word_value n0 n1 w2 d0 d1 : word_ok n0 -> word_ok n1 -> word_ok w2 -> 2 ^ 63 <= d0 < 2 ^ 64 -> word_ok d1 -> n0 <= d0 ->
  let n3 := (n0 * 2 ^ 64 + n1) * 2 ^ 64 + w2 in
  let d2 := d0 * 2 ^ 64 + d1 in
  exists q, quotient_word n0 n1 w2 d0 d1 = Some q /\ word_ok q /\
    (q * d2 <= n3 \/ n0 = d0 /\ q = 2 ^ 64 - 1) /\ (forall x, x < 2 ^ 64 -> x * d2 <= n3 -> x <= q).
Proof.
  intros H0 H1 Hw Hd Hd1 Hle n3 d2. unfold quotient_word. destruct (Z.eqb_spec n0 d0) as [E | N].
  - exists BN_MASK2. unfold BN_MASK2, word_ok. split; [reflexivity | split; [lia | split; [right; split; [exact E | reflexivity] |]]]. intros; lia.
  - unfold bn_div_rem_words. rewrite two_words by assumption. set (n2 := n0 * 2 ^ 64 + n1) in *.
    pose proof (Z.div_mod n2 d0 ltac:(lia)) as Dm. pose proof (Z.mod_pos_bound n2 d0 ltac:(lia)) as Rm. unfold word_ok in H0, H1.
    assert (Hq : 0 <= n2 / d0 < 2 ^ 64) by (split; [apply Z.div_pos; lia | apply Z.div_lt_upper_bound; unfold n2; nia]).
    set (q := n2 / d0) in *. rewrite (wrap_small 64 q) by lia.
    assert (Er : u64 (n1 - u64 (q * d0)) = n2 mod d0).
    { unfold wrap at 1. rewrite Zminus_mod. unfold wrap. rewrite Zmod_mod, <- Zminus_mod. symmetry. apply (Z.mod_unique_pos _ _ (- n0)); [lia |]. unfold n2 in *. lia. }
    rewrite Er. set (rem := n2 mod d0) in *. clearbody q rem. unfold word_ok in Hd1. rewrite wrap_small by nia.
    destruct (refine_value d0 d1 w2 n2 Hd ltac:(unfold word_ok; lia) Hw 3 q rem ltac:(unfold word_ok; lia) ltac:(unfold word_ok; lia) ltac:(lia) ltac:(cbn; lia)) as (q' & -> & R' & V' & M').
    exists q'. split; [reflexivity | split; [unfold word_ok; lia | split; [left; exact V' |]]]. intros x Hx Hv. apply M'; [| exact Hv].
    unfold word_ok in Hw. fold d2 in Hv. assert (x * d0 <= n2) by (unfold d2, n3 in Hv; destruct (Z.lt_ge_cases x 0); nia). nia.
Qed.

Lemma last_word l n : words_ok l -> len l = n -> 0 < n ->
  exists low, le_val l = low + weight (n - 1) * get l (n - 1) /\ 0 <= low < weight (n - 1) /\ low = le_val (take (n - 1) l).
Proof.
  intros W L Hn. exists (le_val (take (n - 1) l)). pose proof (val_range _ (words_ok_take (n - 1) l W)) as R. rewrite len_take in R by lia.
  split; [| split; [exact R | reflexivity]]. rewrite <- (take_all n l) at 1 by lia. replace n with (n - 1 + 1) at 1 by lia.
  rewrite take_succ, val_app, len_take by lia. cbn [le_val]. lia.
Qed.

(** The last two words of a number, a word below them being added when there is
    only one. *)
Lemma last_two l n : words_ok l -> len l = n -> 1 < n ->
  exists low, le_val l = low + weight (n - 2) * (get l (n - 1) * 2 ^ 64 + get l (n - 2)) /\ 0 <= low < weight (n - 2) /\ low = le_val (take (n - 2) l).
Proof.
  intros W L Hn. destruct (last_word l n W L ltac:(lia)) as (x & E & R & Ex).
  destruct (last_word (take (n - 1) l) (n - 1) ltac:(auto with bytes) ltac:(rewrite len_take; lia) ltac:(lia)) as (y & E' & R' & Ey).
  rewrite take_take in Ey by lia. rewrite get_take in E' by lia. replace (n - 1 - 1) with (n - 2) in * by lia.
  exists y. split; [| split; [exact R' | exact Ey]]. rewrite E, Ex, E'. replace (n - 1) with (n - 2 + 1) at 1 by lia. rewrite weight_add by lia. change (weight 1) with (2 ^ 64). ring.
Qed.

(** The quotient word is the quotient of the window, or one more. *)
Lemma quotient_near w sdiv k w2 : words_ok w -> words_ok sdiv -> word_ok w2 -> 0 < k -> len w = k + 1 -> len sdiv = k ->
  2 ^ 63 <= get sdiv (k - 1) -> (1 < k -> w2 = get w (k - 2)) -> le_val w < le_val sdiv * 2 ^ 64 ->
  exists q, quotient_word (get w k) (get w (k - 1)) w2 (get sdiv (k - 1)) (if k =? 1 then 0 else get sdiv (k - 2)) = Some q /\ word_ok q /\
    (q = le_val w / le_val sdiv \/ q = le_val w / le_val sdiv + 1).
Proof.
  intros Ww Ws H2 Hk Lw Ls Hd Hw2 Hlt. destruct (last_word sdiv k Ws Ls Hk) as (dr & Es & Rd & _).
  destruct (last_two w (k + 1) Ww Lw ltac:(lia)) as (xr & Ew & Rx & Exr). replace (k + 1 - 1) with k in Ew by lia. replace (k + 1 - 2) with (k - 1) in * by lia.
  pose proof (word_get sdiv (k - 1) Ws) as Wd0. pose proof (word_get w k Ww) as Wn0. pose proof (word_get w (k - 1) Ww) as Wn1.
  set (n0 := get w k) in *. set (n1 := get w (k - 1)) in *. set (d0 := get sdiv (k - 1)) in *. set (d1 := if k =? 1 then 0 else get sdiv (k - 2)).
  assert (Wd1 : word_ok d1) by (unfold d1; destruct (k =? 1); [unfold word_ok; lia | now apply word_get]).
  pose proof (weight_pos (k - 1) ltac:(lia)) as Pp. set (p := weight (k - 1)) in *. unfold word_ok in Wd0, Wn0, Wn1.
  assert (Hle : n0 <= d0) by (apply Z.lt_succ_r, (Z.mul_lt_mono_pos_l (p * 2 ^ 64)); nia).
  destruct (quotient_word_value n0 n1 w2 d0 d1 ltac:(unfold word_ok; lia) ltac:(unfold word_ok; lia) H2 ltac:(lia) Wd1 Hle) as (q & Eq & Wq & Up & Lo).
  set (D := le_val sdiv) in *. set (X := le_val w) in *. exists q. split; [exact Eq | split; [exact Wq |]].
  assert (PD : 0 < D) by nia. pose proof (Z.div_mod X D ltac:(lia)) as Dm. pose proof (Z.mod_pos_bound X D PD) as Rm.
  set (n3 := (n0 * 2 ^ 64 + n1) * 2 ^ 64 + w2) in *. set (d2 := d0 * 2 ^ 64 + d1) in *. unfold word_ok in H2, Wd1, Wq.
  assert (PX : 0 <= X) by nia. assert (Qb : 0 <= X / D < 2 ^ 64) by (split; [apply Z.div_pos; lia | apply Z.div_lt_upper_bound; lia]).
  (* the same division by the two leading words *)
  assert (Both : (forall x, 0 <= x -> x * D <= X -> x * d2 <= n3) /\ (q * d2 <= n3 -> (q - 1) * D <= X)).
  { destruct (Z.eq_dec k 1) as [E1 | N1].
    - assert (Ed : d1 = 0) by (unfold d1; now rewrite E1). assert (Epp : p = 1) by (unfold p; now rewrite E1). unfold d2, n3. rewrite Ed. split; [intros x Hx Hv | intros Hv]; nia.
    - assert (Ed : d1 = get sdiv (k - 2)) by (unfold d1; destruct (Z.eqb_spec k 1); [lia | reflexivity]).
      destruct (last_two sdiv k Ws Ls ltac:(lia)) as (dl & Es2 & Rdl & _). fold D d0 in Es2. rewrite <- Ed in Es2. fold d2 in Es2.
      destruct (last_word (take (k - 1) w) (k - 1) ltac:(auto with bytes) ltac:(rewrite len_take; lia) ltac:(lia)) as (xl & Ex2 & Rxl & _).
      rewrite get_take in Ex2 by lia. replace (k - 1 - 1) with (k - 2) in * by lia. rewrite <- Hw2, <- Exr in Ex2 by lia.
      assert (Epp : p = weight (k - 2) * 2 ^ 64) by (unfold p; replace (k - 1) with (k - 2 + 1) by lia; now rewrite weight_add by lia).
      pose proof (weight_pos (k - 2) ltac:(lia)) as Pq. set (p2 := weight (k - 2)) in *.
      assert (EX : X = xl + p2 * n3) by (unfold n3; rewrite Ew, Ex2, Epp; ring). clearbody n3 d2 p2. split; [intros x Hx Hv | intros Hv].
      + apply Z.lt_succ_r, (Z.mul_lt_mono_pos_l p2); [exact Pq |]. pose proof (Z.mul_nonneg_nonneg x dl Hx ltac:(lia)).
        replace (p2 * (x * d2)) with (x * D - x * dl) by (rewrite Es2; ring). lia.
      + pose proof (Z.mul_le_mono_nonneg_l _ _ p2 ltac:(lia) Hv). pose proof (Z.mul_le_mono_nonneg_l dl p2 q ltac:(lia) ltac:(lia)).
        pose proof (Z.mul_le_mono_nonneg_r q (2 ^ 64) p2 ltac:(lia) ltac:(lia)). pose proof (Z.mul_le_mono_nonneg_l 1 d0 p ltac:(lia) ltac:(lia)).
        rewrite Z.mul_sub_distr_r. replace (q * D) with (q * dl + p2 * (q * d2)) by (rewrite Es2; ring). lia. }
  destruct Both as [BothLo BothUp].
  assert (L : X / D <= q) by (apply Lo; [lia | apply BothLo; nia]).
  assert (U : (q - 1) * D <= X). { destruct Up as [Up | [E0 Em]]; [now apply BothUp |]. rewrite Em, Ew, E0, Z.mul_add_distr_l.
    pose proof (Z.mul_nonneg_nonneg p n1 ltac:(lia) ltac:(lia)). pose proof (Z.mul_le_mono_nonneg_l (2 ^ 63) d0 p ltac:(lia) Hd). lia. }
  assert (q - 1 <= X / D) by (apply Z.div_le_lower_bound; lia). lia.
Qed.

Lemma div_step_value w sdiv k w2 : words_ok w -> words_ok sdiv -> word_ok w2 -> 0 < k -> len w = k + 1 -> len sdiv = k ->
  2 ^ 63 <= get sdiv (k - 1) -> (1 < k -> w2 = get w (k - 2)) -> le_val w < le_val sdiv * 2 ^ 64 ->
  exists q w', div_step w sdiv k w2 (get sdiv (k - 1)) (if k =? 1 then 0 else get sdiv (k - 2)) = Some (q, w') /\
    word_ok q /\ words_ok w' /\ len w' = k + 1 /\ q = le_val w / le_val sdiv /\ le_val w' = le_val w mod le_val sdiv.
Proof.
  intros Ww Ws H2 Hk Lw Ls Hd Hw2 Hlt. destruct (quotient_near w sdiv k w2 Ww Ws H2 Hk Lw Ls Hd Hw2 Hlt) as (q & Eq & Wq & Near).
  unfold div_step. rewrite Eq. destruct (mul_words_Z sdiv k q Ws ltac:(lia) Wq) as (tmp & l0 & -> & Lt & Wt & Wl0 & Vt). rewrite take_all in Vt by lia.
  destruct (last_word sdiv k Ws Ls Hk) as (dr & Es & Rd & _). pose proof (weight_pos (k - 1) ltac:(lia)) as Pp. pose proof (weight_pos k ltac:(lia)) as Pk.
  pose proof (val_range _ Ws) as RD. rewrite Ls in RD. set (D := le_val sdiv) in *. assert (PD : 0 < D) by nia.
  set (X := le_val w) in *. pose proof (Z.div_mod X D ltac:(lia)) as Dm. pose proof (Z.mod_pos_bound X D PD) as Rm.
  assert (V0 : le_val (tmp ++ [l0]) = q * D) by (rewrite val_app, Lt; cbn [le_val]; lia).
  destruct (sub_words_Z w (tmp ++ [l0]) (k + 1) Ww ltac:(auto with bytes) ltac:(lia) ltac:(rewrite len_app, len_cons, len_nil; lia)) as (r & c & -> & Lr & Wr & Cc & V).
  rewrite !take_all in V by (rewrite ?len_app, ?len_cons, ?len_nil; lia). fold X in V. rewrite V0 in V.
  pose proof (val_range r Wr) as Rr. rewrite Lr in Rr. rewrite weight_add in V, Rr by lia. change (weight 1) with (2 ^ 64) in V, Rr. unfold bit_ok in Cc.
  destruct (Z.eqb_spec c 0) as [C0 | C0]; cbn [negb].
  - assert (q = X / D) by (destruct Near as [? | E]; [assumption | exfalso; nia]).
    exists q, r. split; [reflexivity |]. split; [exact Wq | split; [exact Wr | split; [exact Lr | split; [assumption |]]]]. nia.
  - assert (C1 : c = 1) by lia. rewrite C1 in V. assert (Eq1 : q = X / D + 1) by (destruct Near as [E | ?]; [exfalso; nia | assumption]).
    destruct (add_words_Z r sdiv k Wr Ws ltac:(lia) ltac:(lia)) as (low & c' & -> & Ll & Wl & Cc' & V'). rewrite (take_all k sdiv) in V' by lia. fold D in V'.
    destruct (last_word r (k + 1) Wr Lr ltac:(lia)) as (rl & Er & Rrl & Erl). replace (k + 1 - 1) with k in * by lia. rewrite <- Erl in V'.
    pose proof (word_get r k Wr) as Wtop. set (topw := get r k) in *. unfold word_ok in Wtop. pose proof (val_range low Wl) as Rl. rewrite Ll in Rl.
    assert (EL : le_val low + weight k * (c' + topw) = X mod D + weight k * 2 ^ 64) by nia.
    assert (Ec : c' + topw = 2 ^ 64).
    { apply Z.le_antisymm; [apply Z.lt_succ_r |]; [| apply Z.lt_succ_r]; apply (Z.mul_lt_mono_pos_l (weight k)); nia. }
    unfold bit_ok in Cc'. assert (c' = 1) as -> by lia. cbn [Z.eqb negb]. replace (topw + 1) with (2 ^ 64) by lia. change (u64 (2 ^ 64)) with 0.
    unfold word_ok in Wq. assert (0 <= X / D) by (apply Z.div_pos; [apply (val_range w Ww) | lia]). rewrite wrap_small by lia.
    exists (q - 1), (low ++ [0]). split; [reflexivity |].
    assert (L1 : len (low ++ [0]) = k + 1) by (rewrite len_app; change (len [0]) with 1; lia). rewrite val_app. cbn [le_val].
    split; [unfold word_ok; lia | split; [apply words_ok_app; [exact Wl | apply words_ok_1; unfold word_ok; lia] |]].
    split; [exact L1 | split; [lia | lia]].
Qed.

Lemma high_words_zero l m : words_ok l -> 0 <= m <= len l -> le_val l < weight m -> le_val (take m l) = le_val l /\ le_val (drop m l) = 0.
Proof.
  intros W Hm Hv. rewrite (val_split m l) in * by exact Hm. pose proof (val_range _ (words_ok_take m l W)). pose proof (val_range _ (words_ok_drop m l W)).
  pose proof (weight_pos m ltac:(lia)). assert (le_val (drop m l) < 1) by (apply (Z.mul_lt_mono_pos_l (weight m)); lia).
  replace (le_val (drop m l)) with 0 by lia. lia.
Qed.

Section Loop.
Variables (sdiv : list Z) (k : Z).
Hypotheses (Ws : words_ok sdiv) (Ls : len sdiv = k) (Hk : 0 < k) (Hd : 2 ^ 63 <= get sdiv (k - 1)).

Let D := le_val sdiv.

Lemma divisor_range : weight (k - 1) * 2 ^ 63 <= D < weight k.
Proof.
  destruct (last_word sdiv k Ws Ls Hk) as (low & E & R & _). pose proof (val_range sdiv Ws) as RD. rewrite Ls in RD. fold D in E, RD.
  split; [| apply RD]. pose proof (Z.mul_le_mono_nonneg_l _ _ (weight (k - 1)) ltac:(lia) Hd). lia.
Qed.

(** A turn divides the words from [start] on. *)
Lemma div_turn snum start : words_ok snum -> 0 < start -> start + k + 1 <= len snum -> le_val (drop (start + 1) snum) < D ->
  exists q w, div_step (take (k + 1) (drop start snum)) sdiv k (get snum (start + k - 2)) (get sdiv (k - 1)) (if k =? 1 then 0 else get sdiv (k - 2)) = Some (q, w) /\
    word_ok q /\ words_ok (splice snum start w) /\ len (splice snum start w) = len snum /\ take start (splice snum start w) = take start snum /\
    q = le_val (drop start snum) / D /\ le_val (drop start (splice snum start w)) = le_val (drop start snum) mod D.
Proof.
  intros W Hs L I. pose proof divisor_range as RD. pose proof (weight_pos (k - 1) ltac:(lia)) as Pk. pose proof (weight_add (k - 1) 1 ltac:(lia) ltac:(lia)) as Ek. replace (k - 1 + 1) with k in Ek by lia. change (weight 1) with (2 ^ 64) in Ek.
  assert (Wd : words_ok (drop start snum)) by auto with bytes. assert (Ld : len (drop start snum) = len snum - start) by (rewrite len_drop; lia).
  assert (Ex : le_val (drop start snum) = get snum start + 2 ^ 64 * le_val (drop (start + 1) snum)) by (rewrite (drop_cons_get start snum) by lia; reflexivity).
  pose proof (word_get snum start W) as W0. unfold word_ok in W0. assert (Hx : le_val (drop start snum) < D * 2 ^ 64) by lia.
  destruct (high_words_zero (drop start snum) (k + 1) Wd ltac:(lia)) as [Et Ez]; [rewrite weight_add by lia; change (weight 1) with (2 ^ 64); nia |].
  destruct (div_step_value (take (k + 1) (drop start snum)) sdiv k (get snum (start + k - 2))) as (q & w & E & Wq & Ww & Lw & Vq & Vw);
    try assumption; try (auto with bytes); try (now apply word_get); try (rewrite len_take; lia).
  - intros H1. rewrite get_take, get_drop by lia. f_equal. lia.
  - rewrite Et. exact Hx.
  - rewrite Et in Vq, Vw. fold D in Vq, Vw. exists q, w. assert (Es : splice snum start w = take start snum ++ w ++ drop (k + 1) (drop start snum)) by (unfold splice; rewrite drop_drop, Lw by lia; reflexivity).
    split; [exact E | split; [exact Wq |]]. rewrite Es. split; [auto 6 with bytes |]. split; [rewrite !len_app, len_take, Lw, !len_drop by (rewrite ?len_drop; lia); lia |].
    rewrite take_app_exact, drop_app_exact by (rewrite len_take; lia). split; [reflexivity | split; [exact Vq |]]. rewrite val_app, Ez, Vw. lia.
Qed.

Lemma div_loop_value n : forall snum resp, words_ok snum -> Z.of_nat n + k + 1 <= len snum -> Z.of_nat n <= len resp -> le_val (drop (Z.of_nat n + 1) snum) < D ->
  exists s q, div_loop n snum sdiv k (get sdiv (k - 1)) (if k =? 1 then 0 else get sdiv (k - 2)) resp = Some (s, q) /\
    words_ok s /\ len s = len snum /\ take 1 s = take 1 snum /\ le_val (drop 1 s) = le_val (drop 1 snum) mod D /\
    len q = len resp /\ words_ok (take (Z.of_nat n) q) /\ le_val (take (Z.of_nat n) q) = le_val (drop 1 snum) / D /\ drop (Z.of_nat n) q = drop (Z.of_nat n) resp.
Proof.
  pose proof divisor_range as RD. pose proof (weight_pos (k - 1) ltac:(lia)) as Pk. assert (PD : 0 < D) by nia.
  induction n as [| n IH]; intros snum resp W L Lr I; cbn [div_loop].
  { change (Z.of_nat 0 + 1) with 1 in I. pose proof (val_range _ (words_ok_drop 1 snum W)) as R. exists snum, resp. rewrite Z.mod_small, Z.div_small by lia.
    rewrite take_0. repeat split; try assumption. constructor. }
  set (start := Z.of_nat (S n)) in *. destruct (div_turn snum start W ltac:(lia) L I) as (q & w & -> & Wq & Wn & Ln & Tn & Vq & Vn).
  set (s1 := splice snum start w) in *. clearbody s1. assert (Lset : len (set resp (Z.of_nat n) q) = len resp) by (apply len_set; lia).
  pose proof (Z.mod_pos_bound (le_val (drop start snum)) D PD) as Rm.
  destruct (IH s1 (set resp (Z.of_nat n) q) Wn ltac:(lia) ltac:(lia)) as (s & q' & E & Ws' & L' & T' & V' & Lq & Wq' & Vq' & Dq).
  { replace (Z.of_nat n + 1) with start by lia. rewrite Vn. apply Rm. }
  exists s, q'. split; [exact E | split; [exact Ws' | split; [lia |]]].
  assert (Get : get q' (Z.of_nat n) = q).
  { pose proof (drop_cons_get (Z.of_nat n) q' ltac:(lia)) as X. pose proof (drop_cons_get (Z.of_nat n) (set resp (Z.of_nat n) q) ltac:(lia)) as Y.
    rewrite Dq, Y in X. rewrite get_set_same in X by lia. now injection X as <- _. }
  (* the words below [start] are unchanged *)
  assert (T1 : take 1 s1 = take 1 snum) by (rewrite <- (take_take 1 start), Tn, take_take by lia; reflexivity).
  assert (Split : forall l, len l = len snum -> le_val (drop 1 l) = le_val (take (start - 1) (drop 1 l)) + weight (start - 1) * le_val (drop start l)).
  { intros l Hl. rewrite (val_split (start - 1) (drop 1 l)) by (rewrite len_drop; lia). rewrite drop_drop by lia. replace (1 + (start - 1)) with start by lia. reflexivity. }
  assert (Low : take (start - 1) (drop 1 s1) = take (start - 1) (drop 1 snum)).
  { apply (list_eq_get); [rewrite !len_take by (rewrite len_drop; lia); reflexivity |]. rewrite len_take by (rewrite len_drop; lia). intros i Hi.
    rewrite !get_take, !get_drop by lia. rewrite <- (get_take s1 start), <- (get_take snum start), Tn by lia. reflexivity. }
  pose proof (Split snum eq_refl) as Y. pose proof (Split s1 Ln) as Y1. rewrite Low, Vn in Y1. set (x := le_val (drop start snum)) in *. set (low := le_val (take (start - 1) (drop 1 snum))) in *.
  pose proof (Z.div_mod x D ltac:(lia)) as Dm.
  assert (Eq : le_val (drop 1 snum) = le_val (drop 1 s1) + (x / D * weight (start - 1)) * D) by (rewrite Y, Y1, Dm at 1; ring).
  rewrite Eq, Z.mod_add, Z.div_add by lia. split; [congruence | split; [exact V' |]]. split; [lia |].
  assert (Ed : drop start q' = drop start resp).
  { replace start with (Z.of_nat n + 1) by lia. rewrite <- (drop_drop 1 (Z.of_nat n) q'), Dq, drop_set by lia. reflexivity. }
  replace start with (Z.of_nat n + 1) at 1 2 by lia. rewrite take_succ, Get by lia. split; [auto with bytes | split; [| exact Ed]].
  rewrite val_app, len_take, Vq' by lia. cbn [le_val]. replace (start - 1) with (Z.of_nat n) by lia. rewrite Vq. ring.
Qed.
End Loop.

(** ** The numbers of a division *)

Lemma padded_value b size m : bn_mem b -> top b <= size <= dmax b -> m = size - top b ->
  let b' := mk_bn (splice (d b) (top b) (repeat 0 (Z.to_nat m))) size (neg b) (is_static b) in
  words b' = words b ++ zero_words m /\ dmax b' = dmax b /\ bn_mem b'.
Proof.
  intros M Hs ->. unfold bn_mem, words, dmax in *. cbn [d top]. assert (Lz : len (repeat 0 (Z.to_nat (size - top b))) = size - top b) by (rewrite len_repeat; lia).
  rewrite len_splice by lia. split; [| lia]. unfold splice. rewrite Lz. replace (top b + (size - top b)) with size by lia. rewrite app_assoc.
  apply take_app_exact. rewrite len_app, len_take, len_zero by lia. lia.
Qed.

Lemma get_zero_words m i : get (zero_words m) i = 0.
Proof. unfold get, zero_words. apply nth_repeat. Qed.

Section Numbers.
Variable alloc_ok : Z -> bool.
Variable uninit : Z -> list Z.
Hypothesis uninit_len : forall n, 0 <= n -> len (uninit n) = n.

(** What a division needs of its numbers, and leaves of them. *)
Definition work_ok (ws : workspace) : Prop :=
  temporary_ok (w_tmp ws) /\ temporary_ok (w_snum ws) /\ temporary_ok (w_sdiv ws) /\ bn_mem (w_res ws).

Lemma temporary_refuses t n m r : temporary_ok t -> n <= m -> refuses alloc_ok t n -> refuses alloc_ok r m.
Proof. intros [_ S] Hn [R | [R | R]]; [now left | right; left; lia | congruence]. Qed.

(** The normalised divisor has its top bit set, and the numerator a zero word
    below. *)
Definition normalised_pair (snum sdiv : BIGNUM) (N : Z) : Prop :=
  bn_ok snum /\ bn_ok sdiv /\ neg snum = false /\ 0 < top sdiv /\ 2 ^ 63 <= get (d sdiv) (top sdiv - 1) /\ bn_abs snum = 2 ^ 64 * N.

Lemma divide_array snum sdiv size n resp : bn_ok snum -> bn_ok sdiv -> 0 < top sdiv -> 2 ^ 63 <= get (d sdiv) (top sdiv - 1) ->
  top snum < size -> Z.of_nat n = size - top sdiv - 1 -> 0 < Z.of_nat n <= len resp -> forall N, bn_abs snum = 2 ^ 64 * N ->
  exists s q, div_loop n (words snum ++ zero_words (size - top snum)) (words sdiv) (top sdiv) (get (d sdiv) (top sdiv - 1)) (if top sdiv =? 1 then 0 else get (d sdiv) (top sdiv - 2)) resp = Some (s, q) /\
    words_ok s /\ len s = size /\ le_val s = 2 ^ 64 * (N mod bn_abs sdiv) /\
    len q = len resp /\ words_ok (take (Z.of_nat n) q) /\ le_val (take (Z.of_nat n) q) = N / bn_abs sdiv.
Proof.
  intros On Od Hk Hd Hs Hn Hr N HN. destruct (nonzero_words sdiv Od Hk) as (Ws & Ls & _). pose proof (proj1 On) as Mn. unfold bn_mem in Mn.
  pose proof (proj1 Od) as Md. rewrite <- (get_words sdiv) in Hd by (assumption || lia).
  assert (Wn : words_ok (words snum)) by apply On. pose proof (len_words snum (proj1 On)) as Ln.
  set (S := words snum ++ zero_words (size - top snum)). assert (LS : len S = size) by (unfold S; rewrite len_app, len_zero; lia).
  assert (WS : words_ok S) by (unfold S; auto with bytes).
  assert (VS : le_val S = 2 ^ 64 * N) by (unfold S; rewrite val_app, val_zero; fold (bn_abs snum); lia).
  assert (Top : get S (size - 1) = 0) by (unfold S; rewrite get_app_r by lia; apply get_zero_words).
  set (k := top sdiv) in *. destruct (divisor_range (words sdiv) k Ws Ls Hk Hd) as [RD _].
  assert (I : le_val (drop (Z.of_nat n + 1) S) < le_val (words sdiv)).
  { destruct (last_word (drop (Z.of_nat n + 1) S) k ltac:(auto with bytes) ltac:(rewrite len_drop; lia) Hk) as (low & E & R & _).
    rewrite get_drop in E by lia. replace (Z.of_nat n + 1 + (k - 1)) with (size - 1) in E by lia. rewrite Top in E. pose proof (weight_pos (k - 1) ltac:(lia)). lia. }
  assert (Eg : get (d sdiv) (k - 1) = get (words sdiv) (k - 1) /\ (if k =? 1 then 0 else get (d sdiv) (k - 2)) = (if k =? 1 then 0 else get (words sdiv) (k - 2))).
  { split; [now rewrite get_words by (assumption || lia) |]. destruct (Z.eqb_spec k 1); [reflexivity | now rewrite get_words by (assumption || lia)]. }
  destruct Eg as [-> ->].
  destruct (div_loop_value (words sdiv) k Ws Ls Hk Hd n S resp WS ltac:(lia) ltac:(lia) I) as (s & q & E & W & L & T & V & Lq & Wq & Vq & _).
  pose proof (val_split 1 S ltac:(lia)) as E1. pose proof (val_split 1 s ltac:(lia)) as E2. rewrite T in E2. change (weight 1) with (2 ^ 64) in *.
  pose proof (val_range _ (words_ok_take 1 S WS)) as R1. rewrite len_take in R1 by lia. change (weight 1) with (2 ^ 64) in R1.
  assert (Z0 : le_val (take 1 S) = 0) by lia. assert (EN : le_val (drop 1 S) = N) by lia. rewrite Z0, V, EN in E2. rewrite EN in Vq. fold (bn_abs sdiv) in E2, Vq.
  exists s, q. split; [exact E | split; [exact W | split; [lia | split; [exact E2 | split; [exact Lq | split; [exact Wq | exact Vq]]]]]].
Qed.

Definition divided (ws : workspace) (neg_res : bool) (N : Z) (res : option (bool * workspace)) : Prop :=
  exists ok ws', res = Some (ok, ws') /\ work_ok ws' /\ is_static (w_res ws') = is_static (w_res ws) /\
    (ok = true -> bn_ok (w_snum ws') /\ bn_val (w_snum ws') = 2 ^ 64 * (N mod bn_abs (w_sdiv ws)) /\
       neg (w_res ws') = neg_res /\ words_ok (words (w_res ws')) /\ bn_abs (w_res ws') = N / bn_abs (w_sdiv ws)) /\
    (ok = false -> refuses alloc_ok (w_res ws) (Z.max (top (w_snum ws)) (top (w_sdiv ws)) + 2)).

Lemma divided_fails ws neg_res N ws' : work_ok ws' -> is_static (w_res ws') = is_static (w_res ws) ->
  refuses alloc_ok (w_res ws) (Z.max (top (w_snum ws)) (top (w_sdiv ws)) + 2) -> divided ws neg_res N (Some (false, ws')).
Proof. intros W S R. exists false, ws'. split; [reflexivity | split; [exact W | split; [exact S | split; [discriminate | now intros _]]]]. Qed.

Lemma divide_words_ok ws neg_res N : work_ok ws -> normalised_pair (w_snum ws) (w_sdiv ws) N ->
  divided ws neg_res N (divide_words alloc_ok uninit ws neg_res).
Proof.
  intros (Tt & Tn & Td & Mr) (On & Od & Nn & Hk & Hd & HN). unfold divide_words. pose proof (proj1 Od) as Md. unfold bn_mem in Md. pose proof (proj1 On) as Mn. unfold bn_mem in Mn.
  set (size := if top (w_snum ws) <=? top (w_sdiv ws) + 1 then _ else _).
  assert (Hs : top (w_snum ws) < size /\ top (w_sdiv ws) + 2 <= size <= Z.max (top (w_snum ws)) (top (w_sdiv ws)) + 2) by (unfold size; destruct (Z.leb_spec (top (w_snum ws)) (top (w_sdiv ws) + 1)); lia).
  clearbody size.
  destruct (wexpand_case alloc_ok uninit uninit_len (w_snum ws) size (proj1 Tn) ltac:(lia)) as [(-> & R) | (s1 & -> & M1 & D1 & Wd1 & T1 & N1 & S1)]; cbn [negb].
  { apply divided_fails; [repeat split; (apply Tt || apply Tn || apply Td || apply Mr) | reflexivity | apply (temporary_refuses (w_snum ws) size); (assumption || lia)]. }
  destruct (padded_value s1 size (size - top s1) M1 ltac:(lia) eq_refl) as (Pw & Pd & Pm). set (s2 := mk_bn _ size (neg s1) (is_static s1)) in *.
  assert (T2 : temporary_ok s2) by (split; [exact Pm | cbn; rewrite S1; apply Tn]).
  change (top s2) with size. set (k := top (w_sdiv ws)) in *. set (loop := size - k). assert (Hl : 2 <= loop) by (unfold loop; lia).
  assert (Mr0 : bn_mem (with_neg (w_res ws) neg_res)) by exact Mr.
  destruct (wexpand_case alloc_ok uninit uninit_len _ (loop + 1) Mr0 ltac:(lia)) as [(-> & R) | (r1 & -> & Mr1 & Dr1 & Wr1 & Tr1 & Nr1 & Sr1)]; cbn [negb].
  { apply divided_fails; [exact (conj Tt (conj T2 (conj Td Mr))) | reflexivity |].
    apply (refuses_mono alloc_ok (with_neg (w_res ws) neg_res) (w_res ws) (loop + 1)); [reflexivity | unfold loop; fold k; lia | exact R]. }
  set (r2 := mk_bn (d r1) (loop - 1) (neg r1) (is_static r1)). assert (Mr2 : bn_mem r2) by (unfold bn_mem, r2, dmax in *; cbn [top d]; lia).
  destruct (wexpand_temporary alloc_ok uninit (w_tmp ws) (k + 1) uninit_len Tt ltac:(lia)) as (ok & t1 & -> & Tt1 & F). destruct ok; cbn [negb].
  2: { apply divided_fails; [exact (conj Tt1 (conj T2 (conj Td Mr2))) | exact Sr1 |]. destruct F as [F | F]; [now left | right; left; fold k; lia]. }
  change (top r2) with (loop - 1). destruct (Z.eqb_spec (loop - 1) 0); [lia |]. change (d r2) with (d r1). assert (Dr : loop - 1 <= len (d r1)) by (unfold dmax in Dr1; lia).
  rewrite Pw, T1, Wd1.
  destruct (divide_array (w_snum ws) (w_sdiv ws) size (Z.to_nat (loop - 1)) (take (loop - 1) (d r1)) On Od Hk Hd ltac:(lia) ltac:(fold k; lia) ltac:(rewrite len_take; lia) N HN)
    as (s & q & E & Wss & Lss & Vss & Lq & Wq & Vq). fold k in E. rewrite E. rewrite Z2Nat.id in Wq, Vq by lia. rewrite len_take in Lq by lia. rewrite take_all in Wq, Vq by lia.
  unfold write_words. rewrite Pd. destruct (Z.leb_spec (len s) (dmax s1)); [| lia]. change (dmax r2) with (len (d r1)).
  destruct (Z.leb_spec (len q) (len (d r1))); [| lia].
  destruct (put_words_spec s2 s size (eq_sym Lss) ltac:(lia)) as (Q1 & Q2 & Q3 & Q4 & _).
  destruct (put_words_spec r2 q (loop - 1) (eq_sym Lq) Dr) as (U1 & U2 & U3 & U4 & _).
  destruct (correct_top_val (put_words s2 s size) Q1 ltac:(now rewrite Q2) ltac:(rewrite Q4; cbn; rewrite N1, Nn; discriminate)) as [C1 C2].
  exists true. eexists. split; [reflexivity |]. cbn [w_res w_tmp w_snum w_sdiv]. split; [exact (conj Tt1 (conj (conj (proj1 C1) (eq_trans (correct_top_static (put_words s2 s size)) (proj2 T2))) (conj Td U1))) |].
  split; [exact Sr1 |]. split; [intros _ | discriminate]. split; [exact C1 |]. split.
  - rewrite C2, Q4. cbn [neg s2]. rewrite N1, Nn. unfold bn_abs at 1. rewrite Q2. exact Vss.
  - rewrite U4. cbn [neg r2]. split; [exact Nr1 |]. unfold bn_abs at 1. rewrite U2. split; [exact Wq | exact Vq].
Qed.

Lemma top_least x n : bn_ok x -> 0 <= n -> bn_abs x < 2 ^ (64 * n) -> top x <= n.
Proof.
  intros O Hn H. destruct (Z.le_gt_cases (top x) n) as [| G]; [assumption |]. exfalso. pose proof (abs_low x O ltac:(lia)) as L.
  pose proof (Z.pow_le_mono_r 2 (64 * n) (64 * (top x - 1)) ltac:(lia) ltac:(lia)). lia.
Qed.

(** A number of whole words has its top bit set. *)
Lemma top_bit_set x k : bn_ok x -> 0 < k -> 2 ^ (64 * k - 1) <= bn_abs x < 2 ^ (64 * k) -> top x = k /\ 2 ^ 63 <= get (d x) (top x - 1).
Proof.
  intros O Hk H. pose proof (abs_range x O) as R. pose proof (top_least x k O ltac:(lia) ltac:(lia)) as T. pose proof (proj1 O) as M. unfold bn_mem in M.
  assert (T' : top x = k).
  { destruct (Z.eq_dec (top x) k) as [| N]; [assumption |]. exfalso.
    pose proof (Z.pow_le_mono_r 2 (64 * top x) (64 * k - 1) ltac:(lia) ltac:(lia)). lia. }
  split; [exact T' |]. destruct (nonzero_words x O ltac:(lia)) as (W & L & _). destruct (last_word (words x) (top x) W L ltac:(lia)) as (low & E & Rl & _).
  rewrite <- get_words by (exact (proj1 O) || lia). set (w := get (words x) (top x - 1)) in *. fold (bn_abs x) in E. rewrite T' in *.
  replace (64 * k - 1) with (64 * (k - 1) + 63) in H by lia. rewrite Z.pow_add_r in H by lia. fold (weight (k - 1)) in H. pose proof (weight_pos (k - 1) ltac:(lia)) as P.
  destruct (Z.le_gt_cases (2 ^ 63) w) as [| G]; [assumption |]. exfalso.
  pose proof (Z.mul_le_mono_nonneg_l (w + 1) (2 ^ 63) (weight (k - 1)) ltac:(lia) ltac:(lia)). lia.
Qed.

Lemma mul_lt_le a x p q : 0 <= a < x -> 0 < p <= q -> a * p < x * q.
Proof. nia. Qed.

Lemma shifted_abs x r n : bn_ok r -> bn_ok x -> 0 <= n -> bn_val r = bn_val x * 2 ^ n -> bn_abs r = bn_abs x * 2 ^ n.
Proof.
  intros Or Ox Hn V. pose proof (abs_nonneg r Or). pose proof (abs_nonneg x Ox). pose proof (Z.pow_pos_nonneg 2 n ltac:(lia) Hn).
  destruct (abs_val r) as [-> |]; [| lia]. destruct (abs_val x) as [-> |]; [| lia]. rewrite V, Z.abs_mul. f_equal. lia.
Qed.

(** The shift that sets the top bit of the divisor. *)
Lemma norm_shift_bits x : bn_fits x -> 0 < top x ->
  let s := BN_BITS2 - BN_num_bits x mod BN_BITS2 in
  1 <= s <= 64 /\ exists k, 0 < k /\ 2 ^ (64 * k - 1) <= bn_abs x * 2 ^ s < 2 ^ (64 * k).
Proof.
  intros F T. rewrite (num_bits_spec x F). unfold BN_BITS2. pose proof (proj2 (proj2 (proj2 (nonzero_words x (proj1 F) T)))) as P. pose proof (abs_low x (proj1 F) T) as Lo.
  pose proof (Z.pow_pos_nonneg 2 (64 * (top x - 1)) ltac:(lia) ltac:(lia)). destruct (Z.eqb_spec (bn_abs x) 0); [lia |].
  pose proof (Z.log2_spec (bn_abs x) ltac:(lia)) as L. pose proof (Z.log2_nonneg (bn_abs x)) as N. set (g := Z.log2 (bn_abs x)) in *.
  pose proof (Z.mod_pos_bound (g + 1) 64 ltac:(lia)) as R. cbv zeta. split; [lia |]. exists ((g + 1) / 64 + 1).
  pose proof (Z.div_mod (g + 1) 64 ltac:(lia)) as D. set (s := 64 - (g + 1) mod 64) in *. split; [assert (0 <= (g + 1) / 64) by (apply Z.div_pos; lia); lia |].
  replace (64 * ((g + 1) / 64 + 1) - 1) with (g + s) by lia. replace (64 * ((g + 1) / 64 + 1)) with (Z.succ g + s) by lia.
  rewrite !Z.pow_add_r by lia. pose proof (Z.pow_pos_nonneg 2 s ltac:(lia) ltac:(lia)). split; [apply Z.mul_le_mono_nonneg_r | apply Z.mul_lt_mono_pos_r]; lia.
Qed.

Lemma with_neg_temporary t b : temporary_ok t -> temporary_ok (with_neg t b).
Proof. intros H. exact H. Qed.

Definition quotient_ready (ws : workspace) (num divisor : BIGNUM) (res : option (bool * workspace * Z)) : Prop :=
  exists ok ws' s, res = Some (ok, ws', s) /\ work_ok ws' /\ is_static (w_res ws') = is_static (w_res ws) /\
    (ok = true -> 0 <= s /\ (bn_ok (w_snum ws') /\ top (w_snum ws') <= top divisor + 2) /\ neg (w_snum ws') = false /\ bn_abs (w_snum ws') = 2 ^ s * (bn_abs num mod bn_abs divisor) /\
       neg (w_res ws') = xorb (neg num) (neg divisor) /\ words_ok (words (w_res ws')) /\ bn_abs (w_res ws') = bn_abs num / bn_abs divisor) /\
    (ok = false -> refuses alloc_ok (w_res ws) (Z.max (top num) (top divisor) + 4)).

Lemma divide_ok ws num divisor : work_ok ws -> bn_ok num -> bn_ok divisor -> 0 < top divisor -> top divisor <= word_limit ->
  quotient_ready ws num divisor (divide alloc_ok uninit ws num divisor).
Proof.
  intros (Tt & Tn & Td & Mr) On Od Hd Hf. unfold divide. destruct (norm_shift_bits divisor (conj Od Hf) Hd) as (Hs & k & Hk & Rk).
  set (s := BN_BITS2 - BN_num_bits divisor mod BN_BITS2) in *. unfold BN_BITS2. clearbody s.
  assert (Fail : forall ws' s', work_ok ws' -> is_static (w_res ws') = is_static (w_res ws) -> refuses alloc_ok (w_res ws) (Z.max (top num) (top divisor) + 4) ->
    quotient_ready ws num divisor (Some (false, ws', s'))).
  { intros ws' s' W S R. exists false, ws', s'. split; [reflexivity | split; [exact W | split; [exact S | split; [discriminate | now intros _]]]]. }
  assert (Hs64 : s / 64 <= 1 /\ (s + 64) / 64 <= 2) by (split; Z.to_euclidean_division_equations; lia).
  destruct (lshift_delivers alloc_ok uninit uninit_len (w_sdiv ws) (Some divisor) s (proj1 Td) Od ltac:(lia)) as (M1 & S1 & V1 & F1). cbn [operand] in V1, F1.
  destruct (BN_lshift _ _ (w_sdiv ws) _ _) as [[] sd]; cbn [fst snd negb] in *.
  2: { apply Fail; [| reflexivity | apply (temporary_refuses (w_sdiv ws) (top divisor + s / 64 + 1)); [exact Td | lia | now apply F1]].
       exact (conj Tt (conj Tn (conj (conj M1 (eq_trans S1 (proj2 Td))) Mr))). }
  destruct (V1 eq_refl) as [O1 E1]. assert (T1 : temporary_ok (with_neg sd false)) by exact (conj M1 (eq_trans S1 (proj2 Td))).
  pose proof (shifted_abs divisor sd s O1 Od ltac:(lia) E1) as A1.
  destruct (lshift_delivers alloc_ok uninit uninit_len (w_snum ws) (Some num) (s + 64) (proj1 Tn) On ltac:(lia)) as (M2 & S2 & V2 & F2). cbn [operand] in V2, F2.
  destruct (BN_lshift _ _ (w_snum ws) _ _) as [[] sn]; cbn [fst snd negb] in *.
  2: { apply Fail; [| reflexivity | apply (temporary_refuses (w_snum ws) (top num + (s + 64) / 64 + 1)); [exact Tn | lia | now apply F2]].
       exact (conj Tt (conj (conj M2 (eq_trans S2 (proj2 Tn))) (conj T1 Mr))). }
  destruct (V2 eq_refl) as [O2 E2]. assert (T2 : temporary_ok (with_neg sn false)) by exact (conj M2 (eq_trans S2 (proj2 Tn))).
  pose proof (shifted_abs num sn (s + 64) O2 On ltac:(lia) E2) as A2. rewrite Z.pow_add_r in A2 by lia.
  destruct (top_bit_set (with_neg sd false) k (abs_ok sd O1) Hk ltac:(change (bn_abs (with_neg sd false)) with (bn_abs sd); rewrite A1; exact Rk)) as [Ek Hb].
  set (ws1 := mk_work (w_tmp ws) (with_neg sn false) (with_neg sd false) (w_res ws)).
  destruct (divide_words_ok ws1 (xorb (neg num) (neg divisor)) (bn_abs num * 2 ^ s) (conj Tt (conj T2 (conj T1 Mr)))) as (ok & ws' & -> & W' & S' & V' & F').
  { split; [exact (abs_ok sn O2) | split; [exact (abs_ok sd O1) | split; [reflexivity | split; [cbn in *; lia | split; [exact Hb |]]]]].
    change (bn_abs sn = 2 ^ 64 * (bn_abs num * 2 ^ s)). rewrite A2. ring. }
  pose proof (abs_range divisor Od) as Rd. pose proof (abs_range num On) as Rn. pose proof (Z.pow_le_mono_r 2 s 64 ltac:(lia) ltac:(lia)) as Ps. pose proof (Z.pow_pos_nonneg 2 s ltac:(lia) ltac:(lia)) as Ps0.
  assert (Bd : top sd <= top divisor + 1).
  { pose proof (proj1 Od) as Md. unfold bn_mem in Md. apply top_least; [exact O1 | lia |]. rewrite A1. replace (64 * (top divisor + 1)) with (64 * top divisor + 64) by ring. rewrite Z.pow_add_r by lia. apply mul_lt_le; lia. }
  destruct ok.
  2: { apply Fail; [exact W' | exact S' |]. apply (refuses_mono alloc_ok (w_res ws) (w_res ws) (Z.max (top sn) (top sd) + 2)); [reflexivity | | exact (F' eq_refl)].
       assert (Bn : top sn <= top num + 2); [| lia]. pose proof (proj1 On) as Mn. unfold bn_mem in Mn. apply top_least; [exact O2 | lia |]. rewrite A2.
       replace (64 * (top num + 2)) with (64 * top num + (64 + 64)) by ring. rewrite !Z.pow_add_r by lia. apply mul_lt_le; [lia |]. pose proof (Z.mul_le_mono_nonneg_r (2 ^ s) (2 ^ 64) (2 ^ 64) ltac:(lia) Ps). lia. }
  destruct (V' eq_refl) as (O3 & E3 & N3 & W3 & Q3). change (bn_abs (w_sdiv ws1)) with (bn_abs sd) in E3, Q3. rewrite A1 in E3, Q3.
  destruct (nonzero_words divisor Od Hd) as (_ & _ & _ & _ & (Pd & _) & _).
  rewrite Z.mul_mod_distr_r in E3 by lia. rewrite Z.div_mul_cancel_r in Q3 by lia. pose proof (Z.mod_pos_bound (bn_abs num) (bn_abs divisor) Pd) as Rm.
  set (m := bn_abs num mod bn_abs divisor) in *. pose proof (Z.mul_nonneg_nonneg m (2 ^ s) ltac:(lia) ltac:(lia)) as Pm.
  assert (N4 : neg (w_snum ws') = false). { destruct (neg (w_snum ws')) eqn:N; [| reflexivity]. pose proof (neg_pos _ O3 N). unfold bn_val in E3. rewrite N in E3. lia. }
  assert (A3 : bn_abs (w_snum ws') = 2 ^ (s + 64) * m) by (unfold bn_val in E3; rewrite N4 in E3; rewrite E3, Z.pow_add_r by lia; ring).
  exists true, ws', (s + 64). split; [reflexivity | split; [exact W' | split; [exact S' | split; [intros _ | discriminate]]]].
  split; [lia | split; [split; [exact O3 |] | split; [exact N4 | split; [exact A3 | split; [exact N3 | split; [exact W3 | exact Q3]]]]]].
  pose proof (proj1 Od) as Md. unfold bn_mem in Md. apply top_least; [exact O3 | lia |]. rewrite A3, Z.pow_add_r by lia.
  replace (64 * (top divisor + 2)) with (64 + 64 + 64 * top divisor) by ring. rewrite !Z.pow_add_r by lia. apply Z.le_lt_trans with (2 ^ 64 * 2 ^ 64 * m); [apply Z.mul_le_mono_nonneg_r; lia |]. apply Z.mul_lt_mono_pos_l; lia.
Qed.

(** *** [BN_div] *)

(** What a routine may have done to the objects [written]. *)
Definition only_writes (written : list Z) (o o' : objects) : Prop :=
  (forall k, ~ In k written -> o' k = o k) /\ forall k, In k written -> bn_mem (o' k) /\ is_static (o' k) = is_static (o k).

Definition blocked (written : list Z) (o : objects) (n : Z) : Prop :=
  starved alloc_ok \/ word_limit < n \/ exists k, In k written /\ is_static (o k) = true.

Lemma blocked_refuses written o k b m n : In k written -> is_static b = is_static (o k) -> m <= n -> refuses alloc_ok b m -> blocked written o n.
Proof. intros I S L [R | [R | R]]; [now left | right; left; lia | right; right; exists k; split; [exact I | congruence]]. Qed.

Lemma put_same o i b : put o i b i = b.
Proof. unfold put. now rewrite Z.eqb_refl. Qed.

Lemma put_other o i b k : k <> i -> put o i b k = o k.
Proof. intros N. unfold put. destruct (Z.eqb_spec k i); [contradiction | reflexivity]. Qed.

Definition listed (i : option Z) : list Z := match i with Some i => [i] | None => [] end.

Lemma take_remainder_ok rm snum s neg_num o m : bn_fits snum -> neg snum = false -> 0 <= s -> bn_abs snum = 2 ^ s * m -> 0 <= m ->
  (forall k, rm = Some k -> bn_mem (o k)) ->
  let (ok, o') := take_remainder alloc_ok uninit rm snum s neg_num o in
  only_writes (listed rm) o o' /\
  (ok = true -> forall k, rm = Some k -> bn_ok (o' k) /\ bn_val (o' k) = if neg_num then - m else m) /\
  (ok = false -> exists k, rm = Some k /\ refuses alloc_ok (o k) (top snum)).
Proof.
  intros F N Hs A Hm M. unfold take_remainder. destruct rm as [k |].
  2: { split; [split; [reflexivity | now intros ? []] | split; [intros _ k; discriminate | discriminate]]. }
  destruct (rshift_delivers alloc_ok uninit uninit_len (o k) (Some snum) s (M k eq_refl) F Hs) as (Mr & Sr & Vr & Fr). cbn [operand] in Vr, Fr.
  assert (Q : Z.quot (bn_val snum) (2 ^ s) = m).
  { pose proof (Z.pow_pos_nonneg 2 s ltac:(lia) Hs). unfold bn_val. rewrite N, A, Z.mul_comm, Z.quot_mul; lia. }
  rewrite Q in Vr. destruct (BN_rshift _ _ (o k) _ _) as [ok r]; cbn [fst snd] in *. set (r1 := if ok && _ then _ else r).
  assert (E1 : bn_mem r1 /\ is_static r1 = is_static (o k)) by (unfold r1; destruct (ok && _); split; assumption).
  split; [split |].
  - intros i Hi. apply put_other. intros ->. apply Hi. now left.
  - intros i [<- | []]. now rewrite put_same.
  - split; [| intros ->; exists k; split; [reflexivity | now apply Fr]]. intros -> i [= <-]. rewrite put_same. destruct (Vr eq_refl) as [O V]. unfold r1. cbn [andb].
    pose proof (ok_pos r O) as P. unfold BN_is_zero. destruct (Z.eqb_spec (top r) 0) as [Z0 | Z0]; cbn [negb].
    + split; [exact O |]. assert (Z1 : bn_abs r = 0) by (pose proof (abs_nonneg r O); lia). assert (Zm : m = 0) by (unfold bn_val in V; destruct (neg r); lia). rewrite V, Zm. now destruct neg_num.
    + assert (Ar : bn_abs r = m) by (pose proof (abs_nonneg r O); unfold bn_val in V; destruct (neg r); lia). split.
      * apply ok_intro; [exact Mr | apply O | now apply (ok_value r O) | intros E; contradiction].
      * unfold bn_val. cbn [neg with_neg]. change (bn_abs (with_neg r neg_num)) with (bn_abs r). rewrite Ar. now destruct neg_num.
Qed.

Context {C : Type} {T : Temporaries C} {TC : TemporariesOk C (starved alloc_ok)}.

Lemma ctx_gets_open n : forall c c1, ctx_open c c1 ->
  let (ts, c2) := ctx_gets n c1 in
  ctx_open c c2 /\ length ts = n /\ Forall temporary_ok (somes ts) /\ (In None ts -> starved alloc_ok).
Proof.
  induction n as [| n IH]; intros c c1 O; cbn [ctx_gets]; [repeat split; [exact O | constructor | intros []] |].
  pose proof (ctx_get_open c c1 O) as G. destruct (ctx_get c1) as [[t |] c2].
  - destruct G as (G & _ & Tt & _). specialize (IH c c2 G). destruct (ctx_gets n c2) as [ts c3]. destruct IH as (O3 & L & F & N).
    split; [exact O3 | split; [cbn; congruence | split; [constructor; [exact Tt | exact F] |]]]. intros [E | E]; [discriminate | now apply N].
  - destruct G as (G & R). specialize (IH c c2 G). destruct (ctx_gets n c2) as [ts c3]. destruct IH as (O3 & L & F & _).
    split; [exact O3 | split; [cbn; congruence | split; [exact F | now intros _]]].
Qed.

Definition names (i : option Z) (k : Z) : bool := match i with Some i => i =? k | None => false end.

(** Quotient and remainder, rounding towards zero. When the quotient replaces
    the numerator, the sign of the remainder is that of the quotient. *)
Definition divides (dv rm : option Z) (num divisor : Z) (o : objects) (c : C) (res : option (bool * objects * C)) : Prop :=
  let x := bn_val (o num) in
  let y := bn_val (o divisor) in
  exists ok o' c', res = Some (ok, o', c') /\ ctx_same c c' /\ only_writes (listed dv ++ listed rm) o o' /\
    (ok = true -> y <> 0 /\
       (forall k, dv = Some k -> bn_ok (o' k) /\ bn_val (o' k) = Z.quot x y) /\
       (forall k, rm = Some k -> bn_ok (o' k) /\
          bn_val (o' k) = if names dv num && (y <? 0) then - Z.rem x y else Z.rem x y)) /\
    (ok = false -> y = 0 \/ blocked (listed dv ++ listed rm) o (Z.max (top (o num)) (top (o divisor)) + 4)).

Lemma not_padded b : bn_ok b -> padded b = false.
Proof.
  intros O. unfold padded. destruct (Z.ltb_spec 0 (top b)) as [H |]; [| reflexivity]. cbn [andb].
  destruct (proj2 O) as (_ & Nz & _). specialize (Nz H). now destruct (Z.eqb_spec (get (d b) (top b - 1)) 0).
Qed.

Lemma sign_value x : bn_ok x -> bn_val x = (if neg x then - bn_abs x else bn_abs x) /\ (neg x = true <-> bn_val x < 0).
Proof.
  intros O. split; [reflexivity |]. pose proof (abs_nonneg x O). pose proof (neg_pos x O). unfold bn_val. destruct (neg x); intuition (discriminate || lia).
Qed.

Lemma quot_rem_signs (s t : bool) a b : 0 <= a -> 0 < b ->
  let x := if s then - a else a in let y := if t then - b else b in
  Z.quot x y = (if xorb s t then - (a / b) else a / b) /\ Z.rem x y = if s then - (a mod b) else a mod b.
Proof.
  intros Ha Hb. cbv zeta. destruct s, t; cbn [xorb]; rewrite ?Z.quot_opp_opp, ?Z.quot_opp_l, ?Z.quot_opp_r, ?Z.rem_opp_opp, ?Z.rem_opp_l', ?Z.rem_opp_r' by lia;
    rewrite Z.quot_div_nonneg, Z.rem_mod_nonneg by lia; split; reflexivity.
Qed.

Lemma temps_case dv (o : objects) ts : length ts = match dv with Some _ => 3%nat | None => 4%nat end -> Forall temporary_ok (somes ts) ->
  (forall k, dv = Some k -> bn_mem (o k)) ->
  (temps dv o ts = None /\ In None ts) \/
  exists ws, temps dv o ts = Some ws /\ work_ok ws /\ match dv with Some k => w_res ws = o k | None => is_static (w_res ws) = false end.
Proof.
  intros L F M. destruct ts as [| t1 [| t2 [| t3 ts]]]; [destruct dv; discriminate .. |].
  destruct t1 as [t1 |]; [| left; split; [destruct dv; reflexivity | now left]].
  destruct t2 as [t2 |]; [| left; split; [destruct dv; reflexivity | right; now left]].
  destruct t3 as [t3 |]; [| left; split; [destruct dv; reflexivity | right; right; now left]].
  destruct dv as [k |]; (destruct ts as [| t4 ts]; [| try discriminate]); try discriminate; cbn [somes flat_map app] in F; inversion_clear F as [| ? ? F1 F0]; inversion_clear F0 as [| ? ? F2 F3]; inversion_clear F3 as [| ? ? F4 F5].
  - right. eexists. split; [reflexivity | split; [exact (conj F1 (conj F2 (conj F4 (M k eq_refl)))) | reflexivity]].
  - destruct ts; [| discriminate]. destruct t4 as [t4 |]; [| left; split; [reflexivity | right; right; right; now left]]. cbn in F5. inversion_clear F5 as [| ? ? F6 F7].
    right. eexists. split; [reflexivity | split; [exact (conj F1 (conj F2 (conj F4 (proj1 F6)))) | exact (proj2 F6)]].
Qed.

Lemma only_writes_refl l o : (forall k, In k l -> bn_mem (o k)) -> only_writes l o o.
Proof. intros M. split; [reflexivity |]. intros k I. split; [now apply M | reflexivity]. Qed.

Lemma only_writes_put_opt dv l o b : (forall k, In k l -> bn_mem (o k)) -> (forall k, dv = Some k -> In k l /\ bn_mem b /\ is_static b = is_static (o k)) ->
  only_writes l o (put_opt o dv b).
Proof.
  intros M D. destruct dv as [i |]; cbn [put_opt]; [| now apply only_writes_refl]. destruct (D i eq_refl) as (I & Mb & Sb). split; intros k Hk; unfold put; destruct (Z.eqb_spec k i) as [-> |].
  - contradiction.
  - reflexivity.
  - now split.
  - split; [now apply M | reflexivity].
Qed.

Lemma only_writes_trans l o o1 o2 : only_writes l o o1 -> only_writes l o1 o2 -> only_writes l o o2.
Proof.
  intros [E1 K1] [E2 K2]. split; intros k Hk; [rewrite E2, E1; auto |]. destruct (K1 k Hk), (K2 k Hk). split; [assumption | congruence].
Qed.

Lemma only_writes_more l l' o o' : (forall k, In k l -> In k l') -> (forall k, In k l' -> bn_mem (o k)) -> only_writes l o o' -> only_writes l' o o'.
Proof.
  intros S M [E K]. split; [intros k Hk; apply E; auto |]. intros k Hk. destruct (in_dec Z.eq_dec k l) as [I | N]; [now apply K |].
  rewrite E by assumption. split; [now apply M | reflexivity].
Qed.

Lemma borrowed_ok dv ws : work_ok ws -> (dv = None -> is_static (w_res ws) = false) -> Forall temporary_ok (borrowed dv ws).
Proof.
  intros (Tt & Tn & Td & Mr) S. destruct dv as [k |]; cbn [borrowed]; repeat (constructor; [assumption |]); [constructor |].
  constructor; [split; [exact Mr | now apply S] | constructor].
Qed.

Lemma put_opt_other dv (o : objects) b k : dv <> Some k -> put_opt o dv b k = o k.
Proof. intros N. destruct dv as [i |]; [| reflexivity]. apply put_other. congruence. Qed.

(** The quotient, before and after the words above it are dropped. *)
Lemma quotient_number r q s : bn_mem r -> words_ok (words r) -> bn_abs r = q -> neg r = s -> 0 <= q ->
  bn_ok (bn_correct_top r) /\ bn_val (bn_correct_top r) = if s then - q else q.
Proof.
  intros M W A N Hq. destruct (correct_top_ok r M W) as (O & Va & En). split; [exact O |]. unfold bn_val. rewrite En, Va, N, A.
  destruct s; [| reflexivity]. cbn [andb]. destruct (Z.ltb_spec 0 q); lia.
Qed.

Lemma BN_div_divides dv rm num divisor o c : ctx_ok c -> bn_ok (o num) -> bn_ok (o divisor) -> top (o divisor) + 2 <= word_limit ->
  (forall k, In k (listed dv ++ listed rm) -> bn_mem (o k)) -> (forall k, dv = Some k -> rm <> Some k) ->
  divides dv rm num divisor o c (BN_div alloc_ok uninit dv rm num divisor o c).
Proof.
  intros Hc On Od Hl Hm Hne. set (L := listed dv ++ listed rm) in *. unfold BN_div. rewrite !not_padded by assumption. cbn [orb].
  assert (Hdv : forall k, dv = Some k -> In k L) by (intros k ->; apply in_or_app; left; now left).
  assert (Hrm : forall k, rm = Some k -> In k L) by (intros k ->; apply in_or_app; right; now left).
  assert (Fail : forall o' c', ctx_same c c' -> only_writes L o o' -> bn_val (o divisor) = 0 \/ blocked L o (Z.max (top (o num)) (top (o divisor)) + 4) ->
    divides dv rm num divisor o c (Some (false, o', c'))).
  { intros o' c' S W B. exists false, o', c'. split; [reflexivity | split; [exact S | split; [exact W | split; [discriminate | now intros _]]]]. }
  pose proof (ok_pos _ Od) as Pd. pose proof (proj1 Od) as Md. unfold bn_mem in Md. pose proof (proj1 On) as Mn. unfold bn_mem in Mn. pose proof (abs_nonneg _ Od) as Ad. pose proof (abs_nonneg _ On) as An.
  unfold BN_is_zero. destruct (Z.eqb_spec (top (o divisor)) 0) as [Z0 | Z0].
  { apply Fail; [reflexivity | now apply only_writes_refl | left]. unfold bn_val. replace (bn_abs (o divisor)) with 0 by lia. now destruct (neg (o divisor)). }
  pose proof (ctx_gets_open (match dv with Some _ => 3 | None => 4 end) c _ (ctx_start_open c Hc)) as G. destruct (ctx_gets _ (ctx_start c)) as [ts c2]. destruct G as (G & Lt & Ft & Nt).
  destruct (temps_case dv o ts ltac:(destruct dv; exact Lt) Ft ltac:(intros; apply Hm; auto)) as [(-> & N) | (ws & -> & Wk & Er)].
  { apply Fail; [now apply ctx_end_same | now apply only_writes_refl | right; left; now apply Nt]. }
  destruct (divide_ok ws (o num) (o divisor) Wk On Od ltac:(lia) ltac:(lia)) as (ok & ws' & s & -> & Wk' & Ss & V & F).
  assert (Es : forall k, dv = Some k -> is_static (w_res ws') = is_static (o k)) by (intros k ->; rewrite Ss, Er; reflexivity).
  assert (En : dv = None -> is_static (w_res ws') = false) by (intros ->; rewrite Ss; exact Er).
  assert (W1 : only_writes L o (put_opt o dv (w_res ws'))) by (apply only_writes_put_opt; [exact Hm | intros k E; split; [auto | split; [apply Wk' | now apply Es]]]).
  pose proof (ctx_end_same c c2 (borrowed dv ws') G (borrowed_ok dv ws' Wk' En)) as End. set (o1 := put_opt o dv (w_res ws')) in *.
  destruct ok; cbn [negb].
  2: { apply Fail; [exact End | exact W1 | right]. destruct dv as [k |].
       - apply (blocked_refuses L o k (w_res ws) (Z.max (top (o num)) (top (o divisor)) + 4)); [auto | now rewrite Er | lia | now apply F].
       - destruct (F eq_refl) as [R | [R | R]]; [now left | right; left; lia | congruence]. }
  destruct (V eq_refl) as (Hs & (Os & Ts) & Ns & As & Nq & Wq & Aq). destruct (nonzero_words _ Od ltac:(lia)) as (_ & _ & _ & _ & (Pa & _) & _).
  pose proof (Z.mod_pos_bound (bn_abs (o num)) (bn_abs (o divisor)) Pa) as Rm. set (m := bn_abs (o num) mod bn_abs (o divisor)) in *.
  assert (Hm1 : forall k, rm = Some k -> bn_mem (o1 k)) by (intros k E; apply W1; auto).
  pose proof (take_remainder_ok rm (w_snum ws') s (neg (o1 num)) o1 m (conj Os (Z.le_trans _ _ _ Ts Hl)) Ns Hs As ltac:(lia) Hm1) as X.
  destruct (take_remainder _ _ _ _ _ _ _) as [ok o2]. destruct X as (W2 & V2 & F2).
  assert (W2' : only_writes L o o2).
  { apply (only_writes_trans L o o1); [exact W1 |]. apply (only_writes_more (listed rm)); [intros; apply in_or_app; now right | intros k I; now apply W1 | exact W2]. }
  destruct ok; cbn [negb].
  2: { apply Fail; [exact End | exact W2' | right]. destruct (F2 eq_refl) as (k & E & R).
       apply (blocked_refuses L o k (o1 k) (top (w_snum ws'))); [auto | apply W1; auto | lia | exact R]. }
  assert (E1 : forall k, dv = Some k -> o2 k = w_res ws').
  { intros k E. assert (N : ~ In k (listed rm)) by (intros I; destruct rm as [j |]; [destruct I as [<- | []]; now apply (Hne j) | exact I]).
    rewrite (proj1 W2 k N). unfold o1. rewrite E. apply put_same. }
  set (o3 := match dv with Some dv => put o2 dv (bn_correct_top (o2 dv)) | None => o2 end).
  pose proof (Z.div_pos (bn_abs (o num)) (bn_abs (o divisor)) ltac:(lia) Pa) as Pq.
  destruct (quotient_number (w_res ws') _ _ (proj2 (proj2 (proj2 Wk'))) Wq Aq Nq Pq) as [Oq Vq].
  assert (W3 : only_writes L o o3).
  { unfold o3. destruct dv as [k |]; [| exact W2']. apply (only_writes_trans L o o2); [exact W2' |]. apply (only_writes_put_opt (Some k) L o2); [intros j I; now apply W2' |].
    intros j [= <-]. split; [auto |]. rewrite (E1 k eq_refl). split; [apply Oq | apply correct_top_static]. }
  destruct (sign_value _ On) as [Vn _]. destruct (sign_value _ Od) as [Vd Nd].
  destruct (quot_rem_signs (neg (o num)) (neg (o divisor)) (bn_abs (o num)) (bn_abs (o divisor)) An Pa) as [Eq Er1]. rewrite <- Vn, <- Vd in Eq, Er1. fold m in Er1.
  eexists true, o3, _. split; [reflexivity |]. split.
  { apply ctx_end_same; [exact G |]. apply (borrowed_ok dv (mk_work (w_tmp ws') (w_snum ws') (w_sdiv ws') (bn_correct_top (w_res ws')))); [| intros E; cbn [w_res]; rewrite correct_top_static; auto].
    exact (conj (proj1 Wk') (conj (proj1 (proj2 Wk')) (conj (proj1 (proj2 (proj2 Wk'))) (proj1 Oq)))). }
  split; [exact W3 | split; [intros _ | discriminate]]. split; [rewrite Vd; destruct (neg (o divisor)); lia |]. split.
  - intros k E. unfold o3. rewrite E, put_same, (E1 k E), Eq. split; [exact Oq | exact Vq].
  - intros k E. destruct (V2 eq_refl k E) as [O4 V4]. assert (E3 : o3 k = o2 k) by (unfold o3; destruct dv as [j |]; [apply put_other; intros ->; now apply (Hne j) | reflexivity]).
    rewrite E3. split; [exact O4 |]. rewrite V4, Er1.
    assert (Eg : neg (o1 num) = if names dv num then xorb (neg (o num)) (neg (o divisor)) else neg (o num)).
    { unfold o1, names. destruct dv as [j |]; cbn [put_opt]; [| reflexivity]. unfold put. rewrite (Z.eqb_sym j). destruct (num =? j); [exact Nq | reflexivity]. }
    rewrite Eg. assert (Eb : (bn_val (o divisor) <? 0) = neg (o divisor)) by (destruct (Z.ltb_spec (bn_val (o divisor)) 0), (neg (o divisor)); intuition (discriminate || lia)).
    rewrite Eb. destruct (names dv num), (neg (o num)), (neg (o divisor)); cbn [andb xorb]; lia.
Qed.
End Numbers.

(** ** Property *)

(** C28: long division is exact. For normal operands, whichever [BN_CTX] is
    behind the interface and whether the results are new numbers, operands or not
    wanted, [BN_div] stays within its arrays, its loops end, it leaves quotient
    and remainder rounded towards zero in normal form, writes no other object and
    leaves the context as it was; it fails only when the divisor is zero or for
    want of memory or room. The sign of the remainder is that of the numerator,
    except when the quotient replaces the numerator and the divisor is negative:
    the sign is then read after it was overwritten. Operands with a zero top word
    are refused, and nothing changes. *)
Theorem BN_div_exact {C : Type} {T : Temporaries C} alloc_ok {TC : TemporariesOk C (starved alloc_ok)} uninit dv rm num divisor o c :
  (forall n, 0 <= n -> len (uninit n) = n) -> ctx_ok c -> (forall k, In k (listed dv ++ listed rm) -> bn_mem (o k)) ->
  (forall k, dv = Some k -> rm <> Some k) -> top (o divisor) + 2 <= word_limit ->
  (bn_ok (o num) /\ bn_ok (o divisor) -> divides alloc_ok dv rm num divisor o c (BN_div alloc_ok uninit dv rm num divisor o c)) /\
  (padded (o num) = true \/ padded (o divisor) = true -> BN_div alloc_ok uninit dv rm num divisor o c = Some (false, o, c)).
Proof.
  intros U Hc M N L. split; [intros [On Od]; now apply BN_div_divides |].
  intros P. unfold BN_div. replace (padded (o num) || padded (o divisor)) with true; [reflexivity |]. symmetry. now apply orb_true_iff.
Qed.

(** The quotient of a number of three words by a negative one of two in place of
    the numerator, and the remainder in place of the divisor. *)
Lemma BN_div_exact_witness :
  let alloc := fun _ : Z => true in
  let o := fun k => if k =? 0 then mk_bn [7; 2 ^ 64 - 1; 12] 3 false false else mk_bn [5; 3] 2 true false in
  let c := mk_ctx BN_POOL_init BN_STACK_init 0 0 false in
  let T := ctx_temporaries alloc stale in
  let TC := ctx_temporaries_ok alloc stale stale_len in
  divides (T := T) (TC := TC) alloc (Some 0) (Some 1) 0 1 o c (BN_div (H := T) alloc stale (Some 0) (Some 1) 0 1 o c).
Proof.
  intros alloc o c T TC. destruct (BN_div_exact (TC := TC) alloc stale (Some 0) (Some 1) 0 1 o c stale_len) as [H _].
  - vm_compute. repeat split; try discriminate; try (left; reflexivity).
  - intros k [<- | [<- | []]]; split; apply Z.leb_le; reflexivity.
  - intros k [= <-]. discriminate.
  - apply Z.leb_le. reflexivity.
  - apply H. split; apply bn_check_ok; reflexivity.
Defined.
