(* ===== verification/BnMod.v ===== *)
(** * Residues (crypto/fipsmodule/bn/div.c)

    The routines that reduce: signed reduction, sums, differences, products and
    shifts modulo a number, division by one word, and reduction modulo a power of
    two. As in BnDiv the arguments are names of objects that may coincide; a
    number that a routine takes from the context or duplicates has a name of its
    own while it is in use. *)

From S2P Require Import Prelude Buffers BnWords Bignum BnBytes BnCtx BnShift BnProducts BnMul BnDiv.

(** ** Routines on objects *)

Definition routine (C : Type) : Type := objects -> C -> option (bool * objects * C).

(** An operand as the routines of BnShift and BnMul take it. *)
Definition arg (o : objects) (r a : Z) : option BIGNUM := if a =? r then None else Some (o a).

(** [if (!f) return 0; g]. *)
Definition andthen {C} (f g : routine C) : routine C := fun o c =>
  let* out := f o c in
  let '(ok, o, c) := out in
  if negb ok then Some (false, o, c) else g o c.

Definition done {C} : routine C := fun o c => Some (true, o, c).

(** A routine without context whose result is [r]. *)
Definition writes {C} (r : Z) (f : objects -> bool * BIGNUM) : routine C := fun o c =>
  let (ok, b) := f o in Some (ok, put o r b, c).

Definition writes_ctx {C} (r : Z) (f : objects -> C -> option (bool * BIGNUM * C)) : routine C := fun o c =>
  let* out := f o c in
  let '(ok, b, c) := out in
  Some (ok, put o r b, c).

Definition when {C} (test : objects -> bool) (f : routine C) : routine C := fun o c =>
  if test o then f o c else done o c.

(** A name that none of [l] is. *)
Definition fresh (l : list Z) : Z := fold_right Z.max 0 l + 1.

(** ** div.c *)

Section Mod.
Variable alloc_ok : Z -> bool.
Variable uninit : Z -> list Z.
Context {C : Type} `{Temporaries C}.

Definition BN_nnmod (r m d : Z) : routine C :=
  andthen (BN_div alloc_ok uninit None (Some r) m d)
    (when (fun o => neg (o r))
       (writes r (fun o => if neg (o d) then BN_sub alloc_ok uninit (o r) (o r) (o d) else BN_add alloc_ok uninit (o r) (o r) (o d)))).

Definition BN_mod_add (r a b m : Z) : routine C :=
  andthen (writes r (fun o => BN_add alloc_ok uninit (o r) (o a) (o b))) (BN_nnmod r r m).

Definition BN_mod_sub (r a b m : Z) : routine C :=
  andthen (writes r (fun o => BN_sub alloc_ok uninit (o r) (o a) (o b))) (BN_nnmod r r m).

Definition BN_mod_mul (r a b m : Z) : routine C := fun o ctx =>
  let ctx := ctx_start ctx in
  let (t, ctx) := ctx_get ctx in
  match t with
  | None => Some (false, o, ctx_end ctx [])
  | Some t =>
      let* out := if a =? b then BN_sqr alloc_ok uninit t (Some (o a)) ctx else BN_mul alloc_ok uninit t (Some (o a)) (Some (o b)) ctx in
      let '(ok, t, ctx) := out in
      if negb ok then Some (false, o, ctx_end ctx [t]) else
      let i := fresh [r; a; b; m] in
      let* out := BN_nnmod r i m (put o i t) ctx in
      let '(ok, o', ctx) := out in
      Some (ok, put o' i (o i), ctx_end ctx [o' i])
  end.

Definition BN_mod_sqr (r a m : Z) : routine C :=
  andthen (writes_ctx r (fun o ctx => BN_sqr alloc_ok uninit (o r) (arg o r a) ctx)) (BN_div alloc_ok uninit None (Some r) r m).

Definition BN_mod_lshift1 (r a m : Z) : routine C :=
  andthen (writes r (fun o => BN_lshift1 alloc_ok uninit (o r) (arg o r a))) (BN_nnmod r r m).
End Mod.

(** The routines for operands that are reduced already. *)
Section Quick.
Variable alloc_ok : Z -> bool.
Variable uninit : Z -> list Z.
Context {C : Type}.

Definition BN_mod_add_quick (r a b m : Z) : routine C :=
  andthen (writes r (fun o => BN_uadd alloc_ok uninit (o r) (o a) (o b)))
    (when (fun o => 0 <=? BN_ucmp (o r) (o m)) (writes r (fun o => BN_usub alloc_ok uninit (o r) (o r) (o m)))).

Definition BN_mod_sub_quick (r a b m : Z) : routine C :=
  andthen (writes r (fun o => BN_sub alloc_ok uninit (o r) (o a) (o b)))
    (when (fun o => neg (o r)) (writes r (fun o => BN_add alloc_ok uninit (o r) (o r) (o m)))).

(** [if (BN_cmp(r, m) >= 0)]. *)
Definition subtract_once (r m : Z) : routine C :=
  when (fun o => 0 <=? BN_cmp (Some (o r)) (Some (o m))) (writes r (fun o => BN_sub alloc_ok uninit (o r) (o r) (o m))).

Definition BN_mod_lshift1_quick (r a m : Z) : routine C :=
  andthen (writes r (fun o => BN_lshift1 alloc_ok uninit (o r) (arg o r a))) (subtract_once r m).

(** [while (n > 0)]. *)
Fixpoint mod_lshift_loop (fuel : nat) (r m n : Z) : routine C := fun o c =>
  match fuel with
  | O => None
  | S fuel =>
      if n <=? 0 then done o c else
      let max_shift := to_signed 32 (u32 (BN_num_bits (o m) - BN_num_bits (o r))) in
      if max_shift <? 0 then Some (false, o, c) else
      let max_shift := if n <? max_shift then n else max_shift in
      let (shift, n) :=
        if negb (max_shift =? 0) then (fun o => BN_lshift alloc_ok uninit (o r) None max_shift, n - max_shift)
        else (fun o : objects => BN_lshift1 alloc_ok uninit (o r) None, n - 1) in
      andthen (writes r shift) (andthen (subtract_once r m) (mod_lshift_loop fuel r m n)) o c
  end.

Definition BN_mod_lshift_quick (r a n m : Z) : routine C :=
  andthen (if negb (r =? a) then writes r (fun o => BN_copy alloc_ok uninit (o r) (o a)) else done)
    (mod_lshift_loop (S (Z.to_nat n)) r m n).

Definition BN_mod_lshift `{Temporaries C} (r a n m : Z) : routine C :=
  andthen (BN_nnmod alloc_ok uninit r a m) (fun o c =>
    if neg (o m) then
      match BN_dup alloc_ok uninit (Some (o m)) with
      | None => Some (false, o, c)
      | Some abs_m =>
          let i := fresh [r; m] in
          let* out := BN_mod_lshift_quick r r n i (put o i (with_neg abs_m false)) c in
          let '(ok, o', c) := out in
          Some (ok, put o' i (o i), c)
      end
    else BN_mod_lshift_quick r r n m o c).
End Quick.

(** *** One word *)

(** [for (i = a->top - 1; i >= 0; i--)]: the words and [ret]. *)
Fixpoint div_word_loop (n : nat) (l : list Z) (ret w : Z) : list Z * Z :=
  match n with
  | O => (l, ret)
  | S n =>
      let x := get l (Z.of_nat n) in
      let (q, _) := bn_div_rem_words ret x w in
      let ret := Z.land (u64 (x - Z.land (u64 (q * w)) BN_MASK2)) BN_MASK2 in
      div_word_loop n (set l (Z.of_nat n) q) ret w
  end.

(** [(BN_ULONG)-1] for an error. *)
Definition BN_div_word (alloc_ok : Z -> bool) (uninit : Z -> list Z) (a : BIGNUM) (w : Z) : Z * BIGNUM :=
  let w := Z.land w BN_MASK2 in
  if w =? 0 then (BN_MASK2, a) else
  if top a =? 0 then (0, a) else
  let j := BN_BITS2 - BN_num_bits_word w in
  let w := u64 (Z.shiftl w j) in
  let (ok, a) := BN_lshift alloc_ok uninit a None j in
  if negb ok then (BN_MASK2, a) else
  let (l, ret) := div_word_loop (Z.to_nat (top a)) (d a) 0 w in
  let t := if (0 <? top a) && (get l (top a - 1) =? 0) then top a - 1 else top a in
  (Z.shiftr ret j, mk_bn l t (if t =? 0 then false else neg a) (is_static a)).

Fixpoint mod_word_loop (n : nat) (l : list Z) (ret w : Z) : Z :=
  match n with
  | O => ret
  | S n => mod_word_loop n l (Z.lor (wrap 128 (Z.shiftl ret 64)) (get l (Z.of_nat n)) mod w) w
  end.

Definition BN_mod_word (a : BIGNUM) (w : Z) : Z :=
  if w =? 0 then BN_MASK2 else
  u64 (mod_word_loop (Z.to_nat (top a)) (d a) 0 (Z.land w BN_MASK2)).

(** *** Powers of two *)

(** [1 + ((e - 1) / BN_BITS2)] and the mask on the top word. *)
Definition pow2_words (e : Z) : Z := 1 + u64 (e - 1) / BN_BITS2.

Definition mask_top (t : list Z) (num_words e : Z) : list Z :=
  let top_word_exponent := e mod BN_BITS2 in
  if negb (top_word_exponent =? 0)
  then set t (num_words - 1) (Z.land (get t (num_words - 1)) (u64 (Z.shiftl 1 top_word_exponent) - 1)) else t.

Definition BN_value_one : BIGNUM := mk_bn [1] 1 false true.

Section Pow2.
Variable alloc_ok : Z -> bool.
Variable uninit : Z -> list Z.

Definition BN_mod_pow2 (r : BIGNUM) (a : option BIGNUM) (e : Z) : bool * BIGNUM :=
  let x := operand r a in
  if (e =? 0) || (top x =? 0) then (true, BN_zero r) else
  let num_words := pow2_words e in
  if top x <? num_words then match a with Some a => BN_copy alloc_ok uninit r a | None => (true, r) end else
  let (ok, r) := bn_wexpand alloc_ok uninit r num_words in
  if negb ok then (false, r) else
  let t := splice (d r) 0 (take num_words (source a (d r))) in
  let t := mask_top t num_words e in
  (true, bn_correct_top (mk_bn t num_words (neg x) (is_static r))).

Definition BN_nnmod_pow2 (r : BIGNUM) (a : option BIGNUM) (e : Z) : bool * BIGNUM :=
  let (ok, r) := BN_mod_pow2 r a e in
  if negb ok then (false, r) else
  if BN_is_zero r || negb (neg r) then (true, r) else
  let num_words := pow2_words e in
  let (ok, r) := bn_wexpand alloc_ok uninit r num_words in
  if negb ok then (false, r) else
  let t := splice (d r) (top r) (repeat 0 (Z.to_nat (num_words - top r))) in
  let t := map (fun w => u64 (Z.lnot w)) (take num_words t) ++ drop num_words t in
  let t := mask_top t num_words e in
  let r := bn_correct_top (mk_bn t num_words false (is_static r)) in
  BN_add alloc_ok uninit r r BN_value_one.
End Pow2.

(** ** What routines leave *)

Section Residues.
Variable alloc_ok : Z -> bool.
Variable uninit : Z -> list Z.
Hypothesis uninit_len : forall n, 0 <= n -> len (uninit n) = n.
Context {C : Type} {T : Temporaries C} {TC : TemporariesOk C (starved alloc_ok)}.

(** The value [v] in [r] if the routine reports success, only [r] written, and a
    failure only in the case [bad] or for want of [size] words in [r]. *)
Definition leaves (r size : Z) (bad : Prop) (v : Z) (o : objects) (c : C) (res : option (bool * objects * C)) : Prop :=
  exists ok o' c', res = Some (ok, o', c') /\ ctx_same c c' /\ only_writes [r] o o' /\
    (ok = true -> ~ bad /\ bn_ok (o' r) /\ bn_val (o' r) = v) /\ (ok = false -> bad \/ blocked alloc_ok [r] o size).

Lemma only_writes_put r (o : objects) b : bn_mem b -> is_static b = is_static (o r) -> only_writes [r] o (put o r b).
Proof.
  intros M S. split; intros k Hk; unfold put; destruct (Z.eqb_spec k r) as [-> |]; try (now split).
  - exfalso. apply Hk. now left.
  - exfalso. destruct Hk as [<- | []]. contradiction.
Qed.

Lemma blocked_later r o o' m n : only_writes [r] o o' -> m <= n -> blocked alloc_ok [r] o' m -> blocked alloc_ok [r] o n.
Proof.
  intros [_ K] L [R | [R | (k & I & R)]]; [now left | right; left; lia | right; right]. exists k. split; [exact I |]. now rewrite <- (proj2 (K k I)).
Qed.

Lemma writes_leaves r f size v o c : delivers alloc_ok (o r) size (f o) v -> leaves r size False v o c (writes r f o c).
Proof.
  intros (M & S & V & F). unfold writes. destruct (f o) as [ok b]. cbn [fst snd] in *. exists ok, (put o r b), c.
  split; [reflexivity | split; [reflexivity | split; [now apply only_writes_put |]]]. rewrite put_same. split; [intros E; split; [intros [] | now apply V] |].
  intros E. right. apply (blocked_refuses alloc_ok [r] o r (o r) size); [now left | reflexivity | lia | now apply F].
Qed.

Lemma andthen_leaves r n1 n2 n bad1 bad v1 v f g o c : leaves r n1 bad1 v1 o c (f o c) -> n1 <= n -> n2 <= n -> (bad1 -> bad) ->
  (forall o' c', ctx_same c c' -> only_writes [r] o o' -> ~ bad1 -> bn_ok (o' r) -> bn_val (o' r) = v1 -> leaves r n2 bad v o' c' (g o' c')) ->
  leaves r n bad v o c (andthen f g o c).
Proof.
  intros (ok & o1 & c1 & E & S1 & W1 & V1 & F1) L1 L2 B K. unfold andthen. rewrite E. destruct ok; cbn [negb].
  - destruct (V1 eq_refl) as (Nb & O & V). destruct (K o1 c1 S1 W1 Nb O V) as (ok & o2 & c2 & -> & S2 & W2 & V2 & F2).
    exists ok, o2, c2. split; [reflexivity | split; [now transitivity c1 | split; [now apply (only_writes_trans [r] o o1) | split; [exact V2 |]]]].
    intros Ef. destruct (F2 Ef) as [R | R]; [now left | right]. now apply (blocked_later r o o1 n2 n).
  - exists false, o1, c1. split; [reflexivity | split; [exact S1 | split; [exact W1 | split; [discriminate | intros _]]]].
    destruct (F1 eq_refl) as [R | R]; [left; now apply B | right]. destruct R as [R | [R | R]]; [now left | right; left; lia | right; right; exact R].
Qed.

Lemma done_leaves r size (bad : Prop) v o c : ~ bad -> bn_ok (o r) -> bn_val (o r) = v -> leaves r size bad v o c (done o c).
Proof.
  intros B O V. exists true, o, c. split; [reflexivity | split; [reflexivity | split; [| split; [intros _; now split | discriminate]]]].
  apply only_writes_refl. intros k [<- | []]. apply O.
Qed.

Lemma leaves_bad r size (bad bad' : Prop) v o c res : (bad -> bad') -> ~ bad' -> leaves r size bad v o c res -> leaves r size bad' v o c res.
Proof.
  intros I N (ok & o' & c' & E & S & W & V & F). exists ok, o', c'. split; [exact E | split; [exact S | split; [exact W | split]]].
  - intros H. split; [exact N | now apply V].
  - intros H. destruct (F H) as [R | R]; [left; auto | now right].
Qed.

Lemma leaves_size r m n bad v o c res : m <= n -> leaves r m bad v o c res -> leaves r n bad v o c res.
Proof.
  intros L (ok & o' & c' & E & S & W & V & F). exists ok, o', c'. split; [exact E | split; [exact S | split; [exact W | split; [exact V |]]]].
  intros H. destruct (F H) as [R | [R | [R | R]]]; [now left | right; now left | right; right; left; lia | right; right; now right].
Qed.

(** The other objects are as before. *)
Lemma unchanged r o o' k : only_writes [r] o o' -> k <> r -> o' k = o k.
Proof. intros [E _] N. apply E. intros [<- | []]. now apply N. Qed.

Lemma abs_bound x n : bn_ok x -> 0 <= n -> Z.abs (bn_val x) < 2 ^ (64 * n) -> top x <= n.
Proof. intros O Hn H. apply top_least; [exact O | exact Hn |]. pose proof (abs_nonneg x O). destruct (abs_val x); lia. Qed.

Lemma val_bound x : bn_ok x -> Z.abs (bn_val x) < 2 ^ (64 * top x).
Proof. intros O. pose proof (abs_range x O). destruct (abs_val x); lia. Qed.

Lemma zero_iff x : bn_ok x -> (bn_val x = 0 <-> bn_abs x = 0).
Proof. intros O. unfold bn_val. destruct (neg x); lia. Qed.

(** *** Signed reduction *)

Lemma div_leaves r m k o c : ctx_ok c -> bn_mem (o r) -> bn_ok (o m) -> bn_ok (o k) -> top (o k) + 2 <= word_limit ->
  leaves r (Z.max (top (o m)) (top (o k)) + 4) (bn_val (o k) = 0) (Z.rem (bn_val (o m)) (bn_val (o k))) o c
    (BN_div alloc_ok uninit None (Some r) m k o c).
Proof.
  intros Hc Mr Om Ok Hl. destruct (BN_div_divides alloc_ok uninit uninit_len None (Some r) m k o c Hc Om Ok Hl) as (ok & o' & c' & E & S & W & V & F).
  - intros i [<- | []]. exact Mr.
  - discriminate.
  - exists ok, o', c'. split; [exact E | split; [exact S | split; [exact W | split; [| exact F]]]].
    intros H. destruct (V H) as (Nz & _ & R). split; [exact Nz | now apply R].
Qed.

Lemma nnmod_leaves r m k o c : ctx_ok c -> bn_mem (o r) -> bn_ok (o m) -> bn_ok (o k) -> top (o k) + 2 <= word_limit -> r <> k ->
  leaves r (Z.max (top (o m)) (top (o k)) + 4) (bn_val (o k) = 0) (bn_val (o m) mod Z.abs (bn_val (o k))) o c
    (BN_nnmod alloc_ok uninit r m k o c).
Proof.
  intros Hc Mr Om Ok Hl N. unfold BN_nnmod. pose proof (proj1 Om) as Mm. pose proof (proj1 Ok) as Mk. unfold bn_mem in Mm, Mk.
  eapply andthen_leaves; [apply (div_leaves r m k); assumption | reflexivity | apply Z.le_refl | exact id |].
  intros o' c' S W Nz O V. pose proof (unchanged r o o' k W ltac:(congruence)) as Ek. set (x := bn_val (o m)) in *. set (y := bn_val (o k)) in *.
  pose proof (sign_value (o' r) O) as [_ Sr]. destruct (sign_value (o k) Ok) as [_ Sk]. fold y in Sk.
  pose proof (Z.rem_bound_abs x y Nz) as Rb. pose proof (Z.quot_rem' x y) as Q. unfold when.
  assert (Ex : x mod Z.abs y = if Z.rem x y <? 0 then Z.rem x y + Z.abs y else Z.rem x y).
  { destruct (Z.ltb_spec (Z.rem x y) 0); symmetry.
    - apply (Z.mod_unique_pos _ _ (Z.sgn y * Z.quot x y - 1)); [lia |]. destruct (Z.abs_spec y) as [[? ->] | [? ->]]; [rewrite (Z.sgn_pos y) by lia | rewrite (Z.sgn_neg y) by lia]; lia.
    - apply (Z.mod_unique_pos _ _ (Z.sgn y * Z.quot x y)); [lia |]. destruct (Z.abs_spec y) as [[? ->] | [? ->]]; [rewrite (Z.sgn_pos y) by lia | rewrite (Z.sgn_neg y) by lia]; lia. }
  rewrite Ex. destruct (neg (o' r)) eqn:Nr.
  - destruct (Z.ltb_spec (Z.rem x y) 0) as [L | L]; [| rewrite V in Sr; pose proof (proj1 Sr eq_refl); lia].
    apply (leaves_bad r _ False _); [intros [] | exact Nz |].
    assert (Hm : Z.max (top (o' r)) (top (o k)) + 1 <= Z.max (top (o m)) (top (o k)) + 4).
    { pose proof (val_bound (o k) Ok) as Bk. fold y in Bk. pose proof (abs_bound (o' r) (top (o k)) O ltac:(lia) ltac:(rewrite V; lia)). lia. }
    apply (leaves_size r (Z.max (top (o' r)) (top (o k)) + 1)); [exact Hm |]. apply writes_leaves. rewrite <- V, Ek.
    destruct (neg (o k)) eqn:Nk.
    + replace (bn_val (o' r) + Z.abs y) with (bn_val (o' r) - bn_val (o k)) by (fold y; pose proof (proj1 Sk eq_refl); lia). apply sub_delivers; try assumption. apply O.
    + replace (bn_val (o' r) + Z.abs y) with (bn_val (o' r) + bn_val (o k)) by (fold y; destruct (Z.lt_ge_cases y 0) as [G | G]; [pose proof (proj2 Sk G); discriminate | lia]).
      apply add_delivers; try assumption. apply O.
  - destruct (Z.ltb_spec (Z.rem x y) 0) as [L | L]; [rewrite V in Sr; pose proof (proj2 Sr L); discriminate |].
    now apply done_leaves.
Qed.

(** A number is computed in [r] and reduced in place. *)
Lemma reduced_leaves r m (f : routine C) n n1 v1 o c : ctx_ok c -> leaves r n1 False v1 o c (f o c) -> bn_ok (o m) -> top (o m) + 2 <= word_limit -> r <> m ->
  0 <= n -> Z.abs v1 < 2 ^ (64 * n) -> n1 <= Z.max n (top (o m)) + 4 ->
  leaves r (Z.max n (top (o m)) + 4) (bn_val (o m) = 0) (v1 mod Z.abs (bn_val (o m))) o c (andthen f (BN_nnmod alloc_ok uninit r r m) o c).
Proof.
  intros Hc L Om Hl N Hn Hv Hs. eapply andthen_leaves; [exact L | exact Hs | apply Z.le_refl | intros [] |].
  intros o' c' S W _ O V. pose proof (unchanged r o o' m W ltac:(congruence)) as Em.
  pose proof (abs_bound (o' r) n O Hn ltac:(now rewrite V)) as B. rewrite <- V, <- Em.
  apply (leaves_size r (Z.max (top (o' r)) (top (o' m)) + 4)); [lia |]. apply nnmod_leaves; try assumption; try (rewrite Em; assumption); [now apply (ctx_same_ok c) | apply O].
Qed.

Lemma sum_bound a b s : bn_ok a -> bn_ok b -> Z.abs s <= Z.abs (bn_val a) + Z.abs (bn_val b) -> Z.abs s < 2 ^ (64 * (Z.max (top a) (top b) + 1)).
Proof.
  intros Oa Ob H. pose proof (val_bound a Oa). pose proof (val_bound b Ob). pose proof (proj1 Oa) as Ma. pose proof (proj1 Ob) as Mb. unfold bn_mem in Ma, Mb.
  pose proof (Z.pow_le_mono_r 2 (64 * top a) (64 * Z.max (top a) (top b)) ltac:(lia) ltac:(lia)). pose proof (Z.pow_le_mono_r 2 (64 * top b) (64 * Z.max (top a) (top b)) ltac:(lia) ltac:(lia)).
  replace (64 * (Z.max (top a) (top b) + 1)) with (64 * Z.max (top a) (top b) + 64) by ring. rewrite Z.pow_add_r by lia. lia.
Qed.

Lemma below_top x y k : bn_ok x -> bn_ok y -> 0 <= bn_val x < 2 ^ k * bn_val y -> 0 <= k <= 64 -> top x <= top y + 1.
Proof.
  intros O Oy H Hk. pose proof (proj1 Oy) as My. unfold bn_mem in My. apply abs_bound; [exact O | lia |]. pose proof (val_bound y Oy). pose proof (Z.pow_pos_nonneg 2 k ltac:(lia) ltac:(lia)).
  pose proof (Z.pow_le_mono_r 2 k 64 ltac:(lia) ltac:(lia)). replace (64 * (top y + 1)) with (64 + 64 * top y) by ring. rewrite Z.pow_add_r by lia. nia.
Qed.

Section Operands.
Variables (r a b m : Z) (o : objects) (c : C).
Hypotheses (Hc : ctx_ok c) (Mr : bn_mem (o r)) (Oa : bn_ok (o a)) (Ob : bn_ok (o b)) (Om : bn_ok (o m)) (Hm : top (o m) + 2 <= word_limit) (N : r <> m).

Lemma tops : 0 <= top (o a) /\ 0 <= top (o b) /\ 0 <= top (o m).
Proof. pose proof (proj1 Oa) as H1. pose proof (proj1 Ob) as H2. pose proof (proj1 Om) as H3. unfold bn_mem in *. lia. Qed.

Lemma mod_add_leaves : leaves r (Z.max (Z.max (top (o a)) (top (o b)) + 1) (top (o m)) + 4) (bn_val (o m) = 0)
  ((bn_val (o a) + bn_val (o b)) mod Z.abs (bn_val (o m))) o c (BN_mod_add alloc_ok uninit r a b m o c).
Proof.
  pose proof tops. unfold BN_mod_add. eapply reduced_leaves; try assumption; [apply writes_leaves, add_delivers; assumption | lia | | lia].
  apply sum_bound; try assumption. lia.
Qed.

Lemma mod_sub_leaves : leaves r (Z.max (Z.max (top (o a)) (top (o b)) + 1) (top (o m)) + 4) (bn_val (o m) = 0)
  ((bn_val (o a) - bn_val (o b)) mod Z.abs (bn_val (o m))) o c (BN_mod_sub alloc_ok uninit r a b m o c).
Proof.
  pose proof tops. unfold BN_mod_sub. eapply reduced_leaves; try assumption; [apply writes_leaves, sub_delivers; assumption | lia | | lia].
  apply sum_bound; try assumption. lia.
Qed.

Lemma operand_arg k : operand (o r) (arg o r k) = o k.
Proof. unfold arg. destruct (Z.eqb_spec k r) as [-> |]; reflexivity. Qed.

Lemma mod_lshift1_leaves : leaves r (Z.max (top (o a) + 1) (top (o m)) + 4) (bn_val (o m) = 0)
  ((2 * bn_val (o a)) mod Z.abs (bn_val (o m))) o c (BN_mod_lshift1 alloc_ok uninit r a m o c).
Proof.
  pose proof tops. unfold BN_mod_lshift1. eapply reduced_leaves; try assumption; [apply writes_leaves | lia | | shelve].
  - pose proof (lshift1_delivers alloc_ok uninit uninit_len (o r) (arg o r a) Mr) as D. rewrite operand_arg in D. now apply D.
  - replace (top (o a) + 1) with (Z.max (top (o a)) (top (o a)) + 1) by lia. apply sum_bound; try assumption. lia.
  Unshelve. lia.
Qed.

(** *** Operands reduced already *)

Definition reduced (k : Z) : Prop := 0 <= bn_val (o k) < bn_val (o m).

Lemma nonneg_abs x : bn_ok x -> 0 <= bn_val x -> bn_abs x = bn_val x.
Proof. intros O H. pose proof (abs_nonneg x O). unfold bn_val in *. destruct (neg x); lia. Qed.

Lemma add_once x y : 0 <= x < y -> forall z, 0 <= z < y -> (x + z) mod y = if y <=? x + z then x + z - y else x + z.
Proof.
  intros Hx z Hz. symmetry. destruct (Z.leb_spec y (x + z)); [apply (Z.mod_unique_pos _ _ 1) | apply (Z.mod_unique_pos _ _ 0)]; lia.
Qed.

Lemma mod_add_quick_leaves : reduced a -> reduced b -> leaves r (Z.max (top (o a)) (top (o b)) + top (o m) + 1) False
  ((bn_val (o a) + bn_val (o b)) mod bn_val (o m)) o c (BN_mod_add_quick alloc_ok uninit r a b m o c).
Proof.
  unfold reduced. intros Ra Rb. pose proof tops. unfold BN_mod_add_quick.
  eapply andthen_leaves; [apply writes_leaves, uadd_delivers; assumption | lia | apply Z.le_refl | intros [] |].
  intros o' c' S W _ O V. rewrite !nonneg_abs in V by (assumption || lia). pose proof (unchanged r o o' m W ltac:(congruence)) as Em.
  unfold when. rewrite Em. pose proof (ucmp_sgn (o' r) (o m) O Om) as U. rewrite (nonneg_abs (o m)), (nonneg_abs (o' r)) in U by (assumption || lia).
  rewrite add_once by lia. rewrite <- V in *. destruct (Z.leb_spec 0 (BN_ucmp (o' r) (o m))) as [L | L].
  - assert (G : bn_val (o m) <= bn_val (o' r)). { pose proof (Z.sgn_nonneg (BN_ucmp (o' r) (o m))) as X. destruct (Z.sgn_spec (bn_val (o' r) - bn_val (o m))) as [[? Y] | [[? Y] | [? Y]]]; lia. }
    destruct (Z.leb_spec (bn_val (o m)) (bn_val (o' r))); [| lia].
    pose proof (below_top (o' r) (o m) 1 O Om ltac:(change (2 ^ 1) with 2; lia) ltac:(lia)) as B.
    assert (D : delivers alloc_ok (o' r) (top (o' r)) (BN_usub alloc_ok uninit (o' r) (o' r) (o m)) (bn_val (o' r) - bn_val (o m))).
    { pose proof (usub_delivers alloc_ok uninit uninit_len (o' r) (o' r) (o m) (proj1 O) O Om) as D. rewrite !nonneg_abs in D by (assumption || lia). apply D. lia. }
    apply (leaves_size r (top (o' r))); [lia |]. apply writes_leaves. rewrite Em. exact D.
  - rewrite (Z.sgn_neg (BN_ucmp (o' r) (o m))) in U by assumption. destruct (Z.leb_spec (bn_val (o m)) (bn_val (o' r))) as [G | G].
    + destruct (Z.sgn_spec (bn_val (o' r) - bn_val (o m))) as [[? X] | [[? X] | [? X]]]; lia.
    + now apply done_leaves; [intros [] | |].
Qed.

Lemma mod_sub_quick_leaves : reduced a -> reduced b -> leaves r (Z.max (top (o a)) (top (o b)) + top (o m) + 2) False
  ((bn_val (o a) - bn_val (o b)) mod bn_val (o m)) o c (BN_mod_sub_quick alloc_ok uninit r a b m o c).
Proof.
  unfold reduced. intros Ra Rb. pose proof tops. unfold BN_mod_sub_quick.
  eapply andthen_leaves; [apply writes_leaves, sub_delivers; assumption | lia | apply Z.le_refl | intros [] |].
  intros o' c' S W _ O V. pose proof (unchanged r o o' m W ltac:(congruence)) as Em. unfold when. pose proof (sign_value (o' r) O) as [_ Sr].
  rewrite <- V. destruct (neg (o' r)) eqn:Nr.
  - pose proof (proj1 Sr eq_refl) as L. replace (bn_val (o' r) mod bn_val (o m)) with (bn_val (o' r) + bn_val (o m)) by (apply (Z.mod_unique_pos _ _ (-1)); lia).
    assert (B : top (o' r) <= top (o m)) by (apply abs_bound; [exact O | lia |]; pose proof (val_bound (o m) Om); lia).
    apply (leaves_size r (Z.max (top (o' r)) (top (o m)) + 1)); [lia |]. apply writes_leaves. rewrite Em. apply add_delivers; try assumption. apply O.
  - assert (L : 0 <= bn_val (o' r)) by (destruct (Z.lt_ge_cases (bn_val (o' r)) 0) as [G | G]; [pose proof (proj2 Sr G); discriminate | exact G]).
    rewrite Z.mod_small by lia. now apply done_leaves; [intros [] | |].
Qed.

(** *** Products *)

Lemma fresh_above l k : In k l -> k < fresh l.
Proof.
  unfold fresh. induction l as [| x l IH]; [intros [] |]. cbn [fold_right]. intros [-> | I]; [lia |]. specialize (IH I). lia.
Qed.

Lemma product_of (x y : BIGNUM) : bn_ok x -> bn_ok y -> Z.abs (bn_val x * bn_val y) < 2 ^ (64 * (top x + top y)).
Proof.
  intros Ox Oy. pose proof (val_bound x Ox). pose proof (val_bound y Oy). pose proof (proj1 Ox) as M1. pose proof (proj1 Oy) as M2. unfold bn_mem in M1, M2.
  rewrite Z.mul_add_distr_l, Z.pow_add_r by lia. rewrite Z.abs_mul. apply Z.mul_lt_mono_nonneg; lia.
Qed.

Hypotheses (Fa : top (o a) <= word_limit) (Fb : top (o b) <= word_limit).

Lemma Forall_one (P : BIGNUM -> Prop) x : P x -> Forall P [x].
Proof. intros Hx. constructor; [exact Hx | constructor]. Qed.

Lemma mod_mul_leaves : leaves r (8 * Z.max (top (o a)) (top (o b)) + top (o m) + 4) (bn_val (o m) = 0)
  ((bn_val (o a) * bn_val (o b)) mod Z.abs (bn_val (o m))) o c (BN_mod_mul alloc_ok uninit r a b m o c).
Proof.
  pose proof tops. unfold BN_mod_mul.
  assert (Fail : forall c' n, ctx_same c c' -> n <= 8 * Z.max (top (o a)) (top (o b)) + top (o m) + 4 -> blocked alloc_ok [r] o n ->
    leaves r (8 * Z.max (top (o a)) (top (o b)) + top (o m) + 4) (bn_val (o m) = 0) ((bn_val (o a) * bn_val (o b)) mod Z.abs (bn_val (o m))) o c (Some (false, o, c'))).
  { intros c' n S L B. exists false, o, c'. split; [reflexivity | split; [exact S | split; [apply only_writes_refl; intros k [<- | []]; exact Mr | split; [discriminate | intros _; right]]]].
    destruct B as [B | [B | B]]; [now left | right; left; lia | right; now right]. }
  pose proof (ctx_get_open c _ (ctx_start_open c Hc)) as G. destruct (ctx_get (ctx_start c)) as [[t |] c1].
  2: { destruct G as [G R]. apply (Fail _ 0); [apply ctx_end_same; [exact G | constructor] | lia | now left]. }
  destruct G as (G & Hc1 & Tt & _).
  assert (P : returns alloc_ok t (8 * Z.max (top (o a)) (top (o b))) (bn_val (o a) * bn_val (o b)) c1
    (if a =? b then BN_sqr alloc_ok uninit t (Some (o a)) c1 else BN_mul alloc_ok uninit t (Some (o a)) (Some (o b)) c1)).
  { destruct (Z.eqb_spec a b) as [<- |].
    - destruct (sqr_returns alloc_ok uninit uninit_len t (Some (o a)) c1 (proj1 Tt) (conj Oa Fa) Hc1) as (ok & t' & c2 & E & D & S). exists ok, t', c2.
      split; [exact E | split; [| exact S]]. apply (delivers_mono alloc_ok t t (4 * top (o a))); [reflexivity | lia | exact D].
    - exact (mul_returns alloc_ok uninit uninit_len t (Some (o a)) (Some (o b)) c1 (proj1 Tt) (conj Oa Fa) (conj Ob Fb) Hc1). }
  destruct P as (ok & t' & c2 & -> & (Mt & St & Vt & Ft) & S2). cbn [fst snd] in *.
  assert (Tt' : temporary_ok t') by (split; [exact Mt | rewrite St; apply Tt]). pose proof (ctx_open_same c c1 c2 G Hc1 S2) as G2.
  destruct ok; cbn [negb].
  2: { apply (Fail _ (8 * Z.max (top (o a)) (top (o b)))); [apply ctx_end_same; [exact G2 | now apply Forall_one] | lia |].
       destruct (Ft eq_refl) as [R | [R | R]]; [now left | right; now left | destruct Tt; congruence]. }
  destruct (Vt eq_refl) as [Ot Et]. set (i := fresh [r; a; b; m]) in *.
  assert (Ni : r <> i /\ m <> i) by (split; intros E; [pose proof (fresh_above [r; a; b; m] r) as X | pose proof (fresh_above [r; a; b; m] m) as X]; fold i in X; cbn in X; lia).
  clearbody i. pose proof (put_same o i t') as Pi. pose proof (put_other o i t' r (proj1 Ni)) as Pr. pose proof (put_other o i t' m (proj2 Ni)) as Pm.
  assert (L : leaves r (Z.max (top t') (top (o m)) + 4) (bn_val (o m) = 0) (bn_val t' mod Z.abs (bn_val (o m))) (put o i t') c2 (BN_nnmod alloc_ok uninit r i m (put o i t') c2)).
  { pose proof (nnmod_leaves r i m (put o i t') c2) as X. rewrite Pr, Pi, Pm in X. apply X; try assumption. now apply (ctx_same_ok c1). }
  destruct L as (ok & o' & c3 & -> & S3 & W & V & F). rewrite Et in V.
  assert (Ei : o' i = t') by (rewrite (unchanged r _ o' i W) by (apply not_eq_sym, Ni); exact Pi).
  pose proof (ctx_open_same c c2 c3 G2 (ctx_same_ok c1 c2 Hc1 S2) S3) as G3.
  exists ok, (put o' i (o i)), (ctx_end c3 [o' i]). rewrite (put_other o' i (o i) r (proj1 Ni)). split; [reflexivity |]. split; [apply ctx_end_same; [exact G3 | rewrite Ei; now apply Forall_one] |].
  split; [| split; [exact V |]].
  - destruct W as [W1 W2]. split.
    + intros k Hk. unfold put. destruct (Z.eqb_spec k i) as [-> |]; [reflexivity |]. rewrite W1 by exact Hk. now apply put_other.
    + intros k [<- | []]. rewrite put_other by apply Ni. rewrite <- Pr. apply W2. now left.
  - intros E. destruct (F E) as [R | [R | [R | (k & [<- | []] & R)]]]; [now left | right; now left | right; right; left | right; right; right; exists r; split; [now left | congruence]].
    pose proof (abs_bound t' (top (o a) + top (o b)) Ot ltac:(lia) ltac:(rewrite Et; now apply product_of)). lia.
Qed.

Lemma mod_sqr_leaves : leaves r (Z.max (4 * top (o a)) (top (o m)) + 4) (bn_val (o m) = 0)
  ((bn_val (o a) * bn_val (o a)) mod Z.abs (bn_val (o m))) o c (BN_mod_sqr alloc_ok uninit r a m o c).
Proof.
  pose proof tops. unfold BN_mod_sqr. set (v := bn_val (o a) * bn_val (o a)).
  assert (L : leaves r (4 * top (o a)) False v o c (writes_ctx r (fun o ctx => BN_sqr alloc_ok uninit (o r) (arg o r a) ctx) o c)).
  { unfold writes_ctx. pose proof (sqr_returns alloc_ok uninit uninit_len (o r) (arg o r a) c Mr) as X. rewrite operand_arg in X. destruct (X (conj Oa Fa) Hc) as (ok & b' & c' & -> & (M & S & V & F) & S').
    exists ok, (put o r b'), c'. cbn [fst snd] in *. rewrite put_same. split; [reflexivity | split; [exact S' | split; [now apply only_writes_put | split; [intros E; split; [intros [] | now apply V] |]]]].
    intros E. right. apply (blocked_refuses alloc_ok [r] o r (o r) (4 * top (o a))); [now left | reflexivity | lia | now apply F]. }
  eapply andthen_leaves; [exact L | lia | apply Z.le_refl | intros [] |].
  intros o' c' S W _ O V. pose proof (unchanged r o o' m W ltac:(congruence)) as Em.
  assert (B : top (o' r) <= 2 * top (o a)) by (apply abs_bound; [exact O | lia |]; rewrite V; replace (2 * top (o a)) with (top (o a) + top (o a)) by ring; now apply product_of).
  apply (leaves_size r (Z.max (top (o' r)) (top (o' m)) + 4)); [rewrite Em; lia |]. rewrite <- V, <- Em.
  assert (X : bn_val (o' r) mod Z.abs (bn_val (o' m)) = Z.rem (bn_val (o' r)) (bn_val (o' m)) \/ bn_val (o' m) = 0).
  { rewrite V. assert (0 <= v) by (unfold v; nia). destruct (Z.eq_dec (bn_val (o' m)) 0); [now right | left]. destruct (Z.abs_spec (bn_val (o' m))) as [[? ->] | [? ->]]; [symmetry; apply Z.rem_mod_nonneg; lia |].
    rewrite <- (Z.rem_opp_r' v). symmetry. apply Z.rem_mod_nonneg; lia. }
  pose proof (div_leaves r r m o' c' (ctx_same_ok c c' Hc S) (proj1 O) O ltac:(now rewrite Em) ltac:(now rewrite Em)) as D.
  destruct X as [-> | X]; [exact D |]. destruct D as (ok & o2 & c2 & E & S2 & W2 & V2 & F2). exists ok, o2, c2.
  split; [exact E | split; [exact S2 | split; [exact W2 | split; [| exact F2]]]]. intros Ht. destruct (V2 Ht) as [Nz _]. contradiction.
Qed.
End Operands.

(** *** Shifts *)

Lemma subtract_once_leaves r m o c : bn_ok (o r) -> bn_ok (o m) -> 0 <= bn_val (o r) < 2 * bn_val (o m) ->
  leaves r (top (o m) + 2) False (bn_val (o r) mod bn_val (o m)) o c (subtract_once alloc_ok uninit r m o c).
Proof.
  intros O Om R. unfold subtract_once, when. rewrite cmp_sgn by assumption. pose proof (below_top (o r) (o m) 1 O Om ltac:(change (2 ^ 1) with 2; lia) ltac:(lia)) as B.
  destruct (Z.leb_spec 0 (Z.sgn (bn_val (o r) - bn_val (o m)))) as [L | L].
  - pose proof (Z.sgn_nonneg (bn_val (o r) - bn_val (o m))) as X. replace (bn_val (o r) mod bn_val (o m)) with (bn_val (o r) - bn_val (o m)) by (apply (Z.mod_unique_pos _ _ 1); lia).
    apply (leaves_size r (Z.max (top (o r)) (top (o m)) + 1)); [lia |]. apply writes_leaves, sub_delivers; try assumption. apply O.
  - assert (bn_val (o r) < bn_val (o m)) by (destruct (Z.sgn_spec (bn_val (o r) - bn_val (o m))) as [[? X] | [[? X] | [? X]]]; lia).
    rewrite Z.mod_small by lia. now apply done_leaves; [intros [] | |].
Qed.

Lemma mod_lshift1_quick_leaves r a m o c : bn_mem (o r) -> bn_ok (o a) -> bn_ok (o m) -> r <> m -> 0 <= bn_val (o a) < bn_val (o m) ->
  leaves r (top (o a) + top (o m) + 2) False ((2 * bn_val (o a)) mod bn_val (o m)) o c (BN_mod_lshift1_quick alloc_ok uninit r a m o c).
Proof.
  intros Mr Oa Om N R. pose proof (proj1 Om) as Mm. pose proof (proj1 Oa) as Ma. unfold bn_mem in Mm, Ma. unfold BN_mod_lshift1_quick.
  pose proof (lshift1_delivers alloc_ok uninit uninit_len (o r) (arg o r a) Mr) as D. rewrite operand_arg in D.
  eapply (andthen_leaves r _ (top (o m) + 2)); [apply writes_leaves, D; assumption | lia | lia | intros [] |].
  intros o' c' S W _ O V. pose proof (unchanged r o o' m W ltac:(congruence)) as Em. pose proof (subtract_once_leaves r m o' c') as X. rewrite Em, V in X. apply X; (assumption || lia).
Qed.

Lemma num_bits_bounds x : bn_fits x -> 0 <= BN_num_bits x <= 64 * top x /\ bn_abs x < 2 ^ BN_num_bits x /\ (0 < bn_abs x -> 2 ^ BN_num_bits x <= 2 * bn_abs x).
Proof.
  intros F. pose proof (abs_range x (proj1 F)) as R. rewrite (num_bits_spec x F). destruct (Z.eqb_spec (bn_abs x) 0) as [E | E].
  - pose proof (proj1 (proj1 F)) as M. unfold bn_mem in M. rewrite E. change (2 ^ 0) with 1. lia.
  - pose proof (Z.log2_spec (bn_abs x) ltac:(lia)) as L. pose proof (Z.log2_nonneg (bn_abs x)). rewrite Z.pow_succ_r in L by lia.
    assert (Z.log2 (bn_abs x) < 64 * top x) by (apply Z.log2_lt_pow2; lia). replace (Z.log2 (bn_abs x) + 1) with (Z.succ (Z.log2 (bn_abs x))) by lia. rewrite Z.pow_succ_r by lia. lia.
Qed.

Lemma num_bits_le x y : bn_fits x -> bn_fits y -> bn_abs x <= bn_abs y -> BN_num_bits x <= BN_num_bits y.
Proof.
  intros Fx Fy H. rewrite !num_bits_spec by assumption. pose proof (abs_nonneg x (proj1 Fx)). pose proof (Z.log2_nonneg (bn_abs y)).
  destruct (Z.eqb_spec (bn_abs x) 0), (Z.eqb_spec (bn_abs y) 0); try lia. pose proof (Z.log2_le_mono (bn_abs x) (bn_abs y) H). lia.
Qed.

Lemma mod_lshift_loop_leaves fuel : forall r m n o c, (Z.to_nat n < fuel)%nat -> 0 <= n -> bn_ok (o r) -> bn_fits (o m) -> r <> m -> 0 <= bn_val (o r) < bn_val (o m) ->
  leaves r (2 * top (o m) + 3) False ((bn_val (o r) * 2 ^ n) mod bn_val (o m)) o c (mod_lshift_loop alloc_ok uninit fuel r m n o c).
Proof.
  induction fuel as [| fuel IH]; intros r m n o c Hf Hn O Fm N R; [lia |]. cbn [mod_lshift_loop]. destruct (Z.leb_spec n 0) as [L | L].
  { replace n with 0 by lia. rewrite Z.pow_0_r, Z.mul_1_r, Z.mod_small by lia. now apply done_leaves; [intros [] | |]. }
  pose proof (proj1 Fm) as Om. pose proof (proj1 Om) as Mm. unfold bn_mem in Mm.
  assert (Ft : top (o r) <= top (o m)) by (apply abs_bound; [exact O | lia |]; pose proof (val_bound (o m) Om); lia).
  assert (Fr : bn_fits (o r)) by (split; [exact O | destruct Fm; lia]).
  pose proof (nonneg_abs (o r) O ltac:(lia)) as Ar. pose proof (nonneg_abs (o m) Om ltac:(lia)) as Am.
  pose proof (num_bits_bounds (o r) Fr) as (Br & Hr & _). pose proof (num_bits_bounds (o m) Fm) as (Bm & _ & Gm).
  pose proof (num_bits_le (o r) (o m) Fr Fm ltac:(lia)) as Le. rewrite Ar in Hr. rewrite Am in Gm. specialize (Gm ltac:(lia)).
  set (s := BN_num_bits (o m) - BN_num_bits (o r)) in *. assert (Hs : to_signed 32 (u32 s) = s).
  { destruct Fm as [_ Fm]. assert (INT_MAX / (4 * 64) = 8388607) as Ei by reflexivity. rewrite Ei in Fm. unfold to_signed. rewrite wrap_wrap. rewrite wrap_small by lia. destruct (Z.ltb_spec s (2 ^ (32 - 1))); lia. }
  rewrite Hs. destruct (Z.ltb_spec s 0); [lia |]. set (k := if n <? s then n else s). assert (Hk : 0 <= k <= s /\ k <= n) by (unfold k; destruct (Z.ltb_spec n s); lia). clearbody k.
  (* one turn, shifting by [j] bits *)
  assert (Turn : forall j f, 1 <= j <= n -> bn_val (o r) * 2 ^ j < 2 * bn_val (o m) -> delivers alloc_ok (o r) (2 * top (o m) + 2) (f o) (bn_val (o r) * 2 ^ j) ->
    leaves r (2 * top (o m) + 3) False ((bn_val (o r) * 2 ^ n) mod bn_val (o m)) o c
      (andthen (writes r f) (andthen (subtract_once alloc_ok uninit r m) (mod_lshift_loop alloc_ok uninit fuel r m (n - j))) o c)).
  { intros j f Hj Hv D. pose proof (Z.pow_pos_nonneg 2 j ltac:(lia) ltac:(lia)).
    eapply (andthen_leaves r _ (2 * top (o m) + 3)); [apply writes_leaves, D | lia | lia | intros [] |].
    intros o1 c1 S1 W1 _ O1 V1. pose proof (unchanged r o o1 m W1 ltac:(congruence)) as E1.
    pose proof (subtract_once_leaves r m o1 c1) as X. rewrite E1, V1 in X. specialize (X O1 Om ltac:(nia)).
    eapply (andthen_leaves r _ (2 * top (o m) + 3)); [exact X | lia | lia | intros [] |].
    intros o2 c2 S2 W2 _ O2 V2. pose proof (unchanged r o1 o2 m W2 ltac:(congruence)) as E2. rewrite E1 in E2.
    pose proof (IH r m (n - j) o2 c2) as Y. rewrite E2, V2 in Y. pose proof (Z.mod_pos_bound (bn_val (o r) * 2 ^ j) (bn_val (o m)) ltac:(lia)) as Bd.
    rewrite Zmult_mod_idemp_l, <- Z.mul_assoc, <- Z.pow_add_r in Y by lia. replace (j + (n - j)) with n in Y by ring. apply Y; (assumption || lia). }
  assert (Pk : bn_val (o r) * 2 ^ s <= 2 * bn_val (o m) /\ (0 < bn_val (o r) -> bn_val (o r) * 2 ^ s < 2 * bn_val (o m))).
  { replace (BN_num_bits (o m)) with (BN_num_bits (o r) + s) in Gm by (unfold s; ring). rewrite Z.pow_add_r in Gm by lia. pose proof (Z.pow_pos_nonneg 2 s ltac:(lia) ltac:(lia)). nia. }
  destruct (Z.eqb_spec k 0) as [K | K]; cbn [negb].
  - apply (Turn 1); [lia | change (2 ^ 1) with 2; lia |]. change (2 ^ 1) with 2. rewrite (Z.mul_comm _ 2).
    apply (delivers_mono alloc_ok (o r) (o r) (top (o r) + 1)); [reflexivity | lia | now apply (lshift1_delivers alloc_ok uninit uninit_len (o r) None (proj1 O))].
  - apply (Turn k); [lia | |].
    + pose proof (Z.pow_le_mono_r 2 k s ltac:(lia) ltac:(lia)). nia.
    + apply (delivers_mono alloc_ok (o r) (o r) (top (o r) + k / 64 + 1)); [reflexivity | | apply (lshift_delivers alloc_ok uninit uninit_len (o r) None k (proj1 O) O); lia].
      assert (k / 64 <= top (o m)) by (apply Z.div_le_upper_bound; lia). lia.
Qed.

Lemma mod_lshift_quick_leaves r a n m o c : 0 <= n -> bn_mem (o r) -> bn_ok (o a) -> bn_fits (o m) -> r <> m -> 0 <= bn_val (o a) < bn_val (o m) ->
  leaves r (Z.max (top (o a)) (2 * top (o m) + 3)) False ((bn_val (o a) * 2 ^ n) mod bn_val (o m)) o c (BN_mod_lshift_quick alloc_ok uninit r a n m o c).
Proof.
  intros Hn Mr Oa Fm N R. unfold BN_mod_lshift_quick.
  assert (L : leaves r (top (o a)) False (bn_val (o a)) o c ((if negb (r =? a) then writes r (fun o => BN_copy alloc_ok uninit (o r) (o a)) else done) o c)).
  { destruct (Z.eqb_spec r a) as [<- |]; cbn [negb]; [now apply done_leaves; [intros [] | |] | apply writes_leaves; now apply copy_delivers]. }
  eapply (andthen_leaves r _ (2 * top (o m) + 3)); [exact L | lia | lia | intros [] |].
  intros o' c' S W _ O V. pose proof (unchanged r o o' m W ltac:(congruence)) as Em. pose proof (mod_lshift_loop_leaves (Datatypes.S (Z.to_nat n)) r m n o' c') as X. rewrite Em, V in X. apply X; (assumption || lia).
Qed.

Lemma dup_case x : bn_ok x ->
  match BN_dup alloc_ok uninit (Some x) with
  | Some y => bn_ok y /\ bn_val y = bn_val x
  | None => starved alloc_ok \/ word_limit < top x
  end.
Proof.
  intros O. unfold BN_dup, BN_new. destruct (alloc_ok 24) eqn:E; [| left; now exists 24].
  pose proof (copy_delivers alloc_ok uninit uninit_len (mk_bn [] 0 false false) x ltac:(unfold bn_mem, dmax; cbn; lia) O) as (_ & _ & V & F).
  destruct (BN_copy _ _ _ x) as [[] y]; cbn [fst snd] in *; [now apply V |]. destruct (F eq_refl) as [R | [R | R]]; [now left | now right | discriminate].
Qed.

Lemma mod_lshift_leaves r a n m o c : ctx_ok c -> 0 <= n -> bn_mem (o r) -> bn_ok (o a) -> bn_ok (o m) -> top (o m) + 2 <= word_limit -> r <> m ->
  leaves r (Z.max (top (o a)) (2 * top (o m)) + 4) (bn_val (o m) = 0) ((bn_val (o a) * 2 ^ n) mod Z.abs (bn_val (o m))) o c
    (BN_mod_lshift alloc_ok uninit r a n m o c).
Proof.
  intros Hc Hn Mr Oa Om Hm N. unfold BN_mod_lshift. pose proof (proj1 Om) as Mm. unfold bn_mem in Mm.
  eapply (andthen_leaves r _ (2 * top (o m) + 3)); [apply nnmod_leaves; assumption | lia | lia | exact id |].
  intros o' c' S W Nz O V. pose proof (unchanged r o o' m W ltac:(congruence)) as Em. destruct (sign_value (o m) Om) as [_ Sm].
  set (y := bn_val (o m)) in *. pose proof (Z.mod_pos_bound (bn_val (o a)) (Z.abs y) ltac:(lia)) as Rb. rewrite <- V in Rb.
  rewrite <- (Zmult_mod_idemp_l (bn_val (o a))), <- V. rewrite Em. apply (leaves_bad r _ False _); [intros [] | exact Nz |].
  (* a modulus [x] in place of [m] *)
  assert (Q : forall i o1, i <> r -> o1 r = o' r -> bn_ok (o1 i) -> bn_val (o1 i) = Z.abs y ->
    leaves r (2 * top (o m) + 3) False ((bn_val (o' r) * 2 ^ n) mod Z.abs y) o1 c' (BN_mod_lshift_quick alloc_ok uninit r r n i o1 c')).
  { intros i o1 Ni Er Oi Vi. pose proof (val_bound (o m) Om) as Bm. fold y in Bm. assert (Ti : top (o1 i) <= top (o m)) by (apply abs_bound; [exact Oi | lia | rewrite Vi; lia]).
    pose proof (mod_lshift_quick_leaves r r n i o1 c' Hn) as X. rewrite Er, Vi in X.
    assert (Tr : top (o' r) <= top (o m)) by (apply abs_bound; [exact O | lia | lia]).
    apply (leaves_size r (Z.max (top (o' r)) (2 * top (o1 i) + 3))); [lia |]. apply X; try assumption; [apply O | split; [exact Oi | unfold word_limit in Hm; lia] | congruence]. }
  destruct (neg (o m)) eqn:Nm.
  2: { apply Q; [congruence | reflexivity | now rewrite Em |]. rewrite Em. fold y. destruct (Z.lt_ge_cases y 0) as [G | G]; [pose proof (proj2 Sm G); discriminate | lia]. }
  pose proof (dup_case (o m) Om) as Dc. destruct (BN_dup _ _ _) as [b |].
  2: { exists false, o', c'. split; [reflexivity | split; [reflexivity | split; [apply only_writes_refl; intros k [<- | []]; apply O | split; [discriminate | intros _; right]]]].
       destruct Dc as [Dc | Dc]; [now left | right; left; lia]. }
  destruct Dc as [Ob Vb]. set (i := fresh [r; m]).
  assert (Ni : i <> r) by (intros E; pose proof (fresh_above [r; m] r) as X; fold i in X; cbn in X; lia). clearbody i.
  pose proof (Q i (put o' i (with_neg b false)) Ni) as X. rewrite put_same, (put_other _ i _ r) in X by congruence.
  destruct X as (ok & o2 & c2 & -> & S2 & W2 & V2 & F2); [reflexivity | now apply abs_ok | |].
  { unfold bn_val. cbn [neg with_neg]. change (bn_abs (with_neg b false)) with (bn_abs b). destruct (abs_val b) as [-> | G]; [rewrite Vb; fold y; reflexivity | pose proof (abs_nonneg b Ob); lia]. }
  exists ok, (put o2 i (o' i)), c2. rewrite (put_other o2 i (o' i) r) by congruence. split; [reflexivity | split; [exact S2 | split; [| split; [exact V2 |]]]].
  - destruct W2 as [W2 K2]. split; intros k Hk.
    + unfold put. destruct (Z.eqb_spec k i) as [-> |]; [reflexivity |]. rewrite W2 by exact Hk. now apply put_other.
    + destruct Hk as [<- | []]. rewrite put_other by congruence. destruct (K2 r (or_introl eq_refl)) as [K3 K4]. rewrite put_other in K4 by congruence. now split.
  - intros E. destruct (F2 E) as [[] | [R | [R | (k & [<- | []] & R)]]]; [right; now left | right; right; now left | right; right; right]. exists r. split; [now left |]. now rewrite put_other in R by congruence.
Qed.
End Residues.

(** ** One word *)

Lemma rem_words_value n0 n1 d0 : word_ok n0 -> word_ok n1 -> n0 < d0 < 2 ^ 64 ->
  bn_div_rem_words n0 n1 d0 = ((n0 * 2 ^ 64 + n1) / d0, (n0 * 2 ^ 64 + n1) mod d0) /\ word_ok ((n0 * 2 ^ 64 + n1) / d0).
Proof.
  intros H0 H1 Hd. unfold bn_div_rem_words. rewrite two_words by assumption. unfold word_ok in *. set (n := n0 * 2 ^ 64 + n1).
  assert (Hq : 0 <= n / d0 < 2 ^ 64) by (split; [apply Z.div_pos; lia | apply Z.div_lt_upper_bound; unfold n; nia]).
  rewrite (wrap_small 64 (n / d0)) by lia. split; [f_equal | exact Hq]. pose proof (Z.div_mod n d0 ltac:(lia)) as Dm. pose proof (Z.mod_pos_bound n d0 ltac:(lia)).
  unfold wrap at 1. rewrite Zminus_mod. unfold wrap. rewrite Zmod_mod, <- Zminus_mod. symmetry. apply (Z.mod_unique_pos _ _ (- n0)); [lia |]. unfold n in *. lia.
Qed.

Lemma div_word_loop_value w : 0 < w < 2 ^ 64 -> forall n l ret, Z.of_nat n <= len l -> words_ok (take (Z.of_nat n) l) -> 0 <= ret < w ->
  let (l', ret') := div_word_loop n l ret w in
  let v := ret * weight (Z.of_nat n) + le_val (take (Z.of_nat n) l) in
  len l' = len l /\ words_ok (take (Z.of_nat n) l') /\ drop (Z.of_nat n) l' = drop (Z.of_nat n) l /\
  le_val (take (Z.of_nat n) l') = v / w /\ ret' = v mod w.
Proof.
  intros Hw. induction n as [| n IH]; intros l ret L W R; cbn [div_word_loop].
  { change (Z.of_nat 0) with 0. rewrite !take_0, weight_0, !drop_0. cbn [le_val]. replace (ret * 1 + 0) with ret by ring. rewrite Z.div_small, Z.mod_small by lia. repeat split. constructor. }
  set (m := Z.of_nat n) in *. replace (Z.of_nat (S n)) with (m + 1) in * by lia. set (x := get l m).
  assert (Wx : word_ok x) by (unfold x; rewrite <- (get_take l (m + 1)) by lia; now apply word_get).
  assert (Wl : words_ok (take m l)) by (rewrite <- (take_take m (m + 1)) by lia; auto with bytes).
  destruct (rem_words_value ret x w ltac:(unfold word_ok; lia) Wx ltac:(lia)) as [E Wq]. rewrite E. set (y := ret * 2 ^ 64 + x) in *.
  pose proof (Z.div_mod y w ltac:(lia)) as Dm. pose proof (Z.mod_pos_bound y w ltac:(lia)) as Rm. set (q := y / w) in *.
  assert (Er : Z.land (u64 (x - Z.land (u64 (q * w)) BN_MASK2)) BN_MASK2 = y mod w).
  { rewrite !word_land by apply u64_word_ok. revert E. unfold bn_div_rem_words. rewrite two_words by (assumption || (unfold word_ok; lia)). fold y q. rewrite (wrap_small 64 q) by exact Wq. now intros [= ->]. }
  rewrite Er. specialize (IH (set l m q) (y mod w)). rewrite len_set in IH by lia. rewrite take_set in IH by lia. specialize (IH ltac:(lia) Wl Rm).
  destruct (div_word_loop n (set l m q) (y mod w) w) as [l' ret']. destruct IH as (L' & W' & D' & V' & R'). split; [exact L' |].
  assert (Gq : get l' m = q).
  { pose proof (drop_cons_get m l' ltac:(lia)) as X. pose proof (drop_cons_get m (set l m q) ltac:(rewrite len_set; lia)) as Y. rewrite D', Y, get_set_same in X by lia. now injection X as <- _. }
  assert (Ev : ret * weight (m + 1) + le_val (take (m + 1) l) = y mod w * weight m + le_val (take m l) + q * weight m * w).
  { rewrite take_succ, val_app, len_take, weight_add by lia. cbn [le_val]. fold x. change (weight 1) with (2 ^ 64).
    replace (ret * (weight m * 2 ^ 64) + (le_val (take m l) + weight m * (x + 2 ^ 64 * 0))) with (weight m * y + le_val (take m l)) by (unfold y; ring). rewrite Dm at 1. ring. }
  rewrite Ev, Z.div_add, Z.mod_add by lia. rewrite take_succ, Gq by lia. split; [auto with bytes |]. split; [| split; [| exact R']].
  - rewrite <- (drop_drop 1 m l') by lia. now rewrite D', drop_set by lia.
  - rewrite val_app, len_take, V' by lia. cbn [le_val]. ring.
Qed.

Lemma mod_word_loop_value w : 0 < w < 2 ^ 64 -> forall n l ret, Z.of_nat n <= len l -> words_ok (take (Z.of_nat n) l) -> 0 <= ret < w ->
  mod_word_loop n l ret w = (ret * weight (Z.of_nat n) + le_val (take (Z.of_nat n) l)) mod w.
Proof.
  intros Hw. induction n as [| n IH]; intros l ret L W R; cbn [mod_word_loop].
  { change (Z.of_nat 0) with 0. rewrite take_0, weight_0. cbn [le_val]. rewrite Z.mod_small; lia. }
  set (m := Z.of_nat n) in *. replace (Z.of_nat (S n)) with (m + 1) in * by lia. set (x := get l m).
  assert (Wx : word_ok x) by (unfold x; rewrite <- (get_take l (m + 1)) by lia; now apply word_get).
  assert (Wl : words_ok (take m l)) by (rewrite <- (take_take m (m + 1)) by lia; auto with bytes).
  rewrite two_words by (assumption || (unfold word_ok; lia)). rewrite IH by (try assumption; try lia; apply Z.mod_pos_bound; lia).
  rewrite take_succ, val_app, len_take, weight_add by lia. cbn [le_val]. fold x. change (weight 1) with (2 ^ 64).
  replace (ret * (weight m * 2 ^ 64) + (le_val (take m l) + weight m * (x + 2 ^ 64 * 0))) with ((ret * 2 ^ 64 + x) * weight m + le_val (take m l)) by ring.
  rewrite <- (Z.add_mod_idemp_l (_ * _)), Z.mul_mod_idemp_l, Z.add_mod_idemp_l by lia. reflexivity.
Qed.

Lemma mod_word_value a w : bn_ok a -> word_ok w -> BN_mod_word a w = if w =? 0 then BN_MASK2 else bn_abs a mod w.
Proof.
  intros O W. unfold BN_mod_word. destruct (Z.eqb_spec w 0) as [| N]; [reflexivity |]. rewrite word_land by assumption. unfold word_ok in W.
  pose proof (proj1 O) as M. unfold bn_mem, dmax in M. rewrite mod_word_loop_value by (rewrite ?Z2Nat.id by lia; try apply O; lia).
  rewrite Z2Nat.id by lia. change (take (top a) (d a)) with (words a). fold (bn_abs a). rewrite Z.mul_0_l, Z.add_0_l. apply wrap_small. pose proof (Z.mod_pos_bound (bn_abs a) w). lia.
Qed.

Section WordPow2.
Variable alloc_ok : Z -> bool.
Variable uninit : Z -> list Z.
Hypothesis uninit_len : forall n, 0 <= n -> len (uninit n) = n.

(** Words that lost at most one at the top. *)
Lemma dropped_top l t n s v : 0 < t <= len l -> words_ok (take t l) -> le_val (take t l) = v -> weight (t - 2) <= v ->
  let t' := if (0 <? t) && (get l (t - 1) =? 0) then t - 1 else t in
  let r := mk_bn l t' (if t' =? 0 then false else n) s in
  bn_ok r /\ bn_val r = if n then - v else v.
Proof.
  intros Ht W V Lo. cbv zeta. destruct (Z.ltb_spec 0 t); [| lia]. cbn [andb]. set (t' := if get l (t - 1) =? 0 then t - 1 else t).
  assert (E : le_val (take t' l) = v /\ words_ok (take t' l) /\ 0 <= t' <= t /\ (0 < t' -> weight (t' - 1) <= v) /\ (t' = 0 -> v = 0)).
  { pose proof (take_succ (t - 1) l ltac:(lia)) as Es. replace (t - 1 + 1) with t in Es by lia. rewrite Es, val_app, len_take in V by lia. cbn [le_val] in V.
    pose proof (word_get (take t l) (t - 1) W) as Wt. rewrite get_take in Wt by lia. unfold word_ok in Wt. assert (Wd : words_ok (take (t - 1) l)) by (rewrite <- (take_take (t - 1) t) by lia; auto with bytes).
    pose proof (val_range _ Wd) as R. rewrite len_take in R by lia. pose proof (weight_pos (t - 1) ltac:(lia)) as P.
    unfold t'. destruct (Z.eqb_spec (get l (t - 1)) 0) as [Z0 | Z0].
    - rewrite Z0 in V. split; [lia | split; [exact Wd | split; [lia | split; [intros _; replace (t - 1 - 1) with (t - 2) by lia; exact Lo |]]]]. intros E0. rewrite E0, weight_0 in R. rewrite E0, weight_0 in V. lia.
    - split; [rewrite Es, val_app, len_take by lia; cbn [le_val]; lia | split; [exact W | split; [lia | split; [intros _; nia | lia]]]]. }
  clearbody t'. destruct E as (E & W' & Bt & Lt & Zt). set (r := mk_bn l t' _ s). assert (Er : words r = take t' l) by reflexivity.
  assert (M : bn_mem r) by (unfold bn_mem, dmax, r; cbn [top d]; lia). assert (A : bn_abs r = v) by (unfold bn_abs; rewrite Er; exact E). split.
  - apply ok_intro; [exact M | rewrite Er; exact W' | rewrite A, weight_base; change (top r) with t'; intros H0; rewrite Z2Nat.id by lia; now apply Lt | change (top r) with t'; intros H0; unfold r; cbn [neg]; now rewrite H0].
  - unfold bn_val. rewrite A. unfold r. cbn [neg]. destruct (Z.eqb_spec t' 0) as [E0 |]; [rewrite (Zt E0); now destruct n | reflexivity].
Qed.

Lemma div_word_value a w : bn_ok a -> word_ok w ->
  let (ret, a') := BN_div_word alloc_ok uninit a w in
  if w =? 0 then ret = BN_MASK2 /\ a' = a else
  exists ok, delivers alloc_ok a (top a + 1) (ok, a') (Z.quot (bn_val a) w) /\ ret = if ok : bool then bn_abs a mod w else BN_MASK2.
Proof.
  intros O W. unfold BN_div_word. rewrite (word_land w) by assumption. destruct (Z.eqb_spec w 0) as [| N]; [now split |]. unfold word_ok in W.
  pose proof (abs_nonneg a O) as A0. pose proof (ok_pos a O) as P0. pose proof (proj1 O) as M. unfold bn_mem in M.
  destruct (Z.eqb_spec (top a) 0) as [Z0 | Z0].
  { assert (Za : bn_abs a = 0) by lia. assert (Zv : bn_val a = 0) by (unfold bn_val; rewrite Za; now destruct (neg a)). exists true.
    split; [apply delivers_ok; [exact O | reflexivity | now rewrite Zv, Z.quot_0_l by lia] | now rewrite Za, Z.mod_0_l by lia]. }
  rewrite num_bits_word_spec by (unfold word_ok; lia). destruct (Z.eqb_spec w 0); [lia |]. pose proof (Z.log2_spec w ltac:(lia)) as L. pose proof (Z.log2_nonneg w) as G0. pose proof (Z.log2_lt_pow2 w 64 ltac:(lia)) as G1.
  unfold BN_BITS2. set (j := 64 - (Z.log2 w + 1)). assert (Hj : 0 <= j <= 63) by (unfold j; lia). assert (Ew : 2 ^ 63 <= w * 2 ^ j < 2 ^ 64).
  { replace 63 with (Z.log2 w + j) at 1 by (unfold j; ring). replace 64 with (Z.succ (Z.log2 w) + j) by (unfold j; ring). rewrite !Z.pow_add_r by lia. pose proof (Z.pow_pos_nonneg 2 j ltac:(lia) ltac:(lia)). nia. }
  rewrite Z.shiftl_mul_pow2, wrap_small by lia. destruct (lshift_delivers alloc_ok uninit uninit_len a None j M O ltac:(lia)) as (M1 & S1 & V1 & F1). cbn [operand] in V1, F1. rewrite (Z.div_small j) in F1 by lia.
  destruct (BN_lshift alloc_ok uninit a None j) as [[] a1]; cbn [fst snd negb] in *.
  2: { exists false. split; [| reflexivity]. apply delivers_false; [exact M1 | exact S1 |]. apply (refuses_mono alloc_ok a a (top a + 0 + 1)); [reflexivity | lia | now apply F1]. }
  destruct (V1 eq_refl) as [O1 E1]. pose proof (shifted_abs a a1 j O1 O ltac:(lia) E1) as A1. pose proof (Z.pow_pos_nonneg 2 j ltac:(lia) ltac:(lia)) as Pj.
  pose proof (ok_pos a1 O1) as P1. assert (T1 : 0 < top a1) by nia. destruct (nonzero_words a1 O1 T1) as (W1 & L1 & _ & _ & _ & Lo1). pose proof (proj1 O1) as M1'. unfold bn_mem, dmax in M1'.
  pose proof (div_word_loop_value (w * 2 ^ j) ltac:(lia) (Z.to_nat (top a1)) (d a1) 0) as D. rewrite Z2Nat.id in D by lia. specialize (D ltac:(lia) W1 ltac:(lia)). change (take (top a1) (d a1)) with (words a1) in D.
  destruct (div_word_loop _ _ _ _) as [l ret]. rewrite Z.mul_0_l, Z.add_0_l in D. fold (bn_abs a1) in D. destruct D as (Ll & Wl & _ & Vl & Rl). rewrite A1 in Rl, Vl. rewrite Z.mul_mod_distr_r in Rl by lia. rewrite Z.div_mul_cancel_r in Vl by lia.
  assert (Sg : neg a1 = neg a).
  { destruct (sign_value a O) as [_ Sa]. destruct (sign_value a1 O1) as [_ Sa1]. rewrite E1 in Sa1. destruct (neg a), (neg a1); try reflexivity; [assert (bn_val a < 0) by tauto | assert (bn_val a * 2 ^ j < 0) by tauto]; [assert (false = true) by (apply Sa1; nia) | assert (false = true) by (apply Sa; nia)]; discriminate. }
  destruct (dropped_top l (top a1) (neg a1) (is_static a1) (bn_abs a / w) ltac:(lia) Wl Vl) as [Oq Vq].
  { rewrite <- (Z.div_mul_cancel_r (bn_abs a) w (2 ^ j)), <- A1 by lia. apply Z.div_le_lower_bound; [lia |]. destruct (Z.eq_dec (top a1) 1) as [E | E]; [rewrite E; change (weight (1 - 2)) with 0; lia |].
    replace (top a1 - 1) with (top a1 - 2 + 1) in Lo1 by ring. rewrite weight_add in Lo1 by lia. change (weight 1) with (2 ^ 64) in Lo1. pose proof (weight_pos (top a1 - 2) ltac:(lia)). nia. }
  exists true. split.
  - apply delivers_ok; [exact Oq | exact S1 |]. rewrite Vq, Sg. unfold bn_val. destruct (neg a); [rewrite Z.quot_opp_l by lia; f_equal |]; symmetry; apply Z.quot_div_nonneg; lia.
  - rewrite Rl, Z.shiftr_div_pow2 by lia. now apply Z.div_mul; lia.
Qed.

Lemma get_map (f : Z -> Z) l i : 0 <= i < len l -> get (map f l) i = f (get l i).
Proof. intros H. unfold get. rewrite (nth_indep _ 0 (f 0)) by (rewrite length_map; unfold len in H; lia). apply map_nth. Qed.

(** The words of a number, known by their bits. *)
Definition has_bits (t : list Z) (n v : Z) : Prop :=
  forall q, 0 <= q < n -> word_ok (get t q) /\ forall s, 0 <= s < 64 -> Z.testbit (get t q) s = Z.testbit v (64 * q + s).

Lemma pow2_words_spec e : 0 < e < 2 ^ 64 -> 0 < pow2_words e /\ 64 * (pow2_words e - 1) < e <= 64 * pow2_words e /\
  (e mod 64 = 0 -> e = 64 * pow2_words e) /\ (e mod 64 <> 0 -> e = 64 * (pow2_words e - 1) + e mod 64).
Proof.
  intros H. unfold pow2_words, BN_BITS2. rewrite wrap_small by lia. Z.to_euclidean_division_equations. lia.
Qed.

Lemma mask_top_bits t e v : 0 < e < 2 ^ 64 -> pow2_words e <= len t -> has_bits t (pow2_words e) v ->
  len (mask_top t (pow2_words e) e) = len t /\ has_bits (mask_top t (pow2_words e) e) (pow2_words e) (v mod 2 ^ e).
Proof.
  intros He L H. destruct (pow2_words_spec e He) as (N & B & E0 & E1). set (n := pow2_words e) in *. clearbody n. unfold mask_top, BN_BITS2.
  pose proof (Z.mod_pos_bound e 64 ltac:(lia)) as R. destruct (Z.eqb_spec (e mod 64) 0) as [Z0 | Z0]; cbn [negb].
  { specialize (E0 Z0). split; [reflexivity |]. intros q Hq. destruct (H q Hq) as [W T]. split; [exact W |]. intros s Hs. rewrite T by assumption. symmetry. apply Z.mod_pow2_bits_low. lia. }
  specialize (E1 Z0). split; [apply len_set; lia |]. intros q Hq. destruct (H q Hq) as [W T]. destruct (Z.eq_dec q (n - 1)) as [-> | Nq].
  - rewrite get_set_same by lia. assert (Em : u64 (Z.shiftl 1 (e mod 64)) - 1 = Z.ones (e mod 64)).
    { rewrite Z.shiftl_1_l, wrap_small, Z.ones_equiv by (split; [apply Z.pow_nonneg; lia | apply Z.pow_lt_mono_r; lia]). lia. }
    rewrite Em. split.
    + rewrite Z.land_ones by lia. unfold word_ok. pose proof (Z.mod_pos_bound (get t (n - 1)) (2 ^ (e mod 64)) ltac:(apply Z.pow_pos_nonneg; lia)). pose proof (Z.pow_lt_mono_r 2 (e mod 64) 64 ltac:(lia) ltac:(lia) ltac:(lia)). lia.
    + intros s Hs. rewrite Z.land_ones by lia. rewrite E1 at 2. destruct (Z.lt_ge_cases s (e mod 64)).
      * rewrite !Z.mod_pow2_bits_low by lia. now apply T.
      * rewrite !Z.mod_pow2_bits_high by lia. reflexivity.
  - rewrite get_set_other by lia. split; [exact W |]. intros s Hs. rewrite T by assumption. symmetry. apply Z.mod_pow2_bits_low. lia.
Qed.

Lemma masked t e v ng st : 0 < e < 2 ^ 64 -> pow2_words e <= len t -> has_bits t (pow2_words e) v ->
  let r := bn_correct_top (mk_bn (mask_top t (pow2_words e) e) (pow2_words e) ng st) in bn_ok r /\ bn_val r = if ng then - (v mod 2 ^ e) else v mod 2 ^ e.
Proof.
  intros He L H. destruct (mask_top_bits t e v He L H) as [Lm Hm]. destruct (pow2_words_spec e He) as (N & B & _). pose proof (Z.mod_pos_bound v (2 ^ e) ltac:(apply Z.pow_pos_nonneg; lia)) as R.
  apply normalised; [lia | | exact Hm]. pose proof (Z.pow_le_mono_r 2 e (64 * pow2_words e) ltac:(lia) ltac:(lia)). lia.
Qed.

Lemma rem_pow2_small x e : 0 <= e -> bn_ok x -> 64 * top x <= e -> Z.rem (bn_val x) (2 ^ e) = bn_val x.
Proof.
  intros He O H. pose proof (val_bound x O). pose proof (proj1 O) as M. unfold bn_mem in M. pose proof (Z.pow_le_mono_r 2 (64 * top x) e ltac:(lia) ltac:(lia)).
  apply Z.rem_small_iff; [apply Z.pow_nonzero; lia |]. rewrite (Z.abs_eq (2 ^ e)) by (apply Z.pow_nonneg; lia). lia.
Qed.

Lemma rem_pow2_val x e : 0 <= e -> bn_ok x -> Z.rem (bn_val x) (2 ^ e) = if neg x then - (bn_abs x mod 2 ^ e) else bn_abs x mod 2 ^ e.
Proof.
  intros He O. pose proof (abs_nonneg x O). pose proof (Z.pow_pos_nonneg 2 e ltac:(lia) He). unfold bn_val. destruct (neg x); [rewrite Z.rem_opp_l' |]; rewrite Z.rem_mod_nonneg by lia; reflexivity.
Qed.

Lemma words_bits t x n : bn_ok x -> n <= top x -> (forall q, 0 <= q < n -> get t q = get (d x) q) -> has_bits t n (bn_abs x).
Proof.
  intros O Hn G q Hq. rewrite G by exact Hq. split; [apply word_d; (assumption || lia) |]. intros s Hs. symmetry. apply abs_testbit; (assumption || lia).
Qed.

Lemma mod_pow2_delivers r a e : bn_mem r -> bn_ok (operand r a) -> 0 <= e < 2 ^ 64 ->
  delivers alloc_ok r (top (operand r a)) (BN_mod_pow2 alloc_ok uninit r a e) (Z.rem (bn_val (operand r a)) (2 ^ e)).
Proof.
  intros Mr O He. pose proof (proj1 O) as M. unfold bn_mem, dmax in M. unfold BN_mod_pow2. set (x := operand r a) in *.
  destruct (Z.eqb_spec e 0) as [E0 | E0]; cbn [orb]; [apply zero_delivers; [exact Mr | subst e; apply Z.rem_1_r] |].
  destruct (Z.eqb_spec (top x) 0) as [Z0 | Z0].
  { apply zero_delivers; [exact Mr |]. pose proof (ok_pos x O). pose proof (abs_nonneg x O). rewrite rem_pow2_val by (assumption || lia). replace (bn_abs x) with 0 by lia. rewrite Z.mod_0_l by (apply Z.pow_nonzero; lia). now destruct (neg x). }
  destruct (pow2_words_spec e ltac:(lia)) as (N & B & _). destruct (Z.ltb_spec (top x) (pow2_words e)) as [L | L].
  { rewrite rem_pow2_small by (assumption || lia). destruct a as [a |]; [now apply copy_delivers | now apply delivers_ok]. }
  set (n := pow2_words e) in *.
  destruct (wexpand_case alloc_ok uninit uninit_len r n Mr ltac:(lia)) as [(-> & F) | (r1 & -> & M1 & D1 & W1 & T1 & N1 & S1)]; cbn [negb].
  { apply delivers_false; [exact Mr | reflexivity | apply (refuses_mono alloc_ok r r n); [reflexivity | exact L | exact F]]. }
  unfold dmax in D1. set (src := source a (d r1)).
  assert (Gs : forall q, 0 <= q < n -> get src q = get (d x) q).
  { intros q Hq. unfold src, x. destruct a as [a |]; [reflexivity |]. cbn [source operand] in *. rewrite <- !get_words by (unfold x in L; cbn [operand] in L; lia). now rewrite W1. }
  assert (Ls : len (take n src) = n).
  { apply len_take. split; [lia |]. unfold src. destruct a as [a |]; [unfold x in *; cbn [operand source] in *; lia | exact D1]. }
  assert (Hb : has_bits (splice (d r1) 0 (take n src)) n (bn_abs x)).
  { apply words_bits; [exact O | exact L |]. intros q Hq. rewrite get_splice by lia. rewrite Ls. destruct (Z.leb_spec 0 q), (Z.ltb_spec q (0 + n)); try lia. cbn [andb]. rewrite get_take by lia. rewrite <- Gs by lia. f_equal. lia. }
  destruct (masked (splice (d r1) 0 (take n src)) e (bn_abs x) (neg x) (is_static r1) ltac:(lia) ltac:(fold n; rewrite len_splice by lia; exact D1) Hb) as [Or Vr]. fold n in Or, Vr.
  apply delivers_ok; [exact Or | rewrite correct_top_static; exact S1 |]. rewrite Vr, rem_pow2_val by (assumption || lia). reflexivity.
Qed.

Lemma one_ok : bn_ok BN_value_one /\ bn_val BN_value_one = 1.
Proof. split; [apply bn_check_ok |]; reflexivity. Qed.

Lemma complement_mod y e : 0 <= e -> 0 < y <= 2 ^ e -> Z.lnot y mod 2 ^ e = 2 ^ e - 1 - y mod 2 ^ e.
Proof.
  intros He Hy. unfold Z.lnot. destruct (Z.eq_dec y (2 ^ e)) as [-> | N].
  - rewrite Z_mod_same_full. symmetry. apply (Z.mod_unique_pos _ _ (-2)); lia.
  - rewrite (Z.mod_small y) by lia. symmetry. apply (Z.mod_unique_pos _ _ (-1)); lia.
Qed.

Lemma nnmod_pow2_delivers r a e : bn_mem r -> bn_ok (operand r a) -> 0 <= e < 2 ^ 64 ->
  delivers alloc_ok r (Z.max (top (operand r a)) (pow2_words e + 1)) (BN_nnmod_pow2 alloc_ok uninit r a e) (bn_val (operand r a) mod 2 ^ e).
Proof.
  intros Mr O He. unfold BN_nnmod_pow2. destruct (mod_pow2_delivers r a e Mr O He) as (M1 & S1 & V1 & F1). set (x := operand r a) in *.
  pose proof (Z.pow_pos_nonneg 2 e ltac:(lia) ltac:(lia)) as P. destruct (BN_mod_pow2 alloc_ok uninit r a e) as [[] r1]; cbn [fst snd negb] in *.
  2: { apply delivers_false; [exact M1 | exact S1 |]. apply (refuses_mono alloc_ok r r (top x)); [reflexivity | lia | now apply F1]. }
  destruct (V1 eq_refl) as [O1 E1]. pose proof (abs_nonneg r1 O1) as A1. pose proof (abs_nonneg x O) as Ax. destruct (sign_value r1 O1) as [_ Sg].
  pose proof (Z.rem_bound_abs (bn_val x) (2 ^ e) ltac:(lia)) as Rb. rewrite <- E1 in Rb. rewrite (Z.abs_eq (2 ^ e)) in Rb by lia. pose proof (Z.quot_rem' (bn_val x) (2 ^ e)) as Q. rewrite <- E1 in Q.
  assert (Done : neg r1 = false -> delivers alloc_ok r (Z.max (top x) (pow2_words e + 1)) (true, r1) (bn_val x mod 2 ^ e)).
  { intros N. apply delivers_ok; [exact O1 | exact S1 |]. apply (Z.mod_unique_pos _ _ (Z.quot (bn_val x) (2 ^ e))); [|lia]. destruct (Z.lt_ge_cases (bn_val r1) 0) as [G | G]; [rewrite (proj2 Sg G) in N; discriminate | lia]. }
  destruct (neg r1) eqn:N; [| rewrite orb_true_r; now apply Done]. rewrite orb_false_r. pose proof (neg_pos r1 O1 N) as Y. pose proof (ok_pos r1 O1) as T1. unfold BN_is_zero. destruct (Z.eqb_spec (top r1) 0) as [| Nt]; [lia |].
  assert (Vr1 : bn_val r1 = - bn_abs r1) by (unfold bn_val; now rewrite N). assert (Ee : 0 < e) by (destruct (Z.eq_dec e 0) as [-> |]; [change (2 ^ 0) with 1 in Rb |]; lia).
  destruct (pow2_words_spec e ltac:(lia)) as (Nw & B & _). set (n := pow2_words e) in *.
  assert (Tn : top r1 <= n). { apply top_least; [exact O1 | lia |]. pose proof (Z.pow_le_mono_r 2 e (64 * n) ltac:(lia) ltac:(lia)). lia. }
  destruct (wexpand_case alloc_ok uninit uninit_len r1 n M1 ltac:(lia)) as [(-> & F) | (r2 & -> & M2 & D2 & W2 & T2 & N2 & S2)]; cbn [negb].
  { apply delivers_false; [exact M1 | exact S1 |]. apply (refuses_mono alloc_ok r1 r n); [now symmetry | lia | exact F]. }
  unfold dmax in D2. rewrite T2. set (z := splice (d r2) (top r1) (repeat 0 (Z.to_nat (n - top r1)))). assert (Lz : len z = len (d r2)) by (apply len_splice; rewrite ?len_repeat; lia).
  set (t := map (fun w => u64 (Z.lnot w)) (take n z) ++ drop n z).
  assert (Lt : len t = len z) by (unfold t; rewrite len_app, len_map, len_take, len_drop; lia).
  assert (Gz : forall q, 0 <= q < n -> get z q = word_at (words r1) q).
  { intros q Hq. unfold z. rewrite get_splice by (rewrite ?len_repeat; lia). rewrite len_repeat, Z2Nat.id, word_at_words by (assumption || lia).
    destruct (Z.leb_spec 0 q), (Z.leb_spec (top r1) q), (Z.ltb_spec q (top r1 + (n - top r1))), (Z.ltb_spec q (top r1)); cbn [andb]; try lia.
    - unfold get. now rewrite nth_repeat.
    - rewrite <- !get_words, W2 by lia. reflexivity. }
  assert (Hb : has_bits t n (Z.lnot (bn_abs r1))).
  { intros q Hq. assert (Gt : get t q = u64 (Z.lnot (get z q))).
    { unfold t. rewrite get_app_l by (rewrite len_map, len_take; lia). rewrite get_map by (rewrite len_take; lia). f_equal. f_equal. apply get_take. lia. }
    rewrite Gt. split; [apply u64_word_ok |]. intros s Hs. rewrite testbit_u64, !Z.lnot_spec by lia. f_equal. rewrite Gz by exact Hq. symmetry. apply le_val_testbit_at; [apply O1 | exact Hs]. }
  destruct (masked t e (Z.lnot (bn_abs r1)) false (is_static r2) ltac:(lia) ltac:(fold n; lia) Hb) as [Or Vr]. fold n in Or, Vr. set (r3 := bn_correct_top _) in *.
  assert (S3 : is_static r3 = is_static r) by (unfold r3; rewrite correct_top_static; cbn [is_static]; congruence).
  rewrite complement_mod, Z.mod_small in Vr by lia. destruct one_ok as [Oo Vo].
  assert (T3 : top r3 <= n). { apply abs_bound; [exact Or | lia |]. pose proof (Z.pow_le_mono_r 2 e (64 * n) ltac:(lia) ltac:(lia)). lia. }
  apply (delivers_mono alloc_ok r3 r (Z.max (top r3) 1 + 1)); [exact S3 | lia |].
  replace (bn_val x mod 2 ^ e) with (bn_val r3 + bn_val BN_value_one).
  - change 1 with (top BN_value_one) at 1. apply add_delivers; try assumption. apply Or.
  - rewrite Vr, Vo. apply (Z.mod_unique_pos _ _ (Z.quot (bn_val x) (2 ^ e) - 1)); [lia |]. rewrite Z.mul_sub_distr_l. lia.
Qed.
End WordPow2.

(** ** Properties *)

(** C29: arithmetic on residues is exact. Whichever [BN_CTX] is behind the
    interface, and for any coincidence of the objects except that the result is
    not the modulus, signed reduction, addition, subtraction, multiplication,
    squaring and shifts modulo [m] leave in [r] the residue from 0 below [|m|]
    for operands and modulus of any sign, and write nothing else; they fail only
    for a zero modulus or for want of memory or room, and their loops end. The
    quick variants do the same for operands that are reduced already. *)
Theorem BN_mod_exact {C : Type} {T : Temporaries C} alloc_ok {TC : TemporariesOk C (starved alloc_ok)} uninit r a b m n o c :
  (forall n, 0 <= n -> len (uninit n) = n) -> ctx_ok c -> bn_mem (o r) -> bn_fits (o a) -> bn_fits (o b) ->
  bn_ok (o m) -> top (o m) + 2 <= word_limit -> r <> m -> 0 <= n ->
  let x := bn_val (o a) in
  let y := bn_val (o b) in
  let p := bn_val (o m) in
  let size := 8 * Z.max (top (o a)) (top (o b)) + 2 * top (o m) + 5 in
  let residue v res := leaves alloc_ok r size (p = 0) (v mod Z.abs p) o c res in
  let quick v res := leaves alloc_ok r size False (v mod p) o c res in
  residue x (BN_nnmod alloc_ok uninit r a m o c) /\
  residue (x + y) (BN_mod_add alloc_ok uninit r a b m o c) /\
  residue (x - y) (BN_mod_sub alloc_ok uninit r a b m o c) /\
  residue (x * y) (BN_mod_mul alloc_ok uninit r a b m o c) /\
  residue (x * x) (BN_mod_sqr alloc_ok uninit r a m o c) /\
  residue (x * 2 ^ n) (BN_mod_lshift alloc_ok uninit r a n m o c) /\
  residue (2 * x) (BN_mod_lshift1 alloc_ok uninit r a m o c) /\
  (0 <= x < p ->
    quick (x * 2 ^ n) (BN_mod_lshift_quick alloc_ok uninit r a n m o c) /\
    quick (2 * x) (BN_mod_lshift1_quick alloc_ok uninit r a m o c) /\
    (0 <= y < p ->
      quick (x + y) (BN_mod_add_quick alloc_ok uninit r a b m o c) /\
      quick (x - y) (BN_mod_sub_quick alloc_ok uninit r a b m o c))).
Proof.
  intros U Hc Mr [Oa Fa] [Ob Fb] Om Hm N Hn x y p size residue quick. fold word_limit in Fa, Fb.
  pose proof (proj1 Oa) as Ma. pose proof (proj1 Ob) as Mb. pose proof (proj1 Om) as Mm. unfold bn_mem in Ma, Mb, Mm.
  assert (Fm : bn_fits (o m)) by (split; [exact Om | unfold word_limit in Hm; lia]).
  split; [eapply leaves_size; [| now apply nnmod_leaves]; lia |]. split; [eapply leaves_size; [| now apply mod_add_leaves]; lia |].
  split; [eapply leaves_size; [| now apply mod_sub_leaves]; lia |]. split; [eapply leaves_size; [| now apply mod_mul_leaves]; lia |].
  split; [eapply leaves_size; [| now apply (mod_sqr_leaves alloc_ok uninit U r a a)]; lia |]. split; [eapply leaves_size; [| now apply mod_lshift_leaves]; lia |].
  split; [eapply leaves_size; [| now apply (mod_lshift1_leaves alloc_ok uninit U r a a)]; lia |]. intros Rx.
  split; [eapply leaves_size; [| now apply mod_lshift_quick_leaves]; lia |]. split; [eapply leaves_size; [| now apply mod_lshift1_quick_leaves]; lia |]. intros Ry.
  split; (eapply leaves_size; [| (now apply mod_add_quick_leaves) || (now apply mod_sub_quick_leaves)]; lia).
Qed.

(** [o 0] is 12, [o 1] is 2^64 + 3 and [o 2] is 5 2^64 + 1; 12 is shifted and
    multiplied in place. *)
Lemma BN_mod_exact_witness :
  let alloc := fun _ : Z => true in
  let o := fun k => if k =? 0 then mk_bn [12; 9] 1 false false else if k =? 1 then mk_bn [3; 1] 2 false false else mk_bn [1; 5] 2 false false in
  let c := mk_ctx BN_POOL_init BN_STACK_init 0 0 false in
  let T := ctx_temporaries alloc stale in
  let TC := ctx_temporaries_ok alloc stale stale_len in
  let p := 5 * 2 ^ 64 + 1 in
  leaves (T := T) (TC := TC) alloc 0 25 (p = 0) (12 * (2 ^ 64 + 3) mod Z.abs p) o c (BN_mod_mul (H := T) alloc stale 0 0 1 2 o c) /\
  leaves (T := T) (TC := TC) alloc 0 25 (p = 0) (12 * 2 ^ 200 mod Z.abs p) o c (BN_mod_lshift (H := T) alloc stale 0 0 200 2 o c) /\
  leaves (T := T) (TC := TC) alloc 0 25 False ((12 - (2 ^ 64 + 3)) mod p) o c (BN_mod_sub_quick alloc stale 0 0 1 2 o c).
Proof.
  intros alloc o c T TC p. destruct (BN_mod_exact (TC := TC) alloc stale 0 0 1 2 200 o c stale_len) as (_ & _ & _ & H1 & _ & H2 & _ & H3).
  - vm_compute. repeat split; try discriminate; try (left; reflexivity).
  - split; apply Z.leb_le; reflexivity.
  - split; [apply bn_check_ok; reflexivity | apply Z.leb_le; reflexivity].
  - split; [apply bn_check_ok; reflexivity | apply Z.leb_le; reflexivity].
  - apply bn_check_ok. reflexivity.
  - apply Z.leb_le. reflexivity.
  - discriminate.
  - lia.
  - split; [exact H1 | split; [exact H2 |]]. apply H3; split; try (apply Z.leb_le; reflexivity); apply Z.ltb_lt; reflexivity.
Defined.

(** C30: division by one word and reduction modulo a power of two are exact.
    [BN_div_word] leaves the quotient rounded towards zero and returns the
    remainder of the magnitude, or all ones for a zero divisor or want of memory;
    [BN_mod_word] returns the same remainder without writing; [BN_mod_pow2]
    rounds towards zero, and [BN_nnmod_pow2], by complementing words, downwards.
    Results are in normal form, in place or apart. *)
Theorem BN_word_pow2_exact alloc_ok uninit r a w e :
  (forall n, 0 <= n -> len (uninit n) = n) -> bn_mem r -> bn_ok (operand r a) -> word_ok w -> 0 <= e < 2 ^ 64 ->
  let x := operand r a in
  (let (ret, q) := BN_div_word alloc_ok uninit x w in
   if w =? 0 then ret = BN_MASK2 /\ q = x else
   exists ok, delivers alloc_ok x (top x + 1) (ok, q) (Z.quot (bn_val x) w) /\ ret = if ok : bool then bn_abs x mod w else BN_MASK2) /\
  BN_mod_word x w = (if w =? 0 then BN_MASK2 else bn_abs x mod w) /\
  delivers alloc_ok r (top x) (BN_mod_pow2 alloc_ok uninit r a e) (Z.rem (bn_val x) (2 ^ e)) /\
  delivers alloc_ok r (Z.max (top x) (pow2_words e + 1)) (BN_nnmod_pow2 alloc_ok uninit r a e) (bn_val x mod 2 ^ e).
Proof.
  intros U Mr O W He x. split; [now apply div_word_value | split; [now apply mod_word_value |]].
  split; [now apply mod_pow2_delivers | now apply nnmod_pow2_delivers].
Qed.

(** A negative number of three words, divided by ten, and reduced modulo 2^100 in
    place. *)
Lemma BN_word_pow2_exact_witness :
  let alloc := fun _ : Z => true in
  let x := mk_bn [7; 2 ^ 64 - 1; 12] 3 true false in
  BN_mod_word x 10 = bn_abs x mod 10 /\
  (exists ok, delivers alloc x 4 (ok, snd (BN_div_word alloc stale x 10)) (Z.quot (bn_val x) 10) /\
     fst (BN_div_word alloc stale x 10) = if ok : bool then bn_abs x mod 10 else BN_MASK2) /\
  delivers alloc x 3 (BN_nnmod_pow2 alloc stale x None 100) (bn_val x mod 2 ^ 100).
Proof.
  intros alloc x. destruct (BN_word_pow2_exact alloc stale x None 10 100 stale_len) as (H1 & H2 & _ & H3).
  - split; apply Z.leb_le; reflexivity.
  - apply bn_check_ok. reflexivity.
  - unfold word_ok. lia.
  - lia.
  - split; [exact H2 | split; [| exact H3]]. cbn [operand] in H1. destruct (BN_div_word alloc stale x 10) as [ret q]. exact H1.
Defined.
