(* ===== verification/BnMont.v ===== *)
(** * Montgomery arithmetic (crypto/fipsmodule/bn/montgomery.c, montgomery_inv.c)

    The portable branch: products are reduced word by word, a multiple of the
    modulus clearing the lowest word at each turn, and the last subtraction is
    selected by masks on pointers. A routine that takes two operands is given
    [None] for the second when it is the same object as the first. Locks are not
    modelled: [BN_MONT_CTX_set_locked] is the work done inside them. *)

From S2P Require Import Prelude Buffers BnWords Bignum BnBytes BnCtx BnShift BnProducts BnMul BnDiv BnMod.

(** ** montgomery_inv.c *)

Definition LG_LITTLE_R : nat := 64.

(** One turn of [bn_neg_inv_mod_r_u64], with [alpha] half of [r]. *)
Definition neg_inv_step (alpha beta : Z) (uv : Z * Z) : Z * Z :=
  let (u, v) := uv in
  let u_is_odd := u64 (0 - Z.land u 1) in
  let beta_if_u_is_odd := Z.land beta u_is_odd in
  let u := u64 (Z.shiftr (Z.lxor u beta_if_u_is_odd) 1 + Z.land u beta_if_u_is_odd) in
  let alpha_if_u_is_odd := Z.land alpha u_is_odd in
  (u, u64 (Z.shiftr v 1 + alpha_if_u_is_odd)).

Definition bn_neg_inv_mod_r_u64 (n : Z) : Z :=
  let alpha := Z.shiftl 1 (Z.of_nat LG_LITTLE_R - 1) in
  snd (Nat.iter LG_LITTLE_R (neg_inv_step alpha n) (1, 0)).

Definition bn_mont_n0 (n : BIGNUM) : Z := bn_neg_inv_mod_r_u64 (get (d n) 0).

Section Setup.
Variable alloc_ok : Z -> bool.
Variable uninit : Z -> list Z.

(** [for (unsigned i = n_bits; i < p; ++i)]. *)
Fixpoint base_2_loop (turns : nat) (r n : BIGNUM) : bool * BIGNUM :=
  match turns with
  | O => (true, r)
  | S turns =>
      let (ok, r) := BN_lshift1 alloc_ok uninit r None in
      if negb ok then (false, r) else
      let (ok, r) := if 0 <=? BN_cmp (Some r) (Some n) then BN_usub alloc_ok uninit r r n else (true, r) in
      if negb ok then (false, r) else base_2_loop turns r n
  end.

Definition bn_mod_exp_base_2_vartime (r : BIGNUM) (p : Z) (n : BIGNUM) : bool * BIGNUM :=
  let r := BN_zero r in
  let n_bits := BN_num_bits n in
  if n_bits =? 1 then (true, r) else
  let (ok, r) := BN_set_bit alloc_ok uninit r n_bits in
  if negb ok then (false, r) else
  let (ok, r) := BN_usub alloc_ok uninit r r n in
  if negb ok then (false, r) else
  base_2_loop (Z.to_nat (p - n_bits)) r n.

(** ** montgomery.c *)

Record BN_MONT_CTX := mk_mont { RR : BIGNUM; N : BIGNUM; n0 : Z * Z }.

Definition BN_MONT_CTX_new : option BN_MONT_CTX := guard (alloc_ok 64) in Some (mk_mont BN_init BN_init (0, 0)).

(** [BN_MONT_CTX_copy] of distinct contexts. *)
Definition BN_MONT_CTX_copy (to from : BN_MONT_CTX) : bool * BN_MONT_CTX :=
  let (ok, rr) := BN_copy alloc_ok uninit (RR to) (RR from) in
  if negb ok then (false, mk_mont rr (N to) (n0 to)) else
  let (ok, n) := BN_copy alloc_ok uninit (N to) (N from) in
  if negb ok then (false, mk_mont rr n (n0 to)) else
  (true, mk_mont rr n (fst (n0 from), snd (n0 from))).

Definition BN_MONT_CTX_set (mont : BN_MONT_CTX) (mod_ : BIGNUM) : bool * BN_MONT_CTX :=
  if BN_is_zero mod_ then (false, mont) else
  if negb (BN_is_odd mod_) then (false, mont) else
  if BN_is_negative mod_ then (false, mont) else
  let (ok, n) := BN_copy alloc_ok uninit (N mont) mod_ in
  if negb ok then (false, mk_mont (RR mont) n (n0 mont)) else
  let n0 := (bn_mont_n0 mod_, 0) in
  let lgBigR := u32 (u32 (BN_num_bits mod_ + (BN_BITS2 - 1)) / BN_BITS2 * BN_BITS2) in
  let (ok, rr) := bn_mod_exp_base_2_vartime (RR mont) (u32 (lgBigR * 2)) n in
  (ok, mk_mont rr n n0).

Definition BN_MONT_CTX_set_locked (pmont : option BN_MONT_CTX) (mod_ : BIGNUM) : bool * option BN_MONT_CTX :=
  match pmont with
  | Some _ => (true, pmont)
  | None =>
      match BN_MONT_CTX_new with
      | None => (false, None)
      | Some ctx =>
          let (ok, ctx) := BN_MONT_CTX_set ctx mod_ in
          if negb ok then (false, None) else (true, Some ctx)
      end
  end.

(** *** The reduction *)

(** [for (carry = 0, i = 0; i < nl; i++, rp++)]; [rp] is the whole array. *)
Fixpoint mont_loop (turns : nat) (i nl n0 : Z) (np rp : list Z) (carry : Z) : list Z * Z :=
  match turns with
  | O => (rp, carry)
  | S turns =>
      let (low, v) := bn_mul_add_words (drop i rp) np (Z.to_nat nl) (Z.land (u64 (get rp i * n0)) BN_MASK2) in
      let rp := splice rp i low in
      let x := get rp (i + nl) in
      let v := Z.land (u64 (v + carry + x)) BN_MASK2 in
      let carry := Z.lor carry (b2z (negb (v =? x))) in
      let carry := Z.land carry (b2z (v <=? x)) in
      mont_loop turns (i + 1) nl n0 np (set rp (i + nl) v) carry
  end.

(** The copy to [rp] from [nrp], which is [ap] or [rp] itself, clearing [ap]: by
    four words while [i < nl - 4], then word by word. *)
Fixpoint refresh_fours (fuel : nat) (i nl4 : Z) (from_ap : bool) (rp ap : list Z) : Z * list Z * list Z :=
  match fuel with
  | O => (i, rp, ap)
  | S fuel =>
      if i <? nl4 then
        let t1 := get (if from_ap then ap else rp) (i + 0) in
        let t2 := get (if from_ap then ap else rp) (i + 1) in
        let t3 := get (if from_ap then ap else rp) (i + 2) in
        let ap := set ap (i + 0) 0 in
        let t4 := get (if from_ap then ap else rp) (i + 3) in
        let ap := set ap (i + 1) 0 in
        let rp := set rp (i + 0) t1 in
        let ap := set ap (i + 2) 0 in
        let rp := set rp (i + 1) t2 in
        let ap := set ap (i + 3) 0 in
        let rp := set rp (i + 2) t3 in
        let rp := set rp (i + 3) t4 in
        refresh_fours fuel (i + 4) nl4 from_ap rp ap
      else (i, rp, ap)
  end.

Fixpoint refresh_rest (turns : nat) (i : Z) (from_ap : bool) (rp ap : list Z) : list Z * list Z :=
  match turns with
  | O => (rp, ap)
  | S turns => refresh_rest turns (i + 1) from_ap (set rp i (get (if from_ap then ap else rp) i)) (set ap i 0)
  end.

Definition refresh (nl : Z) (from_ap : bool) (rp ap : list Z) : list Z * list Z :=
  let '(i, rp, ap) := refresh_fours (Z.to_nat nl) 0 (nl - 4) from_ap rp ap in
  refresh_rest (Z.to_nat (nl - i)) i from_ap rp ap.

(** The success, [ret] and [r], distinct objects; a mask that is neither all ones
    nor zero makes a wild pointer. *)
Definition BN_from_montgomery_word (ret r : BIGNUM) (mont : BN_MONT_CTX) : option (bool * BIGNUM * BIGNUM) :=
  let n := N mont in
  let nl := top n in
  if nl =? 0 then Some (true, mk_bn (d ret) 0 (neg ret) (is_static ret), r) else
  let max := 2 * nl in
  let (ok, r) := bn_wexpand alloc_ok uninit r max in
  if negb ok then Some (false, ret, r) else
  let t := if top r <? max then splice (d r) (top r) (repeat 0 (Z.to_nat (max - top r))) else d r in
  let r := mk_bn t max (xorb (neg r) (neg n)) (is_static r) in
  let (rp, carry) := mont_loop (Z.to_nat nl) 0 nl (fst (n0 mont)) (words n) (words r) 0 in
  let* r := write_words r rp max in
  let (ok, ret) := bn_wexpand alloc_ok uninit ret nl in
  if negb ok then Some (false, ret, r) else
  let ret := mk_bn (d ret) nl (neg r) (is_static ret) in
  let ap := drop nl (words r) in
  let (rp, borrow) := bn_sub_words ap (words n) (Z.to_nat nl) in
  let v := u64 (borrow - carry) in
  let m := u64 (0 - v) in
  let* from_ap := if m =? 0 then Some false else if m =? BN_MASK2 then Some true else None in
  let (rp, ap) := refresh nl from_ap rp ap in
  let* ret := write_words ret rp nl in
  let* r := write_words r (take nl (words r) ++ ap) max in
  Some (true, bn_correct_top ret, bn_correct_top r).

Context {C : Type} `{Temporaries C}.

Definition BN_from_montgomery (r a : BIGNUM) (mont : BN_MONT_CTX) (ctx : C) : option (bool * BIGNUM * C) :=
  let ctx := ctx_start ctx in
  let (t, ctx) := ctx_get ctx in
  match t with
  | None => Some (false, r, ctx_end ctx [])
  | Some t =>
      let (ok, t) := BN_copy alloc_ok uninit t a in
      if negb ok then Some (false, r, ctx_end ctx [t]) else
      let* out := BN_from_montgomery_word r t mont in
      let '(ok, r, t) := out in
      Some (ok, r, ctx_end ctx [t])
  end.

Definition bn_mod_mul_montgomery_fallback (r a : BIGNUM) (b : option BIGNUM) (mont : BN_MONT_CTX) (ctx : C) : option (bool * BIGNUM * C) :=
  let ctx := ctx_start ctx in
  let (tmp, ctx) := ctx_get ctx in
  match tmp with
  | None => Some (false, r, ctx_end ctx [])
  | Some tmp =>
      let* out := match b with
                  | None => BN_sqr alloc_ok uninit tmp (Some a) ctx
                  | Some b => BN_mul alloc_ok uninit tmp (Some a) (Some b) ctx
                  end in
      let '(ok, tmp, ctx) := out in
      if negb ok then Some (false, r, ctx_end ctx [tmp]) else
      let* out := BN_from_montgomery_word r tmp mont in
      let '(ok, r, tmp) := out in
      Some (ok, r, ctx_end ctx [tmp])
  end.

Definition BN_mod_mul_montgomery (r a : BIGNUM) (b : option BIGNUM) (mont : BN_MONT_CTX) (ctx : C) : option (bool * BIGNUM * C) :=
  bn_mod_mul_montgomery_fallback r a b mont ctx.

Definition BN_to_montgomery (ret a : BIGNUM) (mont : BN_MONT_CTX) (ctx : C) : option (bool * BIGNUM * C) :=
  BN_mod_mul_montgomery ret a (Some (RR mont)) mont ctx.
End Setup.

(** ** The negated inverse *)

Lemma odd_mask u : word_ok u -> u64 (0 - Z.land u 1) = if Z.odd u then 2 ^ 64 - 1 else 0.
Proof. intros _. change 1 with (Z.ones 1). rewrite Z.land_ones by lia. change (2 ^ 1) with 2. rewrite Zmod_odd. now destruct (Z.odd u). Qed.

Lemma land_all x : word_ok x -> Z.land x (2 ^ 64 - 1) = x.
Proof. exact (word_land x). Qed.

(** Half of a sum that may overflow. *)
Lemma dietz a b : Z.shiftr (Z.lxor a b) 1 + Z.land a b = (a + b) / 2.
Proof.
  rewrite Z.shiftr_div_pow2 by lia. change (2 ^ 1) with 2. rewrite <- (Z.add_lxor_2land a b), (Z.mul_comm 2), Z.div_add by lia. reflexivity.
Qed.

Lemma half_exact x y : x = 2 * y -> x / 2 = y.
Proof. intros ->. rewrite Z.mul_comm. apply Z.div_mul. lia. Qed.

Lemma neg_inv_step_value n u v k : word_ok n -> Z.odd n = true -> 0 < u <= n -> word_ok v -> 0 <= k -> 2 ^ (k + 1) = u * 2 ^ 64 - v * n ->
  let (u', v') := neg_inv_step (2 ^ 63) n (u, v) in 0 < u' <= n /\ word_ok v' /\ 2 ^ k = u' * 2 ^ 64 - v' * n.
Proof.
  unfold word_ok. intros Hn Ho Hu Hv Hk E. unfold neg_inv_step. rewrite odd_mask by (unfold word_ok; lia). rewrite Z.pow_add_r in E by lia. change (2 ^ 1) with 2 in E.
  rewrite dietz, Z.shiftr_div_pow2 by lia. change (2 ^ 1) with 2. rewrite Z.odd_spec in Ho. destruct Ho as [h Hh]. pose proof (Z.pow_pos_nonneg 2 k ltac:(lia) Hk) as Pk.
  assert (Ev : exists w, v = 2 * w). { exists (u * 2 ^ 63 - 2 ^ k - v * h). subst n. lia. } destruct Ev as [w Hw].
  assert (Dw : v / 2 = w) by (apply half_exact; lia). rewrite Dw.
  destruct (Z.odd u) eqn:Ou.
  - rewrite !land_all by (unfold word_ok; lia). rewrite Z.odd_spec in Ou. destruct Ou as [g Hg].
    assert (Du : (u + n) / 2 = g + h + 1) by (apply half_exact; lia). rewrite Du, !wrap_small by lia. subst. split; [lia | split; [lia |]].
    apply (Z.mul_reg_r _ _ 2); [lia |]. rewrite E. change (2 ^ 64) with (2 * 2 ^ 63). ring.
  - rewrite !Z.land_0_r, !Z.add_0_r. rewrite <- Z.negb_even, negb_false_iff, Z.even_spec in Ou. destruct Ou as [g Hg].
    assert (Du : u / 2 = g) by (apply half_exact; lia). rewrite Du, !wrap_small by lia. subst. split; [lia | split; [lia |]]. lia.
Qed.

Lemma neg_inv_value n : word_ok n -> Z.odd n = true -> let v := bn_neg_inv_mod_r_u64 n in word_ok v /\ (v * n + 1) mod 2 ^ 64 = 0.
Proof.
  intros Hn Ho. cbv zeta. unfold bn_neg_inv_mod_r_u64. change (Z.shiftl 1 (Z.of_nat LG_LITTLE_R - 1)) with (2 ^ 63).
  assert (I : forall k, (k <= 64)%nat -> let (u, v) := Nat.iter k (neg_inv_step (2 ^ 63) n) (1, 0) in
    0 < u <= n /\ word_ok v /\ 2 ^ (64 - Z.of_nat k) = u * 2 ^ 64 - v * n).
  { induction k as [| k IH]; intros Hk; cbn [Nat.iter nat_rect].
    - unfold word_ok in *. rewrite Z.odd_spec in Ho. destruct Ho as [h Hh]. change (64 - Z.of_nat 0) with 64. repeat split; lia.
    - specialize (IH ltac:(lia)); unfold Nat.iter in IH; destruct (nat_rect _ _ _ k) as [u v]. destruct IH as (Hu & Hv & E).
      replace (64 - Z.of_nat k) with (64 - Z.of_nat (S k) + 1) in E by lia. exact (neg_inv_step_value n u v (64 - Z.of_nat (S k)) Hn Ho Hu Hv ltac:(lia) E). }
  specialize (I LG_LITTLE_R (le_n _)). destruct (Nat.iter LG_LITTLE_R _ _) as [u v]. destruct I as (Hu & Hv & E). cbn [snd]. change (Z.of_nat LG_LITTLE_R) with 64 in E.
  change (2 ^ (64 - 64)) with 1 in E. split; [exact Hv |]. replace (v * n + 1) with (u * 2 ^ 64) by lia. apply Z.mod_mul. lia.
Qed.

Lemma low_word x : bn_ok x -> 0 < top x -> get (d x) 0 = bn_abs x mod 2 ^ 64.
Proof.
  intros O H. destruct (nonzero_words x O H) as (W & L & _). rewrite <- get_words by lia. unfold bn_abs. unfold get. change (Z.to_nat 0) with 0%nat.
  destruct (words x) as [| w l]; [rewrite len_nil in L; lia |]. inversion_clear W as [| ? ? Hw _]. cbn [nth le_val]. unfold word_ok in Hw. rewrite Z.mul_comm, Z.mod_add, Z.mod_small by lia. reflexivity.
Qed.

Lemma mont_n0_value x : bn_ok x -> 0 < top x -> Z.odd (bn_abs x) = true -> word_ok (bn_mont_n0 x) /\ (bn_mont_n0 x * bn_abs x + 1) mod 2 ^ 64 = 0.
Proof.
  intros O H Ho. unfold bn_mont_n0. rewrite low_word by assumption. destruct (neg_inv_value (bn_abs x mod 2 ^ 64)) as [W E].
  - apply Z.mod_pos_bound. lia.
  - rewrite <- Z.bit0_odd, Z.mod_pow2_bits_low, Z.bit0_odd by lia. exact Ho.
  - split; [exact W |]. etransitivity; [| exact E]. rewrite <- (Z.add_mod_idemp_l (_ * (_ mod _))), Z.mul_mod_idemp_r, Z.add_mod_idemp_l by lia. reflexivity.
Qed.

(** ** The context *)

Section MontProofs.
Variable alloc_ok : Z -> bool.
Variable uninit : Z -> list Z.
Hypothesis uninit_len : forall n, 0 <= n -> len (uninit n) = n.

(** [if (!f) return 0] between routines on one number. *)
Lemma delivers_then r n1 n2 n v1 v res f : delivers alloc_ok r n1 res v1 -> n1 <= n -> n2 <= n ->
  (forall r1, bn_ok r1 -> bn_val r1 = v1 -> is_static r1 = is_static r -> delivers alloc_ok r1 n2 (f r1) v) ->
  delivers alloc_ok r n (let (ok, r1) := res in if negb ok then (false, r1) else f r1) v.
Proof.
  intros (M & S & V & F) L1 L2 K. destruct res as [[] r1]; cbn [fst snd negb] in *.
  - destruct (V eq_refl) as [O E]. apply (delivers_mono alloc_ok r1 r n2); [exact S | exact L2 | now apply K].
  - apply delivers_false; [exact M | exact S |]. apply (refuses_mono alloc_ok r r n1); [reflexivity | exact L1 | now apply F].
Qed.

Lemma subtract_if_above r n (test : bool) : bn_ok r -> bn_ok n -> 0 <= bn_val r < 2 * bn_val n -> (test = true <-> bn_val n <= bn_val r) ->
  delivers alloc_ok r (top n + 1) (if test then BN_usub alloc_ok uninit r r n else (true, r)) (bn_val r mod bn_val n).
Proof.
  intros O On R Ht. pose proof (below_top r n 1 O On ltac:(change (2 ^ 1) with 2; lia) ltac:(lia)) as B. destruct test.
  - pose proof (proj1 Ht eq_refl) as L. replace (bn_val r mod bn_val n) with (bn_val r - bn_val n) by (apply (Z.mod_unique_pos _ _ 1); lia).
    pose proof (usub_delivers alloc_ok uninit uninit_len r r n (proj1 O) O On) as D. rewrite !nonneg_abs in D by (assumption || lia).
    apply (delivers_mono alloc_ok r r (top r)); [reflexivity | exact B | now apply D].
  - rewrite Z.mod_small; [now apply delivers_ok |]. destruct (Z.le_gt_cases (bn_val n) (bn_val r)) as [L |]; [apply Ht in L; discriminate | lia].
Qed.

Lemma cmp_above r n : bn_ok r -> bn_ok n -> (0 <=? BN_cmp (Some r) (Some n)) = true <-> bn_val n <= bn_val r.
Proof.
  intros O On. rewrite cmp_sgn by assumption. rewrite Z.leb_le. rewrite Z.sgn_nonneg. lia.
Qed.

Lemma base_2_loop_delivers turns : forall r n, bn_ok r -> bn_ok n -> 0 <= bn_val r < bn_val n ->
  delivers alloc_ok r (top n + 2) (base_2_loop alloc_ok uninit turns r n) ((bn_val r * 2 ^ Z.of_nat turns) mod bn_val n).
Proof.
  induction turns as [| turns IH]; intros r n O On R; cbn [base_2_loop].
  { change (2 ^ Z.of_nat 0) with 1. rewrite Z.mul_1_r, Z.mod_small by lia. now apply delivers_ok. }
  pose proof (below_top r n 0 O On ltac:(change (2 ^ 0) with 1; lia) ltac:(lia)) as B.
  eapply delivers_then; [now apply (lshift1_delivers alloc_ok uninit uninit_len r None (proj1 O)) | cbn [operand]; lia | apply Z.le_refl |].
  cbn [operand]. intros r1 O1 V1 S1. eapply delivers_then; [apply (subtract_if_above r1 n); [exact O1 | exact On | lia | now apply cmp_above] | lia | apply Z.le_refl |].
  intros r2 O2 V2 S2. pose proof (IH r2 n O2 On) as D. rewrite V2, V1 in D. replace ((bn_val r * 2 ^ Z.of_nat (S turns)) mod bn_val n) with (((2 * bn_val r) mod bn_val n * 2 ^ Z.of_nat turns) mod bn_val n).
  - apply D. apply Z.mod_pos_bound. lia.
  - rewrite Z.mul_mod_idemp_l by lia. rewrite Nat2Z.inj_succ, Z.pow_succ_r by lia. f_equal. ring.
Qed.

Lemma base_2_delivers r p n : bn_mem r -> bn_fits n -> 0 < bn_val n -> Z.odd (bn_val n) = true -> BN_num_bits n <= p ->
  delivers alloc_ok r (top n + 2) (bn_mod_exp_base_2_vartime alloc_ok uninit r p n) (2 ^ p mod bn_val n).
Proof.
  intros Mr Fn Pn Ho Hp. pose proof (proj1 Fn) as On. pose proof (nonneg_abs n On ltac:(lia)) as An. unfold bn_mod_exp_base_2_vartime.
  destruct (num_bits_bounds n Fn) as (B & Lt & Ge). rewrite An in *. specialize (Ge Pn). set (k := BN_num_bits n) in *.
  destruct (zero_ok r Mr) as [Oz Vz]. pose proof (zero_delivers alloc_ok r (top n + 2) 0 Mr eq_refl) as Dz.
  destruct (Z.eqb_spec k 1) as [K | K].
  { rewrite K in Lt. change (2 ^ 1) with 2 in Lt. replace (bn_val n) with 1 by lia. now rewrite Z.mod_1_r. }
  assert (K2 : 2 <= k). { destruct (Z.eq_dec k 0) as [E | E]; [rewrite E in Lt; change (2 ^ 0) with 1 in Lt |]; lia. }
  assert (Gt : 2 ^ k < 2 * bn_val n).
  { rewrite Z.odd_spec in Ho. destruct Ho as [h Hh]. replace k with (1 + (1 + (k - 2))) in * by ring. rewrite !Z.pow_add_r in * by lia. change (2 ^ 1) with 2 in *. lia. }
  apply (delivers_mono alloc_ok (BN_zero r) r (top n + 2)); [reflexivity | lia |].
  pose proof (proj1 On) as Mn. unfold bn_mem in Mn. assert (Kt : k / 64 <= top n) by (apply Z.div_le_upper_bound; lia).
  eapply delivers_then; [apply (set_bit_delivers alloc_ok uninit uninit_len (BN_zero r) k Oz); lia | lia | apply Z.le_refl |].
  intros r1 O1 V1 S1. assert (E1 : bn_val r1 = 2 ^ k).
  { rewrite V1. cbn [neg BN_zero]. replace (bn_abs (BN_zero r)) with 0 by reflexivity. rewrite Z.setbit_spec', Z.lor_0_l. reflexivity. }
  pose proof (subtract_if_above r1 n true O1 On ltac:(lia) ltac:(rewrite E1; split; [lia | reflexivity])) as D. cbv iota in D.
  eapply delivers_then; [exact D | lia | apply Z.le_refl |]. intros r2 O2 V2 S2. rewrite E1 in V2. pose proof (Z.mod_pos_bound (2 ^ k) (bn_val n) Pn) as Rb.
  pose proof (base_2_loop_delivers (Z.to_nat (p - k)) r2 n O2 On ltac:(lia)) as X. rewrite V2, Z2Nat.id, Z.mul_mod_idemp_l, <- Z.pow_add_r in X by lia. now replace (k + (p - k)) with p in X by ring.
Qed.

(** What a context holds once it is set, with [R] the first power of a word above
    the modulus. *)
Record mont_ok (mont : BN_MONT_CTX) : Prop := {
  mont_N : bn_fits (N mont);
  mont_pos : 0 < bn_val (N mont);
  mont_odd : Z.odd (bn_val (N mont)) = true;
  mont_RR_ok : bn_ok (RR mont);
  mont_RR : bn_val (RR mont) = (weight (top (N mont)) * weight (top (N mont))) mod bn_val (N mont);
  mont_n0_word : word_ok (fst (n0 mont));
  mont_n0 : (fst (n0 mont) * bn_val (N mont) + 1) mod 2 ^ 64 = 0
}.

Lemma same_top x y : bn_ok x -> bn_ok y -> bn_val x = bn_val y -> top x = top y.
Proof.
  intros Ox Oy E. pose proof (proj1 Ox) as Mx. pose proof (proj1 Oy) as My. unfold bn_mem in Mx, My. pose proof (val_bound x Ox). pose proof (val_bound y Oy).
  apply Z.le_antisymm; apply abs_bound; try assumption; lia.
Qed.

Lemma big_R x : bn_fits x -> 0 < bn_abs x -> u32 (u32 (BN_num_bits x + (BN_BITS2 - 1)) / BN_BITS2 * BN_BITS2) = 64 * top x.
Proof.
  intros F P. destruct (num_bits_bounds x F) as (B & Lt & Ge). specialize (Ge P). pose proof (ok_pos x (proj1 F)) as Tp. pose proof (abs_low x (proj1 F) ltac:(lia)) as Lo.
  destruct F as [O F]. assert (INT_MAX / (4 * 64) = 8388607) as Ei by reflexivity. rewrite Ei in F.
  assert (L : 64 * (top x - 1) < BN_num_bits x) by (apply (Z.pow_lt_mono_r_iff 2); lia).
  unfold BN_BITS2. rewrite (wrap_small 32 (BN_num_bits x + (64 - 1))) by lia. assert (E : (BN_num_bits x + (64 - 1)) / 64 = top x) by (symmetry; apply (Z.div_unique_pos _ _ _ (BN_num_bits x + 63 - 64 * top x)); lia). rewrite E, wrap_small by lia. ring.
Qed.

Lemma mont_set_ok mont m : bn_mem (N mont) -> bn_mem (RR mont) -> bn_ok m -> top m <= word_limit ->
  let (ok, mont') := BN_MONT_CTX_set alloc_ok uninit mont m in
  (bn_mem (N mont') /\ is_static (N mont') = is_static (N mont) /\ bn_mem (RR mont') /\ is_static (RR mont') = is_static (RR mont)) /\
  (ok = true -> mont_ok mont' /\ bn_val (N mont') = bn_val m) /\
  (ok = false -> bn_val m <= 0 \/ Z.even (bn_val m) = true \/ refuses alloc_ok (N mont) (top m + 2) \/ refuses alloc_ok (RR mont) (top m + 2)).
Proof.
  intros Mn Mr O L. pose proof (proj1 O) as Mm. unfold bn_mem in Mm. pose proof (abs_nonneg m O) as A0. pose proof (ok_pos m O) as Pt. pose proof (sign_value m O) as [_ Sg].
  unfold BN_MONT_CTX_set, BN_is_zero, BN_is_negative. rewrite is_odd_value by assumption.
  destruct (Z.eqb_spec (top m) 0) as [Z0 | Z0].
  { split; [exact (conj Mn (conj eq_refl (conj Mr eq_refl))) | split; [discriminate | intros _; left]]. assert (bn_abs m = 0) by lia. rewrite (proj2 (zero_iff m O)); lia. }
  rewrite <- Z.negb_even, negb_involutive. destruct (Z.even (bn_val m)) eqn:Ev.
  { split; [exact (conj Mn (conj eq_refl (conj Mr eq_refl))) | split; [discriminate | intros _; right; left; reflexivity]]. }
  destruct (neg m) eqn:Ng. { split; [exact (conj Mn (conj eq_refl (conj Mr eq_refl))) | split; [discriminate | intros _; left; assert (bn_val m < 0) by tauto; lia]]. }
  assert (Pm : 0 < bn_val m) by (unfold bn_val; rewrite Ng; lia). assert (Ho : Z.odd (bn_val m) = true) by (now rewrite <- Z.negb_even, Ev).
  destruct (copy_delivers alloc_ok uninit uninit_len (N mont) m Mn O) as (M1 & S1 & V1 & F1). destruct (BN_copy _ _ (N mont) m) as [[] n]; cbn [fst snd negb] in *.
  2: { cbn [N RR]. split; [exact (conj M1 (conj S1 (conj Mr eq_refl))) | split; [discriminate | intros _; right; right; left]]. apply (refuses_mono alloc_ok (N mont) (N mont) (top m)); [reflexivity | lia | now apply F1]. }
  destruct (V1 eq_refl) as [On En]. pose proof (same_top n m On O En) as Tn. assert (Fm : bn_fits m) by (split; [exact O | exact L]). assert (Fn : bn_fits n) by (split; [exact On | unfold word_limit in L; lia]).
  pose proof (nonneg_abs m O ltac:(lia)) as Am. rewrite (big_R m Fm ltac:(lia)).
  destruct (num_bits_bounds m Fm) as (B & _). assert (Hp : u32 (64 * top m * 2) = 128 * top m). { unfold word_limit in L. assert (INT_MAX / (4 * 64) = 8388607) as Ei by reflexivity. rewrite Ei in L. rewrite wrap_small by lia. ring. }
  rewrite Hp. assert (Bn : BN_num_bits n <= 128 * top m) by (destruct (num_bits_bounds n Fn) as (X & _); lia).
  destruct (base_2_delivers (RR mont) (128 * top m) n Mr Fn ltac:(lia) ltac:(now rewrite En) Bn) as (M2 & S2 & V2 & F2).
  destruct (bn_mod_exp_base_2_vartime _ _ _ _ _) as [ok rr]; cbn [fst snd N RR n0] in *. split; [exact (conj M1 (conj S1 (conj M2 S2))) | split].
  - intros ->. destruct (V2 eq_refl) as [Orr Err]. destruct (mont_n0_value m O ltac:(lia) ltac:(now rewrite Am)) as [W0 E0]. rewrite Am in E0.
    split; [| exact En]. split; cbn [N RR n0 fst]; try assumption; rewrite ?En; try assumption. rewrite Err, En, Tn. f_equal. rewrite <- weight_add by lia. unfold weight. f_equal. ring.
  - intros ->. right. right. right. apply (refuses_mono alloc_ok (RR mont) (RR mont) (top n + 2)); [reflexivity | lia | now apply F2].
Qed.
End MontProofs.

(** ** The reduction *)

Lemma val_splice l i k : 0 <= i -> i + len k <= len l -> le_val (splice l i k) = le_val l + weight i * (le_val k - le_val (take (len k) (drop i l))).
Proof.
  intros Hi Hl. pose proof (len_nonneg k). unfold splice. rewrite !val_app, len_take by lia. rewrite (val_split i l), (val_split (len k) (drop i l)) by (rewrite ?len_drop; lia). rewrite drop_drop by lia. ring.
Qed.

Lemma val_set l i x : 0 <= i < len l -> le_val (set l i x) = le_val l + weight i * (x - get l i).
Proof.
  intros Hi. unfold set. rewrite val_splice by (rewrite ?len_cons, ?len_nil; lia). change (len [x]) with 1. rewrite (drop_cons_get i l) by lia. change (take 1 (get l i :: drop (i + 1) l)) with [get l i]. cbn [le_val]. ring.
Qed.

Lemma take_set_le l i x n : 0 <= n <= i -> i < len l -> take n (set l i x) = take n l.
Proof. intros Hn Hi. unfold set, splice. rewrite take_app_l by (rewrite len_take; lia). now apply take_take. Qed.

Lemma words_ok_set l i x : words_ok l -> word_ok x -> words_ok (set l i x).
Proof. intros Hl Hx. unfold set. apply words_ok_splice; [exact Hl | now apply words_ok_1]. Qed.

(** The carry out of three terms, by comparisons with the word [x] added to. *)
Lemma carry_trick c0 carry x : word_ok c0 -> bit_ok carry -> word_ok x ->
  let v := Z.land (u64 (c0 + carry + x)) BN_MASK2 in
  let carry' := Z.land (Z.lor carry (b2z (negb (v =? x)))) (b2z (v <=? x)) in
  word_ok v /\ bit_ok carry' /\ v + 2 ^ 64 * carry' = c0 + carry + x.
Proof.
  intros Hc Hb Hx. cbv zeta. rewrite word_land by apply u64_word_ok. pose proof (u64_word_ok (c0 + carry + x)) as Hv. set (v := u64 (c0 + carry + x)) in *.
  assert (E : v = c0 + carry + x \/ v = c0 + carry + x - 2 ^ 64).
  { unfold v, wrap, word_ok, bit_ok in *. destruct (Z.lt_ge_cases (c0 + carry + x) (2 ^ 64)); [left; apply Z.mod_small | right; symmetry; apply (Z.mod_unique_pos _ _ 1)]; lia. }
  clearbody v. split; [exact Hv |]. unfold word_ok, bit_ok in *.
  destruct Hb as [-> | ->]; destruct (Z.eqb_spec v x), (Z.leb_spec v x); cbn [negb b2z Z.lor Z.land Pos.land Pos.lor]; lia.
Qed.

Section Reduce.
Variables (np : list Z) (nl n0 : Z).
Hypotheses (Wn : words_ok np) (Ln : len np = nl) (Hnl : 0 < nl) (H0 : (n0 * le_val np + 1) mod 2 ^ 64 = 0).

(** A multiple of the modulus clears a word. *)
Lemma cleared low w x rest c : words_ok low -> len low = nl -> w = (x * n0) mod 2 ^ 64 -> le_val low + weight nl * c = w * le_val np + (x + 2 ^ 64 * rest) -> get low 0 = 0.
Proof.
  intros Wl Ll -> E. destruct low as [| y low]; [rewrite len_nil in Ll; lia |]. unfold get. cbn [nth Z.to_nat]. cbn [le_val] in E.
  inversion_clear Wl as [| ? ? Hy _]. unfold word_ok in Hy. replace (weight nl) with (2 ^ 64 * weight (nl - 1)) in E by (replace nl with (1 + (nl - 1)) at 2 by ring; now rewrite weight_add by lia).
  rewrite <- (Z.mod_small y (2 ^ 64)) by lia. replace y with ((x * n0) mod 2 ^ 64 * le_val np + x + (rest - le_val low - weight (nl - 1) * c) * 2 ^ 64) by lia.
  rewrite Z.mod_add by lia. rewrite <- Z.add_mod_idemp_l, Z.mul_mod_idemp_l, Z.add_mod_idemp_l by lia.
  replace (x * n0 * le_val np + x) with (x * (n0 * le_val np + 1)) by ring. rewrite <- Z.mul_mod_idemp_r, H0 by lia. now rewrite Z.mul_0_r.
Qed.

Lemma mont_loop_value turns : forall i rp carry, 0 <= i -> i + Z.of_nat turns = nl -> words_ok rp -> len rp = 2 * nl -> bit_ok carry -> le_val (take i rp) = 0 ->
  exists rp' carry' q, mont_loop turns i nl n0 np rp carry = (rp', carry') /\ words_ok rp' /\ len rp' = 2 * nl /\ bit_ok carry' /\ le_val (take nl rp') = 0 /\
    0 <= q <= weight nl - weight i /\ le_val rp' + weight (2 * nl) * carry' = le_val rp + weight (nl + i) * carry + le_val np * q.
Proof.
  induction turns as [| turns IH]; intros i rp carry Hi Ht W L Hc Z0; cbn [mont_loop].
  { replace i with nl in * by lia. exists rp, carry, 0. split; [reflexivity |]. repeat (split; [assumption |]). split; [lia |]. replace (nl + nl) with (2 * nl) by ring. ring. }
  set (w := Z.land (u64 (get rp i * n0)) BN_MASK2). assert (Ww : word_ok w) by (unfold w; rewrite word_land by apply u64_word_ok; apply u64_word_ok).
  destruct (mul_add_words_Z np (drop i rp) nl Wn ltac:(auto with bytes) ltac:(lia) ltac:(rewrite len_drop; lia) w Ww) as (low & c0 & -> & Ll & Wl & W0 & V). rewrite (take_all nl np) in V by lia.
  set (rp1 := splice rp i low). assert (L1 : len rp1 = 2 * nl) by (unfold rp1; rewrite len_splice; lia). assert (W1 : words_ok rp1) by (now apply words_ok_splice).
  pose proof (val_splice rp i low Hi ltac:(lia)) as V1. fold rp1 in V1. rewrite Ll in V1.
  pose proof (word_get rp1 (i + nl) W1) as Wx. set (x := get rp1 (i + nl)) in *.
  destruct (carry_trick c0 carry x W0 Hc Wx) as (Wv & Hc' & Ev). set (v := Z.land (u64 (c0 + carry + x)) BN_MASK2) in *. set (carry' := Z.land _ (b2z (v <=? x))) in *.
  pose proof (val_set rp1 (i + nl) v ltac:(lia)) as V2. fold x in V2. set (rp2 := set rp1 (i + nl) v) in *.
  assert (L2 : len rp2 = 2 * nl) by (unfold rp2; rewrite len_set; lia). assert (W2 : words_ok rp2) by (now apply words_ok_set).
  assert (Zl : le_val (take (i + 1) rp2) = 0).
  { assert (Et : take (i + 1) rp2 = take i rp ++ [get low 0]).
    { unfold rp2. rewrite take_set_le by lia. unfold rp1, splice. rewrite take_app_r by (rewrite len_take; lia). rewrite len_take by lia. f_equal. replace (i + 1 - i) with (0 + 1) by ring. rewrite take_app_l by lia. rewrite take_succ by lia. reflexivity. }
    rewrite Et, val_app, Z0. cbn [le_val]. rewrite (cleared low w (get rp i) (le_val (take (nl - 1) (drop (i + 1) rp))) c0 Wl Ll); [ring | |].
    - unfold w. now rewrite word_land by apply u64_word_ok.
    - rewrite V. f_equal. rewrite (drop_cons_get i rp) by lia. replace nl with (1 + (nl - 1)) at 1 by ring. unfold take. replace (Z.to_nat (1 + (nl - 1))) with (S (Z.to_nat (nl - 1))) by lia. reflexivity. }
  destruct (IH (i + 1) rp2 carry' ltac:(lia) ltac:(lia) W2 L2 Hc' Zl) as (rp' & cc & q & E & W' & L' & C' & Z' & Q & V').
  pose proof (weight_pos i Hi) as Pi. pose proof (weight_pos (nl + i) ltac:(lia)) as Pn. assert (Ei : weight (i + 1) = weight i * 2 ^ 64) by (rewrite weight_add by lia; reflexivity).
  unfold word_ok in Ww. exists rp', cc, (q + weight i * w). rewrite E. repeat (split; [reflexivity || assumption |]). split; [nia |]. rewrite V', V2, V1.
  assert (En : weight (nl + (i + 1)) = weight (nl + i) * 2 ^ 64) by (replace (nl + (i + 1)) with (nl + i + 1) by ring; rewrite weight_add by lia; reflexivity).
  rewrite En. replace (i + nl) with (nl + i) by ring. replace (weight (nl + i) * 2 ^ 64 * carry') with (weight (nl + i) * (c0 + carry + x - v)) by (rewrite <- Ev; ring).
  replace (le_val low) with (w * le_val np + le_val (take nl (drop i rp)) - weight nl * c0) by lia. rewrite weight_add by lia. ring.
Qed.
End Reduce.

(** *** The copy *)

Lemma get_set_at l a x b : 0 <= a < len l -> 0 <= b -> get (set l a x) b = if b =? a then x else get l b.
Proof. intros Ha Hb. destruct (Z.eqb_spec b a) as [-> | N]; [now apply get_set_same | apply get_set_other; lia]. Qed.

Section Refresh.
Variables (nl : Z) (from_ap : bool) (rp0 ap0 : list Z).

(** The first [i] words are done. *)
Definition refreshed (i : Z) (rp ap : list Z) : Prop :=
  len rp = nl /\ len ap = nl /\ forall j, 0 <= j < nl ->
    get rp j = (if (j <? i) && from_ap then get ap0 j else get rp0 j) /\ get ap j = (if j <? i then 0 else get ap0 j).

Lemma refreshed_source i rp ap j : refreshed i rp ap -> i <= j < nl -> 0 <= i -> get (if from_ap then ap else rp) j = get (if from_ap then ap0 else rp0) j.
Proof.
  intros (_ & _ & H) Hj Hi. destruct (H j ltac:(lia)) as [G1 G2]. destruct from_ap; [rewrite G2 | rewrite G1]; destruct (Z.ltb_spec j i); try lia; reflexivity.
Qed.

Lemma refreshed_step i rp ap : refreshed i rp ap -> 0 <= i < nl -> refreshed (i + 1) (set rp i (get (if from_ap then ap else rp) i)) (set ap i 0).
Proof.
  intros R Hi. rewrite (refreshed_source i rp ap i R) by lia. destruct R as (L1 & L2 & H). split; [now rewrite len_set by lia | split; [now rewrite len_set by lia |]].
  intros j Hj. destruct (H j Hj) as [G1 G2]. rewrite !get_set_at, G1, G2 by lia.
  destruct (Z.eqb_spec j i), (Z.ltb_spec j i), (Z.ltb_spec j (i + 1)); try lia; subst; destruct from_ap; cbn [andb]; split; reflexivity.
Qed.

(** Four words at a time come to the same. *)
Lemma refreshed_four i rp ap : refreshed i rp ap -> 0 <= i -> i + 4 <= nl ->
  let s := if from_ap then ap0 else rp0 in
  refreshed (i + 4) (set (set (set (set rp i (get s i)) (i + 1) (get s (i + 1))) (i + 2) (get s (i + 2))) (i + 3) (get s (i + 3)))
    (set (set (set (set ap i 0) (i + 1) 0) (i + 2) 0) (i + 3) 0).
Proof.
  intros R Hi Hl s. pose proof (refreshed_step i rp ap R ltac:(lia)) as R1. rewrite (refreshed_source i rp ap i R) in R1 by lia. fold s in R1.
  pose proof (refreshed_step _ _ _ R1 ltac:(lia)) as R2. rewrite (refreshed_source _ _ _ (i + 1) R1) in R2 by lia. fold s in R2. replace (i + 1 + 1) with (i + 2) in R2 by ring.
  pose proof (refreshed_step _ _ _ R2 ltac:(lia)) as R3. rewrite (refreshed_source _ _ _ (i + 2) R2) in R3 by lia. fold s in R3. replace (i + 2 + 1) with (i + 3) in R3 by ring.
  pose proof (refreshed_step _ _ _ R3 ltac:(lia)) as R4. rewrite (refreshed_source _ _ _ (i + 3) R3) in R4 by lia. fold s in R4. replace (i + 3 + 1) with (i + 4) in R4 by ring. exact R4.
Qed.

Lemma refresh_fours_ok fuel : forall i rp ap, 0 <= i <= nl -> refreshed i rp ap ->
  let '(i', rp', ap') := refresh_fours fuel i (nl - 4) from_ap rp ap in 0 <= i' <= nl /\ refreshed i' rp' ap'.
Proof.
  induction fuel as [| fuel IH]; intros i rp ap Hi R; cbn [refresh_fours]; [now split |]. destruct (Z.ltb_spec i (nl - 4)); [| now split].
  rewrite !(Z.add_0_r i). pose proof R as (L1 & L2 & _).
  assert (G : get (if from_ap then set ap i 0 else rp) (i + 3) = get (if from_ap then ap else rp) (i + 3)) by (destruct from_ap; [apply get_set_other; lia | reflexivity]).
  rewrite G, !(refreshed_source i rp ap _ R) by lia. apply IH; [lia |]. now apply refreshed_four; [| lia | lia].
Qed.

Lemma refresh_rest_ok turns : forall i rp ap, 0 <= i -> i + Z.of_nat turns = nl -> refreshed i rp ap ->
  let (rp', ap') := refresh_rest turns i from_ap rp ap in refreshed nl rp' ap'.
Proof.
  induction turns as [| turns IH]; intros i rp ap Hi Ht R; cbn [refresh_rest]; [now replace nl with i by lia |].
  apply IH; [lia | lia | now apply refreshed_step; [| lia]].
Qed.

Lemma refresh_value : 0 <= nl -> len rp0 = nl -> len ap0 = nl -> refresh nl from_ap rp0 ap0 = (if from_ap then ap0 else rp0, zero_words nl).
Proof.
  intros Hn L1 L2. unfold refresh.
  assert (R : refreshed 0 rp0 ap0) by (split; [exact L1 | split; [exact L2 |]]; intros j Hj; destruct (Z.ltb_spec j 0); [lia | now split]).
  pose proof (refresh_fours_ok (Z.to_nat nl) 0 rp0 ap0 ltac:(lia) R) as F. destruct (refresh_fours _ _ _ _ _ _) as [[i rp] ap]. destruct F as [Hi F].
  pose proof (refresh_rest_ok (Z.to_nat (nl - i)) i rp ap ltac:(lia) ltac:(lia) F) as G. destruct (refresh_rest _ _ _ _ _) as [rp' ap']. destruct G as (G1 & G2 & G).
  f_equal; apply list_eq_get; rewrite ?len_zero by lia; try (destruct from_ap; lia); intros j Hj; destruct (G j ltac:(lia)) as [X Y].
  - rewrite X. destruct (Z.ltb_spec j nl); [| lia]. now destruct from_ap.
  - rewrite Y, get_zero_words. destruct (Z.ltb_spec j nl); [reflexivity | lia].
Qed.
End Refresh.

(** *** One reduction *)

(** The last subtraction, and the mask that selects its result. *)
Lemma select_value ap np nl carry : words_ok ap -> words_ok np -> len ap = nl -> len np = nl -> bit_ok carry -> 0 <= nl ->
  le_val ap + weight nl * carry < 2 * le_val np ->
  exists rp borrow (from_ap : bool), bn_sub_words ap np (Z.to_nat nl) = (rp, borrow) /\ words_ok rp /\ len rp = nl /\
    u64 (0 - u64 (borrow - carry)) = (if from_ap then BN_MASK2 else 0) /\
    le_val (if from_ap then ap else rp) = (le_val ap + weight nl * carry) mod le_val np.
Proof.
  intros Wa Wn La Ln Hc Hnl Ht. destruct (sub_words_Z ap np nl Wa Wn ltac:(lia) ltac:(lia)) as (rp & b & E & L & W & Hb & V). rewrite !take_all in V by lia.
  pose proof (val_range _ W) as Rr. pose proof (val_range _ Wa) as Ra. pose proof (val_range _ Wn) as Rn. rewrite L in Rr. rewrite La in Ra. rewrite Ln in Rn. pose proof (weight_pos nl Hnl) as P.
  exists rp, b. unfold bit_ok in *. destruct Hc as [-> | ->], Hb as [-> | ->].
  - exists false. repeat (split; [assumption || reflexivity |]). apply (Z.mod_unique_pos _ _ 1); lia.
  - exists true. repeat (split; [assumption || reflexivity |]). apply (Z.mod_unique_pos _ _ 0); lia.
  - exfalso. lia.
  - exists false. repeat (split; [assumption || reflexivity |]). apply (Z.mod_unique_pos _ _ 1); lia.
Qed.

(** From the words of [T], below [N R], to the words left in [ret] and [r]. *)
Lemma reduce_array np nl n0 rp : words_ok np -> len np = nl -> 0 < nl -> (n0 * le_val np + 1) mod 2 ^ 64 = 0 -> words_ok rp -> len rp = 2 * nl ->
  le_val rp < le_val np * weight nl ->
  exists rp' carry rr borrow (from_ap : bool) res,
    mont_loop (Z.to_nat nl) 0 nl n0 np rp 0 = (rp', carry) /\ words_ok rp' /\ len rp' = 2 * nl /\
    bn_sub_words (drop nl rp') np (Z.to_nat nl) = (rr, borrow) /\ u64 (0 - u64 (borrow - carry)) = (if from_ap then BN_MASK2 else 0) /\
    refresh nl from_ap rr (drop nl rp') = (res, zero_words nl) /\ words_ok res /\ len res = nl /\
    le_val res < le_val np /\ (le_val res * weight nl - le_val rp) mod le_val np = 0.
Proof.
  intros Wn Ln Hnl H0 Wr Lr Ht. pose proof (val_range _ Wr) as R0. pose proof (weight_pos nl ltac:(lia)) as P.
  destruct (mont_loop_value np nl n0 Wn Ln Hnl H0 (Z.to_nat nl) 0 rp 0 ltac:(lia) ltac:(lia) Wr Lr ltac:(now left) eq_refl) as (rp' & carry & q & E & W & L & Hc & Z0 & Q & V).
  change (weight 0) with 1 in Q. replace (2 * nl) with (nl + nl) in V by ring. rewrite weight_add in V by lia. rewrite (val_split nl rp'), Z0 in V by lia.
  assert (La : len (drop nl rp') = nl) by (rewrite len_drop; lia). assert (Wa : words_ok (drop nl rp')) by (now apply words_ok_drop).
  destruct (select_value _ np nl carry Wa Wn La Ln Hc ltac:(lia) ltac:(nia)) as (rr & borrow & from_ap & Es & Wrr & Lrr & Em & Vr).
  exists rp', carry, rr, borrow, from_ap, (if from_ap then drop nl rp' else rr). split; [exact E |]. split; [exact W |]. split; [exact L |]. split; [exact Es |]. split; [exact Em |].
  split; [apply refresh_value; lia |]. split; [now destruct from_ap |]. split; [now destruct from_ap |]. rewrite Vr. set (v := le_val (drop nl rp') + weight nl * carry) in *. assert (Pn : 0 < le_val np) by nia.
  split; [now apply Z.mod_pos_bound |]. rewrite <- Zminus_mod_idemp_l, Z.mul_mod_idemp_l by lia. rewrite Zminus_mod_idemp_l.
  replace (v * weight nl - le_val rp) with (q * le_val np) by (unfold v; lia). apply Z.mod_mul. lia.
Qed.

(** [v] is [x] divided by [R] modulo [n], with the sign of [x]. *)
Definition montgomery (n R x v : Z) : Prop := Z.abs v < n /\ (0 <= x -> 0 <= v) /\ (x < 0 -> v <= 0) /\ (v * R - x) mod n = 0.

Lemma montgomery_signed n R a w (b : bool) : 0 <= w < n -> 0 <= a -> (b = true -> 0 < a) -> (w * R - a) mod n = 0 ->
  montgomery n R (if b then - a else a) (if b then - w else w).
Proof.
  intros Hw Ha Hb E. unfold montgomery. destruct b; [specialize (Hb eq_refl) |]; (split; [lia | split; [lia | split; [lia |]]]); [| exact E].
  replace (- w * R - - a) with (- (w * R - a)) by ring. now apply Z.mod_opp_l_z; [lia |].
Qed.

Section MontWord.
Variable alloc_ok : Z -> bool.
Variable uninit : Z -> list Z.
Hypothesis uninit_len : forall n, 0 <= n -> len (uninit n) = n.

(** The routine leaves a value that satisfies [P] if it reports success, and fails
    only for want of [size] words. *)
Definition delivers_such (r : BIGNUM) (size : Z) (P : Z -> Prop) (res : bool * BIGNUM) : Prop :=
  bn_mem (snd res) /\ is_static (snd res) = is_static r /\
  (fst res = true -> bn_ok (snd res) /\ P (bn_val (snd res))) /\ (fst res = false -> refuses alloc_ok r size).

(** What the reduction leaves: [ret], and the number it works in. *)
Definition reduces (mont : BN_MONT_CTX) (x : Z) (ret : BIGNUM) (res : option (bool * BIGNUM * BIGNUM)) : Prop :=
  exists ok ret' r', res = Some (ok, ret', r') /\ temporary_ok r' /\
    delivers_such ret (2 * top (N mont)) (montgomery (bn_val (N mont)) (weight (top (N mont))) x) (ok, ret').

Lemma reduces_fails mont x ret ret' r' : temporary_ok r' -> bn_mem ret' -> is_static ret' = is_static ret -> refuses alloc_ok ret (2 * top (N mont)) ->
  reduces mont x ret (Some (false, ret', r')).
Proof. intros T M S R. exists false, ret', r'. split; [reflexivity | split; [exact T | split; [exact M | split; [exact S | split; [discriminate | now intros _]]]]]. Qed.

(** [T] with words of zero up to [max]. *)
Lemma fill_value b size : bn_mem b -> words_ok (words b) -> top b <= size <= dmax b ->
  let t := if top b <? size then splice (d b) (top b) (repeat 0 (Z.to_nat (size - top b))) else d b in
  let b' := mk_bn t size (neg b) (is_static b) in
  bn_mem b' /\ dmax b' = dmax b /\ words_ok (words b') /\ bn_abs b' = bn_abs b.
Proof.
  intros Mb W Hs t b'. destruct (padded_value b size (size - top b) Mb Hs eq_refl) as (E & D & M).
  unfold b', t. destruct (Z.ltb_spec (top b) size) as [L | L].
  - split; [exact M | split; [exact D | unfold bn_abs; rewrite E]]. split; [apply Forall_app; split; [exact W | apply words_ok_zero] |].
    rewrite val_app, val_zero. ring.
  - replace size with (top b) by lia. split; [exact Mb | split; [reflexivity | split; [exact W | reflexivity]]].
Qed.

Lemma selects {A} (from_ap : bool) (f : bool -> option A) :
  (let* b := if (if from_ap then BN_MASK2 else 0) =? 0 then Some false else if (if from_ap then BN_MASK2 else 0) =? BN_MASK2 then Some true else None in f b) = f from_ap.
Proof. now destruct from_ap. Qed.

Lemma from_montgomery_word_ok mont ret r : mont_ok mont -> bn_mem ret -> bn_ok r -> is_static r = false ->
  bn_abs r < bn_val (N mont) * weight (top (N mont)) -> reduces mont (bn_val r) ret (BN_from_montgomery_word alloc_ok uninit ret r mont).
Proof.
  intros H Mret O Sr Hx. pose proof (proj1 (mont_N _ H)) as On. pose proof (mont_pos _ H) as Pn. pose proof (nonneg_abs _ On ltac:(lia)) as An. pose proof (ok_pos _ On) as Tn.
  pose proof (mont_n0 _ H) as H0. unfold BN_from_montgomery_word. set (n := N mont) in *. set (k := top n) in *. destruct (Z.eqb_spec k 0); [lia |].
  destruct (nonzero_words n On ltac:(fold k; lia)) as (Wn & Ln & _ & _ & (_ & Rn) & _). fold k in Ln, Rn. pose proof (proj1 O) as Mr. unfold bn_mem in Mr. pose proof (abs_nonneg r O) as A0.
  pose proof (weight_pos k ltac:(lia)) as Pk. assert (W2 : weight (2 * k) = weight k * weight k) by (replace (2 * k) with (k + k) by ring; apply weight_add; lia).
  assert (Tt : top r <= 2 * k) by (apply top_least; [exact O | lia | fold (weight (2 * k)); nia]).
  destruct (wexpand_case alloc_ok uninit uninit_len r (2 * k) (proj1 O) ltac:(lia)) as [(-> & R) | (r1 & -> & M1 & D1 & W1 & T1 & N1 & S1)]; cbn [negb].
  { apply reduces_fails; [exact (conj Mr Sr) | exact Mret | reflexivity |]. unfold refuses in *. fold n k. destruct R as [R | [R | R]]; [now left | right; now left | congruence]. }
  assert (Wr : words_ok (words r1)) by (rewrite W1; apply O). destruct (fill_value r1 (2 * k) M1 Wr ltac:(lia)) as (M2 & D2 & Wr2 & V2).
  assert (Ng : neg n = false) by (destruct (sign_value n On) as [_ Sg]; destruct (neg n); [exfalso; assert (bn_val n < 0) by tauto; lia | reflexivity]).
  set (t := if top r1 <? 2 * k then _ else _) in *. replace (xorb (neg r1) (neg n)) with (neg r1) by (now rewrite Ng; destruct (neg r1)).
  set (r2 := mk_bn t (2 * k) (neg r1) (is_static r1)) in *. assert (Er : bn_abs r1 = bn_abs r) by (unfold bn_abs; now rewrite W1). rewrite Er in V2.
  pose proof (len_words r2 M2) as L2. change (top r2) with (2 * k) in L2. change (bn_abs r2) with (le_val (words r2)) in V2.
  destruct (reduce_array (words n) k (fst (n0 mont)) (words r2) Wn Ln ltac:(lia) ltac:(fold (bn_abs n); now rewrite An) Wr2 L2 ltac:(rewrite V2; fold (bn_abs n); lia))
    as (rp & carry & rr & borrow & from_ap & res & -> & Wp & Lp & Es & Em & Ef & Wres & Lres & Rv & Mv). fold (bn_abs n) in Rv, Mv. rewrite An in Rv, Mv. rewrite V2 in Mv.
  unfold write_words. rewrite Lp, D2. destruct (Z.leb_spec (2 * k) (dmax r1)); [| lia].
  destruct (put_words_spec r2 rp (2 * k) ltac:(lia) ltac:(lia)) as (M3 & W3 & T3 & N3 & D3). set (r3 := put_words r2 rp (2 * k)) in *.
  destruct (wexpand_case alloc_ok uninit uninit_len ret k Mret ltac:(lia)) as [(-> & R) | (ret1 & -> & Mt1 & Dt1 & _ & Tt1 & Nt1 & St1)]; cbn [negb].
  { apply reduces_fails; [split; [exact M3 | cbn; congruence] | exact Mret | reflexivity |]. now apply (refuses_mono alloc_ok ret ret k); [| fold n k; lia |]. }
  rewrite W3, Es, Em, selects, Ef. set (ret2 := mk_bn (d ret1) k (neg r3) (is_static ret1)). change (dmax ret2) with (dmax ret1). rewrite Lres. destruct (Z.leb_spec k (dmax ret1)); [| lia].
  destruct (put_words_spec ret2 res k ltac:(lia) Dt1) as (M4 & W4 & _ & N4 & _). set (ret3 := put_words ret2 res k) in *.
  set (rest := take k rp ++ zero_words k). assert (Lrest : len rest = 2 * k) by (unfold rest; rewrite len_app, len_take, len_zero by lia; ring).
  rewrite Lrest, D3, D2. destruct (Z.leb_spec (2 * k) (dmax r1)); [| lia].
  destruct (put_words_spec r3 rest (2 * k) ltac:(lia) ltac:(lia)) as (M5 & W5 & _). set (r4 := put_words r3 rest (2 * k)) in *.
  destruct (correct_top_ok r4 M5 ltac:(rewrite W5; apply words_ok_app; [now apply words_ok_take | apply words_ok_zero])) as (O4 & _).
  destruct (correct_top_ok ret3 M4 ltac:(now rewrite W4)) as (O3 & V3 & N3'). change (bn_abs ret3) with (le_val (words ret3)) in V3, N3'. rewrite W4 in V3, N3'.
  exists true, (bn_correct_top ret3), (bn_correct_top r4). split; [reflexivity |].
  split; [split; [apply O4 | rewrite correct_top_static; cbn; congruence] |].
  split; [apply O3 | split; [cbn [snd]; rewrite correct_top_static; cbn; congruence | split; [| discriminate]]].
  intros _. split; [exact O3 |]. cbn [snd]. fold n k. pose proof (val_range _ Wres) as R0.
  assert (Ev : bn_val (bn_correct_top ret3) = if neg r then - le_val res else le_val res).
  { unfold bn_val at 1. rewrite N3', V3. replace (neg ret3) with (neg r) by (cbn; congruence). destruct (neg r), (Z.ltb_spec 0 (le_val res)); cbn [andb]; lia. }
  rewrite Ev. apply montgomery_signed; [lia | exact A0 | now apply neg_pos | exact Mv].
Qed.
End MontWord.

(** ** The routines *)

Section Routines.
Variable alloc_ok : Z -> bool.
Variable uninit : Z -> list Z.
Hypothesis uninit_len : forall n, 0 <= n -> len (uninit n) = n.
Context {C : Type} {T : Temporaries C} {TC : TemporariesOk C (starved alloc_ok)}.

(** [returns] for a value of which a property is known. *)
Definition returns_such (r : BIGNUM) (size : Z) (P : Z -> Prop) (c : C) (res : option (bool * BIGNUM * C)) : Prop :=
  exists ok r' c', res = Some (ok, r', c') /\ delivers_such alloc_ok r size P (ok, r') /\ ctx_same c c'.

Variable mont : BN_MONT_CTX.
Hypothesis mont_set : mont_ok mont.

Let n := bn_val (N mont).
Let R := weight (top (N mont)).

Lemma returns_none r size P c c' : bn_mem r -> ctx_same c c' -> refuses alloc_ok r size -> returns_such r size P c (Some (false, r, c')).
Proof. intros M S F. exists false, r, c'. split; [reflexivity | split; [| exact S]]. split; [exact M | split; [reflexivity | split; [discriminate | now intros _]]]. Qed.

(** Reduction of a temporary, and the end of the frame. *)
Lemma returns_reduced r t c c1 size : bn_mem r -> bn_ok t -> is_static t = false -> bn_abs t < n * R -> ctx_open c c1 -> 2 * top (N mont) <= size ->
  returns_such r size (montgomery n R (bn_val t)) c
    (let* out := BN_from_montgomery_word alloc_ok uninit r t mont in let '(ok, r, t) := out in Some (ok, r, ctx_end c1 [t])).
Proof.
  intros M O S B G L. destruct (from_montgomery_word_ok alloc_ok uninit uninit_len mont r t mont_set M O S B) as (ok & r' & t' & -> & Tt & (M' & S' & V & F)).
  exists ok, r', (ctx_end c1 [t']). split; [reflexivity | split; [| apply ctx_end_same; [exact G | now apply Forall_one]]].
  split; [exact M' | split; [exact S' | split; [exact V |]]]. intros E. apply (refuses_mono alloc_ok r r (2 * top (N mont))); [reflexivity | exact L | now apply F].
Qed.

Lemma below_square a : bn_ok a -> bn_abs a < n * R -> top a <= 2 * top (N mont).
Proof.
  intros O B. pose proof (proj1 (mont_N _ mont_set)) as On. pose proof (proj1 On) as Mn. unfold bn_mem in Mn. apply top_least; [exact O | lia |].
  pose proof (val_bound _ On) as X. fold (weight (top (N mont))) (weight (2 * top (N mont))) in *. fold n R in X. pose proof (weight_pos (top (N mont)) ltac:(lia)) as P. fold R in P.
  replace (weight (2 * top (N mont))) with (R * R) by (unfold R; rewrite <- weight_add by lia; f_equal; ring). nia.
Qed.

Lemma refuses_temporary r t m k : temporary_ok t -> refuses alloc_ok t m -> m <= k -> refuses alloc_ok r k.
Proof. intros [_ S] [F | [F | F]] L; [now left | right; left; lia | congruence]. Qed.

Lemma from_montgomery_returns r a c : bn_mem r -> bn_ok a -> bn_abs a < n * R -> ctx_ok c ->
  returns_such r (2 * top (N mont)) (montgomery n R (bn_val a)) c (BN_from_montgomery alloc_ok uninit r a mont c).
Proof.
  intros M O B Hc. unfold BN_from_montgomery. pose proof (ctx_get_open c _ (ctx_start_open c Hc)) as G. destruct (ctx_get (ctx_start c)) as [[t |] c1].
  2: { destruct G as [G F]. apply returns_none; [exact M | apply ctx_end_same; [exact G | constructor] | now left]. }
  destruct G as (G & _ & Tt & _). destruct (copy_delivers alloc_ok uninit uninit_len t a (proj1 Tt) O) as (Mt & St & V & F).
  destruct (BN_copy alloc_ok uninit t a) as [[] t']; cbn [fst snd negb] in *.
  - destruct (V eq_refl) as [O' E]. rewrite <- E. apply returns_reduced; try assumption; [rewrite St; apply Tt | | lia].
    destruct (abs_val t'), (abs_val a); pose proof (abs_nonneg t' O'); pose proof (abs_nonneg a O); lia.
  - apply returns_none; [exact M | apply ctx_end_same; [exact G | apply Forall_one; split; [exact Mt | rewrite St; apply Tt]] |].
    apply (refuses_temporary r t (top a)); [exact Tt | now apply F | now apply below_square].
Qed.

(** Products below [N R], as those of residues are. *)
Lemma mod_mul_montgomery_returns r a b c : bn_mem r -> bn_fits a -> bn_fits (operand a b) -> Z.abs (bn_val a * bn_val (operand a b)) < n * R -> ctx_ok c ->
  returns_such r (2 * top (N mont) + 8 * Z.max (top a) (top (operand a b))) (montgomery n R (bn_val a * bn_val (operand a b))) c
    (BN_mod_mul_montgomery alloc_ok uninit r a b mont c).
Proof.
  intros M Fa Fb B Hc. unfold BN_mod_mul_montgomery, bn_mod_mul_montgomery_fallback. pose proof (proj1 (proj1 Fa)) as Ma. unfold bn_mem in Ma.
  pose proof (proj1 (proj1 (mont_N _ mont_set))) as Mn. unfold bn_mem in Mn. set (size := 8 * Z.max (top a) (top (operand a b))).
  pose proof (ctx_get_open c _ (ctx_start_open c Hc)) as G. destruct (ctx_get (ctx_start c)) as [[t |] c1].
  2: { destruct G as [G F]. apply returns_none; [exact M | apply ctx_end_same; [exact G | constructor] | now left]. }
  destruct G as (G & Hc1 & Tt & _).
  assert (P : returns alloc_ok t size (bn_val a * bn_val (operand a b)) c1
    match b with None => BN_sqr alloc_ok uninit t (Some a) c1 | Some b => BN_mul alloc_ok uninit t (Some a) (Some b) c1 end).
  { destruct b as [b |]; cbn [operand] in *.
    - exact (mul_returns alloc_ok uninit uninit_len t (Some a) (Some b) c1 (proj1 Tt) Fa Fb Hc1).
    - destruct (sqr_returns alloc_ok uninit uninit_len t (Some a) c1 (proj1 Tt) Fa Hc1) as (ok & t' & c2 & E & D & S). exists ok, t', c2.
      split; [exact E | split; [| exact S]]. apply (delivers_mono alloc_ok t t (4 * top a)); [reflexivity | unfold size; lia | exact D]. }
  destruct P as (ok & t' & c2 & -> & (Mt & St & V & F) & S2). cbn [fst snd] in *.
  pose proof (ctx_open_same c c1 c2 G Hc1 S2) as G2. destruct ok; cbn [negb].
  - destruct (V eq_refl) as [O' E]. rewrite <- E. apply returns_reduced; [exact M | exact O' | rewrite St; apply Tt | | exact G2 | unfold size; lia].
    rewrite <- E in B. destruct (abs_val t'); pose proof (abs_nonneg t' O'); lia.
  - apply returns_none; [exact M | apply ctx_end_same; [exact G2 | apply Forall_one; split; [exact Mt | rewrite St; apply Tt]] |].
    apply (refuses_temporary r t size); [exact Tt | now apply F | lia].
Qed.

Lemma to_montgomery_returns r a c : bn_mem r -> bn_fits a -> Z.abs (bn_val a) < R -> ctx_ok c ->
  returns_such r (2 * top (N mont) + 8 * Z.max (top a) (top (N mont))) (montgomery n R (bn_val a * ((R * R) mod n))) c (BN_to_montgomery alloc_ok uninit r a mont c).
Proof.
  intros M Fa B Hc. unfold BN_to_montgomery. pose proof (mont_RR _ mont_set) as Er. fold n R in Er. pose proof (mont_pos _ mont_set) as Pn. fold n in Pn.
  pose proof (Z.mod_pos_bound (R * R) n Pn) as Rb. rewrite <- Er.
  assert (Tr : top (RR mont) <= top (N mont)).
  { pose proof (mont_N _ mont_set) as [On Ln]. pose proof (proj1 On) as Mn. unfold bn_mem in Mn. pose proof (val_bound _ On) as X.
    exact (abs_bound (RR mont) (top (N mont)) (mont_RR_ok _ mont_set) ltac:(lia) ltac:(unfold n in *; lia)). }
  assert (Fr : bn_fits (RR mont)) by (split; [exact (mont_RR_ok _ mont_set) | pose proof (proj2 (mont_N _ mont_set)); lia]).
  assert (Nz : Z.abs (bn_val a * bn_val (RR mont)) < n * R) by (rewrite Z.abs_mul, (Z.abs_eq (bn_val (RR mont))) by lia; nia).
  destruct (mod_mul_montgomery_returns r a (Some (RR mont)) c M Fa Fr Nz Hc) as (ok & r' & c' & E & (M' & S' & V & F) & S).
  exists ok, r', c'. split; [exact E | split; [| exact S]]. split; [exact M' | split; [exact S' | split; [exact V |]]].
  intros Ef. apply (refuses_mono alloc_ok r r (2 * top (N mont) + 8 * Z.max (top a) (top (RR mont)))); [reflexivity | | now apply F].
  lia.
Qed.
End Routines.

(** ** Residues in Montgomery form *)

(** The form of [x]. *)
Definition to_form (n R x : Z) : Z := (x * R) mod n.

(** A power of two cancels modulo an odd number. *)
Lemma odd_divide_pow2 n j y : Z.odd n = true -> 0 <= j -> (n | y * 2 ^ j) -> (n | y).
Proof.
  intros Ho Hj. revert y. pattern j. apply natlike_ind; [intros y; now rewrite Z.mul_1_r | | exact Hj]. clear j Hj. intros j Hj IH y D.
  apply IH. rewrite Z.pow_succ_r in D by lia. destruct D as [q E].
  assert (Eq : Z.odd q = false) by (apply (f_equal Z.odd) in E; rewrite !Z.odd_mul, Ho, andb_true_r, andb_false_r in E; symmetry; exact E).
  rewrite <- Z.negb_even in Eq. apply negb_false_iff, Z.even_spec in Eq. destruct Eq as [h ->]. exists h. lia.
Qed.

(** What reduces from [x], where [x] is the form of [w] times [R], is [w]. *)
Lemma montgomery_unique n k x v w : Z.odd n = true -> 0 <= k -> 0 <= x -> montgomery n (weight k) x v -> (w * weight k - x) mod n = 0 -> v = w mod n.
Proof.
  intros Ho Hk Hx (B & P & _ & E) Ew. specialize (P Hx). assert (Pn : 0 < n) by lia. rewrite Z.abs_eq in B by exact P.
  apply Z.mod_divide in E, Ew; try lia. pose proof (Z.divide_sub_r _ _ _ Ew E) as D. replace (w * weight k - x - (v * weight k - x)) with ((w - v) * weight k) in D by ring.
  apply odd_divide_pow2 in D; [| exact Ho | lia]. destruct D as [q D]. apply (Z.mod_unique_pos _ _ q); lia.
Qed.

Lemma mod_divides n a b : 0 < n -> (a - b) mod n = 0 <-> a mod n = b mod n.
Proof.
  intros Pn. split; intros E.
  - apply Z.mod_divide in E; [| lia]. destruct E as [q E]. replace a with (b + q * n) by lia. now rewrite Z.mod_add by lia.
  - rewrite Zminus_mod, E, Z.sub_diag. apply Z.mod_0_l. lia.
Qed.

Section Forms.
Variables (n k : Z).
Hypotheses (Ho : Z.odd n = true) (Pn : 0 < n) (Hk : 0 <= k).
Let R := weight k.

(** The conversions and the product of forms. *)
Lemma montgomery_to x v : 0 <= x -> montgomery n R (x * ((R * R) mod n)) v -> v = to_form n R x.
Proof.
  intros Hx M. pose proof (Z.mod_pos_bound (R * R) n Pn) as B. apply (montgomery_unique n k _ v (x * R)) in M; [exact M | exact Ho | exact Hk | nia |].
  fold R. apply mod_divides; [exact Pn |]. rewrite Z.mul_mod_idemp_r by lia. f_equal. ring.
Qed.

Lemma montgomery_times x y v : montgomery n R (to_form n R x * to_form n R y) v -> v = to_form n R (x * y).
Proof.
  intros M. unfold to_form in *. pose proof (Z.mod_pos_bound (x * R) n Pn). pose proof (Z.mod_pos_bound (y * R) n Pn).
  apply (montgomery_unique n k _ v (x * y * R)) in M; [exact M | exact Ho | exact Hk | nia |]. fold R. apply mod_divides; [exact Pn |].
  rewrite Z.mul_mod_idemp_l, Z.mul_mod_idemp_r by lia. f_equal. ring.
Qed.

Lemma montgomery_from x v : montgomery n R (to_form n R x) v -> v = x mod n.
Proof.
  intros M. unfold to_form in *. pose proof (Z.mod_pos_bound (x * R) n Pn).
  apply (montgomery_unique n k _ v x) in M; [exact M | exact Ho | exact Hk | lia |]. fold R. apply mod_divides; [exact Pn |]. now rewrite Z.mod_mod by lia.
Qed.
End Forms.

Lemma init_mem : bn_mem BN_init.
Proof. split; apply Z.leb_le; reflexivity. Qed.

Lemma mont_good mont : mont_ok mont -> 0 < bn_val (N mont) /\ Z.odd (bn_val (N mont)) = true.
Proof. intros H. split; [exact (mont_pos _ H) | exact (mont_odd _ H)]. Qed.

Lemma mont_copy_ok alloc_ok uninit to from : (forall n, 0 <= n -> len (uninit n) = n) -> bn_mem (N to) -> bn_mem (RR to) -> mont_ok from ->
  let (ok, mont') := BN_MONT_CTX_copy alloc_ok uninit to from in ok = true -> mont_ok mont' /\ bn_val (N mont') = bn_val (N from).
Proof.
  intros U Mn Mr [[On Ln] Pn Ho Or Er W0 E0]. unfold BN_MONT_CTX_copy.
  destruct (copy_delivers alloc_ok uninit U (RR to) (RR from) Mr Or) as (_ & _ & V1 & _). destruct (BN_copy _ _ (RR to) _) as [[] rr]; [| discriminate].
  destruct (copy_delivers alloc_ok uninit U (N to) (N from) Mn On) as (_ & _ & V2 & _). destruct (BN_copy _ _ (N to) _) as [[] n]; [| discriminate].
  cbn [fst snd negb] in *. destruct (V1 eq_refl) as [O1 E1]. destruct (V2 eq_refl) as [O2 E2]. intros _. pose proof (same_top _ _ O2 On E2) as Et.
  split; [| exact E2]. split; cbn [N RR n0 fst]; try assumption; rewrite ?E2, ?Et, ?E1; try assumption. split; [exact O2 | now rewrite Et].
Qed.

(** ** Properties *)

(** C32: setting up a modulus. [BN_MONT_CTX_set] leaves a context for exactly the
    positive odd moduli: its [n0] is the negated inverse of the modulus modulo
    2^64, found by halving, and its [RR] is the square of [R] modulo the modulus,
    found by doubling. It refuses any other number, and otherwise fails only for
    want of memory. The locked variant leaves such a context or a null pointer,
    and a copy that succeeds is a context for the same modulus. *)
Theorem BN_mont_set_exact alloc_ok uninit mont m :
  (forall n, 0 <= n -> len (uninit n) = n) -> bn_mem (N mont) -> bn_mem (RR mont) -> bn_ok m -> top m <= word_limit ->
  let good := 0 < bn_val m /\ Z.odd (bn_val m) = true in
  let for_m mont' := mont_ok mont' /\ bn_val (N mont') = bn_val m in
  (let (ok, mont') := BN_MONT_CTX_set alloc_ok uninit mont m in
   (ok = true -> good /\ for_m mont') /\
   (ok = false -> ~ good \/ refuses alloc_ok (N mont) (top m + 2) \/ refuses alloc_ok (RR mont) (top m + 2))) /\
  (let (ok, p) := BN_MONT_CTX_set_locked alloc_ok uninit None m in
   if ok : bool then exists mont', p = Some mont' /\ good /\ for_m mont'
   else p = None /\ (~ good \/ starved alloc_ok \/ word_limit < top m + 2)) /\
  (forall from, for_m from ->
   let (ok, mont') := BN_MONT_CTX_copy alloc_ok uninit mont from in ok = true -> for_m mont').
Proof.
  intros U Mn Mr O L good for_m.
  assert (Good : forall mont', for_m mont' -> good) by (intros mont' [H E]; unfold good; rewrite <- E; now apply mont_good).
  assert (Bad : bn_val m <= 0 \/ Z.even (bn_val m) = true -> ~ good) by (intros B [G1 G2]; rewrite <- Z.negb_even in G2; destruct B as [B | B]; [lia | now rewrite B in G2]).
  split; [| split].
  - pose proof (mont_set_ok alloc_ok uninit U mont m Mn Mr O L) as S. destruct (BN_MONT_CTX_set _ _ _ _) as [ok mont']. destruct S as (_ & V & F).
    split; intros E; [specialize (V E); split; [now apply (Good mont') | exact V] | tauto].
  - unfold BN_MONT_CTX_set_locked, BN_MONT_CTX_new. destruct (alloc_ok 64) eqn:Ea; [| split; [reflexivity | right; left; now exists 64]].
    pose proof (mont_set_ok alloc_ok uninit U (mk_mont BN_init BN_init (0, 0)) m init_mem init_mem O L) as S.
    destruct (BN_MONT_CTX_set _ _ _ _) as [[] mont']; cbn [negb]; destruct S as (_ & V & F).
    + exists mont'. specialize (V eq_refl). split; [reflexivity | split; [now apply (Good mont') | exact V]].
    + split; [reflexivity |]. specialize (F eq_refl). unfold refuses in F. cbn [N RR is_static BN_init] in F. intuition discriminate.
  - intros from [H E]. pose proof (mont_copy_ok alloc_ok uninit mont from U Mn Mr H) as X. rewrite E in X. exact X.
Qed.

(** A modulus of two words, with one machine for all requests. *)
Lemma BN_mont_set_exact_witness :
  let m := mk_bn [2 ^ 64 - 59; 5] 2 false false in
  let (ok, mont) := BN_MONT_CTX_set (fun _ => true) stale (mk_mont BN_init BN_init (0, 0)) m in
  ok = true /\ mont_ok mont /\ bn_val (N mont) = 6 * 2 ^ 64 - 59.
Proof.
  intros m. destruct (BN_mont_set_exact (fun _ => true) stale (mk_mont BN_init BN_init (0, 0)) m stale_len) as (H & _).
  - exact init_mem.
  - exact init_mem.
  - apply bn_check_ok. reflexivity.
  - apply Z.leb_le. reflexivity.
  - assert (E : fst (BN_MONT_CTX_set (fun _ => true) stale (mk_mont BN_init BN_init (0, 0)) m) = true) by (vm_compute; reflexivity).
    destruct (BN_MONT_CTX_set (fun _ => true) stale (mk_mont BN_init BN_init (0, 0)) m) as [ok mont]. cbn [fst] in E. subst ok.
    destruct H as [H _]. destruct (H eq_refl) as [_ [H1 H2]]. split; [reflexivity | split; [exact H1 |]]. rewrite H2. reflexivity.
Defined.

Section Converted.
Variable alloc_ok : Z -> bool.
Variable uninit : Z -> list Z.
Context {C : Type} {T : Temporaries C} {TC : TemporariesOk C (starved alloc_ok)}.

Lemma returns_value r n1 n2 (P : Z -> Prop) v (c : C) res : n1 <= n2 -> (forall x, P x -> x = v) -> returns_such alloc_ok r n1 P c res -> returns alloc_ok r n2 v c res.
Proof.
  intros L K (ok & r' & c' & E & (M & S & V & F) & Sc). exists ok, r', c'. split; [exact E | split; [| exact Sc]].
  split; [exact M | split; [exact S | split]]; intros H.
  - destruct (V H) as [O Px]. split; [exact O | now apply K].
  - apply (refuses_mono alloc_ok r r n1); [reflexivity | exact L | now apply F].
Qed.
End Converted.

(** C31: residues in Montgomery form. With a context that has been set up for a
    modulus [n] of [k] words, [R = 2^(64 k)], and whichever [BN_CTX] is behind the
    interface: [BN_to_montgomery] leaves the form [x R mod n] of any [x] below [R],
    [BN_mod_mul_montgomery] the form of the product of two residues in form, of
    one with itself too, and [BN_from_montgomery] the residue below [n] itself.
    In general it divides any number of magnitude below [n R] by [R] modulo [n],
    keeping its sign. They fail only for want of memory or room. *)
Theorem BN_montgomery_exact {C : Type} {T : Temporaries C} alloc_ok {TC : TemporariesOk C (starved alloc_ok)} uninit mont r a b c :
  (forall n, 0 <= n -> len (uninit n) = n) -> mont_ok mont -> bn_mem r -> bn_fits a -> bn_fits (operand a b) -> ctx_ok c ->
  let n := bn_val (N mont) in
  let R := weight (top (N mont)) in
  let form := to_form n R in
  let size := 2 * top (N mont) + 8 * Z.max (top (N mont)) (Z.max (top a) (top (operand a b))) in
  (0 <= bn_val a < R -> returns alloc_ok r size (form (bn_val a)) c (BN_to_montgomery alloc_ok uninit r a mont c)) /\
  (forall x y, bn_val a = form x -> bn_val (operand a b) = form y ->
   returns alloc_ok r size (form (x * y)) c (BN_mod_mul_montgomery alloc_ok uninit r a b mont c)) /\
  (forall x, bn_val a = form x -> returns alloc_ok r size (x mod n) c (BN_from_montgomery alloc_ok uninit r a mont c)) /\
  (Z.abs (bn_val a) < n * R ->
   returns_such alloc_ok r size (fun v => Z.abs v < n /\ (0 <= bn_val a -> 0 <= v) /\ (bn_val a < 0 -> v <= 0) /\ (v * R - bn_val a) mod n = 0) c
     (BN_from_montgomery alloc_ok uninit r a mont c)).
Proof.
  intros U H M Fa Fb Hc n R form size. pose proof (mont_pos _ H) as Pn. pose proof (mont_odd _ H) as Ho. fold n in Pn, Ho.
  pose proof (proj1 (proj1 Fa)) as Ma. pose proof (proj1 (mont_N _ H)) as On. pose proof (proj1 On) as Mn. pose proof (ok_pos _ On) as Tn. unfold bn_mem in Ma, Mn.
  pose proof (val_bound _ On) as Rn. fold (weight (top (N mont))) in Rn. fold n R in Rn.
  assert (Rf : forall x, 0 <= form x < n) by (intros x; now apply Z.mod_pos_bound). assert (Ea : 0 <= bn_val a -> bn_abs a = bn_val a) by (apply nonneg_abs, Fa).
  split; [intros Ra | split; [intros x y Ex Ey | split; [intros x Ex | intros B]]].
  - eapply returns_value; [| | apply (to_montgomery_returns alloc_ok uninit U mont H r a c M Fa); [fold R; lia | exact Hc]]; [unfold size; lia |].
    intros v. apply montgomery_to; [exact Ho | exact Pn | lia | lia].
  - eapply returns_value; [| | apply (mod_mul_montgomery_returns alloc_ok uninit U mont H r a b c M Fa Fb); [fold n R | exact Hc]]; [unfold size; lia | |].
    + rewrite Ex, Ey. intros v. apply montgomery_times; [exact Ho | exact Pn | lia].
    + rewrite Ex, Ey, Z.abs_mul. pose proof (Rf x). pose proof (Rf y). rewrite !Z.abs_eq by lia. nia.
  - pose proof (Rf x). eapply returns_value; [| | apply (from_montgomery_returns alloc_ok uninit U mont H r a c M (proj1 Fa)); [fold n R; rewrite Ea; nia | exact Hc]]; [unfold size; lia |].
    rewrite Ex. intros v. apply montgomery_from; [exact Ho | exact Pn | lia].
  - destruct (from_montgomery_returns alloc_ok uninit U mont H r a c M (proj1 Fa)) as (ok & r' & c' & E & (M' & S' & V & F) & S); [fold n R; destruct (abs_val a); lia | exact Hc |].
    exists ok, r', c'. split; [exact E | split; [| exact S]]. split; [exact M' | split; [exact S' | split; [exact V |]]].
    intros Ef. apply (refuses_mono alloc_ok r r (2 * top (N mont))); [reflexivity | unfold size; lia | now apply F].
Qed.

(** With the modulus 2^64 + 13, 507 is the form of 3. *)
Lemma BN_montgomery_exact_witness :
  let alloc := fun _ : Z => true in
  let mont := snd (BN_MONT_CTX_set alloc stale (mk_mont BN_init BN_init (0, 0)) (mk_bn [13; 1] 2 false false)) in
  let n := 2 ^ 64 + 13 in
  let a := mk_bn [507] 1 false false in
  let c := mk_ctx BN_POOL_init BN_STACK_init 0 0 false in
  let T := ctx_temporaries alloc stale in
  let TC := ctx_temporaries_ok alloc stale stale_len in
  mont_ok mont /\ returns (H := T) (TC := TC) alloc BN_init 20 (to_form n (2 ^ 128) (3 * 3)) c (BN_mod_mul_montgomery (H := T) alloc stale BN_init a None mont c).
Proof.
  intros alloc mont n a c T TC.
  assert (H : mont_ok mont).
  { pose proof (mont_set_ok alloc stale stale_len (mk_mont BN_init BN_init (0, 0)) (mk_bn [13; 1] 2 false false) init_mem init_mem ltac:(now apply bn_check_ok) ltac:(now apply Z.leb_le)) as S.
    assert (E : fst (BN_MONT_CTX_set alloc stale (mk_mont BN_init BN_init (0, 0)) (mk_bn [13; 1] 2 false false)) = true) by (vm_compute; reflexivity).
    unfold mont. destruct (BN_MONT_CTX_set alloc stale _ _) as [ok m]. cbn [fst] in E. subst ok. now apply S. }
  assert (Fa : bn_fits a) by (split; [apply bn_check_ok; reflexivity | apply Z.leb_le; reflexivity]).
  split; [exact H |]. destruct (BN_montgomery_exact (TC := TC) alloc stale mont BN_init a None c stale_len H init_mem Fa Fa) as (_ & X & _).
  - vm_compute. repeat split; try discriminate; try (left; reflexivity).
  - apply (X 3 3); vm_compute; reflexivity.
Defined.
