(* ===== verification/PbWire.v ===== *)
(** * nanopb: streams, the wire format and scalar fields
    (Pods/nanopb/pb_decode.c, pb_encode.c, pb.h)

    The layer below messages: byte streams with a limit, varints, tags,
    length-prefixed strings, substreams, and the field coders that need no
    descriptor tables. The pod is built with error messages, without malloc,
    and with 32-bit [pb_size_t]. *)

From S2P Require Import Prelude Buffers.

(** The messages of [PB_RETURN_ERROR]. *)
Inductive pb_error : Type :=
| end_of_stream | io_error | varint_overflow | invalid_wire_type | parent_stream_too_short
| stream_full | invalid_field_type | invalid_data_size | integer_too_large
| bytes_overflow | size_too_large | no_malloc_support | string_overflow
| incorrect_fixed_length_bytes_size | bytes_size_exceeded.

(** A field descriptor; [ptr] (the submessage or default) belongs to messages. *)
Record pb_field := mk_field {
  tag : Z; type : Z; data_offset : Z; size_offset : Z; data_size : Z; array_size : Z
}.

Definition PB_LTYPE (x : Z) : Z := Z.land x 0x0F.
Definition PB_ATYPE (x : Z) : Z := Z.land x 0xC0.
Definition PB_ATYPE_STATIC : Z := 0x00.
Definition PB_ATYPE_POINTER : Z := 0x80.

Definition PB_WT_VARINT : Z := 0.
Definition PB_WT_64BIT : Z := 1.
Definition PB_WT_STRING : Z := 2.
Definition PB_WT_32BIT : Z := 5.

(** [PB_SET_ERROR] keeps the first message. *)
Definition set_error (old : option pb_error) (msg : pb_error) : option pb_error :=
  match old with Some e => Some e | None => Some msg end.

(** ** Input streams *)

Section Input.

(** A stream callback of the caller: the bytes asked for, or failure, and its
    state afterwards. *)
Context {St : Type}.
Variable callback : St -> Z -> option (list Z) * St.

(** [callback] and [state]: [buf_read] at the rest of a buffer, or the
    caller's. *)
Inductive source : Type :=
| Buffer (rest : list Z)
| Callback (state : St).

Record pb_istream := mk_istream { src : source; bytes_left : Z; errmsg : option pb_error }.

Definition reader (A : Type) : Type := pb_istream -> option A * pb_istream.

Definition ret {A} (x : A) : reader A := fun s => (Some x, s).
Definition bind {A B} (m : reader A) (f : A -> reader B) : reader B := fun s =>
  match m s with (Some x, s) => f x s | (None, s) => (None, s) end.
Definition error {A} (msg : pb_error) : reader A := fun s =>
  (None, mk_istream (src s) (bytes_left s) (set_error (errmsg s) msg)).

Definition pb_istream_from_buffer (buf : list Z) : pb_istream := mk_istream (Buffer buf) (len buf) None.

Definition buf_read (rest : list Z) (count : Z) : option (list Z) * list Z := (Some (take count rest), drop count rest).

Definition run_callback (c : source) (count : Z) : option (list Z) * source :=
  match c with
  | Buffer rest => let (r, rest) := buf_read rest count in (r, Buffer rest)
  | Callback st => let (r, st) := callback st count in (r, Callback st)
  end.

(** [pb_read] into a buffer. *)
Definition pb_read (count : Z) : reader (list Z) := fun s =>
  if bytes_left s <? count then error end_of_stream s else
  match run_callback (src s) count with
  | (None, c) => error io_error (mk_istream c (bytes_left s) (errmsg s))
  | (Some bytes, c) => (Some bytes, mk_istream c (bytes_left s - count) (errmsg s))
  end.

(** [while (count > 16)] of [pb_read(stream, NULL, count)]. *)
Fixpoint skip_loop (fuel : nat) (count : Z) : reader unit := fun s =>
  match fuel with
  | O => bind (pb_read count) (fun _ => ret tt) s
  | S fuel =>
      if 16 <? count then bind (pb_read 16) (fun _ => skip_loop fuel (count - 16)) s
      else bind (pb_read count) (fun _ => ret tt) s
  end.

(** [pb_read(stream, NULL, count)]. *)
Definition pb_skip (count : Z) : reader unit := fun s =>
  match src s with
  | Buffer _ => bind (pb_read count) (fun _ => ret tt) s
  | Callback _ => skip_loop (Z.to_nat (count / 16)) count s
  end.

Definition pb_readbyte : reader Z := fun s =>
  if bytes_left s =? 0 then error end_of_stream s else
  match run_callback (src s) 1 with
  | (None, c) => error io_error (mk_istream c (bytes_left s) (errmsg s))
  | (Some bytes, c) => (Some (get bytes 0), mk_istream c (bytes_left s - 1) (errmsg s))
  end.

(** The [do .. while] of the two varint decoders: [bitpos] grows by 7 up to
    [width], so [fuel] does not run out before it. *)
Fixpoint varint_loop (width : Z) (fuel : nat) (bitpos result : Z) : reader Z := fun s =>
  if width <=? bitpos then error varint_overflow s else
  match fuel with
  | O => (None, s)
  | S fuel =>
      bind pb_readbyte (fun byte =>
        let result := Z.lor result (wrap width (Z.shiftl (Z.land byte 0x7F) bitpos)) in
        if negb (Z.land byte 0x80 =? 0) then varint_loop width fuel (u8 (bitpos + 7)) result else ret result) s
  end.

Definition pb_decode_varint32 : reader Z :=
  bind pb_readbyte (fun byte =>
    if Z.land byte 0x80 =? 0 then ret byte else varint_loop 32 5 7 (Z.land byte 0x7F)).

Definition pb_decode_varint : reader Z := varint_loop 64 10 0 0.

(** Each turn takes a byte, so [bytes_left] turns are enough. *)
Fixpoint skip_varint_loop (fuel : nat) : reader unit := fun s =>
  match fuel with
  | O => bind (pb_read 1) (fun _ => ret tt) s
  | S fuel =>
      bind (pb_read 1) (fun b => if negb (Z.land (get b 0) 0x80 =? 0) then skip_varint_loop fuel else ret tt) s
  end.

Definition pb_skip_varint : reader unit := fun s => skip_varint_loop (Z.to_nat (bytes_left s)) s.

Definition pb_skip_string : reader unit := bind pb_decode_varint32 pb_skip.

(** Result: the wire type and tag, and [eof]. *)
Definition pb_decode_tag (s : pb_istream) : option (Z * Z) * bool * pb_istream :=
  match pb_decode_varint32 s with
  | (None, s) => (None, bytes_left s =? 0, s)
  | (Some temp, s) =>
      if temp =? 0 then (None, true, s) else (Some (Z.land temp 7, Z.shiftr temp 3), false, s)
  end.

Definition pb_skip_field (wire_type : Z) : reader unit :=
  if wire_type =? PB_WT_VARINT then pb_skip_varint else
  if wire_type =? PB_WT_64BIT then pb_skip 8 else
  if wire_type =? PB_WT_STRING then pb_skip_string else
  if wire_type =? PB_WT_32BIT then pb_skip 4 else
  error invalid_wire_type.

(** Bytes of a varint of at most [n] bytes. *)
Fixpoint raw_varint_loop (n : nat) : reader (list Z) := fun s =>
  match n with
  | O => (None, s)
  | S n =>
      bind (pb_read 1) (fun b =>
        if negb (Z.land (get b 0) 0x80 =? 0) then bind (raw_varint_loop n) (fun l => ret (get b 0 :: l))
        else ret [get b 0]) s
  end.

Definition read_raw_value (wire_type max_size : Z) : reader (list Z) :=
  if wire_type =? PB_WT_VARINT then raw_varint_loop (Z.to_nat max_size) else
  if wire_type =? PB_WT_64BIT then pb_read 8 else
  if wire_type =? PB_WT_32BIT then pb_read 4 else
  error invalid_wire_type.

(** The substream; the parent is charged for it at once. *)
Definition pb_make_string_substream : reader pb_istream :=
  bind pb_decode_varint32 (fun size s =>
    if bytes_left s <? size then error parent_stream_too_short s else
    (Some (mk_istream (src s) size (errmsg s)), mk_istream (src s) (bytes_left s - size) (errmsg s))).

(** On failure the substream keeps its error to itself, as in the code. *)
Definition pb_close_string_substream (substream : pb_istream) : reader unit := fun s =>
  let '(ok, sub) :=
    if negb (bytes_left substream =? 0) then
      match pb_skip (bytes_left substream) substream with (Some _, sub) => (true, sub) | (None, sub) => (false, sub) end
    else (true, substream) in
  if ok then (Some tt, mk_istream (src sub) (bytes_left s) (errmsg sub)) else (None, s).

(** ** Scalar values *)

Definition pb_decode_svarint : reader Z :=
  bind pb_decode_varint (fun value =>
    ret (to_signed 64 (if negb (Z.land value 1 =? 0) then u64 (Z.lnot (Z.shiftr value 1)) else Z.shiftr value 1))).

Definition pb_decode_fixed32 : reader Z :=
  bind (pb_read 4) (fun b =>
    ret (Z.lor (Z.lor (Z.lor (Z.shiftl (get b 0) 0) (u32 (Z.shiftl (get b 1) 8))) (u32 (Z.shiftl (get b 2) 16)))
               (u32 (Z.shiftl (get b 3) 24)))).

Definition pb_decode_fixed64 : reader Z :=
  bind (pb_read 8) (fun b =>
    ret (fold_left (fun acc i => Z.lor acc (u64 (Z.shiftl (get b i) (8 * i)))) [1; 2; 3; 4; 5; 6; 7] (get b 0))).

(** ** Field decoders

    They store to [dest] also when they then report an error: the result is
    whether they succeed, the memory at [dest], and the stream. *)

Definition decoder : Type := pb_field -> list Z -> pb_istream -> bool * list Z * pb_istream.

(** A value stored as [n] bytes, the platform being little-endian. *)
Definition store (dest : list Z) (n v : Z) : list Z := splice dest 0 (rev (be_enc (Z.to_nat n) v)).

(** Store [svalue] in [data_size] bytes and compare what was stored. *)
Definition store_clamped (signed : bool) (field : pb_field) (dest : list Z) (value : Z) (s : pb_istream)
  : bool * list Z * pb_istream :=
  let n := data_size field in
  if (n =? 8) || (n =? 4) || (n =? 2) || (n =? 1) then
    let clamped := if signed then to_signed (8 * n) value else wrap (8 * n) value in
    let dest := store dest n value in
    if negb (clamped =? value) then (false, dest, snd (@error unit integer_too_large s)) else (true, dest, s)
  else (false, dest, snd (@error unit invalid_data_size s)).

Definition pb_dec_varint : decoder := fun field dest s =>
  match pb_decode_varint s with
  | (None, s) => (false, dest, s)
  | (Some value, s) =>
      let svalue := if data_size field =? 8 then to_signed 64 value else to_signed 32 value in
      store_clamped true field dest svalue s
  end.

Definition pb_dec_uvarint : decoder := fun field dest s =>
  match pb_decode_varint s with
  | (None, s) => (false, dest, s)
  | (Some value, s) => store_clamped false field dest value s
  end.

Definition pb_dec_svarint : decoder := fun field dest s =>
  match pb_decode_svarint s with
  | (None, s) => (false, dest, s)
  | (Some value, s) => store_clamped true field dest value s
  end.

Definition store_read (m : reader Z) (n : Z) : decoder := fun _ dest s =>
  match m s with (None, s) => (false, dest, s) | (Some v, s) => (true, store dest n v, s) end.

Definition pb_dec_fixed32 : decoder := store_read pb_decode_fixed32 4.
Definition pb_dec_fixed64 : decoder := store_read pb_decode_fixed64 8.

(** [pb_bytes_array_t]: a 4-byte size, then the bytes. *)
Definition PB_BYTES_ARRAY_T_ALLOCSIZE (n : Z) : Z := n + 4.

(** Read [n] bytes to [dest + off]; a failing [buf_read] or limit writes nothing. *)
Definition read_to (dest : list Z) (off n : Z) (s : pb_istream) : bool * list Z * pb_istream :=
  match pb_read n s with
  | (None, s) => (false, dest, s)
  | (Some bytes, s) => (true, splice dest off bytes, s)
  end.

Definition pb_dec_bytes : decoder := fun field dest s =>
  match pb_decode_varint32 s with
  | (None, s) => (false, dest, s)
  | (Some size, s) =>
      if 2 ^ 32 - 1 <? size then (false, dest, snd (@error unit bytes_overflow s)) else
      let alloc_size := u64 (PB_BYTES_ARRAY_T_ALLOCSIZE size) in
      if alloc_size <? size then (false, dest, snd (@error unit size_too_large s)) else
      if PB_ATYPE (type field) =? PB_ATYPE_POINTER then (false, dest, snd (@error unit no_malloc_support s)) else
      if data_size field <? alloc_size then (false, dest, snd (@error unit bytes_overflow s)) else
      read_to (store dest 4 size) 4 size s
  end.

Definition pb_dec_string : decoder := fun field dest s =>
  match pb_decode_varint32 s with
  | (None, s) => (false, dest, s)
  | (Some size, s) =>
      let alloc_size := u32 (size + 1) in
      if alloc_size <? size then (false, dest, snd (@error unit size_too_large s)) else
      if PB_ATYPE (type field) =? PB_ATYPE_POINTER then (false, dest, snd (@error unit no_malloc_support s)) else
      if data_size field <? alloc_size then (false, dest, snd (@error unit string_overflow s)) else
      let '(status, dest, s) := read_to dest 0 size s in (status, set dest size 0, s)
  end.

Definition pb_dec_fixed_length_bytes : decoder := fun field dest s =>
  match pb_decode_varint32 s with
  | (None, s) => (false, dest, s)
  | (Some size, s) =>
      if 2 ^ 32 - 1 <? size then (false, dest, snd (@error unit bytes_overflow s)) else
      if size =? 0 then (true, splice dest 0 (repeat 0 (Z.to_nat (data_size field))), s) else
      if negb (size =? data_size field) then (false, dest, snd (@error unit incorrect_fixed_length_bytes_size s)) else
      read_to dest 0 (data_size field) s
  end.
End Input.

(** ** Output streams *)

(** [callback] and [state]: NULL for computing sizes, or [buf_write] at offset
    [pos] of a buffer. *)
Inductive sink : Type :=
| Sizing
| OutBuffer (buf : list Z) (pos : Z).

Record pb_ostream := mk_ostream { dst : sink; max_size : Z; bytes_written : Z; oerrmsg : option pb_error }.

Definition writer : Type := pb_ostream -> bool * pb_ostream.

Definition oerror (msg : pb_error) : writer := fun s =>
  (false, mk_ostream (dst s) (max_size s) (bytes_written s) (set_error (oerrmsg s) msg)).

Definition then_write (w1 w2 : writer) : writer := fun s =>
  let (ok, s) := w1 s in if negb ok then (false, s) else w2 s.

Definition PB_OSTREAM_SIZING : pb_ostream := mk_ostream Sizing 0 0 None.

Definition pb_ostream_from_buffer (buf : list Z) : pb_ostream := mk_ostream (OutBuffer buf 0) (len buf) 0 None.

Definition buf_write (buf : list Z) (pos : Z) (bytes : list Z) : sink := OutBuffer (splice buf pos bytes) (pos + len bytes).

Definition pb_write (bytes : list Z) : writer := fun s =>
  let written s c := (true, mk_ostream c (max_size s) (u64 (bytes_written s + len bytes)) (oerrmsg s)) in
  match dst s with
  | Sizing => written s Sizing
  | OutBuffer buf pos =>
      if max_size s <? u64 (bytes_written s + len bytes) then oerror stream_full s else
      written s (buf_write buf pos bytes)
  end.

(** [while (value)]: a 64-bit value has at most ten groups of seven bits. *)
Fixpoint varint_groups (fuel : nat) (value : Z) : list Z :=
  match fuel with
  | O => []
  | S fuel => if value =? 0 then [] else u8 (Z.lor (Z.land value 0x7F) 0x80) :: varint_groups fuel (Z.shiftr value 7)
  end.

Definition pb_encode_varint (value : Z) : writer :=
  if value <=? 0x7F then pb_write [u8 value] else
  let buffer := varint_groups 10 value in
  let i := len buffer in
  pb_write (set buffer (i - 1) (Z.land (get buffer (i - 1)) 0x7F)).

Definition pb_encode_svarint (value : Z) : writer :=
  let zigzagged := if value <? 0 then u64 (Z.lnot (u64 (Z.shiftl (u64 value) 1))) else u64 (Z.shiftl value 1) in
  pb_encode_varint zigzagged.

Definition pb_encode_fixed32 (val : Z) : writer :=
  pb_write [u8 (Z.land val 0xFF); u8 (Z.land (Z.shiftr val 8) 0xFF); u8 (Z.land (Z.shiftr val 16) 0xFF);
            u8 (Z.land (Z.shiftr val 24) 0xFF)].

Definition pb_encode_fixed64 (val : Z) : writer :=
  pb_write (map (fun i => u8 (Z.land (Z.shiftr val (8 * i)) 0xFF)) [0; 1; 2; 3; 4; 5; 6; 7]).

Definition pb_encode_tag (wiretype field_number : Z) : writer :=
  pb_encode_varint (Z.lor (u64 (Z.shiftl field_number 3)) wiretype).

Definition pb_encode_tag_for_field (field : pb_field) : writer :=
  let t := PB_LTYPE (type field) in
  if (t =? 0x00) || (t =? 0x01) || (t =? 0x02) then pb_encode_tag PB_WT_VARINT (tag field) else
  if t =? 0x03 then pb_encode_tag PB_WT_32BIT (tag field) else
  if t =? 0x04 then pb_encode_tag PB_WT_64BIT (tag field) else
  if (t =? 0x05) || (t =? 0x06) || (t =? 0x07) || (t =? 0x09) then pb_encode_tag PB_WT_STRING (tag field) else
  oerror invalid_field_type.

Definition pb_encode_string (buffer : list Z) : writer :=
  then_write (pb_encode_varint (len buffer)) (pb_write buffer).

(** ** Field encoders, from the memory at [src] *)

Definition load_unsigned (mem : list Z) (n : Z) : Z := be_val (rev (take n mem)).

Definition known_size (n : Z) : bool := (n =? 1) || (n =? 2) || (n =? 4) || (n =? 8).

Definition pb_enc_varint (field : pb_field) (mem : list Z) : writer :=
  let n := data_size field in
  if known_size n then pb_encode_varint (u64 (to_signed (8 * n) (load_unsigned mem n))) else oerror invalid_data_size.

Definition pb_enc_uvarint (field : pb_field) (mem : list Z) : writer :=
  let n := data_size field in
  if known_size n then pb_encode_varint (load_unsigned mem n) else oerror invalid_data_size.

Definition pb_enc_svarint (field : pb_field) (mem : list Z) : writer :=
  let n := data_size field in
  if known_size n then pb_encode_svarint (to_signed (8 * n) (load_unsigned mem n)) else oerror invalid_data_size.

Definition pb_enc_fixed32 (field : pb_field) (mem : list Z) : writer := pb_encode_fixed32 (load_unsigned mem 4).
Definition pb_enc_fixed64 (field : pb_field) (mem : list Z) : writer := pb_encode_fixed64 (load_unsigned mem 8).

(** A NULL [src] is an empty value. *)
Definition pb_enc_bytes (field : pb_field) (mem : option (list Z)) : writer :=
  match mem with
  | None => pb_encode_string []
  | Some mem =>
      let size := load_unsigned mem 4 in
      if (PB_ATYPE (type field) =? PB_ATYPE_STATIC) && (data_size field <? PB_BYTES_ARRAY_T_ALLOCSIZE size)
      then oerror bytes_size_exceeded else pb_encode_string (take size (drop 4 mem))
  end.

(** [while (size < max_size && *p)]. *)
Fixpoint strnlen (mem : list Z) (fuel : nat) : Z :=
  match fuel, mem with
  | S fuel, c :: mem => if negb (c =? 0) then 1 + strnlen mem fuel else 0
  | _, _ => 0
  end.

Definition pb_enc_string (field : pb_field) (mem : option (list Z)) : writer :=
  match mem with
  | None => pb_encode_string []
  | Some mem =>
      let max := if PB_ATYPE (type field) =? PB_ATYPE_POINTER then length mem else Z.to_nat (data_size field) in
      pb_encode_string (take (strnlen mem max) mem)
  end.

Definition pb_enc_fixed_length_bytes (field : pb_field) (mem : list Z) : writer :=
  pb_encode_string (take (data_size field) mem).

(** ** Varints as byte strings *)

(** Every byte but the last has its top bit set. *)
Fixpoint is_varint (l : list Z) : Prop :=
  match l with
  | [] => False
  | [b] => 0 <= b < 128
  | b :: l => 128 <= b < 256 /\ is_varint l
  end.

(** Groups of seven bits, least significant first. *)
Fixpoint varint_val (l : list Z) : Z :=
  match l with [] => 0 | b :: l => b mod 128 + 128 * varint_val l end.

(** The varint of at most [n] bytes a string starts with. *)
Fixpoint take_varint (n : nat) (l : list Z) : option (list Z) :=
  match n, l with
  | S n, b :: l => if b <? 128 then Some [b] else option_map (cons b) (take_varint n l)
  | _, _ => None
  end.

Lemma is_varint_cons b l : l <> [] -> is_varint (b :: l) <-> 128 <= b < 256 /\ is_varint l.
Proof. destruct l; [contradiction | reflexivity]. Qed.

Lemma take_varint_iff n : forall l v, bytes_ok l ->
  (take_varint n l = Some v <-> is_varint v /\ (length v <= n)%nat /\ exists tl, l = v ++ tl).
Proof.
  induction n as [| n IH]; intros l v Hl.
  { split; [discriminate |]. intros (H1 & H2 & _). destruct v; [destruct H1 | cbn in H2; lia]. }
  destruct l as [| b l]; cbn [take_varint].
  { split; [discriminate |]. intros (H1 & _ & tl & E). destruct v; [destruct H1 | discriminate]. }
  inversion_clear Hl as [| ? ? Hb Hl']. unfold byte_ok in Hb. destruct (Z.ltb_spec b 128) as [L | L].
  - split.
    + intros [= <-]. split; [cbn; lia | split; [cbn; lia | now exists l]].
    + intros (H1 & _ & tl & E). destruct v as [| c v]; [destruct H1 |]. injection E as <- E.
      destruct v as [| c v]; [reflexivity |]. cbn in H1. lia.
  - destruct (take_varint n l) as [w |] eqn:Et; cbn [option_map].
    + destruct (proj1 (IH l w Hl') Et) as (H1 & H2 & tl & E). split.
      * intros [= <-]. split; [apply is_varint_cons; [intros ->; destruct H1 | split; [lia | assumption]] |].
        split; [cbn; lia | exists tl; cbn; now f_equal].
      * intros (K1 & K2 & tl' & E'). destruct v as [| c v]; [destruct K1 |]. injection E' as <- E'.
        destruct v as [| c v]; [cbn in K1; lia |]. rewrite is_varint_cons in K1 by discriminate.
        assert (X : Some w = Some (c :: v)); [| now injection X as ->]. rewrite <- Et. apply IH; [assumption |].
        split; [apply K1 | split; [cbn in *; lia | now exists tl']].
    + split; [discriminate |]. intros (K1 & K2 & tl' & E'). destruct v as [| c v]; [destruct K1 |]. injection E' as <- E'.
      destruct v as [| c v]; [cbn in K1; lia |]. rewrite is_varint_cons in K1 by discriminate.
      assert (X : None = Some (c :: v)); [| discriminate]. rewrite <- Et. apply IH; [assumption |].
      split; [apply K1 | split; [cbn in *; lia | now exists tl']].
Qed.

Lemma varint_val_nonneg l : 0 <= varint_val l.
Proof. induction l as [| b l IH]; cbn [varint_val]; [lia |]. pose proof (Z.mod_pos_bound b 128). lia. Qed.

Lemma continuation_bit b : byte_ok b -> (Z.land b 0x80 =? 0) = (b <? 128).
Proof.
  intros Hb. apply eqb_prop. apply (forall_byte (fun b => Bool.eqb (Z.land b 0x80 =? 0) (b <? 128))); [reflexivity | exact Hb].
Qed.

Lemma low_seven b : Z.land b 0x7F = b mod 128.
Proof. change 0x7F with (Z.ones 7). now rewrite Z.land_ones by lia. Qed.

(** ** Reading a buffer *)

Section Reading.
Context {St : Type}.
Variable callback : St -> Z -> option (list Z) * St.
Abbreviation istream := (@pb_istream St).

(** A stream over a buffer that holds at least [bytes_left] bytes. *)
Definition istream_ok (s : istream) : Prop :=
  match src s with Buffer rest => bytes_ok rest /\ 0 <= bytes_left s <= len rest | Callback _ => False end.

(** The bytes the stream will give. *)
Definition avail (s : istream) : list Z :=
  match src s with Buffer rest => take (bytes_left s) rest | Callback _ => [] end.

Definition advance (s : istream) (n : Z) : istream :=
  mk_istream (match src s with Buffer rest => Buffer (drop n rest) | c => c end) (bytes_left s - n) (errmsg s).

Lemma len_avail s : istream_ok s -> len (avail s) = bytes_left s.
Proof. unfold istream_ok, avail. destruct (src s); [intros [_ H]; now apply len_take | contradiction]. Qed.

Lemma avail_bytes s : istream_ok s -> bytes_ok (avail s).
Proof. unfold istream_ok, avail. destruct (src s); [intros [H _]; now apply bytes_ok_take | contradiction]. Qed.

Lemma advance_ok s n : istream_ok s -> 0 <= n <= bytes_left s -> istream_ok (advance s n).
Proof.
  unfold istream_ok, advance. cbn [src bytes_left]. destruct (src s) as [rest |]; [| contradiction]. intros [H1 H2] Hn.
  split; [now apply bytes_ok_drop | rewrite len_drop by lia; lia].
Qed.

Lemma avail_advance s n : istream_ok s -> 0 <= n <= bytes_left s -> avail (advance s n) = drop n (avail s).
Proof.
  unfold istream_ok, avail, advance. cbn [src bytes_left]. destruct (src s) as [rest |]; [| contradiction]. intros [H1 H2] Hn.
  unfold take, drop. rewrite skipn_firstn_comm. f_equal. lia.
Qed.

Lemma advance_advance s m n : 0 <= m -> 0 <= n -> advance (advance s m) n = advance s (m + n).
Proof.
  intros Hm Hn. unfold advance. cbn [src bytes_left errmsg]. f_equal; [| lia]. destruct (src s); [| reflexivity].
  now rewrite drop_drop by assumption.
Qed.

Lemma advance_0 s : advance s 0 = s.
Proof. unfold advance. destruct s as [[rest | st] n e]; cbn [src bytes_left errmsg]; [rewrite drop_0 |]; f_equal; lia. Qed.

Lemma read_ok s n : istream_ok s -> 0 <= n <= bytes_left s ->
  pb_read callback n s = (Some (take n (avail s)), advance s n).
Proof.
  unfold istream_ok, pb_read, avail, advance. destruct (src s) as [rest |] eqn:E; [| contradiction]. intros [H1 H2] Hn.
  destruct (Z.ltb_spec (bytes_left s) n); [lia |]. cbn. now rewrite take_take by lia.
Qed.

Lemma read_short s n : bytes_left s < n -> pb_read callback n s = error end_of_stream s.
Proof. intros H. unfold pb_read. destruct (Z.ltb_spec (bytes_left s) n); [reflexivity | lia]. Qed.

Lemma readbyte_ok s b l : istream_ok s -> avail s = b :: l -> pb_readbyte callback s = (Some b, advance s 1).
Proof.
  unfold istream_ok, pb_readbyte, avail, advance. destruct (src s) as [rest |] eqn:E; [| contradiction]. intros [H1 H2] Ha.
  destruct (Z.eqb_spec (bytes_left s) 0) as [E0 | E0]; [rewrite E0 in Ha; discriminate |].
  cbn. destruct rest as [| c rest]; [unfold take in Ha; rewrite firstn_nil in Ha; discriminate |].
  unfold take in Ha. replace (Z.to_nat (bytes_left s)) with (S (Z.to_nat (bytes_left s - 1))) in Ha by lia.
  injection Ha as -> _. reflexivity.
Qed.

Lemma readbyte_end s : istream_ok s -> avail s = [] -> pb_readbyte callback s = error end_of_stream s.
Proof.
  intros Ok Ha. pose proof (len_avail s Ok) as L. rewrite Ha in L. unfold pb_readbyte.
  destruct (Z.eqb_spec (bytes_left s) 0); [reflexivity | cbn in L; lia].
Qed.

(** [r] reads [v] from any stream that goes on with [l]. *)
Class Reads {A} (r : @reader St A) (l : list Z) (v : A) : Prop :=
  reads : forall s tl, istream_ok s -> avail s = l ++ tl -> r s = (Some v, advance s (len l)).

Lemma prefix_len s l tl : istream_ok s -> avail s = l ++ tl -> 0 <= len l <= bytes_left s.
Proof. intros Ok E. pose proof (len_avail s Ok) as L. rewrite E, len_app in L. pose proof (len_nonneg l). pose proof (len_nonneg tl). lia. Qed.

Lemma after_prefix s l tl : istream_ok s -> avail s = l ++ tl -> istream_ok (advance s (len l)) /\ avail (advance s (len l)) = tl.
Proof.
  intros Ok E. pose proof (prefix_len s l tl Ok E) as H. split; [now apply advance_ok |].
  rewrite avail_advance by assumption. rewrite E. now apply drop_app_exact.
Qed.

#[export] Instance reads_bind {A B} (m : @reader St A) (f : A -> reader B) l k v w :
  Reads m l v -> Reads (f v) k w -> Reads (bind m f) (l ++ k) w.
Proof.
  intros Hm Hf s tl Ok E. rewrite <- app_assoc in E. unfold bind. rewrite (Hm s (k ++ tl) Ok E).
  destruct (after_prefix s l (k ++ tl) Ok E) as [Ok' E']. rewrite (Hf _ tl Ok' E').
  rewrite advance_advance by apply len_nonneg. now rewrite len_app.
Qed.

#[export] Instance reads_ret {A} (v : A) : Reads (ret v) [] v.
Proof. intros s tl _ _. unfold ret. change (len []) with 0. now rewrite advance_0. Qed.

#[export] Instance reads_read l : Reads (pb_read callback (len l)) l l.
Proof.
  intros s tl Ok E. rewrite read_ok by (assumption || now apply (prefix_len s l tl)). now rewrite E, take_app_exact.
Qed.

(** ** Varints *)

Lemma wrap_lor w a b : 0 <= w -> wrap w (Z.lor a b) = Z.lor (wrap w a) (wrap w b).
Proof. intros H. unfold wrap. rewrite <- !Z.land_ones by assumption. apply Z.land_lor_distr_l. Qed.

Lemma seven_more x v : 0 <= x < 128 -> x + 128 * v = Z.lor x (Z.shiftl v 7).
Proof. intros H. rewrite Z.lor_comm. rewrite lor_disjoint_add by lia. lia. Qed.

(** The loop with [f] groups left before the width is reached. *)
Lemma varint_loop_spec w : 0 < w <= 64 -> forall fuel f bitpos result s, istream_ok s -> (f <= fuel)%nat ->
  0 <= bitpos -> w <= bitpos + 7 * Z.of_nat f < w + 7 ->
  match take_varint f (avail s) with
  | Some l => varint_loop callback w fuel bitpos result s
      = (Some (Z.lor result (wrap w (Z.shiftl (varint_val l) bitpos))), advance s (len l))
  | None => exists s', varint_loop callback w fuel bitpos result s = (None, s') /\
      bytes_left s' = bytes_left s - Z.min (Z.of_nat f) (bytes_left s)
  end.
Proof.
  intros Hw. induction fuel as [| fuel IH]; intros f bitpos result s Ok Hf Hb Hr; pose proof (len_avail s Ok) as L; pose proof (len_nonneg (avail s)).
  { assert (f = 0%nat) as -> by lia. cbn [take_varint varint_loop]. eexists. destruct (Z.leb_spec w bitpos); split; reflexivity || (cbn; lia). }
  destruct f as [| f].
  { cbn [take_varint varint_loop]. destruct (Z.leb_spec w bitpos); [| lia]. eexists. split; [reflexivity |]. cbn. lia. }
  cbn [varint_loop]. destruct (Z.leb_spec w bitpos); [lia |]. unfold bind.
  destruct (avail s) as [| b l] eqn:Ea; cbn [take_varint].
  { rewrite readbyte_end by assumption. eexists. split; [reflexivity |]. cbn in *. lia. }
  rewrite (readbyte_ok s b l Ok Ea). pose proof (avail_bytes s Ok) as Hbytes. rewrite Ea in Hbytes. inversion_clear Hbytes as [| ? ? Hbyte Hl'].
  rewrite continuation_bit by assumption. rewrite low_seven. rewrite len_cons in L. pose proof (len_nonneg l).
  destruct (after_prefix s [b] l Ok Ea) as [Ok' Ea']. change (len [b]) with 1 in *.
  destruct (Z.ltb_spec b 128) as [Lb | Lb]; cbn [negb].
  - cbn [varint_val]. rewrite Z.mul_0_r, Z.add_0_r. reflexivity.
  - rewrite (wrap_small 8) by lia. specialize (IH f (bitpos + 7) (Z.lor result (wrap w (Z.shiftl (b mod 128) bitpos))) (advance s 1) Ok' ltac:(lia) ltac:(lia) ltac:(lia)).
    rewrite Ea' in IH. destruct (take_varint f l) as [v |]; cbn [option_map].
    + rewrite IH. rewrite advance_advance by (lia || apply len_nonneg). rewrite len_cons. cbn [varint_val]. do 2 f_equal.
      rewrite <- Z.lor_assoc. f_equal. pose proof (Z.mod_pos_bound b 128). rewrite seven_more by lia.
      rewrite Z.shiftl_lor, Z.shiftl_shiftl, wrap_lor by lia. do 3 f_equal. lia.
    + destruct IH as (s' & E & Hs'). exists s'. split; [exact E |]. rewrite Hs'. cbn [advance bytes_left]. lia.
Qed.

Lemma decode_varint_spec s : istream_ok s ->
  match take_varint 10 (avail s) with
  | Some l => pb_decode_varint callback s = (Some (u64 (varint_val l)), advance s (len l))
  | None => exists s', pb_decode_varint callback s = (None, s') /\ bytes_left s' = bytes_left s - Z.min 10 (bytes_left s)
  end.
Proof.
  intros Ok. pose proof (varint_loop_spec 64 ltac:(lia) 10 10 0 0 s Ok ltac:(lia) ltac:(lia) ltac:(lia)) as H.
  unfold pb_decode_varint. destruct (take_varint 10 (avail s)); [| exact H]. rewrite H, Z.shiftl_0_r, Z.lor_0_l. reflexivity.
Qed.

Lemma decode_varint32_spec s : istream_ok s ->
  match take_varint 5 (avail s) with
  | Some l => pb_decode_varint32 callback s = (Some (u32 (varint_val l)), advance s (len l))
  | None => exists s', pb_decode_varint32 callback s = (None, s') /\ bytes_left s' = bytes_left s - Z.min 5 (bytes_left s)
  end.
Proof.
  intros Ok. unfold pb_decode_varint32, bind. pose proof (len_avail s Ok) as L. destruct (avail s) as [| b l] eqn:Ea; cbn [take_varint].
  { rewrite readbyte_end by assumption. eexists. split; [reflexivity |]. cbn in *. lia. }
  rewrite (readbyte_ok s b l Ok Ea). pose proof (avail_bytes s Ok) as Hbytes. rewrite Ea in Hbytes. inversion_clear Hbytes as [| ? ? Hbyte Hl'].
  rewrite continuation_bit by assumption. rewrite low_seven. rewrite len_cons in L. pose proof (len_nonneg l).
  destruct (after_prefix s [b] l Ok Ea) as [Ok' Ea']. change (len [b]) with 1 in *. unfold byte_ok in Hbyte.
  destruct (Z.ltb_spec b 128) as [Lb | Lb].
  - cbn [varint_val]. rewrite Z.mul_0_r, Z.add_0_r, (Z.mod_small b) by lia. rewrite wrap_small by lia. reflexivity.
  - pose proof (varint_loop_spec 32 ltac:(lia) 5 4 7 (b mod 128) (advance s 1) Ok' ltac:(lia) ltac:(lia) ltac:(lia)) as H0. rewrite Ea' in H0.
    pose proof (Z.mod_pos_bound b 128). destruct (take_varint 4 l) as [v |] eqn:Et; cbn [take_varint] in Et |- *; rewrite Et; cbn [option_map].
    + rewrite H0, advance_advance by (lia || apply len_nonneg). rewrite len_cons. cbn [varint_val]. do 2 f_equal.
      rewrite seven_more, wrap_lor by lia. f_equal. symmetry. apply wrap_small. lia.
    + destruct H0 as (s' & E & Hs'). exists s'. split; [exact E |]. rewrite Hs'. cbn [advance bytes_left]. lia.
Qed.

Lemma take_varint_exact n l tl : is_varint l -> (length l <= n)%nat -> bytes_ok (l ++ tl) -> take_varint n (l ++ tl) = Some l.
Proof. intros H1 H2 H3. apply take_varint_iff; [assumption |]. split; [assumption | split; [assumption | now exists tl]]. Qed.

Lemma decode_varint_reads l : is_varint l -> (length l <= 10)%nat -> Reads (pb_decode_varint callback) l (u64 (varint_val l)).
Proof.
  intros H1 H2 s tl Ok E. pose proof (decode_varint_spec s Ok) as H. pose proof (avail_bytes s Ok) as B. rewrite E in H, B.
  now rewrite take_varint_exact in H by assumption.
Qed.

Lemma decode_varint32_reads l : is_varint l -> (length l <= 5)%nat -> Reads (pb_decode_varint32 callback) l (u32 (varint_val l)).
Proof.
  intros H1 H2 s tl Ok E. pose proof (decode_varint32_spec s Ok) as H. pose proof (avail_bytes s Ok) as B. rewrite E in H, B.
  now rewrite take_varint_exact in H by assumption.
Qed.

(** ** Skipping *)

(** What a field of a wire type holds after its tag. *)
Inductive field_payload : Z -> list Z -> Prop :=
| payload_varint l : is_varint l -> field_payload PB_WT_VARINT l
| payload_64bit l : len l = 8 -> field_payload PB_WT_64BIT l
| payload_string l data : is_varint l -> (length l <= 5)%nat -> u32 (varint_val l) = len data -> field_payload PB_WT_STRING (l ++ data)
| payload_32bit l : len l = 4 -> field_payload PB_WT_32BIT l.

Lemma read_iff n s r : istream_ok s -> 0 <= n ->
  (exists v, pb_read callback n s = (Some v, r)) <-> (exists l tl, len l = n /\ avail s = l ++ tl /\ r = advance s n).
Proof.
  intros Ok Hn. pose proof (len_avail s Ok) as L. split.
  - intros (v & E). destruct (Z.le_gt_cases n (bytes_left s)) as [H | H].
    + rewrite read_ok in E by (assumption || lia). injection E as _ <-. exists (take n (avail s)), (drop n (avail s)).
      rewrite len_take by lia. split; [reflexivity | split; [now rewrite take_drop | reflexivity]].
    + rewrite read_short in E by assumption. discriminate.
  - intros (l & tl & El & Ea & ->). exists l. subst n. now apply (reads_read l s tl).
Qed.

Lemma skip_iff n s s' : istream_ok s -> 0 <= n ->
  pb_skip callback n s = (Some tt, s') <-> (exists l tl, len l = n /\ avail s = l ++ tl /\ s' = advance s n).
Proof.
  intros Ok Hn. rewrite <- read_iff by assumption. unfold pb_skip. pose proof Ok as Ok'. unfold istream_ok in Ok'.
  destruct (src s) as [rest |]; [| contradiction]. unfold bind, ret. destruct (pb_read callback n s) as [[v |] r].
  - split; [intros [= <-]; now exists v | intros (v' & [= _ <-]); reflexivity].
  - split; [discriminate | intros (v' & H); discriminate].
Qed.

Lemma skip_varint_loop_spec fuel : forall s, istream_ok s -> (length (avail s) <= fuel)%nat ->
  match take_varint (length (avail s)) (avail s) with
  | Some l => skip_varint_loop callback fuel s = (Some tt, advance s (len l))
  | None => fst (skip_varint_loop callback fuel s) = None
  end.
Proof.
  induction fuel as [| fuel IH]; intros s Ok Hf; pose proof (len_avail s Ok) as L.
  { destruct (avail s) as [| b l] eqn:Ea; [| cbn in Hf; lia]. cbn [length take_varint skip_varint_loop]. unfold bind.
    rewrite read_short by (cbn in L; lia). reflexivity. }
  cbn [skip_varint_loop]. unfold bind. destruct (avail s) as [| b l] eqn:Ea; cbn [length take_varint].
  { rewrite read_short by (cbn in L; lia). reflexivity. }
  pose proof (reads_read [b] s l Ok Ea) as Er. change (len [b]) with 1 in Er. rewrite Er. change (get [b] 0) with b.
  pose proof (avail_bytes s Ok) as Hbytes. rewrite Ea in Hbytes. inversion_clear Hbytes as [| ? ? Hbyte Hl'].
  rewrite continuation_bit by assumption. destruct (after_prefix s [b] l Ok Ea) as [Ok' Ea']. change (len [b]) with 1 in *.
  destruct (Z.ltb_spec b 128); cbn [negb]; [reflexivity |].
  specialize (IH (advance s 1) Ok'). rewrite Ea' in IH. specialize (IH ltac:(cbn in Hf; lia)).
  destruct (take_varint (length l) l); cbn [option_map]; [| exact IH].
  rewrite IH, advance_advance by (lia || apply len_nonneg). now rewrite len_cons.
Qed.

Lemma skip_varint_iff s s' : istream_ok s ->
  pb_skip_varint callback s = (Some tt, s') <-> (exists l tl, is_varint l /\ avail s = l ++ tl /\ s' = advance s (len l)).
Proof.
  intros Ok. pose proof (len_avail s Ok) as L. unfold len in L. unfold pb_skip_varint.
  pose proof (skip_varint_loop_spec (Z.to_nat (bytes_left s)) s Ok ltac:(lia)) as H.
  pose proof (fun l => take_varint_iff (length (avail s)) (avail s) l (avail_bytes s Ok)) as T.
  destruct (take_varint (length (avail s)) (avail s)) as [l |].
  - destruct (proj1 (T l) eq_refl) as (T1 & T2 & tl & T3). rewrite H. split.
    + intros [= <-]. exists l, tl. repeat split; assumption.
    + intros (k & tl' & K1 & K2 & ->). assert (X : Some l = Some k); [| now injection X as ->].
      apply T. split; [assumption |]. split; [rewrite K2, length_app; lia | now exists tl'].
  - destruct (skip_varint_loop callback _ s) as [r q]. cbn in H. subst r. split; [discriminate |].
    intros (k & tl' & K1 & K2 & ->). assert (X : None = Some k); [| discriminate].
    apply T. split; [assumption |]. split; [rewrite K2, length_app; lia | now exists tl'].
Qed.

Lemma skip_string_iff s s' : istream_ok s ->
  pb_skip_string callback s = (Some tt, s') <->
  (exists l data tl, is_varint l /\ (length l <= 5)%nat /\ u32 (varint_val l) = len data /\
    avail s = l ++ data ++ tl /\ s' = advance s (len l + len data)).
Proof.
  intros Ok. unfold pb_skip_string, bind. pose proof (decode_varint32_spec s Ok) as H.
  pose proof (fun l => take_varint_iff 5 (avail s) l (avail_bytes s Ok)) as T.
  destruct (take_varint 5 (avail s)) as [l |].
  - destruct (proj1 (T l) eq_refl) as (T1 & T2 & tl & T3). rewrite H. destruct (after_prefix s l tl Ok T3) as [Ok' E'].
    rewrite skip_iff by (assumption || (apply wrap_range; lia)). rewrite E'. split.
    + intros (data & tl' & D1 & D2 & ->). exists l, data, tl'. rewrite advance_advance by (apply len_nonneg || (apply wrap_range; lia)).
      rewrite T3, D2, D1. repeat split; assumption.
    + intros (k & data & tl' & K1 & K2 & K3 & K4 & ->). assert (X : Some l = Some k).
      { apply T. split; [assumption | split; [assumption | now exists (data ++ tl')]]. }
      injection X as ->. exists data, tl'. rewrite K3. split; [reflexivity |].
      split; [rewrite T3 in K4; now apply app_inv_head in K4 |]. now rewrite advance_advance by apply len_nonneg.
  - destruct H as (q & H & _). rewrite H. split; [discriminate |].
    intros (k & data & tl' & K1 & K2 & K3 & K4 & ->). assert (X : None = Some k); [| discriminate].
    apply T. split; [assumption | split; [assumption | now exists (data ++ tl')]].
Qed.

Lemma skip_field_iff wt s s' : istream_ok s ->
  pb_skip_field callback wt s = (Some tt, s') <->
  (exists l tl, field_payload wt l /\ avail s = l ++ tl /\ s' = advance s (len l)).
Proof.
  intros Ok. unfold pb_skip_field.
  destruct (Z.eqb_spec wt PB_WT_VARINT) as [-> | N0].
  { rewrite skip_varint_iff by assumption. split; intros (l & tl & H1 & H2 & H3); exists l, tl; repeat split; try assumption; [now constructor |].
    now inversion H1. }
  destruct (Z.eqb_spec wt PB_WT_64BIT) as [-> | N1].
  { rewrite skip_iff by (assumption || lia). split; intros (l & tl & H1 & H2 & H3); exists l, tl.
    - rewrite H1. repeat split; try assumption. now constructor.
    - inversion H1; subst; repeat split; try assumption. now rewrite <- H at 1. }
  destruct (Z.eqb_spec wt PB_WT_STRING) as [-> | N2].
  { rewrite skip_string_iff by assumption. split.
    - intros (l & data & tl & H1 & H2 & H3 & H4 & H5). exists (l ++ data), tl. rewrite len_app, <- app_assoc. repeat split; try assumption. now constructor.
    - intros (l & tl & H1 & H2 & H3). inversion H1; subst. exists l0, data, tl. rewrite len_app in *. rewrite <- app_assoc in H2. now repeat split. }
  destruct (Z.eqb_spec wt PB_WT_32BIT) as [-> | N3].
  { rewrite skip_iff by (assumption || lia). split; intros (l & tl & H1 & H2 & H3); exists l, tl.
    - rewrite H1. repeat split; try assumption. now constructor.
    - inversion H1; subst; repeat split; try assumption. now rewrite <- H at 1. }
  split; [discriminate |]. intros (l & tl & H & _). inversion H; subst; contradiction.
Qed.

(** ** Scalar values *)

Lemma lor_high acc b n : 0 <= n -> 0 <= acc < 2 ^ n -> Z.lor acc (Z.shiftl b n) = acc + b * 2 ^ n.
Proof. intros Hn H. rewrite Z.lor_comm, lor_disjoint_add by assumption. lia. Qed.

(** Bytes gathered least significant first: the [or] of shifted bytes. *)
Lemma gather_step w acc b n : byte_ok b -> 0 <= n -> n + 8 <= w -> 0 <= acc < 2 ^ n ->
  Z.lor acc (wrap w (Z.shiftl b n)) = acc + b * 2 ^ n /\ 0 <= acc + b * 2 ^ n < 2 ^ (n + 8).
Proof.
  intros Hb Hn Hw Ha. unfold byte_ok in Hb. assert (E : 2 ^ (n + 8) = 2 ^ n * 256) by (rewrite Z.pow_add_r by lia; reflexivity).
  assert (2 ^ (n + 8) <= 2 ^ w) by (apply Z.pow_le_mono_r; lia).
  rewrite wrap_small by (rewrite Z.shiftl_mul_pow2 by assumption; nia). rewrite lor_high by assumption. split; [reflexivity | nia].
Qed.

Lemma get_cons_succ (b : Z) l n : 0 < n -> get (b :: l) n = get l (n - 1).
Proof. intros H. unfold get. replace (Z.to_nat n) with (S (Z.to_nat (n - 1))) by lia. reflexivity. Qed.

Lemma reads_map {A B} (m : @reader St A) (f : A -> B) l v : Reads m l v -> Reads (bind m (fun x => ret (f x))) l (f v).
Proof. intros H s tl Ok E. unfold bind. now rewrite (H s tl Ok E). Qed.

Lemma reads_eq {A} (m : @reader St A) l v w : Reads m l v -> v = w -> Reads m l w.
Proof. now intros H <-. Qed.

(** The byte at [i] joins those below it. *)
Lemma gather_byte w l i acc : bytes_ok l -> 0 <= i < len l -> 8 * i + 8 <= w -> acc = le_bytes_val (take i l) ->
  Z.lor acc (wrap w (Z.shiftl (get l i) (8 * i))) = le_bytes_val (take (i + 1) l).
Proof.
  intros Hb Hi Hw ->. assert (Hr : bytes_ok (rev (take i l))) by (apply Forall_rev; now apply bytes_ok_take).
  pose proof (be_val_range _ Hr) as R. rewrite len_rev, len_take in R by lia. fold (le_bytes_val (take i l)) in R.
  assert (P : 256 ^ i = 2 ^ (8 * i)) by (change 256 with (2 ^ 8); now rewrite <- Z.pow_mul_r by lia). rewrite P in R.
  assert (Hg : byte_ok (get l i)).
  { apply (proj1 (Forall_nth _ _) Hb). unfold len in Hi. lia. }
  destruct (gather_step w _ (get l i) (8 * i) Hg ltac:(lia) ltac:(lia) R) as [-> _].
  rewrite take_succ by lia. unfold le_bytes_val at 2. rewrite rev_app_distr. cbn [rev app]. rewrite be_val_cons, len_rev, len_take by lia.
  fold (le_bytes_val (take i l)). rewrite P. lia.
Qed.

Lemma fixed32_reads l : len l = 4 -> bytes_ok l -> Reads (pb_decode_fixed32 callback) l (le_bytes_val l).
Proof.
  intros Hl Hb. unfold pb_decode_fixed32. eapply reads_eq; [apply (reads_map (pb_read callback 4)); rewrite <- Hl; apply reads_read |].
  cbv beta. rewrite Z.shiftl_0_r. change 8 with (8 * 1). change 16 with (8 * 2). change 24 with (8 * 3).
  rewrite (gather_byte 32 l 1), (gather_byte 32 l 2), (gather_byte 32 l 3); try assumption; try lia; try reflexivity.
  - now rewrite take_all by lia.
  - destruct l as [| b l]; [discriminate |]. change (take 1 (b :: l)) with [b]. unfold le_bytes_val. cbn. lia.
Qed.

Lemma fixed64_reads l : len l = 8 -> bytes_ok l -> Reads (pb_decode_fixed64 callback) l (le_bytes_val l).
Proof.
  intros Hl Hb. unfold pb_decode_fixed64. eapply reads_eq; [apply (reads_map (pb_read callback 8)); rewrite <- Hl; apply reads_read |].
  cbv beta. assert (G : forall k i acc, (Z.of_nat k + i = 8) -> 1 <= i -> acc = le_bytes_val (take i l) ->
    fold_left (fun acc i => Z.lor acc (u64 (Z.shiftl (get l i) (8 * i)))) (map (fun j => i + Z.of_nat j) (seq 0 k)) acc = le_bytes_val l).
  { induction k as [| k IH]; intros i acc Hk Hi Hacc; [cbn; rewrite Hacc, take_all by lia; reflexivity |].
    cbn [seq map fold_left]. rewrite <- seq_shift, map_map. rewrite Z.add_0_r.
    rewrite (map_ext _ (fun j => i + 1 + Z.of_nat j)) by (intros; lia). apply IH; [lia | lia |]. now apply gather_byte; try lia. }
  apply (G 7%nat 1 (get l 0)); [reflexivity | lia |].
  destruct l as [| b l]; [discriminate |]. change (take 1 (b :: l)) with [b]. unfold le_bytes_val. cbn. lia.
Qed.

(** The zig-zag map on 64-bit integers. *)
Definition zigzag (v : Z) : Z := if v <? 0 then - 2 * v - 1 else 2 * v.

Lemma svarint_reads l v : is_varint l -> (length l <= 10)%nat -> - 2 ^ 63 <= v < 2 ^ 63 -> u64 (varint_val l) = zigzag v ->
  Reads (pb_decode_svarint callback) l v.
Proof.
  intros H1 H2 Hv E. unfold pb_decode_svarint. eapply reads_eq; [apply (reads_map (pb_decode_varint callback)); now apply decode_varint_reads |].
  cbv beta. rewrite E. rewrite (Z.land_ones _ 1) by lia. rewrite Z.shiftr_div_pow2 by lia. change (2 ^ 1) with 2. unfold zigzag.
  destruct (Z.ltb_spec v 0).
  - replace ((-2 * v - 1) mod 2) with 1 by (Z.to_euclidean_division_equations; lia). cbn [Z.eqb negb].
    replace ((-2 * v - 1) / 2) with (- v - 1) by (Z.to_euclidean_division_equations; lia). unfold Z.lnot, to_signed, wrap. cbv zeta.
    rewrite Zmod_mod. replace (Z.pred (- (- v - 1))) with v by lia. rewrite <- (Z_mod_plus_full v 1), Z.mod_small by lia.
    change (2 ^ (64 - 1)) with (2 ^ 63). destruct (Z.ltb_spec (v + 1 * 2 ^ 64) (2 ^ 63)); lia.
  - replace ((2 * v) mod 2) with 0 by (Z.to_euclidean_division_equations; lia). cbn [Z.eqb negb].
    replace (2 * v / 2) with v by (Z.to_euclidean_division_equations; lia). unfold to_signed, wrap. cbv zeta. rewrite Z.mod_small by lia.
    change (2 ^ (64 - 1)) with (2 ^ 63). destruct (Z.ltb_spec v (2 ^ 63)); lia.
Qed.
End Reading.

(** ** Writing *)

(** A sizing stream, or one over a buffer with [max_size] its size. *)
Definition ostream_ok (s : pb_ostream) : Prop :=
  match dst s with
  | Sizing => 0 <= bytes_written s
  | OutBuffer buf pos => pos = bytes_written s /\ max_size s = len buf /\ 0 <= bytes_written s <= len buf
  end.

(** [n] more bytes fit. *)
Definition room (s : pb_ostream) (n : Z) : bool :=
  match dst s with Sizing => true | OutBuffer _ _ => bytes_written s + n <=? max_size s end.

Definition put (s : pb_ostream) (l : list Z) : pb_ostream :=
  mk_ostream (match dst s with Sizing => Sizing | OutBuffer buf pos => buf_write buf pos l end)
    (max_size s) (bytes_written s + len l) (oerrmsg s).

(** [w] writes [l] if it fits, and fails otherwise. *)
Class Emits (w : writer) (l : list Z) : Prop :=
  emits : forall s, ostream_ok s -> bytes_written s + len l < 2 ^ 64 ->
    if room s (len l) then w s = (true, put s l) else fst (w s) = false.

Lemma put_ok s l : ostream_ok s -> room s (len l) = true -> ostream_ok (put s l).
Proof.
  unfold ostream_ok, room, put. cbn [dst max_size bytes_written]. pose proof (len_nonneg l). destruct (dst s) as [| buf pos]; [lia |].
  intros (-> & H1 & H2) H3. apply Z.leb_le in H3. unfold buf_write. rewrite len_splice by lia. lia.
Qed.

Lemma put_put s l k : ostream_ok s -> room s (len l + len k) = true -> put (put s l) k = put s (l ++ k).
Proof.
  unfold ostream_ok, room, put. cbn [dst max_size bytes_written oerrmsg]. rewrite len_app. pose proof (len_nonneg l). pose proof (len_nonneg k).
  destruct (dst s) as [| buf pos]; [intros; f_equal; lia |]. intros (-> & H1 & H2) H3. apply Z.leb_le in H3. unfold buf_write.
  rewrite splice_splice_after by lia. rewrite len_app. f_equal; [f_equal |]; lia.
Qed.

#[export] Instance emits_write l : Emits (pb_write l) l.
Proof.
  intros s Ok Hs. unfold pb_write, room, put. pose proof (len_nonneg l). unfold ostream_ok in Ok.
  destruct (dst s) as [| buf pos].
  - rewrite wrap_small by lia. reflexivity.
  - rewrite wrap_small by lia. destruct (Z.leb_spec (bytes_written s + len l) (max_size s)), (Z.ltb_spec (max_size s) (bytes_written s + len l)); try lia; reflexivity.
Qed.

#[export] Instance emits_then w1 w2 l1 l2 : Emits w1 l1 -> Emits w2 l2 -> Emits (then_write w1 w2) (l1 ++ l2).
Proof.
  intros H1 H2 s Ok Hs. rewrite len_app in *. pose proof (len_nonneg l1). pose proof (len_nonneg l2). unfold then_write.
  specialize (H1 s Ok ltac:(lia)). assert (Hm : room s (len l1 + len l2) = true -> room s (len l1) = true).
  { unfold room. destruct (dst s); [reflexivity |]. rewrite !Z.leb_le. lia. }
  assert (Hr : room (put s l1) (len l2) = room s (len l1 + len l2)).
  { unfold room, put. cbn [dst max_size bytes_written]. destruct (dst s); [reflexivity |]. cbn. f_equal. lia. }
  destruct (room s (len l1)) eqn:R1.
  - rewrite H1. cbn [negb]. specialize (H2 (put s l1) (put_ok s l1 Ok R1) ltac:(cbn; lia)). rewrite Hr in H2.
    destruct (room s (len l1 + len l2)) eqn:R; [| exact H2]. rewrite H2. now rewrite put_put by assumption.
  - destruct (room s (len l1 + len l2)); [specialize (Hm eq_refl); discriminate |].
    destruct (w1 s) as [ok s']. cbn in H1. subst ok. reflexivity.
Qed.

(** The bytes of [pb_encode_varint]. *)
Definition varint_bytes (value : Z) : list Z :=
  if value <=? 0x7F then [u8 value] else
  let buffer := varint_groups 10 value in set buffer (len buffer - 1) (Z.land (get buffer (len buffer - 1)) 0x7F).

Lemma emits_varint value : Emits (pb_encode_varint value) (varint_bytes value).
Proof. unfold pb_encode_varint, varint_bytes. destruct (value <=? 0x7F); apply emits_write. Qed.

Lemma group_byte value : u8 (Z.lor (Z.land value 0x7F) 0x80) = 128 + value mod 128 /\ Z.land (128 + value mod 128) 0x7F = value mod 128.
Proof.
  rewrite low_seven. pose proof (Z.mod_pos_bound value 128 ltac:(lia)) as R.
  assert (G : forall x, byte_ok x -> (negb (x <? 128) || ((u8 (Z.lor x 0x80) =? 128 + x) && (Z.land (128 + x) 0x7F =? x))) = true).
  { intros x Hx. apply (forall_byte (fun x => negb (x <? 128) || ((u8 (Z.lor x 0x80) =? 128 + x) && (Z.land (128 + x) 0x7F =? x)))); [vm_compute; reflexivity | exact Hx]. }
  specialize (G (value mod 128) ltac:(unfold byte_ok; lia)). destruct (Z.ltb_spec (value mod 128) 128); [| lia].
  cbn [negb orb] in G. apply andb_true_iff in G. rewrite !Z.eqb_eq in G. exact G.
Qed.

Lemma varint_groups_spec fuel : forall value, 0 < value < 2 ^ (7 * Z.of_nat fuel) ->
  let g := varint_groups fuel value in
  let l := set g (len g - 1) (Z.land (get g (len g - 1)) 0x7F) in
  0 < len g <= Z.of_nat fuel /\ len l = len g /\ is_varint l /\ varint_val l = value.
Proof.
  induction fuel as [| fuel IH]; intros value Hv; [cbn in Hv; lia |]. cbv zeta. cbn [varint_groups].
  destruct (Z.eqb_spec value 0); [lia |]. destruct (group_byte value) as [-> Hl]. pose proof (Z.mod_pos_bound value 128 ltac:(lia)) as R.
  rewrite Z.shiftr_div_pow2 by lia. change (2 ^ 7) with 128. rewrite len_cons.
  assert (P : 2 ^ (7 * Z.of_nat (S fuel)) = 128 * 2 ^ (7 * Z.of_nat fuel)).
  { replace (7 * Z.of_nat (S fuel)) with (7 + 7 * Z.of_nat fuel) by lia. rewrite Z.pow_add_r by lia. reflexivity. }
  assert (Hd : 0 <= value / 128 < 2 ^ (7 * Z.of_nat fuel)) by (split; [apply Z.div_pos; lia | apply Z.div_lt_upper_bound; lia]).
  pose proof (Z.div_mod value 128 ltac:(lia)) as Ed. destruct (Z.eq_dec (value / 128) 0) as [E0 | E0].
  - rewrite E0. assert (varint_groups fuel 0 = []) as -> by now destruct fuel. change (1 + len []) with 1.
    change (1 - 1) with 0. change (get [128 + value mod 128] 0) with (128 + value mod 128). rewrite Hl.
    change (set [128 + value mod 128] 0 (value mod 128)) with [value mod 128]. cbn. rewrite Zmod_mod. repeat split; lia.
  - destruct (IH (value / 128) ltac:(lia)) as (H1 & H2 & H3 & H4). set (g := varint_groups fuel (value / 128)) in *.
    rewrite get_cons_succ by lia. replace (1 + len g - 1) with (len g) by lia.
    assert (Es : set ((128 + value mod 128) :: g) (len g) (Z.land (get g (len g - 1)) 0x7F)
      = (128 + value mod 128) :: set g (len g - 1) (Z.land (get g (len g - 1)) 0x7F)).
    { unfold set, splice, take, drop. change (len [_]) with 1. replace (Z.to_nat (len g)) with (S (Z.to_nat (len g - 1))) by lia.
      replace (Z.to_nat (len g + 1)) with (S (Z.to_nat (len g - 1 + 1))) by lia. reflexivity. }
    rewrite Es. set (l := set g _ _) in *. rewrite len_cons. cbn [varint_val].
    split; [lia |]. split; [lia |]. split; [apply is_varint_cons; [intros E; rewrite E in H3; destruct H3 | split; [lia | exact H3]] |].
    rewrite H4. replace (128 + value mod 128) with (value mod 128 + 1 * 128) by lia. rewrite Z_mod_plus_full, Zmod_mod. lia.
Qed.

Lemma varint_bytes_spec value : 0 <= value < 2 ^ 64 ->
  is_varint (varint_bytes value) /\ varint_val (varint_bytes value) = value /\ (length (varint_bytes value) <= 10)%nat /\
  (value < 2 ^ 35 -> (length (varint_bytes value) <= 5)%nat).
Proof.
  intros Hv. unfold varint_bytes. destruct (Z.leb_spec value 0x7F) as [L | L].
  - rewrite wrap_small by lia. cbn. rewrite Z.mod_small by lia. repeat split; lia.
  - destruct (varint_groups_spec 10 value) as (H1 & H2 & H3 & H4); [lia |].
    split; [exact H3 | split; [exact H4 |]]. unfold len in *. split; [lia |]. intros Hs.
    assert (E : varint_groups 10 value = varint_groups 5 value); [| rewrite E in *].
    { assert (G : forall f k v, 0 <= v < 2 ^ (7 * Z.of_nat f) -> varint_groups (f + k) v = varint_groups f v).
      { induction f as [| f IH]; intros k v Hvv; [assert (v = 0) as -> by (cbn in Hvv; lia); now destruct k |].
        cbn [Nat.add varint_groups]. destruct (Z.eqb_spec v 0); [reflexivity |]. f_equal. rewrite Z.shiftr_div_pow2 by lia. apply IH.
        replace (7 * Z.of_nat (S f)) with (7 + 7 * Z.of_nat f) in Hvv by lia. rewrite Z.pow_add_r in Hvv by lia.
        split; [apply Z.div_pos; lia | apply Z.div_lt_upper_bound; lia]. }
      apply (G 5%nat 5%nat). change (7 * Z.of_nat 5) with 35. lia. }
    destruct (varint_groups_spec 5 value) as (K1 & K2 & _); [change (7 * Z.of_nat 5) with 35; lia |]. unfold len in *. lia.
Qed.

Lemma is_varint_bytes l : is_varint l -> bytes_ok l.
Proof.
  induction l as [| b l IH]; [contradiction |]. destruct l as [| c l].
  - intros H. cbn in H. repeat constructor; lia.
  - rewrite is_varint_cons by discriminate. intros [H1 H2]. constructor; [unfold byte_ok; lia | now apply IH].
Qed.

Lemma fixed_byte v k : 0 <= k -> u8 (Z.land (Z.shiftr v k) 0xFF) = (v / 2 ^ k) mod 256.
Proof.
  intros H. change 0xFF with (Z.ones 8). rewrite Z.land_ones, Z.shiftr_div_pow2 by lia. change (2 ^ 8) with 256. unfold wrap.
  change (2 ^ 8) with 256. now rewrite Zmod_mod.
Qed.

Lemma emits_fixed32 v : Emits (pb_encode_fixed32 v) (rev (be_enc 4 v)).
Proof.
  unfold pb_encode_fixed32. replace (u8 (Z.land v 0xFF)) with (u8 (Z.land (Z.shiftr v 0) 0xFF)) by now rewrite Z.shiftr_0_r.
  rewrite !fixed_byte by lia. rewrite !be_enc_cons. cbn [rev app be_enc]. apply emits_write.
Qed.

Lemma emits_fixed64 v : Emits (pb_encode_fixed64 v) (rev (be_enc 8 v)).
Proof.
  unfold pb_encode_fixed64. cbn [map]. rewrite !fixed_byte by lia. rewrite !be_enc_cons. cbn [rev app be_enc]. apply emits_write.
Qed.

Lemma le_bytes_val_enc n v : 0 <= v < 256 ^ Z.of_nat n -> le_bytes_val (rev (be_enc n v)) = v.
Proof. intros H. unfold le_bytes_val. rewrite rev_involutive. now apply be_val_enc. Qed.

Lemma zigzag_range v : - 2 ^ 63 <= v < 2 ^ 63 -> 0 <= zigzag v < 2 ^ 64.
Proof. unfold zigzag. destruct (Z.ltb_spec v 0); lia. Qed.

Lemma emits_svarint v : - 2 ^ 63 <= v < 2 ^ 63 -> Emits (pb_encode_svarint v) (varint_bytes (zigzag v)).
Proof.
  intros Hv. unfold pb_encode_svarint, zigzag. rewrite !Z.shiftl_mul_pow2 by lia. change (2 ^ 1) with 2.
  replace (if v <? 0 then u64 (Z.lnot (u64 (u64 v * 2))) else u64 (v * 2)) with (if v <? 0 then -2 * v - 1 else 2 * v); [apply emits_varint |].
  destruct (Z.ltb_spec v 0); [| rewrite wrap_small; lia]. unfold wrap, Z.lnot.
  rewrite Zmult_mod_idemp_l. rewrite <- (Z_mod_plus_full (v * 2) 1), (Z.mod_small (v * 2 + _)) by lia.
  rewrite <- (Z_mod_plus_full (Z.pred _) 1), Z.mod_small by lia. lia.
Qed.

Lemma emits_tag wt num : 0 <= wt < 8 -> 0 <= num < 2 ^ 32 -> Emits (pb_encode_tag wt num) (varint_bytes (8 * num + wt)).
Proof.
  intros Hw Hn. unfold pb_encode_tag. rewrite wrap_small by (rewrite Z.shiftl_mul_pow2 by lia; lia).
  rewrite lor_disjoint_add by lia. replace (num * 2 ^ 3 + wt) with (8 * num + wt) by lia. apply emits_varint.
Qed.

(** ** Tags, strings and substreams *)

Section Framing.
Context {St : Type}.
Variable callback : St -> Z -> option (list Z) * St.
Abbreviation istream := (@pb_istream St).

Lemma decode_tag_reads wt num : 0 <= wt < 8 -> 0 <= num < 2 ^ 29 -> 0 < 8 * num + wt ->
  forall (s : istream) tl, istream_ok s -> avail s = varint_bytes (8 * num + wt) ++ tl ->
  pb_decode_tag callback s = (Some (wt, num), false, advance s (len (varint_bytes (8 * num + wt)))).
Proof.
  intros Hw Hn Hp s tl Ok E. destruct (varint_bytes_spec (8 * num + wt) ltac:(lia)) as (V1 & V2 & _ & V4).
  unfold pb_decode_tag. rewrite (decode_varint32_reads callback _ V1 (V4 ltac:(lia)) s tl Ok E), V2. rewrite (wrap_small 32) by lia.
  destruct (Z.eqb_spec (8 * num + wt) 0); [lia |]. change 7 with (Z.ones 3). rewrite Z.land_ones, Z.shiftr_div_pow2 by lia. change (2 ^ 3) with 8.
  rewrite (Z.mul_comm 8), Z.add_comm, Z_mod_plus_full, Z.div_add, Z.mod_small, Z.div_small by lia. reflexivity.
Qed.

Lemma emits_string data : Emits (pb_encode_string data) (varint_bytes (len data) ++ data).
Proof. apply emits_then; [apply emits_varint | apply emits_write]. Qed.

(** Opening and closing a substream around a string. *)
Lemma substream_spec l data : is_varint l -> (length l <= 5)%nat -> u32 (varint_val l) = len data ->
  forall (s : istream) tl, istream_ok s -> avail s = l ++ data ++ tl ->
  exists sub parent, pb_make_string_substream callback s = (Some sub, parent) /\ istream_ok sub /\ avail sub = data /\
    forall k, 0 <= k <= len data ->
      pb_close_string_substream callback (advance sub k) parent = (Some tt, advance s (len (l ++ data))).
Proof.
  intros V1 V2 V3 s tl Ok E. pose proof (decode_varint32_reads callback l V1 V2 s _ Ok E) as Hd. rewrite V3 in Hd.
  destruct (after_prefix s l _ Ok E) as [Ok1 E1]. pose proof (prefix_len (advance s (len l)) data tl Ok1 E1) as Hl.
  set (s1 := advance s (len l)) in *. set (sub := mk_istream (src s1) (len data) (errmsg s1)).
  exists sub, (mk_istream (src s1) (bytes_left s1 - len data) (errmsg s1)).
  assert (Hsub : istream_ok sub /\ avail sub = data).
  { unfold istream_ok, avail, sub in *. cbn [src bytes_left]. destruct (src s1) as [rest |]; [| contradiction].
    split; [split; [apply Ok1 | lia] |]. rewrite <- (take_take _ (bytes_left s1)) by lia. rewrite E1. now apply take_app_exact. }
  split; [| split; [apply Hsub | split; [apply Hsub |]]].
  - unfold pb_make_string_substream, bind. rewrite Hd. destruct (Z.ltb_spec (bytes_left s1) (len data)); [lia | reflexivity].
  - intros k Hk. destruct Hsub as [Oks Es]. unfold pb_close_string_substream.
    change (bytes_left (advance sub k)) with (len data - k).
    pose proof (advance_ok sub k Oks Hk) as Okk.
    assert (Hskip : pb_skip callback (len data - k) (advance sub k) = (Some tt, advance sub (len data))).
    { apply (skip_iff callback); [exact Okk | lia |]. exists (drop k data), []. rewrite len_drop by lia. split; [reflexivity |].
      rewrite app_nil_r. split; [rewrite avail_advance by assumption; now rewrite Es |]. rewrite advance_advance by lia. f_equal. lia. }
    assert (Hend : (if negb (len data - k =? 0) then
        match pb_skip callback (len data - k) (advance sub k) with (Some _, sub) => (true, sub) | (None, sub) => (false, sub) end
        else (true, advance sub k)) = (true, advance sub (len data))).
    { destruct (Z.eqb_spec (len data - k) 0) as [Ez | Ez]; cbn [negb]; [do 2 f_equal; lia |]. now rewrite Hskip. }
    rewrite Hend. rewrite len_app. rewrite <- advance_advance by apply len_nonneg. fold s1. unfold advance, sub. cbn [src bytes_left errmsg]. reflexivity.
Qed.
End Framing.

(** ** The properties *)

(** Varint decoding is exact. From a buffer, the 64-bit decoder accepts
    precisely the varints of at most ten bytes within the limit of the stream,
    the 32-bit one those of at most five; the value is that of the groups of
    seven bits modulo 2^64 and 2^32 (higher bits are dropped), and exactly the
    varint is consumed. *)
Lemma pb_varint_iff (St : Type) (callback : St -> Z -> option (list Z) * St) s v s' : istream_ok s ->
  (pb_decode_varint callback s = (Some v, s') <->
    exists l tl, is_varint l /\ (length l <= 10)%nat /\ avail s = l ++ tl /\ v = varint_val l mod 2 ^ 64 /\ s' = advance s (len l)) /\
  (pb_decode_varint32 callback s = (Some v, s') <->
    exists l tl, is_varint l /\ (length l <= 5)%nat /\ avail s = l ++ tl /\ v = varint_val l mod 2 ^ 32 /\ s' = advance s (len l)).
Proof.
  intros Ok. pose proof (avail_bytes s Ok) as B. split.
  - pose proof (decode_varint_spec callback s Ok) as H. split.
    + intros E. destruct (take_varint 10 (avail s)) as [l |] eqn:Et; [| destruct H as (q & H & _); rewrite H in E; discriminate].
      apply take_varint_iff in Et; [| assumption]. destruct Et as (T1 & T2 & tl & T3). rewrite H in E. injection E as <- <-. exists l, tl. now repeat split.
    + intros (l & tl & H1 & H2 & H3 & -> & ->). now apply (decode_varint_reads callback l H1 H2 s tl).
  - pose proof (decode_varint32_spec callback s Ok) as H. split.
    + intros E. destruct (take_varint 5 (avail s)) as [l |] eqn:Et; [| destruct H as (q & H & _); rewrite H in E; discriminate].
      apply take_varint_iff in Et; [| assumption]. destruct Et as (T1 & T2 & tl & T3). rewrite H in E. injection E as <- <-. exists l, tl. now repeat split.
    + intros (l & tl & H1 & H2 & H3 & -> & ->). now apply (decode_varint32_reads callback l H1 H2 s tl).
Qed.

(** A caller's stream for the witnesses: it gives zeros. *)
Definition zeros (st : unit) (n : Z) : option (list Z) * unit := (Some (repeat 0 (Z.to_nat n)), st).


(** What the encoders write the decoders read: varints, zig-zag varints,
    fixed-width integers, tags, and strings through a substream, which gives
    exactly the string and, closed after any part of it was read, leaves the
    stream behind it. An encoder writes its bytes when they fit, also to a
    sizing stream, and fails otherwise ([Emits]); a decoder reads them whatever
    follows ([Reads]). *)
Lemma pb_wire_roundtrip (St : Type) (callback : St -> Z -> option (list Z) * St) v sv f32 f64 wt num data :
  0 <= v < 2 ^ 64 -> - 2 ^ 63 <= sv < 2 ^ 63 -> 0 <= f32 < 2 ^ 32 -> 0 <= f64 < 2 ^ 64 ->
  0 <= wt < 8 -> 0 < num < 2 ^ 29 -> bytes_ok data -> len data < 2 ^ 32 ->
  (exists l, Emits (pb_encode_varint v) l /\ Reads (pb_decode_varint callback) l v /\
    (v < 2 ^ 32 -> Reads (pb_decode_varint32 callback) l v)) /\
  (exists l, Emits (pb_encode_svarint sv) l /\ Reads (pb_decode_svarint callback) l sv) /\
  (exists l, Emits (pb_encode_fixed32 f32) l /\ Reads (pb_decode_fixed32 callback) l f32) /\
  (exists l, Emits (pb_encode_fixed64 f64) l /\ Reads (pb_decode_fixed64 callback) l f64) /\
  (exists l, Emits (pb_encode_tag wt num) l /\
    forall s tl, istream_ok s -> avail s = l ++ tl -> pb_decode_tag callback s = (Some (wt, num), false, advance s (len l))) /\
  (exists l, Emits (pb_encode_string data) l /\
    forall s tl, istream_ok s -> avail s = l ++ tl ->
    exists sub parent, pb_make_string_substream callback s = (Some sub, parent) /\ istream_ok sub /\ avail sub = data /\
      forall k, 0 <= k <= len data ->
        pb_close_string_substream callback (advance sub k) parent = (Some tt, advance s (len l))).
Proof.
  intros Hv Hsv H32 H64 Hwt Hnum Hd Hl. pose proof (len_nonneg data). split; [| split; [| split; [| split; [| split]]]].
  - destruct (varint_bytes_spec v Hv) as (V1 & V2 & V3 & V4). exists (varint_bytes v). split; [apply emits_varint |]. split.
    + eapply reads_eq; [now apply decode_varint_reads |]. rewrite V2. now apply wrap_small.
    + intros Hs. eapply reads_eq; [apply decode_varint32_reads; [assumption | apply V4; lia] |]. rewrite V2. apply wrap_small. lia.
  - pose proof (zigzag_range sv Hsv) as Z0. destruct (varint_bytes_spec (zigzag sv) Z0) as (V1 & V2 & V3 & _).
    exists (varint_bytes (zigzag sv)). split; [now apply emits_svarint |]. apply svarint_reads; try assumption. rewrite V2. now apply wrap_small.
  - exists (rev (be_enc 4 f32)). split; [apply emits_fixed32 |]. eapply reads_eq; [apply fixed32_reads |].
    + now rewrite len_rev, be_enc_len.
    + apply Forall_rev, be_enc_bytes.
    + now apply le_bytes_val_enc.
  - exists (rev (be_enc 8 f64)). split; [apply emits_fixed64 |]. eapply reads_eq; [apply fixed64_reads |].
    + now rewrite len_rev, be_enc_len.
    + apply Forall_rev, be_enc_bytes.
    + now apply le_bytes_val_enc.
  - exists (varint_bytes (8 * num + wt)). split; [apply emits_tag; lia |]. intros s tl. apply decode_tag_reads; lia.
  - destruct (varint_bytes_spec (len data) ltac:(lia)) as (V1 & V2 & _ & V4).
    exists (varint_bytes (len data) ++ data). split; [apply emits_string |]. intros s tl Ok E. rewrite <- app_assoc in E.
    apply (substream_spec callback _ data V1 (V4 ltac:(lia))) with (tl := tl); try assumption. rewrite V2. apply wrap_small. lia.
Qed.

Lemma to_signed_range w x : 0 < w -> - 2 ^ (w - 1) <= to_signed w x < 2 ^ (w - 1) /\ to_signed w x mod 2 ^ w = x mod 2 ^ w.
Proof.
  intros Hw. unfold to_signed. cbv zeta. assert (P : 2 ^ w = 2 * 2 ^ (w - 1)) by (rewrite <- Z.pow_succ_r by lia; f_equal; lia).
  pose proof (wrap_range w x ltac:(lia)) as R. pose proof (Z.pow_pos_nonneg 2 (w - 1)).
  destruct (Z.ltb_spec (wrap w x) (2 ^ (w - 1))); (split; [lia |]).
  - apply Zmod_mod.
  - rewrite <- (Z_mod_plus_full _ 1). replace (wrap w x - 2 ^ w + 1 * 2 ^ w) with (wrap w x) by lia. apply Zmod_mod.
Qed.

Lemma known_sizes n : known_size n = true -> n = 1 \/ n = 2 \/ n = 4 \/ n = 8.
Proof. unfold known_size. rewrite !orb_true_iff, !Z.eqb_eq. lia. Qed.

Lemma varint_val_bound l : varint_val l < 2 ^ (7 * len l).
Proof.
  induction l as [| b l IH]; [reflexivity |]. cbn [varint_val]. rewrite len_cons. pose proof (len_nonneg l). pose proof (Z.mod_pos_bound b 128).
  replace (7 * (1 + len l)) with (7 + 7 * len l) by lia. rewrite Z.pow_add_r by lia. lia.
Qed.

(** A longer varint is refused, whatever follows it. *)
Lemma varint32_refuses (St : Type) (callback : St -> Z -> option (list Z) * St) l : is_varint l -> (5 < length l)%nat ->
  forall s tl, istream_ok s -> avail s = l ++ tl -> fst (pb_decode_varint32 callback s) = None.
Proof.
  intros Hl Hn s tl Ok E. pose proof (avail_bytes s Ok) as B. pose proof (decode_varint32_spec callback s Ok) as H.
  destruct (take_varint 5 (avail s)) as [k |] eqn:Et; [| destruct H as (s' & -> & _); reflexivity]. exfalso.
  apply take_varint_iff in Et; [| exact B]. destruct Et as (K1 & K2 & tl' & Ek).
  assert (X : Some k = Some l); [| injection X as ->; lia].
  transitivity (take_varint (length k + length l) (avail s)); [symmetry; rewrite Ek in B |- * | rewrite E in B |- *];
    apply take_varint_exact; trivial; lia.
Qed.

(** A negative number in a field of any size is written in ten bytes. The
    decoder of 64 bits reads them; that of 32 bits refuses them. *)
Lemma varint32_refuses_negative (St : Type) (callback : St -> Z -> option (list Z) * St) field mem :
  let n := data_size field in
  let v := to_signed (8 * n) (load_unsigned mem n) in
  known_size n = true -> v < 0 ->
  exists l, len l = 10 /\ Emits (pb_enc_varint field mem) l /\ Reads (pb_decode_varint callback) l (u64 v) /\
    forall s tl, istream_ok s -> avail s = l ++ tl -> fst (pb_decode_varint32 callback s) = None.
Proof.
  intros n v Hk Hv. pose proof (known_sizes n Hk) as Hn. destruct (to_signed_range (8 * n) (load_unsigned mem n) ltac:(lia)) as [R _].
  fold v in R. assert (2 ^ (8 * n - 1) <= 2 ^ 63) by (apply Z.pow_le_mono_r; lia).
  assert (U : u64 v = v + 2 ^ 64) by (unfold wrap; rewrite <- (Z_mod_plus_full v 1), Z.mod_small; lia).
  destruct (varint_bytes_spec (u64 v)) as (V1 & V2 & V3 & _); [lia |]. set (l := varint_bytes (u64 v)) in *.
  assert (L : len l = 10).
  { pose proof (varint_val_bound l) as B. rewrite V2, U in B. unfold len in *. destruct (Nat.eq_dec (length l) 10) as [-> | Ne]; [reflexivity |].
    assert (2 ^ (7 * Z.of_nat (length l)) <= 2 ^ 63) by (apply Z.pow_le_mono_r; lia). lia. }
  exists l. split; [exact L |]. split; [| split].
  - unfold pb_enc_varint. fold n. rewrite Hk. apply emits_varint.
  - pose proof (decode_varint_reads callback l V1 V3) as D. rewrite V2, wrap_small in D by lia. exact D.
  - apply varint32_refuses; [exact V1 |]. unfold len in L. lia.
Qed.

(** C16: varint decoding from a buffer accepts exactly the varints of at most ten bytes, [pb_decode_varint32] those of at most five, and consumes exactly them, dropping the bits above the width; varints, zig-zag varints, fixed-width integers, tags and strings are read back as they were written, and the writers write exactly when there is room. So [pb_decode_varint32] does not work for every int32 or enum, as its header says: a negative number is written in ten bytes, which it refuses and [pb_decode_varint] reads. *)
Theorem pb_primitives_exact :
  (forall (St : Type) (callback : St -> Z -> option (list Z) * St) v sv f32 f64 wt num data,
    0 <= v < 2 ^ 64 -> - 2 ^ 63 <= sv < 2 ^ 63 -> 0 <= f32 < 2 ^ 32 -> 0 <= f64 < 2 ^ 64 ->
      0 <= wt < 8 -> 0 < num < 2 ^ 29 -> bytes_ok data -> len data < 2 ^ 32 ->
      (exists l, Emits (pb_encode_varint v) l /\ Reads (pb_decode_varint callback) l v /\
        (v < 2 ^ 32 -> Reads (pb_decode_varint32 callback) l v)) /\
      (exists l, Emits (pb_encode_svarint sv) l /\ Reads (pb_decode_svarint callback) l sv) /\
      (exists l, Emits (pb_encode_fixed32 f32) l /\ Reads (pb_decode_fixed32 callback) l f32) /\
      (exists l, Emits (pb_encode_fixed64 f64) l /\ Reads (pb_decode_fixed64 callback) l f64) /\
      (exists l, Emits (pb_encode_tag wt num) l /\
        forall s tl, istream_ok s -> avail s = l ++ tl -> pb_decode_tag callback s = (Some (wt, num), false, advance s (len l))) /\
      (exists l, Emits (pb_encode_string data) l /\
        forall s tl, istream_ok s -> avail s = l ++ tl ->
        exists sub parent, pb_make_string_substream callback s = (Some sub, parent) /\ istream_ok sub /\ avail sub = data /\
          forall k, 0 <= k <= len data ->
            pb_close_string_substream callback (advance sub k) parent = (Some tt, advance s (len l)))) /\
  (forall (St : Type) (callback : St -> Z -> option (list Z) * St) s v s',
    istream_ok s ->
      (pb_decode_varint callback s = (Some v, s') <->
        exists l tl, is_varint l /\ (length l <= 10)%nat /\ avail s = l ++ tl /\ v = varint_val l mod 2 ^ 64 /\ s' = advance s (len l)) /\
      (pb_decode_varint32 callback s = (Some v, s') <->
        exists l tl, is_varint l /\ (length l <= 5)%nat /\ avail s = l ++ tl /\ v = varint_val l mod 2 ^ 32 /\ s' = advance s (len l))) /\
  (forall (St : Type) (callback : St -> Z -> option (list Z) * St) field mem,
    let n := data_size field in
    let v := to_signed (8 * n) (load_unsigned mem n) in
    known_size n = true -> v < 0 ->
    exists l, len l = 10 /\ Emits (pb_enc_varint field mem) l /\ Reads (pb_decode_varint callback) l (u64 v) /\
      forall s tl, istream_ok s -> avail s = l ++ tl -> fst (pb_decode_varint32 callback s) = None).
Proof. split; [exact (@pb_wire_roundtrip) | split; [exact (@pb_varint_iff) | exact (@varint32_refuses_negative)]]. Qed.

(** An [int32_t]. *)
Definition int32_field : pb_field := mk_field 1 0 0 0 4 0.

Lemma pb_primitives_exact_witness :
  (let v := 300 in let sv := -2 in let data := [1; 2; 3] in
    (exists l, Emits (pb_encode_varint v) l /\ Reads (pb_decode_varint zeros) l v /\
      (v < 2 ^ 32 -> Reads (pb_decode_varint32 zeros) l v)) /\
    (exists l, Emits (pb_encode_svarint sv) l /\ Reads (pb_decode_svarint zeros) l sv) /\
    (exists l, Emits (pb_encode_fixed32 7) l /\ Reads (pb_decode_fixed32 zeros) l 7) /\
    (exists l, Emits (pb_encode_fixed64 9) l /\ Reads (pb_decode_fixed64 zeros) l 9) /\
    (exists l, Emits (pb_encode_tag 2 100) l /\
      forall s tl, istream_ok s -> avail s = l ++ tl -> pb_decode_tag zeros s = (Some (2, 100), false, advance s (len l))) /\
    (exists l, Emits (pb_encode_string data) l /\
      forall s tl, istream_ok s -> avail s = l ++ tl ->
      exists sub parent, pb_make_string_substream zeros s = (Some sub, parent) /\ istream_ok sub /\ avail sub = data /\
        forall k, 0 <= k <= len data ->
          pb_close_string_substream zeros (advance sub k) parent = (Some tt, advance s (len l)))) /\
  (let s := pb_istream_from_buffer [172; 2; 7] in
    (pb_decode_varint zeros s = (Some 300, advance s 2) <->
      exists l tl, is_varint l /\ (length l <= 10)%nat /\ avail s = l ++ tl /\ 300 = varint_val l mod 2 ^ 64 /\ advance s 2 = advance s (len l)) /\
    (pb_decode_varint32 zeros s = (Some 300, advance s 2) <->
      exists l tl, is_varint l /\ (length l <= 5)%nat /\ avail s = l ++ tl /\ 300 = varint_val l mod 2 ^ 32 /\ advance s 2 = advance s (len l))) /\
  (exists l, len l = 10 /\ Emits (pb_enc_varint int32_field [255; 255; 255; 255]) l /\ Reads (pb_decode_varint zeros) l (2 ^ 64 - 1) /\
    forall s tl, istream_ok s -> avail s = l ++ tl -> fst (pb_decode_varint32 zeros s) = None).
Proof.
  split; [| split].
  { apply (proj1 pb_primitives_exact unit zeros 300 (-2) 7 9 2 100 [1; 2; 3]); try lia.
    - repeat constructor; unfold byte_ok; lia.
    - cbn. lia. }
  { apply (proj1 (proj2 pb_primitives_exact) unit zeros (pb_istream_from_buffer [172; 2; 7]) 300 (advance (pb_istream_from_buffer [172; 2; 7]) 2)).
    split; [repeat constructor; unfold byte_ok; lia | cbn; lia]. }
  { exact (proj2 (proj2 pb_primitives_exact) unit zeros int32_field [255; 255; 255; 255] eq_refl eq_refl). }
Defined.

(** Skipping a field consumes exactly a payload of its wire type: a varint
    of any length, 8 or 4 bytes, or a length and that many bytes; anything else
    is refused, and unknown wire types always are. *)
Lemma pb_skip_field_exact (St : Type) (callback : St -> Z -> option (list Z) * St) wt s s' : istream_ok s ->
  (pb_skip_field callback wt s = (Some tt, s') <->
   exists l tl, field_payload wt l /\ avail s = l ++ tl /\ s' = advance s (len l)).
Proof. apply skip_field_iff. Qed.

(** [pb_decode_tag] reports the end of the message also when the stream ends
    inside a tag: up to four bytes that all announce another one are taken for
    a clean end, as an empty stream is. *)
Theorem pb_decode_tag_truncated (St : Type) (callback : St -> Z -> option (list Z) * St) s :
  istream_ok s -> bytes_left s <= 4 -> Forall (fun b => 128 <= b) (avail s) ->
  fst (pb_decode_tag callback s) = (None, true).
Proof.
  intros Ok Hl Hc. pose proof (decode_varint32_spec callback s Ok) as H. pose proof (len_avail s Ok) as L. pose proof (len_nonneg (avail s)).
  assert (N : forall l n, Forall (fun b => 128 <= b) l -> take_varint n l = None).
  { induction l as [| b l IH]; intros n Hf; [now destruct n |]. inversion_clear Hf as [| ? ? H1 H2]. destruct n as [| n]; [reflexivity |].
    cbn [take_varint]. destruct (Z.ltb_spec b 128); [lia |]. now rewrite IH. }
  rewrite (N _ 5%nat Hc) in H. destruct H as (s' & E & Hb). unfold pb_decode_tag. rewrite E, Hb. cbn [fst].
  replace (bytes_left s - Z.min 5 (bytes_left s)) with 0 by lia. reflexivity.
Qed.

Lemma pb_decode_tag_truncated_witness :
  fst (pb_decode_tag zeros (pb_istream_from_buffer [136])) = (None, true).
Proof.
  apply (pb_decode_tag_truncated unit zeros (pb_istream_from_buffer [136])).
  - split; [repeat constructor; unfold byte_ok; lia | cbn; lia].
  - cbn. lia.
  - repeat constructor. lia.
Defined.

(** ** Field coders *)

Section Fields.
Context {St : Type}.
Variable callback : St -> Z -> option (list Z) * St.
Abbreviation istream := (@pb_istream St).

(** [dec] reads back what [w] wrote: [n] bytes at [dest] become those at [mem],
    and nothing else changes. *)
Definition codes (w : writer) (dec : @decoder St) (field : pb_field) (mem dest : list Z) (n : Z) : Prop :=
  exists l, Emits w l /\
  forall (s : istream) tl, istream_ok s -> avail s = l ++ tl ->
  exists dest', dec field dest s = (true, dest', advance s (len l)) /\
    take n dest' = take n mem /\ drop n dest' = drop n dest.

Lemma load_range mem n : bytes_ok mem -> 0 <= n <= len mem -> 0 <= load_unsigned mem n < 256 ^ n.
Proof.
  intros Hb Hn. unfold load_unsigned. assert (Hr : bytes_ok (rev (take n mem))) by (apply Forall_rev; now apply bytes_ok_take).
  pose proof (be_val_range _ Hr) as R. rewrite len_rev, len_take in R by lia. exact R.
Qed.

(** Storing a number that agrees with the loaded one in its low [n] bytes. *)
Lemma store_load mem dest n v : bytes_ok mem -> 0 <= n <= len mem -> n <= len dest ->
  v mod 256 ^ n = load_unsigned mem n ->
  take n (store dest n v) = take n mem /\ drop n (store dest n v) = drop n dest.
Proof.
  intros Hb Hn Hd Hv. unfold store, splice. rewrite take_0, Z.add_0_l. cbn [app]. rewrite len_rev, be_enc_len, Z2Nat.id by lia.
  split; [| apply drop_app_exact; rewrite len_rev, be_enc_len; lia].
  rewrite take_app_exact by (rewrite len_rev, be_enc_len; lia). rewrite <- be_enc_mod, Z2Nat.id, Hv by lia. unfold load_unsigned.
  assert (E : Z.to_nat n = length (rev (take n mem))).
  { rewrite length_rev. pose proof (len_take n mem ltac:(lia)) as L. unfold len in L. lia. }
  rewrite E at 1. rewrite be_enc_val by (apply Forall_rev; now apply bytes_ok_take). apply rev_involutive.
Qed.

Lemma pow_bits n : 0 <= n -> 256 ^ n = 2 ^ (8 * n).
Proof. intros H. change 256 with (2 ^ 8). now rewrite <- Z.pow_mul_r by lia. Qed.

Lemma to_signed_small w v : 0 < w -> - 2 ^ (w - 1) <= v < 2 ^ (w - 1) -> to_signed w (v mod 2 ^ w) = v /\ to_signed w v = v.
Proof.
  intros Hw Hv. assert (P : 2 ^ w = 2 * 2 ^ (w - 1)) by (rewrite <- Z.pow_succ_r by lia; f_equal; lia).
  assert (E : to_signed w v = v).
  { unfold to_signed, wrap. cbv zeta. destruct (Z.lt_ge_cases v 0).
    - rewrite <- (Z_mod_plus_full v 1), Z.mod_small by lia. destruct (Z.ltb_spec (v + 1 * 2 ^ w) (2 ^ (w - 1))); lia.
    - rewrite Z.mod_small by lia. destruct (Z.ltb_spec v (2 ^ (w - 1))); lia. }
  split; [| exact E]. etransitivity; [| exact E]. unfold to_signed. change (v mod 2 ^ w) with (wrap w v). now rewrite wrap_wrap.
Qed.

Lemma store_clamped_ok (signed : bool) field dest value (s : istream) : known_size (data_size field) = true ->
  (if signed then to_signed (8 * data_size field) value else wrap (8 * data_size field) value) = value ->
  store_clamped signed field dest value s = (true, store dest (data_size field) value, s).
Proof.
  intros Hn Hc. apply known_sizes in Hn. unfold store_clamped. rewrite Hc, Z.eqb_refl. cbn [negb].
  destruct Hn as [-> | [-> | [-> | ->]]]; reflexivity.
Qed.

Section Integers.
Variables (field : pb_field) (mem dest : list Z).
Hypotheses (Hsize : known_size (data_size field) = true) (Hmem : bytes_ok mem)
  (Lmem : data_size field <= len mem) (Ldest : data_size field <= len dest).

Let n := data_size field.
Let u := load_unsigned mem n.

Lemma size_pos : 0 < n <= 8.
Proof. pose proof (known_sizes _ Hsize). unfold n. lia. Qed.

Lemma u_range : 0 <= u < 256 ^ n.
Proof. pose proof size_pos. apply load_range; [assumption | unfold n in *; lia]. Qed.

Lemma uvarint_codes : codes (pb_enc_uvarint field mem) (pb_dec_uvarint callback) field mem dest n.
Proof.
  pose proof size_pos as Hn. pose proof u_range as Hu. rewrite pow_bits in Hu by lia.
  assert (2 ^ (8 * n) <= 2 ^ 64) by (apply Z.pow_le_mono_r; lia).
  destruct (varint_bytes_spec u ltac:(lia)) as (V1 & V2 & V3 & _).
  exists (varint_bytes u). unfold pb_enc_uvarint. rewrite Hsize. split; [apply emits_varint |]. intros s tl Ok E.
  exists (store dest n u). split; [| apply store_load; try assumption; [lia | rewrite pow_bits by lia; now apply Z.mod_small]].
  unfold pb_dec_uvarint. rewrite (decode_varint_reads callback _ V1 V3 s tl Ok E), V2. rewrite wrap_small by lia.
  apply store_clamped_ok; [assumption |]. now apply wrap_small.
Qed.

(** The signed number at [mem]. *)
Let sv := to_signed (8 * n) u.

Lemma sv_facts : - 2 ^ 63 <= sv < 2 ^ 63 /\ to_signed (8 * n) sv = sv /\ sv mod 256 ^ n = u /\
  (if n =? 8 then to_signed 64 (u64 sv) else to_signed 32 (u64 sv)) = sv.
Proof.
  pose proof size_pos as Hn. pose proof u_range as Hu. rewrite pow_bits in * by lia.
  destruct (to_signed_range (8 * n) u ltac:(lia)) as [R E]. fold sv in R, E.
  assert (2 ^ (8 * n - 1) <= 2 ^ 63) by (apply Z.pow_le_mono_r; lia).
  split; [lia |]. split; [now apply to_signed_small; lia |]. split; [rewrite E; now apply Z.mod_small |].
  destruct (Z.eqb_spec n 8) as [E8 | E8]; [apply (to_signed_small 64); lia |].
  assert (Hn4 : n <= 4) by (pose proof (known_sizes _ Hsize); unfold n in *; lia).
  assert (2 ^ (8 * n - 1) <= 2 ^ 31) by (apply Z.pow_le_mono_r; lia).
  unfold to_signed. rewrite wrap_wrap_le by lia. apply (to_signed_small 32); lia.
Qed.

Lemma varint_codes : codes (pb_enc_varint field mem) (pb_dec_varint callback) field mem dest n.
Proof.
  pose proof size_pos as Hn. destruct sv_facts as (R & E1 & E2 & E3). pose proof (wrap_range 64 sv ltac:(lia)) as Rw.
  destruct (varint_bytes_spec (u64 sv) Rw) as (V1 & V2 & V3 & _).
  exists (varint_bytes (u64 sv)). unfold pb_enc_varint. rewrite Hsize. split; [apply emits_varint |]. intros s tl Ok E.
  exists (store dest n sv). split; [| apply store_load; try assumption; lia].
  unfold pb_dec_varint. rewrite (decode_varint_reads callback _ V1 V3 s tl Ok E), V2, wrap_wrap. fold n. rewrite E3.
  now apply store_clamped_ok.
Qed.

Lemma svarint_codes : codes (pb_enc_svarint field mem) (pb_dec_svarint callback) field mem dest n.
Proof.
  pose proof size_pos as Hn. destruct sv_facts as (R & E1 & E2 & E3). pose proof (zigzag_range sv R) as Rz.
  destruct (varint_bytes_spec (zigzag sv) Rz) as (V1 & V2 & V3 & _).
  exists (varint_bytes (zigzag sv)). unfold pb_enc_svarint. rewrite Hsize. split; [now apply emits_svarint |]. intros s tl Ok E.
  exists (store dest n sv). split; [| apply store_load; try assumption; lia].
  unfold pb_dec_svarint. rewrite (svarint_reads callback _ sv V1 V3 R) with (tl := tl); try assumption; [| rewrite V2; now apply wrap_small].
  now apply store_clamped_ok.
Qed.
End Integers.

Lemma fixed_codes field mem dest : bytes_ok mem ->
  (4 <= len mem -> 4 <= len dest -> codes (pb_enc_fixed32 field mem) (pb_dec_fixed32 callback) field mem dest 4) /\
  (8 <= len mem -> 8 <= len dest -> codes (pb_enc_fixed64 field mem) (pb_dec_fixed64 callback) field mem dest 8).
Proof.
  intros Hm. split; intros Lm Ld.
  - pose proof (load_range mem 4 Hm ltac:(lia)) as R. exists (rev (be_enc 4 (load_unsigned mem 4))). split; [apply emits_fixed32 |]. intros s tl Ok E.
    exists (store dest 4 (load_unsigned mem 4)). split; [| apply store_load; try assumption; try lia; now apply Z.mod_small].
    unfold pb_dec_fixed32, store_read. rewrite (fixed32_reads callback (rev (be_enc 4 (load_unsigned mem 4)))) with (tl := tl); try assumption.
    + now rewrite le_bytes_val_enc.
    + now rewrite len_rev, be_enc_len.
    + apply Forall_rev, be_enc_bytes.
  - pose proof (load_range mem 8 Hm ltac:(lia)) as R. exists (rev (be_enc 8 (load_unsigned mem 8))). split; [apply emits_fixed64 |]. intros s tl Ok E.
    exists (store dest 8 (load_unsigned mem 8)). split; [| apply store_load; try assumption; try lia; now apply Z.mod_small].
    unfold pb_dec_fixed64, store_read. rewrite (fixed64_reads callback (rev (be_enc 8 (load_unsigned mem 8)))) with (tl := tl); try assumption.
    + now rewrite le_bytes_val_enc.
    + now rewrite len_rev, be_enc_len.
    + apply Forall_rev, be_enc_bytes.
Qed.

(** A length and then [data], read to [dest + off]. *)
Lemma length_prefix_reads data (s : istream) tl : len data < 2 ^ 32 -> istream_ok s -> avail s = (varint_bytes (len data) ++ data) ++ tl ->
  exists s1, pb_decode_varint32 callback s = (Some (len data), s1) /\
    (forall dest off, read_to callback dest off (len data) s1 = (true, splice dest off data, advance s (len (varint_bytes (len data) ++ data)))).
Proof.
  intros Hl Ok E. pose proof (len_nonneg data). destruct (varint_bytes_spec (len data) ltac:(lia)) as (V1 & V2 & _ & V4). rewrite <- app_assoc in E.
  exists (advance s (len (varint_bytes (len data)))). split.
  - rewrite (decode_varint32_reads callback _ V1 (V4 ltac:(lia)) s _ Ok E), V2. now rewrite wrap_small by lia.
  - intros dest off. destruct (after_prefix s _ _ Ok E) as [Ok1 E1]. unfold read_to. rewrite (reads_read callback data _ tl Ok1 E1).
    rewrite advance_advance by apply len_nonneg. now rewrite len_app.
Qed.

Lemma take_drop_splice_0 (dest l : list Z) : len l <= len dest -> take (len l) (splice dest 0 l) = l /\ drop (len l) (splice dest 0 l) = drop (len l) dest.
Proof.
  intros H. unfold splice. rewrite take_0, Z.add_0_l. cbn [app]. split; [now apply take_app_exact | now apply drop_app_exact].
Qed.

Lemma bytes_codes field mem dest : bytes_ok mem -> PB_ATYPE (type field) = PB_ATYPE_STATIC ->
  4 <= len mem -> 4 + load_unsigned mem 4 <= data_size field -> data_size field <= len mem -> data_size field <= len dest ->
  codes (pb_enc_bytes field (Some mem)) (pb_dec_bytes callback) field mem dest (4 + load_unsigned mem 4).
Proof.
  intros Hm Ht L4 Hs Lm Ld. pose proof (load_range mem 4 Hm ltac:(lia)) as R. set (size := load_unsigned mem 4) in *. change (256 ^ 4) with (2 ^ 32) in R.
  set (data := take size (drop 4 mem)). assert (Ldata : len data = size) by (unfold data; rewrite len_take; rewrite ?len_drop; lia).
  exists (varint_bytes (len data) ++ data). split.
  - unfold pb_enc_bytes. fold size. unfold PB_BYTES_ARRAY_T_ALLOCSIZE. destruct (Z.ltb_spec (data_size field) (size + 4)); [lia |].
    rewrite andb_false_r. apply emits_string.
  - intros s tl Ok E. destruct (length_prefix_reads data s tl ltac:(lia) Ok E) as (s1 & Hd & Hr). rewrite Ldata in *.
    exists (splice (store dest 4 size) 4 data). split.
    + unfold pb_dec_bytes. rewrite Hd. destruct (Z.ltb_spec (2 ^ 32 - 1) size); [lia |]. unfold PB_BYTES_ARRAY_T_ALLOCSIZE.
      rewrite (wrap_small 64) by lia. destruct (Z.ltb_spec (size + 4) size); [lia |]. rewrite Ht. change (PB_ATYPE_STATIC =? PB_ATYPE_POINTER) with false.
      destruct (Z.ltb_spec (data_size field) (size + 4)); [lia |]. apply Hr.
    + destruct (store_load mem dest 4 size Hm ltac:(lia) ltac:(lia) ltac:(now apply Z.mod_small)) as [S1 S2].
      assert (Ls : len (store dest 4 size) = len dest) by (unfold store; rewrite len_splice; rewrite ?len_rev, ?be_enc_len; lia).
      split.
      * rewrite (take_plus 4 size mem) by lia. fold data. rewrite <- S1. replace (4 + size) with (4 + len data) by lia. apply take_splice; lia.
      * unfold splice. rewrite app_assoc. rewrite drop_app_exact by (rewrite len_app, len_take by lia; lia).
        rewrite Ldata. rewrite <- !(drop_drop size 4) by lia. now rewrite S2.
Qed.

Lemma strnlen_text t rest k : Forall (fun c => c <> 0) t -> (length t < k)%nat -> strnlen (t ++ 0 :: rest) k = len t.
Proof.
  intros Ht. revert k. induction Ht as [| c t Hc Ht IH]; intros [| k] Hk; cbn [length] in Hk; try lia; [reflexivity |].
  cbn [app strnlen]. destruct (Z.eqb_spec c 0); [contradiction |]. cbn [negb]. rewrite IH by lia. rewrite len_cons. lia.
Qed.

Lemma string_codes field t rest dest : Forall (fun c => c <> 0) t -> PB_ATYPE (type field) = PB_ATYPE_STATIC ->
  len t + 1 <= data_size field -> data_size field <= len dest -> data_size field < 2 ^ 32 ->
  codes (pb_enc_string field (Some (t ++ 0 :: rest))) (pb_dec_string callback) field (t ++ 0 :: rest) dest (len t + 1).
Proof.
  intros Ht Hst Hs Ld Hmax. pose proof (len_nonneg t). exists (varint_bytes (len t) ++ t). split.
  - unfold pb_enc_string. rewrite Hst. change (PB_ATYPE_STATIC =? PB_ATYPE_POINTER) with false.
    rewrite strnlen_text by (assumption || (unfold len in *; lia)). rewrite take_app_exact by reflexivity. apply emits_string.
  - intros s tl Ok E. destruct (length_prefix_reads t s tl ltac:(lia) Ok E) as (s1 & Hd & Hr).
    exists (set (splice dest 0 t) (len t) 0). split.
    + unfold pb_dec_string. rewrite Hd. rewrite (wrap_small 32) by lia. destruct (Z.ltb_spec (len t + 1) (len t)); [lia |].
      rewrite Hst. change (PB_ATYPE_STATIC =? PB_ATYPE_POINTER) with false. destruct (Z.ltb_spec (data_size field) (len t + 1)); [lia |].
      now rewrite Hr.
    + assert (Es : set (splice dest 0 t) (len t) 0 = splice dest 0 (t ++ [0])).
      { unfold set. replace (len t) with (0 + len t) by lia. apply splice_splice_after; try lia. change (len [0]) with 1. lia. }
      rewrite Es. assert (L1 : len (t ++ [0]) = len t + 1) by (rewrite len_app; reflexivity).
      destruct (take_drop_splice_0 dest (t ++ [0]) ltac:(lia)) as [T1 T2]. rewrite L1 in T1, T2. split; [| exact T2].
      rewrite T1. replace (t ++ 0 :: rest) with ((t ++ [0]) ++ rest) by (now rewrite <- app_assoc). symmetry. apply take_app_exact. lia.
Qed.

Lemma fixed_length_codes field mem dest : 0 < data_size field <= len mem -> data_size field <= len dest -> data_size field < 2 ^ 32 ->
  codes (pb_enc_fixed_length_bytes field mem) (pb_dec_fixed_length_bytes callback) field mem dest (data_size field).
Proof.
  intros Hn Ld Hmax. set (n := data_size field) in *. assert (L : len (take n mem) = n) by (apply len_take; lia).
  exists (varint_bytes (len (take n mem)) ++ take n mem). split; [apply emits_string |]. intros s tl Ok E.
  destruct (length_prefix_reads (take n mem) s tl ltac:(lia) Ok E) as (s1 & Hd & Hr). rewrite L in *.
  exists (splice dest 0 (take n mem)). split.
  - unfold pb_dec_fixed_length_bytes. rewrite Hd. fold n. destruct (Z.ltb_spec (2 ^ 32 - 1) n); [lia |]. destruct (Z.eqb_spec n 0); [lia |].
    rewrite Z.eqb_refl. cbn [negb]. apply Hr.
  - destruct (take_drop_splice_0 dest (take n mem) ltac:(lia)) as [T1 T2]. rewrite L in T1, T2. now split.
Qed.

(** ** Memory *)

(** [dest'] is [dest] but for its first [n] bytes. *)
Definition only_first (n : Z) (dest dest' : list Z) : Prop := len dest' = len dest /\ drop n dest' = drop n dest.

Lemma only_first_refl n dest : only_first n dest dest.
Proof. now split. Qed.

Lemma only_first_trans n d1 d2 d3 : only_first n d1 d2 -> only_first n d2 d3 -> only_first n d1 d3.
Proof. intros [A1 A2] [B1 B2]. split; congruence. Qed.

Lemma only_first_splice n (dest l : list Z) off : 0 <= off -> off + len l <= n -> n <= len dest -> only_first n dest (splice dest off l).
Proof.
  intros Ho Hl Hn. pose proof (len_nonneg l). split; [apply len_splice; lia |]. unfold splice. rewrite app_assoc.
  rewrite drop_app_r by (rewrite len_app, len_take by lia; lia). rewrite len_app, len_take by lia. rewrite drop_drop by lia. f_equal. lia.
Qed.

Lemma only_first_store n dest k v : 0 <= k <= n -> n <= len dest -> only_first n dest (store dest k v).
Proof. intros Hk Hn. apply only_first_splice; try assumption; try lia. rewrite len_rev, be_enc_len. lia. Qed.

Lemma read_to_first n dest off k (s : istream) : istream_ok s -> 0 <= off -> 0 <= k -> off + k <= n -> n <= len dest ->
  only_first n dest (snd (fst (read_to callback dest off k s))).
Proof.
  intros Ok Ho Hk Hn Hl. unfold read_to. destruct (Z.le_gt_cases k (bytes_left s)).
  - rewrite read_ok by (assumption || lia). cbn [fst snd]. apply only_first_splice; try assumption. rewrite len_take; [lia |]. rewrite len_avail by assumption. lia.
  - rewrite read_short by assumption. apply only_first_refl.
Qed.

Lemma clamped_first (signed : bool) field dest value (s : istream) : data_size field <= len dest ->
  only_first (data_size field) dest (snd (fst (store_clamped signed field dest value s))).
Proof.
  intros Hl. unfold store_clamped. destruct (_ || _) eqn:E; [| apply only_first_refl].
  assert (0 <= data_size field) by (rewrite !orb_true_iff, !Z.eqb_eq in E; lia).
  destruct (negb _); cbn [fst snd]; apply only_first_store; lia.
Qed.

Lemma read_keeps_ok {A} (m : @reader St A) s v s' : (forall s, istream_ok s -> istream_ok (snd (m s))) -> istream_ok s -> m s = (v, s') -> istream_ok s'.
Proof. intros H Ok E. specialize (H s Ok). now rewrite E in H. Qed.

Lemma varint32_ok s v s' : istream_ok s -> pb_decode_varint32 callback s = (Some v, s') -> istream_ok s' /\ 0 <= v < 2 ^ 32.
Proof.
  intros Ok E. pose proof (decode_varint32_spec callback s Ok) as H.
  destruct (take_varint 5 (avail s)) as [l |] eqn:Et; [| destruct H as (q & H & _); rewrite H in E; discriminate].
  rewrite H in E. injection E as <- <-. split; [| apply wrap_range; lia].
  apply take_varint_iff in Et; [| now apply avail_bytes]. destruct Et as (_ & _ & tl & T3). now apply (after_prefix s l tl).
Qed.

(** Every field decoder, on every input and whether or not it succeeds, writes
    only the [data_size] bytes of its field. *)
Lemma decoders_first dec field dest s : istream_ok s -> 0 <= data_size field <= len dest ->
  In dec [pb_dec_varint callback; pb_dec_uvarint callback; pb_dec_svarint callback; pb_dec_bytes callback;
    pb_dec_string callback; pb_dec_fixed_length_bytes callback] \/
  dec = pb_dec_fixed32 callback /\ 4 <= data_size field \/ dec = pb_dec_fixed64 callback /\ 8 <= data_size field ->
  only_first (data_size field) dest (snd (fst (dec field dest s))).
Proof.
  intros Ok Hd Hin. cbn [In] in Hin.
  destruct Hin as [[<- | [<- | [<- | [<- | [<- | [<- | []]]]]]] | [[-> H4] | [-> H8]]].
  - unfold pb_dec_varint. destruct (pb_decode_varint callback s) as [[v |] s1]; [apply clamped_first; lia | apply only_first_refl].
  - unfold pb_dec_uvarint. destruct (pb_decode_varint callback s) as [[v |] s1]; [apply clamped_first; lia | apply only_first_refl].
  - unfold pb_dec_svarint. destruct (pb_decode_svarint callback s) as [[v |] s1]; [apply clamped_first; lia | apply only_first_refl].
  - unfold pb_dec_bytes. destruct (pb_decode_varint32 callback s) as [[v |] s1] eqn:E; [| apply only_first_refl].
    destruct (varint32_ok s v s1 Ok E) as [Ok1 Rv]. destruct (_ <? v); [apply only_first_refl |]. unfold PB_BYTES_ARRAY_T_ALLOCSIZE.
    rewrite wrap_small by lia. destruct (_ <? _); [apply only_first_refl |]. destruct (_ =? _); [apply only_first_refl |].
    destruct (Z.ltb_spec (data_size field) (v + 4)); [apply only_first_refl |].
    eapply only_first_trans; [| apply read_to_first; try assumption; try lia]; [apply only_first_store; lia |].
    unfold store. rewrite len_splice; rewrite ?len_rev, ?be_enc_len; lia.
  - unfold pb_dec_string. destruct (pb_decode_varint32 callback s) as [[v |] s1] eqn:E; [| apply only_first_refl].
    destruct (varint32_ok s v s1 Ok E) as [Ok1 Rv]. destruct (Z.ltb_spec (u32 (v + 1)) v) as [L | L]; [apply only_first_refl |].
    assert (Hv : u32 (v + 1) = v + 1) by (unfold wrap in *; Z.to_euclidean_division_equations; lia). rewrite Hv in *.
    destruct (_ =? _); [apply only_first_refl |]. destruct (Z.ltb_spec (data_size field) (v + 1)); [apply only_first_refl |].
    pose proof (read_to_first (data_size field) dest 0 v s1 Ok1 ltac:(lia) ltac:(lia) ltac:(lia) ltac:(lia)) as R.
    destruct (read_to callback dest 0 v s1) as [[st d1] s2]. cbn [fst snd] in *. eapply only_first_trans; [exact R |].
    destruct R as [R _]. apply only_first_splice; try lia. change (len [0]) with 1. lia.
  - unfold pb_dec_fixed_length_bytes. destruct (pb_decode_varint32 callback s) as [[v |] s1] eqn:E; [| apply only_first_refl].
    destruct (varint32_ok s v s1 Ok E) as [Ok1 Rv]. destruct (_ <? v); [apply only_first_refl |].
    destruct (v =? 0); [cbn [fst snd]; apply only_first_splice; rewrite ?len_repeat; lia |].
    destruct (negb _); [apply only_first_refl |]. apply read_to_first; try assumption; lia.
  - unfold pb_dec_fixed32, store_read. destruct (pb_decode_fixed32 callback s) as [[v |] s1]; [apply only_first_store; lia | apply only_first_refl].
  - unfold pb_dec_fixed64, store_read. destruct (pb_decode_fixed64 callback s) as [[v |] s1]; [apply only_first_store; lia | apply only_first_refl].
Qed.
End Fields.

(** C37: scalar fields round-trip through memory: what the encoder of a type
    writes from a field, its decoder stores back, byte for byte, touching
    nothing else: integers of 1, 2, 4 and 8 bytes in the three varint forms
    (negative ones sign-extended), fixed-width ones, size-prefixed bytes,
    NUL-terminated strings and fixed-length bytes. *)
Theorem pb_field_roundtrip (St : Type) (callback : St -> Z -> option (list Z) * St) field mem dest t rest :
  bytes_ok mem -> 0 < data_size field -> data_size field <= len mem -> data_size field <= len dest -> data_size field < 2 ^ 32 ->
  PB_ATYPE (type field) = PB_ATYPE_STATIC ->
  (known_size (data_size field) = true ->
    codes (pb_enc_varint field mem) (pb_dec_varint callback) field mem dest (data_size field) /\
    codes (pb_enc_uvarint field mem) (pb_dec_uvarint callback) field mem dest (data_size field) /\
    codes (pb_enc_svarint field mem) (pb_dec_svarint callback) field mem dest (data_size field)) /\
  (4 <= data_size field -> codes (pb_enc_fixed32 field mem) (pb_dec_fixed32 callback) field mem dest 4) /\
  (8 <= data_size field -> codes (pb_enc_fixed64 field mem) (pb_dec_fixed64 callback) field mem dest 8) /\
  (4 + load_unsigned mem 4 <= data_size field ->
    codes (pb_enc_bytes field (Some mem)) (pb_dec_bytes callback) field mem dest (4 + load_unsigned mem 4)) /\
  (Forall (fun c => c <> 0) t -> len t + 1 <= data_size field ->
    codes (pb_enc_string field (Some (t ++ 0 :: rest))) (pb_dec_string callback) field (t ++ 0 :: rest) dest (len t + 1)) /\
  codes (pb_enc_fixed_length_bytes field mem) (pb_dec_fixed_length_bytes callback) field mem dest (data_size field).
Proof.
  intros Hm Hp Lm Ld Hmax Hst. split; [intros Hk; split; [| split]; [apply varint_codes | apply uvarint_codes | apply svarint_codes]; assumption |].
  destruct (fixed_codes callback field mem dest Hm) as [F4 F8].
  split; [intros; apply F4; lia |]. split; [intros; apply F8; lia |].
  split; [| split; [intros; now apply string_codes | apply fixed_length_codes; lia]].
  intros Hs. assert (4 <= len mem).
  { destruct (Z.le_gt_cases 4 (len mem)); [assumption |]. assert (0 <= load_unsigned mem 4).
    { unfold load_unsigned. apply be_val_range. apply Forall_rev. now apply bytes_ok_take. } lia. }
  now apply bytes_codes.
Qed.

Lemma pb_field_roundtrip_witness :
  let field := mk_field 1 0 0 0 8 0 in
  let mem := [2; 0; 0; 0; 9; 8; 7; 255] in let dest := repeat 0 9 in
  (known_size 8 = true ->
    codes (pb_enc_varint field mem) (pb_dec_varint zeros) field mem dest 8 /\
    codes (pb_enc_uvarint field mem) (pb_dec_uvarint zeros) field mem dest 8 /\
    codes (pb_enc_svarint field mem) (pb_dec_svarint zeros) field mem dest 8) /\
  (4 <= 8 -> codes (pb_enc_fixed32 field mem) (pb_dec_fixed32 zeros) field mem dest 4) /\
  (8 <= 8 -> codes (pb_enc_fixed64 field mem) (pb_dec_fixed64 zeros) field mem dest 8) /\
  (4 + load_unsigned mem 4 <= 8 ->
    codes (pb_enc_bytes field (Some mem)) (pb_dec_bytes zeros) field mem dest (4 + load_unsigned mem 4)) /\
  (Forall (fun c => c <> 0) [104; 105] -> len [104; 105] + 1 <= 8 ->
    codes (pb_enc_string field (Some ([104; 105] ++ 0 :: [1]))) (pb_dec_string zeros) field ([104; 105] ++ 0 :: [1]) dest (len [104; 105] + 1)) /\
  codes (pb_enc_fixed_length_bytes field mem) (pb_dec_fixed_length_bytes zeros) field mem dest 8.
Proof.
  apply (pb_field_roundtrip unit zeros (mk_field 1 0 0 0 8 0) [2; 0; 0; 0; 9; 8; 7; 255] (repeat 0 9) [104; 105] [1]);
    [repeat constructor; unfold byte_ok; lia | cbn; lia | cbn; lia | cbn; lia | cbn; lia | reflexivity].
Defined.

(** C19: field decoders are memory-safe: on any input, well-formed or not, and
    whether they succeed or fail, they change nothing but the [data_size] bytes
    of the field (4 and 8 bytes for the fixed-width ones). *)
Theorem pb_field_memory_safe (St : Type) (callback : St -> Z -> option (list Z) * St) dec field dest s :
  istream_ok s -> 0 <= data_size field <= len dest ->
  In dec [pb_dec_varint callback; pb_dec_uvarint callback; pb_dec_svarint callback; pb_dec_bytes callback;
    pb_dec_string callback; pb_dec_fixed_length_bytes callback] \/
  dec = pb_dec_fixed32 callback /\ 4 <= data_size field \/ dec = pb_dec_fixed64 callback /\ 8 <= data_size field ->
  only_first (data_size field) dest (snd (fst (dec field dest s))).
Proof. apply decoders_first. Qed.

Lemma pb_field_memory_safe_witness :
  only_first 4 [1; 2; 3; 4; 5] (snd (fst (pb_dec_string zeros (mk_field 1 6 0 0 4 0) [1; 2; 3; 4; 5] (pb_istream_from_buffer [3; 65; 66])))).
Proof.
  apply (pb_field_memory_safe unit zeros (pb_dec_string zeros) (mk_field 1 6 0 0 4 0) [1; 2; 3; 4; 5] (pb_istream_from_buffer [3; 65; 66])).
  - split; [repeat constructor; unfold byte_ok; lia | cbn; lia].
  - cbn. lia.
  - left. right. right. right. right. left. reflexivity.
Defined.
