(* ===== verification/DigestSpec.v ===== *)
(** * What the message digests are defined by

    The building blocks of FIPS 180-4 and RFC 1320/1321 for words of any width:
    rotations by their arithmetic, the bitwise functions, message schedules as
    growing lists, constants as digits of roots. The second half relates them to
    the ways the code computes them. *)

From S2P Require Import Prelude Buffers.
From Stdlib Require Import Btauto.

(** Rotation of a [w]-bit word by [n] to the left and to the right. *)
Definition rotl (w n x : Z) : Z := x mod 2 ^ (w - n) * 2 ^ n + x / 2 ^ (w - n).
Definition rotr (w n x : Z) : Z := rotl w (w - n) x.

Definition Ch (x y z : Z) : Z := Z.lxor (Z.land x y) (Z.ldiff z x).
Definition Parity (x y z : Z) : Z := Z.lxor (Z.lxor x y) z.
Definition Maj (x y z : Z) : Z := Z.lxor (Z.lxor (Z.land x y) (Z.land x z)) (Z.land y z).

(** A schedule: sixteen words and [n] more, each made of the sixteen before it. *)
Section Schedule.
Variable next : list Z -> Z.

Fixpoint schedule (M : list Z) (n : nat) : list Z :=
  match n with
  | O => M
  | S n => let W := schedule M n in W ++ [next (drop (Z.of_nat n) W)]
  end.
End Schedule.

(** Rounds [0 .. n-1] over a state. *)
Fixpoint rounds {A} (f : Z -> A -> A) (n : nat) (s : A) : A :=
  match n with
  | O => s
  | S n => f (Z.of_nat n) (rounds f n s)
  end.

(** The first primes, by trial division, and roots by bisection. *)
Definition is_prime (p : Z) : bool :=
  (2 <=? p) && forallb (fun d => negb (p mod Z.of_nat d =? 0)) (seq 2 (Z.to_nat p - 2)).
Definition primes_below (n : nat) : list Z := filter is_prime (map Z.of_nat (seq 0 n)).

Fixpoint root_loop (k : Z) (fuel : nat) (x lo : Z) : Z :=
  match fuel with
  | O => lo
  | S fuel =>
      let mid := lo + 2 ^ Z.of_nat fuel in
      root_loop k fuel x (if mid ^ k <=? x then mid else lo)
  end.

(** The integer [k]-th root of [x], for roots below [2 ^ 80]. *)
Definition root (k x : Z) : Z := root_loop k 80 x 0.

(** The first [w] bits of the fractional part of the [k]-th root of [p]. *)
Definition frac_root (w k p : Z) : Z := root k (p * 2 ^ (k * w)) mod 2 ^ w.

Lemma root_loop_spec k fuel : 0 < k -> forall x lo, 0 <= lo -> lo ^ k <= x < (lo + 2 ^ Z.of_nat fuel) ^ k ->
  let r := root_loop k fuel x lo in 0 <= r /\ r ^ k <= x < (r + 1) ^ k.
Proof.
  intros Hk. induction fuel as [| fuel IH]; intros x lo Hlo Hx; cbn [root_loop]; [split; [exact Hlo |]; exact Hx |].
  rewrite Nat2Z.inj_succ, Z.pow_succ_r in Hx by lia. pose proof (Z.pow_pos_nonneg 2 (Z.of_nat fuel) ltac:(lia) ltac:(lia)).
  destruct (Z.leb_spec ((lo + 2 ^ Z.of_nat fuel) ^ k) x); apply IH; try lia.
  replace (lo + 2 ^ Z.of_nat fuel + 2 ^ Z.of_nat fuel) with (lo + 2 * 2 ^ Z.of_nat fuel) by lia. lia.
Qed.

(** The root is the root: constants defined by it are what the standard says. *)
Lemma root_spec k x : 0 < k -> 0 <= x < (2 ^ 80) ^ k -> let r := root k x in 0 <= r /\ r ^ k <= x < (r + 1) ^ k.
Proof.
  intros Hk Hx. apply (root_loop_spec k 80); [lia | lia |]. rewrite Z.pow_0_l by lia. exact Hx.
Qed.

(** ** The ways the code computes them *)

Lemma rotate_rotl w n a : 0 < n < w -> 0 <= a < 2 ^ w ->
  Z.lor (wrap w (Z.shiftl a n)) (Z.shiftr a (w - n)) = rotl w n a.
Proof.
  intros Hn Ha. unfold rotl, wrap. rewrite Z.shiftr_div_pow2, Z.shiftl_mul_pow2 by lia.
  assert (E : a * 2 ^ n mod 2 ^ w = a mod 2 ^ (w - n) * 2 ^ n).
  { replace (2 ^ w) with (2 ^ (w - n) * 2 ^ n) by (rewrite <- Z.pow_add_r by lia; f_equal; lia).
    apply Z.mul_mod_distr_r; apply Z.pow_nonzero; lia. }
  rewrite E, <- (Z.shiftl_mul_pow2 _ n) at 1 by lia. apply lor_disjoint_add; [lia |].
  split; [apply Z.div_pos; [lia | apply Z.pow_pos_nonneg; lia] |].
  apply Z.div_lt_upper_bound; [apply Z.pow_pos_nonneg; lia |].
  rewrite <- Z.pow_add_r by lia. replace (w - n + n) with w by lia. lia.
Qed.

Lemma rotl_range w n a : 0 < n < w -> 0 <= a < 2 ^ w -> 0 <= rotl w n a < 2 ^ w.
Proof.
  intros. rewrite <- rotate_rotl by lia. apply lor_range; [lia | apply wrap_range; lia |].
  rewrite Z.shiftr_div_pow2 by lia. pose proof (Z.pow_pos_nonneg 2 (w - n) ltac:(lia) ltac:(lia)).
  split; [apply Z.div_pos; lia |]. apply Z.div_lt_upper_bound; [lia |]. nia.
Qed.

(** [bits]: an identity of bitwise expressions, bit by bit. *)
Ltac bits :=
  apply Z.bits_inj'; let i := fresh "i" in intros i ?;
  repeat rewrite ?Z.lxor_spec, ?Z.land_spec, ?Z.lor_spec, ?Z.ldiff_spec, ?Z.lnot_spec by lia; btauto.

Lemma Ch_mux x y z : Z.lxor (Z.land (Z.lxor y z) x) z = Ch x y z.
Proof. unfold Ch. bits. Qed.

Lemma Maj_or x y z : Z.lor (Z.land x y) (Z.land (Z.lor x y) z) = Maj x y z.
Proof. unfold Maj. bits. Qed.

Lemma land_not w x z : 0 <= w -> 0 <= z < 2 ^ w -> Z.land (wrap w (Z.lnot x)) z = Z.ldiff z x.
Proof.
  intros Hw Hz. apply Z.bits_inj'. intros i Hi. rewrite Z.land_spec, Z.ldiff_spec.
  destruct (Z.lt_ge_cases i w).
  - unfold wrap. rewrite Z.mod_pow2_bits_low, Z.lnot_spec by lia. apply andb_comm.
  - rewrite (testbit_high w z) by lia. now rewrite andb_false_r.
Qed.

Lemma Ch_range w x y z : 0 <= w -> 0 <= x < 2 ^ w -> 0 <= y < 2 ^ w -> 0 <= z < 2 ^ w -> 0 <= Ch x y z < 2 ^ w.
Proof.
  intros. unfold Ch. apply lxor_range; [lia | apply land_range; lia |]. apply bits_range; [lia |]. intros.
  now rewrite Z.ldiff_spec, (testbit_high w z) by lia.
Qed.

Lemma Maj_range w x y z : 0 <= w -> 0 <= x < 2 ^ w -> 0 <= y < 2 ^ w -> 0 <= z < 2 ^ w -> 0 <= Maj x y z < 2 ^ w.
Proof. intros. unfold Maj. repeat apply lxor_range; try apply land_range; lia. Qed.

(** ** A schedule kept in sixteen words

    Slot [i mod 16] of the ring holds word [i] of the schedule for the last
    sixteen [i]. *)
Section Ring.
Variable next : list Z -> Z.
Variable M : list Z.
Hypothesis M_len : len M = 16.

Lemma schedule_len n : len (schedule next M n) = 16 + Z.of_nat n.
Proof. induction n as [| n IH]; cbn [schedule]; autorewrite with len; lia. Qed.

Definition word (i : Z) : Z := get (schedule next M (Z.to_nat (i - 15))) i.

(** A word does not change when the schedule grows. *)
Lemma schedule_stable n : forall k i, 0 <= i < 16 + Z.of_nat n -> get (schedule next M (n + k)) i = get (schedule next M n) i.
Proof.
  induction k as [| k IH]; intros i Hi; [now rewrite Nat.add_0_r |].
  rewrite Nat.add_succ_r. cbn [schedule]. rewrite get_app_l by (rewrite schedule_len; lia). now apply IH.
Qed.

Lemma schedule_word n i : 0 <= i < 16 + Z.of_nat n -> get (schedule next M n) i = word i.
Proof.
  intros Hi. unfold word. rewrite <- (schedule_stable (Z.to_nat (i - 15)) (n - Z.to_nat (i - 15))) by lia.
  f_equal. f_equal. lia.
Qed.

Lemma word_first i : 0 <= i < 16 -> word i = get M i.
Proof. intros. unfold word. now replace (Z.to_nat (i - 15)) with 0%nat by lia. Qed.

Definition window (i : Z) : list Z := map (fun k => word (i - 16 + Z.of_nat k)) (seq 0 16).

Lemma get_window i k : 0 <= k < 16 -> get (window i) k = word (i - 16 + k).
Proof.
  intros. unfold window, get.
  rewrite (nth_indep _ 0 (word (i - 16 + Z.of_nat 0))) by (rewrite length_map, length_seq; lia).
  rewrite (map_nth (fun k0 => word (i - 16 + Z.of_nat k0))), seq_nth by lia. f_equal. lia.
Qed.

Lemma word_next i : 16 <= i -> word i = next (window i).
Proof.
  intros Hi. unfold word. replace (Z.to_nat (i - 15)) with (S (Z.to_nat (i - 16))) by lia. cbn [schedule].
  set (n := Z.to_nat (i - 16)).
  transitivity (next (drop (Z.of_nat n) (schedule next M n))).
  { rewrite <- (get_app_end (schedule next M n) (next _)) at 2. f_equal. rewrite schedule_len. lia. }
  f_equal.
  apply list_eq_get.
  - rewrite len_drop, schedule_len by (rewrite schedule_len; lia). unfold window. rewrite len_map. unfold len. rewrite length_seq. lia.
  - intros k Hk. rewrite len_drop, schedule_len in Hk by (rewrite schedule_len; lia).
    rewrite get_drop, schedule_word, get_window by lia. f_equal. lia.
Qed.

(** What the first words have and [next] preserves, all have. *)
Lemma word_all (P : Z -> Prop) : (forall j, 0 <= j < 16 -> P (get M j)) ->
  (forall l, (forall k, 0 <= k < 16 -> P (get l k)) -> P (next l)) -> forall i, 0 <= i -> P (word i).
Proof.
  intros H0 Hn i Hi. pattern i. revert i Hi. apply (Zlt_0_ind (fun i => P (word i))). intros i IH Hi.
  destruct (Z.lt_ge_cases i 16); [rewrite word_first by lia; apply H0; lia |].
  rewrite word_next by lia. apply Hn. intros k Hk. rewrite get_window by lia. apply IH. lia.
Qed.

Definition ring (X : list Z) (i : Z) : Prop :=
  len X = 16 /\ forall j, i - 16 <= j < i -> get X (j mod 16) = word j.

Lemma ring_init : ring M 16.
Proof. split; [exact M_len |]. intros j Hj. rewrite word_first, Z.mod_small by lia. reflexivity. Qed.

Lemma ring_get X i k : ring X i -> 0 <= k < 16 -> get X ((i + k) mod 16) = get (window i) k.
Proof.
  intros [_ H] Hk. replace ((i + k) mod 16) with ((i - 16 + k) mod 16).
  - now rewrite H, get_window by lia.
  - replace (i + k) with (i - 16 + k + 1 * 16) by lia. now rewrite Z.mod_add.
Qed.

Lemma ring_step X i : ring X i -> 16 <= i -> ring (set X (i mod 16) (next (window i))) (i + 1).
Proof.
  intros [Hl H] Hi. pose proof (Z.mod_pos_bound i 16 ltac:(lia)). split; [rewrite len_set; lia |].
  intros j Hj. destruct (Z.eq_dec j i) as [-> | Hne].
  - rewrite get_set_same by lia. symmetry. now apply word_next.
  - rewrite get_set_other; [apply H; lia | lia | apply Z.mod_pos_bound; lia |].
    intros E. apply Hne. pose proof (Z.div_mod i 16). pose proof (Z.div_mod j 16). lia.
Qed.
End Ring.
