(* ===== verification/Md32.v ===== *)
(** * The collector of the 32-bit digests (crypto/fipsmodule/digest/md32_common.h)

    The header is a template: it defines HASH_UPDATE, HASH_TRANSFORM and
    HASH_FINAL for the macros an algorithm sets before including it. The macros
    are the variables of Section Collector. The first part of the file says what
    a digest of this construction is, for any block size, and serves the 64-bit
    digests too. *)

From S2P Require Import Prelude Buffers DigestSpec.

(** ** Iterated compression and padding *)
Section Construction.
Variable cblock : Z.                                (* bytes of a block *)
Variable compress : list Z -> list Z -> list Z.     (* one block *)

(** The state after the first [n] blocks of [data]. *)
Fixpoint blocks (n : nat) (h data : list Z) : list Z :=
  match n with
  | O => h
  | S n => blocks n (compress h (take cblock data)) (drop cblock data)
  end.

Definition whole (data : list Z) : nat := Z.to_nat (len data / cblock).
Definition tail (data : list Z) : list Z := drop (cblock * (len data / cblock)) data.

(** The message, one bit, the fewest zeros that make whole blocks, and the
    length in bits as [enc] writes it. *)
Definition md_pad (enc : Z -> list Z) (msg : list Z) : list Z :=
  let l := enc (8 * len msg) in
  msg ++ [128] ++ repeat 0 (Z.to_nat ((cblock - 1 - len l - len msg) mod cblock)) ++ l.

Definition md_hash (enc : Z -> list Z) (h0 msg : list Z) : list Z :=
  let m := md_pad enc msg in blocks (whole m) h0 m.

(** What a context holds after the message [msg]: the state after its whole
    blocks, and the rest of it in front of the buffer. *)
Definition absorbed (h0 msg h data : list Z) (num : Z) : Prop :=
  h = blocks (whole msg) h0 msg /\ len data = cblock /\ num = len msg mod cblock /\ take num data = tail msg.
End Construction.

(** ** The collector *)

Inductive data_order : Type := DATA_ORDER_IS_BIG_ENDIAN | DATA_ORDER_IS_LITTLE_ENDIAN.

Definition HOST_c2l (o : data_order) (c : list Z) : Z :=
  match o with
  | DATA_ORDER_IS_BIG_ENDIAN =>
      let l := u32 (Z.shiftl (get c 0) 24) in
      let l := Z.lor l (u32 (Z.shiftl (get c 1) 16)) in
      let l := Z.lor l (u32 (Z.shiftl (get c 2) 8)) in
      Z.lor l (get c 3)
  | DATA_ORDER_IS_LITTLE_ENDIAN =>
      let l := get c 0 in
      let l := Z.lor l (u32 (Z.shiftl (get c 1) 8)) in
      let l := Z.lor l (u32 (Z.shiftl (get c 2) 16)) in
      Z.lor l (u32 (Z.shiftl (get c 3) 24))
  end.

Definition HOST_l2c (o : data_order) (l : Z) : list Z :=
  match o with
  | DATA_ORDER_IS_BIG_ENDIAN =>
      [u8 (Z.land (Z.shiftr l 24) 255); u8 (Z.land (Z.shiftr l 16) 255);
       u8 (Z.land (Z.shiftr l 8) 255); u8 (Z.land l 255)]
  | DATA_ORDER_IS_LITTLE_ENDIAN =>
      [u8 (Z.land l 255); u8 (Z.land (Z.shiftr l 8) 255);
       u8 (Z.land (Z.shiftr l 16) 255); u8 (Z.land (Z.shiftr l 24) 255)]
  end.

Definition HASH_CBLOCK : Z := 64.

(** [md_len] is a member of SHA256_CTX only. *)
Record HASH_CTX := mk_ctx { h : list Z; Nl : Z; Nh : Z; data : list Z; num : Z; md_len : Z }.

Section Collector.
Variable o : data_order.
Variable HASH_BLOCK_DATA_ORDER : list Z -> list Z -> nat -> list Z.
Variable HASH_MAKE_STRING : HASH_CTX -> option (list Z).

Definition HASH_UPDATE (c : HASH_CTX) (d : list Z) : HASH_CTX :=
  if len d =? 0 then c else
  let l := u32 (Nl c + u32 (Z.shiftl (u32 (len d)) 3)) in
  let nh := if l <? Nl c then u32 (Nh c + 1) else Nh c in
  let nh := u32 (nh + u32 (Z.shiftr (len d) 29)) in
  let n := num c in
  (* the whole blocks of [d], then what is left *)
  let finish (st buf : list Z) (num : Z) (d : list Z) :=
    let n := len d / HASH_CBLOCK in
    let '(st, d) :=
      if 0 <? n then (HASH_BLOCK_DATA_ORDER st d (Z.to_nat n), drop (u64 (n * HASH_CBLOCK)) d) else (st, d) in
    if negb (len d =? 0) then mk_ctx st l nh (splice buf 0 d) (len d) (md_len c)
    else mk_ctx st l nh buf num (md_len c) in
  if negb (n =? 0) then
    if (HASH_CBLOCK <=? len d) || (HASH_CBLOCK <=? u64 (len d + n)) then
      let buf := splice (data c) n (take (HASH_CBLOCK - n) d) in
      let st := HASH_BLOCK_DATA_ORDER (h c) buf 1 in
      let n := HASH_CBLOCK - n in
      finish st (splice buf 0 (repeat 0 (Z.to_nat HASH_CBLOCK))) 0 (drop n d)
    else mk_ctx (h c) l nh (splice (data c) n d) (u32 (n + u32 (len d))) (md_len c)
  else finish (h c) (data c) (num c) d.

Definition HASH_TRANSFORM (c : HASH_CTX) (d : list Z) : HASH_CTX :=
  mk_ctx (HASH_BLOCK_DATA_ORDER (h c) d 1) (Nl c) (Nh c) (data c) (num c) (md_len c).

(** The digest, [None] when HASH_MAKE_STRING returns 0, and the context left. *)
Definition HASH_FINAL (c : HASH_CTX) : option (list Z) * HASH_CTX :=
  let n := num c in
  let buf := set (data c) n 128 in
  let n := n + 1 in
  let '(buf, n, st) :=
    if HASH_CBLOCK - 8 <? n then
      let buf := splice buf n (repeat 0 (Z.to_nat (HASH_CBLOCK - n))) in
      (buf, 0, HASH_BLOCK_DATA_ORDER (h c) buf 1)
    else (buf, n, h c) in
  let buf := splice buf n (repeat 0 (Z.to_nat (HASH_CBLOCK - 8 - n))) in
  let p := HASH_CBLOCK - 8 in
  let buf :=
    match o with
    | DATA_ORDER_IS_BIG_ENDIAN => splice (splice buf p (HOST_l2c o (Nh c))) (p + 4) (HOST_l2c o (Nl c))
    | DATA_ORDER_IS_LITTLE_ENDIAN => splice (splice buf p (HOST_l2c o (Nl c))) (p + 4) (HOST_l2c o (Nh c))
    end in
  let st := HASH_BLOCK_DATA_ORDER st buf 1 in
  let c := mk_ctx st (Nl c) (Nh c) (splice buf 0 (repeat 0 (Z.to_nat HASH_CBLOCK))) 0 (md_len c) in
  (HASH_MAKE_STRING c, c).
End Collector.

(** The message schedule of a block: its sixteen words. *)
Definition load_words (o : data_order) (d : list Z) : list Z :=
  map (fun i => HOST_c2l o (drop (4 * Z.of_nat i) d)) (seq 0 16).

(** The 64-bit length field. *)
Definition length_field (o : data_order) (bits : Z) : list Z :=
  match o with
  | DATA_ORDER_IS_BIG_ENDIAN => be_enc 8 bits
  | DATA_ORDER_IS_LITTLE_ENDIAN => rev (be_enc 8 bits)
  end.

(** What the collector needs of a block function: on [S n] blocks it is the
    iteration of a compression function of one block. *)
Class BlockFunction (f : list Z -> list Z -> nat -> list Z) (compress : list Z -> list Z -> list Z) : Prop := {
  block_iterates : forall st d n, len d >= 64 * Z.of_nat (S n) -> f st d (S n) = blocks 64 compress (S n) st d }.

(** ** Iteration *)
Section ConstructionFacts.
Variable B : Z.
Variable compress : list Z -> list Z -> list Z.
Hypothesis B_pos : 0 < B.
Abbreviation blocks := (blocks B compress).
Abbreviation absorbed := (absorbed B compress).

Lemma blocks_add n : forall m h l, blocks (n + m) h l = blocks m (blocks n h l) (drop (Z.of_nat n * B) l).
Proof.
  induction n as [| n IH]; intros m h l; [reflexivity |]. cbn [Nat.add Md32.blocks].
  rewrite IH, drop_drop by lia. do 2 f_equal. lia.
Qed.

Lemma blocks_app n : forall h l k, Z.of_nat n * B <= len l -> blocks n h (l ++ k) = blocks n h l.
Proof.
  induction n as [| n IH]; intros h l k Hl; [reflexivity |]. cbn [Md32.blocks].
  rewrite take_app_l, drop_app_l by lia. apply IH. rewrite len_drop; lia.
Qed.

Lemma blocks_take n h l k : Z.of_nat n * B <= k <= len l -> blocks n h (take k l) = blocks n h l.
Proof.
  intros. rewrite <- (take_drop k l) at 2. symmetry. apply blocks_app. rewrite len_take; lia.
Qed.

Lemma split_len {A} (l : list A) :
  0 <= len l / B /\ len l = B * (len l / B) + len l mod B /\ 0 <= len l mod B < B.
Proof.
  pose proof (len_nonneg l). split; [apply Z.div_pos; lia |].
  split; [apply Z.div_mod; lia | apply Z.mod_pos_bound; lia].
Qed.

(** The quotient and remainder are determined by any decomposition. *)
Lemma split_unique q r n : n = B * q + r -> 0 <= r < B -> n / B = q /\ n mod B = r.
Proof. intros -> Hr. split; symmetry; [apply (Z.div_unique _ _ q r) | apply (Z.mod_unique _ _ q r)]; lia. Qed.

Lemma len_tail msg : len (tail B msg) = len msg mod B.
Proof. destruct (split_len msg) as (? & ? & ?). unfold tail. rewrite len_drop; lia. Qed.

Lemma tail_app msg d : len msg mod B + len d < B -> tail B (msg ++ d) = tail B msg ++ d.
Proof.
  intros Hd. destruct (split_len msg) as (? & ? & ?). pose proof (len_nonneg d). unfold tail.
  destruct (split_unique (len msg / B) (len msg mod B + len d) (len (msg ++ d))) as [-> _]; [rewrite len_app; lia | lia |].
  now rewrite drop_app_l by lia.
Qed.

(** Data that stays inside the buffer. *)
Lemma absorbed_short h0 msg h data num d : absorbed h0 msg h data num -> num + len d < B ->
  absorbed h0 (msg ++ d) h (splice data num d) (num + len d).
Proof.
  intros (-> & Hl & -> & Ht) Hd. destruct (split_len msg) as (? & ? & ?). pose proof (len_nonneg d).
  destruct (split_unique (len msg / B) (len msg mod B + len d) (len (msg ++ d))) as [Hq Hr]; [rewrite len_app; lia | lia |].
  repeat split.
  - unfold whole. rewrite Hq. symmetry. apply blocks_app. rewrite Z2Nat.id by lia. lia.
  - rewrite len_splice; lia.
  - lia.
  - rewrite take_splice, Ht by lia. symmetry. now apply tail_app.
Qed.

(** Data that completes the block in the buffer. *)
Lemma absorbed_fill h0 msg h data num d buf : absorbed h0 msg h data num -> num + len d = B -> len buf = B ->
  absorbed h0 (msg ++ d) (compress h (splice data num d)) buf 0.
Proof.
  intros (-> & Hl & -> & Ht) Hd Hb. destruct (split_len msg) as (? & ? & ?). pose proof (len_nonneg d).
  destruct (split_unique (len msg / B + 1) 0 (len (msg ++ d))) as [Hq Hr]; [rewrite len_app; lia | lia |].
  repeat split; [| assumption | lia | ].
  - unfold whole. rewrite Hq, Z2Nat.inj_add, blocks_add, Z2Nat.id by lia. rewrite blocks_app by (rewrite Z2Nat.id by lia; lia).
    change (Z.to_nat 1) with 1%nat. cbn [Md32.blocks]. rewrite drop_app_l by lia.
    f_equal. replace (drop (len msg / B * B) msg) with (tail B msg) by (unfold tail; f_equal; lia).
    rewrite take_all by (rewrite len_app, len_tail; lia).
    rewrite splice_full, Ht by lia. reflexivity.
  - unfold tail. rewrite Hq, drop_all by (rewrite len_app; lia). reflexivity.
Qed.

(** Whole blocks that follow an empty buffer. *)
Lemma absorbed_blocks h0 msg h data n d : absorbed h0 msg h data 0 -> len d = B * Z.of_nat n ->
  absorbed h0 (msg ++ d) (blocks n h d) data 0.
Proof.
  intros (-> & Hl & Hr & _) Hd. destruct (split_len msg) as (? & ? & ?).
  destruct (split_unique (len msg / B + Z.of_nat n) 0 (len (msg ++ d))) as [Hq Hr']; [rewrite len_app; lia | lia |].
  repeat split; [| assumption | lia | ].
  - unfold whole. rewrite Hq, Z2Nat.inj_add, blocks_add, Z2Nat.id, Nat2Z.id by lia.
    rewrite blocks_app by (rewrite Z2Nat.id by lia; lia). f_equal. symmetry. apply drop_app_exact. lia.
  - unfold tail. rewrite Hq, drop_all by (rewrite len_app; lia). reflexivity.
Qed.

Lemma absorbed_init h0 data : len data = B -> absorbed h0 [] h0 data 0.
Proof. intros. repeat split; [assumption |].
  unfold tail, drop. now rewrite skipn_nil.
Qed.

(** Absorbing the padding leaves the digest. *)
Lemma md_pad_len enc msg : exists n, len (md_pad B enc msg) = B * n.
Proof.
  set (L := len (enc (8 * len msg))).
  assert (len (md_pad B enc msg) = len msg + 1 + (B - 1 - L - len msg) mod B + L) as ->.
  { unfold md_pad. autorewrite with len. fold L. rewrite Z2Nat.id by (apply Z.mod_pos_bound; lia). lia. }
  pose proof (Z.div_mod (B - 1 - L - len msg) B). exists (1 - (B - 1 - L - len msg) / B). lia.
Qed.

Lemma absorbed_padded enc h0 msg h data num : absorbed h0 (md_pad B enc msg) h data num ->
  num = 0 /\ h = md_hash B compress enc h0 msg.
Proof.
  intros (-> & _ & -> & _). split; [| reflexivity]. destruct (md_pad_len enc msg) as (n & ->).
  rewrite Z.mul_comm. apply Z.mod_mul. lia.
Qed.

(** The padding done in the buffer, as the final functions do it with [l] the
    length field: a block of its own when there is no room for the length. *)
Definition padded_state (l st buf : list Z) (num : Z) : list Z :=
  let buf := set buf num 128 in
  let n := num + 1 in
  let '(buf, n, st) :=
    if B - len l <? n then
      let buf := splice buf n (repeat 0 (Z.to_nat (B - n))) in (buf, 0, compress st buf)
    else (buf, n, st) in
  let buf := splice buf n (repeat 0 (Z.to_nat (B - len l - n))) in
  compress st (splice buf (B - len l) l).

Lemma mark_and_zeros buf n k : 0 <= n < len buf -> 0 <= k -> n + 1 + k <= len buf ->
  splice (set buf n 128) (n + 1) (repeat 0 (Z.to_nat k)) =
  take n buf ++ ([128] ++ repeat 0 (Z.to_nat k)) ++ drop (n + 1 + k) buf.
Proof.
  intros Hn Hk Hl. assert (Hr : len (repeat 0 (Z.to_nat k)) = k) by (rewrite len_repeat; lia).
  pose proof (splice_splice_after buf [128] (repeat 0 (Z.to_nat k)) n ltac:(lia)) as E. change (len [128]) with 1 in E.
  unfold set. rewrite E by lia. unfold splice. do 3 f_equal. rewrite len_app. change (len [128]) with 1. lia.
Qed.

Lemma padded_state_hash enc h0 msg st buf num : absorbed h0 msg st buf num -> len (enc (8 * len msg)) < B ->
  padded_state (enc (8 * len msg)) st buf num = md_hash B compress enc h0 msg.
Proof.
  intros Ha HL. set (l := enc (8 * len msg)) in *. pose proof (len_nonneg l).
  assert (Hb : len buf = B /\ num = len msg mod B /\ 0 <= num < B).
  { destruct Ha as (_ & ? & -> & _). splits; [assumption | reflexivity | apply Z.mod_pos_bound; lia ..]. }
  destruct Hb as (Hb & Hn & Hr).
  assert (Hpad : forall d h', md_pad B enc msg = msg ++ d -> absorbed h0 (msg ++ d) h' buf 0 -> h' = md_hash B compress enc h0 msg).
  { intros d h' <- H'. now apply absorbed_padded in H'. }
  assert (Hz : forall k, 0 <= k < B -> (B - 1 - len l - num) mod B = k ->
    md_pad B enc msg = msg ++ [128] ++ repeat 0 (Z.to_nat k) ++ l).
  { intros k Hk <-. unfold md_pad. fold l. do 4 f_equal. rewrite Hn. now rewrite Zminus_mod_idemp_r. }
  unfold padded_state. destruct (Z.ltb_spec (B - len l) (num + 1)); cbv zeta.
  - set (d1 := [128] ++ repeat 0 (Z.to_nat (B - (num + 1)))). set (d2 := repeat 0 (Z.to_nat (B - len l)) ++ l).
    assert (Ld1 : len d1 = B - num) by (unfold d1; rewrite len_app, len_repeat; change (len [128]) with 1; lia).
    assert (Ld2 : len d2 = B) by (unfold d2; rewrite len_app, len_repeat; lia).
    replace (splice (set buf num 128) (num + 1) (repeat 0 (Z.to_nat (B - (num + 1))))) with (splice buf num d1).
    2: { rewrite mark_and_zeros by lia. rewrite splice_full by lia. fold d1. rewrite (drop_all _ buf) by lia. now rewrite app_nil_r. }
    rewrite Z.sub_0_r.
    replace (splice _ (B - len l) l) with (splice buf 0 d2).
    2: { assert (Hs : len (splice buf num d1) = B) by (rewrite len_splice; lia).
         assert (Hs' : len (splice (splice buf num d1) 0 (repeat 0 (Z.to_nat (B - len l)))) = B)
           by (rewrite len_splice; rewrite ?len_repeat; lia).
         rewrite (splice_full buf 0 d2), (splice_full (splice _ 0 _)) by lia.
         unfold d2. rewrite take_0. cbn [app]. f_equal. symmetry. unfold splice at 1. rewrite take_0. cbn [app].
         apply take_app_exact. rewrite len_repeat. lia. }
    apply (Hpad (d1 ++ d2)).
    + rewrite (Hz (2 * B - 1 - len l - num)); [| lia | symmetry; apply Z.mod_unique with (-1); lia].
      unfold d1, d2. replace (Z.to_nat (2 * B - 1 - len l - num)) with (Z.to_nat (B - (num + 1)) + Z.to_nat (B - len l))%nat by lia.
      rewrite repeat_app, <- !app_assoc. reflexivity.
    + rewrite app_assoc. apply absorbed_fill; [| lia | exact Hb]. apply absorbed_fill; [exact Ha | lia | exact Hb].
  - set (k := B - len l - (num + 1)). set (d := [128] ++ repeat 0 (Z.to_nat k) ++ l).
    assert (Ld : len d = B - num) by (unfold d; rewrite !len_app, len_repeat; change (len [128]) with 1; lia).
    replace (splice _ (B - len l) l) with (splice buf num d).
    + apply (Hpad d); [apply Hz; [lia |]; rewrite Z.mod_small; lia |]. apply absorbed_fill; [exact Ha | lia | exact Hb].
    + set (z := [128] ++ repeat 0 (Z.to_nat k)).
      assert (Lz : len (take num buf ++ z) = B - len l)
        by (unfold z; rewrite !len_app, len_take, len_repeat by lia; change (len [128]) with 1; lia).
      rewrite mark_and_zeros by lia. rewrite splice_full by lia. fold z. rewrite (app_assoc (take num buf) z).
      rewrite splice_full; [| lia | rewrite len_app, len_drop by lia; lia].
      rewrite take_app_exact by lia. unfold d, z. now rewrite <- !app_assoc.
Qed.

(** Two compression functions that agree on the states that occur. *)
Lemma blocks_ext (P : list Z -> Prop) (c2 : list Z -> list Z -> list Z) :
  (forall st d, P st -> bytes_ok d -> len d = B -> compress st d = c2 st d /\ P (c2 st d)) ->
  forall n st d, P st -> bytes_ok d -> Z.of_nat n * B <= len d ->
  blocks n st d = Md32.blocks B c2 n st d /\ P (Md32.blocks B c2 n st d).
Proof.
  intros Hc. induction n as [| n IH]; intros st d HP Hd Hl; [now split |]. cbn [Md32.blocks].
  destruct (Hc st (take B d) HP ltac:(auto with bytes) ltac:(rewrite len_take; lia)) as [-> HP'].
  apply IH; [exact HP' | auto with bytes | rewrite len_drop; lia].
Qed.

Lemma md_hash_ext (P : list Z -> Prop) (c2 : list Z -> list Z -> list Z) enc h0 msg :
  (forall st d, P st -> bytes_ok d -> len d = B -> compress st d = c2 st d /\ P (c2 st d)) ->
  P h0 -> bytes_ok msg -> (forall v, bytes_ok (enc v)) ->
  md_hash B compress enc h0 msg = md_hash B c2 enc h0 msg /\ P (md_hash B c2 enc h0 msg).
Proof.
  intros Hc H0 Hm He. unfold md_hash. apply blocks_ext; [exact Hc | exact H0 | |].
  - unfold md_pad. rewrite !bytes_ok_app. splits; [exact Hm | repeat constructor; unfold byte_ok; lia | | apply He].
    apply Forall_forall. intros x Hx. apply repeat_spec in Hx. subst. unfold byte_ok. lia.
  - unfold whole. pose proof (split_len (md_pad B enc msg)). rewrite Z2Nat.id by lia. lia.
Qed.
End ConstructionFacts.

(** ** Words and lengths *)

(** [bswap_val o l]: the number the bytes [l] denote in order [o]. *)
Definition order_val (o : data_order) (l : list Z) : Z :=
  match o with DATA_ORDER_IS_BIG_ENDIAN => be_val l | DATA_ORDER_IS_LITTLE_ENDIAN => be_val (rev l) end.

Definition order_enc (o : data_order) (n : nat) (v : Z) : list Z :=
  match o with DATA_ORDER_IS_BIG_ENDIAN => be_enc n v | DATA_ORDER_IS_LITTLE_ENDIAN => rev (be_enc n v) end.

Lemma byte_shift l k : 0 <= k -> u8 (Z.land (Z.shiftr l k) 255) = l / 2 ^ k mod 256.
Proof.
  intros. change 255 with (Z.ones 8). rewrite Z.land_ones, Z.shiftr_div_pow2 by lia.
  unfold wrap. now rewrite Zmod_mod.
Qed.

Lemma HOST_l2c_enc o l : HOST_l2c o l = order_enc o 4 l.
Proof.
  assert (E : [u8 (Z.land (Z.shiftr l 24) 255); u8 (Z.land (Z.shiftr l 16) 255);
               u8 (Z.land (Z.shiftr l 8) 255); u8 (Z.land l 255)] = be_enc 4 l).
  { replace (u8 (Z.land l 255)) with (u8 (Z.land (Z.shiftr l 0) 255)) by (now rewrite Z.shiftr_0_r).
    rewrite !byte_shift by lia. rewrite !be_enc_cons. cbn [be_enc].
    change (256 ^ Z.of_nat 3) with (2 ^ 24). change (256 ^ Z.of_nat 2) with (2 ^ 16).
    change (256 ^ Z.of_nat 1) with (2 ^ 8). reflexivity. }
  destruct o; cbn [HOST_l2c order_enc]; rewrite <- E; reflexivity.
Qed.

Lemma HOST_c2l_val o c : bytes_ok c -> len c = 4 -> HOST_c2l o c = order_val o c.
Proof.
  intros Hb Hc. destruct c as [| b0 [| b1 [| b2 [| b3 [| ? ?]]]]]; rewrite ?len_cons, ?len_nil in Hc; pose_lens; try lia.
  assert (byte_ok b0 /\ byte_ok b1 /\ byte_ok b2 /\ byte_ok b3) as (H0 & H1 & H2 & H3).
  { unfold bytes_ok in Hb. rewrite !Forall_cons_iff in Hb. tauto. }
  unfold byte_ok in *.
  assert (E : forall x y z w, 0 <= x < 256 -> 0 <= y < 256 -> 0 <= z < 256 -> 0 <= w < 256 ->
    Z.lor (Z.lor (Z.lor (u32 (Z.shiftl x 24)) (u32 (Z.shiftl y 16))) (u32 (Z.shiftl z 8))) w = x * 2 ^ 24 + y * 2 ^ 16 + z * 2 ^ 8 + w).
  { intros x y z w Hx Hy Hz Hw.
    assert (S : forall a b n, 0 <= n -> 0 <= b < 2 ^ n -> Z.lor (a * 2 ^ n) b = a * 2 ^ n + b)
      by (intros; rewrite <- (Z.shiftl_mul_pow2 a n) at 1 by lia; now apply lor_disjoint_add).
    rewrite !Z.shiftl_mul_pow2, !(wrap_small 32) by (zconst; lia). rewrite S by (zconst; lia).
    replace (x * 2 ^ 24 + y * 2 ^ 16) with ((x * 2 ^ 8 + y) * 2 ^ 16) by lia. rewrite S by (zconst; lia).
    replace ((x * 2 ^ 8 + y) * 2 ^ 16 + z * 2 ^ 8) with ((x * 2 ^ 16 + y * 2 ^ 8 + z) * 2 ^ 8) by lia.
    rewrite S by (zconst; lia). lia. }
  destruct o; cbn [HOST_c2l order_val rev app]; unfold get;
    change (Z.to_nat 1) with 1%nat; change (Z.to_nat 2) with 2%nat; change (Z.to_nat 3) with 3%nat; cbn [Z.to_nat nth].
  - rewrite E by lia. unfold be_val. cbn [fold_left]. lia.
  - rewrite (Z.lor_comm _ (u32 (Z.shiftl b3 24))), (Z.lor_comm _ (u32 (Z.shiftl b2 16))), (Z.lor_comm b0), !Z.lor_assoc.
    rewrite E by lia. unfold be_val. cbn [fold_left]. lia.
Qed.

Lemma order_enc_len o n v : len (order_enc o n v) = Z.of_nat n.
Proof. destruct o; cbn [order_enc]; autorewrite with len; reflexivity. Qed.

(** The two 32-bit halves of the length, as the collector stores them. *)
Lemma length_halves o bits nl nh : nl = bits mod 2 ^ 32 -> nh = bits / 2 ^ 32 mod 2 ^ 32 ->
  length_field o bits = match o with
    | DATA_ORDER_IS_BIG_ENDIAN => HOST_l2c o nh ++ HOST_l2c o nl
    | DATA_ORDER_IS_LITTLE_ENDIAN => HOST_l2c o nl ++ HOST_l2c o nh end.
Proof.
  intros -> ->. rewrite !HOST_l2c_enc.
  assert (E : be_enc 8 bits = be_enc 4 (bits / 2 ^ 32 mod 2 ^ 32) ++ be_enc 4 (bits mod 2 ^ 32)).
  { change 8%nat with (4 + 4)%nat. rewrite be_enc_app. change (256 ^ Z.of_nat 4) with (2 ^ 32).
    f_equal; rewrite <- be_enc_mod; change (256 ^ Z.of_nat 4) with (2 ^ 32).
    - rewrite <- (be_enc_mod 4 (_ mod _)). change (256 ^ Z.of_nat 4) with (2 ^ 32). now rewrite Zmod_mod.
    - rewrite <- (be_enc_mod 4 (_ mod _)). change (256 ^ Z.of_nat 4) with (2 ^ 32). now rewrite Zmod_mod. }
  destruct o; cbn [length_field order_enc]; rewrite E; [reflexivity | apply rev_app_distr].
Qed.

#[export] Hint Rewrite order_enc_len : len.

(** ** The collector is the construction *)
Section CollectorFacts.
Context {f : list Z -> list Z -> nat -> list Z} {compress : list Z -> list Z -> list Z}.
Context `{BF : !BlockFunction f compress}.
Variable o : data_order.
Variable HASH_MAKE_STRING : HASH_CTX -> option (list Z).

(** The invariant of a context that started from [h0] and took [msg]: the unused
    part of the buffer is zero and the 64-bit counter holds the bits. *)
Definition collector_ok (h0 msg : list Z) (c : HASH_CTX) : Prop :=
  absorbed HASH_CBLOCK compress h0 msg (h c) (data c) (num c) /\
  drop (num c) (data c) = repeat 0 (Z.to_nat (HASH_CBLOCK - num c)) /\
  Nl c = 8 * len msg mod 2 ^ 32 /\ Nh c = 8 * len msg / 2 ^ 32 mod 2 ^ 32.

Lemma count_bits m n : 0 <= m -> 0 <= n < 2 ^ 64 ->
  let nl := 8 * m mod 2 ^ 32 in let nh := 8 * m / 2 ^ 32 mod 2 ^ 32 in
  let l := u32 (nl + u32 (Z.shiftl (u32 n) 3)) in
  l = 8 * (m + n) mod 2 ^ 32 /\
  u32 ((if l <? nl then u32 (nh + 1) else nh) + u32 (Z.shiftr n 29)) = 8 * (m + n) / 2 ^ 32 mod 2 ^ 32.
Proof.
  intros Hm Hn nl nh l.
  assert (El : l = 8 * (m + n) mod 2 ^ 32).
  { unfold l, nl. rewrite Z.shiftl_mul_pow2 by lia. word_lia. }
  assert (Ec : (l <? nl) = (2 ^ 32 <=? nl + 8 * n mod 2 ^ 32)).
  { rewrite El. unfold nl. apply eq_true_iff_eq. rewrite Z.ltb_lt, Z.leb_le. word_lia. }
  split; [exact El |]. rewrite Ec. unfold nl, nh. rewrite Z.shiftr_div_pow2 by lia.
  destruct (Z.leb_spec (2 ^ 32) (8 * m mod 2 ^ 32 + 8 * n mod 2 ^ 32)); word_lia.
Qed.

Lemma zero_tail buf num d : len buf = HASH_CBLOCK -> drop num buf = repeat 0 (Z.to_nat (HASH_CBLOCK - num)) ->
  0 <= num -> num + len d <= HASH_CBLOCK ->
  drop (num + len d) (splice buf num d) = repeat 0 (Z.to_nat (HASH_CBLOCK - (num + len d))).
Proof.
  unfold HASH_CBLOCK. intros Hl Hz Hn Hd. pose proof (len_nonneg d). unfold splice.
  rewrite app_assoc, drop_app_exact by (rewrite len_app, len_take; lia).
  rewrite <- drop_drop, Hz by lia. unfold drop. rewrite skipn_repeat. f_equal. lia.
Qed.

Lemma repeat_zero_block buf : len buf = HASH_CBLOCK -> splice buf 0 (repeat 0 (Z.to_nat HASH_CBLOCK)) = repeat 0 64.
Proof. intros Hl. rewrite splice_full; rewrite ?len_repeat; unfold HASH_CBLOCK in *; [reflexivity | lia | lia]. Qed.

(** Two branches of [HASH_UPDATE] share this: whole blocks and the rest. *)
Lemma finish_ok h0 msg st buf d : absorbed HASH_CBLOCK compress h0 msg st buf 0 -> buf = repeat 0 64 -> len d < 2 ^ 64 ->
  let n := len d / HASH_CBLOCK in
  let '(st', d') := if 0 <? n then (f st d (Z.to_nat n), drop (u64 (n * HASH_CBLOCK)) d) else (st, d) in
  let '(buf', num') := if negb (len d' =? 0) then (splice buf 0 d', len d') else (buf, 0) in
  absorbed HASH_CBLOCK compress h0 (msg ++ d) st' buf' num' /\
  drop num' buf' = repeat 0 (Z.to_nat (HASH_CBLOCK - num')).
Proof.
  intros Ha Hbuf Hd n. destruct (split_len HASH_CBLOCK eq_refl d) as (Hq & Hl & Hr). fold n in Hq, Hl, Hr.
  assert (Hd' : msg ++ d = (msg ++ take (HASH_CBLOCK * n) d) ++ drop (HASH_CBLOCK * n) d) by (rewrite <- app_assoc; now rewrite take_drop).
  assert (Hst : exists st' d', (if 0 <? n then (f st d (Z.to_nat n), drop (u64 (n * HASH_CBLOCK)) d) else (st, d)) = (st', d') /\
            d' = drop (HASH_CBLOCK * n) d /\ absorbed HASH_CBLOCK compress h0 (msg ++ take (HASH_CBLOCK * n) d) st' buf 0).
  { destruct (Z.ltb_spec 0 n).
    - do 2 eexists. split; [reflexivity |]. unfold HASH_CBLOCK in *. split; [f_equal; rewrite (wrap_small 64); zconst; lia |].
      replace (Z.to_nat n) with (S (Z.to_nat (n - 1))) by lia. rewrite block_iterates by lia.
      rewrite <- (blocks_take 64 compress ltac:(lia) _ st d (64 * n)) by lia.
      apply absorbed_blocks; [lia | exact Ha | rewrite len_take; lia].
    - do 2 eexists. split; [reflexivity |]. replace n with 0 by lia. rewrite Z.mul_0_r, take_0, app_nil_r. auto. }
  destruct Hst as (st' & d' & -> & -> & Ha').
  assert (Hl' : len (drop (HASH_CBLOCK * n) d) = len d mod HASH_CBLOCK) by (unfold HASH_CBLOCK in *; rewrite len_drop; lia).
  rewrite Hl'. destruct (Z.eqb_spec (len d mod HASH_CBLOCK) 0) as [Hz | Hz]; cbn [negb].
  - rewrite Hd', (len_0_nil (drop _ d)), app_nil_r by lia. split; [exact Ha' |]. now rewrite Hbuf.
  - rewrite Hd'. split.
    + rewrite <- Hl'. apply (absorbed_short HASH_CBLOCK compress eq_refl _ _ _ _ 0); [exact Ha' | lia].
    + rewrite <- Hl'. apply (zero_tail buf 0); unfold HASH_CBLOCK; rewrite ?Hbuf; [reflexivity | reflexivity | lia | unfold HASH_CBLOCK in *; lia].
Qed.

Lemma update_ok h0 msg c d : collector_ok h0 msg c -> len d < 2 ^ 64 -> collector_ok h0 (msg ++ d) (HASH_UPDATE f c d).
Proof.
  intros (Ha & Hz & Hnl & Hnh) Hd. pose proof (len_nonneg d) as Hd0. unfold HASH_UPDATE.
  destruct (Z.eqb_spec (len d) 0) as [E | E]; [rewrite (len_0_nil d E), app_nil_r; exact (conj Ha (conj Hz (conj Hnl Hnh))) |].
  destruct (count_bits (len msg) (len d) (len_nonneg _) (conj Hd0 Hd)) as [El Eh].
  rewrite <- len_app, <- Hnl in El, Eh. rewrite <- Hnh in Eh.
  set (l := u32 (Nl c + _)) in *. set (nh := u32 ((if l <? _ then _ else _) + _)) in *. clearbody l nh.
  assert (Hblk : len (data c) = HASH_CBLOCK /\ 0 <= num c < HASH_CBLOCK).
  { destruct Ha as (_ & ? & -> & _). split; [assumption | apply Z.mod_pos_bound; reflexivity]. }
  destruct Hblk as [Hbl Hn]. unfold HASH_CBLOCK in Hbl, Hn.
  destruct (Z.eqb_spec (num c) 0) as [N0 | N0]; cbn [negb].
  - rewrite N0 in *. assert (Hb : data c = repeat 0 64) by (rewrite drop_0 in Hz; exact Hz).
    pose proof (finish_ok h0 msg (h c) (data c) d Ha Hb Hd) as F. cbn zeta in F.
    destruct (if 0 <? len d / HASH_CBLOCK then _ else _) as [st' d'].
    destruct (negb (len d' =? 0)); destruct F as [F1 F2]; repeat split; try assumption; apply F1.
  - assert (Hc : (HASH_CBLOCK <=? len d) || (HASH_CBLOCK <=? u64 (len d + num c)) = (HASH_CBLOCK <=? num c + len d)).
    { unfold HASH_CBLOCK. destruct (Z.leb_spec 64 (len d)); cbn [orb]; [symmetry; apply Z.leb_le; lia |].
      rewrite (wrap_small 64) by (zconst; lia). now rewrite Z.add_comm. }
    rewrite Hc. destruct (Z.leb_spec HASH_CBLOCK (num c + len d)) as [Hf | Hf].
    + unfold HASH_CBLOCK in Hf.
      set (d1 := take (HASH_CBLOCK - num c) d). set (d2 := drop (HASH_CBLOCK - num c) d).
      assert (Hd1 : len d1 = 64 - num c) by (unfold d1, HASH_CBLOCK; rewrite len_take; lia).
      assert (Hd2 : len d2 < 2 ^ 64) by (unfold d2, HASH_CBLOCK; rewrite len_drop; lia).
      assert (Hs : len (splice (data c) (num c) d1) = 64) by (rewrite len_splice; lia).
      assert (E1 : f (h c) (splice (data c) (num c) d1) 1 = compress (h c) (splice (data c) (num c) d1)).
      { rewrite block_iterates by lia. cbn [Md32.blocks]. now rewrite take_all by lia. }
      rewrite E1, repeat_zero_block by exact Hs.
      assert (Ha' := absorbed_fill HASH_CBLOCK compress eq_refl h0 msg (h c) (data c) (num c) d1 (repeat 0 64) Ha ltac:(unfold HASH_CBLOCK; lia) eq_refl).
      pose proof (finish_ok h0 (msg ++ d1) _ _ d2 Ha' eq_refl Hd2) as F. cbn zeta in F.
      rewrite <- app_assoc in F. replace (d1 ++ d2) with d in F by (symmetry; apply take_drop).
      destruct (if 0 <? len d2 / HASH_CBLOCK then _ else _) as [st' d'].
      destruct (negb (len d' =? 0)); destruct F as [F1 F2]; repeat split; try assumption; apply F1.
    + unfold HASH_CBLOCK in Hf. rewrite !(wrap_small 32) by (rewrite ?(wrap_small 32); zconst; lia).
      assert (Ha' := absorbed_short HASH_CBLOCK compress eq_refl h0 msg (h c) (data c) (num c) d Ha Hf).
      repeat split; cbn [h data num Nl Nh]; try assumption; try apply Ha'.
      apply zero_tail; unfold HASH_CBLOCK; try assumption; lia.
Qed.

Lemma length_field_len o' bits : len (length_field o' bits) = 8.
Proof. destruct o'; cbn [length_field]; autorewrite with len; reflexivity. Qed.

(** The two writes of the length at the end of a block. *)
Lemma length_write o' (nh nl bits : Z) (buf : list Z) : len buf = 64 ->
  nl = bits mod 2 ^ 32 -> nh = bits / 2 ^ 32 mod 2 ^ 32 ->
  match o' with
  | DATA_ORDER_IS_BIG_ENDIAN => splice (splice buf 56 (HOST_l2c o' nh)) (56 + 4) (HOST_l2c o' nl)
  | DATA_ORDER_IS_LITTLE_ENDIAN => splice (splice buf 56 (HOST_l2c o' nl)) (56 + 4) (HOST_l2c o' nh)
  end = splice buf 56 (length_field o' bits).
Proof.
  intros Hb Hl Hh. rewrite (length_halves o' bits nl nh Hl Hh).
  assert (L : forall x, len (HOST_l2c o' x) = 4) by (intros; rewrite HOST_l2c_enc; autorewrite with len; reflexivity).
  assert (W : forall x y, splice (splice buf 56 (HOST_l2c o' x)) (56 + 4) (HOST_l2c o' y) =
                          splice buf 56 (HOST_l2c o' x ++ HOST_l2c o' y)).
  { intros x y. replace (56 + 4) with (56 + len (HOST_l2c o' x)) by (now rewrite L).
    apply splice_splice_after; rewrite ?L; lia. }
  destruct o'; apply W.
Qed.

(** HASH_FINAL makes the digest of everything absorbed and clears the context. *)
Lemma final_ok h0 msg c : collector_ok h0 msg c ->
  let c' := mk_ctx (md_hash HASH_CBLOCK compress (length_field o) h0 msg) (Nl c) (Nh c) (repeat 0 64) 0 (md_len c) in
  HASH_FINAL o f HASH_MAKE_STRING c = (HASH_MAKE_STRING c', c').
Proof.
  intros (Ha & _ & Hnl & Hnh) c'.
  assert (Hb : len (data c) = 64 /\ 0 <= num c < 64).
  { destruct Ha as (_ & ? & -> & _). split; [assumption | apply Z.mod_pos_bound; reflexivity]. }
  destruct Hb as (Hb & Hr).
  assert (F1 : forall st b, len b = 64 -> f st b 1 = compress st b).
  { intros st b Hl. rewrite block_iterates by lia. cbn [Md32.blocks]. now rewrite take_all by lia. }
  pose proof (padded_state_hash HASH_CBLOCK compress eq_refl (length_field o) h0 msg (h c) (data c) (num c) Ha) as P.
  unfold padded_state in P. rewrite length_field_len in P. specialize (P eq_refl). unfold HASH_FINAL.
  assert (Hend : forall st b, len b = 64 -> compress st (splice b (HASH_CBLOCK - 8) (length_field o (8 * len msg))) =
            md_hash HASH_CBLOCK compress (length_field o) h0 msg ->
    let p := HASH_CBLOCK - 8 in
    let b := match o with
             | DATA_ORDER_IS_BIG_ENDIAN => splice (splice b p (HOST_l2c o (Nh c))) (p + 4) (HOST_l2c o (Nl c))
             | DATA_ORDER_IS_LITTLE_ENDIAN => splice (splice b p (HOST_l2c o (Nl c))) (p + 4) (HOST_l2c o (Nh c))
             end in
    let st := f st b 1 in
    let c1 := mk_ctx st (Nl c) (Nh c) (splice b 0 (repeat 0 (Z.to_nat HASH_CBLOCK))) 0 (md_len c) in
    (HASH_MAKE_STRING c1, c1) = (HASH_MAKE_STRING c', c')).
  { intros st b Hl E p. change p with 56. change (HASH_CBLOCK - 8) with 56 in E.
    rewrite (length_write o (Nh c) (Nl c) (8 * len msg)) by assumption. cbv zeta.
    assert (Hs : len (splice b 56 (length_field o (8 * len msg))) = 64) by (rewrite len_splice; rewrite ?length_field_len; lia).
    rewrite F1, E, repeat_zero_block by exact Hs. reflexivity. }
  assert (Hs1 : len (set (data c) (num c) 128) = 64) by (rewrite len_set; lia).
  unfold HASH_CBLOCK in *. destruct (64 - 8 <? num c + 1) eqn:Hc; cbv zeta beta iota in P |- *; apply Z.ltb_lt in Hc || apply Z.ltb_ge in Hc.
  - assert (Hs2 : len (splice (set (data c) (num c) 128) (num c + 1) (repeat 0 (Z.to_nat (64 - (num c + 1))))) = 64)
      by (rewrite len_splice; rewrite ?len_repeat; lia).
    rewrite (F1 (h c) _ Hs2). apply Hend; [rewrite len_splice; rewrite ?len_repeat; lia | exact P].
  - apply Hend; [rewrite len_splice; rewrite ?len_repeat; lia | exact P].
Qed.

Lemma fold_update_ok h0 chunks : forall msg c, collector_ok h0 msg c -> Forall (fun d => len d < 2 ^ 64) chunks ->
  collector_ok h0 (msg ++ concat chunks) (fold_left (HASH_UPDATE f) chunks c).
Proof.
  induction chunks as [| d l IH]; intros msg c Hc Hl; cbn [fold_left concat]; [now rewrite app_nil_r |].
  inversion_clear Hl. rewrite app_assoc. apply IH; [now apply update_ok | assumption].
Qed.

Definition fresh (h0 : list Z) (mdl : Z) : HASH_CTX := mk_ctx h0 0 0 (repeat 0 64) 0 mdl.

Lemma fresh_ok h0 mdl : collector_ok h0 [] (fresh h0 mdl).
Proof. repeat split. Qed.

Lemma update_md_len c d : md_len (HASH_UPDATE f c d) = md_len c.
Proof.
  unfold HASH_UPDATE. repeat match goal with |- context [if ?b then _ else _] => destruct b; cbn [md_len] end; try reflexivity.
Qed.

(** The whole life of a context. *)
Lemma collector_digest h0 mdl chunks : Forall (fun d => len d < 2 ^ 64) chunks ->
  let msg := concat chunks in
  let c := fold_left (HASH_UPDATE f) chunks (fresh h0 mdl) in
  let c' := mk_ctx (md_hash HASH_CBLOCK compress (length_field o) h0 msg) (8 * len msg mod 2 ^ 32)
              (8 * len msg / 2 ^ 32 mod 2 ^ 32) (repeat 0 64) 0 mdl in
  collector_ok h0 msg c /\ HASH_FINAL o f HASH_MAKE_STRING c = (HASH_MAKE_STRING c', c').
Proof.
  intros Hl msg c c'. pose proof (fold_update_ok h0 chunks [] _ (fresh_ok h0 mdl) Hl) as Hc. cbn [app] in Hc. fold msg c in Hc.
  split; [exact Hc |]. rewrite (final_ok h0 msg c Hc). destruct Hc as (_ & _ & -> & ->).
  replace (md_len c) with mdl; [reflexivity |]. symmetry. unfold c.
  assert (E : forall l c0, md_len (fold_left (HASH_UPDATE f) l c0) = md_len c0).
  { induction l as [| d l IH]; intros c0; cbn [fold_left]; [reflexivity |]. now rewrite IH, update_md_len. }
  now rewrite E.
Qed.
End CollectorFacts.

(** C21: the collector, for any block function that iterates a compression of
    64-byte blocks and either byte order: after any sequence of updates the
    context holds the compression of the whole blocks of what was given, the rest
    of it in front of a buffer that is otherwise zero, and the number of bits;
    HASH_FINAL then makes its string from the hash of the padded message and
    clears the context, whatever the split into calls. *)
Theorem md32_collects f compress o HASH_MAKE_STRING h0 mdl chunks : BlockFunction f compress ->
  Forall (fun d => len d < 2 ^ 64) chunks ->
  let msg := concat chunks in
  let c := fold_left (HASH_UPDATE f) chunks (mk_ctx h0 0 0 (repeat 0 64) 0 mdl) in
  (absorbed 64 compress h0 msg (h c) (data c) (num c) /\
   drop (num c) (data c) = repeat 0 (Z.to_nat (64 - num c)) /\
   Nl c + 2 ^ 32 * Nh c = u64 (8 * len msg)) /\
  exists nl nh,
    let c' := mk_ctx (md_hash 64 compress (length_field o) h0 msg) nl nh (repeat 0 64) 0 mdl in
    HASH_FINAL o f HASH_MAKE_STRING c = (HASH_MAKE_STRING c', c').
Proof.
  intros BF Hl msg c. destruct (collector_digest (f := f) o HASH_MAKE_STRING h0 mdl chunks Hl) as [(Ha & Hz & Hnl & Hnh) E].
  split; [split; [exact Ha |]; split; [exact Hz |] | do 2 eexists; exact E].
  unfold c. change (mk_ctx h0 0 0 (repeat 0 64) 0 mdl) with (fresh h0 mdl). rewrite Hnl, Hnh.
  fold msg. pose proof (len_nonneg msg). word_lia.
Qed.

(** A compression that adds up the bytes, one block at a time. *)
Definition sum_block (st d : list Z) : list Z := [fold_left Z.add d (get st 0 * 31)].

#[export] Instance sum_blocks : BlockFunction (fun st d n => blocks 64 sum_block n st d) sum_block.
Proof. now constructor. Qed.

Lemma md32_collects_witness :
  fst (HASH_FINAL DATA_ORDER_IS_LITTLE_ENDIAN (fun st d n => blocks 64 sum_block n st d) (fun c => Some (h c))
         (fold_left (HASH_UPDATE (fun st d n => blocks 64 sum_block n st d)) [repeat 7 60; repeat 9 70; [1; 2; 3]]
           (mk_ctx [0] 0 0 (repeat 0 64) 0 0))) =
  Some (md_hash 64 sum_block (length_field DATA_ORDER_IS_LITTLE_ENDIAN) [0] (repeat 7 60 ++ repeat 9 70 ++ [1; 2; 3])).
Proof.
  destruct (md32_collects (fun st d n => blocks 64 sum_block n st d) sum_block DATA_ORDER_IS_LITTLE_ENDIAN
    (fun c => Some (h c)) [0] 0 [repeat 7 60; repeat 9 70; [1; 2; 3]] sum_blocks
    ltac:(repeat constructor)) as [_ (nl & nh & E)].
  rewrite E. reflexivity.
Defined.
