(* ===== verification/Sha.v ===== *)
(** * SHA-1 and SHA-256 (crypto/fipsmodule/sha/sha1.c, sha256.c)

    The portable block functions, which keep the message schedule in sixteen
    words and rename the registers instead of moving them, and the functions that
    the collector's template gives for them. They compute the hash of FIPS 180-4,
    whose constants are checked against their definition as roots of primes. *)

From S2P Require Import Prelude Buffers DigestSpec Md32.

(** [ROTATE] of a [uint32_t], the same macro in every digest. *)
Definition ROTATE (a n : Z) : Z := Z.lor (u32 (Z.shiftl a n)) (Z.shiftr a (32 - n)).

(** ** SHA-1 *)
Module Sha1.
Definition Xupdate (ix ia ib ic id : Z) (X : list Z) : Z * list Z :=
  let a := Z.lxor (Z.lxor (Z.lxor (get X ia) (get X ib)) (get X ic)) (get X id) in
  let a := ROTATE a 1 in (a, set X ix a).

Definition K_00_19 : Z := 0x5a827999.
Definition K_20_39 : Z := 0x6ed9eba1.
Definition K_40_59 : Z := 0x8f1bbcdc.
Definition K_60_79 : Z := 0xca62c1d6.

Definition F_00_19 (b c d : Z) : Z := Z.lxor (Z.land (Z.lxor c d) b) d.
Definition F_20_39 (b c d : Z) : Z := Z.lxor (Z.lxor b c) d.
Definition F_40_59 (b c d : Z) : Z := Z.lor (Z.land b c) (Z.land (Z.lor b c) d).
Definition F_60_79 (b c d : Z) : Z := F_20_39 b c d.

(** Each body gives the new values of its [f] and [b], and the schedule. *)
Definition BODY_00_15 (a b c d e xi : Z) : Z * Z :=
  (u32 (xi + e + K_00_19 + ROTATE a 5 + F_00_19 b c d), ROTATE b 30).

Definition BODY_16_19 (a b c d e xi xa xb xc xd : Z) (X : list Z) : Z * Z * list Z :=
  let (f, X) := Xupdate xi xa xb xc xd X in
  (u32 (f + (e + K_00_19 + ROTATE a 5 + F_00_19 b c d)), ROTATE b 30, X).

Definition BODY_20_31 (a b c d e xi xa xb xc xd : Z) (X : list Z) : Z * Z * list Z :=
  let (f, X) := Xupdate xi xa xb xc xd X in
  (u32 (f + (e + K_20_39 + ROTATE a 5 + F_20_39 b c d)), ROTATE b 30, X).

Definition BODY_32_39 (a b c d e xa xb xc xd : Z) (X : list Z) : Z * Z * list Z :=
  let (f, X) := Xupdate xa xa xb xc xd X in
  (u32 (f + (e + K_20_39 + ROTATE a 5 + F_20_39 b c d)), ROTATE b 30, X).

Definition BODY_40_59 (a b c d e xa xb xc xd : Z) (X : list Z) : Z * Z * list Z :=
  let (f, X) := Xupdate xa xa xb xc xd X in
  (u32 (f + (e + K_40_59 + ROTATE a 5 + F_40_59 b c d)), ROTATE b 30, X).

Definition BODY_60_79 (a b c d e xa xb xc xd : Z) (X : list Z) : Z * Z * list Z :=
  let (f, X) := Xupdate xa xa xb xc xd X in
  (u32 (get X xa + e + K_60_79 + ROTATE a 5 + F_60_79 b c d), ROTATE b 30, X).

(** One turn of the loop. The sixteen loads come first: they only read [data]. *)
Definition sha1_block (state data : list Z) : list Z :=
  let X := load_words DATA_ORDER_IS_BIG_ENDIAN data in
  let A := get state 0 in
  let B := get state 1 in
  let C := get state 2 in
  let D := get state 3 in
  let E := get state 4 in
  let '(T, B) := BODY_00_15 A B C D E (get X 0) in
  let '(E, A) := BODY_00_15 T A B C D (get X 1) in
  let '(D, T) := BODY_00_15 E T A B C (get X 2) in
  let '(C, E) := BODY_00_15 D E T A B (get X 3) in
  let '(B, D) := BODY_00_15 C D E T A (get X 4) in
  let '(A, C) := BODY_00_15 B C D E T (get X 5) in
  let '(T, B) := BODY_00_15 A B C D E (get X 6) in
  let '(E, A) := BODY_00_15 T A B C D (get X 7) in
  let '(D, T) := BODY_00_15 E T A B C (get X 8) in
  let '(C, E) := BODY_00_15 D E T A B (get X 9) in
  let '(B, D) := BODY_00_15 C D E T A (get X 10) in
  let '(A, C) := BODY_00_15 B C D E T (get X 11) in
  let '(T, B) := BODY_00_15 A B C D E (get X 12) in
  let '(E, A) := BODY_00_15 T A B C D (get X 13) in
  let '(D, T) := BODY_00_15 E T A B C (get X 14) in
  let '(C, E) := BODY_00_15 D E T A B (get X 15) in
  let '(B, D, X) := BODY_16_19 C D E T A 0 0 2 8 13 X in
  let '(A, C, X) := BODY_16_19 B C D E T 1 1 3 9 14 X in
  let '(T, B, X) := BODY_16_19 A B C D E 2 2 4 10 15 X in
  let '(E, A, X) := BODY_16_19 T A B C D 3 3 5 11 0 X in
  let '(D, T, X) := BODY_20_31 E T A B C 4 4 6 12 1 X in
  let '(C, E, X) := BODY_20_31 D E T A B 5 5 7 13 2 X in
  let '(B, D, X) := BODY_20_31 C D E T A 6 6 8 14 3 X in
  let '(A, C, X) := BODY_20_31 B C D E T 7 7 9 15 4 X in
  let '(T, B, X) := BODY_20_31 A B C D E 8 8 10 0 5 X in
  let '(E, A, X) := BODY_20_31 T A B C D 9 9 11 1 6 X in
  let '(D, T, X) := BODY_20_31 E T A B C 10 10 12 2 7 X in
  let '(C, E, X) := BODY_20_31 D E T A B 11 11 13 3 8 X in
  let '(B, D, X) := BODY_20_31 C D E T A 12 12 14 4 9 X in
  let '(A, C, X) := BODY_20_31 B C D E T 13 13 15 5 10 X in
  let '(T, B, X) := BODY_20_31 A B C D E 14 14 0 6 11 X in
  let '(E, A, X) := BODY_20_31 T A B C D 15 15 1 7 12 X in
  let '(D, T, X) := BODY_32_39 E T A B C 0 2 8 13 X in
  let '(C, E, X) := BODY_32_39 D E T A B 1 3 9 14 X in
  let '(B, D, X) := BODY_32_39 C D E T A 2 4 10 15 X in
  let '(A, C, X) := BODY_32_39 B C D E T 3 5 11 0 X in
  let '(T, B, X) := BODY_32_39 A B C D E 4 6 12 1 X in
  let '(E, A, X) := BODY_32_39 T A B C D 5 7 13 2 X in
  let '(D, T, X) := BODY_32_39 E T A B C 6 8 14 3 X in
  let '(C, E, X) := BODY_32_39 D E T A B 7 9 15 4 X in
  let '(B, D, X) := BODY_40_59 C D E T A 8 10 0 5 X in
  let '(A, C, X) := BODY_40_59 B C D E T 9 11 1 6 X in
  let '(T, B, X) := BODY_40_59 A B C D E 10 12 2 7 X in
  let '(E, A, X) := BODY_40_59 T A B C D 11 13 3 8 X in
  let '(D, T, X) := BODY_40_59 E T A B C 12 14 4 9 X in
  let '(C, E, X) := BODY_40_59 D E T A B 13 15 5 10 X in
  let '(B, D, X) := BODY_40_59 C D E T A 14 0 6 11 X in
  let '(A, C, X) := BODY_40_59 B C D E T 15 1 7 12 X in
  let '(T, B, X) := BODY_40_59 A B C D E 0 2 8 13 X in
  let '(E, A, X) := BODY_40_59 T A B C D 1 3 9 14 X in
  let '(D, T, X) := BODY_40_59 E T A B C 2 4 10 15 X in
  let '(C, E, X) := BODY_40_59 D E T A B 3 5 11 0 X in
  let '(B, D, X) := BODY_40_59 C D E T A 4 6 12 1 X in
  let '(A, C, X) := BODY_40_59 B C D E T 5 7 13 2 X in
  let '(T, B, X) := BODY_40_59 A B C D E 6 8 14 3 X in
  let '(E, A, X) := BODY_40_59 T A B C D 7 9 15 4 X in
  let '(D, T, X) := BODY_40_59 E T A B C 8 10 0 5 X in
  let '(C, E, X) := BODY_40_59 D E T A B 9 11 1 6 X in
  let '(B, D, X) := BODY_40_59 C D E T A 10 12 2 7 X in
  let '(A, C, X) := BODY_40_59 B C D E T 11 13 3 8 X in
  let '(T, B, X) := BODY_60_79 A B C D E 12 14 4 9 X in
  let '(E, A, X) := BODY_60_79 T A B C D 13 15 5 10 X in
  let '(D, T, X) := BODY_60_79 E T A B C 14 0 6 11 X in
  let '(C, E, X) := BODY_60_79 D E T A B 15 1 7 12 X in
  let '(B, D, X) := BODY_60_79 C D E T A 0 2 8 13 X in
  let '(A, C, X) := BODY_60_79 B C D E T 1 3 9 14 X in
  let '(T, B, X) := BODY_60_79 A B C D E 2 4 10 15 X in
  let '(E, A, X) := BODY_60_79 T A B C D 3 5 11 0 X in
  let '(D, T, X) := BODY_60_79 E T A B C 4 6 12 1 X in
  let '(C, E, X) := BODY_60_79 D E T A B 5 7 13 2 X in
  let '(B, D, X) := BODY_60_79 C D E T A 6 8 14 3 X in
  let '(A, C, X) := BODY_60_79 B C D E T 7 9 15 4 X in
  let '(T, B, X) := BODY_60_79 A B C D E 8 10 0 5 X in
  let '(E, A, X) := BODY_60_79 T A B C D 9 11 1 6 X in
  let '(D, T, X) := BODY_60_79 E T A B C 10 12 2 7 X in
  let '(C, E, X) := BODY_60_79 D E T A B 11 13 3 8 X in
  let '(B, D, X) := BODY_60_79 C D E T A 12 14 4 9 X in
  let '(A, C, X) := BODY_60_79 B C D E T 13 15 5 10 X in
  let '(T, B, X) := BODY_60_79 A B C D E 14 0 6 11 X in
  let '(E, A, X) := BODY_60_79 T A B C D 15 1 7 12 X in
  [Z.land (get state 0 + E) 0xffffffff; Z.land (get state 1 + T) 0xffffffff; Z.land (get state 2 + A) 0xffffffff;
   Z.land (get state 3 + B) 0xffffffff; Z.land (get state 4 + C) 0xffffffff].

(** [for (;;) { ...; if (--num == 0) break; }]. With [num = 0] it would read
    2^64 blocks; no caller does so, and the model has no state to give then. *)
Definition sha1_block_data_order (state data : list Z) (num : nat) : list Z :=
  match num with
  | O => []
  | S _ => blocks 64 sha1_block num state data
  end.

Definition SHA1_Init : HASH_CTX := mk_ctx [0x67452301; 0xefcdab89; 0x98badcfe; 0x10325476; 0xc3d2e1f0] 0 0 (repeat 0 64) 0 0.

Definition HASH_MAKE_STRING (c : HASH_CTX) : option (list Z) :=
  let l2c i := HOST_l2c DATA_ORDER_IS_BIG_ENDIAN (get (h c) i) in
  Some (l2c 0 ++ l2c 1 ++ l2c 2 ++ l2c 3 ++ l2c 4).

Definition SHA1_Update := HASH_UPDATE sha1_block_data_order.
Definition SHA1_Transform := HASH_TRANSFORM sha1_block_data_order.
Definition SHA1_Final := HASH_FINAL DATA_ORDER_IS_BIG_ENDIAN sha1_block_data_order HASH_MAKE_STRING.

Definition SHA1 (data : list Z) : option (list Z) := fst (SHA1_Final (SHA1_Update SHA1_Init data)).
End Sha1.

(** ** SHA-256 *)
Module Sha256.
(** The 64 constants of the source, in decimal. *)
Definition K256 : list Z := [
   1116352408; 1899447441; 3049323471; 3921009573; 961987163; 1508970993; 2453635748; 2870763221;
   3624381080; 310598401; 607225278; 1426881987; 1925078388; 2162078206; 2614888103; 3248222580;
   3835390401; 4022224774; 264347078; 604807628; 770255983; 1249150122; 1555081692; 1996064986;
   2554220882; 2821834349; 2952996808; 3210313671; 3336571891; 3584528711; 113926993; 338241895;
   666307205; 773529912; 1294757372; 1396182291; 1695183700; 1986661051; 2177026350; 2456956037;
   2730485921; 2820302411; 3259730800; 3345764771; 3516065817; 3600352804; 4094571909; 275423344;
   430227734; 506948616; 659060556; 883997877; 958139571; 1322822218; 1537002063; 1747873779;
   1955562222; 2024104815; 2227730452; 2361852424; 2428436474; 2756734187; 3204031479; 3329325298].

Definition Sigma0 (x : Z) : Z := Z.lxor (Z.lxor (ROTATE x 30) (ROTATE x 19)) (ROTATE x 10).
Definition Sigma1 (x : Z) : Z := Z.lxor (Z.lxor (ROTATE x 26) (ROTATE x 21)) (ROTATE x 7).
Definition sigma0 (x : Z) : Z := Z.lxor (Z.lxor (ROTATE x 25) (ROTATE x 14)) (Z.shiftr x 3).
Definition sigma1 (x : Z) : Z := Z.lxor (Z.lxor (ROTATE x 15) (ROTATE x 13)) (Z.shiftr x 10).

Definition Ch (x y z : Z) : Z := Z.lxor (Z.land x y) (Z.land (u32 (Z.lnot x)) z).
Definition Maj (x y z : Z) : Z := Z.lxor (Z.lxor (Z.land x y) (Z.land x z)) (Z.land y z).

(** The new values of [d] and [h]. *)
Definition ROUND_00_15 (i a b c d e f g h T1 : Z) : Z * Z :=
  let T1 := u32 (T1 + (h + Sigma1 e + Ch e f g + get K256 i)) in
  let h := u32 (Sigma0 a + Maj a b c) in
  let d := u32 (d + T1) in
  let h := u32 (h + T1) in
  (d, h).

Definition ROUND_16_63 (i a b c d e f g h : Z) (X : list Z) : Z * Z * list Z :=
  let s0 := get X (Z.land (i + 1) 0x0f) in
  let s0 := sigma0 s0 in
  let s1 := get X (Z.land (i + 14) 0x0f) in
  let s1 := sigma1 s1 in
  let T1 := u32 (get X (Z.land i 0x0f) + (s0 + s1 + get X (Z.land (i + 9) 0x0f))) in
  let X := set X (Z.land i 0x0f) T1 in
  (ROUND_00_15 i a b c d e f g h T1, X).

(** [for (i = 16; i < 64; i += 8)], [n] turns from [i]. *)
Fixpoint rounds_16_63 (n : nat) (i a b c d e f g h : Z) (X : list Z) : Z * Z * Z * Z * Z * Z * Z * Z :=
  match n with
  | O => (a, b, c, d, e, f, g, h)
  | S n =>
      let '(d, h, X) := ROUND_16_63 (i + 0) a b c d e f g h X in
      let '(c, g, X) := ROUND_16_63 (i + 1) h a b c d e f g X in
      let '(b, f, X) := ROUND_16_63 (i + 2) g h a b c d e f X in
      let '(a, e, X) := ROUND_16_63 (i + 3) f g h a b c d e X in
      let '(h, d, X) := ROUND_16_63 (i + 4) e f g h a b c d X in
      let '(g, c, X) := ROUND_16_63 (i + 5) d e f g h a b c X in
      let '(f, b, X) := ROUND_16_63 (i + 6) c d e f g h a b X in
      let '(e, a, X) := ROUND_16_63 (i + 7) b c d e f g h a X in
      rounds_16_63 n (i + 8) a b c d e f g h X
  end.

Definition sha256_block (state data : list Z) : list Z :=
  let X := load_words DATA_ORDER_IS_BIG_ENDIAN data in
  let a := get state 0 in
  let b := get state 1 in
  let c := get state 2 in
  let d := get state 3 in
  let e := get state 4 in
  let f := get state 5 in
  let g := get state 6 in
  let h := get state 7 in
  let '(d, h) := ROUND_00_15 0 a b c d e f g h (get X 0) in
  let '(c, g) := ROUND_00_15 1 h a b c d e f g (get X 1) in
  let '(b, f) := ROUND_00_15 2 g h a b c d e f (get X 2) in
  let '(a, e) := ROUND_00_15 3 f g h a b c d e (get X 3) in
  let '(h, d) := ROUND_00_15 4 e f g h a b c d (get X 4) in
  let '(g, c) := ROUND_00_15 5 d e f g h a b c (get X 5) in
  let '(f, b) := ROUND_00_15 6 c d e f g h a b (get X 6) in
  let '(e, a) := ROUND_00_15 7 b c d e f g h a (get X 7) in
  let '(d, h) := ROUND_00_15 8 a b c d e f g h (get X 8) in
  let '(c, g) := ROUND_00_15 9 h a b c d e f g (get X 9) in
  let '(b, f) := ROUND_00_15 10 g h a b c d e f (get X 10) in
  let '(a, e) := ROUND_00_15 11 f g h a b c d e (get X 11) in
  let '(h, d) := ROUND_00_15 12 e f g h a b c d (get X 12) in
  let '(g, c) := ROUND_00_15 13 d e f g h a b c (get X 13) in
  let '(f, b) := ROUND_00_15 14 c d e f g h a b (get X 14) in
  let '(e, a) := ROUND_00_15 15 b c d e f g h a (get X 15) in
  let '(a, b, c, d, e, f, g, h) := rounds_16_63 6 16 a b c d e f g h X in
  [u32 (get state 0 + a); u32 (get state 1 + b); u32 (get state 2 + c); u32 (get state 3 + d);
   u32 (get state 4 + e); u32 (get state 5 + f); u32 (get state 6 + g); u32 (get state 7 + h)].

(** [while (num--)] over the blocks of [data]. *)
Definition sha256_block_data_order (state data : list Z) (num : nat) : list Z := blocks 64 sha256_block num state data.

Definition SHA224_DIGEST_LENGTH : Z := 28.
Definition SHA256_DIGEST_LENGTH : Z := 32.

Definition SHA224_Init : HASH_CTX :=
  mk_ctx [0xc1059ed8; 0x367cd507; 0x3070dd17; 0xf70e5939; 0xffc00b31; 0x68581511; 0x64f98fa7; 0xbefa4fa4]
    0 0 (repeat 0 64) 0 SHA224_DIGEST_LENGTH.

Definition SHA256_Init : HASH_CTX :=
  mk_ctx [0x6a09e667; 0xbb67ae85; 0x3c6ef372; 0xa54ff53a; 0x510e527f; 0x9b05688c; 0x1f83d9ab; 0x5be0cd19]
    0 0 (repeat 0 64) 0 SHA256_DIGEST_LENGTH.

Definition HASH_MAKE_STRING (c : HASH_CTX) : option (list Z) :=
  let out n := flat_map (fun nn => HOST_l2c DATA_ORDER_IS_BIG_ENDIAN (get (h c) (Z.of_nat nn))) (seq 0 (Z.to_nat n)) in
  if md_len c =? SHA224_DIGEST_LENGTH then Some (out (SHA224_DIGEST_LENGTH / 4))
  else if md_len c =? SHA256_DIGEST_LENGTH then Some (out (SHA256_DIGEST_LENGTH / 4))
  else if SHA256_DIGEST_LENGTH <? md_len c then None
  else Some (out (md_len c / 4)).

Definition SHA256_Update := HASH_UPDATE sha256_block_data_order.
Definition SHA256_Transform := HASH_TRANSFORM sha256_block_data_order.
Definition SHA256_Final := HASH_FINAL DATA_ORDER_IS_BIG_ENDIAN sha256_block_data_order HASH_MAKE_STRING.
Definition SHA224_Update := SHA256_Update.
Definition SHA224_Final := SHA256_Final.

Definition SHA224 (data : list Z) : option (list Z) := fst (SHA224_Final (SHA224_Update SHA224_Init data)).
Definition SHA256 (data : list Z) : option (list Z) := fst (SHA256_Final (SHA256_Update SHA256_Init data)).
End Sha256.

(** ** FIPS 180-4 *)

(** Sixteen big-endian words of a block. *)
Definition block_words (d : list Z) : list Z := map (fun i => be_val (load d (4 * Z.of_nat i) 4)) (seq 0 16).

Definition word32 (x : Z) : Prop := 0 <= x < 2 ^ 32.

Definition sha1_f (t x y z : Z) : Z :=
  if t <? 20 then Ch x y z else if t <? 40 then Parity x y z else if t <? 60 then Maj x y z else Parity x y z.

(** 2^30 times the square roots of 2, 3, 5 and 10. *)
Definition sha1_K (t : Z) : Z :=
  root 2 ((if t <? 20 then 2 else if t <? 40 then 3 else if t <? 60 then 5 else 10) * 2 ^ 60).

Definition sha1_next (W : list Z) : Z :=
  rotl 32 1 (Z.lxor (Z.lxor (Z.lxor (get W 13) (get W 8)) (get W 2)) (get W 0)).

Definition sha1_step (W : Z -> Z) (t : Z) (s : Z * Z * Z * Z * Z) : Z * Z * Z * Z * Z :=
  let '(a, b, c, d, e) := s in
  (u32 (rotl 32 5 a + sha1_f t b c d + e + sha1_K t + W t), a, rotl 32 30 b, c, d).

Definition sha1_compress (st d : list Z) : list Z :=
  let W t := get (schedule sha1_next (block_words d) 64) t in
  let '(a, b, c, d, e) := rounds (sha1_step W) 80 (get st 0, get st 1, get st 2, get st 3, get st 4) in
  [u32 (get st 0 + a); u32 (get st 1 + b); u32 (get st 2 + c); u32 (get st 3 + d); u32 (get st 4 + e)].

Definition fips_sha1 (msg : list Z) : list Z :=
  flat_map (be_enc 4) (md_hash 64 sha1_compress (be_enc 8)
    [0x67452301; 0xefcdab89; 0x98badcfe; 0x10325476; 0xc3d2e1f0] msg).

Definition sha256_K (t : Z) : Z := get (map (frac_root 32 3) (primes_below 312)) t.
Definition sha256_H : list Z := map (frac_root 32 2) (primes_below 20).

(** The second 32 bits of the fractional parts for the ninth to sixteenth primes. *)
Definition sha224_H : list Z := map (fun p => frac_root 64 2 p mod 2 ^ 32) (drop 8 (primes_below 54)).

Definition sha256_Sigma0 (x : Z) : Z := Z.lxor (Z.lxor (rotr 32 2 x) (rotr 32 13 x)) (rotr 32 22 x).
Definition sha256_Sigma1 (x : Z) : Z := Z.lxor (Z.lxor (rotr 32 6 x) (rotr 32 11 x)) (rotr 32 25 x).
Definition sha256_sigma0 (x : Z) : Z := Z.lxor (Z.lxor (rotr 32 7 x) (rotr 32 18 x)) (x / 2 ^ 3).
Definition sha256_sigma1 (x : Z) : Z := Z.lxor (Z.lxor (rotr 32 17 x) (rotr 32 19 x)) (x / 2 ^ 10).

Definition sha256_next (W : list Z) : Z :=
  u32 (sha256_sigma1 (get W 14) + get W 9 + sha256_sigma0 (get W 1) + get W 0).

Definition regs8 : Type := (Z * Z * Z * Z * Z * Z * Z * Z)%type.

Definition sha256_step (W : Z -> Z) (t : Z) (s : regs8) : regs8 :=
  let '(a, b, c, d, e, f, g, h) := s in
  let T1 := h + sha256_Sigma1 e + Ch e f g + sha256_K t + W t in
  let T2 := sha256_Sigma0 a + Maj a b c in
  (u32 (T1 + T2), a, b, c, u32 (d + T1), e, f, g).

Definition get8 (st : list Z) : regs8 :=
  (get st 0, get st 1, get st 2, get st 3, get st 4, get st 5, get st 6, get st 7).

Definition sha256_compress (st d : list Z) : list Z :=
  let W t := get (schedule sha256_next (block_words d) 48) t in
  let '(a, b, c, d, e, f, g, h) := rounds (sha256_step W) 64 (get8 st) in
  [u32 (get st 0 + a); u32 (get st 1 + b); u32 (get st 2 + c); u32 (get st 3 + d);
   u32 (get st 4 + e); u32 (get st 5 + f); u32 (get st 6 + g); u32 (get st 7 + h)].

Definition fips_sha256 (msg : list Z) : list Z :=
  flat_map (be_enc 4) (md_hash 64 sha256_compress (be_enc 8) sha256_H msg).
Definition fips_sha224 (msg : list Z) : list Z :=
  take 28 (flat_map (be_enc 4) (md_hash 64 sha256_compress (be_enc 8) sha224_H msg)).

(** ** Constants *)

Lemma K256_roots : map (frac_root 32 3) (primes_below 312) = Sha256.K256.
Proof. vm_compute. reflexivity. Qed.

Lemma K256_K t : get Sha256.K256 t = sha256_K t.
Proof. unfold sha256_K. now rewrite K256_roots. Qed.

Lemma sha256_H_init : h Sha256.SHA256_Init = sha256_H /\ h Sha256.SHA224_Init = sha224_H.
Proof. split; vm_compute; reflexivity. Qed.

Lemma sha1_K_values : sha1_K 0 = Sha1.K_00_19 /\ sha1_K 20 = Sha1.K_20_39 /\ sha1_K 40 = Sha1.K_40_59 /\ sha1_K 60 = Sha1.K_60_79.
Proof. repeat split; vm_compute; reflexivity. Qed.
(** ** SHA-1: the code is the standard *)

Create HintDb words discriminated.

Lemma ROTATE_rotl a n : 0 < n < 32 -> word32 a -> ROTATE a n = rotl 32 n a.
Proof. intros. now apply rotate_rotl. Qed.

Lemma u32_word x : word32 (u32 x).
Proof. apply wrap_range. lia. Qed.

Lemma lxor_word x y : word32 x -> word32 y -> word32 (Z.lxor x y).
Proof. intros. now apply lxor_range. Qed.

Lemma rotl_word n x : 0 < n < 32 -> word32 x -> word32 (rotl 32 n x).
Proof. intros. now apply rotl_range. Qed.

#[export] Hint Resolve u32_word lxor_word rotl_word : words.

Section Sha1Rounds.
Variable M : list Z.
Hypothesis M_len : len M = 16.
Variable s0 : Z * Z * Z * Z * Z.

Definition words5 (s : Z * Z * Z * Z * Z) : Prop :=
  let '(a, b, c, d, e) := s in word32 a /\ word32 b /\ word32 c /\ word32 d /\ word32 e.

Abbreviation W := (word sha1_next M).

(** Before round [t] the registers hold [s] and the ring the words before [max 16 t]. *)
Definition sha1_inv (t : nat) (s : Z * Z * Z * Z * Z) (X : list Z) : Prop :=
  s = rounds (sha1_step W) t s0 /\ words5 s /\ ring sha1_next M X (Z.max 16 (Z.of_nat t)) /\
  (forall i, 0 <= i -> word32 (W i)).

Lemma sha1_round t a b c d e X X' x f : sha1_inv t (a, b, c, d, e) X ->
  f = u32 (x + (e + sha1_K (Z.of_nat t) + ROTATE a 5 + sha1_f (Z.of_nat t) b c d)) -> x = W (Z.of_nat t) ->
  ring sha1_next M X' (Z.max 16 (Z.of_nat (S t))) ->
  sha1_inv (S t) (f, a, ROTATE b 30, c, d) X'.
Proof.
  intros (Hs & (Ha & Hb & Hc & Hd & He) & _ & HW) -> -> Hr'. unfold sha1_inv. cbn [rounds]. rewrite <- Hs.
  unfold sha1_step. rewrite !ROTATE_rotl by (assumption || lia). split; [| split; [| split]]; try assumption.
  - do 4 f_equal. f_equal. lia.
  - cbn [words5]. splits; auto with words. apply rotl_word; [lia | assumption].
Qed.

Lemma sha1_first t a b c d e X : sha1_inv t (a, b, c, d, e) X -> (t < 16)%nat ->
  let '(f, b') := Sha1.BODY_00_15 a b c d e (get X (Z.of_nat t)) in sha1_inv (S t) (f, a, b', c, d) X.
Proof.
  intros H Ht. cbn [Sha1.BODY_00_15]. destruct H as (Hs & Hw & Hr & HW).
  apply (sha1_round t a b c d e X X (get X (Z.of_nat t))).
  - exact (conj Hs (conj Hw (conj Hr HW))).
  - f_equal. destruct sha1_K_values as (E & _). unfold sha1_K, sha1_f in *.
    destruct (Z.ltb_spec (Z.of_nat t) 20); [| lia]. rewrite <- E. change (0 <? 20) with true. cbv iota.
    unfold Sha1.F_00_19. rewrite Ch_mux. lia.
  - destruct Hr as [_ Hr]. rewrite <- (Hr (Z.of_nat t)) by lia. now rewrite Z.mod_small by lia.
  - now replace (Z.max 16 (Z.of_nat (S t))) with (Z.max 16 (Z.of_nat t)) by lia.
Qed.

(** The word [Xupdate] makes and stores is the next one of the schedule. *)
Lemma Xupdate_word t s X ia ib ic id : sha1_inv t s X -> (16 <= t)%nat ->
  ia = Z.of_nat t mod 16 -> ib = (Z.of_nat t + 2) mod 16 -> ic = (Z.of_nat t + 8) mod 16 -> id = (Z.of_nat t + 13) mod 16 ->
  Sha1.Xupdate ia ia ib ic id X = (W (Z.of_nat t), set X ia (W (Z.of_nat t))) /\
  ring sha1_next M (set X ia (W (Z.of_nat t))) (Z.max 16 (Z.of_nat (S t))).
Proof.
  intros (_ & _ & Hr & HW) Ht -> -> -> ->. replace (Z.max 16 (Z.of_nat t)) with (Z.of_nat t) in Hr by lia.
  assert (E : W (Z.of_nat t) = sha1_next (window sha1_next M (Z.of_nat t))) by (apply word_next; lia).
  split.
  - assert (Hx : forall k, 0 <= k < 16 -> word32 (get (window sha1_next M (Z.of_nat t)) k)).
    { intros k Hk. rewrite <- (ring_get sha1_next M X (Z.of_nat t) k Hr Hk).
      destruct Hr as [_ Hr]. replace ((Z.of_nat t + k) mod 16) with ((Z.of_nat t - 16 + k) mod 16).
      - rewrite Hr by lia. apply HW. lia.
      - replace (Z.of_nat t + k) with (Z.of_nat t - 16 + k + 1 * 16) by lia. now rewrite Z.mod_add. }
    pose proof (ring_get sha1_next M X (Z.of_nat t) 0 Hr ltac:(lia)) as G0. rewrite Z.add_0_r in G0.
    unfold Sha1.Xupdate. cbv zeta.
    rewrite G0, !(ring_get sha1_next M X (Z.of_nat t) _ Hr) by lia.
    replace (ROTATE _ 1) with (W (Z.of_nat t)); [reflexivity |].
    rewrite E. unfold sha1_next. rewrite ROTATE_rotl by first [lia | repeat apply lxor_word; apply Hx; lia]. f_equal.
    set (w0 := get _ 0). set (w2 := get _ 2). set (w8 := get _ 8). set (w13 := get _ 13). bits.
  - rewrite E at 1. replace (Z.max 16 (Z.of_nat (S t))) with (Z.of_nat t + 1) by lia. apply ring_step; [exact M_len | exact Hr | lia].
Qed.

Definition slots (t : nat) (xa xb xc xd : Z) : Prop :=
  xa = Z.of_nat t mod 16 /\ xb = (Z.of_nat t + 2) mod 16 /\ xc = (Z.of_nat t + 8) mod 16 /\ xd = (Z.of_nat t + 13) mod 16.

(** The five bodies from round 16 on differ in the function and the constant. *)
Ltac body_step F :=
  let H := fresh in let Ht := fresh in intros H Ht (-> & -> & -> & ->);
  destruct (Xupdate_word _ _ _ _ _ _ _ H ltac:(lia) eq_refl eq_refl eq_refl eq_refl) as [E Hr];
  unfold Sha1.BODY_16_19, Sha1.BODY_20_31, Sha1.BODY_32_39, Sha1.BODY_40_59, Sha1.BODY_60_79; rewrite E;
  destruct sha1_K_values as (K0 & K1 & K2 & K3);
  eapply sha1_round; [exact H | | reflexivity | exact Hr];
  unfold sha1_f, sha1_K in *; change (0 <? 20) with true in K0; change (20 <? 20) with false in K1;
  change (20 <? 40) with true in K1; change (40 <? 20) with false in K2; change (40 <? 40) with false in K2;
  change (40 <? 60) with true in K2; change (60 <? 20) with false in K3; change (60 <? 40) with false in K3;
  change (60 <? 60) with false in K3; cbv iota in *;
  repeat match goal with |- context [Z.of_nat ?x <? ?y] => destruct (Z.ltb_spec (Z.of_nat x) y); try lia end;
  F.

Lemma sha1_16_19 t a b c d e xa xb xc xd X : sha1_inv t (a, b, c, d, e) X -> (16 <= t < 20)%nat -> slots t xa xb xc xd ->
  let '(f, b', X') := Sha1.BODY_16_19 a b c d e xa xa xb xc xd X in sha1_inv (S t) (f, a, b', c, d) X'.
Proof. body_step ltac:(rewrite K0; unfold Sha1.F_00_19; now rewrite Ch_mux). Qed.

Lemma sha1_20_31 t a b c d e xa xb xc xd X : sha1_inv t (a, b, c, d, e) X -> (20 <= t < 32)%nat -> slots t xa xb xc xd ->
  let '(f, b', X') := Sha1.BODY_20_31 a b c d e xa xa xb xc xd X in sha1_inv (S t) (f, a, b', c, d) X'.
Proof. body_step ltac:(rewrite K1; reflexivity). Qed.

Lemma sha1_32_39 t a b c d e xa xb xc xd X : sha1_inv t (a, b, c, d, e) X -> (32 <= t < 40)%nat -> slots t xa xb xc xd ->
  let '(f, b', X') := Sha1.BODY_32_39 a b c d e xa xb xc xd X in sha1_inv (S t) (f, a, b', c, d) X'.
Proof. body_step ltac:(rewrite K1; reflexivity). Qed.

Lemma sha1_40_59 t a b c d e xa xb xc xd X : sha1_inv t (a, b, c, d, e) X -> (40 <= t < 60)%nat -> slots t xa xb xc xd ->
  let '(f, b', X') := Sha1.BODY_40_59 a b c d e xa xb xc xd X in sha1_inv (S t) (f, a, b', c, d) X'.
Proof. body_step ltac:(rewrite K2; unfold Sha1.F_40_59; now rewrite Maj_or). Qed.

Lemma sha1_60_79 t a b c d e xa xb xc xd X : sha1_inv t (a, b, c, d, e) X -> (60 <= t < 80)%nat -> slots t xa xb xc xd ->
  let '(f, b', X') := Sha1.BODY_60_79 a b c d e xa xb xc xd X in sha1_inv (S t) (f, a, b', c, d) X'.
Proof.
  body_step ltac:(rewrite K3; rewrite get_set_same; [f_equal; unfold Sha1.F_60_79, Sha1.F_20_39, Parity; lia |]).
  destruct H as (_ & _ & [L _] & _). rewrite L. apply Z.mod_pos_bound. lia.
Qed.
End Sha1Rounds.

Lemma bytes_ok_load l a n : bytes_ok l -> bytes_ok (load l a n).
Proof. intros. unfold load. auto with bytes. Qed.

Lemma len_load (l : list Z) a n : 0 <= a -> 0 <= n -> a + n <= len l -> len (load l a n) = n.
Proof. intros. unfold load. rewrite len_take; [reflexivity |]. rewrite len_drop; lia. Qed.

Lemma block_words_len d : len (block_words d) = 16.
Proof. unfold block_words. rewrite len_map. reflexivity. Qed.

Lemma get_map_seq (g : nat -> Z) n i : 0 <= i < Z.of_nat n -> get (map g (seq 0 n)) i = g (Z.to_nat i).
Proof.
  intros. unfold get. rewrite (nth_indep _ 0 (g 0%nat)) by (rewrite length_map, length_seq; lia).
  now rewrite map_nth, seq_nth by lia.
Qed.

Lemma block_words_word d i : bytes_ok d -> len d = 64 -> 0 <= i < 16 -> word32 (get (block_words d) i).
Proof.
  intros Hd Hl Hi. unfold block_words. rewrite get_map_seq by lia.
  pose proof (be_val_range (load d (4 * Z.of_nat (Z.to_nat i)) 4) (bytes_ok_load _ _ _ Hd)) as R.
  rewrite len_load in R by lia. exact R.
Qed.

Lemma load_words_block d : bytes_ok d -> len d = 64 -> load_words DATA_ORDER_IS_BIG_ENDIAN d = block_words d.
Proof.
  intros Hd Hl. unfold load_words, block_words. apply map_ext_in. intros i Hi. apply in_seq in Hi.
  assert (E : HOST_c2l DATA_ORDER_IS_BIG_ENDIAN (drop (4 * Z.of_nat i) d) = HOST_c2l DATA_ORDER_IS_BIG_ENDIAN (load d (4 * Z.of_nat i) 4)).
  { unfold HOST_c2l, load. now rewrite !get_take by lia. }
  rewrite E, HOST_c2l_val; [reflexivity | now apply bytes_ok_load | apply len_load; lia].
Qed.

Lemma sha1_words_word M i : (forall j, 0 <= j < 16 -> word32 (get M j)) -> len M = 16 -> 0 <= i -> word32 (word sha1_next M i).
Proof.
  intros HM Hl Hi. apply (word_all sha1_next M Hl word32 HM); [| exact Hi]. intros l Hk. unfold sha1_next.
  apply rotl_word; [lia |]. repeat apply lxor_word; apply Hk; lia.
Qed.

Definition state_ok (n : Z) (st : list Z) : Prop := len st = n /\ Forall word32 st.

Lemma state_get n st i : state_ok n st -> 0 <= i < n -> word32 (get st i).
Proof.
  intros [Hl H] Hi. unfold get. rewrite Forall_forall in H. apply H, nth_In. unfold len in Hl. lia.
Qed.

(** One body of the chain in the goal, one round of the invariant [HI]. *)
Ltac sha1_body HI L s :=
  let H := fresh in pose proof (L s) as H; revert H; generalize s.

Ltac sha1_turn M HM s0 HI :=
  lazymatch type of HI with
  | sha1_inv _ _ ?t (?a, ?b, ?c, ?d, ?e) ?X =>
    let go H s := (cbn [Z.of_nat Pos.of_succ_nat Pos.succ] in H; destruct s as [[? ?] ?]; clear HI; rename H into HI) in
    lazymatch goal with
    | |- context [Sha1.BODY_00_15 a b c d e (get X ?k)] =>
        let H := fresh in
        pose proof (sha1_first M s0 t a b c d e X HI ltac:(lia)) as H;
        change (Z.of_nat t) with k in H;
        destruct (Sha1.BODY_00_15 a b c d e (get X k)) as [? ?]; clear HI; rename H into HI
    | |- context [?body a b c d e ?xi ?xa ?xb ?xc ?xd X] =>
        let H := fresh in
        pose proof (sha1_16_19 M HM s0 t a b c d e xa xb xc xd X HI ltac:(lia) ltac:(repeat split)) as H ||
        pose proof (sha1_20_31 M HM s0 t a b c d e xa xb xc xd X HI ltac:(lia) ltac:(repeat split)) as H;
        destruct (body a b c d e xi xa xb xc xd X) as [[? ?] ?]; clear HI; rename H into HI
    | |- context [?body a b c d e ?xa ?xb ?xc ?xd X] =>
        let H := fresh in
        pose proof (sha1_32_39 M HM s0 t a b c d e xa xb xc xd X HI ltac:(lia) ltac:(repeat split)) as H ||
        pose proof (sha1_40_59 M HM s0 t a b c d e xa xb xc xd X HI ltac:(lia) ltac:(repeat split)) as H ||
        pose proof (sha1_60_79 M HM s0 t a b c d e xa xb xc xd X HI ltac:(lia) ltac:(repeat split)) as H;
        destruct (body a b c d e xa xb xc xd X) as [[? ?] ?]; clear HI; rename H into HI
    end
  end.

Lemma sha1_block_correct st d : state_ok 5 st -> bytes_ok d -> len d = 64 -> Sha1.sha1_block st d = sha1_compress st d.
Proof.
  intros Hst Hd Hl. unfold Sha1.sha1_block, sha1_compress. rewrite load_words_block by assumption.
  pose proof (block_words_len d) as HM. pose proof (fun i => block_words_word d i Hd Hl) as HW. set (M := block_words d) in *. clearbody M.
  set (s0 := (get st 0, get st 1, get st 2, get st 3, get st 4)).
  assert (HI : sha1_inv M s0 0 (get st 0, get st 1, get st 2, get st 3, get st 4) M).
  { split; [reflexivity |]. split; [| split].
    - unfold words5. splits; apply (state_get 5); (assumption || lia).
    - apply ring_init. exact HM.
    - intros i Hi. apply sha1_words_word; [exact HW | exact HM | exact Hi]. }
  clearbody s0. cbv zeta.
  do 80 sha1_turn M HM s0 HI.
  destruct HI as (HI & _).
  set (W := fun t => _). replace (rounds (sha1_step W) 80 s0) with (rounds (sha1_step (word sha1_next M)) 80 s0).
  - rewrite <- HI. change 0xffffffff with (Z.ones 32). now rewrite !Z.land_ones by lia.
  - assert (E : forall n, (n <= 80)%nat -> rounds (sha1_step (word sha1_next M)) n s0 = rounds (sha1_step W) n s0).
    { induction n as [| n IH]; intros Hn; [reflexivity |]. cbn [rounds]. rewrite IH by lia. unfold sha1_step at 1 3, W.
      now rewrite schedule_word by lia. }
    now apply E.
Qed.

(** ** SHA-256: the code is the standard *)

Lemma shiftr_word x n : 0 <= n -> word32 x -> word32 (Z.shiftr x n).
Proof.
  intros Hn Hx. unfold word32 in *. rewrite Z.shiftr_div_pow2 by lia.
  pose proof (Z.pow_pos_nonneg 2 n ltac:(lia) Hn). split; [apply Z.div_pos; lia |]. apply Z.div_lt_upper_bound; nia.
Qed.

(** The four functions of one word: rotations to the left there, to the right here. *)
Lemma sigmas x : word32 x ->
  Sha256.Sigma0 x = sha256_Sigma0 x /\ Sha256.Sigma1 x = sha256_Sigma1 x /\
  Sha256.sigma0 x = sha256_sigma0 x /\ Sha256.sigma1 x = sha256_sigma1 x.
Proof.
  intros Hx. unfold Sha256.Sigma0, Sha256.Sigma1, Sha256.sigma0, Sha256.sigma1.
  rewrite !ROTATE_rotl, !Z.shiftr_div_pow2 by (assumption || lia). repeat split.
Qed.

Lemma u32_add_l a b : u32 (u32 a + b) = u32 (a + b).
Proof. apply Zplus_mod_idemp_l. Qed.

Lemma u32_add_r a b : u32 (a + u32 b) = u32 (a + b).
Proof. apply Zplus_mod_idemp_r. Qed.

Section Sha256Rounds.
Variable M : list Z.
Hypothesis M_len : len M = 16.
Hypothesis M_words : forall i, 0 <= i < 16 -> word32 (get M i).
Variable s0 : regs8.

Abbreviation W := (word sha256_next M).

Lemma sha256_words_word i : 0 <= i -> word32 (W i).
Proof. apply word_all; [exact M_len | exact M_words |]. intros. apply u32_word. Qed.

Definition words8 (s : regs8) : Prop :=
  let '(a, b, c, d, e, f, g, h) := s in
  word32 a /\ word32 b /\ word32 c /\ word32 d /\ word32 e /\ word32 f /\ word32 g /\ word32 h.

Definition sha256_inv (t : nat) (s : regs8) (X : list Z) : Prop :=
  s = rounds (sha256_step W) t s0 /\ words8 s /\ ring sha256_next M X (Z.max 16 (Z.of_nat t)).

Lemma sha256_round t a b c d e f g h X X' x : sha256_inv t (a, b, c, d, e, f, g, h) X -> x = W (Z.of_nat t) ->
  ring sha256_next M X' (Z.max 16 (Z.of_nat (S t))) ->
  let '(d', h') := Sha256.ROUND_00_15 (Z.of_nat t) a b c d e f g h x in
  sha256_inv (S t) (h', a, b, c, d', e, f, g) X'.
Proof.
  intros (Hs & (Ha & Hb & Hc & Hd & He & Hf & Hg & Hh) & _) -> Hr'. cbn [Sha256.ROUND_00_15].
  split; [| split; [| exact Hr']].
  - cbn [rounds]. rewrite <- Hs. unfold sha256_step.
    destruct (sigmas a Ha) as (<- & _). destruct (sigmas e He) as (_ & <- & _). rewrite K256_K.
    unfold Sha256.Ch. rewrite land_not by (assumption || lia). fold (Ch e f g). unfold Sha256.Maj. fold (Maj a b c).
    rewrite u32_add_l, !u32_add_r. repeat (apply f_equal2; [| reflexivity || (apply (f_equal (wrap 32)); lia)]). apply (f_equal (wrap 32)); lia.
  - cbn [words8]. splits; auto with words.
Qed.

Lemma sha256_first t a b c d e f g h X : sha256_inv t (a, b, c, d, e, f, g, h) X -> (t < 16)%nat ->
  let '(d', h') := Sha256.ROUND_00_15 (Z.of_nat t) a b c d e f g h (get X (Z.of_nat t)) in
  sha256_inv (S t) (h', a, b, c, d', e, f, g) X.
Proof.
  intros H Ht. pose proof H as (_ & _ & Hr). apply (sha256_round t a b c d e f g h X X _ H).
  - destruct Hr as [_ Hr]. rewrite <- (Hr (Z.of_nat t)) by lia. now rewrite Z.mod_small by lia.
  - now replace (Z.max 16 (Z.of_nat (S t))) with (Z.max 16 (Z.of_nat t)) by lia.
Qed.

Lemma land_15 x : Z.land x 0x0f = x mod 16.
Proof. change 0x0f with (Z.ones 4). now apply Z.land_ones. Qed.

Lemma sha256_next_eq w :
  sha256_next w = u32 (sha256_sigma1 (get w 14) + get w 9 + sha256_sigma0 (get w 1) + get w 0).
Proof. reflexivity. Qed.

Lemma sha256_later t i a b c d e f g h X : sha256_inv t (a, b, c, d, e, f, g, h) X -> (16 <= t)%nat -> i = Z.of_nat t ->
  let '(d', h', X') := Sha256.ROUND_16_63 i a b c d e f g h X in
  sha256_inv (S t) (h', a, b, c, d', e, f, g) X'.
Proof.
  intros H Ht ->. pose proof H as (_ & _ & Hr). replace (Z.max 16 (Z.of_nat t)) with (Z.of_nat t) in Hr by lia.
  unfold Sha256.ROUND_16_63. rewrite !land_15. cbv zeta.
  pose proof (ring_get _ _ X (Z.of_nat t) 0 Hr ltac:(lia)) as G0. rewrite Z.add_0_r in G0.
  rewrite G0, !(ring_get _ _ X (Z.of_nat t) _ Hr) by lia. rewrite !get_window by lia.
  destruct (sigmas _ (sha256_words_word (Z.of_nat t - 16 + 1) ltac:(lia))) as (_ & _ & -> & _).
  destruct (sigmas _ (sha256_words_word (Z.of_nat t - 16 + 14) ltac:(lia))) as (_ & _ & _ & ->).
  set (x := u32 _).
  assert (E : x = W (Z.of_nat t)).
  { rewrite word_next by (assumption || lia). unfold x. rewrite sha256_next_eq, !get_window by lia. apply (f_equal (wrap 32)). lia. }
  pose proof (sha256_round t a b c d e f g h X (set X (Z.of_nat t mod 16) x) x H E) as HS.
  destruct (Sha256.ROUND_00_15 (Z.of_nat t) a b c d e f g h x) as [d' h']. apply HS.
  rewrite E, word_next by (assumption || lia). replace (Z.max 16 (Z.of_nat (S t))) with (Z.of_nat t + 1) by lia.
  apply ring_step; [exact M_len | exact Hr | lia].
Qed.

Ltac sha256_turn t HI :=
  lazymatch goal with
  | |- context [Sha256.ROUND_16_63 ?i ?a ?b ?c ?d ?e ?f ?g ?h ?X] =>
      let H := fresh in
      pose proof (sha256_later t i a b c d e f g h X HI ltac:(lia) ltac:(lia)) as H;
      destruct (Sha256.ROUND_16_63 i a b c d e f g h X) as [[? ?] ?]; clear HI; rename H into HI
  end.

Lemma rounds_16_63_ok n : forall t i a b c d e f g h X, sha256_inv t (a, b, c, d, e, f, g, h) X -> (16 <= t)%nat -> i = Z.of_nat t ->
  exists X', sha256_inv (t + 8 * n) (Sha256.rounds_16_63 n i a b c d e f g h X) X'.
Proof.
  induction n as [| n IH]; intros t i a b c d e f g h X HI Ht Hi; [exists X; now rewrite Nat.mul_0_r, Nat.add_0_r |].
  cbn [Sha256.rounds_16_63].
  sha256_turn t HI. sha256_turn (S t) HI. sha256_turn (S (S t)) HI. sha256_turn (S (S (S t))) HI.
  sha256_turn (4 + t)%nat HI. sha256_turn (5 + t)%nat HI. sha256_turn (6 + t)%nat HI. sha256_turn (7 + t)%nat HI.
  replace (t + 8 * S n)%nat with (8 + t + 8 * n)%nat by lia. eapply IH; [exact HI | lia | lia].
Qed.
End Sha256Rounds.

Ltac sha256_first_turn M s0 HI :=
  lazymatch type of HI with
  | sha256_inv _ _ ?t (?a, ?b, ?c, ?d, ?e, ?f, ?g, ?h) ?X =>
    lazymatch goal with
    | |- context [Sha256.ROUND_00_15 ?k a b c d e f g h (get X ?k)] =>
        let H := fresh in
        pose proof (sha256_first M s0 t a b c d e f g h X HI ltac:(lia)) as H;
        change (Z.of_nat t) with k in H;
        destruct (Sha256.ROUND_00_15 k a b c d e f g h (get X k)) as [? ?]; clear HI; rename H into HI
    end
  end.

Lemma sha256_block_correct st d : state_ok 8 st -> bytes_ok d -> len d = 64 -> Sha256.sha256_block st d = sha256_compress st d.
Proof.
  intros Hst Hd Hl. unfold Sha256.sha256_block, sha256_compress. rewrite load_words_block by assumption.
  pose proof (block_words_len d) as HM. pose proof (fun i => block_words_word d i Hd Hl) as HW. set (M := block_words d) in *. clearbody M.
  unfold get8. set (s0 := (get st 0, get st 1, get st 2, get st 3, get st 4, get st 5, get st 6, get st 7)).
  assert (HI : sha256_inv M s0 0 (get st 0, get st 1, get st 2, get st 3, get st 4, get st 5, get st 6, get st 7) M).
  { split; [reflexivity |]. split; [| apply ring_init; exact HM].
    unfold words8. splits; apply (state_get 8); (assumption || lia). }
  clearbody s0. cbv zeta.
  do 16 sha256_first_turn M s0 HI.
  destruct (rounds_16_63_ok M HM HW s0 6 16 16 _ _ _ _ _ _ _ _ _ HI ltac:(lia) eq_refl) as (X' & (E & _)).
  rewrite E. change (16 + 8 * 6)%nat with 64%nat.
  set (W := fun t => _). replace (rounds (sha256_step W) 64 s0) with (rounds (sha256_step (word sha256_next M)) 64 s0); [reflexivity |].
  assert (EW : forall n, (n <= 64)%nat -> rounds (sha256_step (word sha256_next M)) n s0 = rounds (sha256_step W) n s0).
  { induction n as [| n IH]; intros Hn; [reflexivity |]. cbn [rounds]. rewrite IH by lia. unfold sha256_step at 1 3, W.
    now rewrite schedule_word by lia. }
  now apply EW.
Qed.

(** ** Whole digests *)

Ltac word_literals := repeat (apply Forall_cons; [split; vm_compute; congruence |]); apply Forall_nil.

Lemma state_words n l : Z.of_nat (length l) = n -> Forall word32 l -> state_ok n l.
Proof. intros <- H. split; [reflexivity | exact H]. Qed.

Lemma sha1_compress_ok st d : state_ok 5 st -> state_ok 5 (sha1_compress st d).
Proof.
  intros _. unfold sha1_compress. destruct (rounds _ _ _) as [[[[a b] c] e] f].
  apply state_words; [reflexivity |]. repeat constructor; apply u32_word.
Qed.

Lemma sha256_compress_ok st d : state_ok 8 st -> state_ok 8 (sha256_compress st d).
Proof.
  intros _. unfold sha256_compress. destruct (rounds _ _ _) as [[[[[[[a b] c] e] f] g] h] i].
  apply state_words; [reflexivity |]. repeat constructor; apply u32_word.
Qed.

#[export] Instance sha1_blocks : BlockFunction Sha1.sha1_block_data_order Sha1.sha1_block.
Proof. now constructor. Qed.

#[export] Instance sha256_blocks : BlockFunction Sha256.sha256_block_data_order Sha256.sha256_block.
Proof. now constructor. Qed.

Lemma sha1_hash msg : bytes_ok msg -> let H := md_hash 64 Sha1.sha1_block (be_enc 8) (h Sha1.SHA1_Init) msg in
  len H = 5 /\ flat_map (be_enc 4) H = fips_sha1 msg.
Proof.
  intros Hm H. destruct (md_hash_ext 64 Sha1.sha1_block eq_refl (state_ok 5) sha1_compress (be_enc 8) (h Sha1.SHA1_Init) msg) as [E HP].
  - intros st d Hst Hd Hl. split; [now apply sha1_block_correct | now apply sha1_compress_ok].
  - apply state_words; [reflexivity | word_literals].
  - exact Hm.
  - intros. apply be_enc_bytes.
  - unfold H. rewrite E. split; [apply HP | reflexivity].
Qed.

Lemma sha256_hash h0 msg : state_ok 8 h0 -> bytes_ok msg ->
  md_hash 64 Sha256.sha256_block (be_enc 8) h0 msg = md_hash 64 sha256_compress (be_enc 8) h0 msg /\
  len (md_hash 64 sha256_compress (be_enc 8) h0 msg) = 8.
Proof.
  intros H0 Hm. destruct (md_hash_ext 64 Sha256.sha256_block eq_refl (state_ok 8) sha256_compress (be_enc 8) h0 msg) as [E HP].
  - intros st d Hst Hd Hl. split; [now apply sha256_block_correct | now apply sha256_compress_ok].
  - exact H0.
  - exact Hm.
  - intros. apply be_enc_bytes.
  - split; [exact E | apply HP].
Qed.

(** Lists of a known length, element by element. *)
Ltac enum l :=
  repeat match goal with H : len l = _ |- _ => destruct l as [| ? l]; rewrite ?len_cons, ?len_nil in H; try (exfalso; pose_lens; lia) end.

Lemma bytes_ok_concat chunks : Forall bytes_ok chunks -> bytes_ok (concat chunks).
Proof. induction 1; cbn [concat]; [constructor |]. now apply bytes_ok_app. Qed.

Lemma sha256_string h nl nh : len h = 8 ->
  Sha256.HASH_MAKE_STRING (mk_ctx h nl nh (repeat 0 64) 0 32) = Some (flat_map (be_enc 4) h) /\
  Sha256.HASH_MAKE_STRING (mk_ctx h nl nh (repeat 0 64) 0 28) = Some (take 28 (flat_map (be_enc 4) h)).
Proof.
  intros Hl. unfold Sha256.HASH_MAKE_STRING. cbn [md_len Md32.h].
  destruct h as [| a [| b [| c [| d [| e [| f [| g [| i [| ? ?]]]]]]]]]; rewrite ?len_cons, ?len_nil in Hl; pose_lens; try lia.
  set (l := [a; b; c; d; e; f; g; i]).
  assert (E : forall n, flat_map (fun nn => HOST_l2c DATA_ORDER_IS_BIG_ENDIAN (get l (Z.of_nat nn))) (seq 0 n) =
                        flat_map (fun nn => be_enc 4 (get l (Z.of_nat nn))) (seq 0 n))
    by (intros n; apply flat_map_ext; intros; apply HOST_l2c_enc).
  cbv zeta. rewrite !E. split; reflexivity.
Qed.

(** The string each final function makes of the last state. *)
Lemma sha1_output msg nl nh : bytes_ok msg ->
  Sha1.HASH_MAKE_STRING (mk_ctx (md_hash HASH_CBLOCK Sha1.sha1_block (length_field DATA_ORDER_IS_BIG_ENDIAN) (h Sha1.SHA1_Init) msg)
    nl nh (repeat 0 64) 0 0) = Some (fips_sha1 msg).
Proof.
  intros Hb. destruct (sha1_hash msg Hb) as [Hn <-]. unfold Sha1.HASH_MAKE_STRING. cbn [Md32.h].
  change (length_field DATA_ORDER_IS_BIG_ENDIAN) with (be_enc 8). change HASH_CBLOCK with 64.
  set (H := md_hash _ _ _ _ _) in *. clearbody H. rewrite !HOST_l2c_enc.
  destruct H as [| a [| b [| c [| d [| e [| ? ?]]]]]]; rewrite ?len_cons, ?len_nil in Hn; pose_lens; try lia. reflexivity.
Qed.

Lemma sha256_output msg nl nh : bytes_ok msg ->
  Sha256.HASH_MAKE_STRING (mk_ctx (md_hash HASH_CBLOCK Sha256.sha256_block (length_field DATA_ORDER_IS_BIG_ENDIAN) (h Sha256.SHA256_Init) msg)
    nl nh (repeat 0 64) 0 32) = Some (fips_sha256 msg).
Proof.
  intros Hb. destruct sha256_H_init as [E _].
  assert (H0 : state_ok 8 (h Sha256.SHA256_Init)) by (apply state_words; [reflexivity | word_literals]). rewrite E in *.
  destruct (sha256_hash sha256_H msg H0 Hb) as [Eh Hn].
  change (length_field DATA_ORDER_IS_BIG_ENDIAN) with (be_enc 8). change HASH_CBLOCK with 64. rewrite Eh. unfold fips_sha256.
  set (H := md_hash 64 sha256_compress (be_enc 8) sha256_H msg) in *. clearbody H. exact (proj1 (sha256_string H _ _ Hn)).
Qed.

Lemma sha224_output msg nl nh : bytes_ok msg ->
  Sha256.HASH_MAKE_STRING (mk_ctx (md_hash HASH_CBLOCK Sha256.sha256_block (length_field DATA_ORDER_IS_BIG_ENDIAN) (h Sha256.SHA224_Init) msg)
    nl nh (repeat 0 64) 0 28) = Some (fips_sha224 msg).
Proof.
  intros Hb. destruct sha256_H_init as [_ E].
  assert (H0 : state_ok 8 (h Sha256.SHA224_Init)) by (apply state_words; [reflexivity | word_literals]). rewrite E in *.
  destruct (sha256_hash sha224_H msg H0 Hb) as [Eh Hn].
  change (length_field DATA_ORDER_IS_BIG_ENDIAN) with (be_enc 8). change HASH_CBLOCK with 64. rewrite Eh. unfold fips_sha224.
  set (H := md_hash 64 sha256_compress (be_enc 8) sha224_H msg) in *. clearbody H. exact (proj2 (sha256_string H _ _ Hn)).
Qed.

(** Lengths of the digests. *)
Lemma flat_map_enc n (l : list Z) : len (flat_map (be_enc n) l) = Z.of_nat n * len l /\ bytes_ok (flat_map (be_enc n) l).
Proof.
  induction l as [| x l [IH1 IH2]]; cbn [flat_map]; [split; [cbn; lia | constructor] |].
  rewrite len_app, be_enc_len, IH1, len_cons. split; [lia |]. apply bytes_ok_app. auto with bytes.
Qed.

Lemma fips_lens msg : bytes_ok msg ->
  (len (fips_sha1 msg) = 20 /\ bytes_ok (fips_sha1 msg)) /\ (len (fips_sha256 msg) = 32 /\ bytes_ok (fips_sha256 msg)) /\
  (len (fips_sha224 msg) = 28 /\ bytes_ok (fips_sha224 msg)).
Proof.
  intros Hb. destruct sha256_H_init as [E1 E2].
  assert (H1 : state_ok 8 sha256_H) by (rewrite <- E1; apply state_words; [reflexivity | word_literals]).
  assert (H2 : state_ok 8 sha224_H) by (rewrite <- E2; apply state_words; [reflexivity | word_literals]).
  splits.
  - destruct (sha1_hash msg Hb) as [Hn <-]. rewrite (proj1 (flat_map_enc 4 _)), Hn. reflexivity.
  - destruct (sha1_hash msg Hb) as [_ <-]. apply flat_map_enc.
  - unfold fips_sha256. rewrite (proj1 (flat_map_enc 4 _)), (proj2 (sha256_hash _ msg H1 Hb)). reflexivity.
  - apply flat_map_enc.
  - unfold fips_sha224. rewrite len_take; [reflexivity |]. rewrite (proj1 (flat_map_enc 4 _)), (proj2 (sha256_hash _ msg H2 Hb)). lia.
  - apply bytes_ok_take, flat_map_enc.
Qed.

(** C3: for every way of cutting a message into calls of the update functions,
    SHA-1, SHA-224 and SHA-256 return the digest that FIPS 180-4 defines for the
    whole message, whatever its length (the 64-bit length field wraps around as
    in the standard's own terms), and leave a cleared context. The block
    functions, with their renamed registers and sixteen-word schedules, and their
    constants are part of what is compared with the standard. *)
Theorem sha_stream_is_fips chunks :
  Forall bytes_ok chunks -> Forall (fun d => len d < 2 ^ 64) chunks ->
  let msg := concat chunks in
  let run init update final := final (fold_left update chunks init) in
  let cleared c := data c = repeat 0 64 /\ num c = 0 in
  (let (out, c) := run Sha1.SHA1_Init Sha1.SHA1_Update Sha1.SHA1_Final in out = Some (fips_sha1 msg) /\ cleared c) /\
  (let (out, c) := run Sha256.SHA256_Init Sha256.SHA256_Update Sha256.SHA256_Final in out = Some (fips_sha256 msg) /\ cleared c) /\
  (let (out, c) := run Sha256.SHA224_Init Sha256.SHA224_Update Sha256.SHA224_Final in out = Some (fips_sha224 msg) /\ cleared c).
Proof.
  intros Hb Hl msg run cleared. apply bytes_ok_concat in Hb. fold msg in Hb. splits.
  - destruct (collector_digest (f := Sha1.sha1_block_data_order) DATA_ORDER_IS_BIG_ENDIAN Sha1.HASH_MAKE_STRING (h Sha1.SHA1_Init) 0 chunks Hl) as [_ E].
    unfold run. change Sha1.SHA1_Init with (fresh (h Sha1.SHA1_Init) 0). unfold Sha1.SHA1_Final, Sha1.SHA1_Update. rewrite E.
    split; [now apply sha1_output | now split].
  - destruct (collector_digest (f := Sha256.sha256_block_data_order) DATA_ORDER_IS_BIG_ENDIAN Sha256.HASH_MAKE_STRING (h Sha256.SHA256_Init) 32 chunks Hl) as [_ E].
    unfold run. change Sha256.SHA256_Init with (fresh (h Sha256.SHA256_Init) 32). unfold Sha256.SHA256_Final, Sha256.SHA256_Update.
    rewrite E. split; [now apply sha256_output | now split].
  - destruct (collector_digest (f := Sha256.sha256_block_data_order) DATA_ORDER_IS_BIG_ENDIAN Sha256.HASH_MAKE_STRING (h Sha256.SHA224_Init) 28 chunks Hl) as [_ E].
    unfold run. change Sha256.SHA224_Init with (fresh (h Sha256.SHA224_Init) 28).
    unfold Sha256.SHA224_Final, Sha256.SHA224_Update, Sha256.SHA256_Final, Sha256.SHA256_Update.
    rewrite E. split; [now apply sha224_output | now split].
Qed.

(** The examples of FIPS 180-4: "abc". *)
Example sha256_abc : option_map be_val (Sha256.SHA256 [97; 98; 99]) =
  Some 0xba7816bf8f01cfea414140de5dae2223b00361a396177a9cb410ff61f20015ad.
Proof. vm_compute. reflexivity. Qed.

Example sha1_abc : option_map be_val (Sha1.SHA1 [97; 98; 99]) = Some 0xa9993e364706816aba3e25717850c26c9cd0d89d.
Proof. vm_compute. reflexivity. Qed.

Lemma sha_stream_is_fips_witness :
  Sha256.SHA256 [97; 98; 99] = Some (fips_sha256 [97; 98; 99]) /\
  fst (Sha1.SHA1_Final (fold_left Sha1.SHA1_Update [[97]; repeat 98 200; [99]] Sha1.SHA1_Init)) =
    Some (fips_sha1 ([97] ++ repeat 98 200 ++ [99])).
Proof.
  assert (Hb : forall x n, 0 <= x < 256 -> bytes_ok (repeat x n)).
  { intros x n Hx. apply Forall_forall. intros y Hy. apply repeat_spec in Hy. now subst. }
  split.
  - destruct (sha_stream_is_fips [[97; 98; 99]]) as (_ & H & _); [| repeat constructor |].
    + repeat constructor; unfold byte_ok; lia.
    + unfold Sha256.SHA256. cbn [fold_left] in H. destruct (Sha256.SHA256_Final _) as [out c]. exact (proj1 H).
  - destruct (sha_stream_is_fips [[97]; repeat 98 200; [99]]) as (H & _ & _); [| repeat constructor |].
    + repeat constructor; try (apply (Hb 98 200%nat)); unfold byte_ok; lia.
    + destruct (Sha1.SHA1_Final _) as [out c]. exact (proj1 H).
Defined.
