(* ===== verification/Sha512.v ===== *)
(** * SHA-384 and SHA-512 (crypto/fipsmodule/sha/sha512.c)

    The 64-bit digests have a collector of their own, with 128-byte blocks and a
    128-bit counter, whose buffer is not initialised. The construction and its
    lemmas are those of Md32; the block function is compared with FIPS 180-4. *)

From S2P Require Import Prelude Buffers DigestSpec Md32 Sha.

Record SHA512_CTX := mk_ctx512 { h : list Z; Nl : Z; Nh : Z; u : list Z; num : Z; md_len : Z }.

Definition SHA384_DIGEST_LENGTH : Z := 48.
Definition SHA512_DIGEST_LENGTH : Z := 64.

(** [sizeof(c->u)] *)
Definition sizeof_u : Z := 128.

(** [u] is what the buffer happens to hold. *)
Definition SHA384_Init (u : list Z) : SHA512_CTX :=
  mk_ctx512 [0xcbbb9d5dc1059ed8; 0x629a292a367cd507; 0x9159015a3070dd17; 0x152fecd8f70e5939;
             0x67332667ffc00b31; 0x8eb44a8768581511; 0xdb0c2e0d64f98fa7; 0x47b5481dbefa4fa4]
    0 0 u 0 SHA384_DIGEST_LENGTH.

Definition SHA512_Init (u : list Z) : SHA512_CTX :=
  mk_ctx512 [0x6a09e667f3bcc908; 0xbb67ae8584caa73b; 0x3c6ef372fe94f82b; 0xa54ff53a5f1d36f1;
             0x510e527fade682d1; 0x9b05688c2b3e6c1f; 0x1f83d9abfb41bd6b; 0x5be0cd19137e2179]
    0 0 u 0 SHA512_DIGEST_LENGTH.

Definition K512 : list Z :=
  [0x428a2f98d728ae22; 0x7137449123ef65cd; 0xb5c0fbcfec4d3b2f; 0xe9b5dba58189dbbc; 0x3956c25bf348b538;
   0x59f111f1b605d019; 0x923f82a4af194f9b; 0xab1c5ed5da6d8118; 0xd807aa98a3030242; 0x12835b0145706fbe;
   0x243185be4ee4b28c; 0x550c7dc3d5ffb4e2; 0x72be5d74f27b896f; 0x80deb1fe3b1696b1; 0x9bdc06a725c71235;
   0xc19bf174cf692694; 0xe49b69c19ef14ad2; 0xefbe4786384f25e3; 0x0fc19dc68b8cd5b5; 0x240ca1cc77ac9c65;
   0x2de92c6f592b0275; 0x4a7484aa6ea6e483; 0x5cb0a9dcbd41fbd4; 0x76f988da831153b5; 0x983e5152ee66dfab;
   0xa831c66d2db43210; 0xb00327c898fb213f; 0xbf597fc7beef0ee4; 0xc6e00bf33da88fc2; 0xd5a79147930aa725;
   0x06ca6351e003826f; 0x142929670a0e6e70; 0x27b70a8546d22ffc; 0x2e1b21385c26c926; 0x4d2c6dfc5ac42aed;
   0x53380d139d95b3df; 0x650a73548baf63de; 0x766a0abb3c77b2a8; 0x81c2c92e47edaee6; 0x92722c851482353b;
   0xa2bfe8a14cf10364; 0xa81a664bbc423001; 0xc24b8b70d0f89791; 0xc76c51a30654be30; 0xd192e819d6ef5218;
   0xd69906245565a910; 0xf40e35855771202a; 0x106aa07032bbd1b8; 0x19a4c116b8d2d0c8; 0x1e376c085141ab53;
   0x2748774cdf8eeb99; 0x34b0bcb5e19b48a8; 0x391c0cb3c5c95a63; 0x4ed8aa4ae3418acb; 0x5b9cca4f7763e373;
   0x682e6ff3d6b2b8a3; 0x748f82ee5defb2fc; 0x78a5636f43172f60; 0x84c87814a1f0ab72; 0x8cc702081a6439ec;
   0x90befffa23631e28; 0xa4506cebde82bde9; 0xbef9a3f7b2c67915; 0xc67178f2e372532b; 0xca273eceea26619c;
   0xd186b8c721c0c207; 0xeada7dd6cde0eb1e; 0xf57d4f7fee6ed178; 0x06f067aa72176fba; 0x0a637dc5a2c898a6;
   0x113f9804bef90dae; 0x1b710b35131c471b; 0x28db77f523047d84; 0x32caab7b40c72493; 0x3c9ebe0a15c9bebc;
   0x431d67c49c100d4c; 0x4cc5d4becb3e42b6; 0x597f299cfc657e2a; 0x5fcb6fab3ad6faec; 0x6c44198c4a475817].

(** [B(x, j)] and [PULL64(x)]: eight bytes, the first the most significant. *)
Definition B (x : list Z) (j : Z) : Z := u64 (Z.shiftl (get x j) ((7 - j) * 8)).
Definition PULL64 (x : list Z) : Z :=
  Z.lor (Z.lor (Z.lor (Z.lor (Z.lor (Z.lor (Z.lor (B x 0) (B x 1)) (B x 2)) (B x 3)) (B x 4)) (B x 5)) (B x 6)) (B x 7).

Definition ROTR (x s : Z) : Z := Z.lor (Z.shiftr x s) (u64 (Z.shiftl x (64 - s))).

Definition Sigma0 (x : Z) : Z := Z.lxor (Z.lxor (ROTR x 28) (ROTR x 34)) (ROTR x 39).
Definition Sigma1 (x : Z) : Z := Z.lxor (Z.lxor (ROTR x 14) (ROTR x 18)) (ROTR x 41).
Definition sigma0 (x : Z) : Z := Z.lxor (Z.lxor (ROTR x 1) (ROTR x 8)) (Z.shiftr x 7).
Definition sigma1 (x : Z) : Z := Z.lxor (Z.lxor (ROTR x 19) (ROTR x 61)) (Z.shiftr x 6).

Definition Ch (x y z : Z) : Z := Z.lxor (Z.land x y) (Z.land (u64 (Z.lnot x)) z).
Definition Maj (x y z : Z) : Z := Z.lxor (Z.lxor (Z.land x y) (Z.land x z)) (Z.land y z).

(** The new values of [d] and [h]. *)
Definition ROUND_00_15 (i a b c d e f g h T1 : Z) : Z * Z :=
  let T1 := u64 (T1 + (h + Sigma1 e + Ch e f g + get K512 i)) in
  let h := u64 (Sigma0 a + Maj a b c) in
  let d := u64 (d + T1) in
  let h := u64 (h + T1) in
  (d, h).

Definition ROUND_16_80 (i j a b c d e f g h : Z) (X : list Z) : Z * Z * list Z :=
  let s0 := get X (Z.land (j + 1) 0x0f) in
  let s0 := sigma0 s0 in
  let s1 := get X (Z.land (j + 14) 0x0f) in
  let s1 := sigma1 s1 in
  let T1 := u64 (get X (Z.land j 0x0f) + (s0 + s1 + get X (Z.land (j + 9) 0x0f))) in
  let X := set X (Z.land j 0x0f) T1 in
  (ROUND_00_15 (i + j) a b c d e f g h T1, X).

(** [for (i = 16; i < 80; i += 16)], [n] turns from [i]. *)
Fixpoint rounds_16_80 (n : nat) (i a b c d e f g h : Z) (X : list Z) : regs8 :=
  match n with
  | O => (a, b, c, d, e, f, g, h)
  | S n =>
      let '(d, h, X) := ROUND_16_80 i 0 a b c d e f g h X in
      let '(c, g, X) := ROUND_16_80 i 1 h a b c d e f g X in
      let '(b, f, X) := ROUND_16_80 i 2 g h a b c d e f X in
      let '(a, e, X) := ROUND_16_80 i 3 f g h a b c d e X in
      let '(h, d, X) := ROUND_16_80 i 4 e f g h a b c d X in
      let '(g, c, X) := ROUND_16_80 i 5 d e f g h a b c X in
      let '(f, b, X) := ROUND_16_80 i 6 c d e f g h a b X in
      let '(e, a, X) := ROUND_16_80 i 7 b c d e f g h a X in
      let '(d, h, X) := ROUND_16_80 i 8 a b c d e f g h X in
      let '(c, g, X) := ROUND_16_80 i 9 h a b c d e f g X in
      let '(b, f, X) := ROUND_16_80 i 10 g h a b c d e f X in
      let '(a, e, X) := ROUND_16_80 i 11 f g h a b c d e X in
      let '(h, d, X) := ROUND_16_80 i 12 e f g h a b c d X in
      let '(g, c, X) := ROUND_16_80 i 13 d e f g h a b c X in
      let '(f, b, X) := ROUND_16_80 i 14 c d e f g h a b X in
      let '(e, a, X) := ROUND_16_80 i 15 b c d e f g h a X in
      rounds_16_80 n (i + 16) a b c d e f g h X
  end.

(** One block: [W] is its 128 bytes, read as sixteen words. *)
Definition sha512_block (state W : list Z) : list Z :=
  let X := map (fun i => PULL64 (drop (8 * Z.of_nat i) W)) (seq 0 16) in
  let a := get state 0 in
  let b := get state 1 in
  let c := get state 2 in
  let d := get state 3 in
  let e := get state 4 in
  let f := get state 5 in
  let g := get state 6 in
  let h := get state 7 in
  let '(d, h) := ROUND_00_15 0 a b c d e f g h (get X 0) in
  let '(c, g) := ROUND_00_15 1 h a b c d e f g (get X 1) in
  let '(b, f) := ROUND_00_15 2 g h a b c d e f (get X 2) in
  let '(a, e) := ROUND_00_15 3 f g h a b c d e (get X 3) in
  let '(h, d) := ROUND_00_15 4 e f g h a b c d (get X 4) in
  let '(g, c) := ROUND_00_15 5 d e f g h a b c (get X 5) in
  let '(f, b) := ROUND_00_15 6 c d e f g h a b (get X 6) in
  let '(e, a) := ROUND_00_15 7 b c d e f g h a (get X 7) in
  let '(d, h) := ROUND_00_15 8 a b c d e f g h (get X 8) in
  let '(c, g) := ROUND_00_15 9 h a b c d e f g (get X 9) in
  let '(b, f) := ROUND_00_15 10 g h a b c d e f (get X 10) in
  let '(a, e) := ROUND_00_15 11 f g h a b c d e (get X 11) in
  let '(h, d) := ROUND_00_15 12 e f g h a b c d (get X 12) in
  let '(g, c) := ROUND_00_15 13 d e f g h a b c (get X 13) in
  let '(f, b) := ROUND_00_15 14 c d e f g h a b (get X 14) in
  let '(e, a) := ROUND_00_15 15 b c d e f g h a (get X 15) in
  let '(a, b, c, d, e, f, g, h) := rounds_16_80 4 16 a b c d e f g h X in
  [u64 (get state 0 + a); u64 (get state 1 + b); u64 (get state 2 + c); u64 (get state 3 + d);
   u64 (get state 4 + e); u64 (get state 5 + f); u64 (get state 6 + g); u64 (get state 7 + h)].

Definition sha512_block_data_order (state W : list Z) (num : nat) : list Z := blocks 128 sha512_block num state W.

(** [unaligned]: the target cannot read unaligned words and [in_data] is not
    aligned, so that every block is copied first. *)
Section Update.
Variable unaligned : bool.

Definition SHA512_Transform (c : SHA512_CTX) (block : list Z) : SHA512_CTX :=
  let u' := if unaligned then splice (u c) 0 (take sizeof_u block) else u c in
  let block := if unaligned then take sizeof_u u' else block in
  mk_ctx512 (sha512_block_data_order (h c) block 1) (Nl c) (Nh c) u' (num c) (md_len c).

(** [while (len >= sizeof(c->u))] through the buffer [p]. *)
Fixpoint copy_blocks (fuel : nat) (st p d : list Z) : list Z * list Z * list Z :=
  match fuel with
  | O => (st, p, d)
  | S fuel =>
      if sizeof_u <=? len d then
        let p := splice p 0 (take sizeof_u d) in
        copy_blocks fuel (sha512_block_data_order st p 1) p (drop sizeof_u d)
      else (st, p, d)
  end.

Definition SHA512_Update (c : SHA512_CTX) (d : list Z) : SHA512_CTX :=
  if len d =? 0 then c else
  let l := Z.land (u64 (Nl c + u64 (Z.shiftl (len d) 3))) 0xffffffffffffffff in
  let nh := if l <? Nl c then u64 (Nh c + 1) else Nh c in
  let nh := u64 (nh + Z.shiftr (len d) 61) in
  let finish (st p : list Z) (num : Z) (d : list Z) :=
    let '(st, p, d) :=
      if sizeof_u <=? len d then
        if unaligned then copy_blocks (length d) st p d
        else (sha512_block_data_order st d (Z.to_nat (len d / sizeof_u)), p, drop (len d - len d mod sizeof_u) d)
      else (st, p, d) in
    if negb (len d =? 0) then mk_ctx512 st l nh (splice p 0 d) (len d) (md_len c)
    else mk_ctx512 st l nh p num (md_len c) in
  if negb (num c =? 0) then
    let n := sizeof_u - num c in
    if len d <? n then mk_ctx512 (h c) l nh (splice (u c) (num c) d) (u32 (num c + u32 (len d))) (md_len c)
    else
      let p := splice (u c) (num c) (take n d) in
      finish (sha512_block_data_order (h c) p 1) p 0 (drop n d)
  else finish (h c) (u c) (num c) d.

Definition SHA384_Update := SHA512_Update.
End Update.

(** The digest, [None] where the code returns 0, and the context left. *)
Definition SHA512_Final (md_null : bool) (sha : SHA512_CTX) : option (list Z) * SHA512_CTX :=
  let p := u sha in
  let n := num sha in
  let p := set p n 0x80 in
  let n := n + 1 in
  let '(p, n, st) :=
    if sizeof_u - 16 <? n then
      let p := splice p n (repeat 0 (Z.to_nat (sizeof_u - n))) in
      (p, 0, sha512_block_data_order (h sha) p 1)
    else (p, n, h sha) in
  let p := splice p n (repeat 0 (Z.to_nat (sizeof_u - 16 - n))) in
  let bytes t := [u8 (Z.shiftr t 56); u8 (Z.shiftr t 48); u8 (Z.shiftr t 40); u8 (Z.shiftr t 32);
                  u8 (Z.shiftr t 24); u8 (Z.shiftr t 16); u8 (Z.shiftr t 8); u8 t] in
  (* sixteen stores, the last byte first *)
  let p := splice p (sizeof_u - 16) (bytes (Nh sha) ++ bytes (Nl sha)) in
  let st := sha512_block_data_order st p 1 in
  let sha := mk_ctx512 st (Nl sha) (Nh sha) p (num sha) (md_len sha) in
  let out n := flat_map (fun i => bytes (get st (Z.of_nat i))) (seq 0 (Z.to_nat n)) in
  (if md_null then None
   else if md_len sha =? SHA384_DIGEST_LENGTH then Some (out (SHA384_DIGEST_LENGTH / 8))
   else if md_len sha =? SHA512_DIGEST_LENGTH then Some (out (SHA512_DIGEST_LENGTH / 8))
   else None, sha).

Definition SHA384_Final := SHA512_Final.

Definition SHA384 (unaligned : bool) (u data : list Z) : option (list Z) :=
  fst (SHA384_Final false (SHA384_Update unaligned (SHA384_Init u) data)).
Definition SHA512 (unaligned : bool) (u data : list Z) : option (list Z) :=
  fst (SHA512_Final false (SHA512_Update unaligned (SHA512_Init u) data)).

(** ** FIPS 180-4 *)

Definition word64 (x : Z) : Prop := 0 <= x < 2 ^ 64.

Definition block_words512 (d : list Z) : list Z := map (fun i => be_val (load d (8 * Z.of_nat i) 8)) (seq 0 16).

Definition sha512_K (t : Z) : Z := get (map (frac_root 64 3) (primes_below 410)) t.
Definition sha512_H : list Z := map (frac_root 64 2) (primes_below 20).
Definition sha384_H : list Z := map (frac_root 64 2) (drop 8 (primes_below 54)).

Definition sha512_Sigma0 (x : Z) : Z := Z.lxor (Z.lxor (rotr 64 28 x) (rotr 64 34 x)) (rotr 64 39 x).
Definition sha512_Sigma1 (x : Z) : Z := Z.lxor (Z.lxor (rotr 64 14 x) (rotr 64 18 x)) (rotr 64 41 x).
Definition sha512_sigma0 (x : Z) : Z := Z.lxor (Z.lxor (rotr 64 1 x) (rotr 64 8 x)) (x / 2 ^ 7).
Definition sha512_sigma1 (x : Z) : Z := Z.lxor (Z.lxor (rotr 64 19 x) (rotr 64 61 x)) (x / 2 ^ 6).

Definition sha512_next (W : list Z) : Z :=
  u64 (sha512_sigma1 (get W 14) + get W 9 + sha512_sigma0 (get W 1) + get W 0).

Definition sha512_step (W : Z -> Z) (t : Z) (s : regs8) : regs8 :=
  let '(a, b, c, d, e, f, g, h) := s in
  let T1 := h + sha512_Sigma1 e + DigestSpec.Ch e f g + sha512_K t + W t in
  let T2 := sha512_Sigma0 a + DigestSpec.Maj a b c in
  (u64 (T1 + T2), a, b, c, u64 (d + T1), e, f, g).

Definition sha512_compress (st d : list Z) : list Z :=
  let W t := get (schedule sha512_next (block_words512 d) 64) t in
  let '(a, b, c, d, e, f, g, h) := rounds (sha512_step W) 80 (get8 st) in
  [u64 (get st 0 + a); u64 (get st 1 + b); u64 (get st 2 + c); u64 (get st 3 + d);
   u64 (get st 4 + e); u64 (get st 5 + f); u64 (get st 6 + g); u64 (get st 7 + h)].

Definition fips_sha512 (msg : list Z) : list Z :=
  flat_map (be_enc 8) (md_hash 128 sha512_compress (be_enc 16) sha512_H msg).
Definition fips_sha384 (msg : list Z) : list Z :=
  take 48 (flat_map (be_enc 8) (md_hash 128 sha512_compress (be_enc 16) sha384_H msg)).

(** ** Constants, words, functions *)

Lemma K512_roots : map (frac_root 64 3) (primes_below 410) = K512.
Proof. vm_compute. reflexivity. Qed.

Lemma K512_K t : get K512 t = sha512_K t.
Proof. unfold sha512_K. now rewrite K512_roots. Qed.

Lemma sha512_H_init u : h (SHA512_Init u) = sha512_H /\ h (SHA384_Init u) = sha384_H.
Proof. split; vm_compute; reflexivity. Qed.

Lemma u64_word x : word64 (u64 x).
Proof. apply wrap_range. lia. Qed.

#[export] Hint Resolve u64_word : words.

Lemma ROTR_rotr x s : 0 < s < 64 -> word64 x -> ROTR x s = rotr 64 s x.
Proof.
  intros Hs Hx. unfold ROTR, rotr. rewrite Z.lor_comm. rewrite <- (rotate_rotl 64 (64 - s)) by (assumption || lia).
  now replace (64 - (64 - s)) with s by lia.
Qed.

Lemma sigmas512 x : word64 x ->
  Sigma0 x = sha512_Sigma0 x /\ Sigma1 x = sha512_Sigma1 x /\ sigma0 x = sha512_sigma0 x /\ sigma1 x = sha512_sigma1 x.
Proof.
  intros Hx. unfold Sigma0, Sigma1, sigma0, sigma1. rewrite !ROTR_rotr, !Z.shiftr_div_pow2 by (assumption || lia). repeat split.
Qed.

Lemma u64_add_l a b : u64 (u64 a + b) = u64 (a + b).
Proof. apply Zplus_mod_idemp_l. Qed.

Lemma u64_add_r a b : u64 (a + u64 b) = u64 (a + b).
Proof. apply Zplus_mod_idemp_r. Qed.

Lemma PULL64_val x : bytes_ok x -> len x = 8 -> PULL64 x = be_val x.
Proof.
  intros Hb Hl.
  destruct x as [| b0 [| b1 [| b2 [| b3 [| b4 [| b5 [| b6 [| b7 [| ? ?]]]]]]]]]; rewrite ?len_cons, ?len_nil in Hl; pose_lens; try lia.
  unfold bytes_ok in Hb. rewrite !Forall_cons_iff in Hb. destruct Hb as (H0 & H1 & H2 & H3 & H4 & H5 & H6 & H7 & _).
  unfold byte_ok in *. unfold PULL64, B, get.
  change (Z.to_nat 0) with 0%nat. change (Z.to_nat 1) with 1%nat. change (Z.to_nat 2) with 2%nat. change (Z.to_nat 3) with 3%nat.
  change (Z.to_nat 4) with 4%nat. change (Z.to_nat 5) with 5%nat. change (Z.to_nat 6) with 6%nat. change (Z.to_nat 7) with 7%nat.
  cbn [nth]. rewrite !Z.shiftl_mul_pow2, !(wrap_small 64) by (zconst; lia).
  assert (S : forall a b n, 0 <= n -> 0 <= b < 2 ^ n -> Z.lor (a * 2 ^ n) b = a * 2 ^ n + b)
    by (intros; rewrite <- (Z.shiftl_mul_pow2 a n) at 1 by lia; now apply lor_disjoint_add).
  unfold be_val. cbn [fold_left].
  change ((7 - 0) * 8) with 56. change ((7 - 1) * 8) with 48. change ((7 - 2) * 8) with 40. change ((7 - 3) * 8) with 32.
  change ((7 - 4) * 8) with 24. change ((7 - 5) * 8) with 16. change ((7 - 6) * 8) with 8. change ((7 - 7) * 8) with 0.
  rewrite S by (zconst; lia). replace (b0 * 2 ^ 56 + b1 * 2 ^ 48) with ((b0 * 2 ^ 8 + b1) * 2 ^ 48) by lia.
  rewrite S by (zconst; lia).
  replace ((b0 * 2 ^ 8 + b1) * 2 ^ 48 + b2 * 2 ^ 40) with ((b0 * 2 ^ 16 + b1 * 2 ^ 8 + b2) * 2 ^ 40) by lia.
  set (x2 := b0 * 2 ^ 16 + b1 * 2 ^ 8 + b2). rewrite S by (zconst; lia).
  replace (x2 * 2 ^ 40 + b3 * 2 ^ 32) with ((x2 * 2 ^ 8 + b3) * 2 ^ 32) by lia. set (x3 := x2 * 2 ^ 8 + b3).
  rewrite S by (zconst; lia). replace (x3 * 2 ^ 32 + b4 * 2 ^ 24) with ((x3 * 2 ^ 8 + b4) * 2 ^ 24) by lia. set (x4 := x3 * 2 ^ 8 + b4).
  rewrite S by (zconst; lia). replace (x4 * 2 ^ 24 + b5 * 2 ^ 16) with ((x4 * 2 ^ 8 + b5) * 2 ^ 16) by lia. set (x5 := x4 * 2 ^ 8 + b5).
  rewrite S by (zconst; lia). replace (x5 * 2 ^ 16 + b6 * 2 ^ 8) with ((x5 * 2 ^ 8 + b6) * 2 ^ 8) by lia.
  rewrite S by (zconst; lia). unfold x5, x4, x3, x2. lia.
Qed.

Lemma block_words512_len d : len (block_words512 d) = 16.
Proof. unfold block_words512. now rewrite len_map. Qed.

Lemma block_words512_word d i : bytes_ok d -> len d = 128 -> 0 <= i < 16 -> word64 (get (block_words512 d) i).
Proof.
  intros Hd Hl Hi. unfold block_words512. rewrite get_map_seq by lia.
  pose proof (be_val_range (load d (8 * Z.of_nat (Z.to_nat i)) 8) (bytes_ok_load _ _ _ Hd)) as R.
  rewrite len_load in R by lia. exact R.
Qed.

Lemma pull_block d : bytes_ok d -> len d = 128 -> map (fun i => PULL64 (drop (8 * Z.of_nat i) d)) (seq 0 16) = block_words512 d.
Proof.
  intros Hd Hl. unfold block_words512. apply map_ext_in. intros i Hi. apply in_seq in Hi.
  rewrite <- PULL64_val; [| now apply bytes_ok_load | apply len_load; lia].
  unfold PULL64, B, load. now rewrite !get_take by lia.
Qed.

(** ** The rounds *)
Section Sha512Rounds.
Variable M : list Z.
Hypothesis M_len : len M = 16.
Hypothesis M_words : forall i, 0 <= i < 16 -> word64 (get M i).
Variable s0 : regs8.

Abbreviation W := (word sha512_next M).

Lemma sha512_words_word i : 0 <= i -> word64 (W i).
Proof. apply word_all; [exact M_len | exact M_words |]. intros. apply u64_word. Qed.

Definition words8_64 (s : regs8) : Prop :=
  let '(a, b, c, d, e, f, g, h) := s in
  word64 a /\ word64 b /\ word64 c /\ word64 d /\ word64 e /\ word64 f /\ word64 g /\ word64 h.

Definition sha512_inv (t : nat) (s : regs8) (X : list Z) : Prop :=
  s = rounds (sha512_step W) t s0 /\ words8_64 s /\ ring sha512_next M X (Z.max 16 (Z.of_nat t)).

Lemma sha512_round t a b c d e f g h X X' x : sha512_inv t (a, b, c, d, e, f, g, h) X -> x = W (Z.of_nat t) ->
  ring sha512_next M X' (Z.max 16 (Z.of_nat (S t))) ->
  let '(d', h') := ROUND_00_15 (Z.of_nat t) a b c d e f g h x in
  sha512_inv (S t) (h', a, b, c, d', e, f, g) X'.
Proof.
  intros (Hs & (Ha & Hb & Hc & Hd & He & Hf & Hg & Hh) & _) -> Hr'. cbn [ROUND_00_15].
  split; [| split; [| exact Hr']].
  - cbn [rounds]. rewrite <- Hs. unfold sha512_step.
    destruct (sigmas512 a Ha) as (<- & _). destruct (sigmas512 e He) as (_ & <- & _). rewrite K512_K.
    unfold Ch. rewrite land_not by (assumption || lia). fold (DigestSpec.Ch e f g). unfold Maj. fold (DigestSpec.Maj a b c).
    rewrite u64_add_l, !u64_add_r.
    repeat (apply f_equal2; [| reflexivity || (apply (f_equal (wrap 64)); lia)]). apply (f_equal (wrap 64)); lia.
  - cbn [words8_64]. splits; auto with words.
Qed.

Lemma sha512_first t a b c d e f g h X : sha512_inv t (a, b, c, d, e, f, g, h) X -> (t < 16)%nat ->
  let '(d', h') := ROUND_00_15 (Z.of_nat t) a b c d e f g h (get X (Z.of_nat t)) in
  sha512_inv (S t) (h', a, b, c, d', e, f, g) X.
Proof.
  intros H Ht. pose proof H as (_ & _ & Hr). apply (sha512_round t a b c d e f g h X X _ H).
  - destruct Hr as [_ Hr]. rewrite <- (Hr (Z.of_nat t)) by lia. now rewrite Z.mod_small by lia.
  - now replace (Z.max 16 (Z.of_nat (S t))) with (Z.max 16 (Z.of_nat t)) by lia.
Qed.

Lemma sha512_next_eq w :
  sha512_next w = u64 (sha512_sigma1 (get w 14) + get w 9 + sha512_sigma0 (get w 1) + get w 0).
Proof. reflexivity. Qed.

(** [i] is a multiple of sixteen, so the slots are named by [j] alone. *)
Lemma sha512_later t i j a b c d e f g h X : sha512_inv t (a, b, c, d, e, f, g, h) X -> (16 <= t)%nat ->
  i + j = Z.of_nat t -> i mod 16 = 0 ->
  let '(d', h', X') := ROUND_16_80 i j a b c d e f g h X in
  sha512_inv (S t) (h', a, b, c, d', e, f, g) X'.
Proof.
  intros H Ht Hij Hi. pose proof H as (_ & _ & Hr). replace (Z.max 16 (Z.of_nat t)) with (Z.of_nat t) in Hr by lia.
  unfold ROUND_16_80. rewrite !land_15. cbv zeta.
  assert (Em : forall k, (j + k) mod 16 = (Z.of_nat t + k) mod 16).
  { intros k. rewrite <- Hij. rewrite <- Z.add_assoc, (Z.add_mod i) by lia. rewrite Hi, Z.add_0_l. now rewrite Zmod_mod. }
  pose proof (Em 0) as E0. rewrite !Z.add_0_r in E0. rewrite !Em, E0, Hij.
  pose proof (ring_get _ _ X (Z.of_nat t) 0 Hr ltac:(lia)) as G0. rewrite Z.add_0_r in G0.
  rewrite G0, !(ring_get _ _ X (Z.of_nat t) _ Hr) by lia. rewrite !get_window by lia.
  destruct (sigmas512 _ (sha512_words_word (Z.of_nat t - 16 + 1) ltac:(lia))) as (_ & _ & -> & _).
  destruct (sigmas512 _ (sha512_words_word (Z.of_nat t - 16 + 14) ltac:(lia))) as (_ & _ & _ & ->).
  set (x := u64 _).
  assert (E : x = W (Z.of_nat t)).
  { rewrite word_next by (assumption || lia). unfold x. rewrite sha512_next_eq, !get_window by lia. apply (f_equal (wrap 64)). lia. }
  pose proof (sha512_round t a b c d e f g h X (set X (Z.of_nat t mod 16) x) x H E) as HS.
  destruct (ROUND_00_15 (Z.of_nat t) a b c d e f g h x) as [d' h']. apply HS.
  rewrite E, word_next by (assumption || lia). replace (Z.max 16 (Z.of_nat (S t))) with (Z.of_nat t + 1) by lia.
  apply ring_step; [exact M_len | exact Hr | lia].
Qed.

Ltac sha512_turn t HI Hi :=
  lazymatch goal with
  | |- context [ROUND_16_80 ?i ?j ?a ?b ?c ?d ?e ?f ?g ?h ?X] =>
      let H := fresh in
      pose proof (sha512_later t i j a b c d e f g h X HI ltac:(lia) ltac:(lia) Hi) as H;
      destruct (ROUND_16_80 i j a b c d e f g h X) as [[? ?] ?]; clear HI; rename H into HI
  end.

Lemma rounds_16_80_ok n : forall t i a b c d e f g h X, sha512_inv t (a, b, c, d, e, f, g, h) X -> (16 <= t)%nat ->
  i = Z.of_nat t -> i mod 16 = 0 ->
  exists X', sha512_inv (t + 16 * n) (rounds_16_80 n i a b c d e f g h X) X'.
Proof.
  induction n as [| n IH]; intros t i a b c d e f g h X HI Ht Hi Hm; [exists X; now rewrite Nat.mul_0_r, Nat.add_0_r |].
  cbn [rounds_16_80].
  sha512_turn t HI Hm. sha512_turn (1 + t)%nat HI Hm. sha512_turn (2 + t)%nat HI Hm. sha512_turn (3 + t)%nat HI Hm.
  sha512_turn (4 + t)%nat HI Hm. sha512_turn (5 + t)%nat HI Hm. sha512_turn (6 + t)%nat HI Hm. sha512_turn (7 + t)%nat HI Hm.
  sha512_turn (8 + t)%nat HI Hm. sha512_turn (9 + t)%nat HI Hm. sha512_turn (10 + t)%nat HI Hm. sha512_turn (11 + t)%nat HI Hm.
  sha512_turn (12 + t)%nat HI Hm. sha512_turn (13 + t)%nat HI Hm. sha512_turn (14 + t)%nat HI Hm. sha512_turn (15 + t)%nat HI Hm.
  replace (t + 16 * S n)%nat with (16 + t + 16 * n)%nat by lia. eapply IH; [exact HI | lia | lia |].
  replace (i + 16) with (i + 1 * 16) by lia. now rewrite Z.mod_add.
Qed.
End Sha512Rounds.

Ltac sha512_first_turn M s0 HI :=
  lazymatch type of HI with
  | sha512_inv _ _ ?t (?a, ?b, ?c, ?d, ?e, ?f, ?g, ?h) ?X =>
    lazymatch goal with
    | |- context [ROUND_00_15 ?k a b c d e f g h (get X ?k)] =>
        let H := fresh in
        pose proof (sha512_first M s0 t a b c d e f g h X HI ltac:(lia)) as H;
        change (Z.of_nat t) with k in H;
        destruct (ROUND_00_15 k a b c d e f g h (get X k)) as [? ?]; clear HI; rename H into HI
    end
  end.

Definition state_ok64 (st : list Z) : Prop := len st = 8 /\ Forall word64 st.

Lemma state_get64 st i : state_ok64 st -> 0 <= i < 8 -> word64 (get st i).
Proof.
  intros [Hl H] Hi. unfold get. rewrite Forall_forall in H. apply H, nth_In. unfold len in Hl. lia.
Qed.

Lemma sha512_block_correct st d : state_ok64 st -> bytes_ok d -> len d = 128 -> sha512_block st d = sha512_compress st d.
Proof.
  intros Hst Hd Hl. unfold sha512_block, sha512_compress. rewrite pull_block by assumption.
  pose proof (block_words512_len d) as HM. pose proof (fun i => block_words512_word d i Hd Hl) as HW.
  set (M := block_words512 d) in *. clearbody M.
  unfold get8. set (s0 := (get st 0, get st 1, get st 2, get st 3, get st 4, get st 5, get st 6, get st 7)).
  assert (HI : sha512_inv M s0 0 (get st 0, get st 1, get st 2, get st 3, get st 4, get st 5, get st 6, get st 7) M).
  { split; [reflexivity |]. split; [| apply ring_init; exact HM].
    unfold words8_64. splits; apply state_get64; (assumption || lia). }
  clearbody s0. cbv zeta.
  do 16 sha512_first_turn M s0 HI.
  destruct (rounds_16_80_ok M HM HW s0 4 16 16 _ _ _ _ _ _ _ _ _ HI ltac:(lia) eq_refl eq_refl) as (X' & (E & _)).
  rewrite E. change (16 + 16 * 4)%nat with 80%nat.
  set (W := fun t => _). replace (rounds (sha512_step W) 80 s0) with (rounds (sha512_step (word sha512_next M)) 80 s0); [reflexivity |].
  assert (EW : forall n, (n <= 80)%nat -> rounds (sha512_step (word sha512_next M)) n s0 = rounds (sha512_step W) n s0).
  { induction n as [| n IH]; intros Hn; [reflexivity |]. cbn [rounds]. rewrite IH by lia. unfold sha512_step at 1 3, W.
    now rewrite schedule_word by lia. }
  now apply EW.
Qed.

(** ** The collector *)

Lemma block_one st b : len b = 128 -> sha512_block_data_order st b 1 = sha512_block st b.
Proof. intros Hl. unfold sha512_block_data_order. cbn [blocks]. now rewrite take_all by lia. Qed.

Lemma count512 m n : 0 <= m -> 0 <= n < 2 ^ 64 ->
  let nl := 8 * m mod 2 ^ 64 in let nh := 8 * m / 2 ^ 64 mod 2 ^ 64 in
  let l := Z.land (u64 (nl + u64 (Z.shiftl n 3))) 0xffffffffffffffff in
  l = 8 * (m + n) mod 2 ^ 64 /\
  u64 ((if l <? nl then u64 (nh + 1) else nh) + Z.shiftr n 61) = 8 * (m + n) / 2 ^ 64 mod 2 ^ 64.
Proof.
  intros Hm Hn nl nh l.
  assert (El : l = 8 * (m + n) mod 2 ^ 64).
  { unfold l, nl. change 0xffffffffffffffff with (Z.ones 64). rewrite Z.land_ones, Z.shiftl_mul_pow2 by lia. word_lia. }
  assert (Ec : (l <? nl) = (2 ^ 64 <=? nl + 8 * n mod 2 ^ 64)).
  { rewrite El. unfold nl. apply eq_true_iff_eq. rewrite Z.ltb_lt, Z.leb_le. word_lia. }
  split; [exact El |]. rewrite Ec. unfold nl, nh. rewrite Z.shiftr_div_pow2 by lia.
  destruct (Z.leb_spec (2 ^ 64) (8 * m mod 2 ^ 64 + 8 * n mod 2 ^ 64)); word_lia.
Qed.

Definition sha512_ok (h0 msg : list Z) (c : SHA512_CTX) : Prop :=
  absorbed 128 sha512_block h0 msg (h c) (u c) (num c) /\
  Nl c = 8 * len msg mod 2 ^ 64 /\ Nh c = 8 * len msg / 2 ^ 64 mod 2 ^ 64.

(** Copying block by block computes what one call on all the blocks does. *)
Lemma copy_blocks_ok fuel : forall st p d, (length d <= fuel)%nat -> len p = 128 ->
  exists p', copy_blocks fuel st p d = (sha512_block_data_order st d (Z.to_nat (len d / 128)), p', drop (128 * (len d / 128)) d) /\ len p' = 128.
Proof.
  induction fuel as [| fuel IH]; intros st p d Hf Hp; cbn [copy_blocks].
  - destruct d; [| cbn in Hf; lia]. exists p. split; [reflexivity | exact Hp].
  - destruct (split_len 128 eq_refl d) as (Hq & Hs & Hr). unfold sizeof_u. destruct (Z.leb_spec 128 (len d)) as [H128 | H128].
    + assert (Hb : splice p 0 (take 128 d) = take 128 d).
      { rewrite splice_full; [reflexivity | lia | rewrite len_take; lia]. }
      rewrite Hb, block_one by (rewrite len_take; lia).
      destruct (IH (sha512_block st (take 128 d)) (take 128 d) (drop 128 d)) as (p' & E & Hp').
      { unfold drop. rewrite length_skipn. unfold len in H128. lia. }
      { rewrite len_take; lia. }
      exists p'. split; [| exact Hp']. rewrite E.
      assert (Ed : len (drop 128 d) / 128 = len d / 128 - 1).
      { rewrite len_drop by lia. replace (len d - 128) with (len d + (-1) * 128) by lia. rewrite Z.div_add by lia. lia. }
      rewrite Ed. unfold sha512_block_data_order. replace (Z.to_nat (len d / 128)) with (S (Z.to_nat (len d / 128 - 1))) by lia.
      cbn [blocks]. rewrite drop_drop by lia. do 2 f_equal. lia.
    + exists p. rewrite Z.div_small by (pose proof (len_nonneg d); lia). split; [reflexivity | exact Hp].
Qed.

Lemma finish512_ok (unaligned : bool) h0 msg st buf d : absorbed 128 sha512_block h0 msg st buf 0 ->
  let '(st', p', d') :=
    if sizeof_u <=? len d then
      if unaligned then copy_blocks (length d) st buf d
      else (sha512_block_data_order st d (Z.to_nat (len d / sizeof_u)), buf, drop (len d - len d mod sizeof_u) d)
    else (st, buf, d) in
  let '(p', num') := if negb (len d' =? 0) then (splice p' 0 d', len d') else (p', 0) in
  absorbed 128 sha512_block h0 (msg ++ d) st' p' num'.
Proof.
  intros Ha. destruct (split_len 128 eq_refl d) as (Hq & Hs & Hr). unfold sizeof_u. set (n := len d / 128) in *.
  assert (Hb : len buf = 128) by apply Ha.
  assert (Hd : msg ++ d = (msg ++ take (128 * n) d) ++ drop (128 * n) d) by (rewrite <- app_assoc; now rewrite take_drop).
  assert (Hst : exists st' p' : list Z, (if 128 <=? len d then
        if unaligned then copy_blocks (length d) st buf d
        else (sha512_block_data_order st d (Z.to_nat n), buf, drop (len d - len d mod 128) d)
      else (st, buf, d)) = (st', p', drop (128 * n) d) /\ absorbed 128 sha512_block h0 (msg ++ take (128 * n) d) st' p' 0).
  { assert (Hgo : forall p, len p = 128 -> absorbed 128 sha512_block h0 (msg ++ take (128 * n) d) (sha512_block_data_order st d (Z.to_nat n)) p 0).
    { intros p Hp. unfold sha512_block_data_order.
      rewrite <- (blocks_take 128 sha512_block eq_refl _ st d (128 * n)) by lia.
      assert (Ha' : absorbed 128 sha512_block h0 msg st p 0) by (destruct Ha as (E1 & _ & E3 & E4); repeat split; assumption).
      apply absorbed_blocks; [lia | exact Ha' | rewrite len_take; lia]. }
    destruct (Z.leb_spec 128 (len d)).
    - destruct unaligned.
      + destruct (copy_blocks_ok (length d) st buf d (Nat.le_refl _) Hb) as (p' & E & Hp').
        exists (sha512_block_data_order st d (Z.to_nat n)), p'. split; [exact E | now apply Hgo].
      + exists (sha512_block_data_order st d (Z.to_nat n)), buf. split; [do 2 f_equal; lia | now apply Hgo].
    - exists st, buf. replace n with 0 by (unfold n; symmetry; apply Z.div_small; pose proof (len_nonneg d); lia).
      rewrite Z.mul_0_r, take_0, app_nil_r. split; [reflexivity | exact Ha]. }
  destruct Hst as (st' & p' & -> & Ha').
  assert (Hl' : len (drop (128 * n) d) = len d mod 128) by (rewrite len_drop; lia).
  rewrite Hl'. destruct (Z.eqb_spec (len d mod 128) 0) as [Hz | Hz]; cbn [negb]; rewrite Hd.
  - rewrite (len_0_nil (drop _ d)), app_nil_r by lia. exact Ha'.
  - rewrite <- Hl'. apply (absorbed_short 128 sha512_block eq_refl _ _ _ _ 0); [exact Ha' | lia].
Qed.

Lemma update512_ok unaligned h0 msg c d : sha512_ok h0 msg c -> len d < 2 ^ 64 -> sha512_ok h0 (msg ++ d) (SHA512_Update unaligned c d).
Proof.
  intros (Ha & Hnl & Hnh) Hd. pose proof (len_nonneg d) as Hd0. unfold SHA512_Update.
  destruct (Z.eqb_spec (len d) 0) as [E | E]; [rewrite (len_0_nil d E), app_nil_r; exact (conj Ha (conj Hnl Hnh)) |].
  destruct (count512 (len msg) (len d) (len_nonneg _) (conj Hd0 Hd)) as [El Eh].
  rewrite <- len_app, <- Hnl in El, Eh. rewrite <- Hnh in Eh.
  set (l := Z.land (u64 (Nl c + _)) _) in *. set (nh := u64 ((if l <? _ then _ else _) + _)) in *. clearbody l nh.
  assert (Hblk : len (u c) = 128 /\ 0 <= num c < 128).
  { destruct Ha as (_ & ? & -> & _). split; [assumption | apply Z.mod_pos_bound; reflexivity]. }
  destruct Hblk as [Hbl Hn].
  assert (Hfin : forall m st p e, absorbed 128 sha512_block h0 m st p 0 -> m ++ e = msg ++ d ->
    sha512_ok h0 (msg ++ d)
      (let '(st, p, e) :=
         if sizeof_u <=? len e then
           if unaligned then copy_blocks (length e) st p e
           else (sha512_block_data_order st e (Z.to_nat (len e / sizeof_u)), p, drop (len e - len e mod sizeof_u) e)
         else (st, p, e) in
       if negb (len e =? 0) then mk_ctx512 st l nh (splice p 0 e) (len e) (md_len c)
       else mk_ctx512 st l nh p 0 (md_len c))).
  { intros m st p e Hm Em. pose proof (finish512_ok unaligned h0 m st p e Hm) as F. rewrite Em in F.
    destruct (if sizeof_u <=? len e then _ else _) as [[st' p'] e'].
    destruct (negb (len e' =? 0)); (split; [exact F | split; [exact El | exact Eh]]). }
  cbv zeta. destruct (Z.eqb_spec (num c) 0) as [N0 | N0]; cbn [negb].
  - rewrite N0 in Ha |- *. exact (Hfin msg _ _ d Ha eq_refl).
  - change (sizeof_u - num c) with (128 - num c). destruct (Z.ltb_spec (len d) (128 - num c)) as [Hf | Hf].
    + rewrite !(wrap_small 32) by (rewrite ?(wrap_small 32); zconst; lia).
      split; [| split; [exact El | exact Eh]]. apply absorbed_short; [lia | exact Ha | lia].
    + set (d1 := take (128 - num c) d). set (d2 := drop (128 - num c) d).
      assert (Hd1 : len d1 = 128 - num c) by (unfold d1; rewrite len_take; lia).
      assert (Hs : len (splice (u c) (num c) d1) = 128) by (rewrite len_splice; lia).
      change (sizeof_u - num c) with (128 - num c). fold d1 d2. rewrite block_one by exact Hs.
      apply (Hfin (msg ++ d1) _ _ d2); [| rewrite <- app_assoc; unfold d1, d2; now rewrite take_drop].
      apply absorbed_fill; [lia | exact Ha | rewrite Hd1; lia | exact Hs].
Qed.

Lemma be_bytes8 t : [u8 (Z.shiftr t 56); u8 (Z.shiftr t 48); u8 (Z.shiftr t 40); u8 (Z.shiftr t 32);
                     u8 (Z.shiftr t 24); u8 (Z.shiftr t 16); u8 (Z.shiftr t 8); u8 t] = be_enc 8 t.
Proof.
  assert (E : forall k, 0 <= k -> u8 (Z.shiftr t k) = t / 2 ^ k mod 256) by (intros; now rewrite Z.shiftr_div_pow2).
  rewrite !E by lia. rewrite !be_enc_cons. cbn [be_enc].
  change (256 ^ Z.of_nat 7) with (2 ^ 56). change (256 ^ Z.of_nat 6) with (2 ^ 48). change (256 ^ Z.of_nat 5) with (2 ^ 40).
  change (256 ^ Z.of_nat 4) with (2 ^ 32). change (256 ^ Z.of_nat 3) with (2 ^ 24). change (256 ^ Z.of_nat 2) with (2 ^ 16).
  change (256 ^ Z.of_nat 1) with (2 ^ 8). change (256 ^ Z.of_nat 0) with 1. now rewrite Z.div_1_r.
Qed.

Lemma final512_ok md_null h0 msg c : sha512_ok h0 msg c ->
  let H := md_hash 128 sha512_block (be_enc 16) h0 msg in
  let bytes n := flat_map (fun i => be_enc 8 (get H (Z.of_nat i))) (seq 0 n) in
  fst (SHA512_Final md_null c) =
    (if md_null then None else if md_len c =? 48 then Some (bytes 6%nat) else if md_len c =? 64 then Some (bytes 8%nat) else None) /\
  h (snd (SHA512_Final md_null c)) = H.
Proof.
  intros (Ha & Hnl & Hnh) H bytes.
  assert (Hb : len (u c) = 128 /\ 0 <= num c < 128).
  { destruct Ha as (_ & ? & -> & _). split; [assumption | apply Z.mod_pos_bound; reflexivity]. }
  destruct Hb as (Hb & Hr).
  assert (L16 : be_enc 8 (Nh c) ++ be_enc 8 (Nl c) = be_enc 16 (8 * len msg)).
  { change 16%nat with (8 + 8)%nat. rewrite be_enc_app, Hnl, Hnh. change (256 ^ Z.of_nat 8) with (2 ^ 64).
    f_equal; rewrite <- (be_enc_mod 8 (_ mod _)); change (256 ^ Z.of_nat 8) with (2 ^ 64); rewrite Zmod_mod;
    change (2 ^ 64) with (256 ^ Z.of_nat 8); apply be_enc_mod. }
  pose proof (padded_state_hash 128 sha512_block eq_refl (be_enc 16) h0 msg (h c) (u c) (num c) Ha) as P.
  unfold padded_state in P. rewrite be_enc_len in P. specialize (P eq_refl). fold H in P.
  change (128 - Z.of_nat 16) with (sizeof_u - 16) in P.
  unfold SHA512_Final.
  assert (Hend : forall st p, len p = 128 -> sha512_block st (splice p (sizeof_u - 16) (be_enc 16 (8 * len msg))) = H ->
    let bytes' t := [u8 (Z.shiftr t 56); u8 (Z.shiftr t 48); u8 (Z.shiftr t 40); u8 (Z.shiftr t 32);
                  u8 (Z.shiftr t 24); u8 (Z.shiftr t 16); u8 (Z.shiftr t 8); u8 t] in
    sha512_block_data_order st (splice p (sizeof_u - 16) (bytes' (Nh c) ++ bytes' (Nl c))) 1 = H).
  { intros st p Hp E bytes'. unfold bytes'. rewrite !be_bytes8, L16. rewrite block_one; [exact E |].
    rewrite len_splice; rewrite ?be_enc_len; unfold sizeof_u; lia. }
  assert (Hs1 : len (set (u c) (num c) 128) = 128) by (rewrite len_set; lia).
  assert (Hout : forall st, st = H -> forall bytes' : Z -> list Z, (forall t, bytes' t = be_enc 8 t) ->
    forall n, flat_map (fun i => bytes' (get st (Z.of_nat i))) (seq 0 n) = bytes n).
  { intros st -> bytes' Hb' n. apply flat_map_ext. intros i. apply Hb'. }
  destruct (sizeof_u - 16 <? num c + 1) eqn:Hc; cbv zeta in P |- *; cbv beta iota in P |- *;
    unfold sizeof_u in Hc; apply Z.ltb_lt in Hc || apply Z.ltb_ge in Hc;
    cbn [fst snd h Nl Nh md_len u num].
  -
    assert (Hs2 : len (splice (set (u c) (num c) 128) (num c + 1) (repeat 0 (Z.to_nat (sizeof_u - (num c + 1))))) = 128)
      by (unfold sizeof_u; rewrite len_splice; rewrite ?len_repeat; lia).
    rewrite (block_one (h c) _ Hs2). rewrite Hend;
      [| rewrite len_splice; rewrite ?len_repeat; unfold sizeof_u in *; lia | exact P].
    rewrite !(Hout H eq_refl _ be_bytes8). split; reflexivity.
  - rewrite Hend; [| unfold sizeof_u; rewrite len_splice; rewrite ?len_repeat; lia | exact P].
    rewrite !(Hout H eq_refl _ be_bytes8). split; reflexivity.
Qed.

Lemma fold_update512_ok unaligned h0 chunks : forall msg c, sha512_ok h0 msg c -> Forall (fun d => len d < 2 ^ 64) chunks ->
  sha512_ok h0 (msg ++ concat chunks) (fold_left (SHA512_Update unaligned) chunks c) /\
  md_len (fold_left (SHA512_Update unaligned) chunks c) = md_len c.
Proof.
  induction chunks as [| d l IH]; intros msg c Hc Hl; cbn [fold_left concat]; [now rewrite app_nil_r |].
  inversion_clear Hl. rewrite app_assoc. destruct (IH (msg ++ d) (SHA512_Update unaligned c d)) as [H1 H2];
    [now apply update512_ok | assumption |].
  split; [exact H1 |]. rewrite H2. unfold SHA512_Update. cbv zeta.
  repeat match goal with
  | |- context [if ?b then _ else _] => destruct b; cbn [md_len]
  | |- context [let '(_, _) := ?x in _] => destruct x as [[? ?] ?]; cbn [md_len]
  end; reflexivity.
Qed.

Lemma sha512_compress_ok st d : state_ok64 (sha512_compress st d).
Proof.
  unfold sha512_compress. destruct (rounds _ _ _) as [[[[[[[a b] c] e] f] g] h] i].
  split; [reflexivity |]. repeat constructor; apply u64_word.
Qed.

Lemma sha512_hash h0 msg : state_ok64 h0 -> bytes_ok msg ->
  md_hash 128 sha512_block (be_enc 16) h0 msg = md_hash 128 sha512_compress (be_enc 16) h0 msg /\
  len (md_hash 128 sha512_compress (be_enc 16) h0 msg) = 8.
Proof.
  intros H0 Hm. destruct (md_hash_ext 128 sha512_block eq_refl state_ok64 sha512_compress (be_enc 16) h0 msg) as [E HP].
  - intros st d Hst Hd Hl. split; [now apply sha512_block_correct | apply sha512_compress_ok].
  - exact H0.
  - exact Hm.
  - intros. apply be_enc_bytes.
  - split; [exact E | apply HP].
Qed.

Lemma out_words (H : list Z) : len H = 8 ->
  flat_map (fun i => be_enc 8 (get H (Z.of_nat i))) (seq 0 6) = take 48 (flat_map (be_enc 8) H) /\
  flat_map (fun i => be_enc 8 (get H (Z.of_nat i))) (seq 0 8) = flat_map (be_enc 8) H.
Proof.
  intros Hl. destruct H as [| a [| b [| c [| d [| e [| f [| g [| i [| ? ?]]]]]]]]]; rewrite ?len_cons, ?len_nil in Hl; pose_lens; try lia.
  split; reflexivity.
Qed.

Lemma fips512_lens msg : bytes_ok msg ->
  (len (fips_sha512 msg) = 64 /\ bytes_ok (fips_sha512 msg)) /\ (len (fips_sha384 msg) = 48 /\ bytes_ok (fips_sha384 msg)).
Proof.
  intros Hb.
  assert (S1 : state_ok64 sha512_H) by (destruct (sha512_H_init []) as [<- _]; split; [reflexivity | word_literals]).
  assert (S2 : state_ok64 sha384_H) by (destruct (sha512_H_init []) as [_ <-]; split; [reflexivity | word_literals]).
  splits.
  - unfold fips_sha512. rewrite (proj1 (flat_map_enc 8 _)), (proj2 (sha512_hash _ msg S1 Hb)). reflexivity.
  - apply flat_map_enc.
  - unfold fips_sha384. rewrite len_take; [reflexivity |]. rewrite (proj1 (flat_map_enc 8 _)), (proj2 (sha512_hash _ msg S2 Hb)). lia.
  - apply bytes_ok_take, flat_map_enc.
Qed.

(** What the final function returns after [msg]. *)
Lemma sha512_output u0 msg c : bytes_ok msg ->
  (sha512_ok (h (SHA512_Init u0)) msg c -> md_len c = 64 -> fst (SHA512_Final false c) = Some (fips_sha512 msg)) /\
  (sha512_ok (h (SHA384_Init u0)) msg c -> md_len c = 48 -> fst (SHA512_Final false c) = Some (fips_sha384 msg)).
Proof.
  intros Hb. destruct (sha512_H_init u0) as [E1 E2]. rewrite E1, E2.
  assert (S1 : state_ok64 sha512_H) by (rewrite <- E1; split; [reflexivity | word_literals]).
  assert (S2 : state_ok64 sha384_H) by (rewrite <- E2; split; [reflexivity | word_literals]).
  split; intros Hc Hm; destruct (final512_ok false _ _ _ Hc) as [-> _]; rewrite Hm; cbn [Z.eqb Pos.eqb]; f_equal.
  - destruct (sha512_hash sha512_H msg S1 Hb) as [-> L1]. exact (proj2 (out_words _ L1)).
  - destruct (sha512_hash sha384_H msg S2 Hb) as [-> L2]. exact (proj1 (out_words _ L2)).
Qed.

(** C4: SHA-384 and SHA-512 return the digest of FIPS 180-4 for every way of
    cutting a message into calls, whatever the buffer held before and whether or
    not the input has to be copied for alignment; with a null output the final
    function returns 0. *)
Theorem sha512_stream_is_fips unaligned u0 chunks : len u0 = 128 ->
  Forall bytes_ok chunks -> Forall (fun d => len d < 2 ^ 64) chunks ->
  let msg := concat chunks in
  let run init := fold_left (SHA512_Update unaligned) chunks (init u0) in
  fst (SHA512_Final false (run SHA512_Init)) = Some (fips_sha512 msg) /\
  fst (SHA384_Final false (run SHA384_Init)) = Some (fips_sha384 msg) /\
  fst (SHA512_Final true (run SHA512_Init)) = None.
Proof.
  intros Hu Hb Hl msg run. apply bytes_ok_concat in Hb. fold msg in Hb.
  assert (Hinit : forall h0 mdl, sha512_ok h0 [] (mk_ctx512 h0 0 0 u0 0 mdl)).
  { intros h0 mdl. split; [apply absorbed_init; exact Hu | now split]. }
  destruct (fold_update512_ok unaligned (h (SHA512_Init u0)) chunks [] (SHA512_Init u0) (Hinit _ _) Hl) as [H1 M1].
  destruct (fold_update512_ok unaligned (h (SHA384_Init u0)) chunks [] (SHA384_Init u0) (Hinit _ _) Hl) as [H2 M2].
  cbn [app] in H1, H2. fold msg in H1, H2.
  unfold run, SHA384_Final. splits.
  - apply (sha512_output u0 msg _ Hb); [exact H1 | exact M1].
  - apply (sha512_output u0 msg _ Hb); [exact H2 | exact M2].
  - now destruct (final512_ok true _ _ _ H1) as [-> _].
Qed.

Example sha512_abc : option_map be_val (SHA512 false (repeat 0 128) [97; 98; 99]) =
  Some 0xddaf35a193617abacc417349ae20413112e6fa4e89a97ea20a9eeee64b55d39a2192992a274fc1a836ba3c23a3feebbd454d4423643ce80e2a9ac94fa54ca49f.
Proof. vm_compute. reflexivity. Qed.

Lemma sha512_stream_is_fips_witness :
  fst (SHA512_Final false (fold_left (SHA512_Update true) [[97]; [98; 99]] (SHA512_Init (repeat 5 128)))) = Some (fips_sha512 [97; 98; 99]).
Proof.
  apply (sha512_stream_is_fips true (repeat 5 128) [[97]; [98; 99]] eq_refl);
    repeat constructor; unfold byte_ok; lia.
Defined.
