(* ===== verification/Md5.v ===== *)
(** * MD4 and MD5 (crypto/fipsmodule/md4/md4.c, md5/md5.c)

    The little-endian digests on the collector of Md32. Their block functions are
    written out round by round with renamed registers; they compute the functions
    of RFC 1320 and RFC 1321, which index the message words and the constants by
    formulas. *)

From S2P Require Import Prelude Buffers DigestSpec Md32 Sha.

(** An assignment, [let] as a constant: the block functions are long straight
    lines of them, and proofs go through them one by one. *)
Definition assign {A B} (e : A) (k : A -> B) : B := k e.
Notation "'let!' x ':=' e 'in' k" := (assign e (fun x => k))
  (at level 10, x binder, e at level 100, k at level 200) : c_scope.

Lemma assign_intro {A B} (e : A) (k : A -> B) (r : B) : (forall y, y = e -> k y = r) -> assign e k = r.
Proof. intros H. now apply H. Qed.

(** [HASH_MAKE_STRING], the same in both files. *)
Definition md4_make_string (c : HASH_CTX) : option (list Z) :=
  let l2c i := HOST_l2c DATA_ORDER_IS_LITTLE_ENDIAN (get (h c) i) in
  Some (l2c 0 ++ l2c 1 ++ l2c 2 ++ l2c 3).

(** ** MD5 *)
Module Md5.
Definition F (b c d : Z) : Z := Z.lxor (Z.land (Z.lxor c d) b) d.
Definition G (b c d : Z) : Z := Z.lxor (Z.land (Z.lxor b c) d) c.
Definition H (b c d : Z) : Z := Z.lxor (Z.lxor b c) d.
Definition I (b c d : Z) : Z := Z.lxor (Z.lor (u32 (Z.lnot d)) b) c.

(** The new value of [a]. *)
Definition R0 (a b c d k s t : Z) : Z :=
  let a := u32 (a + (k + t + F b c d)) in let a := ROTATE a s in u32 (a + b).
Definition R1 (a b c d k s t : Z) : Z :=
  let a := u32 (a + (k + t + G b c d)) in let a := ROTATE a s in u32 (a + b).
Definition R2 (a b c d k s t : Z) : Z :=
  let a := u32 (a + (k + t + H b c d)) in let a := ROTATE a s in u32 (a + b).
Definition R3 (a b c d k s t : Z) : Z :=
  let a := u32 (a + (k + t + I b c d)) in let a := ROTATE a s in u32 (a + b).

(** One turn of the loop. The sixteen loads come first: they only read [data]. *)
Definition md5_block (state data : list Z) : list Z :=
  let! X := load_words DATA_ORDER_IS_LITTLE_ENDIAN data in
  let! A := get state 0 in
  let! B := get state 1 in
  let! C := get state 2 in
  let! D := get state 3 in
  let! A := R0 A B C D (get X 0) 7 0xd76aa478 in
  let! D := R0 D A B C (get X 1) 12 0xe8c7b756 in
  let! C := R0 C D A B (get X 2) 17 0x242070db in
  let! B := R0 B C D A (get X 3) 22 0xc1bdceee in
  let! A := R0 A B C D (get X 4) 7 0xf57c0faf in
  let! D := R0 D A B C (get X 5) 12 0x4787c62a in
  let! C := R0 C D A B (get X 6) 17 0xa8304613 in
  let! B := R0 B C D A (get X 7) 22 0xfd469501 in
  let! A := R0 A B C D (get X 8) 7 0x698098d8 in
  let! D := R0 D A B C (get X 9) 12 0x8b44f7af in
  let! C := R0 C D A B (get X 10) 17 0xffff5bb1 in
  let! B := R0 B C D A (get X 11) 22 0x895cd7be in
  let! A := R0 A B C D (get X 12) 7 0x6b901122 in
  let! D := R0 D A B C (get X 13) 12 0xfd987193 in
  let! C := R0 C D A B (get X 14) 17 0xa679438e in
  let! B := R0 B C D A (get X 15) 22 0x49b40821 in
  let! A := R1 A B C D (get X 1) 5 0xf61e2562 in
  let! D := R1 D A B C (get X 6) 9 0xc040b340 in
  let! C := R1 C D A B (get X 11) 14 0x265e5a51 in
  let! B := R1 B C D A (get X 0) 20 0xe9b6c7aa in
  let! A := R1 A B C D (get X 5) 5 0xd62f105d in
  let! D := R1 D A B C (get X 10) 9 0x02441453 in
  let! C := R1 C D A B (get X 15) 14 0xd8a1e681 in
  let! B := R1 B C D A (get X 4) 20 0xe7d3fbc8 in
  let! A := R1 A B C D (get X 9) 5 0x21e1cde6 in
  let! D := R1 D A B C (get X 14) 9 0xc33707d6 in
  let! C := R1 C D A B (get X 3) 14 0xf4d50d87 in
  let! B := R1 B C D A (get X 8) 20 0x455a14ed in
  let! A := R1 A B C D (get X 13) 5 0xa9e3e905 in
  let! D := R1 D A B C (get X 2) 9 0xfcefa3f8 in
  let! C := R1 C D A B (get X 7) 14 0x676f02d9 in
  let! B := R1 B C D A (get X 12) 20 0x8d2a4c8a in
  let! A := R2 A B C D (get X 5) 4 0xfffa3942 in
  let! D := R2 D A B C (get X 8) 11 0x8771f681 in
  let! C := R2 C D A B (get X 11) 16 0x6d9d6122 in
  let! B := R2 B C D A (get X 14) 23 0xfde5380c in
  let! A := R2 A B C D (get X 1) 4 0xa4beea44 in
  let! D := R2 D A B C (get X 4) 11 0x4bdecfa9 in
  let! C := R2 C D A B (get X 7) 16 0xf6bb4b60 in
  let! B := R2 B C D A (get X 10) 23 0xbebfbc70 in
  let! A := R2 A B C D (get X 13) 4 0x289b7ec6 in
  let! D := R2 D A B C (get X 0) 11 0xeaa127fa in
  let! C := R2 C D A B (get X 3) 16 0xd4ef3085 in
  let! B := R2 B C D A (get X 6) 23 0x04881d05 in
  let! A := R2 A B C D (get X 9) 4 0xd9d4d039 in
  let! D := R2 D A B C (get X 12) 11 0xe6db99e5 in
  let! C := R2 C D A B (get X 15) 16 0x1fa27cf8 in
  let! B := R2 B C D A (get X 2) 23 0xc4ac5665 in
  let! A := R3 A B C D (get X 0) 6 0xf4292244 in
  let! D := R3 D A B C (get X 7) 10 0x432aff97 in
  let! C := R3 C D A B (get X 14) 15 0xab9423a7 in
  let! B := R3 B C D A (get X 5) 21 0xfc93a039 in
  let! A := R3 A B C D (get X 12) 6 0x655b59c3 in
  let! D := R3 D A B C (get X 3) 10 0x8f0ccc92 in
  let! C := R3 C D A B (get X 10) 15 0xffeff47d in
  let! B := R3 B C D A (get X 1) 21 0x85845dd1 in
  let! A := R3 A B C D (get X 8) 6 0x6fa87e4f in
  let! D := R3 D A B C (get X 15) 10 0xfe2ce6e0 in
  let! C := R3 C D A B (get X 6) 15 0xa3014314 in
  let! B := R3 B C D A (get X 13) 21 0x4e0811a1 in
  let! A := R3 A B C D (get X 4) 6 0xf7537e82 in
  let! D := R3 D A B C (get X 11) 10 0xbd3af235 in
  let! C := R3 C D A B (get X 2) 15 0x2ad7d2bb in
  let! B := R3 B C D A (get X 9) 21 0xeb86d391 in
  [u32 (get state 0 + A); u32 (get state 1 + B); u32 (get state 2 + C); u32 (get state 3 + D)].

Definition md5_block_data_order (state data : list Z) (num : nat) : list Z := blocks 64 md5_block num state data.

Definition MD5_Init : HASH_CTX := mk_ctx [0x67452301; 0xefcdab89; 0x98badcfe; 0x10325476] 0 0 (repeat 0 64) 0 0.

Definition MD5_Update := HASH_UPDATE md5_block_data_order.
Definition MD5_Transform := HASH_TRANSFORM md5_block_data_order.
Definition MD5_Final := HASH_FINAL DATA_ORDER_IS_LITTLE_ENDIAN md5_block_data_order md4_make_string.

Definition MD5 (data : list Z) : option (list Z) := fst (MD5_Final (MD5_Update MD5_Init data)).
End Md5.

(** ** MD4 *)
Module Md4.
Definition F (b c d : Z) : Z := Z.lxor (Z.land (Z.lxor c d) b) d.
Definition G (b c d : Z) : Z := Z.lor (Z.lor (Z.land b c) (Z.land b d)) (Z.land c d).
Definition H (b c d : Z) : Z := Z.lxor (Z.lxor b c) d.

Definition R0 (a b c d k s t : Z) : Z := let a := u32 (a + (k + t + F b c d)) in ROTATE a s.
Definition R1 (a b c d k s t : Z) : Z := let a := u32 (a + (k + t + G b c d)) in ROTATE a s.
Definition R2 (a b c d k s t : Z) : Z := let a := u32 (a + (k + t + H b c d)) in ROTATE a s.

Definition md4_block (state data : list Z) : list Z :=
  let! X := load_words DATA_ORDER_IS_LITTLE_ENDIAN data in
  let! A := get state 0 in
  let! B := get state 1 in
  let! C := get state 2 in
  let! D := get state 3 in
  let! A := R0 A B C D (get X 0) 3 0 in
  let! D := R0 D A B C (get X 1) 7 0 in
  let! C := R0 C D A B (get X 2) 11 0 in
  let! B := R0 B C D A (get X 3) 19 0 in
  let! A := R0 A B C D (get X 4) 3 0 in
  let! D := R0 D A B C (get X 5) 7 0 in
  let! C := R0 C D A B (get X 6) 11 0 in
  let! B := R0 B C D A (get X 7) 19 0 in
  let! A := R0 A B C D (get X 8) 3 0 in
  let! D := R0 D A B C (get X 9) 7 0 in
  let! C := R0 C D A B (get X 10) 11 0 in
  let! B := R0 B C D A (get X 11) 19 0 in
  let! A := R0 A B C D (get X 12) 3 0 in
  let! D := R0 D A B C (get X 13) 7 0 in
  let! C := R0 C D A B (get X 14) 11 0 in
  let! B := R0 B C D A (get X 15) 19 0 in
  let! A := R1 A B C D (get X 0) 3 0x5A827999 in
  let! D := R1 D A B C (get X 4) 5 0x5A827999 in
  let! C := R1 C D A B (get X 8) 9 0x5A827999 in
  let! B := R1 B C D A (get X 12) 13 0x5A827999 in
  let! A := R1 A B C D (get X 1) 3 0x5A827999 in
  let! D := R1 D A B C (get X 5) 5 0x5A827999 in
  let! C := R1 C D A B (get X 9) 9 0x5A827999 in
  let! B := R1 B C D A (get X 13) 13 0x5A827999 in
  let! A := R1 A B C D (get X 2) 3 0x5A827999 in
  let! D := R1 D A B C (get X 6) 5 0x5A827999 in
  let! C := R1 C D A B (get X 10) 9 0x5A827999 in
  let! B := R1 B C D A (get X 14) 13 0x5A827999 in
  let! A := R1 A B C D (get X 3) 3 0x5A827999 in
  let! D := R1 D A B C (get X 7) 5 0x5A827999 in
  let! C := R1 C D A B (get X 11) 9 0x5A827999 in
  let! B := R1 B C D A (get X 15) 13 0x5A827999 in
  let! A := R2 A B C D (get X 0) 3 0x6ED9EBA1 in
  let! D := R2 D A B C (get X 8) 9 0x6ED9EBA1 in
  let! C := R2 C D A B (get X 4) 11 0x6ED9EBA1 in
  let! B := R2 B C D A (get X 12) 15 0x6ED9EBA1 in
  let! A := R2 A B C D (get X 2) 3 0x6ED9EBA1 in
  let! D := R2 D A B C (get X 10) 9 0x6ED9EBA1 in
  let! C := R2 C D A B (get X 6) 11 0x6ED9EBA1 in
  let! B := R2 B C D A (get X 14) 15 0x6ED9EBA1 in
  let! A := R2 A B C D (get X 1) 3 0x6ED9EBA1 in
  let! D := R2 D A B C (get X 9) 9 0x6ED9EBA1 in
  let! C := R2 C D A B (get X 5) 11 0x6ED9EBA1 in
  let! B := R2 B C D A (get X 13) 15 0x6ED9EBA1 in
  let! A := R2 A B C D (get X 3) 3 0x6ED9EBA1 in
  let! D := R2 D A B C (get X 11) 9 0x6ED9EBA1 in
  let! C := R2 C D A B (get X 7) 11 0x6ED9EBA1 in
  let! B := R2 B C D A (get X 15) 15 0x6ED9EBA1 in
  [u32 (get state 0 + A); u32 (get state 1 + B); u32 (get state 2 + C); u32 (get state 3 + D)].

Definition md4_block_data_order (state data : list Z) (num : nat) : list Z := blocks 64 md4_block num state data.

Definition MD4_Init : HASH_CTX := mk_ctx [0x67452301; 0xefcdab89; 0x98badcfe; 0x10325476] 0 0 (repeat 0 64) 0 0.

Definition MD4_Update := HASH_UPDATE md4_block_data_order.
Definition MD4_Transform := HASH_TRANSFORM md4_block_data_order.
Definition MD4_Final := HASH_FINAL DATA_ORDER_IS_LITTLE_ENDIAN md4_block_data_order md4_make_string.

Definition MD4 (data : list Z) : option (list Z) := fst (MD4_Final (MD4_Update MD4_Init data)).
End Md4.

(** ** RFC 1321 and RFC 1320 *)

(** The Taylor polynomial of sin(x) / x, from the term of degree [k - 1] on and
    with [n] further terms, as a fraction. *)
Fixpoint sine_series (n : nat) (k x : Z) : Z * Z :=
  match n with
  | O => (1, 1)
  | S n => let '(p, q) := sine_series n (k + 2) x in let m := (k + 1) * (k + 2) in (m * q - x * x * p, m * q)
  end.

(** The integer part of 2^32 times the sine of [i] radians. *)
Definition md5_T (i : Z) : Z := let '(p, q) := sine_series 110 1 i in Z.abs (i * p) * 2 ^ 32 / q.

Definition md5_shift (t : Z) : Z :=
  get (if t <? 16 then [7; 12; 17; 22] else if t <? 32 then [5; 9; 14; 20]
       else if t <? 48 then [4; 11; 16; 23] else [6; 10; 15; 21]) (t mod 4).

Definition md5_index (t : Z) : Z :=
  if t <? 16 then t else if t <? 32 then (5 * t + 1) mod 16 else if t <? 48 then (3 * t + 5) mod 16 else 7 * t mod 16.

(** F, G, H and I in terms of and, or, not: "if X then Y else Z" and so on. *)
Definition md5_f (t x y z : Z) : Z :=
  if t <? 16 then Z.lor (Z.land x y) (Z.ldiff z x)
  else if t <? 32 then Z.lor (Z.land x z) (Z.ldiff y z)
  else if t <? 48 then Z.lxor (Z.lxor x y) z
  else Z.lxor y (Z.lor x (2 ^ 32 - 1 - z)).

Definition md5_step (X : list Z) (t : Z) (s : Z * Z * Z * Z) : Z * Z * Z * Z :=
  let '(a, b, c, d) := s in
  (d, u32 (b + rotl 32 (md5_shift t) (u32 (a + md5_f t b c d + get X (md5_index t) + md5_T (t + 1)))), b, c).

(** Sixteen little-endian words of a block. *)
Definition block_words_le (d : list Z) : list Z := map (fun i => be_val (rev (load d (4 * Z.of_nat i) 4))) (seq 0 16).

Definition md5_compress (st d : list Z) : list Z :=
  let '(a, b, c, e) := rounds (md5_step (block_words_le d)) 64 (get st 0, get st 1, get st 2, get st 3) in
  [u32 (get st 0 + a); u32 (get st 1 + b); u32 (get st 2 + c); u32 (get st 3 + e)].

Definition le_bytes (n : nat) (v : Z) : list Z := rev (be_enc n v).

Definition rfc_md5 (msg : list Z) : list Z :=
  flat_map (le_bytes 4) (md_hash 64 md5_compress (le_bytes 8) [0x67452301; 0xefcdab89; 0x98badcfe; 0x10325476] msg).

Definition md4_shift (t : Z) : Z :=
  get (if t <? 16 then [3; 7; 11; 19] else if t <? 32 then [3; 5; 9; 13] else [3; 9; 11; 15]) (t mod 4).

(** Bit reversal of the two low and the two high bits orders the third round. *)
Definition md4_index (t : Z) : Z :=
  if t <? 16 then t else if t <? 32 then 4 * (t mod 4) + t mod 16 / 4
  else 8 * (t mod 2) + 4 * (t / 2 mod 2) + 2 * (t / 4 mod 2) + t / 8 mod 2.

Definition md4_f (t x y z : Z) : Z :=
  if t <? 16 then Z.lor (Z.land x y) (Z.ldiff z x) else if t <? 32 then DigestSpec.Maj x y z else Z.lxor (Z.lxor x y) z.

(** Nothing, then 2^30 times the square roots of 2 and 3. *)
Definition md4_K (t : Z) : Z := if t <? 16 then 0 else if t <? 32 then root 2 (2 * 2 ^ 60) else root 2 (3 * 2 ^ 60).

Definition md4_step (X : list Z) (t : Z) (s : Z * Z * Z * Z) : Z * Z * Z * Z :=
  let '(a, b, c, d) := s in
  (d, rotl 32 (md4_shift t) (u32 (a + md4_f t b c d + get X (md4_index t) + md4_K t)), b, c).

Definition md4_compress (st d : list Z) : list Z :=
  let '(a, b, c, e) := rounds (md4_step (block_words_le d)) 48 (get st 0, get st 1, get st 2, get st 3) in
  [u32 (get st 0 + a); u32 (get st 1 + b); u32 (get st 2 + c); u32 (get st 3 + e)].

Definition rfc_md4 (msg : list Z) : list Z :=
  flat_map (le_bytes 4) (md_hash 64 md4_compress (le_bytes 8) [0x67452301; 0xefcdab89; 0x98badcfe; 0x10325476] msg).

(** ** MD5: the code is the standard *)

Definition md5_T_list : list Z :=
  [0xd76aa478; 0xe8c7b756; 0x242070db; 0xc1bdceee; 0xf57c0faf; 0x4787c62a; 0xa8304613; 0xfd469501;
   0x698098d8; 0x8b44f7af; 0xffff5bb1; 0x895cd7be; 0x6b901122; 0xfd987193; 0xa679438e; 0x49b40821;
   0xf61e2562; 0xc040b340; 0x265e5a51; 0xe9b6c7aa; 0xd62f105d; 0x02441453; 0xd8a1e681; 0xe7d3fbc8;
   0x21e1cde6; 0xc33707d6; 0xf4d50d87; 0x455a14ed; 0xa9e3e905; 0xfcefa3f8; 0x676f02d9; 0x8d2a4c8a;
   0xfffa3942; 0x8771f681; 0x6d9d6122; 0xfde5380c; 0xa4beea44; 0x4bdecfa9; 0xf6bb4b60; 0xbebfbc70;
   0x289b7ec6; 0xeaa127fa; 0xd4ef3085; 0x04881d05; 0xd9d4d039; 0xe6db99e5; 0x1fa27cf8; 0xc4ac5665;
   0xf4292244; 0x432aff97; 0xab9423a7; 0xfc93a039; 0x655b59c3; 0x8f0ccc92; 0xffeff47d; 0x85845dd1;
   0x6fa87e4f; 0xfe2ce6e0; 0xa3014314; 0x4e0811a1; 0xf7537e82; 0xbd3af235; 0x2ad7d2bb; 0xeb86d391].

Lemma md5_T_values : map (fun i => md5_T (Z.of_nat i)) (seq 1 64) = md5_T_list.
Proof. vm_compute. reflexivity. Qed.

Lemma md5_T_value t : 0 <= t < 64 -> md5_T (t + 1) = get md5_T_list t.
Proof.
  intros Ht. rewrite <- md5_T_values, <- seq_shift, map_map. rewrite (get_map_seq _ 64) by lia. f_equal. lia.
Qed.

(** The rewritten F and G, and I with its complement. *)
Lemma if_then_else x y z : Z.lxor (Z.land (Z.lxor y z) x) z = Z.lor (Z.land x y) (Z.ldiff z x).
Proof. bits. Qed.

Lemma else_then_if x y z : Z.lxor (Z.land (Z.lxor x y) z) y = Z.lor (Z.land x z) (Z.ldiff y z).
Proof. bits. Qed.

Lemma not_word z : word32 z -> u32 (Z.lnot z) = 2 ^ 32 - 1 - z.
Proof. intros Hz. unfold word32 in Hz. unfold wrap. symmetry. apply Z.mod_unique with (-1); unfold Z.lnot; lia. Qed.

Lemma md4_G_maj x y z : Z.lor (Z.lor (Z.land x y) (Z.land x z)) (Z.land y z) = DigestSpec.Maj x y z.
Proof. unfold DigestSpec.Maj. bits. Qed.

Definition words4 (s : Z * Z * Z * Z) : Prop := let '(a, b, c, d) := s in word32 a /\ word32 b /\ word32 c /\ word32 d.

Section Rounds.
Variable X : list Z.
Variable s0 : Z * Z * Z * Z.

Definition md5_inv (t : nat) (s : Z * Z * Z * Z) : Prop := s = rounds (md5_step X) t s0 /\ words4 s.

Lemma md5_turn t a b c d f k s T : md5_inv t (a, b, c, d) -> (t < 64)%nat -> 0 < s < 32 ->
  f = md5_f (Z.of_nat t) b c d ->
  k = md5_index (Z.of_nat t) -> s = md5_shift (Z.of_nat t) -> T = get md5_T_list (Z.of_nat t) ->
  md5_inv (S t) (d, u32 (ROTATE (u32 (a + (get X k + T + f))) s + b), b, c).
Proof.
  intros (Hs & Ha & Hb & Hc & Hd) Ht Hr -> Ek Es ET. split.
  - cbn [rounds]. rewrite <- Hs. unfold md5_step. rewrite <- Ek, <- Es, md5_T_value, <- ET by lia.
    rewrite ROTATE_rotl by (apply u32_word || lia). do 3 f_equal. f_equal.
    rewrite (Z.add_comm b). do 3 f_equal. lia.
  - cbn [words4]. splits; auto with words.
Qed.

Ltac f_case := unfold md5_f; repeat match goal with |- context [Z.of_nat ?x <? ?y] => destruct (Z.ltb_spec (Z.of_nat x) y); try lia end.

Lemma md5_R0 t a b c d k s T : md5_inv t (a, b, c, d) -> (t < 16)%nat -> 0 < s < 32 ->
  k = md5_index (Z.of_nat t) -> s = md5_shift (Z.of_nat t) -> T = get md5_T_list (Z.of_nat t) ->
  md5_inv (S t) (d, Md5.R0 a b c d (get X k) s T, b, c).
Proof. intros. apply md5_turn; try assumption; [lia |]. f_case. apply if_then_else. Qed.

Lemma md5_R1 t a b c d k s T : md5_inv t (a, b, c, d) -> (16 <= t < 32)%nat -> 0 < s < 32 ->
  k = md5_index (Z.of_nat t) -> s = md5_shift (Z.of_nat t) -> T = get md5_T_list (Z.of_nat t) ->
  md5_inv (S t) (d, Md5.R1 a b c d (get X k) s T, b, c).
Proof. intros. apply md5_turn; try assumption; [lia |]. f_case. apply else_then_if. Qed.

Lemma md5_R2 t a b c d k s T : md5_inv t (a, b, c, d) -> (32 <= t < 48)%nat -> 0 < s < 32 ->
  k = md5_index (Z.of_nat t) -> s = md5_shift (Z.of_nat t) -> T = get md5_T_list (Z.of_nat t) ->
  md5_inv (S t) (d, Md5.R2 a b c d (get X k) s T, b, c).
Proof. intros. apply md5_turn; try assumption; [lia |]. f_case. reflexivity. Qed.

Lemma md5_R3 t a b c d k s T : md5_inv t (a, b, c, d) -> (48 <= t < 64)%nat -> 0 < s < 32 ->
  k = md5_index (Z.of_nat t) -> s = md5_shift (Z.of_nat t) -> T = get md5_T_list (Z.of_nat t) ->
  md5_inv (S t) (d, Md5.R3 a b c d (get X k) s T, b, c).
Proof.
  intros H. intros. apply md5_turn; try assumption; [lia |]. f_case. unfold Md5.I.
  destruct H as (_ & _ & _ & _ & Hd). rewrite not_word by exact Hd. rewrite Z.lor_comm. apply Z.lxor_comm.
Qed.

Definition md4_inv (t : nat) (s : Z * Z * Z * Z) : Prop := s = rounds (md4_step X) t s0 /\ words4 s.

Lemma md4_turn t a b c d f k s K : md4_inv t (a, b, c, d) -> 0 < s < 32 ->
  f = md4_f (Z.of_nat t) b c d ->
  k = md4_index (Z.of_nat t) -> s = md4_shift (Z.of_nat t) -> K = md4_K (Z.of_nat t) ->
  md4_inv (S t) (d, ROTATE (u32 (a + (get X k + K + f))) s, b, c).
Proof.
  intros (Hs & Ha & Hb & Hc & Hd) Hr -> Ek Es EK. rewrite ROTATE_rotl by (apply u32_word || lia). split.
  - cbn [rounds]. rewrite <- Hs. unfold md4_step. rewrite <- Ek, <- Es, <- EK. do 5 f_equal. lia.
  - cbn [words4]. splits; auto with words.
Qed.

Ltac f_case4 := unfold md4_f; repeat match goal with |- context [Z.of_nat ?x <? ?y] => destruct (Z.ltb_spec (Z.of_nat x) y); try lia end.

Lemma md4_R0 t a b c d k s K : md4_inv t (a, b, c, d) -> (t < 16)%nat -> 0 < s < 32 ->
  k = md4_index (Z.of_nat t) -> s = md4_shift (Z.of_nat t) -> K = md4_K (Z.of_nat t) ->
  md4_inv (S t) (d, Md4.R0 a b c d (get X k) s K, b, c).
Proof. intros. apply md4_turn; try assumption. f_case4. apply if_then_else. Qed.

Lemma md4_R1 t a b c d k s K : md4_inv t (a, b, c, d) -> (16 <= t < 32)%nat -> 0 < s < 32 ->
  k = md4_index (Z.of_nat t) -> s = md4_shift (Z.of_nat t) -> K = md4_K (Z.of_nat t) ->
  md4_inv (S t) (d, Md4.R1 a b c d (get X k) s K, b, c).
Proof. intros. apply md4_turn; try assumption. f_case4. apply md4_G_maj. Qed.

Lemma md4_R2 t a b c d k s K : md4_inv t (a, b, c, d) -> (32 <= t)%nat -> 0 < s < 32 ->
  k = md4_index (Z.of_nat t) -> s = md4_shift (Z.of_nat t) -> K = md4_K (Z.of_nat t) ->
  md4_inv (S t) (d, Md4.R2 a b c d (get X k) s K, b, c).
Proof. intros. apply md4_turn; try assumption. f_case4. reflexivity. Qed.
End Rounds.

(** One assignment of the code, one round of the invariant [HI]. *)
Ltac name_let x Hx := apply assign_intro; intros x Hx.

Ltac md5_next X s0 HI :=
  let x := fresh "r" in let Hx := fresh "Hx" in name_let x Hx;
  lazymatch type of HI with
  | md5_inv _ _ ?t (?a, ?b, ?c, ?d) =>
    lazymatch type of Hx with
    | _ = ?R a b c d (get X ?k) ?s ?T =>
        let L := lazymatch R with Md5.R0 => constr:(md5_R0) | Md5.R1 => constr:(md5_R1) | Md5.R2 => constr:(md5_R2) | Md5.R3 => constr:(md5_R3) end in
        let H := fresh in
        pose proof (L X s0 t a b c d k s T HI ltac:(lia) ltac:(lia) eq_refl eq_refl eq_refl) as H;
        rewrite <- Hx in H; clear HI Hx; rename H into HI
    end
  end.

Ltac md4_next X s0 HI :=
  let x := fresh "r" in let Hx := fresh "Hx" in name_let x Hx;
  lazymatch type of HI with
  | md4_inv _ _ ?t (?a, ?b, ?c, ?d) =>
    lazymatch type of Hx with
    | _ = ?R a b c d (get X ?k) ?s ?K =>
        let L := lazymatch R with Md4.R0 => constr:(md4_R0) | Md4.R1 => constr:(md4_R1) | Md4.R2 => constr:(md4_R2) end in
        let H := fresh in
        pose proof (L X s0 t a b c d k s K HI ltac:(lia) ltac:(lia) eq_refl eq_refl ltac:(vm_compute; reflexivity)) as H;
        rewrite <- Hx in H; clear HI Hx; rename H into HI
    end
  end.

Lemma load_words_le d : bytes_ok d -> len d = 64 -> load_words DATA_ORDER_IS_LITTLE_ENDIAN d = block_words_le d.
Proof.
  intros Hd Hl. unfold load_words, block_words_le. apply map_ext_in. intros i Hi. apply in_seq in Hi.
  assert (E : HOST_c2l DATA_ORDER_IS_LITTLE_ENDIAN (drop (4 * Z.of_nat i) d) = HOST_c2l DATA_ORDER_IS_LITTLE_ENDIAN (load d (4 * Z.of_nat i) 4)).
  { unfold HOST_c2l, load. now rewrite !get_take by lia. }
  rewrite E, HOST_c2l_val; [reflexivity | now apply bytes_ok_load | apply len_load; lia].
Qed.

Lemma md5_block_correct st d : state_ok 4 st -> bytes_ok d -> len d = 64 -> Md5.md5_block st d = md5_compress st d.
Proof.
  intros Hst Hd Hl. unfold md5_compress. rewrite <- load_words_le by assumption. unfold Md5.md5_block.
  name_let X HX. rewrite <- HX. clear HX.
  set (s0 := (get st 0, get st 1, get st 2, get st 3)).
  assert (HI : md5_inv X s0 0 (get st 0, get st 1, get st 2, get st 3)).
  { split; [reflexivity |]. cbn [words4]. splits; apply (state_get 4); (assumption || lia). }
  name_let A HA. name_let B HB. name_let C HC. name_let D HD. rewrite <- HA, <- HB, <- HC, <- HD in HI.
  do 64 md5_next X s0 HI.
  destruct HI as [E _]. now rewrite <- E.
Qed.

Lemma md4_block_correct st d : state_ok 4 st -> bytes_ok d -> len d = 64 -> Md4.md4_block st d = md4_compress st d.
Proof.
  intros Hst Hd Hl. unfold md4_compress. rewrite <- load_words_le by assumption. unfold Md4.md4_block.
  name_let X HX. rewrite <- HX. clear HX.
  set (s0 := (get st 0, get st 1, get st 2, get st 3)).
  assert (HI : md4_inv X s0 0 (get st 0, get st 1, get st 2, get st 3)).
  { split; [reflexivity |]. cbn [words4]. splits; apply (state_get 4); (assumption || lia). }
  name_let A HA. name_let B HB. name_let C HC. name_let D HD. rewrite <- HA, <- HB, <- HC, <- HD in HI.
  do 48 md4_next X s0 HI.
  destruct HI as [E _]. now rewrite <- E.
Qed.

(** ** Whole digests *)

#[export] Instance md5_blocks : BlockFunction Md5.md5_block_data_order Md5.md5_block.
Proof. now constructor. Qed.

#[export] Instance md4_blocks : BlockFunction Md4.md4_block_data_order Md4.md4_block.
Proof. now constructor. Qed.

Lemma four_words_ok a b c d : state_ok 4 [u32 a; u32 b; u32 c; u32 d].
Proof. apply state_words; [reflexivity |]. repeat constructor; apply u32_word. Qed.

Lemma md_hash_le block compress h0 msg : (forall st d, state_ok 4 st -> bytes_ok d -> len d = 64 -> block st d = compress st d) ->
  (forall st d, state_ok 4 (compress st d)) -> state_ok 4 h0 -> bytes_ok msg ->
  md_hash 64 block (le_bytes 8) h0 msg = md_hash 64 compress (le_bytes 8) h0 msg /\
  len (md_hash 64 compress (le_bytes 8) h0 msg) = 4.
Proof.
  intros Hb Hc H0 Hm. destruct (md_hash_ext 64 block eq_refl (state_ok 4) compress (le_bytes 8) h0 msg) as [E HP].
  - intros st d Hst Hd Hl. split; [now apply Hb | apply Hc].
  - exact H0.
  - exact Hm.
  - intros. apply Forall_rev, be_enc_bytes.
  - split; [exact E | apply HP].
Qed.

Lemma md4_string h nl nh : len h = 4 -> md4_make_string (mk_ctx h nl nh (repeat 0 64) 0 0) = Some (flat_map (le_bytes 4) h).
Proof.
  intros Hl. destruct h as [| a [| b [| c [| d [| ? ?]]]]]; rewrite ?len_cons, ?len_nil in Hl; pose_lens; try lia.
  unfold md4_make_string. rewrite !HOST_l2c_enc. cbn [flat_map]. rewrite app_nil_r. reflexivity.
Qed.

Definition md_h0 : list Z := [0x67452301; 0xefcdab89; 0x98badcfe; 0x10325476].

Lemma md_h0_ok : state_ok 4 md_h0.
Proof. apply state_words; [reflexivity | word_literals]. Qed.

Lemma md5_hash msg : bytes_ok msg ->
  md_hash 64 Md5.md5_block (le_bytes 8) md_h0 msg = md_hash 64 md5_compress (le_bytes 8) md_h0 msg /\
  len (md_hash 64 md5_compress (le_bytes 8) md_h0 msg) = 4.
Proof.
  intros Hb. apply md_hash_le; [exact md5_block_correct | | exact md_h0_ok | exact Hb].
  intros st d. unfold md5_compress. destruct (rounds _ _ _) as [[[a b] c] e]. apply four_words_ok.
Qed.

Lemma md4_hash msg : bytes_ok msg ->
  md_hash 64 Md4.md4_block (le_bytes 8) md_h0 msg = md_hash 64 md4_compress (le_bytes 8) md_h0 msg /\
  len (md_hash 64 md4_compress (le_bytes 8) md_h0 msg) = 4.
Proof.
  intros Hb. apply md_hash_le; [exact md4_block_correct | | exact md_h0_ok | exact Hb].
  intros st d. unfold md4_compress. destruct (rounds _ _ _) as [[[a b] c] e]. apply four_words_ok.
Qed.

(** The string the final functions make of the last state. *)
Lemma md5_output msg nl nh : bytes_ok msg ->
  md4_make_string (mk_ctx (md_hash HASH_CBLOCK Md5.md5_block (length_field DATA_ORDER_IS_LITTLE_ENDIAN) md_h0 msg)
    nl nh (repeat 0 64) 0 0) = Some (rfc_md5 msg).
Proof.
  intros Hb. destruct (md5_hash msg Hb) as [E Hn].
  change (length_field DATA_ORDER_IS_LITTLE_ENDIAN) with (le_bytes 8). change HASH_CBLOCK with 64. rewrite E.
  unfold rfc_md5. fold md_h0. set (H := md_hash 64 md5_compress (le_bytes 8) md_h0 msg) in *. clearbody H.
  exact (md4_string H _ _ Hn).
Qed.

Lemma md4_output msg nl nh : bytes_ok msg ->
  md4_make_string (mk_ctx (md_hash HASH_CBLOCK Md4.md4_block (length_field DATA_ORDER_IS_LITTLE_ENDIAN) md_h0 msg)
    nl nh (repeat 0 64) 0 0) = Some (rfc_md4 msg).
Proof.
  intros Hb. destruct (md4_hash msg Hb) as [E Hn].
  change (length_field DATA_ORDER_IS_LITTLE_ENDIAN) with (le_bytes 8). change HASH_CBLOCK with 64. rewrite E.
  unfold rfc_md4. fold md_h0. set (H := md_hash 64 md4_compress (le_bytes 8) md_h0 msg) in *. clearbody H.
  exact (md4_string H _ _ Hn).
Qed.

Lemma flat_map_le n (l : list Z) : len (flat_map (le_bytes n) l) = Z.of_nat n * len l /\ bytes_ok (flat_map (le_bytes n) l).
Proof.
  induction l as [| x l [IH1 IH2]]; cbn [flat_map]; [split; [cbn; lia | constructor] |]. unfold le_bytes in *.
  rewrite len_app, len_rev, be_enc_len, IH1, len_cons. split; [lia |]. apply bytes_ok_app.
  split; [apply Forall_rev, be_enc_bytes | exact IH2].
Qed.

Lemma rfc_lens msg : bytes_ok msg -> (len (rfc_md5 msg) = 16 /\ bytes_ok (rfc_md5 msg)) /\ (len (rfc_md4 msg) = 16 /\ bytes_ok (rfc_md4 msg)).
Proof.
  intros Hb. unfold rfc_md5, rfc_md4. fold md_h0. rewrite !(proj1 (flat_map_le 4 _)), (proj2 (md5_hash msg Hb)), (proj2 (md4_hash msg Hb)).
  splits; reflexivity || apply flat_map_le.
Qed.

(** C24: for every way of cutting a message into calls, MD4 and MD5 return the
    digests that RFC 1320 and RFC 1321 define for the whole message, the MD5
    constants being the digits of the sines of 1 to 64. *)
Theorem md_stream_is_rfc chunks : Forall bytes_ok chunks -> Forall (fun d => len d < 2 ^ 64) chunks ->
  let msg := concat chunks in
  fst (Md5.MD5_Final (fold_left Md5.MD5_Update chunks Md5.MD5_Init)) = Some (rfc_md5 msg) /\
  fst (Md4.MD4_Final (fold_left Md4.MD4_Update chunks Md4.MD4_Init)) = Some (rfc_md4 msg).
Proof.
  intros Hb Hl msg. apply bytes_ok_concat in Hb. fold msg in Hb.
  destruct (collector_digest (f := Md5.md5_block_data_order) DATA_ORDER_IS_LITTLE_ENDIAN md4_make_string md_h0 0 chunks Hl) as [_ E5].
  destruct (collector_digest (f := Md4.md4_block_data_order) DATA_ORDER_IS_LITTLE_ENDIAN md4_make_string md_h0 0 chunks Hl) as [_ E4].
  unfold Md5.MD5_Final, Md5.MD5_Update, Md4.MD4_Final, Md4.MD4_Update.
  change Md5.MD5_Init with (fresh md_h0 0). change Md4.MD4_Init with (fresh md_h0 0). rewrite E5, E4.
  exact (conj (md5_output msg _ _ Hb) (md4_output msg _ _ Hb)).
Qed.

Example md5_abc : option_map be_val (Md5.MD5 [97; 98; 99]) = Some 0x900150983cd24fb0d6963f7d28e17f72.
Proof. vm_compute. reflexivity. Qed.

Lemma md_stream_is_rfc_witness :
  fst (Md5.MD5_Final (fold_left Md5.MD5_Update [[97]; [98; 99]] Md5.MD5_Init)) = Some (rfc_md5 [97; 98; 99]).
Proof.
  assert (Hb : Forall bytes_ok [[97]; [98; 99]]) by (repeat constructor; unfold byte_ok; lia).
  assert (Hl : Forall (fun d : list Z => len d < 2 ^ 64) [[97]; [98; 99]]) by (repeat constructor).
  exact (proj1 (md_stream_is_rfc [[97]; [98; 99]] Hb Hl)).
Defined.
