(* ===== verification/Evp.v ===== *)
(** * Message digests behind one interface (crypto/fipsmodule/digest/digest.c, digests.c)

    An [EVP_MD] is a table of functions and an [EVP_MD_CTX] points to the memory
    of the digest it was initialised for. [MessageDigest] states what a table
    promises; the digests of Sha, Sha512 and Md5 are its instances, and Hmac is
    proved against it. *)

From S2P Require Import Prelude Buffers DigestSpec Md32 Sha Sha512 Md5.

(** The memory [md_data] points to: the context of an algorithm, or bytes that
    are none yet (fresh or cleansed). *)
Inductive md_memory : Type :=
  | Ctx32 (c : HASH_CTX)
  | Ctx512 (c : SHA512_CTX)
  | MD5_SHA1_CTX (md5 sha1 : HASH_CTX)
  | Raw (bytes : list Z).

(** Functions on a context that read memory no [init] has prepared, or call
    through a null pointer, have no meaning: [None]. *)
Record EVP_MD_st := mk_evp_md {
  type : Z; md_size : Z;
  init : md_memory -> option md_memory;
  update : md_memory -> list Z -> option md_memory;
  final : md_memory -> option (list Z * md_memory);
  block_size : Z; ctx_size : Z }.

Definition EVP_MAX_MD_SIZE : Z := 64.
Definition EVP_MAX_MD_BLOCK_SIZE : Z := 128.

(** ** The tables of digests.c

    [CHECK] ignores the result of the functions it wraps. *)
Definition on32 {A} (f : HASH_CTX -> A) (m : md_memory) : option A := match m with Ctx32 c => Some (f c) | _ => None end.
Definition out32 (r : option (list Z) * HASH_CTX) : option (list Z * md_memory) :=
  match r with (Some d, c) => Some (d, Ctx32 c) | (None, _) => None end.
Definition final32 (f : HASH_CTX -> option (list Z) * HASH_CTX) (m : md_memory) : option (list Z * md_memory) :=
  match m with Ctx32 c => out32 (f c) | _ => None end.

Definition EVP_md4 : EVP_MD_st :=
  mk_evp_md 257 16 (fun _ => Some (Ctx32 Md4.MD4_Init)) (fun m d => on32 (fun c => Ctx32 (Md4.MD4_Update c d)) m)
    (final32 Md4.MD4_Final) 64 92.
Definition EVP_md5 : EVP_MD_st :=
  mk_evp_md 4 16 (fun _ => Some (Ctx32 Md5.MD5_Init)) (fun m d => on32 (fun c => Ctx32 (Md5.MD5_Update c d)) m)
    (final32 Md5.MD5_Final) 64 92.
Definition EVP_sha1 : EVP_MD_st :=
  mk_evp_md 64 20 (fun _ => Some (Ctx32 Sha1.SHA1_Init)) (fun m d => on32 (fun c => Ctx32 (Sha1.SHA1_Update c d)) m)
    (final32 Sha1.SHA1_Final) 64 96.
Definition EVP_sha224 : EVP_MD_st :=
  mk_evp_md 675 28 (fun _ => Some (Ctx32 Sha256.SHA224_Init)) (fun m d => on32 (fun c => Ctx32 (Sha256.SHA224_Update c d)) m)
    (final32 Sha256.SHA224_Final) 64 112.
Definition EVP_sha256 : EVP_MD_st :=
  mk_evp_md 672 32 (fun _ => Some (Ctx32 Sha256.SHA256_Init)) (fun m d => on32 (fun c => Ctx32 (Sha256.SHA256_Update c d)) m)
    (final32 Sha256.SHA256_Final) 64 112.

(** The buffer of a SHA512_CTX is at byte 80 of it and keeps what it held. *)
Definition u_of_memory (m : md_memory) : option (list Z) :=
  match m with Ctx512 c => Some (u c) | Raw l => Some (load l 80 128) | _ => None end.
Definition final512 (m : md_memory) : option (list Z * md_memory) :=
  match m with
  | Ctx512 c => match SHA512_Final false c with (Some d, c) => Some (d, Ctx512 c) | (None, _) => None end
  | _ => None
  end.
Definition update512 (m : md_memory) (d : list Z) : option md_memory :=
  match m with Ctx512 c => Some (Ctx512 (SHA512_Update false c d)) | _ => None end.

Definition EVP_sha384 : EVP_MD_st :=
  mk_evp_md 673 48 (fun m => let* u := u_of_memory m in Some (Ctx512 (SHA384_Init u))) update512 final512 128 216.
Definition EVP_sha512 : EVP_MD_st :=
  mk_evp_md 674 64 (fun m => let* u := u_of_memory m in Some (Ctx512 (SHA512_Init u))) update512 final512 128 216.

Definition md5_sha1_update (m : md_memory) (d : list Z) : option md_memory :=
  match m with MD5_SHA1_CTX a b => Some (MD5_SHA1_CTX (Md5.MD5_Update a d) (Sha1.SHA1_Update b d)) | _ => None end.
Definition md5_sha1_final (m : md_memory) : option (list Z * md_memory) :=
  match m with
  | MD5_SHA1_CTX a b =>
      let (x, a) := Md5.MD5_Final a in
      let (y, b) := Sha1.SHA1_Final b in
      let* x := x in let* y := y in Some (x ++ y, MD5_SHA1_CTX a b)
  | _ => None
  end.
Definition EVP_md5_sha1 : EVP_MD_st :=
  mk_evp_md 114 36 (fun _ => Some (MD5_SHA1_CTX Md5.MD5_Init Sha1.SHA1_Init)) md5_sha1_update md5_sha1_final 64 188.

(** ** Contexts (digest.c) *)

(** [digest] is a pointer to a static table: two are equal when their types are. *)
Record EVP_MD_CTX := mk_md_ctx { digest : option EVP_MD_st; md_data : option md_memory; pctx : option Z }.

Definition same_digest (a b : option EVP_MD_st) : bool :=
  match a, b with
  | None, None => true
  | Some a, Some b => type a =? type b
  | _, _ => false
  end.

Section Contexts.
Variable alloc_ok : Z -> bool.             (* a request of so many bytes succeeds *)
Variable junk : Z -> list Z.               (* what fresh memory of a size holds *)
Variable dup : Z -> option Z.              (* pctx_ops->dup *)

Definition EVP_MD_CTX_init : EVP_MD_CTX := mk_md_ctx None None None.
Definition EVP_MD_CTX_cleanup (ctx : EVP_MD_CTX) : EVP_MD_CTX := EVP_MD_CTX_init.

Definition OPENSSL_malloc (n : Z) : option md_memory := if alloc_ok n then Some (Raw (junk n)) else None.

(** The result, and [out] after the call. *)
Definition EVP_MD_CTX_copy_ex (out i : EVP_MD_CTX) : option (bool * EVP_MD_CTX) :=
  match digest i with
  | None => Some (false, out)
  | Some d =>
      match (match pctx i with None => Some None | Some p => option_map Some (dup p) end) with
      | None => Some (false, out)
      | Some pc =>
          let tmp_buf :=
            if negb (same_digest (digest out) (digest i)) then OPENSSL_malloc (ctx_size d) else md_data out in
          match tmp_buf with
          | None => if negb (same_digest (digest out) (digest i)) then Some (false, out) else None
          | Some _ =>
              let* data := md_data i in
              Some (true, mk_md_ctx (digest i) (Some data) pc)
          end
      end
  end.

Definition EVP_MD_CTX_copy (i : EVP_MD_CTX) : option (bool * EVP_MD_CTX) := EVP_MD_CTX_copy_ex EVP_MD_CTX_init i.

Definition EVP_DigestInit_ex (ctx : EVP_MD_CTX) (t : EVP_MD_st) : option (bool * EVP_MD_CTX) :=
  let start (ctx : EVP_MD_CTX) :=
    let* d := digest ctx in
    let* m := md_data ctx in
    let* m := init d m in
    Some (true, mk_md_ctx (digest ctx) (Some m) (pctx ctx)) in
  if negb (same_digest (digest ctx) (Some t)) then
    match OPENSSL_malloc (ctx_size t) with
    | None => Some (false, ctx)
    | Some m => start (mk_md_ctx (Some t) (Some m) (pctx ctx))
    end
  else start ctx.

Definition EVP_DigestInit (t : EVP_MD_st) : option (bool * EVP_MD_CTX) := EVP_DigestInit_ex EVP_MD_CTX_init t.

Definition EVP_DigestUpdate (ctx : EVP_MD_CTX) (data : list Z) : option (bool * EVP_MD_CTX) :=
  let* d := digest ctx in
  let* m := md_data ctx in
  let* m := update d m data in
  Some (true, mk_md_ctx (digest ctx) (Some m) (pctx ctx)).

(** The digest written, and the context with its memory cleansed. *)
Definition EVP_DigestFinal_ex (ctx : EVP_MD_CTX) : option (list Z * EVP_MD_CTX) :=
  let* d := digest ctx in
  let* m := md_data ctx in
  let* r := final d m in
  Some (fst r, mk_md_ctx (digest ctx) (Some (Raw (repeat 0 (Z.to_nat (ctx_size d))))) (pctx ctx)).

Definition EVP_DigestFinal (ctx : EVP_MD_CTX) : option (list Z * EVP_MD_CTX) :=
  let* r := EVP_DigestFinal_ex ctx in Some (fst r, EVP_MD_CTX_cleanup (snd r)).

(** [Some None]: the call returns 0. *)
Definition EVP_Digest (data : list Z) (t : EVP_MD_st) : option (option (list Z)) :=
  let ctx := EVP_MD_CTX_init in
  let* r := EVP_DigestInit_ex ctx t in
  if fst r then
    let* r := EVP_DigestUpdate (snd r) data in
    if fst r then let* r := EVP_DigestFinal_ex (snd r) in Some (Some (fst r)) else Some None
  else Some None.
End Contexts.

(** ** The promise of a table *)

(** [md] computes the function [H]: its memory after [init] and updates with the
    pieces of [msg] [holds msg], whatever the memory was. *)
Class MessageDigest (md : EVP_MD_st) (H : list Z -> list Z) : Type := {
  usable : md_memory -> Prop;                  (* memory an init may be given *)
  holds : list Z -> md_memory -> Prop;
  fresh_usable : forall l, len l = ctx_size md -> usable (Raw l);
  holds_usable : forall msg m, holds msg m -> usable m;
  init_holds : forall m, usable m -> exists m', init md m = Some m' /\ holds [] m';
  update_holds : forall msg m d, holds msg m -> bytes_ok d -> len d < 2 ^ 64 ->
    exists m', update md m d = Some m' /\ holds (msg ++ d) m';
  final_holds : forall msg m, holds msg m -> exists m', final md m = Some (H msg, m');
  holds_bytes : forall msg m, holds msg m -> bytes_ok msg;
  digest_len : forall msg, bytes_ok msg -> len (H msg) = md_size md /\ bytes_ok (H msg);
  sizes : 0 < md_size md <= EVP_MAX_MD_SIZE /\ md_size md <= block_size md <= EVP_MAX_MD_BLOCK_SIZE /\ 0 < ctx_size md }.

(** ** The digests keep it *)

Section Instances32.
Context {f : list Z -> list Z -> nat -> list Z} {block : list Z -> list Z -> list Z}.
Context `{BF : !BlockFunction f block}.
Variables (o : data_order) (mk : HASH_CTX -> option (list Z)) (h0 : list Z) (mdl : Z) (H : list Z -> list Z) (ty sz csz : Z).
Hypothesis outputs : forall msg nl nh, bytes_ok msg ->
  mk (mk_ctx (md_hash HASH_CBLOCK block (length_field o) h0 msg) nl nh (repeat 0 64) 0 mdl) = Some (H msg).
Hypothesis lens : forall msg, bytes_ok msg -> len (H msg) = sz /\ bytes_ok (H msg).
Hypothesis sz_range : 0 < sz <= 64.
Hypothesis csz_pos : 0 < csz.

Definition table32 : EVP_MD_st :=
  mk_evp_md ty sz (fun _ => Some (Ctx32 (fresh h0 mdl))) (fun m d => on32 (fun c => Ctx32 (HASH_UPDATE f c d)) m)
    (final32 (HASH_FINAL o f mk)) 64 csz.

Definition holds32 (msg : list Z) (m : md_memory) : Prop :=
  bytes_ok msg /\ exists c, m = Ctx32 c /\ collector_ok (compress := block) h0 msg c /\ Md32.md_len c = mdl.

Lemma table32_final msg m : holds32 msg m -> exists m', final table32 m = Some (H msg, m').
Proof.
  intros (Hb & c & -> & Hc & Hm). cbn [final table32 final32]. rewrite (final_ok (f := f) (compress := block) o mk h0 msg c Hc).
  cbn [out32]. rewrite Hm, outputs by exact Hb. now eexists.
Qed.

Lemma table32_update msg m d : holds32 msg m -> bytes_ok d -> len d < 2 ^ 64 ->
  exists m', update table32 m d = Some m' /\ holds32 (msg ++ d) m'.
Proof.
  intros (Hb & c & -> & Hc & Hm) Hd Hl. eexists. split; [reflexivity |]. split; [now apply bytes_ok_app |].
  eexists. split; [reflexivity |]. split; [now apply update_ok | now rewrite update_md_len].
Qed.

Definition digest32 : MessageDigest table32 H.
Proof.
  refine {| usable := fun _ => True; holds := holds32 |}.
  - easy.
  - easy.
  - intros m _. eexists. split; [reflexivity |]. split; [constructor |]. eexists. split; [reflexivity |].
    split; [apply fresh_ok | reflexivity].
  - exact table32_update.
  - exact table32_final.
  - intros msg m Hm. apply Hm.
  - exact lens.
  - unfold EVP_MAX_MD_SIZE, EVP_MAX_MD_BLOCK_SIZE. cbn. lia.
Defined.
End Instances32.

#[export] Instance sha1_digest : MessageDigest EVP_sha1 fips_sha1.
Proof.
  exact (digest32 DATA_ORDER_IS_BIG_ENDIAN Sha1.HASH_MAKE_STRING (Md32.h Sha1.SHA1_Init) 0 fips_sha1 64 20 96
    sha1_output (fun m Hm => proj1 (fips_lens m Hm)) ltac:(lia) ltac:(lia)).
Defined.

#[export] Instance sha256_digest : MessageDigest EVP_sha256 fips_sha256.
Proof.
  exact (digest32 DATA_ORDER_IS_BIG_ENDIAN Sha256.HASH_MAKE_STRING (Md32.h Sha256.SHA256_Init) 32 fips_sha256 672 32 112
    sha256_output (fun m Hm => proj1 (proj2 (fips_lens m Hm))) ltac:(lia) ltac:(lia)).
Defined.

#[export] Instance sha224_digest : MessageDigest EVP_sha224 fips_sha224.
Proof.
  exact (digest32 DATA_ORDER_IS_BIG_ENDIAN Sha256.HASH_MAKE_STRING (Md32.h Sha256.SHA224_Init) 28 fips_sha224 675 28 112
    sha224_output (fun m Hm => proj2 (proj2 (fips_lens m Hm))) ltac:(lia) ltac:(lia)).
Defined.

#[export] Instance md5_digest : MessageDigest EVP_md5 rfc_md5.
Proof.
  exact (digest32 DATA_ORDER_IS_LITTLE_ENDIAN md4_make_string md_h0 0 rfc_md5 4 16 92
    md5_output (fun m Hm => proj1 (rfc_lens m Hm)) ltac:(lia) ltac:(lia)).
Defined.

#[export] Instance md4_digest : MessageDigest EVP_md4 rfc_md4.
Proof.
  exact (digest32 DATA_ORDER_IS_LITTLE_ENDIAN md4_make_string md_h0 0 rfc_md4 257 16 92
    md4_output (fun m Hm => proj2 (rfc_lens m Hm)) ltac:(lia) ltac:(lia)).
Defined.

Section Instances64.
Variables (Init : list Z -> SHA512_CTX) (h0 : list Z) (mdl : Z) (H : list Z -> list Z) (ty : Z).
Hypothesis init_fields : forall u0, Init u0 = mk_ctx512 h0 0 0 u0 0 mdl.
Hypothesis outputs : forall msg c, bytes_ok msg -> sha512_ok h0 msg c -> md_len c = mdl -> fst (SHA512_Final false c) = Some (H msg).
Hypothesis lens : forall msg, bytes_ok msg -> len (H msg) = mdl /\ bytes_ok (H msg).
Hypothesis mdl_range : 0 < mdl <= 64.

Definition table64 : EVP_MD_st :=
  mk_evp_md ty mdl (fun m => let* u := u_of_memory m in Some (Ctx512 (Init u))) update512 final512 128 216.

Definition holds64 (msg : list Z) (m : md_memory) : Prop :=
  bytes_ok msg /\ exists c, m = Ctx512 c /\ sha512_ok h0 msg c /\ md_len c = mdl.

Definition digest64 : MessageDigest table64 H.
Proof.
  refine {| usable := fun m => exists u0, u_of_memory m = Some u0 /\ len u0 = 128; holds := holds64 |}.
  - intros l Hl. eexists. split; [reflexivity |]. apply len_load; cbn in *; lia.
  - intros msg m (_ & c & -> & ((_ & Hu & _) & _) & _). now exists (u c).
  - intros m (u0 & Em & Hu). cbn [init table64]. rewrite Em, init_fields. eexists. split; [reflexivity |].
    split; [constructor |]. eexists. split; [reflexivity |]. split; [| reflexivity].
    split; [now apply absorbed_init | now split].
  - intros msg m d (Hb & c & -> & Hc & Hm) Hd Hl. eexists. split; [reflexivity |]. split; [now apply bytes_ok_app |].
    eexists. split; [reflexivity |]. split; [now apply update512_ok |].
    destruct (fold_update512_ok false h0 [d] msg c Hc ltac:(now constructor)) as [_ E]. cbn [fold_left] in E. now rewrite E.
  - intros msg m (Hb & c & -> & Hc & Hm). cbn [final table64 final512].
    pose proof (outputs msg c Hb Hc Hm) as E. destruct (SHA512_Final false c) as [r c']. cbn [fst] in E. rewrite E. now eexists.
  - intros msg m Hm. apply Hm.
  - exact lens.
  - unfold EVP_MAX_MD_SIZE, EVP_MAX_MD_BLOCK_SIZE. cbn. lia.
Defined.
End Instances64.

#[export] Instance sha512_digest : MessageDigest EVP_sha512 fips_sha512.
Proof.
  exact (digest64 SHA512_Init (h (SHA512_Init [])) 64 fips_sha512 674 (fun _ => eq_refl)
    (fun msg c Hb => proj1 (sha512_output [] msg c Hb)) (fun m Hm => proj1 (fips512_lens m Hm)) ltac:(lia)).
Defined.

#[export] Instance sha384_digest : MessageDigest EVP_sha384 fips_sha384.
Proof.
  exact (digest64 SHA384_Init (h (SHA384_Init [])) 48 fips_sha384 673 (fun _ => eq_refl)
    (fun msg c Hb => proj2 (sha512_output [] msg c Hb)) (fun m Hm => proj2 (fips512_lens m Hm)) ltac:(lia)).
Defined.

(** The two digests of TLS 1.0 and 1.1, side by side. *)
#[export] Instance md5_sha1_digest : MessageDigest EVP_md5_sha1 (fun msg => rfc_md5 msg ++ fips_sha1 msg).
Proof.
  refine {| usable := fun _ => True;
    holds := fun msg m => exists a b, m = MD5_SHA1_CTX a b /\ holds (md := EVP_md5) msg (Ctx32 a) /\ holds (md := EVP_sha1) msg (Ctx32 b) |}.
  - easy.
  - easy.
  - intros m _. eexists. split; [reflexivity |]. do 2 eexists. split; [reflexivity |].
    destruct (@init_holds _ _ md5_digest m I) as (m1 & E1 & H1), (@init_holds _ _ sha1_digest m I) as (m2 & E2 & H2).
    injection E1 as <-. injection E2 as <-. now split.
  - intros msg m d (a & b & -> & Ha & Hb) Hd Hl.
    destruct (update_holds msg (Ctx32 a) d Ha Hd Hl) as (m1 & E1 & H1), (update_holds msg (Ctx32 b) d Hb Hd Hl) as (m2 & E2 & H2).
    injection E1 as <-. injection E2 as <-. eexists. split; [reflexivity |]. now do 2 eexists.
  - intros msg m (a & b & -> & Ha & Hb). destruct (final_holds msg (Ctx32 a) Ha) as (m1 & E1), (final_holds msg (Ctx32 b) Hb) as (m2 & E2).
    cbn [final EVP_md5 EVP_sha1 EVP_md5_sha1 final32 md5_sha1_final] in *.
    destruct (Md5.MD5_Final a) as [[x |] a'], (Sha1.SHA1_Final b) as [[y |] b']; try discriminate.
    injection E1 as -> _. injection E2 as -> _. now eexists.
  - intros msg m (a & b & _ & Ha & _). exact (holds_bytes msg _ Ha).
  - intros msg Hm. destruct (digest_len (md := EVP_md5) msg Hm) as [L1 B1], (digest_len (md := EVP_sha1) msg Hm) as [L2 B2].
    split; [rewrite len_app, L1, L2; reflexivity | now apply bytes_ok_app].
  - unfold EVP_MAX_MD_SIZE, EVP_MAX_MD_BLOCK_SIZE. cbn. lia.
Defined.

(** ** Contexts and the promise *)

(** A message in pieces. *)
Fixpoint digest_updates (ctx : EVP_MD_CTX) (chunks : list (list Z)) : option EVP_MD_CTX :=
  match chunks with
  | [] => Some ctx
  | d :: chunks => let* r := EVP_DigestUpdate ctx d in if fst r then digest_updates (snd r) chunks else None
  end.

Section ContextFacts.
Variable alloc_ok : Z -> bool.
Variable junk : Z -> list Z.
Variable dup : Z -> option Z.
Context {md : EVP_MD_st} {H : list Z -> list Z} `{MD : !MessageDigest md H}.
Hypothesis junk_len : len (junk (ctx_size md)) = ctx_size md.

(** [ctx] is in the middle of hashing, [msg] so far. *)
Definition hashing (msg : list Z) (ctx : EVP_MD_CTX) : Prop :=
  digest ctx = Some md /\ pctx ctx = None /\ exists m, md_data ctx = Some m /\ holds msg m.

(** [ctx] may be given to an init or a copy for [md]: it is empty, or holds the
    memory of [md] already. *)
Definition ready (ctx : EVP_MD_CTX) : Prop :=
  pctx ctx = None /\
  (digest ctx = None \/ (digest ctx = Some md /\ exists m, md_data ctx = Some m /\ usable m)).

Lemma ready_init : ready EVP_MD_CTX_init.
Proof. split; [reflexivity | now left]. Qed.

Lemma hashing_ready msg ctx : hashing msg ctx -> ready ctx.
Proof. intros (Hd & Hp & m & Em & Hm). split; [exact Hp |]. right. split; [exact Hd |]. exists m. split; [exact Em | now apply (holds_usable msg)]. Qed.

Lemma same_refl d : same_digest (Some d) (Some d) = true.
Proof. apply Z.eqb_refl. Qed.

Lemma DigestInit_ok ctx : ready ctx ->
  if alloc_ok (ctx_size md) then exists ctx', EVP_DigestInit_ex alloc_ok junk ctx md = Some (true, ctx') /\ hashing [] ctx'
  else EVP_DigestInit_ex alloc_ok junk ctx md = Some (false, ctx) \/
       exists ctx', EVP_DigestInit_ex alloc_ok junk ctx md = Some (true, ctx') /\ hashing [] ctx'.
Proof.
  intros (Hp & Hd). unfold EVP_DigestInit_ex, OPENSSL_malloc.
  assert (G : forall m, usable m -> exists ctx', (let* m' := init md m in Some (true, mk_md_ctx (Some md) (Some m') None)) = Some (true, ctx') /\ hashing [] ctx').
  { intros m Hm. destruct (init_holds m Hm) as (m' & -> & Hh). eexists. split; [reflexivity |]. repeat split. now exists m'. }
  destruct Hd as [Hd | (Hd & m & Em & Hm)]; rewrite Hd, Hp.
  - cbn [same_digest negb]. destruct (alloc_ok (ctx_size md)); [| now left].
    cbn [digest md_data pctx]. apply G. now apply fresh_usable.
  - rewrite same_refl, Em. cbn [negb]. destruct (alloc_ok (ctx_size md)); [| right]; now apply G.
Qed.

Lemma DigestUpdate_ok msg ctx d : hashing msg ctx -> bytes_ok d -> len d < 2 ^ 64 ->
  exists ctx', EVP_DigestUpdate ctx d = Some (true, ctx') /\ hashing (msg ++ d) ctx'.
Proof.
  intros (Hd & Hp & m & Em & Hm) Hb Hl. unfold EVP_DigestUpdate. rewrite Hd, Em.
  destruct (update_holds msg m d Hm Hb Hl) as (m' & -> & Hm'). eexists. split; [reflexivity |].
  repeat split; [exact Hp |]. now exists m'.
Qed.

Lemma DigestFinal_ok msg ctx : hashing msg ctx ->
  exists ctx', EVP_DigestFinal_ex ctx = Some (H msg, ctx') /\ ready ctx' /\ digest ctx' = Some md.
Proof.
  intros (Hd & Hp & m & Em & Hm). unfold EVP_DigestFinal_ex. rewrite Hd, Em.
  destruct (final_holds msg m Hm) as (m' & ->). eexists. split; [reflexivity |]. split; [| reflexivity].
  split; [exact Hp |]. right. split; [reflexivity |]. eexists. split; [reflexivity |]. apply fresh_usable.
  rewrite len_repeat. pose proof (sizes (md := md)). lia.
Qed.

(** A copy needs memory only when the destination has none of this digest. *)
Lemma MD_CTX_copy_ok msg out i : hashing msg i -> ready out -> alloc_ok (ctx_size md) = true \/ digest out = Some md ->
  exists out', EVP_MD_CTX_copy_ex alloc_ok junk dup out i = Some (true, out') /\ hashing msg out'.
Proof.
  intros (Hd & Hp & m & Em & Hm) (_ & Ho) Ha. unfold EVP_MD_CTX_copy_ex, OPENSSL_malloc. rewrite Hd, Hp, Em.
  assert (G : hashing msg (mk_md_ctx (Some md) (Some m) None)) by (repeat split; now exists m).
  destruct Ho as [Ho | (Ho & m' & Em' & _)].
  - destruct Ha as [Ha |]; [| congruence]. rewrite Ho, Ha. cbn [same_digest negb]. now eexists.
  - rewrite Ho, same_refl, Em'. cbn [negb]. now eexists.
Qed.

(** *** Contexts with or without a [pctx], last used for any digest *)

Definition in_progress (msg : list Z) (ctx : EVP_MD_CTX) : Prop :=
  digest ctx = Some md /\ exists m, md_data ctx = Some m /\ holds msg m.

(** What this digest finds in the context, it can use: the context is empty, was
    used for another digest, or has memory of this one. *)
Definition prepared (ctx : EVP_MD_CTX) : Prop :=
  same_digest (digest ctx) (Some md) = true -> digest ctx = Some md /\ exists m, md_data ctx = Some m /\ usable m.

(** Memory has to be allocated, and there is none. *)
Definition no_room (ctx : EVP_MD_CTX) : Prop := same_digest (digest ctx) (Some md) = false /\ alloc_ok (ctx_size md) = false.

Lemma md_init_exact ctx : prepared ctx ->
  match EVP_DigestInit_ex alloc_ok junk ctx md with
  | Some (true, started) => ~ no_room ctx /\ in_progress [] started
  | Some (false, ctx') => no_room ctx /\ ctx' = ctx
  | None => False
  end.
Proof.
  intros P. unfold EVP_DigestInit_ex, OPENSSL_malloc, no_room, prepared in *.
  assert (G : forall p m, usable m -> exists m', (let* m' := init md m in Some (true, mk_md_ctx (Some md) (Some m') p)) =
    Some (true, mk_md_ctx (Some md) (Some m') p) /\ in_progress [] (mk_md_ctx (Some md) (Some m') p)).
  { intros p m Hm. destruct (init_holds m Hm) as (m' & -> & Hh). exists m'. split; [reflexivity |]. split; [reflexivity | now exists m']. }
  destruct (same_digest (digest ctx) (Some md)); cbn [negb].
  - destruct (P eq_refl) as (-> & m & -> & Hm). destruct (G (pctx ctx) m Hm) as (m' & -> & I). split; [intros [X _]; discriminate | exact I].
  - destruct (alloc_ok (ctx_size md)); [| now split]. cbn [digest md_data pctx].
    destruct (G (pctx ctx) (Raw (junk (ctx_size md))) (fresh_usable _ junk_len)) as (m' & -> & I). split; [intros [_ X]; discriminate | exact I].
Qed.

Lemma md_updates_exact chunks : Forall (fun d => bytes_ok d /\ len d < 2 ^ 64) chunks -> forall msg ctx, in_progress msg ctx ->
  exists ctx', digest_updates ctx chunks = Some ctx' /\ in_progress (msg ++ concat chunks) ctx' /\ pctx ctx' = pctx ctx.
Proof.
  induction 1 as [| d chunks [Hb Hl] _ IH]; intros msg ctx (Hd & m & Em & Hm).
  { exists ctx. cbn [concat]. rewrite app_nil_r. split; [reflexivity |]. split; [| reflexivity]. split; [exact Hd | now exists m]. }
  cbn [digest_updates]. unfold EVP_DigestUpdate. rewrite Hd, Em. destruct (update_holds msg m d Hm Hb Hl) as (m' & -> & Hm').
  cbn [fst snd concat]. rewrite app_assoc.
  destruct (IH (msg ++ d) (mk_md_ctx (Some md) (Some m') (pctx ctx))) as (ctx' & E & I & Ep); [split; [reflexivity | now exists m'] |].
  now exists ctx'.
Qed.

Lemma md_final_exact msg ctx : in_progress msg ctx ->
  exists ctx', EVP_DigestFinal_ex ctx = Some (H msg, ctx') /\ prepared ctx'.
Proof.
  intros (Hd & m & Em & Hm). unfold EVP_DigestFinal_ex. rewrite Hd, Em.
  destruct (final_holds msg m Hm) as (m' & ->). eexists. split; [reflexivity |]. intros _. split; [reflexivity |].
  eexists. split; [reflexivity |]. apply fresh_usable. rewrite len_repeat. pose proof (sizes (md := md)). lia.
Qed.

Lemma md_copy_exact msg out i : in_progress msg i -> prepared out ->
  match EVP_MD_CTX_copy_ex alloc_ok junk dup out i with
  | Some (true, copy) => ~ no_room out /\ in_progress msg copy
  | Some (false, out') => (no_room out \/ exists p, pctx i = Some p /\ dup p = None) /\ out' = out
  | None => False
  end.
Proof.
  intros (Hd & m & Em & Hm) P. unfold EVP_MD_CTX_copy_ex, OPENSSL_malloc, no_room, prepared in *. rewrite Hd, Em.
  assert (G : forall pc, in_progress msg (mk_md_ctx (Some md) (Some m) pc)) by (intros pc; split; [reflexivity | now exists m]).
  assert (R : forall pc, match (match (if negb (same_digest (digest out) (Some md)) then (if alloc_ok (ctx_size md) then Some (Raw (junk (ctx_size md))) else None) else md_data out) with
      | None => if negb (same_digest (digest out) (Some md)) then Some (false, out) else None
      | Some _ => Some (true, mk_md_ctx (Some md) (Some m) pc) end) with
    | Some (true, copy) => ~ (same_digest (digest out) (Some md) = false /\ alloc_ok (ctx_size md) = false) /\ in_progress msg copy
    | Some (false, out') => ((same_digest (digest out) (Some md) = false /\ alloc_ok (ctx_size md) = false) \/
        exists p, pctx i = Some p /\ dup p = None) /\ out' = out
    | None => False end).
  { intros pc. destruct (same_digest (digest out) (Some md)); cbn [negb].
    - destruct (P eq_refl) as (_ & m' & -> & _). split; [intros [X _]; discriminate | apply G].
    - destruct (alloc_ok (ctx_size md)); [split; [intros [_ X]; discriminate | apply G] |]. split; [left; now split | reflexivity]. }
  destruct (pctx i) as [p |]; [| apply R]. destruct (dup p) as [q |] eqn:E; cbn [option_map]; [apply R |].
  split; [right; now exists p | reflexivity].
Qed.

Lemma hashing_digest msg ctx : hashing msg ctx -> digest ctx = Some md.
Proof. intros (Hd & _). exact Hd. Qed.
End ContextFacts.


