(* ===== verification/Hmac.v ===== *)
(** * HMAC and HKDF (crypto/fipsmodule/hmac/hmac.c, crypto/hkdf/hkdf.c)

    Three digest contexts per HMAC context: [i_ctx] and [o_ctx] have taken the
    padded key, [md_ctx] does the work. Both are proved equal to RFC 2104 and
    RFC 5869 against the interface of Evp, for any digest behind it. *)

From S2P Require Import Prelude Buffers DigestSpec Sha Sha512 Evp.

Record HMAC_CTX := mk_hmac { hmac_md : option EVP_MD_st; md_ctx : EVP_MD_CTX; i_ctx : EVP_MD_CTX; o_ctx : EVP_MD_CTX }.

(** A call on a part of an object: [fail] and [next] put the part back. *)
Definition checked {A B} (e : option (bool * A)) (fail : A -> B) (next : A -> option (bool * B)) : option (bool * B) :=
  match e with
  | None => None
  | Some (true, a) => next a
  | Some (false, a) => Some (false, fail a)
  end.

Section Hmac.
Variable alloc_ok : Z -> bool.
Variable junk : Z -> list Z.
Variable dup : Z -> option Z.

Abbreviation DigestInit := (EVP_DigestInit_ex alloc_ok junk).
Abbreviation Copy := (EVP_MD_CTX_copy_ex alloc_ok junk dup).

Definition set_md_ctx (ctx : HMAC_CTX) (c : EVP_MD_CTX) : HMAC_CTX := mk_hmac (hmac_md ctx) c (i_ctx ctx) (o_ctx ctx).
Definition set_i_ctx (ctx : HMAC_CTX) (c : EVP_MD_CTX) : HMAC_CTX := mk_hmac (hmac_md ctx) (md_ctx ctx) c (o_ctx ctx).
Definition set_o_ctx (ctx : HMAC_CTX) (c : EVP_MD_CTX) : HMAC_CTX := mk_hmac (hmac_md ctx) (md_ctx ctx) (i_ctx ctx) c.

Definition HMAC_CTX_init : HMAC_CTX := mk_hmac None EVP_MD_CTX_init EVP_MD_CTX_init EVP_MD_CTX_init.
Definition HMAC_CTX_cleanup (ctx : HMAC_CTX) : HMAC_CTX := HMAC_CTX_init.

(** [pad[i] = c ^ key_block[i]] *)
Definition xor_pad (c : Z) (key_block : list Z) : list Z := map (fun b => Z.lxor c b) key_block.

(** [key] is [None] for a null pointer; its bytes are then not read. *)
Definition HMAC_Init_ex (ctx : HMAC_CTX) (key : option (list Z)) (md : option EVP_MD_st) : option (bool * HMAC_CTX) :=
  let md := match md with None => hmac_md ctx | Some _ => md end in
  let rewind (ctx : HMAC_CTX) :=
    checked (Copy (md_ctx ctx) (i_ctx ctx)) (set_md_ctx ctx) (fun c => Some (true, set_md_ctx ctx c)) in
  if negb (same_digest md (hmac_md ctx)) || match key with Some _ => true | None => false end then
    let* md := md in
    let key := match key with Some k => k | None => [] end in
    let new_key (ctx : HMAC_CTX) (key_block : list Z) :=
      let key_block := key_block ++ repeat 0 (Z.to_nat (EVP_MAX_MD_BLOCK_SIZE - len key_block)) in
      let pad := xor_pad 0x36 key_block in
      checked (DigestInit (i_ctx ctx) md) (set_i_ctx ctx) (fun c => let ctx := set_i_ctx ctx c in
      checked (EVP_DigestUpdate (i_ctx ctx) (take (block_size md) pad)) (set_i_ctx ctx) (fun c => let ctx := set_i_ctx ctx c in
      let pad := xor_pad 0x5c key_block in
      checked (DigestInit (o_ctx ctx) md) (set_o_ctx ctx) (fun c => let ctx := set_o_ctx ctx c in
      checked (EVP_DigestUpdate (o_ctx ctx) (take (block_size md) pad)) (set_o_ctx ctx) (fun c => let ctx := set_o_ctx ctx c in
      rewind (mk_hmac (Some md) (md_ctx ctx) (i_ctx ctx) (o_ctx ctx)))))) in
    if block_size md <? len key then
      checked (DigestInit (md_ctx ctx) md) (set_md_ctx ctx) (fun c => let ctx := set_md_ctx ctx c in
      checked (EVP_DigestUpdate (md_ctx ctx) key) (set_md_ctx ctx) (fun c => let ctx := set_md_ctx ctx c in
      let* r := EVP_DigestFinal_ex (md_ctx ctx) in
      new_key (set_md_ctx ctx (snd r)) (fst r)))
    else new_key ctx key
  else rewind ctx.

Definition HMAC_Update (ctx : HMAC_CTX) (data : list Z) : option (bool * HMAC_CTX) :=
  checked (EVP_DigestUpdate (md_ctx ctx) data) (set_md_ctx ctx) (fun c => Some (true, set_md_ctx ctx c)).

(** The MAC, [Some (None, _)] for a return of 0. *)
Definition HMAC_Final (ctx : HMAC_CTX) : option (option (list Z) * HMAC_CTX) :=
  let* r := EVP_DigestFinal_ex (md_ctx ctx) in
  let ctx := set_md_ctx ctx (snd r) in
  let buf := fst r in
  match Copy (md_ctx ctx) (o_ctx ctx) with
  | None => None
  | Some (false, c) => Some (None, set_md_ctx ctx c)
  | Some (true, c) =>
      match EVP_DigestUpdate c buf with
      | None => None
      | Some (false, c) => Some (None, set_md_ctx ctx c)
      | Some (true, c) => let* r := EVP_DigestFinal_ex c in Some (Some (fst r), set_md_ctx ctx (snd r))
      end
  end.

Definition HMAC_size (ctx : HMAC_CTX) : option Z := option_map md_size (hmac_md ctx).

Definition HMAC_CTX_copy_ex (dest src : HMAC_CTX) : option (bool * HMAC_CTX) :=
  checked (Copy (i_ctx dest) (i_ctx src)) (set_i_ctx dest) (fun c => let dest := set_i_ctx dest c in
  checked (Copy (o_ctx dest) (o_ctx src)) (set_o_ctx dest) (fun c => let dest := set_o_ctx dest c in
  checked (Copy (md_ctx dest) (md_ctx src)) (set_md_ctx dest) (fun c => let dest := set_md_ctx dest c in
  Some (true, mk_hmac (hmac_md src) (md_ctx dest) (i_ctx dest) (o_ctx dest))))).

Definition HMAC_CTX_copy (src : HMAC_CTX) : option (bool * HMAC_CTX) := HMAC_CTX_copy_ex HMAC_CTX_init src.

Definition HMAC_Init (ctx : HMAC_CTX) (key : option (list Z)) (md : option EVP_MD_st) : option (bool * HMAC_CTX) :=
  let ctx := match key, md with Some _, Some _ => HMAC_CTX_init | _, _ => ctx end in
  HMAC_Init_ex ctx key md.

(** One call: [Some None] where the code returns NULL. *)
Definition HMAC (md : EVP_MD_st) (key : option (list Z)) (data : list Z) : option (option (list Z)) :=
  let* r := HMAC_Init_ex HMAC_CTX_init key (Some md) in
  if fst r then
    let* r := HMAC_Update (snd r) data in
    if fst r then let* r := HMAC_Final (snd r) in Some (fst r) else Some None
  else Some None.

(** ** HKDF *)

Inductive hkdf_error : Type := HKDF_R_OUTPUT_TOO_LARGE | ERR_R_HMAC_LIB.
Inductive hkdf_result : Type := Key (k : list Z) | HkdfError (e : hkdf_error).

Definition HKDF_extract (md : EVP_MD_st) (secret : list Z) (salt : option (list Z)) : option hkdf_result :=
  let* r := HMAC md salt secret in
  Some (match r with None => HkdfError ERR_R_HMAC_LIB | Some prk => Key prk end).

(** [n] turns of the loop from turn [i] on; [None] for a jump to [out]. *)
Fixpoint expand_loop (n : nat) (i : Z) (hmac : HMAC_CTX) (previous info out_key : list Z) (done digest_len : Z)
  : option (option (list Z)) :=
  match n with
  | O => Some (Some out_key)
  | S n =>
      let ctr := u8 (i + 1) in
      let* r :=
        if negb (i =? 0) then
          checked (HMAC_Init_ex hmac None None) (fun c => c) (fun hmac => HMAC_Update hmac previous)
        else Some (true, hmac) in
      if negb (fst r) then Some None else
      let* r := checked (HMAC_Update (snd r) info) (fun c => c) (fun hmac => HMAC_Update hmac [ctr]) in
      if negb (fst r) then Some None else
      let* r := HMAC_Final (snd r) in
      match fst r with
      | None => Some None
      | Some previous =>
          let todo := if len out_key <? done + digest_len then len out_key - done else digest_len in
          expand_loop n (u32 (i + 1)) (snd r) previous info (splice out_key done (take todo previous)) (done + todo) digest_len
      end
  end.

(** [out_key] is the buffer to fill. *)
Definition HKDF_expand (out_key : list Z) (md : EVP_MD_st) (prk info : list Z) : option hkdf_result :=
  let out_len := len out_key in
  let digest_len := md_size md in
  let n := u64 (u64 (out_len + digest_len) - 1) / digest_len in
  if (u64 (out_len + digest_len) <? out_len) || (255 <? n) then Some (HkdfError HKDF_R_OUTPUT_TOO_LARGE) else
  let* r := HMAC_Init_ex HMAC_CTX_init (Some prk) (Some md) in
  let* r := if fst r then expand_loop (Z.to_nat n) 0 (snd r) [] info out_key 0 digest_len else Some None in
  Some (match r with None => HkdfError ERR_R_HMAC_LIB | Some k => Key k end).

Definition HKDF (out_key : list Z) (md : EVP_MD_st) (secret : list Z) (salt : option (list Z)) (info : list Z)
  : option hkdf_result :=
  let* r := HKDF_extract md secret salt in
  match r with
  | HkdfError e => Some (HkdfError e)
  | Key prk => HKDF_expand out_key md prk info
  end.
End Hmac.

(** ** RFC 2104 and RFC 5869 *)
Section Rfc.
Variable H : list Z -> list Z.
Variable B : Z.                          (* block size *)

Definition rfc2104_key (key : list Z) : list Z :=
  let k := if B <? len key then H key else key in k ++ repeat 0 (Z.to_nat (B - len k)).

Definition rfc2104 (key msg : list Z) : list Z :=
  let k := rfc2104_key key in
  H (map (Z.lxor 0x5c) k ++ H (map (Z.lxor 0x36) k ++ msg)).

(** T(1) | T(2) | ... with [prev] the block before the first and [i] its number. *)
Fixpoint hkdf_blocks (prk info : list Z) (n : nat) (i : Z) (prev : list Z) : list Z :=
  match n with
  | O => []
  | S n => let t := rfc2104 prk (prev ++ info ++ [i]) in t ++ hkdf_blocks prk info n (i + 1) t
  end.

Definition rfc5869_expand (prk info : list Z) (L : Z) (hash_len : Z) : list Z :=
  take L (hkdf_blocks prk info (Z.to_nat ((L + hash_len - 1) / hash_len)) 1 []).

Definition rfc5869 (secret salt info : list Z) (L hash_len : Z) : list Z :=
  rfc5869_expand (rfc2104 salt secret) info L hash_len.
End Rfc.

(** ** HMAC contexts *)
Section HmacFacts.
Variable alloc_ok : Z -> bool.
Variable junk : Z -> list Z.
Variable dup : Z -> option Z.
Context {md : EVP_MD_st} {H : list Z -> list Z} `{MD : !MessageDigest md H}.
Hypothesis junk_len : len (junk (ctx_size md)) = ctx_size md.

Abbreviation hashing := (hashing (md := md)).
Abbreviation ready := (ready (md := md)).
Abbreviation key_of := (rfc2104_key H (block_size md)).

Definition keyed_parts (key : list Z) (i o : EVP_MD_CTX) : Prop :=
  hashing (map (Z.lxor 0x36) (key_of key)) i /\ hashing (map (Z.lxor 0x5c) (key_of key)) o.

(** [ctx] was given [key] and has taken [msg]. *)
Definition keyed (key msg : list Z) (ctx : HMAC_CTX) : Prop :=
  hmac_md ctx = Some md /\ keyed_parts key (i_ctx ctx) (o_ctx ctx) /\
  hashing (map (Z.lxor 0x36) (key_of key) ++ msg) (md_ctx ctx).

(** [ctx] was given [key], and its work context can be rewound. *)
Definition rewindable (key : list Z) (ctx : HMAC_CTX) : Prop :=
  hmac_md ctx = Some md /\ keyed_parts key (i_ctx ctx) (o_ctx ctx) /\
  ready (md_ctx ctx) /\ digest (md_ctx ctx) = Some md.

Lemma key_block_len key : bytes_ok key -> len (key_of key) = block_size md /\ bytes_ok (key_of key).
Proof.
  intros Hk. pose proof (sizes (md := md)) as Hs. unfold rfc2104_key.
  assert (Hz : forall n, bytes_ok (repeat 0 n)) by (intros n; apply Forall_forall; intros x Hx; apply repeat_spec in Hx; subst; unfold byte_ok; lia).
  destruct (Z.ltb_spec (block_size md) (len key)).
  - destruct (digest_len key Hk) as [Hl Hb]. rewrite len_app, len_repeat. split; [lia |]. now apply bytes_ok_app.
  - rewrite len_app, len_repeat. split; [lia |]. now apply bytes_ok_app.
Qed.

(** The 128-byte key block of the code and the block of the standard. *)
Lemma pad_block c kb key : (if block_size md <? len key then kb = H key else kb = key) -> bytes_ok key ->
  take (block_size md) (xor_pad c (kb ++ repeat 0 (Z.to_nat (EVP_MAX_MD_BLOCK_SIZE - len kb)))) = map (Z.lxor c) (key_of key).
Proof.
  intros Hkb Hk. pose proof (sizes (md := md)) as Hs. unfold xor_pad, rfc2104_key.
  assert (E : kb = if block_size md <? len key then H key else key) by (destruct (block_size md <? len key); exact Hkb).
  assert (L : len kb <= block_size md).
  { destruct (Z.ltb_spec (block_size md) (len key)); subst kb; [| lia]. destruct (digest_len key Hk). lia. }
  rewrite <- E. unfold take. rewrite firstn_map. f_equal. rewrite firstn_app.
  rewrite firstn_all2 by (unfold len in L; lia). f_equal.
  rewrite firstn_repeat by (unfold len in *; lia). f_equal. unfold len. lia.
Qed.

Lemma xor_bytes_ok c l : 0 <= c < 256 -> bytes_ok l -> bytes_ok (map (Z.lxor c) l).
Proof.
  intros Hc Hl. apply Forall_map. eapply Forall_impl; [| exact Hl]. intros b Hb. exact (lxor_range 8 c b ltac:(lia) Hc Hb).
Qed.

Lemma key_update c key ctx : bytes_ok key -> 0 <= c < 256 -> hashing [] ctx ->
  exists ctx', EVP_DigestUpdate ctx (map (Z.lxor c) (key_of key)) = Some (true, ctx') /\ hashing (map (Z.lxor c) (key_of key)) ctx'.
Proof.
  intros Hk Hc Hx. destruct (key_block_len key Hk) as [Hl Hb]. pose proof (sizes (md := md)) as (_ & [_ Hs] & _).
  destruct (DigestUpdate_ok [] ctx (map (Z.lxor c) (key_of key)) Hx) as (ctx' & E & Hx').
  - now apply xor_bytes_ok.
  - rewrite len_map, Hl. unfold EVP_MAX_MD_BLOCK_SIZE in Hs. lia.
  - now exists ctx'.
Qed.

Definition hmac_ready (ctx : HMAC_CTX) : Prop := ready (md_ctx ctx) /\ ready (i_ctx ctx) /\ ready (o_ctx ctx).

Lemma hmac_ready_init : hmac_ready HMAC_CTX_init.
Proof. repeat split; now left. Qed.

(** Setting up a key, with memory to be had. *)
Lemma new_key_ok ctx key : alloc_ok (ctx_size md) = true -> hmac_ready ctx -> bytes_ok key -> len key < 2 ^ 64 ->
  forall kb, (if block_size md <? len key then kb = H key else kb = key) ->
  let key_block := kb ++ repeat 0 (Z.to_nat (EVP_MAX_MD_BLOCK_SIZE - len kb)) in
  exists ctx',
    checked (EVP_DigestInit_ex alloc_ok junk (i_ctx ctx) md) (set_i_ctx ctx) (fun c => let ctx := set_i_ctx ctx c in
    checked (EVP_DigestUpdate (i_ctx ctx) (take (block_size md) (xor_pad 0x36 key_block))) (set_i_ctx ctx) (fun c => let ctx := set_i_ctx ctx c in
    checked (EVP_DigestInit_ex alloc_ok junk (o_ctx ctx) md) (set_o_ctx ctx) (fun c => let ctx := set_o_ctx ctx c in
    checked (EVP_DigestUpdate (o_ctx ctx) (take (block_size md) (xor_pad 0x5c key_block))) (set_o_ctx ctx) (fun c => let ctx := set_o_ctx ctx c in
    let ctx := mk_hmac (Some md) (md_ctx ctx) (i_ctx ctx) (o_ctx ctx) in
    checked (EVP_MD_CTX_copy_ex alloc_ok junk dup (md_ctx ctx) (i_ctx ctx)) (set_md_ctx ctx) (fun c => Some (true, set_md_ctx ctx c)))))) =
    Some (true, ctx') /\ keyed key [] ctx'.
Proof.
  intros Ha (Hm & Hi & Ho) Hk Hlk kb Hkb key_block. unfold key_block. rewrite !(pad_block _ kb key Hkb Hk).
  pose proof (DigestInit_ok alloc_ok junk junk_len (i_ctx ctx) Hi) as E1. rewrite Ha in E1. destruct E1 as (c1 & -> & Hc1).
  cbn [checked set_i_ctx i_ctx o_ctx md_ctx hmac_md].
  destruct (key_update 0x36 key c1 Hk ltac:(lia) Hc1) as (c2 & -> & Hc2). cbn [checked set_i_ctx i_ctx o_ctx md_ctx hmac_md].
  pose proof (DigestInit_ok alloc_ok junk junk_len (o_ctx ctx) Ho) as E3. rewrite Ha in E3. destruct E3 as (c3 & -> & Hc3).
  cbn [checked set_o_ctx i_ctx o_ctx md_ctx hmac_md].
  destruct (key_update 0x5c key c3 Hk ltac:(lia) Hc3) as (c4 & -> & Hc4). cbn [checked]. cbv zeta. cbn [set_i_ctx set_o_ctx set_md_ctx i_ctx o_ctx md_ctx hmac_md].
  destruct (MD_CTX_copy_ok alloc_ok junk dup _ (md_ctx ctx) c2 Hc2 Hm (or_introl Ha)) as (c5 & -> & Hc5).
  cbn [checked]. eexists. split; [reflexivity |]. split; [reflexivity |]. split; [split; assumption |].
  rewrite app_nil_r. exact Hc5.
Qed.

Definition key_bytes (key : option (list Z)) : list Z := match key with Some k => k | None => [] end.

Lemma init_keyed ctx key : alloc_ok (ctx_size md) = true -> hmac_ready ctx -> bytes_ok (key_bytes key) -> len (key_bytes key) < 2 ^ 64 ->
  same_digest (Some md) (hmac_md ctx) = false \/ key <> None ->
  exists ctx', HMAC_Init_ex alloc_ok junk dup ctx key (Some md) = Some (true, ctx') /\ keyed (key_bytes key) [] ctx'.
Proof.
  intros Ha Hr Hk Hlk Hnew. unfold HMAC_Init_ex.
  replace (negb (same_digest (Some md) (hmac_md ctx)) || match key with Some _ => true | None => false end) with true
    by (destruct Hnew as [-> | Hn]; [reflexivity | destruct key; [now rewrite orb_true_r | congruence]]).
  fold (key_bytes key).
  destruct (block_size md <? len (key_bytes key)) eqn:Hc.
  - pose proof Hr as (Hm & Hi & Ho).
    pose proof (DigestInit_ok alloc_ok junk junk_len (md_ctx ctx) Hm) as E1. rewrite Ha in E1. destruct E1 as (c1 & -> & Hc1).
    cbn [checked set_md_ctx md_ctx].
    destruct (DigestUpdate_ok [] c1 (key_bytes key) Hc1 Hk Hlk) as (c2 & -> & Hc2). cbn [checked set_md_ctx md_ctx].
    destruct (DigestFinal_ok _ c2 Hc2) as (c3 & -> & Hc3 & _). cbn [fst snd set_md_ctx hmac_md i_ctx o_ctx].
    apply (new_key_ok (mk_hmac (hmac_md ctx) c3 (i_ctx ctx) (o_ctx ctx)) (key_bytes key) Ha); [| assumption | assumption | now rewrite Hc].
    split; [exact Hc3 | split; assumption].
  - apply (new_key_ok ctx (key_bytes key) Ha Hr Hk Hlk). now rewrite Hc.
Qed.

(** Rewinding to the key set before. *)
Lemma rewind_ok ctx key : rewindable key ctx -> exists ctx', HMAC_Init_ex alloc_ok junk dup ctx None None = Some (true, ctx') /\ keyed key [] ctx'.
Proof.
  intros (Hmd & (Hi & Ho) & Hm & Hd). unfold HMAC_Init_ex. rewrite Hmd, same_refl. cbn [negb orb].
  destruct (MD_CTX_copy_ok alloc_ok junk dup _ (md_ctx ctx) (i_ctx ctx) Hi Hm (or_intror Hd)) as (c & -> & Hc).
  cbn [checked]. eexists. split; [reflexivity |]. split; [exact Hmd |]. split; [split; assumption |]. rewrite app_nil_r. exact Hc.
Qed.

Lemma hmac_update_ok ctx key msg d : keyed key msg ctx -> bytes_ok d -> len d < 2 ^ 64 ->
  exists ctx', HMAC_Update ctx d = Some (true, ctx') /\ keyed key (msg ++ d) ctx'.
Proof.
  intros (Hmd & Hp & Hm) Hb Hl. unfold HMAC_Update. destruct (DigestUpdate_ok _ (md_ctx ctx) d Hm Hb Hl) as (c & -> & Hc).
  cbn [checked]. eexists. split; [reflexivity |]. split; [exact Hmd |]. split; [exact Hp |]. now rewrite app_assoc.
Qed.

Lemma hmac_final_ok ctx key msg : keyed key msg ctx ->
  exists ctx', HMAC_Final alloc_ok junk dup ctx = Some (Some (rfc2104 H (block_size md) key msg), ctx') /\ rewindable key ctx'.
Proof.
  intros (Hmd & (Hi & Ho) & Hm). unfold HMAC_Final.
  assert (Hin : bytes_ok (map (Z.lxor 0x36) (key_of key) ++ msg)) by (destruct Hm as (_ & _ & m & _ & Hm); exact (holds_bytes _ m Hm)).
  destruct (DigestFinal_ok _ (md_ctx ctx) Hm) as (c1 & -> & Hc1 & Hd1). cbn [fst snd set_md_ctx md_ctx o_ctx hmac_md i_ctx].
  destruct (MD_CTX_copy_ok alloc_ok junk dup _ c1 (o_ctx ctx) Ho Hc1 (or_intror Hd1)) as (c2 & -> & Hc2).
  destruct (digest_len _ Hin) as [Hl Hb]. pose proof (sizes (md := md)) as ((_ & Hs) & _). unfold EVP_MAX_MD_SIZE in Hs.
  destruct (DigestUpdate_ok _ c2 _ Hc2 Hb ltac:(lia)) as (c3 & -> & Hc3).
  destruct (DigestFinal_ok _ c3 Hc3) as (c4 & -> & Hc4 & Hd4). cbn [fst snd].
  eexists. split; [reflexivity |]. split; [exact Hmd |]. split; [split; assumption |]. split; assumption.
Qed.

Lemma keyed_rewindable key msg ctx : keyed key msg ctx -> rewindable key ctx.
Proof.
  intros (Hmd & Hp & Hm). split; [exact Hmd |]. split; [exact Hp |].
  split; [exact (hashing_ready _ _ Hm) | exact (hashing_digest _ _ Hm)].
Qed.

Lemma hmac_one_shot key data : bytes_ok (key_bytes key) -> len (key_bytes key) < 2 ^ 64 -> bytes_ok data -> len data < 2 ^ 64 ->
  HMAC alloc_ok junk dup md key data =
    Some (if alloc_ok (ctx_size md) then Some (rfc2104 H (block_size md) (key_bytes key) data) else None).
Proof.
  intros Hk Hlk Hb Hl. unfold HMAC. destruct (alloc_ok (ctx_size md)) eqn:Ha.
  - destruct (init_keyed HMAC_CTX_init key Ha hmac_ready_init Hk Hlk (or_introl eq_refl)) as (c & -> & Hc). cbn [fst snd].
    destruct (hmac_update_ok c _ [] data Hc Hb Hl) as (c' & -> & Hc'). cbn [fst snd].
    destruct (hmac_final_ok c' _ _ Hc') as (c'' & -> & _). reflexivity.
  - unfold HMAC_Init_ex. cbn [HMAC_CTX_init hmac_md same_digest negb orb md_ctx i_ctx].
    assert (E : EVP_DigestInit_ex alloc_ok junk EVP_MD_CTX_init md = Some (false, EVP_MD_CTX_init)).
    { unfold EVP_DigestInit_ex, OPENSSL_malloc. cbn [EVP_MD_CTX_init digest same_digest negb]. now rewrite Ha. }
    rewrite E. destruct (block_size md <? len _); reflexivity.
Qed.

(** A client that computes one MAC after the other with the same key: rewind, any
    updates, finish. *)
Fixpoint updates (ctx : HMAC_CTX) (chunks : list (list Z)) : option (bool * HMAC_CTX) :=
  match chunks with
  | [] => Some (true, ctx)
  | d :: chunks => checked (HMAC_Update ctx d) (fun c => c) (fun ctx => updates ctx chunks)
  end.

Fixpoint macs (ctx : HMAC_CTX) (msgs : list (list (list Z))) : option (list (list Z)) :=
  match msgs with
  | [] => Some []
  | chunks :: msgs =>
      let* r := checked (HMAC_Init_ex alloc_ok junk dup ctx None None) (fun c => c) (fun ctx => updates ctx chunks) in
      if negb (fst r) then None else
      let* r := HMAC_Final alloc_ok junk dup (snd r) in
      let* mac := fst r in
      let* rest := macs (snd r) msgs in Some (mac :: rest)
  end.

Lemma updates_ok chunks : forall ctx key msg, keyed key msg ctx -> Forall (fun d => bytes_ok d /\ len d < 2 ^ 64) chunks ->
  exists ctx', updates ctx chunks = Some (true, ctx') /\ keyed key (msg ++ concat chunks) ctx'.
Proof.
  induction chunks as [| d l IH]; intros ctx key msg Hc Hl; cbn [updates concat].
  - exists ctx. rewrite app_nil_r. now split.
  - inversion_clear Hl as [| ? ? [Hb Hd] Hl']. destruct (hmac_update_ok ctx key msg d Hc Hb Hd) as (c & -> & Hc'). cbn [checked].
    rewrite app_assoc. now apply IH.
Qed.

Lemma macs_ok msgs : forall ctx key, rewindable key ctx -> Forall (Forall (fun d => bytes_ok d /\ len d < 2 ^ 64)) msgs ->
  macs ctx msgs = Some (map (fun chunks => rfc2104 H (block_size md) key (concat chunks)) msgs).
Proof.
  induction msgs as [| m l IH]; intros ctx key Hc Hl; cbn [macs map]; [reflexivity |]. inversion_clear Hl as [| ? ? Hm Hl'].
  destruct (rewind_ok ctx key Hc) as (c & -> & Hk). cbn [checked].
  destruct (updates_ok m c key [] Hk Hm) as (c' & -> & Hk'). cbn [fst snd negb].
  destruct (hmac_final_ok c' key _ Hk') as (c'' & -> & Hr). cbn [fst snd]. now rewrite (IH c'' key Hr Hl').
Qed.

Abbreviation mac := (rfc2104 H (block_size md)).
Abbreviation T_blocks := (hkdf_blocks H (block_size md)).

Lemma mac_len key msg : bytes_ok key -> bytes_ok msg -> len (mac key msg) = md_size md /\ bytes_ok (mac key msg).
Proof.
  intros Hk Hm. destruct (key_block_len key Hk) as [_ Hkb]. unfold rfc2104. apply digest_len.
  apply bytes_ok_app. split; [apply xor_bytes_ok; [lia | exact Hkb] |]. apply digest_len.
  apply bytes_ok_app. split; [apply xor_bytes_ok; [lia | exact Hkb] | exact Hm].
Qed.

(** One turn: rewind unless it is the first, then previous block, info, counter. *)
Lemma expand_turn i hmac prk prev info : (if i =? 0 then keyed prk [] hmac /\ prev = [] else rewindable prk hmac) ->
  bytes_ok prev -> len prev <= md_size md -> bytes_ok info -> len info < 2 ^ 64 -> 0 <= i < 255 ->
  exists h1 h2 h3,
    (if negb (i =? 0) then
       checked (HMAC_Init_ex alloc_ok junk dup hmac None None) (fun c => c) (fun hmac => HMAC_Update hmac prev)
     else Some (true, hmac)) = Some (true, h1) /\
    checked (HMAC_Update h1 info) (fun c => c) (fun hmac => HMAC_Update hmac [u8 (i + 1)]) = Some (true, h2) /\
    HMAC_Final alloc_ok junk dup h2 = Some (Some (mac prk (prev ++ info ++ [i + 1])), h3) /\ rewindable prk h3.
Proof.
  intros Hh Hp Hlp Hinfo Hli Hi. pose proof (sizes (md := md)) as ((_ & Hs) & _). unfold EVP_MAX_MD_SIZE in Hs.
  assert (H1 : exists h1, (if negb (i =? 0) then
       checked (HMAC_Init_ex alloc_ok junk dup hmac None None) (fun c => c) (fun hmac => HMAC_Update hmac prev)
     else Some (true, hmac)) = Some (true, h1) /\ keyed prk prev h1).
  { destruct (i =? 0); cbn [negb]; [destruct Hh as [Hh ->]; now exists hmac |].
    destruct (rewind_ok hmac prk Hh) as (c & -> & Hc). cbn [checked].
    apply (hmac_update_ok c prk [] prev Hc Hp). lia. }
  destruct H1 as (h1 & E1 & K1). exists h1. rewrite E1.
  destruct (hmac_update_ok h1 prk prev info K1 Hinfo Hli) as (h1' & E2 & K2).
  rewrite (wrap_small 8) by (zconst; lia).
  destruct (hmac_update_ok h1' prk (prev ++ info) [i + 1] K2) as (h2 & E3 & K3);
    [repeat constructor; unfold byte_ok; lia | reflexivity |].
  destruct (hmac_final_ok h2 prk _ K3) as (h3 & E4 & K4). rewrite <- app_assoc in E4.
  exists h2, h3. rewrite E2. cbn [checked]. repeat split; try assumption; apply K4.
Qed.

Lemma expand_loop_ok prk info n : forall i hmac prev out done,
  (if i =? 0 then keyed prk [] hmac /\ prev = [] else rewindable prk hmac) ->
  bytes_ok prk -> bytes_ok prev -> len prev <= md_size md -> bytes_ok info -> len info < 2 ^ 64 ->
  0 <= i -> i + Z.of_nat n <= 255 ->
  0 <= done <= len out -> len out - done <= Z.of_nat n * md_size md -> (n <> O -> Z.of_nat (pred n) * md_size md < len out - done) ->
  expand_loop alloc_ok junk dup n i hmac prev info out done (md_size md) =
    Some (Some (take done out ++ take (len out - done) (T_blocks prk info n (i + 1) prev))).
Proof.
  pose proof (sizes (md := md)) as ((Hs0 & Hs) & _). unfold EVP_MAX_MD_SIZE in Hs.
  induction n as [| n IH]; intros i hmac prev out done Hh Hk Hp Hlp Hinfo Hli Hi Hin Hd Hup Hlow; cbn [expand_loop hkdf_blocks].
  - replace (len out - done) with 0 by lia. rewrite take_0, app_nil_r, take_all by lia. reflexivity.
  - destruct (expand_turn i hmac prk prev info Hh Hp Hlp Hinfo Hli ltac:(lia)) as (h1 & h2 & h3 & E1 & E2 & E3 & K3).
    cbv zeta. rewrite E1. cbn [fst snd negb]. rewrite E2. cbn [fst snd negb]. rewrite E3. cbn [fst snd].
    set (t := mac prk (prev ++ info ++ [i + 1])).
    assert (Ht : len t = md_size md /\ bytes_ok t).
    { apply mac_len; [exact Hk |]. rewrite !bytes_ok_app. repeat split; try assumption.
      repeat constructor; unfold byte_ok; lia. }
    destruct Ht as [Hlt Hbt].
    set (todo := if len out <? done + md_size md then len out - done else md_size md).
    assert (Htodo : todo = Z.min (len out - done) (md_size md)) by (unfold todo; destruct (Z.ltb_spec (len out) (done + md_size md)); lia).
    clearbody todo. assert (Hlo : len (splice out done (take todo t)) = len out) by (rewrite len_splice; rewrite ?len_take; lia).
    specialize (Hlow ltac:(discriminate)). cbn [pred] in Hlow.
    rewrite IH; try assumption; rewrite ?Hlo; rewrite ?(wrap_small 32) by (zconst; lia); try lia.
    + do 2 f_equal.
      replace (take (done + todo) (splice out done (take todo t))) with (take done out ++ take todo t).
      2: { replace (done + todo) with (done + len (take todo t)) by (rewrite len_take; lia).
           symmetry. apply take_splice; rewrite ?len_take; lia. }
      rewrite <- app_assoc. f_equal. destruct (Z.le_gt_cases (md_size md) (len out - done)).
      * rewrite take_app_r by lia. rewrite (take_all todo) by lia. do 2 f_equal. lia.
      * replace (len out - (done + todo)) with 0 by lia. rewrite take_0, app_nil_r, take_app_l by lia. f_equal. lia.
    + destruct (Z.eqb_spec (i + 1) 0); [lia | exact K3].
    + intros Hn. destruct n; [congruence |]. cbn [pred] in *. nia.
Qed.

Lemma hkdf_expand_ok out prk info : bytes_ok prk -> len prk < 2 ^ 64 -> bytes_ok info -> len info < 2 ^ 64 -> len out < 2 ^ 64 ->
  HKDF_expand alloc_ok junk dup out md prk info =
    Some (if 255 * md_size md <? len out then HkdfError HKDF_R_OUTPUT_TOO_LARGE
          else if alloc_ok (ctx_size md) then Key (rfc5869_expand H (block_size md) prk info (len out) (md_size md))
          else HkdfError ERR_R_HMAC_LIB).
Proof.
  intros Hk Hlk Hinfo Hli Hlo. pose proof (sizes (md := md)) as ((Hs0 & Hs) & _). unfold EVP_MAX_MD_SIZE in Hs.
  pose proof (len_nonneg out). unfold HKDF_expand. set (L := len out) in *. set (d := md_size md) in *.
  destruct (Z.ltb_spec (u64 (L + d)) L) as [Hw | Hw].
  - cbn [orb]. destruct (Z.ltb_spec (255 * d) L); [reflexivity | exfalso; rewrite (wrap_small 64) in Hw; zconst; lia].
  - assert (Hnw : L + d < 2 ^ 64).
    { destruct (Z.lt_ge_cases (L + d) (2 ^ 64)); [assumption |]. exfalso.
      assert (E : u64 (L + d) = L + d - 2 ^ 64) by (unfold wrap; symmetry; apply Z.mod_unique with 1; zconst; lia). lia. }
    rewrite !(wrap_small 64) by (rewrite ?(wrap_small 64); zconst; lia). cbn [orb].
    set (n := (L + d - 1) / d).
    assert (Hn : 0 <= n /\ L <= n * d /\ (n <> 0 -> (n - 1) * d < L)).
    { unfold n. pose proof (Z.div_mod (L + d - 1) d ltac:(lia)). pose proof (Z.mod_pos_bound (L + d - 1) d ltac:(lia)).
      split; [apply Z.div_pos; lia |]. split; [nia |]. intros. nia. }
    assert (En : (255 <? n) = (255 * d <? L)) by (apply eq_true_iff_eq; rewrite !Z.ltb_lt; nia).
    rewrite En. destruct (Z.ltb_spec (255 * d) L); [reflexivity |].
    destruct (alloc_ok (ctx_size md)) eqn:Ha.
    + destruct (init_keyed HMAC_CTX_init (Some prk) Ha hmac_ready_init Hk Hlk (or_introl eq_refl)) as (c & -> & Hc). cbn [fst snd].
      subst d. rewrite (expand_loop_ok prk info (Z.to_nat n) 0 c [] out 0); try assumption; try lia.
      * rewrite take_0, Z.sub_0_r. reflexivity.
      * now split.
      * constructor.
      * change (len []) with 0. lia.
      * fold L. intros Hz. destruct Hn as (Hn0 & _ & Hn1). clearbody n. specialize (Hn1 ltac:(lia)).
        replace (Z.of_nat (pred (Z.to_nat n))) with (n - 1) by lia. lia.
    + unfold HMAC_Init_ex. cbn [HMAC_CTX_init hmac_md same_digest negb orb md_ctx i_ctx].
      assert (E : EVP_DigestInit_ex alloc_ok junk EVP_MD_CTX_init md = Some (false, EVP_MD_CTX_init)).
      { unfold EVP_DigestInit_ex, OPENSSL_malloc. cbn [EVP_MD_CTX_init digest same_digest negb]. now rewrite Ha. }
      rewrite E. destruct (block_size md <? len _); reflexivity.
Qed.
End HmacFacts.

(** For every digest that keeps the promise of [MessageDigest], HMAC of
    hmac.c is the function of RFC 2104: in one call (which fails exactly when no
    context can be allocated), and for a context that is given a key once and
    then computes any number of MACs, each message in any pieces, rewinding with
    a null key in between. *)
Lemma hmac_is_rfc2104 alloc_ok junk dup md H : MessageDigest md H -> len (junk (ctx_size md)) = ctx_size md ->
  (forall key data, bytes_ok (key_bytes key) -> len (key_bytes key) < 2 ^ 64 -> bytes_ok data -> len data < 2 ^ 64 ->
     HMAC alloc_ok junk dup md key data =
       Some (if alloc_ok (ctx_size md) then Some (rfc2104 H (block_size md) (key_bytes key) data) else None)) /\
  (forall key msgs, alloc_ok (ctx_size md) = true -> bytes_ok key -> len key < 2 ^ 64 ->
     Forall (Forall (fun d => bytes_ok d /\ len d < 2 ^ 64)) msgs ->
     exists ctx, HMAC_Init_ex alloc_ok junk dup HMAC_CTX_init (Some key) (Some md) = Some (true, ctx) /\
       macs alloc_ok junk dup ctx msgs = Some (map (fun chunks => rfc2104 H (block_size md) key (concat chunks)) msgs)).
Proof.
  intros MD Hj. split.
  - intros key data Hk Hlk Hd Hld. exact (hmac_one_shot (H := H) (MD := MD) alloc_ok junk dup Hj key data Hk Hlk Hd Hld).
  - intros key msgs Ha Hk Hl Hm.
    destruct (init_keyed (H := H) (MD := MD) alloc_ok junk dup Hj HMAC_CTX_init (Some key) Ha (hmac_ready_init (md := md)) Hk Hl (or_introl eq_refl)) as (ctx & E & Hc).
    exists ctx. split; [exact E |].
    exact (macs_ok (H := H) (MD := MD) alloc_ok junk dup msgs ctx key (keyed_rewindable (H := H) key [] ctx Hc) Hm).
Qed.

(** HKDF is the function of RFC 5869 for every digest behind the interface:
    it fills the whole output when that is at most 255 digests long, refuses
    longer ones (also where the computation of the number of blocks overflows),
    and otherwise fails only when a context cannot be allocated. *)
Lemma hkdf_is_rfc5869 alloc_ok junk dup md H out secret salt info :
  MessageDigest md H -> len (junk (ctx_size md)) = ctx_size md ->
  bytes_ok secret -> len secret < 2 ^ 64 -> bytes_ok (key_bytes salt) -> len (key_bytes salt) < 2 ^ 64 ->
  bytes_ok info -> len info < 2 ^ 64 -> len out < 2 ^ 64 ->
  HKDF alloc_ok junk dup out md secret salt info =
    Some (if negb (alloc_ok (ctx_size md)) then HkdfError ERR_R_HMAC_LIB
          else if 255 * md_size md <? len out then HkdfError HKDF_R_OUTPUT_TOO_LARGE
          else Key (rfc5869 H (block_size md) secret (key_bytes salt) info (len out) (md_size md))).
Proof.
  intros MD Hj Hs Hls Hsa Hlsa Hi Hli Hlo. unfold HKDF, HKDF_extract.
  rewrite (hmac_one_shot (H := H) (MD := MD) alloc_ok junk dup Hj salt secret) by assumption.
  destruct (alloc_ok (ctx_size md)) eqn:Ha; cbn [negb]; [| reflexivity].
  destruct (mac_len (md := md) (H := H) (MD := MD) (key_bytes salt) secret Hsa Hs) as [Hl Hb].
  pose proof (sizes (md := md)) as ((_ & Hsz) & _). unfold EVP_MAX_MD_SIZE in Hsz.
  rewrite (hkdf_expand_ok (H := H) (MD := MD) alloc_ok junk dup Hj) by (assumption || lia). rewrite Ha.
  destruct (255 * md_size md <? len out); reflexivity.
Qed.

(** C2: HMAC and HKDF are the functions of RFC 2104 and RFC 5869 for every digest that keeps the promise of [MessageDigest]. HMAC is exact in one call (which fails exactly when no context can be allocated) and for any sequence of messages, each in any pieces, under a key given once; HKDF fills outputs of at most 255 digests, refuses longer ones (also where the computation of the number of blocks overflows), and otherwise fails only when a context cannot be allocated. *)
Theorem hmac_hkdf_exact :
  (forall alloc_ok junk dup md H,
    MessageDigest md H -> len (junk (ctx_size md)) = ctx_size md ->
      (forall key data, bytes_ok (key_bytes key) -> len (key_bytes key) < 2 ^ 64 -> bytes_ok data -> len data < 2 ^ 64 ->
         HMAC alloc_ok junk dup md key data =
           Some (if alloc_ok (ctx_size md) then Some (rfc2104 H (block_size md) (key_bytes key) data) else None)) /\
      (forall key msgs, alloc_ok (ctx_size md) = true -> bytes_ok key -> len key < 2 ^ 64 ->
         Forall (Forall (fun d => bytes_ok d /\ len d < 2 ^ 64)) msgs ->
         exists ctx, HMAC_Init_ex alloc_ok junk dup HMAC_CTX_init (Some key) (Some md) = Some (true, ctx) /\
           macs alloc_ok junk dup ctx msgs = Some (map (fun chunks => rfc2104 H (block_size md) key (concat chunks)) msgs))) /\
  (forall alloc_ok junk dup md H out secret salt info,
    MessageDigest md H -> len (junk (ctx_size md)) = ctx_size md ->
      bytes_ok secret -> len secret < 2 ^ 64 -> bytes_ok (key_bytes salt) -> len (key_bytes salt) < 2 ^ 64 ->
      bytes_ok info -> len info < 2 ^ 64 -> len out < 2 ^ 64 ->
      HKDF alloc_ok junk dup out md secret salt info =
        Some (if negb (alloc_ok (ctx_size md)) then HkdfError ERR_R_HMAC_LIB
              else if 255 * md_size md <? len out then HkdfError HKDF_R_OUTPUT_TOO_LARGE
              else Key (rfc5869 H (block_size md) secret (key_bytes salt) info (len out) (md_size md)))).
Proof. split; [exact (@hmac_is_rfc2104) | exact (@hkdf_is_rfc5869)]. Qed.

Definition junk7 (n : Z) : list Z := repeat 7 (Z.to_nat n).
Definition no_dup (_ : Z) : option Z := None.


Lemma hmac_hkdf_exact_witness :
  (HMAC (fun _ => true) junk7 no_dup EVP_sha256 (Some [1; 2; 3]) [97; 98; 99] = Some (Some (rfc2104 fips_sha256 64 [1; 2; 3] [97; 98; 99])) /\
    exists ctx, HMAC_Init_ex (fun _ => true) junk7 no_dup HMAC_CTX_init (Some (repeat 5 200)) (Some EVP_sha512) = Some (true, ctx) /\
      macs (fun _ => true) junk7 no_dup ctx [[[97]; [98]]; []] =
        Some [rfc2104 fips_sha512 128 (repeat 5 200) [97; 98]; rfc2104 fips_sha512 128 (repeat 5 200) []]) /\
  (HKDF (fun _ => true) junk7 no_dup (repeat 0 40) EVP_sha256 [1; 2; 3] None [9] =
      Some (Key (rfc5869 fips_sha256 64 [1; 2; 3] [] [9] 40 32)) /\
    HKDF (fun _ => true) junk7 no_dup (repeat 0 8161) EVP_sha256 [1; 2; 3] None [9] = Some (HkdfError HKDF_R_OUTPUT_TOO_LARGE)).
Proof.
  split.
  { assert (B1 : bytes_ok [1; 2; 3]) by (repeat constructor; unfold byte_ok; lia).
    assert (B2 : bytes_ok [97; 98; 99]) by (repeat constructor; unfold byte_ok; lia).
    assert (B3 : bytes_ok (repeat 5 200)) by (apply Forall_forall; intros x Hx; apply repeat_spec in Hx; subst; unfold byte_ok; lia).
    assert (B4 : Forall (Forall (fun d => bytes_ok d /\ len d < 2 ^ 64)) [[[97]; [98]]; []]) by (repeat constructor; unfold byte_ok; lia).
    split.
    - exact (proj1 (proj1 hmac_hkdf_exact (fun _ => true) junk7 no_dup EVP_sha256 fips_sha256 sha256_digest eq_refl)
        (Some [1; 2; 3]) [97; 98; 99] B1 eq_refl B2 eq_refl).
    - exact (proj2 (proj1 hmac_hkdf_exact (fun _ => true) junk7 no_dup EVP_sha512 fips_sha512 sha512_digest eq_refl)
        (repeat 5 200) [[[97]; [98]]; []] eq_refl B3 eq_refl B4). }
  { assert (B1 : bytes_ok [1; 2; 3]) by (repeat constructor; unfold byte_ok; lia).
    assert (B2 : bytes_ok [9]) by (repeat constructor; unfold byte_ok; lia).
    split.
    - exact (proj2 hmac_hkdf_exact (fun _ => true) junk7 no_dup EVP_sha256 fips_sha256 (repeat 0 40) [1; 2; 3] None [9]
        sha256_digest eq_refl B1 eq_refl bytes_ok_nil eq_refl B2 eq_refl eq_refl).
    - exact (proj2 hmac_hkdf_exact (fun _ => true) junk7 no_dup EVP_sha256 fips_sha256 (repeat 0 8161) [1; 2; 3] None [9]
        sha256_digest eq_refl B1 eq_refl bytes_ok_nil eq_refl B2 eq_refl eq_refl). }
Defined.
