(* ===== verification/Lhash.v ===== *)
(** * The chained hash table (crypto/lhash/lhash.c, OPENSSL_hash32 of mem.c)

    Items live in a heap of [LHASH_ITEM]s and are linked by their [next]
    pointers; the code walks pointers to pointers ([slot]). Reading through a
    pointer to no item is [None], so that a result is also a proof that nothing
    freed was used. *)

From S2P Require Import Prelude.
From stdpp Require Import gmap fin_maps list.
#[local] Open Scope Z_scope.

Record LHASH_ITEM := mk_item { data : Z; next : Z; hash : Z }.

Record _LHASH := mk_lhash {
  num_items : Z; buckets : list Z; num_buckets : Z; callback_depth : Z;
  comp : Z -> Z -> Z; hash_of : Z -> Z }.

Abbreviation heap := (gmap Z LHASH_ITEM).

Definition kMinNumBuckets : Z := 16.
Definition kMaxAverageChainLength : Z := 2.
Definition kMinAverageChainLength : Z := 1.
Definition UINT_MAX : Z := 4294967295.

Definition with_buckets (lh : _LHASH) (b : list Z) : _LHASH :=
  mk_lhash (num_items lh) b (num_buckets lh) (callback_depth lh) (comp lh) (hash_of lh).
Definition with_items (lh : _LHASH) (n : Z) : _LHASH :=
  mk_lhash n (buckets lh) (num_buckets lh) (callback_depth lh) (comp lh) (hash_of lh).
Definition with_depth (lh : _LHASH) (n : Z) : _LHASH :=
  mk_lhash (num_items lh) (buckets lh) (num_buckets lh) n (comp lh) (hash_of lh).

(** A pointer to a pointer to an item: an element of [buckets] or the [next]
    field of an item. *)
Inductive slot : Type := Bucket (i : nat) | Next (p : Z).

Definition deref (lh : _LHASH) (h : heap) (s : slot) : option Z :=
  match s with
  | Bucket i => buckets lh !! i
  | Next p => it ← h !! p; Some (next it)
  end.

Definition store (lh : _LHASH) (h : heap) (s : slot) (v : Z) : option (_LHASH * heap) :=
  match s with
  | Bucket i => _ ← buckets lh !! i; Some (with_buckets lh (<[i := v]> (buckets lh)), h)
  | Next p => it ← h !! p; Some (lh, <[p := mk_item (data it) v (hash it)]> h)
  end.

Section Lhash.
Variable alloc_ok : Z -> bool.             (* memory for a bucket array *)
Variable new_item : heap -> option Z.      (* OPENSSL_malloc(sizeof(LHASH_ITEM)) *)

Definition lh_new (hash_of : Z -> Z) (comp : Z -> Z -> Z) : option _LHASH :=
  if negb (alloc_ok 48) then None else
  if negb (alloc_ok (u64 (8 * kMinNumBuckets))) then None else
  Some (mk_lhash 0 (repeat 0 (Z.to_nat kMinNumBuckets)) kMinNumBuckets 0 comp hash_of).

(** One chain of lh_free. *)
Fixpoint free_chain (fuel : nat) (h : heap) (n : Z) : option heap :=
  if n =? 0 then Some h else
  match fuel with
  | O => None
  | S fuel => it ← h !! n; free_chain fuel (delete n h) (next it)
  end.

Fixpoint free_chains (h : heap) (buckets : list Z) : option heap :=
  match buckets with
  | [] => Some h
  | p :: buckets => h ← free_chain (size h) h p; free_chains h buckets
  end.

Definition lh_free (lh : _LHASH) (h : heap) : option heap := free_chains h (buckets lh).

Definition lh_num_items (lh : _LHASH) : Z := num_items lh.

Fixpoint find_slot (fuel : nat) (lh : _LHASH) (h : heap) (key : Z) (ret : slot) : option slot :=
  match fuel with
  | O => None
  | S fuel =>
      cur ← deref lh h ret;
      if cur =? 0 then Some ret else
      it ← h !! cur;
      if comp lh (data it) key =? 0 then Some ret else find_slot fuel lh h key (Next cur)
  end.

Definition get_next_ptr_and_hash (lh : _LHASH) (h : heap) (key : Z) : option (slot * Z) :=
  let hash := hash_of lh key in
  ret ← find_slot (S (size h)) lh h key (Bucket (Z.to_nat (hash mod num_buckets lh)));
  Some (ret, hash).

(** The element, or NULL. *)
Definition lh_retrieve (lh : _LHASH) (h : heap) (key : Z) : option Z :=
  '(next_ptr, _) ← get_next_ptr_and_hash lh h key;
  p ← deref lh h next_ptr;
  if p =? 0 then Some 0 else it ← h !! p; Some (data it).

Fixpoint rebucket_chain (fuel : nat) (n : Z) (h : heap) (new_buckets : list Z) (cur : Z) : option (heap * list Z) :=
  if cur =? 0 then Some (h, new_buckets) else
  match fuel with
  | O => None
  | S fuel =>
      it ← h !! cur;
      let new_bucket := Z.to_nat (hash it mod n) in
      let nxt := next it in
      head ← new_buckets !! new_bucket;
      rebucket_chain fuel n (<[cur := mk_item (data it) head (hash it)]> h) (<[new_bucket := cur]> new_buckets) nxt
  end.

Fixpoint rebucket_all (n : Z) (h : heap) (new_buckets : list Z) (old : list Z) : option (heap * list Z) :=
  match old with
  | [] => Some (h, new_buckets)
  | p :: old => '(h, new_buckets) ← rebucket_chain (size h) n h new_buckets p; rebucket_all n h new_buckets old
  end.

Definition lh_rebucket (lh : _LHASH) (h : heap) (new_num_buckets : Z) : option (_LHASH * heap) :=
  let alloc_size := u64 (8 * new_num_buckets) in
  if negb (alloc_size / 8 =? new_num_buckets) then Some (lh, h) else
  if negb (alloc_ok alloc_size) then Some (lh, h) else
  '(h, new_buckets) ← rebucket_all new_num_buckets h (repeat 0 (Z.to_nat new_num_buckets)) (buckets lh);
  Some (mk_lhash (num_items lh) new_buckets new_num_buckets (callback_depth lh) (comp lh) (hash_of lh), h).

(** A failing assertion is [None]. *)
Definition lh_maybe_resize (lh : _LHASH) (h : heap) : option (_LHASH * heap) :=
  if 0 <? callback_depth lh then Some (lh, h) else
  if num_buckets lh <? kMinNumBuckets then None else
  let avg_chain_length := num_items lh / num_buckets lh in
  if kMaxAverageChainLength <? avg_chain_length then
    let new_num_buckets := u64 (num_buckets lh * 2) in
    if num_buckets lh <? new_num_buckets then lh_rebucket lh h new_num_buckets else Some (lh, h)
  else if (avg_chain_length <? kMinAverageChainLength) && (kMinNumBuckets <? num_buckets lh) then
    let new_num_buckets := num_buckets lh / 2 in
    let new_num_buckets := if new_num_buckets <? kMinNumBuckets then kMinNumBuckets else new_num_buckets in
    lh_rebucket lh h new_num_buckets
  else Some (lh, h).

(** The return value, [*old_data] and what is left. *)
Definition lh_insert (lh : _LHASH) (h : heap) (d : Z) : option (bool * Z * (_LHASH * heap)) :=
  '(next_ptr, hash) ← get_next_ptr_and_hash lh h d;
  p ← deref lh h next_ptr;
  if negb (p =? 0) then
    it ← h !! p;
    Some (true, data it, (lh, <[p := mk_item d (next it) (Lhash.hash it)]> h))
  else
    match new_item h with
    | None => Some (false, 0, (lh, h))
    | Some item =>
        let h := <[item := mk_item d 0 hash]> h in
        '(lh, h) ← store lh h next_ptr item;
        st ← lh_maybe_resize (with_items lh (u64 (num_items lh + 1))) h;
        Some (true, 0, st)
    end.

(** The element removed, or NULL. *)
Definition lh_delete (lh : _LHASH) (h : heap) (d : Z) : option (Z * (_LHASH * heap)) :=
  '(next_ptr, _) ← get_next_ptr_and_hash lh h d;
  item ← deref lh h next_ptr;
  if item =? 0 then Some (0, (lh, h)) else
  it ← h !! item;
  '(lh, h) ← store lh h next_ptr (next it);
  let ret := data it in
  let h := delete item h in
  st ← lh_maybe_resize (with_items lh (u64 (num_items lh - 1))) h;
  Some (ret, st).

(** Iteration. The callback runs in the caller's state [X] and may change the
    table; [fuel] bounds the turns of each loop. *)
Section DoAll.
Context {X : Type} (func : Z -> X * (_LHASH * heap) -> option (X * (_LHASH * heap))).

Fixpoint doall_chain (fuel : nat) (st : X * (_LHASH * heap)) (cur : Z) : option (X * (_LHASH * heap)) :=
  if cur =? 0 then Some st else
  match fuel with
  | O => None
  | S fuel =>
      let '(x, (lh, h)) := st in
      it ← h !! cur;
      st ← func (data it) st;
      doall_chain fuel st (next it)
  end.

(** The buckets from [i] on; the bound is read again at each turn. *)
Fixpoint doall_buckets (n fuel : nat) (st : X * (_LHASH * heap)) (i : nat) : option (X * (_LHASH * heap)) :=
  match n with
  | O => None
  | S n =>
      let '(x, (lh, h)) := st in
      if negb (Z.of_nat i <? num_buckets lh) then Some st else
      p ← buckets lh !! i;
      st ← doall_chain fuel st p;
      doall_buckets n fuel st (S i)
  end.

Definition lh_doall_internal (fuel : nat) (st : X * (_LHASH * heap)) : option (X * (_LHASH * heap)) :=
  let '(x, (lh, h)) := st in
  let lh := if callback_depth lh <? UINT_MAX then with_depth lh (callback_depth lh + 1) else lh in
  '(x, (lh, h)) ← doall_buckets fuel fuel (x, (lh, h)) 0;
  let lh := if callback_depth lh <? UINT_MAX then with_depth lh (callback_depth lh - 1) else lh in
  st ← lh_maybe_resize lh h;
  Some (x, st).
End DoAll.
End Lhash.

(** FNV-1a. *)
Definition kPrime : Z := 16777619.
Definition kOffsetBasis : Z := 2166136261.
Definition OPENSSL_hash32 (bytes : list Z) : Z :=
  foldl (fun h b => u32 (Z.lxor h b * kPrime)) kOffsetBasis bytes.

(** [c] is a C string up to its NUL, or a null pointer. *)
Definition lh_strhash (c : option (list Z)) : Z :=
  match c with None => 0 | Some c => OPENSSL_hash32 c end.

(** ** Linked segments

    [lseg hf h p l q]: from [p], following [next] through the nodes [l]
    (addresses with their data), one arrives at [q]; every item caches the hash
    of its data. *)
Abbreviation node := (Z * Z)%type.

Fixpoint lseg (hf : Z -> Z) (h : heap) (p : Z) (l : list node) (q : Z) : Prop :=
  match l with
  | [] => p = q
  | (a, d) :: l => p = a /\ a <> 0 /\ exists nxt, h !! a = Some (mk_item d nxt (hf d)) /\ lseg hf h nxt l q
  end.

Section Segments.
Variable hf : Z -> Z.
Implicit Types (h : heap) (l : list node).
Abbreviation lseg := (lseg hf).

Lemma lseg_app h l1 : forall p l2 q, lseg h p (l1 ++ l2) q <-> exists m, lseg h p l1 m /\ lseg h m l2 q.
Proof.
  induction l1 as [| [a d] l1 IH]; intros p l2 q; cbn [lseg app]; [naive_solver |].
  setoid_rewrite IH. naive_solver.
Qed.

Lemma lseg_frame h h' l : forall p q, (forall a, a ∈ l.*1 -> h' !! a = h !! a) -> lseg h p l q -> lseg h' p l q.
Proof.
  induction l as [| [a d] l IH]; intros p q Hf; cbn [lseg]; [done |].
  intros (-> & Ha & nxt & E & Hl). split; [done |]. split; [done |]. exists nxt. split.
  - rewrite Hf; [done | set_solver].
  - apply IH; [set_solver | done].
Qed.

Lemma lseg_lookup h l p q a d : lseg h p l q -> (a, d) ∈ l -> exists nxt, h !! a = Some (mk_item d nxt (hf d)).
Proof.
  revert p. induction l as [| [a' d'] l IH]; intros p Hl Hin; [set_solver |].
  destruct Hl as (-> & _ & nxt & E & Hl). apply elem_of_cons in Hin as [[= -> ->] | Hin]; [eauto |]. by apply (IH nxt).
Qed.

Lemma lseg_nonnull h l p q : lseg h p l q -> 0 ∉ l.*1.
Proof.
  revert p. induction l as [| [a d] l IH]; intros p; [set_solver |]. intros (-> & Ha & nxt & _ & Hl).
  pose proof (IH _ Hl). set_solver.
Qed.

Lemma lseg_short h l p q : lseg h p l q -> NoDup l.*1 -> (length l <= size h)%nat.
Proof.
  intros Hl Hnd. rewrite <- (size_dom (D := gset Z)), <- (length_fmap fst l), <- (size_list_to_set (C := gset Z) l.*1) by done.
  apply subseteq_size. intros a. rewrite elem_of_list_to_set, list_elem_of_fmap. intros ([a' d] & -> & Hin).
  destruct (lseg_lookup _ _ _ _ _ _ Hl Hin) as [nxt E]. apply elem_of_dom. eauto.
Qed.

Lemma lseg_null h l : lseg h 0 l 0 -> l = [].
Proof. destruct l as [| [a d] l]; [done |]. intros (-> & ? & _). done. Qed.

Lemma lseg_head h l p : lseg h p l 0 -> p <> 0 -> exists d l' nxt, l = (p, d) :: l' /\ h !! p = Some (mk_item d nxt (hf d)) /\ lseg h nxt l' 0.
Proof. destruct l as [| [a d] l]; [intros -> ?; done |]. intros (-> & _ & nxt & E & Hl) _. eauto 10. Qed.
End Segments.

(** ** Slots in a chain *)

(** The slot one arrives at from [s] after the nodes [l1]. *)
Definition slot_from (s : slot) (l1 : list node) : slot :=
  match last l1 with None => s | Some (a, _) => Next a end.

Lemma slot_from_cons s n l1 : slot_from s (n :: l1) = slot_from (Next n.1) l1.
Proof. unfold slot_from. rewrite last_cons. destruct (last l1) as [[a d] |]; [done |]. by destruct n. Qed.

Lemma deref_slot_from lh h hf l1 : forall s p m, deref lh h s = Some p -> lseg hf h p l1 m -> deref lh h (slot_from s l1) = Some m.
Proof.
  induction l1 as [| [a d] l1 IH]; intros s p m Hs; cbn [lseg]; [by intros <- |].
  intros (-> & _ & nxt & E & Hl). rewrite slot_from_cons. apply (IH _ nxt); [| done]. cbn. by rewrite E.
Qed.

Lemma find_slot_spec lh h key l : forall fuel s p, deref lh h s = Some p -> lseg (hash_of lh) h p l 0 -> (length l < fuel)%nat ->
  exists l1 l2, l = l1 ++ l2 /\ Forall (fun n => comp lh n.2 key <> 0) l1 /\
    (forall n, head l2 = Some n -> comp lh n.2 key = 0) /\
    find_slot fuel lh h key s = Some (slot_from s l1).
Proof.
  induction l as [| [a d] l IH]; intros fuel s p Hs Hl Hf; (destruct fuel as [| fuel]; [cbn in Hf; lia |]); cbn [find_slot].
  - cbn in Hl. subst p. rewrite Hs. exists [], []. repeat split; [constructor | by intros].
  - destruct Hl as (-> & Ha & nxt & E & Hl). rewrite Hs. cbn. rewrite E, (proj2 (Z.eqb_neq a 0) Ha). cbn.
    destruct (Z.eqb_spec (comp lh d key) 0) as [Hc | Hc].
    + exists [], ((a, d) :: l). repeat split; [constructor | by intros n [= <-]].
    + destruct (IH fuel (Next a) nxt) as (l1 & l2 & -> & Hn & Hh & Ef); [cbn; by rewrite E | done | cbn in Hf; lia |].
      exists ((a, d) :: l1), l2. rewrite Ef, slot_from_cons. repeat split; [by constructor | done].
Qed.

Lemma with_buckets_id lh i p : buckets lh !! i = Some p -> with_buckets lh (<[i := p]> (buckets lh)) = lh.
Proof. intros E. unfold with_buckets. rewrite list_insert_id by done. by destruct lh. Qed.

(** Storing through the slot after [l1] makes the segment [l1] end elsewhere. *)
Lemma store_spec lh h i p l1 m v : buckets lh !! i = Some p -> lseg (hash_of lh) h p l1 m -> NoDup l1.*1 ->
  exists p' h', store lh h (slot_from (Bucket i) l1) v = Some (with_buckets lh (<[i := p']> (buckets lh)), h') /\
    lseg (hash_of lh) h' p' l1 v /\ (forall a, a ∉ l1.*1 -> h' !! a = h !! a) /\ dom h' = dom h.
Proof.
  intros Hp Hl Hnd. destruct l1 as [| [a d] l1 _] using rev_ind.
  - exists v, h. cbn. by rewrite Hp.
  - exists p. apply lseg_app in Hl as (m' & Hl & -> & Ha & nxt & E & Hm).
    exists (<[a := mk_item d v (hash_of lh d)]> h). unfold slot_from. rewrite last_snoc. cbn. rewrite E. cbn.
    rewrite fmap_app, NoDup_app in Hnd. destruct Hnd as (_ & Hnd & _). rewrite with_buckets_id by done. split; [done |].
    split; [| split].
    + apply lseg_app. exists a. split.
      * apply (lseg_frame (hash_of lh) h); [| done]. intros b Hb. apply lookup_insert_ne. intros ->. apply (Hnd b Hb). set_solver.
      * cbn. split; [done |]. split; [done |]. exists v. split; [apply lookup_insert_eq | done].
    + intros b Hb. apply lookup_insert_ne. intros ->. apply Hb. rewrite fmap_app. apply elem_of_app. right. by apply list_elem_of_singleton.
    + apply dom_insert_lookup_L. by exists (mk_item d nxt (hash_of lh d)).
Qed.

(** ** The invariant *)

(** What the two functions given to [lh_new] must satisfy: [comp] = 0 is an
    equivalence that [hash_of] respects. *)
Class KeyLaws (hash_of : Z -> Z) (comp : Z -> Z -> Z) : Prop := {
  comp_refl x : comp x x = 0;
  comp_sym x y : comp x y = 0 -> comp y x = 0;
  comp_trans x y z : comp x y = 0 -> comp y z = 0 -> comp x z = 0;
  hash_eq x y : comp x y = 0 -> hash_of x = hash_of y;
  hash_range x : 0 <= hash_of x < 2 ^ 32 }.

(** Fresh items have nonzero 64-bit addresses that are not in use. *)
Class ItemAlloc (new_item : heap -> option Z) : Prop :=
  new_item_fresh h p : new_item h = Some p -> 0 < p < 2 ^ 64 /\ h !! p = None.

Abbreviation same lh els key := (filter (fun e => comp lh e key = 0) els).
Abbreviation others lh els key := (filter (fun e => comp lh e key <> 0) els).

Definition distinct (lh : _LHASH) (els : list Z) : Prop := forall key, (length (same lh els key) <= 1)%nat.

Record table (lh : _LHASH) (h : heap) (chains : list (list node)) : Prop := {
  t_heads : Forall2 (fun p l => lseg (hash_of lh) h p l 0) (buckets lh) chains;
  t_buckets : Z.of_nat (length chains) = num_buckets lh;
  t_size : kMinNumBuckets <= num_buckets lh < 2 ^ 64;
  t_nodup : NoDup (concat chains).*1;
  t_dom a : a ∈ dom h <-> a ∈ (concat chains).*1;
  t_range a : a ∈ dom h -> 0 < a < 2 ^ 64;
  t_place i l : chains !! i = Some l -> Forall (fun n => hash_of lh n.2 mod num_buckets lh = Z.of_nat i) l;
  t_keys : distinct lh (concat chains).*2;
  t_count : num_items lh = len (concat chains);
  t_depth : 0 <= callback_depth lh <= UINT_MAX }.

(** The table holds exactly the elements [els], in some order, and owns every
    item of the heap. *)
Definition lhash (lh : _LHASH) (h : heap) (els : list Z) : Prop :=
  exists chains, table lh h chains /\ els ≡ₚ (concat chains).*2.

#[export] Instance len_Permutation A : Proper ((≡ₚ) ==> (=)) (@len A).
Proof. intros l k E. unfold len. by rewrite E. Qed.

#[export] Instance distinct_Permutation lh : Proper ((≡ₚ) ==> impl) (distinct lh).
Proof. intros l k E Hd key. rewrite <- E. apply Hd. Qed.

(** One chain replaced. *)
Lemma concat_lookup {A} (chains : list (list A)) i l : chains !! i = Some l -> concat chains ≡ₚ l ++ concat (delete i chains).
Proof. intros E. by rewrite (delete_Permutation chains i l E) at 1. Qed.

Lemma concat_insert {A} (chains : list (list A)) i l l' : chains !! i = Some l ->
  concat (<[i := l']> chains) ≡ₚ l' ++ concat (delete i chains).
Proof.
  intros E. pose proof (lookup_lt_Some _ _ _ E). rewrite (concat_lookup (<[i := l']> chains) i l') by (by apply list_lookup_insert_eq).
  by rewrite !delete_take_drop, take_insert_ge, drop_insert_lt by lia.
Qed.

Lemma other_lookup {A} (chains : list (list A)) i j k : i <> j -> chains !! j = Some k -> forall x, x ∈ k -> x ∈ concat (delete i chains).
Proof.
  intros Hij Hj x Hx. apply list_elem_of_In, in_concat. exists k. split; [| by apply list_elem_of_In].
  apply list_elem_of_In, list_elem_of_lookup. destruct (decide (j < i)%nat).
  - exists j. by rewrite list_lookup_delete_lt by lia.
  - exists (pred j). rewrite list_lookup_delete_ge by lia. by replace (S (pred j)) with j by lia.
Qed.

Section TableFacts.
Context {lh : _LHASH} {h : heap} {chains : list (list node)} `{KL : !KeyLaws (hash_of lh) (comp lh)}.
Hypothesis T : table lh h chains.

Lemma bucket_lookup i p : buckets lh !! i = Some p -> exists l, chains !! i = Some l /\ lseg (hash_of lh) h p l 0.
Proof. intros E. by apply (Forall2_lookup_l _ _ _ _ _ (t_heads _ _ _ T)). Qed.

Lemma chain_nodup i l : chains !! i = Some l -> NoDup l.*1.
Proof.
  intros E. pose proof (t_nodup _ _ _ T) as Hnd. rewrite (concat_lookup _ _ _ E), fmap_app, NoDup_app in Hnd. apply Hnd.
Qed.

Definition home (key : Z) : nat := Z.to_nat (hash_of lh key mod num_buckets lh).

Lemma home_bucket key : exists p l, buckets lh !! home key = Some p /\ chains !! home key = Some l /\ lseg (hash_of lh) h p l 0.
Proof.
  pose proof (t_size _ _ _ T) as Hs. unfold kMinNumBuckets in Hs. pose proof (t_buckets _ _ _ T) as Hb.
  pose proof (Forall2_length _ _ _ (t_heads _ _ _ T)) as Hl.
  pose proof (Z.mod_pos_bound (hash_of lh key) (num_buckets lh) ltac:(lia)).
  destruct (lookup_lt_is_Some_2 (buckets lh) (home key)) as [p Hp]; [unfold home; lia |].
  destruct (bucket_lookup _ _ Hp) as (l & El & Hl'). eauto.
Qed.

(** Only the home chain of a key can hold an element equal to it. *)
Lemma other_chains key : Forall (fun n => comp lh n.2 key <> 0) (concat (delete (home key) chains)).
Proof.
  pose proof (t_size _ _ _ T) as Hs. unfold kMinNumBuckets in Hs.
  apply Forall_concat, Forall_lookup. intros j l Hj.
  assert (exists i, i <> home key /\ chains !! i = Some l) as (i & Hi & El).
  { rewrite list_lookup_delete in Hj. case_decide; eexists; (split; [| exact Hj]); lia. }
  eapply Forall_impl; [apply (t_place _ _ _ T i l El) |]. intros n Hn Hc. apply Hi. unfold home.
  rewrite <- (hash_eq _ _ Hc), Hn. lia.
Qed.

Lemma lookup_spec key : exists p l1 l2 m,
  buckets lh !! home key = Some p /\ chains !! home key = Some (l1 ++ l2) /\
  lseg (hash_of lh) h p l1 m /\ lseg (hash_of lh) h m l2 0 /\
  Forall (fun n => comp lh n.2 key <> 0) l1 /\ (forall n, head l2 = Some n -> comp lh n.2 key = 0) /\
  get_next_ptr_and_hash lh h key = Some (slot_from (Bucket (home key)) l1, hash_of lh key) /\
  deref lh h (slot_from (Bucket (home key)) l1) = Some m.
Proof.
  destruct (home_bucket key) as (p & l & Hp & Hc & Hl).
  destruct (find_slot_spec lh h key l (S (size h)) (Bucket (home key)) p) as (l1 & l2 & -> & Hn & Hh & E);
    [done | done | apply chain_nodup in Hc; apply lseg_short in Hl; (done || lia) |].
  apply lseg_app in Hl as (m & Hl1 & Hl2). exists p, l1, l2, m. unfold get_next_ptr_and_hash. fold (home key). rewrite E.
  repeat split; try done. by apply (deref_slot_from lh h (hash_of lh) l1 (Bucket (home key)) p).
Qed.

(** The chain of the key, cut where the search stops, against the whole. *)
Lemma same_after key (l1 l2 : list node) : chains !! home key = Some (l1 ++ l2) ->
  Forall (fun n => comp lh n.2 key <> 0) l1 -> (forall n, head l2 = Some n -> comp lh n.2 key = 0) ->
  same lh (concat chains).*2 key = from_option (fun n => [n.2]) [] (head l2) /\
  others lh (concat chains).*2 key ≡ₚ (l1 ++ tail l2 ++ concat (delete (home key) chains)).*2.
Proof.
  intros Hc Hn Hh. pose proof (other_chains key) as Ho.
  assert (E : (concat chains).*2 ≡ₚ l1.*2 ++ l2.*2 ++ (concat (delete (home key) chains)).*2)
    by by rewrite (concat_lookup _ _ _ Hc), !fmap_app, app_assoc.
  assert (F : forall l : list node, Forall (fun n => comp lh n.2 key <> 0) l -> same lh l.*2 key = [] /\ others lh l.*2 key = l.*2).
  { induction 1 as [| n l Hx _ [IH1 IH2]]; [done |]. rewrite fmap_cons, !filter_cons, decide_False, decide_True by tauto.
    by rewrite IH1, IH2. }
  destruct (F _ Hn) as [S1 O1], (F _ Ho) as [S3 O3].
  pose proof (t_keys _ _ _ T key) as Hd. rewrite E, !filter_app, S1, S3, app_nil_r in Hd.
  assert (S2 : same lh l2.*2 key = from_option (fun n => [n.2]) [] (head l2) /\ others lh l2.*2 key = (tail l2).*2).
  { destruct l2 as [| n l2]; [done |]. specialize (Hh n eq_refl). cbn [head tail from_option].
    rewrite fmap_cons, !filter_cons, decide_True, decide_False in * by tauto.
    assert (N : same lh l2.*2 key = []) by (apply length_zero_iff_nil; cbn in Hd; lia). rewrite N. split; [done |].
    apply F, Forall_forall. intros x Hx Hcx.
    assert (Hin : x.2 ∈ same lh l2.*2 key) by (apply list_elem_of_filter; split; [done | by apply list_elem_of_fmap_2]).
    rewrite N in Hin. by apply not_elem_of_nil in Hin. }
  destruct S2 as [S2 O2]. split.
  - assert (P : same lh (concat chains).*2 key ≡ₚ same lh l2.*2 key) by by rewrite E, !filter_app, S1, S3, app_nil_r.
    rewrite S2 in P. destruct (head l2) as [n |]; cbn in *; [by apply Permutation_singleton_r in P | by apply Permutation_nil_r in P].
  - by rewrite E, !filter_app, O1, O2, O3, !fmap_app.
Qed.

(** One chain replaced by [l'], whose items may have moved. *)
Lemma table_update i l p' l' h' n' : chains !! i = Some l ->
  let rest := concat (delete i chains) in
  lseg (hash_of lh) h' p' l' 0 -> (forall a, a ∈ rest.*1 -> h' !! a = h !! a) ->
  NoDup (l' ++ rest).*1 -> (forall a, a ∈ dom h' <-> a ∈ (l' ++ rest).*1) -> (forall a, a ∈ l'.*1 -> 0 < a < 2 ^ 64) ->
  Forall (fun n => hash_of lh n.2 mod num_buckets lh = Z.of_nat i) l' ->
  distinct lh (l' ++ rest).*2 -> n' = len (l' ++ rest) ->
  table (with_items (with_buckets lh (<[i := p']> (buckets lh))) n') h' (<[i := l']> chains).
Proof.
  intros Hi rest Hl Hf Hnd Hdom Hr Hpl Hk ->. pose proof (concat_insert chains i l l' Hi) as E. fold rest in E.
  assert (Hp : (concat (<[i := l']> chains)).*1 ≡ₚ (l' ++ rest).*1) by by rewrite E.
  constructor; cbn [with_items with_buckets num_items buckets num_buckets callback_depth comp hash_of].
  - pose proof (t_heads _ _ _ T) as Hh. apply Forall2_same_length_lookup_2.
    { rewrite !length_insert. by apply Forall2_length in Hh. }
    intros j q k Hq Hk'. destruct (decide (i = j)) as [<- | Hij].
    + apply lookup_lt_Some in Hi as Hlt. rewrite list_lookup_insert_eq in Hk' by done.
      rewrite list_lookup_insert_eq in Hq by (apply Forall2_length in Hh; lia). by simplify_eq.
    + rewrite list_lookup_insert_ne in Hq by done. rewrite list_lookup_insert_ne in Hk' by done. apply (lseg_frame _ h); [| by apply (Forall2_lookup_lr _ _ _ _ _ _ Hh Hq Hk')].
      intros a (n & -> & Hin)%list_elem_of_fmap. apply Hf, list_elem_of_fmap_2. by apply (other_lookup chains i j k).
  - rewrite length_insert. apply (t_buckets _ _ _ T).
  - apply (t_size _ _ _ T).
  - by rewrite Hp.
  - intros a. by rewrite Hp.
  - intros a Ha. apply Hdom in Ha. rewrite fmap_app, elem_of_app in Ha. destruct Ha as [Ha | Ha]; [by apply Hr |].
    apply (t_range _ _ _ T), (t_dom _ _ _ T). rewrite (concat_lookup _ _ _ Hi), fmap_app, elem_of_app. by right.
  - intros j k Hk'. destruct (decide (i = j)) as [<- | Hij].
    + apply lookup_lt_Some in Hi as Hlt. rewrite list_lookup_insert_eq in Hk' by done. by simplify_eq.
    + rewrite list_lookup_insert_ne in Hk' by done. by apply (t_place _ _ _ T).
  - intros key. unfold comp at 1. rewrite E. apply Hk.
  - unfold len. by rewrite E.
  - apply (t_depth _ _ _ T).
Qed.
End TableFacts.

(** ** Resizing *)

Definition placed (hf : Z -> Z) (n : Z) (chains : list (list node)) : Prop :=
  forall i l, chains !! i = Some l -> Forall (fun x => hf x.2 mod n = Z.of_nat i) l.

(** The buckets [bs] hold the chains. *)
Abbreviation heads hf h bs chains := (Forall2 (fun p l => lseg hf h p l 0) bs chains).

Lemma heads_frame hf h h' bs chains : (forall a, a ∈ (concat chains).*1 -> h' !! a = h !! a) ->
  heads hf h bs chains -> heads hf h' bs chains.
Proof.
  intros Hf. induction 1 as [| p l bs chains Hl _ IH]; constructor.
  - apply (lseg_frame hf h); [| done]. intros a Ha. apply Hf. cbn. rewrite fmap_app. apply elem_of_app. by left.
  - apply IH. intros a Ha. apply Hf. cbn. rewrite fmap_app. apply elem_of_app. by right.
Qed.

Section Rebucket.
Variables (hf : Z -> Z) (n : Z).
Hypothesis n_pos : 0 < n.

(** Moving one chain into the new buckets. *)
Lemma rebucket_chain_spec l : forall fuel h nb cur new, lseg hf h cur l 0 -> heads hf h nb new ->
  Z.of_nat (length new) = n -> placed hf n new -> NoDup (l ++ concat new).*1 -> (length l <= fuel)%nat ->
  exists h' nb' new', rebucket_chain fuel n h nb cur = Some (h', nb') /\ heads hf h' nb' new' /\
    Z.of_nat (length new') = n /\ placed hf n new' /\ concat new' ≡ₚ l ++ concat new /\ dom h' = dom h /\
    (forall a, a ∉ (l ++ concat new).*1 -> h' !! a = h !! a).
Proof.
  induction l as [| [a d] l IH]; intros fuel h nb cur new Hl Hh Hn Hp Hnd Hf.
  - cbn in Hl. subst cur. exists h, nb, new. destruct fuel; cbn; done.
  - destruct Hl as (-> & Ha & nxt & E & Hl). destruct fuel as [| fuel]; [cbn in Hf; lia |]. cbn [rebucket_chain].
    rewrite (proj2 (Z.eqb_neq a 0) Ha), E. cbn. set (b := Z.to_nat (hf d mod n)).
    pose proof (Z.mod_pos_bound (hf d) n n_pos). assert (Hb : Z.of_nat b = hf d mod n) by lia.
    destruct (lookup_lt_is_Some_2 new b) as [k Hk]; [lia |].
    destruct (Forall2_lookup_r _ _ _ _ _ Hh Hk) as (q & Hq & Hlk). rewrite Hq. cbn.
    pose proof (concat_insert new b k ((a, d) :: k) Hk) as Ec. pose proof (concat_lookup new b k Hk) as Ek.
    assert (Hperm : l ++ concat (<[b := (a, d) :: k]> new) ≡ₚ (a, d) :: l ++ concat new).
    { rewrite Ec, Ek. cbn [app]. symmetry. apply Permutation_middle. }
    cbn [app] in Hnd. rewrite fmap_cons, NoDup_cons in Hnd. destruct Hnd as [Hna Hnd]. cbn in Hna. rewrite fmap_app, elem_of_app in Hna.
    set (h1 := <[a := mk_item d q (hf d)]> h).
    assert (Hfr : forall c, c <> a -> h1 !! c = h !! c) by (intros; by apply lookup_insert_ne).
    destruct (IH fuel h1 (<[b := a]> nb) nxt (<[b := (a, d) :: k]> new)) as (h' & nb' & new' & -> & R1 & R2 & R3 & R4 & R5 & R6).
    + apply (lseg_frame hf h); [| done]. intros c Hc. apply Hfr. intros ->. tauto.
    + apply Forall2_insert; [apply (heads_frame hf h); [| done] |].
      * intros c Hc. apply Hfr. intros ->. tauto.
      * cbn. split; [done |]. split; [done |]. exists q. split; [apply lookup_insert_eq |].
        apply (lseg_frame hf h); [| done]. intros c Hc. apply Hfr. intros ->. apply Hna. right.
        rewrite Ek, fmap_app, elem_of_app. by left.
    + by rewrite length_insert.
    + intros i m. destruct (decide (b = i)) as [<- | Hi].
      * rewrite list_lookup_insert_eq by (by apply lookup_lt_Some in Hk). intros [= <-]. constructor; [by rewrite Hb | by apply Hp].
      * rewrite list_lookup_insert_ne by done. apply Hp.
    + rewrite Hperm, fmap_cons, NoDup_cons. cbn. rewrite fmap_app, elem_of_app. by rewrite fmap_app in Hnd.
    + cbn in Hf. lia.
    + exists h', nb', new'. split; [done |]. split; [done |]. split; [done |]. split; [done |].
      split; [by rewrite R4, Hperm |]. split.
      * rewrite R5. apply dom_insert_lookup_L. eauto.
      * intros c Hc. rewrite R6 by by rewrite Hperm. apply Hfr. intros ->. apply Hc. cbn. by left.
Qed.

Lemma rebucket_all_spec old : forall h nb bs new, heads hf h bs old -> heads hf h nb new ->
  Z.of_nat (length new) = n -> placed hf n new -> NoDup (concat old ++ concat new).*1 ->
  exists h' nb' new', rebucket_all n h nb bs = Some (h', nb') /\ heads hf h' nb' new' /\
    Z.of_nat (length new') = n /\ placed hf n new' /\ concat new' ≡ₚ concat old ++ concat new /\ dom h' = dom h.
Proof.
  induction old as [| l old IH]; intros h nb bs new Hb Hh Hn Hp Hnd.
  - apply Forall2_nil_inv_r in Hb as ->. by exists h, nb, new.
  - apply Forall2_cons_inv_r in Hb as (p & bs' & Hl & Hb' & ->). cbn [rebucket_all]. cbn [concat] in Hnd. rewrite <- app_assoc in Hnd.
    assert (Hnd1 : NoDup (l ++ concat new).*1).
    { rewrite !fmap_app, !NoDup_app in Hnd. rewrite fmap_app, NoDup_app. destruct Hnd as (N1 & N2 & _ & N3 & N4). split; [done |]. split; [| done].
      intros a Ha Hc. apply (N2 a Ha). rewrite elem_of_app. by right. }
    destruct (rebucket_chain_spec l (size h) h nb p new Hl Hh Hn Hp Hnd1) as (h1 & nb1 & new1 & -> & R1 & R2 & R3 & R4 & R5 & R6).
    { apply (lseg_short hf h l p 0 Hl). rewrite fmap_app, NoDup_app in Hnd1. apply Hnd1. }
    destruct (IH h1 nb1 bs' new1) as (h' & nb' & new' & E & S1 & S2 & S3 & S4 & S5).
    + apply (heads_frame hf h); [| done]. intros a Ha. apply R6. intros Hc. rewrite !fmap_app, !NoDup_app in Hnd.
      rewrite fmap_app, elem_of_app in Hc. destruct Hnd as (_ & N2 & _ & N3 & _). destruct Hc as [Hc | Hc].
      * apply (N2 a Hc). rewrite elem_of_app. by left.
      * by apply (N3 a Ha).
    + done.
    + done.
    + done.
    + rewrite R4. by rewrite (app_assoc (concat old)), (Permutation_app_comm (concat old) l), <- app_assoc.
    + exists h', nb', new'. split; [exact E |]. split; [done |]. split; [done |]. split; [done |]. split; [| congruence].
      rewrite S4, R4. cbn. by rewrite app_assoc, (Permutation_app_comm (concat old) l).
Qed.
End Rebucket.

Section Resize.
Variable alloc_ok : Z -> bool.
Context {lh : _LHASH} {h : heap} {chains : list (list node)} `{KL : !KeyLaws (hash_of lh) (comp lh)}.
Hypothesis T : table lh h chains.

(** The same table with other buckets. *)
Definition resized (lh' : _LHASH) : Prop :=
  comp lh' = comp lh /\ hash_of lh' = hash_of lh /\ num_items lh' = num_items lh /\ callback_depth lh' = callback_depth lh.

Lemma rebucket_ok n : kMinNumBuckets <= n < 2 ^ 64 ->
  exists lh' h' chains', lh_rebucket alloc_ok lh h n = Some (lh', h') /\ resized lh' /\ table lh' h' chains' /\
    concat chains' ≡ₚ concat chains.
Proof.
  intros Hn. unfold lh_rebucket, kMinNumBuckets in *.
  assert (Stay : exists lh' h' chains', Some (lh, h) = Some (lh', h') /\ resized lh' /\ table lh' h' chains' /\ concat chains' ≡ₚ concat chains)
    by by exists lh, h, chains.
  destruct (_ / 8 =? n); cbn [negb]; [| done]. destruct (alloc_ok _); cbn [negb]; [| done].
  set (new := repeat [] (Z.to_nat n) : list (list node)).
  assert (Ec : concat new = []) by (unfold new; clear; induction (Z.to_nat n) as [| k IH]; [done | cbn; exact IH]).
  destruct (rebucket_all_spec (hash_of lh) n ltac:(lia) chains h (repeat 0 (Z.to_nat n)) (buckets lh) new)
    as (h' & nb' & new' & -> & R1 & R2 & R3 & R4 & R5).
  - apply (t_heads _ _ _ T).
  - unfold new. clear. induction (Z.to_nat n) as [| k IH]; constructor; [done | exact IH].
  - unfold new. rewrite repeat_length. lia.
  - intros i l E. apply list_elem_of_lookup_2, list_elem_of_In, repeat_spec in E as ->. constructor.
  - rewrite Ec, app_nil_r. apply (t_nodup _ _ _ T).
  - rewrite Ec, app_nil_r in R4. eexists _, h', new'. split; [done |]. split; [done |]. split; [| done].
    constructor; cbn [num_items buckets num_buckets callback_depth comp hash_of]; try done.
    + by rewrite R4; apply (t_nodup _ _ _ T).
    + intros a. rewrite R5, R4. apply (t_dom _ _ _ T).
    + intros a. rewrite R5. apply (t_range _ _ _ T).
    + intros key. unfold comp at 1. rewrite R4. apply (t_keys _ _ _ T).
    + unfold len. rewrite R4. apply (t_count _ _ _ T).
    + apply (t_depth _ _ _ T).
Qed.

Lemma maybe_resize_ok : exists lh' h' chains', lh_maybe_resize alloc_ok lh h = Some (lh', h') /\ resized lh' /\ table lh' h' chains' /\
  concat chains' ≡ₚ concat chains.
Proof.
  pose proof (t_size _ _ _ T) as Hs. unfold lh_maybe_resize, kMinNumBuckets in *.
  assert (Stay : exists lh' h' chains', Some (lh, h) = Some (lh', h') /\ resized lh' /\ table lh' h' chains' /\ concat chains' ≡ₚ concat chains)
    by by exists lh, h, chains.
  destruct (0 <? callback_depth lh); [done |]. destruct (Z.ltb_spec (num_buckets lh) 16); [lia |].
  destruct (_ <? num_items lh / num_buckets lh).
  - destruct (Z.ltb_spec (num_buckets lh) (u64 (num_buckets lh * 2))); [| done]. apply rebucket_ok.
    unfold kMinNumBuckets. pose proof (wrap_range 64 (num_buckets lh * 2) ltac:(lia)). lia.
  - destruct (_ <? kMinAverageChainLength); [| done]. destruct (Z.ltb_spec 16 (num_buckets lh)); cbn [andb]; [| done].
    apply rebucket_ok. unfold kMinNumBuckets. pose proof (Z.div_lt_upper_bound (num_buckets lh) 2 (2 ^ 64)).
    destruct (Z.ltb_spec (num_buckets lh / 2) 16); lia.
Qed.
End Resize.

(** ** The operations *)

Lemma nodup_bound (l : list Z) : NoDup l -> (forall a, a ∈ l -> 0 < a < 2 ^ 64) -> len l < 2 ^ 64.
Proof.
  intros Hnd Hr. set (m := 2 ^ 64 - 1).
  assert (Hs : l ⊆+ seqZ 1 m) by (apply NoDup_submseteq; [done |]; intros a Ha%Hr; apply elem_of_seqZ; unfold m; lia).
  apply submseteq_length in Hs. rewrite length_seqZ in Hs. unfold len, m in *. lia.
Qed.

Section Elements.
Context (lh : _LHASH) `{KL : !KeyLaws (hash_of lh) (comp lh)}.
Implicit Types els : list Z.

Lemma same_perm els els' key : els ≡ₚ els' -> distinct lh els' -> same lh els key = same lh els' key.
Proof.
  intros E Hd. specialize (Hd key). assert (P : same lh els key ≡ₚ same lh els' key) by by rewrite E.
  destruct (same lh els' key) as [| x [| y l]]; [by apply Permutation_nil_r in P | by apply Permutation_singleton_r in P | cbn in Hd; lia].
Qed.

Lemma distinct_perm els els' : els ≡ₚ els' -> distinct lh els' -> distinct lh els.
Proof. intros E Hd key. rewrite (same_perm els els' key E Hd). apply Hd. Qed.

Lemma distinct_others els key : distinct lh els -> distinct lh (others lh els key).
Proof.
  intros Hd k. etrans; [| apply (Hd k)].
  rewrite list_filter_filter, (list_filter_iff _ (fun e => comp lh e key <> 0 /\ comp lh e k = 0)), <- list_filter_filter by tauto.
  apply length_filter.
Qed.

Lemma distinct_insert els key : distinct lh els -> distinct lh (key :: others lh els key).
Proof.
  intros Hd k. rewrite filter_cons. case_decide as Hk; [| apply (distinct_others els key Hd)].
  assert (E : same lh (others lh els key) k = []) by
    (apply elem_of_nil_inv; intros e (Hek & (Hne & _)%list_elem_of_filter)%list_elem_of_filter;
     apply Hne, (comp_trans e k key Hek), comp_sym, Hk).
  by rewrite E.
Qed.

(** No element equal to the key: nothing to replace. *)
Lemma others_all els key : same lh els key = [] -> others lh els key = els.
Proof.
  induction els as [| e els IH]; [done |]. rewrite !filter_cons. case_decide as He; [done |]. intros E.
  by rewrite decide_True, IH.
Qed.
End Elements.

Lemma with_items_id lh : with_items lh (num_items lh) = lh.
Proof. by destruct lh. Qed.

Section Operations.
Variable alloc_ok : Z -> bool.
Variable new_item : heap -> option Z.
Context `{IA : !ItemAlloc new_item}.
Context {lh : _LHASH} {h : heap} {els : list Z} `{KL : !KeyLaws (hash_of lh) (comp lh)}.
Hypothesis L : lhash lh h els.
Abbreviation home := (@home lh).

(** The element equal to [key], if there is one. *)
Definition found (key : Z) : option Z := head (same lh els key).
Definition or_null (o : option Z) : Z := from_option id 0 o.

Lemma retrieve_ok key : lh_retrieve lh h key = Some (or_null (found key)).
Proof.
  destruct L as (chains & T & E). unfold lh_retrieve, found.
  destruct (lookup_spec T key) as (p & l1 & l2 & m & Hp & Hc & Hl1 & Hl2 & Hn & Hh & -> & Hd). cbn. rewrite Hd. cbn.
  rewrite (same_perm lh _ _ key E (t_keys _ _ _ T)). destruct (same_after T key l1 l2 Hc Hn Hh) as [-> _].
  destruct l2 as [| [a d] l2]; [by rewrite Hl2 |]. destruct Hl2 as (-> & Ha & nxt & Ea & _).
  by rewrite (proj2 (Z.eqb_neq a 0) Ha), Ea.
Qed.

Definition stays (lh' : _LHASH) : Prop := comp lh' = comp lh /\ hash_of lh' = hash_of lh /\ callback_depth lh' = callback_depth lh.

(** The home chain of [d] against the whole table. *)
Lemma home_split (chains : list (list node)) d l : table lh h chains -> chains !! home d = Some l ->
  let rest := concat (delete (home d) chains) in
  NoDup (l ++ rest).*1 /\ (forall a, a ∈ dom h <-> a ∈ (l ++ rest).*1) /\ num_items lh = len (l ++ rest) /\
  Forall (fun n => hash_of lh n.2 mod num_buckets lh = Z.of_nat (home d)) l.
Proof.
  intros T Hc. pose proof (concat_lookup _ _ _ Hc) as P. cbv zeta.
  split; [rewrite <- P; apply (t_nodup _ _ _ T) |]. split; [| split; [| by apply (t_place _ _ _ T)]].
  - intros a. rewrite <- P. apply (t_dom _ _ _ T).
  - rewrite <- P. apply (t_count _ _ _ T).
Qed.

Lemma home_place (chains : list (list node)) d : table lh h chains -> hash_of lh d mod num_buckets lh = Z.of_nat (home d).
Proof.
  intros T. pose proof (t_size _ _ _ T) as Hs. unfold kMinNumBuckets in Hs. unfold home.
  pose proof (Z.mod_pos_bound (hash_of lh d) (num_buckets lh)). lia.
Qed.

(** Replacing the data of an item. *)
Lemma replace_ok (chains : list (list node)) d p l1 a d0 l2 nxt : table lh h chains ->
  els ≡ₚ (concat chains).*2 ->
  buckets lh !! home d = Some p -> chains !! home d = Some (l1 ++ (a, d0) :: l2) ->
  lseg (hash_of lh) h p l1 a -> h !! a = Some (mk_item d0 nxt (hash_of lh d0)) -> lseg (hash_of lh) h nxt l2 0 ->
  a <> 0 -> comp lh d0 d = 0 ->
  others lh (concat chains).*2 d ≡ₚ (l1 ++ l2 ++ concat (delete (home d) chains)).*2 ->
  lhash lh (<[a := mk_item d nxt (hash_of lh d0)]> h) (d :: others lh els d).
Proof.
  intros T E Hp Hc Hl1 Ea Hl2 Ha Hcmp Ho. pose proof (hash_eq (hash_of := hash_of lh) d0 d Hcmp) as Hhash. destruct (home_split chains d _ T Hc) as (Hnd & Hdom & Hct & Hpl).
  set (rest := concat (delete (home d) chains)) in *.
  assert (P : ((l1 ++ (a, d) :: l2) ++ rest).*2 ≡ₚ d :: others lh els d).
  { rewrite E, Ho, <- app_assoc, !fmap_app. symmetry. apply Permutation_middle. }
  assert (Hna : (a ∉ l1.*1) /\ (a ∉ l2.*1) /\ (a ∉ rest.*1)).
  { rewrite <- app_assoc, fmap_app, NoDup_app in Hnd. destruct Hnd as (_ & N1 & N2). cbn in N2. rewrite NoDup_cons, fmap_app, elem_of_app in N2.
    split; [| tauto]. intros Hin. apply (N1 a Hin). by left. }
  assert (Hfr : forall b, b <> a -> (<[a := mk_item d nxt (hash_of lh d0)]> h) !! b = h !! b) by (intros; by apply lookup_insert_ne).
  assert (T' : table lh (<[a := mk_item d nxt (hash_of lh d0)]> h) (<[home d := l1 ++ (a, d) :: l2]> chains)).
  { rewrite <- (with_items_id lh), <- (with_buckets_id lh (home d) p Hp) at 1. cbn [num_items with_buckets].
    apply (table_update T (home d) _ p (l1 ++ (a, d) :: l2)) with (1 := Hc); fold rest.
    - apply lseg_app. exists a. split; [apply (lseg_frame _ h); [intros b Hb; apply Hfr; set_solver | done] |].
      cbn. split; [done |]. split; [done |]. exists nxt. rewrite lookup_insert_eq. split; [by rewrite Hhash |].
      apply (lseg_frame _ h); [intros b Hb; apply Hfr; set_solver | done].
    - intros b Hb. apply Hfr. set_solver.
    - by rewrite !fmap_app in Hnd |- *.
    - intros b. rewrite dom_insert_lookup_L by eauto. rewrite Hdom. by rewrite !fmap_app.
    - intros b Hb. apply (t_range _ _ _ T), Hdom. rewrite !fmap_app in Hb |- *. set_solver.
    - rewrite Forall_app, Forall_cons in Hpl |- *. destruct Hpl as (? & ? & ?). split; [done |]. split; [by apply (home_place chains) | done].
    - rewrite P, E. apply distinct_insert; [done | apply (t_keys _ _ _ T)].
    - rewrite Hct. unfold len. by rewrite !length_app. }
  exists (<[home d := l1 ++ (a, d) :: l2]> chains). rewrite (concat_insert _ _ _ _ Hc). fold rest. by rewrite P.
Qed.

(** Linking a fresh item to the end of its chain. *)
Lemma append_ok (chains : list (list node)) d p l1 item : table lh h chains -> els ≡ₚ (concat chains).*2 ->
  buckets lh !! home d = Some p -> chains !! home d = Some l1 -> lseg (hash_of lh) h p l1 0 ->
  same lh els d = [] -> new_item h = Some item ->
  exists lh1 h1, store lh (<[item := mk_item d 0 (hash_of lh d)]> h) (slot_from (Bucket (home d)) l1) item = Some (lh1, h1) /\
    stays lh1 /\ num_items lh1 = num_items lh /\ lhash (with_items lh1 (u64 (num_items lh + 1))) h1 (d :: els).
Proof.
  intros T E Hp Hc Hl1 Hs Hi. destruct (home_split chains d _ T Hc) as (Hnd & Hdom & Hct & Hpl).
  set (rest := concat (delete (home d) chains)) in *. destruct (new_item_fresh h item Hi) as [Hir Hif].
  assert (Hni : item ∉ (l1 ++ rest).*1) by (rewrite <- Hdom; by apply not_elem_of_dom).
  set (h0 := <[item := mk_item d 0 (hash_of lh d)]> h).
  assert (Hfr : forall b, b <> item -> h0 !! b = h !! b) by (intros; by apply lookup_insert_ne).
  assert (Hl0 : lseg (hash_of lh) h0 p l1 0).
  { apply (lseg_frame _ h); [| done]. intros b Hb. apply Hfr. intros ->. apply Hni. rewrite fmap_app. set_solver. }
  destruct (store_spec lh h0 (home d) p l1 0 item Hp Hl0) as (p' & h1 & -> & Hl & Hf & Hd1).
  { rewrite fmap_app, NoDup_app in Hnd. apply Hnd. }
  eexists _, h1. split; [done |]. split; [done |]. split; [done |].
  assert (P : ((l1 ++ [(item, d)]) ++ rest).*2 ≡ₚ d :: els).
  { rewrite E, (concat_lookup _ _ _ Hc). fold rest. rewrite <- app_assoc, !fmap_app. symmetry. apply Permutation_middle. }
  assert (P1 : ((l1 ++ [(item, d)]) ++ rest).*1 ≡ₚ item :: (l1 ++ rest).*1).
  { rewrite <- app_assoc, !fmap_app. symmetry. apply Permutation_middle. }
  assert (Hnd1 : NoDup ((l1 ++ [(item, d)]) ++ rest).*1) by (rewrite P1; by constructor).
  assert (Hr : forall a, a ∈ ((l1 ++ [(item, d)]) ++ rest).*1 -> 0 < a < 2 ^ 64).
  { intros a. rewrite P1. intros [-> | Ha]%elem_of_cons; [done |]. by apply (t_range _ _ _ T), Hdom. }
  assert (Hit : h1 !! item = Some (mk_item d 0 (hash_of lh d))).
  { rewrite Hf; [apply lookup_insert_eq |]. intros Hc'. apply Hni. rewrite fmap_app. set_solver. }
  exists (<[home d := l1 ++ [(item, d)]]> chains). rewrite (concat_insert _ _ _ _ Hc). fold rest. rewrite P. split; [| done].
  apply (table_update T (home d) l1 p' (l1 ++ [(item, d)]) h1 _ Hc); fold rest; try done.
  - apply lseg_app. exists item. split; [done |]. cbn. split; [done |]. split; [lia |]. by exists 0.
  - intros a Ha. rewrite Hf.
    + apply Hfr. intros ->. apply Hni. rewrite fmap_app. set_solver.
    + rewrite fmap_app, NoDup_app in Hnd. intros Hc'. by apply (proj1 (proj2 Hnd) a Hc').
  - intros a. rewrite Hd1, P1. unfold h0. rewrite dom_insert_L, elem_of_union, elem_of_singleton, Hdom. by rewrite elem_of_cons.
  - intros a Ha. apply Hr. rewrite fmap_app, elem_of_app. by left.
  - apply Forall_app. split; [done |]. constructor; [by apply (home_place chains) | constructor].
  - rewrite P. rewrite <- (others_all lh els d Hs). apply distinct_insert; [done |]. rewrite E. apply (t_keys _ _ _ T).
  - pose proof (nodup_bound _ Hnd1 Hr) as Hb. rewrite P1, len_cons in Hb. unfold len in *. rewrite length_fmap in Hb.
    rewrite (wrap_small 64) by lia. rewrite Hct, !length_app. cbn. lia.
Qed.

Lemma lh_insert_ok d :
  match found d, new_item h with
  | None, None => lh_insert alloc_ok new_item lh h d = Some (false, 0, (lh, h))
  | old, _ => exists lh' h', lh_insert alloc_ok new_item lh h d = Some (true, or_null old, (lh', h')) /\
      stays lh' /\ lhash lh' h' (d :: others lh els d)
  end.
Proof.
  destruct L as (chains & T & E). unfold lh_insert, found.
  destruct (lookup_spec T d) as (p & l1 & l2 & m & Hp & Hc & Hl1 & Hl2 & Hn & Hh & -> & Hd). cbn. rewrite Hd. cbn.
  pose proof (same_perm lh _ _ d E (t_keys _ _ _ T)) as Hs. destruct (same_after T d l1 l2 Hc Hn Hh) as [Hs' Ho].
  rewrite Hs, Hs'. destruct l2 as [| [a d0] l2].
  - cbn in Hl2. subst m. cbn. rewrite app_nil_r in Hc. destruct (new_item h) as [item |] eqn:Hi; [| done].
    rewrite Hs' in Hs. destruct (append_ok chains d p l1 item T E Hp Hc Hl1 Hs Hi) as (lh1 & h1 & -> & St & Hnum & chains1 & T1 & E1).
    cbn. rewrite Hnum. destruct (maybe_resize_ok alloc_ok T1) as (lh2 & h2 & chains2 & -> & R & T2 & E2). cbn.
    exists lh2, h2. split; [done |]. destruct R as (R1 & R2 & R3 & R4), St as (S1 & S2 & S3). cbn in R1, R2, R4.
    split; [repeat split; congruence |]. exists chains2. split; [done |].
    rewrite (others_all lh els d Hs), E2, <- E1. done.
  - destruct Hl2 as (-> & Ha & nxt & Ea & Hl2). rewrite (proj2 (Z.eqb_neq a 0) Ha). cbn. rewrite Ea. cbn.
    assert (G : exists lh' h', Some (true, d0, (lh, <[a := mk_item d nxt (hash_of lh d0)]> h)) = Some (true, d0, (lh', h')) /\
       stays lh' /\ lhash lh' h' (d :: others lh els d)).
    { eexists _, _. split; [done |]. split; [done |]. apply (replace_ok chains d p l1 a d0 l2 nxt); try done. by apply (Hh (a, d0)). }
    exact G.
Qed.

(** Unlinking and freeing an item. *)
Lemma unlink_ok (chains : list (list node)) d p l1 a d0 l2 nxt : table lh h chains ->
  buckets lh !! home d = Some p -> chains !! home d = Some (l1 ++ (a, d0) :: l2) ->
  lseg (hash_of lh) h p l1 a -> h !! a = Some (mk_item d0 nxt (hash_of lh d0)) -> lseg (hash_of lh) h nxt l2 0 ->
  exists lh1 h1, store lh h (slot_from (Bucket (home d)) l1) nxt = Some (lh1, h1) /\ stays lh1 /\ num_items lh1 = num_items lh /\
    num_buckets lh1 = num_buckets lh /\
    table (with_items lh1 (u64 (num_items lh - 1))) (delete a h1) (<[home d := l1 ++ l2]> chains).
Proof.
  intros T Hp Hc Hl1 Ea Hl2. destruct (home_split chains d _ T Hc) as (Hnd & Hdom & Hct & Hpl).
  set (rest := concat (delete (home d) chains)) in *.
  assert (P1 : ((l1 ++ (a, d0) :: l2) ++ rest).*1 ≡ₚ a :: ((l1 ++ l2) ++ rest).*1).
  { rewrite <- !app_assoc, !fmap_app. symmetry. apply Permutation_middle. }
  assert (P2 : (concat chains).*2 ≡ₚ d0 :: ((l1 ++ l2) ++ rest).*2).
  { rewrite (concat_lookup _ _ _ Hc). fold rest. rewrite <- !app_assoc, !fmap_app. symmetry. apply Permutation_middle. }
  rewrite P1, NoDup_cons in Hnd. destruct Hnd as [Hna Hnd]. rewrite !fmap_app, !elem_of_app in Hna.
  assert (Hnd1 : NoDup l1.*1) by (rewrite !fmap_app, <- app_assoc, NoDup_app in Hnd; apply Hnd).
  assert (Hdis : forall b, b ∈ l1.*1 -> (b ∉ l2.*1) /\ (b ∉ rest.*1)).
  { rewrite !fmap_app, <- app_assoc, NoDup_app in Hnd. destruct Hnd as (_ & N & _). intros b Hb. specialize (N b Hb).
    rewrite elem_of_app in N. tauto. }
  destruct (store_spec lh h (home d) p l1 a nxt Hp Hl1 Hnd1) as (p' & h1 & -> & Hl & Hf & Hd1).
  eexists _, h1. split; [done |]. split; [done |]. split; [done |]. split; [done |].
  assert (Hfr : forall b, b <> a -> b ∉ l1.*1 -> (delete a h1) !! b = h !! b) by (intros; rewrite lookup_delete_ne by done; by apply Hf).
  apply (table_update T (home d) _ p' (l1 ++ l2) (delete a h1) _ Hc); fold rest.
  - apply lseg_app. exists nxt. split; [apply (lseg_frame _ h1); [| done] |].
    + intros b Hb. apply lookup_delete_ne. intros ->. tauto.
    + apply (lseg_frame _ h); [| done]. intros b Hb. apply Hfr; [intros ->; tauto |]. intros Hb'. exact (proj1 (Hdis b Hb') Hb).
  - intros b Hb. apply Hfr; [intros ->; tauto |]. intros Hb'. exact (proj2 (Hdis b Hb') Hb).
  - done.
  - intros b. rewrite dom_delete_L, elem_of_difference, elem_of_singleton, Hd1, Hdom, P1, elem_of_cons. split; [tauto |].
    intros Hb. split; [by right |]. intros ->. rewrite !fmap_app, !elem_of_app in Hb. tauto.
  - intros b Hb. apply (t_range _ _ _ T), Hdom. rewrite P1, elem_of_cons, fmap_app, elem_of_app. right. by left.
  - rewrite Forall_app, Forall_cons in Hpl. apply Forall_app. tauto.
  - intros k. etrans; [| apply (t_keys _ _ _ T k)]. rewrite P2, filter_cons. case_decide; cbn; lia.
  - unfold len in *. rewrite Hct, !length_app. cbn.
    pose proof (t_range _ _ _ T) as Hr. assert (Hb : len ((l1 ++ (a, d0) :: l2) ++ rest).*1 < 2 ^ 64).
    { apply nodup_bound; [rewrite P1; constructor; [by rewrite !fmap_app, !elem_of_app | done] |]. intros b Hb. by apply Hr, Hdom. }
    unfold len in Hb. rewrite length_fmap, !length_app in Hb. cbn in Hb. rewrite (wrap_small 64) by lia. lia.
Qed.

Lemma lh_delete_ok d :
  match found d with
  | None => lh_delete alloc_ok lh h d = Some (0, (lh, h))
  | Some e => exists lh' h', lh_delete alloc_ok lh h d = Some (e, (lh', h')) /\ stays lh' /\ lhash lh' h' (others lh els d)
  end.
Proof.
  destruct L as (chains & T & E). unfold lh_delete, found.
  destruct (lookup_spec T d) as (p & l1 & l2 & m & Hp & Hc & Hl1 & Hl2 & Hn & Hh & -> & Hd). cbn. rewrite Hd. cbn.
  pose proof (same_perm lh _ _ d E (t_keys _ _ _ T)) as Hs. destruct (same_after T d l1 l2 Hc Hn Hh) as [Hs' Ho].
  rewrite Hs, Hs'. destruct l2 as [| [a d0] l2]; [cbn in Hl2; by subst m |].
  destruct Hl2 as (-> & Ha & nxt & Ea & Hl2). rewrite (proj2 (Z.eqb_neq a 0) Ha). cbn. rewrite Ea. cbn.
  destruct (unlink_ok chains d p l1 a d0 l2 nxt T Hp Hc Hl1 Ea Hl2) as (lh1 & h1 & -> & St & Hnum & _ & T1). cbn. rewrite Hnum.
  destruct (maybe_resize_ok alloc_ok T1) as (lh2 & h2 & chains2 & -> & R & T2 & E2). cbn.
  exists lh2, h2. split; [done |]. destruct R as (R1 & R2 & R3 & R4), St as (S1 & S2 & S3). cbn in R1, R2, R4.
  split; [repeat split; congruence |]. exists chains2. split; [done |].
  rewrite E2, (concat_insert _ _ _ _ Hc), E, Ho. by rewrite <- app_assoc.
Qed.
End Operations.

(** ** Freeing *)

Lemma free_chain_spec hf l : forall fuel h p, lseg hf h p l 0 -> NoDup l.*1 -> (length l <= fuel)%nat ->
  exists h', free_chain fuel h p = Some h' /\ (forall b, b ∈ l.*1 -> h' !! b = None) /\ (forall b, b ∉ l.*1 -> h' !! b = h !! b).
Proof.
  induction l as [| [a d] l IH]; intros fuel h p Hl Hnd Hf.
  - cbn in Hl. subst p. exists h. destruct fuel; (split; [done |]; split; [intros b Hb; by apply not_elem_of_nil in Hb | done]).
  - destruct Hl as (-> & Ha & nxt & E & Hl). destruct fuel as [| fuel]; [cbn in Hf; lia |]. cbn [free_chain].
    rewrite (proj2 (Z.eqb_neq a 0) Ha), E. cbn. cbn in Hnd, Hf. apply NoDup_cons in Hnd as [Hna Hnd].
    destruct (IH fuel (delete a h) nxt) as (h' & -> & Hin & Hout); [| done | lia |].
    { apply (lseg_frame hf h); [| done]. intros b Hb. apply lookup_delete_ne. intros ->. done. }
    exists h'. split; [done |]. cbn. split; intros b; rewrite elem_of_cons.
    + intros [-> | Hb]; [| by apply Hin]. rewrite Hout by done. apply lookup_delete_eq.
    + intros Hb. rewrite Hout by tauto. apply lookup_delete_ne. intros ->. tauto.
Qed.

Lemma free_chains_spec hf chains : forall h bs, heads hf h bs chains -> NoDup (concat chains).*1 ->
  exists h', free_chains h bs = Some h' /\ (forall b, b ∈ (concat chains).*1 -> h' !! b = None) /\
    (forall b, b ∉ (concat chains).*1 -> h' !! b = h !! b).
Proof.
  induction chains as [| l chains IH]; intros h bs Hh Hnd.
  - apply Forall2_nil_inv_r in Hh as ->. exists h. split; [done |]. split; [intros b Hb; by apply not_elem_of_nil in Hb | done].
  - apply Forall2_cons_inv_r in Hh as (p & bs' & Hl & Hh & ->). cbn [concat] in *. rewrite fmap_app, NoDup_app in Hnd.
    destruct Hnd as (N1 & N2 & N3). cbn [free_chains].
    destruct (free_chain_spec hf l (size h) h p Hl N1 (lseg_short hf h l p 0 Hl N1)) as (h1 & -> & Hin & Hout). cbn.
    destruct (IH h1 bs') as (h' & -> & Hin' & Hout'); [| done |].
    { apply (heads_frame hf h); [| done]. intros b Hb. apply Hout. intros Hb'. by apply (N2 b). }
    exists h'. split; [done |]. split; intros b; rewrite fmap_app, elem_of_app.
    + intros [Hb | Hb]; [| by apply Hin']. rewrite Hout' by (by apply N2). by apply Hin.
    + intros Hb. rewrite Hout' by tauto. apply Hout. tauto.
Qed.

Lemma free_ok lh h els : lhash lh h els -> lh_free lh h = Some ∅.
Proof.
  intros (chains & T & _). unfold lh_free.
  destruct (free_chains_spec (hash_of lh) chains h (buckets lh) (t_heads _ _ _ T) (t_nodup _ _ _ T)) as (h' & -> & Hin & Hout).
  f_equal. apply map_empty. intros b. destruct (decide (b ∈ (concat chains).*1)) as [Hb | Hb]; [by apply Hin |].
  rewrite Hout by done. apply not_elem_of_dom. by rewrite (t_dom _ _ _ T).
Qed.

Lemma new_ok alloc_ok hf cmp lh : lh_new alloc_ok hf cmp = Some lh ->
  hash_of lh = hf /\ comp lh = cmp /\ callback_depth lh = 0 /\ lhash lh ∅ [].
Proof.
  unfold lh_new. destruct (alloc_ok 48); [| done]. destruct (alloc_ok _); [| done]. intros [= <-]. split; [done |]. split; [done |].
  split; [done |]. exists (repeat [] 16). split; [| done].
  constructor; cbn [num_items buckets num_buckets callback_depth comp hash_of]; unfold kMinNumBuckets.
  - change (Z.to_nat 16) with 16%nat. by repeat constructor.
  - done.
  - done.
  - constructor.
  - intros a. rewrite dom_empty_L. set_solver.
  - intros a. rewrite dom_empty_L. set_solver.
  - intros i l E. apply list_elem_of_lookup_2, list_elem_of_In, repeat_spec in E as ->. constructor.
  - intros k. cbn. lia.
  - done.
  - unfold UINT_MAX. lia.
Qed.

(** ** Any sequence of requests *)

Inductive request : Type := Insert (d : Z) | Delete (d : Z) | Retrieve (d : Z).

(** The specification: a finite map up to [cmp], where insertion may fail. *)
Inductive allowed (cmp : Z -> Z -> Z) (els : list Z) : request -> bool * Z -> list Z -> Prop :=
| allowed_insert d : allowed cmp els (Insert d)
    (true, or_null (head (filter (fun e => cmp e d = 0) els))) (d :: filter (fun e => cmp e d <> 0) els)
| allowed_no_memory d : filter (fun e => cmp e d = 0) els = [] -> allowed cmp els (Insert d) (false, 0) els
| allowed_delete d : allowed cmp els (Delete d)
    (true, or_null (head (filter (fun e => cmp e d = 0) els))) (filter (fun e => cmp e d <> 0) els)
| allowed_retrieve d : allowed cmp els (Retrieve d) (true, or_null (head (filter (fun e => cmp e d = 0) els))) els.

Inductive allowed_run (cmp : Z -> Z -> Z) : list Z -> list request -> list (bool * Z) -> list Z -> Prop :=
| run_done els : allowed_run cmp els [] [] els
| run_step els r out els1 rs outs els2 : allowed cmp els r out els1 -> allowed_run cmp els1 rs outs els2 ->
    allowed_run cmp els (r :: rs) (out :: outs) els2.

Section Runs.
Variable alloc_ok : Z -> bool.
Variable new_item : heap -> option Z.

Definition perform (r : request) (st : _LHASH * heap) : option (bool * Z * (_LHASH * heap)) :=
  let (lh, h) := st in
  match r with
  | Insert d => lh_insert alloc_ok new_item lh h d
  | Delete d => '(e, st) ← lh_delete alloc_ok lh h d; Some (true, e, st)
  | Retrieve d => e ← lh_retrieve lh h d; Some (true, e, st)
  end.

Fixpoint performs (rs : list request) (st : _LHASH * heap) : option (list (bool * Z) * (_LHASH * heap)) :=
  match rs with
  | [] => Some ([], st)
  | r :: rs => '(out, st) ← perform r st; '(outs, st) ← performs rs st; Some (out :: outs, st)
  end.

Context `{IA : !ItemAlloc new_item}.

Lemma lh_perform_ok lh h els r `{KL : !KeyLaws (hash_of lh) (comp lh)} : lhash lh h els ->
  exists out lh' h' els', perform r (lh, h) = Some (out, (lh', h')) /\ allowed (comp lh) els r out els' /\
    @stays lh lh' /\ lhash lh' h' els' /\ (out.1 = false -> new_item h = None).
Proof.
  intros L. destruct r as [d | d | d]; cbn [perform].
  - pose proof (lh_insert_ok alloc_ok new_item L d) as H. unfold found in H.
    destruct (head (same lh els d)) as [e |] eqn:Eh; [| destruct (new_item h)].
    1, 2: destruct H as (lh' & h' & -> & St & L'); eexists _, lh', h', _; split; [done |]; (split; [| done]); rewrite <- Eh; constructor.
    rewrite H. eexists _, lh, h, els. split; [done |]. split; [| done]. constructor. by apply head_None.
  - pose proof (lh_delete_ok alloc_ok L d) as H. unfold found in H.
    destruct (head (same lh els d)) as [e |] eqn:Eh.
    + destruct H as (lh' & h' & -> & St & L'). eexists _, lh', h', _. split; [done |]. split; [| done].
      pose proof (allowed_delete (comp lh) els d) as A. by rewrite Eh in A.
    + rewrite H. eexists _, lh, h, els. split; [done |]. split; [| done].
      pose proof (allowed_delete (comp lh) els d) as A. rewrite Eh, (others_all lh els d) in A; [done | by apply head_None].
  - rewrite (retrieve_ok L d). eexists _, lh, h, els. split; [done |]. split; [constructor | done].
Qed.

Lemma lh_performs_ok rs : forall lh h els `{KL : !KeyLaws (hash_of lh) (comp lh)}, lhash lh h els ->
  exists outs lh' h' els', performs rs (lh, h) = Some (outs, (lh', h')) /\ allowed_run (comp lh) els rs outs els' /\ @stays lh lh' /\
    lhash lh' h' els' /\ ((forall h, new_item h <> None) -> Forall (fun out => out.1 = true) outs).
Proof.
  induction rs as [| r rs IH]; intros lh h els KL L; cbn [performs].
  - eexists _, lh, h, els. split; [done |]. split; [constructor |]. split; [done |]. split; [done | constructor].
  - destruct (lh_perform_ok lh h els r L) as (out & lh1 & h1 & els1 & -> & A & (S1 & S2 & S3) & L1 & F1). cbn.
    destruct (IH lh1 h1 els1) as (outs & lh2 & h2 & els2 & -> & B & (R1 & R2 & R3) & L2 & F2); [by rewrite S1, S2 | done |]. cbn.
    eexists _, lh2, h2, els2. split; [done |]. split; [econstructor; [done |]; by rewrite <- S1 |].
    split; [split; [congruence | split; congruence] |]. split; [done |]. intros Hm. constructor; [| by apply F2].
    destruct out as [[] e]; [done |]. by destruct (Hm h (F1 eq_refl)).
Qed.
End Runs.

(** ** Iteration

    The callbacks covered are those that read the element they are given and
    may remove it from the table; removal from inside the iteration is what
    [callback_depth] is for. *)
Section Iteration.
Variable alloc_ok : Z -> bool.
Context {X : Type} (visit : Z -> X -> X * bool).

Definition visitor (d : Z) (st : X * (_LHASH * heap)) : option (X * (_LHASH * heap)) :=
  let '(x, (lh, h)) := st in
  let (x, remove) := visit d x in
  if remove then '(_, st) ← lh_delete alloc_ok lh h d; Some (x, st) else Some (x, (lh, h)).

(** One visit to each of the elements in turn: the last state of the caller and
    the elements that are kept. *)
Fixpoint visit_all (els : list Z) (x : X) : X * list Z :=
  match els with
  | [] => (x, [])
  | d :: els =>
      let (x, remove) := visit d x in
      let (x, kept) := visit_all els x in
      (x, if remove then kept else d :: kept)
  end.

Lemma visit_all_app l1 l2 x : visit_all (l1 ++ l2) x =
  let (x, k1) := visit_all l1 x in let (x, k2) := visit_all l2 x in (x, k1 ++ k2).
Proof.
  revert x. induction l1 as [| d l1 IH]; intros x; cbn; [by destruct (visit_all l2 x) |].
  destruct (visit d x) as [x1 rm]. rewrite IH. destruct (visit_all l1 x1) as [x2 k1], (visit_all l2 x2) as [x3 k2]. by destruct rm.
Qed.

Definition start (l : list node) : Z := from_option fst 0 (head l).

Lemma lseg_start hf h p l : lseg hf h p l 0 -> p = start l.
Proof. destruct l as [| [a d] l]; [done | by intros [-> _]]. Qed.

Lemma nodup_split_unique {A} (P : A -> Prop) l1 : forall l2 k1 n k2, l1 ++ l2 = k1 ++ n :: k2 ->
  Forall (fun x => ~ P x) l1 -> (forall x, head l2 = Some x -> P x) -> Forall (fun x => ~ P x) k1 -> P n -> l1 = k1.
Proof.
  induction l1 as [| x l1 IH]; intros l2 k1 n k2 E H1 H2 H3 Hn.
  - destruct k1 as [| y k1]; [done |]. cbn in E. subst l2. inversion_clear H3. by destruct H; apply H2.
  - inversion_clear H1. destruct k1 as [| y k1]; injection E as -> E; [done |]. f_equal. inversion_clear H3. by apply (IH l2 k1 n k2).
Qed.

(** Removing the element the iteration stands at. *)
Lemma delete_here lh h chains i kept a d l `{KL : !KeyLaws (hash_of lh) (comp lh)} : table lh h chains ->
  0 < callback_depth lh -> chains !! i = Some (kept ++ (a, d) :: l) ->
  exists lh' h', lh_delete alloc_ok lh h d = Some (d, (lh', h')) /\ @stays lh lh' /\ num_buckets lh' = num_buckets lh /\
    table lh' h' (<[i := kept ++ l]> chains).
Proof.
  intros T Hdp Hc. assert (Hi : @home lh d = i).
  { pose proof (t_place _ _ _ T i _ Hc) as Hp. rewrite Forall_app, Forall_cons in Hp. destruct Hp as (_ & Hp & _).
    cbn in Hp. unfold home. lia. }
  unfold lh_delete. destruct (lookup_spec T d) as (p & l1 & l2 & m & Hp & Hc' & Hl1 & Hl2 & Hn & Hh & -> & Hd). cbn. rewrite Hd. cbn.
  rewrite Hi in *. rewrite Hc in Hc'. injection Hc' as E.
  assert (Hk : Forall (fun n : node => comp lh n.2 d <> 0) kept).
  { apply Forall_forall. intros n Hin Hcmp. pose proof (t_keys _ _ _ T d) as Hdist.
    rewrite (concat_lookup _ _ _ Hc), !fmap_app, !filter_app, !length_app in Hdist. cbn [fmap list_fmap] in Hdist.
    rewrite filter_cons, decide_True in Hdist by apply comp_refl. cbn in Hdist.
    assert (Hin' : n.2 ∈ same lh kept.*2 d) by (apply list_elem_of_filter; split; [done | by apply list_elem_of_fmap_2]).
    destruct (same lh kept.*2 d); [by apply not_elem_of_nil in Hin' | cbn in Hdist; lia]. }
  pose proof (nodup_split_unique (fun n : node => comp lh n.2 d = 0) l1 l2 kept (a, d) l (eq_sym E) Hn Hh Hk (comp_refl d)) as ->.
  apply app_inv_head in E. subst l2. destruct Hl2 as (-> & Ha & nxt & Ea & Hl2). rewrite (proj2 (Z.eqb_neq a 0) Ha). cbn. rewrite Ea. cbn.
  destruct (unlink_ok alloc_ok chains d p kept a d l nxt T) as (lh1 & h1 & Es & St & Hnum & Hnb & T1); rewrite ?Hi; try done.
  rewrite Hi in Es, T1. rewrite Es. cbn. rewrite Hnum. unfold lh_maybe_resize. cbn [callback_depth with_items].
  destruct St as (S1 & S2 & S3). rewrite S3. destruct (Z.ltb_spec 0 (callback_depth lh)); [| lia]. cbn.
  eexists _, _. split; [done |]. split; [done |]. split; [done |]. exact T1.
Qed.

Lemma doall_chain_spec l : forall lh h chains i kept x fuel `{KL : !KeyLaws (hash_of lh) (comp lh)}, table lh h chains ->
  0 < callback_depth lh -> chains !! i = Some (kept ++ l) -> (length l <= fuel)%nat ->
  exists lh' h' l', doall_chain visitor fuel (x, (lh, h)) (start l) = Some ((visit_all l.*2 x).1, (lh', h')) /\
    @stays lh lh' /\ num_buckets lh' = num_buckets lh /\
    l'.*2 = (visit_all l.*2 x).2 /\ table lh' h' (<[i := kept ++ l']> chains).
Proof.
  induction l as [| [a d] l IH]; intros lh h chains i kept x fuel KL T Hdp Hc Hf.
  - exists lh, h, []. rewrite (list_insert_id _ _ _ Hc). by destruct fuel.
  - destruct fuel as [| fuel]; [cbn in Hf; lia |]. cbn [doall_chain start head from_option fst].
    destruct (Forall2_lookup_r _ _ _ _ _ (t_heads _ _ _ T) Hc) as (p & Hp & Hl).
    apply lseg_app in Hl as (m & Hl1 & -> & Ha & nxt & Ea & Hl2).
    rewrite (proj2 (Z.eqb_neq a 0) Ha), Ea. cbn [mbind option_bind data next]. rewrite (lseg_start _ _ _ _ Hl2).
    cbn [fmap list_fmap visit_all snd]. assert (Ev : visitor d (x, (lh, h)) = let (x, remove) := visit d x in
      if remove then '(_, st) ← lh_delete alloc_ok lh h d; Some (x, st) else Some (x, (lh, h))) by done.
    rewrite Ev. clear Ev. destruct (visit d x) as [x1 rm]. cbn in Hf.
    destruct rm; cbv iota.
    + destruct (delete_here lh h chains i kept a d l T Hdp Hc) as (lh1 & h1 & -> & (S1 & S2 & S3) & Hnb & T1). cbn [mbind option_bind].
      assert (KL1 : KeyLaws (hash_of lh1) (comp lh1)) by by rewrite S1, S2.
      destruct (IH lh1 h1 _ i kept x1 fuel KL1 T1) as (lh2 & h2 & l' & -> & (R1 & R2 & R3) & Hnb2 & El & T2); [lia | | lia |].
      { apply list_lookup_insert_eq. by apply lookup_lt_Some in Hc. }
      rewrite list_insert_insert_eq in T2. change (list_fmap _ _ snd l) with (l.*2). destruct (visit_all l.*2 x1) as [x2 k]. exists lh2, h2, l'.
      split; [done |]. split; [split; [congruence | split; congruence] |]. split; [congruence |]. split; [done | exact T2].
    + cbn [mbind option_bind]. destruct (IH lh h chains i (kept ++ [(a, d)]) x1 fuel KL T) as (lh2 & h2 & l' & -> & St & Hnb2 & El & T2);
        [lia | by rewrite <- app_assoc | lia |].
      change (list_fmap _ _ snd l) with (l.*2). destruct (visit_all l.*2 x1) as [x2 k]. exists lh2, h2, ((a, d) :: l'). rewrite <- app_assoc in T2.
      split; [done |]. split; [done |]. split; [done |]. split; [cbn; f_equal; exact El | exact T2].
Qed.

Lemma doall_buckets_spec todo : forall n fuel lh h done x `{KL : !KeyLaws (hash_of lh) (comp lh)}, table lh h (done ++ todo) ->
  0 < callback_depth lh -> (length todo < n)%nat -> Forall (fun l => length l <= fuel)%nat todo ->
  exists lh' h' todo', doall_buckets visitor n fuel (x, (lh, h)) (length done) = Some ((visit_all (concat todo).*2 x).1, (lh', h')) /\
    @stays lh lh' /\ (concat todo').*2 = (visit_all (concat todo).*2 x).2 /\ table lh' h' (done ++ todo').
Proof.
  induction todo as [| l todo IH]; intros n fuel lh h dn x KL T Hdp Hn Hf; (destruct n as [| n]; [cbn in Hn; lia |]); cbn [doall_buckets].
  - pose proof (t_buckets _ _ _ T) as Hb. rewrite app_nil_r in Hb. destruct (Z.ltb_spec (Z.of_nat (length dn)) (num_buckets lh)); [lia |].
    by exists lh, h, [].
  - pose proof (t_buckets _ _ _ T) as Hb. rewrite length_app in Hb. cbn in Hb, Hn.
    destruct (Z.ltb_spec (Z.of_nat (length dn)) (num_buckets lh)); [| lia]. cbn [negb]. inversion_clear Hf as [| ? ? Hl Hf'].
    assert (Hc : (dn ++ l :: todo) !! length dn = Some ([] ++ l)) by by apply list_lookup_middle.
    destruct (Forall2_lookup_r _ _ _ _ _ (t_heads _ _ _ T) Hc) as (p & Hp & Hs). rewrite Hp. cbn [mbind option_bind].
    rewrite (lseg_start _ _ _ _ Hs). cbn [app].
    destruct (doall_chain_spec l lh h _ (length dn) [] x fuel T Hdp Hc Hl) as (lh1 & h1 & l' & -> & (S1 & S2 & S3) & Hnb & El & T1).
    cbn [mbind option_bind]. cbn [app] in T1.
    rewrite <- (Nat.add_0_r (length dn)), insert_app_r in T1. cbn in T1.
    assert (KL1 : KeyLaws (hash_of lh1) (comp lh1)) by by rewrite S1, S2.
    destruct (IH n fuel lh1 h1 (dn ++ [l']) (visit_all l.*2 x).1 KL1) as (lh2 & h2 & todo' & E & (R1 & R2 & R3) & Et & T2);
      [by rewrite <- app_assoc | lia | lia | done |].
    rewrite length_app, Nat.add_1_r in E. rewrite E. cbn [concat]. rewrite !fmap_app, visit_all_app.
    exists lh2, h2, (l' :: todo'). destruct (visit_all l.*2 x) as [x1 k1]. cbn [fst snd] in *.
    destruct (visit_all (concat todo).*2 x1) as [x2 k2]. cbn [fst snd] in *.
    split; [done |]. split; [split; [congruence | split; congruence] |]. split; [| by rewrite <- app_assoc in T2].
    cbn [concat]. by rewrite fmap_app, El, Et.
Qed.
End Iteration.

(** ** The properties *)

Lemma lhash_count lh h els : lhash lh h els -> lh_num_items lh = len els.
Proof. intros (chains & T & E). unfold lh_num_items. rewrite (t_count _ _ _ T), E. unfold len. by rewrite length_fmap. Qed.

Lemma table_depth lh h chains n : table lh h chains -> 0 <= n <= UINT_MAX -> table (with_depth lh n) h chains.
Proof. intros [T1 T2 T3 T4 T5 T6 T7 T8 T9 T10] Hn. by constructor. Qed.

(** The table refines a finite map up to the comparison function. Any
    sequence of insertions, deletions and retrievals on a new table runs to its
    end (no read through a dangling pointer, no failed assertion, whatever the
    hash function and whichever resizings fail for lack of memory), and its
    results are those of the map: an insertion returns the element it replaces,
    a deletion or retrieval the element equal to the key or NULL; only the
    allocation of an item makes an insertion fail, and it then changes nothing.
    The count is right, and [lh_free] releases every item that is left. *)
Lemma lhash_refines_map alloc_ok new_item hf cmp lh rs : ItemAlloc new_item -> KeyLaws hf cmp ->
  lh_new alloc_ok hf cmp = Some lh ->
  exists outs lh' h' els, performs alloc_ok new_item rs (lh, ∅) = Some (outs, (lh', h')) /\
    allowed_run cmp [] rs outs els /\ lh_num_items lh' = len els /\
    ((forall h, new_item h <> None) -> Forall (fun out => out.1 = true) outs) /\
    lh_free lh' h' = Some ∅.
Proof.
  intros IA KL E. destruct (new_ok _ _ _ _ E) as (<- & <- & _ & L).
  destruct (lh_performs_ok alloc_ok new_item rs lh ∅ [] L) as (outs & lh' & h' & els & Ep & A & _ & L' & F).
  exists outs, lh', h', els. split; [done |]. split; [done |]. split; [by apply (lhash_count lh' h') |].
  split; [done | by apply (free_ok lh' h' els)].
Qed.

(** Iteration visits every element exactly once and allows the callback to
    remove the element it is given: the visits are in some order of the
    elements, no freed item is touched, exactly the elements that were not
    removed are left in a well-formed table, and the iteration depth is back
    where it was (below the point where it saturates). *)
Lemma lh_doall_visits alloc_ok (X : Type) (visit : Z -> X -> X * bool) fuel x lh h els :
  KeyLaws (hash_of lh) (comp lh) -> lhash lh h els -> num_buckets lh < Z.of_nat fuel -> (length els <= fuel)%nat ->
  exists order lh' h', order ≡ₚ els /\
    lh_doall_internal alloc_ok (visitor alloc_ok visit) fuel (x, (lh, h)) = Some ((visit_all visit order x).1, (lh', h')) /\
    lhash lh' h' (visit_all visit order x).2 /\
    (callback_depth lh < UINT_MAX - 1 -> callback_depth lh' = callback_depth lh).
Proof.
  intros KL (chains & T & E) Hn Hf. unfold lh_doall_internal. pose proof (t_depth _ _ _ T) as Hd. unfold UINT_MAX in *.
  set (lh0 := if callback_depth lh <? 4294967295 then with_depth lh (callback_depth lh + 1) else lh).
  assert (H0 : table lh0 h chains /\ 0 < callback_depth lh0 /\ hash_of lh0 = hash_of lh /\ comp lh0 = comp lh /\
     (callback_depth lh < 4294967295 -> callback_depth lh0 = callback_depth lh + 1)).
  { unfold lh0. destruct (Z.ltb_spec (callback_depth lh) 4294967295).
    - split; [apply table_depth; [done | unfold UINT_MAX; lia] |]. cbn. repeat split; lia.
    - split; [done |]. split; [lia |]. split; [done |]. split; [done | lia]. }
  destruct H0 as (T0 & Hd0 & Hh0 & Hc0 & Hdep). assert (KL0 : KeyLaws (hash_of lh0) (comp lh0)) by by rewrite Hh0, Hc0.
  clearbody lh0. destruct (doall_buckets_spec alloc_ok visit chains fuel fuel lh0 h [] x T0 Hd0) as (lh1 & h1 & todo' & Ed & (S1 & S2 & S3) & Et & T1).
  { pose proof (t_buckets _ _ _ T). lia. }
  { apply Forall_lookup. intros i l Hl. rewrite <- (length_fmap snd l). etrans; [| exact Hf]. rewrite E.
    rewrite (concat_lookup _ _ _ Hl), fmap_app, length_app. lia. }
  cbn [length app] in Ed, T1. rewrite Ed. cbn [mbind option_bind].
  set (lh2 := if callback_depth lh1 <? 4294967295 then with_depth lh1 (callback_depth lh1 - 1) else lh1).
  assert (T2 : table lh2 h1 todo').
  { unfold lh2. destruct (_ <? _); [| done]. pose proof (t_depth _ _ _ T1). apply table_depth; [done |]. lia. }
  destruct (maybe_resize_ok alloc_ok T2) as (lh3 & h3 & chains3 & -> & R & T3 & E3). cbn [mbind option_bind].
  exists (concat chains).*2, lh3, h3. split; [by rewrite E |]. split; [done |]. split.
  - exists chains3. split; [done |]. by rewrite E3, Et.
  - intros Hs. destruct R as (_ & _ & _ & ->). unfold lh2. rewrite S3, Hdep by lia.
    destruct (Z.ltb_spec (callback_depth lh + 1) 4294967295); [| lia]. cbn. lia.
Qed.

(** C13: the hash table is a map. Any sequence of insertions, deletions and lookups from an empty table runs to the end without touching freed memory and answers as the map keyed by the comparison, across resizing and failed allocations, and [lh_free] releases everything. Iteration hands every element to the callback exactly once, in some order, also when the callback removes the elements it is given, and leaves exactly the others in a well-formed table. *)
Theorem lhash_exact :
  (forall alloc_ok new_item hf cmp lh rs,
    ItemAlloc new_item -> KeyLaws hf cmp ->
      lh_new alloc_ok hf cmp = Some lh ->
      exists outs lh' h' els, performs alloc_ok new_item rs (lh, ∅) = Some (outs, (lh', h')) /\
        allowed_run cmp [] rs outs els /\ lh_num_items lh' = len els /\
        ((forall h, new_item h <> None) -> Forall (fun out => out.1 = true) outs) /\
        lh_free lh' h' = Some ∅) /\
  (forall alloc_ok (X : Type) (visit : Z -> X -> X * bool) fuel x lh h els,
    KeyLaws (hash_of lh) (comp lh) -> lhash lh h els -> num_buckets lh < Z.of_nat fuel -> (length els <= fuel)%nat ->
      exists order lh' h', order ≡ₚ els /\
        lh_doall_internal alloc_ok (visitor alloc_ok visit) fuel (x, (lh, h)) = Some ((visit_all visit order x).1, (lh', h')) /\
        lhash lh' h' (visit_all visit order x).2 /\
        (callback_depth lh < UINT_MAX - 1 -> callback_depth lh' = callback_depth lh)).
Proof. split; [exact (@lhash_refines_map) | exact (@lh_doall_visits)]. Qed.

(** ** Concrete runs *)

(** Items at the addresses 8, 16, ... as the heap grows. *)
Definition bump (h : heap) : option Z :=
  let p := 8 * (Z.of_nat (size h) + 1) in
  if (p <? 2 ^ 64) && negb (bool_decide (is_Some (h !! p))) then Some p else None.

#[export] Instance bump_alloc : ItemAlloc bump.
Proof.
  intros h p. unfold bump. destruct (Z.ltb_spec (8 * (Z.of_nat (size h) + 1)) (2 ^ 64)); [| done]. cbn [andb].
  case_bool_decide as Hs; [done |]. intros [= <-]. split; [lia |]. by apply eq_None_not_Some.
Qed.

(** Elements equal modulo 100, and a hash that collides on purpose. *)
Definition toy_cmp (a b : Z) : Z := a mod 100 - b mod 100.
Definition toy_hash (a : Z) : Z := a mod 100 mod 3.

#[export] Instance toy_keys : KeyLaws toy_hash toy_cmp.
Proof.
  split; unfold toy_cmp, toy_hash; intros; try lia.
  - by replace (x mod 100) with (y mod 100) by lia.
  - pose proof (Z.mod_pos_bound (x mod 100) 3). lia.
Qed.

Definition requests : list request :=
  [Insert 5; Insert 8; Insert 108; Retrieve 8; Delete 205; Delete 5; Retrieve 11].
Definition toy_table : _LHASH := mk_lhash 0 (repeat 0 16) 16 0 toy_cmp toy_hash.

Example requests_run : exists st, performs (fun _ => true) bump requests (toy_table, ∅) =
  Some ([(true, 0); (true, 0); (true, 8); (true, 108); (true, 5); (true, 0); (true, 0)], st).
Proof. eexists. vm_compute. reflexivity. Qed.


(** A sweep of a table of three elements that removes the even ones and adds all
    of them up. *)
Definition sweep (d x : Z) : Z * bool := (x + d, Z.even d).

Lemma lhash_exact_witness :
  (exists outs lh' h' els, performs (fun _ => true) bump requests (toy_table, ∅) = Some (outs, (lh', h')) /\
      allowed_run toy_cmp [] requests outs els /\ lh_num_items lh' = len els /\
      ((forall h, bump h <> None) -> Forall (fun out => out.1 = true) outs) /\
      lh_free lh' h' = Some ∅) /\
  (exists lh h els, (exists outs, performs (fun _ => true) bump [Insert 5; Insert 8; Insert 11] (toy_table, ∅) = Some (outs, (lh, h))) /\
      len els = 3 /\
      exists order lh' h', order ≡ₚ els /\
        lh_doall_internal (fun _ => true) (visitor (fun _ => true) sweep) 17 (0, (lh, h)) = Some ((visit_all sweep order 0).1, (lh', h')) /\
        lhash lh' h' (visit_all sweep order 0).2 /\
        (callback_depth lh < UINT_MAX - 1 -> callback_depth lh' = callback_depth lh)).
Proof.
  split.
  { apply (proj1 lhash_exact (fun _ => true) bump toy_hash toy_cmp toy_table requests bump_alloc toy_keys). reflexivity. }
  { destruct (lh_performs_ok (fun _ => true) bump [Insert 5; Insert 8; Insert 11] toy_table ∅ []
      (proj2 (proj2 (proj2 (new_ok (fun _ => true) toy_hash toy_cmp toy_table eq_refl))))) as (outs & lh & h & els & E & _ & (S1 & S2 & S3) & L & _).
    exists lh, h, els. split; [by exists outs |]. vm_compute in E. injection E as _ <- <-.
    assert (N : len els = 3) by (by rewrite <- (lhash_count _ _ _ L)). split; [exact N |].
    apply (proj2 lhash_exact (fun _ => true) Z sweep 17%nat 0); [exact toy_keys | exact L | reflexivity |].
    unfold len in N. lia. }
Defined.
