(* ===== verification/Stack.v ===== *)
(** * The pointer stack (crypto/stack/stack.c)

    A growing array of pointers with an optional comparison function and a
    [sorted] flag. Elements are addresses (0 is NULL); a comparison function is
    an address too, and [call f] is what it computes on two elements. [qsort]
    and [bsearch] are the C library's, known by what the standard promises
    ([CLibrary]). *)

From Stdlib Require Import Sorting.Permutation Sorting.Sorted.
From S2P Require Import Prelude Buffers.

Record _STACK := mk_stack { num : Z; data : list Z; sorted : bool; num_alloc : Z; comp : Z }.

Definition kMinSize : Z := 4.

(** For a comparison of elements: it decides a total preorder. *)
Record preorder (cmp : Z -> Z -> Z) : Prop := {
  cmp_swap x y : cmp x y <= 0 <-> 0 <= cmp y x;
  cmp_trans x y z : cmp x y <= 0 -> cmp y z <= 0 -> cmp x z <= 0 }.

Definition ascending (cmp : Z -> Z -> Z) (l : list Z) : Prop := StronglySorted (fun x y => cmp x y <= 0) l.

Class CLibrary (qsort : (Z -> Z -> Z) -> list Z -> list Z) (bsearch : (Z -> Z -> Z) -> Z -> list Z -> option Z) : Prop := {
  qsort_perm cmp l : preorder cmp -> Permutation (qsort cmp l) l;
  qsort_sorted cmp l : preorder cmp -> ascending cmp (qsort cmp l);
  bsearch_found cmp key l i : preorder cmp -> ascending cmp l -> bsearch cmp key l = Some i -> 0 <= i < len l /\ cmp key (get l i) = 0;
  bsearch_none cmp key l : preorder cmp -> ascending cmp l -> bsearch cmp key l = None -> Forall (fun x => cmp key x <> 0) l }.

Section Stack.
Variable alloc_ok : Z -> bool.             (* a request of so many bytes succeeds *)
Variable uninit : Z -> list Z.             (* so many pointers of fresh memory *)
Variable call : Z -> Z -> Z -> Z.
Variable qsort : (Z -> Z -> Z) -> list Z -> list Z.
Variable bsearch : (Z -> Z -> Z) -> Z -> list Z -> option Z.

Definition with_data (sk : _STACK) (d : list Z) : _STACK := mk_stack (num sk) d (sorted sk) (num_alloc sk) (comp sk).

(** OPENSSL_realloc of an array of pointers to [n] of them. *)
Definition realloc (d : list Z) (n : Z) : option (list Z) :=
  if alloc_ok (8 * n) then Some (take n d ++ drop (len d) (uninit n)) else None.

Definition sk_new (comp : Z) : option _STACK :=
  if negb (alloc_ok 40) then None else
  if negb (alloc_ok (8 * kMinSize)) then None else
  Some (mk_stack 0 (repeat 0 (Z.to_nat kMinSize)) false kMinSize comp).

Definition sk_new_null : option _STACK := sk_new 0.

Definition sk_num (sk : option _STACK) : Z := match sk with None => 0 | Some sk => num sk end.

Definition sk_zero (sk : option _STACK) : option _STACK :=
  match sk with
  | None => None
  | Some sk =>
      if num sk =? 0 then Some sk else
      Some (mk_stack 0 (splice (data sk) 0 (repeat 0 (Z.to_nat (num sk)))) false (num_alloc sk) (comp sk))
  end.

Definition sk_value (sk : option _STACK) (i : Z) : Z :=
  match sk with
  | None => 0
  | Some sk => if num sk <=? i then 0 else get (data sk) i
  end.

Definition sk_set (sk : option _STACK) (i value : Z) : Z * option _STACK :=
  match sk with
  | None => (0, None)
  | Some sk => if num sk <=? i then (0, Some sk) else (value, Some (with_data sk (set (data sk) i value)))
  end.

(** The elements [func] is called on; the stack is gone afterwards. *)
Definition sk_pop_free (sk : option _STACK) : list Z :=
  match sk with
  | None => []
  | Some sk => filter (fun p => negb (p =? 0)) (take (num sk) (data sk))
  end.

(** Room for one more element: [None] where sk_insert gives up. *)
Definition grow (sk : _STACK) : option _STACK :=
  if num_alloc sk <=? u64 (num sk + 1) then
    let new_alloc := u64 (Z.shiftl (num_alloc sk) 1) in
    let alloc_size := u64 (new_alloc * 8) in
    let '(new_alloc, alloc_size) :=
      if (new_alloc <? num_alloc sk) || negb (alloc_size / 8 =? new_alloc) then
        (u64 (num_alloc sk + 1), u64 (u64 (num_alloc sk + 1) * 8))
      else (new_alloc, alloc_size) in
    if (new_alloc <? num_alloc sk) || negb (alloc_size / 8 =? new_alloc) then None else
    let* d := realloc (data sk) (alloc_size / 8) in
    Some (mk_stack (num sk) d (sorted sk) new_alloc (comp sk))
  else Some sk.

Definition sk_insert (sk : option _STACK) (p where_ : Z) : Z * option _STACK :=
  match sk with
  | None => (0, None)
  | Some sk =>
      match grow sk with
      | None => (0, Some sk)
      | Some sk =>
          let d :=
            if num sk <=? where_ then set (data sk) (num sk) p
            else set (splice (data sk) (where_ + 1) (load (data sk) where_ (num sk - where_))) where_ p in
          let sk := mk_stack (u64 (num sk + 1)) d false (num_alloc sk) (comp sk) in
          (num sk, Some sk)
      end
  end.

Definition sk_delete (sk : option _STACK) (where_ : Z) : Z * option _STACK :=
  match sk with
  | None => (0, None)
  | Some sk =>
      if num sk <=? where_ then (0, Some sk) else
      let ret := get (data sk) where_ in
      let d :=
        if negb (where_ =? num sk - 1) then splice (data sk) where_ (load (data sk) (where_ + 1) (num sk - where_ - 1))
        else data sk in
      (ret, Some (mk_stack (num sk - 1) d (sorted sk) (num_alloc sk) (comp sk)))
  end.

(** The first index of [p] among the elements from [i] on. *)
Fixpoint find_ptr (l : list Z) (p i : Z) : option Z :=
  match l with
  | [] => None
  | x :: l => if x =? p then Some i else find_ptr l p (i + 1)
  end.

Definition sk_delete_ptr (sk : option _STACK) (p : Z) : Z * option _STACK :=
  match sk with
  | None => (0, None)
  | Some s =>
      match find_ptr (take (num s) (data s)) p 0 with
      | Some i => sk_delete sk i
      | None => (0, sk)
      end
  end.

Definition sk_sort (sk : option _STACK) : option _STACK :=
  match sk with
  | None => None
  | Some sk =>
      if (comp sk =? 0) || sorted sk then Some sk else
      Some (mk_stack (num sk) (splice (data sk) 0 (qsort (call (comp sk)) (take (num sk) (data sk)))) true (num_alloc sk) (comp sk))
  end.

(** Back from a match to the first one. *)
Fixpoint first_match (cmp : Z -> Z -> Z) (p : Z) (d : list Z) (idx : nat) : Z :=
  match idx with
  | O => 0
  | S i => if cmp p (get d (Z.of_nat i)) =? 0 then first_match cmp p d i else Z.of_nat idx
  end.

(** [Some i] for a return of 1 with [*out_index] = [i]. *)
Definition sk_find (sk : option _STACK) (p : Z) : option Z * option _STACK :=
  match sk with
  | None => (None, None)
  | Some s =>
      if comp s =? 0 then (find_ptr (take (num s) (data s)) p 0, sk) else
      if p =? 0 then (None, sk) else
      let sk := sk_sort sk in
      match sk with
      | None => (None, None)
      | Some s =>
          match bsearch (call (comp s)) p (take (num s) (data s)) with
          | None => (None, sk)
          | Some idx => (Some (first_match (call (comp s)) p (data s) (Z.to_nat idx)), sk)
          end
      end
  end.

Definition sk_shift (sk : option _STACK) : Z * option _STACK :=
  match sk with
  | None => (0, None)
  | Some s => if num s =? 0 then (0, sk) else sk_delete sk 0
  end.

Definition sk_push (sk : option _STACK) (p : Z) : Z * option _STACK := sk_insert sk p (sk_num sk).

Definition sk_pop (sk : option _STACK) : Z * option _STACK :=
  match sk with
  | None => (0, None)
  | Some s => if num s =? 0 then (0, sk) else sk_delete sk (num s - 1)
  end.

Definition sk_dup (sk : option _STACK) : option _STACK :=
  let* sk := sk in
  let* ret := sk_new (comp sk) in
  let* s := realloc (data ret) (num_alloc sk) in
  Some (mk_stack (num sk) (splice s 0 (take (num sk) (data sk))) (sorted sk) (num_alloc sk) (comp sk)).

Definition sk_is_sorted (sk : option _STACK) : bool := match sk with None => true | Some sk => sorted sk end.

Definition sk_set_cmp_func (sk : _STACK) (f : Z) : Z * _STACK :=
  (comp sk, mk_stack (num sk) (data sk) (if comp sk =? f then sorted sk else false) (num_alloc sk) f).

(** The loop of sk_deep_copy from index [i]: the copies, or the elements handed
    to [free_func] when one fails. [copy_func] runs in the caller's state. *)
Section DeepCopy.
Context {X : Type} (copy_func : X -> Z -> Z * X).

Fixpoint copy_loop (n : nat) (i : Z) (d : list Z) (x : X) : (list Z + list Z) * X :=
  match n with
  | O => (inl d, x)
  | S n =>
      if get d i =? 0 then copy_loop n (i + 1) d x else
      let '(c, x) := copy_func x (get d i) in
      let d := set d i c in
      if c =? 0 then (inr (filter (fun p => negb (p =? 0)) (take i d)), x)
      else copy_loop n (i + 1) d x
  end.

Definition sk_deep_copy (sk : option _STACK) (x : X) : (_STACK + list Z) * X :=
  match sk_dup sk with
  | None => (inr [], x)
  | Some ret =>
      match copy_loop (Z.to_nat (num ret)) 0 (data ret) x with
      | (inl d, x) => (inl (with_data ret d), x)
      | (inr freed, x) => (inr freed, x)
      end
  end.
End DeepCopy.
End Stack.

(** ** A stack as a list *)

Definition elements (sk : _STACK) : list Z := take (num sk) (data sk).

(** The array has room for one more element than it holds. *)
Definition shape_ok (sk : _STACK) : Prop :=
  0 <= num sk < num_alloc sk /\ 8 * num_alloc sk < 2 ^ 64 /\ len (data sk) = num_alloc sk.

Definition stack_ok (call : Z -> Z -> Z -> Z) (sk : _STACK) : Prop :=
  shape_ok sk /\ (sorted sk = true -> ascending (call (comp sk)) (elements sk)).

(** Insertion and removal in a list. *)
Definition insert_at (w p : Z) (l : list Z) : list Z := take w l ++ p :: drop w l.
Definition remove_at (w : Z) (l : list Z) : list Z := take w l ++ drop (w + 1) l.

Lemma elements_len sk : shape_ok sk -> len (elements sk) = num sk.
Proof. intros (H1 & _ & H3). apply len_take. lia. Qed.

Lemma elements_ext (d : list Z) n l : len l = n -> n <= len d -> (forall i, 0 <= i < n -> get d i = get l i) -> take n d = l.
Proof.
  intros Hl Hn H. pose proof (len_nonneg l). apply list_eq_get; rewrite len_take by lia; [lia |].
  intros i Hi. rewrite get_take by lia. apply H. lia.
Qed.

Lemma get_cons x l i : 0 <= i -> get (x :: l) i = if i =? 0 then x else get l (i - 1).
Proof.
  intros Hi. destruct (Z.eqb_spec i 0) as [-> | Hne]; [reflexivity |]. unfold get.
  replace (Z.to_nat i) with (S (Z.to_nat (i - 1))) by lia. reflexivity.
Qed.

Lemma get_insert_at w p l i : 0 <= w <= len l -> 0 <= i <= len l ->
  get (insert_at w p l) i = if i <? w then get l i else if i =? w then p else get l (i - 1).
Proof.
  intros Hw Hi. unfold insert_at. destruct (Z.ltb_spec i w).
  - rewrite get_app_l by (rewrite len_take; lia). apply get_take. lia.
  - rewrite get_app_r, len_take, get_cons by (rewrite ?len_take; lia).
    replace (i - w =? 0) with (i =? w) by (destruct (Z.eqb_spec i w), (Z.eqb_spec (i - w) 0); lia).
    destruct (i =? w) eqn:E; [reflexivity |]. rewrite get_drop by lia. f_equal. lia.
Qed.

Lemma get_remove_at w l i : 0 <= w < len l -> 0 <= i < len l - 1 ->
  get (remove_at w l) i = if i <? w then get l i else get l (i + 1).
Proof.
  intros Hw Hi. unfold remove_at. destruct (Z.ltb_spec i w).
  - rewrite get_app_l by (rewrite len_take; lia). apply get_take. lia.
  - rewrite get_app_r, len_take by (rewrite ?len_take; lia). rewrite get_drop by lia. f_equal. lia.
Qed.

Section Facts.
Variable alloc_ok : Z -> bool.
Variable uninit : Z -> list Z.
Hypothesis uninit_len : forall n, 0 <= n -> len (uninit n) = n.

Abbreviation grow := (grow alloc_ok uninit).
Abbreviation sk_insert := (sk_insert alloc_ok uninit).

Lemma realloc_ok d n d' : 0 <= n -> realloc alloc_ok uninit d n = Some d' ->
  alloc_ok (8 * n) = true /\ len d' = n /\ forall i, 0 <= i < Z.min n (len d) -> get d' i = get d i.
Proof.
  intros Hn. unfold realloc. destruct (alloc_ok (8 * n)); [| discriminate]. intros [= <-]. split; [reflexivity |].
  pose proof (len_nonneg d). split.
  - rewrite len_app, len_take_min by lia. destruct (Z.le_gt_cases (len d) n).
    + rewrite len_drop by (rewrite uninit_len; lia). rewrite uninit_len; lia.
    + rewrite drop_all by (rewrite uninit_len; lia). rewrite len_nil. lia.
  - intros i Hi. rewrite get_app_l by (rewrite len_take_min; lia). apply get_take. lia.
Qed.

(** An allocation of [m] pointers is impossible. *)
Definition refused (m : Z) : Prop := alloc_ok (8 * m) = false \/ 2 ^ 64 <= 8 * m.

Lemma sk_grow_ok sk : shape_ok sk ->
  match grow sk with
  | None => exists m, num_alloc sk < m /\ refused m
  | Some sk' => shape_ok sk' /\ elements sk' = elements sk /\ num sk + 1 < num_alloc sk' /\
      num sk' = num sk /\ sorted sk' = sorted sk /\ comp sk' = comp sk
  end.
Proof.
  intros (H1 & H2 & H3). unfold Stack.grow. rewrite (wrap_small 64 (num sk + 1)) by (zconst; lia).
  destruct (Z.leb_spec (num_alloc sk) (num sk + 1)) as [Hg | Hg].
  2: { split; [split; [lia | split; [lia | exact H3]] |]. repeat split; lia. }
  set (a := num_alloc sk) in *.
  assert (G : forall m, a < m -> 8 * m < 2 ^ 64 ->
    match (let* d := realloc alloc_ok uninit (data sk) (8 * m / 8) in Some (mk_stack (num sk) d (sorted sk) m (comp sk))) with
    | None => exists m, a < m /\ refused m
    | Some sk' => shape_ok sk' /\ elements sk' = elements sk /\ num sk + 1 < num_alloc sk' /\
        num sk' = num sk /\ sorted sk' = sorted sk /\ comp sk' = comp sk
    end).
  { intros m Hm Hb. rewrite Z.mul_comm, Z.div_mul by lia. destruct (realloc alloc_ok uninit (data sk) m) as [d |] eqn:E.
    - destruct (realloc_ok (data sk) m d ltac:(lia) E) as (_ & Hl & Hget). unfold shape_ok, elements. cbn [num num_alloc data sorted comp].
      split; [repeat split; lia |]. split; [| repeat split; lia].
      apply elements_ext; [apply len_take; lia | lia |]. intros i Hi. rewrite get_take by lia. apply Hget. lia.
    - exists m. split; [exact Hm |]. left. unfold realloc in E. now destruct (alloc_ok (8 * m)). }
  assert (Ha : u64 (Z.shiftl a 1) = 2 * a) by (rewrite Z.shiftl_mul_pow2 by lia; rewrite (wrap_small 64); zconst; lia).
  rewrite Ha. destruct (Z.lt_ge_cases (16 * a) (2 ^ 64)) as [Hs | Hs].
  - rewrite (wrap_small 64 (2 * a * 8)) by (zconst; lia). rewrite Z.div_mul by lia. rewrite Z.eqb_refl. cbn [negb].
    rewrite orb_false_r. destruct (Z.ltb_spec (2 * a) a); [lia |].
    rewrite Z.div_mul, Z.eqb_refl by lia. cbn [negb]. rewrite orb_false_r. destruct (Z.ltb_spec (2 * a) a); [lia |].
    specialize (G (2 * a) ltac:(lia) ltac:(lia)). replace (8 * (2 * a) / 8) with (2 * a) in G by (Z.to_euclidean_division_equations; lia). exact G.
  - assert (Hw : u64 (2 * a * 8) = 2 * a * 8 - 2 ^ 64) by (unfold wrap; symmetry; apply Z.mod_unique with 1; zconst; lia).
    rewrite Hw. destruct (Z.eqb_spec ((2 * a * 8 - 2 ^ 64) / 8) (2 * a)) as [He | _].
    { exfalso. zconst. Z.to_euclidean_division_equations; lia. }
    cbn [negb]. rewrite orb_true_r. rewrite (wrap_small 64 (a + 1)) by (zconst; lia).
    destruct (Z.ltb_spec (a + 1) a); [lia |]. cbn [orb].
    destruct (Z.lt_ge_cases (8 * (a + 1)) (2 ^ 64)).
    + rewrite (wrap_small 64 ((a + 1) * 8)) by (zconst; lia). rewrite Z.div_mul, Z.eqb_refl by lia. cbn [negb].
      specialize (G (a + 1) ltac:(lia) ltac:(lia)). replace (8 * (a + 1) / 8) with (a + 1) in G by (Z.to_euclidean_division_equations; lia). exact G.
    + assert (Hw' : u64 ((a + 1) * 8) = (a + 1) * 8 - 2 ^ 64) by (unfold wrap; symmetry; apply Z.mod_unique with 1; zconst; lia).
      rewrite Hw'. destruct (Z.eqb_spec (((a + 1) * 8 - 2 ^ 64) / 8) (a + 1)); cbn [negb].
      * exfalso. zconst. Z.to_euclidean_division_equations; lia.
      * exists (a + 1). split; [lia |]. right. lia.
Qed.

Lemma sk_insert_ok sk p w : shape_ok sk -> 0 <= w ->
  match sk_insert (Some sk) p w with
  | (n, Some sk') =>
      (n = num sk + 1 /\ shape_ok sk' /\ sorted sk' = false /\ comp sk' = comp sk /\
       elements sk' = insert_at (Z.min w (num sk)) p (elements sk)) \/
      (n = 0 /\ sk' = sk /\ exists m, num_alloc sk < m /\ refused m)
  | (_, None) => False
  end.
Proof.
  intros Hok Hw. unfold Stack.sk_insert. pose proof (sk_grow_ok sk Hok) as G. destruct (grow sk) as [s |]; [| now right].
  destruct G as ((G1 & G2 & G3) & Ge & Gr & Gn & Gs & Gc). left. rewrite Gn in *.
  rewrite (wrap_small 64) by (zconst; lia). split; [reflexivity |].
  pose proof (elements_len sk Hok) as Hle. unfold elements in Ge. rewrite Gn in Ge.
  set (d := if num sk <=? w then _ else _).
  assert (Hd : len d = len (data s) /\ forall i, 0 <= i < num sk + 1 -> get d i = get (insert_at (Z.min w (num sk)) p (elements sk)) i).
  { assert (Hg : forall i, 0 <= i < num sk -> get (data s) i = get (elements sk) i)
      by (intros i Hi; unfold elements; rewrite <- Ge, get_take by lia; reflexivity).
    unfold d. destruct (Z.leb_spec (num sk) w).
    - rewrite Z.min_r by lia. split; [apply len_set; lia |]. intros i Hi. rewrite get_insert_at by lia.
      destruct (Z.ltb_spec i (num sk)); [rewrite get_set_other by lia; now apply Hg |].
      destruct (Z.eqb_spec i (num sk)) as [-> | ?]; [apply get_set_same; lia | lia].
    - rewrite Z.min_l by lia.
      assert (Ll : len (load (data s) w (num sk - w)) = num sk - w) by (unfold load; rewrite len_take; rewrite ?len_drop; lia).
      assert (Ls : len (splice (data s) (w + 1) (load (data s) w (num sk - w))) = len (data s)) by (apply len_splice; lia).
      split; [rewrite len_set; lia |]. intros i Hi. rewrite get_insert_at by lia.
      destruct (Z.eqb_spec i w) as [-> | Hne].
      + rewrite Z.ltb_irrefl. apply get_set_same. lia.
      + rewrite get_set_other by lia. rewrite get_splice by lia. rewrite Ll.
        destruct (Z.ltb_spec i w).
        * destruct (Z.leb_spec (w + 1) i); [lia |]. cbn [andb]. apply Hg. lia.
        * destruct (Z.leb_spec (w + 1) i); [| lia]. destruct (Z.ltb_spec i (w + 1 + (num sk - w))); [| lia]. cbn [andb].
          rewrite get_load by lia. rewrite Hg by lia. f_equal. lia. }
  destruct Hd as [Hl Hg]. split; [split; cbn [num num_alloc data]; lia |]. split; [reflexivity |]. split; [exact Gc |].
  unfold elements at 1. cbn [num data]. apply elements_ext; [| lia | exact Hg].
  unfold insert_at. rewrite len_app, len_cons, len_take, len_drop; lia.
Qed.

Lemma sk_delete_ok sk w : shape_ok sk -> 0 <= w < num sk ->
  exists sk', sk_delete (Some sk) w = (get (elements sk) w, Some sk') /\ shape_ok sk' /\ sorted sk' = sorted sk /\
    comp sk' = comp sk /\ num sk' = num sk - 1 /\ elements sk' = remove_at w (elements sk).
Proof.
  intros Hok Hw. pose proof (elements_len sk Hok) as Hle. destruct Hok as (H1 & H2 & H3). unfold sk_delete.
  destruct (Z.leb_spec (num sk) w); [lia |]. eexists. split; [unfold elements; now rewrite get_take by lia |].
  set (d := if negb _ then _ else _).
  assert (Hd : len d = len (data sk) /\ forall i, 0 <= i < num sk - 1 -> get d i = get (remove_at w (elements sk)) i).
  { unfold d. assert (Hg : forall i, 0 <= i < num sk -> get (data sk) i = get (elements sk) i)
      by (intros i Hi; unfold elements; now rewrite get_take by lia).
    assert (Ll : len (load (data sk) (w + 1) (num sk - w - 1)) = num sk - w - 1) by (unfold load; rewrite len_take; rewrite ?len_drop; lia).
    destruct (Z.eqb_spec w (num sk - 1)); cbn [negb].
    - split; [reflexivity |]. intros i Hi. rewrite get_remove_at by lia. destruct (Z.ltb_spec i w); [apply Hg; lia | lia].
    - split; [apply len_splice; lia |]. intros i Hi. rewrite get_remove_at, get_splice by lia. rewrite Ll.
      destruct (Z.ltb_spec i w), (Z.leb_spec w i); try lia; cbn [andb]; [apply Hg; lia |].
      destruct (Z.ltb_spec i (w + (num sk - w - 1))); [| lia]. rewrite get_load by lia. rewrite Hg by lia. f_equal. lia. }
  destruct Hd as [Hl Hg]. split; [split; cbn [num num_alloc data]; lia |]. repeat (split; [reflexivity |]).
  unfold elements at 1. cbn [num data]. apply elements_ext; [| lia | exact Hg].
  unfold remove_at. rewrite len_app, len_take, len_drop; lia.
Qed.

Lemma find_ptr_spec l p : forall i, match find_ptr l p i with
  | Some k => i <= k < i + len l /\ get l (k - i) = p /\ (forall j, 0 <= j < k - i -> get l j <> p)
  | None => Forall (fun x => x <> p) l
  end.
Proof.
  induction l as [| x l IH]; intros i; cbn [find_ptr]; [constructor |]. pose proof (len_nonneg l).
  destruct (Z.eqb_spec x p) as [-> | Hne].
  - rewrite len_cons, Z.sub_diag. repeat split; try lia.
  - specialize (IH (i + 1)). destruct (find_ptr l p (i + 1)) as [k |]; [| now constructor].
    destruct IH as (I1 & I2 & I3). rewrite len_cons. split; [lia |]. split.
    + rewrite get_cons by lia. destruct (Z.eqb_spec (k - i) 0); [lia |]. rewrite <- I2. f_equal. lia.
    + intros j Hj. rewrite get_cons by lia. destruct (Z.eqb_spec j 0); [exact Hne |]. apply I3. lia.
Qed.

Lemma delete_ptr_ok sk p : shape_ok sk ->
  (exists i sk', 0 <= i < num sk /\ get (elements sk) i = p /\ (forall j, 0 <= j < i -> get (elements sk) j <> p) /\
     sk_delete_ptr (Some sk) p = (p, Some sk') /\ shape_ok sk' /\ elements sk' = remove_at i (elements sk)) \/
  (Forall (fun x => x <> p) (elements sk) /\ sk_delete_ptr (Some sk) p = (0, Some sk)).
Proof.
  intros Hok. unfold sk_delete_ptr. fold (elements sk). pose proof (find_ptr_spec (elements sk) p 0) as Hf.
  rewrite (elements_len sk Hok) in Hf. destruct (find_ptr (elements sk) p 0) as [i |]; [left | now right].
  destruct Hf as (F1 & F2 & F3). rewrite Z.sub_0_r in F2, F3. destruct (sk_delete_ok sk i Hok ltac:(lia)) as (sk' & -> & D1 & _ & _ & _ & D2).
  exists i, sk'. rewrite F2. split; [lia |]. split; [reflexivity |]. split; [assumption |]. split; [reflexivity | now split].
Qed.

(** Copying into a stack of the same size. *)
Lemma dup_ok sk : shape_ok sk ->
  match sk_dup alloc_ok uninit (Some sk) with
  | Some sk' => shape_ok sk' /\ elements sk' = elements sk /\ num sk' = num sk /\ num_alloc sk' = num_alloc sk /\
      sorted sk' = sorted sk /\ comp sk' = comp sk
  | None => exists m, refused m
  end.
Proof.
  intros Hok. pose proof (elements_len sk Hok) as Hle. destruct Hok as (H1 & H2 & H3). unfold sk_dup, sk_new.
  destruct (alloc_ok 40) eqn:E1; [| exists 5; left; exact E1]. cbn [negb].
  destruct (alloc_ok (8 * kMinSize)) eqn:E2; [| exists kMinSize; left; exact E2]. cbn [negb data].
  destruct (realloc alloc_ok uninit (repeat 0 (Z.to_nat kMinSize)) (num_alloc sk)) as [d |] eqn:E.
  - destruct (realloc_ok _ (num_alloc sk) d ltac:(lia) E) as (_ & Hl & _). fold (elements sk).
    assert (Hs : len (splice d 0 (elements sk)) = len d) by (apply len_splice; lia).
    unfold shape_ok. cbn [num num_alloc data sorted comp]. split; [split; [lia | split; [lia | lia]] |].
    split; [| repeat split]. change (take (num sk) (splice d 0 (elements sk)) = elements sk).
    rewrite <- Hle at 1. apply (take_splice d 0); lia.
  - exists (num_alloc sk). left. unfold realloc in E. now destruct (alloc_ok (8 * num_alloc sk)).
Qed.

Section Sorting.
Variable call : Z -> Z -> Z -> Z.
Abbreviation stack_ok := (stack_ok call).
Variable qsort : (Z -> Z -> Z) -> list Z -> list Z.
Variable bsearch : (Z -> Z -> Z) -> Z -> list Z -> option Z.
Context `{CL : !CLibrary qsort bsearch}.

Lemma sort_ok sk : stack_ok sk -> comp sk <> 0 -> preorder (call (comp sk)) ->
  exists sk', sk_sort call qsort (Some sk) = Some sk' /\ stack_ok sk' /\ sorted sk' = true /\ comp sk' = comp sk /\
    num sk' = num sk /\ Permutation (elements sk') (elements sk).
Proof.
  intros [Hok Hso] Hc Hp. unfold sk_sort. rewrite (proj2 (Z.eqb_neq _ _) Hc). cbn [orb].
  destruct (sorted sk) eqn:E; [exists sk; split; [reflexivity | split; [split; [exact Hok | intros _; exact (Hso eq_refl)] |]];
    repeat (split; [easy |]); apply Permutation_refl |]. fold (elements sk). eexists. split; [reflexivity |].
  pose proof (qsort_perm (call (comp sk)) (elements sk) Hp) as P. pose proof (qsort_sorted (call (comp sk)) (elements sk) Hp) as S.
  set (q := qsort _ _) in *. pose proof (elements_len sk Hok) as Hle. destruct Hok as (H1 & H2 & H3).
  assert (Lq : len q = num sk) by (unfold len in *; now rewrite (Permutation_length P)).
  assert (Ls : len (splice (data sk) 0 q) = len (data sk)) by (apply len_splice; lia).
  assert (Eq : take (num sk) (splice (data sk) 0 q) = q) by (rewrite <- Lq; apply (take_splice (data sk) 0); lia).
  unfold Stack.stack_ok, shape_ok, elements. cbn [num num_alloc data sorted comp]. rewrite Eq.
  split; [split; [repeat split; lia | intros _; exact S] |]. repeat (split; [reflexivity |]). exact P.
Qed.

Lemma ascending_le cmp l i j : preorder cmp -> ascending cmp l -> 0 <= i < j -> j < len l -> cmp (get l i) (get l j) <= 0.
Proof.
  intros Hp S. revert i j. induction S as [| x l S IH Hx]; intros i j Hij Hj; [cbn in Hj; lia |]. rewrite len_cons in Hj.
  rewrite !get_cons by lia. destruct (Z.eqb_spec i 0), (Z.eqb_spec j 0); try lia; [| apply IH; lia].
  rewrite Forall_forall in Hx. apply Hx. unfold get. apply nth_In. unfold len in Hj. lia.
Qed.

(** The backwards loop stops at the first match. *)
Lemma first_match_ok cmp p (d : list Z) n idx : preorder cmp -> ascending cmp (take n d) -> 0 <= n <= len d ->
  Z.of_nat idx < n -> cmp p (get d (Z.of_nat idx)) = 0 ->
  let i := first_match cmp p d idx in
  0 <= i < n /\ cmp p (get d i) = 0 /\ forall j, 0 <= j < i -> cmp p (get d j) <> 0.
Proof.
  intros Hp Sd Hn. induction idx as [| i IH]; intros Hi Hm; cbn [first_match].
  - cbn in Hm. split; [lia |]. split; [exact Hm | lia].
  - destruct (Z.eqb_spec (cmp p (get d (Z.of_nat i))) 0) as [E | E]; [apply IH; [lia | exact E] |].
    cbv zeta. split; [lia |]. split; [exact Hm |]. intros j Hj E'. apply E.
    assert (G : forall a b, 0 <= a <= b -> b < n -> cmp (get d a) (get d b) <= 0).
    { intros a b Hab Hb. destruct (Z.eq_dec a b) as [-> |].
      - destruct (Z.le_gt_cases (cmp (get d b) (get d b)) 0); [assumption |]. apply (cmp_swap cmp Hp). lia.
      - rewrite <- (get_take d n a), <- (get_take d n b) by lia. apply (ascending_le cmp _ a b Hp Sd); rewrite ?len_take; lia. }
    assert (L1 : cmp p (get d (Z.of_nat i)) <= 0) by (apply (cmp_trans cmp Hp _ (get d j)); [lia | apply G; lia]).
    assert (L2 : cmp (get d (Z.of_nat i)) p <= 0).
    { apply (cmp_trans cmp Hp _ (get d (Z.of_nat (S i)))); [apply G; lia |]. apply (cmp_swap cmp Hp). lia. }
    apply (cmp_swap cmp Hp) in L2. lia.
Qed.

Lemma find_ok sk p : stack_ok sk -> comp sk <> 0 -> p <> 0 -> preorder (call (comp sk)) ->
  exists sk', snd (sk_find call qsort bsearch (Some sk) p) = Some sk' /\ stack_ok sk' /\ sorted sk' = true /\
    Permutation (elements sk') (elements sk) /\
    match fst (sk_find call qsort bsearch (Some sk) p) with
    | Some i => 0 <= i < num sk' /\ call (comp sk) p (get (elements sk') i) = 0 /\
        forall j, 0 <= j < i -> call (comp sk) p (get (elements sk') j) <> 0
    | None => Forall (fun x => call (comp sk) p x <> 0) (elements sk)
    end.
Proof.
  intros Hok Hc Hnull Hp. unfold sk_find. rewrite (proj2 (Z.eqb_neq _ _) Hc), (proj2 (Z.eqb_neq _ _) Hnull).
  destruct (sort_ok sk Hok Hc Hp) as (s & -> & Hs & Hso & Ec & En & P). rewrite Ec. fold (elements s).
  exists s. destruct Hs as [Hsh Hasc]. pose proof (Hasc Hso) as Ha. rewrite Ec in Ha. pose proof (elements_len s Hsh) as Hle.
  destruct (bsearch (call (comp sk)) p (elements s)) as [idx |] eqn:E; cbn [fst snd].
  - destruct (bsearch_found _ _ _ _ Hp Ha E) as [Hi Hm]. repeat (split; [easy |]).
    destruct Hsh as (H1 & H2 & H3).
    destruct (first_match_ok (call (comp sk)) p (data s) (num s) (Z.to_nat idx) Hp Ha ltac:(lia) ltac:(lia)) as (F1 & F2 & F3).
    { rewrite Z2Nat.id by lia. unfold elements in Hm. now rewrite get_take in Hm by lia. }
    set (i := first_match _ _ _ _) in *. clearbody i. unfold elements. split; [lia |]. split; [now rewrite get_take by lia |].
    intros j Hj. rewrite get_take by lia. now apply F3.
  - repeat (split; [easy |]). apply (Permutation_Forall P). now apply (bsearch_none _ _ _ Hp Ha).
Qed.
End Sorting.

(** ** Deep copies *)
Section DeepCopyFacts.
Context {X : Type} (copy_func : X -> Z -> Z * X).

(** What copying the elements one by one gives: NULL stays NULL, and the first
    failure stops it. *)
Fixpoint copies (l : list Z) (x : X) : (list Z + list Z) * X :=
  match l with
  | [] => (inl [], x)
  | p :: l =>
      let '(c, x) := if p =? 0 then (0, x) else copy_func x p in
      if negb (p =? 0) && (c =? 0) then (inr [], x) else
      let '(r, x) := copies l x in
      match r with
      | inl l => (inl (c :: l), x)
      | inr made => (inr (if p =? 0 then made else c :: made), x)
      end
  end.

Lemma copy_loop_ok l : forall d x done rest, d = done ++ l ++ rest ->
  copy_loop copy_func (length l) (len done) d x =
  let '(r, x) := copies l x in
  match r with
  | inl l => (inl (done ++ l ++ rest), x)
  | inr made => (inr (filter (fun p => negb (p =? 0)) done ++ made), x)
  end.
Proof.
  induction l as [| p l IH]; intros d x dn rest ->; [reflexivity |]. cbn [length copy_loop copies].
  assert (G : get (dn ++ (p :: l) ++ rest) (len dn) = p) by (rewrite get_app_r, Z.sub_diag by lia; reflexivity).
  rewrite G. assert (Hl : forall c : Z, len (dn ++ [c]) = len dn + 1) by (intros; rewrite len_app; reflexivity).
  destruct (Z.eqb_spec p 0) as [-> | Hp]; cbn [negb andb].
  - rewrite <- (Hl 0). rewrite (IH _ x (dn ++ [0]) rest) by (now rewrite <- app_assoc).
    destruct (copies l x) as [[l' | made] x']; rewrite <- ?app_assoc; [reflexivity |]. rewrite filter_app. cbn. now rewrite app_nil_r.
  - destruct (copy_func x p) as [c x'].
    assert (Es : set (dn ++ (p :: l) ++ rest) (len dn) c = (dn ++ [c]) ++ l ++ rest).
    { rewrite <- app_assoc. unfold set, splice. rewrite take_app_exact by reflexivity. change (len [c]) with 1.
      rewrite drop_app_r by lia. replace (len dn + 1 - len dn) with 1 by lia. reflexivity. }
    rewrite Es. destruct (Z.eqb_spec c 0) as [-> | Hcz].
    + rewrite <- app_assoc, take_app_exact by reflexivity. now rewrite app_nil_r.
    + rewrite <- (Hl c). rewrite (IH _ x' (dn ++ [c]) rest) by reflexivity.
      destruct (copies l x') as [[l' | made] x'']; rewrite <- ?app_assoc; [reflexivity |].
      rewrite filter_app. cbn. rewrite (proj2 (Z.eqb_neq c 0) Hcz). cbn. now rewrite <- app_assoc.
Qed.
End DeepCopyFacts.
End Facts.

(** ** Sequences of operations *)

Inductive operation : Type :=
| Insert (p w : Z) | Push (p : Z) | Delete (w : Z) | DeletePtr (p : Z) | Pop | Shift | Zero | Value (i : Z) | Set_ (i v : Z).

Definition index_ok (op : operation) : Prop :=
  match op with Insert _ w | Delete w => 0 <= w | Value i | Set_ i _ => 0 <= i | _ => True end.

Definition perform (alloc_ok : Z -> bool) (uninit : Z -> list Z) (op : operation) (sk : option _STACK) : Z * option _STACK :=
  match op with
  | Insert p w => sk_insert alloc_ok uninit sk p w
  | Push p => sk_push alloc_ok uninit sk p
  | Delete w => sk_delete sk w
  | DeletePtr p => sk_delete_ptr sk p
  | Pop => sk_pop sk
  | Shift => sk_shift sk
  | Zero => (0, sk_zero sk)
  | Value i => (sk_value sk i, sk)
  | Set_ i v => sk_set sk i v
  end.

Fixpoint performs alloc_ok uninit (ops : list operation) (sk : option _STACK) : list Z * option _STACK :=
  match ops with
  | [] => ([], sk)
  | op :: ops =>
      let (r, sk) := perform alloc_ok uninit op sk in
      let (rs, sk) := performs alloc_ok uninit ops sk in (r :: rs, sk)
  end.

Fixpoint remove_first (p : Z) (l : list Z) : list Z :=
  match l with
  | [] => []
  | x :: l => if x =? p then l else x :: remove_first p l
  end.

(** The specification on lists: an insertion may fail when more memory than the
    elements need is refused. *)
Definition remove_result (w : Z) (l : list Z) : Z * list Z := if len l <=? w then (0, l) else (get l w, remove_at w l).

Inductive list_step (refused : Z -> Prop) (l : list Z) : operation -> Z -> list Z -> Prop :=
| step_insert p w : list_step refused l (Insert p w) (len l + 1) (insert_at (Z.min w (len l)) p l)
| step_push p : list_step refused l (Push p) (len l + 1) (l ++ [p])
| step_no_memory op : (exists p w, op = Insert p w) \/ (exists p, op = Push p) -> (exists m, len l < m /\ refused m) -> list_step refused l op 0 l
| step_delete w : list_step refused l (Delete w) (fst (remove_result w l)) (snd (remove_result w l))
| step_delete_ptr p : list_step refused l (DeletePtr p) (if existsb (Z.eqb p) l then p else 0) (remove_first p l)
| step_pop : list_step refused l Pop (if len l =? 0 then 0 else get l (len l - 1)) (take (len l - 1) l)
| step_shift : list_step refused l Shift (hd 0 l) (tl l)
| step_zero : list_step refused l Zero 0 []
| step_value i : list_step refused l (Value i) (if len l <=? i then 0 else get l i) l
| step_set i v : list_step refused l (Set_ i v) (if len l <=? i then 0 else v) (if len l <=? i then l else set l i v).

Inductive list_run (refused : Z -> Prop) : list Z -> list operation -> list Z -> list Z -> Prop :=
| run_done l : list_run refused l [] [] l
| run_step l op r l1 ops rs l2 : list_step refused l op r l1 -> list_run refused l1 ops rs l2 ->
    list_run refused l (op :: ops) (r :: rs) l2.

Lemma insert_at_end p l : insert_at (len l) p l = l ++ [p].
Proof. unfold insert_at. rewrite take_all, drop_all by lia. reflexivity. Qed.

Lemma remove_at_cons i x l : 0 < i -> remove_at i (x :: l) = x :: remove_at (i - 1) l.
Proof.
  intros Hi. unfold remove_at. rewrite !drop_cons by lia. replace (i + 1 - 1) with (i - 1 + 1) by lia.
  unfold take. replace (Z.to_nat i) with (S (Z.to_nat (i - 1))) by lia. reflexivity.
Qed.

Lemma remove_first_at p l : forall i, 0 <= i < len l -> get l i = p -> (forall j, 0 <= j < i -> get l j <> p) ->
  remove_first p l = remove_at i l.
Proof.
  induction l as [| x l IH]; intros i Hi Hg Hj; [cbn in Hi; lia |]. rewrite len_cons in Hi. cbn [remove_first].
  destruct (Z.eqb_spec x p) as [-> | Hne].
  - destruct (Z.eq_dec i 0) as [-> | Hi0]; [reflexivity |]. exfalso. now apply (Hj 0); [lia |].
  - assert (i <> 0) by (intros ->; now apply Hne). rewrite remove_at_cons by lia. f_equal.
    rewrite get_cons in Hg by lia. destruct (Z.eqb_spec i 0); [lia |]. apply IH; [lia | exact Hg |].
    intros j Hj'. specialize (Hj (j + 1) ltac:(lia)). rewrite get_cons in Hj by lia. destruct (Z.eqb_spec (j + 1) 0); [lia |].
    now replace (j + 1 - 1) with j in Hj by lia.
Qed.

Lemma remove_first_none p l : Forall (fun x => x <> p) l -> remove_first p l = l /\ existsb (Z.eqb p) l = false.
Proof.
  induction 1 as [| x l Hx _ [IH1 IH2]]; [now split |]. cbn. rewrite (proj2 (Z.eqb_neq x p) Hx), IH1, IH2.
  now rewrite (proj2 (Z.eqb_neq p x) (not_eq_sym Hx)).
Qed.

Lemma remove_at_last l : 0 < len l -> remove_at (len l - 1) l = take (len l - 1) l.
Proof. intros H. unfold remove_at. rewrite drop_all by lia. apply app_nil_r. Qed.

Lemma set_elements n (d : list Z) i v : 0 <= i < n -> n <= len d -> take n (set d i v) = set (take n d) i v.
Proof.
  intros Hi Hn. apply elements_ext; [rewrite len_set; rewrite len_take; lia | rewrite len_set; lia |].
  intros j Hj. destruct (Z.eq_dec j i) as [-> | Hne].
  - rewrite !get_set_same; rewrite ?len_take; lia.
  - rewrite !get_set_other by (rewrite ?len_take; lia). now rewrite get_take by lia.
Qed.

Section Steps.
Variable alloc_ok : Z -> bool.
Variable uninit : Z -> list Z.
Hypothesis uninit_len : forall n, 0 <= n -> len (uninit n) = n.

Abbreviation refused := (refused alloc_ok).

Lemma insert_step sk p w : shape_ok sk -> 0 <= w -> let l := elements sk in
  exists sk' r, sk_insert alloc_ok uninit (Some sk) p w = (r, Some sk') /\ shape_ok sk' /\
    ((r = len l + 1 /\ elements sk' = insert_at (Z.min w (len l)) p l) \/
     (r = 0 /\ elements sk' = l /\ exists m, len l < m /\ refused m)).
Proof.
  intros Hok Hw. cbv zeta. rewrite (elements_len sk Hok). pose proof (sk_insert_ok alloc_ok uninit uninit_len sk p w Hok Hw) as H.
  destruct (sk_insert alloc_ok uninit (Some sk) p w) as [r [sk' |]]; [| contradiction]. exists sk', r.
  split; [reflexivity |]. destruct H as [(H1 & H2 & _ & _ & H3) | (H1 & -> & m & H2 & H3)].
  - split; [exact H2 |]. left. now split.
  - split; [exact Hok |]. right. split; [exact H1 |]. split; [reflexivity |]. exists m. split; [| exact H3].
    destruct Hok as (K1 & _). lia.
Qed.

Lemma delete_step sk w : shape_ok sk -> 0 <= w -> let l := elements sk in
  exists sk', sk_delete (Some sk) w = (fst (remove_result w l), Some sk') /\ shape_ok sk' /\ elements sk' = snd (remove_result w l).
Proof.
  intros Hok Hw. cbv zeta. unfold remove_result. rewrite (elements_len sk Hok). destruct (Z.leb_spec (num sk) w) as [H | H].
  - exists sk. cbn [sk_delete]. destruct (Z.leb_spec (num sk) w); [now split | lia].
  - destruct (sk_delete_ok sk w Hok ltac:(lia)) as (sk' & E & D1 & _ & _ & _ & D2). now exists sk'.
Qed.

Lemma sk_perform_ok op sk : shape_ok sk -> index_ok op ->
  exists sk' r, perform alloc_ok uninit op (Some sk) = (r, Some sk') /\ shape_ok sk' /\ list_step refused (elements sk) op r (elements sk').
Proof.
  intros Hok Hi. pose proof (elements_len sk Hok) as Hle.
  destruct op as [p w | p | w | p | | | | i | i v]; cbn [perform index_ok] in *.
  - destruct (insert_step sk p w Hok Hi) as (sk' & r & E & S1 & [(-> & S2) | (-> & S2 & S3)]); exists sk'; eexists; (split; [exact E |]); (split; [exact S1 |]); rewrite S2; [constructor |].
    apply step_no_memory; [left; now exists p, w | exact S3].
  - unfold sk_push. cbn [sk_num]. pose proof Hok as (K1 & _).
    destruct (insert_step sk p (num sk) Hok ltac:(lia)) as (sk' & r & E & S1 & [(-> & S2) | (-> & S2 & S3)]); exists sk'; eexists; (split; [exact E |]); (split; [exact S1 |]); rewrite S2.
    + rewrite Hle, Z.min_id, <- Hle, insert_at_end. constructor.
    + apply step_no_memory; [right; now exists p | exact S3].
  - destruct (delete_step sk w Hok Hi) as (sk' & E & D1 & D2). exists sk'. eexists. split; [exact E |]. split; [exact D1 |]. rewrite D2. constructor.
  - destruct (delete_ptr_ok sk p Hok) as [(i & sk' & I1 & I2 & I3 & E & D1 & D2) | (Hn & E)]; rewrite E.
    + exists sk', p. split; [reflexivity |]. split; [exact D1 |]. rewrite D2, <- (remove_first_at p (elements sk) i) by (assumption || lia).
      pose proof (step_delete_ptr refused (elements sk) p) as S. replace (existsb (Z.eqb p) (elements sk)) with true in S; [exact S |].
      symmetry. apply existsb_exists. exists p. split; [| apply Z.eqb_refl]. rewrite <- I2. unfold get. apply nth_In. unfold len in Hle. lia.
    + exists sk, 0. split; [reflexivity |]. split; [exact Hok |]. destruct (remove_first_none p _ Hn) as [R1 R2].
      pose proof (step_delete_ptr refused (elements sk) p) as S. now rewrite R1, R2 in S.
  - unfold sk_pop. pose proof (step_pop refused (elements sk)) as S. rewrite Hle in S. destruct (Z.eqb_spec (num sk) 0) as [E0 | E0].
    + exists sk, 0. split; [reflexivity |]. split; [exact Hok |]. rewrite (len_0_nil (elements sk)) in * by lia. unfold take in S. rewrite firstn_nil in S. exact S.
    + destruct Hok as (K1 & K2). destruct (sk_delete_ok sk (num sk - 1) (conj K1 K2) ltac:(lia)) as (sk' & E & D1 & _ & _ & _ & D2).
      exists sk'. eexists. split; [exact E |]. split; [exact D1 |]. rewrite D2. rewrite <- Hle at 2. rewrite remove_at_last by lia. now rewrite Hle.
  - unfold sk_shift. pose proof (step_shift refused (elements sk)) as S. destruct (Z.eqb_spec (num sk) 0) as [E0 | E0].
    + exists sk, 0. split; [reflexivity |]. split; [exact Hok |]. rewrite (len_0_nil (elements sk)) in * by lia. exact S.
    + destruct Hok as (K1 & K2). destruct (sk_delete_ok sk 0 (conj K1 K2) ltac:(lia)) as (sk' & E & D1 & _ & _ & _ & D2).
      exists sk'. eexists. split; [exact E |]. split; [exact D1 |]. rewrite D2. destruct (elements sk) as [| x l]; [cbn in Hle; lia | exact S].
  - unfold sk_zero. destruct (Z.eqb_spec (num sk) 0) as [E0 | E0].
    + exists sk, 0. split; [reflexivity |]. split; [exact Hok |]. rewrite (len_0_nil (elements sk)) by lia. apply step_zero.
    + eexists _, 0. split; [reflexivity |]. destruct Hok as (K1 & K2 & K3). split; [| apply step_zero].
      split; cbn [num num_alloc data]; [lia |]. split; [exact K2 |]. rewrite len_splice; rewrite ?len_repeat; lia.
  - exists sk. eexists. split; [reflexivity |]. split; [exact Hok |]. cbn [sk_value]. rewrite <- Hle. pose proof (step_value refused (elements sk) i) as S.
    destruct (Z.leb_spec (len (elements sk)) i); [exact S |]. unfold elements at 2. now rewrite <- (get_take (data sk) (num sk) i) by lia.
  - cbn [sk_set]. pose proof (step_set refused (elements sk) i v) as S. rewrite Hle in S. destruct (Z.leb_spec (num sk) i).
    + exists sk, 0. split; [reflexivity |]. split; [exact Hok | exact S].
    + destruct Hok as (K1 & K2 & K3). eexists _, v. split; [reflexivity |]. split.
      * split; cbn [num num_alloc data with_data]; [lia |]. split; [exact K2 |]. rewrite len_set; lia.
      * unfold elements at 2. cbn [num data with_data]. rewrite set_elements by lia. exact S.
Qed.

Lemma sk_performs_ok ops : forall sk, shape_ok sk -> Forall index_ok ops ->
  exists sk' rs, performs alloc_ok uninit ops (Some sk) = (rs, Some sk') /\ shape_ok sk' /\ list_run refused (elements sk) ops rs (elements sk').
Proof.
  induction ops as [| op ops IH]; intros sk Hok Hi; cbn [performs].
  - exists sk, []. split; [reflexivity |]. split; [exact Hok | constructor].
  - inversion_clear Hi as [| ? ? H1 H2]. destruct (sk_perform_ok op sk Hok H1) as (s1 & r & -> & S1 & L1).
    destruct (IH s1 S1 H2) as (s2 & rs & -> & S2 & L2). exists s2, (r :: rs). split; [reflexivity |]. split; [exact S2 |].
    econstructor; eassumption.
Qed.
End Steps.

(** ** The properties *)


(** Searching with a comparison function that is a total preorder returns
    the first index, in the sorted order, of an element equal to the key, and
    nothing exactly when no element is equal; the elements are permuted into
    that order and marked sorted. *)
Lemma sk_find_first call qsort bsearch sk p : CLibrary qsort bsearch -> stack_ok call sk ->
  comp sk <> 0 -> p <> 0 -> preorder (call (comp sk)) ->
  exists sk', snd (sk_find call qsort bsearch (Some sk) p) = Some sk' /\ stack_ok call sk' /\ sorted sk' = true /\
    Permutation (elements sk') (elements sk) /\
    match fst (sk_find call qsort bsearch (Some sk) p) with
    | Some i => 0 <= i < num sk' /\ call (comp sk) p (get (elements sk') i) = 0 /\
        forall j, 0 <= j < i -> call (comp sk) p (get (elements sk') j) <> 0
    | None => Forall (fun x => call (comp sk) p x <> 0) (elements sk)
    end.
Proof. intros CL. now apply find_ok. Qed.

(** A deep copy is all or nothing: either every element is copied, in order,
    NULL staying NULL, into a new stack, or the first failure frees exactly the
    copies made before it (and none when the array itself cannot be had). *)
Lemma sk_deep_copy_all_or_nothing alloc_ok uninit (X : Type) (copy_func : X -> Z -> Z * X) sk x :
  (forall n, 0 <= n -> len (uninit n) = n) -> shape_ok sk ->
  match sk_dup alloc_ok uninit (Some sk), copies copy_func (elements sk) x with
  | None, _ => sk_deep_copy alloc_ok uninit copy_func (Some sk) x = (inr [], x)
  | Some _, (inl l, x') =>
      exists sk', sk_deep_copy alloc_ok uninit copy_func (Some sk) x = (inl sk', x') /\ shape_ok sk' /\ elements sk' = l
  | Some _, (inr made, x') => sk_deep_copy alloc_ok uninit copy_func (Some sk) x = (inr made, x')
  end.
Proof.
  intros Hu Hok. pose proof (dup_ok alloc_ok uninit Hu sk Hok) as Hd. unfold sk_deep_copy.
  destruct (sk_dup alloc_ok uninit (Some sk)) as [r |]; [| reflexivity].
  destruct Hd as (Hr & He & Hn & _). pose proof (elements_len r Hr) as Hl. rewrite <- He.
  assert (El : Z.to_nat (num r) = length (elements r)) by (unfold len in Hl; lia). rewrite El.
  pose proof (copy_loop_ok copy_func (elements r) (data r) x [] (drop (num r) (data r)) (eq_sym (take_drop (num r) (data r)))) as H.
  change (len (@nil Z)) with 0 in H. rewrite H.
  assert (Lc : forall l x l' x', copies copy_func l x = (inl l', x') -> length l' = length l).
  { induction l as [| p l IH]; intros y l' y' E; cbn [copies] in E; [now injection E as <- <- |].
    destruct (if p =? 0 then _ else _) as [c z]. destruct (_ && _); [discriminate |].
    destruct (copies copy_func l z) as [[k | made] z'] eqn:Ek; [| discriminate]. injection E as <- <-. cbn. now rewrite (IH _ _ _ Ek). }
  destruct (copies copy_func (elements r) x) as [[l | made] x'] eqn:Ec; [| reflexivity]. specialize (Lc _ _ _ _ Ec).
  eexists. split; [reflexivity |]. destruct Hr as (R1 & R2 & R3). assert (Ll : len l = num r) by (unfold len in *; lia).
  split.
  - split; cbn [num num_alloc data with_data]; [lia |]. split; [exact R2 |]. cbn [app]. rewrite len_app, len_drop; lia.
  - unfold elements. cbn [num data with_data app]. apply take_app_exact. lia.
Qed.

(** ** A concrete C library *)

Fixpoint insert_sorted (cmp : Z -> Z -> Z) (x : Z) (l : list Z) : list Z :=
  match l with
  | [] => [x]
  | y :: l => if cmp x y <=? 0 then x :: y :: l else y :: insert_sorted cmp x l
  end.
Definition insertion_sort (cmp : Z -> Z -> Z) (l : list Z) : list Z := fold_right (insert_sorted cmp) [] l.

Fixpoint halving (fuel : nat) (cmp : Z -> Z -> Z) (key : Z) (l : list Z) (lo hi : Z) : option Z :=
  match fuel with
  | O => None
  | S fuel =>
      if hi <=? lo then None else
      let mid := (lo + hi) / 2 in
      let c := cmp key (get l mid) in
      if c =? 0 then Some mid else
      if c <? 0 then halving fuel cmp key l lo mid else halving fuel cmp key l (mid + 1) hi
  end.
Definition binary_search (cmp : Z -> Z -> Z) (key : Z) (l : list Z) : option Z := halving (S (length l)) cmp key l 0 (len l).

Lemma insert_sorted_ok cmp x l : preorder cmp -> ascending cmp l ->
  Permutation (insert_sorted cmp x l) (x :: l) /\ ascending cmp (insert_sorted cmp x l).
Proof.
  intros Hp S. induction S as [| y l S IH Hy]; cbn [insert_sorted]; [split; [reflexivity | repeat constructor] |].
  destruct (Z.leb_spec (cmp x y) 0) as [H | H].
  - split; [reflexivity |]. constructor; [now constructor |]. constructor; [exact H |].
    eapply Forall_impl; [| exact Hy]. intros z Hz. now apply (cmp_trans cmp Hp x y z).
  - destruct IH as [P S']. split; [rewrite P; apply perm_swap |]. constructor; [exact S' |].
    apply (Permutation_Forall (Permutation_sym P)). constructor; [| exact Hy]. apply (cmp_swap cmp Hp). lia.
Qed.

Lemma halving_ok cmp key l : preorder cmp -> ascending cmp l -> forall fuel lo hi, 0 <= lo -> hi <= len l -> hi - lo < Z.of_nat fuel ->
  (forall i, 0 <= i < lo -> cmp key (get l i) <> 0) -> (forall i, hi <= i < len l -> cmp key (get l i) <> 0) ->
  match halving fuel cmp key l lo hi with
  | Some i => 0 <= i < len l /\ cmp key (get l i) = 0
  | None => forall i, 0 <= i < len l -> cmp key (get l i) <> 0
  end.
Proof.
  intros Hp S. induction fuel as [| fuel IH]; intros lo hi Hlo Hhi Hf Hl Hr; cbn [halving].
  { intros i Hi. destruct (Z.lt_ge_cases i lo); [apply Hl | apply Hr]; lia. }
  destruct (Z.leb_spec hi lo).
  - intros i Hi. destruct (Z.lt_ge_cases i lo); [apply Hl | apply Hr]; lia.
  - assert (Hm : lo <= (lo + hi) / 2 < hi) by (Z.to_euclidean_division_equations; lia). set (mid := (lo + hi) / 2) in *. clearbody mid.
    destruct (Z.eqb_spec (cmp key (get l mid)) 0) as [E | E]; [split; [lia | exact E] |].
    assert (Hle : forall a b, 0 <= a <= b -> b < len l -> cmp (get l a) (get l b) <= 0).
    { intros a b Hab Hb. destruct (Z.eq_dec a b) as [-> |]; [| apply (ascending_le cmp l a b Hp S); lia].
      destruct (Z.le_gt_cases (cmp (get l b) (get l b)) 0); [assumption |]. apply (cmp_swap cmp Hp). lia. }
    destruct (Z.ltb_spec (cmp key (get l mid)) 0) as [Hc | Hc].
    + apply IH; try assumption; try lia. intros i Hi E'. destruct (Z.le_gt_cases (cmp (get l mid) key) 0) as [G | G].
      * apply (cmp_swap cmp Hp) in G. lia.
      * assert (cmp (get l mid) key <= 0); [| lia]. apply (cmp_trans cmp Hp _ (get l i)); [apply Hle; lia |].
        apply (cmp_swap cmp Hp). lia.
    + apply IH; try assumption; try lia. intros i Hi E'. assert (cmp key (get l mid) <= 0); [| lia].
      apply (cmp_trans cmp Hp _ (get l i)); [lia | apply Hle; lia].
Qed.

#[export] Instance toy_library : CLibrary insertion_sort binary_search.
Proof.
  assert (Sort : forall cmp l, preorder cmp -> Permutation (insertion_sort cmp l) l /\ ascending cmp (insertion_sort cmp l)).
  { intros cmp l Hp. induction l as [| x l [P S]]; [split; [reflexivity | constructor] |].
    destruct (insert_sorted_ok cmp x _ Hp S) as [P' S']. split; [| exact S']. cbn. now rewrite P', P. }
  assert (Search : forall cmp key l, preorder cmp -> ascending cmp l -> match binary_search cmp key l with
    | Some i => 0 <= i < len l /\ cmp key (get l i) = 0 | None => forall i, 0 <= i < len l -> cmp key (get l i) <> 0 end).
  { intros cmp key l Hp S. apply (halving_ok cmp key l Hp S); unfold len; lia. }
  split.
  - intros cmp l Hp. apply Sort, Hp.
  - intros cmp l Hp. apply Sort, Hp.
  - intros cmp key l i Hp S E. specialize (Search cmp key l Hp S). now rewrite E in Search.
  - intros cmp key l Hp S E. specialize (Search cmp key l Hp S). rewrite E in Search. apply Forall_forall. intros x Hx.
    destruct (In_nth l x 0 Hx) as (i & Hi & <-). specialize (Search (Z.of_nat i)). unfold get in Search. rewrite Nat2Z.id in Search.
    apply Search. unfold len. lia.
Qed.

(** Elements compared by their addresses. *)
Definition by_address (_ x y : Z) : Z := x - y.
Definition junk (n : Z) : list Z := repeat 170 (Z.to_nat n).
Definition small : _STACK := mk_stack 3 [50; 10; 30; 0] false 4 99.

Lemma small_ok : shape_ok small.
Proof. repeat split; vm_compute; discriminate || reflexivity. Qed.

Lemma junk_len n : 0 <= n -> len (junk n) = n.
Proof. intros. unfold junk. rewrite len_repeat. lia. Qed.

Lemma by_address_preorder f : preorder (by_address f).
Proof. split; unfold by_address; intros; lia. Qed.

Example find_run : sk_find by_address insertion_sort binary_search (Some small) 30 = (Some 1, Some (mk_stack 3 [10; 30; 50; 0] true 4 99)).
Proof. reflexivity. Qed.



(** C36: [sk_set] may break the order of a sorted stack without clearing its
    [sorted] flag, and a later search then misses an element that is there. *)
Lemma sk_set_keeps_sorted :
  let sk := Some (mk_stack 3 [10; 30; 50; 0] true 4 99) in
  let sk' := snd (sk_set sk 0 70) in
  sk_is_sorted sk' = true /\ sk_value sk' 0 = 70 /\
  sk_find by_address insertion_sort binary_search sk' 70 = (None, sk') /\
  stack_ok by_address (mk_stack 3 [10; 30; 50; 0] true 4 99) /\ ~ ascending (by_address 99) [70; 30; 50].
Proof.
  split; [reflexivity |]. split; [reflexivity |]. split; [reflexivity |]. split.
  - split; [repeat split; vm_compute; discriminate || reflexivity |]. intros _.
    repeat constructor; cbn; unfold by_address; lia.
  - intros S. apply StronglySorted_inv in S as [_ S]. inversion_clear S as [| ? ? H _]. unfold by_address in H. lia.
Qed.

(** Searching with a comparison function that is a total preorder returns the first index, in the sorted order, of an element equal to the key, and nothing exactly when no element is equal; the elements are permuted into that order and marked sorted. After [sk_set] that mark can be wrong, and a search misses an element that is there. *)
Lemma sk_find_exact :
  (forall call qsort bsearch sk p,
    CLibrary qsort bsearch -> stack_ok call sk ->
      comp sk <> 0 -> p <> 0 -> preorder (call (comp sk)) ->
      exists sk', snd (sk_find call qsort bsearch (Some sk) p) = Some sk' /\ stack_ok call sk' /\ sorted sk' = true /\
        Permutation (elements sk') (elements sk) /\
        match fst (sk_find call qsort bsearch (Some sk) p) with
        | Some i => 0 <= i < num sk' /\ call (comp sk) p (get (elements sk') i) = 0 /\
            forall j, 0 <= j < i -> call (comp sk) p (get (elements sk') j) <> 0
        | None => Forall (fun x => call (comp sk) p x <> 0) (elements sk)
        end) /\
  (let sk := Some (mk_stack 3 [10; 30; 50; 0] true 4 99) in
      let sk' := snd (sk_set sk 0 70) in
      sk_is_sorted sk' = true /\ sk_value sk' 0 = 70 /\
      sk_find by_address insertion_sort binary_search sk' 70 = (None, sk') /\
      stack_ok by_address (mk_stack 3 [10; 30; 50; 0] true 4 99) /\ ~ ascending (by_address 99) [70; 30; 50]).
Proof. split; [exact (@sk_find_first) | exact (@sk_set_keeps_sorted)]. Qed.

(** C22: searching and copying a stack. Searching with a comparison function that
    is a total preorder returns the first index, in the sorted order, of an element
    equal to the key, and nothing exactly when no element is equal; the elements are
    permuted into that order and marked sorted. After [sk_set] that mark can be
    wrong, and a search misses an element that is there. A deep copy is all or
    nothing: every element is copied, in order, NULL staying NULL, into a new stack,
    or the first failure frees exactly the copies made before it (and none when the
    array itself cannot be had). *)
Theorem sk_search_and_copy :
  ((forall call qsort bsearch sk p,
        CLibrary qsort bsearch -> stack_ok call sk ->
          comp sk <> 0 -> p <> 0 -> preorder (call (comp sk)) ->
          exists sk', snd (sk_find call qsort bsearch (Some sk) p) = Some sk' /\ stack_ok call sk' /\ sorted sk' = true /\
            Permutation (elements sk') (elements sk) /\
            match fst (sk_find call qsort bsearch (Some sk) p) with
            | Some i => 0 <= i < num sk' /\ call (comp sk) p (get (elements sk') i) = 0 /\
                forall j, 0 <= j < i -> call (comp sk) p (get (elements sk') j) <> 0
            | None => Forall (fun x => call (comp sk) p x <> 0) (elements sk)
            end) /\
      (let sk := Some (mk_stack 3 [10; 30; 50; 0] true 4 99) in
          let sk' := snd (sk_set sk 0 70) in
          sk_is_sorted sk' = true /\ sk_value sk' 0 = 70 /\
          sk_find by_address insertion_sort binary_search sk' 70 = (None, sk') /\
          stack_ok by_address (mk_stack 3 [10; 30; 50; 0] true 4 99) /\ ~ ascending (by_address 99) [70; 30; 50])) /\
  (forall alloc_ok uninit (X : Type) (copy_func : X -> Z -> Z * X) sk x,
    (forall n, 0 <= n -> len (uninit n) = n) -> shape_ok sk ->
      match sk_dup alloc_ok uninit (Some sk), copies copy_func (elements sk) x with
      | None, _ => sk_deep_copy alloc_ok uninit copy_func (Some sk) x = (inr [], x)
      | Some _, (inl l, x') =>
          exists sk', sk_deep_copy alloc_ok uninit copy_func (Some sk) x = (inl sk', x') /\ shape_ok sk' /\ elements sk' = l
      | Some _, (inr made, x') => sk_deep_copy alloc_ok uninit copy_func (Some sk) x = (inr made, x')
      end).
Proof. split; [exact (@sk_find_exact) | exact (@sk_deep_copy_all_or_nothing)]. Qed.

Lemma sk_search_and_copy_witness :
  ((exists sk', snd (sk_find by_address insertion_sort binary_search (Some small) 30) = Some sk' /\ stack_ok by_address sk' /\
        sorted sk' = true /\ Permutation (elements sk') [50; 10; 30] /\
        match fst (sk_find by_address insertion_sort binary_search (Some small) 30) with
        | Some i => 0 <= i < num sk' /\ by_address 99 30 (get (elements sk') i) = 0 /\
            forall j, 0 <= j < i -> by_address 99 30 (get (elements sk') j) <> 0
        | None => Forall (fun x => by_address 99 30 x <> 0) [50; 10; 30]
        end)) /\
  (sk_deep_copy (fun _ => true) junk (fun n p => (if n =? 2 then 0 else p + 1, n + 1)) (Some small) 0 = (inr [51; 11], 3)).
Proof.
  split.
  { apply (proj1 (proj1 sk_search_and_copy) by_address insertion_sort binary_search small 30).
      - exact toy_library.
      - split; [exact small_ok | discriminate].
      - discriminate.
      - discriminate.
      - apply by_address_preorder. }
  { exact (proj2 sk_search_and_copy (fun _ => true) junk Z (fun n p => (if n =? 2 then 0 else p + 1, n + 1)) small 0 junk_len small_ok). }
Defined.
