(* ===== verification/Buf.v ===== *)
(** * Growing buffers and bounded string functions (crypto/buf/buf.c)

    A C string is a list whose characters before the first 0 are the string;
    reading past the end of the list is [None]. *)

From S2P Require Import Prelude Buffers.

Record BUF_MEM := mk_buf_mem { length_ : Z; bdata : list Z; max : Z }.

Section Buf.
Variable alloc_ok : Z -> bool.             (* a request of so many bytes succeeds *)
Variable uninit : Z -> list Z.             (* so many bytes of fresh memory *)

(** OPENSSL_realloc to [n] bytes, of which the old ones are kept. *)
Definition realloc_bytes (d : list Z) (n : Z) : option (list Z) :=
  if alloc_ok n then Some (take n d ++ drop (len d) (uninit n)) else None.

Definition BUF_MEM_new : option BUF_MEM := if alloc_ok 24 then Some (mk_buf_mem 0 [] 0) else None.

Definition BUF_MEM_reserve (buf : BUF_MEM) (cap : Z) : bool * BUF_MEM :=
  if cap <=? max buf then (true, buf) else
  let n := u64 (cap + 3) in
  if n <? cap then (false, buf) else
  let n := n / 3 in
  let alloc_size := u64 (n * 4) in
  if negb (alloc_size / 4 =? n) then (false, buf) else
  match realloc_bytes (bdata buf) alloc_size with
  | None => (false, buf)
  | Some new_buf => (true, mk_buf_mem (length_ buf) new_buf alloc_size)
  end.

Definition BUF_MEM_grow (buf : BUF_MEM) (n : Z) : Z * BUF_MEM :=
  let (ok, buf) := BUF_MEM_reserve buf n in
  if negb ok then (0, buf) else
  let d := if length_ buf <? n then splice (bdata buf) (length_ buf) (repeat 0 (Z.to_nat (n - length_ buf))) else bdata buf in
  (n, mk_buf_mem n d (max buf)).

Definition BUF_MEM_grow_clean (buf : BUF_MEM) (n : Z) : Z * BUF_MEM := BUF_MEM_grow buf n.

(** The loop of BUF_strnlen, [i] characters done. *)
Fixpoint strnlen_loop (str : list Z) (i max_len : Z) : option Z :=
  if max_len <=? i then Some i else
  match str with
  | [] => None
  | c :: str => if c =? 0 then Some i else strnlen_loop str (i + 1) max_len
  end.
Definition BUF_strnlen (str : list Z) (max_len : Z) : option Z := strnlen_loop str 0 max_len.

(** strlen *)
Fixpoint strlen (str : list Z) : option Z :=
  match str with
  | [] => None
  | c :: str => if c =? 0 then Some 0 else option_map (Z.add 1) (strlen str)
  end.

(** The copy with its NUL; the inner [None] is a NULL return. *)
Definition BUF_strndup (str : option (list Z)) (size : Z) : option (option (list Z)) :=
  match str with
  | None => Some None
  | Some str =>
      let* size := BUF_strnlen str size in
      let alloc_size := u64 (size + 1) in
      if alloc_size <? size then Some None else
      if negb (alloc_ok alloc_size) then Some None else
      Some (Some (set (splice (uninit alloc_size) 0 (take size str)) size 0))
  end.

Definition BUF_strdup (str : option (list Z)) : option (option (list Z)) :=
  match str with
  | None => Some None
  | Some s => let* n := strlen s in BUF_strndup str n
  end.

(** The copying loop: what is left of [src], the buffer, the position in it, what
    is left of [dst_size], and the count. *)
Fixpoint strlcpy_loop (src dst : list Z) (pos dst_size l : Z) : option (list Z * list Z * Z * Z * Z) :=
  match src with
  | [] => None
  | c :: src' =>
      if (1 <? dst_size) && negb (c =? 0) then strlcpy_loop src' (set dst pos c) (pos + 1) (dst_size - 1) (l + 1)
      else Some (src, dst, pos, dst_size, l)
  end.

(** Writing at [dst + pos]. *)
Definition strlcpy_at (dst : list Z) (pos : Z) (src : list Z) (dst_size : Z) : option (Z * list Z) :=
  let* r := strlcpy_loop src dst pos dst_size 0 in
  let '(src, dst, pos, dst_size, l) := r in
  let dst := if negb (dst_size =? 0) then set dst pos 0 else dst in
  let* n := strlen src in
  Some (u64 (l + n), dst).

Definition BUF_strlcpy (dst src : list Z) (dst_size : Z) : option (Z * list Z) := strlcpy_at dst 0 src dst_size.

(** The loop of BUF_strlcat over what [dst] holds. *)
Fixpoint strlcat_loop (rest : list Z) (dst_size l : Z) : option (Z * Z) :=
  if dst_size <=? 0 then Some (dst_size, l) else
  match rest with
  | [] => None
  | c :: rest => if c =? 0 then Some (dst_size, l) else strlcat_loop rest (dst_size - 1) (l + 1)
  end.

Definition BUF_strlcat (dst src : list Z) (dst_size : Z) : option (Z * list Z) :=
  let* r := strlcat_loop dst dst_size 0 in
  let '(dst_size, l) := r in
  let* r := strlcpy_at dst l src dst_size in
  Some (u64 (l + fst r), snd r).

Definition BUF_memdup (data : list Z) (size : Z) : option (list Z) :=
  if size =? 0 then None else
  if negb (alloc_ok size) then None else
  Some (splice (uninit size) 0 (take size data)).
End Buf.

(** ** Facts *)

(** [s] is the string at the front of [m]. *)
Definition c_string (m s : list Z) : Prop := Forall (fun c => c <> 0) s /\ exists rest, m = s ++ 0 :: rest.

Lemma strlen_ok s rest : Forall (fun c => c <> 0) s -> strlen (s ++ 0 :: rest) = Some (len s).
Proof.
  induction 1 as [| c s Hc _ IH]; [reflexivity |]. cbn [app strlen]. rewrite (proj2 (Z.eqb_neq c 0) Hc), IH. cbn [option_map].
  now rewrite len_cons.
Qed.

Lemma strnlen_ok s rest n : Forall (fun c => c <> 0) s -> forall i, 0 <= i ->
  strnlen_loop (s ++ 0 :: rest) i n = Some (Z.max i (Z.min n (i + len s))).
Proof.
  induction 1 as [| c s Hc _ IH]; intros i Hi; cbn [app strnlen_loop].
  - change (len []) with 0. rewrite Z.eqb_refl. destruct (Z.leb_spec n i); f_equal; lia.
  - pose proof (len_nonneg s). rewrite len_cons. destruct (Z.leb_spec n i); [f_equal; lia |].
    rewrite (proj2 (Z.eqb_neq c 0) Hc), IH by lia. f_equal. lia.
Qed.

(** [s] is what a bounded scan of [m] for [n] characters goes over: a string with
    its NUL, or at least [n] characters that are not NUL. *)
Definition scanned (s rest : list Z) (n : Z) : Prop :=
  Forall (fun c => c <> 0) s /\ (n <= len s \/ exists r, rest = 0 :: r).

Lemma strnlen_scanned s rest n : scanned s rest n -> 0 <= n -> BUF_strnlen (s ++ rest) n = Some (Z.min n (len s)).
Proof.
  intros [Hs Hr] Hn. unfold BUF_strnlen. pose proof (len_nonneg s). destruct Hr as [Hr | [r ->]].
  2: { rewrite strnlen_ok by (trivial; lia). f_equal. lia. }
  assert (G : forall i, n - i <= len s -> 0 <= i <= n -> strnlen_loop (s ++ rest) i n = Some n).
  { clear Hr. induction Hs as [| c l Hc _ IH]; intros i Hi Hin; cbn [app].
    - change (len []) with 0 in Hi. replace i with n by lia. destruct rest; cbn [strnlen_loop]; now rewrite Z.leb_refl.
    - rewrite len_cons in Hi. cbn [strnlen_loop]. destruct (Z.leb_spec n i); [f_equal; lia |].
      rewrite (proj2 (Z.eqb_neq c 0) Hc). apply IH; [apply len_nonneg | lia | lia]. }
  rewrite G by lia. f_equal. lia.
Qed.

Lemma strlcpy_loop_ok s rest : Forall (fun c => c <> 0) s -> forall a b pos n l, len a = pos -> n <= len b ->
  let k := Z.max 0 (Z.min (n - 1) (len s)) in
  strlcpy_loop (s ++ 0 :: rest) (a ++ b) pos n l =
    Some (drop k s ++ 0 :: rest, a ++ take k s ++ drop k b, pos + k, n - k, l + k).
Proof.
  induction 1 as [| c s Hc _ IH]; intros a b pos n l Ha Hb; cbn [app strlcpy_loop].
  - change (len []) with 0. rewrite andb_false_r. replace (Z.max 0 (Z.min (n - 1) 0)) with 0 by lia. cbn zeta.
    rewrite !take_0, !drop_0, !Z.add_0_r, Z.sub_0_r. reflexivity.
  - pose proof (len_nonneg s). rewrite (proj2 (Z.eqb_neq c 0) Hc), len_cons, andb_true_r. destruct (Z.ltb_spec 1 n).
    + destruct b as [| x b]; [cbn in Hb; lia |]. rewrite len_cons in Hb.
      assert (Es : set (a ++ x :: b) pos c = (a ++ [c]) ++ b).
      { unfold set, splice. rewrite take_app_exact by lia. change (len [c]) with 1.
        rewrite drop_app_r by lia. replace (pos + 1 - len a) with 1 by lia. now rewrite <- app_assoc. }
      rewrite Es, IH by (rewrite ?len_app; change (len [c]) with 1; lia).
      set (k := Z.max 0 (Z.min (n - 1 - 1) (len s))). replace (Z.max 0 (Z.min (n - 1) (1 + len s))) with (k + 1) by lia.
      cbn zeta. rewrite !drop_cons by lia. replace (k + 1 - 1) with k by lia.
      assert (Et : take (k + 1) (c :: s) = c :: take k s) by (unfold take; replace (Z.to_nat (k + 1)) with (S (Z.to_nat k)) by lia; reflexivity).
      rewrite Et, <- app_assoc. cbn [app].
      replace (pos + 1 + k) with (pos + (k + 1)) by lia. replace (n - 1 - k) with (n - (k + 1)) by lia.
      replace (l + 1 + k) with (l + (k + 1)) by lia. reflexivity.
    + replace (Z.max 0 (Z.min (n - 1) (1 + len s))) with 0 by lia. cbn zeta.
      rewrite !take_0, !drop_0, !Z.add_0_r, Z.sub_0_r. reflexivity.
Qed.

Lemma forall_drop {A} (P : A -> Prop) n l : Forall P l -> Forall P (drop n l).
Proof. intros H. rewrite <- (take_drop n l) in H. now apply Forall_app in H. Qed.

(** Writing a string after [a]: as much of it as fits, always with its NUL. *)
Lemma strlcpy_at_ok a b s rest n : Forall (fun c => c <> 0) s -> 0 <= n <= len b -> len s < 2 ^ 64 ->
  strlcpy_at (a ++ b) (len a) (s ++ 0 :: rest) n =
    Some (len s, if n =? 0 then a ++ b else let k := Z.min (n - 1) (len s) in a ++ take k s ++ 0 :: drop (k + 1) b).
Proof.
  intros Hs Hn Hl. pose proof (len_nonneg s). unfold strlcpy_at. rewrite (strlcpy_loop_ok s rest Hs a b (len a) n 0 eq_refl ltac:(lia)).
  set (k := Z.max 0 (Z.min (n - 1) (len s))). cbv beta iota zeta. rewrite strlen_ok by now apply forall_drop.
  rewrite len_drop by lia. rewrite (wrap_small 64) by lia. replace (0 + k + (len s - k)) with (len s) by lia. do 2 f_equal.
  destruct (Z.eqb_spec n 0) as [-> | Hn0].
  - assert (Hk : k = 0) by lia. rewrite Hk, take_0, drop_0. reflexivity.
  - destruct (Z.eqb_spec (n - k) 0); [lia |]. cbn [negb]. cbv zeta. replace (Z.min (n - 1) (len s)) with k by lia.
    assert (Lk : len (take k s) = k) by (rewrite len_take; lia).
    rewrite app_assoc. unfold set, splice. rewrite take_app_exact by (rewrite len_app; lia).
    change (len [0]) with 1. rewrite drop_app_r by (rewrite len_app; lia).
    replace (len a + k + 1 - len (a ++ take k s)) with 1 by (rewrite len_app; lia).
    rewrite drop_drop by lia. now rewrite <- app_assoc.
Qed.

Lemma strlcat_loop_ok s rest n : Forall (fun c => c <> 0) s -> forall l, 0 <= n -> 0 <= l ->
  strlcat_loop (s ++ 0 :: rest) n l = Some (n - Z.min n (len s), l + Z.min n (len s)).
Proof.
  intros Hs. revert n. induction Hs as [| c s Hc _ IH]; intros n l Hn Hl; cbn [app strlcat_loop].
  - change (len []) with 0. rewrite Z.min_r, Z.sub_0_r, Z.add_0_r by lia. rewrite Z.eqb_refl. now destruct (n <=? 0).
  - pose proof (len_nonneg s). rewrite len_cons. destruct (Z.leb_spec n 0).
    + replace n with 0 by lia. rewrite Z.min_l by lia. now rewrite Z.sub_0_r, Z.add_0_r.
    + rewrite (proj2 (Z.eqb_neq c 0) Hc), IH by lia.
      replace (n - 1 - Z.min (n - 1) (len s)) with (n - Z.min n (1 + len s)) by lia.
      replace (l + 1 + Z.min (n - 1) (len s)) with (l + Z.min n (1 + len s)) by lia. reflexivity.
Qed.

(** No NUL among the first [n] characters. *)
Lemma strlcat_loop_full s rest n : Forall (fun c => c <> 0) s -> len s = n -> forall l,
  strlcat_loop (s ++ rest) n l = Some (0, l + n).
Proof.
  intros Hs. revert n. induction Hs as [| c s Hc _ IH]; intros n Hn l; cbn [app].
  - change (len []) with 0 in Hn. subst n. rewrite Z.add_0_r. now destruct rest.
  - pose proof (len_nonneg s). rewrite len_cons in Hn. cbn [strlcat_loop]. destruct (Z.leb_spec n 0); [lia |].
    rewrite (proj2 (Z.eqb_neq c 0) Hc), IH by lia. do 2 f_equal. lia.
Qed.

(** Copying a whole prefix into fresh memory. *)
Lemma splice_front (d x : list Z) : len x <= len d -> splice d 0 x = x ++ drop (len x) d.
Proof. intros H. unfold splice. rewrite take_0. cbn [app]. now rewrite Z.add_0_l. Qed.

Section Growing.
Variable alloc_ok : Z -> bool.
Variable uninit : Z -> list Z.
Hypothesis uninit_len : forall n, 0 <= n -> len (uninit n) = n.

Definition buf_ok (b : BUF_MEM) : Prop := 0 <= length_ b <= max b /\ max b < 2 ^ 64 /\ len (bdata b) = max b.

Lemma buf_reserve_ok b cap : buf_ok b -> 0 <= cap < 2 ^ 64 ->
  let (ok, b') := BUF_MEM_reserve alloc_ok uninit b cap in
  if ok then buf_ok b' /\ cap <= max b' /\ max b <= max b' /\ length_ b' = length_ b /\ take (length_ b) (bdata b') = take (length_ b) (bdata b)
  else b' = b /\ max b < cap /\ exists n, cap <= n /\ (alloc_ok n = false \/ 2 ^ 64 <= n).
Proof.
  intros (H1 & H2 & H3) Hc. unfold BUF_MEM_reserve. destruct (Z.leb_spec cap (max b)); [repeat split; lia |].
  destruct (Z.ltb_spec (u64 (cap + 3)) cap) as [Hw | Hw].
  { split; [reflexivity |]. split; [lia |]. exists ((cap + 3) / 3 * 4). split; [word_lia |]. right.
    destruct (Z.lt_ge_cases (cap + 3) (2 ^ 64)); [rewrite (wrap_small 64) in Hw by lia; lia |]. zconst. Z.to_euclidean_division_equations. lia. }
  assert (Hs : u64 (cap + 3) = cap + 3) by (apply wrap_small; destruct (Z.lt_ge_cases (cap + 3) (2 ^ 64)); [lia |];
    assert (u64 (cap + 3) = cap + 3 - 2 ^ 64) by (unfold wrap; symmetry; apply Z.mod_unique with 1; zconst; lia); lia).
  rewrite Hs. set (n := (cap + 3) / 3). assert (Hn : cap <= n * 4 /\ 0 < n < 2 ^ 63) by (unfold n; zconst; Z.to_euclidean_division_equations; lia).
  clearbody n. destruct (Z.eqb_spec (u64 (n * 4) / 4) n) as [E | E]; cbn [negb].
  - assert (Hb : n * 4 < 2 ^ 64).
    { destruct (Z.lt_ge_cases (n * 4) (2 ^ 64)); [assumption |]. exfalso. revert E. pose proof (wrap_range 64 (n * 4) ltac:(lia)).
      zconst. Z.to_euclidean_division_equations. lia. }
    rewrite (wrap_small 64 (n * 4)) by lia. unfold realloc_bytes. destruct (alloc_ok (n * 4)) eqn:Ea.
    + assert (Lt : len (take (n * 4) (bdata b)) = max b) by (rewrite take_all by lia; exact H3).
      unfold buf_ok. cbn [length_ bdata max]. split; [split; [lia | split; [lia |]] |].
      * rewrite len_app, Lt, len_drop by (rewrite uninit_len; lia). rewrite uninit_len; lia.
      * split; [lia |]. split; [lia |]. split; [reflexivity |]. rewrite take_app_l by lia. apply take_take. lia.
    + split; [reflexivity |]. split; [lia |]. exists (n * 4). split; [lia | now left].
  - split; [reflexivity |]. split; [lia |]. exists (n * 4). split; [lia |]. right.
    destruct (Z.lt_ge_cases (n * 4) (2 ^ 64)); [| assumption]. exfalso. apply E. rewrite (wrap_small 64) by lia. apply Z.div_mul. lia.
Qed.

Lemma buf_grow_ok b n : buf_ok b -> 0 <= n < 2 ^ 64 ->
  let (r, b') := BUF_MEM_grow alloc_ok uninit b n in
  (r = n /\ buf_ok b' /\ length_ b' = n /\ max b <= max b' /\
   take n (bdata b') = take n (take (length_ b) (bdata b) ++ repeat 0 (Z.to_nat (n - length_ b)))) \/
  (r = 0 /\ b' = b /\ max b < n /\ exists m, n <= m /\ (alloc_ok m = false \/ 2 ^ 64 <= m)).
Proof.
  intros Hb Hn. unfold BUF_MEM_grow. pose proof (buf_reserve_ok b n Hb Hn) as H. destruct (BUF_MEM_reserve alloc_ok uninit b n) as [ok b'].
  destruct ok; cbn [negb]; [left | now right]. destruct H as ((R1 & R2 & R3) & Hm & Hk & El & Et). split; [reflexivity |]. rewrite El in *.
  destruct (Z.ltb_spec (length_ b) n) as [Hl | Hl].
  - assert (Ls : len (splice (bdata b') (length_ b) (repeat 0 (Z.to_nat (n - length_ b)))) = max b')
      by (rewrite len_splice; rewrite ?len_repeat; lia).
    split; [split; cbn [length_ bdata max]; lia |]. split; [reflexivity |]. split; [exact Hk |]. cbn [bdata]. rewrite <- Et.
    replace n with (length_ b + len (repeat 0 (Z.to_nat (n - length_ b)))) at 1 by (rewrite len_repeat; lia).
    rewrite take_splice by (rewrite ?len_repeat; lia). symmetry. apply take_all.
    rewrite len_app, len_take, len_repeat; lia.
  - split; [split; cbn [length_ bdata max]; lia |]. split; [reflexivity |]. split; [exact Hk |]. cbn [bdata]. rewrite <- Et.
    assert (L1 : len (take (length_ b) (bdata b')) = length_ b) by (apply len_take; lia).
    rewrite take_app_l by lia. rewrite take_take by lia. reflexivity.
Qed.

Lemma strndup_ok s rest n : scanned s rest n -> 0 <= n < 2 ^ 64 ->
  let k := Z.min n (len s) in
  BUF_strndup alloc_ok uninit (Some (s ++ rest)) n =
    Some (if (k + 1 <? 2 ^ 64) && alloc_ok (k + 1) then Some (take k s ++ [0]) else None).
Proof.
  intros Hs Hn k. pose proof (len_nonneg s). unfold BUF_strndup. rewrite (strnlen_scanned s rest n Hs) by lia. fold k. cbv beta iota.
  destruct (Z.ltb_spec (k + 1) (2 ^ 64)) as [Hk | Hk]; cbn [andb].
  2: { assert (E : k = 2 ^ 64 - 1) by lia. rewrite E. reflexivity. }
  rewrite (wrap_small 64) by lia. cbv zeta. destruct (Z.ltb_spec (k + 1) k); [lia |]. destruct (alloc_ok (k + 1)); cbn [negb]; [| reflexivity].
  do 2 f_equal. rewrite take_app_l by lia.
  assert (Lk : len (take k s) = k) by (apply len_take; lia). pose proof (uninit_len (k + 1) ltac:(lia)) as Lu.
  rewrite splice_front by lia. unfold set, splice. rewrite take_app_exact by lia. change (len [0]) with 1.
  rewrite drop_all by (rewrite len_app, len_drop; lia). now rewrite app_nil_r.
Qed.

Lemma strdup_ok s rest : Forall (fun c => c <> 0) s -> len s < 2 ^ 64 ->
  BUF_strdup alloc_ok uninit (Some (s ++ 0 :: rest)) =
    Some (if (len s + 1 <? 2 ^ 64) && alloc_ok (len s + 1) then Some (s ++ [0]) else None).
Proof.
  intros Hs Hl. pose proof (len_nonneg s). unfold BUF_strdup. rewrite (strlen_ok s rest Hs). cbv beta iota.
  rewrite strndup_ok by ((split; [exact Hs | left; lia]) || lia). rewrite Z.min_id, take_all by lia. reflexivity.
Qed.

Lemma memdup_ok data n : 0 <= n <= len data ->
  BUF_memdup alloc_ok uninit data n = if (0 <? n) && alloc_ok n then Some (take n data) else None.
Proof.
  intros Hn. unfold BUF_memdup. destruct (Z.eqb_spec n 0) as [-> | Hz]; [reflexivity |]. destruct (Z.ltb_spec 0 n); [cbn [andb] | lia].
  destruct (alloc_ok n); cbn [negb]; [| reflexivity]. f_equal.
  assert (Lt : len (take n data) = n) by (apply len_take; lia). pose proof (uninit_len n ltac:(lia)) as Lu.
  rewrite splice_front, drop_all by lia. apply app_nil_r.
Qed.
End Growing.


