(* ===== verification/ChaCha.v ===== *)
(** * ChaCha20 (chacha/chacha.c)

    The portable cipher and the function of RFC 7539. The RFC works on a matrix
    of four rows: a round applies the quarter round to its columns, and a
    diagonal round is a column round between rotations of the rows; the code
    numbers the words of a flat array. [CRYPTO_chacha_20] asserts that its
    buffers are the same or do not overlap, so that the output is a function of
    the input. *)

From S2P Require Import Prelude Buffers DigestSpec Md32.

(** ** The code *)

Definition U8TO32_LITTLE (p : list Z) : Z :=
  Z.lor (Z.lor (Z.lor (get p 0) (u32 (Z.shiftl (get p 1) 8))) (u32 (Z.shiftl (get p 2) 16))) (u32 (Z.shiftl (get p 3) 24)).

Definition sigma : list Z := [101; 120; 112; 97; 110; 100; 32; 51; 50; 45; 98; 121; 116; 101; 32; 107].

Definition ROTATE (v n : Z) : Z := Z.lor (u32 (Z.shiftl v n)) (Z.shiftr v (32 - n)).

Definition U32TO8_LITTLE (v : Z) : list Z :=
  [Z.land (Z.shiftr v 0) 0xff; Z.land (Z.shiftr v 8) 0xff; Z.land (Z.shiftr v 16) 0xff; Z.land (Z.shiftr v 24) 0xff].

Definition QUARTERROUND (x : list Z) (a b c d : Z) : list Z :=
  let x := set x a (u32 (get x a + get x b)) in let x := set x d (ROTATE (Z.lxor (get x d) (get x a)) 16) in
  let x := set x c (u32 (get x c + get x d)) in let x := set x b (ROTATE (Z.lxor (get x b) (get x c)) 12) in
  let x := set x a (u32 (get x a + get x b)) in let x := set x d (ROTATE (Z.lxor (get x d) (get x a)) 8) in
  let x := set x c (u32 (get x c + get x d)) in set x b (ROTATE (Z.lxor (get x b) (get x c)) 7).

(** The body of the loop: two rounds. *)
Definition code_double_round (x : list Z) : list Z :=
  let x := QUARTERROUND x 0 4 8 12 in
  let x := QUARTERROUND x 1 5 9 13 in
  let x := QUARTERROUND x 2 6 10 14 in
  let x := QUARTERROUND x 3 7 11 15 in
  let x := QUARTERROUND x 0 5 10 15 in
  let x := QUARTERROUND x 1 6 11 12 in
  let x := QUARTERROUND x 2 7 8 13 in
  QUARTERROUND x 3 4 9 14.

Fixpoint core_rounds (fuel : nat) (i : Z) (x : list Z) : list Z :=
  match fuel with
  | O => x
  | S fuel =>
      if 0 <? i then core_rounds fuel (i - 2) (code_double_round x)
      else x
  end.

Definition chacha_core (input : list Z) : list Z :=
  let x := core_rounds 20 20 input in
  let x := map (fun i => u32 (get x (Z.of_nat i) + get input (Z.of_nat i))) (seq 0 16) in
  flat_map U32TO8_LITTLE x.

(** The loop of CRYPTO_chacha_20: what it writes. *)
Fixpoint chacha_loop (fuel : nat) (input inp : list Z) : list Z :=
  match fuel with
  | O => []
  | S fuel =>
      if 0 <? len inp then
        let todo := if len inp <? 64 then len inp else 64 in
        let buf := chacha_core input in
        xor_bytes (take todo inp) (take todo buf) ++
        chacha_loop fuel (set input 12 (u32 (get input 12 + 1))) (drop todo inp)
      else []
  end.

Definition CRYPTO_chacha_20 (inp key nonce : list Z) (counter : Z) : list Z :=
  let word l i := U8TO32_LITTLE (drop i l) in
  let input := [word sigma 0; word sigma 4; word sigma 8; word sigma 12;
                word key 0; word key 4; word key 8; word key 12;
                word key 16; word key 20; word key 24; word key 28;
                counter; word nonce 0; word nonce 4; word nonce 8] in
  chacha_loop (length inp) input inp.

(** ** RFC 7539 *)

Definition plus32 (x y : Z) : Z := u32 (x + y).

Definition quarter (a b c d : Z) : Z * Z * Z * Z :=
  let a := plus32 a b in let d := rotl 32 16 (Z.lxor d a) in
  let c := plus32 c d in let b := rotl 32 12 (Z.lxor b c) in
  let a := plus32 a b in let d := rotl 32 8 (Z.lxor d a) in
  let c := plus32 c d in let b := rotl 32 7 (Z.lxor b c) in
  (a, b, c, d).

(** A matrix by its rows. *)
Definition matrix : Type := list Z * list Z * list Z * list Z.

(** Quarter rounds on the columns of four rows. *)
Fixpoint column_round (A B C D : list Z) : matrix :=
  match A, B, C, D with
  | a :: A, b :: B, c :: C, d :: D =>
      let '(a, b, c, d) := quarter a b c d in
      let '(A, B, C, D) := column_round A B C D in
      (a :: A, b :: B, c :: C, d :: D)
  | _, _, _, _ => ([], [], [], [])
  end.

(** A row rotated to the left by [k]. *)
Definition rotate_row (k : Z) (l : list Z) : list Z := drop k l ++ take k l.

Definition double_round (m : matrix) : matrix :=
  let '(A, B, C, D) := m in
  let '(A, B, C, D) := column_round A B C D in
  let '(A, B, C, D) := column_round A (rotate_row 1 B) (rotate_row 2 C) (rotate_row 3 D) in
  (A, rotate_row 3 B, rotate_row 2 C, rotate_row 1 D).

Definition flat (m : matrix) : list Z := let '(A, B, C, D) := m in A ++ B ++ C ++ D.

(** The little-endian words of a byte string. *)
Definition le_words (l : list Z) : list Z :=
  map (fun i => le_bytes_val (load l (4 * Z.of_nat i) 4)) (seq 0 (length l / 4)).

Definition rfc_state (key nonce : list Z) (counter : Z) : matrix :=
  (le_words sigma, le_words (take 16 key), le_words (drop 16 key), counter :: le_words nonce).

(** The block function: ten double rounds, the initial state added. *)
Definition rfc_block (key nonce : list Z) (counter : Z) : list Z :=
  let s := rfc_state key nonce counter in
  let t := Nat.iter 10 double_round s in
  flat_map (le_enc 4) (map (fun p => plus32 (fst p) (snd p)) (combine (flat t) (flat s))).

(** The key stream, the block counter being a 32-bit word. *)
Fixpoint rfc_stream (key nonce : list Z) (counter : Z) (n : nat) : list Z :=
  match n with
  | O => []
  | S n => rfc_block key nonce counter ++ rfc_stream key nonce (plus32 counter 1) n
  end.

Definition rfc_chacha20 (key nonce : list Z) (counter : Z) (msg : list Z) : list Z :=
  xor_bytes msg (rfc_stream key nonce counter (Z.to_nat ((len msg + 63) / 64))).

(** ** One block *)

Definition word32 (x : Z) : Prop := 0 <= x < 2 ^ 32.

Lemma plus32_word x y : word32 (plus32 x y).
Proof. now apply wrap_range. Qed.

Lemma rotate_word v n : 0 < n < 32 -> word32 v -> ROTATE v n = rotl 32 n v /\ word32 (rotl 32 n v).
Proof. intros Hn Hv. split; [now apply rotate_rotl | now apply rotl_range]. Qed.

Lemma xor_word x y : word32 x -> word32 y -> word32 (Z.lxor x y).
Proof. apply lxor_range. lia. Qed.

(** The quarter round of the code on four values. *)
Definition quarter_code (a b c d : Z) : Z * Z * Z * Z :=
  let a := u32 (a + b) in let d := ROTATE (Z.lxor d a) 16 in
  let c := u32 (c + d) in let b := ROTATE (Z.lxor b c) 12 in
  let a := u32 (a + b) in let d := ROTATE (Z.lxor d a) 8 in
  let c := u32 (c + d) in let b := ROTATE (Z.lxor b c) 7 in
  (a, b, c, d).

Lemma quarter_code_ok a b c d : word32 a -> word32 b -> word32 c -> word32 d ->
  quarter_code a b c d = quarter a b c d /\
  let '(a, b, c, d) := quarter a b c d in word32 a /\ word32 b /\ word32 c /\ word32 d.
Proof.
  intros Ha Hb Hc Hd. unfold quarter_code, quarter. cbv zeta. change (u32 (a + b)) with (plus32 a b). set (a1 := plus32 a b).
  assert (Wa : word32 a1) by apply plus32_word.
  destruct (rotate_word (Z.lxor d a1) 16 ltac:(lia) (xor_word _ _ Hd Wa)) as [-> Wd]. set (d1 := rotl 32 16 _) in *.
  change (u32 (c + d1)) with (plus32 c d1). set (c1 := plus32 c d1). assert (Wc : word32 c1) by apply plus32_word.
  destruct (rotate_word (Z.lxor b c1) 12 ltac:(lia) (xor_word _ _ Hb Wc)) as [-> Wb]. set (b1 := rotl 32 12 _) in *.
  change (u32 (a1 + b1)) with (plus32 a1 b1). set (a2 := plus32 a1 b1). assert (Wa2 : word32 a2) by apply plus32_word.
  destruct (rotate_word (Z.lxor d1 a2) 8 ltac:(lia) (xor_word _ _ Wd Wa2)) as [-> Wd2]. set (d2 := rotl 32 8 _) in *.
  change (u32 (c1 + d2)) with (plus32 c1 d2). set (c2 := plus32 c1 d2). assert (Wc2 : word32 c2) by apply plus32_word.
  destruct (rotate_word (Z.lxor b1 c2) 7 ltac:(lia) (xor_word _ _ Wb Wc2)) as [-> Wb2]. splits; trivial.
Qed.

(** A matrix of sixteen words, and its flat form. *)
Inductive square : matrix -> Prop :=
| square_intro x0 x1 x2 x3 x4 x5 x6 x7 x8 x9 x10 x11 x12 x13 x14 x15 :
    Forall word32 [x0; x1; x2; x3; x4; x5; x6; x7; x8; x9; x10; x11; x12; x13; x14; x15] ->
    square ([x0; x1; x2; x3], [x4; x5; x6; x7], [x8; x9; x10; x11], [x12; x13; x14; x15]).

(** The code's quarter round is one on the four elements it names. *)
Ltac in_range := repeat rewrite len_set; try lia.

Lemma quarter_round_sets x a b c d :
  0 <= a < len x -> 0 <= b < len x -> 0 <= c < len x -> 0 <= d < len x ->
  a <> b -> a <> c -> a <> d -> b <> c -> b <> d -> c <> d ->
  QUARTERROUND x a b c d =
  let '(A, B, C, D) := quarter_code (get x a) (get x b) (get x c) (get x d) in
  set (set (set (set x a A) b B) c C) d D.
Proof.
  intros. unfold QUARTERROUND, quarter_code. cbv zeta.
  repeat first [rewrite get_set_same by in_range | rewrite get_set_other by in_range].
  apply list_eq_get; [in_range |]. intros i Hi. repeat rewrite len_set in Hi by in_range.
  destruct (Z.eq_dec i a) as [-> |]; [repeat first [rewrite get_set_same by in_range | rewrite get_set_other by in_range]; reflexivity |].
  destruct (Z.eq_dec i b) as [-> |]; [repeat first [rewrite get_set_same by in_range | rewrite get_set_other by in_range]; reflexivity |].
  destruct (Z.eq_dec i c) as [-> |]; [repeat first [rewrite get_set_same by in_range | rewrite get_set_other by in_range]; reflexivity |].
  destruct (Z.eq_dec i d) as [-> |]; [repeat first [rewrite get_set_same by in_range | rewrite get_set_other by in_range]; reflexivity |].
  repeat rewrite get_set_other by in_range. reflexivity.
Qed.

Ltac quarter_step :=
  match goal with |- context [QUARTERROUND (?y :: ?l) ?a ?b ?c ?d] =>
    rewrite (quarter_round_sets (y :: l) a b c d) by first [discriminate | split; [discriminate | reflexivity]] end;
  cbv [get nth Z.to_nat Pos.to_nat Pos.iter_op Nat.add];
  match goal with |- context [quarter_code ?a ?b ?c ?d] =>
    let W := fresh "W" in
    destruct (quarter_code_ok a b c d ltac:(assumption) ltac:(assumption) ltac:(assumption) ltac:(assumption)) as [-> W];
    let a' := fresh "a" in let b' := fresh "b" in let c' := fresh "c" in let d' := fresh "d" in
    destruct (quarter a b c d) as [[[a' b'] c'] d']; destruct W as (? & ? & ? & ?)
  end;
  cbv [set splice take drop firstn skipn app len length Z.of_nat Pos.of_succ_nat Pos.succ Z.add Pos.add
       Pos.add_carry Z.to_nat Pos.to_nat Pos.iter_op Nat.add].

Lemma double_round_code m : square m -> code_double_round (flat m) = flat (double_round m) /\ square (double_round m).
Proof.
  intros [x0 x1 x2 x3 x4 x5 x6 x7 x8 x9 x10 x11 x12 x13 x14 x15 W]. rewrite !Forall_cons_iff in W.
  destruct W as (? & ? & ? & ? & ? & ? & ? & ? & ? & ? & ? & ? & ? & ? & ? & ? & _).
  unfold code_double_round, double_round. cbv zeta. cbv [flat app]. cbn [column_round].
  do 4 quarter_step.
  cbv [rotate_row take drop firstn skipn app Z.to_nat Pos.to_nat Pos.iter_op Nat.add]. cbn [column_round].
  do 4 quarter_step.
  split; [reflexivity | constructor]. repeat (constructor; [assumption |]). constructor.
Qed.

Lemma core_rounds_iter n : forall fuel x, (n <= fuel)%nat ->
  core_rounds fuel (2 * Z.of_nat n) x = Nat.iter n code_double_round x.
Proof.
  induction n as [| n IH]; intros fuel x Hf; [destruct fuel; reflexivity |].
  destruct fuel as [| fuel]; [lia |]. cbn [core_rounds]. destruct (Z.ltb_spec 0 (2 * Z.of_nat (S n))); [| lia].
  rewrite Nat.iter_succ_r. replace (2 * Z.of_nat (S n) - 2) with (2 * Z.of_nat n) by lia.
  apply IH. lia.
Qed.

Lemma rounds_code n m : square m -> Nat.iter n code_double_round (flat m) = flat (Nat.iter n double_round m) /\ square (Nat.iter n double_round m).
Proof.
  intros Hm. induction n as [| n [IH1 IH2]]; [now split |]. cbn [Nat.iter nat_rect].
  change (nat_rect (fun _ => list Z) (flat m) (fun _ => code_double_round) n) with (Nat.iter n code_double_round (flat m)).
  change (nat_rect (fun _ => matrix) m (fun _ => double_round) n) with (Nat.iter n double_round m).
  rewrite IH1. now apply double_round_code.
Qed.

Lemma U32TO8_enc v : U32TO8_LITTLE v = le_enc 4 v.
Proof.
  change (le_enc 4 v) with (order_enc DATA_ORDER_IS_LITTLE_ENDIAN 4 v). rewrite <- HOST_l2c_enc. unfold U32TO8_LITTLE, HOST_l2c. rewrite Z.shiftr_0_r.
  now rewrite !(wrap_small 8) by (change 255 with (Z.ones 8); rewrite Z.land_ones by lia; now apply Z.mod_pos_bound).
Qed.

(** The block function of a matrix of words. *)
Lemma chacha_core_block m : square m ->
  chacha_core (flat m) =
  flat_map (le_enc 4) (map (fun p => plus32 (fst p) (snd p)) (combine (flat (Nat.iter 10 double_round m)) (flat m))).
Proof.
  intros Hm. unfold chacha_core. change 20 with (2 * Z.of_nat 10) at 1. rewrite core_rounds_iter by lia.
  destruct (rounds_code 10 m Hm) as [-> Hr]. revert Hr. generalize (Nat.iter 10 double_round m). intros t Ht.
  destruct Hm, Ht. unfold flat. cbn [app].
  rewrite (flat_map_ext U32TO8_LITTLE (le_enc 4) U32TO8_enc). reflexivity.
Qed.

(** ** The stream *)

Lemma U8TO32_val l i : bytes_ok l -> 0 <= i -> i + 4 <= len l ->
  U8TO32_LITTLE (drop i l) = le_bytes_val (load l i 4) /\ word32 (le_bytes_val (load l i 4)).
Proof.
  intros Hb Hi Hl. set (c := load l i 4).
  assert (Hc : bytes_ok c /\ len c = 4) by (unfold c, load; split; [now apply bytes_ok_take, bytes_ok_drop | rewrite len_take, ?len_drop; rewrite ?len_drop; lia]).
  split; [| pose proof (le_bytes_val_range c (proj1 Hc)) as R; rewrite (proj2 Hc) in R; exact R].
  rewrite <- (HOST_c2l_val DATA_ORDER_IS_LITTLE_ENDIAN c (proj1 Hc) (proj2 Hc) : HOST_c2l _ c = le_bytes_val c).
  unfold HOST_c2l, U8TO32_LITTLE, c, load. now rewrite !get_take by lia.
Qed.

(** The words of a string of [4 * n] bytes, as the code loads them. *)
Lemma le_words_code l n : bytes_ok l -> len l = 4 * Z.of_nat n ->
  le_words l = map (fun i => U8TO32_LITTLE (drop (4 * Z.of_nat i) l)) (seq 0 n) /\ Forall word32 (le_words l).
Proof.
  intros Hb Hl. unfold le_words. replace (length l / 4)%nat with n.
  2: { unfold len in Hl. replace (length l) with (n * 4)%nat by lia. now rewrite Nat.div_mul. }
  split; [apply map_ext_in | apply Forall_map, Forall_forall]; intros i Hi%in_seq;
    destruct (U8TO32_val l (4 * Z.of_nat i) Hb ltac:(lia) ltac:(lia)); congruence.
Qed.

Lemma U8TO32_take l n i : 0 <= i -> i + 4 <= n -> U8TO32_LITTLE (drop i (take n l)) = U8TO32_LITTLE (drop i l).
Proof. intros. unfold U8TO32_LITTLE. now rewrite !get_drop, !get_take by lia. Qed.

(** What is written is as long as the input, for any key and nonce. *)
Lemma len_chacha_loop fuel : forall input inp, len inp <= Z.of_nat fuel -> len (chacha_loop fuel input inp) = len inp.
Proof.
  induction fuel as [| fuel IH]; intros input inp Hf; pose proof (len_nonneg inp); cbn [chacha_loop]; [change (len (@nil Z)) with 0; lia |].
  destruct (Z.ltb_spec 0 (len inp)); [| change (len (@nil Z)) with 0; lia]. cbv zeta.
  set (todo := if len inp <? 64 then len inp else 64).
  assert (Ht : 0 < todo <= 64 /\ todo <= len inp) by (unfold todo; destruct (Z.ltb_spec (len inp) 64); lia).
  rewrite len_app, IH, len_drop by (rewrite ?len_drop; lia). rewrite len_xor_bytes, !len_take; [lia | | lia].
  change (len (chacha_core input)) with 64. lia.
Qed.

Lemma len_chacha inp key nonce counter : len (CRYPTO_chacha_20 inp key nonce counter) = len inp.
Proof. apply len_chacha_loop. unfold len. lia. Qed.

Section Stream.
Context (key nonce : list Z) (Hk : bytes_ok key /\ len key = 32) (Hn : bytes_ok nonce /\ len nonce = 12).


(** The array the loop starts from. *)
Definition code_state (counter : Z) : list Z :=
  let word l i := U8TO32_LITTLE (drop i l) in
  [word sigma 0; word sigma 4; word sigma 8; word sigma 12;
   word key 0; word key 4; word key 8; word key 12;
   word key 16; word key 20; word key 24; word key 28;
   counter; word nonce 0; word nonce 4; word nonce 8].

Lemma code_state_rfc counter : word32 counter ->
  code_state counter = flat (rfc_state key nonce counter) /\ square (rfc_state key nonce counter).
Proof.
  intros Hc. destruct Hk as [Bk Lk], Hn as [Bn Ln].
  destruct (le_words_code sigma 4) as [Es Ws]; [repeat constructor; unfold byte_ok; lia | reflexivity |].
  destruct (le_words_code (take 16 key) 4) as [E1 W1]; [now apply bytes_ok_take | rewrite len_take; lia |].
  destruct (le_words_code (drop 16 key) 4) as [E2 W2]; [now apply bytes_ok_drop | rewrite len_drop; lia |].
  destruct (le_words_code nonce 3 Bn Ln) as [E3 W3].
  unfold rfc_state. rewrite Es, E1, E2, E3 in *. cbn [map seq] in *. clear Es E1 E2 E3.
  change (4 * Z.of_nat 0) with 0 in *. change (4 * Z.of_nat 1) with 4 in *.
  change (4 * Z.of_nat 2) with 8 in *. change (4 * Z.of_nat 3) with 12 in *.
  rewrite !(fun i H H' => U8TO32_take key 16 i H H') in * by lia. rewrite !drop_drop in * by lia.
  split; [reflexivity | constructor].
  rewrite !Forall_cons_iff in *. tauto.
Qed.

Lemma next_block counter : set (code_state counter) 12 (u32 (get (code_state counter) 12 + 1)) = code_state (plus32 counter 1).
Proof. reflexivity. Qed.

Lemma core_block counter : word32 counter ->
  chacha_core (code_state counter) = rfc_block key nonce counter /\ len (rfc_block key nonce counter) = 64 /\ bytes_ok (rfc_block key nonce counter).
Proof.
  intros Hc. destruct (code_state_rfc counter Hc) as [-> Hs]. split; [now rewrite chacha_core_block |].
  unfold rfc_block. pose proof (proj2 (rounds_code 10 _ Hs)) as Ht. revert Hs Ht.
  generalize (Nat.iter 10 double_round (rfc_state key nonce counter)), (rfc_state key nonce counter).
  intros t m Hm Ht. destruct Hm, Ht. split; [reflexivity |]. unfold bytes_ok. apply Forall_flat_map, Forall_forall.
  intros. apply le_enc_bytes.
Qed.

Lemma rfc_stream_len n : forall counter, word32 counter -> len (rfc_stream key nonce counter n) = 64 * Z.of_nat n /\ bytes_ok (rfc_stream key nonce counter n).
Proof.
  induction n as [| n IH]; intros counter Hc; [split; [reflexivity | constructor] |]. cbn [rfc_stream].
  destruct (core_block counter Hc) as (_ & Lb & Bb), (IH (plus32 counter 1) (plus32_word _ _)) as [L B].
  rewrite len_app, Lb, L. split; [lia | now apply bytes_ok_app].
Qed.

Lemma chacha_loop_stream n : forall fuel inp counter, word32 counter -> len inp <= Z.of_nat fuel -> len inp <= 64 * Z.of_nat n ->
  chacha_loop fuel (code_state counter) inp = xor_bytes inp (rfc_stream key nonce counter n).
Proof.
  induction n as [| n IH]; intros fuel inp counter Hc Hf Hl.
  { rewrite (len_0_nil inp) by (pose proof (len_nonneg inp); lia). destruct fuel; reflexivity. }
  destruct fuel as [| fuel]; [rewrite (len_0_nil inp) by (pose proof (len_nonneg inp); lia); reflexivity |].
  cbn [chacha_loop rfc_stream]. destruct (Z.ltb_spec 0 (len inp)) as [Hp | Hz].
  2: { rewrite (len_0_nil inp) by (pose proof (len_nonneg inp); lia). reflexivity. }
  cbv zeta. destruct (core_block counter Hc) as (-> & Lb & _). rewrite next_block.
  set (todo := if len inp <? 64 then len inp else 64).
  assert (Ht : 0 < todo <= 64 /\ todo <= len inp /\ (todo = 64 \/ todo = len inp)) by (unfold todo; destruct (Z.ltb_spec (len inp) 64); lia).
  rewrite IH by (apply plus32_word || (rewrite len_drop; lia)).
  rewrite <- (take_drop todo inp) at 3. destruct Ht as (Ht & Hi & [-> | ->]).
  - rewrite (take_all 64 (rfc_block _ _ _)) by lia. symmetry. apply xor_bytes_app. rewrite len_take; lia.
  - rewrite drop_all, app_nil_r, !app_nil_r, !(take_all (len inp) inp) by lia.
    rewrite xor_bytes_app_l by lia. apply xor_bytes_take.
Qed.

Lemma chacha_stream n inp counter : word32 counter -> len inp <= 64 * Z.of_nat n ->
  CRYPTO_chacha_20 inp key nonce counter = xor_bytes inp (rfc_stream key nonce counter n).
Proof. intros Hc Hl. apply (chacha_loop_stream n); [assumption | unfold len; lia | assumption]. Qed.

(** Key streams are cut at block boundaries. *)
Lemma rfc_stream_app n m : forall counter, word32 counter ->
  rfc_stream key nonce counter (n + m) =
  rfc_stream key nonce counter n ++ rfc_stream key nonce (plus32 counter (Z.of_nat n)) m.
Proof.
  induction n as [| n IH]; intros counter Hc; cbn [Nat.add rfc_stream app].
  - change (Z.of_nat 0) with 0. unfold plus32. now rewrite Z.add_0_r, wrap_small.
  - rewrite IH, app_assoc by apply plus32_word. do 2 f_equal. unfold plus32, wrap.
    rewrite Z.add_mod_idemp_l by lia. f_equal. lia.
Qed.
End Stream.

(** The RFC's function, of the same length and its own inverse. *)
Lemma chacha_masks key nonce counter msg :
  bytes_ok key /\ len key = 32 -> bytes_ok nonce /\ len nonce = 12 -> word32 counter ->
  CRYPTO_chacha_20 msg key nonce counter = rfc_chacha20 key nonce counter msg /\
  len (CRYPTO_chacha_20 msg key nonce counter) = len msg /\
  CRYPTO_chacha_20 (CRYPTO_chacha_20 msg key nonce counter) key nonce counter = msg.
Proof.
  intros Hk Hn Hc. pose proof (len_nonneg msg) as Hm. set (n := Z.to_nat ((len msg + 63) / 64)).
  assert (Hl : len msg <= 64 * Z.of_nat n) by (unfold n; word_lia).
  destruct (rfc_stream_len key nonce Hk Hn n counter Hc) as [Ls _].
  assert (Lx : len (xor_bytes msg (rfc_stream key nonce counter n)) = len msg) by (rewrite len_xor_bytes; lia).
  rewrite (chacha_stream key nonce Hk Hn n msg) by assumption. splits; [reflexivity | exact Lx |].
  rewrite (chacha_stream key nonce Hk Hn n) by (trivial; lia). apply xor_bytes_cancel. lia.
Qed.

(** C8: ChaCha20 is the function of RFC 7539: the message masked by the blocks of
    consecutive 32-bit counter values, the code's flat rounds being the column
    rounds of the RFC's matrix. Applying it twice gives the message back, the
    output is as long as the input, and data cut at a multiple of 64 bytes may be
    processed in two calls, the second with the advanced counter. *)
Theorem chacha20_is_rfc key nonce counter msg :
  bytes_ok key /\ len key = 32 -> bytes_ok nonce /\ len nonce = 12 -> word32 counter ->
  CRYPTO_chacha_20 msg key nonce counter = rfc_chacha20 key nonce counter msg /\
  len (CRYPTO_chacha_20 msg key nonce counter) = len msg /\
  CRYPTO_chacha_20 (CRYPTO_chacha_20 msg key nonce counter) key nonce counter = msg /\
  (forall k rest, len msg = 64 * Z.of_nat k ->
    CRYPTO_chacha_20 (msg ++ rest) key nonce counter =
    CRYPTO_chacha_20 msg key nonce counter ++ CRYPTO_chacha_20 rest key nonce (plus32 counter (Z.of_nat k))).
Proof.
  intros Hk Hn Hc. destruct (chacha_masks key nonce counter msg Hk Hn Hc) as (E1 & E2 & E3). splits; [exact E1 | exact E2 | exact E3 |].
  intros k rest Hr. set (m := Z.to_nat ((len rest + 63) / 64)).
  pose proof (len_nonneg rest). assert (Hm' : len rest <= 64 * Z.of_nat m) by (unfold m; word_lia).
  rewrite (chacha_stream key nonce Hk Hn (k + m)) by (trivial; rewrite len_app; lia).
  rewrite (chacha_stream key nonce Hk Hn m rest) by (apply plus32_word || assumption).
  rewrite (chacha_stream key nonce Hk Hn k msg) by (assumption || lia). rewrite rfc_stream_app by assumption.
  apply xor_bytes_app. rewrite (proj1 (rfc_stream_len key nonce Hk Hn k counter Hc)). lia.
Qed.

(** The block of RFC 7539, section 2.3.2. *)
Example rfc7539_block :
  take 16 (CRYPTO_chacha_20 (repeat 0 64) (map Z.of_nat (seq 0 32)) [0; 0; 0; 9; 0; 0; 0; 74; 0; 0; 0; 0] 1) =
  [16; 241; 231; 228; 209; 59; 89; 21; 80; 15; 221; 31; 163; 32; 113; 196].
Proof. vm_compute. reflexivity. Qed.

Lemma chacha20_is_rfc_witness :
  let key := map Z.of_nat (seq 0 32) in
  let nonce := [0; 0; 0; 9; 0; 0; 0; 74; 0; 0; 0; 0] in
  CRYPTO_chacha_20 (repeat 7 100) key nonce (2 ^ 32 - 1) = rfc_chacha20 key nonce (2 ^ 32 - 1) (repeat 7 100).
Proof.
  refine (proj1 (chacha20_is_rfc (map Z.of_nat (seq 0 32)) [0; 0; 0; 9; 0; 0; 0; 74; 0; 0; 0; 0] (2 ^ 32 - 1) (repeat 7 100) _ _ _)).
  - split; [repeat constructor; unfold byte_ok; cbn; lia | reflexivity].
  - split; [repeat constructor; unfold byte_ok; lia | reflexivity].
  - split; [discriminate | reflexivity].
Defined.
