(* ===== verification/Poly1305.v ===== *)
(** * Poly1305 (poly1305/poly1305.c)

    The one-time authenticator in 26-bit limbs, for the platforms where the
    portable file is compiled (the devices; the simulator uses SSE2 code). The
    aligned state inside [poly1305_state] is the record below. Nothing of the
    arithmetic overflows for any key and message, the accumulator follows the
    polynomial of RFC 7539, and the tag is that of the RFC except for residues
    where the last reduction leaves a limb of 27 bits ([lost]). *)

From S2P Require Import Prelude Buffers DigestSpec.
From Stdlib Require Import Btauto.

(** ** The code *)

Definition U8TO32_LE (m : list Z) : Z := le_bytes_val (take 4 m).
Definition U32TO8_LE (v : Z) : list Z := le_enc 4 (u32 v).
Definition mul32x32_64 (a b : Z) : Z := u64 (a * b).

Record poly1305_state_st := mk_poly {
  r0 : Z; r1 : Z; r2 : Z; r3 : Z; r4 : Z;
  s1 : Z; s2 : Z; s3 : Z; s4 : Z;
  h0 : Z; h1 : Z; h2 : Z; h3 : Z; h4 : Z;
  pbuf : list Z; buf_used : Z; pkey : list Z }.

Definition with_h (st : poly1305_state_st) (a b c d e : Z) : poly1305_state_st :=
  mk_poly (r0 st) (r1 st) (r2 st) (r3 st) (r4 st) (s1 st) (s2 st) (s3 st) (s4 st) a b c d e (pbuf st) (buf_used st) (pkey st).
Definition with_buf (st : poly1305_state_st) (b : list Z) (n : Z) : poly1305_state_st :=
  mk_poly (r0 st) (r1 st) (r2 st) (r3 st) (r4 st) (s1 st) (s2 st) (s3 st) (s4 st) (h0 st) (h1 st) (h2 st) (h3 st) (h4 st) b n (pkey st).

(** Sixteen bytes added to the limbs; [top] makes the fifth limb of the last word. *)
Definition add_block (top : Z -> Z) (st : poly1305_state_st) (m : list Z) : poly1305_state_st :=
  let t0 := U8TO32_LE m in
  let t1 := U8TO32_LE (drop 4 m) in
  let t2 := U8TO32_LE (drop 8 m) in
  let t3 := U8TO32_LE (drop 12 m) in
  with_h st
    (u32 (h0 st + Z.land t0 0x3ffffff))
    (u32 (h1 st + Z.land (Z.shiftr (Z.lor (u64 (Z.shiftl t1 32)) t0) 26) 0x3ffffff))
    (u32 (h2 st + Z.land (Z.shiftr (Z.lor (u64 (Z.shiftl t2 32)) t1) 20) 0x3ffffff))
    (u32 (h3 st + Z.land (Z.shiftr (Z.lor (u64 (Z.shiftl t3 32)) t2) 14) 0x3ffffff))
    (u32 (h4 st + top t3)).

(** The carries, and the limbs back in the state. *)
Definition donna_carry (st : poly1305_state_st) (t0 t1 t2 t3 t4 : Z) : poly1305_state_st :=
  let a := Z.land (u32 t0) 0x3ffffff in
  let c := Z.shiftr t0 26 in
  let t1 := u64 (t1 + c) in
  let b := Z.land (u32 t1) 0x3ffffff in
  let k := u32 (Z.shiftr t1 26) in
  let t2 := u64 (t2 + k) in
  let d := Z.land (u32 t2) 0x3ffffff in
  let k := u32 (Z.shiftr t2 26) in
  let t3 := u64 (t3 + k) in
  let e := Z.land (u32 t3) 0x3ffffff in
  let k := u32 (Z.shiftr t3 26) in
  let t4 := u64 (t4 + k) in
  let f := Z.land (u32 t4) 0x3ffffff in
  let k := u32 (Z.shiftr t4 26) in
  with_h st (u32 (a + u32 (k * 5))) b d e f.

Definition donna_mul (st : poly1305_state_st) : poly1305_state_st :=
  let t0 := u64 (mul32x32_64 (h0 st) (r0 st) + mul32x32_64 (h1 st) (s4 st) + mul32x32_64 (h2 st) (s3 st) +
                 mul32x32_64 (h3 st) (s2 st) + mul32x32_64 (h4 st) (s1 st)) in
  let t1 := u64 (mul32x32_64 (h0 st) (r1 st) + mul32x32_64 (h1 st) (r0 st) + mul32x32_64 (h2 st) (s4 st) +
                 mul32x32_64 (h3 st) (s3 st) + mul32x32_64 (h4 st) (s2 st)) in
  let t2 := u64 (mul32x32_64 (h0 st) (r2 st) + mul32x32_64 (h1 st) (r1 st) + mul32x32_64 (h2 st) (r0 st) +
                 mul32x32_64 (h3 st) (s4 st) + mul32x32_64 (h4 st) (s3 st)) in
  let t3 := u64 (mul32x32_64 (h0 st) (r3 st) + mul32x32_64 (h1 st) (r2 st) + mul32x32_64 (h2 st) (r1 st) +
                 mul32x32_64 (h3 st) (r0 st) + mul32x32_64 (h4 st) (s4 st)) in
  let t4 := u64 (mul32x32_64 (h0 st) (r4 st) + mul32x32_64 (h1 st) (r3 st) + mul32x32_64 (h2 st) (r2 st) +
                 mul32x32_64 (h3 st) (r1 st) + mul32x32_64 (h4 st) (r0 st)) in
  donna_carry st t0 t1 t2 t3 t4.

Fixpoint donna_16bytes (fuel : nat) (st : poly1305_state_st) (inp : list Z) : poly1305_state_st * list Z :=
  match fuel with
  | O => (st, inp)
  | S fuel =>
      let st := donna_mul (add_block (fun t3 => Z.lor (Z.shiftr t3 8) (Z.shiftl 1 24)) st inp) in
      let inp := drop 16 inp in
      if 16 <=? len inp then donna_16bytes fuel st inp else (st, inp)
  end.

Definition poly1305_update (st : poly1305_state_st) (inp : list Z) : poly1305_state_st :=
  let '(st, inp) := if len inp <? 16 then (st, inp) else donna_16bytes (length inp) st inp in
  if len inp =? 0 then st else
  let mp := inp ++ [1] ++ repeat 0 (Z.to_nat (15 - len inp)) in
  donna_mul (add_block (fun t3 => Z.shiftr t3 8) st mp).

(** [junk] is the buffer's uninitialised memory. *)
Definition CRYPTO_poly1305_init (junk key : list Z) : poly1305_state_st :=
  let t0 := U8TO32_LE key in
  let t1 := U8TO32_LE (drop 4 key) in
  let t2 := U8TO32_LE (drop 8 key) in
  let t3 := U8TO32_LE (drop 12 key) in
  let a := Z.land t0 0x3ffffff in
  let t0 := Z.lor (Z.shiftr t0 26) (u32 (Z.shiftl t1 6)) in
  let b := Z.land t0 0x3ffff03 in
  let t1 := Z.lor (Z.shiftr t1 20) (u32 (Z.shiftl t2 12)) in
  let c := Z.land t1 0x3ffc0ff in
  let t2 := Z.lor (Z.shiftr t2 14) (u32 (Z.shiftl t3 18)) in
  let d := Z.land t2 0x3f03fff in
  let e := Z.land (Z.shiftr t3 8) 0x00fffff in
  mk_poly a b c d e (u32 (b * 5)) (u32 (c * 5)) (u32 (d * 5)) (u32 (e * 5)) 0 0 0 0 0 junk 0 (load key 16 16).

Definition CRYPTO_poly1305_update (st : poly1305_state_st) (inp : list Z) : poly1305_state_st :=
  let '(st, inp) :=
    if negb (buf_used st =? 0) then
      let todo := u32 (16 - buf_used st) in
      let todo := if len inp <? todo then len inp else todo in
      let st := with_buf st (splice (pbuf st) (buf_used st) (take todo inp)) (u32 (buf_used st + todo)) in
      let st := if buf_used st =? 16 then let st := poly1305_update st (pbuf st) in with_buf st (pbuf st) 0 else st in
      (st, drop todo inp)
    else (st, inp) in
  let '(st, inp) :=
    if 16 <=? len inp then
      let todo := Z.land (len inp) (Z.lnot 0xf) in
      (poly1305_update st (take todo inp), drop todo inp)
    else (st, inp) in
  if negb (len inp =? 0) then with_buf st (splice (pbuf st) 0 inp) (len inp) else st.

(** The accumulator fully carried and reduced, in limbs. *)
Definition finish_limbs (x0 x1 x2 x3 x4 : Z) : Z * Z * Z * Z * Z :=
  let b := Z.shiftr x0 26 in
  let a0 := Z.land x0 0x3ffffff in
  let a1 := u32 (x1 + b) in
  let b := Z.shiftr a1 26 in
  let a1 := Z.land a1 0x3ffffff in
  let a2 := u32 (x2 + b) in
  let b := Z.shiftr a2 26 in
  let a2 := Z.land a2 0x3ffffff in
  let a3 := u32 (x3 + b) in
  let b := Z.shiftr a3 26 in
  let a3 := Z.land a3 0x3ffffff in
  let a4 := u32 (x4 + b) in
  let b := Z.shiftr a4 26 in
  let a4 := Z.land a4 0x3ffffff in
  let a0 := u32 (a0 + u32 (b * 5)) in
  let g0 := u32 (a0 + 5) in
  let b := Z.shiftr g0 26 in
  let g0 := Z.land g0 0x3ffffff in
  let g1 := u32 (a1 + b) in
  let b := Z.shiftr g1 26 in
  let g1 := Z.land g1 0x3ffffff in
  let g2 := u32 (a2 + b) in
  let b := Z.shiftr g2 26 in
  let g2 := Z.land g2 0x3ffffff in
  let g3 := u32 (a3 + b) in
  let b := Z.shiftr g3 26 in
  let g3 := Z.land g3 0x3ffffff in
  let g4 := u32 (a4 + b - Z.shiftl 1 26) in
  let b := u32 (Z.shiftr g4 31 - 1) in
  let nb := u32 (Z.lnot b) in
  let a0 := Z.lor (Z.land a0 nb) (Z.land g0 b) in
  let a1 := Z.lor (Z.land a1 nb) (Z.land g1 b) in
  let a2 := Z.lor (Z.land a2 nb) (Z.land g2 b) in
  let a3 := Z.lor (Z.land a3 nb) (Z.land g3 b) in
  let a4 := Z.lor (Z.land a4 nb) (Z.land g4 b) in
  (a0, a1, a2, a3, a4).

(** The limbs packed into words and the rest of the key added. *)
Definition finish_tag (a0 a1 a2 a3 a4 : Z) (key : list Z) : list Z :=
  let f0 := u64 (Z.lor a0 (u32 (Z.shiftl a1 26)) + U8TO32_LE (key)) in
  let f1 := u64 (Z.lor (Z.shiftr a1 6) (u32 (Z.shiftl a2 20)) + U8TO32_LE (drop 4 (key))) in
  let f2 := u64 (Z.lor (Z.shiftr a2 12) (u32 (Z.shiftl a3 14)) + U8TO32_LE (drop 8 (key))) in
  let f3 := u64 (Z.lor (Z.shiftr a3 18) (u32 (Z.shiftl a4 8)) + U8TO32_LE (drop 12 (key))) in
  let f1' := u64 (f1 + Z.shiftr f0 32) in
  let f2' := u64 (f2 + Z.shiftr f1' 32) in
  let f3' := u64 (f3 + Z.shiftr f2' 32) in
  U32TO8_LE f0 ++ U32TO8_LE f1' ++ U32TO8_LE f2' ++ U32TO8_LE f3'.

(** The tag. *)
Definition CRYPTO_poly1305_finish (st : poly1305_state_st) : list Z :=
  let st := if negb (buf_used st =? 0) then poly1305_update st (take (buf_used st) (pbuf st)) else st in
  let '(a0, a1, a2, a3, a4) := finish_limbs (h0 st) (h1 st) (h2 st) (h3 st) (h4 st) in
  finish_tag a0 a1 a2 a3 a4 (pkey st).

(** ** RFC 7539 *)

Definition p1305 : Z := 2 ^ 130 - 5.
Definition clamp (r : Z) : Z := Z.land r 0x0ffffffc0ffffffc0ffffffc0fffffff.

Fixpoint rfc_blocks (fuel : nat) (r acc : Z) (msg : list Z) : Z :=
  match fuel with
  | O => acc
  | S fuel =>
      if len msg =? 0 then acc
      else rfc_blocks fuel r ((acc + le_bytes_val (take 16 msg ++ [1])) * r mod p1305) (drop 16 msg)
  end.

Definition rfc_r (key : list Z) : Z := clamp (le_bytes_val (take 16 key)).
Definition rfc_acc (key msg : list Z) : Z := rfc_blocks (length msg) (rfc_r key) 0 msg.
Definition rfc_poly1305 (key msg : list Z) : list Z := le_enc 16 (rfc_acc key msg + le_bytes_val (drop 16 key)).

(** The residues on which the last reduction may leave a limb of 27 bits next to
    an odd one. *)
Definition lost (v : Z) : Prop := 2 ^ 27 <= v < 2 ^ 32 /\ v mod 2 ^ 27 < 5.

(** ** Limbs *)

Definition limbs (a b c d e : Z) : Z := a + 2 ^ 26 * b + 2 ^ 52 * c + 2 ^ 78 * d + 2 ^ 104 * e.
Definition limb (x : Z) : Prop := 0 <= x < 2 ^ 26.
Definition word32 (x : Z) : Prop := 0 <= x < 2 ^ 32.

Lemma low26 x : Z.land x 0x3ffffff = x mod 2 ^ 26.
Proof. change 0x3ffffff with (Z.ones 26). now apply Z.land_ones. Qed.

Lemma join64 hi lo : word32 hi -> word32 lo -> Z.lor (u64 (Z.shiftl hi 32)) lo = hi * 2 ^ 32 + lo.
Proof.
  unfold word32. intros Hh Hl. rewrite (wrap_small 64) by (rewrite Z.shiftl_mul_pow2 by lia; zconst; lia).
  now apply lor_disjoint_add.
Qed.

(** The limbs of four words. *)
Lemma words_limbs t0 t1 t2 t3 : word32 t0 -> word32 t1 -> word32 t2 -> word32 t3 ->
  let a := Z.land t0 0x3ffffff in
  let b := Z.land (Z.shiftr (Z.lor (u64 (Z.shiftl t1 32)) t0) 26) 0x3ffffff in
  let c := Z.land (Z.shiftr (Z.lor (u64 (Z.shiftl t2 32)) t1) 20) 0x3ffffff in
  let d := Z.land (Z.shiftr (Z.lor (u64 (Z.shiftl t3 32)) t2) 14) 0x3ffffff in
  let e := Z.shiftr t3 8 in
  limb a /\ limb b /\ limb c /\ limb d /\ 0 <= e < 2 ^ 24 /\
  limbs a b c d e = t0 + 2 ^ 32 * t1 + 2 ^ 64 * t2 + 2 ^ 96 * t3.
Proof.
  intros H0 H1 H2 H3. cbv zeta. rewrite !join64, !low26, !Z.shiftr_div_pow2 by (assumption || lia).
  unfold limb, limbs, word32 in *. zconst. Z.to_euclidean_division_equations. lia.
Qed.

Lemma le_words_16 m : bytes_ok m -> 16 <= len m ->
  word32 (U8TO32_LE m) /\ word32 (U8TO32_LE (drop 4 m)) /\ word32 (U8TO32_LE (drop 8 m)) /\ word32 (U8TO32_LE (drop 12 m)) /\
  U8TO32_LE m + 2 ^ 32 * U8TO32_LE (drop 4 m) + 2 ^ 64 * U8TO32_LE (drop 8 m) + 2 ^ 96 * U8TO32_LE (drop 12 m) =
  le_bytes_val (take 16 m).
Proof.
  intros Hb Hl.
  assert (W : forall i, 0 <= i -> i + 4 <= len m -> word32 (U8TO32_LE (drop i m))).
  { intros i Hi Hj. pose proof (le_bytes_val_range (take 4 (drop i m)) ltac:(auto with bytes)) as R.
    rewrite len_take in R by (rewrite ?len_drop; lia). exact R. }
  pose proof (W 0 ltac:(lia) ltac:(lia)) as W0. rewrite drop_0 in W0. splits; try apply W; try lia; [assumption |].
  change 16 with (4 + (4 + (4 + 4))). rewrite !take_plus, !drop_drop by lia. rewrite !le_bytes_val_app.
  rewrite !len_take by (rewrite ?len_drop; lia). unfold U8TO32_LE. change (4 + 4) with 8. change (8 + 4) with 12.
  zconst. change (256 ^ 4) with 4294967296. lia.
Qed.

(** ** The state invariant *)

(** The clamped multiplier in limbs, and limbs small enough that no product and
    no sum overflows: [h0] may hold more than 26 bits. *)
Definition H0_MAX : Z := 2810000000.

Record multiplier (st : poly1305_state_st) (r : Z) : Prop := {
  r_limbs : limbs (r0 st) (r1 st) (r2 st) (r3 st) (r4 st) = r;
  r_ranges : 0 <= r0 st <= 0x3ffffff /\ 0 <= r1 st <= 0x3ffff03 /\ 0 <= r2 st <= 0x3ffc0ff /\
             0 <= r3 st <= 0x3f03fff /\ 0 <= r4 st <= 0x00fffff;
  s_limbs : s1 st = 5 * r1 st /\ s2 st = 5 * r2 st /\ s3 st = 5 * r3 st /\ s4 st = 5 * r4 st }.

Definition accumulator (st : poly1305_state_st) : Z := limbs (h0 st) (h1 st) (h2 st) (h3 st) (h4 st).

Definition small_limbs (st : poly1305_state_st) : Prop :=
  0 <= h0 st <= H0_MAX /\ limb (h1 st) /\ limb (h2 st) /\ limb (h3 st) /\ limb (h4 st).

(** Ready to be multiplied: a block has been added. *)
Definition added_limbs (st : poly1305_state_st) : Prop :=
  0 <= h0 st <= H0_MAX + 2 ^ 26 /\ 0 <= h1 st < 2 ^ 27 /\ 0 <= h2 st < 2 ^ 27 /\ 0 <= h3 st < 2 ^ 27 /\ 0 <= h4 st < 2 ^ 26 + 2 ^ 25.

Lemma multiplier_with_h st r a b c d e : multiplier st r -> multiplier (with_h st a b c d e) r.
Proof. intros []. now constructor. Qed.

Lemma add_block_ok top hi st m : small_limbs st -> bytes_ok m -> 16 <= len m -> 0 <= hi <= 1 ->
  (forall t, word32 t -> top t = t / 2 ^ 8 + hi * 2 ^ 24) ->
  let st' := add_block top st m in
  added_limbs st' /\ accumulator st' = accumulator st + le_bytes_val (take 16 m) + hi * 2 ^ 128.
Proof.
  intros (B0 & B1 & B2 & B3 & B4) Hb Hl Hhi Htop. cbv zeta. unfold add_block.
  destruct (le_words_16 m Hb Hl) as (W0 & W1 & W2 & W3 & <-).
  pose proof (words_limbs _ _ _ _ W0 W1 W2 W3) as L. cbv zeta in L.
  rewrite (Htop _ W3). rewrite (Z.shiftr_div_pow2 (U8TO32_LE (drop 12 m))) in L by lia.
  revert L. generalize (U8TO32_LE (drop 12 m) / 2 ^ 8).
  generalize (Z.land (U8TO32_LE m) 0x3ffffff), (Z.land (Z.shiftr (Z.lor (u64 (Z.shiftl (U8TO32_LE (drop 4 m)) 32)) (U8TO32_LE m)) 26) 0x3ffffff),
    (Z.land (Z.shiftr (Z.lor (u64 (Z.shiftl (U8TO32_LE (drop 8 m)) 32)) (U8TO32_LE (drop 4 m))) 20) 0x3ffffff),
    (Z.land (Z.shiftr (Z.lor (u64 (Z.shiftl (U8TO32_LE (drop 12 m)) 32)) (U8TO32_LE (drop 8 m))) 14) 0x3ffffff).
  intros a b c d e (La & Lb & Lc & Ld & Le & E). rewrite <- E.
  unfold limb, H0_MAX, added_limbs, accumulator, limbs, H0_MAX in *. cbn [h0 h1 h2 h3 h4 with_h].
  rewrite !(wrap_small 32) by (zconst; lia). zconst. lia.
Qed.

(** ** Multiplication *)

(** Carrying through limbs that do not exceed these sums. *)
Lemma carry_chain t0 t1 t2 t3 t4 :
  0 <= t0 < 2 ^ 60 -> 0 <= t1 <= 284 * 10 ^ 15 -> 0 <= t2 <= 284 * 10 ^ 15 -> 0 <= t3 <= 284 * 10 ^ 15 -> 0 <= t4 <= 3676 * 10 ^ 13 ->
  let u1 := t1 + t0 / 2 ^ 26 in let u2 := t2 + u1 / 2 ^ 26 in let u3 := t3 + u2 / 2 ^ 26 in let u4 := t4 + u3 / 2 ^ 26 in
  u1 / 2 ^ 26 < 2 ^ 32 /\ u2 / 2 ^ 26 < 2 ^ 32 /\ u3 / 2 ^ 26 < 2 ^ 32 /\ u4 / 2 ^ 26 * 5 + 2 ^ 26 <= H0_MAX /\
  0 <= u1 < 2 ^ 64 /\ 0 <= u2 < 2 ^ 64 /\ 0 <= u3 < 2 ^ 64 /\ 0 <= u4 < 2 ^ 64 /\
  limbs (t0 mod 2 ^ 26 + u4 / 2 ^ 26 * 5) (u1 mod 2 ^ 26) (u2 mod 2 ^ 26) (u3 mod 2 ^ 26) (u4 mod 2 ^ 26) =
  limbs t0 t1 t2 t3 t4 - p1305 * (u4 / 2 ^ 26).
Proof.
  intros. unfold limbs, p1305, H0_MAX. zconst. change (10 ^ 15) with 1000000000000000 in *. change (10 ^ 13) with 10000000000000 in *.
  subst u1 u2 u3 u4. Z.to_euclidean_division_equations. lia.
Qed.

Lemma mul_bound a b A B : 0 <= a <= A -> 0 <= b <= B -> 0 <= a * b <= A * B.
Proof. nia. Qed.

Lemma low26_u32 x : Z.land (u32 x) 0x3ffffff = x mod 2 ^ 26.
Proof. rewrite low26. apply (wrap_wrap_le 26 32). lia. Qed.

(** The carries of [donna_mul] on exact sums. *)
Definition carried (t0 t1 t2 t3 t4 : Z) : Z * Z * Z * Z * Z :=
  let u1 := t1 + t0 / 2 ^ 26 in let u2 := t2 + u1 / 2 ^ 26 in let u3 := t3 + u2 / 2 ^ 26 in let u4 := t4 + u3 / 2 ^ 26 in
  (t0 mod 2 ^ 26 + u4 / 2 ^ 26 * 5, u1 mod 2 ^ 26, u2 mod 2 ^ 26, u3 mod 2 ^ 26, u4 mod 2 ^ 26).

(** Every product of two bounded values, as a bounded value. *)
Ltac multiply_out :=
  repeat match goal with
  | A : 0 <= ?a <= _, B : 0 <= ?b <= _ |- context [?a * ?b] =>
      let M := fresh "M" in pose proof (mul_bound _ _ _ _ A B) as M;
      let x := fresh "x" in set (x := a * b) in *; clearbody x;
      match type of M with _ <= _ <= ?c => let c' := eval vm_compute in c in change c with c' in M end
  end.

Lemma donna_carry_exact st t0 t1 t2 t3 t4 :
  0 <= t0 < 2 ^ 60 -> 0 <= t1 <= 284 * 10 ^ 15 -> 0 <= t2 <= 284 * 10 ^ 15 -> 0 <= t3 <= 284 * 10 ^ 15 -> 0 <= t4 <= 3676 * 10 ^ 13 ->
  donna_carry st t0 t1 t2 t3 t4 = let '(a, b, c, d, e) := carried t0 t1 t2 t3 t4 in with_h st a b c d e.
Proof.
  intros T0 T1 T2 T3 T4. destruct (carry_chain _ _ _ _ _ T0 T1 T2 T3 T4) as (C1 & C2 & C3 & C4 & U1 & U2 & U3 & U4 & _).
  unfold donna_carry, carried. rewrite !Z.shiftr_div_pow2 by lia.
  rewrite (wrap_small 64 (t1 + _)) by exact U1. set (u1 := t1 + t0 / 2 ^ 26) in *.
  assert (D1 : 0 <= u1 / 2 ^ 26) by (apply Z.div_pos; [apply U1 | reflexivity]).
  rewrite (wrap_small 32 (u1 / _)) by lia. rewrite (wrap_small 64 (t2 + _)) by exact U2. set (u2 := t2 + u1 / 2 ^ 26) in *.
  assert (D2 : 0 <= u2 / 2 ^ 26) by (apply Z.div_pos; [apply U2 | reflexivity]).
  rewrite (wrap_small 32 (u2 / _)) by lia. rewrite (wrap_small 64 (t3 + _)) by exact U3. set (u3 := t3 + u2 / 2 ^ 26) in *.
  assert (D3 : 0 <= u3 / 2 ^ 26) by (apply Z.div_pos; [apply U3 | reflexivity]).
  rewrite (wrap_small 32 (u3 / _)) by lia. rewrite (wrap_small 64 (t4 + _)) by exact U4. set (u4 := t4 + u3 / 2 ^ 26) in *.
  assert (D4 : 0 <= u4 / 2 ^ 26) by (apply Z.div_pos; [apply U4 | reflexivity]).
  pose proof (Z.mod_pos_bound t0 (2 ^ 26) ltac:(reflexivity)). unfold H0_MAX in C4. rewrite !low26_u32.
  rewrite (wrap_small 32 (u4 / _)) by (zconst; lia). rewrite (wrap_small 32 (_ * 5)) by (zconst; lia).
  rewrite (wrap_small 32 (_ + _)) by (zconst; lia). reflexivity.
Qed.

Section Product.
Variable st : poly1305_state_st.

(** The sums of products, exactly. *)
Definition sum0 : Z := h0 st * r0 st + h1 st * s4 st + h2 st * s3 st + h3 st * s2 st + h4 st * s1 st.
Definition sum1 : Z := h0 st * r1 st + h1 st * r0 st + h2 st * s4 st + h3 st * s3 st + h4 st * s2 st.
Definition sum2 : Z := h0 st * r2 st + h1 st * r1 st + h2 st * r0 st + h3 st * s4 st + h4 st * s3 st.
Definition sum3 : Z := h0 st * r3 st + h1 st * r2 st + h2 st * r1 st + h3 st * r0 st + h4 st * s4 st.
Definition sum4 : Z := h0 st * r4 st + h1 st * r3 st + h2 st * r2 st + h3 st * r1 st + h4 st * r0 st.

Lemma sums_product r : multiplier st r ->
  limbs sum0 sum1 sum2 sum3 sum4 mod p1305 = accumulator st * r mod p1305.
Proof.
  intros [<- _ (E1 & E2 & E3 & E4)].
  set (k := limbs (h1 st * r4 st + h2 st * r3 st + h3 st * r2 st + h4 st * r1 st) (h2 st * r4 st + h3 st * r3 st + h4 st * r2 st)
                  (h3 st * r4 st + h4 st * r3 st) (h4 st * r4 st) 0).
  rewrite <- (Z.mod_add _ k) by discriminate. f_equal.
  unfold sum0, sum1, sum2, sum3, sum4, accumulator, k, limbs, p1305. rewrite E1, E2, E3, E4. zconst. ring.
Qed.

Lemma products_exact r : multiplier st r -> added_limbs st ->
  0 <= sum0 < 2 ^ 60 /\ 0 <= sum1 <= 284 * 10 ^ 15 /\ 0 <= sum2 <= 284 * 10 ^ 15 /\ 0 <= sum3 <= 284 * 10 ^ 15 /\ 0 <= sum4 <= 3676 * 10 ^ 13 /\
  donna_mul st = let '(a, b, c, d, e) := carried sum0 sum1 sum2 sum3 sum4 in with_h st a b c d e.
Proof.
  intros [_ (R0 & R1 & R2 & R3 & R4) (S1 & S2 & S3 & S4)] (B0 & B1 & B2 & B3 & B4).
  assert (Q1 : 0 <= s1 st <= 335543055) by lia. assert (Q2 : 0 <= s2 st <= 335463675) by lia.
  assert (Q3 : 0 <= s3 st <= 330383355) by lia. assert (Q4 : 0 <= s4 st <= 5242875) by lia.
  unfold H0_MAX in B0. zconst. clear S1 S2 S3 S4.
  assert (C1 : 0 <= h1 st <= 134217727) by lia. assert (C2 : 0 <= h2 st <= 134217727) by lia.
  assert (C3 : 0 <= h3 st <= 134217727) by lia. assert (C4 : 0 <= h4 st <= 100663295) by lia.
  clear B1 B2 B3 B4.
  unfold donna_mul, mul32x32_64, sum0, sum1, sum2, sum3, sum4.
  multiply_out. change (10 ^ 15) with 1000000000000000. change (10 ^ 13) with 10000000000000.
  splits; try lia.
  repeat match goal with |- context [wrap 64 ?v] => is_var v; rewrite (wrap_small 64 v) by (zconst; lia) end.
  rewrite !(wrap_small 64) by (zconst; lia). apply donna_carry_exact; zconst; lia.
Qed.
End Product.

Lemma donna_mul_ok st r : multiplier st r -> added_limbs st ->
  let st' := donna_mul st in
  small_limbs st' /\ accumulator st' mod p1305 = accumulator st * r mod p1305 /\ multiplier st' r.
Proof.
  intros M A. cbv zeta. split; [| split; [| now apply multiplier_with_h]];
  destruct (products_exact st r M A) as (T0 & T1 & T2 & T3 & T4 & ->);
  destruct (carry_chain _ _ _ _ _ T0 T1 T2 T3 T4) as (_ & _ & _ & C & _ & _ & _ & U & E); unfold carried.
  - pose proof (Z.mod_pos_bound (sum0 st) (2 ^ 26) ltac:(reflexivity)).
    assert (0 <= (sum4 st + (sum3 st + (sum2 st + (sum1 st + sum0 st / 2 ^ 26) / 2 ^ 26) / 2 ^ 26) / 2 ^ 26) / 2 ^ 26) by (apply Z.div_pos; [apply U | reflexivity]).
    unfold small_limbs, limb. cbn [h0 h1 h2 h3 h4 with_h]. splits; try (apply Z.mod_pos_bound; reflexivity); lia.
  - unfold accumulator at 1. cbn [h0 h1 h2 h3 h4 with_h]. rewrite E, <- (sums_product st r M).
    rewrite Z.mul_comm, <- Z.add_opp_r, <- Z.mul_opp_l. now apply Z.mod_add.
Qed.

(** ** Blocks *)

(** The state has accumulated [acc] under the multiplier [r]. *)
Record tracked (st : poly1305_state_st) (r acc : Z) : Prop := {
  t_mult : multiplier st r;
  t_small : small_limbs st;
  t_acc : accumulator st mod p1305 = acc mod p1305 }.

Definition same_buffer (st st' : poly1305_state_st) : Prop :=
  pbuf st' = pbuf st /\ buf_used st' = buf_used st /\ pkey st' = pkey st.

Lemma same_buffer_trans st st' st'' : same_buffer st st' -> same_buffer st' st'' -> same_buffer st st''.
Proof. intros (E1 & E2 & E3) (F1 & F2 & F3). repeat split; congruence. Qed.

Lemma block_ok top hi st r acc m : tracked st r acc -> bytes_ok m -> 16 <= len m -> 0 <= hi <= 1 ->
  (forall t, word32 t -> top t = t / 2 ^ 8 + hi * 2 ^ 24) ->
  let st' := donna_mul (add_block top st m) in
  tracked st' r ((acc + (le_bytes_val (take 16 m) + hi * 2 ^ 128)) * r mod p1305) /\ same_buffer st st'.
Proof.
  intros [M S E] Hb Hl Hh Ht. cbv zeta. destruct (add_block_ok top hi st m S Hb Hl Hh Ht) as [A V].
  destruct (donna_mul_ok (add_block top st m) r (multiplier_with_h _ _ _ _ _ _ _ M) A) as (S' & E' & M').
  split; [| repeat split]. split; [exact M' | exact S' |].
  rewrite E', V, Zmod_mod, <- Z.add_assoc, <- (Z.mul_mod_idemp_l (_ + _)), <- (Z.add_mod_idemp_l (accumulator st)), E by discriminate.
  now rewrite Z.add_mod_idemp_l, Z.mul_mod_idemp_l by discriminate.
Qed.

Lemma full_top t : word32 t -> Z.lor (Z.shiftr t 8) (Z.shiftl 1 24) = t / 2 ^ 8 + 1 * 2 ^ 24.
Proof.
  intros Ht. unfold word32 in Ht. rewrite Z.lor_comm, Z.shiftr_div_pow2, lor_disjoint_add by (zconst; word_lia). lia.
Qed.

Lemma part_top t : word32 t -> Z.shiftr t 8 = t / 2 ^ 8 + 0 * 2 ^ 24.
Proof. intros _. rewrite Z.shiftr_div_pow2 by lia. lia. Qed.

Definition rfc_step (r acc : Z) (m : list Z) : Z := (acc + le_bytes_val (m ++ [1])) * r mod p1305.

Lemma full_block_value m : bytes_ok m -> 16 <= len m ->
  le_bytes_val (take 16 m ++ [1]) = le_bytes_val (take 16 m) + 1 * 2 ^ 128.
Proof. intros. rewrite le_bytes_val_app, len_take by lia. change (le_bytes_val [1]) with 1. change (256 ^ 16) with (2 ^ 128). lia. Qed.

Lemma le_bytes_zeros l n : le_bytes_val (l ++ repeat 0 n) = le_bytes_val l.
Proof.
  rewrite le_bytes_val_app. replace (le_bytes_val (repeat 0 n)) with 0; [lia |].
  induction n as [| n IH]; [reflexivity |]. cbn [repeat]. rewrite le_bytes_val_cons, <- IH. reflexivity.
Qed.

Definition rfc_all (r acc : Z) (msg : list Z) : Z := rfc_blocks (length msg) r acc msg.

Lemma rfc_blocks_fuel r msg : forall fuel acc, (length msg <= fuel)%nat -> rfc_blocks fuel r acc msg = rfc_all r acc msg.
Proof.
  induction msg as [msg IH] using len_ind. intros fuel acc Hf. unfold rfc_all.
  destruct msg as [| b msg]; [destruct fuel; reflexivity |]. destruct fuel as [| fuel]; [cbn in Hf; lia |].
  assert (L : len (drop 16 (b :: msg)) < len (b :: msg)) by (unfold drop, len; rewrite length_skipn; cbn [length]; lia).
  assert (L' : (length (drop 16 (b :: msg)) <= length msg)%nat) by (unfold len in L; cbn [length] in L; lia).
  cbn [length rfc_blocks] in *. destruct (Z.eqb_spec (len (b :: msg)) 0); [reflexivity |].
  rewrite !(IH (drop 16 (b :: msg)) L) by lia. reflexivity.
Qed.

Lemma rfc_all_step r acc msg : 0 < len msg -> rfc_all r acc msg = rfc_all r (rfc_step r acc (take 16 msg)) (drop 16 msg).
Proof.
  intros H. destruct msg as [| b msg]; [cbn in H; lia |]. unfold rfc_all at 1. cbn [length rfc_blocks].
  destruct (Z.eqb_spec (len (b :: msg)) 0); [lia |]. apply rfc_blocks_fuel.
  unfold drop. rewrite length_skipn. cbn [length]. lia.
Qed.

Lemma rfc_all_app r msg rest : forall acc, len msg mod 16 = 0 -> rfc_all r acc (msg ++ rest) = rfc_all r (rfc_all r acc msg) rest.
Proof.
  induction msg as [msg IH] using len_ind. intros acc Hm. destruct (Z.eq_dec (len msg) 0) as [E | E].
  { now rewrite (len_0_nil msg E). }
  pose proof (len_nonneg msg). assert (16 <= len msg) by word_lia. pose proof (len_nonneg rest).
  rewrite rfc_all_step, (rfc_all_step r acc msg) by (rewrite ?len_app; lia).
  rewrite take_app_l, drop_app_l by lia. apply IH; rewrite len_drop by lia; [lia |]. word_lia.
Qed.

Lemma donna_16bytes_ok r fuel : forall st acc m, tracked st r acc -> bytes_ok m -> 16 <= len m -> len m mod 16 = 0 -> len m <= 16 * Z.of_nat fuel ->
  exists st', donna_16bytes fuel st m = (st', []) /\ tracked st' r (rfc_all r acc m) /\ same_buffer st st'.
Proof.
  induction fuel as [| fuel IH]; intros st acc m T Hb Hl Hm Hf; [lia |]. cbn [donna_16bytes].
  destruct (block_ok _ 1 st r acc m T Hb Hl ltac:(lia) full_top) as [T' B].
  rewrite <- full_block_value in T' by assumption. set (st1 := donna_mul _) in *.
  rewrite rfc_all_step by lia. unfold rfc_step. rewrite len_drop by lia.
  destruct (Z.leb_spec 16 (len m - 16)).
  - destruct (IH st1 _ (drop 16 m) T') as (st' & E & T2 & B2); [auto with bytes | rewrite len_drop by lia; word_lia .. |].
    exists st'. split; [exact E |]. split; [exact T2 | now apply (same_buffer_trans st st1)].
  - rewrite drop_all by word_lia. exists st1. split; [reflexivity |]. split; [exact T' | exact B].
Qed.

(** Whole blocks. *)
Lemma update_whole st r acc m : tracked st r acc -> bytes_ok m -> len m mod 16 = 0 ->
  tracked (poly1305_update st m) r (rfc_all r acc m) /\ same_buffer st (poly1305_update st m).
Proof.
  intros T Hb Hm. pose proof (len_nonneg m). unfold poly1305_update.
  destruct (Z.ltb_spec (len m) 16).
  - rewrite (len_0_nil m) by word_lia. now repeat split; try apply T.
  - destruct (donna_16bytes_ok r (length m) st acc m T Hb) as (st' & -> & T' & B); try assumption; [unfold len; lia |].
    split; assumption.
Qed.

(** The last bytes. *)
Lemma update_last st r acc m : tracked st r acc -> bytes_ok m -> 0 < len m < 16 ->
  tracked (poly1305_update st m) r (rfc_all r acc m) /\ same_buffer st (poly1305_update st m).
Proof.
  intros T Hb Hm. unfold poly1305_update. destruct (Z.ltb_spec (len m) 16); [| lia].
  destruct (Z.eqb_spec (len m) 0); [lia |]. cbv zeta.
  set (mp := m ++ [1] ++ repeat 0 (Z.to_nat (15 - len m))).
  assert (Lp : len mp = 16) by (unfold mp; rewrite !len_app, len_repeat, len_cons, len_nil; lia).
  assert (Bp : bytes_ok mp).
  { unfold mp. apply bytes_ok_app. split; [exact Hb |]. apply bytes_ok_app. split; [repeat constructor; unfold byte_ok; lia |].
    apply Forall_forall. intros x Hx%repeat_spec. subst x. unfold byte_ok; lia. }
  destruct (block_ok _ 0 st r acc mp T Bp ltac:(lia) ltac:(lia) part_top) as [T' B]. split; [| exact B].
  assert (Ev : le_bytes_val mp = le_bytes_val (m ++ [1])) by (unfold mp; now rewrite app_assoc, le_bytes_zeros).
  rewrite take_all, Ev, Z.mul_0_l, Z.add_0_r in T' by lia.
  rewrite rfc_all_step, take_all, drop_all by lia. unfold rfc_step, rfc_all. cbn [length rfc_blocks].
  exact T'.
Qed.

(** ** One call or many *)

Definition FULL (t3 : Z) : Z := Z.lor (Z.shiftr t3 8) (Z.shiftl 1 24).

Lemma add_block_app top st a b : 16 <= len a -> add_block top st (a ++ b) = add_block top st a.
Proof.
  intros Ha. unfold add_block, U8TO32_LE.
  rewrite !drop_app_l, !take_app_l by (rewrite ?len_drop; lia). reflexivity.
Qed.

Lemma donna_fuel k : forall fuel st m, (length m <= k)%nat -> (length m <= fuel)%nat ->
  donna_16bytes fuel st m = donna_16bytes k st m \/ len m < 16.
Proof.
  induction k as [| k IH]; intros fuel st m Hk Hf; [right; unfold len; lia |].
  destruct (Z.lt_ge_cases (len m) 16) as [? | Hm]; [now right | left].
  destruct fuel as [| fuel]; [unfold len in Hm; lia |]. cbn [donna_16bytes].
  assert (Hd : (length (drop 16 m) <= length m - 16)%nat) by (unfold drop; rewrite length_skipn; lia).
  destruct (Z.leb_spec 16 (len (drop 16 m))); [| reflexivity].
  destruct (IH fuel (donna_mul (add_block FULL st m)) (drop 16 m)) as [E | E]; [lia | lia | exact E | lia].
Qed.

Lemma update_step st m : 16 <= len m ->
  poly1305_update st m = poly1305_update (donna_mul (add_block FULL st m)) (drop 16 m).
Proof.
  intros Hm. unfold poly1305_update at 1. destruct (Z.ltb_spec (len m) 16); [lia |].
  destruct (length m) as [| k] eqn:El; [unfold len in Hm; lia |]. cbn [donna_16bytes]. fold FULL.
  change (fun t3 => FULL t3) with FULL. set (st1 := donna_mul (add_block FULL st m)).
  assert (Ld : length (drop 16 m) = (S k - 16)%nat) by (unfold drop; now rewrite length_skipn, El).
  unfold poly1305_update. destruct (Z.leb_spec 16 (len (drop 16 m))) as [H16 | H16].
  - destruct (Z.ltb_spec (len (drop 16 m)) 16); [lia |].
    destruct (donna_fuel (length (drop 16 m)) k st1 (drop 16 m)) as [-> | ?]; [lia | lia | reflexivity | lia].
  - destruct (Z.ltb_spec (len (drop 16 m)) 16); [reflexivity | lia].
Qed.

Lemma update_app a : forall st b, len a mod 16 = 0 -> poly1305_update st (a ++ b) = poly1305_update (poly1305_update st a) b.
Proof.
  induction a as [a IH] using len_ind. intros st b Ha. destruct (Z.eq_dec (len a) 0) as [E | E].
  { rewrite (len_0_nil a E). reflexivity. }
  pose proof (len_nonneg a). pose proof (len_nonneg b). assert (16 <= len a) by word_lia.
  rewrite !(update_step st) by (rewrite ?len_app; lia). rewrite add_block_app, drop_app_l by lia.
  apply IH; rewrite len_drop by lia; [lia | word_lia].
Qed.

Lemma with_h_buf st x n a b c d e : with_h (with_buf st x n) a b c d e = with_buf (with_h st a b c d e) x n.
Proof. reflexivity. Qed.

Lemma donna_with_buf top st m b n :
  donna_mul (add_block top (with_buf st b n) m) = with_buf (donna_mul (add_block top st m)) b n.
Proof.
  assert (A : add_block top (with_buf st b n) m = with_buf (add_block top st m) b n).
  { unfold add_block. cbn [h0 h1 h2 h3 h4 with_buf]. apply with_h_buf. }
  rewrite A. generalize (add_block top st m). clear. intros st. unfold donna_mul.
  cbn [h0 h1 h2 h3 h4 r0 r1 r2 r3 r4 s1 s2 s3 s4 with_buf]. unfold donna_carry. apply with_h_buf.
Qed.

Lemma update_with_buf m : forall st b n, poly1305_update (with_buf st b n) m = with_buf (poly1305_update st m) b n.
Proof.
  induction m as [m IH] using len_ind. intros st b n. destruct (Z.lt_ge_cases (len m) 16) as [Hm | Hm].
  - unfold poly1305_update. destruct (Z.ltb_spec (len m) 16); [| lia]. destruct (len m =? 0); [reflexivity | apply donna_with_buf].
  - rewrite (update_step (with_buf st b n) m), (update_step st m), donna_with_buf by assumption. apply IH. rewrite len_drop; lia.
Qed.

(** ** The key *)

Lemma add_as_lor n a b : 0 <= n -> 0 <= a < 2 ^ n -> a + 2 ^ n * b = Z.lor (Z.shiftl b n) a.
Proof. intros. rewrite lor_disjoint_add by assumption. lia. Qed.

Lemma land_limbs n a b c d : 0 <= n -> 0 <= a < 2 ^ n -> 0 <= c < 2 ^ n ->
  Z.land (a + 2 ^ n * b) (c + 2 ^ n * d) = Z.land a c + 2 ^ n * Z.land b d.
Proof.
  intros Hn Ha Hc. rewrite !add_as_lor by (try apply land_range; lia).
  apply Z.bits_inj'. intros i Hi. rewrite !Z.land_spec, !Z.lor_spec, !Z.land_spec, !Z.shiftl_spec, !Z.land_spec by lia.
  destruct (Z.lt_ge_cases i n).
  - rewrite !(Z.testbit_neg_r _ (i - n)) by lia. reflexivity.
  - rewrite !(testbit_high n a), !(testbit_high n c) by lia. now rewrite andb_false_r, !orb_false_r.
Qed.

Lemma land_low26 y m : limb m -> Z.land y m = Z.land (y mod 2 ^ 26) m.
Proof.
  intros Hm. rewrite <- Z.land_ones, <- Z.land_assoc by lia. f_equal. rewrite Z.land_comm, Z.land_ones by lia.
  symmetry. now apply Z.mod_small.
Qed.

(** The middle limbs of the key, as the code shifts them together. *)
Lemma shifted_limb lo hi k : 6 < k < 32 -> word32 lo -> word32 hi ->
  Z.lor (Z.shiftr lo k) (u32 (Z.shiftl hi (32 - k))) = hi mod 2 ^ k * 2 ^ (32 - k) + lo / 2 ^ k.
Proof.
  unfold word32. intros Hk Hl Hh. rewrite Z.lor_comm.
  assert (E : u32 (Z.shiftl hi (32 - k)) = Z.shiftl (hi mod 2 ^ k) (32 - k)).
  { rewrite !Z.shiftl_mul_pow2 by lia. unfold wrap. replace (2 ^ 32) with (2 ^ k * 2 ^ (32 - k)) by (rewrite <- Z.pow_add_r by lia; f_equal; lia).
    apply Z.mul_mod_distr_r; apply Z.pow_nonzero; lia. }
  assert (B : 0 <= lo / 2 ^ k < 2 ^ (32 - k)).
  { split; [apply Z.div_pos; [lia | apply Z.pow_pos_nonneg; lia] |]. apply Z.div_lt_upper_bound; [apply Z.pow_pos_nonneg; lia |].
    rewrite <- Z.pow_add_r by lia. replace (k + (32 - k)) with 32 by lia. lia. }
  now rewrite E, Z.shiftr_div_pow2, lor_disjoint_add by lia.
Qed.

Lemma clamp_limbs x0 x1 x2 x3 x4 : limb x0 -> limb x1 -> limb x2 -> limb x3 ->
  clamp (limbs x0 x1 x2 x3 x4) =
  limbs (Z.land x0 0x3ffffff) (Z.land x1 0x3ffff03) (Z.land x2 0x3ffc0ff) (Z.land x3 0x3f03fff) (Z.land x4 0xfffff).
Proof.
  unfold limb. intros. unfold clamp.
  assert (E : forall a b c d e, limbs a b c d e = a + 2 ^ 26 * (b + 2 ^ 26 * (c + 2 ^ 26 * (d + 2 ^ 26 * e)))).
  { intros. unfold limbs. change (2 ^ 52) with (2 ^ 26 * 2 ^ 26). change (2 ^ 78) with (2 ^ 26 * 2 ^ 26 * 2 ^ 26).
    change (2 ^ 104) with (2 ^ 26 * 2 ^ 26 * 2 ^ 26 * 2 ^ 26). ring. }
  rewrite !E.
  change 0x0ffffffc0ffffffc0ffffffc0fffffff with (0x3ffffff + 2 ^ 26 * (0x3ffff03 + 2 ^ 26 * (0x3ffc0ff + 2 ^ 26 * (0x3f03fff + 2 ^ 26 * 0xfffff)))).
  rewrite !(land_limbs 26) by (assumption || lia || (split; [discriminate | reflexivity])). reflexivity.
Qed.

Lemma land_bound x m : 0 <= m -> 0 <= Z.land x m <= m.
Proof.
  intros Hm. split; [apply Z.land_nonneg; now right |]. destruct (Z.le_gt_cases (Z.land x m) m) as [H | H]; [exact H | exfalso].
  assert (E : m = Z.lor (Z.land x m) (Z.ldiff m x)) by bits.
  assert (N : Z.land (Z.land x m) (Z.ldiff m x) = 0) by (apply Z.bits_inj'; intros i Hi; rewrite !Z.land_spec, Z.ldiff_spec, Z.bits_0 by lia; btauto).
  rewrite <- Z.lxor_lor, <- Z.add_nocarry_lxor in E by exact N.
  assert (0 <= Z.ldiff m x) by (apply Z.ldiff_nonneg; now left). lia.
Qed.

Lemma init_ok junk key : bytes_ok key -> len key = 32 ->
  let st := CRYPTO_poly1305_init junk key in
  tracked st (rfc_r key) 0 /\ pbuf st = junk /\ buf_used st = 0 /\ pkey st = drop 16 key.
Proof.
  intros Hb Hl. cbv zeta. destruct (le_words_16 key Hb ltac:(lia)) as (W0 & W1 & W2 & W3 & E).
  split; [| unfold CRYPTO_poly1305_init; cbn [pbuf buf_used pkey]; repeat split; unfold load; apply take_all; rewrite len_drop; lia].
  constructor; [| unfold small_limbs, limb, CRYPTO_poly1305_init, H0_MAX; cbn; lia | reflexivity].
  unfold rfc_r. rewrite <- E. clear E. unfold CRYPTO_poly1305_init. revert W0 W1 W2 W3.
  generalize (U8TO32_LE key), (U8TO32_LE (drop 4 key)), (U8TO32_LE (drop 8 key)), (U8TO32_LE (drop 12 key)).
  intros t0 t1 t2 t3 W0 W1 W2 W3. cbv zeta.
  destruct (words_limbs t0 t1 t2 t3 W0 W1 W2 W3) as (L0 & L1 & L2 & L3 & L4 & <-).
  rewrite clamp_limbs by assumption. rewrite !join64, !low26, !Z.shiftr_div_pow2 by (assumption || lia).
  pose proof (shifted_limb t0 t1 26 ltac:(lia) W0 W1) as F1. pose proof (shifted_limb t1 t2 20 ltac:(lia) W1 W2) as F2.
  pose proof (shifted_limb t2 t3 14 ltac:(lia) W2 W3) as F3.
  change (32 - 26) with 6 in F1. change (32 - 20) with 12 in F2. change (32 - 14) with 18 in F3.
  rewrite Z.shiftr_div_pow2 in F1, F2, F3 by lia. rewrite F1, F2, F3. clear F1 F2 F3.
  assert (R : forall x m, 0 <= m -> m * 5 < 2 ^ 32 -> u32 (Z.land x m * 5) = 5 * Z.land x m).
  { intros x m Hm H5. pose proof (land_bound x m Hm). rewrite wrap_small by lia. lia. }
  constructor; cbn [r0 r1 r2 r3 r4 s1 s2 s3 s4].
  - rewrite Zmod_mod, (land_low26 (_ * _ + _) 0x3ffff03), (land_low26 (_ * _ + _) 0x3ffc0ff), (land_low26 (_ * _ + _) 0x3f03fff) by (split; [discriminate | reflexivity]).
    unfold word32 in *. f_equal; f_equal; zconst; Z.to_euclidean_division_equations; lia.
  - split; [pose proof (Z.mod_pos_bound t0 (2 ^ 26) ltac:(reflexivity)); lia |]. do 3 (split; [now apply land_bound |]). now apply land_bound.
  - splits; apply R; discriminate || reflexivity.
Qed.

(** ** The stream *)

Lemma tracked_with_buf st r acc b n : tracked st r acc -> tracked (with_buf st b n) r acc.
Proof. intros [[] S E]. constructor; [now constructor | exact S | exact E]. Qed.

(** The state that has taken the whole blocks [whole] and holds a buffer. *)
Definition after (key whole b : list Z) (n : Z) : poly1305_state_st :=
  with_buf (poly1305_update (CRYPTO_poly1305_init [] key) whole) b n.

Lemma after_update key whole m b n : len whole mod 16 = 0 -> poly1305_update (after key whole b n) m = after key (whole ++ m) b n.
Proof. intros H. unfold after. now rewrite update_with_buf, update_app. Qed.

Lemma after_with_buf key whole b n b' n' : with_buf (after key whole b n) b' n' = after key whole b' n'.
Proof. reflexivity. Qed.

(** The state after [msg]: the whole blocks are accumulated and the rest waits in
    the buffer. *)
Record collected (st : poly1305_state_st) (key whole rest b : list Z) : Prop := {
  c_state : st = after key whole b (len rest);
  c_whole : len whole mod 16 = 0;
  c_rest : len rest < 16;
  c_buf : len b = 16;
  c_bytes : take (len rest) b = rest }.

Definition has_taken (st : poly1305_state_st) (key msg : list Z) : Prop :=
  exists whole rest b, msg = whole ++ rest /\ collected st key whole rest b.

Lemma poly_init_taken junk key : len junk = 16 -> has_taken (CRYPTO_poly1305_init junk key) key [].
Proof. intros Hj. exists [], [], junk. split; [reflexivity |]. now constructor. Qed.

Lemma land_lnot15 n : 0 <= n -> Z.land n (Z.lnot 0xf) = n / 16 * 16.
Proof.
  intros Hn. change 0xf with (Z.ones 4). rewrite <- Z.ldiff_land, Z.ldiff_ones_r, Z.shiftl_mul_pow2, Z.shiftr_div_pow2 by lia. reflexivity.
Qed.

(** The rest of an update, from an empty buffer. *)
Lemma update_from_empty st key whole b d : collected st key whole [] b ->
  has_taken (let '(st, inp) := if 16 <=? len d then
               let todo := Z.land (len d) (Z.lnot 0xf) in (poly1305_update st (take todo d), drop todo d) else (st, d) in
             if negb (len inp =? 0) then with_buf st (splice (pbuf st) 0 inp) (len inp) else st) key (whole ++ d).
Proof.
  intros [-> Hw Hr Lb Et]. pose proof (len_nonneg d). change (len (@nil Z)) with 0 in *.
  assert (X : exists n, 0 <= n <= len d /\ len d - n < 16 /\ n mod 16 = 0 /\
    (if 16 <=? len d then let todo := Z.land (len d) (Z.lnot 0xf) in (poly1305_update (after key whole b 0) (take todo d), drop todo d)
     else (after key whole b 0, d)) = (after key (whole ++ take n d) b 0, drop n d)).
  { destruct (Z.leb_spec 16 (len d)) as [H16 | H16].
    - cbv zeta. rewrite land_lnot15 by lia. exists (len d / 16 * 16). rewrite after_update by assumption. splits; try reflexivity; word_lia.
    - exists 0. rewrite take_0, app_nil_r, drop_0. splits; try lia; reflexivity. }
  destruct X as (n & Hn & Hs & Hm & ->). pose proof (len_drop n d ltac:(lia)) as Ld.
  assert (Ew : len (whole ++ take n d) mod 16 = 0) by (rewrite len_app, len_take by lia; word_lia).
  exists (whole ++ take n d), (drop n d), (if len (drop n d) =? 0 then b else splice b 0 (drop n d)).
  split; [now rewrite <- app_assoc, take_drop |].
  destruct (Z.eqb_spec (len (drop n d)) 0) as [E0 | N0]; cbn [negb].
  - constructor; try assumption; try lia; [now rewrite E0 | now rewrite (len_0_nil (drop n d))].
  - constructor; try assumption; try lia; [reflexivity | rewrite len_splice; lia |].
    rewrite <- (Z.add_0_l (len (drop n d))). rewrite take_splice by lia. reflexivity.
Qed.

(** Filling the buffer. *)
Lemma fill_buffer st key whole rest b d : collected st key whole rest b -> 0 < len rest ->
  let todo := Z.min (len d) (16 - len rest) in
  let st1 := with_buf st (splice (pbuf st) (buf_used st) (take todo d)) (u32 (buf_used st + todo)) in
  let st1 := if buf_used st1 =? 16 then let st := poly1305_update st1 (pbuf st1) in with_buf st (pbuf st) 0 else st1 in
  exists whole' rest' b', whole ++ rest ++ take todo d = whole' ++ rest' /\ collected st1 key whole' rest' b' /\ (rest' = [] \/ todo = len d).
Proof.
  intros [-> Hw Hr Lb Et] Hp. cbv zeta. set (todo := Z.min _ _). unfold after at 1 2. cbn [buf_used with_buf pbuf].
  pose proof (len_nonneg d). change (pbuf (after key whole b (len rest))) with b. change (buf_used (after key whole b (len rest))) with (len rest).
  rewrite (wrap_small 32) by (unfold todo; zconst; lia). rewrite after_with_buf.
  assert (Lt : len (take todo d) = todo) by (apply len_take; unfold todo; lia).
  set (b1 := splice b (len rest) (take todo d)).
  assert (Lb' : len b1 = 16) by (unfold b1; rewrite len_splice; rewrite ?Lt; unfold todo; lia).
  assert (Eb : take (len rest + todo) b1 = rest ++ take todo d).
  { pose proof (take_splice b (len rest) (take todo d) ltac:(lia) ltac:(rewrite Lt; unfold todo; lia)) as X. now rewrite Lt, Et in X. }
  destruct (Z.eqb_spec (len rest + todo) 16) as [E16 | N16].
  - assert (Eb' : b1 = rest ++ take todo d) by (rewrite <- Eb; symmetry; apply take_all; lia).
    change (pbuf (after key whole b1 (len rest + todo))) with b1. rewrite after_update, after_with_buf by assumption.
    exists (whole ++ b1), [], b1. splits; [now rewrite Eb', app_nil_r | | now left].
    constructor; try reflexivity; [rewrite len_app, Lb'; word_lia | assumption].
  - exists whole, (rest ++ take todo d), b1. splits; [reflexivity | | right; unfold todo in *; lia].
    constructor; rewrite ?len_app, ?Lt; try assumption; try reflexivity. unfold todo in *. lia.
Qed.

Lemma poly_update_ok st key msg d : has_taken st key msg -> has_taken (CRYPTO_poly1305_update st d) key (msg ++ d).
Proof.
  intros (whole & rest & b & -> & C). pose proof (c_rest _ _ _ _ _ C) as Hr. pose proof (len_nonneg rest). pose proof (len_nonneg d).
  assert (Eu : buf_used st = len rest) by (now rewrite (c_state _ _ _ _ _ C)).
  unfold CRYPTO_poly1305_update. rewrite Eu. destruct (Z.eqb_spec (len rest) 0) as [E0 | N0]; cbn [negb].
  - rewrite (len_0_nil rest E0) in *. rewrite app_nil_r. now apply (update_from_empty st key whole b).
  - destruct (fill_buffer st key whole rest b d C ltac:(lia)) as (w' & r' & b' & Em & C' & D). rewrite Eu in C'.
    rewrite (wrap_small 32 (16 - _)) by (zconst; lia).
    replace (if len d <? 16 - len rest then len d else 16 - len rest) with (Z.min (len d) (16 - len rest)) by (destruct (Z.ltb_spec (len d) (16 - len rest)); lia).
    set (todo := Z.min _ _) in *. cbv zeta in C' |- *. set (st1 := if buf_used _ =? 16 then _ else _) in *.
    destruct D as [-> | Et].
    + pose proof (update_from_empty st1 key w' b' (drop todo d) C') as H1. rewrite app_nil_r in Em. rewrite <- Em in H1.
      rewrite <- !app_assoc, take_drop, app_assoc in H1. exact H1.
    + rewrite Et, drop_all, take_all in * by lia. cbn [len length Z.of_nat Z.leb Z.eqb Z.compare negb].
      exists w', r', b'. now rewrite <- app_assoc.
Qed.

(** ** The tag *)

(** What the last reduction leaves: canonical limbs, or a first limb of 27 bits
    followed by a second one of six. *)
Definition reduced (v a0 a1 a2 a3 a4 : Z) : Prop :=
  limbs a0 a1 a2 a3 a4 = v /\
  (limb a0 /\ limb a1 /\ limb a2 /\ limb a3 /\ limb a4 \/
   2 ^ 26 <= a0 < 2 ^ 26 + 5 /\ 0 <= a1 < 2 ^ 6 - 1 /\ a2 = 0 /\ a3 = 0 /\ a4 = 0).

(** The first pass of carries. *)
Lemma first_pass x0 x1 x2 x3 x4 : 0 <= x0 <= H0_MAX -> limb x1 -> limb x2 -> limb x3 -> limb x4 ->
  let y1 := x1 + x0 / 2 ^ 26 in let y2 := x2 + y1 / 2 ^ 26 in let y3 := x3 + y2 / 2 ^ 26 in let y4 := x4 + y3 / 2 ^ 26 in
  let b := y4 / 2 ^ 26 in
  0 <= y1 < 2 ^ 32 /\ 0 <= y2 < 2 ^ 32 /\ 0 <= y3 < 2 ^ 32 /\ 0 <= y4 < 2 ^ 32 /\
  limbs x0 x1 x2 x3 x4 = limbs (x0 mod 2 ^ 26) (y1 mod 2 ^ 26) (y2 mod 2 ^ 26) (y3 mod 2 ^ 26) (y4 mod 2 ^ 26) + 2 ^ 130 * b /\
  (b = 0 \/ b = 1 /\ y1 mod 2 ^ 26 < 2 ^ 6 - 1 /\ y2 mod 2 ^ 26 = 0 /\ y3 mod 2 ^ 26 = 0 /\ y4 mod 2 ^ 26 = 0).
Proof.
  unfold limb, limbs, H0_MAX. intros. cbv zeta. zconst. Z.to_euclidean_division_equations. lia.
Qed.

(** Adding five, to see whether the number reaches [2^130]. *)
Lemma plus_five a0 a1 a2 a3 a4 : 0 <= a0 < 2 ^ 26 + 5 -> limb a1 -> limb a2 -> limb a3 -> limb a4 ->
  let z1 := a1 + (a0 + 5) / 2 ^ 26 in let z2 := a2 + z1 / 2 ^ 26 in let z3 := a3 + z2 / 2 ^ 26 in let z4 := a4 + z3 / 2 ^ 26 in
  0 <= z1 < 2 ^ 32 /\ 0 <= z2 < 2 ^ 32 /\ 0 <= z3 < 2 ^ 32 /\ 0 <= z4 <= 2 ^ 26 /\
  limbs a0 a1 a2 a3 a4 + 5 = limbs ((a0 + 5) mod 2 ^ 26) (z1 mod 2 ^ 26) (z2 mod 2 ^ 26) (z3 mod 2 ^ 26) z4.
Proof. unfold limb, limbs. intros. cbv zeta. zconst. Z.to_euclidean_division_equations. lia. Qed.

(** The mask made of the sign of the last limb. *)
Lemma select_mask z a g : 0 <= z <= 2 ^ 26 -> word32 a -> word32 g ->
  let b := u32 (Z.shiftr (u32 (z - Z.shiftl 1 26)) 31 - 1) in
  Z.lor (Z.land a (u32 (Z.lnot b))) (Z.land g b) = if z <? 2 ^ 26 then a else g.
Proof.
  intros Hz Ha Hg. cbv zeta. change (Z.shiftl 1 26) with (2 ^ 26). rewrite Z.shiftr_div_pow2 by lia.
  assert (M : forall x, word32 x -> Z.land x (2 ^ 32 - 1) = x).
  { intros x Hx. change (2 ^ 32 - 1) with (Z.ones 32). rewrite Z.land_ones by lia. now apply Z.mod_small. }
  destruct (Z.ltb_spec z (2 ^ 26)) as [H | H].
  - replace (u32 (z - 2 ^ 26) / 2 ^ 31) with 1 by word_lia. change (u32 (1 - 1)) with 0. change (u32 (Z.lnot 0)) with (2 ^ 32 - 1).
    now rewrite M, Z.land_0_r, Z.lor_0_r.
  - replace z with (2 ^ 26) by lia. rewrite Z.sub_diag. change (u32 (u32 0 / 2 ^ 31 - 1)) with (2 ^ 32 - 1).
    change (u32 (Z.lnot (2 ^ 32 - 1))) with 0. now rewrite M, Z.land_0_r, Z.lor_0_l.
Qed.

Lemma limb_mod x : limb (x mod 2 ^ 26).
Proof. now apply Z.mod_pos_bound. Qed.

Lemma limbs_range a b c d e : limb a -> limb b -> limb c -> limb d -> limb e -> 0 <= limbs a b c d e < 2 ^ 130.
Proof. unfold limb, limbs. zconst. lia. Qed.

Lemma finish_limbs_ok x0 x1 x2 x3 x4 : 0 <= x0 <= H0_MAX -> limb x1 -> limb x2 -> limb x3 -> limb x4 ->
  let '(a0, a1, a2, a3, a4) := finish_limbs x0 x1 x2 x3 x4 in reduced (limbs x0 x1 x2 x3 x4 mod p1305) a0 a1 a2 a3 a4.
Proof.
  intros H0 H1 H2 H3 H4. destruct (first_pass x0 x1 x2 x3 x4 H0 H1 H2 H3 H4) as (Y1 & Y2 & Y3 & Y4 & E & Hb).
  unfold finish_limbs. rewrite !Z.shiftr_div_pow2, !low26 by lia.
  rewrite (wrap_small 32 (x1 + _)) by exact Y1. set (y1 := x1 + x0 / 2 ^ 26) in *.
  rewrite (wrap_small 32 (x2 + _)) by exact Y2. set (y2 := x2 + y1 / 2 ^ 26) in *.
  rewrite (wrap_small 32 (x3 + _)) by exact Y3. set (y3 := x3 + y2 / 2 ^ 26) in *.
  rewrite (wrap_small 32 (x4 + _)) by exact Y4. set (y4 := x4 + y3 / 2 ^ 26) in *.
  set (b4 := y4 / 2 ^ 26) in *.
  assert (B4 : b4 = 0 \/ b4 = 1) by (destruct Hb as [-> | [-> _]]; auto).
  rewrite (wrap_small 32 (b4 * 5)) by (destruct B4 as [-> | ->]; split; reflexivity || discriminate).
  pose proof (limb_mod x0) as L0. pose proof (limb_mod y1) as L1. pose proof (limb_mod y2) as L2.
  pose proof (limb_mod y3) as L3. pose proof (limb_mod y4) as L4.
  revert E Hb L0 L1 L2 L3 L4. generalize (x0 mod 2 ^ 26), (y1 mod 2 ^ 26), (y2 mod 2 ^ 26), (y3 mod 2 ^ 26), (y4 mod 2 ^ 26).
  intros l0 l1 l2 l3 l4 E Hb L0 L1 L2 L3 L4. unfold limb in L0.
  rewrite (wrap_small 32 (l0 + _)) by (zconst; lia). set (a0 := l0 + b4 * 5) in *.
  assert (A0 : 0 <= a0 < 2 ^ 26 + 5) by (unfold a0; lia). clearbody b4.
  rewrite (wrap_small 32 (a0 + 5)) by (zconst; lia).
  destruct (plus_five a0 l1 l2 l3 l4 A0 L1 L2 L3 L4) as (Z1 & Z2 & Z3 & Z4 & F).
  rewrite (wrap_small 32 (l1 + _)) by exact Z1. set (z1 := l1 + (a0 + 5) / 2 ^ 26) in *.
  rewrite (wrap_small 32 (l2 + _)) by exact Z2. set (z2 := l2 + z1 / 2 ^ 26) in *.
  rewrite (wrap_small 32 (l3 + _)) by exact Z3. set (z3 := l3 + z2 / 2 ^ 26) in *.
  set (z4 := l4 + z3 / 2 ^ 26) in *.
  assert (W : forall x, limb x -> word32 x) by (unfold limb, word32; zconst; lia).
  assert (W0 : word32 a0) by (unfold word32; zconst; lia).
  rewrite <- (Z.shiftr_div_pow2 (u32 (z4 - Z.shiftl 1 26)) 31) by lia.
  rewrite !(select_mask z4) by (auto using limb_mod; unfold word32; word_lia).
  unfold reduced. destruct (Z.ltb_spec z4 (2 ^ 26)) as [Hz | Hz].
  - (* below [2^130 - 5], or already reduced *)
    split.
    + destruct Hb as [-> | (-> & K)]; [| replace (limbs x0 x1 x2 x3 x4) with (limbs a0 l1 l2 l3 l4 + 1 * p1305) by (rewrite E; unfold a0, limbs, p1305; zconst; lia); rewrite Z.mod_add by discriminate].
      * replace a0 with l0 in * by lia. rewrite E, Z.add_0_r. symmetry. apply Z.mod_small.
        pose proof (limbs_range _ _ _ _ _ L0 L1 L2 L3 L4).
        pose proof (limbs_range _ _ _ _ z4 (limb_mod (l0 + 5)) (limb_mod z1) (limb_mod z2) (limb_mod z3) (conj (proj1 Z4) Hz)). unfold p1305. lia.
      * symmetry. apply Z.mod_small. unfold limbs, p1305, limb in *. zconst. lia.
    + destruct (Z.lt_ge_cases a0 (2 ^ 26)); [left; unfold limb in *; repeat split; lia | right].
      unfold limb, a0 in *. destruct Hb as [-> | (-> & K)]; zconst; lia.
  - (* at least [2^130 - 5] *)
    assert (Ez : z4 = 2 ^ 26) by lia.
    assert (Hv : limbs a0 l1 l2 l3 l4 = p1305 + limbs ((a0 + 5) mod 2 ^ 26) (z1 mod 2 ^ 26) (z2 mod 2 ^ 26) (z3 mod 2 ^ 26) 0)
      by (rewrite Ez in F; revert F; unfold limbs, p1305; zconst; lia).
    replace (u32 (z4 - Z.shiftl 1 26)) with 0 by (rewrite Ez; reflexivity).
    assert (Eb : b4 = 0).
    { destruct Hb as [-> | (-> & K)]; [reflexivity | exfalso]. destruct K as (K1 & -> & -> & ->).
      pose proof (limbs_range _ _ _ _ 0 (limb_mod (a0 + 5)) (limb_mod z1) (limb_mod z2) (limb_mod z3) ltac:(now split)).
      revert Hv. unfold limbs, p1305, limb in *. zconst. lia. }
    assert (El : l0 = a0) by (unfold a0; lia). rewrite E, Eb, Z.mul_0_r, Z.add_0_r, El, Hv. split.
    + set (x := limbs ((a0 + 5) mod 2 ^ 26) (z1 mod 2 ^ 26) (z2 mod 2 ^ 26) (z3 mod 2 ^ 26) 0) in *.
      replace (p1305 + x) with (x + 1 * p1305) by lia. rewrite Z.mod_add by discriminate. symmetry. apply Z.mod_small.
      pose proof (limbs_range _ _ _ _ _ L0 L1 L2 L3 L4) as R. rewrite El, Hv in R.
      pose proof (limbs_range _ _ _ _ 0 (limb_mod (a0 + 5)) (limb_mod z1) (limb_mod z2) (limb_mod z3) ltac:(split; [discriminate | reflexivity])) as P.
      fold x in P. unfold p1305 in *. lia.
    + left. splits; try apply limb_mod. split; [discriminate | reflexivity].
Qed.

(** ** Packing *)

Lemma le_enc_mod n v : le_enc n (v mod 256 ^ Z.of_nat n) = le_enc n v.
Proof. unfold le_enc. now rewrite be_enc_mod. Qed.

Lemma le_enc_app m n v : le_enc (m + n) v = le_enc m v ++ le_enc n (v / 256 ^ Z.of_nat m).
Proof. unfold le_enc. now rewrite Nat.add_comm, be_enc_app, rev_app_distr. Qed.

Lemma four_words v :
  le_enc 16 v = le_enc 4 (v mod 2 ^ 32) ++ le_enc 4 (v / 2 ^ 32 mod 2 ^ 32) ++ le_enc 4 (v / 2 ^ 64 mod 2 ^ 32) ++ le_enc 4 (v / 2 ^ 96 mod 2 ^ 32).
Proof.
  change (2 ^ 32) with (256 ^ Z.of_nat 4). rewrite !le_enc_mod.
  change 16%nat with (4 + (4 + (4 + 4)))%nat. rewrite !le_enc_app, !Z.div_div by reflexivity || discriminate. reflexivity.
Qed.

(** Adding four words with carries. *)
Lemma add_words w0 w1 w2 w3 k0 k1 k2 k3 :
  word32 w0 -> word32 w1 -> word32 w2 -> word32 w3 -> word32 k0 -> word32 k1 -> word32 k2 -> word32 k3 ->
  let f0 := u64 (w0 + k0) in let f1 := u64 (w1 + k1) in let f2 := u64 (w2 + k2) in let f3 := u64 (w3 + k3) in
  let f1' := u64 (f1 + Z.shiftr f0 32) in let f2' := u64 (f2 + Z.shiftr f1' 32) in let f3' := u64 (f3 + Z.shiftr f2' 32) in
  let v := (w0 + 2 ^ 32 * w1 + 2 ^ 64 * w2 + 2 ^ 96 * w3) + (k0 + 2 ^ 32 * k1 + 2 ^ 64 * k2 + 2 ^ 96 * k3) in
  U32TO8_LE f0 ++ U32TO8_LE f1' ++ U32TO8_LE f2' ++ U32TO8_LE f3' = le_enc 16 v.
Proof.
  unfold word32, U32TO8_LE. intros. cbv zeta. rewrite !Z.shiftr_div_pow2 by lia.
  assert (C : forall a b c, 0 <= a < 2 ^ 32 -> 0 <= b < 2 ^ 32 -> 0 <= c < 2 ^ 33 -> u64 (u64 (a + b) + c / 2 ^ 32) = a + b + c / 2 ^ 32 /\ 0 <= a + b + c / 2 ^ 32 < 2 ^ 33).
  { intros a b c ? ? ?. zconst. assert (0 <= c / 4294967296 <= 1) by word_lia. rewrite (wrap_small 64 (a + b)), wrap_small by (zconst; lia). lia. }
  rewrite (wrap_small 64 (w0 + k0)) by (zconst; lia). set (c0 := w0 + k0).
  destruct (C w1 k1 c0) as [-> ?]; try (unfold c0; zconst; lia). set (c1 := w1 + k1 + _) in *.
  destruct (C w2 k2 c1) as [-> ?]; try assumption. set (c2 := w2 + k2 + _) in *.
  destruct (C w3 k3 c2) as [-> ?]; try assumption. set (c3 := w3 + k3 + _) in *.
  rewrite four_words. unfold wrap. f_equal; [f_equal | f_equal; [f_equal | f_equal; f_equal]];
    subst c3 c2 c1 c0; zconst; clear C; Z.to_euclidean_division_equations; lia.
Qed.

(** Two limbs meeting in a word. *)
Lemma packed_word lo hi k : 0 <= k < 26 -> limb lo ->
  Z.lor (Z.shiftr lo k) (u32 (Z.shiftl hi (26 - k))) = lo / 2 ^ k + hi mod 2 ^ (6 + k) * 2 ^ (26 - k).
Proof.
  intros Hk Hl. rewrite Z.lor_comm.
  assert (E : u32 (Z.shiftl hi (26 - k)) = Z.shiftl (hi mod 2 ^ (6 + k)) (26 - k)).
  { rewrite !Z.shiftl_mul_pow2 by lia. unfold wrap. replace (2 ^ 32) with (2 ^ (6 + k) * 2 ^ (26 - k)) by (rewrite <- Z.pow_add_r by lia; f_equal; lia).
    apply Z.mul_mod_distr_r; apply Z.pow_nonzero; lia. }
  assert (B : 0 <= lo / 2 ^ k < 2 ^ (26 - k)).
  { unfold limb in Hl. split; [apply Z.div_pos; [lia | apply Z.pow_pos_nonneg; lia] |]. apply Z.div_lt_upper_bound; [apply Z.pow_pos_nonneg; lia |].
    rewrite <- Z.pow_add_r by lia. replace (k + (26 - k)) with 26 by lia. lia. }
  rewrite E, Z.shiftr_div_pow2, lor_disjoint_add by lia. lia.
Qed.

Lemma le_enc_cong n a b q : a = b + q * 256 ^ Z.of_nat n -> le_enc n a = le_enc n b.
Proof. intros ->. rewrite <- le_enc_mod, Z.mod_add by (apply Z.pow_nonzero; lia). apply le_enc_mod. Qed.

Lemma key_words key : bytes_ok key -> len key = 16 ->
  word32 (U8TO32_LE key) /\ word32 (U8TO32_LE (drop 4 key)) /\ word32 (U8TO32_LE (drop 8 key)) /\ word32 (U8TO32_LE (drop 12 key)) /\
  U8TO32_LE key + 2 ^ 32 * U8TO32_LE (drop 4 key) + 2 ^ 64 * U8TO32_LE (drop 8 key) + 2 ^ 96 * U8TO32_LE (drop 12 key) = le_bytes_val key.
Proof. intros Hb Hl. rewrite <- (take_all 16 key) at 9 by lia. apply le_words_16; [assumption | lia]. Qed.

Lemma lor_one a : Z.lor a 1 = if Z.odd a then a else a + 1.
Proof.
  pose proof (Z.div_mod a 2 ltac:(discriminate)) as D. pose proof (Zmod_odd a) as M.
  assert (E : a = Z.lor (Z.shiftl (a / 2) 1) (a mod 2)) by (rewrite lor_disjoint_add by (zconst; word_lia); lia).
  rewrite E at 1. rewrite <- Z.lor_assoc. replace (Z.lor (a mod 2) 1) with 1 by (rewrite M; destruct (Z.odd a); reflexivity).
  rewrite lor_disjoint_add by (zconst; lia). destruct (Z.odd a); lia.
Qed.

(** A number whose lowest limb spills over: its lowest bit meets that of the next. *)
Lemma spilled_word j a1 : 0 <= j < 5 -> 0 <= a1 < 2 ^ 6 - 1 ->
  Z.lor (2 ^ 26 + j) (u32 (Z.shiftl a1 26)) = (if Z.odd a1 then a1 else a1 + 1) * 2 ^ 26 + j.
Proof.
  intros Hj Ha. rewrite (wrap_small 32) by (rewrite Z.shiftl_mul_pow2 by lia; zconst; lia).
  replace (2 ^ 26 + j) with (Z.lor (Z.shiftl 1 26) j) by (rewrite lor_disjoint_add by (zconst; lia); lia).
  rewrite Z.lor_comm, Z.lor_assoc, <- Z.shiftl_lor, lor_disjoint_add by (zconst; lia). now rewrite lor_one.
Qed.

Lemma finish_tag_ok v a0 a1 a2 a3 a4 key : reduced v a0 a1 a2 a3 a4 -> bytes_ok key -> len key = 16 ->
  exists e, (e = 0 \/ e = 2 ^ 26 /\ lost v) /\ finish_tag a0 a1 a2 a3 a4 key = le_enc 16 (v - e + le_bytes_val key).
Proof.
  intros [Ev Hred] Hb Hl. destruct (key_words key Hb Hl) as (K0 & K1 & K2 & K3 & <-). unfold finish_tag.
  destruct Hred as [(L0 & L1 & L2 & L3 & L4) | (B0 & B1 & -> & -> & ->)].
  - exists 0. split; [now left |]. rewrite <- (Z.shiftr_0_r a0) at 1 2 3 4.
    pose proof (packed_word a0 a1 0 ltac:(lia) L0) as P0. pose proof (packed_word a1 a2 6 ltac:(lia) L1) as P1.
    pose proof (packed_word a2 a3 12 ltac:(lia) L2) as P2. pose proof (packed_word a3 a4 18 ltac:(lia) L3) as P3.
    change (26 - 0) with 26 in P0. change (26 - 6) with 20 in P1. change (26 - 12) with 14 in P2. change (26 - 18) with 8 in P3.
    rewrite P0, P1, P2, P3. change (6 + 0) with 6. change (6 + 6) with 12. change (6 + 12) with 18. change (6 + 18) with 24.
    rewrite add_words by (assumption || (unfold limb, word32 in *; word_lia)).
    apply (le_enc_cong 16 _ _ (- (a4 / 2 ^ 24))). change (256 ^ Z.of_nat 16) with (2 ^ 128).
    rewrite <- Ev. unfold limbs, limb in *. clear P0 P1 P2 P3 K0 K1 K2 K3 Ev. zconst. Z.to_euclidean_division_equations. lia.
  - replace a0 with (2 ^ 26 + (a0 - 2 ^ 26)) by lia. rewrite spilled_word by lia.
    replace (Z.shiftr a1 6) with 0 by (rewrite Z.shiftr_div_pow2 by lia; symmetry; apply Z.div_small; zconst; lia).
    change (Z.lor 0 (u32 (Z.shiftl 0 20))) with 0. change (Z.lor (Z.shiftr 0 12) (u32 (Z.shiftl 0 14))) with 0.
    change (Z.lor (Z.shiftr 0 18) (u32 (Z.shiftl 0 8))) with 0.
    rewrite add_words by (assumption || (unfold word32; zconst; destruct (Z.odd a1); lia)).
    unfold limbs in Ev. destruct (Z.odd a1) eqn:E.
    + exists (2 ^ 26). split; [right; split; [reflexivity |] | f_equal; zconst; lia].
      rewrite Zodd_bool_iff, Zodd_ex_iff in E. destruct E as [m ->]. unfold lost. zconst. word_lia.
    + exists 0. split; [now left | f_equal; zconst; lia].
Qed.

Lemma rfc_all_range r msg : forall acc, 0 <= acc < p1305 -> 0 <= rfc_all r acc msg < p1305.
Proof.
  induction msg as [msg IH] using len_ind. intros acc Ha. destruct (Z.eq_dec (len msg) 0) as [E | E]; [now rewrite (len_0_nil msg E) |].
  pose proof (len_nonneg msg). rewrite rfc_all_step by lia. apply IH; [| now apply Z.mod_pos_bound].
  unfold drop, len in *. rewrite length_skipn. lia.
Qed.

(** Finishing the computation on a whole message. *)
Definition one_shot (key msg : list Z) : list Z :=
  let st := poly1305_update (CRYPTO_poly1305_init [] key) msg in
  let '(a0, a1, a2, a3, a4) := finish_limbs (h0 st) (h1 st) (h2 st) (h3 st) (h4 st) in
  finish_tag a0 a1 a2 a3 a4 (pkey st).

Lemma finish_one_shot st key msg : has_taken st key msg -> CRYPTO_poly1305_finish st = one_shot key msg.
Proof.
  intros (whole & rest & b & -> & [-> Hw Hr Lb Et]). unfold CRYPTO_poly1305_finish, one_shot. cbv zeta.
  change (buf_used (after key whole b (len rest))) with (len rest). change (pbuf (after key whole b (len rest))) with b. rewrite Et.
  destruct (Z.eqb_spec (len rest) 0) as [E0 | N0]; cbn [negb].
  - rewrite (len_0_nil rest E0), app_nil_r. reflexivity.
  - rewrite after_update by assumption. reflexivity.
Qed.

Lemma one_shot_value key msg : bytes_ok key -> len key = 32 -> bytes_ok msg ->
  exists e, (e = 0 \/ e = 2 ^ 26 /\ lost (rfc_acc key msg)) /\
    one_shot key msg = le_enc 16 (rfc_acc key msg - e + le_bytes_val (drop 16 key)).
Proof.
  intros Bk Lk Bm. pose proof (len_nonneg msg). destruct (init_ok [] key Bk Lk) as (T & _ & _ & Ek). cbv zeta in T, Ek.
  set (n := len msg / 16 * 16). assert (Hn : 0 <= n <= len msg /\ len msg - n < 16 /\ n mod 16 = 0) by (unfold n; word_lia).
  assert (X : tracked (poly1305_update (CRYPTO_poly1305_init [] key) msg) (rfc_r key) (rfc_acc key msg) /\
              pkey (poly1305_update (CRYPTO_poly1305_init [] key) msg) = drop 16 key).
  { unfold rfc_acc. fold (rfc_all (rfc_r key) 0 msg). rewrite <- (take_drop n msg).
    assert (Lt : len (take n msg) mod 16 = 0) by (rewrite len_take by lia; lia).
    rewrite update_app, rfc_all_app by assumption.
    destruct (update_whole _ _ _ (take n msg) T ltac:(auto with bytes) Lt) as [T1 (_ & _ & P1)].
    pose proof (len_drop n msg ltac:(lia)). destruct (Z.eq_dec (len (drop n msg)) 0) as [E0 | N0].
    - rewrite (len_0_nil _ E0). split; [exact T1 | exact (eq_trans P1 Ek)].
    - destruct (update_last _ _ _ (drop n msg) T1 ltac:(auto with bytes) ltac:(lia)) as [T2 (_ & _ & P2)].
      split; [exact T2 | exact (eq_trans P2 (eq_trans P1 Ek))]. }
  destruct X as [[_ (B0 & B1 & B2 & B3 & B4) Ea] Ep]. unfold one_shot. cbv zeta.
  pose proof (finish_limbs_ok _ _ _ _ _ B0 B1 B2 B3 B4) as R. destruct (finish_limbs _ _ _ _ _) as [[[[a0 a1] a2] a3] a4].
  fold (accumulator (poly1305_update (CRYPTO_poly1305_init [] key) msg)) in R.
  rewrite Ea, Z.mod_small in R by (apply rfc_all_range; split; [discriminate | reflexivity]).
  rewrite Ep. apply finish_tag_ok; [exact R | auto with bytes | rewrite len_drop; lia].
Qed.

(** The tag of a message fed in pieces. *)
Definition poly1305_tag (junk key : list Z) (chunks : list (list Z)) : list Z :=
  CRYPTO_poly1305_finish (fold_left CRYPTO_poly1305_update chunks (CRYPTO_poly1305_init junk key)).

Lemma updates_taken key chunks : forall st msg, has_taken st key msg -> has_taken (fold_left CRYPTO_poly1305_update chunks st) key (msg ++ concat chunks).
Proof.
  induction chunks as [| d chunks IH]; intros st msg H; cbn [fold_left concat]; [now rewrite app_nil_r |].
  rewrite app_assoc. apply IH. now apply poly_update_ok.
Qed.

(** However the message is cut, the tag is that of one call. *)
Lemma tag_one_shot junk key chunks : len junk = 16 -> poly1305_tag junk key chunks = one_shot key (concat chunks).
Proof. intros Hj. apply finish_one_shot. exact (updates_taken key chunks _ [] (poly_init_taken junk key Hj)). Qed.

(** Poly1305 computes the tag of RFC 7539 for every key and message, unless
    the polynomial ends in one of the residues [lost]; there the tag is either
    that of the RFC or falls short of it by [2 ^ 26]. It never depends on how the
    message was cut into calls or on uninitialised memory. *)
Lemma poly1305_is_rfc junk key chunks :
  bytes_ok key -> len key = 32 -> len junk = 16 -> Forall bytes_ok chunks ->
  let msg := concat chunks in
  (~ lost (rfc_acc key msg) -> poly1305_tag junk key chunks = rfc_poly1305 key msg) /\
  (exists e, (e = 0 \/ e = 2 ^ 26) /\ poly1305_tag junk key chunks = le_enc 16 (rfc_acc key msg - e + le_bytes_val (drop 16 key))) /\
  (forall junk' chunks', len junk' = 16 -> concat chunks' = msg -> poly1305_tag junk' key chunks' = poly1305_tag junk key chunks).
Proof.
  intros Bk Lk Lj Bc. cbv zeta.
  destruct (one_shot_value key (concat chunks) Bk Lk) as (e & He & E); [apply Forall_concat; exact Bc |].
  rewrite (tag_one_shot junk), E by assumption. splits.
  - intros Hn. destruct He as [-> | [_ Hl]]; [| contradiction]. now rewrite Z.sub_0_r.
  - exists e. split; [tauto | reflexivity].
  - intros junk' chunks' Hj Ec. now rewrite tag_one_shot, Ec.
Qed.

(** The last reduction loses a carry. The code folds the carry out of the top
    limb into the lowest one and does not carry out of that; when the sum has 27
    bits its top bit is ORed with the low bit of the next limb. Under this key
    the tag of this one-block message is not that of RFC 7539. *)
Lemma poly1305_drops_carry :
  let key := [30; 164; 157; 61; 110; 85; 236; 148; 54; 124; 87; 184; 91; 102; 142; 48; 0; 0; 0; 0; 0; 0; 0; 0; 0; 0; 0; 0; 0; 0; 0; 0] in
  let msg := [206; 17; 71; 197; 82; 197; 171; 109; 151; 61; 99; 190; 125; 139; 38; 169] in
  forall junk,
  poly1305_tag junk key [msg] = [1; 0; 0; 4; 0; 0; 0; 0; 0; 0; 0; 0; 0; 0; 0; 0] /\
  rfc_poly1305 key msg = [1; 0; 0; 8; 0; 0; 0; 0; 0; 0; 0; 0; 0; 0; 0; 0].
Proof. intros. split; vm_compute; reflexivity. Qed.

(** C7: Poly1305 computes the tag of RFC 7539 for every key and message, unless the polynomial ends in one of the residues [lost]; there the tag is either that of the RFC or falls short of it by [2 ^ 26], as it does for the key and message exhibited (the code folds the carry out of the top limb into the lowest one and does not carry out of that). The tag never depends on how the message was cut into calls or on uninitialised memory. *)
Theorem poly1305_exact :
  (forall junk key chunks,
    bytes_ok key -> len key = 32 -> len junk = 16 -> Forall bytes_ok chunks ->
      let msg := concat chunks in
      (~ lost (rfc_acc key msg) -> poly1305_tag junk key chunks = rfc_poly1305 key msg) /\
      (exists e, (e = 0 \/ e = 2 ^ 26) /\ poly1305_tag junk key chunks = le_enc 16 (rfc_acc key msg - e + le_bytes_val (drop 16 key))) /\
      (forall junk' chunks', len junk' = 16 -> concat chunks' = msg -> poly1305_tag junk' key chunks' = poly1305_tag junk key chunks)) /\
  (let key := [30; 164; 157; 61; 110; 85; 236; 148; 54; 124; 87; 184; 91; 102; 142; 48; 0; 0; 0; 0; 0; 0; 0; 0; 0; 0; 0; 0; 0; 0; 0; 0] in
      let msg := [206; 17; 71; 197; 82; 197; 171; 109; 151; 61; 99; 190; 125; 139; 38; 169] in
      forall junk,
      poly1305_tag junk key [msg] = [1; 0; 0; 4; 0; 0; 0; 0; 0; 0; 0; 0; 0; 0; 0; 0] /\
      rfc_poly1305 key msg = [1; 0; 0; 8; 0; 0; 0; 0; 0; 0; 0; 0; 0; 0; 0; 0]).
Proof. split; [exact (@poly1305_is_rfc) | exact (@poly1305_drops_carry)]. Qed.

Lemma poly1305_exact_witness :
  (poly1305_tag (repeat 170 16) (map Z.of_nat (seq 3 32)) [map Z.of_nat (seq 0 20); []; map Z.of_nat (seq 20 33)] =
    rfc_poly1305 (map Z.of_nat (seq 3 32)) (map Z.of_nat (seq 0 53))).
Proof.
  refine (proj1 (proj1 poly1305_exact (repeat 170 16) (map Z.of_nat (seq 3 32)) [map Z.of_nat (seq 0 20); []; map Z.of_nat (seq 20 33)] _ _ _ _) _).
    - repeat constructor; unfold byte_ok; cbn; lia.
    - reflexivity.
    - reflexivity.
    - repeat constructor; unfold byte_ok; cbn; lia.
    - intros [_ H]. vm_compute in H. discriminate.
Defined.
