(* ===== verification/Aead.v ===== *)
(** * Authenticated encryption behind one interface (fipsmodule/cipher/aead.c)

    An [EVP_AEAD] is a table of functions over the algorithm's state. Buffers are
    ranges of one memory; nonces, additional data and the extra input are not in
    the output ranges, so they are values. The functions read the state and do not
    change it: tables that count or chain in it (those for TLS) are outside this
    type. What a failure leaves and what an [open] of the algorithm's own does is
    proved for every table of it. [AeadScheme]
    states what the table of a stateless algorithm without such an [open]
    promises; that sealing and opening are exact is proved against it, and
    ChaChaPoly is an instance. *)

From S2P Require Import Prelude Buffers Memory.

Section Aead.
Context {S : Type}.

(** Whether [open] is NULL decides which of the two ways of opening is used;
    [None] is a null function pointer, and a result [None] a return of 0. *)
Record EVP_AEAD := mk_aead {
  key_len : Z; nonce_len : Z; overhead : Z; max_tag_len : Z;
  seal_scatter_supports_extra_in : bool;
  init : option (list Z -> Z -> option (S * Z));
  init_with_direction : list Z -> Z -> bool -> option (S * Z);
  open_ : option (S -> Z -> mem -> Z -> Z -> list Z -> Z -> Z -> list Z -> option Z * mem);
  (** memory, [out], [out_tag], [max_out_tag_len], nonce, [in], [in_len], extra input, additional data *)
  seal_scatter : S -> Z -> mem -> Z -> Z -> Z -> list Z -> Z -> Z -> list Z -> list Z -> option Z * mem;
  (** memory, [out], nonce, [in], [in_len], [in_tag], [in_tag_len], additional data *)
  open_gather : option (S -> Z -> mem -> Z -> list Z -> Z -> Z -> Z -> Z -> list Z -> bool * mem);
  tag_len_ : option (S -> Z -> Z -> Z -> Z) }.

(** A context whose [aead] is not NULL. *)
Record EVP_AEAD_CTX := mk_aead_ctx { aead : EVP_AEAD; aead_state : S; tag_len : Z }.

Definition EVP_AEAD_key_length (a : EVP_AEAD) : Z := key_len a.
Definition EVP_AEAD_nonce_length (a : EVP_AEAD) : Z := nonce_len a.
Definition EVP_AEAD_max_overhead (a : EVP_AEAD) : Z := overhead a.
Definition EVP_AEAD_max_tag_len (a : EVP_AEAD) : Z := max_tag_len a.

(** [dir] is true for [evp_aead_open]. [None]: the context's [aead] is NULL. *)
Definition EVP_AEAD_CTX_init_with_direction (a : EVP_AEAD) (key : list Z) (tlen : Z) (dir : bool) : option EVP_AEAD_CTX :=
  if negb (len key =? key_len a) then None else
  match (match init a with Some f => f key tlen | None => init_with_direction a key tlen dir end) with
  | Some (st, t) => Some (mk_aead_ctx a st t)
  | None => None
  end.

Definition EVP_AEAD_CTX_init (a : EVP_AEAD) (key : list Z) (tlen : Z) : option EVP_AEAD_CTX :=
  match init a with
  | None => None
  | Some _ => EVP_AEAD_CTX_init_with_direction a key tlen true
  end.

Definition EVP_AEAD_CTX_aead (ctx : EVP_AEAD_CTX) : EVP_AEAD := aead ctx.

(** [buffers_alias] of internal.h, on addresses. *)
Definition buffers_alias (a a_len b b_len : Z) : bool := (b <? u64 (a + a_len)) && (a <? u64 (b + b_len)).

Definition check_alias (inp in_len out out_len : Z) : bool :=
  if negb (buffers_alias inp in_len out out_len) then true else inp =? out.

(** [OPENSSL_memset(&m[a], 0, n)]. *)
Definition zero_fill (m : mem) (a n : Z) : mem := mstore m a (repeat 0 (Z.to_nat n)).

Definition EVP_AEAD_CTX_seal (ctx : EVP_AEAD_CTX) (m : mem) (out max_out_len : Z) (nonce : list Z) (inp in_len : Z) (ad : list Z)
  : option Z * mem :=
  let error m := (None, zero_fill m out max_out_len) in
  if u64 (in_len + overhead (aead ctx)) <? in_len then error m else
  if max_out_len <? in_len then error m else
  if negb (check_alias inp in_len out max_out_len) then error m else
  match seal_scatter (aead ctx) (aead_state ctx) (tag_len ctx) m out (out + in_len) (max_out_len - in_len) nonce inp in_len [] ad with
  | (Some out_tag_len, m) => (Some (u64 (in_len + out_tag_len)), m)
  | (None, m) => error m
  end.

Definition EVP_AEAD_CTX_seal_scatter (ctx : EVP_AEAD_CTX) (m : mem) (out out_tag max_out_tag_len : Z) (nonce : list Z)
  (inp in_len : Z) (extra_in ad : list Z) : option Z * mem :=
  let error m := (None, zero_fill (zero_fill m out in_len) out_tag max_out_tag_len) in
  if negb (check_alias inp in_len out in_len) || buffers_alias out in_len out_tag max_out_tag_len ||
     buffers_alias inp in_len out_tag max_out_tag_len then error m else
  if negb (seal_scatter_supports_extra_in (aead ctx)) && negb (len extra_in =? 0) then error m else
  match seal_scatter (aead ctx) (aead_state ctx) (tag_len ctx) m out out_tag max_out_tag_len nonce inp in_len extra_in ad with
  | (Some out_tag_len, m) => (Some out_tag_len, m)
  | (None, m) => error m
  end.

Definition EVP_AEAD_CTX_open_gather (ctx : EVP_AEAD_CTX) (m : mem) (out : Z) (nonce : list Z) (inp in_len in_tag in_tag_len : Z)
  (ad : list Z) : bool * mem :=
  let error m := (false, zero_fill m out in_len) in
  if negb (check_alias inp in_len out in_len) then error m else
  match open_gather (aead ctx) with
  | None => error m
  | Some f =>
      match f (aead_state ctx) (tag_len ctx) m out nonce inp in_len in_tag in_tag_len ad with
      | (true, m) => (true, m)
      | (false, m) => error m
      end
  end.

Definition EVP_AEAD_CTX_open (ctx : EVP_AEAD_CTX) (m : mem) (out max_out_len : Z) (nonce : list Z) (inp in_len : Z) (ad : list Z)
  : option Z * mem :=
  let error m := (None, zero_fill m out max_out_len) in
  if negb (check_alias inp in_len out max_out_len) then error m else
  match open_ (aead ctx) with
  | Some f =>
      match f (aead_state ctx) (tag_len ctx) m out max_out_len nonce inp in_len ad with
      | (Some n, m) => (Some n, m)
      | (None, m) => error m
      end
  | None =>
      if in_len <? tag_len ctx then error m else
      let plaintext_len := in_len - tag_len ctx in
      if max_out_len <? plaintext_len then error m else
      match EVP_AEAD_CTX_open_gather ctx m out nonce inp plaintext_len (inp + plaintext_len) (tag_len ctx) ad with
      | (true, m) => (Some plaintext_len, m)
      | (false, m) => error m
      end
  end.

Definition EVP_AEAD_CTX_tag_len (ctx : EVP_AEAD_CTX) (in_len extra_in_len : Z) : option Z :=
  match tag_len_ (aead ctx) with
  | Some f => Some (f (aead_state ctx) (tag_len ctx) in_len extra_in_len)
  | None =>
      if u64 (extra_in_len + tag_len ctx) <? extra_in_len then None else Some (u64 (extra_in_len + tag_len ctx))
  end.

(** ** What an algorithm promises *)

(** Two ranges have no byte in common. *)
Definition apart (a n b k : Z) : Prop := a + n <= b \/ b + k <= a.

Definition agree (m m' : mem) : Prop := forall i, m i = m' i.

(** A stateless algorithm that is opened by [open_gather].
    [encrypt st tlen nonce ad pt] is the ciphertext and the tag; [usable] holds of
    the states and tag lengths that [init] makes; [accepts nonce ad n] is the
    algorithm's own test on the nonce, the additional data and the number of
    bytes to seal, whatever it is. *)
Class AeadScheme (a : EVP_AEAD) : Type := {
  encrypt : S -> Z -> list Z -> list Z -> list Z -> list Z * list Z;
  usable : S -> Z -> Prop;
  accepts : list Z -> list Z -> Z -> bool;
  scheme_open : open_ a = None;
  scheme_room : forall nonce ad n, accepts nonce ad n = true -> n + overhead a < 2 ^ 64;
  scheme_tag : forall st tl, usable st tl -> 0 <= tl <= overhead a;
  scheme_len : forall st tl nonce ad pt, usable st tl ->
    len (fst (encrypt st tl nonce ad pt)) = len pt /\ len (snd (encrypt st tl nonce ad pt)) = tl;
  scheme_inj : forall st tl nonce ad pt pt', usable st tl -> bytes_ok nonce -> accepts nonce ad (len pt) = true ->
    encrypt st tl nonce ad pt = encrypt st tl nonce ad pt' -> pt = pt';
  (** sealing *)
  scheme_seal : forall st tl m out out_tag room nonce inp n extra ad,
    usable st tl -> bytes_ok nonce -> 0 <= n -> inp = out \/ apart inp n out n ->
    apart out n out_tag room -> apart inp n out_tag room ->
    seal_scatter_supports_extra_in a = true \/ extra = [] -> accepts nonce ad (n + len extra) = true -> tl + len extra <= room ->
    let '(ct, tag) := encrypt st tl nonce ad (mload m inp n ++ extra) in
    exists m', seal_scatter a st tl m out out_tag room nonce inp n extra ad = (Some (len extra + tl), m') /\
      agree m' (mstore (mstore m out (take n ct)) out_tag (drop n ct ++ tag));
  scheme_refuses : forall st tl m out out_tag room nonce inp n ad, usable st tl -> 0 <= room < 2 ^ 64 -> 0 <= n < 2 ^ 64 ->
    accepts nonce ad n = false \/ room < tl ->
    exists m', seal_scatter a st tl m out out_tag room nonce inp n [] ad = (None, m') /\
      (forall i, i < out \/ out + n <= i -> i < out_tag \/ out_tag + room <= i -> m' i = m i);
  (** opening *)
  scheme_gather : forall st tl nonce, usable st tl ->
    exists f, open_gather a = Some f /\ forall m out inp n in_tag ad,
    0 <= n < 2 ^ 64 -> inp = out \/ apart inp n out n -> apart out n in_tag tl ->
    exists ok m', f st tl m out nonce inp n in_tag tl ad = (ok, m') /\
      (forall i, i < out \/ out + n <= i -> m' i = m i) /\
      (ok = true -> accepts nonce ad n = true) /\
      (bytes_ok nonce -> accepts nonce ad n = true ->
        (ok = true <-> exists pt, encrypt st tl nonce ad pt = (mload m inp n, mload m in_tag tl)) /\
        (ok = true -> encrypt st tl nonce ad (mload m' out n) = (mload m inp n, mload m in_tag tl))) }.
End Aead.
Arguments EVP_AEAD : clear implicits.
Arguments EVP_AEAD_CTX : clear implicits.

(** ** Memory facts *)

Lemma alias_apart a n b k : 0 <= a -> 0 <= b -> 0 <= n -> 0 <= k -> a + n < 2 ^ 64 -> b + k < 2 ^ 64 ->
  buffers_alias a n b k = false <-> apart a n b k.
Proof.
  intros. unfold buffers_alias, apart. rewrite !wrap_small by lia.
  destruct (Z.ltb_spec b (a + n)), (Z.ltb_spec a (b + k)); cbn [andb]; split; intros; try lia; discriminate.
Qed.

Lemma check_alias_spec inp n out k : 0 <= inp -> 0 <= out -> 0 <= n -> 0 <= k -> inp + n < 2 ^ 64 -> out + k < 2 ^ 64 ->
  check_alias inp n out k = true <-> inp = out \/ apart inp n out k.
Proof.
  intros. unfold check_alias. destruct (buffers_alias inp n out k) eqn:E; cbn [negb].
  - rewrite Z.eqb_eq. split; [tauto | intros [-> | A]; [reflexivity |]]. apply alias_apart in A; try assumption. congruence.
  - rewrite alias_apart in E by assumption. tauto.
Qed.

Lemma agree_store m m' a l : agree m m' -> agree (mstore m a l) (mstore m' a l).
Proof. intros H i. apply mstore_ext, H. Qed.

Lemma agree_sym m m' : agree m m' -> agree m' m.
Proof. intros H i. symmetry. apply H. Qed.

Lemma agree_trans m m' m'' : agree m m' -> agree m' m'' -> agree m m''.
Proof. intros H H' i. now rewrite H. Qed.

Lemma zero_fill_outside m m' a n : 0 <= n -> (forall i, i < a \/ a + n <= i -> m' i = m i) -> agree (zero_fill m' a n) (zero_fill m a n).
Proof.
  intros Hn H i. unfold zero_fill, mstore. rewrite len_repeat, Z2Nat.id by lia.
  destruct (Z.leb_spec a i), (Z.ltb_spec i (a + n)); cbn [andb]; try reflexivity; apply H; lia.
Qed.

(** ** Any table of functions *)

Definition ranges_ok (inp n out k : Z) : Prop := 0 <= inp /\ 0 <= n /\ inp + n < 2 ^ 64 /\ 0 <= out /\ 0 <= k /\ out + k < 2 ^ 64.

Definition zeroed (m : mem) (a n : Z) : Prop := forall i, a <= i < a + n -> m i = 0.

Lemma zero_fill_at m a n i : 0 <= n -> zero_fill m a n i = if (a <=? i) && (i <? a + n) then 0 else m i.
Proof.
  intros Hn. unfold zero_fill, mstore. rewrite len_repeat, Z2Nat.id by exact Hn. destruct (_ && _); [| reflexivity].
  unfold get. apply nth_repeat.
Qed.

Lemma zero_fill_zeroed m a n b k : 0 <= n -> zeroed m b k \/ (a = b /\ n = k) -> zeroed (zero_fill m a n) b k.
Proof.
  intros Hn H i Hi. rewrite zero_fill_at by exact Hn. destruct (Z.leb_spec a i), (Z.ltb_spec i (a + n)); cbn [andb]; try reflexivity;
    destruct H as [H | [-> ->]]; try (apply H, Hi); lia.
Qed.

(** The branches of a call that failed, each ending in a fill with zeros. *)
Ltac failing E := cbv zeta in E;
  repeat match type of E with context [match ?x with _ => _ end] => destruct x end; try discriminate E; injection E as <-.

Section AnyTable.
Context {S : Type} (ctx : EVP_AEAD_CTX S).

Lemma seal_fails_zeroed m out room nonce inp n ad m' : 0 <= room ->
  EVP_AEAD_CTX_seal ctx m out room nonce inp n ad = (None, m') -> zeroed m' out room.
Proof.
  intros Hr E. unfold EVP_AEAD_CTX_seal in E.
  failing E; apply zero_fill_zeroed; tauto.
Qed.

Lemma seal_scatter_fails_zeroed m out out_tag room nonce inp n extra ad m' : 0 <= n -> 0 <= room ->
  EVP_AEAD_CTX_seal_scatter ctx m out out_tag room nonce inp n extra ad = (None, m') -> zeroed m' out n /\ zeroed m' out_tag room.
Proof.
  intros Hn Hr E. unfold EVP_AEAD_CTX_seal_scatter in E.
  failing E; split; apply zero_fill_zeroed; try tauto; left; apply zero_fill_zeroed; tauto.
Qed.

Lemma open_gather_fails_zeroed m out nonce inp n in_tag in_tag_len ad m' : 0 <= n ->
  EVP_AEAD_CTX_open_gather ctx m out nonce inp n in_tag in_tag_len ad = (false, m') -> zeroed m' out n.
Proof.
  intros Hn E. unfold EVP_AEAD_CTX_open_gather in E.
  failing E; apply zero_fill_zeroed; tauto.
Qed.

Lemma open_fails_zeroed m out room nonce inp n ad m' : 0 <= room ->
  EVP_AEAD_CTX_open ctx m out room nonce inp n ad = (None, m') -> zeroed m' out room.
Proof.
  intros Hr E. unfold EVP_AEAD_CTX_open in E.
  failing E; apply zero_fill_zeroed; tauto.
Qed.

(** An [open] of the algorithm's own. *)
Lemma own_open f m out room nonce inp n ad : open_ (aead ctx) = Some f -> ranges_ok inp n out room ->
  (inp = out \/ apart inp n out room ->
    let '(r, m1) := f (aead_state ctx) (tag_len ctx) m out room nonce inp n ad in
    EVP_AEAD_CTX_open ctx m out room nonce inp n ad = (r, match r with Some _ => m1 | None => zero_fill m1 out room end)) /\
  (~ (inp = out \/ apart inp n out room) -> EVP_AEAD_CTX_open ctx m out room nonce inp n ad = (None, zero_fill m out room)).
Proof.
  intros E (I0 & I1 & I2 & O0 & O1 & O2). unfold EVP_AEAD_CTX_open. rewrite E.
  pose proof (check_alias_spec inp n out room I0 O0 I1 O1 I2 O2) as C. destruct (check_alias _ _ _ _); cbn [negb].
  - split; [intros _ | tauto]. now destruct (f _ _ _ _ _ _ _ _ _) as [[r |] m1].
  - split; [intros H; apply C in H; discriminate | reflexivity].
Qed.
End AnyTable.

(** ** The contexts *)

Section Contexts.
Context {S : Type} (a : EVP_AEAD S) `{!AeadScheme a}.

(** Initialisation that succeeded. *)
Definition ctx_ok (ctx : EVP_AEAD_CTX S) : Prop := aead ctx = a /\ usable (aead_state ctx) (tag_len ctx).

Definition sealed (ctx : EVP_AEAD_CTX S) (nonce ad pt : list Z) : list Z :=
  let '(ct, tag) := encrypt (aead_state ctx) (tag_len ctx) nonce ad pt in ct ++ tag.

Lemma sealed_split ctx nonce ad pt x : ctx_ok ctx -> tag_len ctx <= len x ->
  sealed ctx nonce ad pt = x <->
  encrypt (aead_state ctx) (tag_len ctx) nonce ad pt = (take (len x - tag_len ctx) x, drop (len x - tag_len ctx) x).
Proof.
  intros [_ U] Hx. unfold sealed. destruct (scheme_len _ _ nonce ad pt U) as [Lc Lt].
  pose proof (scheme_tag _ _ U). destruct (encrypt _ _ nonce ad pt) as [ct tag]. cbn [fst snd] in *. split.
  - intros <-. rewrite len_app, Lt. replace (len ct + tag_len ctx - tag_len ctx) with (len ct) by lia.
    now rewrite take_app_exact, drop_app_exact.
  - intros [= -> ->]. apply take_drop.
Qed.

(** What both ways of ending a seal or an open look like. *)
Lemma refl_agree (m : mem) : agree m m.
Proof. intros i. reflexivity. Qed.

(** Sealing succeeds exactly when the buffers and sizes allow it. *)
Lemma seal_exact ctx m out room nonce inp n ad : ctx_ok ctx -> ranges_ok inp n out room -> bytes_ok nonce ->
  let fits := (inp = out \/ apart inp n out room) /\ n + tag_len ctx <= room /\ accepts nonce ad n = true in
  let '(r, m') := EVP_AEAD_CTX_seal ctx m out room nonce inp n ad in
  (fits /\ r = Some (n + tag_len ctx) /\ agree m' (mstore m out (sealed ctx nonce ad (mload m inp n)))) \/
  (~ fits /\ r = None /\ agree m' (zero_fill m out room)).
Proof.
  intros [Ea U] (I0 & I1 & I2 & O0 & O1 & O2) Hno. cbv zeta. unfold EVP_AEAD_CTX_seal.
  pose proof (scheme_tag _ _ U) as Ht. pose proof (scheme_room nonce ad n) as Hlim. rewrite Ea.
  destruct (Z.ltb_spec (u64 (n + overhead a)) n) as [Hov | Hov].
  { right. split; [| split; [reflexivity | apply refl_agree]]. intros (_ & _ & Hl). rewrite wrap_small in Hov by (specialize (Hlim Hl); lia). lia. }
  destruct (Z.ltb_spec room n); [right; split; [lia | split; [reflexivity | apply refl_agree]] |].
  destruct (check_alias inp n out room) eqn:Ec; cbn [negb].
  2: { right. split; [| split; [reflexivity | apply refl_agree]]. intros [Hc _]. apply check_alias_spec in Hc; try assumption. congruence. }
  apply check_alias_spec in Ec; try assumption.
  destruct (accepts nonce ad n && (tag_len ctx <=? room - n)) eqn:Ef.
  2: { destruct (scheme_refuses (aead_state ctx) (tag_len ctx) m out (out + n) (room - n) nonce inp n ad U) as (m' & -> & Out); [lia | lia | |].
       { apply andb_false_iff in Ef as [-> | Ef%Z.leb_gt]; [now left | right; lia]. }
       right. split; [intros (_ & Hf & Hacc); rewrite Hacc in Ef; cbn [andb] in Ef; apply Z.leb_gt in Ef; lia |].
       split; [reflexivity |]. apply zero_fill_outside; [lia |]. intros i Hi. apply Out; lia. }
  apply andb_true_iff in Ef as [Eacc Ef%Z.leb_le]. specialize (Hlim Eacc).
  pose proof (scheme_seal (aead_state ctx) (tag_len ctx) m out (out + n) (room - n) nonce inp n [] ad U Hno I1) as HS.
  rewrite app_nil_r in HS. unfold sealed. destruct (scheme_len _ _ nonce ad (mload m inp n) U) as [Lc Lt].
  destruct (encrypt _ _ nonce ad (mload m inp n)) as [ct tag]. cbn [fst snd] in *. rewrite len_mload in Lc by lia.
  change (len (@nil Z)) with 0 in HS. rewrite Z.add_0_r in HS. unfold apart in *.
  specialize (HS ltac:(lia) ltac:(lia) ltac:(lia) (or_intror eq_refl) Eacc ltac:(lia)).
  destruct HS as (m' & -> & Am).
  left. split; [split; [exact Ec | split; [lia | exact Eacc]] |]. split; [f_equal; apply wrap_small; lia |].
  intros i. rewrite Am, take_all, drop_all by lia. cbn [app]. rewrite <- Lc. apply mstore_app.
Qed.

(** Sealing with the tag, and any extra input, put elsewhere. *)
Lemma seal_scatter_exact ctx m out out_tag room nonce inp n extra ad : ctx_ok ctx -> bytes_ok nonce ->
  ranges_ok inp n out n -> 0 <= out_tag -> 0 <= room -> out_tag + room < 2 ^ 64 ->
  let placed := (inp = out \/ apart inp n out n) /\ apart out n out_tag room /\ apart inp n out_tag room in
  (placed -> seal_scatter_supports_extra_in a = true \/ extra = [] -> accepts nonce ad (n + len extra) = true ->
    tag_len ctx + len extra <= room ->
    let '(ct, tag) := encrypt (aead_state ctx) (tag_len ctx) nonce ad (mload m inp n ++ extra) in
    exists m', EVP_AEAD_CTX_seal_scatter ctx m out out_tag room nonce inp n extra ad = (Some (len extra + tag_len ctx), m') /\
      agree m' (mstore (mstore m out (take n ct)) out_tag (drop n ct ++ tag))) /\
  (~ placed \/ seal_scatter_supports_extra_in a = false /\ extra <> [] \/
      extra = [] /\ (accepts nonce ad n = false \/ room < tag_len ctx) ->
    exists m', EVP_AEAD_CTX_seal_scatter ctx m out out_tag room nonce inp n extra ad = (None, m')).
Proof.
  intros [Ea U] Hno (I0 & I1 & I2 & O0 & _ & O2) T0 Hr T1 placed. unfold EVP_AEAD_CTX_seal_scatter. cbv zeta. rewrite Ea.
  pose proof (check_alias_spec inp n out n I0 O0 I1 I1 I2 O2) as C1. pose proof (alias_apart out n out_tag room O0 T0 I1 Hr O2 T1) as C2.
  pose proof (alias_apart inp n out_tag room I0 T0 I1 Hr I2 T1) as C3. split.
  - intros (P1 & P2 & P3) He Hacc Hfit. apply C1 in P1 as B1. apply C2 in P2 as B2. apply C3 in P3 as B3. rewrite B1, B2, B3. cbn [negb orb].
    pose proof (scheme_seal (aead_state ctx) (tag_len ctx) m out out_tag room nonce inp n extra ad U Hno I1 P1 P2 P3 He Hacc Hfit) as HS.
    destruct (encrypt _ _ _ _ _) as [ct tag]. destruct HS as (m' & E & Am). rewrite E.
    exists m'. split; [| exact Am]. destruct He as [-> | ->]; [reflexivity |]. change (len (@nil Z) =? 0) with true. cbn [negb]. rewrite andb_false_r. reflexivity.
  - intros Hbad. destruct (negb (check_alias inp n out n) || buffers_alias out n out_tag room || buffers_alias inp n out_tag room) eqn:Eb; [now eexists |].
    rewrite !orb_false_iff, negb_false_iff in Eb. destruct Eb as [[B1 B2] B3]. apply C1 in B1. apply C2 in B2. apply C3 in B3.
    destruct Hbad as [Hbad | [[Hs He] | [-> Hbad]]]; [exfalso; apply Hbad; now repeat split | |].
    + rewrite Hs. destruct extra as [| x l]; [contradiction |]. rewrite len_cons. pose proof (len_nonneg l).
      destruct (Z.eqb_spec (1 + len l) 0); [lia |]. now eexists.
    + change (len (@nil Z) =? 0) with true. cbn [negb]. rewrite andb_false_r.
      destruct (scheme_refuses (aead_state ctx) (tag_len ctx) m out out_tag room nonce inp n ad U) as (m' & -> & _); [lia | lia | exact Hbad |]. now eexists.
Qed.

(** Opening a ciphertext and its tag. *)
Lemma open_gather_exact ctx m out nonce inp n in_tag ad : ctx_ok ctx -> ranges_ok inp n out n -> bytes_ok nonce ->
  apart out n in_tag (tag_len ctx) ->
  let fits := (inp = out \/ apart inp n out n) /\ accepts nonce ad n = true in
  let sealed_as pt := encrypt (aead_state ctx) (tag_len ctx) nonce ad pt = (mload m inp n, mload m in_tag (tag_len ctx)) in
  let '(ok, m') := EVP_AEAD_CTX_open_gather ctx m out nonce inp n in_tag (tag_len ctx) ad in
  (exists pt, fits /\ sealed_as pt /\ ok = true /\ agree m' (mstore m out pt)) \/
  (~ (fits /\ exists pt, sealed_as pt) /\ ok = false /\ agree m' (zero_fill m out n)).
Proof.
  intros [Ea U] (I0 & I1 & I2 & O0 & O1 & O2) Hno Ht. cbv zeta. unfold EVP_AEAD_CTX_open_gather.
  destruct (check_alias inp n out n) eqn:Ec; cbn [negb].
  2: { right. split; [| split; [reflexivity | apply refl_agree]]. intros [[Hc _] _]. apply check_alias_spec in Hc; try assumption. congruence. }
  apply check_alias_spec in Ec; try assumption. rewrite Ea.
  destruct (scheme_gather (aead_state ctx) (tag_len ctx) nonce U) as (f & -> & Hf).
  destruct (Hf m out inp n in_tag ad) as (ok & m' & -> & Out & Okn & Hx); [lia | exact Ec | exact Ht |]. clear Hf. destruct ok.
  - left. specialize (Okn eq_refl). destruct (Hx Hno Okn) as [_ D]. specialize (D eq_refl).
    exists (mload m' out n). split; [now split |]. split; [exact D |]. split; [reflexivity |].
    intros i. unfold mstore. rewrite len_mload by lia.
    destruct (Z.leb_spec out i), (Z.ltb_spec i (out + n)); cbn [andb]; try (apply Out; lia). rewrite get_mload by lia. f_equal. lia.
  - right. split; [| split; [reflexivity | now apply zero_fill_outside]]. intros [[_ Hl] Hp]. destruct (Hx Hno Hl) as [D _].
    apply D in Hp. discriminate.
Qed.

(** Opening succeeds exactly on what sealing made, and otherwise leaves nothing
    of the plaintext in the buffer. *)
Lemma open_exact ctx m out room nonce inp n ad : ctx_ok ctx -> ranges_ok inp n out room -> bytes_ok nonce ->
  let fits := (inp = out \/ apart inp n out room) /\ tag_len ctx <= n <= room + tag_len ctx /\ accepts nonce ad (n - tag_len ctx) = true in
  let '(r, m') := EVP_AEAD_CTX_open ctx m out room nonce inp n ad in
  (exists pt, fits /\ sealed ctx nonce ad pt = mload m inp n /\ r = Some (n - tag_len ctx) /\ agree m' (mstore m out pt)) \/
  (~ (fits /\ exists pt, sealed ctx nonce ad pt = mload m inp n) /\ r = None /\ agree m' (zero_fill m out room)).
Proof.
  intros C R Hno. pose proof C as [Ea U]. pose proof R as (I0 & I1 & I2 & O0 & O1 & O2). cbv zeta. unfold EVP_AEAD_CTX_open.
  pose proof (scheme_tag _ _ U) as Ht. rewrite Ea.
  destruct (check_alias inp n out room) eqn:Ec; cbn [negb].
  2: { right. split; [| split; [reflexivity | apply refl_agree]]. intros [[Hc _] _]. apply check_alias_spec in Hc; try assumption. congruence. }
  apply check_alias_spec in Ec; try assumption. rewrite scheme_open.
  destruct (Z.ltb_spec n (tag_len ctx)); [right; split; [lia | split; [reflexivity | apply refl_agree]] |].
  set (k := n - tag_len ctx). destruct (Z.ltb_spec room k); [right; split; [unfold k in *; lia | split; [reflexivity | apply refl_agree]] |].
  assert (Sp : forall pt, sealed ctx nonce ad pt = mload m inp n <->
    encrypt (aead_state ctx) (tag_len ctx) nonce ad pt = (mload m inp k, mload m (inp + k) (tag_len ctx))).
  { intros pt. rewrite sealed_split by (rewrite ?len_mload; now try split). rewrite len_mload, take_mload, drop_mload by lia.
    fold k. now replace (n - k) with (tag_len ctx) by (unfold k; lia). }
  pose proof (open_gather_exact ctx m out nonce inp k (inp + k) ad C ltac:(unfold ranges_ok, k in *; lia) Hno ltac:(unfold apart, k in *; lia)) as G.
  cbv zeta in G. destruct (EVP_AEAD_CTX_open_gather _ _ _ _ _ _ _ _ _) as [ok m'].
  destruct G as [(pt & [_ F2] & Hp & -> & Am) | (N & -> & Am)].
  - left. exists pt. split; [split; [exact Ec | split; [unfold k in *; lia | exact F2]] |]. split; [now apply Sp |]. split; [reflexivity | exact Am].
  - right. split; [| split; [reflexivity |]].
    + intros [(F1 & _ & F3) [pt Hp]]. apply N. split; [split; [unfold apart, k in *; lia | exact F3] | exists pt; now apply Sp].
    + apply zero_fill_outside; [lia |]. intros i Hi. rewrite Am, zero_fill_at by (unfold k; lia).
      destruct (Z.leb_spec out i), (Z.ltb_spec i (out + k)); cbn [andb]; try reflexivity. unfold k in *. lia.
Qed.

(** What was sealed is opened, wherever both put their output. *)
Lemma seal_open ctx m out room nonce inp n ad m1 dst room2 : ctx_ok ctx -> bytes_ok nonce ->
  ranges_ok inp n out room -> ranges_ok out (n + tag_len ctx) dst room2 ->
  EVP_AEAD_CTX_seal ctx m out room nonce inp n ad = (Some (n + tag_len ctx), m1) ->
  dst = out \/ apart out (n + tag_len ctx) dst room2 -> n <= room2 ->
  exists m2, EVP_AEAD_CTX_open ctx m1 dst room2 nonce out (n + tag_len ctx) ad = (Some n, m2) /\ agree m2 (mstore m1 dst (mload m inp n)).
Proof.
  intros C Hn R1 R2 E Hd Hr. destruct C as [Ea U]. pose proof (scheme_tag _ _ U) as Ht. pose proof R1 as (_ & I1 & _).
  pose proof (seal_exact ctx m out room nonce inp n ad (conj Ea U) R1 Hn) as Hs. cbv zeta in Hs. rewrite E in Hs.
  destruct Hs as [((_ & _ & Hl) & _ & Am) | (_ & Hx & _)]; [| discriminate].
  assert (Ls : len (sealed ctx nonce ad (mload m inp n)) = n + tag_len ctx).
  { unfold sealed. destruct (scheme_len _ _ nonce ad (mload m inp n) U) as [Lc Lt]. destruct (encrypt _ _ _ _ _). cbn [fst snd] in *.
    rewrite len_app, Lc, Lt, len_mload by lia. reflexivity. }
  assert (Es : sealed ctx nonce ad (mload m inp n) = mload m1 out (n + tag_len ctx)).
  { rewrite <- Ls, <- (mload_mstore m out) at 1. apply mload_ext. intros i _. symmetry. apply Am. }
  pose proof (open_exact ctx m1 dst room2 nonce out (n + tag_len ctx) ad (conj Ea U) R2 Hn) as Ho. cbv zeta in Ho.
  destruct (EVP_AEAD_CTX_open _ _ _ _ _ _ _ _) as [r m2]. destruct Ho as [(pt & F & Ep & -> & A2) | (N & _)].
  - exists m2. split; [f_equal; f_equal; lia |]. replace (mload m inp n) with pt; [exact A2 |].
    apply (scheme_inj (aead_state ctx) (tag_len ctx) nonce ad); [exact U | exact Hn | |].
    { rewrite <- Hl. f_equal. destruct (scheme_len _ _ nonce ad pt U) as [Lc Lt]. apply (f_equal len) in Ep. unfold sealed in Ep.
      destruct (encrypt _ _ nonce ad pt) as [c t]. cbn [fst snd] in *. rewrite len_app, len_mload in Ep by lia. lia. }
    rewrite <- Es in Ep. unfold sealed in Ep.
    destruct (scheme_len _ _ nonce ad pt U) as [Lc Lt], (scheme_len _ _ nonce ad (mload m inp n) U) as [Lc' Lt'].
    destruct (encrypt _ _ nonce ad pt) as [c t], (encrypt _ _ nonce ad (mload m inp n)) as [c' t']. cbn [fst snd] in *.
    assert (El : len c = len c') by (apply (f_equal len) in Ep; rewrite !len_app in Ep; lia).
    f_equal; [rewrite <- (take_app_exact (len c) c t), <- (take_app_exact (len c') c' t'), El, Ep by reflexivity; reflexivity |].
    rewrite <- (drop_app_exact (len c) c t), <- (drop_app_exact (len c') c' t'), El, Ep by reflexivity. reflexivity.
  - exfalso. apply N. split; [| exists (mload m inp n); exact Es].
    split; [destruct Hd as [-> | Hd]; [now left | now right] |]. split; [lia |]. now rewrite Z.add_simpl_r.
Qed.

(** C5: the contexts. Over any table of functions, a call that fails leaves its
    whole output zeroed, whatever the algorithm left there; an [open] of the
    algorithm's own is called exactly when the buffers are the same or do not
    overlap, and answers for the context. For a table that keeps [AeadScheme] (a
    stateless algorithm without an [open] of its own, whose tag has the length
    the context names and that refuses what its own test on nonce, additional
    data and length refuses), sealing succeeds precisely when the buffers are the
    same or do not overlap, the tag fits and the algorithm accepts the input; it
    then writes the ciphertext and tag and nothing else. Opening succeeds
    precisely on what sealing some plaintext gives, and then writes that
    plaintext. The same holds with the tag kept apart, where sealing also takes
    extra input if the algorithm supports it (when it refuses extra input is left
    to the algorithm). What was sealed is opened again, in place or elsewhere. *)
Theorem aead_exact :
  (forall (T : Type) (ctx : EVP_AEAD_CTX T) m out room nonce inp n ad m', 0 <= n -> 0 <= room ->
    (EVP_AEAD_CTX_seal ctx m out room nonce inp n ad = (None, m') -> zeroed m' out room) /\
    (EVP_AEAD_CTX_open ctx m out room nonce inp n ad = (None, m') -> zeroed m' out room) /\
    (forall out_tag extra, EVP_AEAD_CTX_seal_scatter ctx m out out_tag room nonce inp n extra ad = (None, m') ->
      zeroed m' out n /\ zeroed m' out_tag room) /\
    (forall in_tag k, EVP_AEAD_CTX_open_gather ctx m out nonce inp n in_tag k ad = (false, m') -> zeroed m' out n)) /\
  (forall (T : Type) (ctx : EVP_AEAD_CTX T) f m out room nonce inp n ad, open_ (aead ctx) = Some f -> ranges_ok inp n out room ->
    (inp = out \/ apart inp n out room ->
      let '(r, m1) := f (aead_state ctx) (tag_len ctx) m out room nonce inp n ad in
      EVP_AEAD_CTX_open ctx m out room nonce inp n ad = (r, match r with Some _ => m1 | None => zero_fill m1 out room end)) /\
    (~ (inp = out \/ apart inp n out room) -> EVP_AEAD_CTX_open ctx m out room nonce inp n ad = (None, zero_fill m out room))) /\
  (forall ctx m out room nonce inp n ad, ctx_ok ctx -> ranges_ok inp n out room -> bytes_ok nonce ->
    let fits := (inp = out \/ apart inp n out room) /\ n + tag_len ctx <= room /\ accepts nonce ad n = true in
    let '(r, m') := EVP_AEAD_CTX_seal ctx m out room nonce inp n ad in
    (fits /\ r = Some (n + tag_len ctx) /\ agree m' (mstore m out (sealed ctx nonce ad (mload m inp n)))) \/
    (~ fits /\ r = None /\ agree m' (zero_fill m out room))) /\
  (forall ctx m out room nonce inp n ad, ctx_ok ctx -> ranges_ok inp n out room -> bytes_ok nonce ->
    let fits := (inp = out \/ apart inp n out room) /\ tag_len ctx <= n <= room + tag_len ctx /\ accepts nonce ad (n - tag_len ctx) = true in
    let '(r, m') := EVP_AEAD_CTX_open ctx m out room nonce inp n ad in
    (exists pt, fits /\ sealed ctx nonce ad pt = mload m inp n /\ r = Some (n - tag_len ctx) /\ agree m' (mstore m out pt)) \/
    (~ (fits /\ exists pt, sealed ctx nonce ad pt = mload m inp n) /\ r = None /\ agree m' (zero_fill m out room))) /\
  (forall ctx m out out_tag room nonce inp n extra ad, ctx_ok ctx -> bytes_ok nonce ->
    ranges_ok inp n out n -> 0 <= out_tag -> 0 <= room -> out_tag + room < 2 ^ 64 ->
    let placed := (inp = out \/ apart inp n out n) /\ apart out n out_tag room /\ apart inp n out_tag room in
    (placed -> seal_scatter_supports_extra_in a = true \/ extra = [] -> accepts nonce ad (n + len extra) = true ->
      tag_len ctx + len extra <= room ->
      let '(ct, tag) := encrypt (aead_state ctx) (tag_len ctx) nonce ad (mload m inp n ++ extra) in
      exists m', EVP_AEAD_CTX_seal_scatter ctx m out out_tag room nonce inp n extra ad = (Some (len extra + tag_len ctx), m') /\
        agree m' (mstore (mstore m out (take n ct)) out_tag (drop n ct ++ tag))) /\
    (~ placed \/ seal_scatter_supports_extra_in a = false /\ extra <> [] \/
        extra = [] /\ (accepts nonce ad n = false \/ room < tag_len ctx) ->
      exists m', EVP_AEAD_CTX_seal_scatter ctx m out out_tag room nonce inp n extra ad = (None, m'))) /\
  (forall ctx m out nonce inp n in_tag ad, ctx_ok ctx -> ranges_ok inp n out n -> bytes_ok nonce ->
    apart out n in_tag (tag_len ctx) ->
    let fits := (inp = out \/ apart inp n out n) /\ accepts nonce ad n = true in
    let sealed_as pt := encrypt (aead_state ctx) (tag_len ctx) nonce ad pt = (mload m inp n, mload m in_tag (tag_len ctx)) in
    let '(ok, m') := EVP_AEAD_CTX_open_gather ctx m out nonce inp n in_tag (tag_len ctx) ad in
    (exists pt, fits /\ sealed_as pt /\ ok = true /\ agree m' (mstore m out pt)) \/
    (~ (fits /\ exists pt, sealed_as pt) /\ ok = false /\ agree m' (zero_fill m out n))) /\
  (forall ctx m out room nonce inp n ad m1 dst room2, ctx_ok ctx -> bytes_ok nonce ->
    ranges_ok inp n out room -> ranges_ok out (n + tag_len ctx) dst room2 ->
    EVP_AEAD_CTX_seal ctx m out room nonce inp n ad = (Some (n + tag_len ctx), m1) ->
    dst = out \/ apart out (n + tag_len ctx) dst room2 -> n <= room2 ->
    exists m2, EVP_AEAD_CTX_open ctx m1 dst room2 nonce out (n + tag_len ctx) ad = (Some n, m2) /\ agree m2 (mstore m1 dst (mload m inp n))).
Proof.
  split; [| split; [exact @own_open | split; [exact seal_exact | split; [exact open_exact |
    split; [exact seal_scatter_exact | split; [exact open_gather_exact | exact seal_open]]]]]].
  intros T ctx m out room nonce inp n ad m' Hn Hr. split; [now apply seal_fails_zeroed |]. split; [now apply open_fails_zeroed |].
  split; intros; [eapply seal_scatter_fails_zeroed | eapply open_gather_fails_zeroed]; eassumption.
Qed.
End Contexts.
