(* ===== verification/ChaChaPoly.v ===== *)
(** * ChaCha20-Poly1305 (cipher_extra/e_chacha20poly1305.c)

    The AEAD of RFC 8439 as an [EVP_AEAD] table, on the portable path
    ([asm_capable] is 0). The state is the key. [junk] is the uninitialised
    buffer of the Poly1305 state on the stack, and [alloc] whether the
    allocation of the state succeeded. *)

From S2P Require Import Prelude Buffers Memory DigestSpec Poly1305 ChaCha Cbs Aead.

Definition POLY1305_TAG_LEN : Z := 16.

Section ChaChaPoly.
Context (junk : list Z) (alloc : bool).

Definition aead_chacha20_poly1305_init (key : list Z) (tag_len : Z) : option (list Z * Z) :=
  let tag_len := if tag_len =? 0 then POLY1305_TAG_LEN else tag_len in
  if POLY1305_TAG_LEN <? tag_len then None else
  if negb (len key =? 32) then None else
  if negb alloc then None else
  Some (key, tag_len).

Fixpoint length_bytes (n : nat) (data_len : Z) : list Z :=
  match n with
  | O => []
  | S n => u8 data_len :: length_bytes n (Z.shiftr data_len 8)
  end.

Definition poly1305_update_length (st : poly1305_state_st) (data_len : Z) : poly1305_state_st :=
  CRYPTO_poly1305_update st (length_bytes 8 data_len).

Definition calc_tag (key nonce ad ciphertext ciphertext_extra : list Z) : list Z :=
  let poly1305_key := CRYPTO_chacha_20 (repeat 0 32) key nonce 0 in
  let padding := repeat 0 16 in
  let st := CRYPTO_poly1305_init junk poly1305_key in
  let st := CRYPTO_poly1305_update st ad in
  let st := if negb (len ad mod 16 =? 0) then CRYPTO_poly1305_update st (take (16 - len ad mod 16) padding) else st in
  let st := CRYPTO_poly1305_update st ciphertext in
  let st := CRYPTO_poly1305_update st ciphertext_extra in
  let ciphertext_total := u64 (len ciphertext + len ciphertext_extra) in
  let st := if negb (ciphertext_total mod 16 =? 0) then CRYPTO_poly1305_update st (take (16 - ciphertext_total mod 16) padding) else st in
  let st := poly1305_update_length st (len ad) in
  let st := poly1305_update_length st ciphertext_total in
  CRYPTO_poly1305_finish st.

(** One block of the extra input: what is written, and the input not yet done. *)
Fixpoint extra_block (block : list Z) (i : Z) (extra_in : list Z) : list Z * list Z :=
  match extra_in with
  | [] => ([], [])
  | x :: rest =>
      if i <? 64 then
        let '(o, r) := extra_block block (i + 1) rest in
        (Z.lxor x (get block i) :: o, r)
      else ([], extra_in)
  end.

Fixpoint extra_loop (fuel : nat) (key nonce : list Z) (block_counter offset : Z) (extra_in : list Z) : list Z :=
  match fuel with
  | O => []
  | S fuel =>
      if 0 <? len extra_in then
        let block := CRYPTO_chacha_20 (repeat 0 64) key nonce block_counter in
        let '(o, rest) := extra_block block offset extra_in in
        o ++ extra_loop fuel key nonce (u32 (block_counter + 1)) 0 rest
      else []
  end.

Definition MAX_LEN : Z := Z.shiftl 1 32 * 64 - 64.

Definition aead_chacha20_poly1305_seal_scatter (key : list Z) (tag_len : Z) (m : mem) (out out_tag max_out_tag_len : Z)
  (nonce : list Z) (inp in_len : Z) (extra_in ad : list Z) : option Z * mem :=
  let extra_in_len := len extra_in in
  if u64 (extra_in_len + tag_len) <? tag_len then (None, m) else
  if max_out_tag_len <? u64 (tag_len + extra_in_len) then (None, m) else
  if negb (len nonce =? 12) then (None, m) else
  if MAX_LEN <=? in_len then (None, m) else
  if max_out_tag_len <? tag_len then (None, m) else
  let m :=
    if negb (extra_in_len =? 0)
    then mstore m out_tag (extra_loop (length extra_in) key nonce (u32 (1 + in_len / 64)) (in_len mod 64) extra_in)
    else m in
  let m := mstore m out (CRYPTO_chacha_20 (mload m inp in_len) key nonce 1) in
  let tag := calc_tag key nonce ad (mload m out in_len) (mload m out_tag extra_in_len) in
  let m := mstore m (out_tag + extra_in_len) (take tag_len tag) in
  (Some (u64 (extra_in_len + tag_len)), m).

Definition aead_chacha20_poly1305_open_gather (key : list Z) (tag_len : Z) (m : mem) (out : Z) (nonce : list Z)
  (inp in_len in_tag in_tag_len : Z) (ad : list Z) : bool * mem :=
  if negb (len nonce =? 12) then (false, m) else
  if negb (in_tag_len =? tag_len) then (false, m) else
  if MAX_LEN <=? in_len then (false, m) else
  let tag := calc_tag key nonce ad (mload m inp in_len) [] in
  let m := mstore m out (CRYPTO_chacha_20 (mload m inp in_len) key nonce 1) in
  if negb (CRYPTO_memcmp (take tag_len tag) (mload m in_tag tag_len) =? 0) then (false, m) else
  (true, m).

Definition EVP_aead_chacha20_poly1305 : EVP_AEAD (list Z) :=
  mk_aead 32 12 POLY1305_TAG_LEN POLY1305_TAG_LEN true
    (Some aead_chacha20_poly1305_init) (fun _ _ _ => None) None
    aead_chacha20_poly1305_seal_scatter (Some aead_chacha20_poly1305_open_gather) None.
End ChaChaPoly.

(** ** RFC 8439 *)

Definition pad16 (l : list Z) : list Z := repeat 0 (Z.to_nat (- len l mod 16)).
Definition mac_data (ad ct : list Z) : list Z := ad ++ pad16 ad ++ ct ++ pad16 ct ++ le_enc 8 (len ad) ++ le_enc 8 (len ct).
Definition rfc_poly_key (key nonce : list Z) : list Z := rfc_chacha20 key nonce 0 (repeat 0 32).
Definition rfc_tag (key nonce ad ct : list Z) : list Z := rfc_poly1305 (rfc_poly_key key nonce) (mac_data ad ct).

(** ** The tag *)

Lemma length_bytes_enc n : forall v, 0 <= v -> length_bytes n v = le_enc n v.
Proof.
  induction n as [| n IH]; intros v Hv; [reflexivity |]. cbn [length_bytes]. rewrite IH by (apply Z.shiftr_nonneg; lia).
  rewrite le_enc_S. unfold wrap. rewrite Z.shiftr_div_pow2 by lia. reflexivity.
Qed.

Lemma pad_update l : pad16 l = if len l mod 16 =? 0 then [] else take (16 - len l mod 16) (repeat 0 16).
Proof.
  unfold pad16. pose proof (Z.mod_pos_bound (len l) 16 ltac:(lia)). destruct (Z.eqb_spec (len l mod 16) 0) as [E | E].
  - now rewrite Z.mod_opp_l_z by (lia || exact E).
  - rewrite Z.mod_opp_l_nz by (lia || exact E). unfold take. rewrite firstn_repeat. f_equal. lia.
Qed.

Definition tag_of (key nonce ad ct : list Z) : list Z :=
  one_shot (CRYPTO_chacha_20 (repeat 0 32) key nonce 0) (mac_data ad ct).

(** The calls of [calc_tag] add up to the data the RFC authenticates. *)
Lemma calc_tag_data junk key nonce ad ct extra : len junk = 16 -> len ct + len extra < 2 ^ 64 ->
  calc_tag junk key nonce ad ct extra = tag_of key nonce ad (ct ++ extra).
Proof.
  intros Hj Hl. pose proof (len_nonneg ct). pose proof (len_nonneg extra). unfold calc_tag, tag_of, poly1305_update_length. cbv zeta.
  rewrite wrap_small by lia. rewrite !length_bytes_enc by (apply len_nonneg || lia). rewrite <- len_app.
  set (K := CRYPTO_chacha_20 (repeat 0 32) key nonce 0).
  assert (Up : forall st msg l, has_taken st K msg -> has_taken (CRYPTO_poly1305_update st l) K (msg ++ l)) by (intros; now apply poly_update_ok).
  assert (Pad : forall st msg l, has_taken st K msg ->
    has_taken (if negb (len l mod 16 =? 0) then CRYPTO_poly1305_update st (take (16 - len l mod 16) (repeat 0 16)) else st) K (msg ++ pad16 l)).
  { intros st msg l T. rewrite pad_update. destruct (len l mod 16 =? 0); cbn [negb]; [now rewrite app_nil_r | now apply Up]. }
  apply finish_one_shot. unfold mac_data. rewrite !app_assoc.
  do 2 apply Up. rewrite <- (app_assoc _ ct extra). apply Pad. rewrite app_assoc. do 2 apply Up. apply Pad. apply (Up _ []). now apply poly_init_taken.
Qed.

Lemma len_tag_of key nonce ad ct : len (tag_of key nonce ad ct) = 16.
Proof.
  unfold tag_of, one_shot. cbv zeta. destruct (finish_limbs _ _ _ _ _) as [[[[? ?] ?] ?] ?]. unfold finish_tag. cbv zeta.
  unfold U32TO8_LE. rewrite !len_app, !le_enc_len. reflexivity.
Qed.

(** ** The stream *)

Section Stream.
Context (key nonce : list Z) (Hk : bytes_ok key /\ len key = 32) (Hn : bytes_ok nonce /\ len nonce = 12).

Lemma extra_block_spec block : len block = 64 -> forall extra i, 0 <= i <= 64 ->
  extra_block block i extra = (xor_bytes extra (drop i block), drop (64 - i) extra).
Proof.
  intros Lb extra. induction extra as [| x extra IH]; intros i Hi.
  { cbn [extra_block]. unfold drop. now rewrite skipn_nil. }
  cbn [extra_block]. destruct (Z.ltb_spec i 64).
  - rewrite IH by lia. rewrite (drop_cons_get i) by lia. rewrite xor_bytes_cons. f_equal.
    rewrite drop_cons by lia. f_equal. lia.
  - replace i with 64 by lia. rewrite drop_all by lia. rewrite Z.sub_diag, drop_0. reflexivity.
Qed.

Lemma zero_block counter : word32 counter ->
  CRYPTO_chacha_20 (repeat 0 64) key nonce counter = rfc_block key nonce counter /\ len (rfc_block key nonce counter) = 64.
Proof.
  intros Hc. destruct (core_block key nonce Hk Hn counter Hc) as (_ & Lb & _). split; [| exact Lb].
  rewrite (chacha_stream key nonce Hk Hn 1) by (assumption || (rewrite len_repeat; lia)).
  cbn [rfc_stream]. rewrite app_nil_r, xor_bytes_zero. apply take_all. lia.
Qed.

Lemma xor_bytes_split x s k : 0 <= k -> k <= len s -> xor_bytes x s = xor_bytes x (take k s) ++ xor_bytes (drop k x) (drop k s).
Proof.
  intros Hk0 Hs. destruct (Z.le_gt_cases (len x) k).
  - rewrite (drop_all k x) by lia. rewrite app_nil_r. rewrite <- (take_drop k s) at 1. apply xor_bytes_app_l. rewrite len_take; lia.
  - rewrite <- (take_drop k x) at 1. rewrite <- (take_drop k s) at 1. rewrite xor_bytes_app by (rewrite !len_take; lia). f_equal.
    rewrite <- (take_drop k x) at 2. rewrite <- (app_nil_r (take k s)) at 2.
    rewrite xor_bytes_app by (rewrite !len_take; lia). destruct (drop k x); now rewrite app_nil_r.
Qed.

(** The extra input is masked with the rest of the key stream. *)
Lemma extra_loop_stream n : forall fuel counter offset extra, word32 counter -> 0 <= offset < 64 ->
  len extra <= Z.of_nat fuel -> offset + len extra <= 64 * Z.of_nat n ->
  extra_loop fuel key nonce counter offset extra = xor_bytes extra (drop offset (rfc_stream key nonce counter n)).
Proof.
  induction n as [| n IH]; intros fuel counter offset extra Hc Ho Hf Hl.
  { rewrite (len_0_nil extra) by (pose proof (len_nonneg extra); lia). destruct fuel; reflexivity. }
  destruct fuel as [| fuel]; [rewrite (len_0_nil extra) by (pose proof (len_nonneg extra); lia); reflexivity |].
  cbn [extra_loop rfc_stream]. destruct (Z.ltb_spec 0 (len extra)) as [Hp | Hz].
  2: { rewrite (len_0_nil extra) by (pose proof (len_nonneg extra); lia). reflexivity. }
  destruct (zero_block counter Hc) as [-> Lb]. rewrite extra_block_spec by lia.
  destruct (Z.le_gt_cases (len extra) (64 - offset)) as [Hs | Hs].
  - rewrite (drop_all (64 - offset) extra) by lia. rewrite drop_app_l by lia. rewrite xor_bytes_app_l by (rewrite len_drop; lia).
    destruct fuel; apply app_nil_r.
  - change (u32 (counter + 1)) with (plus32 counter 1). rewrite IH by (apply plus32_word || (rewrite ?len_drop; lia)). rewrite drop_0.
    rewrite (xor_bytes_split extra (drop offset (rfc_block key nonce counter ++ _)) (64 - offset)).
    2: lia.
    2: { pose proof (proj1 (rfc_stream_len key nonce Hk Hn n _ (plus32_word counter 1))) as Ls.
         rewrite len_drop by (rewrite len_app; lia). rewrite len_app, Lb, Ls. lia. }
    rewrite drop_app_l by lia. rewrite take_app_exact, drop_app_exact by (rewrite len_drop; lia). reflexivity.
Qed.

Lemma chacha_split pt extra :
  CRYPTO_chacha_20 (pt ++ extra) key nonce 1 =
  CRYPTO_chacha_20 pt key nonce 1 ++ extra_loop (length extra) key nonce (u32 (1 + len pt / 64)) (len pt mod 64) extra.
Proof.
  pose proof (len_nonneg pt). pose proof (len_nonneg extra).
  assert (W1 : word32 1) by (split; [discriminate | reflexivity]).
  set (a := Z.to_nat (len pt / 64)). set (b := Z.to_nat ((len pt mod 64 + len extra + 63) / 64)).
  assert (Hb : len pt mod 64 + len extra <= 64 * Z.of_nat b) by (unfold b; word_lia).
  assert (Ha : 0 <= len pt mod 64 < 64 /\ len pt = 64 * Z.of_nat a + len pt mod 64) by (unfold a; word_lia).
  assert (Hab : len (pt ++ extra) <= 64 * Z.of_nat (a + b)) by (rewrite len_app; lia).
  rewrite (chacha_stream key nonce Hk Hn (a + b) (pt ++ extra) 1 W1 Hab).
  rewrite (chacha_stream key nonce Hk Hn (a + b) pt 1 W1) by lia.
  rewrite (extra_loop_stream b) by (exact (plus32_word 1 (len pt / 64)) || (unfold len; lia) || lia).
  rewrite rfc_stream_app by (assumption || exact W1).
  replace (u32 (1 + len pt / 64)) with (plus32 1 (Z.of_nat a)) by (unfold plus32, a; do 2 f_equal; word_lia).
  set (s := rfc_stream key nonce 1 a). set (t := rfc_stream key nonce (plus32 1 (Z.of_nat a)) b).
  assert (Ls : len s = 64 * Z.of_nat a) by apply (rfc_stream_len key nonce Hk Hn a 1 W1).
  assert (Lt : len t = 64 * Z.of_nat b) by apply (rfc_stream_len key nonce Hk Hn b _ (plus32_word _ _)).
  assert (Hp : len pt <= len (s ++ t)) by (rewrite len_app; lia).
  rewrite <- (take_drop (len pt) (s ++ t)) at 1. rewrite xor_bytes_app by (rewrite len_take; lia). rewrite xor_bytes_take. f_equal. f_equal.
  replace (len pt) with (len s + len pt mod 64) at 1 by lia. rewrite <- drop_drop by lia. f_equal. now apply drop_app_exact.
Qed.
End Stream.

(** ** The scheme *)

Definition cc_encrypt (key : list Z) (tl : Z) (nonce ad pt : list Z) : list Z * list Z :=
  let ct := CRYPTO_chacha_20 pt key nonce 1 in (ct, take tl (tag_of key nonce ad ct)).
Definition cc_usable (key : list Z) (tl : Z) : Prop := (bytes_ok key /\ len key = 32) /\ 0 <= tl <= 16.
Definition cc_nonce (nonce : list Z) : Prop := bytes_ok nonce /\ len nonce = 12.
Definition cc_accepts (nonce ad : list Z) (n : Z) : bool := (len nonce =? 12) && (n <? MAX_LEN).

Lemma cc_accepts_spec nonce ad n : cc_accepts nonce ad n = true <-> len nonce = 12 /\ n < MAX_LEN.
Proof. unfold cc_accepts. now rewrite andb_true_iff, Z.eqb_eq, Z.ltb_lt. Qed.

Lemma word32_1 : word32 1.
Proof. split; [discriminate | reflexivity]. Qed.

Lemma max_len : MAX_LEN = 2 ^ 38 - 64.
Proof. reflexivity. Qed.

Lemma rfc_chacha20_bytes key nonce counter msg : bytes_ok key /\ len key = 32 -> cc_nonce nonce -> word32 counter ->
  bytes_ok msg -> bytes_ok (rfc_chacha20 key nonce counter msg).
Proof. intros Hk Hn Hc Hm. apply bytes_ok_xor; [exact Hm |]. now apply rfc_stream_len. Qed.

Lemma zeros_bytes n : bytes_ok (repeat 0 n).
Proof. apply Forall_forall. intros x Hx%repeat_spec. subst. unfold byte_ok. lia. Qed.

Lemma mac_data_bytes ad ct : bytes_ok ad -> bytes_ok ct -> bytes_ok (mac_data ad ct).
Proof.
  intros Ha Hc. unfold mac_data, pad16. rewrite !bytes_ok_app. splits; trivial; apply zeros_bytes || apply le_enc_bytes.
Qed.

Lemma poly_key_ok key nonce : bytes_ok key /\ len key = 32 -> cc_nonce nonce ->
  CRYPTO_chacha_20 (repeat 0 32) key nonce 0 = rfc_poly_key key nonce /\ len (rfc_poly_key key nonce) = 32 /\ bytes_ok (rfc_poly_key key nonce).
Proof.
  intros Hk Hn. assert (W0 : word32 0) by (split; [discriminate | reflexivity]).
  destruct (chacha_masks key nonce 0 (repeat 0 32) Hk Hn W0) as (E & L & _). rewrite E in L. split; [exact E |]. split; [exact L |].
  apply rfc_chacha20_bytes; trivial. apply zeros_bytes.
Qed.

Lemma cc_len key tl nonce ad pt : cc_usable key tl ->
  len (fst (cc_encrypt key tl nonce ad pt)) = len pt /\ len (snd (cc_encrypt key tl nonce ad pt)) = tl.
Proof.
  intros [Hk Ht]. split; [apply len_chacha |].
  cbn [cc_encrypt snd]. rewrite len_take; [reflexivity | rewrite len_tag_of; lia].
Qed.

Lemma cc_inj key tl nonce ad pt pt' : cc_usable key tl -> cc_nonce nonce ->
  cc_encrypt key tl nonce ad pt = cc_encrypt key tl nonce ad pt' -> pt = pt'.
Proof.
  intros [Hk _] Hn [= E _]. destruct (chacha_masks key nonce 1 pt Hk Hn word32_1) as (_ & _ & <-).
  rewrite E. apply (chacha_masks key nonce 1 pt' Hk Hn word32_1).
Qed.

Section Scheme.
Context (junk : list Z) (alloc : bool) (Hj : len junk = 16).

Lemma cc_seal key tl m out out_tag room nonce inp n extra ad :
  cc_usable key tl -> cc_nonce nonce -> 0 <= n -> inp = out \/ apart inp n out n ->
  apart out n out_tag room -> apart inp n out_tag room -> n < MAX_LEN -> n + len extra < 2 ^ 63 -> tl + len extra <= room ->
  let '(ct, tag) := cc_encrypt key tl nonce ad (mload m inp n ++ extra) in
  exists m', aead_chacha20_poly1305_seal_scatter junk key tl m out out_tag room nonce inp n extra ad = (Some (len extra + tl), m') /\
    agree m' (mstore (mstore m out (take n ct)) out_tag (drop n ct ++ tag)).
Proof.
  intros U Hn Hn0 Hio Hot Hit Hlim Hsum Hroom. destruct U as [Hk Ht]. pose proof (len_nonneg extra).
  unfold cc_encrypt, aead_chacha20_poly1305_seal_scatter. cbv zeta. rewrite !(wrap_small 64) by lia.
  destruct (Z.ltb_spec (len extra + tl) tl); [lia |]. destruct (Z.ltb_spec room (tl + len extra)); [lia |].
  destruct (Z.eqb_spec (len nonce) 12) as [_ | Hx]; [cbn [negb] | destruct Hn; contradiction].
  destruct (Z.leb_spec MAX_LEN n); [lia |]. destruct (Z.ltb_spec room tl); [lia |].
  rewrite (chacha_split key nonce Hk Hn), len_mload by lia. set (ct := CRYPTO_chacha_20 (mload m inp n) key nonce 1).
  assert (Lc : len ct = n) by (unfold ct; rewrite len_chacha; now apply len_mload).
  set (ext := extra_loop (length extra) key nonce (u32 (1 + n / 64)) (n mod 64) extra).
  assert (Le : len ext = len extra).
  { pose proof (len_chacha (mload m inp n ++ extra) key nonce 1) as L.
    rewrite (chacha_split key nonce Hk Hn), !len_app, len_mload in L by lia. fold ct ext in L. lia. }
  set (m1 := if negb (len extra =? 0) then _ else m).
  assert (M1 : agree m1 (mstore m out_tag ext)).
  { unfold m1. destruct (Z.eqb_spec (len extra) 0) as [E | E]; cbn [negb]; [| intros i; reflexivity].
    rewrite (len_0_nil ext) by lia. intros i. unfold mstore. change (len (@nil Z)) with 0. mcase. }
  assert (Ein : mload m1 inp n = mload m inp n).
  { apply mload_ext. intros i Hi. rewrite M1. unfold apart in Hit. mcase. }
  rewrite Ein. fold ct. set (m2 := mstore m1 out ct).
  assert (E2 : mload m2 out n = ct) by (unfold m2; rewrite <- Lc; apply mload_mstore).
  assert (E3 : mload m2 out_tag (len extra) = ext).
  { rewrite <- Le. transitivity (mload (mstore m out_tag ext) out_tag (len ext)); [| apply mload_mstore].
    apply mload_ext. intros i Hi. rewrite <- M1. unfold m2, apart in *. mcase. }
  rewrite E2, E3, calc_tag_data by (exact Hj || lia). rewrite take_app_exact, drop_app_exact by lia. set (tag := take tl _).
  eexists. split; [reflexivity |].
  intros i. rewrite <- mstore_app, Le. apply mstore_ext. clear i. intros i. unfold m2. pose proof (M1 i) as M1i.
  unfold apart in *. unfold mstore in *. rewrite Lc, Le in *.
  destruct (Z.leb_spec out i), (Z.ltb_spec i (out + n)), (Z.leb_spec out_tag i), (Z.ltb_spec i (out_tag + len extra)); cbn [andb] in *; trivial; lia.
Qed.

Lemma cc_refuses key tl m out out_tag room nonce inp n ad : cc_usable key tl -> 0 <= room < 2 ^ 64 -> 0 <= n < 2 ^ 64 ->
  len nonce <> 12 \/ MAX_LEN <= n \/ room < tl ->
  aead_chacha20_poly1305_seal_scatter junk key tl m out out_tag room nonce inp n [] ad = (None, m).
Proof.
  intros [_ Ht] Hr Hn H. unfold aead_chacha20_poly1305_seal_scatter. cbv zeta. change (len (@nil Z)) with 0.
  rewrite !wrap_small by lia. destruct (Z.ltb_spec (0 + tl) tl); [reflexivity |]. destruct (Z.ltb_spec room (tl + 0)); [reflexivity |].
  destruct (Z.eqb_spec (len nonce) 12); cbn [negb]; [| reflexivity]. destruct (Z.leb_spec MAX_LEN n); [reflexivity | lia].
Qed.

Lemma cc_gather key tl nonce : cc_usable key tl -> forall m out inp n in_tag ad,
  0 <= n < 2 ^ 64 -> inp = out \/ apart inp n out n -> apart out n in_tag tl ->
  exists ok m', aead_chacha20_poly1305_open_gather junk key tl m out nonce inp n in_tag tl ad = (ok, m') /\
    (forall i, i < out \/ out + n <= i -> m' i = m i) /\
    (ok = true -> len nonce = 12 /\ n < MAX_LEN) /\
    (cc_nonce nonce -> n < MAX_LEN ->
      (ok = true <-> exists pt, cc_encrypt key tl nonce ad pt = (mload m inp n, mload m in_tag tl)) /\
      (ok = true -> cc_encrypt key tl nonce ad (mload m' out n) = (mload m inp n, mload m in_tag tl))).
Proof.
  intros U m out inp n in_tag ad Hn Hio Hot. pose proof U as [Hk Ht]. unfold aead_chacha20_poly1305_open_gather. cbv zeta.
  destruct (Z.eqb_spec (len nonce) 12) as [En | En]; cbn [negb].
  2: { exists false, m. splits; try reflexivity; try discriminate. intros [_ Hx] _. contradiction. }
  rewrite Z.eqb_refl. cbn [negb]. destruct (Z.leb_spec MAX_LEN n) as [El | El].
  { exists false, m. splits; try reflexivity; try discriminate. lia. }
  rewrite calc_tag_data, app_nil_r by (exact Hj || (rewrite len_mload by lia; change (len (@nil Z)) with 0; lia)).
  set (c := mload m inp n). set (pt := CRYPTO_chacha_20 c key nonce 1). set (m1 := mstore m out pt).
  assert (Lp : len pt = n) by (unfold pt, c; rewrite len_chacha; apply len_mload; lia).
  assert (Et : mload m1 in_tag tl = mload m in_tag tl) by (apply mload_ext; intros i Hi; unfold m1, apart in *; mcase).
  assert (Ep : mload m1 out n = pt) by (rewrite <- Lp; apply mload_mstore).
  assert (Out : forall i, i < out \/ out + n <= i -> m1 i = m i) by (intros i Hi; unfold m1; mcase).
  rewrite Et. set (tag := mload m in_tag tl). set (mine := take tl (tag_of key nonce ad c)).
  assert (Lm : length mine = length tag).
  { assert (E : len mine = len tag) by (unfold mine, tag; rewrite len_mload, len_take; rewrite ?len_tag_of; lia). unfold len in E. lia. }
  pose proof (memcmp_loop_zero mine tag 0 Lm) as Hm. unfold CRYPTO_memcmp.
  assert (Enc : cc_nonce nonce -> cc_encrypt key tl nonce ad pt = (c, mine)).
  { intros Hno. unfold cc_encrypt. cbv zeta. unfold pt. destruct (chacha_masks key nonce 1 c Hk Hno word32_1) as (_ & _ & ->). reflexivity. }
  assert (Dec : forall x, cc_encrypt key tl nonce ad x = (c, tag) -> mine = tag).
  { intros x [= Ec Eg]. unfold mine. now rewrite <- Eg, Ec. }
  destruct (Z.eqb_spec (CRYPTO_memcmp_loop mine tag 0) 0) as [E | E]; cbn [negb].
  - exists true, m1. apply Hm in E as [_ E]. split; [reflexivity |]. split; [exact Out |]. split; [intros _; split; [exact En | exact El] |].
    intros Hno _. rewrite Ep, (Enc Hno), E. split; [| reflexivity]. split; [intros _; exists pt; now rewrite (Enc Hno), E | reflexivity].
  - exists false, m1. split; [reflexivity |]. split; [exact Out |]. split; [discriminate |]. intros Hno _. split; [| discriminate].
    split; [discriminate |]. intros [x Hx]. exfalso. apply E, Hm. split; [reflexivity | exact (Dec x Hx)].
Qed.

#[export, refine] Instance chacha20_poly1305_scheme : AeadScheme (EVP_aead_chacha20_poly1305 junk alloc) := {
  encrypt := cc_encrypt; usable := cc_usable; accepts := cc_accepts }.
Proof.
  - reflexivity.
  - intros nonce ad n [_ Hn]%cc_accepts_spec. rewrite max_len in Hn. cbn [EVP_aead_chacha20_poly1305 overhead]. unfold POLY1305_TAG_LEN. lia.
  - intros key tl U. apply U.
  - exact cc_len.
  - intros key tl nonce ad pt pt' U Hn [Ln _]%cc_accepts_spec. apply cc_inj; [exact U | now split].
  - intros key tl m out out_tag room nonce inp n extra ad U Hn Hn0 Hio Hot Hit _ [Ln Hl]%cc_accepts_spec Hr. pose proof (len_nonneg extra).
    apply cc_seal; trivial; rewrite ?max_len in *; [now split | lia | lia].
  - intros key tl m out out_tag room nonce inp n ad U Hr Hn Hf. exists m. split; [| reflexivity]. apply cc_refuses; trivial.
    pose proof (cc_accepts_spec nonce ad n) as A. destruct Hf as [Hf | Hf]; [| tauto]. rewrite Hf in A.
    destruct (Z.eq_dec (len nonce) 12); [| tauto]. destruct (Z.le_gt_cases MAX_LEN n); [tauto |]. exfalso. assert (false = true) by tauto. discriminate.
  - intros key tl nonce U. exists (aead_chacha20_poly1305_open_gather junk). split; [reflexivity |].
    intros m out inp n in_tag ad Hn Hio Hot. destruct (cc_gather key tl nonce U m out inp n in_tag ad Hn Hio Hot) as (ok & m' & E & Out & Okn & Hx).
    exists ok, m'. split; [exact E |]. split; [exact Out |]. split; [intros H; now apply cc_accepts_spec, Okn |].
    intros Bn [Ln Hl]%cc_accepts_spec. apply Hx; [now split | exact Hl].
Defined.

Lemma cc_init key tlen : 0 <= tlen ->
  EVP_AEAD_CTX_init (EVP_aead_chacha20_poly1305 junk alloc) key tlen =
  if (len key =? 32) && (tlen <=? 16) && alloc
  then Some (mk_aead_ctx (EVP_aead_chacha20_poly1305 junk alloc) key (if tlen =? 0 then 16 else tlen)) else None.
Proof.
  intros Ht. unfold EVP_AEAD_CTX_init, EVP_AEAD_CTX_init_with_direction. cbn [EVP_aead_chacha20_poly1305 init key_len].
  destruct (len key =? 32) eqn:Ek; cbn [negb andb]; [| reflexivity]. unfold aead_chacha20_poly1305_init, POLY1305_TAG_LEN. cbv zeta.
  rewrite Ek. cbn [negb]. destruct (Z.eqb_spec tlen 0) as [-> | Hz]; [destruct alloc; reflexivity |].
  destruct (Z.ltb_spec 16 tlen), (Z.leb_spec tlen 16); try lia; destruct alloc; reflexivity.
Qed.

(** An AEAD context for ChaCha20-Poly1305 exists exactly for a key of 32
    bytes, a tag of at most 16 (0 asks for 16), and memory; it then seals as RFC
    8439 says: the plaintext masked from counter 1, and the tag over additional
    data and ciphertext, each padded to 16 bytes, and their lengths, under the
    one-time key from counter 0, cut to the tag length. (The tag is that of the
    RFC up to the carry that Poly1305 drops on [lost] residues.) *)
Lemma chacha20_poly1305_is_rfc key tlen : bytes_ok key -> 0 <= tlen ->
  let a := EVP_aead_chacha20_poly1305 junk alloc in
  match EVP_AEAD_CTX_init a key tlen with
  | None => len key <> 32 \/ 16 < tlen \/ alloc = false
  | Some ctx =>
      len key = 32 /\ tlen <= 16 /\ alloc = true /\ ctx_ok a ctx /\ tag_len ctx = (if tlen =? 0 then 16 else tlen) /\
      forall nonce ad pt, bytes_ok nonce -> len nonce = 12 -> bytes_ok ad -> bytes_ok pt ->
      let ct := rfc_chacha20 key nonce 1 pt in
      let acc := rfc_acc (rfc_poly_key key nonce) (mac_data ad ct) in
      (~ lost acc -> sealed a ctx nonce ad pt = ct ++ take (tag_len ctx) (rfc_tag key nonce ad ct)) /\
      exists e, (e = 0 \/ e = 2 ^ 26) /\ sealed a ctx nonce ad pt =
        ct ++ take (tag_len ctx) (le_enc 16 (acc - e + le_bytes_val (drop 16 (rfc_poly_key key nonce))))
  end.
Proof.
  intros Bk Ht. cbv zeta. rewrite cc_init by exact Ht. destruct (_ && alloc) eqn:E.
  2: { destruct (Z.eqb_spec (len key) 32); [| tauto]. destruct (Z.leb_spec tlen 16); [cbn [andb] in E; tauto | tauto]. }
  rewrite !andb_true_iff, Z.eqb_eq, Z.leb_le in E. destruct E as [[Ek El] Ea]. set (t := if tlen =? 0 then 16 else tlen).
  assert (Et : 0 <= t <= 16) by (unfold t; destruct (Z.eqb_spec tlen 0); lia). cbn [tag_len].
  split; [exact Ek |]. split; [exact El |]. split; [exact Ea |].
  split; [split; [reflexivity |]; split; [split; [exact Bk | exact Ek] | exact Et] |]. split; [reflexivity |].
  intros nonce ad pt Bn Ln Ba Bp. cbv zeta.
  destruct (chacha_masks key nonce 1 pt (conj Bk Ek) (conj Bn Ln) word32_1) as (Ec & _).
  pose proof (poly_key_ok key nonce (conj Bk Ek) (conj Bn Ln)) as (Ep & Lp & Bp').
  set (a := EVP_aead_chacha20_poly1305 junk alloc).
  assert (Es : sealed a (mk_aead_ctx a key t) nonce ad pt =
    rfc_chacha20 key nonce 1 pt ++ take t (one_shot (rfc_poly_key key nonce) (mac_data ad (rfc_chacha20 key nonce 1 pt)))).
  { unfold sealed. cbn [encrypt chacha20_poly1305_scheme aead_state tag_len]. unfold cc_encrypt, tag_of. cbv zeta. now rewrite Ec, Ep. }
  destruct (one_shot_value (rfc_poly_key key nonce) (mac_data ad (rfc_chacha20 key nonce 1 pt)) Bp' Lp) as (e & He & E1).
  { apply mac_data_bytes; [exact Ba |]. apply rfc_chacha20_bytes; [now split | now split | exact word32_1 | exact Bp]. }
  rewrite Es, E1. split; [| exists e; split; [tauto | reflexivity]].
  intros Hl. destruct He as [-> | [_ H]]; [| contradiction]. now rewrite Z.sub_0_r.
Qed.

(** The second byte of extra input after the longest plaintext. *)
Lemma last_extra key nonce pt x y : bytes_ok key /\ len key = 32 -> cc_nonce nonce -> len pt = MAX_LEN - 1 ->
  exists b, CRYPTO_chacha_20 (pt ++ [x; y]) key nonce 1 =
    CRYPTO_chacha_20 pt key nonce 1 ++ [b; Z.lxor y (get (CRYPTO_chacha_20 (repeat 0 32) key nonce 0) 0)].
Proof.
  intros Hk Hn Hl. rewrite (chacha_split key nonce Hk Hn), Hl.
  change (u32 (1 + (MAX_LEN - 1) / 64)) with (2 ^ 32 - 1). change ((MAX_LEN - 1) mod 64) with 63.
  assert (W0 : word32 0) by (split; [discriminate | reflexivity]). assert (W : word32 (2 ^ 32 - 1)) by (split; [discriminate | reflexivity]).
  rewrite (extra_loop_stream key nonce Hk Hn 2) by (trivial; reflexivity || lia || (split; [discriminate | reflexivity]) || discriminate).
  cbn [rfc_stream]. change (plus32 (2 ^ 32 - 1) 1) with 0. rewrite app_nil_r.
  destruct (core_block key nonce Hk Hn _ W) as (_ & L & _), (core_block key nonce Hk Hn _ W0) as (_ & L0 & _).
  rewrite (chacha_stream key nonce Hk Hn 1 (repeat 0 32)) by (trivial; discriminate). cbn [rfc_stream]. rewrite app_nil_r.
  set (B := rfc_block key nonce (2 ^ 32 - 1)) in *. set (B0 := rfc_block key nonce 0) in *.
  rewrite drop_app_l, (drop_cons_get 63 B), (drop_all (63 + 1) B) by lia. cbn [app].
  rewrite xor_bytes_zero, get_take by lia. exists (Z.lxor x (get B 63)).
  assert (E : B0 = get B0 0 :: drop 1 B0) by (rewrite <- (drop_0 B0) at 1; apply drop_cons_get; lia).
  rewrite E at 1. reflexivity.
Qed.

(** Sealing with extra input reuses the one-time key. The length check counts
    the plaintext alone, so that after the longest plaintext allowed the block
    counter of the extra input wraps to 0: its second byte is masked with the
    first byte of the Poly1305 key. *)
Lemma chacha20_poly1305_extra_in_reuses_key ctx m out out_tag room nonce inp x y ad :
  let a := EVP_aead_chacha20_poly1305 junk alloc in
  let n := MAX_LEN - 1 in
  ctx_ok a ctx -> cc_nonce nonce -> ranges_ok inp n out n -> 0 <= out_tag -> out_tag + room < 2 ^ 64 ->
  inp = out \/ apart inp n out n -> apart out n out_tag room -> apart inp n out_tag room -> tag_len ctx + 2 <= room ->
  exists m', EVP_AEAD_CTX_seal_scatter ctx m out out_tag room nonce inp n [x; y] ad = (Some (2 + tag_len ctx), m') /\
    m' (out_tag + 1) = Z.lxor y (get (CRYPTO_chacha_20 (repeat 0 32) (aead_state ctx) nonce 0) 0).
Proof.
  cbv zeta. intros [Ea U] Hn (I0 & I1 & I2 & O0 & O1 & O2) T0 T1 Hio Hot Hit Hr. pose proof (proj2 U) as Ht.
  set (n := MAX_LEN - 1) in *. assert (Hnv : n = 2 ^ 38 - 65) by reflexivity.
  unfold EVP_AEAD_CTX_seal_scatter. cbv zeta.
  rewrite (proj2 (check_alias_spec inp n out n I0 O0 I1 I1 I2 O2) Hio).
  rewrite (proj2 (alias_apart out n out_tag room O0 T0 O1 ltac:(lia) O2 T1) Hot).
  rewrite (proj2 (alias_apart inp n out_tag room I0 T0 I1 ltac:(lia) I2 T1) Hit). rewrite Ea. cbn [negb orb andb seal_scatter_supports_extra_in EVP_aead_chacha20_poly1305 seal_scatter].
  pose proof (cc_seal (aead_state ctx) (tag_len ctx) m out out_tag room nonce inp n [x; y] ad U Hn I1 Hio Hot Hit) as H.
  change (len [x; y]) with 2 in H. specialize (H ltac:(unfold n; lia) ltac:(rewrite Hnv; reflexivity) Hr).
  unfold cc_encrypt in H. cbv zeta in H. destruct H as (m' & -> & Am). exists m'. split; [reflexivity |]. rewrite Am.
  destruct (last_extra (aead_state ctx) nonce (mload m inp n) x y (proj1 U) Hn) as [b ->]; [apply len_mload; exact I1 |].
  rewrite drop_app_exact by (rewrite len_chacha, len_mload; lia).
  set (t := take _ (tag_of _ _ _ _)). unfold mstore at 1. cbn [app]. rewrite !len_cons. pose proof (len_nonneg t).
  destruct (Z.leb_spec out_tag (out_tag + 1)), (Z.ltb_spec (out_tag + 1) (out_tag + (1 + (1 + len t)))); cbn [andb]; try lia.
  replace (out_tag + 1 - out_tag) with 1 by lia. reflexivity.
Qed.

(** C6: ChaCha20-Poly1305 contexts exist exactly for 32-byte keys, tags of at most 16 bytes and when memory can be had, and seal as RFC 8439 says (with the tag up to the carry that Poly1305 drops on [lost] residues). Extra input after the longest plaintext the length check allows is masked with the one-time Poly1305 key, because that check counts the plaintext alone. *)
Theorem chacha20_poly1305_exact :
  (forall key tlen,
    bytes_ok key -> 0 <= tlen ->
      let a := EVP_aead_chacha20_poly1305 junk alloc in
      match EVP_AEAD_CTX_init a key tlen with
      | None => len key <> 32 \/ 16 < tlen \/ alloc = false
      | Some ctx =>
          len key = 32 /\ tlen <= 16 /\ alloc = true /\ ctx_ok a ctx /\ tag_len ctx = (if tlen =? 0 then 16 else tlen) /\
          forall nonce ad pt, bytes_ok nonce -> len nonce = 12 -> bytes_ok ad -> bytes_ok pt ->
          let ct := rfc_chacha20 key nonce 1 pt in
          let acc := rfc_acc (rfc_poly_key key nonce) (mac_data ad ct) in
          (~ lost acc -> sealed a ctx nonce ad pt = ct ++ take (tag_len ctx) (rfc_tag key nonce ad ct)) /\
          exists e, (e = 0 \/ e = 2 ^ 26) /\ sealed a ctx nonce ad pt =
            ct ++ take (tag_len ctx) (le_enc 16 (acc - e + le_bytes_val (drop 16 (rfc_poly_key key nonce))))
      end) /\
  (forall ctx m out out_tag room nonce inp x y ad,
    let a := EVP_aead_chacha20_poly1305 junk alloc in
      let n := MAX_LEN - 1 in
      ctx_ok a ctx -> cc_nonce nonce -> ranges_ok inp n out n -> 0 <= out_tag -> out_tag + room < 2 ^ 64 ->
      inp = out \/ apart inp n out n -> apart out n out_tag room -> apart inp n out_tag room -> tag_len ctx + 2 <= room ->
      exists m', EVP_AEAD_CTX_seal_scatter ctx m out out_tag room nonce inp n [x; y] ad = (Some (2 + tag_len ctx), m') /\
        m' (out_tag + 1) = Z.lxor y (get (CRYPTO_chacha_20 (repeat 0 32) (aead_state ctx) nonce 0) 0)).
Proof. split; [exact (@chacha20_poly1305_is_rfc) | exact (@chacha20_poly1305_extra_in_reuses_key)]. Qed.
End Scheme.

(** ** Witnesses *)

Definition junk16 : list Z := repeat 204 16.
Definition test_key : list Z := map Z.of_nat (seq 128 32).
Definition test_nonce : list Z := [7; 0; 0; 0; 64; 65; 66; 67; 68; 69; 70; 71].
Definition test_ctx (tl : Z) : EVP_AEAD_CTX (list Z) := mk_aead_ctx (EVP_aead_chacha20_poly1305 junk16 true) test_key tl.
Definition test_memory : mem := mstore (fun _ => 0) 1000 (map Z.of_nat (seq 65 40)).

Lemma test_usable tl : 0 <= tl <= 16 -> cc_usable test_key tl.
Proof. intros H. split; [| exact H]. split; [repeat constructor; unfold byte_ok; cbn; lia | reflexivity]. Qed.

Lemma test_nonce_ok : cc_nonce test_nonce.
Proof. split; [repeat constructor; unfold byte_ok; lia | reflexivity]. Qed.


Lemma chacha20_poly1305_exact_witness :
  (EVP_AEAD_CTX_init (EVP_aead_chacha20_poly1305 junk16 true) test_key 0 = Some (test_ctx 16) /\
    sealed (AeadScheme0 := chacha20_poly1305_scheme junk16 true eq_refl) _ (test_ctx 16) test_nonce [80; 81] [1; 2; 3] =
    rfc_chacha20 test_key test_nonce 1 [1; 2; 3] ++ take 16 (rfc_tag test_key test_nonce [80; 81] (rfc_chacha20 test_key test_nonce 1 [1; 2; 3]))) /\
  (exists m', EVP_AEAD_CTX_seal_scatter (test_ctx 16) test_memory 0 (2 ^ 40) 18 test_nonce 0 (MAX_LEN - 1) [5; 6] [] = (Some 18, m') /\
      m' (2 ^ 40 + 1) = Z.lxor 6 (get (CRYPTO_chacha_20 (repeat 0 32) test_key test_nonce 0) 0)).
Proof.
  split.
  { pose proof (proj1 (chacha20_poly1305_exact junk16 true eq_refl) test_key 0 (proj1 (proj1 (test_usable 0 ltac:(lia)))) ltac:(lia)) as H.
    cbv zeta in H. change (EVP_AEAD_CTX_init _ _ _) with (Some (test_ctx 16)) in H. split; [reflexivity |].
    destruct H as (_ & _ & _ & _ & _ & H). refine (proj1 (H test_nonce [80; 81] [1; 2; 3] _ _ _ _) _).
    - apply test_nonce_ok.
    - reflexivity.
    - repeat constructor; unfold byte_ok; lia.
    - repeat constructor; unfold byte_ok; lia.
    - intros [_ Hx]. vm_compute in Hx. discriminate. }
  { apply (proj2 (chacha20_poly1305_exact junk16 true eq_refl) (test_ctx 16)).
    - split; [reflexivity | exact (test_usable 16 ltac:(lia))].
    - exact test_nonce_ok.
    - unfold ranges_ok. rewrite max_len. repeat split; reflexivity || discriminate.
    - discriminate.
    - reflexivity.
    - now left.
    - left. rewrite max_len. discriminate.
    - left. rewrite max_len. discriminate.
    - discriminate. }
Defined.

(** A table whose own [open] refuses everything. *)
Definition refusing : EVP_AEAD unit :=
  mk_aead 0 0 0 0 false None (fun _ _ _ => None) (Some (fun _ _ m _ _ _ _ _ _ => (None, m)))
    (fun _ _ m _ _ _ _ _ _ _ _ => (None, m)) None None.

(** Sealing forty bytes in place with a tag of eight, and opening them elsewhere;
    a refusal by an [open] of the table's own. *)
Lemma aead_exact_witness :
  let m1 := snd (EVP_AEAD_CTX_seal (test_ctx 8) test_memory 1000 100 test_nonce 1000 40 [80; 81]) in
  (exists m2, EVP_AEAD_CTX_open (test_ctx 8) m1 5000 40 test_nonce 1000 48 [80; 81] = (Some 40, m2) /\
    agree m2 (mstore m1 5000 (map Z.of_nat (seq 65 40)))) /\
  EVP_AEAD_CTX_open (mk_aead_ctx refusing tt 0) test_memory 1000 40 test_nonce 1000 40 [] = (None, zero_fill test_memory 1000 40).
Proof.
  set (m1 := snd _). change (map Z.of_nat (seq 65 40)) with (mload test_memory 1000 40).
  pose proof (aead_exact (EVP_aead_chacha20_poly1305 junk16 true) (AeadScheme0 := chacha20_poly1305_scheme junk16 true eq_refl))
    as (_ & H2 & _ & _ & _ & _ & H7).
  split.
  { apply (H7 (test_ctx 8) test_memory 1000 100 test_nonce 1000 40 [80; 81] m1 5000 40).
    - split; [reflexivity | exact (test_usable 8 ltac:(lia))].
    - apply test_nonce_ok.
    - unfold ranges_ok. lia.
    - unfold ranges_ok. cbn [tag_len test_ctx]. lia.
    - unfold m1. rewrite (surjective_pairing (EVP_AEAD_CTX_seal _ _ _ _ _ _ _ _)) at 1. reflexivity.
    - right. left. cbn [tag_len test_ctx]. lia.
    - lia. }
  { refine (proj1 (H2 unit (mk_aead_ctx refusing tt 0) _ test_memory 1000 40 test_nonce 1000 40 [] eq_refl _) (or_introl eq_refl)).
    unfold ranges_ok. lia. }
Defined.
