(* ===== verification/AesSpec.v ===== *)
(** * The Advanced Encryption Standard (FIPS 197)

    The field, the S-box, the four transformations of the state, key expansion
    and the two ciphers, as the standard defines them and without tables. The
    state is a list of four columns of four bytes. *)

From S2P Require Import Prelude Buffers DigestSpec.
From Stdlib Require Import Btauto.

(** ** The field of 256 elements *)

(** Multiplication by [x] modulo [x^8 + x^4 + x^3 + x + 1]. *)
Definition xtime (b : Z) : Z := Z.lxor (2 * b mod 256) (if b <? 128 then 0 else 27).

Fixpoint gmul_bits (n : nat) (a b : Z) : Z :=
  match n with
  | O => 0
  | S n => Z.lxor (if Z.odd a then b else 0) (gmul_bits n (Z.div2 a) (xtime b))
  end.
Definition gmul (a b : Z) : Z := gmul_bits 8 a b.

(** The inverse, and 0 for 0: [b^254], the product of [b^2], [b^4], ..., [b^128]. *)
Definition ginv (b : Z) : Z :=
  snd (Nat.iter 7 (fun p => let sq := gmul (fst p) (fst p) in (sq, gmul (snd p) sq)) (b, 1)).

(** It is the inverse. *)
Example ginv_inverse : forallb (fun i => let b := Z.of_nat i in gmul b (ginv b) =? 1) (seq 1 255) = true.
Proof. vm_compute. reflexivity. Qed.

Definition affine (b : Z) : Z :=
  Z.lxor (Z.lxor (Z.lxor (Z.lxor (Z.lxor b (rotl 8 1 b)) (rotl 8 2 b)) (rotl 8 3 b)) (rotl 8 4 b)) 99.
Definition affine_inv (b : Z) : Z := Z.lxor (Z.lxor (Z.lxor (rotl 8 1 b) (rotl 8 3 b)) (rotl 8 6 b)) 5.

Definition sbox (b : Z) : Z := affine (ginv b).
Definition inv_sbox (b : Z) : Z := ginv (affine_inv b).

(** ** Transformations *)

Definition column : Type := list Z.
Definition state : Type := list column.

Definition row (s : state) (r c : Z) : Z := get (nth (Z.to_nat (c mod 4)) s []) r.
Definition build (f : Z -> Z -> Z) : state := map (fun c => map (fun r => f r c) [0; 1; 2; 3]) [0; 1; 2; 3].

Definition sub_bytes (s : state) : state := map (map sbox) s.
Definition inv_sub_bytes (s : state) : state := map (map inv_sbox) s.
Definition shift_rows (s : state) : state := build (fun r c => row s r (c + r)).
Definition inv_shift_rows (s : state) : state := build (fun r c => row s r (c - r)).

(** A column times the matrix whose first row is given; each row of the matrix
    is the one above it rotated to the right. *)
Definition circulant (a b c d : Z) (col : column) : column :=
  match col with
  | [x0; x1; x2; x3] =>
      let dot p q r s := Z.lxor (Z.lxor (Z.lxor (gmul p x0) (gmul q x1)) (gmul r x2)) (gmul s x3) in
      [dot a b c d; dot d a b c; dot c d a b; dot b c d a]
  | _ => col
  end.
Definition mix_column : column -> column := circulant 2 3 1 1.
Definition inv_mix_column : column -> column := circulant 14 11 13 9.
Definition mix_columns (s : state) : state := map mix_column s.
Definition inv_mix_columns (s : state) : state := map inv_mix_column s.

(** A round key is four words. *)
Definition columns_of (ws : list Z) : state := map (be_enc 4) ws.
Definition add_round_key (s : state) (k : list Z) : state := map (fun p => xor_bytes (fst p) (snd p)) (combine s (columns_of k)).

(** ** The ciphers *)

Section Ciphers.
Variable key : nat -> list Z.

Fixpoint rounds_up (n : nat) (s : state) : state :=
  match n with
  | O => s
  | S m => add_round_key (mix_columns (shift_rows (sub_bytes (rounds_up m s)))) (key n)
  end.

Definition cipher (Nr : nat) (s : state) : state :=
  add_round_key (shift_rows (sub_bytes (rounds_up (Nr - 1) (add_round_key s (key 0))))) (key Nr).

Fixpoint rounds_down (n : nat) (s : state) : state :=
  match n with
  | O => s
  | S m => rounds_down m (inv_mix_columns (add_round_key (inv_sub_bytes (inv_shift_rows s)) (key n)))
  end.

Definition inv_cipher (Nr : nat) (s : state) : state :=
  add_round_key (inv_sub_bytes (inv_shift_rows (rounds_down (Nr - 1) (add_round_key s (key Nr))))) (key 0).
End Ciphers.

(** ** Key expansion *)

Definition sub_word (w : Z) : Z := be_val (map sbox (be_enc 4 w)).
Definition rcon_word (i : Z) : Z := be_val [Nat.iter (Z.to_nat (i - 1)) xtime 1; 0; 0; 0].

Definition next_word (Nk : Z) (ws : list Z) : Z :=
  let i := len ws in
  let temp := get ws (i - 1) in
  let temp :=
    if i mod Nk =? 0 then Z.lxor (sub_word (rotl 32 8 temp)) (rcon_word (i / Nk))
    else if (6 <? Nk) && (i mod Nk =? 4) then sub_word temp
    else temp in
  Z.lxor (get ws (i - Nk)) temp.

Definition be_words (l : list Z) : list Z := map (fun i => be_val (load l (4 * Z.of_nat i) 4)) (seq 0 (length l / 4)).

(** [n] words of the schedule of a key. *)
Definition key_expansion (key : list Z) (n : nat) : list Z :=
  Nat.iter (n - length key / 4) (fun ws => ws ++ [next_word (len key / 4) ws]) (be_words key).

Definition rounds_of (key : list Z) : nat := length key / 4 + 6.

Definition round_key (key : list Z) (i : nat) : list Z :=
  load (key_expansion key (4 * (rounds_of key + 1))) (4 * Z.of_nat i) 4.

(** Blocks of sixteen bytes are the state, column by column. *)
Definition state_of (block : list Z) : state := map (fun i => load block (4 * Z.of_nat i) 4) (seq 0 4).

Definition fips_encrypt (key block : list Z) : list Z := concat (cipher (round_key key) (rounds_of key) (state_of block)).
Definition fips_decrypt (key block : list Z) : list Z := concat (inv_cipher (round_key key) (rounds_of key) (state_of block)).

(** The example of the standard, appendix B. *)
Example fips197_appendix_b :
  fips_encrypt [43; 126; 21; 22; 40; 174; 210; 166; 171; 247; 21; 136; 9; 207; 79; 60]
    [50; 67; 246; 168; 136; 90; 48; 141; 49; 49; 152; 162; 224; 55; 7; 52] =
  [57; 37; 132; 29; 2; 220; 9; 251; 220; 17; 133; 151; 25; 106; 11; 50].
Proof. vm_compute. reflexivity. Qed.

(** ** Facts about bytes, by trying them all *)

Definition all_bytes (p : Z -> bool) : bool := forallb (fun i => p (Z.of_nat i)) (seq 0 256).

Lemma all_bytes_ok p : all_bytes p = true -> forall b, byte_ok b -> p b = true.
Proof.
  unfold all_bytes, byte_ok. intros H b Hb. rewrite forallb_forall in H.
  rewrite <- (Z2Nat.id b) by lia. apply H, in_seq. lia.
Qed.

Lemma all_bytes_eq (f g : Z -> Z) : all_bytes (fun b => f b =? g b) = true -> forall b, byte_ok b -> f b = g b.
Proof. intros H b Hb. apply Z.eqb_eq. exact (all_bytes_ok _ H b Hb). Qed.

Lemma all_bytes_range (f : Z -> Z) : all_bytes (fun b => (0 <=? f b) && (f b <? 256)) = true -> forall b, byte_ok b -> byte_ok (f b).
Proof. intros H b Hb. pose proof (all_bytes_ok _ H b Hb) as E. cbv beta in E. unfold byte_ok. lia. Qed.

Lemma sbox_byte b : byte_ok b -> byte_ok (sbox b).
Proof. revert b. apply all_bytes_range. vm_compute. reflexivity. Qed.

Lemma inv_sbox_byte b : byte_ok b -> byte_ok (inv_sbox b).
Proof. revert b. apply all_bytes_range. vm_compute. reflexivity. Qed.

Lemma inv_sbox_sbox b : byte_ok b -> inv_sbox (sbox b) = b.
Proof. revert b. apply (all_bytes_eq (fun b => inv_sbox (sbox b)) (fun b => b)). vm_compute. reflexivity. Qed.

Lemma sbox_inv_sbox b : byte_ok b -> sbox (inv_sbox b) = b.
Proof. revert b. apply (all_bytes_eq (fun b => sbox (inv_sbox b)) (fun b => b)). vm_compute. reflexivity. Qed.

Lemma lxor_byte a b : byte_ok a -> byte_ok b -> byte_ok (Z.lxor a b).
Proof. unfold byte_ok. apply (lxor_range 8 a b). lia. Qed.

Lemma xtime_byte b : byte_ok b -> byte_ok (xtime b).
Proof. revert b. apply all_bytes_range. vm_compute. reflexivity. Qed.

Lemma xtime_lxor a b : byte_ok a -> byte_ok b -> xtime (Z.lxor a b) = Z.lxor (xtime a) (xtime b).
Proof.
  intros Ha Hb. pose proof (all_bytes_ok (fun a => all_bytes (fun b => xtime (Z.lxor a b) =? Z.lxor (xtime a) (xtime b))) ltac:(vm_compute; reflexivity) a Ha) as H.
  exact (all_bytes_eq _ _ H b Hb).
Qed.

Lemma gmul_bits_lxor n : forall c a b, byte_ok a -> byte_ok b -> gmul_bits n c (Z.lxor a b) = Z.lxor (gmul_bits n c a) (gmul_bits n c b).
Proof.
  induction n as [| n IH]; intros c a b Ha Hb; [reflexivity |]. cbn [gmul_bits].
  rewrite xtime_lxor, IH by auto using xtime_byte. destruct (Z.odd c).
  - rewrite !Z.lxor_assoc. f_equal. rewrite <- !Z.lxor_assoc. f_equal. apply Z.lxor_comm.
  - now rewrite !Z.lxor_0_l.
Qed.

Lemma gmul_lxor c a b : byte_ok a -> byte_ok b -> gmul c (Z.lxor a b) = Z.lxor (gmul c a) (gmul c b).
Proof. apply gmul_bits_lxor. Qed.

Lemma gmul_byte c b : byte_ok b -> byte_ok (gmul c b).
Proof.
  intros Hb. unfold gmul. generalize 8%nat as n. intros n. revert c b Hb. induction n as [| n IH]; intros c b Hb; cbn [gmul_bits].
  - unfold byte_ok. lia.
  - apply lxor_byte; [destruct (Z.odd c); [exact Hb | unfold byte_ok; lia] | now apply IH, xtime_byte].
Qed.

(** ** The inverse transformations *)

Definition column_ok (c : column) : Prop := exists a0 a1 a2 a3, c = [a0; a1; a2; a3] /\ byte_ok a0 /\ byte_ok a1 /\ byte_ok a2 /\ byte_ok a3.

Lemma column_intro a0 a1 a2 a3 : byte_ok a0 -> byte_ok a1 -> byte_ok a2 -> byte_ok a3 -> column_ok [a0; a1; a2; a3].
Proof. intros. now exists a0, a1, a2, a3. Qed.

(** The states of sixteen bytes, so that the transformations compute. *)
Inductive state_ok : state -> Prop :=
| state_intro a0 a1 a2 a3 b0 b1 b2 b3 c0 c1 c2 c3 d0 d1 d2 d3 :
    bytes_ok [a0; a1; a2; a3; b0; b1; b2; b3; c0; c1; c2; c3; d0; d1; d2; d3] ->
    state_ok [[a0; a1; a2; a3]; [b0; b1; b2; b3]; [c0; c1; c2; c3]; [d0; d1; d2; d3]].

Ltac split_state H :=
  destruct H as [? ? ? ? ? ? ? ? ? ? ? ? ? ? ? ? H];
  unfold bytes_ok in H; rewrite !Forall_cons_iff in H; destruct H as (? & ? & ? & ? & ? & ? & ? & ? & ? & ? & ? & ? & ? & ? & ? & ? & _).

Ltac build_state :=
  constructor; unfold bytes_ok; repeat apply Forall_cons; try apply Forall_nil; trivial.

Lemma state_ok_cols s : Forall column_ok s -> length s = 4%nat -> state_ok s.
Proof.
  destruct s as [| x [| y [| z [| w [| v s]]]]]; try discriminate. intros H _. rewrite !Forall_cons_iff in H.
  destruct H as ((? & ? & ? & ? & -> & ? & ? & ? & ?) & (? & ? & ? & ? & -> & ? & ? & ? & ?) & (? & ? & ? & ? & -> & ? & ? & ? & ?) & (? & ? & ? & ? & -> & ? & ? & ? & ?) & _).
  build_state.
Qed.

Lemma sub_bytes_ok s : state_ok s -> state_ok (sub_bytes s).
Proof. intros H. split_state H. build_state; now apply sbox_byte. Qed.

Lemma shift_rows_ok s : state_ok s -> state_ok (shift_rows s).
Proof. intros H. split_state H. build_state. Qed.

Lemma inv_sub_sub s : state_ok s -> inv_sub_bytes (sub_bytes s) = s.
Proof. intros H. split_state H. cbn [inv_sub_bytes sub_bytes map]. now rewrite !inv_sbox_sbox. Qed.

Lemma sub_inv_sub s : state_ok s -> sub_bytes (inv_sub_bytes s) = s.
Proof. intros H. split_state H. cbn [inv_sub_bytes sub_bytes map]. now rewrite !sbox_inv_sbox. Qed.

Lemma inv_sub_ok s : state_ok s -> state_ok (inv_sub_bytes s).
Proof. intros H. split_state H. build_state; now apply inv_sbox_byte. Qed.

Lemma inv_shift_ok s : state_ok s -> state_ok (inv_shift_rows s).
Proof. intros H. split_state H. build_state. Qed.

Lemma shift_inv_shift s : state_ok s -> shift_rows (inv_shift_rows s) = s.
Proof. intros H. split_state H. reflexivity. Qed.

Lemma inv_shift_shift s : state_ok s -> inv_shift_rows (shift_rows s) = s.
Proof. intros H. split_state H. reflexivity. Qed.

Lemma map_inv_shift (f : Z -> Z) s : state_ok s -> map (map f) (inv_shift_rows s) = inv_shift_rows (map (map f) s).
Proof. intros H. destruct H. reflexivity. Qed.

Lemma inv_sub_shift s : state_ok s -> inv_sub_bytes (inv_shift_rows s) = inv_shift_rows (inv_sub_bytes s).
Proof. apply (map_inv_shift inv_sbox). Qed.

Ltac bytes := first [assumption | apply gmul_byte; bytes | apply lxor_byte; bytes].

Definition dot (p q r s x0 x1 x2 x3 : Z) : Z := Z.lxor (Z.lxor (Z.lxor (gmul p x0) (gmul q x1)) (gmul r x2)) (gmul s x3).

Lemma dot_byte p q r s x0 x1 x2 x3 : byte_ok x0 -> byte_ok x1 -> byte_ok x2 -> byte_ok x3 -> byte_ok (dot p q r s x0 x1 x2 x3).
Proof. intros. unfold dot. bytes. Qed.

Lemma circulant_eq a b c d x0 x1 x2 x3 : circulant a b c d [x0; x1; x2; x3] =
  [dot a b c d x0 x1 x2 x3; dot d a b c x0 x1 x2 x3; dot c d a b x0 x1 x2 x3; dot b c d a x0 x1 x2 x3].
Proof. reflexivity. Qed.

Lemma circulant_ok a b c d col : column_ok col -> column_ok (circulant a b c d col).
Proof. intros (? & ? & ? & ? & -> & ? & ? & ? & ?). rewrite circulant_eq. do 4 eexists. split; [reflexivity |]. auto using dot_byte. Qed.

Definition sum4 (a b c d : Z) : Z := Z.lxor (Z.lxor (Z.lxor a b) c) d.

(** Rows or columns of a square first. *)
Lemma sum4_transpose a0 a1 a2 a3 b0 b1 b2 b3 c0 c1 c2 c3 d0 d1 d2 d3 :
  sum4 (sum4 a0 a1 a2 a3) (sum4 b0 b1 b2 b3) (sum4 c0 c1 c2 c3) (sum4 d0 d1 d2 d3) =
  sum4 (sum4 a0 b0 c0 d0) (sum4 a1 b1 c1 d1) (sum4 a2 b2 c2 d2) (sum4 a3 b3 c3 d3).
Proof. unfold sum4. apply Z.bits_inj'. intros n _. rewrite !Z.lxor_spec. btauto. Qed.

Lemma gmul_dot c p q r s x0 x1 x2 x3 : byte_ok x0 -> byte_ok x1 -> byte_ok x2 -> byte_ok x3 ->
  gmul c (dot p q r s x0 x1 x2 x3) = sum4 (gmul c (gmul p x0)) (gmul c (gmul q x1)) (gmul c (gmul r x2)) (gmul c (gmul s x3)).
Proof.
  intros. unfold dot. rewrite !gmul_lxor by bytes. reflexivity.
Qed.

Definition dot2 (p q r s p' q' r' s' x : Z) : Z :=
  sum4 (gmul p (gmul p' x)) (gmul q (gmul q' x)) (gmul r (gmul r' x)) (gmul s (gmul s' x)).

(** A product of a row with a matrix applied to a column. *)
Lemma dot_dot a b c d p0 q0 r0 s0 p1 q1 r1 s1 p2 q2 r2 s2 p3 q3 r3 s3 x0 x1 x2 x3 :
  byte_ok x0 -> byte_ok x1 -> byte_ok x2 -> byte_ok x3 ->
  dot a b c d (dot p0 q0 r0 s0 x0 x1 x2 x3) (dot p1 q1 r1 s1 x0 x1 x2 x3) (dot p2 q2 r2 s2 x0 x1 x2 x3) (dot p3 q3 r3 s3 x0 x1 x2 x3) =
  sum4 (dot2 a b c d p0 p1 p2 p3 x0) (dot2 a b c d q0 q1 q2 q3 x1) (dot2 a b c d r0 r1 r2 r3 x2) (dot2 a b c d s0 s1 s2 s3 x3).
Proof. intros. unfold dot at 1. rewrite !gmul_dot by assumption. apply sum4_transpose. Qed.

(** The two matrices are inverse: on the diagonal a product is the identity,
    elsewhere zero. *)
Lemma inverse_dot2 p q r s p' q' r' s' (k : bool) :
  all_bytes (fun x => dot2 p q r s p' q' r' s' x =? if k then x else 0) = true ->
  forall x, byte_ok x -> dot2 p q r s p' q' r' s' x = if k then x else 0.
Proof. apply (all_bytes_eq (dot2 p q r s p' q' r' s') (fun x => if k then x else 0)). Qed.

Ltac inverse_entry :=
  match goal with
  | |- context [dot2 ?p ?q ?r ?s ?p' ?q' ?r' ?s' ?x] =>
      first
      [ rewrite (inverse_dot2 p q r s p' q' r' s' true ltac:(vm_compute; reflexivity) x ltac:(assumption))
      | rewrite (inverse_dot2 p q r s p' q' r' s' false ltac:(vm_compute; reflexivity) x ltac:(assumption)) ]
  end.

Lemma inv_mix_mix_column col : column_ok col -> inv_mix_column (mix_column col) = col.
Proof.
  intros (x0 & x1 & x2 & x3 & -> & ? & ? & ? & ?). unfold inv_mix_column, mix_column. rewrite !circulant_eq, !dot_dot by assumption.
  repeat inverse_entry. unfold sum4. now rewrite !Z.lxor_0_l, !Z.lxor_0_r.
Qed.

Lemma mix_inv_mix_column col : column_ok col -> mix_column (inv_mix_column col) = col.
Proof.
  intros (x0 & x1 & x2 & x3 & -> & ? & ? & ? & ?). unfold inv_mix_column, mix_column. rewrite !circulant_eq, !dot_dot by assumption.
  repeat inverse_entry. unfold sum4. now rewrite !Z.lxor_0_l, !Z.lxor_0_r.
Qed.

Lemma mix_columns_ok s : state_ok s -> state_ok (mix_columns s).
Proof.
  intros H. apply state_ok_cols; [| now destruct H]. split_state H. unfold mix_columns. apply Forall_map.
  repeat apply Forall_cons; try apply Forall_nil; apply circulant_ok; apply column_intro; assumption.
Qed.

Lemma inv_mix_columns_ok s : state_ok s -> state_ok (inv_mix_columns s).
Proof.
  intros H. apply state_ok_cols; [| now destruct H]. split_state H. unfold inv_mix_columns. apply Forall_map.
  repeat apply Forall_cons; try apply Forall_nil; apply circulant_ok; apply column_intro; assumption.
Qed.

Lemma inv_mix_mix s : state_ok s -> inv_mix_columns (mix_columns s) = s.
Proof.
  intros H. split_state H. unfold inv_mix_columns, mix_columns. cbn [map].
  rewrite !inv_mix_mix_column by (apply column_intro; assumption). reflexivity.
Qed.

Lemma mix_inv_mix s : state_ok s -> mix_columns (inv_mix_columns s) = s.
Proof.
  intros H. split_state H. unfold inv_mix_columns, mix_columns. cbn [map].
  rewrite !mix_inv_mix_column by (apply column_intro; assumption). reflexivity.
Qed.

(** ** Round keys *)

Definition round_key_ok (k : list Z) : Prop := length k = 4%nat.

Lemma word_column w : column_ok (be_enc 4 w).
Proof.
  pose proof (be_enc_bytes 4 w) as B. revert B. cbn [be_enc app]. unfold bytes_ok. rewrite !Forall_cons_iff. intros (? & ? & ? & ? & _).
  do 4 eexists. split; [reflexivity | auto].
Qed.

Lemma add_round_key_ok s k : state_ok s -> round_key_ok k -> state_ok (add_round_key s k).
Proof.
  intros H Hk. destruct k as [| k0 [| k1 [| k2 [| k3 [|]]]]]; try discriminate Hk. apply state_ok_cols; [| now destruct H].
  split_state H. unfold add_round_key, columns_of. cbn [map combine fst snd].
  repeat apply Forall_cons; try apply Forall_nil;
    match goal with |- column_ok (xor_bytes _ (be_enc 4 ?w)) => destruct (word_column w) as (? & ? & ? & ? & -> & ? & ? & ? & ?) end;
    do 4 eexists; (split; [reflexivity |]); cbn [fst snd]; auto using lxor_byte.
Qed.

Lemma add_round_key_twice s k : state_ok s -> round_key_ok k -> add_round_key (add_round_key s k) k = s.
Proof.
  intros H Hk. destruct k as [| k0 [| k1 [| k2 [| k3 [|]]]]]; try discriminate Hk.
  destruct H. unfold add_round_key, columns_of. cbn [map combine fst snd].
  rewrite !xor_bytes_cancel by (rewrite be_enc_len; discriminate). reflexivity.
Qed.

Lemma inv_mix_xor a b : column_ok a -> column_ok b -> inv_mix_column (xor_bytes a b) = xor_bytes (inv_mix_column a) (inv_mix_column b).
Proof.
  intros (a0 & a1 & a2 & a3 & -> & ? & ? & ? & ?) (b0 & b1 & b2 & b3 & -> & ? & ? & ? & ?). unfold inv_mix_column.
  rewrite !xor_bytes_cons. change (xor_bytes [] []) with (@nil Z). rewrite !circulant_eq, !xor_bytes_cons. change (xor_bytes [] []) with (@nil Z).
  unfold dot. rewrite !gmul_lxor by assumption.
  assert (E : forall p q r s p' q' r' s', sum4 (Z.lxor p p') (Z.lxor q q') (Z.lxor r r') (Z.lxor s s') = Z.lxor (sum4 p q r s) (sum4 p' q' r' s')).
  { intros. unfold sum4. apply Z.bits_inj'. intros n _. rewrite !Z.lxor_spec. btauto. }
  unfold sum4 in E. rewrite !E. reflexivity.
Qed.

(** ** Deciphering *)

Section Inverse.
Context (key : nat -> list Z) (Hkey : forall i, round_key_ok (key i)).

Lemma rounds_up_ok n s : state_ok s -> state_ok (rounds_up key n s).
Proof.
  intros H. induction n as [| n IH]; [exact H |]. cbn [rounds_up].
  apply add_round_key_ok; [| apply Hkey]. now apply mix_columns_ok, shift_rows_ok, sub_bytes_ok.
Qed.

Lemma cipher_ok Nr s : state_ok s -> state_ok (cipher key Nr s).
Proof.
  intros H. unfold cipher. apply add_round_key_ok; [| apply Hkey]. apply shift_rows_ok, sub_bytes_ok, rounds_up_ok. now apply add_round_key_ok.
Qed.

Lemma rounds_down_up n s : state_ok s -> rounds_down key n (shift_rows (sub_bytes (rounds_up key n s))) = shift_rows (sub_bytes s).
Proof.
  intros H. induction n as [| n IH]; [reflexivity |]. cbn [rounds_up rounds_down]. set (x := rounds_up key n s) in *.
  assert (Hx : state_ok x) by now apply rounds_up_ok. set (y := mix_columns (shift_rows (sub_bytes x))).
  assert (Hy : state_ok y) by now apply mix_columns_ok, shift_rows_ok, sub_bytes_ok.
  rewrite inv_shift_shift by now apply sub_bytes_ok, add_round_key_ok. rewrite inv_sub_sub by now apply add_round_key_ok.
  rewrite add_round_key_twice by auto. unfold y. rewrite inv_mix_mix by now apply shift_rows_ok, sub_bytes_ok. exact IH.
Qed.

Lemma inv_cipher_cipher Nr s : state_ok s -> inv_cipher key Nr (cipher key Nr s) = s.
Proof.
  intros H. unfold inv_cipher, cipher. set (s0 := add_round_key s (key 0)). assert (H0 : state_ok s0) by now apply add_round_key_ok.
  rewrite add_round_key_twice by (try apply Hkey; now apply shift_rows_ok, sub_bytes_ok, rounds_up_ok).
  rewrite rounds_down_up, inv_shift_shift, inv_sub_sub by (trivial; now apply sub_bytes_ok).
  apply add_round_key_twice; [exact H | apply Hkey].
Qed.

Lemma rounds_down_ok n : forall s, state_ok s -> state_ok (rounds_down key n s).
Proof.
  induction n as [| n IH]; intros s H; [exact H |]. cbn [rounds_down]. apply IH. apply inv_mix_columns_ok, add_round_key_ok; [| apply Hkey].
  now apply inv_sub_ok, inv_shift_ok.
Qed.

Lemma inv_cipher_ok Nr s : state_ok s -> state_ok (inv_cipher key Nr s).
Proof.
  intros H. unfold inv_cipher. apply add_round_key_ok; [| apply Hkey]. apply inv_sub_ok, inv_shift_ok, rounds_down_ok. now apply add_round_key_ok.
Qed.

(** The rounds up put back what the rounds down took off. *)
Lemma rounds_up_down n : forall s, state_ok s ->
  shift_rows (sub_bytes (rounds_up key n (inv_sub_bytes (inv_shift_rows (rounds_down key n s))))) = s.
Proof.
  induction n as [| n IH]; intros s H.
  - cbn [rounds_up rounds_down]. rewrite sub_inv_sub, shift_inv_shift by (trivial; now apply inv_shift_ok). reflexivity.
  - cbn [rounds_up rounds_down]. set (x := add_round_key (inv_sub_bytes (inv_shift_rows s)) (key (S n))).
    assert (Hs : state_ok (inv_sub_bytes (inv_shift_rows s))) by now apply inv_sub_ok, inv_shift_ok.
    assert (Hx : state_ok x) by (apply add_round_key_ok; [exact Hs | apply Hkey]).
    rewrite IH by now apply inv_mix_columns_ok. rewrite mix_inv_mix by exact Hx. unfold x.
    rewrite add_round_key_twice by (trivial; apply Hkey). rewrite sub_inv_sub, shift_inv_shift by (trivial; now apply inv_shift_ok). reflexivity.
Qed.

Lemma cipher_inv_cipher Nr s : state_ok s -> cipher key Nr (inv_cipher key Nr s) = s.
Proof.
  intros H. unfold inv_cipher, cipher. set (s0 := add_round_key s (key Nr)). assert (H0 : state_ok s0) by now apply add_round_key_ok.
  rewrite add_round_key_twice by (try apply Hkey; now apply inv_sub_ok, inv_shift_ok, rounds_down_ok).
  rewrite rounds_up_down by exact H0. apply add_round_key_twice; [exact H | apply Hkey].
Qed.
End Inverse.
