(* ===== verification/Aes.v ===== *)
(** * AES with tables (fipsmodule/aes/aes.c)

    Key expansion, encryption and decryption over 32-bit words and the tables
    that combine the S-box with the mixing of columns, in the rolled form that
    is compiled (FULL_UNROLL is not defined). They are the functions of FIPS 197;
    decryption is the equivalent inverse cipher over the transformed schedule. *)

From S2P Require Import Prelude Buffers DigestSpec Modes AesSpec.

(** ** Tables *)

Definition Te0 : list Z :=
  [ 3328402341; 4168907908; 4000806809; 4135287693; 4294111757; 3597364157; 3731845041; 2445657428; 1613770832; 33620227;
    3462883241; 1445669757; 3892248089; 3050821474; 1303096294; 3967186586; 2412431941; 528646813; 2311702848; 4202528135;
    4026202645; 2992200171; 2387036105; 4226871307; 1101901292; 3017069671; 1604494077; 1169141738; 597466303; 1403299063;
    3832705686; 2613100635; 1974974402; 3791519004; 1033081774; 1277568618; 1815492186; 2118074177; 4126668546; 2211236943;
    1748251740; 1369810420; 3521504564; 4193382664; 3799085459; 2883115123; 1647391059; 706024767; 134480908; 2512897874;
    1176707941; 2646852446; 806885416; 932615841; 168101135; 798661301; 235341577; 605164086; 461406363; 3756188221;
    3454790438; 1311188841; 2142417613; 3933566367; 302582043; 495158174; 1479289972; 874125870; 907746093; 3698224818;
    3025820398; 1537253627; 2756858614; 1983593293; 3084310113; 2108928974; 1378429307; 3722699582; 1580150641; 327451799;
    2790478837; 3117535592; 0; 3253595436; 1075847264; 3825007647; 2041688520; 3059440621; 3563743934; 2378943302; 1740553945;
    1916352843; 2487896798; 2555137236; 2958579944; 2244988746; 3151024235; 3320835882; 1336584933; 3992714006; 2252555205;
    2588757463; 1714631509; 293963156; 2319795663; 3925473552; 67240454; 4269768577; 2689618160; 2017213508; 631218106;
    1269344483; 2723238387; 1571005438; 2151694528; 93294474; 1066570413; 563977660; 1882732616; 4059428100; 1673313503;
    2008463041; 2950355573; 1109467491; 537923632; 3858759450; 4260623118; 3218264685; 2177748300; 403442708; 638784309;
    3287084079; 3193921505; 899127202; 2286175436; 773265209; 2479146071; 1437050866; 4236148354; 2050833735; 3362022572;
    3126681063; 840505643; 3866325909; 3227541664; 427917720; 2655997905; 2749160575; 1143087718; 1412049534; 999329963;
    193497219; 2353415882; 3354324521; 1807268051; 672404540; 2816401017; 3160301282; 369822493; 2916866934; 3688947771;
    1681011286; 1949973070; 336202270; 2454276571; 201721354; 1210328172; 3093060836; 2680341085; 3184776046; 1135389935;
    3294782118; 965841320; 831886756; 3554993207; 4068047243; 3588745010; 2345191491; 1849112409; 3664604599; 26054028;
    2983581028; 2622377682; 1235855840; 3630984372; 2891339514; 4092916743; 3488279077; 3395642799; 4101667470; 1202630377;
    268961816; 1874508501; 4034427016; 1243948399; 1546530418; 941366308; 1470539505; 1941222599; 2546386513; 3421038627;
    2715671932; 3899946140; 1042226977; 2521517021; 1639824860; 227249030; 260737669; 3765465232; 2084453954; 1907733956;
    3429263018; 2420656344; 100860677; 4160157185; 470683154; 3261161891; 1781871967; 2924959737; 1773779408; 394692241;
    2579611992; 974986535; 664706745; 3655459128; 3958962195; 731420851; 571543859; 3530123707; 2849626480; 126783113;
    865375399; 765172662; 1008606754; 361203602; 3387549984; 2278477385; 2857719295; 1344809080; 2782912378; 59542671;
    1503764984; 160008576; 437062935; 1707065306; 3622233649; 2218934982; 3496503480; 2185314755; 697932208; 1512910199;
    504303377; 2075177163; 2824099068; 1841019862; 739644986 ].

Definition Te1 : list Z :=
  [ 2781242211; 2230877308; 2582542199; 2381740923; 234877682; 3184946027; 2984144751; 1418839493; 1348481072; 50462977;
    2848876391; 2102799147; 434634494; 1656084439; 3863849899; 2599188086; 1167051466; 2636087938; 1082771913; 2281340285;
    368048890; 3954334041; 3381544775; 201060592; 3963727277; 1739838676; 4250903202; 3930435503; 3206782108; 4149453988;
    2531553906; 1536934080; 3262494647; 484572669; 2923271059; 1783375398; 1517041206; 1098792767; 49674231; 1334037708;
    1550332980; 4098991525; 886171109; 150598129; 2481090929; 1940642008; 1398944049; 1059722517; 201851908; 1385547719;
    1699095331; 1587397571; 674240536; 2704774806; 252314885; 3039795866; 151914247; 908333586; 2602270848; 1038082786;
    651029483; 1766729511; 3447698098; 2682942837; 454166793; 2652734339; 1951935532; 775166490; 758520603; 3000790638;
    4004797018; 4217086112; 4137964114; 1299594043; 1639438038; 3464344499; 2068982057; 1054729187; 1901997871; 2534638724;
    4121318227; 1757008337; 0; 750906861; 1614815264; 535035132; 3363418545; 3988151131; 3201591914; 1183697867; 3647454910;
    1265776953; 3734260298; 3566750796; 3903871064; 1250283471; 1807470800; 717615087; 3847203498; 384695291; 3313910595;
    3617213773; 1432761139; 2484176261; 3481945413; 283769337; 100925954; 2180939647; 4037038160; 1148730428; 3123027871;
    3813386408; 4087501137; 4267549603; 3229630528; 2315620239; 2906624658; 3156319645; 1215313976; 82966005; 3747855548;
    3245848246; 1974459098; 1665278241; 807407632; 451280895; 251524083; 1841287890; 1283575245; 337120268; 891687699;
    801369324; 3787349855; 2721421207; 3431482436; 959321879; 1469301956; 4065699751; 2197585534; 1199193405; 2898814052;
    3887750493; 724703513; 2514908019; 2696962144; 2551808385; 3516813135; 2141445340; 1715741218; 2119445034; 2872807568;
    2198571144; 3398190662; 700968686; 3547052216; 1009259540; 2041044702; 3803995742; 487983883; 1991105499; 1004265696;
    1449407026; 1316239930; 504629770; 3683797321; 168560134; 1816667172; 3837287516; 1570751170; 1857934291; 4014189740;
    2797888098; 2822345105; 2754712981; 936633572; 2347923833; 852879335; 1133234376; 1500395319; 3084545389; 2348912013;
    1689376213; 3533459022; 3762923945; 3034082412; 4205598294; 133428468; 634383082; 2949277029; 2398386810; 3913789102;
    403703816; 3580869306; 2297460856; 1867130149; 1918643758; 607656988; 4049053350; 3346248884; 1368901318; 600565992;
    2090982877; 2632479860; 557719327; 3717614411; 3697393085; 2249034635; 2232388234; 2430627952; 1115438654; 3295786421;
    2865522278; 3633334344; 84280067; 33027830; 303828494; 2747425121; 1600795957; 4188952407; 3496589753; 2434238086;
    1486471617; 658119965; 3106381470; 953803233; 334231800; 3005978776; 857870609; 3151128937; 1890179545; 2298973838;
    2805175444; 3056442267; 574365214; 2450884487; 550103529; 1233637070; 4289353045; 2018519080; 2057691103; 2399374476;
    4166623649; 2148108681; 387583245; 3664101311; 836232934; 3330556482; 3100665960; 3280093505; 2955516313; 2002398509;
    287182607; 3413881008; 4238890068; 3597515707; 975967766 ].

Definition Te2 : list Z :=
  [ 1671808611; 2089089148; 2006576759; 2072901243; 4061003762; 1807603307; 1873927791; 3310653893; 810573872; 16974337;
    1739181671; 729634347; 4263110654; 3613570519; 2883997099; 1989864566; 3393556426; 2191335298; 3376449993; 2106063485;
    4195741690; 1508618841; 1204391495; 4027317232; 2917941677; 3563566036; 2734514082; 2951366063; 2629772188; 2767672228;
    1922491506; 3227229120; 3082974647; 4246528509; 2477669779; 644500518; 911895606; 1061256767; 4144166391; 3427763148;
    878471220; 2784252325; 3845444069; 4043897329; 1905517169; 3631459288; 827548209; 356461077; 67897348; 3344078279;
    593839651; 3277757891; 405286936; 2527147926; 84871685; 2595565466; 118033927; 305538066; 2157648768; 3795705826;
    3945188843; 661212711; 2999812018; 1973414517; 152769033; 2208177539; 745822252; 439235610; 455947803; 1857215598;
    1525593178; 2700827552; 1391895634; 994932283; 3596728278; 3016654259; 695947817; 3812548067; 795958831; 2224493444;
    1408607827; 3513301457; 0; 3979133421; 543178784; 4229948412; 2982705585; 1542305371; 1790891114; 3410398667; 3201918910;
    961245753; 1256100938; 1289001036; 1491644504; 3477767631; 3496721360; 4012557807; 2867154858; 4212583931; 1137018435;
    1305975373; 861234739; 2241073541; 1171229253; 4178635257; 33948674; 2139225727; 1357946960; 1011120188; 2679776671;
    2833468328; 1374921297; 2751356323; 1086357568; 2408187279; 2460827538; 2646352285; 944271416; 4110742005; 3168756668;
    3066132406; 3665145818; 560153121; 271589392; 4279952895; 4077846003; 3530407890; 3444343245; 202643468; 322250259;
    3962553324; 1608629855; 2543990167; 1154254916; 389623319; 3294073796; 2817676711; 2122513534; 1028094525; 1689045092;
    1575467613; 422261273; 1939203699; 1621147744; 2174228865; 1339137615; 3699352540; 577127458; 712922154; 2427141008;
    2290289544; 1187679302; 3995715566; 3100863416; 339486740; 3732514782; 1591917662; 186455563; 3681988059; 3762019296;
    844522546; 978220090; 169743370; 1239126601; 101321734; 611076132; 1558493276; 3260915650; 3547250131; 2901361580;
    1655096418; 2443721105; 2510565781; 3828863972; 2039214713; 3878868455; 3359869896; 928607799; 1840765549; 2374762893;
    3580146133; 1322425422; 2850048425; 1823791212; 1459268694; 4094161908; 3928346602; 1706019429; 2056189050; 2934523822;
    135794696; 3134549946; 2022240376; 628050469; 779246638; 472135708; 2800834470; 3032970164; 3327236038; 3894660072;
    3715932637; 1956440180; 522272287; 1272813131; 3185336765; 2340818315; 2323976074; 1888542832; 1044544574; 3049550261;
    1722469478; 1222152264; 50660867; 4127324150; 236067854; 1638122081; 895445557; 1475980887; 3117443513; 2257655686;
    3243809217; 489110045; 2662934430; 3778599393; 4162055160; 2561878936; 288563729; 1773916777; 3648039385; 2391345038;
    2493985684; 2612407707; 505560094; 2274497927; 3911240169; 3460925390; 1442818645; 678973480; 3749357023; 2358182796;
    2717407649; 2306869641; 219617805; 3218761151; 3862026214; 1120306242; 1756942440; 1103331905; 2578459033; 762796589;
    252780047; 2966125488; 1425844308; 3151392187; 372911126 ].

Definition Te3 : list Z :=
  [ 1667474886; 2088535288; 2004326894; 2071694838; 4075949567; 1802223062; 1869591006; 3318043793; 808472672; 16843522;
    1734846926; 724270422; 4278065639; 3621216949; 2880169549; 1987484396; 3402253711; 2189597983; 3385409673; 2105378810;
    4210693615; 1499065266; 1195886990; 4042263547; 2913856577; 3570689971; 2728590687; 2947541573; 2627518243; 2762274643;
    1920112356; 3233831835; 3082273397; 4261223649; 2475929149; 640051788; 909531756; 1061110142; 4160160501; 3435941763;
    875846760; 2779116625; 3857003729; 4059105529; 1903268834; 3638064043; 825316194; 353713962; 67374088; 3351728789;
    589522246; 3284360861; 404236336; 2526454071; 84217610; 2593830191; 117901582; 303183396; 2155911963; 3806477791;
    3958056653; 656894286; 2998062463; 1970642922; 151591698; 2206440989; 741110872; 437923380; 454765878; 1852748508;
    1515908788; 2694904667; 1381168804; 993742198; 3604373943; 3014905469; 690584402; 3823320797; 791638366; 2223281939;
    1398011302; 3520161977; 0; 3991743681; 538992704; 4244381667; 2981218425; 1532751286; 1785380564; 3419096717; 3200178535;
    960056178; 1246420628; 1280103576; 1482221744; 3486468741; 3503319995; 4025428677; 2863326543; 4227536621; 1128514950;
    1296947098; 859002214; 2240123921; 1162203018; 4193849577; 33687044; 2139062782; 1347481760; 1010582648; 2678045221;
    2829640523; 1364325282; 2745433693; 1077985408; 2408548869; 2459086143; 2644360225; 943212656; 4126475505; 3166494563;
    3065430391; 3671750063; 555836226; 269496352; 4294908645; 4092792573; 3537006015; 3452783745; 202118168; 320025894;
    3974901699; 1600119230; 2543297077; 1145359496; 387397934; 3301201811; 2812801621; 2122220284; 1027426170; 1684319432;
    1566435258; 421079858; 1936954854; 1616945344; 2172753945; 1330631070; 3705438115; 572679748; 707427924; 2425400123;
    2290647819; 1179044492; 4008585671; 3099120491; 336870440; 3739122087; 1583276732; 185277718; 3688593069; 3772791771;
    842159716; 976899700; 168435220; 1229577106; 101059084; 606366792; 1549591736; 3267517855; 3553849021; 2897014595;
    1650632388; 2442242105; 2509612081; 3840161747; 2038008818; 3890688725; 3368567691; 926374254; 1835907034; 2374863873;
    3587531953; 1313788572; 2846482505; 1819063512; 1448540844; 4109633523; 3941213647; 1701162954; 2054852340; 2930698567;
    134748176; 3132806511; 2021165296; 623210314; 774795868; 471606328; 2795958615; 3031746419; 3334885783; 3907527627;
    3722280097; 1953799400; 522133822; 1263263126; 3183336545; 2341176845; 2324333839; 1886425312; 1044267644; 3048588401;
    1718004428; 1212733584; 50529542; 4143317495; 235803164; 1633788866; 892690282; 1465383342; 3115962473; 2256965911;
    3250673817; 488449850; 2661202215; 3789633753; 4177007595; 2560144171; 286339874; 1768537042; 3654906025; 2391705863;
    2492770099; 2610673197; 505291324; 2273808917; 3924369609; 3469625735; 1431699370; 673740880; 3755965093; 2358021891;
    2711746649; 2307489801; 218961690; 3217021541; 3873845719; 1111672452; 1751693520; 1094828930; 2576986153; 757954394;
    252645662; 2964376443; 1414855848; 3149649517; 370555436 ].

Definition Td0 : list Z :=
  [ 1374988112; 2118214995; 437757123; 975658646; 1001089995; 530400753; 2902087851; 1273168787; 540080725; 2910219766;
    2295101073; 4110568485; 1340463100; 3307916247; 641025152; 3043140495; 3736164937; 632953703; 1172967064; 1576976609;
    3274667266; 2169303058; 2370213795; 1809054150; 59727847; 361929877; 3211623147; 2505202138; 3569255213; 1484005843;
    1239443753; 2395588676; 1975683434; 4102977912; 2572697195; 666464733; 3202437046; 4035489047; 3374361702; 2110667444;
    1675577880; 3843699074; 2538681184; 1649639237; 2976151520; 3144396420; 4269907996; 4178062228; 1883793496; 2403728665;
    2497604743; 1383856311; 2876494627; 1917518562; 3810496343; 1716890410; 3001755655; 800440835; 2261089178; 3543599269;
    807962610; 599762354; 33778362; 3977675356; 2328828971; 2809771154; 4077384432; 1315562145; 1708848333; 101039829;
    3509871135; 3299278474; 875451293; 2733856160; 92987698; 2767645557; 193195065; 1080094634; 1584504582; 3178106961;
    1042385657; 2531067453; 3711829422; 1306967366; 2438237621; 1908694277; 67556463; 1615861247; 429456164; 3602770327;
    2302690252; 1742315127; 2968011453; 126454664; 3877198648; 2043211483; 2709260871; 2084704233; 4169408201; 0; 159417987;
    841739592; 504459436; 1817866830; 4245618683; 260388950; 1034867998; 908933415; 168810852; 1750902305; 2606453969;
    607530554; 202008497; 2472011535; 3035535058; 463180190; 2160117071; 1641816226; 1517767529; 470948374; 3801332234;
    3231722213; 1008918595; 303765277; 235474187; 4069246893; 766945465; 337553864; 1475418501; 2943682380; 4003061179;
    2743034109; 4144047775; 1551037884; 1147550661; 1543208500; 2336434550; 3408119516; 3069049960; 3102011747; 3610369226;
    1113818384; 328671808; 2227573024; 2236228733; 3535486456; 2935566865; 3341394285; 496906059; 3702665459; 226906860;
    2009195472; 733156972; 2842737049; 294930682; 1206477858; 2835123396; 2700099354; 1451044056; 573804783; 2269728455;
    3644379585; 2362090238; 2564033334; 2801107407; 2776292904; 3669462566; 1068351396; 742039012; 1350078989; 1784663195;
    1417561698; 4136440770; 2430122216; 775550814; 2193862645; 2673705150; 1775276924; 1876241833; 3475313331; 3366754619;
    270040487; 3902563182; 3678124923; 3441850377; 1851332852; 3969562369; 2203032232; 3868552805; 2868897406; 566021896;
    4011190502; 3135740889; 1248802510; 3936291284; 699432150; 832877231; 708780849; 3332740144; 899835584; 1951317047;
    4236429990; 3767586992; 866637845; 4043610186; 1106041591; 2144161806; 395441711; 1984812685; 1139781709; 3433712980;
    3835036895; 2664543715; 1282050075; 3240894392; 1181045119; 2640243204; 25965917; 4203181171; 4211818798; 3009879386;
    2463879762; 3910161971; 1842759443; 2597806476; 933301370; 1509430414; 3943906441; 3467192302; 3076639029; 3776767469;
    2051518780; 2631065433; 1441952575; 404016761; 1942435775; 1408749034; 1610459739; 3745345300; 2017778566; 3400528769;
    3110650942; 941896748; 3265478751; 371049330; 3168937228; 675039627; 4279080257; 967311729; 135050206; 3635733660;
    1683407248; 2076935265; 3576870512; 1215061108; 3501741890 ].

Definition Td1 : list Z :=
  [ 1347548327; 1400783205; 3273267108; 2520393566; 3409685355; 4045380933; 2880240216; 2471224067; 1428173050; 4138563181;
    2441661558; 636813900; 4233094615; 3620022987; 2149987652; 2411029155; 1239331162; 1730525723; 2554718734; 3781033664;
    46346101; 310463728; 2743944855; 3328955385; 3875770207; 2501218972; 3955191162; 3667219033; 768917123; 3545789473;
    692707433; 1150208456; 1786102409; 2029293177; 1805211710; 3710368113; 3065962831; 401639597; 1724457132; 3028143674;
    409198410; 2196052529; 1620529459; 1164071807; 3769721975; 2226875310; 486441376; 2499348523; 1483753576; 428819965;
    2274680428; 3075636216; 598438867; 3799141122; 1474502543; 711349675; 129166120; 53458370; 2592523643; 2782082824;
    4063242375; 2988687269; 3120694122; 1559041666; 730517276; 2460449204; 4042459122; 2706270690; 3446004468; 3573941694;
    533804130; 2328143614; 2637442643; 2695033685; 839224033; 1973745387; 957055980; 2856345839; 106852767; 1371368976;
    4181598602; 1033297158; 2933734917; 1179510461; 3046200461; 91341917; 1862534868; 4284502037; 605657339; 2547432937;
    3431546947; 2003294622; 3182487618; 2282195339; 954669403; 3682191598; 1201765386; 3917234703; 3388507166; 0; 2198438022;
    1211247597; 2887651696; 1315723890; 4227665663; 1443857720; 507358933; 657861945; 1678381017; 560487590; 3516619604;
    975451694; 2970356327; 261314535; 3535072918; 2652609425; 1333838021; 2724322336; 1767536459; 370938394; 182621114;
    3854606378; 1128014560; 487725847; 185469197; 2918353863; 3106780840; 3356761769; 2237133081; 1286567175; 3152976349;
    4255350624; 2683765030; 3160175349; 3309594171; 878443390; 1988838185; 3704300486; 1756818940; 1673061617; 3403100636;
    272786309; 1075025698; 545572369; 2105887268; 4174560061; 296679730; 1841768865; 1260232239; 4091327024; 3960309330;
    3497509347; 1814803222; 2578018489; 4195456072; 575138148; 3299409036; 446754879; 3629546796; 4011996048; 3347532110;
    3252238545; 4270639778; 915985419; 3483825537; 681933534; 651868046; 2755636671; 3828103837; 223377554; 2607439820;
    1649704518; 3270937875; 3901806776; 1580087799; 4118987695; 3198115200; 2087309459; 2842678573; 3016697106; 1003007129;
    2802849917; 1860738147; 2077965243; 164439672; 4100872472; 32283319; 2827177882; 1709610350; 2125135846; 136428751;
    3874428392; 3652904859; 3460984630; 3572145929; 3593056380; 2939266226; 824852259; 818324884; 3224740454; 930369212;
    2801566410; 2967507152; 355706840; 1257309336; 4148292826; 243256656; 790073846; 2373340630; 1296297904; 1422699085;
    3756299780; 3818836405; 457992840; 3099667487; 2135319889; 77422314; 1560382517; 1945798516; 788204353; 1521706781;
    1385356242; 870912086; 325965383; 2358957921; 2050466060; 2388260884; 2313884476; 4006521127; 901210569; 3990953189;
    1014646705; 1503449823; 1062597235; 2031621326; 3212035895; 3931371469; 1533017514; 350174575; 2256028891; 2177544179;
    1052338372; 741876788; 1606591296; 1914052035; 213705253; 2334669897; 1107234197; 1899603969; 3725069491; 2631447780;
    2422494913; 1635502980; 1893020342; 1950903388; 1120974935 ].

Definition Td2 : list Z :=
  [ 2807058932; 1699970625; 2764249623; 1586903591; 1808481195; 1173430173; 1487645946; 59984867; 4199882800; 1844882806;
    1989249228; 1277555970; 3623636965; 3419915562; 1149249077; 2744104290; 1514790577; 459744698; 244860394; 3235995134;
    1963115311; 4027744588; 2544078150; 4190530515; 1608975247; 2627016082; 2062270317; 1507497298; 2200818878; 567498868;
    1764313568; 3359936201; 2305455554; 2037970062; 1047239000; 1910319033; 1337376481; 2904027272; 2892417312; 984907214;
    1243112415; 830661914; 861968209; 2135253587; 2011214180; 2927934315; 2686254721; 731183368; 1750626376; 4246310725;
    1820824798; 4172763771; 3542330227; 48394827; 2404901663; 2871682645; 671593195; 3254988725; 2073724613; 145085239;
    2280796200; 2779915199; 1790575107; 2187128086; 472615631; 3029510009; 4075877127; 3802222185; 4107101658; 3201631749;
    1646252340; 4270507174; 1402811438; 1436590835; 3778151818; 3950355702; 3963161475; 4020912224; 2667994737; 273792366;
    2331590177; 104699613; 95345982; 3175501286; 2377486676; 1560637892; 3564045318; 369057872; 4213447064; 3919042237;
    1137477952; 2658625497; 1119727848; 2340947849; 1530455833; 4007360968; 172466556; 266959938; 516552836; 0; 2256734592;
    3980931627; 1890328081; 1917742170; 4294704398; 945164165; 3575528878; 958871085; 3647212047; 2787207260; 1423022939;
    775562294; 1739656202; 3876557655; 2530391278; 2443058075; 3310321856; 547512796; 1265195639; 437656594; 3121275539;
    719700128; 3762502690; 387781147; 218828297; 3350065803; 2830708150; 2848461854; 428169201; 122466165; 3720081049;
    1627235199; 648017665; 4122762354; 1002783846; 2117360635; 695634755; 3336358691; 4234721005; 4049844452; 3704280881;
    2232435299; 574624663; 287343814; 612205898; 1039717051; 840019705; 2708326185; 793451934; 821288114; 1391201670;
    3822090177; 376187827; 3113855344; 1224348052; 1679968233; 2361698556; 1058709744; 752375421; 2431590963; 1321699145;
    3519142200; 2734591178; 188127444; 2177869557; 3727205754; 2384911031; 3215212461; 2648976442; 2450346104; 3432737375;
    1180849278; 331544205; 3102249176; 4150144569; 2952102595; 2159976285; 2474404304; 766078933; 313773861; 2570832044;
    2108100632; 1668212892; 3145456443; 2013908262; 418672217; 3070356634; 2594734927; 1852171925; 3867060991; 3473416636;
    3907448597; 2614737639; 919489135; 164948639; 2094410160; 2997825956; 590424639; 2486224549; 1723872674; 3157750862;
    3399941250; 3501252752; 3625268135; 2555048196; 3673637356; 1343127501; 4130281361; 3599595085; 2957853679; 1297403050;
    81781910; 3051593425; 2283490410; 532201772; 1367295589; 3926170974; 895287692; 1953757831; 1093597963; 492483431;
    3528626907; 1446242576; 1192455638; 1636604631; 209336225; 344873464; 1015671571; 669961897; 3375740769; 3857572124;
    2973530695; 3747192018; 1933530610; 3464042516; 935293895; 3454686199; 2858115069; 1863638845; 3683022916; 4085369519;
    3292445032; 875313188; 1080017571; 3279033885; 621591778; 1233856572; 2504130317; 24197544; 3017672716; 3835484340;
    3247465558; 2220981195; 3060847922; 1551124588; 1463996600 ].

Definition Td3 : list Z :=
  [ 4104605777; 1097159550; 396673818; 660510266; 2875968315; 2638606623; 4200115116; 3808662347; 821712160; 1986918061;
    3430322568; 38544885; 3856137295; 718002117; 893681702; 1654886325; 2975484382; 3122358053; 3926825029; 4274053469;
    796197571; 1290801793; 1184342925; 3556361835; 2405426947; 2459735317; 1836772287; 1381620373; 3196267988; 1948373848;
    3764988233; 3385345166; 3263785589; 2390325492; 1480485785; 3111247143; 3780097726; 2293045232; 548169417; 3459953789;
    3746175075; 439452389; 1362321559; 1400849762; 1685577905; 1806599355; 2174754046; 137073913; 1214797936; 1174215055;
    3731654548; 2079897426; 1943217067; 1258480242; 529487843; 1437280870; 3945269170; 3049390895; 3313212038; 923313619;
    679998000; 3215307299; 57326082; 377642221; 3474729866; 2041877159; 133361907; 1776460110; 3673476453; 96392454;
    878845905; 2801699524; 777231668; 4082475170; 2330014213; 4142626212; 2213296395; 1626319424; 1906247262; 1846563261;
    562755902; 3708173718; 1040559837; 3871163981; 1418573201; 3294430577; 114585348; 1343618912; 2566595609; 3186202582;
    1078185097; 3651041127; 3896688048; 2307622919; 425408743; 3371096953; 2081048481; 1108339068; 2216610296; 0; 2156299017;
    736970802; 292596766; 1517440620; 251657213; 2235061775; 2933202493; 758720310; 265905162; 1554391400; 1532285339;
    908999204; 174567692; 1474760595; 4002861748; 2610011675; 3234156416; 3693126241; 2001430874; 303699484; 2478443234;
    2687165888; 585122620; 454499602; 151849742; 2345119218; 3064510765; 514443284; 4044981591; 1963412655; 2581445614;
    2137062819; 19308535; 1928707164; 1715193156; 4219352155; 1126790795; 600235211; 3992742070; 3841024952; 836553431;
    1669664834; 2535604243; 3323011204; 1243905413; 3141400786; 4180808110; 698445255; 2653899549; 2989552604; 2253581325;
    3252932727; 3004591147; 1891211689; 2487810577; 3915653703; 4237083816; 4030667424; 2100090966; 865136418; 1229899655;
    953270745; 3399679628; 3557504664; 4118925222; 2061379749; 3079546586; 2915017791; 983426092; 2022837584; 1607244650;
    2118541908; 2366882550; 3635996816; 972512814; 3283088770; 1568718495; 3499326569; 3576539503; 621982671; 2895723464;
    410887952; 2623762152; 1002142683; 645401037; 1494807662; 2595684844; 1335535747; 2507040230; 4293295786; 3167684641;
    367585007; 3885750714; 1865862730; 2668221674; 2960971305; 2763173681; 1059270954; 2777952454; 2724642869; 1320957812;
    2194319100; 2429595872; 2815956275; 77089521; 3973773121; 3444575871; 2448830231; 1305906550; 4021308739; 2857194700;
    2516901860; 3518358430; 1787304780; 740276417; 1699839814; 1592394909; 2352307457; 2272556026; 188821243; 1729977011;
    3687994002; 274084841; 3594982253; 3613494426; 2701949495; 4162096729; 322734571; 2837966542; 1640576439; 484830689;
    1202797690; 3537852828; 4067639125; 349075736; 3342319475; 4157467219; 4255800159; 1030690015; 1155237496; 2951971274;
    1757691577; 607398968; 2738905026; 499347990; 3794078908; 1011452712; 227885567; 2818666809; 213114376; 3034881240;
    1455525988; 3414450555; 850817237; 1817998408; 3092726480 ].

Definition Td4 : list Z :=
  [ 82; 9; 106; 213; 48; 54; 165; 56; 191; 64; 163; 158; 129; 243; 215; 251; 124; 227; 57; 130; 155; 47; 255; 135; 52; 142;
    67; 68; 196; 222; 233; 203; 84; 123; 148; 50; 166; 194; 35; 61; 238; 76; 149; 11; 66; 250; 195; 78; 8; 46; 161; 102; 40;
    217; 36; 178; 118; 91; 162; 73; 109; 139; 209; 37; 114; 248; 246; 100; 134; 104; 152; 22; 212; 164; 92; 204; 93; 101; 182;
    146; 108; 112; 72; 80; 253; 237; 185; 218; 94; 21; 70; 87; 167; 141; 157; 132; 144; 216; 171; 0; 140; 188; 211; 10; 247;
    228; 88; 5; 184; 179; 69; 6; 208; 44; 30; 143; 202; 63; 15; 2; 193; 175; 189; 3; 1; 19; 138; 107; 58; 145; 17; 65; 79;
    103; 220; 234; 151; 242; 207; 206; 240; 180; 230; 115; 150; 172; 116; 34; 231; 173; 53; 133; 226; 249; 55; 232; 28; 117;
    223; 110; 71; 241; 26; 113; 29; 41; 197; 137; 111; 183; 98; 14; 170; 24; 190; 27; 252; 86; 62; 75; 198; 210; 121; 32; 154;
    219; 192; 254; 120; 205; 90; 244; 31; 221; 168; 51; 136; 7; 199; 49; 177; 18; 16; 89; 39; 128; 236; 95; 96; 81; 127; 169;
    25; 181; 74; 13; 45; 229; 122; 159; 147; 201; 156; 239; 160; 224; 59; 77; 174; 42; 245; 176; 200; 235; 187; 60; 131; 83;
    153; 97; 23; 43; 4; 126; 186; 119; 214; 38; 225; 105; 20; 99; 85; 33; 12; 125 ].

Definition rcon : list Z :=
  [ 16777216; 33554432; 67108864; 134217728; 268435456; 536870912; 1073741824; 2147483648; 452984832; 905969664 ].

(** ** Keys *)

Record AES_KEY := mk_aes_key { rd_key : list Z; rounds : Z }.

Definition byte0 (w : Z) : Z := Z.land w 0xff.
Definition byte1 (w : Z) : Z := Z.land (Z.shiftr w 8) 0xff.
Definition byte2 (w : Z) : Z := Z.land (Z.shiftr w 16) 0xff.
Definition byte3 (w : Z) : Z := Z.shiftr w 24.

(** [k ^ (Te2[a] & 0xff000000) ^ (Te3[b] & 0x00ff0000) ^ (Te0[c] & 0x0000ff00) ^ (Te1[d] & 0x000000ff)]. *)
Definition sub_key (k a b c d : Z) : Z :=
  Z.lxor (Z.lxor (Z.lxor (Z.lxor k (Z.land (get Te2 a) 0xff000000)) (Z.land (get Te3 b) 0x00ff0000))
    (Z.land (get Te0 c) 0x0000ff00)) (Z.land (get Te1 d) 0x000000ff).

(** [rk[o + to] = rk[o + a] ^ rk[o + b]]. *)
Definition chain (rk : list Z) (o to a b : Z) : list Z := set rk (o + to) (Z.lxor (get rk (o + a)) (get rk (o + b))).

(** The four words at [o + k] that start each turn of the three loops, [k] being
    4, 6 or 8. *)
Definition next_group (k : Z) (rk : list Z) (o i : Z) : list Z :=
  let temp := get rk (o + (k - 1)) in
  let rk := set rk (o + k) (Z.lxor (sub_key (get rk o) (byte2 temp) (byte1 temp) (byte0 temp) (byte3 temp)) (get rcon i)) in
  let rk := chain rk o (k + 1) 1 k in
  let rk := chain rk o (k + 2) 2 (k + 1) in
  chain rk o (k + 3) 3 (k + 2).

(** The four words in the middle of a turn for 256 bits. *)
Definition middle_group (rk : list Z) (o : Z) : list Z :=
  let temp := get rk (o + 11) in
  let rk := set rk (o + 12) (sub_key (get rk (o + 4)) (byte3 temp) (byte2 temp) (byte1 temp) (byte0 temp)) in
  let rk := chain rk o 13 5 12 in
  let rk := chain rk o 14 6 13 in
  chain rk o 15 7 14.

Fixpoint expand128 (fuel : nat) (rk : list Z) (o i : Z) : list Z :=
  match fuel with
  | O => rk
  | S fuel =>
      let rk := next_group 4 rk o i in
      let i := i + 1 in
      if i =? 10 then rk else expand128 fuel rk (o + 4) i
  end.

Fixpoint expand192 (fuel : nat) (rk : list Z) (o i : Z) : list Z :=
  match fuel with
  | O => rk
  | S fuel =>
      let rk := next_group 6 rk o i in
      let i := i + 1 in
      if i =? 8 then rk else
      let rk := chain rk o 10 4 9 in
      let rk := chain rk o 11 5 10 in
      expand192 fuel rk (o + 6) i
  end.

Fixpoint expand256 (fuel : nat) (rk : list Z) (o i : Z) : list Z :=
  match fuel with
  | O => rk
  | S fuel =>
      let rk := next_group 8 rk o i in
      let i := i + 1 in
      if i =? 7 then rk else expand256 fuel (middle_group rk o) (o + 8) i
  end.

(** [rk[i] = GETU32(key + 4 * i)] for [i] from [a], [n] times. *)
Fixpoint load_key (n : nat) (rk key : list Z) (a : Z) : list Z :=
  match n with
  | O => rk
  | S n => load_key n (set rk a (GETU32 (drop (4 * a) key))) key (a + 1)
  end.

(** A null pointer is [None]. *)
Definition AES_set_encrypt_key (key : option (list Z)) (bits : Z) (aeskey : option AES_KEY) : Z * option AES_KEY :=
  match key, aeskey with
  | Some key, Some k =>
      let schedule nr f := (0, Some (mk_aes_key (f (load_key 4 (rd_key k) key 0)) nr)) in
      if bits =? 128 then schedule 10 (fun rk => expand128 10 rk 0 0)
      else if bits =? 192 then schedule 12 (fun rk => expand192 8 (load_key 2 rk key 4) 0 0)
      else if bits =? 256 then schedule 14 (fun rk => expand256 7 (load_key 2 (load_key 2 rk key 4) key 6) 0 0)
      else (-2, aeskey)
  | _, _ => (-1, aeskey)
  end.

(** [temp = rk[a]; rk[a] = rk[b]; rk[b] = temp]. *)
Definition swap_words (rk : list Z) (a b : Z) : list Z := let temp := get rk a in set (set rk a (get rk b)) b temp.

Fixpoint invert_order (fuel : nat) (rk : list Z) (i j : Z) : list Z :=
  match fuel with
  | O => rk
  | S fuel =>
      if i <? j then
        let rk := swap_words rk i j in
        let rk := swap_words rk (i + 1) (j + 1) in
        let rk := swap_words rk (i + 2) (j + 2) in
        let rk := swap_words rk (i + 3) (j + 3) in
        invert_order fuel rk (i + 4) (j - 4)
      else rk
  end.

Definition inv_mix_word (w : Z) : Z :=
  let si x := Z.land (get Te1 x) 0xff in
  Z.lxor (Z.lxor (Z.lxor (get Td0 (si (byte3 w))) (get Td1 (si (byte2 w)))) (get Td2 (si (byte1 w)))) (get Td3 (si (byte0 w))).

Fixpoint transform_keys (fuel : nat) (rk : list Z) (o i nr : Z) : list Z :=
  match fuel with
  | O => rk
  | S fuel =>
      if i <? nr then
        let o := o + 4 in
        let rk := set rk o (inv_mix_word (get rk o)) in
        let rk := set rk (o + 1) (inv_mix_word (get rk (o + 1))) in
        let rk := set rk (o + 2) (inv_mix_word (get rk (o + 2))) in
        let rk := set rk (o + 3) (inv_mix_word (get rk (o + 3))) in
        transform_keys fuel rk o (i + 1) nr
      else rk
  end.

Definition AES_set_decrypt_key (key : option (list Z)) (bits : Z) (aeskey : option AES_KEY) : Z * option AES_KEY :=
  let '(status, aeskey) := AES_set_encrypt_key key bits aeskey in
  if status <? 0 then (status, aeskey) else
  match aeskey with
  | None => (status, None)
  | Some k =>
      let rk := invert_order 15 (rd_key k) 0 (4 * rounds k) in
      (0, Some (mk_aes_key (transform_keys 15 rk 0 1 (rounds k)) (rounds k)))
  end.

(** ** Blocks *)

(** [Te0[a >> 24] ^ Te1[(b >> 16) & 0xff] ^ Te2[(c >> 8) & 0xff] ^ Te3[d & 0xff] ^ k]. *)
Definition enc_word (a b c d k : Z) : Z :=
  Z.lxor (Z.lxor (Z.lxor (Z.lxor (get Te0 (byte3 a)) (get Te1 (byte2 b))) (get Te2 (byte1 c))) (get Te3 (byte0 d))) k.

Definition words : Type := Z * Z * Z * Z.

Definition enc_round (rk : list Z) (o : Z) (s : words) : words :=
  let '(s0, s1, s2, s3) := s in
  (enc_word s0 s1 s2 s3 (get rk o), enc_word s1 s2 s3 s0 (get rk (o + 1)),
   enc_word s2 s3 s0 s1 (get rk (o + 2)), enc_word s3 s0 s1 s2 (get rk (o + 3))).

(** [r] is the counter of the loop, which leaves from its middle. *)
Fixpoint enc_loop (r : nat) (rk : list Z) (o : Z) (s : words) : words * Z :=
  match r with
  | O => (s, o)
  | S r =>
      let t := enc_round rk (o + 4) s in
      let o := o + 8 in
      match r with
      | O => (t, o)
      | S _ => enc_loop r rk o (enc_round rk o t)
      end
  end.

Definition enc_last (a b c d k : Z) : Z :=
  Z.lxor (Z.lxor (Z.lxor (Z.lxor (Z.land (get Te2 (byte3 a)) 0xff000000) (Z.land (get Te3 (byte2 b)) 0x00ff0000))
    (Z.land (get Te0 (byte1 c)) 0x0000ff00)) (Z.land (get Te1 (byte0 d)) 0x000000ff)) k.

Definition first_key (inp rk : list Z) : words :=
  (Z.lxor (GETU32 inp) (get rk 0), Z.lxor (GETU32 (drop 4 inp)) (get rk 1),
   Z.lxor (GETU32 (drop 8 inp)) (get rk 2), Z.lxor (GETU32 (drop 12 inp)) (get rk 3)).

Definition last_round (f : Z -> Z -> Z -> Z -> Z -> Z) (w0 w1 w2 w3 : Z * Z * Z * Z) (k0 k1 k2 k3 : Z) : list Z :=
  let ap w k := let '(a, b, c, d) := w in be_enc 4 (f a b c d k) in
  ap w0 k0 ++ ap w1 k1 ++ ap w2 k2 ++ ap w3 k3.

Definition AES_encrypt (inp : list Z) (key : AES_KEY) : list Z :=
  let rk := rd_key key in
  let s := first_key inp rk in
  let '((t0, t1, t2, t3), o) := enc_loop (Z.to_nat (Z.shiftr (rounds key) 1)) rk 0 s in
  last_round enc_last (t0, t1, t2, t3) (t1, t2, t3, t0) (t2, t3, t0, t1) (t3, t0, t1, t2)
    (get rk o) (get rk (o + 1)) (get rk (o + 2)) (get rk (o + 3)).

Definition dec_word (a b c d k : Z) : Z :=
  Z.lxor (Z.lxor (Z.lxor (Z.lxor (get Td0 (byte3 a)) (get Td1 (byte2 b))) (get Td2 (byte1 c))) (get Td3 (byte0 d))) k.

Definition dec_round (rk : list Z) (o : Z) (s : words) : words :=
  let '(s0, s1, s2, s3) := s in
  (dec_word s0 s3 s2 s1 (get rk o), dec_word s1 s0 s3 s2 (get rk (o + 1)),
   dec_word s2 s1 s0 s3 (get rk (o + 2)), dec_word s3 s2 s1 s0 (get rk (o + 3))).

Fixpoint dec_loop (r : nat) (rk : list Z) (o : Z) (s : words) : words * Z :=
  match r with
  | O => (s, o)
  | S r =>
      let t := dec_round rk (o + 4) s in
      let o := o + 8 in
      match r with
      | O => (t, o)
      | S _ => dec_loop r rk o (dec_round rk o t)
      end
  end.

Definition dec_last (a b c d k : Z) : Z :=
  Z.lxor (Z.lxor (Z.lxor (Z.lxor (u32 (Z.shiftl (get Td4 (byte3 a)) 24)) (u32 (Z.shiftl (get Td4 (byte2 b)) 16)))
    (u32 (Z.shiftl (get Td4 (byte1 c)) 8))) (get Td4 (byte0 d))) k.

Definition AES_decrypt (inp : list Z) (key : AES_KEY) : list Z :=
  let rk := rd_key key in
  let s := first_key inp rk in
  let '((t0, t1, t2, t3), o) := dec_loop (Z.to_nat (Z.shiftr (rounds key) 1)) rk 0 s in
  last_round dec_last (t0, t3, t2, t1) (t1, t0, t3, t2) (t2, t1, t0, t3) (t3, t2, t1, t0)
    (get rk o) (get rk (o + 1)) (get rk (o + 2)) (get rk (o + 3)).

(** Appendix C.1 of the standard. *)
Example aes128_example :
  let key := map Z.of_nat (seq 0 16) in
  let block := map (fun i => 17 * Z.of_nat i) (seq 0 16) in
  let empty := mk_aes_key (repeat 0 60) 0 in
  match AES_set_encrypt_key (Some key) 128 (Some empty), AES_set_decrypt_key (Some key) 128 (Some empty) with
  | (0, Some k), (0, Some d) =>
      AES_encrypt block k = [105; 196; 224; 216; 106; 123; 4; 48; 216; 205; 183; 128; 112; 180; 197; 90] /\
      AES_decrypt (AES_encrypt block k) d = block
  | _, _ => False
  end.
Proof. vm_compute. split; reflexivity. Qed.

(** ** Words and columns *)

Definition word32 (x : Z) : Prop := 0 <= x < 2 ^ 32.

Lemma be_enc_lxor n : forall a b, be_enc n (Z.lxor a b) = xor_bytes (be_enc n a) (be_enc n b).
Proof.
  induction n as [| n IH]; intros a b; [reflexivity |]. rewrite !be_enc_cons, xor_bytes_cons, <- IH. f_equal.
  assert (E : 256 ^ Z.of_nat n = 2 ^ (8 * Z.of_nat n)) by (change 256 with (2 ^ 8); rewrite <- Z.pow_mul_r by lia; reflexivity). rewrite E.
  rewrite <- !Z.shiftr_div_pow2 by lia. change 256 with (2 ^ 8). rewrite Z.shiftr_lxor, <- !Z.land_ones by lia.
  apply Z.bits_inj'. intros i _. rewrite !Z.lxor_spec, !Z.land_spec, !Z.lxor_spec. destruct (Z.testbit (Z.ones 8) i); rewrite ?andb_true_r, ?andb_false_r; reflexivity.
Qed.

Lemma word_bytes w : word32 w -> be_enc 4 w = [byte3 w; byte2 w; byte1 w; byte0 w].
Proof.
  intros Hw. rewrite !be_enc_cons. change (be_enc 0 w) with (@nil Z). unfold byte3, byte2, byte1, byte0, word32 in *.
  change 0xff with (Z.ones 8). rewrite !Z.land_ones, !Z.shiftr_div_pow2 by lia. zconst.
  change (256 ^ Z.of_nat 3) with 16777216. change (256 ^ Z.of_nat 2) with 65536. change (256 ^ Z.of_nat 1) with 256. change (256 ^ Z.of_nat 0) with 1.
  rewrite Z.div_1_r. f_equal. Z.to_euclidean_division_equations. lia.
Qed.

Lemma bytes_range w : word32 w -> byte_ok (byte3 w) /\ byte_ok (byte2 w) /\ byte_ok (byte1 w) /\ byte_ok (byte0 w).
Proof. intros H. pose proof (be_enc_bytes 4 w) as B. rewrite (word_bytes w H) in B. unfold bytes_ok in B. rewrite !Forall_cons_iff in B. tauto. Qed.

Lemma word_ext a b : word32 a -> word32 b -> be_enc 4 a = be_enc 4 b -> a = b.
Proof. intros Ha Hb E. rewrite <- (be_val_enc 4 a), <- (be_val_enc 4 b) by assumption. now rewrite E. Qed.

Lemma lxor_word32 a b : word32 a -> word32 b -> word32 (Z.lxor a b).
Proof. apply (lxor_range 32 a b). lia. Qed.

(** ** The tables *)

Definition column_is (f : Z -> Z) (l : Z -> list Z) : bool :=
  all_bytes (fun b => if list_eq_dec Z.eq_dec (be_enc 4 (f b)) (l b) then (0 <=? f b) && (f b <? 2 ^ 32) else false).

Lemma column_is_ok f l : column_is f l = true -> forall b, byte_ok b -> be_enc 4 (f b) = l b /\ word32 (f b).
Proof.
  intros H b Hb. unfold column_is in H. pose proof (all_bytes_ok _ H b Hb) as E. cbv beta in E. destruct (list_eq_dec Z.eq_dec _ _); [| discriminate].
  split; [assumption | unfold word32; lia].
Qed.

(** Each table, as its comment in the source describes it. *)
Definition mixed (a b c d : Z) (x : Z) : list Z := [gmul a x; gmul b x; gmul c x; gmul d x].

Lemma Te0_column b : byte_ok b -> be_enc 4 (get Te0 b) = mixed 2 1 1 3 (sbox b) /\ word32 (get Te0 b).
Proof. apply (column_is_ok (get Te0) (fun b => mixed 2 1 1 3 (sbox b))). vm_compute. reflexivity. Qed.
Lemma Te1_column b : byte_ok b -> be_enc 4 (get Te1 b) = mixed 3 2 1 1 (sbox b) /\ word32 (get Te1 b).
Proof. apply (column_is_ok (get Te1) (fun b => mixed 3 2 1 1 (sbox b))). vm_compute. reflexivity. Qed.
Lemma Te2_column b : byte_ok b -> be_enc 4 (get Te2 b) = mixed 1 3 2 1 (sbox b) /\ word32 (get Te2 b).
Proof. apply (column_is_ok (get Te2) (fun b => mixed 1 3 2 1 (sbox b))). vm_compute. reflexivity. Qed.
Lemma Te3_column b : byte_ok b -> be_enc 4 (get Te3 b) = mixed 1 1 3 2 (sbox b) /\ word32 (get Te3 b).
Proof. apply (column_is_ok (get Te3) (fun b => mixed 1 1 3 2 (sbox b))). vm_compute. reflexivity. Qed.
Lemma Td0_column b : byte_ok b -> be_enc 4 (get Td0 b) = mixed 14 9 13 11 (inv_sbox b) /\ word32 (get Td0 b).
Proof. apply (column_is_ok (get Td0) (fun b => mixed 14 9 13 11 (inv_sbox b))). vm_compute. reflexivity. Qed.
Lemma Td1_column b : byte_ok b -> be_enc 4 (get Td1 b) = mixed 11 14 9 13 (inv_sbox b) /\ word32 (get Td1 b).
Proof. apply (column_is_ok (get Td1) (fun b => mixed 11 14 9 13 (inv_sbox b))). vm_compute. reflexivity. Qed.
Lemma Td2_column b : byte_ok b -> be_enc 4 (get Td2 b) = mixed 13 11 14 9 (inv_sbox b) /\ word32 (get Td2 b).
Proof. apply (column_is_ok (get Td2) (fun b => mixed 13 11 14 9 (inv_sbox b))). vm_compute. reflexivity. Qed.
Lemma Td3_column b : byte_ok b -> be_enc 4 (get Td3 b) = mixed 9 13 11 14 (inv_sbox b) /\ word32 (get Td3 b).
Proof. apply (column_is_ok (get Td3) (fun b => mixed 9 13 11 14 (inv_sbox b))). vm_compute. reflexivity. Qed.

(** A single byte of the S-box, at each place of a word. *)
Lemma Te2_top b : byte_ok b -> be_enc 4 (Z.land (get Te2 b) 0xff000000) = [sbox b; 0; 0; 0] /\ word32 (Z.land (get Te2 b) 0xff000000).
Proof. apply (column_is_ok (fun b => Z.land (get Te2 b) 0xff000000) (fun b => [sbox b; 0; 0; 0])). vm_compute. reflexivity. Qed.
Lemma Te3_second b : byte_ok b -> be_enc 4 (Z.land (get Te3 b) 0x00ff0000) = [0; sbox b; 0; 0] /\ word32 (Z.land (get Te3 b) 0x00ff0000).
Proof. apply (column_is_ok (fun b => Z.land (get Te3 b) 0x00ff0000) (fun b => [0; sbox b; 0; 0])). vm_compute. reflexivity. Qed.
Lemma Te0_third b : byte_ok b -> be_enc 4 (Z.land (get Te0 b) 0x0000ff00) = [0; 0; sbox b; 0] /\ word32 (Z.land (get Te0 b) 0x0000ff00).
Proof. apply (column_is_ok (fun b => Z.land (get Te0 b) 0x0000ff00) (fun b => [0; 0; sbox b; 0])). vm_compute. reflexivity. Qed.
Lemma Te1_low b : byte_ok b -> be_enc 4 (Z.land (get Te1 b) 0x000000ff) = [0; 0; 0; sbox b] /\ word32 (Z.land (get Te1 b) 0x000000ff).
Proof. apply (column_is_ok (fun b => Z.land (get Te1 b) 0x000000ff) (fun b => [0; 0; 0; sbox b])). vm_compute. reflexivity. Qed.
Lemma Td4_top b : byte_ok b -> be_enc 4 (u32 (Z.shiftl (get Td4 b) 24)) = [inv_sbox b; 0; 0; 0] /\ word32 (u32 (Z.shiftl (get Td4 b) 24)).
Proof. apply (column_is_ok (fun b => u32 (Z.shiftl (get Td4 b) 24)) (fun b => [inv_sbox b; 0; 0; 0])). vm_compute. reflexivity. Qed.
Lemma Td4_second b : byte_ok b -> be_enc 4 (u32 (Z.shiftl (get Td4 b) 16)) = [0; inv_sbox b; 0; 0] /\ word32 (u32 (Z.shiftl (get Td4 b) 16)).
Proof. apply (column_is_ok (fun b => u32 (Z.shiftl (get Td4 b) 16)) (fun b => [0; inv_sbox b; 0; 0])). vm_compute. reflexivity. Qed.
Lemma Td4_third b : byte_ok b -> be_enc 4 (u32 (Z.shiftl (get Td4 b) 8)) = [0; 0; inv_sbox b; 0] /\ word32 (u32 (Z.shiftl (get Td4 b) 8)).
Proof. apply (column_is_ok (fun b => u32 (Z.shiftl (get Td4 b) 8)) (fun b => [0; 0; inv_sbox b; 0])). vm_compute. reflexivity. Qed.
Lemma Td4_low b : byte_ok b -> be_enc 4 (get Td4 b) = [0; 0; 0; inv_sbox b] /\ word32 (get Td4 b).
Proof. apply (column_is_ok (get Td4) (fun b => [0; 0; 0; inv_sbox b])). vm_compute. reflexivity. Qed.

(** The byte that the transformation of the schedule looks up is [sbox], so that
    the inverse S-box in [Td0] cancels. *)
Lemma Te1_sbox b : byte_ok b -> Z.land (get Te1 b) 0xff = sbox b.
Proof. revert b. apply (all_bytes_eq (fun b => Z.land (get Te1 b) 0xff) sbox). vm_compute. reflexivity. Qed.

Lemma gmul_1 b : byte_ok b -> gmul 1 b = b.
Proof. revert b. apply (all_bytes_eq (gmul 1) (fun b => b)). vm_compute. reflexivity. Qed.

(** ** Rounds *)

Definition words_ok (s : words) : Prop := let '(s0, s1, s2, s3) := s in word32 s0 /\ word32 s1 /\ word32 s2 /\ word32 s3.
Definition cols (s : words) : state := let '(s0, s1, s2, s3) := s in columns_of [s0; s1; s2; s3].

Ltac xor_columns := rewrite ?xor_bytes_cons; change (xor_bytes (@nil Z) (@nil Z)) with (@nil Z).

Lemma enc_word_column a b c d k : byte_ok (byte3 a) -> byte_ok (byte2 b) -> byte_ok (byte1 c) -> byte_ok (byte0 d) -> word32 k ->
  be_enc 4 (enc_word a b c d k) = xor_bytes (mix_column [sbox (byte3 a); sbox (byte2 b); sbox (byte1 c); sbox (byte0 d)]) (be_enc 4 k) /\
  word32 (enc_word a b c d k).
Proof.
  intros Ha Hb Hc Hd Hk. unfold enc_word. rewrite !be_enc_lxor.
  destruct (Te0_column _ Ha) as [-> ?], (Te1_column _ Hb) as [-> ?], (Te2_column _ Hc) as [-> ?], (Te3_column _ Hd) as [-> ?].
  split; [| auto using lxor_word32]. unfold mixed, mix_column. rewrite circulant_eq. unfold dot. xor_columns. reflexivity.
Qed.

Lemma dec_word_column a b c d k : byte_ok (byte3 a) -> byte_ok (byte2 b) -> byte_ok (byte1 c) -> byte_ok (byte0 d) -> word32 k ->
  be_enc 4 (dec_word a b c d k) =
  xor_bytes (inv_mix_column [inv_sbox (byte3 a); inv_sbox (byte2 b); inv_sbox (byte1 c); inv_sbox (byte0 d)]) (be_enc 4 k) /\
  word32 (dec_word a b c d k).
Proof.
  intros Ha Hb Hc Hd Hk. unfold dec_word. rewrite !be_enc_lxor.
  destruct (Td0_column _ Ha) as [-> ?], (Td1_column _ Hb) as [-> ?], (Td2_column _ Hc) as [-> ?], (Td3_column _ Hd) as [-> ?].
  split; [| auto using lxor_word32]. unfold mixed, inv_mix_column. rewrite circulant_eq. unfold dot. xor_columns. reflexivity.
Qed.

Definition key_at (rk : list Z) (o : Z) : list Z := [get rk o; get rk (o + 1); get rk (o + 2); get rk (o + 3)].
Definition keys_ok (rk : list Z) : Prop := forall i, word32 (get rk i).

(** The columns of the state and their bytes. *)
Lemma cols_bytes s0 s1 s2 s3 : words_ok (s0, s1, s2, s3) ->
  cols (s0, s1, s2, s3) =
  [[byte3 s0; byte2 s0; byte1 s0; byte0 s0]; [byte3 s1; byte2 s1; byte1 s1; byte0 s1];
   [byte3 s2; byte2 s2; byte1 s2; byte0 s2]; [byte3 s3; byte2 s3; byte1 s3; byte0 s3]].
Proof. intros (H0 & H1 & H2 & H3). cbn [cols columns_of map]. now rewrite !word_bytes. Qed.

Lemma cols_ok s : words_ok s -> state_ok (cols s).
Proof.
  destruct s as [[[s0 s1] s2] s3]. intros H. rewrite cols_bytes by exact H. destruct H as (H0 & H1 & H2 & H3).
  pose proof (bytes_range _ H0). pose proof (bytes_range _ H1). pose proof (bytes_range _ H2). pose proof (bytes_range _ H3). build_state; tauto.
Qed.

(** All the bytes of the state's words. *)
Ltac words_bytes :=
  repeat match goal with H : word32 ?w |- _ =>
    lazymatch goal with _ : byte_ok (byte3 w) |- _ => fail | _ => destruct (bytes_range w H) as (? & ? & ? & ?) end end.

Section Rows.
Variables (f : Z -> Z) (g : list Z -> list Z) (a0 a1 a2 a3 b0 b1 b2 b3 c0 c1 c2 c3 d0 d1 d2 d3 k0 k1 k2 k3 : Z).
Let s : state := [[a0; a1; a2; a3]; [b0; b1; b2; b3]; [c0; c1; c2; c3]; [d0; d1; d2; d3]].

Lemma shift_columns : add_round_key (map g (shift_rows (map (map f) s))) [k0; k1; k2; k3] =
  [xor_bytes (g [f a0; f b1; f c2; f d3]) (be_enc 4 k0); xor_bytes (g [f b0; f c1; f d2; f a3]) (be_enc 4 k1);
   xor_bytes (g [f c0; f d1; f a2; f b3]) (be_enc 4 k2); xor_bytes (g [f d0; f a1; f b2; f c3]) (be_enc 4 k3)].
Proof. reflexivity. Qed.

Lemma inv_shift_columns : add_round_key (map g (inv_shift_rows (map (map f) s))) [k0; k1; k2; k3] =
  [xor_bytes (g [f a0; f d1; f c2; f b3]) (be_enc 4 k0); xor_bytes (g [f b0; f a1; f d2; f c3]) (be_enc 4 k1);
   xor_bytes (g [f c0; f b1; f a2; f d3]) (be_enc 4 k2); xor_bytes (g [f d0; f c1; f b2; f a3]) (be_enc 4 k3)].
Proof. reflexivity. Qed.

Lemma shift_only : add_round_key (shift_rows (map (map f) s)) [k0; k1; k2; k3] =
  [xor_bytes [f a0; f b1; f c2; f d3] (be_enc 4 k0); xor_bytes [f b0; f c1; f d2; f a3] (be_enc 4 k1);
   xor_bytes [f c0; f d1; f a2; f b3] (be_enc 4 k2); xor_bytes [f d0; f a1; f b2; f c3] (be_enc 4 k3)].
Proof. reflexivity. Qed.

Lemma inv_shift_only : add_round_key (inv_shift_rows (map (map f) s)) [k0; k1; k2; k3] =
  [xor_bytes [f a0; f d1; f c2; f b3] (be_enc 4 k0); xor_bytes [f b0; f a1; f d2; f c3] (be_enc 4 k1);
   xor_bytes [f c0; f b1; f a2; f d3] (be_enc 4 k2); xor_bytes [f d0; f c1; f b2; f a3] (be_enc 4 k3)].
Proof. reflexivity. Qed.
End Rows.

Ltac use_column H Hk := destruct (H ltac:(assumption) ltac:(assumption) ltac:(assumption) ltac:(assumption) Hk) as [-> ?].

Lemma enc_round_cols rk o s : keys_ok rk -> words_ok s ->
  cols (enc_round rk o s) = add_round_key (mix_columns (shift_rows (sub_bytes (cols s)))) (key_at rk o) /\ words_ok (enc_round rk o s).
Proof.
  destruct s as [[[s0 s1] s2] s3]. intros Hk Hs. rewrite cols_bytes by exact Hs. destruct Hs as (H0 & H1 & H2 & H3). words_bytes.
  unfold enc_round. cbn [cols columns_of map words_ok].
  use_column (enc_word_column s0 s1 s2 s3 (get rk o)) (Hk o).
  use_column (enc_word_column s1 s2 s3 s0 (get rk (o + 1))) (Hk (o + 1)).
  use_column (enc_word_column s2 s3 s0 s1 (get rk (o + 2))) (Hk (o + 2)).
  use_column (enc_word_column s3 s0 s1 s2 (get rk (o + 3))) (Hk (o + 3)).
  split; [| split; [assumption | split; [assumption | split; assumption]]].
  symmetry. apply shift_columns.
Qed.

Lemma dec_round_cols rk o s : keys_ok rk -> words_ok s ->
  cols (dec_round rk o s) = add_round_key (inv_mix_columns (inv_shift_rows (inv_sub_bytes (cols s)))) (key_at rk o) /\ words_ok (dec_round rk o s).
Proof.
  destruct s as [[[s0 s1] s2] s3]. intros Hk Hs. rewrite cols_bytes by exact Hs. destruct Hs as (H0 & H1 & H2 & H3). words_bytes.
  unfold dec_round. cbn [cols columns_of map words_ok].
  use_column (dec_word_column s0 s3 s2 s1 (get rk o)) (Hk o).
  use_column (dec_word_column s1 s0 s3 s2 (get rk (o + 1))) (Hk (o + 1)).
  use_column (dec_word_column s2 s1 s0 s3 (get rk (o + 2))) (Hk (o + 2)).
  use_column (dec_word_column s3 s2 s1 s0 (get rk (o + 3))) (Hk (o + 3)).
  split; [| split; [assumption | split; [assumption | split; assumption]]].
  symmetry. apply inv_shift_columns.
Qed.

(** The rounds of the standard, from round [i] on. *)
Section Loops.
Variables (rk : list Z) (Hrk : keys_ok rk).

Definition enc_step (s : state) (i : nat) : state := add_round_key (mix_columns (shift_rows (sub_bytes s))) (key_at rk (4 * Z.of_nat i)).
Definition dec_step (s : state) (i : nat) : state := add_round_key (inv_mix_columns (inv_shift_rows (inv_sub_bytes s))) (key_at rk (4 * Z.of_nat i)).

(** Two rounds a turn, and one in the last. *)
Lemma enc_loop_rounds r : forall k s, words_ok s ->
  let '(t, o) := enc_loop (S r) rk (4 * Z.of_nat k) s in
  o = 4 * Z.of_nat (k + 2 * S r) /\ words_ok t /\ cols t = fold_left enc_step (seq (S k) (2 * r + 1)) (cols s).
Proof.
  induction r as [| r IH]; intros k s Hs; cbn [enc_loop].
  - destruct (enc_round_cols rk (4 * Z.of_nat k + 4) s Hrk Hs) as [E W]. split; [lia |]. split; [exact W |]. rewrite E.
    cbn [seq fold_left Nat.mul Nat.add]. unfold enc_step. now replace (4 * Z.of_nat (S k)) with (4 * Z.of_nat k + 4) by lia.
  - destruct (enc_round_cols rk (4 * Z.of_nat k + 4) s Hrk Hs) as [E W].
    destruct (enc_round_cols rk (4 * Z.of_nat k + 8) _ Hrk W) as [E' W'].
    replace (4 * Z.of_nat k + 8) with (4 * Z.of_nat (S (S k))) in * by lia.
    specialize (IH (S (S k)) _ W'). cbn [enc_loop] in IH. destruct (match r with O => _ | S _ => _ end) as [t o].
    destruct IH as (-> & Wt & Et). split; [lia |]. split; [exact Wt |]. rewrite Et, E', E.
    replace (2 * S r + 1)%nat with (S (S (2 * r + 1))) by lia. cbn [seq fold_left]. unfold enc_step at 3 4.
    now replace (4 * Z.of_nat (S k)) with (4 * Z.of_nat k + 4) by lia.
Qed.

Lemma dec_loop_rounds r : forall k s, words_ok s ->
  let '(t, o) := dec_loop (S r) rk (4 * Z.of_nat k) s in
  o = 4 * Z.of_nat (k + 2 * S r) /\ words_ok t /\ cols t = fold_left dec_step (seq (S k) (2 * r + 1)) (cols s).
Proof.
  induction r as [| r IH]; intros k s Hs; cbn [dec_loop].
  - destruct (dec_round_cols rk (4 * Z.of_nat k + 4) s Hrk Hs) as [E W]. split; [lia |]. split; [exact W |]. rewrite E.
    cbn [seq fold_left Nat.mul Nat.add]. unfold dec_step. now replace (4 * Z.of_nat (S k)) with (4 * Z.of_nat k + 4) by lia.
  - destruct (dec_round_cols rk (4 * Z.of_nat k + 4) s Hrk Hs) as [E W].
    destruct (dec_round_cols rk (4 * Z.of_nat k + 8) _ Hrk W) as [E' W'].
    replace (4 * Z.of_nat k + 8) with (4 * Z.of_nat (S (S k))) in * by lia.
    specialize (IH (S (S k)) _ W'). cbn [dec_loop] in IH. destruct (match r with O => _ | S _ => _ end) as [t o].
    destruct IH as (-> & Wt & Et). split; [lia |]. split; [exact Wt |]. rewrite Et, E', E.
    replace (2 * S r + 1)%nat with (S (S (2 * r + 1))) by lia. cbn [seq fold_left]. unfold dec_step at 3 4.
    now replace (4 * Z.of_nat (S k)) with (4 * Z.of_nat k + 4) by lia.
Qed.
End Loops.

(** ** The first key and the last round *)

Lemma getu32_column l i : bytes_ok l -> 0 <= i -> i + 4 <= len l ->
  be_enc 4 (GETU32 (drop i l)) = load l i 4 /\ word32 (GETU32 (drop i l)).
Proof.
  intros Hb Hi Hl. unfold GETU32. change (take 4 (drop i l)) with (load l i 4).
  assert (B : bytes_ok (load l i 4)) by (apply bytes_ok_take, bytes_ok_drop, Hb).
  assert (L : len (load l i 4) = 4) by (unfold load; rewrite len_take; [lia | rewrite len_drop; lia]).
  split; [| pose proof (be_val_range _ B) as R; rewrite L in R; exact R].
  rewrite <- (be_enc_val _ B) at 2. f_equal. unfold len in L. lia.
Qed.

Lemma first_key_cols inp rk : bytes_ok inp -> len inp = 16 -> keys_ok rk ->
  cols (first_key inp rk) = add_round_key (state_of inp) (key_at rk 0) /\ words_ok (first_key inp rk).
Proof.
  intros Hb Hl Hk. unfold first_key, state_of. cbn [map seq].
  change (4 * Z.of_nat 0) with 0. change (4 * Z.of_nat 1) with 4. change (4 * Z.of_nat 2) with 8. change (4 * Z.of_nat 3) with 12.
  destruct (getu32_column inp 0 Hb ltac:(lia) ltac:(lia)) as [E0 W0]. rewrite drop_0 in E0, W0.
  destruct (getu32_column inp 4 Hb ltac:(lia) ltac:(lia)) as [E1 W1], (getu32_column inp 8 Hb ltac:(lia) ltac:(lia)) as [E2 W2],
    (getu32_column inp 12 Hb ltac:(lia) ltac:(lia)) as [E3 W3].
  split.
  - cbn [cols columns_of map]. rewrite !be_enc_lxor, E0, E1, E2, E3. reflexivity.
  - cbn [words_ok]. split; [| split; [| split]]; apply lxor_word32; trivial.
Qed.

Lemma enc_last_column a b c d k : byte_ok (byte3 a) -> byte_ok (byte2 b) -> byte_ok (byte1 c) -> byte_ok (byte0 d) ->
  be_enc 4 (enc_last a b c d k) = xor_bytes [sbox (byte3 a); sbox (byte2 b); sbox (byte1 c); sbox (byte0 d)] (be_enc 4 k).
Proof.
  intros Ha Hb Hc Hd. unfold enc_last. rewrite !be_enc_lxor.
  destruct (Te2_top _ Ha) as [-> _], (Te3_second _ Hb) as [-> _], (Te0_third _ Hc) as [-> _], (Te1_low _ Hd) as [-> _].
  xor_columns. now rewrite !Z.lxor_0_l, !Z.lxor_0_r.
Qed.

Lemma dec_last_column a b c d k : byte_ok (byte3 a) -> byte_ok (byte2 b) -> byte_ok (byte1 c) -> byte_ok (byte0 d) ->
  be_enc 4 (dec_last a b c d k) = xor_bytes [inv_sbox (byte3 a); inv_sbox (byte2 b); inv_sbox (byte1 c); inv_sbox (byte0 d)] (be_enc 4 k).
Proof.
  intros Ha Hb Hc Hd. unfold dec_last. rewrite !be_enc_lxor.
  destruct (Td4_top _ Ha) as [-> _], (Td4_second _ Hb) as [-> _], (Td4_third _ Hc) as [-> _], (Td4_low _ Hd) as [-> _].
  xor_columns. now rewrite !Z.lxor_0_l, !Z.lxor_0_r.
Qed.

(** ** Whole blocks *)

Lemma rounds_up_fold key n s : rounds_up key n s = fold_left (fun s i => add_round_key (mix_columns (shift_rows (sub_bytes s))) (key i)) (seq 1 n) s.
Proof. induction n as [| n IH]; [reflexivity |]. rewrite seq_S, fold_left_app. cbn [rounds_up fold_left]. now rewrite IH. Qed.

(** The round keys of an encryption schedule, from its words. *)
Definition schedule_key (rk : list Z) (i : nat) : list Z := key_at rk (4 * Z.of_nat i).

Lemma encrypt_cipher inp k r : bytes_ok inp -> len inp = 16 -> keys_ok (rd_key k) -> rounds k = 2 * Z.of_nat (S r) ->
  AES_encrypt inp k = concat (cipher (schedule_key (rd_key k)) (2 * S r) (state_of inp)).
Proof.
  intros Hb Hl Hk Hr. unfold AES_encrypt. cbv zeta. rewrite Hr, Z.shiftr_div_pow2, Z.mul_comm, Z.div_mul, Nat2Z.id by discriminate.
  destruct (first_key_cols inp _ Hb Hl Hk) as [E W].
  pose proof (enc_loop_rounds _ Hk r 0 _ W) as L. change (4 * Z.of_nat 0) with 0 in L. destruct (enc_loop _ _ _ _) as [[[[t0 t1] t2] t3] o].
  destruct L as (-> & Wt & Et). rewrite E in Et. unfold cipher. replace (2 * S r - 1)%nat with (2 * r + 1)%nat by lia.
  rewrite rounds_up_fold. change (fun s i => _) with (enc_step (rd_key k)). change (schedule_key (rd_key k) 0) with (key_at (rd_key k) 0).
  rewrite <- Et. rewrite cols_bytes by exact Wt. destruct Wt as (H0 & H1 & H2 & H3). words_bytes.
  unfold sub_bytes, schedule_key, key_at. rewrite shift_only. unfold last_round. rewrite !enc_last_column by assumption.
  cbn [concat]. now rewrite app_nil_r.
Qed.

Lemma decrypt_fold inp k r : bytes_ok inp -> len inp = 16 -> keys_ok (rd_key k) -> rounds k = 2 * Z.of_nat (S r) ->
  AES_decrypt inp k = concat (add_round_key (inv_shift_rows (inv_sub_bytes
    (fold_left (dec_step (rd_key k)) (seq 1 (2 * r + 1)) (add_round_key (state_of inp) (schedule_key (rd_key k) 0))))) (schedule_key (rd_key k) (2 * S r))).
Proof.
  intros Hb Hl Hk Hr. unfold AES_decrypt. cbv zeta. rewrite Hr, Z.shiftr_div_pow2, Z.mul_comm, Z.div_mul, Nat2Z.id by discriminate.
  destruct (first_key_cols inp _ Hb Hl Hk) as [E W].
  pose proof (dec_loop_rounds _ Hk r 0 _ W) as L. change (4 * Z.of_nat 0) with 0 in L. destruct (dec_loop _ _ _ _) as [[[[t0 t1] t2] t3] o].
  destruct L as (-> & Wt & Et). rewrite E in Et. change (schedule_key (rd_key k) 0) with (key_at (rd_key k) 0).
  rewrite <- Et. rewrite cols_bytes by exact Wt. destruct Wt as (H0 & H1 & H2 & H3). words_bytes.
  unfold inv_sub_bytes, schedule_key, key_at. rewrite inv_shift_only. unfold last_round. rewrite !dec_last_column by assumption.
  cbn [concat]. now rewrite app_nil_r.
Qed.

(** ** Key expansion *)

Definition grow (Nk : Z) (ws : list Z) : list Z := ws ++ [next_word Nk ws].

(** The array starts with the words [ws]. *)
Definition holds (ws rk : list Z) : Prop := (exists rest, rk = ws ++ rest) /\ len rk = 60 /\ Forall word32 rk.

Lemma holds_get ws rk i : holds ws rk -> 0 <= i < len ws -> get rk i = get ws i.
Proof. intros [[rest ->] _] Hi. now apply get_app_l. Qed.

Lemma word32_get l i : Forall word32 l -> word32 (get l i).
Proof.
  intros H. unfold get. destruct (Nat.lt_ge_cases (Z.to_nat i) (length l)) as [Hi | Hi].
  - rewrite Forall_forall in H. apply H, nth_In, Hi.
  - rewrite nth_overflow by exact Hi. split; [discriminate | reflexivity].
Qed.

Lemma holds_set ws rk v : holds ws rk -> len ws < 60 -> word32 v -> holds (ws ++ [v]) (set rk (len ws) v).
Proof.
  intros [[rest ->] [L W]] Hl Hv. rewrite len_app in L. destruct rest as [| x rest]; [change (len (@nil Z)) with 0 in L; lia |].
  assert (E : set (ws ++ x :: rest) (len ws) v = (ws ++ [v]) ++ rest).
  { unfold set, splice. rewrite take_app_exact by reflexivity. rewrite <- app_assoc. do 2 f_equal.
    change (len [v]) with 1. rewrite drop_app_r by lia. replace (len ws + 1 - len ws) with 1 by lia. reflexivity. }
  rewrite E. split; [now exists rest |]. split; [rewrite !len_app; rewrite len_cons in L; change (len [v]) with 1; lia |].
  apply Forall_app in W as [W1 W2]. inversion_clear W2. apply Forall_app. split; [apply Forall_app; split; [exact W1 | now constructor] | assumption].
Qed.

(** The words the code computes are the next ones of the standard. *)
Lemma sub_key_word k a b c d : byte_ok a -> byte_ok b -> byte_ok c -> byte_ok d ->
  sub_key k a b c d = Z.lxor k (be_val (map sbox [a; b; c; d])).
Proof.
  intros Ha Hb Hc Hd. unfold sub_key. destruct (Te2_top a Ha) as [Ea ?], (Te3_second b Hb) as [Eb ?], (Te0_third c Hc) as [Ec ?], (Te1_low d Hd) as [Ed ?].
  rewrite !Z.lxor_assoc. f_equal. apply word_ext; [auto using lxor_word32 | |].
  - assert (B : bytes_ok (map sbox [a; b; c; d])) by (repeat constructor; now apply sbox_byte). exact (be_val_range _ B).
  - rewrite !be_enc_lxor, Ea, Eb, Ec, Ed. change 4%nat with (length (map sbox [a; b; c; d])) at 1.
    rewrite be_enc_val by (repeat constructor; now apply sbox_byte). xor_columns. now rewrite !Z.lxor_0_l, !Z.lxor_0_r.
Qed.

Lemma rotl8_bytes w : word32 w -> be_enc 4 (rotl 32 8 w) = [byte2 w; byte1 w; byte0 w; byte3 w].
Proof.
  intros Hw. rewrite word_bytes by (apply rotl_range; [lia | exact Hw]). unfold byte3, byte2, byte1, byte0, rotl, word32 in *.
  change 0xff with (Z.ones 8). rewrite !Z.land_ones, !Z.shiftr_div_pow2 by lia. change (32 - 8) with 24. zconst.
  repeat (apply f_equal2; [Z.to_euclidean_division_equations; lia |]). reflexivity.
Qed.

Lemma core_word w : word32 w -> be_val (map sbox [byte2 w; byte1 w; byte0 w; byte3 w]) = sub_word (rotl 32 8 w).
Proof. intros H. unfold sub_word. now rewrite rotl8_bytes. Qed.

Lemma plain_word w : word32 w -> be_val (map sbox [byte3 w; byte2 w; byte1 w; byte0 w]) = sub_word w.
Proof. intros H. unfold sub_word. now rewrite word_bytes. Qed.

Lemma rcon_index i : 0 <= i < 10 -> get rcon i = rcon_word (i + 1) /\ word32 (get rcon i).
Proof.
  intros Hi. split; [| apply word32_get; unfold rcon; repeat constructor; unfold word32; lia].
  assert (H : forallb (fun i => get rcon (Z.of_nat i) =? rcon_word (Z.of_nat i + 1)) (seq 0 10) = true) by (vm_compute; reflexivity).
  rewrite forallb_forall in H. specialize (H (Z.to_nat i) ltac:(apply in_seq; lia)). rewrite Z2Nat.id in H by lia. now apply Z.eqb_eq.
Qed.

Section Growing.
Variable Nk : Z.
Hypothesis HNk : 0 < Nk.

Lemma len_grow ws : len (grow Nk ws) = len ws + 1.
Proof. unfold grow. rewrite len_app. reflexivity. Qed.

(** A word that follows from the one before it. *)
Lemma chain_grow ws rk o to a b : holds ws rk -> len ws < 60 -> o + to = len ws -> o + a = len ws - Nk -> o + b = len ws - 1 ->
  Nk <= len ws -> len ws mod Nk <> 0 -> Nk <= 6 \/ len ws mod Nk <> 4 -> holds (grow Nk ws) (chain rk o to a b).
Proof.
  intros H Hl Ht Ha Hb Hn Hm H4. unfold chain, grow, next_word. cbv zeta. rewrite Ht, Ha, Hb, !(holds_get ws rk) by (exact H || lia).
  destruct (Z.eqb_spec (len ws mod Nk) 0); [contradiction |].
  replace ((6 <? Nk) && (len ws mod Nk =? 4)) with false by (destruct (Z.ltb_spec 6 Nk), (Z.eqb_spec (len ws mod Nk) 4); trivial; lia).
  apply holds_set; [exact H | exact Hl |]. destruct H as [[rest ->] [_ W]]. apply Forall_app in W as [W _].
  apply lxor_word32; now apply word32_get.
Qed.

(** The first word of a group. *)
Lemma core_grow ws rk o k i : holds ws rk -> len ws < 60 -> o + k = len ws -> o = len ws - Nk -> Nk <= len ws -> k = Nk ->
  len ws = Nk * (i + 1) -> 0 <= i < 10 ->
  let temp := get rk (o + (k - 1)) in
  holds (grow Nk ws) (set rk (o + k) (Z.lxor (sub_key (get rk o) (byte2 temp) (byte1 temp) (byte0 temp) (byte3 temp)) (get rcon i))).
Proof.
  intros H Hl Hk Ho Hn -> Hi Hr. cbv zeta. replace (o + (Nk - 1)) with (len ws - 1) by lia. rewrite !(holds_get ws rk) by (exact H || lia).
  assert (W : forall j, word32 (get ws j)).
  { intros j. destruct H as [[rest ->] [_ W]]. apply Forall_app in W as [W _]. now apply word32_get. }
  destruct (bytes_range _ (W (len ws - 1))) as (? & ? & ? & ?). rewrite sub_key_word, core_word by auto.
  destruct (rcon_index i Hr) as [E Wr]. rewrite Hk, Ho, Z.lxor_assoc, E. unfold grow, next_word. cbv zeta.
  replace (len ws mod Nk) with 0 by (rewrite Hi, Z.mul_comm, Z.mod_mul; lia). rewrite Z.eqb_refl.
  replace (len ws / Nk) with (i + 1) by (rewrite Hi, Z.mul_comm, Z.div_mul; lia).
  apply holds_set; [exact H | exact Hl |]. rewrite <- E. apply lxor_word32; [apply W |]. apply lxor_word32; [| exact Wr].
  unfold sub_word. apply (be_val_range (map sbox (be_enc 4 (rotl 32 8 (get ws (len ws - 1)))))).
  apply Forall_map. eapply Forall_impl; [exact sbox_byte | apply be_enc_bytes].
Qed.

Lemma mid_grow ws rk o a t : holds ws rk -> len ws < 60 -> o = len ws - 12 -> a = o + 4 -> t = o + 11 -> Nk = 8 -> 8 <= len ws -> len ws mod 8 = 4 ->
  let temp := get rk t in
  holds (grow Nk ws) (set rk (o + 12) (sub_key (get rk a) (byte3 temp) (byte2 temp) (byte1 temp) (byte0 temp))).
Proof.
  intros H Hl -> -> -> -> Hn Hm. cbv zeta. replace (len ws - 12 + 11) with (len ws - 1) by lia. replace (len ws - 12 + 4) with (len ws - 8) by lia.
  rewrite !(holds_get ws rk) by (exact H || lia).
  assert (W : forall j, word32 (get ws j)).
  { intros j. destruct H as [[rest ->] [_ W]]. apply Forall_app in W as [W _]. now apply word32_get. }
  destruct (bytes_range _ (W (len ws - 1))) as (? & ? & ? & ?). rewrite sub_key_word, plain_word by auto.
  replace (len ws - 12 + 12) with (len ws) by lia. unfold grow, next_word. cbv zeta. rewrite Hm. cbn [Z.eqb Z.ltb Z.compare Pos.compare Pos.compare_cont andb Pos.eqb].
  apply holds_set; [exact H | exact Hl |]. apply lxor_word32; [apply W |].
  unfold sub_word. apply (be_val_range (map sbox (be_enc 4 (get ws (len ws - 1))))).
  apply Forall_map. eapply Forall_impl; [exact sbox_byte | apply be_enc_bytes].
Qed.
End Growing.

Lemma iter_plus {A} (f : A -> A) n m x : Nat.iter (n + m) f x = Nat.iter n f (Nat.iter m f x).
Proof. induction n as [| n IH]; [reflexivity |]. cbn [Nat.add]. rewrite !Nat.iter_succ. now rewrite IH. Qed.

Lemma group_holds Nk o i ws rk : 4 <= Nk -> Nk = 4 \/ Nk = 6 \/ Nk = 8 -> holds ws rk -> len ws = Nk * (i + 1) -> o = Nk * i -> 0 <= i < 10 ->
  len ws + 4 <= 60 -> holds (Nat.iter 4 (grow Nk) ws) (next_group Nk rk o i) /\ len (Nat.iter 4 (grow Nk) ws) = len ws + 4.
Proof.
  intros H4 HN H Hl Ho Hi Hs. unfold next_group. cbv zeta.
  assert (M : forall j, 0 <= j < Nk -> (len ws + j) mod Nk = j) by (intros j Hj; rewrite Hl, Z.add_comm, Z.mul_comm, Z.mod_add, Z.mod_small; lia).
  pose proof (M 1 ltac:(lia)) as M1. pose proof (M 2 ltac:(lia)) as M2. pose proof (M 3 ltac:(lia)) as M3.
  pose proof (core_grow Nk ltac:(lia) ws rk o Nk i H ltac:(lia) ltac:(lia) ltac:(lia) ltac:(nia) eq_refl Hl Hi) as H1. cbv zeta in H1.
  revert H1. match goal with |- holds _ ?x -> _ => generalize x end. intros rk1 H1.
  pose proof (len_grow Nk ws) as L1. pose proof (len_grow Nk (grow Nk ws)) as L2. pose proof (len_grow Nk (grow Nk (grow Nk ws))) as L3.
  pose proof (len_grow Nk (grow Nk (grow Nk (grow Nk ws)))) as L4. cbn [Nat.iter nat_rect].
  apply (chain_grow Nk ltac:(lia) _ _ o (Nk + 1) 1 Nk) in H1; [| rewrite ?L1; lia ..].
  apply (chain_grow Nk ltac:(lia) _ _ o (Nk + 2) 2 (Nk + 1)) in H1; [| rewrite ?L2, ?L1; replace (len ws + 1 + 1) with (len ws + 2) by lia; lia ..].
  apply (chain_grow Nk ltac:(lia) _ _ o (Nk + 3) 3 (Nk + 2)) in H1; [| rewrite ?L3, ?L2, ?L1; replace (len ws + 1 + 1 + 1) with (len ws + 3) by lia; lia ..].
  split; [exact H1 | lia].
Qed.

Lemma expand128_holds n : forall fuel i ws rk, Z.of_nat (S n) = 10 - i -> (S n <= fuel)%nat -> 0 <= i -> holds ws rk -> len ws = 4 * (i + 1) ->
  holds (Nat.iter (4 * S n) (grow 4) ws) (expand128 fuel rk (4 * i) i).
Proof.
  induction n as [| n IH]; intros [| fuel] i ws rk Hn Hf Hi H Hl; try lia; cbn [expand128]; cbv zeta;
    destruct (group_holds 4 (4 * i) i ws rk ltac:(lia) ltac:(lia) H Hl eq_refl ltac:(lia) ltac:(lia)) as [H1 L1];
    destruct (Z.eqb_spec (i + 1) 10); try lia; [exact H1 |].
  replace (4 * i + 4) with (4 * (i + 1)) by lia. replace (4 * S (S n))%nat with (4 * S n + 4)%nat by lia. rewrite iter_plus.
  apply IH; lia || exact H1.
Qed.

Lemma expand192_holds n : forall fuel i ws rk, Z.of_nat (S n) = 8 - i -> (S n <= fuel)%nat -> 0 <= i -> holds ws rk -> len ws = 6 * (i + 1) ->
  holds (Nat.iter (4 + 6 * n) (grow 6) ws) (expand192 fuel rk (6 * i) i).
Proof.
  induction n as [| n IH]; intros [| fuel] i ws rk Hn Hf Hi H Hl; try lia; cbn [expand192]; cbv zeta;
    destruct (group_holds 6 (6 * i) i ws rk ltac:(lia) ltac:(lia) H Hl eq_refl ltac:(lia) ltac:(lia)) as [H1 L1];
    destruct (Z.eqb_spec (i + 1) 8); try lia; [exact H1 |].
  assert (M : forall j, 0 <= j < 6 -> (len ws + j) mod 6 = j) by (intros j Hj; rewrite Hl, Z.add_comm, Z.mul_comm, Z.mod_add, Z.mod_small; lia).
  pose proof (M 4 ltac:(lia)) as M4. pose proof (M 5 ltac:(lia)) as M5. set (w4 := Nat.iter 4 (grow 6) ws) in *.
  pose proof (len_grow 6 w4) as L5. pose proof (len_grow 6 (grow 6 w4)) as L6.
  apply (chain_grow 6 ltac:(lia) _ _ (6 * i) 10 4 9) in H1; [| rewrite ?L1; lia ..].
  apply (chain_grow 6 ltac:(lia) _ _ (6 * i) 11 5 10) in H1; [| rewrite ?L5, ?L1; replace (len ws + 4 + 1) with (len ws + 5) by lia; lia ..].
  replace (6 * i + 6) with (6 * (i + 1)) by lia. replace (4 + 6 * S n)%nat with (4 + 6 * n + 6)%nat by lia. rewrite iter_plus.
  change (Nat.iter 6 (grow 6) ws) with (grow 6 (grow 6 w4)).
  apply IH; try lia. exact H1.
Qed.

Lemma expand256_holds n : forall fuel i ws rk, Z.of_nat (S n) = 7 - i -> (S n <= fuel)%nat -> 0 <= i -> holds ws rk -> len ws = 8 * (i + 1) ->
  holds (Nat.iter (4 + 8 * n) (grow 8) ws) (expand256 fuel rk (8 * i) i).
Proof.
  induction n as [| n IH]; intros [| fuel] i ws rk Hn Hf Hi H Hl; try lia; cbn [expand256]; cbv zeta;
    destruct (group_holds 8 (8 * i) i ws rk ltac:(lia) ltac:(lia) H Hl eq_refl ltac:(lia) ltac:(lia)) as [H1 L1];
    destruct (Z.eqb_spec (i + 1) 7); try lia; [exact H1 |].
  assert (M : forall j, 0 <= j < 8 -> (len ws + j) mod 8 = j) by (intros j Hj; rewrite Hl, Z.add_comm, Z.mul_comm, Z.mod_add, Z.mod_small; lia).
  pose proof (M 4 ltac:(lia)) as M4. pose proof (M 5 ltac:(lia)) as M5. pose proof (M 6 ltac:(lia)) as M6. pose proof (M 7 ltac:(lia)) as M7.
  set (w4 := Nat.iter 4 (grow 8) ws) in *. set (rk4 := next_group 8 rk (8 * i) i) in *.
  pose proof (len_grow 8 w4) as L5. pose proof (len_grow 8 (grow 8 w4)) as L6. pose proof (len_grow 8 (grow 8 (grow 8 w4))) as L7.
  pose proof (len_grow 8 (grow 8 (grow 8 (grow 8 w4)))) as L8.
  assert (H2 : holds (grow 8 (grow 8 (grow 8 (grow 8 w4)))) (middle_group rk4 (8 * i))).
  { unfold middle_group. cbv zeta.
    pose proof (mid_grow 8 ltac:(lia) w4 rk4 (8 * i) (8 * i + 4) (8 * i + 11) H1 ltac:(lia) ltac:(lia) eq_refl eq_refl eq_refl ltac:(lia) ltac:(rewrite L1; exact M4)) as H2.
    cbv zeta in H2. revert H2. match goal with |- holds _ ?x -> _ => generalize x end. intros rk5 H2.
    apply (chain_grow 8 ltac:(lia) _ _ (8 * i) 13 5 12) in H2; [| rewrite ?L5, ?L1; replace (len ws + 4 + 1) with (len ws + 5) by lia; lia ..].
    apply (chain_grow 8 ltac:(lia) _ _ (8 * i) 14 6 13) in H2; [| rewrite ?L6, ?L5, ?L1; replace (len ws + 4 + 1 + 1) with (len ws + 6) by lia; lia ..].
    apply (chain_grow 8 ltac:(lia) _ _ (8 * i) 15 7 14) in H2; [| rewrite ?L7, ?L6, ?L5, ?L1; replace (len ws + 4 + 1 + 1 + 1) with (len ws + 7) by lia; lia ..].
    exact H2. }
  replace (8 * i + 8) with (8 * (i + 1)) by lia. replace (4 + 8 * S n)%nat with (4 + 8 * n + 8)%nat by lia. rewrite iter_plus.
  change (Nat.iter 8 (grow 8) ws) with (grow 8 (grow 8 (grow 8 (grow 8 w4)))).
  apply IH; try lia. exact H2.
Qed.

(** ** The schedule of a key *)

Lemma load_key_holds key n : bytes_ok key -> forall ws rk, holds ws rk -> ws = map (fun i => be_val (load key (4 * Z.of_nat i) 4)) (seq 0 (length ws)) ->
  len key <= 32 -> 4 * (len ws + Z.of_nat n) <= len key ->
  holds (map (fun i => be_val (load key (4 * Z.of_nat i) 4)) (seq 0 (length ws + n))) (load_key n rk key (len ws)).
Proof.
  intros Hb. induction n as [| n IH]; intros ws rk H Ew Hk Hl; cbn [load_key]; [now rewrite Nat.add_0_r, <- Ew |].
  set (v := GETU32 (drop (4 * len ws) key)).
  assert (Wv : word32 v) by (apply (getu32_column key (4 * len ws) Hb); [pose proof (len_nonneg ws); lia | lia]).
  pose proof (holds_set ws rk v H ltac:(lia) Wv) as H'.
  replace (length ws + S n)%nat with (length (ws ++ [v]) + n)%nat by (rewrite length_app; cbn; lia).
  replace (len ws + 1) with (len (ws ++ [v])) by (rewrite len_app; reflexivity).
  apply IH; [exact H' | | exact Hk | rewrite len_app; change (len [v]) with 1; lia].
  rewrite length_app. cbn [length]. rewrite seq_app, map_app, <- Ew. reflexivity.
Qed.

Lemma holds_nil rk : len rk = 60 -> Forall word32 rk -> holds [] rk.
Proof. intros. split; [now exists rk | auto]. Qed.

Lemma be_words_seq key n : length key = (4 * n)%nat -> be_words key = map (fun i => be_val (load key (4 * Z.of_nat i) 4)) (seq 0 n).
Proof. intros H. unfold be_words. rewrite H, Nat.mul_comm, Nat.div_mul by discriminate. reflexivity. Qed.

Lemma len_key_words key n : len (map (fun i => be_val (load key (4 * Z.of_nat i) 4)) (seq 0 n)) = Z.of_nat n.
Proof. unfold len. now rewrite length_map, length_seq. Qed.

Lemma load_more key rk a n : bytes_ok key -> len key <= 32 -> 4 * (Z.of_nat a + Z.of_nat n) <= len key ->
  holds (map (fun i => be_val (load key (4 * Z.of_nat i) 4)) (seq 0 a)) rk ->
  holds (map (fun i => be_val (load key (4 * Z.of_nat i) 4)) (seq 0 (a + n))) (load_key n rk key (Z.of_nat a)).
Proof.
  intros Hb Hl Hn H. pose proof (load_key_holds key n Hb _ rk H) as X. rewrite length_map, length_seq, len_key_words in X. apply X; auto.
Qed.

Definition key_size (key : list Z) : Prop := len key = 16 \/ len key = 24 \/ len key = 32.
Definition array_ok (k : AES_KEY) : Prop := len (rd_key k) = 60 /\ Forall word32 (rd_key k).

(** Key set-up makes the schedule of the standard. *)
Lemma set_encrypt_key_holds key k0 : bytes_ok key -> key_size key -> array_ok k0 ->
  exists k, AES_set_encrypt_key (Some key) (8 * len key) (Some k0) = (0, Some k) /\ rounds k = Z.of_nat (rounds_of key) /\
    holds (key_expansion key (4 * (rounds_of key + 1))) (rd_key k).
Proof.
  intros Hb Hs [L W]. pose proof (load_more key (rd_key k0) 0 4 Hb) as H4. cbn [seq map] in H4.
  specialize (H4 ltac:(unfold key_size in Hs; lia) ltac:(unfold key_size in Hs; lia) (holds_nil _ L W)).
  unfold AES_set_encrypt_key. cbv zeta. unfold rounds_of, key_expansion.
  destruct Hs as [E | [E | E]]; rewrite E; eexists; (split; [reflexivity |]); cbn [rd_key rounds];
    assert (El : length key = Z.to_nat (len key)) by (unfold len; lia); rewrite E in El; rewrite El.
  - split; [reflexivity |]. rewrite (be_words_seq key 4) by exact El.
    apply (expand128_holds 9 10 0); try lia. exact H4. rewrite len_key_words. reflexivity.
  - split; [reflexivity |]. pose proof (load_more key _ 4 2 Hb ltac:(lia) ltac:(lia) H4) as H6. rewrite (be_words_seq key 6) by exact El.
    apply (expand192_holds 7 8 0); try lia. exact H6. rewrite len_key_words. reflexivity.
  - split; [reflexivity |]. pose proof (load_more key _ 4 2 Hb ltac:(lia) ltac:(lia) H4) as H6.
    pose proof (load_more key _ 6 2 Hb ltac:(lia) ltac:(lia) H6) as H8. rewrite (be_words_seq key 8) by exact El.
    apply (expand256_holds 6 7 0); try lia. exact H8. rewrite len_key_words. reflexivity.
Qed.

Lemma key_at_load ws rk o : holds ws rk -> 0 <= o -> o + 4 <= len ws -> key_at rk o = load ws o 4.
Proof.
  intros H Ho Hl. rewrite !load_cons by lia. unfold key_at. rewrite !(holds_get ws rk) by (exact H || lia).
  replace (o + 1 + 1) with (o + 2) by lia. replace (o + 2 + 1) with (o + 3) by lia. reflexivity.
Qed.

Lemma len_iter_grow Nk n ws : len (Nat.iter n (grow Nk) ws) = len ws + Z.of_nat n.
Proof. induction n as [| n IH]; [cbn; lia |]. rewrite Nat.iter_succ, len_grow, IH. lia. Qed.

Lemma key_expansion_len key : key_size key -> len (key_expansion key (4 * (rounds_of key + 1))) = 4 * (Z.of_nat (rounds_of key) + 1).
Proof.
  intros Hs. unfold key_expansion, rounds_of, be_words. rewrite (len_iter_grow (len key / 4)), len_key_words.
  assert (E : length key = Z.to_nat (len key)) by (unfold len; lia). destruct Hs as [H | [H | H]]; rewrite H in E; rewrite E; reflexivity.
Qed.

Lemma round_key_at key k i : key_size key -> holds (key_expansion key (4 * (rounds_of key + 1))) (rd_key k) -> (i <= rounds_of key)%nat ->
  schedule_key (rd_key k) i = round_key key i.
Proof. intros Hs H Hi. unfold schedule_key, round_key. apply key_at_load; [exact H | lia |]. rewrite key_expansion_len by exact Hs. lia. Qed.

(** The cipher uses the keys up to its number of rounds. *)
Lemma rounds_up_ext key key' n s : (forall i, (0 < i <= n)%nat -> key i = key' i) -> rounds_up key n s = rounds_up key' n s.
Proof. induction n as [| n IH]; intros H; [reflexivity |]. cbn [rounds_up]. rewrite IH, H by (lia || (intros; apply H; lia)). reflexivity. Qed.

Lemma cipher_ext key key' Nr s : (forall i, (i <= Nr)%nat -> key i = key' i) -> cipher key Nr s = cipher key' Nr s.
Proof. intros H. unfold cipher. rewrite (rounds_up_ext key key'), !H by (lia || (intros; apply H; lia)). reflexivity. Qed.

Lemma rounds_down_ext key key' n : forall s, (forall i, (0 < i <= n)%nat -> key i = key' i) -> rounds_down key n s = rounds_down key' n s.
Proof. induction n as [| n IH]; intros s H; [reflexivity |]. cbn [rounds_down]. rewrite H by lia. apply IH. intros; apply H; lia. Qed.

Lemma keys_ok_words rk : Forall word32 rk -> keys_ok rk.
Proof. intros H i. now apply word32_get. Qed.

Lemma encrypt_fips key k0 block : bytes_ok key -> key_size key -> array_ok k0 -> bytes_ok block -> len block = 16 ->
  exists k, AES_set_encrypt_key (Some key) (8 * len key) (Some k0) = (0, Some k) /\ AES_encrypt block k = fips_encrypt key block.
Proof.
  intros Bk Hs H0 Bb Lb. destruct (set_encrypt_key_holds key k0 Bk Hs H0) as (k & E & Er & H). exists k. split; [exact E |].
  assert (Hr : exists r, rounds_of key = (2 * S r)%nat).
  { unfold rounds_of. assert (El : length key = Z.to_nat (len key)) by (unfold len; lia).
    destruct Hs as [L | [L | L]]; rewrite L in El; rewrite El; [exists 4%nat | exists 5%nat | exists 6%nat]; reflexivity. }
  destruct Hr as [r Hr]. rewrite (encrypt_cipher block k r Bb Lb (keys_ok_words _ (proj2 (proj2 H)))) by lia.
  unfold fips_encrypt. rewrite Hr. f_equal. apply cipher_ext. intros i Hi. apply round_key_at; trivial. lia.
Qed.

(** ** The decryption schedule *)

Lemma get_set l a x p : 0 <= a < len l -> 0 <= p -> get (set l a x) p = if p =? a then x else get l p.
Proof. intros Ha Hp. destruct (Z.eqb_spec p a) as [-> | Hn]; [now apply get_set_same | now apply get_set_other]. Qed.

(** Exchanging two entries is a transposition of the indices. *)
Definition tr (a b p : Z) : Z := if p =? a then b else if p =? b then a else p.

Lemma swap_words_get rk a b : 0 <= a < len rk -> 0 <= b < len rk -> a <> b ->
  (forall p, 0 <= p -> get (swap_words rk a b) p = get rk (tr a b p)) /\ len (swap_words rk a b) = len rk.
Proof.
  intros Ha Hb Hn. unfold swap_words. cbv zeta. split; [| now rewrite !len_set by (rewrite ?len_set; lia)].
  intros p Hp. rewrite !get_set by (rewrite ?len_set; lia). unfold tr. destruct (Z.eqb_spec p a), (Z.eqb_spec p b); subst; trivial; lia.
Qed.

Definition swap4 (rk : list Z) (i j : Z) : list Z :=
  swap_words (swap_words (swap_words (swap_words rk i j) (i + 1) (j + 1)) (i + 2) (j + 2)) (i + 3) (j + 3).

Definition exchange (i j p : Z) : Z :=
  if (i <=? p) && (p <? i + 4) then p - i + j else if (j <=? p) && (p <? j + 4) then p - j + i else p.

Lemma tr_nonneg a b p : 0 <= a -> 0 <= b -> 0 <= p -> 0 <= tr a b p.
Proof. unfold tr. intros. destruct (p =? a), (p =? b); trivial. Qed.

Lemma tr_left a b : tr a b a = b.
Proof. unfold tr. now rewrite Z.eqb_refl. Qed.

Lemma tr_right a b : a <> b -> tr a b b = a.
Proof. intros H. unfold tr. rewrite Z.eqb_refl. destruct (Z.eqb_spec b a); congruence. Qed.

Lemma tr_other a b p : p <> a -> p <> b -> tr a b p = p.
Proof. intros Ha Hb. unfold tr. destruct (Z.eqb_spec p a), (Z.eqb_spec p b); congruence. Qed.

Ltac transpose a b := first [rewrite (tr_left a b) | rewrite (tr_right a b) by lia | rewrite (tr_other a b) by lia].

Lemma exchange_tr i j p : i + 4 <= j -> tr i j (tr (i + 1) (j + 1) (tr (i + 2) (j + 2) (tr (i + 3) (j + 3) p))) = exchange i j p.
Proof.
  intros Hj. unfold exchange.
  assert (H : p = i \/ p = i + 1 \/ p = i + 2 \/ p = i + 3 \/ p = j \/ p = j + 1 \/ p = j + 2 \/ p = j + 3 \/
    (p < i \/ i + 4 <= p) /\ (p < j \/ j + 4 <= p)) by lia.
  destruct H as [-> | [-> | [-> | [-> | [-> | [-> | [-> | [-> | [? ?]]]]]]]]];
    transpose (i + 3) (j + 3); transpose (i + 2) (j + 2); transpose (i + 1) (j + 1); transpose i j;
    repeat match goal with |- context [?x <=? ?y] => destruct (Z.leb_spec x y) | |- context [?x <? ?y] => destruct (Z.ltb_spec x y) end; cbn [andb]; lia.
Qed.

Lemma swap4_get rk i j : 0 <= i -> i + 4 <= j -> j + 4 <= len rk ->
  (forall p, 0 <= p -> get (swap4 rk i j) p = get rk (exchange i j p)) /\ len (swap4 rk i j) = len rk.
Proof.
  intros Hi Hj Hl. unfold swap4.
  destruct (swap_words_get rk i j) as [G1 L1]; [lia | lia | lia |]. set (r1 := swap_words rk i j) in *.
  destruct (swap_words_get r1 (i + 1) (j + 1)) as [G2 L2]; [lia | lia | lia |]. set (r2 := swap_words r1 (i + 1) (j + 1)) in *.
  destruct (swap_words_get r2 (i + 2) (j + 2)) as [G3 L3]; [lia | lia | lia |]. set (r3 := swap_words r2 (i + 2) (j + 2)) in *.
  destruct (swap_words_get r3 (i + 3) (j + 3)) as [G4 L4]; [lia | lia | lia |].
  split; [| lia]. intros p Hp. rewrite G4, G3, G2, G1 by (repeat apply tr_nonneg; lia). now rewrite exchange_tr.
Qed.

(** The words of the first [4 * (N + 1)] in the opposite order, by fours. *)
Definition mirror (N p : Z) : Z := 4 * (N - p / 4) + p mod 4.

Ltac fours p := let E := fresh in pose proof (Z.div_mod p 4 ltac:(lia)) as E; pose proof (Z.mod_pos_bound p 4 ltac:(lia));
  revert E; generalize dependent (p mod 4); generalize (p / 4); intros.

Lemma invert_order_get N fuel : forall rk i, 0 <= i <= 2 * N + 3 -> i = 4 * (i / 4) -> 4 * N - 2 * i < 8 * Z.of_nat fuel -> 4 * N + 4 <= len rk -> 0 <= N ->
  let rk' := invert_order fuel rk i (4 * N - i) in
  (forall p, 0 <= p -> get rk' p = get rk (if (i <=? p) && (p <? 4 * N - i + 4) then mirror N p else p)) /\ len rk' = len rk.
Proof.
  induction fuel as [| fuel IH]; intros rk i Hi Hm Hf Hl HN; cbv zeta; cbn [invert_order].
  - split; [| reflexivity]. intros p Hp. f_equal. unfold mirror. destruct (Z.leb_spec i p), (Z.ltb_spec p (4 * N - i + 4)); cbn [andb]; fours p; lia.
  - destruct (Z.ltb_spec i (4 * N - i)) as [Hij | Hij].
    2: { split; [| reflexivity]. intros p Hp. f_equal. unfold mirror. destruct (Z.leb_spec i p), (Z.ltb_spec p (4 * N - i + 4)); cbn [andb]; fours p; lia. }
    fold (swap4 rk i (4 * N - i)). destruct (swap4_get rk i (4 * N - i)) as [G L]; [lia | lia | lia |].
    destruct (IH (swap4 rk i (4 * N - i)) (i + 4)) as [G' L']; [lia | rewrite (Z.div_add_l 1 4) || idtac; replace (i + 4) with (i / 4 * 4 + 1 * 4) at 2 by lia; rewrite <- Z.mul_add_distr_r, Z.div_mul by lia; lia | lia | lia | lia |].
    replace (4 * N - i - 4) with (4 * N - (i + 4)) by lia. cbv zeta in *. split; [| lia].
    intros p Hp. rewrite G' by exact Hp. rewrite G.
    + f_equal. unfold exchange, mirror. destruct (Z.leb_spec (i + 4) p), (Z.ltb_spec p (4 * N - (i + 4) + 4)); cbn [andb];
        repeat match goal with |- context [?x <=? ?y] => destruct (Z.leb_spec x y) | |- context [?x <? ?y] => destruct (Z.ltb_spec x y) end; cbn [andb]; fours p; lia.
    + destruct (_ && _) eqn:E; [| exact Hp]. unfold mirror. rewrite andb_true_iff, Z.leb_le, Z.ltb_lt in E. fours p; lia.
Qed.

Lemma transform_keys_get nr fuel : forall rk i, 0 < i -> nr - i <= Z.of_nat fuel -> 4 * nr <= len rk ->
  let rk' := transform_keys fuel rk (4 * i - 4) i nr in
  (forall p, 0 <= p -> get rk' p = if (4 * i <=? p) && (p <? 4 * nr) then inv_mix_word (get rk p) else get rk p) /\ len rk' = len rk.
Proof.
  assert (Done : forall (rk : list Z) i, nr <= i -> forall p, get rk p = if (4 * i <=? p) && (p <? 4 * nr) then inv_mix_word (get rk p) else get rk p).
  { intros rk i H p. destruct (Z.leb_spec (4 * i) p), (Z.ltb_spec p (4 * nr)); cbn [andb]; trivial; lia. }
  induction fuel as [| fuel IH]; intros rk i Hi Hf Hl; cbv zeta; cbn [transform_keys]; [split; [intros p _; apply Done; lia | reflexivity] |].
  destruct (Z.ltb_spec i nr) as [H | H]; [| split; [intros p _; now apply Done | reflexivity]].
  replace (4 * i - 4 + 4) with (4 * i) by lia. cbv zeta.
  set (r1 := set rk (4 * i) (inv_mix_word (get rk (4 * i)))). assert (L1 : len r1 = len rk) by (apply len_set; lia).
  set (r2 := set r1 (4 * i + 1) (inv_mix_word (get r1 (4 * i + 1)))). assert (L2 : len r2 = len rk) by (rewrite <- L1; apply len_set; lia).
  set (r3 := set r2 (4 * i + 2) (inv_mix_word (get r2 (4 * i + 2)))). assert (L3 : len r3 = len rk) by (rewrite <- L2; apply len_set; lia).
  set (r4 := set r3 (4 * i + 3) (inv_mix_word (get r3 (4 * i + 3)))). assert (L4 : len r4 = len rk) by (rewrite <- L3; apply len_set; lia).
  assert (G : forall p, 0 <= p -> get r4 p = if (4 * i <=? p) && (p <? 4 * i + 4) then inv_mix_word (get rk p) else get rk p).
  { intros p Hp.
    assert (G1 : forall q, 0 <= q -> get r1 q = if q =? 4 * i then inv_mix_word (get rk (4 * i)) else get rk q) by (intros; apply get_set; lia).
    assert (G2 : forall q, 0 <= q -> get r2 q = if q =? 4 * i + 1 then inv_mix_word (get r1 (4 * i + 1)) else get r1 q) by (intros; apply get_set; lia).
    assert (G3 : forall q, 0 <= q -> get r3 q = if q =? 4 * i + 2 then inv_mix_word (get r2 (4 * i + 2)) else get r2 q) by (intros; apply get_set; lia).
    assert (G4 : get r4 p = if p =? 4 * i + 3 then inv_mix_word (get r3 (4 * i + 3)) else get r3 p) by (apply get_set; lia).
    rewrite G4, !G3, !G2, !G1 by lia. clear G1 G2 G3 G4.
    assert (C : p = 4 * i \/ p = 4 * i + 1 \/ p = 4 * i + 2 \/ p = 4 * i + 3 \/ p < 4 * i \/ 4 * i + 4 <= p) by lia.
    destruct (Z.leb_spec (4 * i) p), (Z.ltb_spec p (4 * i + 4)); cbn [andb]; try lia;
      destruct C as [-> | [-> | [-> | [-> | C]]]]; try lia;
      repeat match goal with |- context [?x =? ?y] => destruct (Z.eqb_spec x y); try lia end; reflexivity. }
  destruct (IH r4 (i + 1)) as [G' L']; [lia | lia | lia |]. replace (4 * (i + 1) - 4) with (4 * i) in * by lia. cbv zeta in *. split; [| lia].
  intros p Hp. rewrite G', !G by exact Hp.
  destruct (Z.leb_spec (4 * (i + 1)) p), (Z.ltb_spec p (4 * nr)), (Z.leb_spec (4 * i) p), (Z.ltb_spec p (4 * i + 4)); cbn [andb]; trivial; lia.
Qed.

Lemma inv_mix_word_column w : word32 w -> be_enc 4 (inv_mix_word w) = inv_mix_column (be_enc 4 w) /\ word32 (inv_mix_word w).
Proof.
  intros Hw. destruct (bytes_range w Hw) as (H3 & H2 & H1 & H0). unfold inv_mix_word. cbv zeta. rewrite !Te1_sbox by assumption.
  rewrite !be_enc_lxor, (word_bytes w Hw).
  destruct (Td0_column _ (sbox_byte _ H3)) as [-> ?], (Td1_column _ (sbox_byte _ H2)) as [-> ?], (Td2_column _ (sbox_byte _ H1)) as [-> ?],
    (Td3_column _ (sbox_byte _ H0)) as [-> ?].
  split; [| auto using lxor_word32]. rewrite !inv_sbox_sbox by assumption. unfold mixed, inv_mix_column. rewrite circulant_eq. unfold dot.
  xor_columns. reflexivity.
Qed.

(** Round key [i] of a decryption schedule. *)
Lemma decrypt_keys rk N : len rk = 60 -> keys_ok rk -> 0 < N -> 4 * N + 4 <= 60 ->
  let rk' := transform_keys 15 (invert_order 15 rk 0 (4 * N)) 0 1 N in
  keys_ok rk' /\ key_at rk' 0 = key_at rk (4 * N) /\ key_at rk' (4 * N) = key_at rk 0 /\
  forall i, 0 < i < N -> key_at rk' (4 * i) = map inv_mix_word (key_at rk (4 * (N - i))).
Proof.
  intros L W HN Hl. cbv zeta.
  pose proof (invert_order_get N 15 rk 0 ltac:(lia) eq_refl ltac:(lia) ltac:(lia) ltac:(lia)) as [G1 L1]. cbv zeta in G1, L1. rewrite Z.sub_0_r in G1, L1.
  set (rk1 := invert_order 15 rk 0 (4 * N)) in *.
  pose proof (transform_keys_get N 15 rk1 1 ltac:(lia) ltac:(lia) ltac:(lia)) as [G2 _]. cbv zeta in G2. change (4 * 1 - 4) with 0 in G2.
  set (rk2 := transform_keys 15 rk1 0 1 N) in *.
  assert (W1 : forall p, word32 (get rk1 p)).
  { intros p. destruct (Z.lt_ge_cases p 0); [replace (get rk1 p) with (get rk1 0) by (unfold get; f_equal; lia) |]; rewrite G1 by lia; apply W. }
  assert (A : forall a i, 0 <= a <= N -> 0 <= i < 4 -> get rk1 (4 * a + i) = get rk (4 * (N - a) + i)).
  { intros a i Ha Hi. rewrite G1 by lia. f_equal. unfold mirror.
    rewrite <- (Z.div_unique (4 * a + i) 4 a i), <- (Z.mod_unique (4 * a + i) 4 a i) by lia.
    destruct (Z.leb_spec 0 (4 * a + i)), (Z.ltb_spec (4 * a + i) (4 * N + 4)); cbn [andb]; lia. }
  assert (B : forall a i, 0 <= a -> 0 <= i < 4 -> get rk2 (4 * a + i) = if (1 <=? a) && (a <? N) then inv_mix_word (get rk1 (4 * a + i)) else get rk1 (4 * a + i)).
  { intros a i Ha Hi. rewrite G2 by lia.
    destruct (Z.leb_spec (4 * 1) (4 * a + i)), (Z.ltb_spec (4 * a + i) (4 * N)), (Z.leb_spec 1 a), (Z.ltb_spec a N); cbn [andb]; trivial; lia. }
  assert (K : forall rk a, key_at rk (4 * a) = [get rk (4 * a + 0); get rk (4 * a + 1); get rk (4 * a + 2); get rk (4 * a + 3)]) by (intros; now rewrite Z.add_0_r).
  split; [| split; [| split]].
  - intros p. destruct (Z.lt_ge_cases p 0); [replace (get rk2 p) with (get rk2 0) by (unfold get; f_equal; lia) |]; rewrite G2 by lia;
      destruct (_ && _); try apply W1; now apply inv_mix_word_column.
  - change (key_at rk2 0) with (key_at rk2 (4 * 0)). rewrite !K, !B, !A by lia. cbn [Z.leb Z.compare andb]. now rewrite !Z.sub_0_r.
  - change (key_at rk 0) with (key_at rk (4 * 0)). rewrite !K, !B, !A by lia. rewrite Z.ltb_irrefl, andb_false_r, Z.sub_diag. reflexivity.
  - intros i Hi. rewrite !K, !B, !A by lia. destruct (Z.leb_spec 1 i), (Z.ltb_spec i N); try lia. reflexivity.
Qed.

Lemma columns_inv_mix ks : Forall word32 ks -> columns_of (map inv_mix_word ks) = map inv_mix_column (columns_of ks).
Proof.
  intros H. unfold columns_of. rewrite !map_map. apply map_ext_in. intros w Hw. rewrite Forall_forall in H. now apply inv_mix_word_column, H.
Qed.

Lemma inv_mix_add s k : state_ok s -> round_key_ok k -> Forall word32 k ->
  inv_mix_columns (add_round_key s k) = add_round_key (inv_mix_columns s) (map inv_mix_word k).
Proof.
  intros H Hk W. unfold add_round_key. rewrite columns_inv_mix by exact W.
  destruct k as [| k0 [| k1 [| k2 [| k3 [|]]]]]; try discriminate Hk. split_state H. unfold inv_mix_columns, columns_of. cbn [map combine fst snd].
  rewrite !inv_mix_xor by first [apply word_column | apply column_intro; assumption]. reflexivity.
Qed.

(** The equivalent inverse cipher is the inverse cipher. *)
Section Equivalent.
Variables (rk dk : list Z) (N : nat).
Hypotheses (Hrk : keys_ok rk) (Hdk : forall i, (0 < i < N)%nat -> schedule_key dk i = map inv_mix_word (schedule_key rk (N - i))).

Lemma schedule_key_ok (r : list Z) i : round_key_ok (schedule_key r i).
Proof. reflexivity. Qed.

Lemma schedule_key_words i : Forall word32 (schedule_key rk i).
Proof. unfold schedule_key, key_at. repeat apply Forall_cons; try apply Forall_nil; apply Hrk. Qed.

Lemma dec_step_ok s i : state_ok s -> state_ok (dec_step dk s i).
Proof. intros H. apply add_round_key_ok; [| apply schedule_key_ok]. now apply inv_mix_columns_ok, inv_shift_ok, inv_sub_ok. Qed.

Lemma dec_steps_ok l : forall s, state_ok s -> state_ok (fold_left (dec_step dk) l s).
Proof. induction l as [| i l IH]; intros s H; [exact H |]. cbn [fold_left]. now apply IH, dec_step_ok. Qed.

Lemma equivalent_rounds m : forall s, (m < N)%nat -> state_ok s ->
  fold_left (dec_step dk) (seq (N - m) m) s = rounds_down (schedule_key rk) m s.
Proof.
  induction m as [| m IH]; intros s Hm H; [reflexivity |].
  cbn [rounds_down]. replace (seq (N - S m) (S m)) with ((N - S m)%nat :: seq (N - m) m) by (cbn [seq]; do 2 f_equal; lia).
  cbn [fold_left]. set (s' := inv_mix_columns _). assert (E : dec_step dk s (N - S m) = s').
  { unfold dec_step, s'. change (key_at dk (4 * Z.of_nat (N - S m))) with (schedule_key dk (N - S m)). rewrite Hdk by lia.
    replace (N - (N - S m))%nat with (S m) by lia. rewrite inv_mix_add; [| now apply inv_sub_ok, inv_shift_ok | apply schedule_key_ok | apply schedule_key_words].
    now rewrite inv_sub_shift. }
  rewrite E. apply IH; [lia |]. rewrite <- E. now apply dec_step_ok.
Qed.
End Equivalent.

Lemma state_of_ok block : bytes_ok block -> len block = 16 -> state_ok (state_of block).
Proof.
  intros Hb Hl. apply state_ok_cols; [| reflexivity]. unfold state_of. apply Forall_map, Forall_forall. intros i Hi%in_seq.
  destruct (getu32_column block (4 * Z.of_nat i) Hb ltac:(lia) ltac:(lia)) as [<- _]. apply word_column.
Qed.

Lemma rounds_double key : key_size key -> exists r, rounds_of key = (2 * S r)%nat /\ (r <= 6)%nat.
Proof.
  intros Hs. unfold rounds_of. assert (El : length key = Z.to_nat (len key)) by (unfold len; lia).
  destruct Hs as [L | [L | L]]; rewrite L in El; rewrite El; [exists 4%nat | exists 5%nat | exists 6%nat]; split; reflexivity || lia.
Qed.

Lemma decrypt_fips key k0 block : bytes_ok key -> key_size key -> array_ok k0 -> bytes_ok block -> len block = 16 ->
  exists d, AES_set_decrypt_key (Some key) (8 * len key) (Some k0) = (0, Some d) /\ AES_decrypt block d = fips_decrypt key block.
Proof.
  intros Bk Hs H0 Bb Lb. destruct (set_encrypt_key_holds key k0 Bk Hs H0) as (k & E & Er & H). pose proof H as [_ [Lk Wk]].
  unfold AES_set_decrypt_key. rewrite E. cbn [Z.ltb Z.compare]. eexists. split; [reflexivity |].
  destruct (rounds_double key Hs) as (r & Hr & Hr6). rewrite Er. set (N := Z.of_nat (rounds_of key)).
  destruct (decrypt_keys (rd_key k) N Lk (keys_ok_words _ Wk) ltac:(lia) ltac:(lia)) as (Wd & Kd0 & KdN & Kd).
  set (rk' := transform_keys 15 (invert_order 15 (rd_key k) 0 (4 * N)) 0 1 N) in *.
  rewrite (decrypt_fold block (mk_aes_key rk' N) r Bb Lb Wd) by (cbn [rounds]; lia). cbn [rd_key].
  unfold fips_decrypt, inv_cipher. rewrite <- Hr.
  assert (K0 : schedule_key rk' 0 = round_key key (rounds_of key)) by (rewrite <- (round_key_at key k) by (trivial; lia); exact Kd0).
  assert (KN : schedule_key rk' (rounds_of key) = round_key key 0) by (rewrite <- (round_key_at key k) by (trivial; lia); exact KdN).
  rewrite K0, KN. assert (Hst : state_ok (add_round_key (state_of block) (round_key key (rounds_of key)))).
  { apply add_round_key_ok; [now apply state_of_ok |]. rewrite <- K0. reflexivity. }
  replace (seq 1 (2 * r + 1)) with (seq (rounds_of key - (rounds_of key - 1)) (rounds_of key - 1)) by (f_equal; lia).
  assert (Hd : forall i, (0 < i < rounds_of key)%nat -> schedule_key rk' i = map inv_mix_word (schedule_key (rd_key k) (rounds_of key - i))).
  { intros i Hi. unfold schedule_key. rewrite (Kd (Z.of_nat i)) by lia. do 3 f_equal. lia. }
  rewrite <- inv_sub_shift by now apply dec_steps_ok.
  rewrite (equivalent_rounds (rd_key k) rk' (rounds_of key) (keys_ok_words _ Wk) Hd) by (trivial; lia).
  rewrite (rounds_down_ext (schedule_key (rd_key k)) (round_key key)) by (intros i Hi; apply round_key_at; trivial; lia).
  reflexivity.
Qed.

(** ** The cipher as a pair of block functions *)

Lemma round_key_ok_all key i : key_size key -> (i <= rounds_of key)%nat -> round_key_ok (round_key key i).
Proof.
  intros Hs Hi. unfold round_key_ok, round_key.
  assert (L : len (load (key_expansion key (4 * (rounds_of key + 1))) (4 * Z.of_nat i) 4) = 4).
  { pose proof (key_expansion_len key Hs). unfold load. rewrite len_take; [reflexivity | rewrite len_drop by lia; lia]. }
  unfold len in L. lia.
Qed.

Lemma concat_state s : state_ok s -> len (concat s) = 16 /\ bytes_ok (concat s) /\ state_of (concat s) = s.
Proof. intros H. destruct H as [? ? ? ? ? ? ? ? ? ? ? ? ? ? ? ? H]. split; [reflexivity | split; [exact H | reflexivity]]. Qed.

Lemma state_concat block : len block = 16 -> concat (state_of block) = block.
Proof.
  intros Hl. unfold state_of. cbn [map seq concat]. rewrite app_nil_r. unfold load.
  change (4 * Z.of_nat 0) with 0. change (4 * Z.of_nat 1) with 4. change (4 * Z.of_nat 2) with 8. change (4 * Z.of_nat 3) with 12.
  rewrite drop_0. rewrite <- (take_drop 4 block) at 5. f_equal. rewrite <- (take_drop 4 (drop 4 block)) at 2. f_equal.
  rewrite drop_drop by lia. change (4 + 4) with 8. rewrite <- (take_drop 4 (drop 8 block)) at 2. f_equal.
  rewrite drop_drop by lia. apply take_all. rewrite len_drop; lia.
Qed.

(** A round key past the last one, so that the lemmas on the ciphers apply. *)
Definition total_key (key : list Z) (i : nat) : list Z := round_key key (Nat.min i (rounds_of key)).

Lemma total_key_ok key : key_size key -> forall i, round_key_ok (total_key key i).
Proof. intros Hs i. apply round_key_ok_all; [exact Hs | lia]. Qed.

Lemma fips_total key block : key_size key ->
  fips_encrypt key block = concat (cipher (total_key key) (rounds_of key) (state_of block)) /\
  fips_decrypt key block = concat (inv_cipher (total_key key) (rounds_of key) (state_of block)).
Proof.
  intros Hs. assert (T : forall i, (i <= rounds_of key)%nat -> round_key key i = total_key key i) by (intros i Hi; unfold total_key; now rewrite Nat.min_l).
  unfold fips_encrypt, fips_decrypt. rewrite (cipher_ext (round_key key) (total_key key)) by exact T. split; [reflexivity |].
  unfold inv_cipher. rewrite (rounds_down_ext (round_key key) (total_key key)), !T by (lia || (intros; apply T; lia)). reflexivity.
Qed.

(** Each function undoes the other. *)
Lemma fips_roundtrip key block : key_size key -> bytes_ok block -> len block = 16 ->
  (fips_decrypt key (fips_encrypt key block) = block /\ len (fips_encrypt key block) = 16 /\ bytes_ok (fips_encrypt key block)) /\
  (fips_encrypt key (fips_decrypt key block) = block /\ len (fips_decrypt key block) = 16 /\ bytes_ok (fips_decrypt key block)).
Proof.
  intros Hs Hb Hl. pose proof (state_of_ok block Hb Hl) as H. pose proof (total_key_ok key Hs) as Hk.
  rewrite (proj2 (fips_total key (fips_encrypt key block) Hs)), (proj1 (fips_total key (fips_decrypt key block) Hs)).
  rewrite (proj1 (fips_total key block Hs)), (proj2 (fips_total key block Hs)).
  destruct (concat_state _ (cipher_ok (total_key key) Hk (rounds_of key) _ H)) as (L & B & ->).
  destruct (concat_state _ (inv_cipher_ok (total_key key) Hk (rounds_of key) _ H)) as (L' & B' & ->).
  rewrite inv_cipher_cipher, cipher_inv_cipher by (exact Hk || exact H). rewrite !state_concat by exact Hl. auto.
Qed.

Lemma AES_encrypt_block inp k : len (AES_encrypt inp k) = 16 /\ bytes_ok (AES_encrypt inp k).
Proof.
  unfold AES_encrypt, last_round. cbv zeta. destruct (enc_loop _ _ _ _) as [[[[t0 t1] t2] t3] o]. rewrite !len_app, !be_enc_len, !bytes_ok_app.
  split; [reflexivity |]. split; [apply be_enc_bytes | split; [apply be_enc_bytes | split; apply be_enc_bytes]].
Qed.

Lemma AES_decrypt_block inp k : len (AES_decrypt inp k) = 16 /\ bytes_ok (AES_decrypt inp k).
Proof.
  unfold AES_decrypt, last_round. cbv zeta. destruct (dec_loop _ _ _ _) as [[[[t0 t1] t2] t3] o]. rewrite !len_app, !be_enc_len, !bytes_ok_app.
  split; [reflexivity |]. split; [apply be_enc_bytes | split; [apply be_enc_bytes | split; apply be_enc_bytes]].
Qed.

(** The two schedules of one key. *)
Definition schedules (key : list Z) (k d : AES_KEY) : Prop :=
  exists k0 d0, array_ok k0 /\ array_ok d0 /\
    AES_set_encrypt_key (Some key) (8 * len key) (Some k0) = (0, Some k) /\
    AES_set_decrypt_key (Some key) (8 * len key) (Some d0) = (0, Some d).

Lemma schedules_fips key k d block : bytes_ok key -> key_size key -> schedules key k d -> bytes_ok block -> len block = 16 ->
  AES_encrypt block k = fips_encrypt key block /\ AES_decrypt block d = fips_decrypt key block.
Proof.
  intros Bk Hs (k0 & d0 & A & A' & E & E') Bb Lb.
  destruct (encrypt_fips key k0 block Bk Hs A Bb Lb) as (k' & Ek & <-), (decrypt_fips key d0 block Bk Hs A' Bb Lb) as (d' & Ed & <-).
  rewrite E in Ek. rewrite E' in Ed. injection Ek as Ek. injection Ed as Ed. rewrite Ek, Ed. split; reflexivity.
Qed.

(** AES under any key is a block cipher in the sense of the modes. *)
Lemma aes_block_cipher key k d : bytes_ok key -> key_size key -> schedules key k d ->
  BlockCipher (fun b => AES_encrypt b k) (fun b => AES_decrypt b d).
Proof.
  intros Bk Hs S. split.
  - split; intros; apply AES_encrypt_block.
  - split; intros; apply AES_decrypt_block.
  - intros x L B. destruct (schedules_fips key k d x Bk Hs S B L) as [-> _]. destruct (fips_roundtrip key x Hs B L) as [(R & L' & B') _].
    destruct (schedules_fips key k d _ Bk Hs S B' L') as [_ ->]. exact R.
Qed.

Lemma aes_cipher_block key k d x : bytes_ok key -> key_size key -> schedules key k d -> len x = 16 -> bytes_ok x ->
  AES_encrypt (AES_decrypt x d) k = x.
Proof.
  intros Bk Hs S L B. destruct (schedules_fips key k d x Bk Hs S B L) as [_ ->]. destruct (fips_roundtrip key x Hs B L) as [_ (R & L' & B')].
  destruct (schedules_fips key k d _ Bk Hs S B' L') as [-> _]. exact R.
Qed.

(** C9: AES is FIPS 197. Key set-up succeeds exactly for 128, 192 and 256 bits
    (and refuses null pointers with -1, other sizes with -2 and no change); under
    the schedules it makes, whatever the array held before, encryption and
    decryption by tables are the cipher and the inverse cipher of the standard,
    and each undoes the other. *)
Theorem aes_is_fips197 key k0 d0 : array_ok k0 -> array_ok d0 -> bytes_ok key ->
  (key_size key ->
    exists k d, AES_set_encrypt_key (Some key) (8 * len key) (Some k0) = (0, Some k) /\
      AES_set_decrypt_key (Some key) (8 * len key) (Some d0) = (0, Some d) /\
      forall block, bytes_ok block -> len block = 16 ->
        AES_encrypt block k = fips_encrypt key block /\ AES_decrypt block d = fips_decrypt key block /\
        AES_decrypt (AES_encrypt block k) d = block /\ AES_encrypt (AES_decrypt block d) k = block) /\
  (forall bits, bits <> 128 -> bits <> 192 -> bits <> 256 ->
    AES_set_encrypt_key (Some key) bits (Some k0) = (-2, Some k0) /\ AES_set_decrypt_key (Some key) bits (Some k0) = (-2, Some k0)) /\
  (forall bits, AES_set_encrypt_key None bits (Some k0) = (-1, Some k0) /\ AES_set_encrypt_key (Some key) bits None = (-1, None)).
Proof.
  intros A A' Bk. split; [| split].
  - intros Hs. assert (B0 : bytes_ok (repeat 0 16)) by (repeat constructor; unfold byte_ok; lia).
    destruct (encrypt_fips key k0 (repeat 0 16) Bk Hs A B0 eq_refl) as (k & Ek & _), (decrypt_fips key d0 (repeat 0 16) Bk Hs A' B0 eq_refl) as (d & Ed & _).
    exists k, d. split; [exact Ek |]. split; [exact Ed |]. intros block Bb Lb.
    assert (S : schedules key k d) by (exists k0, d0; auto).
    destruct (schedules_fips key k d block Bk Hs S Bb Lb) as [E D]. split; [exact E |]. split; [exact D |].
    destruct (aes_block_cipher key k d Bk Hs S) as [_ _ U]. split; [now apply U | now apply (aes_cipher_block key)].
  - intros bits H1 H2 H3. unfold AES_set_decrypt_key, AES_set_encrypt_key. cbv zeta.
    destruct (Z.eqb_spec bits 128), (Z.eqb_spec bits 192), (Z.eqb_spec bits 256); try contradiction. split; reflexivity.
  - intros bits. split; reflexivity.
Qed.

Lemma aes_is_fips197_witness :
  let key := map Z.of_nat (seq 0 24) in
  let empty := mk_aes_key (repeat 0 60) 0 in
  let junk := mk_aes_key (repeat 12345 60) 7 in
  exists k d, AES_set_encrypt_key (Some key) 192 (Some empty) = (0, Some k) /\ AES_set_decrypt_key (Some key) 192 (Some junk) = (0, Some d) /\
    AES_encrypt (repeat 17 16) k = fips_encrypt key (repeat 17 16) /\ AES_decrypt (AES_encrypt (repeat 17 16) k) d = repeat 17 16.
Proof.
  assert (W : forall x, word32 x -> array_ok (mk_aes_key (repeat x 60) 0)).
  { intros x Hx. split; [reflexivity |]. apply Forall_forall. intros y Hy%repeat_spec. now subst. }
  destruct (proj1 (aes_is_fips197 (map Z.of_nat (seq 0 24)) (mk_aes_key (repeat 0 60) 0) (mk_aes_key (repeat 12345 60) 7)
    (W 0 ltac:(unfold word32; lia)) (W 12345 ltac:(unfold word32; lia)) ltac:(repeat constructor; unfold byte_ok; cbn; lia))
    ltac:(right; left; reflexivity)) as (k & d & Ek & Ed & H).
  exists k, d. split; [exact Ek |]. split; [exact Ed |].
  destruct (H (repeat 17 16)) as (E & _ & R & _); [repeat constructor; unfold byte_ok; lia | reflexivity |]. split; [exact E | exact R].
Defined.
