(* ===== verification/AesModes.v ===== *)
(** * AES in the modes, and key wrapping (fipsmodule/aes/mode_wrappers.c, key_wrap.c)

    The wrappers hand the block functions of Aes to the modes of Modes and Cbc;
    [num] is an [int] that the modes use unsigned. Key wrapping is RFC 3394,
    whose two loops run one counter [t] from 1 to [6 n]. *)

From S2P Require Import Prelude Buffers Memory Modes Cbc Cbs AesSpec Aes.

(** ** mode_wrappers.c *)

Definition AES_ENCRYPT : Z := 1.
Definition AES_DECRYPT : Z := 0.

Definition AES_ctr128_encrypt (misaligned : bool) (inp : list Z) (key : AES_KEY) (ivec ecount_buf : list Z) (num : Z)
  : list Z * (list Z * list Z * Z) :=
  CRYPTO_ctr128_encrypt (fun b => AES_encrypt b key) misaligned (ivec, ecount_buf, num) inp.

(** [enc] is asserted to be one of the two directions. *)
Definition AES_ecb_encrypt (inp : list Z) (key : AES_KEY) (enc : Z) : list Z :=
  if AES_ENCRYPT =? enc then AES_encrypt inp key else AES_decrypt inp key.

Definition AES_cbc_encrypt (strict : bool) (addr : Z) (m : mem) (inp out n : Z) (key : AES_KEY) (ivec : list Z) (enc : Z) : mem * list Z :=
  if negb (enc =? 0) then CRYPTO_cbc128_encrypt (fun b => AES_encrypt b key) strict addr m inp out n ivec
  else CRYPTO_cbc128_decrypt (fun b => AES_decrypt b key) strict addr m inp out n ivec.

Definition AES_ofb128_encrypt (inp : list Z) (key : AES_KEY) (ivec : list Z) (num : Z) : list Z * (list Z * Z) :=
  let num_u := u32 num in
  let '(out, (ivec, num_u)) := CRYPTO_ofb128_encrypt (fun b => AES_encrypt b key) (ivec, num_u) inp in
  (out, (ivec, to_signed 32 num_u)).

Definition AES_cfb128_encrypt (misaligned : bool) (inp : list Z) (key : AES_KEY) (ivec : list Z) (num enc : Z) : list Z * (list Z * Z) :=
  let num_u := u32 num in
  let '(out, (ivec, num_u)) := CRYPTO_cfb128_encrypt (fun b => AES_encrypt b key) misaligned (negb (enc =? 0)) (ivec, num_u) inp in
  (out, (ivec, to_signed 32 num_u)).

(** ** key_wrap.c *)

Definition kDefaultIV : list Z := [166; 166; 166; 166; 166; 166; 166; 166].
Definition kBound : Z := 6.

(** [A[7] ^= t & 0xff; ...; A[4] ^= (t >> 24) & 0xff]. *)
Definition xor_t (A : list Z) (t : Z) : list Z :=
  let A := set A 7 (Z.lxor (get A 7) (Z.land t 0xff)) in
  let A := set A 6 (Z.lxor (get A 6) (Z.land (Z.shiftr t 8) 0xff)) in
  let A := set A 5 (Z.lxor (get A 5) (Z.land (Z.shiftr t 16) 0xff)) in
  set A 4 (Z.lxor (get A 4) (Z.land (Z.shiftr t 24) 0xff)).

Fixpoint wrap_inner (fuel : nat) (key : AES_KEY) (n j i : Z) (A out : list Z) : list Z * list Z :=
  match fuel with
  | O => (A, out)
  | S fuel =>
      if i <=? n then
        let A := splice A 8 (load out (8 * i) 8) in
        let A := AES_encrypt A key in
        let t := u32 (u64 (n * j + i)) in
        let A := xor_t A t in
        let out := splice out (8 * i) (load A 8 8) in
        wrap_inner fuel key n j (i + 1) A out
      else (A, out)
  end.

Fixpoint wrap_outer (fuel : nat) (key : AES_KEY) (n j : Z) (A out : list Z) : list Z * list Z :=
  match fuel with
  | O => (A, out)
  | S fuel =>
      if j <? kBound then
        let '(A, out) := wrap_inner (Z.to_nat n) key n j 1 A out in
        wrap_outer fuel key n (u32 (j + 1)) A out
      else (A, out)
  end.

(** [junk] is the second half of the local [A]; [out] is the buffer on entry. *)
Definition AES_wrap_key (junk : list Z) (key : AES_KEY) (iv : option (list Z)) (out inp : list Z) : Z * list Z :=
  let in_len := len inp in
  if (INT_MAX - 8 <? in_len) || (in_len <? 8) || negb (in_len mod 8 =? 0) then (-1, out) else
  let iv := match iv with None => kDefaultIV | Some iv => iv end in
  let out := splice out 8 inp in
  let A := take 8 iv ++ junk in
  let n := in_len / 8 in
  let '(A, out) := wrap_outer 7 key n 0 A out in
  let out := splice out 0 (take 8 A) in
  (to_signed 32 in_len + 8, out).

Fixpoint unwrap_inner (fuel : nat) (key : AES_KEY) (n j i : Z) (A out : list Z) : list Z * list Z :=
  match fuel with
  | O => (A, out)
  | S fuel =>
      if 0 <? i then
        let t := u32 (u64 (n * j + i)) in
        let A := xor_t A t in
        let A := splice A 8 (load out (8 * (i - 1)) 8) in
        let A := AES_decrypt A key in
        let out := splice out (8 * (i - 1)) (load A 8 8) in
        unwrap_inner fuel key n j (i - 1) A out
      else (A, out)
  end.

(** [j] is unsigned and wraps below 0. *)
Fixpoint unwrap_outer (fuel : nat) (key : AES_KEY) (n j : Z) (A out : list Z) : list Z * list Z :=
  match fuel with
  | O => (A, out)
  | S fuel =>
      if j <? kBound then
        let '(A, out) := unwrap_inner (Z.to_nat n) key n j n A out in
        unwrap_outer fuel key n (u32 (j - 1)) A out
      else (A, out)
  end.

Definition AES_unwrap_key (junk : list Z) (key : AES_KEY) (iv : option (list Z)) (out inp : list Z) : Z * list Z :=
  let in_len := len inp in
  if (INT_MAX <? in_len) || (in_len <? 16) || negb (in_len mod 8 =? 0) then (-1, out) else
  let iv := match iv with None => kDefaultIV | Some iv => iv end in
  let A := take 8 inp ++ junk in
  let out := splice out 0 (load inp 8 (in_len - 8)) in
  let n := in_len / 8 - 1 in
  let '(A, out) := unwrap_outer 7 key n (kBound - 1) A out in
  if negb (CRYPTO_memcmp (take 8 A) (take 8 iv) =? 0) then (-1, out) else
  (to_signed 32 in_len - 8, out).

(** RFC 3394, section 4.1. *)
Example rfc3394_4_1 :
  let key := map Z.of_nat (seq 0 16) in
  let empty := mk_aes_key (repeat 0 60) 0 in
  let data := [0; 17; 34; 51; 68; 85; 102; 119; 136; 153; 170; 187; 204; 221; 238; 255] in
  match AES_set_encrypt_key (Some key) 128 (Some empty), AES_set_decrypt_key (Some key) 128 (Some empty) with
  | (0, Some k), (0, Some d) =>
      let w := AES_wrap_key (repeat 0 8) k None (repeat 0 24) data in
      w = (24, [31; 166; 139; 10; 129; 18; 180; 71; 174; 243; 75; 216; 251; 90; 123; 130; 157; 62; 134; 35; 113; 210; 207; 229]) /\
      AES_unwrap_key (repeat 0 8) d None (repeat 0 16) (snd w) = (16, data)
  | _, _ => False
  end.
Proof. vm_compute. split; reflexivity. Qed.

(** ** RFC 3394 *)

Section Rfc.
Variables (enc dec : list Z -> list Z) (n : Z).

(** Step [t] of wrapping and its inverse, on the integrity value [A] and the
    registers [R], which are [n] blocks of eight bytes. *)
Definition register (t : Z) : Z := 8 * ((t - 1) mod n).

Definition wrap_step (t : Z) (s : list Z * list Z) : list Z * list Z :=
  let B := enc (fst s ++ load (snd s) (register t) 8) in
  (xor_bytes (take 8 B) (be_enc 8 t), splice (snd s) (register t) (drop 8 B)).

Definition unwrap_step (t : Z) (s : list Z * list Z) : list Z * list Z :=
  let B := dec (xor_bytes (fst s) (be_enc 8 t) ++ load (snd s) (register t) 8) in
  (take 8 B, splice (snd s) (register t) (drop 8 B)).

Fixpoint wrap_steps (m : nat) (s : list Z * list Z) : list Z * list Z :=
  match m with O => s | S k => wrap_step (Z.of_nat m) (wrap_steps k s) end.
Fixpoint unwrap_steps (m : nat) (s : list Z * list Z) : list Z * list Z :=
  match m with O => s | S k => unwrap_steps k (unwrap_step (Z.of_nat m) s) end.
End Rfc.

Definition rfc_wrap (enc : list Z -> list Z) (iv data : list Z) : list Z :=
  let n := len data / 8 in
  let '(A, R) := wrap_steps enc n (Z.to_nat (6 * n)) (iv, data) in A ++ R.

(** The data and the integrity value that was found. *)
Definition rfc_unwrap (dec : list Z -> list Z) (wrapped : list Z) : list Z * list Z :=
  let n := len wrapped / 8 - 1 in
  unwrap_steps dec n (Z.to_nat (6 * n)) (take 8 wrapped, drop 8 wrapped).

(** ** The loops compute the steps *)

Lemma len_xor_t A t : len A = 16 -> len (xor_t A t) = 16.
Proof.
  intros HA. do 16 (destruct A as [| ? A]; [discriminate HA |]). destruct A; [reflexivity |].
  rewrite !len_cons in HA. pose proof (len_nonneg A). lia.
Qed.

Lemma xor_t_halves A t : len A = 16 -> 0 <= t < 2 ^ 32 -> xor_t A t = xor_bytes (take 8 A) (be_enc 8 t) ++ drop 8 A.
Proof.
  intros HA Ht. do 16 (destruct A as [| ? A]; [discriminate HA |]). destruct A; [| rewrite !len_cons in HA; pose proof (len_nonneg A); lia].
  change (be_enc 8 t) with (be_enc (4 + 4) t). rewrite be_enc_app. change (256 ^ Z.of_nat 4) with (2 ^ 32). rewrite Z.div_small by lia.
  change (be_enc 4 0) with [0; 0; 0; 0]. rewrite word_bytes by exact Ht. unfold byte3, byte2, byte1, byte0.
  assert (E : Z.land (Z.shiftr t 24) 0xff = Z.shiftr t 24).
  { change 0xff with (Z.ones 8). rewrite Z.land_ones, Z.shiftr_div_pow2 by lia. word_lia. }
  unfold xor_t. cbv zeta. rewrite E. cbv -[Z.lxor Z.land Z.shiftr]. now rewrite !Z.lxor_0_r.
Qed.

(** Splicing where part of the list is not touched. *)
Lemma splice_mid (h R tl : list Z) i (x : list Z) : 0 <= i -> i + len x <= len R -> splice (h ++ R ++ tl) (len h + i) x = h ++ splice R i x ++ tl.
Proof.
  intros Hi Hl. pose proof (len_nonneg h). pose proof (len_nonneg x). unfold splice.
  rewrite take_app_r, drop_app_r by lia. replace (len h + i - len h) with i by lia. replace (len h + i + len x - len h) with (i + len x) by lia.
  rewrite take_app_l, drop_app_l by lia. now rewrite <- !app_assoc.
Qed.

Lemma load_mid (h R tl : list Z) i n : 0 <= i -> 0 <= n -> i + n <= len R -> load (h ++ R ++ tl) (len h + i) n = load R i n.
Proof.
  intros Hi Hn Hl. pose proof (len_nonneg h). unfold load. rewrite drop_app_r by lia. replace (len h + i - len h) with i by lia.
  rewrite drop_app_l, take_app_l by (rewrite ?len_drop; lia). reflexivity.
Qed.

Lemma load_splice (R x : list Z) i : 0 <= i -> i + len x <= len R -> load (splice R i x) i (len x) = x.
Proof.
  intros Hi Hl. pose proof (len_nonneg x). unfold load, splice. rewrite drop_app_exact by (rewrite len_take; lia). now apply take_app_exact.
Qed.

Lemma splice_load (R : list Z) i n : 0 <= i -> 0 <= n -> i + n <= len R -> splice R i (load R i n) = R.
Proof.
  intros Hi Hn Hl. unfold splice, load. rewrite len_take by (rewrite len_drop; lia). rewrite <- (drop_drop n i) by lia.
  rewrite take_drop. apply take_drop.
Qed.

Lemma splice_twice (R x y : list Z) i : 0 <= i -> i + len x <= len R -> len y = len x -> splice (splice R i x) i y = splice R i y.
Proof.
  intros Hi Hl Hy. pose proof (len_nonneg x). unfold splice. rewrite take_app_exact by (rewrite len_take; lia). f_equal. f_equal.
  rewrite app_assoc. rewrite drop_app_exact; [now rewrite Hy | rewrite len_app, len_take; lia].
Qed.

Section Loops.
Context (key : list Z) (k d : AES_KEY) (Bk : bytes_ok key) (Hs : key_size key) (Hkd : schedules key k d).
Context (n : Z) (Hn : 1 <= n <= 2 ^ 28).
Let E (b : list Z) : list Z := AES_encrypt b k.
Let D (b : list Z) : list Z := AES_decrypt b d.

(** The integrity value and the registers. *)
Definition regs_ok (s : list Z * list Z) : Prop := len (fst s) = 8 /\ bytes_ok (fst s) /\ len (snd s) = 8 * n /\ bytes_ok (snd s).

Lemma register_range t : 0 <= register n t /\ register n t + 8 <= 8 * n.
Proof. unfold register. pose proof (Z.mod_pos_bound (t - 1) n ltac:(lia)). lia. Qed.

Lemma register_at j i : 1 <= i <= n -> register n (n * j + i) = 8 * (i - 1).
Proof. intros Hi. unfold register. replace (n * j + i - 1) with (i - 1 + j * n) by lia. rewrite Z.mod_add, Z.mod_small by lia. reflexivity. Qed.

Lemma halves (b : list Z) : len b = 16 -> len (take 8 b) = 8 /\ len (drop 8 b) = 8.
Proof. intros H. rewrite len_take, len_drop by lia. lia. Qed.

Lemma wrap_step_ok t s : regs_ok s -> regs_ok (wrap_step E n t s).
Proof.
  intros (L & B & LR & BR). unfold wrap_step, regs_ok. cbv zeta. cbn [fst snd].
  destruct (AES_encrypt_block (fst s ++ load (snd s) (register n t) 8) k) as [Le Be]. fold (E (fst s ++ load (snd s) (register n t) 8)) in Le, Be.
  destruct (halves _ Le) as [L1 L2]. pose proof (register_range t). rewrite len_xor_bytes, be_enc_len, L1. split; [reflexivity |].
  split; [apply bytes_ok_xor; [now apply bytes_ok_take | apply be_enc_bytes] |]. rewrite len_splice by lia. split; [exact LR |].
  unfold splice. rewrite !bytes_ok_app. auto using bytes_ok_take, bytes_ok_drop.
Qed.

Lemma unwrap_step_ok t s : regs_ok s -> regs_ok (unwrap_step D n t s).
Proof.
  intros (L & B & LR & BR). unfold unwrap_step, regs_ok. cbv zeta. cbn [fst snd]. set (b := xor_bytes _ _ ++ _).
  destruct (AES_decrypt_block b d) as [Le Be]. fold (D b) in Le, Be.
  destruct (halves _ Le) as [L1 L2]. pose proof (register_range t). split; [exact L1 |]. split; [now apply bytes_ok_take |].
  rewrite len_splice by lia. split; [exact LR |]. unfold splice. rewrite !bytes_ok_app. auto using bytes_ok_take, bytes_ok_drop.
Qed.

(** The two steps undo each other, as the two block functions do. *)
Lemma unwrap_wrap_step t s : regs_ok s -> unwrap_step D n t (wrap_step E n t s) = s.
Proof.
  destruct s as [A R]. intros (L & B & LR & BR). cbn [fst snd] in *. unfold unwrap_step, wrap_step. cbv zeta. cbn [fst snd].
  pose proof (register_range t) as Ht. set (o := register n t) in *. set (b := A ++ load R o 8).
  assert (Ll : len (load R o 8) = 8) by (unfold load; rewrite len_take; [reflexivity | rewrite len_drop; lia]).
  assert (Lb : len b = 16) by (unfold b; rewrite len_app; lia).
  assert (Bb : bytes_ok b) by (unfold b, load; rewrite bytes_ok_app; auto using bytes_ok_take, bytes_ok_drop).
  destruct (AES_encrypt_block b k) as [Le Be]. fold (E b) in Le, Be. destruct (halves _ Le) as [L1 L2].
  rewrite xor_bytes_cancel by (rewrite be_enc_len; lia).
  pose proof (load_splice R (drop 8 (E b)) o) as E8. rewrite L2 in E8. rewrite E8 by lia. rewrite take_drop.
  assert (Eb : D (E b) = b) by (destruct (aes_block_cipher key k d Bk Hs Hkd) as [_ _ U]; now apply U).
  assert (T8 : take 8 b = A /\ drop 8 b = load R o 8) by (unfold b; rewrite take_app_exact, drop_app_exact by lia; auto).
  rewrite Eb. destruct T8 as [-> ->]. f_equal. rewrite splice_twice by lia. apply splice_load; lia.
Qed.

Lemma wrap_unwrap_step t s : regs_ok s -> wrap_step E n t (unwrap_step D n t s) = s.
Proof.
  destruct s as [A R]. intros (L & B & LR & BR). cbn [fst snd] in *. unfold unwrap_step, wrap_step. cbv zeta. cbn [fst snd].
  pose proof (register_range t) as Ht. set (o := register n t) in *. set (b := xor_bytes A (be_enc 8 t) ++ load R o 8).
  assert (Ll : len (load R o 8) = 8) by (unfold load; rewrite len_take; [reflexivity | rewrite len_drop; lia]).
  assert (Lx : len (xor_bytes A (be_enc 8 t)) = 8) by (rewrite len_xor_bytes, be_enc_len; lia).
  assert (Lb : len b = 16) by (unfold b; rewrite len_app; lia).
  assert (Bb : bytes_ok b).
  { unfold b, load. rewrite bytes_ok_app. split; [apply bytes_ok_xor; [exact B | apply be_enc_bytes] | auto using bytes_ok_take, bytes_ok_drop]. }
  destruct (AES_decrypt_block b d) as [Le Be]. fold (D b) in Le, Be. destruct (halves _ Le) as [L1 L2].
  pose proof (load_splice R (drop 8 (D b)) o) as E8. rewrite L2 in E8. rewrite E8 by lia. rewrite take_drop.
  assert (Eb : E (D b) = b) by (apply (aes_cipher_block key); assumption).
  assert (T8 : take 8 b = xor_bytes A (be_enc 8 t) /\ drop 8 b = load R o 8) by (unfold b; rewrite take_app_exact, drop_app_exact by lia; auto).
  rewrite Eb. destruct T8 as [-> ->]. rewrite xor_bytes_cancel by (rewrite be_enc_len; lia).
  f_equal. rewrite splice_twice by lia. apply splice_load; lia.
Qed.

Lemma wrap_steps_ok m s : regs_ok s -> regs_ok (wrap_steps E n m s).
Proof. intros H. induction m as [| m IH]; [exact H |]. cbn [wrap_steps]. now apply wrap_step_ok. Qed.

Lemma unwrap_wrap_steps m : forall s, regs_ok s -> unwrap_steps D n m (wrap_steps E n m s) = s.
Proof.
  induction m as [| m IH]; intros s H; [reflexivity |]. cbn [wrap_steps unwrap_steps].
  rewrite unwrap_wrap_step by now apply wrap_steps_ok. now apply IH.
Qed.

Lemma unwrap_steps_ok m : forall s, regs_ok s -> regs_ok (unwrap_steps D n m s).
Proof. induction m as [| m IH]; intros s H; [exact H |]. cbn [unwrap_steps]. now apply IH, unwrap_step_ok. Qed.

Lemma wrap_unwrap_steps m : forall s, regs_ok s -> wrap_steps E n m (unwrap_steps D n m s) = s.
Proof.
  induction m as [| m IH]; intros s H; [reflexivity |]. cbn [wrap_steps unwrap_steps].
  rewrite IH by now apply unwrap_step_ok. now apply wrap_unwrap_step.
Qed.

(** *** The loops *)

Section Inside.
Variables (h tl : list Z) (j : Z).
Hypotheses (Hh : len h = 8) (Hj : 0 <= j < 6).

Lemma wrap_inner_steps fuel : forall i A R s0, 1 <= i <= n + 1 -> n + 1 - i <= Z.of_nat fuel -> len A = 16 -> regs_ok (take 8 A, R) ->
  (take 8 A, R) = wrap_steps E n (Z.to_nat (n * j + i - 1)) s0 ->
  exists A' R', wrap_inner fuel k n j i A (h ++ R ++ tl) = (A', h ++ R' ++ tl) /\ len A' = 16 /\ regs_ok (take 8 A', R') /\
    (take 8 A', R') = wrap_steps E n (Z.to_nat (n * (j + 1))) s0.
Proof.
  induction fuel as [| fuel IH]; intros i A R s0 Hi Hf LA Hr Es; cbn [wrap_inner].
  { exists A, R. rewrite Es. replace (n * (j + 1)) with (n * j + i - 1) by lia. rewrite <- Es. auto. }
  destruct (Z.leb_spec i n).
  2: { exists A, R. rewrite Es. replace (n * (j + 1)) with (n * j + i - 1) by lia. rewrite <- Es. auto. }
  cbv zeta. pose proof Hr as (_ & _ & LR & _). cbn [snd] in LR.
  replace (8 * i) with (len h + 8 * (i - 1)) by lia. rewrite load_mid by lia.
  assert (Ll : len (load R (8 * (i - 1)) 8) = 8) by (unfold load; rewrite len_take; [reflexivity | rewrite len_drop; lia]).
  assert (Ea : splice A 8 (load R (8 * (i - 1)) 8) = take 8 A ++ load R (8 * (i - 1)) 8).
  { unfold splice. rewrite Ll, drop_all, app_nil_r by lia. reflexivity. }
  rewrite Ea. set (b := take 8 A ++ load R (8 * (i - 1)) 8). destruct (AES_encrypt_block b k) as [Le Be]. fold (E b) in *.
  assert (T : 0 <= n * j + i < 2 ^ 31) by nia. rewrite (wrap_small 64), (wrap_small 32) by lia.
  rewrite xor_t_halves by lia. destruct (halves _ Le) as [L1 L2].
  assert (Lx : len (xor_bytes (take 8 (E b)) (be_enc 8 (n * j + i))) = 8) by (rewrite len_xor_bytes, be_enc_len; lia).
  assert (E8 : load (xor_bytes (take 8 (E b)) (be_enc 8 (n * j + i)) ++ drop 8 (E b)) 8 8 = drop 8 (E b)).
  { unfold load. rewrite drop_app_exact, take_all by lia. reflexivity. }
  rewrite E8, splice_mid by lia.
  assert (St : (xor_bytes (take 8 (E b)) (be_enc 8 (n * j + i)), splice R (8 * (i - 1)) (drop 8 (E b))) = wrap_step E n (n * j + i) (take 8 A, R)).
  { unfold wrap_step. rewrite register_at by lia. reflexivity. }
  apply IH; [lia | lia | rewrite len_app; lia | |]; rewrite take_app_exact by lia; rewrite St; [now apply wrap_step_ok |].
  replace (Z.to_nat (n * j + (i + 1) - 1)) with (S (Z.to_nat (n * j + i - 1))) by lia. cbn [wrap_steps]. rewrite Es. f_equal. lia.
Qed.

Lemma unwrap_inner_steps fuel : forall i A R, 0 <= i <= n -> i <= Z.of_nat fuel -> len A = 16 -> regs_ok (take 8 A, R) ->
  exists A' R', unwrap_inner fuel d n j i A (R ++ tl) = (A', R' ++ tl) /\ len A' = 16 /\ regs_ok (take 8 A', R') /\
    unwrap_steps D n (Z.to_nat (n * j + i)) (take 8 A, R) = unwrap_steps D n (Z.to_nat (n * j)) (take 8 A', R').
Proof.
  induction fuel as [| fuel IH]; intros i A R Hi Hf LA Hr; cbn [unwrap_inner].
  { exists A, R. replace (n * j + i) with (n * j) by lia. auto. }
  destruct (Z.ltb_spec 0 i).
  2: { exists A, R. replace (n * j + i) with (n * j) by lia. auto. }
  cbv zeta. pose proof Hr as (_ & _ & LR & _). cbn [snd] in LR.
  assert (T : 0 <= n * j + i < 2 ^ 31) by nia. rewrite (wrap_small 64), (wrap_small 32) by lia.
  rewrite xor_t_halves by lia. set (x := xor_bytes (take 8 A) (be_enc 8 (n * j + i))).
  assert (Lx : len x = 8) by (unfold x; rewrite len_xor_bytes, be_enc_len, len_take; lia).
  pose proof (load_mid [] R tl (8 * (i - 1)) 8) as E0. cbn [app] in E0. change (len (@nil Z) + 8 * (i - 1)) with (8 * (i - 1)) in E0. rewrite E0 by lia.
  assert (Ll : len (load R (8 * (i - 1)) 8) = 8) by (unfold load; rewrite len_take; [reflexivity | rewrite len_drop; lia]).
  assert (Ea : splice (x ++ drop 8 A) 8 (load R (8 * (i - 1)) 8) = x ++ load R (8 * (i - 1)) 8).
  { unfold splice. rewrite take_app_exact, Ll, drop_all, app_nil_r by (rewrite ?len_app, ?len_drop; lia). reflexivity. }
  rewrite Ea. set (b := x ++ load R (8 * (i - 1)) 8). destruct (AES_decrypt_block b d) as [Le Be]. fold (D b) in *. destruct (halves _ Le) as [L1 L2].
  assert (E8 : load (D b) 8 8 = drop 8 (D b)) by (unfold load; apply take_all; lia). rewrite E8.
  pose proof (splice_mid [] R tl (8 * (i - 1)) (drop 8 (D b))) as E1. cbn [app] in E1. change (len (@nil Z) + 8 * (i - 1)) with (8 * (i - 1)) in E1. rewrite E1 by lia.
  assert (St : (take 8 (D b), splice R (8 * (i - 1)) (drop 8 (D b))) = unwrap_step D n (n * j + i) (take 8 A, R)).
  { unfold unwrap_step. rewrite register_at by lia. reflexivity. }
  destruct (IH (i - 1) (D b) (splice R (8 * (i - 1)) (drop 8 (D b)))) as (A' & R' & Ei & LA' & Hr' & Es'); [lia | lia | exact Le | rewrite St; now apply unwrap_step_ok |].
  exists A', R'. split; [exact Ei |]. split; [exact LA' |]. split; [exact Hr' |]. rewrite <- Es', St.
  replace (Z.to_nat (n * j + i)) with (S (Z.to_nat (n * j + (i - 1)))) at 1 by lia. cbn [unwrap_steps]. do 2 f_equal. lia.
Qed.
End Inside.

Lemma wrap_outer_steps h tl s0 fuel : len h = 8 -> forall j A R, 0 <= j <= 6 -> 7 - j <= Z.of_nat fuel -> len A = 16 -> regs_ok (take 8 A, R) ->
  (take 8 A, R) = wrap_steps E n (Z.to_nat (n * j)) s0 ->
  exists A' R', wrap_outer fuel k n j A (h ++ R ++ tl) = (A', h ++ R' ++ tl) /\ len A' = 16 /\ regs_ok (take 8 A', R') /\
    (take 8 A', R') = wrap_steps E n (Z.to_nat (6 * n)) s0.
Proof.
  intros Hh. induction fuel as [| fuel IH]; intros j A R Hj Hf LA Hr Es; [lia |]. cbn [wrap_outer]. unfold kBound.
  destruct (Z.ltb_spec j 6) as [Hlt | Hge].
  2: { exists A, R. replace (6 * n) with (n * j) by nia. auto. }
  destruct (wrap_inner_steps h tl j Hh ltac:(lia) (Z.to_nat n) 1 A R s0) as (A' & R' & -> & LA' & Hr' & Es'); try lia; try assumption.
  { rewrite Es. do 2 f_equal. lia. }
  rewrite wrap_small by lia. apply IH; try assumption; lia.
Qed.

Lemma unwrap_outer_steps tl fuel : forall j A R, 0 <= j < 6 -> j + 2 <= Z.of_nat fuel -> len A = 16 -> regs_ok (take 8 A, R) ->
  exists A' R', unwrap_outer fuel d n j A (R ++ tl) = (A', R' ++ tl) /\ len A' = 16 /\ regs_ok (take 8 A', R') /\
    unwrap_steps D n (Z.to_nat (n * (j + 1))) (take 8 A, R) = (take 8 A', R').
Proof.
  induction fuel as [| fuel IH]; intros j A R Hj Hf LA Hr; [lia |]. cbn [unwrap_outer]. unfold kBound.
  destruct (Z.ltb_spec j 6); [| lia].
  destruct (unwrap_inner_steps tl j Hj (Z.to_nat n) n A R) as (A' & R' & -> & LA' & Hr' & Es'); try lia; try assumption.
  replace (n * (j + 1)) with (n * j + n) by lia. rewrite Es'. destruct (Z.eq_dec j 0) as [-> | Hz].
  - exists A', R'. split; [| rewrite Z.mul_0_r; auto]. destruct fuel as [| fuel]; [lia |]. reflexivity.
  - rewrite wrap_small by lia. destruct (IH (j - 1) A' R') as (A2 & R2 & E2 & H2); try assumption; try lia.
    exists A2, R2. replace (j - 1 + 1) with j in H2 by lia. auto.
Qed.
End Loops.

(** ** Wrapping and unwrapping *)

Section Wrap.
Context (key : list Z) (k d : AES_KEY) (Bk : bytes_ok key) (Hs : key_size key) (Hkd : schedules key k d).
Context (junk : list Z) (Hj : len junk = 8) (iv : option (list Z)).
Hypothesis Hiv : match iv with None => True | Some iv => len iv = 8 /\ bytes_ok iv end.

Definition iv_of : list Z := match iv with None => kDefaultIV | Some iv => iv end.
Definition wrap_size (n : Z) : bool := (8 <=? n) && (n <=? INT_MAX - 8) && (n mod 8 =? 0).
Definition wrapped (data : list Z) : list Z := rfc_wrap (fun b => AES_encrypt b k) iv_of data.

Lemma iv_ok : len iv_of = 8 /\ bytes_ok iv_of.
Proof. unfold iv_of. destruct iv; [exact Hiv |]. split; [reflexivity | repeat constructor; unfold byte_ok; lia]. Qed.

Lemma wrap_size_spec n : wrap_size n = true <-> n = 8 * (n / 8) /\ 1 <= n / 8 <= 2 ^ 28 /\ n <= INT_MAX - 8.
Proof. unfold wrap_size, INT_MAX. rewrite !andb_true_iff, !Z.leb_le, Z.eqb_eq. word_lia. Qed.

Lemma wrap_key_exact out inp : bytes_ok inp -> len inp + 8 <= len out ->
  AES_wrap_key junk k iv out inp =
  if wrap_size (len inp) then (len inp + 8, wrapped inp ++ drop (len inp + 8) out) else (-1, out).
Proof.
  intros Bi Hl. destruct iv_ok as [Lv Bv]. unfold AES_wrap_key. cbv zeta. fold iv_of.
  destruct (wrap_size (len inp)) eqn:Es.
  2: { unfold wrap_size in Es. destruct (Z.leb_spec 8 (len inp)), (Z.leb_spec (len inp) (INT_MAX - 8)), (Z.eqb_spec (len inp mod 8) 0);
         cbn [andb] in Es; try discriminate; destruct (Z.ltb_spec (INT_MAX - 8) (len inp)), (Z.ltb_spec (len inp) 8); cbn [orb negb]; trivial; lia. }
  pose proof Es as En. apply wrap_size_spec in En as (En & Hn & Hmax).
  replace (_ || _) with false.
  2: { symmetry. unfold wrap_size in Es. rewrite !andb_true_iff, !Z.leb_le in Es. destruct Es as [[? ?] ->].
       destruct (Z.ltb_spec (INT_MAX - 8) (len inp)), (Z.ltb_spec (len inp) 8); trivial; lia. }
  set (n := len inp / 8) in *. set (tl := drop (len inp + 8) out).
  assert (Eo : splice out 8 inp = take 8 out ++ inp ++ tl) by (unfold splice, tl; do 3 f_equal; lia). rewrite Eo.
  assert (Lh : len (take 8 out) = 8) by (rewrite len_take; lia).
  destruct (wrap_outer_steps k n Hn (take 8 out) tl (iv_of, inp) 7 Lh 0 (take 8 iv_of ++ junk) inp) as (A & R & -> & LA & Hr & Ew); try lia.
  - rewrite len_app, len_take; lia.
  - rewrite take_app_exact, take_all by (rewrite ?len_take; lia). split; [exact Lv | split; [exact Bv | split; [cbn [snd]; lia | exact Bi]]].
  - rewrite take_app_exact, take_all, Z.mul_0_r by (rewrite ?len_take; lia). reflexivity.
  - f_equal; [unfold to_signed; rewrite wrap_small by (unfold INT_MAX in *; lia); destruct (Z.ltb_spec (len inp) (2 ^ (32 - 1))); [reflexivity | unfold INT_MAX in *; lia] |].
    assert (L8 : len (take 8 A) = 8) by (rewrite len_take; lia).
    unfold splice. rewrite L8. unfold take at 1. cbn [Z.to_nat firstn app]. change (0 + 8) with 8. rewrite drop_app_exact by lia.
    unfold wrapped, rfc_wrap. fold n. rewrite <- Ew. now rewrite app_assoc.
Qed.

Lemma wrapped_size data : bytes_ok data -> wrap_size (len data) = true -> len (wrapped data) = len data + 8 /\ bytes_ok (wrapped data).
Proof.
  intros Bd Es. destruct iv_ok as [Lv Bv]. apply wrap_size_spec in Es as (En & Hn & _). unfold wrapped, rfc_wrap.
  pose proof (wrap_steps_ok k (len data / 8) Hn (Z.to_nat (6 * (len data / 8))) (iv_of, data)) as H.
  destruct (wrap_steps _ _ _ _) as [A R]. destruct H as (LA & BA & LR & BR); [split; [exact Lv | split; [exact Bv | split; [exact En | exact Bd]]] |].
  cbn [fst snd] in *. rewrite len_app, bytes_ok_app. split; [lia | auto].
Qed.

(** Unwrapping succeeds exactly on what wrapping made. *)
Lemma unwrap_key_exact out inp : bytes_ok inp -> len inp - 8 <= len out ->
  let '(r, out') := AES_unwrap_key junk d iv out inp in
  (exists data, bytes_ok data /\ wrap_size (len data) = true /\ inp = wrapped data /\ r = len data /\ out' = data ++ drop (len data) out) \/
  (r = -1 /\ ~ exists data, bytes_ok data /\ wrap_size (len data) = true /\ inp = wrapped data).
Proof.
  intros Bi Hl. destruct iv_ok as [Lv Bv]. unfold AES_unwrap_key. cbv zeta. fold iv_of.
  destruct ((INT_MAX <? len inp) || (len inp <? 16) || negb (len inp mod 8 =? 0)) eqn:Es.
  { right. split; [reflexivity |]. intros (data & Bd & Hd & ->). destruct (wrapped_size data Bd Hd) as [L _]. rewrite L in Es.
    apply wrap_size_spec in Hd. destruct (Z.ltb_spec INT_MAX (len data + 8)), (Z.ltb_spec (len data + 8) 16), (Z.eqb_spec ((len data + 8) mod 8) 0); cbn [orb negb] in Es; word_lia. }
  set (n := len inp / 8 - 1).
  assert (Hn : len inp = 8 * (n + 1) /\ 1 <= n <= 2 ^ 28 /\ len inp <= INT_MAX).
  { unfold n, INT_MAX in *. destruct (Z.ltb_spec 2147483647 (len inp)), (Z.ltb_spec (len inp) 16), (Z.eqb_spec (len inp mod 8) 0); cbn [orb negb] in Es; try discriminate.
    word_lia. }
  destruct Hn as (En & Hn & Hmax). assert (L8 : len (take 8 inp) = 8) by (rewrite len_take; lia).
  assert (El : load inp 8 (len inp - 8) = drop 8 inp) by (unfold load; apply take_all; rewrite len_drop; lia). rewrite El.
  assert (Eo : splice out 0 (drop 8 inp) = drop 8 inp ++ drop (len inp - 8) out).
  { unfold splice. rewrite len_drop by lia. reflexivity. }
  rewrite Eo. set (tl := drop (len inp - 8) out).
  assert (R0 : regs_ok n (take 8 inp, drop 8 inp)).
  { split; [exact L8 |]. split; [now apply bytes_ok_take |]. split; [cbn [snd]; rewrite len_drop; lia | now apply bytes_ok_drop]. }
  destruct (unwrap_outer_steps d n Hn tl 7 (kBound - 1) (take 8 inp ++ junk) (drop 8 inp)) as (A & R & -> & LA & Hr & Eu); [unfold kBound; lia | unfold kBound; lia | rewrite len_app; lia | |].
  { rewrite take_app_exact by lia. exact R0. }
  rewrite take_app_exact in Eu by lia. replace (n * (kBound - 1 + 1)) with (6 * n) in Eu by (unfold kBound; lia).
  pose proof Hr as (LA8 & BA8 & LR & BR). cbn [fst snd] in *. rewrite (take_all 8 iv_of) by lia.
  pose proof (memcmp_loop_zero (take 8 A) iv_of 0 ltac:(unfold len in *; lia)) as Hm. unfold CRYPTO_memcmp.
  assert (Wr : wrap_steps (fun b => AES_encrypt b k) n (Z.to_nat (6 * n)) (take 8 A, R) = (take 8 inp, drop 8 inp)).
  { rewrite <- Eu. now apply (wrap_unwrap_steps key k d Bk Hs Hkd n Hn). }
  assert (Sz : wrap_size (len R) = true).
  { apply wrap_size_spec. rewrite LR. replace (8 * n / 8) with n by (rewrite Z.mul_comm, Z.div_mul; lia). lia. }
  destruct (Z.eqb_spec (CRYPTO_memcmp_loop (take 8 A) iv_of 0) 0) as [Ez | Ez]; cbn [negb].
  - left. apply Hm in Ez as [_ Ez]. exists R. split; [exact BR |]. split; [exact Sz |]. split.
    + unfold wrapped, rfc_wrap. rewrite LR. replace (8 * n / 8) with n by (rewrite Z.mul_comm, Z.div_mul; lia). rewrite <- Ez, Wr. symmetry. apply take_drop.
    + split; [unfold to_signed; rewrite wrap_small by (unfold INT_MAX in *; lia); destruct (Z.ltb_spec (len inp) (2 ^ (32 - 1))); unfold INT_MAX in *; lia |].
      unfold tl. do 2 f_equal. lia.
  - right. split; [reflexivity |]. intros (data & Bd & Hd & Ei). apply Ez, Hm. split; [reflexivity |].
    destruct (wrapped_size data Bd Hd) as [Lw _]. rewrite <- Ei in Lw. apply wrap_size_spec in Hd as (Ed & Hd & _).
    assert (En' : len data / 8 = n) by lia. unfold wrapped, rfc_wrap in Ei. rewrite En' in *.
    pose proof (unwrap_wrap_steps key k d Bk Hs Hkd n Hn (Z.to_nat (6 * n)) (iv_of, data)) as U.
    assert (R1 : regs_ok n (iv_of, data)) by (split; [exact Lv | split; [exact Bv | split; [exact Ed | exact Bd]]]). specialize (U R1).
    pose proof (wrap_steps_ok k n Hn (Z.to_nat (6 * n)) _ R1) as W.
    destruct (wrap_steps (fun b => AES_encrypt b k) n (Z.to_nat (6 * n)) (iv_of, data)) as [A' R'].
    destruct W as (LA' & _). cbn [fst snd] in LA'. subst inp. rewrite take_app_exact, drop_app_exact in Eu by lia. rewrite Eu in U. congruence.
Qed.

Lemma wrapped_inj x y : bytes_ok x -> bytes_ok y -> wrap_size (len x) = true -> wrap_size (len y) = true -> wrapped x = wrapped y -> x = y.
Proof.
  intros Bx By Sx Sy E. assert (El : len x = len y).
  { apply (f_equal len) in E. rewrite (proj1 (wrapped_size x Bx Sx)), (proj1 (wrapped_size y By Sy)) in E. lia. }
  destruct iv_ok as [Lv Bv]. apply wrap_size_spec in Sx as (Ex & Hx & _). unfold wrapped, rfc_wrap in E. rewrite <- El in E. set (n := len x / 8) in *.
  assert (Rx : regs_ok n (iv_of, x)) by (split; [exact Lv | split; [exact Bv | split; [exact Ex | exact Bx]]]).
  assert (Ry : regs_ok n (iv_of, y)) by (split; [exact Lv | split; [exact Bv | split; [cbn [snd]; lia | exact By]]]).
  pose proof (unwrap_wrap_steps key k d Bk Hs Hkd n Hx (Z.to_nat (6 * n)) _ Rx) as Ux.
  pose proof (unwrap_wrap_steps key k d Bk Hs Hkd n Hx (Z.to_nat (6 * n)) _ Ry) as Uy.
  pose proof (wrap_steps_ok k n Hx (Z.to_nat (6 * n)) _ Rx) as (Lx & _). pose proof (wrap_steps_ok k n Hx (Z.to_nat (6 * n)) _ Ry) as (Ly & _).
  destruct (wrap_steps _ n _ (iv_of, x)) as [A R], (wrap_steps _ n _ (iv_of, y)) as [A' R']. cbn [fst snd] in *.
  assert (EA : A = A') by (rewrite <- (take_app_exact 8 A R), <- (take_app_exact 8 A' R'), E by lia; reflexivity).
  assert (ER : R = R') by (rewrite <- (drop_app_exact 8 A R), <- (drop_app_exact 8 A' R'), E by lia; reflexivity).
  subst A' R'. rewrite Ux in Uy. congruence.
Qed.

(** Key wrapping is RFC 3394 under the schedules of any AES key. Wrapping
    accepts whole blocks of eight bytes, at least one and at most what an [int]
    can count, writes the wrapping of the RFC and nothing after it, and returns
    its length; unwrapping succeeds exactly on a wrapping with the same
    integrity value (a null pointer standing for the default), and then writes
    the data that was wrapped. *)
Lemma key_wrap_exact :
  (forall out inp, bytes_ok inp -> len inp + 8 <= len out ->
    AES_wrap_key junk k iv out inp =
    if wrap_size (len inp) then (len inp + 8, wrapped inp ++ drop (len inp + 8) out) else (-1, out)) /\
  (forall out inp, bytes_ok inp -> len inp - 8 <= len out ->
    let '(r, out') := AES_unwrap_key junk d iv out inp in
    (exists data, bytes_ok data /\ wrap_size (len data) = true /\ inp = wrapped data /\ r = len data /\ out' = data ++ drop (len data) out) \/
    (r = -1 /\ ~ exists data, bytes_ok data /\ wrap_size (len data) = true /\ inp = wrapped data)) /\
  (forall out data, bytes_ok data -> wrap_size (len data) = true -> len data <= len out ->
    AES_unwrap_key junk d iv out (wrapped data) = (len data, data ++ drop (len data) out)).
Proof.
  split; [exact wrap_key_exact | split; [exact unwrap_key_exact |]]. intros out data Bd Sd Hl.
  destruct (wrapped_size data Bd Sd) as [Lw Bw]. pose proof (unwrap_key_exact out (wrapped data) Bw ltac:(lia)) as H.
  destruct (AES_unwrap_key _ _ _ _ _) as [r out']. destruct H as [(x & Bx & Sx & E & -> & ->) | [_ N]].
  - now rewrite (wrapped_inj data x Bd Bx Sd Sx E).
  - exfalso. apply N. now exists data.
Qed.
End Wrap.

(** ** The modes *)

Lemma one_call {R} (f : R * Z -> list Z -> list Z * (R * Z)) st inp : calls f st [inp] = (fst (f st inp), snd (f st inp)).
Proof. cbn [calls]. destruct (f st inp) as [o st']. now rewrite app_nil_r. Qed.

Lemma single_inverse {R} (f g : R * Z -> list Z -> list Z * (R * Z)) st inp :
  (forall out st', calls f st [inp] = (out, st') -> concat [out] = out -> calls g st [out] = (concat [inp], st')) ->
  g st (fst (f st inp)) = (inp, snd (f st inp)).
Proof.
  intros H. specialize (H _ _ (one_call f st inp)). cbn [concat] in H. rewrite !app_nil_r in H. specialize (H eq_refl).
  rewrite one_call in H. now rewrite (surjective_pairing (g st _)).
Qed.

Section AesModes.
Context (key : list Z) (k d : AES_KEY) (Bk : bytes_ok key) (Hs : key_size key) (Hkd : schedules key k d).

(** The AES wrappers undo themselves under the schedules of one key: the
    single block, in either order and as FIPS 197 says; the counter, output
    feedback and cipher feedback modes from the same state, with the same state
    left; and CBC in one memory, for the overlaps the code allows. *)
Lemma aes_modes_roundtrip :
  (forall block, bytes_ok block -> len block = 16 ->
    AES_ecb_encrypt block k AES_ENCRYPT = fips_encrypt key block /\
    AES_ecb_encrypt (AES_ecb_encrypt block k AES_ENCRYPT) d AES_DECRYPT = block /\
    AES_ecb_encrypt (AES_ecb_encrypt block d AES_DECRYPT) k AES_ENCRYPT = block) /\
  (forall mis1 mis2 inp ivec ecount_buf num, len ivec = 16 -> bytes_ok ivec -> len ecount_buf = 16 -> 0 <= num < 16 ->
    let '(ct, st) := AES_ctr128_encrypt mis1 inp k ivec ecount_buf num in
    AES_ctr128_encrypt mis2 ct k ivec ecount_buf num = (inp, st)) /\
  (forall inp ivec num, len ivec = 16 -> 0 <= num < 16 ->
    let '(ct, st) := AES_ofb128_encrypt inp k ivec num in AES_ofb128_encrypt ct k ivec num = (inp, st)) /\
  (forall mis1 mis2 inp ivec num, len ivec = 16 -> 0 <= num < 16 ->
    let '(ct, st) := AES_cfb128_encrypt mis1 inp k ivec num AES_ENCRYPT in
    AES_cfb128_encrypt mis2 ct k ivec num AES_DECRYPT = (inp, st)) /\
  (forall s1 a1 s2 a2 m inp out dst n ivec, 0 <= n -> (forall i, byte_ok (m i)) -> len ivec = 16 -> bytes_ok ivec ->
    ahead inp out n -> ahead out dst (round16 n) ->
    let (m1, ivec1) := AES_cbc_encrypt s1 a1 m inp out n k ivec AES_ENCRYPT in
    let (m2, ivec2) := AES_cbc_encrypt s2 a2 m1 out dst n d ivec AES_DECRYPT in
    mload m2 dst n = mload m inp n /\ ivec2 = ivec1).
Proof.
  pose proof (aes_block_cipher key k d Bk Hs Hkd) as BC. pose proof (@cipher_block _ _ BC) as B1.
  split; [| split; [| split; [| split]]].
  - intros block Bb Lb. unfold AES_ecb_encrypt. cbn [Z.eqb Pos.eqb AES_ENCRYPT AES_DECRYPT].
    split; [now apply (schedules_fips key k d) |]. split; [destruct BC as [_ _ U]; now apply U | now apply (aes_cipher_block key)].
  - intros mis1 mis2 inp ivec ec num L B Le Hn. unfold AES_ctr128_encrypt.
    pose proof (single_inverse (CRYPTO_ctr128_encrypt (fun b => AES_encrypt b k) mis1) (CRYPTO_ctr128_encrypt (fun b => AES_encrypt b k) mis2) (ivec, ec, num) inp) as H.
    destruct (CRYPTO_ctr128_encrypt _ mis1 _ inp) as [ct st]. apply H. intros out st'. now apply ctr128_involutive.
  - intros inp ivec num L Hn. unfold AES_ofb128_encrypt. cbv zeta. rewrite wrap_small by lia.
    pose proof (single_inverse (CRYPTO_ofb128_encrypt (fun b => AES_encrypt b k)) (CRYPTO_ofb128_encrypt (fun b => AES_encrypt b k)) (ivec, num) inp) as H.
    destruct (CRYPTO_ofb128_encrypt _ _ inp) as [ct [iv' n']]. cbn [fst snd] in H. rewrite H; [reflexivity |]. intros out st'. now apply ofb128_involutive.
  - intros mis1 mis2 inp ivec num L Hn. unfold AES_cfb128_encrypt. cbv zeta. rewrite wrap_small by lia. cbn [Z.eqb Pos.eqb AES_ENCRYPT AES_DECRYPT negb].
    pose proof (single_inverse (CRYPTO_cfb128_encrypt (fun b => AES_encrypt b k) mis1 true) (CRYPTO_cfb128_encrypt (fun b => AES_encrypt b k) mis2 false) (ivec, num) inp) as H.
    destruct (CRYPTO_cfb128_encrypt _ mis1 true _ inp) as [ct [iv' n']]. cbn [fst snd] in H. rewrite H; [reflexivity |]. intros out st'. now apply cfb128_roundtrip.
  - intros s1 a1 s2 a2 m inp out dst n ivec. unfold AES_cbc_encrypt. cbn [Z.eqb Pos.eqb AES_ENCRYPT AES_DECRYPT negb].
    now apply (cbc128_mem_roundtrip (fun b => AES_encrypt b k) (fun b => AES_decrypt b d)).
Qed.
End AesModes.

(** C10: key wrapping is RFC 3394 and the modes undo themselves, under the schedules
    of any AES key. Wrapping accepts whole blocks of eight bytes, at least one and
    at most what an [int] can count, writes the wrapping of the RFC and nothing
    after it; unwrapping succeeds exactly on a wrapping with the same integrity
    value (a null pointer standing for the default), and then writes the data that
    was wrapped. A block is as FIPS 197 says and undone in either order; counter,
    output feedback and cipher feedback modes are undone from the same state,
    leaving the same state; and CBC in one memory, for the overlaps the code
    allows. *)
Theorem aes_modes_exact key k d : bytes_ok key -> key_size key -> schedules key k d ->
  (forall junk iv, len junk = 8 -> match iv with None => True | Some iv => len iv = 8 /\ bytes_ok iv end ->
  (forall out inp, bytes_ok inp -> len inp + 8 <= len out ->
      AES_wrap_key junk k iv out inp =
      if wrap_size (len inp) then (len inp + 8, wrapped k iv inp ++ drop (len inp + 8) out) else (-1, out)) /\
    (forall out inp, bytes_ok inp -> len inp - 8 <= len out ->
      let '(r, out') := AES_unwrap_key junk d iv out inp in
      (exists data, bytes_ok data /\ wrap_size (len data) = true /\ inp = wrapped k iv data /\ r = len data /\ out' = data ++ drop (len data) out) \/
      (r = -1 /\ ~ exists data, bytes_ok data /\ wrap_size (len data) = true /\ inp = wrapped k iv data)) /\
    (forall out data, bytes_ok data -> wrap_size (len data) = true -> len data <= len out ->
      AES_unwrap_key junk d iv out (wrapped k iv data) = (len data, data ++ drop (len data) out))) /\
  (forall block, bytes_ok block -> len block = 16 ->
    AES_ecb_encrypt block k AES_ENCRYPT = fips_encrypt key block /\
    AES_ecb_encrypt (AES_ecb_encrypt block k AES_ENCRYPT) d AES_DECRYPT = block /\
    AES_ecb_encrypt (AES_ecb_encrypt block d AES_DECRYPT) k AES_ENCRYPT = block) /\
  (forall mis1 mis2 inp ivec ecount_buf num, len ivec = 16 -> bytes_ok ivec -> len ecount_buf = 16 -> 0 <= num < 16 ->
    let '(ct, st) := AES_ctr128_encrypt mis1 inp k ivec ecount_buf num in
    AES_ctr128_encrypt mis2 ct k ivec ecount_buf num = (inp, st)) /\
  (forall inp ivec num, len ivec = 16 -> 0 <= num < 16 ->
    let '(ct, st) := AES_ofb128_encrypt inp k ivec num in AES_ofb128_encrypt ct k ivec num = (inp, st)) /\
  (forall mis1 mis2 inp ivec num, len ivec = 16 -> 0 <= num < 16 ->
    let '(ct, st) := AES_cfb128_encrypt mis1 inp k ivec num AES_ENCRYPT in
    AES_cfb128_encrypt mis2 ct k ivec num AES_DECRYPT = (inp, st)) /\
  (forall s1 a1 s2 a2 m inp out dst n ivec, 0 <= n -> (forall i, byte_ok (m i)) -> len ivec = 16 -> bytes_ok ivec ->
    ahead inp out n -> ahead out dst (round16 n) ->
    let (m1, ivec1) := AES_cbc_encrypt s1 a1 m inp out n k ivec AES_ENCRYPT in
    let (m2, ivec2) := AES_cbc_encrypt s2 a2 m1 out dst n d ivec AES_DECRYPT in
    mload m2 dst n = mload m inp n /\ ivec2 = ivec1).
Proof. intros Bk Hs Hkd. split; [intros junk iv Hj Hiv; now apply (key_wrap_exact key k d) | now apply (aes_modes_roundtrip key)]. Qed.

(** ** Witnesses *)

Definition test_key : list Z := map Z.of_nat (seq 0 16).
Definition empty_key : AES_KEY := mk_aes_key (repeat 0 60) 0.
Definition key_of (r : Z * option AES_KEY) : AES_KEY := match snd r with Some k => k | None => empty_key end.
Definition enc_key : AES_KEY := key_of (AES_set_encrypt_key (Some test_key) 128 (Some empty_key)).
Definition dec_key : AES_KEY := key_of (AES_set_decrypt_key (Some test_key) 128 (Some empty_key)).

Lemma test_key_ok : bytes_ok test_key /\ key_size test_key.
Proof. split; [repeat constructor; unfold byte_ok; cbn; lia | left; reflexivity]. Qed.

Lemma test_schedules : schedules test_key enc_key dec_key.
Proof.
  assert (A : array_ok empty_key) by (split; [reflexivity |]; apply Forall_forall; intros x Hx%repeat_spec; subst; split; [discriminate | reflexivity]).
  exists empty_key, empty_key. split; [exact A |]. split; [exact A |]. split; vm_compute; reflexivity.
Qed.

Lemma aes_modes_exact_witness :
  (AES_wrap_key (repeat 7 8) enc_key None (repeat 0 30) [1; 2; 3; 4; 5; 6; 7; 8] = (16, wrapped enc_key None [1; 2; 3; 4; 5; 6; 7; 8] ++ repeat 0 14) /\
    AES_unwrap_key (repeat 7 8) dec_key None (repeat 9 10) (wrapped enc_key None [1; 2; 3; 4; 5; 6; 7; 8]) = (8, [1; 2; 3; 4; 5; 6; 7; 8; 9; 9])) /\
  (let iv := repeat 3 16 in
    let '(ct, st) := AES_ctr128_encrypt true [10; 20; 30] enc_key iv (repeat 0 16) 14 in
    AES_ctr128_encrypt false ct enc_key iv (repeat 0 16) 14 = ([10; 20; 30], st)).
Proof.
  split.
  { assert (B : bytes_ok [1; 2; 3; 4; 5; 6; 7; 8]) by (repeat constructor; unfold byte_ok; lia).
    split.
    - refine (proj1 (proj1 (aes_modes_exact test_key enc_key dec_key (proj1 test_key_ok) (proj2 test_key_ok) test_schedules) (repeat 7 8) None eq_refl I)
        (repeat 0 30) [1; 2; 3; 4; 5; 6; 7; 8] B _). cbn. lia.
    - refine (proj2 (proj2 (proj1 (aes_modes_exact test_key enc_key dec_key (proj1 test_key_ok) (proj2 test_key_ok) test_schedules) (repeat 7 8) None eq_refl I))
        (repeat 9 10) [1; 2; 3; 4; 5; 6; 7; 8] B eq_refl _). cbn. lia. }
  { refine (proj1 (proj2 (proj2 (aes_modes_exact test_key enc_key dec_key (proj1 test_key_ok) (proj2 test_key_ok) test_schedules)))
      true false [10; 20; 30] (repeat 3 16) (repeat 0 16) 14 _ _ _ _).
    - reflexivity.
    - repeat constructor; unfold byte_ok; lia.
    - reflexivity.
    - lia. }
Defined.
